(* ===== verification/_CoqProject ===== *)
-Q . S2P
Prelude.v
Bpf.v
Extent.v
ExtentAlloc.v
ExtentList.v
Rwlock.v
Timeout.v
Clist.v
Canonpath.v
Tame.v
TameProofs.v
Efivars.v
Libkern.v
Lockf.v
LockfProofs.v
LockfSpec.v
Descrip.v
DescripMaps.v
DescripTable.v
DescripProofs.v
DescripCalls.v
DescripLife.v
DescripCopy.v
DescripOpen.v
DescripSpec.v
Fcntl.v
Ipc.v
Sem.v
SemUndo.v
SemVec.v
SemInv.v
SemCalls.v
SemLife.v
SemWake.v
SemSpec.v
Pipe.v
PipeRing.v
PipeInv.v
PipeRun.v
PipeCalls.v
PipeLife.v
PipeSpec.v
FileCalls.v
Select.v
SelectWait.v
SelectScan.v
SelectSpec.v
SelectPipe.v
Generic.v
GenericSpec.v
Msg.v
MsgInv.v
MsgRun.v
MsgStep.v
MsgLife.v
MsgCalls.v
MsgSpec.v
Msdos.v
MsdosTime.v
MsdosName.v
MsdosShort.v
MsdosSpec.v
