(* ===== verification/Prelude.v ===== *)
(** * Verified parts of the OpenBSD kernel sources (with EFI variables)

    The repository is the kernel tree of OpenBSD (sys/) with a driver for EFI
    variables added (arch/amd64/amd64/efivars.c).  This library models
    self-contained, machine-independent parts of it that keep their own state
    and that the rest of the kernel relies on, and proves what they promise.
    The kernel is the one of conf/GENERIC on amd64: [DIAGNOSTIC] and [DDB] are
    set, [u_long] has 64 bits, several processors run.

    ** The parts, and where they are modelled

    - [Prelude] (this file): machine integers ([wrapu], [wraps] reduce to a
      width, [inu] is membership in an unsigned type), bit operations, errno
      values, the shared automation ([zify_bool], [case_if], the hint database
      [kern]) and lemmas.
    - [Bpf]: the packet filter machine of net/bpf_filter.c.  Programs come from
      user space; net/bpf.c runs [bpf_validate] on them when they are set and
      [bpf_filter] on every packet.  Each group of cases of the interpreter's
      switch is a definition ([exec_ld_abs], [exec_jmp], ...); a packet is a
      buffer or a chain of mbufs, and every access outside one is a [fault].
    - [Extent], [ExtentAlloc]: the extent manager of kern/subr_extent.c, which
      hands out ranges of addresses; first the data and the operations with
      their invariant, then the search for a gap and the contracts.
    - [ExtentList]: the list of all extents.
    - [Rwlock]: the read/write locks of kern/kern_rwlock.c, with the part of
      kern/kern_synch.c that they sleep with, as a step relation in which
      threads interleave at each access to the lock word; and the recursive
      locks built on them.
    - [Timeout]: the timing wheels of kern/kern_timeout.c, as operations on a
      store of timeouts, buckets and a worklist.
    - [Clist]: the terminal queues of kern/tty_subr.c, ring buffers with a bit
      array of quoted characters.
    - [Canonpath], [Tame], [TameProofs]: tame(2) of kern/kern_tame.c: the form
      of path names, the checks of system calls and their arguments, and what a
      tamed process can do; with the gate of sys/syscall_mi.h, the inheritance
      in kern/kern_fork.c and the end of it in kern/kern_exec.c.
    - [Efivars]: the driver arch/amd64/amd64/efivars.c.
    - [Libkern]: the function [ffs] of lib/libkern/ffs.c.
    - [Lockf], [LockfProofs], [LockfSpec]: the byte range locks of
      kern/vfs_lockf.c: the operations on the locks of one file and the requests
      that sleep, their invariant, and their contracts.
    - [Descrip], [DescripMaps], [DescripTable], [DescripProofs],
      [DescripCalls], [DescripLife], [DescripCopy]: the descriptor tables and
      open files of kern/kern_descrip.c.  First all operations; then, from the
      inside out, the bit maps, a table, the counts of references, the calls that
      make descriptors, those that close many, and the copy of a table.
    - [DescripOpen], [DescripSpec]: pipe(2) and kqueue(2) as users of the
      tables, and the contracts of all calls on descriptors.
    - [Fcntl]: the calls that lock through descriptors: fcntl(2) and flock(2),
      and the release of locks on close.
    - [FileCalls]: the other commands of fcntl(2), fstat(2) and fpathconf(2), which
      ask a file through its operations.
    - [Ipc]: the permission check of kern/sysv_ipc.c, with the [vaccess] of
      kern/vfs_subr.c, and the identifiers of sys/ipc.h.
    - [Sem]: the System V semaphores of kern/sysv_sem.c, all of the file, with
      the part of kern/kern_sysctl.c that sets their limits.
    - [SemUndo], [SemVec], [SemInv], [SemCalls], [SemLife], [SemWake],
      [SemSpec]: the undo entries as a map, a vector of operations as a partial
      function on values, the invariant of the state, that each call keeps it,
      the life of the whole, the sleepers, and the contracts.
    - [Pipe]: the pipes of kern/sys_pipe.c, as threads that stop where the code
      sleeps, copies to or from a user process or waits for memory.
    - [PipeRing], [PipeInv], [PipeRun], [PipeCalls], [PipeLife], [PipeSpec]: the
      ring buffer as a sequence of bytes, the invariant of the state with the
      roles of all threads, that the helpers, the calls and the life of a pipe
      keep it in every interleaving, and the contracts.
    - [Select], [SelectWait], [SelectScan], [SelectSpec], [SelectPipe]: select(2)
      and poll(2) of kern/sys_generic.c: the records of who waits for a file and
      the two scans; the loop from scan to sleep in every interleaving; the scan of
      the bit sets as a scan of numbers; the contracts; and select on pipes.
    - [Generic], [GenericSpec]: read(2), write(2) and their vector forms and
      ioctl(2) of kern/sys_generic.c.
    - [Msg]: the System V messages of kern/sysv_msg.c, all of the file, as threads
      that stop where the code sleeps, waits for memory or copies.
    - [MsgInv], [MsgRun], [MsgStep], [MsgLife], [MsgCalls], [MsgSpec]: the
      invariant with the part of each thread in it, changes of one queue, what the
      calls do to the queues, queues and threads that come and go, the pieces of
      the calls, and the contracts.
    - [Msdos]: the names and times of MS-DOS file systems, msdosfs/msdosfs_conv.c,
      with the loops of msdosfs_lookup.c and msdosfs_vnops.c over the directory
      entries of one name.
    - [MsdosTime], [MsdosName], [MsdosShort], [MsdosSpec]: the conversions of times
      and what they keep, long names as rows of cells, short names, the contracts.

    [Descrip] calls [Libkern]; [DescripOpen] calls [Descrip]; [Fcntl] calls
    [Descrip] and [Lockf]; [FileCalls] and [Generic] call [Descrip] and, through
    the classes [FileOps], [PollOps] and [IoctlOps], the operations of a file, of
    which the pipes give instances; [SelectPipe] joins [Select] and [Pipe]; [Sem]
    and [Msg] call [Ipc].  The proofs of a caller use the contracts of what it
    calls ([falloc_spec], [fdrelease_spec], [lf_setlk_correct], ...), not its
    definitions.  The other parts stand alone; all share the conventions below.

    ** How the code is modelled

    C functions are functions on explicit state, with the names of the source.
    A C integer is a [Z] reduced to its width where the C type reduces it.  A
    pointer is an address in a finite map, an offset, or a position in a list,
    as the header of each file says; shared objects (whitelists, timeouts) are
    entries of such a map, so that aliasing is kept.  Errors are errno values; a
    [panic] and an access outside an object are results of their own, and the
    theorems show where they cannot happen.  Code that can block is cut where it
    sleeps; code that runs with other processors is cut at each shared access.
    What is outside of the sources modelled is an argument: the success of
    [pool_get] and [malloc] without permission to wait, the memory of a user
    process, the current directory, open files, the firmware.

    ** What the theorems show

    Each theorem says what it excludes; where that is a defect of the code an
    Example shows it.

    - C1, C2 ([Bpf]): a validated program ends within its length and never
      leaves its memory or its packet, on chains without empty links; the only
      fault it can meet is a shift by 32 or more, which the validator leaves open.
      A chain of mbufs of three bytes or more gives the result of the contiguous
      packet.
    - C3 to C6 ([ExtentAlloc]): allocation (without EX_CONFLICTOK, which is broken)
      and release implement a set of values; an allocated place is free, within its
      boundary and, if boundary lines are aligned, aligned; without a boundary one
      is found if there is one; the loops end.
    - C7, C8 ([Rwlock]): in every interleaving a writer is alone and a sleeping
      thread is woken up.
    - C9 ([Timeout]): the wheels refine a map from timeouts to times.
    - C10 ([Clist]): the operations are those of a double-ended queue.
    - C11 ([Canonpath]): the canonical form of a path.
    - C12 to C14 ([TameProofs]): the whitelist of paths, with its exceptions;
      authority over the life of a process, up to an execve for which it has the
      flag; the gate.
    - C15 ([Efivars]): what the driver's ioctls do, for any firmware: they ask for
      the variable B, not Boot0000.
    - C16 to C18 ([LockfSpec]): the locks implement a map from owners and offsets
      to lock types, for every sequence of operations whose ranges do not overflow,
      sleeps and signals; no wake-up is lost.
    - C19 to C21 ([DescripSpec]): with maxfiles up to 12800 a table and its files
      stay well formed under every sequence of calls (without opens of /dev/fd),
      with exact counts; the search in the bit maps is a linear search; a failed pipe
      leaves no trace.
    - C22 ([Fcntl]): no lock outlives its descriptor, races included, unless the
      user is over the limit of locks.
    - C23 to C26 ([SemSpec]): the state of the semaphores stays consistent; a
      vector of operations is done as a whole or not at all; its undo entries
      take it back when the process ends; no wake-up is lost.  This for calls one at
      a time, in which nobody runs while an allocation sleeps, and without those
      that meet a defect of the code.
    - C27 to C29 ([MsgSpec]): no call on messages panics or uses what was freed;
      the queues implement lists from which a receiver takes the first message, or
      the first of its type; no wake-up is lost.  Excluded are two receivers that
      copy the same message at one time and, for senders that sleep, the steps that
      free room without a wake-up.
    - C30 to C33 ([PipeSpec]): the pipes implement queues of bytes; a small write is
      atomic; threads that all sleep have a reason to; the fields of a pipe are true
      and it is not freed in use.  Excluded are writes of 2 GB and the resize of a
      buffer that is no longer empty, which lose bytes or never end.
    - C34, C35 ([SelectSpec]): a thread asleep in select or poll has nothing ready
      for which no wake-up is on its way, if scans do not overlap;
      the scan by words is a scan of all numbers.
    - C36 ([SelectPipe]): select on pipes tells what is true of them, and changes
      nothing but PIPE_SEL and the record of who selects.
    - C37 ([GenericSpec]): ioctl hands out no byte of the kernel's stack or heap
      that it did not set.
    - C38 to C40 ([MsdosSpec]): a long name that is written to a directory is read
      and found again, without its trailing blanks and dots; times are converted to
      DOS and back, and what is kept from call to call does not show; no directory
      entry makes the kernel write beyond the buffer of a name.

    Other theorems of the files show more of the same parts (the creation of extents
    and the list of them, recursive locks, that correct callers of locks meet no
    panic, the end of [softclock], that a timeout runs at its tick, conversions of
    times, [clrbits] as its loop, blocks and round trips of terminal queues, the
    words of a tame(2) request, that it only takes away, the counts of whitelists,
    which paths it lets through and what is left of the network, unlocking and
    reading locks and the counts of locks per user, dup(2), dup2(2), close(2) and
    its like, that fork and exit of a child are a round trip, F_SETLK, messages with
    descriptors, semget(2) and the removal of a set, the status flags of a file,
    that poll(2) tells the truth of a pipe, what a read of a pipe returns, the scan
    of poll(2), that a message goes through a queue unchanged, that the removal of a
    message queue ends, that a transfer is of the size asked for and counted, that
    short names of DOS are valid and come back) and, as Examples at the end of a
    file, where the code does not do what its comments say.

    ** Bounds and fuel

    Loops that are not structural take fuel. [bpf_filter]: the length of the
    program, enough by C1 (jumps go forward). [extent_alloc_region]: the number of
    regions plus two, enough by C6. [softclock]: the length of the worklist, enough
    by [Timeout.softclock_runs_due]. The block loops of [Clist]: two turns, enough
    by [Clist.clist_blocks] (a ring is at most two blocks). [tame_request]: the
    length of the text, enough by [TameProofs.tame_request_spec]. [count_paths]:
    [TAME_MAXPATHS], the bound of the code. [cmsg_scan]: the length of the buffer; a
    header of length 0 loops for ever in the code and runs out of fuel in the model.
    The loops of [Lockf]: the number of locks plus one, enough by C16 (each turn
    passes a lock). [fdalloc]: two rounds, enough by C20. The restarts after
    [fdexpand]: 32, enough by [DescripSpec.dup_lowest], [DescripSpec.dup2_replaces]
    and C21 (a table doubles). [clear_ents] of [Sem]: the number of entries plus
    one, enough by [SemSpec.semget_rmid] (each turn passes or removes an entry).
    [write_retry] of [Pipe]: one jump back, enough by C30 (behind it the lock is
    free). [scan_bits] of [Select]: the 32 bits of a word, enough by C35.
    [mbuf_sizes] of [Msg]: the length of the message, enough by
    [MsgStep.mbuf_sizes_small] (each mbuf takes a byte at least). [year_loop] of
    [Msdos]: 138 years, enough by C39. The theorems on descriptors are for limits of
    at most 12800 descriptors, so that a table has fewer than 25600 entries: at that
    size [find_next_zero] can leave the high map
    ([DescripSpec.find_next_zero_overruns]).

    ** What is not modelled

    Drivers, file systems (but for [Msdos]), network protocols, virtual memory, the
    scheduler, the architectures' machine-dependent code, boot programs, third-party code
    (zlib, x86emu, microcode) and everything else of the tree.  Of the files
    above: printing, tracing ([KTRACE], systrace), memory barriers (memory is
    sequentially consistent), the order of the list of all open files, credentials
    and directories of a table, event queues, the signal mask of pselect(2) and
    ppoll(2), and the calls of other subsystems into the modelled operations.  A call
    on descriptors holds the lock of the table, so that calls do not interleave
    except where they sleep.  An operation of [Lockf] and a call of [Sem] is one step
    up to its sleep, also where it allocates memory, which may sleep; [semu_alloc]
    and [sys_semget] take what others did meanwhile as an argument, for the Examples.

    The parts that would come next, in this order: the event queues of
    kern/kern_event.c, the checksum of netinet/in_cksum.c, and the string functions
    of lib/libkern. *)

From Stdlib Require Export ZArith Lia.
From stdpp Require Export base tactics numbers strings gmap list.
#[export] Set Default Goal Selector "!".
#[global] Open Scope Z_scope.

(** ** Machine integers

    A w-bit C integer is a [Z]; arithmetic is done in [Z] and reduced where
    the C type reduces it.  [wrapu] is the reduction of the unsigned types,
    [wraps] the two's complement reduction of the signed ones. *)

Definition wrapu (w x : Z) : Z := x mod 2 ^ w.
Definition wraps (w x : Z) : Z := (x + 2 ^ (w - 1)) mod 2 ^ w - 2 ^ (w - 1).

Abbreviation u8 := (wrapu 8).
Abbreviation u16 := (wrapu 16).
Abbreviation u32 := (wrapu 32).
Abbreviation u64 := (wrapu 64).
Abbreviation s16 := (wraps 16).
Abbreviation s32 := (wraps 32).

(** [inu w x]: [x] is a value of the unsigned w-bit type. *)
Definition inu (w x : Z) : Prop := 0 <= x < 2 ^ w.
#[global] Instance inu_dec w x : Decision (inu w x).
Proof. unfold inu. apply _. Defined.

Declare Scope c_scope.
Delimit Scope c_scope with c.
Infix ".|" := Z.lor (at level 50, left associativity) : c_scope.
Infix ".&" := Z.land (at level 45, left associativity) : c_scope.
#[global] Open Scope c_scope.

(** [has x f] is the C test [(x & f) != 0]; [clear x f] is [x & ~f]. *)
Definition has (x f : Z) : bool := negb (Z.land x f =? 0).
Definition clear (x f : Z) : Z := Z.ldiff x f.

(** ** Results of kernel functions *)

(** A call returns or stops the machine with [panic]. *)
Inductive outcome (A : Type) : Type :=
| Ok (a : A)
| Panic.
Arguments Ok {A} a.
Arguments Panic {A}.

#[global] Instance outcome_bind : MBind outcome := fun A B f m =>
  match m with Ok a => f a | Panic => Panic end.
#[global] Instance outcome_ret : MRet outcome := fun A a => Ok a.

(** errno values used by the components, from sys/errno.h. *)
Definition EPERM : Z := 1.
Definition ENOENT : Z := 2.
Definition ENXIO : Z := 6.
Definition E2BIG : Z := 7.
Definition EBADF : Z := 9.
Definition EDEADLK : Z := 11.
Definition ENOMEM : Z := 12.
Definition EFAULT : Z := 14.
Definition EBUSY : Z := 16.
Definition EINVAL : Z := 22.
Definition EAGAIN : Z := 35.
Definition ENAMETOOLONG : Z := 63.

(** ** Automation *)

Create HintDb kern discriminated.

(** A closed proposition with a [Decision] instance, by evaluation. *)
Ltac by_decide := apply (bool_decide_unpack _); by vm_compute.

(** Split boolean tests of hypotheses and goal into their Prop readings. *)
Ltac zify_bool :=
  repeat match goal with
  | H : andb _ _ = true |- _ => apply andb_true_iff in H as [? ?]
  | H : andb _ _ = false |- _ => apply andb_false_iff in H
  | H : orb _ _ = false |- _ => apply orb_false_iff in H as [? ?]
  | H : orb _ _ = true |- _ => apply orb_true_iff in H
  | H : negb _ = true |- _ => apply negb_true_iff in H
  | H : negb _ = false |- _ => apply negb_false_iff in H
  | H : (_ <? _) = true |- _ => apply Z.ltb_lt in H
  | H : (_ <? _) = false |- _ => apply Z.ltb_ge in H
  | H : (_ <=? _) = true |- _ => apply Z.leb_le in H
  | H : (_ <=? _) = false |- _ => apply Z.leb_gt in H
  | H : (_ =? _) = true |- _ => apply Z.eqb_eq in H
  | H : (_ =? _) = false |- _ => apply Z.eqb_neq in H
  end.

(** Case on the first boolean [if] of the goal, keeping its equation. *)
Ltac case_if :=
  match goal with
  | |- context [if ?b then _ else _] => destruct b eqn:?; zify_bool
  end.

(** Case on the first boolean [if] of hypothesis [H]. *)
Ltac case_if_in H :=
  match type of H with
  | context [if ?b then _ else _] => destruct b eqn:?; zify_bool
  end.

(** ** Lemmas on machine integers *)

Lemma wrapu_range w x : 0 <= w -> inu w (wrapu w x).
Proof. intros. apply Z.mod_pos_bound. apply Z.pow_pos_nonneg; lia. Qed.

Lemma wrapu_small w x : inu w x -> wrapu w x = x.
Proof. apply Z.mod_small. Qed.

Lemma wraps_range w x : 0 < w -> - 2 ^ (w - 1) <= wraps w x < 2 ^ (w - 1).
Proof.
  intros Hw. unfold wraps.
  pose proof (Z.mod_pos_bound (x + 2 ^ (w - 1)) (2 ^ w) ltac:(apply Z.pow_pos_nonneg; lia)).
  assert (2 ^ w = 2 * 2 ^ (w - 1)).
  { rewrite <- Z.pow_succ_r by lia. f_equal; lia. }
  lia.
Qed.

Lemma wraps_small w x : 0 < w -> - 2 ^ (w - 1) <= x < 2 ^ (w - 1) -> wraps w x = x.
Proof.
  intros Hw Hx. unfold wraps.
  assert (2 ^ w = 2 * 2 ^ (w - 1)).
  { rewrite <- Z.pow_succ_r by lia. f_equal; lia. }
  rewrite Z.mod_small; lia.
Qed.

(** Storing an unsigned value in a signed cell and reading it back keeps it. *)
Lemma wrapu_wraps w x : 0 <= w -> wrapu w (wraps w x) = wrapu w x.
Proof.
  intros Hw. unfold wrapu, wraps.
  rewrite Zminus_mod_idemp_l. f_equal. lia.
Qed.

Lemma testbit_above w x i : inu w x -> 0 <= w <= i -> Z.testbit x i = false.
Proof.
  intros Hx Hi. rewrite <- (Z.mod_small x (2 ^ w)) by exact Hx.
  apply Z.mod_pow2_bits_high. lia.
Qed.

(** A nonnegative number whose bits from [w] on are clear is a w-bit value. *)
Lemma inu_bits w x :
  0 <= w -> (forall i, w <= i -> Z.testbit x i = false) -> 0 <= x -> inu w x.
Proof.
  intros Hw Hb Hx. split; [done|].
  destruct (decide (x = 0)) as [->|]; [apply Z.pow_pos_nonneg; lia|].
  destruct (Z.lt_ge_cases x (2 ^ w)) as [|Hge]; [done|].
  assert (w <= Z.log2 x) by (rewrite <- (Z.log2_pow2 w) by lia; by apply Z.log2_le_mono).
  specialize (Hb (Z.log2 x) ltac:(lia)). rewrite Z.bit_log2 in Hb; [done|lia].
Qed.

Lemma inu_land w x y : 0 <= w -> inu w x -> 0 <= y -> inu w (Z.land x y).
Proof.
  intros Hw Hx Hy. apply inu_bits; [done| |apply Z.land_nonneg; left; apply Hx].
  intros i Hi. by rewrite Z.land_spec, (testbit_above w) by (done || lia).
Qed.

Lemma inu_lor w x y : 0 <= w -> inu w x -> inu w y -> inu w (Z.lor x y).
Proof.
  intros Hw Hx Hy.
  apply inu_bits; [done| |apply Z.lor_nonneg; split; [apply Hx|apply Hy]].
  intros i Hi. by rewrite Z.lor_spec, !(testbit_above w) by (done || lia).
Qed.

Lemma inu_mono w w' x : w <= w' -> inu w x -> inu w' x.
Proof.
  intros Hw [? Hx]. split; [done|].
  pose proof (Z.pow_le_mono_r 2 w w'). lia.
Qed.

Lemma inu_shiftl w n x : 0 <= w -> 0 <= n -> inu w x -> inu (w + n) (Z.shiftl x n).
Proof.
  intros Hw Hn [? ?]. unfold inu. rewrite Z.shiftl_mul_pow2, Z.pow_add_r by lia.
  pose proof (Z.pow_pos_nonneg 2 n). nia.
Qed.

Lemma inu_shiftr w n x : 0 <= n -> inu w x -> inu w (Z.shiftr x n).
Proof.
  intros Hn [? ?]. unfold inu. rewrite Z.shiftr_div_pow2 by lia.
  pose proof (Z.pow_pos_nonneg 2 n). split; [apply Z.div_pos; lia|].
  apply Z.le_lt_trans with x; [apply Z.div_le_upper_bound; nia|done].
Qed.

(** Clearing bits is subtracting the ones that are set. *)
Lemma ldiff_sub_land x m : Z.ldiff x m = x - (x .& m).
Proof.
  rewrite Z.sub_nocarry_ldiff.
  - apply Z.bits_inj'. intros i Hi. rewrite !Z.ldiff_spec, Z.land_spec.
    by destruct (Z.testbit x i), (Z.testbit m i).
  - apply Z.bits_inj'. intros i Hi. rewrite Z.ldiff_spec, Z.land_spec, Z.bits_0.
    by destruct (Z.testbit x i), (Z.testbit m i).
Qed.

(** Flags that are raised and cleared. *)
Lemma flag_lor x f g : has (x .| f) g = has x g || has f g.
Proof.
  unfold has. rewrite Z.land_lor_distr_l, <- negb_andb. f_equal.
  destruct (Z.eqb_spec (x .& g) 0) as [->|Hx].
  - by rewrite Z.lor_0_l.
  - apply Z.eqb_neq. intros E. by apply Z.lor_eq_0_iff in E as [? ?].
Qed.

Lemma flag_clear x f g : has (clear x f) g = has x (clear g f).
Proof.
  unfold has, clear. do 2 f_equal. apply Z.bits_inj'. intros i Hi.
  rewrite !Z.land_spec, !Z.ldiff_spec. by destruct (Z.testbit x i), (Z.testbit g i), (Z.testbit f i).
Qed.

(** ** Sums over a map *)

Definition msum {A} (f : A -> Z) (m : gmap Z A) : Z := map_fold (fun _ x z => f x + z) 0 m.

Lemma msum_insert {A} (f : A -> Z) m a x : m !! a = None -> msum f (<[a := x]> m) = f x + msum f m.
Proof. intros Hn. unfold msum. rewrite map_fold_insert_L; [done| |done]. intros. lia. Qed.

Lemma msum_delete {A} (f : A -> Z) m a x : m !! a = Some x -> msum f (delete a m) = msum f m - f x.
Proof.
  intros Hm. rewrite <- (insert_id m a x Hm) at 2. rewrite <- insert_delete_eq.
  rewrite msum_insert by apply lookup_delete_eq. lia.
Qed.

Lemma msum_update {A} (f : A -> Z) m a x y :
  m !! a = Some x -> msum f (<[a := y]> m) = msum f m - f x + f y.
Proof.
  intros Hm. rewrite <- insert_delete_eq, msum_insert by apply lookup_delete_eq.
  rewrite (msum_delete f m a x Hm). lia.
Qed.

#[export] Hint Resolve wrapu_range inu_land inu_lor inu_shiftr : kern.
