(* ===== verification/Bpf.v ===== *)
(** * The packet filter machine (net/bpf_filter.c)

    [bpf_filter] interprets a filter program on a packet, [bpf_validate] is
    the check the kernel makes before it accepts a program from user space,
    and [bpf_tap_filter] is the call made by [bpf_tap] in net/bpf.c.  The
    interpreter is total: what C leaves undefined or what would read or
    write outside an object is a [fault] value, so that a theorem about the
    absence of faults is a memory safety theorem about the C code. *)

From S2P Require Import Prelude.

(** ** Instruction encodings (net/bpf.h) *)

Definition BPF_LD : Z := 0x00.
Definition BPF_LDX : Z := 0x01.
Definition BPF_ST : Z := 0x02.
Definition BPF_STX : Z := 0x03.
Definition BPF_ALU : Z := 0x04.
Definition BPF_JMP : Z := 0x05.
Definition BPF_RET : Z := 0x06.
Definition BPF_MISC : Z := 0x07.
Definition BPF_W : Z := 0x00.
Definition BPF_H : Z := 0x08.
Definition BPF_B : Z := 0x10.
Definition BPF_IMM : Z := 0x00.
Definition BPF_ABS : Z := 0x20.
Definition BPF_IND : Z := 0x40.
Definition BPF_MEM : Z := 0x60.
Definition BPF_LEN : Z := 0x80.
Definition BPF_MSH : Z := 0xa0.
Definition BPF_ADD : Z := 0x00.
Definition BPF_SUB : Z := 0x10.
Definition BPF_MUL : Z := 0x20.
Definition BPF_DIV : Z := 0x30.
Definition BPF_OR : Z := 0x40.
Definition BPF_AND : Z := 0x50.
Definition BPF_LSH : Z := 0x60.
Definition BPF_RSH : Z := 0x70.
Definition BPF_NEG : Z := 0x80.
Definition BPF_JA : Z := 0x00.
Definition BPF_JEQ : Z := 0x10.
Definition BPF_JGT : Z := 0x20.
Definition BPF_JGE : Z := 0x30.
Definition BPF_JSET : Z := 0x40.
Definition BPF_K : Z := 0x00.
Definition BPF_X : Z := 0x08.
Definition BPF_A : Z := 0x10.
Definition BPF_TAX : Z := 0x00.
Definition BPF_TXA : Z := 0x80.

Definition BPF_CLASS (code : Z) : Z := code .& 0x07.
Definition BPF_MODE (code : Z) : Z := code .& 0xe0.
Definition BPF_OP (code : Z) : Z := code .& 0xf0.
Definition BPF_SRC (code : Z) : Z := code .& 0x08.

Definition BPF_MEMWORDS : Z := 16.
Definition BPF_MAXINSNS : Z := 512.

(** [struct bpf_insn]. *)
Record bpf_insn := BpfInsn { code : Z; jt : Z; jf : Z; k : Z }.

(** The values the C type of an instruction can hold. *)
Definition insn_wf (p : bpf_insn) : Prop :=
  inu 16 (code p) /\ inu 8 (jt p) /\ inu 8 (jf p) /\ inu 32 (k p).

(** ** Packets

    [p] is either a contiguous buffer, or a [struct mbuf *]: a chain whose
    links hold [m_len] bytes each. *)

Inductive packet :=
| Buf (bytes : list Z)
| Mbufs (chain : list (list Z)).

Definition byte_ok (b : Z) : Prop := 0 <= b < 256.

(** What goes wrong when C has no defined behaviour left. *)
Inductive fault :=
| F_pc        (* instruction fetch outside the program *)
| F_mem       (* index outside mem[BPF_MEMWORDS] *)
| F_div       (* division by zero *)
| F_shift     (* shift by the width or more *)
| F_pkt       (* read outside the packet data *)
| F_type.     (* a buffer used as a struct mbuf, or the converse *)

Definition byte_at (l : list Z) (i : Z) : option Z :=
  if i <? 0 then None else l !! Z.to_nat i.

Definition mlen (m : list Z) : Z := Z.of_nat (length m).

(** [EXTRACT_SHORT] and [EXTRACT_LONG]: big endian loads. *)
Definition EXTRACT_SHORT (p : list Z) (i : Z) : option Z :=
  b0 ← byte_at p i; b1 ← byte_at p (i + 1);
  Some (Z.shiftl b0 8 .| b1).

Definition EXTRACT_LONG (p : list Z) (i : Z) : option Z :=
  b0 ← byte_at p i; b1 ← byte_at p (i + 1);
  b2 ← byte_at p (i + 2); b3 ← byte_at p (i + 3);
  Some (Z.shiftl b0 24 .| Z.shiftl b1 16 .| Z.shiftl b2 8 .| b3).

(** A load from the packet: a value, the [return 0] of a packet that is too
    short, or a fault. *)
Inductive load :=
| LVal (v : Z)
| LShort
| LFault (f : fault).

Definition load_of (o : option Z) : load :=
  match o with Some v => LVal v | None => LFault F_pkt end.

(** [MINDEX]: the link that holds byte [k], its remainder and the chain
    after it; [None] when the chain ends first. *)
Fixpoint MINDEX (m : list Z) (m_next : list (list Z)) (k : Z)
  : option (list Z * list (list Z) * Z) :=
  if mlen m <=? k then
    match m_next with
    | [] => None
    | m' :: next => MINDEX m' next (k - mlen m)
    end
  else Some (m, m_next, k).

Definition bpf_m_xword (chain : list (list Z)) (k : Z) : load :=
  match chain with
  | [] => LFault F_type
  | m0 :: rest =>
    match MINDEX m0 rest k with
    | None => LShort
    | Some (m, next, k) =>
      let len := mlen m in
      if u32 (k + 4) <=? len then load_of (EXTRACT_LONG m k) else
      match next with
      | [] => LShort
      | m0 :: _ =>
        if u32 (mlen m0 + len - k) <? 4 then LShort else
        load_of
          (if u32 (len - k) =? 1 then
             c0 ← byte_at m k; n0 ← byte_at m0 0;
             n1 ← byte_at m0 1; n2 ← byte_at m0 2;
             Some (Z.shiftl c0 24 .| Z.shiftl n0 16 .| Z.shiftl n1 8 .| n2)
           else if u32 (len - k) =? 2 then
             c0 ← byte_at m k; c1 ← byte_at m (k + 1);
             n0 ← byte_at m0 0; n1 ← byte_at m0 1;
             Some (Z.shiftl c0 24 .| Z.shiftl c1 16 .| Z.shiftl n0 8 .| n1)
           else
             c0 ← byte_at m k; c1 ← byte_at m (k + 1);
             c2 ← byte_at m (k + 2); n0 ← byte_at m0 0;
             Some (Z.shiftl c0 24 .| Z.shiftl c1 16 .| Z.shiftl c2 8 .| n0))
      end
    end
  end.

Definition bpf_m_xhalf (chain : list (list Z)) (k : Z) : load :=
  match chain with
  | [] => LFault F_type
  | m0 :: rest =>
    match MINDEX m0 rest k with
    | None => LShort
    | Some (m, next, k) =>
      if u32 (k + 2) <=? mlen m then load_of (EXTRACT_SHORT m k) else
      match next with
      | [] => LShort
      | m0 :: _ =>
        load_of (c0 ← byte_at m k; n0 ← byte_at m0 0;
                 Some (Z.shiftl c0 8 .| n0))
      end
    end
  end.

(** The byte load of the interpreter on an mbuf chain: [MINDEX] and
    the byte of the link it finds. *)
Definition m_xbyte (chain : list (list Z)) (k : Z) : load :=
  match chain with
  | [] => LFault F_type
  | m0 :: rest =>
    match MINDEX m0 rest k with
    | None => LShort
    | Some (m, _, k) => load_of (byte_at m k)
    end
  end.

(** ** The interpreter *)

Record bpf_state := BpfState { sA : Z; sX : Z; smem : list Z; spc : Z }.

Definition setA (s : bpf_state) (v : Z) : bpf_state :=
  BpfState v (sX s) (smem s) (spc s + 1).
Definition setX (s : bpf_state) (v : Z) : bpf_state :=
  BpfState (sA s) v (smem s) (spc s + 1).
Definition jump (s : bpf_state) (d : Z) : bpf_state :=
  BpfState (sA s) (sX s) (smem s) (spc s + 1 + d).

(** One turn of the interpreter loop: go on, return a value, or fault. *)
Inductive step_result :=
| Next (s : bpf_state)
| Return (v : Z)
| Fault (f : fault).

Section Interp.

(** The packet, its length on the wire and the length of the contiguous
    part, which is 0 when [p] is an mbuf chain. *)
Variables (p : packet) (wirelen buflen : Z).

(** The word loads at [k] ([case BPF_LD|BPF_W|BPF_ABS] and [BPF_IND]). *)
Definition load_word (k : Z) : load :=
  if (buflen <? k) || (u32 (buflen - k) <? 4) then
    if negb (buflen =? 0) then LShort
    else match p with Mbufs m => bpf_m_xword m k | Buf _ => LFault F_type end
  else match p with
       | Buf b => load_of (EXTRACT_LONG b k)
       | Mbufs _ => LFault F_type
       end.

Definition load_half (k : Z) : load :=
  if (buflen <? k) || (u32 (buflen - k) <? 2) then
    if negb (buflen =? 0) then LShort
    else match p with Mbufs m => bpf_m_xhalf m k | Buf _ => LFault F_type end
  else match p with
       | Buf b => load_of (EXTRACT_SHORT b k)
       | Mbufs _ => LFault F_type
       end.

Definition load_byte (k : Z) : load :=
  if buflen <=? k then
    if negb (buflen =? 0) then LShort
    else match p with Mbufs m => m_xbyte m k | Buf _ => LFault F_type end
  else match p with
       | Buf b => load_of (byte_at b k)
       | Mbufs _ => LFault F_type
       end.

(** [A = load; continue], [return 0] when the packet is too short. *)
Definition finish_load (l : load) (f : Z -> bpf_state) : step_result :=
  match l with
  | LVal v => Next (f v)
  | LShort => Return 0
  | LFault e => Fault e
  end.

(** The cases of the [switch] statement, in its order; [None] when the code
    is not a case of the group. *)
Definition exec_ret (i : bpf_insn) (s : bpf_state) : option step_result :=
  if code i =? BPF_RET .| BPF_K then Some (Return (k i))
  else if code i =? BPF_RET .| BPF_A then Some (Return (sA s))
  else None.

Definition exec_ld_abs (i : bpf_insn) (s : bpf_state) : option step_result :=
  if code i =? BPF_LD .| BPF_W .| BPF_ABS then
    Some (finish_load (load_word (k i)) (fun v => setA s (u32 v)))
  else if code i =? BPF_LD .| BPF_H .| BPF_ABS then
    Some (finish_load (load_half (k i)) (setA s))
  else if code i =? BPF_LD .| BPF_B .| BPF_ABS then
    Some (finish_load (load_byte (k i)) (setA s))
  else if code i =? BPF_LD .| BPF_W .| BPF_LEN then Some (Next (setA s wirelen))
  else if code i =? BPF_LDX .| BPF_W .| BPF_LEN then Some (Next (setX s wirelen))
  else None.

Definition exec_ld_ind (i : bpf_insn) (s : bpf_state) : option step_result :=
  let kk := u32 (sX s + k i) in
  if code i =? BPF_LD .| BPF_W .| BPF_IND then
    Some (finish_load (load_word kk) (fun v => setA s (u32 v)))
  else if code i =? BPF_LD .| BPF_H .| BPF_IND then
    Some (finish_load (load_half kk) (setA s))
  else if code i =? BPF_LD .| BPF_B .| BPF_IND then
    Some (finish_load (load_byte kk) (setA s))
  else if code i =? BPF_LDX .| BPF_MSH .| BPF_B then
    Some (finish_load (load_byte (k i)) (fun b => setX s (Z.shiftl (b .& 0xf) 2)))
  else None.

(** [mem] holds [int32_t] cells. *)
Definition mem_read (s : bpf_state) (i : Z) (f : Z -> bpf_state) : step_result :=
  match byte_at (smem s) i with
  | Some v => Next (f (u32 v))
  | None => Fault F_mem
  end.

Definition mem_write (s : bpf_state) (i v : Z) : step_result :=
  if (0 <=? i) && (i <? Z.of_nat (length (smem s))) then
    Next (BpfState (sA s) (sX s) (<[Z.to_nat i := s32 v]> (smem s)) (spc s + 1))
  else Fault F_mem.

Definition exec_mem (i : bpf_insn) (s : bpf_state) : option step_result :=
  if code i =? BPF_LD .| BPF_IMM then Some (Next (setA s (k i)))
  else if code i =? BPF_LDX .| BPF_IMM then Some (Next (setX s (k i)))
  else if code i =? BPF_LD .| BPF_MEM then Some (mem_read s (k i) (setA s))
  else if code i =? BPF_LDX .| BPF_MEM then Some (mem_read s (k i) (setX s))
  else if code i =? BPF_ST then Some (mem_write s (k i) (sA s))
  else if code i =? BPF_STX then Some (mem_write s (k i) (sX s))
  else None.

Definition exec_jmp (i : bpf_insn) (s : bpf_state) : option step_result :=
  let br (c : bool) := Some (Next (jump s (if c then jt i else jf i))) in
  let A := sA s in let X := sX s in
  if code i =? BPF_JMP .| BPF_JA then Some (Next (jump s (k i)))
  else if code i =? BPF_JMP .| BPF_JGT .| BPF_K then br (k i <? A)
  else if code i =? BPF_JMP .| BPF_JGE .| BPF_K then br (k i <=? A)
  else if code i =? BPF_JMP .| BPF_JEQ .| BPF_K then br (A =? k i)
  else if code i =? BPF_JMP .| BPF_JSET .| BPF_K then br (has A (k i))
  else if code i =? BPF_JMP .| BPF_JGT .| BPF_X then br (X <? A)
  else if code i =? BPF_JMP .| BPF_JGE .| BPF_X then br (X <=? A)
  else if code i =? BPF_JMP .| BPF_JEQ .| BPF_X then br (A =? X)
  else if code i =? BPF_JMP .| BPF_JSET .| BPF_X then br (has A X)
  else None.

Definition shift_left (s : bpf_state) (n : Z) : step_result :=
  if n <? 32 then Next (setA s (u32 (Z.shiftl (sA s) n))) else Fault F_shift.
Definition shift_right (s : bpf_state) (n : Z) : step_result :=
  if n <? 32 then Next (setA s (Z.shiftr (sA s) n)) else Fault F_shift.
Definition divide (s : bpf_state) (n : Z) : step_result :=
  if n =? 0 then Fault F_div else Next (setA s (sA s / n)).

Definition exec_alu_x (i : bpf_insn) (s : bpf_state) : option step_result :=
  let A := sA s in let X := sX s in
  if code i =? BPF_ALU .| BPF_ADD .| BPF_X then Some (Next (setA s (u32 (A + X))))
  else if code i =? BPF_ALU .| BPF_SUB .| BPF_X then Some (Next (setA s (u32 (A - X))))
  else if code i =? BPF_ALU .| BPF_MUL .| BPF_X then Some (Next (setA s (u32 (A * X))))
  else if code i =? BPF_ALU .| BPF_DIV .| BPF_X then
    Some (if X =? 0 then Return 0 else divide s X)
  else if code i =? BPF_ALU .| BPF_AND .| BPF_X then Some (Next (setA s (A .& X)))
  else if code i =? BPF_ALU .| BPF_OR .| BPF_X then Some (Next (setA s (A .| X)))
  else if code i =? BPF_ALU .| BPF_LSH .| BPF_X then Some (shift_left s X)
  else if code i =? BPF_ALU .| BPF_RSH .| BPF_X then Some (shift_right s X)
  else None.

Definition exec_alu_k (i : bpf_insn) (s : bpf_state) : option step_result :=
  let A := sA s in let K := k i in
  if code i =? BPF_ALU .| BPF_ADD .| BPF_K then Some (Next (setA s (u32 (A + K))))
  else if code i =? BPF_ALU .| BPF_SUB .| BPF_K then Some (Next (setA s (u32 (A - K))))
  else if code i =? BPF_ALU .| BPF_MUL .| BPF_K then Some (Next (setA s (u32 (A * K))))
  else if code i =? BPF_ALU .| BPF_DIV .| BPF_K then Some (divide s K)
  else if code i =? BPF_ALU .| BPF_AND .| BPF_K then Some (Next (setA s (A .& K)))
  else if code i =? BPF_ALU .| BPF_OR .| BPF_K then Some (Next (setA s (A .| K)))
  else if code i =? BPF_ALU .| BPF_LSH .| BPF_K then Some (shift_left s K)
  else if code i =? BPF_ALU .| BPF_RSH .| BPF_K then Some (shift_right s K)
  else if code i =? BPF_ALU .| BPF_NEG then Some (Next (setA s (u32 (- A))))
  else None.

Definition exec_misc (i : bpf_insn) (s : bpf_state) : option step_result :=
  if code i =? BPF_MISC .| BPF_TAX then Some (Next (setX s (sA s)))
  else if code i =? BPF_MISC .| BPF_TXA then Some (Next (setA s (sX s)))
  else None.

(** First of two groups that has the code as a case. *)
Definition orelse (a b : option step_result) : option step_result :=
  match a with Some _ => a | None => b end.

(** The whole [switch (pc->code)], with its [default: return 0]. *)
Definition step (i : bpf_insn) (s : bpf_state) : step_result :=
  default (Return 0)
    (orelse (exec_ret i s) (orelse (exec_ld_abs i s) (orelse (exec_ld_ind i s)
      (orelse (exec_mem i s) (orelse (exec_jmp i s) (orelse (exec_alu_x i s)
        (orelse (exec_alu_k i s) (exec_misc i s)))))))).

Definition fetch (f : list bpf_insn) (pc : Z) : option bpf_insn :=
  if pc <? 0 then None else f !! Z.to_nat pc.

(** The [while (1)] loop; [None] when the fuel runs out. *)
Fixpoint run (fuel : nat) (f : list bpf_insn) (s : bpf_state) : option (Z + fault) :=
  match fuel with
  | O => None
  | S fuel =>
    match fetch f (spc s) with
    | None => Some (inr F_pc)
    | Some i =>
      match step i s with
      | Next s' => run fuel f s'
      | Return v => Some (inl v)
      | Fault e => Some (inr e)
      end
    end
  end.

Definition init_state : bpf_state :=
  BpfState 0 0 (replicate (Z.to_nat BPF_MEMWORDS) 0) 0.

(** [bpf_filter]: no program means accept all of the packet. *)
Definition bpf_filter (fuel : nat) (pc : option (list bpf_insn)) : option (Z + fault) :=
  match pc with
  | None => Some (inl (u32 (-1)))
  | Some f => run fuel f init_state
  end.

End Interp.

(** ** The validator *)

Section Validate.

(** The tunable [extern int bpf_maxbufsize]. *)
Variable bpf_maxbufsize : Z.

Definition is_one_of (x : Z) (l : list Z) : bool := existsb (Z.eqb x) l.

(** The body of the validation loop for instruction [i]. *)
Definition validate_insn (len i : Z) (p : bpf_insn) : bool :=
  let c := BPF_CLASS (code p) in
  if (c =? BPF_LD) || (c =? BPF_LDX) then
    let m := BPF_MODE (code p) in
    if m =? BPF_IMM then true
    else if is_one_of m [BPF_ABS; BPF_IND; BPF_MSH] then
      negb (u32 bpf_maxbufsize <=? k p)
    else if m =? BPF_MEM then negb (BPF_MEMWORDS <=? k p)
    else if m =? BPF_LEN then true
    else false
  else if (c =? BPF_ST) || (c =? BPF_STX) then negb (BPF_MEMWORDS <=? k p)
  else if c =? BPF_ALU then
    let o := BPF_OP (code p) in
    if is_one_of o [BPF_ADD; BPF_SUB; BPF_MUL; BPF_OR; BPF_AND; BPF_LSH; BPF_RSH; BPF_NEG]
    then true
    else if o =? BPF_DIV then negb ((BPF_SRC (code p) =? BPF_K) && (k p =? 0))
    else false
  else if c =? BPF_JMP then
    let from := i + 1 in
    let o := BPF_OP (code p) in
    if o =? BPF_JA then
      negb ((u32 (from + k p) <? from) || (len <=? u32 (from + k p)))
    else if is_one_of o [BPF_JEQ; BPF_JGT; BPF_JGE; BPF_JSET] then
      negb ((len <=? u32 (from + jt p)) || (len <=? u32 (from + jf p)))
    else false
  else if c =? BPF_RET then true
  else if c =? BPF_MISC then true
  else false.

(** [for (i = 0; i < len; ++i)] over the instructions from index [i] on. *)
Fixpoint validate_from (len i : Z) (f : list bpf_insn) : bool :=
  match f with
  | [] => true
  | p :: f => validate_insn len i p && validate_from len (i + 1) f
  end.

(** [bpf_validate f len] for an array [f] of [len] instructions. *)
Definition bpf_validate (f : list bpf_insn) : bool :=
  let len := Z.of_nat (length f) in
  if (len <? 1) || (BPF_MAXINSNS <? len) then false
  else if validate_from len 0 f then
    match last f with
    | Some p => BPF_CLASS (code p) =? BPF_RET
    | None => false
    end
  else false.

End Validate.

(** The call [bpf_filter(fcode, pkt, pktlen, 0)] of [bpf_tap], whose packet
    is a contiguous buffer. *)
Definition bpf_tap_filter (fuel : nat) (fcode : option (list bpf_insn))
    (pkt : list Z) : option (Z + fault) :=
  bpf_filter (Buf pkt) (Z.of_nat (length pkt)) 0 fuel fcode.

(** ** Safety of validated programs *)

Definition state_ok (s : bpf_state) : Prop :=
  inu 32 (sA s) /\ inu 32 (sX s) /\ Z.of_nat (length (smem s)) = BPF_MEMWORDS.

(** The packets the interpreter is given: a buffer with its length, or a
    chain of links that all hold data. *)
Definition packet_ok (p : packet) (buflen : Z) : Prop :=
  match p with
  | Buf b => buflen = Z.of_nat (length b) /\ 0 < buflen < 2 ^ 31 /\ Forall byte_ok b
  | Mbufs c => buflen = 0 /\ c <> [] /\ Forall (fun m => m <> []) c /\
               Z.of_nat (length (concat c)) < 2 ^ 31 /\ Forall (Forall byte_ok) c
  end.

(** Shift instructions whose amount is known to be below the width. *)
Definition shift_bounded (i : bpf_insn) : Prop :=
  code i <> BPF_ALU .| BPF_LSH .| BPF_X /\ code i <> BPF_ALU .| BPF_RSH .| BPF_X /\
  (code i = BPF_ALU .| BPF_LSH .| BPF_K \/ code i = BPF_ALU .| BPF_RSH .| BPF_K -> k i < 32).

(** What one turn of the loop guarantees at program counter [pc]. *)
Definition turn_ok (i : bpf_insn) (pc len : Z) (r : step_result) : Prop :=
  match r with
  | Next s' => state_ok s' /\ pc < spc s' /\ (spc s' = pc + 1 \/ spc s' < len)
  | Return v => inu 32 v
  | Fault e => e = F_shift /\ ~ shift_bounded i
  end.

Lemma byte_at_in l i : 0 <= i < Z.of_nat (length l) -> is_Some (byte_at l i).
Proof.
  intros Hi. unfold byte_at. case_if; [lia|].
  apply lookup_lt_is_Some. lia.
Qed.

Lemma byte_at_ok l i v : Forall byte_ok l -> byte_at l i = Some v -> byte_ok v.
Proof.
  unfold byte_at. case_if; [done|]. intros Hl Hv. by eapply Forall_lookup_1.
Qed.

Lemma byte_at_app_l l l' i :
  0 <= i < Z.of_nat (length l) -> byte_at (l ++ l') i = byte_at l i.
Proof. intros. unfold byte_at. case_if; [lia|]. apply lookup_app_l. lia. Qed.

Lemma byte_at_app_r l l' i :
  Z.of_nat (length l) <= i -> byte_at (l ++ l') i = byte_at l' (i - Z.of_nat (length l)).
Proof.
  intros. unfold byte_at. case_if; [lia|]. case_if; [lia|].
  rewrite lookup_app_r by lia. f_equal. lia.
Qed.

(** Values a load may produce, and the faults it may have. *)
Definition load_ok (w : Z) (l : load) : Prop :=
  match l with LVal v => inu w v | LShort => True | LFault _ => False end.

Lemma shiftl_byte n b : 0 <= n <= 24 -> byte_ok b -> inu 32 (Z.shiftl b n).
Proof.
  intros Hn Hb. apply (inu_mono (8 + n)); [lia|]. apply inu_shiftl; [lia|lia|exact Hb].
Qed.

Lemma word_of_bytes b0 b1 b2 b3 :
  byte_ok b0 -> byte_ok b1 -> byte_ok b2 -> byte_ok b3 ->
  inu 32 (Z.shiftl b0 24 .| Z.shiftl b1 16 .| Z.shiftl b2 8 .| b3).
Proof.
  intros. repeat apply inu_lor; try lia; try (apply shiftl_byte; [lia|done]).
  by apply (inu_mono 8).
Qed.

Lemma half_of_bytes b0 b1 :
  byte_ok b0 -> byte_ok b1 -> inu 32 (Z.shiftl b0 8 .| b1).
Proof.
  intros. apply inu_lor; [lia|by apply shiftl_byte|by apply (inu_mono 8)].
Qed.

(** Resolve the byte reads of a goal, each of which is in range. *)
Ltac read_byte :=
  match goal with
  | |- context [byte_at ?l ?i] =>
    let v := fresh "v" in let E := fresh "E" in
    destruct (byte_at_in l i) as [v E]; [try lia|rewrite E; simpl]
  end.
Ltac read_bytes := repeat read_byte.

Lemma EXTRACT_LONG_ok b i :
  Forall byte_ok b -> 0 <= i -> i + 4 <= Z.of_nat (length b) ->
  load_ok 32 (load_of (EXTRACT_LONG b i)).
Proof.
  intros Hb ? ?. unfold EXTRACT_LONG. read_bytes.
  apply word_of_bytes; eauto using byte_at_ok.
Qed.

Lemma EXTRACT_SHORT_ok b i :
  Forall byte_ok b -> 0 <= i -> i + 2 <= Z.of_nat (length b) ->
  load_ok 32 (load_of (EXTRACT_SHORT b i)).
Proof.
  intros Hb ? ?. unfold EXTRACT_SHORT. read_bytes.
  apply half_of_bytes; eauto using byte_at_ok.
Qed.

(** [MINDEX] finds the link that holds byte [k] of the concatenated data. *)
Lemma MINDEX_spec m next k m' next' k' :
  0 <= k -> MINDEX m next k = Some (m', next', k') ->
  exists pre, m :: next = pre ++ m' :: next' /\
    k = Z.of_nat (length (concat pre)) + k' /\ 0 <= k' < mlen m'.
Proof.
  revert m k. induction next as [|m1 next IH]; intros m k Hk; simpl; case_if; intros H; simplify_eq.
  - exists []. by rewrite Z.add_0_l.
  - unfold mlen in *. apply IH in H as (pre & -> & Hk' & ?); [|lia].
    exists (m :: pre). split; [done|]. simpl. rewrite length_app. lia.
  - exists []. by rewrite Z.add_0_l.
Qed.

Lemma MINDEX_None m next k :
  0 <= k -> MINDEX m next k = None -> Z.of_nat (length (concat (m :: next))) <= k.
Proof.
  revert m k. induction next as [|m1 next IH]; intros m k Hk; simpl;
    case_if; intros H; simplify_eq; unfold mlen in *; rewrite length_app.
  - simpl. lia.
  - apply IH in H; [|lia]. simpl in H. lia.
Qed.

Lemma concat_link_le (pre next : list (list Z)) m :
  Z.of_nat (length m) <= Z.of_nat (length (concat (pre ++ m :: next))).
Proof. rewrite concat_app, length_app. simpl. rewrite length_app. lia. Qed.

Section Loads.

Context (chain : list (list Z)) (Hlen : Z.of_nat (length (concat chain)) < 2 ^ 31)
        (Hne : chain <> []) (Hlinks : Forall (fun m => m <> []) chain)
        (Hbytes : Forall (Forall byte_ok) chain).

(** Split the chain at the link that [MINDEX] finds. *)
Ltac split_chain k Hk :=
  destruct chain as [|m0 rest]; [done|];
  destruct (MINDEX m0 rest k) as [[[m next] k']|] eqn:HM; [|done];
  apply MINDEX_spec in HM as (pre & Heq & -> & Hk'); [|lia];
  pose proof (concat_link_le pre next m) as Hm; rewrite <- Heq in Hm;
  unfold mlen in *;
  rewrite Heq in Hbytes, Hlinks;
  apply Forall_app in Hbytes as [_ Hbytes]; apply Forall_cons in Hbytes as [Hbm Hbn];
  apply Forall_app in Hlinks as [_ Hlinks]; apply Forall_cons in Hlinks as [Hlm Hln].

Lemma bpf_m_xhalf_ok k : 0 <= k -> load_ok 32 (bpf_m_xhalf chain k).
Proof using All.
  intros Hk. unfold bpf_m_xhalf. split_chain k Hk.
  rewrite wrapu_small by (unfold inu; lia).
  case_if; [apply EXTRACT_SHORT_ok; [done|lia|lia]|].
  destruct next as [|m1 next]; [done|].
  apply Forall_cons in Hln as [Hl1 _]. apply Forall_cons in Hbn as [Hb1 _].
  assert (0 < length m1)%nat by (destruct m1; [done|simpl; lia]).
  read_bytes. apply half_of_bytes; eauto using byte_at_ok.
Qed.

Lemma m_xbyte_ok k : 0 <= k -> load_ok 8 (m_xbyte chain k).
Proof using All.
  intros Hk. unfold m_xbyte. split_chain k Hk.
  read_bytes. by eapply byte_at_ok.
Qed.

Lemma bpf_m_xword_ok k : 0 <= k -> load_ok 32 (bpf_m_xword chain k).
Proof using All.
  intros Hk. unfold bpf_m_xword. split_chain k Hk.
  rewrite wrapu_small by (unfold inu; lia).
  case_if; [apply EXTRACT_LONG_ok; [done|lia|lia]|].
  destruct next as [|m1 next]; [done|].
  apply Forall_cons in Hbn as [Hb1 _].
  pose proof (concat_link_le (pre ++ [m]) next m1) as Hm1.
  rewrite <- app_assoc in Hm1. simpl in Hm1. rewrite <- Heq in Hm1.
  rewrite !wrapu_small by (unfold inu; lia).
  repeat case_if; try done; read_bytes; apply word_of_bytes; eauto using byte_at_ok.
Qed.

End Loads.

Section Step.

Context (p : packet) (wirelen buflen bpf_maxbufsize len : Z)
        (Hp : packet_ok p buflen) (Hw : inu 32 wirelen) (Hl : len <= BPF_MAXINSNS).

Lemma load_word_ok k : 0 <= k -> load_ok 32 (load_word p buflen k).
Proof using Hp.
  intros Hk. unfold load_word. destruct p as [b|c].
  - destruct Hp as (-> & ? & ?). case_if; [case_if; [done|lia]|].
    rewrite wrapu_small in * by (unfold inu; lia). apply EXTRACT_LONG_ok; [done|lia|lia].
  - destruct Hp as (-> & ? & ? & ? & ?). case_if.
    + by apply bpf_m_xword_ok.
    + assert (k = 0) as -> by lia. by assert (u32 (0 - 0) = 0) by done; lia.
Qed.

Lemma load_half_ok k : 0 <= k -> load_ok 32 (load_half p buflen k).
Proof using Hp.
  intros Hk. unfold load_half. destruct p as [b|c].
  - destruct Hp as (-> & ? & ?). case_if; [case_if; [done|lia]|].
    rewrite wrapu_small in * by (unfold inu; lia). apply EXTRACT_SHORT_ok; [done|lia|lia].
  - destruct Hp as (-> & ? & ? & ? & ?). case_if.
    + by apply bpf_m_xhalf_ok.
    + assert (k = 0) as -> by lia. by assert (u32 (0 - 0) = 0) by done; lia.
Qed.

Lemma load_byte_ok k : 0 <= k -> load_ok 8 (load_byte p buflen k).
Proof using Hp.
  intros Hk. unfold load_byte. destruct p as [b|c].
  - destruct Hp as (-> & ? & ?). case_if; [case_if; [done|lia]|].
    read_bytes. by eapply byte_at_ok.
  - destruct Hp as (-> & ? & ? & ? & ?). case_if; [by apply m_xbyte_ok|lia].
Qed.

Lemma setA_ok s v : state_ok s -> inu 32 v -> state_ok (setA s v).
Proof using. by intros (? & ? & ?) ?. Qed.

Lemma setX_ok s v : state_ok s -> inu 32 v -> state_ok (setX s v).
Proof using. by intros (? & ? & ?) ?. Qed.

Lemma finish_load_ok i pc w l f :
  w <= 32 -> load_ok w l -> (forall v, inu w v -> state_ok (f v) /\ spc (f v) = pc + 1) ->
  turn_ok i pc len (finish_load l f).
Proof using.
  intros Hw' Hload Hf. destruct l; simpl in *; [|unfold inu; lia|done].
  destruct (Hf _ Hload) as [? ->]. split; [done|]. lia.
Qed.

(** Close the cases of a group: every code that is not the one tested is
    refuted, the one tested is substituted in the validation condition. *)
Ltac by_code :=
  repeat match goal with
  | |- forall r, (if ?b then _ else _) = Some r -> _ => destruct b eqn:?; zify_bool
  | |- forall r, Some _ = Some r -> _ => intros ? [= <-]
  | |- forall r, None = Some r -> _ => by intros ?
  end.

Context (i : bpf_insn) (s : bpf_state) (Hi : insn_wf i) (Hs : state_ok s)
        (Hpc : 0 <= spc s < len)
        (Hv : validate_insn bpf_maxbufsize len (spc s) i = true).

Lemma step_A v : inu 32 v -> turn_ok i (spc s) len (Next (setA s v)).
Proof using Hs. intros. split; [by apply setA_ok|]. simpl. lia. Qed.

Lemma step_X v : inu 32 v -> turn_ok i (spc s) len (Next (setX s v)).
Proof using Hs. intros. split; [by apply setX_ok|]. simpl. lia. Qed.

Lemma step_load_A w l f :
  w <= 32 -> load_ok w l -> (forall v, inu w v -> inu 32 (f v)) ->
  turn_ok i (spc s) len (finish_load l (fun v => setA s (f v))).
Proof using Hs.
  intros ? ? Hf. eapply finish_load_ok; eauto. intros v Hvr. split; [|done].
  apply setA_ok; auto.
Qed.

Lemma step_load_X w l f :
  w <= 32 -> load_ok w l -> (forall v, inu w v -> inu 32 (f v)) ->
  turn_ok i (spc s) len (finish_load l (fun v => setX s (f v))).
Proof using Hs.
  intros ? ? Hf. eapply finish_load_ok; eauto. intros v Hvr. split; [|done].
  apply setX_ok; auto.
Qed.

Lemma exec_ret_ok r : exec_ret i s = Some r -> turn_ok i (spc s) len r.
Proof using Hi Hs.
  revert r. unfold exec_ret. by_code; simpl; [apply Hi|apply Hs].
Qed.

Lemma exec_ld_abs_ok r : exec_ld_abs p wirelen buflen i s = Some r -> turn_ok i (spc s) len r.
Proof using Hp Hw Hi Hs.
  assert (0 <= k i) by apply Hi.
  revert r. unfold exec_ld_abs. by_code.
  - eapply (step_load_A 32 _ (fun v => u32 v)); [lia|by apply load_word_ok|auto with kern].
    intros. apply wrapu_range. lia.
  - eapply (step_load_A 32 _ (fun v => v)); [lia|by apply load_half_ok|done].
  - eapply (step_load_A 8 _ (fun v => v)); [lia|by apply load_byte_ok|].
    intros. by apply (inu_mono 8).
  - by apply step_A.
  - by apply step_X.
Qed.

Lemma exec_ld_ind_ok r : exec_ld_ind p buflen i s = Some r -> turn_ok i (spc s) len r.
Proof using Hp Hi Hs.
  assert (0 <= k i) by apply Hi.
  assert (0 <= u32 (sX s + k i)) by (apply (wrapu_range 32); lia).
  revert r. unfold exec_ld_ind. by_code.
  - eapply (step_load_A 32 _ (fun v => u32 v)); [lia|by apply load_word_ok|].
    intros. apply wrapu_range. lia.
  - eapply (step_load_A 32 _ (fun v => v)); [lia|by apply load_half_ok|done].
  - eapply (step_load_A 8 _ (fun v => v)); [lia|by apply load_byte_ok|].
    intros. by apply (inu_mono 8).
  - eapply (step_load_X 8 _ (fun v => Z.shiftl (v .& 0xf) 2)); [lia|by apply load_byte_ok|].
    intros v Hb. apply (inu_mono (8 + 2)); [lia|]. apply inu_shiftl; [lia|lia|].
    by apply inu_land.
Qed.

Lemma mem_read_ok j f :
  0 <= j < BPF_MEMWORDS ->
  (forall v, inu 32 v -> turn_ok i (spc s) len (Next (f v))) ->
  turn_ok i (spc s) len (mem_read s j f).
Proof using Hs.
  intros Hj Hf. unfold mem_read. destruct Hs as (_ & _ & Hm).
  destruct (byte_at_in (smem s) j) as [v ->]; [lia|]. apply Hf, wrapu_range. lia.
Qed.

Lemma mem_write_ok j v :
  0 <= j < BPF_MEMWORDS -> turn_ok i (spc s) len (mem_write s j v).
Proof using Hs.
  intros Hj. unfold mem_write. destruct Hs as (? & ? & Hm).
  case_if; [|lia]. simpl. split_and!; [|lia|lia].
  unfold state_ok. simpl. by rewrite length_insert.
Qed.

Lemma validated_mem :
  In (code i) [BPF_LD .| BPF_MEM; BPF_LDX .| BPF_MEM; BPF_ST; BPF_STX] ->
  0 <= k i < BPF_MEMWORDS.
Proof using Hi Hv.
  intros Hc. split; [apply Hi|]. revert Hv. unfold validate_insn.
  destruct Hc as [<-|[<-|[<-|[<-|[]]]]]; simpl; intros; zify_bool; lia.
Qed.

Lemma exec_mem_ok r : exec_mem i s = Some r -> turn_ok i (spc s) len r.
Proof using Hi Hs Hv Hpc.
  assert (inu 32 (k i)) by apply Hi.
  revert r. unfold exec_mem. by_code; try (by apply step_A); try (by apply step_X).
  all: first [apply mem_read_ok|apply mem_write_ok];
    [apply validated_mem; match goal with H : code i = _ |- _ => rewrite H; simpl; tauto end|..];
    auto using step_A, step_X.
Qed.

Lemma jump_ok d : 0 <= d -> spc s + 1 + d < len -> turn_ok i (spc s) len (Next (jump s d)).
Proof using Hs. intros. split; [done|]. simpl. lia. Qed.

Lemma exec_jmp_ok r : exec_jmp i s = Some r -> turn_ok i (spc s) len r.
Proof using Hi Hs Hv Hl Hpc.
  destruct Hi as (_ & [? ?] & [? ?] & [? ?]). unfold BPF_MAXINSNS in Hl.
  revert r. unfold exec_jmp. by_code.
  all: apply jump_ok; [try case_if; lia|].
  all: revert Hv; unfold validate_insn; match goal with H : code i = _ |- _ => rewrite H end;
    simpl; intros; zify_bool.
  all: try (rewrite !wrapu_small in * by (unfold inu; lia); case_if; lia).
  pose proof (Z.mod_small (spc s + 1 + k i) (2 ^ 32)).
  unfold wrapu in *. destruct (decide (spc s + 1 + k i < 2 ^ 32)); [lia|].
  assert ((spc s + 1 + k i) mod 2 ^ 32 = spc s + 1 + k i - 2 ^ 32); [|lia].
  symmetry. apply Zmod_unique with 1; lia.
Qed.

Lemma shift_left_ok n :
  0 <= n -> (32 <= n -> ~ shift_bounded i) -> turn_ok i (spc s) len (shift_left s n).
Proof using Hs Hpc.
  intros Hn Hb. unfold shift_left. case_if; [|split; [done|by apply Hb]].
  apply step_A, wrapu_range. lia.
Qed.

Lemma shift_right_ok n :
  0 <= n -> (32 <= n -> ~ shift_bounded i) -> turn_ok i (spc s) len (shift_right s n).
Proof using Hs Hpc.
  intros Hn Hb. unfold shift_right. case_if; [|split; [done|by apply Hb]].
  apply step_A, inu_shiftr; [done|apply Hs].
Qed.

Lemma divide_ok n : 0 < n -> turn_ok i (spc s) len (divide s n).
Proof using Hs Hpc.
  intros Hn. unfold divide. case_if; [lia|]. apply step_A. destruct Hs as [[? ?] _].
  split; [apply Z.div_pos; lia|]. apply Z.le_lt_trans with (sA s); [|done].
  apply Z.div_le_upper_bound; nia.
Qed.

Ltac alu_word H :=
  try (apply step_A; first [ apply wrapu_range; lia
                           | apply inu_land; [lia|done|apply H]
                           | apply inu_lor; [lia|done|done] ]).

Lemma exec_alu_x_ok r : exec_alu_x i s = Some r -> turn_ok i (spc s) len r.
Proof using Hs Hpc.
  destruct Hs as (HA & HX & _).
  revert r. unfold exec_alu_x. by_code; alu_word HX.
  - case_if; [unfold turn_ok, inu; lia|]. apply divide_ok. destruct HX. lia.
  - apply shift_left_ok; [apply HX|]. intros _ (? & ? & ?). congruence.
  - apply shift_right_ok; [apply HX|]. intros _ (? & ? & ?). congruence.
Qed.

Lemma validated_div : code i = BPF_ALU .| BPF_DIV .| BPF_K -> 0 < k i.
Proof using Hi Hv.
  intros Hc. destruct Hi as (_ & _ & _ & [? _]). revert Hv. unfold validate_insn.
  rewrite Hc. simpl. intros. zify_bool. lia.
Qed.

Lemma exec_alu_k_ok r : exec_alu_k i s = Some r -> turn_ok i (spc s) len r.
Proof using Hi Hs Hpc Hv.
  destruct Hs as (HA & HX & _). assert (inu 32 (k i)) as HK by apply Hi.
  revert r. unfold exec_alu_k. by_code; alu_word HK.
  - by apply divide_ok, validated_div.
  - apply shift_left_ok; [apply HK|]. intros ? (_ & _ & Hb). assert (k i < 32) by (apply Hb; by left); lia.
  - apply shift_right_ok; [apply HK|]. intros ? (_ & _ & Hb). assert (k i < 32) by (apply Hb; by right); lia.
Qed.

Lemma exec_misc_ok r : exec_misc i s = Some r -> turn_ok i (spc s) len r.
Proof using Hs Hpc.
  revert r. unfold exec_misc. by_code; [apply step_X, Hs|apply step_A, Hs].
Qed.

Lemma orelse_ok a b :
  (forall r, a = Some r -> turn_ok i (spc s) len r) ->
  turn_ok i (spc s) len (default (Return 0) b) ->
  turn_ok i (spc s) len (default (Return 0) (orelse a b)).
Proof using. intros Ha Hb. destruct a; simpl; auto. Qed.

Lemma step_ok : turn_ok i (spc s) len (step p wirelen buflen i s).
Proof using All.
  unfold step. repeat apply orelse_ok.
  - apply exec_ret_ok.
  - apply exec_ld_abs_ok.
  - apply exec_ld_ind_ok.
  - apply exec_mem_ok.
  - apply exec_jmp_ok.
  - apply exec_alu_x_ok.
  - apply exec_alu_k_ok.
  - pose proof exec_misc_ok as Hm. destruct (exec_misc i s); simpl; [by apply Hm|unfold inu; lia].
Qed.

(** An instruction of class [BPF_RET] always ends the program. *)
Lemma step_ret_class : BPF_CLASS (code i) = BPF_RET -> exists v, step p wirelen buflen i s = Return v.
Proof using.
  intros Hc. unfold step.
  destruct (exec_ret i s) as [r|] eqn:E; simpl.
  - revert E. unfold exec_ret. repeat case_if; intros; simplify_eq; eauto.
  - unfold exec_ld_abs, exec_ld_ind, exec_mem, exec_jmp, exec_alu_x, exec_alu_k, exec_misc.
    repeat match goal with
    | |- context [code i =? ?c] =>
      replace (code i =? c) with false
        by (symmetry; apply Z.eqb_neq; intros Hx; rewrite Hx in Hc; by vm_compute in Hc)
    end. simpl. eauto.
Qed.

End Step.

Lemma validate_from_lookup mb len i f j p :
  validate_from mb len i f = true -> f !! j = Some p ->
  validate_insn mb len (i + Z.of_nat j) p = true.
Proof.
  revert i j. induction f as [|q f IH]; intros i j; simpl; [done|].
  intros [Hq Hf]%andb_true_iff. destruct j as [|j]; simpl.
  - intros [= ->]. by rewrite Z.add_0_r.
  - intros Hp. replace (i + Z.of_nat (S j)) with (i + 1 + Z.of_nat j) by lia. by apply IH.
Qed.

Section Run.

Context (p : packet) (wirelen buflen mb : Z) (f : list bpf_insn)
        (Hp : packet_ok p buflen) (Hw : inu 32 wirelen)
        (Hf : Forall insn_wf f) (Hv : bpf_validate mb f = true).

Let len := Z.of_nat (length f).

Lemma bpf_validate_inv :
  0 < len <= BPF_MAXINSNS /\ validate_from mb len 0 f = true /\
  exists i, last f = Some i /\ BPF_CLASS (code i) = BPF_RET.
Proof using Hv.
  revert Hv. unfold bpf_validate. fold len. case_if; [done|].
  case_if; [|done]. destruct (last f) as [i|]; [|done]. intros Hc%Z.eqb_eq.
  split_and!; [lia|lia|done|eauto].
Qed.

(** The loop ends within as many turns as instructions are left. *)
Lemma run_ok fuel s :
  state_ok s -> 0 <= spc s < len -> len - spc s <= Z.of_nat fuel ->
  exists r, run p wirelen buflen fuel f s = Some r /\
    match r with
    | inl v => inu 32 v
    | inr e => e = F_shift /\ ~ Forall shift_bounded f
    end.
Proof using All.
  destruct bpf_validate_inv as (Hlen & Hvf & il & Hlast & Hret).
  revert s. induction fuel as [|fuel IH]; intros s Hs Hpc Hfuel; [lia|].
  simpl. unfold fetch. case_if; [lia|].
  destruct (lookup_lt_is_Some_2 f (Z.to_nat (spc s))) as [i Hi]; [lia|]. rewrite Hi.
  pose proof (validate_from_lookup _ _ _ _ _ _ Hvf Hi) as Hvi.
  rewrite Z.add_0_l, Z2Nat.id in Hvi by lia.
  pose proof (step_ok p wirelen buflen mb len Hp Hw (proj2 Hlen) i s
                (Forall_lookup_1 _ _ _ _ Hf Hi) Hs Hpc Hvi) as Hstep.
  destruct (step p wirelen buflen i s) as [s'|v|e] eqn:Est; simpl in Hstep.
  - destruct Hstep as (Hs' & Hlt & Hpc'). apply IH; [done| |lia].
    split; [lia|]. destruct Hpc' as [Hpc'|]; [|done].
    destruct (decide (spc s + 1 < len)); [lia|]. exfalso.
    rewrite last_lookup in Hlast.
    replace (pred (length f)) with (Z.to_nat (spc s)) in Hlast by lia.
    rewrite Hi in Hlast. simplify_eq.
    destruct (step_ret_class p wirelen buflen il s Hret). congruence.
  - eauto.
  - eexists. split; [done|]. destruct Hstep as [-> Hn]. split; [done|].
    intros Hall. apply Hn. by eapply Forall_lookup_1.
Qed.

End Run.

Lemma init_state_ok : state_ok init_state.
Proof. split_and!; done || (unfold inu; simpl; lia). Qed.

(** C1: a program accepted by [bpf_validate], run on a packet of less than 2 GB in
    a non-empty buffer or in a chain of non-empty mbufs, ends within as many turns
    as it has instructions.  It never fetches outside the program, indexes outside
    the scratch memory, divides by zero or reads outside the packet: it returns a
    32-bit value, or else it comes to a shift by 32 or more, the one thing that the
    validator leaves open, and only if the program shifts by X or by a constant
    of 32 or more.  (On chains with empty mbufs see [xhalf_empty_link].) *)
Theorem bpf_validate_safe p wirelen buflen mb f :
  packet_ok p buflen -> inu 32 wirelen -> Forall insn_wf f ->
  bpf_validate mb f = true ->
  exists r, bpf_filter p wirelen buflen (length f) (Some f) = Some r /\
    match r with
    | inl v => inu 32 v
    | inr e => e = F_shift /\ ~ Forall shift_bounded f
    end.
Proof.
  intros Hp Hw Hf Hv. pose proof (bpf_validate_inv _ _ Hv) as (? & _ & _).
  apply (run_ok p wirelen buflen mb f Hp Hw Hf Hv (length f) init_state);
    [apply init_state_ok|simpl; lia|simpl; lia].
Qed.

(** ** Chains and buffers *)

Lemma EXTRACT_LONG_eq l i b0 b1 b2 b3 :
  byte_at l i = Some b0 -> byte_at l (i + 1) = Some b1 ->
  byte_at l (i + 2) = Some b2 -> byte_at l (i + 3) = Some b3 ->
  EXTRACT_LONG l i = Some (Z.shiftl b0 24 .| Z.shiftl b1 16 .| Z.shiftl b2 8 .| b3).
Proof. unfold EXTRACT_LONG. by intros -> -> -> ->. Qed.

Lemma EXTRACT_SHORT_eq l i b0 b1 :
  byte_at l i = Some b0 -> byte_at l (i + 1) = Some b1 ->
  EXTRACT_SHORT l i = Some (Z.shiftl b0 8 .| b1).
Proof. unfold EXTRACT_SHORT. by intros -> ->. Qed.

(** A byte of the flat data read from the link that holds it, or from the
    link after it. *)
Lemma flat_byte pre m next j i v :
  byte_at m j = Some v -> i = Z.of_nat (length (concat pre)) + j ->
  byte_at (concat (pre ++ m :: next)) i = Some v.
Proof.
  intros Hv ->. pose proof Hv as Hj. unfold byte_at in Hj. case_if_in Hj; [done|].
  apply lookup_lt_Some in Hj. rewrite concat_app. simpl.
  rewrite byte_at_app_r, byte_at_app_l by lia. rewrite <- Hv. f_equal. lia.
Qed.

Lemma flat_byte_next pre m m1 next j i v :
  byte_at m1 j = Some v -> i = Z.of_nat (length (concat pre)) + mlen m + j ->
  byte_at (concat (pre ++ m :: m1 :: next)) i = Some v.
Proof.
  intros Hv ->. replace (pre ++ m :: m1 :: next) with ((pre ++ [m]) ++ m1 :: next)
    by by rewrite <- app_assoc.
  eapply flat_byte; [done|].
  unfold mlen. rewrite concat_app, length_app. simpl. rewrite app_nil_r. lia.
Qed.

Lemma flat_length (pre next : list (list Z)) m :
  Z.of_nat (length (concat (pre ++ m :: next))) =
    Z.of_nat (length (concat pre)) + Z.of_nat (length m) + Z.of_nat (length (concat next)).
Proof. rewrite concat_app, length_app. simpl. rewrite length_app. lia. Qed.

Ltac flat_read :=
  match goal with
  | Hv : byte_at ?m ?j = Some ?v |- byte_at (concat (?pre ++ ?m :: ?next)) ?i = _ =>
    apply (flat_byte pre m next j i v Hv); lia
  | Hv : byte_at ?m1 ?j = Some ?v |- byte_at (concat (?pre ++ ?m :: ?m1 :: ?next)) ?i = _ =>
    apply (flat_byte_next pre m m1 next j i v Hv); unfold mlen; lia
  end.

(** Chains whose links hold at least three bytes, as a whole less than 2 GB. *)
Definition chain_ok (chain : list (list Z)) : Prop :=
  chain <> [] /\ Forall (fun m => (3 <= length m)%nat) chain /\
  Z.of_nat (length (concat chain)) < 2 ^ 31.

Lemma chain_ok_next pre m m1 next : chain_ok (pre ++ m :: m1 :: next) -> (3 <= length m1)%nat.
Proof.
  intros (_ & Hl & _). apply Forall_app in Hl as [_ Hl].
  apply Forall_cons in Hl as [_ Hl]. by apply Forall_cons in Hl as [? _].
Qed.

(** Cases on [MINDEX]: past the end of the data, or in a link of the chain. *)
Ltac mindex_cases Hc k :=
  match goal with
  | |- context [MINDEX ?m0 ?rest k] =>
    let HM := fresh "HM" in
    destruct (MINDEX m0 rest k) as [[[m next] k']|] eqn:HM;
    [ apply MINDEX_spec in HM as (pre & Heq & -> & Hk'); [|done];
      rewrite Heq in *; pose proof (flat_length pre next m) as Ht;
      pose proof Hc as (_ & _ & Hmax); unfold mlen in *
    | apply MINDEX_None in HM; [case_if; [done|lia]|done] ]
  end.

Lemma bpf_m_xword_flat chain k :
  chain_ok chain -> 0 <= k -> bpf_m_xword chain k =
    if Z.of_nat (length (concat chain)) <? k + 4 then LShort
    else load_of (EXTRACT_LONG (concat chain) k).
Proof.
  intros Hc Hk. unfold bpf_m_xword. destruct chain as [|m0 rest]; [by destruct Hc|].
  mindex_cases Hc k.
  rewrite (wrapu_small 32 (k' + 4)) by (unfold inu; lia). case_if.
  - case_if; [lia|]. unfold EXTRACT_LONG at 1. read_bytes.
    erewrite EXTRACT_LONG_eq; [done|flat_read..].
  - destruct next as [|m1 next]; simpl in Ht; [case_if; [done|lia]|].
    apply chain_ok_next in Hc. rewrite length_app in Ht.
    rewrite !wrapu_small by (unfold inu; lia).
    repeat (case_if; try lia); read_bytes; (erewrite EXTRACT_LONG_eq; [done|flat_read..]).
Qed.

Lemma bpf_m_xhalf_flat chain k :
  chain_ok chain -> 0 <= k -> bpf_m_xhalf chain k =
    if Z.of_nat (length (concat chain)) <? k + 2 then LShort
    else load_of (EXTRACT_SHORT (concat chain) k).
Proof.
  intros Hc Hk. unfold bpf_m_xhalf. destruct chain as [|m0 rest]; [by destruct Hc|].
  mindex_cases Hc k.
  rewrite (wrapu_small 32 (k' + 2)) by (unfold inu; lia). case_if.
  - case_if; [lia|]. unfold EXTRACT_SHORT at 1. read_bytes.
    erewrite EXTRACT_SHORT_eq; [done|flat_read..].
  - destruct next as [|m1 next]; simpl in Ht; [case_if; [done|lia]|].
    apply chain_ok_next in Hc. rewrite length_app in Ht. case_if; [lia|].
    read_bytes. erewrite EXTRACT_SHORT_eq; [done|flat_read..].
Qed.

Lemma m_xbyte_flat chain k :
  chain_ok chain -> 0 <= k -> m_xbyte chain k =
    if Z.of_nat (length (concat chain)) <=? k then LShort
    else load_of (byte_at (concat chain) k).
Proof.
  intros Hc Hk. unfold m_xbyte. destruct chain as [|m0 rest]; [by destruct Hc|].
  mindex_cases Hc k. case_if; [lia|].
  destruct (byte_at_in m k') as [v E]; [lia|]. rewrite E. by erewrite flat_byte by (done || lia).
Qed.

Section Equivalence.

Context (chain : list (list Z)) (Hc : chain_ok chain) (wirelen : Z).

Let total := Z.of_nat (length (concat chain)).

Lemma total_pos : 0 < total < 2 ^ 31.
Proof using Hc.
  destruct Hc as (Hn & Hl & ?). split; [|done]. unfold total.
  destruct chain as [|m rest]; [done|]. apply Forall_cons in Hl as [? _].
  simpl. rewrite length_app. lia.
Qed.

Lemma load_word_equiv k :
  inu 32 k -> load_word (Mbufs chain) 0 k = load_word (Buf (concat chain)) total k.
Proof using Hc.
  intros [? ?]. pose proof total_pos. unfold load_word.
  replace ((0 <? k) || (u32 (0 - k) <? 4)) with true
    by (destruct (decide (k = 0)) as [->|]; [done|symmetry; apply orb_true_iff; lia]).
  simpl. rewrite bpf_m_xword_flat by done. fold total.
  replace (negb (total =? 0)) with true by lia.
  destruct (Z.ltb_spec total k); simpl; [case_if; [done|lia]|].
  rewrite wrapu_small by (unfold inu; lia).
  repeat case_if; try done; lia.
Qed.

Lemma load_half_equiv k :
  inu 32 k -> load_half (Mbufs chain) 0 k = load_half (Buf (concat chain)) total k.
Proof using Hc.
  intros [? ?]. pose proof total_pos. unfold load_half.
  replace ((0 <? k) || (u32 (0 - k) <? 2)) with true
    by (destruct (decide (k = 0)) as [->|]; [done|symmetry; apply orb_true_iff; lia]).
  simpl. rewrite bpf_m_xhalf_flat by done. fold total.
  replace (negb (total =? 0)) with true by lia.
  destruct (Z.ltb_spec total k); simpl; [case_if; [done|lia]|].
  rewrite wrapu_small by (unfold inu; lia).
  repeat case_if; try done; lia.
Qed.

Lemma load_byte_equiv k :
  inu 32 k -> load_byte (Mbufs chain) 0 k = load_byte (Buf (concat chain)) total k.
Proof using Hc.
  intros [? ?]. pose proof total_pos. unfold load_byte.
  replace (0 <=? k) with true by lia. simpl. rewrite m_xbyte_flat by done. fold total.
  replace (negb (total =? 0)) with true by lia. by case_if.
Qed.

Lemma step_equiv i s :
  insn_wf i ->
  step (Mbufs chain) wirelen 0 i s = step (Buf (concat chain)) wirelen total i s.
Proof using Hc.
  intros Hi. assert (inu 32 (k i)) by apply Hi.
  assert (inu 32 (u32 (sX s + k i))) by (apply wrapu_range; lia).
  unfold step. do 2 f_equal. unfold exec_ld_abs, exec_ld_ind.
  by rewrite !load_word_equiv, !load_half_equiv, !load_byte_equiv by done.
Qed.

Lemma run_equiv fuel f s :
  Forall insn_wf f ->
  run (Mbufs chain) wirelen 0 fuel f s = run (Buf (concat chain)) wirelen total fuel f s.
Proof using Hc.
  intros Hf. revert s. induction fuel as [|fuel IH]; intros s; [done|]. simpl.
  unfold fetch. case_if; [done|]. destruct (f !! _) as [i|] eqn:Hi; [|done].
  rewrite step_equiv by (by eapply Forall_lookup_1).
  destruct (step _ _ _ i s); [apply IH|done|done].
Qed.

End Equivalence.

(** C2: on an mbuf chain of less than 2 GB whose links hold at least three bytes
    each, every filter program gives exactly the result it gives on the same
    packet stored contiguously, for any number of turns: the split accesses of
    [bpf_m_xword], [bpf_m_xhalf] and [MINDEX] are equivalent to the plain ones.
    With shorter links they are not, see [xword_three_links]. *)
Theorem bpf_filter_mbuf_equiv chain wirelen fuel f :
  chain_ok chain -> Forall insn_wf f ->
  bpf_filter (Mbufs chain) wirelen 0 fuel (Some f) =
  bpf_filter (Buf (concat chain)) wirelen (Z.of_nat (length (concat chain))) fuel (Some f).
Proof. intros. by apply run_equiv. Qed.

(** [bpf_tap] hands its contiguous packet to the interpreter with a
    [buflen] of 0, so the first packet load of a filter, whatever its offset,
    reads the buffer as a [struct mbuf]. *)
Theorem bpf_tap_type_confusion fuel pkt i f :
  In (code i) [BPF_LD .| BPF_W .| BPF_ABS; BPF_LD .| BPF_H .| BPF_ABS; BPF_LD .| BPF_B .| BPF_ABS] ->
  insn_wf i ->
  bpf_tap_filter (S fuel) (Some (i :: f)) pkt = Some (inr F_type).
Proof.
  intros Hi (_ & _ & _ & [? ?]). unfold bpf_tap_filter, bpf_filter. simpl.
  unfold step, exec_ret, exec_ld_abs, load_word, load_half, load_byte.
  assert (forall w, 0 < w -> (0 <? k i) || (u32 (0 - k i) <? w) = true) as Hshort.
  { intros w Hw. destruct (decide (k i = 0)) as [->|]; apply orb_true_iff; [right|left]; [|lia].
    change (u32 (0 - 0)) with 0. lia. }
  destruct Hi as [<-|[<-|[<-|[]]]]; simpl; rewrite ?Hshort by lia; [done|done|].
  by replace (0 <=? k i) with true by lia.
Qed.

(** ** Witnesses and examples *)

(** [ip] as tcpdump compiles it: load the ethertype, compare, accept. *)
Definition prog_ip : list bpf_insn :=
  [ BpfInsn 0x28 0 0 12; BpfInsn 0x15 0 1 0x800; BpfInsn 0x06 0 0 262144; BpfInsn 0x06 0 0 0 ].

Definition frame_ip : list (list Z) :=
  [[1; 2; 3; 4; 5; 6]; [7; 8; 9; 10; 11; 12; 8]; [0; 69; 0]].

Lemma prog_ip_wf : Forall insn_wf prog_ip.
Proof. unfold prog_ip. repeat constructor; simpl; lia. Qed.

Lemma bpf_validate_safe_witness :
  exists r, bpf_filter (Mbufs frame_ip) 16 0 (length prog_ip) (Some prog_ip) = Some r /\
    match r with
    | inl v => inu 32 v
    | inr e => e = F_shift /\ ~ Forall shift_bounded prog_ip
    end.
Proof.
  apply (bpf_validate_safe (Mbufs frame_ip) 16 0 2097152 prog_ip).
  - unfold packet_ok, frame_ip. split_and!; [done|done| |simpl; lia|];
      repeat constructor; done || (unfold byte_ok; lia).
  - unfold inu. lia.
  - apply prog_ip_wf.
  - vm_compute. reflexivity.
Defined.

Lemma bpf_filter_mbuf_equiv_witness :
  bpf_filter (Mbufs frame_ip) 16 0 4 (Some prog_ip) =
  bpf_filter (Buf (concat frame_ip)) 16 (Z.of_nat (length (concat frame_ip))) 4 (Some prog_ip).
Proof.
  apply (bpf_filter_mbuf_equiv frame_ip 16 4 prog_ip).
  - unfold chain_ok, frame_ip. split_and!; [done| |simpl; lia]. repeat constructor; simpl; lia.
  - apply prog_ip_wf.
Defined.

Lemma bpf_tap_type_confusion_witness :
  bpf_tap_filter 4 (Some prog_ip) (concat frame_ip) = Some (inr F_type).
Proof.
  apply (bpf_tap_type_confusion 3 (concat frame_ip) (BpfInsn 0x28 0 0 12)
           [BpfInsn 0x15 0 1 0x800; BpfInsn 0x06 0 0 262144; BpfInsn 0x06 0 0 0]).
  - simpl. tauto.
  - unfold insn_wf, inu. simpl. lia.
Defined.

(** The program accepts the IP frame, in a chain and in a buffer. *)
Example filter_ip_chain :
  bpf_filter (Mbufs frame_ip) 16 0 4 (Some prog_ip) = Some (inl 262144).
Proof. vm_compute. reflexivity. Qed.

(** [bpf_m_xhalf] does not look at the length of the next link: a half word
    that straddles an empty mbuf is read outside the packet data. *)
Example xhalf_empty_link : bpf_m_xhalf [[1]; []; [2; 3]] 0 = LFault F_pkt.
Proof. vm_compute. reflexivity. Qed.

(** [bpf_m_xword] looks one link ahead only: a word that extends over three
    links is taken to be beyond the end of the packet. *)
Example xword_three_links :
  bpf_m_xword [[1]; [2]; [3; 4]] 0 = LShort /\ EXTRACT_LONG [1; 2; 3; 4] 0 = Some 0x01020304.
Proof. vm_compute. split; reflexivity. Qed.

(** A shift amount taken from X is not validated. *)
Example shift_not_validated :
  let f := [BpfInsn 0x01 0 0 32; BpfInsn 0x6c 0 0 0; BpfInsn 0x16 0 0 0] in
  bpf_validate 2097152 f = true /\
  bpf_filter (Buf [0]) 1 1 3 (Some f) = Some (inr F_shift).
Proof. vm_compute. split; reflexivity. Qed.
