(* ===== verification/Extent.v ===== *)
(** * The extent manager (kern/subr_extent.c)

    An extent hands out disjoint regions of a range of [u_long] values; the
    allocated regions are kept in a sorted list.  The model is the DIAGNOSTIC
    kernel of conf/GENERIC on a machine with 64-bit [u_long].

    A pointer [last]/[after] into the region list is the number of regions up
    to and including the one pointed to, so that [NULL] is 0 and the regions
    behind the pointer are [drop pos].  The calls that can block are cut at
    their [tsleep]: the result [XSleep] carries the state in which the thread
    sleeps, and the loop entered again on wakeup is a definition of its own
    ([alloc_region_start], [do_alloc_start]).  What is outside the file, the
    failure of [pool_get] and [malloc] without permission to sleep, is a
    boolean argument. *)

From S2P Require Import Prelude.

(** ** Data *)

(** [struct extent_region]. *)
Record extent_region := Region { er_start : Z; er_end : Z; er_flags : Z }.

Definition ER_ALLOC : Z := 0x01.
Definition ER_DISCARD : Z := 0x02.

(** [struct extent], and the free list of [struct extent_fixed]. *)
Record extent := Extent {
  ex_regions : list extent_region;
  ex_start : Z;
  ex_end : Z;
  ex_mtype : Z;
  ex_flags : Z;
  fex_freelist : list extent_region
}.

Definition EXF_FIXED : Z := 0x01.
Definition EXF_NOCOALESCE : Z := 0x02.
Definition EXF_WANTED : Z := 0x04.
Definition EXF_FLWANTED : Z := 0x08.

Definition EX_WAITOK : Z := 0x0001.
Definition EX_FAST : Z := 0x0002.
Definition EX_CATCH : Z := 0x0004.
Definition EX_NOCOALESCE : Z := 0x0008.
Definition EX_MALLOCOK : Z := 0x0010.
Definition EX_WAITSPACE : Z := 0x0020.
Definition EX_BOUNDZERO : Z := 0x0040.
Definition EX_CONFLICTOK : Z := 0x0080.
Definition EX_FILLED : Z := 0x0100.

Definition set_regions (ex : extent) (l : list extent_region) : extent :=
  Extent l (ex_start ex) (ex_end ex) (ex_mtype ex) (ex_flags ex) (fex_freelist ex).
Definition set_flags (ex : extent) (f : Z) : extent :=
  Extent (ex_regions ex) (ex_start ex) (ex_end ex) (ex_mtype ex) f (fex_freelist ex).
Definition set_freelist (ex : extent) (l : list extent_region) : extent :=
  Extent (ex_regions ex) (ex_start ex) (ex_end ex) (ex_mtype ex) (ex_flags ex) l.

(** [extent_align]: round up to a multiple of [align] plus [skew]. *)
Definition extent_align (start align skew : Z) : Z :=
  u64 (u64 (u64 (start - skew) + (align - 1)) .& u64 (- align) + skew).

(** [LE_OV(x, y, z)]: [x + y <= z], false on overflow. *)
Definition LE_OV (x y z : Z) : bool := (x <=? u64 (x + y)) && (u64 (x + y) <=? z).

(** ** Region descriptors *)

Inductive descriptor :=
| DGot (rp : extent_region) (ex : extent)
| DNull (ex : extent)
| DSleep (ex : extent).

(** [extent_alloc_region_descriptor] up to its [tsleep]; on wakeup the test
    of the free list is made again, an error of [tsleep] gives [NULL].
    [pool_ok] tells if [pool_get] with [PR_NOWAIT] succeeds. *)
Definition extent_alloc_region_descriptor (ex : extent) (flags : Z) (pool_ok : bool)
  : descriptor :=
  let alloc :=
    if has flags EX_WAITOK || pool_ok then DGot (Region 0 0 ER_ALLOC) ex else DNull ex in
  if has (ex_flags ex) EXF_FIXED then
    match fex_freelist ex with
    | [] =>
      if has flags EX_MALLOCOK then alloc
      else if negb (has flags EX_WAITOK) then DNull ex
      else DSleep (set_flags ex (ex_flags ex .| EXF_FLWANTED))
    | rp :: fl => DGot rp (set_freelist ex fl)
    end
  else alloc.

(** [extent_free_region_descriptor]; [pool_put] leaves no trace here. *)
Definition extent_free_region_descriptor (ex : extent) (rp : extent_region) : extent :=
  let push ex flags :=
    set_freelist ex (Region (er_start rp) (er_end rp) flags :: fex_freelist ex) in
  let wake_em_up ex := set_flags ex (clear (ex_flags ex) EXF_FLWANTED) in
  if has (er_flags rp) ER_DISCARD then ex
  else if has (ex_flags ex) EXF_FIXED then
    if has (er_flags rp) ER_ALLOC then
      if has (ex_flags ex) EXF_FLWANTED then wake_em_up (push ex ER_ALLOC)
      else ex
    else
      let ex' := push ex 0 in
      if has (ex_flags ex) EXF_FLWANTED then wake_em_up ex' else ex'
  else ex.

(** ** Creation and destruction *)

(** Sizes of the structures on amd64, already multiples of the alignment. *)
Definition SIZEOF_EXTENT_FIXED : Z := 80.
Definition SIZEOF_EXTENT_REGION : Z := 40.

(** The [while] loop that carves descriptors out of the fixed storage. *)
Fixpoint carve (fuel : nat) (sz : Z) (fl : list extent_region) : list extent_region :=
  match fuel with
  | O => fl
  | S fuel =>
    if SIZEOF_EXTENT_REGION <=? sz
    then carve fuel (sz - SIZEOF_EXTENT_REGION) (Region 0 0 0 :: fl)
    else fl
  end.

(** Result of [extent_create]: the extent, [NULL], a thread that sleeps for
    a descriptor, or a panic. *)
Inductive cres :=
| CExtent (ex : extent)
| CNull
| CSleep (ex : extent)
| CPanic.

(** [extent_create]; [storagesize] is [Some] when storage is given. *)
Definition extent_create (start end_ mtype : Z) (storagesize : option Z) (flags : Z)
    (malloc_ok pool_ok : bool) : cres :=
  let fixed := match storagesize with Some _ => true | None => false end in
  let sz := default 0 storagesize in
  if end_ <? start then CPanic
  else if fixed && (sz <? SIZEOF_EXTENT_FIXED) then CPanic
  else
    let freelist :=
      if fixed then carve (Z.to_nat sz) (sz - SIZEOF_EXTENT_FIXED) [] else [] in
    if negb fixed && negb (has flags EX_WAITOK || malloc_ok) then CNull
    else
      let exf := (if fixed then EXF_FIXED else 0)
                   .| (if has flags EX_NOCOALESCE then EXF_NOCOALESCE else 0) in
      let ex := Extent [] start end_ mtype exf freelist in
      if has flags EX_FILLED then
        match extent_alloc_region_descriptor ex flags pool_ok with
        | DGot rp ex => CExtent (set_regions ex [Region start end_ (er_flags rp)])
        | DNull _ => CNull
        | DSleep ex => CSleep ex
        end
      else CExtent ex.

(** [extent_destroy]: give every region descriptor back. *)
Definition extent_destroy (ex : extent) : extent :=
  fold_left extent_free_region_descriptor (ex_regions ex) (set_regions ex []).

(** ** Insertion *)

(** [extent_insert_and_optimize]: [pos] regions lie up to [after]. *)
Definition extent_insert_and_optimize (ex : extent) (start size : Z) (pos : nat)
    (rp : extent_region) : extent :=
  let before := take pos (ex_regions ex) in
  let next := drop pos (ex_regions ex) in
  let nocoalesce := has (ex_flags ex) EXF_NOCOALESCE in
  let new := Region start (u64 (start + (size - 1))) (er_flags rp) in
  match last before with
  | None =>
    match next with
    | r :: next' =>
      if negb nocoalesce && (u64 (start + size) =? er_start r) then
        extent_free_region_descriptor
          (set_regions ex (Region start (er_end r) (er_flags r) :: next')) rp
      else set_regions ex (new :: next)
    | [] => set_regions ex (new :: next)
    end
  | Some after =>
    let init := take (pred pos) (ex_regions ex) in
    if nocoalesce then set_regions ex (before ++ new :: next)
    else
      let appended := u64 (er_end after + 1) =? start in
      let after' :=
        if appended then Region (er_start after) (u64 (start + (size - 1))) (er_flags after)
        else after in
      match next with
      | r :: next' =>
        if u64 (start + size) =? er_start r then
          if appended then
            let ex1 := set_regions ex
              (init ++ Region (er_start after) (er_end r) (er_flags after) :: next') in
            extent_free_region_descriptor (extent_free_region_descriptor ex1 r) rp
          else
            extent_free_region_descriptor
              (set_regions ex (before ++ Region start (er_end r) (er_flags r) :: next')) rp
        else if appended then
          extent_free_region_descriptor (set_regions ex (init ++ after' :: next)) rp
        else set_regions ex (before ++ new :: next)
      | [] =>
        if appended then
          extent_free_region_descriptor (set_regions ex (init ++ after' :: next)) rp
        else set_regions ex (before ++ new :: next)
      end
  end.

(** ** Allocation of a given region *)

(** Result of a call: an error number with the value stored through
    [result], a blocked thread, a panic, or fuel that was too small. *)
Inductive xres :=
| XRet (error result : Z) (ex : extent)
| XSleep (ex : extent)
| XPanic
| XFuel.

(** The [LIST_FOREACH] of [extent_alloc_region]: where the region belongs,
    and the first region it conflicts with. *)
Fixpoint region_scan (l : list extent_region) (pos : nat) (start end_ : Z)
  : nat * option extent_region :=
  match l with
  | [] => (pos, None)
  | rp :: l =>
    if end_ <? er_start rp then (pos, None)
    else if start <=? er_end rp then (pos, Some rp)
    else region_scan l (S pos) start end_
  end.

(** The code from the label [alloc_start] on. *)
Fixpoint alloc_region_start (fuel : nat) (ex : extent) (start size end_ flags : Z)
    (myrp : extent_region) : xres :=
  match fuel with
  | O => XFuel
  | S fuel =>
    match region_scan (ex_regions ex) 0 start end_ with
    | (pos, None) => XRet 0 0 (extent_insert_and_optimize ex start size pos myrp)
    | (pos, Some rp) =>
      if has flags EX_WAITSPACE then
        XSleep (set_flags ex (ex_flags ex .| EXF_WANTED))
      else if has flags EX_CONFLICTOK then
        if er_start rp <=? start then
          if er_end rp <? ex_end ex then
            let start' := u64 (er_end rp + 1) in
            alloc_region_start fuel ex start' (u64 (end_ - start' + 1)) end_ flags myrp
          else XRet 0 0 ex
        else if er_end rp <? end_ then
          let ex' := set_regions ex (delete pos (ex_regions ex)) in
          alloc_region_start fuel (extent_free_region_descriptor ex' rp)
            start size end_ flags myrp
        else if er_start rp <? end_ then
          if ex_start ex <? er_start rp then
            let end' := u64 (er_start rp - 1) in
            alloc_region_start fuel ex start (u64 (end' - start + 1)) end' flags myrp
          else XRet 0 0 ex
        else XRet 0 0 ex
      else XRet EAGAIN 0 (extent_free_region_descriptor ex myrp)
    end
  end.

(** [extent_alloc_region].  Every turn of the loop but the last drops or
    passes a region, or cuts the request at one. *)
Definition extent_alloc_region (ex : extent) (start size flags : Z) (pool_ok : bool) : xres :=
  let end_ := u64 (start + (size - 1)) in
  if size <? 1 then XPanic
  else if end_ <? start then XPanic
  else if has flags EX_CONFLICTOK && has flags EX_WAITSPACE then XPanic
  else if (start <? ex_start ex) || (ex_end ex <? end_) then XPanic
  else
    match extent_alloc_region_descriptor ex flags pool_ok with
    | DNull ex => XRet ENOMEM 0 ex
    | DSleep ex => XSleep ex
    | DGot myrp ex =>
      alloc_region_start (length (ex_regions ex) + 2) ex start size end_ flags myrp
    end.

(** ** Allocation of any region of a given size *)

(** Outcome of the boundary check on a candidate: its start, moved behind the
    boundary if it crossed it; the next gap must be tried ([goto skip]); no
    gap can do ([goto fail]). *)
Inductive boundary_result :=
| BOk (newstart : Z)
| BSkip
| BFail.

(** The block [if (boundary) ...], made for a gap that the candidate [fits]. *)
Definition boundary_check (ex : extent) (fits : Z -> bool) (newstart size boundary flags : Z)
  : boundary_result :=
  if boundary =? 0 then BOk newstart
  else
    let newend := u64 (newstart + (size - 1)) in
    let dontcross :=
      u64 (extent_align (u64 (newstart + 1)) boundary
             (if has flags EX_BOUNDZERO then 0 else ex_start ex) - 1) in
    let past newstart dontcross :=
      if (ex_end ex <? u64 (newstart + size - 1)) || (dontcross <? newstart)
      then BFail else BOk newstart in
    if dontcross <? ex_start ex then past newstart (ex_end ex)
    else if dontcross <? newend then
      let newstart' := u64 (dontcross + 1) in
      if negb (fits newstart') then BSkip
      else past newstart' (u64 (dontcross + boundary))
    else past newstart dontcross.

(** The best gap so far: [bestovh], [beststart] and [bestlast]. *)
Definition best : Type := Z * Z * nat.

Definition better (ovh newstart : Z) (pos : nat) (b : best) : best :=
  let '(bestovh, _, _) := b in
  if (bestovh =? 0) || (ovh <? bestovh) then (ovh, newstart, pos) else b.

(** Where a scan of the gaps ends: at the label [found] or at [fail]. *)
Inductive scan_result :=
| SFound (newstart : Z) (pos : nat)
| SFail (b : best).

Section DoAlloc.

Variables (ex : extent) (subend size alignment skew boundary flags : Z).

(** The final check, from the current start to the end of the subregion. *)
Definition final_check (exend newstart : Z) (pos : nat) (b : best) : scan_result :=
  let fits ns := LE_OV ns (size - 1) subend in
  if fits newstart then
    match boundary_check ex fits newstart size boundary flags with
    | BSkip | BFail => SFail b
    | BOk newstart =>
      let ovh := u64 (exend - newstart - (size - 1)) in
      if has flags EX_FAST || (ovh =? 0) then SFound newstart pos
      else SFail (better ovh newstart pos b)
    end
  else SFail b.

(** The loop over the regions [rest] behind the first [pos] ones. *)
Fixpoint gap_scan (rest : list extent_region) (pos : nat) (newstart : Z) (b : best)
  : scan_result :=
  match rest with
  | [] => final_check (ex_end ex) newstart pos b
  | rp :: rest =>
    if subend <? er_start rp then final_check (er_start rp) newstart pos b
    else
      let skip b :=
        let newstart := extent_align (u64 (er_end rp + 1)) alignment skew in
        if newstart <? er_end rp then SFail b else gap_scan rest (S pos) newstart b in
      let fits ns := LE_OV ns size (er_start rp) in
      if fits newstart then
        match boundary_check ex fits newstart size boundary flags with
        | BFail => SFail b
        | BSkip => skip b
        | BOk newstart =>
          let ovh := u64 (er_start rp - newstart - size) in
          if has flags EX_FAST || (ovh =? 0) then SFound newstart pos
          else skip (better ovh newstart pos b)
        end
      else skip b
  end.

(** The loop that finds the first region at or after [newstart]. *)
Fixpoint first_at (l : list extent_region) (pos : nat) (newstart : Z) : nat :=
  match l with
  | [] => pos
  | rp :: l => if newstart <=? er_start rp then pos else first_at l (S pos) newstart
  end.

(** From [alloc_start] to the end of the scan; [None] is the panic on an
    overflow of the first alignment. *)
Definition find_gap (substart : Z) : option scan_result :=
  let newstart := extent_align substart alignment skew in
  if newstart <? ex_start ex then None
  else
    let pos := first_at (ex_regions ex) 0 newstart in
    let newstart :=
      match last (take pos (ex_regions ex)) with
      | Some l =>
        if newstart <=? er_end l then extent_align (u64 (er_end l + 1)) alignment skew
        else newstart
      | None => newstart
      end in
    Some (gap_scan (drop pos (ex_regions ex)) pos newstart (0, 0, O)).

End DoAlloc.

(** [extent_do_alloc] from its label [alloc_start]. *)
Definition do_alloc_start (ex : extent) (substart subend size alignment skew boundary flags : Z)
    (myrp : extent_region) : xres :=
  let found newstart pos :=
    XRet 0 newstart (extent_insert_and_optimize ex newstart size pos myrp) in
  match find_gap ex subend size alignment skew boundary flags substart with
  | None => XPanic
  | Some (SFound newstart pos) => found newstart pos
  | Some (SFail (bestovh, beststart, bestpos)) =>
    if negb (has flags EX_FAST) && negb (bestovh =? 0) then found beststart bestpos
    else if has flags EX_WAITSPACE then
      XSleep (set_flags ex (ex_flags ex .| EXF_WANTED))
    else XRet EAGAIN 0 (extent_free_region_descriptor ex myrp)
  end.

(** [extent_do_alloc] with its DIAGNOSTIC checks. *)
Definition extent_do_alloc (ex : extent) (substart subend size alignment skew boundary flags : Z)
    (myrp : extent_region) : xres :=
  if (substart <? ex_start ex) || (ex_end ex <? substart) ||
     (ex_end ex <? subend) || (subend <? ex_start ex) then XPanic
  else if (size <? 1) || (u64 (subend - substart) <? u64 (size - 1)) then XPanic
  else if alignment =? 0 then XPanic
  else if negb (boundary =? 0) && (boundary <? size) then XPanic
  else do_alloc_start ex substart subend size alignment skew boundary flags myrp.

Definition extent_alloc_subregion (ex : extent)
    (substart subend size alignment skew boundary flags : Z) (pool_ok : bool) : xres :=
  match extent_alloc_region_descriptor ex flags pool_ok with
  | DNull ex => XRet ENOMEM 0 ex
  | DSleep ex => XSleep ex
  | DGot rp ex => extent_do_alloc ex substart subend size alignment skew boundary flags rp
  end.

Definition extent_alloc_subregion_with_descr (ex : extent)
    (substart subend size alignment skew boundary flags : Z) (rp : extent_region) : xres :=
  if negb (has (ex_flags ex) EXF_NOCOALESCE) then XPanic
  else extent_do_alloc ex substart subend size alignment skew boundary flags
         (Region (er_start rp) (er_end rp) ER_DISCARD).

(** ** Deallocation *)

(** What the search for the region to free ends with: its descriptor is free
    (case 1), it was trimmed (cases 2 and 3), or it was split and the new
    descriptor was used (case 4). *)
Inductive freed :=
| FreeOld (rp : extent_region)
| Trimmed
| Split.

(** The [LIST_FOREACH] of [extent_free]; [None] is "region not found".
    [nrp_flags] are the flags of the descriptor allocated beforehand. *)
Fixpoint free_scan (nocoalesce : bool) (nrp_flags start end_ : Z) (l : list extent_region)
  : option (list extent_region * freed) :=
  match l with
  | [] => None
  | rp :: l =>
    let continue :=
      match free_scan nocoalesce nrp_flags start end_ l with
      | Some (l', f) => Some (rp :: l', f)
      | None => None
      end in
    if er_end rp <? start then continue
    else if end_ <? er_start rp then None
    else if (start =? er_start rp) && (end_ =? er_end rp) then Some (l, FreeOld rp)
    else if nocoalesce then continue
    else if (start =? er_start rp) && (end_ <? er_end rp) then
      Some (Region (u64 (end_ + 1)) (er_end rp) (er_flags rp) :: l, Trimmed)
    else if (er_start rp <? start) && (end_ =? er_end rp) then
      Some (Region (er_start rp) (u64 (start - 1)) (er_flags rp) :: l, Trimmed)
    else if (er_start rp <? start) && (end_ <? er_end rp) then
      Some (Region (er_start rp) (u64 (start - 1)) (er_flags rp) ::
            Region (u64 (end_ + 1)) (er_end rp) nrp_flags :: l, Split)
    else continue
  end.

(** The end of [extent_free]: the descriptors that are not needed any more
    are freed and the sleepers woken up.  [nrp] is [None] when coalescing is
    not allowed. *)
Definition free_done (ex : extent) (f : freed) (nrp : option extent_region) : extent :=
  let ex := match f with FreeOld rp => extent_free_region_descriptor ex rp | _ => ex end in
  let ex :=
    match f, nrp with
    | Split, _ | _, None => ex
    | _, Some nrp => extent_free_region_descriptor ex nrp
    end in
  if has (ex_flags ex) EXF_WANTED then set_flags ex (clear (ex_flags ex) EXF_WANTED) else ex.

Definition extent_free_found (ex : extent) (start end_ : Z) (nrp : option extent_region) : xres :=
  let nocoalesce := has (ex_flags ex) EXF_NOCOALESCE in
  let nrp_flags := match nrp with Some r => er_flags r | None => 0 end in
  match free_scan nocoalesce nrp_flags start end_ (ex_regions ex) with
  | None => XPanic
  | Some (l, f) => XRet 0 0 (free_done (set_regions ex l) f nrp)
  end.

Definition extent_free (ex : extent) (start size flags : Z) (pool_ok : bool) : xres :=
  let end_ := u64 (start + (size - 1)) in
  if (start <? ex_start ex) || (ex_end ex <? end_) then XPanic
  else if end_ <? start then XPanic
  else if has (ex_flags ex) EXF_NOCOALESCE then extent_free_found ex start end_ None
  else
    match extent_alloc_region_descriptor ex flags pool_ok with
    | DNull ex => XRet ENOMEM 0 ex
    | DSleep ex => XSleep ex
    | DGot nrp ex => extent_free_found ex start end_ (Some nrp)
    end.

(** ** Arithmetic of the alignment *)

(** Masking with [-align] for a power of two rounds down. *)
Lemma land_neg_pow2 x a :
  inu 64 x -> 0 <= a < 64 -> x .& u64 (- 2 ^ a) = x - x mod 2 ^ a.
Proof.
  intros Hx Ha.
  assert (0 < 2 ^ a) by (apply Z.pow_pos_nonneg; lia).
  rewrite (Z.div_mod x (2 ^ a)) at 2 by lia.
  replace (2 ^ a * (x / 2 ^ a) + x mod 2 ^ a - x mod 2 ^ a) with (x / 2 ^ a * 2 ^ a) by lia.
  rewrite <- Z.shiftr_div_pow2, <- Z.shiftl_mul_pow2 by lia.
  apply Z.bits_inj'. intros i Hi.
  rewrite Z.land_spec, Z.shiftl_spec by lia.
  unfold wrapu. destruct (Z.lt_ge_cases i 64).
  - rewrite Z.mod_pow2_bits_low by lia.
    replace (- 2 ^ a) with (Z.lnot (Z.ones a)) by (rewrite Z.ones_equiv; unfold Z.lnot; lia).
    rewrite Z.lnot_spec, Z.testbit_ones_nonneg by lia.
    destruct (Z.ltb_spec i a); simpl.
    + by rewrite andb_false_r, (Z.testbit_neg_r _ (i - a)) by lia.
    + rewrite andb_true_r, Z.shiftr_spec by lia. f_equal. lia.
  - rewrite (testbit_above 64 x) by (done || lia).
    rewrite Z.shiftr_spec by lia. replace (i - a + a) with i by lia.
    by rewrite (testbit_above 64 x) by (done || lia).
Qed.

Lemma mod_pow2_u64 x a : 0 <= a <= 64 -> u64 x mod 2 ^ a = x mod 2 ^ a.
Proof.
  intros Ha. unfold wrapu. apply Z.mod_mod_divide.
  exists (2 ^ (64 - a)). rewrite <- Z.pow_add_r by lia. f_equal. lia.
Qed.

(** [extent_align] is the least value from [start] on that is congruent to
    the skew, when the rounding does not overflow. *)
Lemma extent_align_spec start a skew :
  inu 64 start -> 0 <= a < 64 -> start + 2 ^ a <= 2 ^ 64 ->
  let y := extent_align start (2 ^ a) skew in
  start <= y < start + 2 ^ a /\ (y - skew) mod 2 ^ a = 0.
Proof.
  intros [? ?] Ha Hov. assert (0 < 2 ^ a) by (apply Z.pow_pos_nonneg; lia).
  unfold extent_align. set (v := u64 (u64 (start - skew) + (2 ^ a - 1))).
  rewrite land_neg_pow2 by (done || by apply wrapu_range).
  pose proof (Z.mod_pos_bound v (2 ^ a) ltac:(lia)) as Hm.
  assert (u64 (v - v mod 2 ^ a + skew) = start + (2 ^ a - 1 - v mod 2 ^ a)) as ->.
  { rewrite <- (wrapu_small 64 (start + (2 ^ a - 1 - v mod 2 ^ a))) by (unfold inu; lia).
    replace (v - v mod 2 ^ a + skew) with (v + (skew - v mod 2 ^ a)) by lia.
    generalize (v mod 2 ^ a). intros q. unfold v, wrapu.
    rewrite Zplus_mod_idemp_l, <- Z.add_assoc, Zplus_mod_idemp_l. f_equal. lia. }
  split; [lia|].
  replace (start + (2 ^ a - 1 - v mod 2 ^ a) - skew)
    with ((start - skew + (2 ^ a - 1)) - v mod 2 ^ a) by lia.
  assert (v mod 2 ^ a = (start - skew + (2 ^ a - 1)) mod 2 ^ a) as ->.
  { unfold v. rewrite mod_pow2_u64, <- Zplus_mod_idemp_l, mod_pow2_u64 by lia.
    by rewrite Zplus_mod_idemp_l. }
  by rewrite Zminus_mod_idemp_r, Z.sub_diag, Zmod_0_l.
Qed.

(** ** The region list *)

(** Regions in order, disjoint, between [lo] and [hi]. *)
Fixpoint regions_ok (lo hi : Z) (l : list extent_region) : Prop :=
  match l with
  | [] => True
  | r :: l => lo <= er_start r <= er_end r /\ er_end r <= hi /\ regions_ok (er_end r + 1) hi l
  end.

Definition extent_ok (ex : extent) : Prop :=
  0 <= ex_start ex <= ex_end ex /\ ex_end ex < 2 ^ 64 /\
  regions_ok (ex_start ex) (ex_end ex) (ex_regions ex).

(** The abstraction of an extent: the set of the allocated values. *)
Definition covered (l : list extent_region) (x : Z) : Prop :=
  Exists (fun r => er_start r <= x <= er_end r) l.
Definition allocated (ex : extent) (x : Z) : Prop := covered (ex_regions ex) x.

Lemma covered_app l1 l2 x : covered (l1 ++ l2) x <-> covered l1 x \/ covered l2 x.
Proof. apply Exists_app. Qed.

Lemma covered_cons r l x : covered (r :: l) x <-> er_start r <= x <= er_end r \/ covered l x.
Proof. apply Exists_cons. Qed.

Lemma covered_nil x : ~ covered [] x.
Proof. by intros ?%Exists_nil. Qed.

Lemma regions_ok_mono lo lo' hi l : lo' <= lo -> regions_ok lo hi l -> regions_ok lo' hi l.
Proof. destruct l; simpl; [done|]. intros ? (? & ? & ?). split_and!; auto; lia. Qed.

Lemma regions_ok_app lo hi l1 l2 :
  regions_ok lo hi (l1 ++ l2) <->
  regions_ok lo hi l1 /\
  regions_ok (match last l1 with Some r => er_end r + 1 | None => lo end) hi l2.
Proof.
  revert lo. induction l1 as [|r l1 IH]; intros lo; [simpl; tauto|].
  cbn [regions_ok app]. rewrite IH, last_cons. destruct (last l1); simpl; tauto.
Qed.

Lemma regions_ok_hi lo hi l : regions_ok lo hi l -> Forall (fun r => lo <= er_start r <= er_end r /\ er_end r <= hi) l.
Proof.
  revert lo. induction l as [|r l IH]; intros lo; simpl; [done|].
  intros (? & ? & Hl). constructor; [lia|].
  eapply Forall_impl; [by apply IH|]. simpl. lia.
Qed.

Lemma regions_ok_tighten lo lo' hi l :
  regions_ok lo hi l -> Forall (fun r => lo' <= er_start r) l -> regions_ok lo' hi l.
Proof.
  destruct l as [|r l]; [done|]. simpl. intros (? & ? & ?) [? _]%Forall_cons. split_and!; auto; lia.
Qed.

Lemma regions_ok_lower lo hi hi' l :
  regions_ok lo hi l -> Forall (fun r => er_end r <= hi') l -> regions_ok lo hi' l.
Proof.
  revert lo. induction l as [|r l IH]; intros lo; [done|]. simpl.
  intros (? & ? & ?) [? ?]%Forall_cons. auto.
Qed.

(** A position in the list and an interval that fits there. *)
Record gap (l : list extent_region) (pos : nat) (s e : Z) : Prop := {
  gap_pos : (pos <= length l)%nat;
  gap_before : Forall (fun r => er_end r < s) (take pos l);
  gap_after : Forall (fun r => e < er_start r) (drop pos l)
}.

Lemma gap_free l pos s e x : gap l pos s e -> covered l x -> s <= x <= e -> False.
Proof.
  intros [_ Hb Ha] Hc Hx. rewrite <- (take_drop pos l) in Hc.
  apply covered_app in Hc as [Hc|Hc]; apply Exists_exists in Hc as (r & Hr & ?).
  - rewrite Forall_forall in Hb. specialize (Hb r Hr). lia.
  - rewrite Forall_forall in Ha. specialize (Ha r Hr). lia.
Qed.

(** ** Frame of the descriptor operations *)

(** The parts of an extent that descriptor management leaves alone. *)
Definition same_regions (ex ex' : extent) : Prop :=
  ex_regions ex' = ex_regions ex /\ ex_start ex' = ex_start ex /\ ex_end ex' = ex_end ex /\
  has (ex_flags ex') EXF_NOCOALESCE = has (ex_flags ex) EXF_NOCOALESCE.

#[global] Instance same_regions_refl : Reflexive same_regions.
Proof. done. Qed.
#[global] Instance same_regions_trans : Transitive same_regions.
Proof. intros x y z (? & ? & ? & ?) (? & ? & ? & ?). split_and!; congruence. Qed.

Lemma has_clear x f g : Z.land f g = 0 -> has (clear x f) g = has x g.
Proof.
  intros Hfg. unfold has, clear. do 2 f_equal. apply Z.bits_inj'. intros i Hi.
  rewrite !Z.land_spec, Z.ldiff_spec.
  assert (Z.testbit (Z.land f g) i = false) as Hb by (rewrite Hfg; apply Z.bits_0).
  rewrite Z.land_spec in Hb. destruct (Z.testbit x i), (Z.testbit f i), (Z.testbit g i); done.
Qed.

Lemma has_lor_disjoint x f g : Z.land f g = 0 -> has (x .| f) g = has x g.
Proof.
  intros Hfg. unfold has. do 2 f_equal. apply Z.bits_inj'. intros i Hi.
  rewrite !Z.land_spec, Z.lor_spec.
  assert (Z.testbit (Z.land f g) i = false) as Hb by (rewrite Hfg; apply Z.bits_0).
  rewrite Z.land_spec in Hb. destruct (Z.testbit x i), (Z.testbit f i), (Z.testbit g i); done.
Qed.

Lemma free_descriptor_same ex rp : same_regions ex (extent_free_region_descriptor ex rp).
Proof.
  unfold extent_free_region_descriptor.
  repeat case_if; unfold same_regions; simpl; split_and!; try done; by apply has_clear.
Qed.

Lemma alloc_descriptor_same ex flags pool_ok :
  match extent_alloc_region_descriptor ex flags pool_ok with
  | DGot _ ex' | DNull ex' | DSleep ex' => same_regions ex ex'
  end.
Proof.
  unfold extent_alloc_region_descriptor. repeat case_if; try done.
  all: destruct (fex_freelist ex); repeat case_if; try done.
  unfold same_regions; simpl; split_and!; try done. by apply has_lor_disjoint.
Qed.

Lemma same_regions_ok ex ex' : same_regions ex ex' -> extent_ok ex -> extent_ok ex'.
Proof. unfold extent_ok. intros (-> & -> & -> & _). done. Qed.

(** What an operation did to the allocated set. *)
Definition updates (ex ex' : extent) (P : Z -> Prop) : Prop :=
  extent_ok ex' /\ ex_start ex' = ex_start ex /\ ex_end ex' = ex_end ex /\
  has (ex_flags ex') EXF_NOCOALESCE = has (ex_flags ex) EXF_NOCOALESCE /\
  forall x, allocated ex' x <-> P x.

Lemma updates_same ex ex1 ex2 P : updates ex ex1 P -> same_regions ex1 ex2 -> updates ex ex2 P.
Proof.
  intros (Hok & Hs & He & Hn & HP) Hsame. pose proof Hsame as (Hr & Hs' & He' & Hn').
  split_and!; [by eapply same_regions_ok|congruence|congruence|congruence|].
  intros x. unfold allocated. rewrite Hr. apply HP.
Qed.

(** A new list of regions as an update. *)
Lemma updates_regions ex l P :
  extent_ok ex -> regions_ok (ex_start ex) (ex_end ex) l -> (forall x, covered l x <-> P x) ->
  updates ex (set_regions ex l) P.
Proof. intros (? & ? & ?) Hl HP. by split_and!. Qed.

Section Insert.

Context (ex : extent) (start size : Z) (pos : nat) (rp : extent_region).
Context (Hok : extent_ok ex) (Hlo : ex_start ex <= start) (Hsz : 1 <= size)
        (Hhi : start + size - 1 <= ex_end ex)
        (Hgap : gap (ex_regions ex) pos start (start + size - 1)).

Let P x := allocated ex x \/ start <= x <= start + size - 1.

(** Lists that put the interval between the two halves of the list. *)
Lemma insert_list before next mid :
  ex_regions ex = before ++ next ->
  Forall (fun r => er_end r < start) before ->
  Forall (fun r => start + size - 1 < er_start r) next ->
  er_start mid = start -> er_end mid = start + size - 1 ->
  updates ex (set_regions ex (before ++ mid :: next)) P.
Proof using Hok Hlo Hsz Hhi.
  intros Heq Hb Hn Hs He. pose proof Hok as (? & ? & Hr). rewrite Heq in Hr.
  apply regions_ok_app in Hr as [Hrb Hrn].
  apply updates_regions; [done| |].
  - apply regions_ok_app. split; [done|]. simpl. split_and!; [|lia|lia|].
    + destruct (last before) as [r|] eqn:Hl; [|lia].
      apply last_Some in Hl as [l' ->]. apply Forall_app in Hb as [_ [? _]%Forall_cons]. lia.
    + eapply regions_ok_tighten; [done|]. eapply Forall_impl; [done|]. simpl. lia.
  - intros x. unfold P, allocated. rewrite Heq, !covered_app, covered_cons, Hs, He. tauto.
Qed.

(** ... extend the region after it downwards ... *)
Lemma insert_prepend before r next :
  ex_regions ex = before ++ r :: next ->
  Forall (fun r => er_end r < start) before ->
  start + size = er_start r ->
  updates ex (set_regions ex (before ++ Region start (er_end r) (er_flags r) :: next)) P.
Proof using Hok Hlo Hsz Hhi.
  intros Heq Hb Hs. pose proof Hok as (? & ? & Hr). rewrite Heq in Hr.
  apply regions_ok_app in Hr as [Hrb (? & ? & Hrn)].
  apply updates_regions; [done| |].
  - apply regions_ok_app. split; [done|]. simpl. split_and!; [|lia|done|done].
    destruct (last before) as [r'|] eqn:Hl; [|lia].
    apply last_Some in Hl as [l' ->]. apply Forall_app in Hb as [_ [? _]%Forall_cons]. lia.
  - intros x. unfold P, allocated. rewrite Heq, !covered_app, !covered_cons. simpl.
    assert (start <= x <= er_end r <-> er_start r <= x <= er_end r \/ start <= x <= start + size - 1)
      by lia. tauto.
Qed.

(** ... extend the region before it upwards ... *)
Lemma insert_append init after next :
  ex_regions ex = init ++ after :: next -> er_end after + 1 = start ->
  Forall (fun r => start + size - 1 < er_start r) next ->
  updates ex (set_regions ex
    (init ++ Region (er_start after) (start + size - 1) (er_flags after) :: next)) P.
Proof using Hok Hlo Hsz Hhi.
  intros Heq Hs Hn. pose proof Hok as (? & ? & Hr). rewrite Heq in Hr.
  apply regions_ok_app in Hr as [Hrb (? & ? & Hrn)].
  apply updates_regions; [done| |].
  - apply regions_ok_app. split; [done|]. simpl. split_and!; [lia|lia|lia|].
    eapply regions_ok_tighten; [done|]. eapply Forall_impl; [done|]. simpl. lia.
  - intros x. unfold P, allocated. rewrite Heq, !covered_app, !covered_cons. simpl.
    assert (er_start after <= x <= start + size - 1 <->
            er_start after <= x <= er_end after \/ start <= x <= start + size - 1) by lia. tauto.
Qed.

(** ... or join the two. *)
Lemma insert_join init after r next :
  ex_regions ex = init ++ after :: r :: next -> er_end after + 1 = start ->
  start + size = er_start r ->
  updates ex (set_regions ex
    (init ++ Region (er_start after) (er_end r) (er_flags after) :: next)) P.
Proof using Hok Hlo Hsz Hhi.
  intros Heq Hs He. pose proof Hok as (? & ? & Hr). rewrite Heq in Hr.
  apply regions_ok_app in Hr as [Hrb (? & ? & ? & ? & Hrn)].
  apply updates_regions; [done| |].
  - apply regions_ok_app. split; [done|]. simpl. split_and!; [lia|lia|done|done].
  - intros x. unfold P, allocated. rewrite Heq, !covered_app, !covered_cons. simpl.
    assert (er_start after <= x <= er_end r <->
            er_start after <= x <= er_end after \/ start <= x <= start + size - 1 \/
            er_start r <= x <= er_end r) by lia. tauto.
Qed.

Lemma insert_spec : updates ex (extent_insert_and_optimize ex start size pos rp) P.
Proof using All.
  pose proof Hok as (? & ? & Hr). pose proof (regions_ok_hi _ _ _ Hr) as Hall.
  destruct Hgap as [Hpos Hb Ha].
  pose proof (eq_sym (take_drop pos (ex_regions ex))) as Heq.
  unfold extent_insert_and_optimize.
  replace (u64 (start + (size - 1))) with (start + size - 1)
    by (rewrite wrapu_small by (unfold inu; lia); lia).
  set (before := take pos (ex_regions ex)) in *. set (next := drop pos (ex_regions ex)) in *.
  assert (forall r next', next = r :: next' -> u64 (start + size) = start + size) as Hw.
  { intros r next' Hn. rewrite Hn in Ha. apply Forall_cons in Ha as [? _].
    rewrite Heq, Hn in Hall. apply Forall_app in Hall as [_ [? _]%Forall_cons].
    apply wrapu_small. unfold inu. lia. }
  destruct (last before) as [after|] eqn:Hl.
  - apply last_Some in Hl as [init Hl].
    assert (take (pred pos) (ex_regions ex) = init) as ->.
    { assert (length before = pos) as Hlen by (unfold before; rewrite length_take; lia).
      rewrite Hl, length_app in Hlen. simpl in Hlen.
      rewrite Heq, Hl, <- app_assoc, take_app_le by lia. apply take_ge. lia. }
    case_if; [by apply insert_list|].
    pose proof Heq as Heq2. rewrite Hl, <- app_assoc in Heq2. simpl in Heq2.
    pose proof Hall as Haf. rewrite Heq2 in Haf. apply Forall_app in Haf as [_ [? _]%Forall_cons].
    pose proof Hb as Hb2. rewrite Hl in Hb2. apply Forall_app in Hb2 as [_ [? _]%Forall_cons].
    rewrite (wrapu_small 64 (er_end after + 1)) by (unfold inu; lia).
    destruct next as [|r next'] eqn:Hn; [|rewrite (Hw r next') by done];
      repeat case_if; repeat (eapply updates_same; [|apply free_descriptor_same]);
      first [by apply insert_append | by eapply insert_join | by apply insert_list
            | by apply insert_prepend].
  - apply last_None in Hl. rewrite Hl in *. simpl in Heq.
    destruct next as [|r next'] eqn:Hn; [|rewrite (Hw r next') by done; case_if].
    + by apply (insert_list [] []).
    + eapply updates_same; [|apply free_descriptor_same]. by apply (insert_prepend []).
    + by apply (insert_list [] (r :: next')).
Qed.

End Insert.

(** ** [extent_alloc_region] *)

Lemma gap_intro (pre l : list extent_region) s e :
  Forall (fun r => er_end r < s) pre -> Forall (fun r => e < er_start r) l ->
  gap (pre ++ l) (length pre) s e.
Proof.
  intros. split; [rewrite length_app; lia|by rewrite take_app_length|by rewrite drop_app_length].
Qed.

Lemma regions_ok_after lo hi l : regions_ok lo hi l -> Forall (fun r => lo <= er_start r) l.
Proof. intros H%regions_ok_hi. eapply Forall_impl; [done|]. simpl. lia. Qed.

Lemma region_scan_spec lo hi pre l start end_ :
  regions_ok lo hi l -> Forall (fun r => er_end r < start) pre ->
  match region_scan l (length pre) start end_ with
  | (pos, None) => gap (pre ++ l) pos start end_
  | (pos, Some rp) => (pre ++ l) !! pos = Some rp /\
      er_start rp <= end_ /\ start <= er_end rp /\ Forall (fun r => er_end r < start) (take pos (pre ++ l))
  end.
Proof.
  revert lo pre. induction l as [|r l IH]; intros lo pre Hl Hpre; simpl.
  - by apply gap_intro.
  - destruct Hl as (? & ? & Hl). case_if; [|case_if].
    + apply gap_intro; [done|]. constructor; [done|].
      eapply Forall_impl; [by eapply regions_ok_after|]. simpl. lia.
    + rewrite lookup_app_r, Nat.sub_diag by lia. rewrite take_app_length. by split_and!.
    + specialize (IH (er_end r + 1) (pre ++ [r]) Hl).
      rewrite length_app, <- app_assoc in IH. simpl in IH. rewrite Nat.add_1_r in IH.
      apply IH. apply Forall_app. split; [done|]. by constructor.
Qed.

(** The request is one the DIAGNOSTIC checks let through. *)
Definition request_ok (ex : extent) (start size : Z) : Prop :=
  1 <= size /\ ex_start ex <= start /\ start + size - 1 <= ex_end ex.

(** ** [extent_free] *)

(** The interval lies in one region; without coalescing it is one region. *)
Definition freeable (nocoalesce : bool) (l : list extent_region) (start end_ : Z) : Prop :=
  Exists (fun r => if nocoalesce then er_start r = start /\ er_end r = end_
                   else er_start r <= start /\ end_ <= er_end r) l.

Lemma covered_above lo hi l x : regions_ok lo hi l -> covered l x -> lo <= x <= hi.
Proof.
  intros Hl%regions_ok_hi Hc. apply Exists_exists in Hc as (r & Hr & ?).
  rewrite Forall_forall in Hl. specialize (Hl r Hr). lia.
Qed.

Lemma freeable_above nc lo hi l start end_ :
  regions_ok lo hi l -> start <= end_ -> freeable nc l start end_ -> lo <= start /\ end_ <= hi.
Proof.
  intros Hl%regions_ok_hi ? Hc. apply Exists_exists in Hc as (r & Hr & Hcase).
  rewrite Forall_forall in Hl. specialize (Hl r Hr). destruct nc; lia.
Qed.

(** Freeing part of the first region of a list. *)
Lemma free_head lo hi r l l' start end_ :
  regions_ok lo hi (r :: l) -> er_start r <= start <= end_ -> end_ <= er_end r ->
  (forall x, covered l' x <-> er_start r <= x < start \/ end_ < x <= er_end r) ->
  forall x, covered (l' ++ l) x <-> covered (r :: l) x /\ ~ start <= x <= end_.
Proof.
  intros (? & ? & Hl) Hs He Hl' x. rewrite covered_app, covered_cons, Hl'.
  pose proof (covered_above _ _ l x Hl).
  destruct (decide (start <= x <= end_)); [|intuition lia].
  intuition lia.
Qed.

(** Once the interval starts below the regions left, none is found. *)
Lemma free_scan_none nc nf lo hi l start end_ :
  regions_ok lo hi l -> start < lo -> free_scan nc nf start end_ l = None.
Proof.
  revert lo. induction l as [|r l IH]; intros lo; simpl; [done|].
  intros (? & ? & Hl) Hlo. rewrite (IH (er_end r + 1)) by (done || lia).
  repeat case_if; done || lia.
Qed.

Definition free_result (nc : bool) (lo hi start end_ : Z) (l : list extent_region)
    (r : option (list extent_region * freed)) : Prop :=
  match r with
  | Some (l', _) => regions_ok lo hi l' /\ freeable nc l start end_ /\
      forall x, covered l' x <-> covered l x /\ ~ start <= x <= end_
  | None => ~ freeable nc l start end_
  end.

(** A region that ends before the interval is passed over. *)
Lemma free_pass nc lo hi r l start end_ res :
  regions_ok lo hi (r :: l) -> er_end r < start <= end_ ->
  free_result nc (er_end r + 1) hi start end_ l res ->
  free_result nc lo hi start end_ (r :: l)
    (match res with Some (l', f) => Some (r :: l', f) | None => None end).
Proof.
  intros (? & ? & Hl) Hs. destruct res as [[l' f]|]; simpl.
  - intros (? & ? & Hcov). split; [simpl; tauto|]. split; [by apply Exists_cons; right|].
    intros x. rewrite !covered_cons, Hcov. intuition lia.
  - intros Hn [Hc|Hc]%Exists_cons; [destruct nc; lia|done].
Qed.

Lemma free_hit (nc : bool) lo hi r l new start end_ f :
  regions_ok lo hi (r :: l) ->
  (if nc then er_start r = start /\ er_end r = end_
   else er_start r <= start /\ end_ <= er_end r) -> start <= end_ ->
  regions_ok lo hi (new ++ l) ->
  (forall x, covered new x <-> er_start r <= x < start \/ end_ < x <= er_end r) ->
  free_result nc lo hi start end_ (r :: l) (Some (new ++ l, f)).
Proof.
  intros Hr Hfr Hse Hnew Hcov. split_and!; [done|by apply Exists_cons; left|].
  by apply (free_head lo hi); [|destruct nc; lia..|].
Qed.

Lemma free_scan_spec nc nf lo hi l start end_ :
  0 <= lo -> hi < 2 ^ 64 -> regions_ok lo hi l -> lo <= start <= end_ -> end_ <= hi ->
  free_result nc lo hi start end_ l (free_scan nc nf start end_ l).
Proof.
  intros Hlo Hhi. revert lo Hlo. induction l as [|r l IH]; intros lo Hlo Hr Hs He; simpl.
  { by intros ?%Exists_nil. }
  pose proof Hr as (? & ? & Hl).
  assert (er_end r >= start -> ~ freeable nc l start end_) as Hrest.
  { intros ? Hc. eapply freeable_above in Hc; [|done|lia]. lia. }
  case_if; [apply free_pass; [done|lia|apply IH; [lia|done|lia|lia]]|].
  rewrite (free_scan_none nc nf (er_end r + 1) hi) by (done || lia).
  assert (forall x, covered [] x <-> False) as Hnil by (intros; split; [apply covered_nil|done]).
  repeat case_if.
  - simpl. intros [Hc|Hc]%Exists_cons; [destruct nc; lia|exact (Hrest ltac:(lia) Hc)].
  - eapply (free_hit nc lo hi r l []); [done|destruct nc; lia|lia| |].
    + eapply regions_ok_mono; [|done]. lia.
    + intros x. rewrite Hnil. lia.
  - simpl. intros [Hc|Hc]%Exists_cons; [simpl in Hc; lia|exact (Hrest ltac:(lia) Hc)].
  - eapply (free_hit false lo hi r l [_]); [done|lia|lia| |].
    + simpl. rewrite wrapu_small by (unfold inu; lia). by split_and!; try lia.
    + intros x. rewrite covered_cons, Hnil. simpl. rewrite wrapu_small by (unfold inu; lia). lia.
  - eapply (free_hit false lo hi r l [_]); [done|lia|lia| |].
    + simpl. rewrite wrapu_small by (unfold inu; lia). split_and!; try lia.
      eapply regions_ok_mono; [|done]. lia.
    + intros x. rewrite covered_cons, Hnil. simpl. rewrite wrapu_small by (unfold inu; lia). lia.
  - eapply (free_hit false lo hi r l [_; _]); [done|lia|lia| |].
    + simpl. rewrite !wrapu_small by (unfold inu; lia). by split_and!; try lia.
    + intros x. rewrite !covered_cons, Hnil. simpl. rewrite !wrapu_small by (unfold inu; lia). lia.
  - simpl. intros [Hc|Hc]%Exists_cons; [simpl in Hc; lia|exact (Hrest ltac:(lia) Hc)].
Qed.

Lemma free_done_same ex f nrp : same_regions ex (free_done ex f nrp).
Proof.
  unfold free_done.
  set (ex2 := match f with FreeOld rp => extent_free_region_descriptor ex rp | _ => ex end).
  assert (same_regions ex ex2) as H2 by (unfold ex2; destruct f; auto using free_descriptor_same; done).
  set (ex3 := match f, nrp with Split, _ | _, None => ex2 | _, Some nrp => _ end).
  assert (same_regions ex ex3) as H3.
  { unfold ex3. destruct f, nrp; try exact H2; (etrans; [exact H2|apply free_descriptor_same]). }
  case_if; [|done]. etrans; [done|]. unfold same_regions. simpl.
  split_and!; try done. by apply has_clear.
Qed.

Lemma extent_free_found_spec ex start end_ nrp :
  extent_ok ex -> ex_start ex <= start <= end_ -> end_ <= ex_end ex ->
  let fr := freeable (has (ex_flags ex) EXF_NOCOALESCE) (ex_regions ex) start end_ in
  match extent_free_found ex start end_ nrp with
  | XRet error _ ex' => error = 0 /\ fr /\
      updates ex ex' (fun x => allocated ex x /\ ~ start <= x <= end_)
  | XPanic => ~ fr
  | _ => False
  end.
Proof.
  intros Hok Hs He fr. pose proof Hok as (? & ? & Hr). unfold extent_free_found, fr.
  set (nc := has (ex_flags ex) EXF_NOCOALESCE).
  set (nf := match nrp with Some r => er_flags r | None => 0 end).
  pose proof (free_scan_spec nc nf (ex_start ex) (ex_end ex) (ex_regions ex) start end_
                ltac:(lia) ltac:(lia) Hr ltac:(lia) He) as Hscan.
  destruct (free_scan nc nf start end_ (ex_regions ex)) as [[l f]|]; [|done].
  destruct Hscan as (Hl & Hfr & Hcov). split_and!; [done|done|].
  eapply updates_same; [by apply updates_regions|apply free_done_same].
Qed.

Lemma extent_free_cases ex start size flags pool_ok :
  extent_ok ex -> request_ok ex start size -> has flags EX_WAITOK = false ->
  let end_ := start + size - 1 in
  let nc := has (ex_flags ex) EXF_NOCOALESCE in
  match extent_free ex start size flags pool_ok with
  | XRet error _ ex' =>
    error = 0 /\ freeable nc (ex_regions ex) start end_ /\
      updates ex ex' (fun x => allocated ex x /\ ~ start <= x <= end_) \/
    error = ENOMEM /\ nc = false /\ updates ex ex' (allocated ex)
  | XPanic => ~ freeable nc (ex_regions ex) start end_
  | _ => False
  end.
Proof.
  intros Hok (Hsz & Hlo & Hhi) Hwo end_ nc. pose proof Hok as (? & ? & Hr).
  assert (u64 (start + (size - 1)) = end_) as Hend
    by (unfold end_; rewrite wrapu_small by (unfold inu; lia); lia).
  unfold extent_free. rewrite Hend. repeat (case_if; [lia|]). fold nc.
  destruct nc eqn:Hnc; unfold nc in Hnc.
  - pose proof (extent_free_found_spec ex start end_ None Hok ltac:(lia) ltac:(lia)) as Hf.
    simpl in Hf. rewrite Hnc in Hf. destruct (extent_free_found _ _ _ _); tauto.
  - pose proof (alloc_descriptor_same ex flags pool_ok) as Hd.
    destruct (extent_alloc_region_descriptor ex flags pool_ok) as [nrp ex1|ex1|ex1] eqn:E.
    + pose proof Hd as (Hr1 & Hs1 & He1 & Hn1).
      pose proof (extent_free_found_spec ex1 start end_ (Some nrp)
                    (same_regions_ok _ _ Hd Hok) ltac:(lia) ltac:(lia)) as Hf.
      simpl in Hf. rewrite Hn1, Hnc, Hr1 in Hf.
      destruct (extent_free_found ex1 start end_ (Some nrp)) as [e r ex'| | |]; try done.
      destruct Hf as (-> & ? & (Ho & Hs & He & Hnc' & HP)). left. split_and!; try done.
      split_and!; try congruence. intros x. rewrite HP. unfold allocated. by rewrite Hr1.
    + right. split_and!; try done. eapply updates_same; [|done]. by split_and!.
    + exfalso. revert E. unfold extent_alloc_region_descriptor. rewrite Hwo.
      repeat case_if; destruct (fex_freelist ex); repeat case_if; done.
Qed.

(** What was inserted can be freed: one region contains it, and is it when
    coalescing is disabled. *)
Lemma insert_freeable ex start size pos rp :
  extent_ok ex -> ex_start ex <= start -> 1 <= size -> start + size - 1 <= ex_end ex ->
  gap (ex_regions ex) pos start (start + size - 1) ->
  freeable (has (ex_flags ex) EXF_NOCOALESCE)
    (ex_regions (extent_insert_and_optimize ex start size pos rp)) start (start + size - 1).
Proof.
  intros Hok Hlo Hsz Hhi [Hpos Hb Ha]. pose proof Hok as (? & ? & Hr).
  pose proof (regions_ok_hi _ _ _ Hr) as Hall. unfold extent_insert_and_optimize.
  replace (u64 (start + (size - 1))) with (start + size - 1)
    by (rewrite wrapu_small by (unfold inu; lia); lia).
  pose proof (eq_sym (take_drop pos (ex_regions ex))) as Heq.
  set (nc := has (ex_flags ex) EXF_NOCOALESCE).
  assert (forall r, r ∈ drop pos (ex_regions ex) -> start + size - 1 <= er_end r) as Hnext.
  { intros r Hin. rewrite Forall_forall in Ha, Hall. specialize (Ha r Hin).
    assert (r ∈ ex_regions ex) as Hin' by (rewrite Heq; set_solver).
    specialize (Hall r Hin'). lia. }
  assert (forall r, r ∈ take pos (ex_regions ex) -> er_start r <= start) as Hprev.
  { intros r Hin. rewrite Forall_forall in Hb, Hall. specialize (Hb r Hin).
    assert (r ∈ ex_regions ex) as Hin' by (rewrite Heq; set_solver).
    specialize (Hall r Hin'). lia. }
  destruct (last (take pos (ex_regions ex))) as [after|] eqn:Hl.
  - apply last_Some in Hl as [l' Hl].
    assert (er_start after <= start) by (apply Hprev; rewrite Hl; set_solver).
    destruct nc eqn:Hnc; [apply Exists_app; right; apply Exists_cons; left; simpl; lia|].
    destruct (drop pos (ex_regions ex)) as [|r next];
      [|assert (start + size - 1 <= er_end r) by (apply Hnext; set_solver)];
      repeat case_if; rewrite ?(proj1 (free_descriptor_same _ _)); simpl;
      apply Exists_app; right; apply Exists_cons; left; simpl; lia.
  - destruct (drop pos (ex_regions ex)) as [|r next].
    + apply Exists_cons. left. destruct nc; simpl; lia.
    + assert (start + size - 1 <= er_end r) by (apply Hnext; set_solver). case_if;
        rewrite ?(proj1 (free_descriptor_same _ _)); simpl; apply Exists_cons; left;
        destruct nc; simpl; try done; lia.
Qed.

Lemma alloc_region_cases ex start size flags pool_ok :
  extent_ok ex -> request_ok ex start size ->
  has flags EX_CONFLICTOK = false -> has flags EX_WAITSPACE = false ->
  has flags EX_WAITOK = false ->
  let conflict := exists x, start <= x <= start + size - 1 /\ allocated ex x in
  exists error ex', extent_alloc_region ex start size flags pool_ok = XRet error 0 ex' /\
    match error with
    | 0 => ~ conflict /\
           freeable (has (ex_flags ex') EXF_NOCOALESCE) (ex_regions ex') start (start + size - 1) /\
           updates ex ex' (fun x => allocated ex x \/ start <= x <= start + size - 1)
    | _ => updates ex ex' (allocated ex) /\
           (error = EAGAIN /\ conflict \/ error = ENOMEM)
    end.
Proof.
  intros Hok (Hsz & Hlo & Hhi) Hco Hws Hwo conflict. pose proof Hok as (? & ? & Hr).
  assert (updates ex ex (allocated ex)) as Hsame by by split_and!.
  assert (u64 (start + (size - 1)) = start + size - 1) as Hend
    by (rewrite wrapu_small by (unfold inu; lia); lia).
  unfold extent_alloc_region. rewrite Hend, Hco. simpl. repeat (case_if; [lia|]).
  pose proof (alloc_descriptor_same ex flags pool_ok) as Hd.
  destruct (extent_alloc_region_descriptor ex flags pool_ok) as [myrp ex1|ex1|ex1] eqn:E.
  - pose proof Hd as (Hr1 & Hs1 & He1 & Hn1). rewrite Nat.add_comm. simpl.
    pose proof (region_scan_spec _ _ [] (ex_regions ex) start (start + size - 1) Hr (Forall_nil_2 _)) as Hscan.
    rewrite <- Hr1 in Hscan. simpl in Hscan.
    destruct (region_scan (ex_regions ex1) 0 start (start + size - 1)) as [pos [rp|]].
    + rewrite Hws, Hco. do 2 eexists. split; [done|]. simpl. split.
      * eapply updates_same; [done|]. etrans; [done|]. apply free_descriptor_same.
      * left. split; [done|]. destruct Hscan as (Hin & ? & ? & _).
        apply list_elem_of_lookup_2 in Hin.
        rewrite Hr1 in Hin. pose proof (regions_ok_hi _ _ _ Hr) as Hall.
        rewrite Forall_forall in Hall. specialize (Hall _ Hin).
        exists (Z.max start (er_start rp)). split; [lia|].
        apply Exists_exists. exists rp. split; [done|lia].
    + do 2 eexists. split; [done|].
      assert (extent_ok ex1) by by eapply same_regions_ok. split_and!.
      * intros (x & Hx & Hc). unfold allocated in Hc. rewrite <- Hr1 in Hc.
        by eapply gap_free in Hc.
      * destruct (insert_spec ex1 start size pos myrp) as (_ & _ & _ & -> & _);
          try done; [congruence|congruence|].
        apply insert_freeable; done || congruence.
      * destruct (insert_spec ex1 start size pos myrp) as (Ho & Hs & He & Hnc & HP);
          try done; [congruence|congruence|].
        split_and!; [done|congruence|congruence|congruence|].
        intros x. rewrite HP. unfold allocated. by rewrite Hr1.
  - do 2 eexists. split; [done|]. split; [|by right]. by eapply updates_same.
  - exfalso. revert E. unfold extent_alloc_region_descriptor. rewrite Hwo.
    repeat case_if; destruct (fex_freelist ex); repeat case_if; done.
Qed.

