(* ===== verification/ExtentAlloc.v ===== *)
(** * Correctness of the extent manager

    The search for a gap of [extent_do_alloc] is shown sound (what it finds
    is free, inside the subregion, aligned and within a boundary line) and
    complete (when it gives up there is no such place), and the operations of
    kern/subr_extent.c are shown to implement a set of allocated values. *)

From S2P Require Import Prelude Extent.

(** ** Alignment *)

Lemma align_least y x s a skew :
  y < s + 2 ^ a -> (y - skew) mod 2 ^ a = 0 -> s <= x -> (x - skew) mod 2 ^ a = 0 -> y <= x.
Proof.
  intros Hy Hym Hx Hxm. destruct (Z.lt_ge_cases x y) as [Hlt|]; [|lia]. exfalso.
  assert ((y - x) mod 2 ^ a = 0) as Hm.
  { replace (y - x) with ((y - skew) - (x - skew)) by lia.
    by rewrite Zminus_mod, Hym, Hxm, Z.sub_diag, Zmod_0_l. }
  rewrite Z.mod_small in Hm; lia.
Qed.

(** The lines a region may not cross, counted from [base]. *)
Definition same_block (boundary base x y : Z) : Prop :=
  boundary = 0 \/ (x - base) / boundary = (y - base) / boundary.

Lemma same_block_next b base x y z :
  0 <= b -> x < z <= x + 2 ^ b -> (z - base) mod 2 ^ b = 0 -> x <= y < z ->
  same_block (2 ^ b) base x y.
Proof.
  intros Hb Hz Hm Hy. right. assert (0 < 2 ^ b) by (apply Z.pow_pos_nonneg; lia).
  apply Z.mod_divide in Hm as [q Hq]; [|lia].
  rewrite <- (Z.div_unique_pos (x - base) (2 ^ b) (q - 1) (x - base - 2 ^ b * (q - 1))) by lia.
  rewrite <- (Z.div_unique_pos (y - base) (2 ^ b) (q - 1) (y - base - 2 ^ b * (q - 1))) by lia.
  done.
Qed.

Lemma LE_OV_spec x y z :
  inu 64 x -> inu 64 y -> z < 2 ^ 64 -> LE_OV x y z = true <-> x + y <= z.
Proof.
  intros [? ?] [? ?] ?. unfold LE_OV. rewrite andb_true_iff, !Z.leb_le.
  destruct (Z.lt_ge_cases (x + y) (2 ^ 64)).
  - rewrite wrapu_small by (unfold inu; lia). lia.
  - unfold wrapu. assert ((x + y) mod 2 ^ 64 = x + y - 2 ^ 64); [|lia].
    symmetry. apply Zmod_unique with 1; lia.
Qed.

Lemma regions_ok_before lo hi pre r rest :
  regions_ok lo hi (pre ++ r :: rest) -> Forall (fun q => er_end q < er_start r) pre.
Proof.
  revert lo. induction pre as [|q pre IH]; intros lo; simpl; [done|].
  intros (? & ? & Hl). constructor; [|by eapply IH].
  apply regions_ok_hi in Hl. apply Forall_app in Hl as [_ [? _]%Forall_cons]. lia.
Qed.

Section Alloc.

Context (ex : extent) (substart subend size a skew boundary flags : Z).
Context (Hok : extent_ok ex) (Hsub : ex_start ex <= substart)
        (Hsubend : subend <= ex_end ex) (Hsz : 1 <= size < 2 ^ 64)
        (Ha : 0 <= a < 64) (Hov : ex_end ex + 2 ^ a < 2 ^ 64).

Let base := if has flags EX_BOUNDZERO then 0 else ex_start ex.

(** The boundary is absent, or a power of two that leaves room for the
    request and does not overflow. *)
Context (Hbound : boundary = 0 \/
  exists b, 0 <= b < 64 /\ boundary = 2 ^ b /\ size <= boundary /\ ex_end ex + boundary < 2 ^ 64).

Definition aligned (x : Z) : Prop := (x - skew) mod 2 ^ a = 0.

(** A place for the request. *)
Record place (ns : Z) (pos : nat) : Prop := {
  place_gap : gap (ex_regions ex) pos ns (ns + size - 1);
  place_lo : substart <= ns;
  place_hi : ns + size - 1 <= subend;
  place_block : same_block boundary base ns (ns + size - 1);
  place_aligned : aligned ns \/ boundary <> 0 /\ (ns - base) mod boundary = 0
}.

Lemma boundary_check_spec fits newstart ns :
  ex_start ex <= newstart -> newstart + size - 1 <= ex_end ex -> fits newstart = true ->
  boundary_check ex fits newstart size boundary flags = BOk ns ->
  fits ns = true /\ newstart <= ns /\ ns < 2 ^ 64 /\ same_block boundary base ns (ns + size - 1) /\
  (ns = newstart \/ boundary <> 0 /\ (ns - base) mod boundary = 0).
Proof.
  intros Hlo Hhi Hfit. pose proof Hok as (? & ? & _). unfold boundary_check.
  destruct Hbound as [->|(b & Hb & -> & Hbs & Hbo)].
  { intros [= <-]. split_and!; try done; try lia; by left. }
  assert (0 < 2 ^ b) by (apply Z.pow_pos_nonneg; lia).
  case_if; [lia|]. fold base.
  rewrite (wrapu_small 64 (newstart + 1)), (wrapu_small 64 (newstart + (size - 1)))
    by (unfold inu; lia).
  pose proof (extent_align_spec (newstart + 1) b base) as Hal.
  set (y := extent_align (newstart + 1) (2 ^ b) base) in *.
  destruct Hal as [Hy Hym]; [unfold inu; lia|done|lia|].
  rewrite (wrapu_small 64 (y - 1)) by (unfold inu; lia).
  case_if; [lia|]. case_if.
  - replace (u64 (y - 1 + 1)) with y by (rewrite wrapu_small by (unfold inu; lia); lia).
    case_if; [done|]. case_if; [done|]. intros [= <-]. split_and!; try done; try lia.
    apply (same_block_next b base y _ (y + 2 ^ b)); [lia|lia| |lia].
    replace (y + 2 ^ b - base) with (y - base + 1 * 2 ^ b) by lia. by rewrite Z_mod_plus_full.
  - case_if; [done|]. intros [= <-]. split_and!; try done; try lia.
    apply (same_block_next b base newstart _ y); lia || done.
Qed.

(** The best gap found so far is a place, if there is one. *)
Definition best_ok (b : best) : Prop :=
  let '(ovh, ns, pos) := b in ovh = 0 \/ place ns pos.

Lemma better_ok ovh ns pos b : place ns pos -> best_ok b -> best_ok (better ovh ns pos b).
Proof. destruct b as [[bo bs] bp]. simpl. intros. case_if; simpl; auto. Qed.

Definition result_ok (r : scan_result) : Prop :=
  match r with SFound ns pos => place ns pos | SFail b => best_ok b end.

(** The candidate start for the regions behind the first ones: past them,
    aligned, in the subregion. *)
Record candidate (pre : list extent_region) (ns : Z) : Prop := {
  cand_pre : Forall (fun r => er_end r < ns) pre;
  cand_lo : substart <= ns;
  cand_hi : ns <= ex_end ex + 2 ^ a;
  cand_aligned : aligned ns
}.

Lemma place_of_candidate pre rest newstart ns lim :
  ex_regions ex = pre ++ rest -> candidate pre newstart -> newstart <= ns ->
  ns + size - 1 <= lim -> lim <= subend -> Forall (fun r => lim < er_start r) rest ->
  same_block boundary base ns (ns + size - 1) ->
  (ns = newstart \/ boundary <> 0 /\ (ns - base) mod boundary = 0) ->
  place ns (length pre).
Proof.
  intros Heq [Hp ? ? Hal] Hns Hlim Hse Hrest Hblk Hor. split; try lia; try done.
  - rewrite Heq. apply gap_intro; (eapply Forall_impl; [done|]); simpl; lia.
  - destruct Hor as [->|?]; auto.
Qed.

Lemma final_check_ok pre rest exend newstart b :
  ex_regions ex = pre ++ rest -> Forall (fun r => subend < er_start r) rest ->
  candidate pre newstart -> best_ok b ->
  result_ok (final_check ex subend size boundary flags exend newstart (length pre) b).
Proof.
  intros Heq Hrest Hc Hb. pose proof Hok as (? & ? & _). pose proof Hc as [_ ? ? _].
  unfold final_check. case_if; [|done].
  assert (newstart + size - 1 <= subend) as Hfit.
  { apply LE_OV_spec in Heqb0; unfold inu; lia. }
  destruct (boundary_check _ _ _ _ _ _) as [ns| |] eqn:E; [|done|done].
  apply boundary_check_spec in E as (Hf & ? & ? & Hblk & Hor); [|lia|lia|done].
  apply LE_OV_spec in Hf; [|unfold inu; lia|unfold inu; lia|lia].
  assert (place ns (length pre)) by (apply (place_of_candidate pre rest newstart ns subend); done || lia).
  case_if; simpl; [done|]. by apply better_ok.
Qed.

Lemma next_candidate pre r rest :
  ex_regions ex = pre ++ r :: rest -> substart <= er_end r + 1 ->
  candidate (pre ++ [r]) (extent_align (u64 (er_end r + 1)) (2 ^ a) skew) /\
  er_end r + 1 <= extent_align (u64 (er_end r + 1)) (2 ^ a) skew < er_end r + 1 + 2 ^ a.
Proof.
  intros Heq Hs. pose proof Hok as (? & ? & Hr). pose proof (regions_ok_hi _ _ _ Hr) as Hall.
  rewrite Heq in Hr, Hall. apply Forall_app in Hall as [Hpre [? Hrest]%Forall_cons].
  rewrite wrapu_small by (unfold inu; lia).
  destruct (extent_align_spec (er_end r + 1) a skew) as [? ?]; [unfold inu; lia|done|lia|].
  split; [|done]. split; [|lia|lia|done].
  apply Forall_app. split; [|by constructor; [lia|]].
  eapply Forall_impl; [by eapply regions_ok_before|]. simpl. lia.
Qed.

Lemma gap_scan_ok pre rest newstart b :
  ex_regions ex = pre ++ rest -> candidate pre newstart -> best_ok b ->
  Forall (fun r => substart <= er_end r + 1) rest ->
  result_ok (gap_scan ex subend size (2 ^ a) skew boundary flags rest (length pre) newstart b).
Proof.
  revert pre newstart b. induction rest as [|r rest IH]; intros pre newstart b Heq Hc Hb Hse.
  { by apply (final_check_ok pre []). }
  pose proof Hok as (? & ? & Hr). apply Forall_cons in Hse as [Hser Hse].
  pose proof Hr as Hr2. rewrite Heq in Hr2. apply regions_ok_app in Hr2 as [_ (? & ? & Hrest)].
  simpl. case_if.
  { apply (final_check_ok pre (r :: rest)); [done| |done|done]. constructor; [done|].
    eapply Forall_impl; [by eapply regions_ok_after|]. simpl. lia. }
  assert (forall b', best_ok b' -> result_ok
    (if extent_align (u64 (er_end r + 1)) (2 ^ a) skew <? er_end r then SFail b'
     else gap_scan ex subend size (2 ^ a) skew boundary flags rest (S (length pre))
            (extent_align (u64 (er_end r + 1)) (2 ^ a) skew) b')) as Hskip.
  { intros b' Hb'. case_if; [done|].
    specialize (IH (pre ++ [r])). rewrite length_app, Nat.add_1_r in IH.
    apply IH; [by rewrite <- app_assoc|by eapply next_candidate|done|done]. }
  case_if; [|by apply Hskip]. pose proof Hc as [_ ? ? _].
  assert (newstart + size <= er_start r) as Hfit by (apply LE_OV_spec in Heqb1; unfold inu; lia).
  destruct (boundary_check _ _ _ _ _ _) as [ns| |] eqn:E; [|by apply Hskip|done].
  apply boundary_check_spec in E as (Hf & ? & ? & Hblk & Hor); [|lia|lia|done].
  apply LE_OV_spec in Hf; [|unfold inu; lia|unfold inu; lia|lia].
  assert (place ns (length pre)) as Hpl.
  { eapply (place_of_candidate pre (r :: rest) newstart ns (er_start r - 1)); try done; try lia.
    constructor; [lia|]. eapply Forall_impl; [by eapply regions_ok_after|]. simpl. lia. }
  case_if; [done|]. by apply Hskip, better_ok.
Qed.

Lemma first_at_spec pre l ns :
  Forall (fun r => er_start r < ns) pre ->
  exists mid post, l = mid ++ post /\ first_at l (length pre) ns = length (pre ++ mid) /\
    Forall (fun r => er_start r < ns) (pre ++ mid) /\
    match post with [] => True | r :: _ => ns <= er_start r end.
Proof.
  revert pre. induction l as [|r l IH]; intros pre Hpre; simpl.
  { exists [], []. rewrite (app_nil_r pre). by split_and!. }
  case_if.
  - exists [], (r :: l). rewrite (app_nil_r pre). by split_and!.
  - destruct (IH (pre ++ [r])) as (mid & post & -> & Hf & Hall & Hpost).
    { apply Forall_app. split; [done|]. by constructor. }
    exists (r :: mid), post. rewrite <- app_assoc in Hf, Hall. simpl in *.
    split_and!; try done. rewrite <- Hf, length_app. f_equal. simpl. lia.
Qed.

(** The first candidate, and where the search starts. *)
Lemma find_gap_start :
  substart <= ex_end ex ->
  exists pre rest newstart,
    ex_regions ex = pre ++ rest /\ candidate pre newstart /\
    Forall (fun r => substart <= er_end r + 1) rest /\
    find_gap ex subend size (2 ^ a) skew boundary flags substart =
      Some (gap_scan ex subend size (2 ^ a) skew boundary flags rest (length pre) newstart (0, 0, O)) /\
    forall x, substart <= x -> aligned x -> newstart <= x \/ covered pre x.
Proof.
  intros Hs. pose proof Hok as (? & ? & Hr).
  destruct (extent_align_spec substart a skew) as [Hy Hym]; [unfold inu; lia|done|lia|].
  unfold find_gap. set (y := extent_align substart (2 ^ a) skew) in *.
  case_if; [lia|].
  destruct (first_at_spec [] (ex_regions ex) y) as (pre & rest & Heq & Hf & Hall & Hpost); [done|].
  simpl in *. rewrite Hf. exists pre, rest.
  rewrite Heq in Hr at 1. rewrite Heq, take_app_length, drop_app_length.
  pose proof (regions_ok_hi _ _ _ Hr) as Hin. apply Forall_app in Hin as [Hin1 Hin2].
  assert (Forall (fun r => substart <= er_end r + 1) rest) as Hend.
  { destruct rest as [|r rest]; [done|]. simpl in Hpost. apply Forall_cons in Hin2 as [? Hin2].
    apply regions_ok_app in Hr as [_ (? & ? & Hrest)]. constructor; [lia|].
    apply regions_ok_hi in Hrest. eapply Forall_impl; [exact Hrest|]. simpl. lia. }
  assert (forall x, substart <= x -> aligned x -> y <= x) as Hleast.
  { intros x ? ?. eapply (align_least y x substart a skew); done || lia. }
  destruct (last pre) as [l|] eqn:Hl.
  - apply last_Some in Hl as [init ->]. rewrite <- app_assoc in Hr. simpl in Hr.
    pose proof (regions_ok_before _ _ _ _ _ Hr) as Hb.
    apply Forall_app in Hall as [_ [? _]%Forall_cons].
    apply Forall_app in Hin1 as [_ [? _]%Forall_cons].
    case_if.
    + destruct (next_candidate init l rest) as [Hc Hn]; [by rewrite Heq, <- app_assoc|lia|].
      eexists. split_and!; try done. intros x Hx Hax. specialize (Hleast x Hx Hax).
      destruct (Z.le_gt_cases x (er_end l)).
      * right. apply covered_app. right. apply covered_cons. left. lia.
      * left. eapply (align_least _ x (er_end l + 1) a skew); [lia|apply Hc|lia|done].
    + exists y. split_and!; try done; [|intros; left; auto].
      split; [|lia|lia|done]. apply Forall_app. split; [|by constructor].
      eapply Forall_impl; [done|]. simpl. lia.
  - apply last_None in Hl as ->. exists y. split_and!; try done; [|intros; left; auto].
    by split; [|lia|lia|].
Qed.

(** What [extent_do_alloc] finds is a place for the request. *)
Lemma do_alloc_found myrp error r ex' :
  substart <= ex_end ex ->
  do_alloc_start ex substart subend size (2 ^ a) skew boundary flags myrp = XRet error r ex' ->
  error = 0 -> exists pos, place r pos /\ ex' = extent_insert_and_optimize ex r size pos myrp.
Proof.
  intros Hs. destruct (find_gap_start Hs) as (pre & rest & ns & Heq & Hc & Hend & Hfind & _).
  pose proof (gap_scan_ok pre rest ns (0, 0, O) Heq Hc (or_introl eq_refl) Hend) as Hres.
  unfold do_alloc_start. rewrite Hfind.
  destruct (gap_scan _ _ _ _ _ _ _ _ _ _ _) as [ns' pos|[[bo bs] bp]]; simpl in Hres.
  - intros [= <- <- <-] _. eauto.
  - case_if; [intros [= <- <- <-] _|case_if; [done|intros [= <- _ _]; done]].
    exists bp. split; [|done]. by destruct Hres.
Qed.

(** ** Completeness, without a boundary *)

Definition best_ovh (b : best) : Z := b.1.1.

Lemma better_nonzero ovh ns pos b : ovh <> 0 -> best_ovh (better ovh ns pos b) <> 0.
Proof.
  destruct b as [[bo bs] bp]. unfold best_ovh. simpl. intros. case_if; simpl; [done|].
  lia.
Qed.

Lemma final_check_nonzero exend ns pos b b' :
  best_ovh b <> 0 -> final_check ex subend size boundary flags exend ns pos b = SFail b' ->
  best_ovh b' <> 0.
Proof.
  unfold final_check. intros Hb. case_if; [|by intros [= <-]].
  destruct (boundary_check _ _ _ _ _ _); [|by intros [= <-]..].
  case_if; [done|]. intros [= <-]. by apply better_nonzero.
Qed.

Lemma gap_scan_nonzero rest pos ns b b' :
  best_ovh b <> 0 ->
  gap_scan ex subend size (2 ^ a) skew boundary flags rest pos ns b = SFail b' ->
  best_ovh b' <> 0.
Proof.
  revert pos ns b. induction rest as [|r rest IH]; intros pos ns b Hb; simpl.
  { by apply final_check_nonzero. }
  case_if; [by apply final_check_nonzero|].
  assert (forall b1, best_ovh b1 <> 0 ->
    (if extent_align (u64 (er_end r + 1)) (2 ^ a) skew <? er_end r then SFail b1
     else gap_scan ex subend size (2 ^ a) skew boundary flags rest (S pos)
            (extent_align (u64 (er_end r + 1)) (2 ^ a) skew) b1) = SFail b' ->
    best_ovh b' <> 0) as Hskip.
  { intros b1 Hb1. case_if; [by intros [= <-]|]. by apply IH. }
  case_if; [|by apply Hskip].
  destruct (boundary_check _ _ _ _ _ _); [|by apply Hskip|by intros [= <-]].
  case_if; [done|]. apply Hskip. by apply better_nonzero.
Qed.

(** The scan gave up: first fit found nothing, or nothing was noted. *)
Definition gave_up (b : best) : Prop := has flags EX_FAST = true \/ best_ovh b = 0.

Lemma boundary_check_none fits ns : boundary = 0 -> boundary_check ex fits ns size boundary flags = BOk ns.
Proof. intros ->. done. Qed.

Lemma final_check_complete pre exend newstart b b' x :
  boundary = 0 -> candidate pre newstart -> subend <= exend < 2 ^ 64 ->
  final_check ex subend size boundary flags exend newstart (length pre) b = SFail b' ->
  gave_up b' -> newstart <= x -> subend < x + size - 1.
Proof.
  intros Hb0 [_ ? ? _] Hex. pose proof Hok as (? & ? & _).
  unfold final_check. destruct (LE_OV newstart (size - 1) subend) eqn:Hle.
  - rewrite boundary_check_none by done. case_if; [done|]. intros [= <-] [Hg|Hg] Hx.
    + destruct (has flags EX_FAST); done.
    + apply better_nonzero in Hg; [done|]. destruct (has flags EX_FAST); [done|]. simpl in *. lia.
  - intros _ _ Hx. destruct (Z.lt_ge_cases subend (x + size - 1)); [done|]. exfalso.
    assert (LE_OV newstart (size - 1) subend = true); [|congruence].
    apply LE_OV_spec; unfold inu; lia.
Qed.

Lemma gap_scan_complete pre rest newstart b b' x :
  boundary = 0 -> ex_regions ex = pre ++ rest -> candidate pre newstart ->
  Forall (fun r => substart <= er_end r + 1) rest ->
  gap_scan ex subend size (2 ^ a) skew boundary flags rest (length pre) newstart b = SFail b' ->
  gave_up b' -> newstart <= x -> aligned x -> x + size - 1 <= subend ->
  exists y, x <= y <= x + size - 1 /\ covered rest y.
Proof.
  intros Hb0. revert pre newstart b. induction rest as [|r rest IH];
    intros pre newstart b Heq Hc Hse; pose proof Hok as (? & ? & Hr).
  { simpl. intros Hf Hg Hx _ ?. eapply final_check_complete in Hf; [|done..|lia|done|done]. lia. }
  rewrite Heq in Hr. apply regions_ok_app in Hr as [_ (? & ? & Hrest)].
  apply Forall_cons in Hse as [Hser Hse]. simpl.
  destruct (Z.ltb_spec subend (er_start r)).
  { intros Hf Hg Hx _ ?. eapply final_check_complete in Hf; [|done..|lia|done|done]. lia. }
  assert (forall b1,
    (if extent_align (u64 (er_end r + 1)) (2 ^ a) skew <? er_end r then SFail b1
     else gap_scan ex subend size (2 ^ a) skew boundary flags rest (S (length pre))
            (extent_align (u64 (er_end r + 1)) (2 ^ a) skew) b1) = SFail b' ->
    gave_up b' -> er_start r <= x + size - 1 -> aligned x -> x + size - 1 <= subend ->
    exists y, x <= y <= x + size - 1 /\ covered (r :: rest) y) as Hskip.
  { intros b1 Hscan Hg Hxs Hax Hxe. destruct (next_candidate pre r rest Heq Hser) as [Hc' Hn].
    case_if_in Hscan; [lia|]. destruct (Z.le_gt_cases x (er_end r)).
    - exists (Z.max x (er_start r)). split; [lia|]. apply covered_cons. left. lia.
    - specialize (IH (pre ++ [r]) (extent_align (u64 (er_end r + 1)) (2 ^ a) skew) b1).
      rewrite length_app, Nat.add_1_r in IH. destruct IH as (y & ? & ?); try done.
      + by rewrite <- app_assoc.
      + eapply (align_least _ x (er_end r + 1) a skew); [lia|apply Hc'|lia|done].
      + exists y. split; [done|]. by apply covered_cons; right. }
  destruct (LE_OV newstart size (er_start r)) eqn:Hle.
  - rewrite boundary_check_none by done. case_if; [done|].
    pose proof Hc as [_ ? ? _]. apply LE_OV_spec in Hle; [|unfold inu; lia..|lia].
    intros Hscan [Hg|Hg]; [destruct (has flags EX_FAST); done|]. exfalso.
    destruct (has flags EX_FAST); [done|]. simpl in *. zify_bool. revert Hscan.
    case_if; [intros [= <-]; by apply better_nonzero in Hg|].
    intros Hscan. apply gap_scan_nonzero in Hscan; [done|by apply better_nonzero].
  - intros Hscan Hg Hx Hax Hxe. apply (Hskip b); try done.
    destruct (Z.lt_ge_cases (x + size - 1) (er_start r)); [|lia]. exfalso.
    pose proof Hc as [_ ? ? _].
    assert (LE_OV newstart size (er_start r) = true); [|congruence].
    apply LE_OV_spec; unfold inu; lia.
Qed.

(** When [extent_do_alloc] reports [EAGAIN], no aligned place is free. *)
Lemma do_alloc_again myrp r ex' x :
  boundary = 0 -> substart <= ex_end ex ->
  do_alloc_start ex substart subend size (2 ^ a) skew boundary flags myrp = XRet EAGAIN r ex' ->
  substart <= x -> aligned x -> x + size - 1 <= subend ->
  exists y, x <= y <= x + size - 1 /\ allocated ex y.
Proof.
  intros Hb0 Hs Hdo Hx Hax Hxe.
  destruct (find_gap_start Hs) as (pre & rest & ns & Heq & Hc & Hend & Hfind & Hleast).
  revert Hdo. unfold do_alloc_start. rewrite Hfind.
  destruct (gap_scan _ _ _ _ _ _ _ _ _ _ _) as [ns' pos|[[bo bs] bp]] eqn:Hscan; [done|].
  case_if; [done|]. intros _.
  destruct (Hleast x Hx Hax) as [Hle|Hcov].
  - eapply gap_scan_complete in Hscan as (y & ? & Hy); try done.
    + exists y. split; [done|]. unfold allocated. rewrite Heq. apply covered_app. by right.
    + unfold gave_up, best_ovh. simpl. destruct (has flags EX_FAST); [by left|right].
      simpl in *. zify_bool. destruct_or?; zify_bool; done.
  - exists x. split; [lia|]. unfold allocated. rewrite Heq. apply covered_app. by left.
Qed.

End Alloc.

(** ** The operations as operations on a set *)

(** C3: allocating a region that lies in a well-formed extent, without waiting (neither
    [EX_WAITOK] nor [EX_WAITSPACE]) and without [EX_CONFLICTOK], returns; it succeeds
    exactly when the region is
    free, given a descriptor, and then adds exactly that region to the
    allocated set and leaves it freeable; it fails with [EAGAIN] exactly when
    the region overlaps an allocated one, or with [ENOMEM], and leaves the
    set alone.  The extent stays well formed.  (With [EX_CONFLICTOK] it does not do
    what it means to, see [conflictok_truncates_region].) *)
Theorem extent_alloc_region_spec ex start size flags pool_ok :
  extent_ok ex -> request_ok ex start size ->
  has flags EX_CONFLICTOK = false -> has flags EX_WAITSPACE = false ->
  has flags EX_WAITOK = false ->
  let conflict := exists x, start <= x <= start + size - 1 /\ allocated ex x in
  exists error ex', extent_alloc_region ex start size flags pool_ok = XRet error 0 ex' /\
    match error with
    | 0 => ~ conflict /\
           freeable (has (ex_flags ex') EXF_NOCOALESCE) (ex_regions ex') start (start + size - 1) /\
           updates ex ex' (fun x => allocated ex x \/ start <= x <= start + size - 1)
    | _ => updates ex ex' (allocated ex) /\
           (error = EAGAIN /\ conflict \/ error = ENOMEM)
    end.
Proof. apply alloc_region_cases. Qed.

(** C4: [extent_free] on a well-formed extent, for an interval inside it:
    it returns 0 exactly when the interval is allocated as (part of) one
    region, or as exactly one region when coalescing is disabled, and then
    removes exactly the interval from the allocated set; it panics when the
    interval is not allocated in that way; the only error is [ENOMEM], which
    changes nothing.  The extent stays well formed. *)
Theorem extent_free_spec ex start size flags pool_ok :
  extent_ok ex -> request_ok ex start size -> has flags EX_WAITOK = false ->
  let end_ := start + size - 1 in
  let nc := has (ex_flags ex) EXF_NOCOALESCE in
  match extent_free ex start size flags pool_ok with
  | XRet error _ ex' =>
    error = 0 /\ freeable nc (ex_regions ex) start end_ /\
      updates ex ex' (fun x => allocated ex x /\ ~ start <= x <= end_) \/
    error = ENOMEM /\ nc = false /\ updates ex ex' (allocated ex)
  | XPanic => ~ freeable nc (ex_regions ex) start end_
  | _ => False
  end.
Proof. apply extent_free_cases. Qed.

(** A request for any place in a subregion that passes the DIAGNOSTIC checks,
    with a power of two alignment and boundary that stay clear of the end of
    the number range. *)
Record subrequest_ok (ex : extent) (substart subend size a boundary : Z) : Prop := {
  sr_lo : ex_start ex <= substart <= ex_end ex;
  sr_hi : ex_start ex <= subend <= ex_end ex;
  sr_size : 1 <= size < 2 ^ 64;
  sr_fits : size - 1 <= u64 (subend - substart);
  sr_align : 0 <= a < 64;
  sr_range : ex_end ex + 2 ^ a < 2 ^ 64;
  sr_boundary : boundary = 0 \/
    exists b, 0 <= b < 64 /\ boundary = 2 ^ b /\ size <= boundary /\ ex_end ex + boundary < 2 ^ 64
}.

Lemma extent_do_alloc_checks ex substart subend size a skew boundary flags rp :
  extent_ok ex -> subrequest_ok ex substart subend size a boundary ->
  extent_do_alloc ex substart subend size (2 ^ a) skew boundary flags rp =
  do_alloc_start ex substart subend size (2 ^ a) skew boundary flags rp.
Proof.
  intros Hok [? ? ? Hf ? ? Hb]. unfold extent_do_alloc.
  assert (0 < 2 ^ a) by (apply Z.pow_pos_nonneg; lia).
  rewrite (wrapu_small 64 (size - 1)) by (unfold inu; lia).
  repeat (case_if; [destruct_or?; zify_bool; lia|]). case_if; [|done].
  destruct Hb as [->|(b & ? & -> & ? & ?)]; lia.
Qed.

Lemma subrequest_same ex ex' substart subend size a boundary :
  same_regions ex ex' -> subrequest_ok ex substart subend size a boundary ->
  subrequest_ok ex' substart subend size a boundary.
Proof. intros (_ & Hs & He & _) []. split; rewrite ?Hs, ?He; done. Qed.

(** What [extent_alloc_subregion] returns with success lies in the
    subregion, was free, does not cross a boundary line, is aligned (when the
    boundary lines are), and exactly it is added to the allocated set; the
    extent stays well formed. *)
Lemma subregion_sound ex substart subend size a skew boundary flags pool_ok r ex' :
  extent_ok ex -> subrequest_ok ex substart subend size a boundary ->
  extent_alloc_subregion ex substart subend size (2 ^ a) skew boundary flags pool_ok = XRet 0 r ex' ->
  let base := if has flags EX_BOUNDZERO then 0 else ex_start ex in
  substart <= r /\ r + size - 1 <= subend /\
  (forall x, r <= x <= r + size - 1 -> ~ allocated ex x) /\
  same_block boundary base r (r + size - 1) /\
  (boundary = 0 \/ boundary mod 2 ^ a = 0 /\ (base - skew) mod 2 ^ a = 0 ->
   (r - skew) mod 2 ^ a = 0) /\
  updates ex ex' (fun x => allocated ex x \/ r <= x <= r + size - 1).
Proof.
  intros Hok Hreq. unfold extent_alloc_subregion.
  pose proof (alloc_descriptor_same ex flags pool_ok) as Hd.
  destruct (extent_alloc_region_descriptor ex flags pool_ok) as [rp ex1|ex1|ex1]; [|done..].
  pose proof Hd as (Hr1 & Hs1 & He1 & Hn1).
  pose proof (same_regions_ok _ _ Hd Hok) as Hok1.
  pose proof (subrequest_same _ _ _ _ _ _ _ Hd Hreq) as Hreq1.
  rewrite extent_do_alloc_checks by done. destruct Hreq1 as [? ? ? ? ? ? ?].
  intros Hdo. set (base := if has flags EX_BOUNDZERO then 0 else ex_start ex).
  apply do_alloc_found in Hdo as (pos & [Hgap ? ? Hblk Hal] & ->); [|done || lia..].
  rewrite Hs1 in Hblk, Hal. fold base in Hblk, Hal. split_and!; [done|done| |done| |].
  - intros x Hx Hc. unfold allocated in Hc. rewrite <- Hr1 in Hc. by eapply gap_free in Hc.
  - intros Hb. destruct Hal as [Hal|[? Hal]]; [done|]. destruct Hb as [?|[Hb1 Hb2]]; [done|].
    replace (r - skew) with ((r - base) + (base - skew)) by lia.
    apply Z.mod_divide in Hal as [q ->]; [|done].
    by rewrite Zplus_mod, Hb2, Zmult_mod, Hb1, Z.mul_0_r, Zmod_0_l.
  - destruct (insert_spec ex1 r size pos rp) as (Ho & Hs & He & Hn & HP); try done; try lia.
    split_and!; try congruence. intros x. rewrite HP. unfold allocated. by rewrite Hr1.
Qed.

(** [extent_alloc_subregion] without a boundary and without waiting
    always returns, and when it fails with [EAGAIN] every aligned place of
    the subregion overlaps an allocated value: both first fit and best fit
    find a place whenever there is one.  A failure changes nothing. *)
Lemma subregion_complete ex substart subend size a skew flags pool_ok :
  extent_ok ex -> subrequest_ok ex substart subend size a 0 ->
  has flags EX_WAITSPACE = false -> has flags EX_WAITOK = false ->
  exists error r ex',
    extent_alloc_subregion ex substart subend size (2 ^ a) skew 0 flags pool_ok = XRet error r ex' /\
    (error = 0 \/
     error = ENOMEM /\ updates ex ex' (allocated ex) \/
     error = EAGAIN /\ updates ex ex' (allocated ex) /\
       forall x, substart <= x -> (x - skew) mod 2 ^ a = 0 -> x + size - 1 <= subend ->
         exists y, x <= y <= x + size - 1 /\ allocated ex y).
Proof.
  intros Hok Hreq Hws Hwo. unfold extent_alloc_subregion.
  pose proof (alloc_descriptor_same ex flags pool_ok) as Hd.
  assert (updates ex ex (allocated ex)) as Hsame by by split_and!.
  destruct (extent_alloc_region_descriptor ex flags pool_ok) as [rp ex1|ex1|ex1] eqn:E.
  - pose proof Hd as (Hr1 & Hs1 & He1 & Hn1).
    pose proof (same_regions_ok _ _ Hd Hok) as Hok1.
    pose proof (subrequest_same _ _ _ _ _ _ _ Hd Hreq) as Hreq1.
    rewrite extent_do_alloc_checks by done. destruct Hreq1 as [? ? ? ? ? ? ?].
    destruct (do_alloc_start ex1 substart subend size (2 ^ a) skew 0 flags rp)
      as [error r ex'| | |] eqn:Hdo.
    + exists error, r, ex'. split; [done|].
      destruct (decide (error = 0)) as [->|Hne]; [by left|right; right].
      assert (error = EAGAIN /\ ex' = extent_free_region_descriptor ex1 rp) as [-> ->].
      { revert Hdo. unfold do_alloc_start.
        destruct (find_gap _ _ _ _ _ _ _ _) as [[|[[? ?] ?]]|]; [|case_if; [|case_if]|];
          intros; simplify_eq; done. }
      split_and!; [done| |].
      * eapply updates_same; [done|]. etrans; [done|]. apply free_descriptor_same.
      * intros x Hx Hax Hxe.
        eapply do_alloc_again in Hdo as (y & ? & Hy); [|done || lia || (by left)..].
        exists y. split; [done|]. unfold allocated in *. by rewrite <- Hr1.
    + exfalso. revert Hdo. unfold do_alloc_start.
      destruct (find_gap _ _ _ _ _ _ _ _) as [[|[[? ?] ?]]|]; [done|case_if; [done|]|done].
      by rewrite Hws.
    + exfalso. destruct (find_gap_start ex1 substart subend size a skew 0 flags)
        as (pre & rest & ns & _ & _ & _ & Hf & _); try done; try lia.
      revert Hdo. unfold do_alloc_start. rewrite Hf.
      destruct (gap_scan _ _ _ _ _ _ _ _ _ _ _) as [|[[? ?] ?]]; [done|]. by repeat case_if.
    + exfalso. revert Hdo. unfold do_alloc_start.
      destruct (find_gap _ _ _ _ _ _ _ _) as [[|[[? ?] ?]]|]; [done|by repeat case_if|done].
  - exists ENOMEM, 0, ex1. split; [done|]. right. left. split; [done|]. by eapply updates_same.
  - exfalso. revert E. unfold extent_alloc_region_descriptor. rewrite Hwo.
    repeat case_if; destruct (fex_freelist ex); repeat case_if; done.
Qed.

(** C5: [extent_alloc_subregion] finds what there is and nothing else, where neither the
    end of the extent plus the alignment nor plus the boundary overflows (see
    [full_range_wraps]) and the boundary is 0 or a power of two of at least the size.
    What it returns with success lies in the subregion, was free, does not cross a
    boundary line, is aligned if there is no boundary or the boundary lines are
    aligned (see [boundary_unaligned]), and exactly it is
    added to the allocated set.  Without a boundary and without waiting it always
    returns; a failure changes nothing, and when it is [EAGAIN] every aligned
    place of the subregion overlaps an allocated value: both first fit and best
    fit find a place whenever there is one. *)
Theorem extent_alloc_subregion_spec ex substart subend size a skew boundary flags pool_ok :
  extent_ok ex -> subrequest_ok ex substart subend size a boundary ->
  let alloc := extent_alloc_subregion ex substart subend size (2 ^ a) skew boundary flags pool_ok in
  let base := if has flags EX_BOUNDZERO then 0 else ex_start ex in
  (forall r ex', alloc = XRet 0 r ex' ->
     substart <= r /\ r + size - 1 <= subend /\
     (forall x, r <= x <= r + size - 1 -> ~ allocated ex x) /\
     same_block boundary base r (r + size - 1) /\
     (boundary = 0 \/ boundary mod 2 ^ a = 0 /\ (base - skew) mod 2 ^ a = 0 -> (r - skew) mod 2 ^ a = 0) /\
     updates ex ex' (fun x => allocated ex x \/ r <= x <= r + size - 1)) /\
  (boundary = 0 -> has flags EX_WAITSPACE = false -> has flags EX_WAITOK = false ->
     exists error r ex', alloc = XRet error r ex' /\
       (error = 0 \/
        error = ENOMEM /\ updates ex ex' (allocated ex) \/
        error = EAGAIN /\ updates ex ex' (allocated ex) /\
          forall x, substart <= x -> (x - skew) mod 2 ^ a = 0 -> x + size - 1 <= subend ->
            exists y, x <= y <= x + size - 1 /\ allocated ex y)).
Proof.
  intros Hok Hreq alloc base. split; [intros r ex'; by apply subregion_sound|].
  intros -> Hs Hw. by apply subregion_complete.
Qed.

(** A region that was allocated can be freed at once, unless no
    descriptor can be had, and freeing it restores the allocated set. *)
Theorem extent_alloc_free_roundtrip ex start size flags flags' ok ok' ex1 :
  extent_ok ex -> request_ok ex start size ->
  has flags EX_CONFLICTOK = false -> has flags EX_WAITSPACE = false ->
  has flags EX_WAITOK = false -> has flags' EX_WAITOK = false ->
  extent_alloc_region ex start size flags ok = XRet 0 0 ex1 ->
  exists error r ex2, extent_free ex1 start size flags' ok' = XRet error r ex2 /\
    extent_ok ex2 /\
    (error = 0 /\ (forall x, allocated ex2 x <-> allocated ex x) \/
     error = ENOMEM /\ (forall x, allocated ex2 x <-> allocated ex1 x)).
Proof.
  intros Hok Hreq Hco Hws Hwo Hwo' Hal.
  destruct (alloc_region_cases ex start size flags ok Hok Hreq Hco Hws Hwo)
    as (error & ex1' & Hal' & Hcase).
  rewrite Hal in Hal'. simplify_eq. destruct Hcase as (Hno & Hfr & Hok1 & Hs & He & _ & Hset).
  assert (request_ok ex1' start size) as Hreq1.
  { destruct Hreq as (? & ? & ?). split_and!; congruence || lia. }
  pose proof (extent_free_cases ex1' start size flags' ok' Hok1 Hreq1 Hwo') as Hfree.
  simpl in Hfree. destruct (extent_free ex1' start size flags' ok') as [e r ex2| | |]; try done.
  exists e, r, ex2. split; [done|].
  destruct Hfree as [(-> & _ & Hok2 & _ & _ & _ & H2)|(-> & _ & Hok2 & _ & _ & _ & H2)];
    (split; [done|]); [left|right; done].
  split; [done|]. intros x. rewrite H2, Hset.
  destruct (decide (start <= x <= start + size - 1)) as [Hx|Hx]; [|tauto].
  split; [tauto|]. intros Hax. destruct Hno. eauto.
Qed.

(** ** Termination of the conflict loop *)

(** The regions that overlap the request. *)
Definition conflicting (start end_ : Z) (r : extent_region) : Prop :=
  er_start r <= end_ /\ start <= er_end r.
#[local] Instance conflicting_dec start end_ r : Decision (conflicting start end_ r).
Proof. unfold conflicting. apply _. Defined.

Definition conflicts (start end_ : Z) (l : list extent_region) : nat :=
  length (filter (conflicting start end_) l).

Lemma region_scan_conflict l n start end_ pos rp :
  region_scan l n start end_ = (pos, Some rp) ->
  exists l1 l2, l = l1 ++ rp :: l2 /\ pos = (n + length l1)%nat /\ conflicting start end_ rp.
Proof.
  revert n. induction l as [|r l IH]; intros n; simpl; [done|].
  case_if; [done|]. case_if.
  - intros [= <- <-]. exists [], l. unfold conflicting. split; [done|]. simpl. lia.
  - intros (l1 & l2 & -> & -> & Hc)%IH. exists (r :: l1), l2. split; [done|]. split; [simpl; lia|done].
Qed.

Lemma conflicts_app start end_ l1 l2 :
  conflicts start end_ (l1 ++ l2) = (conflicts start end_ l1 + conflicts start end_ l2)%nat.
Proof. unfold conflicts. by rewrite filter_app, length_app. Qed.

Lemma conflicts_cons start end_ r l :
  conflicts start end_ (r :: l) =
  ((if decide (conflicting start end_ r) then 1 else 0) + conflicts start end_ l)%nat.
Proof. unfold conflicts. rewrite filter_cons. by case_decide. Qed.

Lemma conflicts_mono start start' end_ end' l :
  start <= start' -> end' <= end_ -> (conflicts start' end' l <= conflicts start end_ l)%nat.
Proof.
  intros. induction l as [|r l IH]; [done|]. rewrite !conflicts_cons.
  destruct (decide (conflicting start' end' r)) as [[? ?]|]; repeat case_decide;
    unfold conflicting in *; lia.
Qed.

Lemma alloc_region_terminates fuel ex start size end_ flags myrp :
  0 <= ex_start ex -> ex_end ex < 2 ^ 64 -> 0 <= start ->
  Forall (fun r => 0 <= er_end r /\ er_start r <= 2 ^ 64) (ex_regions ex) ->
  (conflicts start end_ (ex_regions ex) < fuel)%nat ->
  alloc_region_start fuel ex start size end_ flags myrp <> XFuel.
Proof.
  revert ex start size end_. induction fuel as [|fuel IH];
    intros ex start size end_ Hs He Hst Hall Hf; [lia|].
  simpl. destruct (region_scan (ex_regions ex) 0 start end_) as [pos [rp|]] eqn:Hscan; [|done].
  apply region_scan_conflict in Hscan as (l1 & l2 & Heq & -> & Hc). simpl.
  rewrite Heq, conflicts_app, conflicts_cons, decide_True in Hf by done.
  assert (0 <= er_end rp /\ er_start rp <= 2 ^ 64) as Hrp.
  { rewrite Heq in Hall. by apply Forall_app in Hall as [_ [? _]%Forall_cons]. }
  pose proof Hc as [? ?]. repeat case_if; try done; apply IH; try done; try lia.
  - rewrite wrapu_small by (unfold inu; lia). lia.
  - rewrite wrapu_small by (unfold inu; lia). rewrite Heq, conflicts_app, conflicts_cons.
    rewrite decide_False by (unfold conflicting; lia).
    pose proof (conflicts_mono start (er_end rp + 1) end_ end_ l1).
    pose proof (conflicts_mono start (er_end rp + 1) end_ end_ l2). lia.
  - by rewrite (proj1 (proj2 (free_descriptor_same _ _))).
  - by rewrite (proj1 (proj2 (proj2 (free_descriptor_same _ _)))).
  - rewrite (proj1 (free_descriptor_same _ _)). simpl. by apply Forall_delete.
  - rewrite (proj1 (free_descriptor_same _ _)). simpl. rewrite Heq, delete_middle, conflicts_app. lia.
  - rewrite wrapu_small by (unfold inu; lia). rewrite Heq, conflicts_app, conflicts_cons.
    rewrite decide_False by (unfold conflicting; lia).
    pose proof (conflicts_mono start start end_ (er_start rp - 1) l1).
    pose proof (conflicts_mono start start end_ (er_start rp - 1) l2). lia.
Qed.

(** C6: the loop of [extent_alloc_region] ends for every well-formed extent
    and every combination of flags, [EX_CONFLICTOK] included: as many turns
    as there are regions, and two more, are enough. *)
Theorem extent_alloc_region_terminates ex start size flags pool_ok :
  extent_ok ex -> extent_alloc_region ex start size flags pool_ok <> XFuel.
Proof.
  intros Hok. unfold extent_alloc_region. repeat (case_if; [done|]).
  pose proof (alloc_descriptor_same ex flags pool_ok) as Hd.
  destruct (extent_alloc_region_descriptor ex flags pool_ok) as [rp ex1|ex1|ex1]; try done.
  pose proof (same_regions_ok _ _ Hd Hok) as (? & ? & Hr). destruct Hd as (Hrs & Hs & He & _).
  apply alloc_region_terminates; try lia.
  - eapply Forall_impl; [by eapply regions_ok_hi|]. simpl. lia.
  - unfold conflicts. pose proof (length_filter (conflicting start (u64 (start + (size - 1)))) (ex_regions ex1)). lia.
Qed.


(** ** What [EX_CONFLICTOK] and a full number range do *)

Lemma alloc_descriptor_pool ex flags :
  has (ex_flags ex) EXF_FIXED = false ->
  extent_alloc_region_descriptor ex flags true = DGot (Region 0 0 ER_ALLOC) ex.
Proof. intros Hf. unfold extent_alloc_region_descriptor. by rewrite Hf, orb_true_r. Qed.

Lemma covered_one s e f x : covered [Region s e f] x <-> s <= x <= e.
Proof. rewrite covered_cons. simpl. pose proof (covered_nil x). tauto. Qed.

(** With [EX_CONFLICTOK], a request that lies inside an allocated region
    and ends before it does returns success and cuts the region at the end of
    the request: the values behind it are no longer allocated.  (The comment
    in the code promises that nothing is done in this case.) *)
Theorem conflictok_truncates_region ex r start size flags :
  extent_ok ex -> ex_regions ex = [r] -> request_ok ex start size ->
  has (ex_flags ex) EXF_NOCOALESCE = false -> has (ex_flags ex) EXF_FIXED = false ->
  has flags EX_CONFLICTOK = true -> has flags EX_WAITSPACE = false ->
  er_start r <= start -> start + size - 1 < er_end r -> er_end r < ex_end ex ->
  exists ex', extent_alloc_region ex start size flags true = XRet 0 0 ex' /\
    forall x, allocated ex' x <-> er_start r <= x <= start + size - 1.
Proof.
  intros Hok Hr (Hsz & Hlo & Hhi) Hnc Hfx Hco Hws Hrs Hre Hee. pose proof Hok as (? & ? & _).
  unfold extent_alloc_region.
  assert (u64 (start + (size - 1)) = start + size - 1) as Hend
    by (rewrite wrapu_small by (unfold inu; lia); lia).
  rewrite Hend, Hws, Hco. simpl. repeat (case_if; [lia|]).
  rewrite alloc_descriptor_pool, Hr by done. simpl. rewrite Hr. simpl. rewrite Hws, Hco.
  do 4 (case_if; try lia). rewrite (wrapu_small _ (er_end r + 1)) by (unfold inu; lia).
  rewrite (proj2 (Z.leb_gt (er_end r + 1) (er_end r))) by lia. eexists. split; [done|]. intros x.
  unfold extent_insert_and_optimize, allocated. rewrite Hnc, Hr. simpl.
  rewrite (wrapu_small _ (er_end r + 1)) by (unfold inu; lia). rewrite Z.eqb_refl.
  rewrite (proj1 (free_descriptor_same _ _)). simpl. rewrite covered_one.
  unfold wrapu at 1. unfold wrapu. rewrite Zplus_mod, Zminus_mod_idemp_l, <- Zplus_mod.
  rewrite Z.mod_small by lia. lia.
Qed.

(** With [EX_CONFLICTOK], a request whose last value alone is allocated
    already returns success and allocates nothing: the values before it stay
    free, although the caller was told that the region is its own. *)
Theorem conflictok_misses_last ex r start size flags :
  extent_ok ex -> ex_regions ex = [r] -> request_ok ex start size ->
  has (ex_flags ex) EXF_FIXED = false ->
  has flags EX_CONFLICTOK = true -> has flags EX_WAITSPACE = false ->
  2 <= size -> er_start r = start + size - 1 ->
  extent_alloc_region ex start size flags true = XRet 0 0 ex /\
    forall x, start <= x < start + size - 1 -> ~ allocated ex x.
Proof.
  intros Hok Hr (Hsz & Hlo & Hhi) Hfx Hco Hws Hsz2 Hrs. pose proof Hok as (? & ? & Hreg).
  rewrite Hr in Hreg. destruct Hreg as (? & ? & _).
  unfold extent_alloc_region.
  assert (u64 (start + (size - 1)) = start + size - 1) as Hend
    by (rewrite wrapu_small by (unfold inu; lia); lia).
  rewrite Hend, Hws, Hco. simpl. repeat (case_if; [lia|]).
  rewrite alloc_descriptor_pool, Hr by done. simpl. rewrite Hr. simpl. rewrite Hws, Hco.
  split; [by repeat (case_if; try lia)|]. intros x Hx. unfold allocated. rewrite Hr.
  destruct r as [s e f]. rewrite covered_one. simpl in *. lia.
Qed.

(** An extent made by [extent_create] is well formed, covers the range
    asked for, and starts out free, or fully allocated under [EX_FILLED];
    the only ranges refused (by a panic) are the empty ones, and the call
    with [EX_WAITOK] and no fixed storage never returns [NULL]. *)
Theorem extent_create_spec start end_ mtype storage flags malloc_ok pool_ok :
  inu 64 start -> inu 64 end_ ->
  match extent_create start end_ mtype storage flags malloc_ok pool_ok with
  | CExtent ex | CSleep ex =>
    extent_ok ex /\ ex_start ex = start /\ ex_end ex = end_ /\
    (forall x, allocated ex x ->
       has flags EX_FILLED = true /\ start <= x <= end_)
  | CNull => storage = None -> has flags EX_WAITOK = false
  | CPanic => end_ < start \/ exists sz, storage = Some sz /\ sz < SIZEOF_EXTENT_FIXED
  end.
Proof.
  unfold inu. intros Hs He. unfold extent_create. case_if; [by left|].
  case_if.
  { right. destruct storage as [sz|]; [|done]. exists sz. simpl in *. done. }
  case_if; [done|].
  set (ex0 := Extent [] _ _ _ _ _).
  assert (extent_ok ex0) as Hok0 by (unfold ex0; split_and!; simpl; done || lia).
  case_if.
  2: { split; [done|]. split_and!; try done. intros x []%covered_nil. }
  pose proof (alloc_descriptor_same ex0 flags pool_ok) as Hd.
  destruct (extent_alloc_region_descriptor ex0 flags pool_ok) as [rp ex1|ex1|ex1] eqn:E.
  - destruct Hd as (_ & Hs1 & He1 & _). split; [|split_and!; try done].
    + unfold extent_ok. simpl. rewrite Hs1, He1. simpl. lia.
    + intros x. unfold allocated. simpl. rewrite covered_one. done.
  - intros ->. revert E. unfold extent_alloc_region_descriptor.
    destruct (has flags EX_WAITOK); [|done]. simpl. by destruct (has flags EX_NOCOALESCE).
  - pose proof (same_regions_ok _ _ Hd Hok0). destruct Hd as (Hr & Hs1 & He1 & _).
    split_and!; try done. intros x. unfold allocated. rewrite Hr. by intros []%covered_nil.
Qed.

(** Behind a boundary line the search goes on at the line, aligned or not: a request
    for four values with alignment 4 in an extent from 2 on with boundary 8 gets
    those from 10 on, first fit or best fit. *)
Example boundary_unaligned :
  let ex := Extent [Region 2 7 0] 2 99 0 0 [] in
  let start r := match r with XRet 0 r _ => Some r | _ => None end in
  start (extent_alloc_subregion ex 2 99 4 4 0 8 EX_FAST true) = Some 10 /\
  start (extent_alloc_subregion ex 2 99 4 4 0 8 0 true) = Some 10.
Proof. vm_compute. by split. Qed.

(** An extent over the whole range of [u_long] that is fully allocated:
    a request for one value in [[1, 2^64-1]], first fit or best fit, wraps
    around behind the last region, returns success with the value 0, which
    lies outside the subregion asked for and is allocated, and frees
    everything else. *)
Theorem full_range_wraps mtype :
  let ex := Extent [Region 0 (2 ^ 64 - 1) 0] 0 (2 ^ 64 - 1) mtype 0 [] in
  let answer flags :=
    extent_alloc_subregion ex 1 (2 ^ 64 - 1) 1 1 0 0 flags true =
      XRet 0 0 (set_regions ex [Region 0 0 0]) in
  extent_ok ex /\ answer 0 /\ answer EX_FAST /\ answer EX_WAITOK.
Proof.
  intros ex answer. split; [unfold ex, extent_ok; simpl; lia|].
  split_and!; vm_compute; reflexivity.
Qed.

(** ** Witnesses *)

(** Three regions, one of them a single value, in [[0, 99]]. *)
Definition ex_demo : extent :=
  Extent [Region 10 19 ER_ALLOC; Region 30 30 ER_ALLOC; Region 40 59 ER_ALLOC] 0 99 0 0 [].

Lemma ex_demo_ok : extent_ok ex_demo.
Proof. unfold extent_ok. simpl. lia. Qed.

Lemma ex_demo_request start size :
  1 <= size -> 0 <= start -> start + size <= 100 -> request_ok ex_demo start size.
Proof. intros. unfold request_ok. simpl. lia. Qed.

Lemma ex_demo_sub size a :
  1 <= size <= 80 -> 0 <= a <= 8 -> subrequest_ok ex_demo 5 99 size a 0.
Proof.
  intros ? ?. pose proof (Z.pow_le_mono_r 2 a 8 ltac:(lia) ltac:(lia)).
  constructor; simpl; lia || (by left) || (change (size - 1 <= 94); lia).
Qed.

Lemma extent_alloc_region_spec_witness :
  exists error ex', extent_alloc_region ex_demo 20 10 EX_FAST true = XRet error 0 ex' /\
    match error with
    | 0 => ~ (exists x, 20 <= x <= 20 + 10 - 1 /\ allocated ex_demo x) /\
           freeable (has (ex_flags ex') EXF_NOCOALESCE) (ex_regions ex') 20 (20 + 10 - 1) /\
           updates ex_demo ex' (fun x => allocated ex_demo x \/ 20 <= x <= 20 + 10 - 1)
    | _ => updates ex_demo ex' (allocated ex_demo) /\
           (error = EAGAIN /\ (exists x, 20 <= x <= 20 + 10 - 1 /\ allocated ex_demo x)
            \/ error = ENOMEM)
    end.
Proof.
  apply (extent_alloc_region_spec ex_demo 20 10 EX_FAST true); try reflexivity;
    [apply ex_demo_ok|apply ex_demo_request; lia].
Defined.

Lemma extent_free_spec_witness :
  match extent_free ex_demo 45 5 0 true with
  | XRet error _ ex' =>
    error = 0 /\ freeable false (ex_regions ex_demo) 45 49 /\
      updates ex_demo ex' (fun x => allocated ex_demo x /\ ~ 45 <= x <= 49) \/
    error = ENOMEM /\ false = false /\ updates ex_demo ex' (allocated ex_demo)
  | XPanic => ~ freeable false (ex_regions ex_demo) 45 49
  | _ => False
  end.
Proof.
  apply (extent_free_spec ex_demo 45 5 0 true); try reflexivity;
    [apply ex_demo_ok|apply ex_demo_request; lia].
Defined.

Lemma extent_alloc_subregion_spec_witness :
  (same_block 0 0 32 (32 + 4 - 1) /\ (32 - 0) mod 2 ^ 2 = 0) /\
  exists error r ex',
    extent_alloc_subregion ex_demo 5 99 50 (2 ^ 0) 0 0 0 true = XRet error r ex' /\
    (error = 0 \/
     error = ENOMEM /\ updates ex_demo ex' (allocated ex_demo) \/
     error = EAGAIN /\ updates ex_demo ex' (allocated ex_demo) /\
       forall x, 5 <= x -> (x - 0) mod 2 ^ 0 = 0 -> x + 50 - 1 <= 99 ->
         exists y, x <= y <= x + 50 - 1 /\ allocated ex_demo y).
Proof.
  split.
  - pose proof (proj1 (extent_alloc_subregion_spec ex_demo 5 99 4 2 0 0 0 true
      ex_demo_ok (ex_demo_sub 4 2 ltac:(lia) ltac:(lia))) 32
      (set_regions ex_demo [Region 10 19 1; Region 30 30 1; Region 32 35 1; Region 40 59 1])
      ltac:(vm_compute; reflexivity)) as H.
    split; [apply H|apply H; by left].
  - apply (extent_alloc_subregion_spec ex_demo 5 99 50 0 0 0 0 true); try reflexivity;
      [apply ex_demo_ok|apply ex_demo_sub; lia].
Defined.

Lemma extent_alloc_free_roundtrip_witness :
  exists error r ex2,
    extent_free (set_regions ex_demo [Region 10 30 1; Region 40 59 1]) 20 10 0 true
      = XRet error r ex2 /\ extent_ok ex2 /\
    (error = 0 /\ (forall x, allocated ex2 x <-> allocated ex_demo x) \/
     error = ENOMEM /\ (forall x, allocated ex2 x <->
        allocated (set_regions ex_demo [Region 10 30 1; Region 40 59 1]) x)).
Proof.
  apply (extent_alloc_free_roundtrip ex_demo 20 10 0 0 true true); try reflexivity;
    [apply ex_demo_ok|apply ex_demo_request; lia].
Defined.

Lemma extent_alloc_region_terminates_witness :
  extent_alloc_region ex_demo 5 60 EX_CONFLICTOK true <> XFuel.
Proof. apply extent_alloc_region_terminates, ex_demo_ok. Defined.

Lemma conflictok_truncates_region_witness :
  exists ex', extent_alloc_region (set_regions ex_demo [Region 10 19 1]) 12 3 EX_CONFLICTOK true
      = XRet 0 0 ex' /\
    forall x, allocated ex' x <-> 10 <= x <= 12 + 3 - 1.
Proof.
  apply (conflictok_truncates_region (set_regions ex_demo [Region 10 19 1]) (Region 10 19 1) 12 3);
    try reflexivity; unfold extent_ok, request_ok; simpl; lia.
Defined.

Lemma conflictok_misses_last_witness :
  extent_alloc_region (set_regions ex_demo [Region 10 19 1]) 5 6 EX_CONFLICTOK true =
    XRet 0 0 (set_regions ex_demo [Region 10 19 1]) /\
  forall x, 5 <= x < 5 + 6 - 1 -> ~ allocated (set_regions ex_demo [Region 10 19 1]) x.
Proof.
  apply (conflictok_misses_last (set_regions ex_demo [Region 10 19 1]) (Region 10 19 1) 5 6);
    try reflexivity; unfold extent_ok, request_ok; simpl; lia.
Defined.

Lemma extent_create_spec_witness :
  match extent_create 0 (2 ^ 32 - 1) 0 (Some 200) EX_FILLED false false with
  | CExtent ex | CSleep ex =>
    extent_ok ex /\ ex_start ex = 0 /\ ex_end ex = 2 ^ 32 - 1 /\
    (forall x, allocated ex x -> has EX_FILLED EX_FILLED = true /\ 0 <= x <= 2 ^ 32 - 1)
  | CNull => Some 200 = None -> has EX_FILLED EX_WAITOK = false
  | CPanic => 2 ^ 32 - 1 < 0 \/ exists sz, Some 200 = Some sz /\ sz < SIZEOF_EXTENT_FIXED
  end.
Proof.
  apply (extent_create_spec 0 (2 ^ 32 - 1) 0 (Some 200) EX_FILLED false false); unfold inu; lia.
Defined.
