(* ===== verification/ExtentList.v ===== *)
(** * The list of all extents (kern/subr_extent.c)

    [extent_create] enters each extent in [ext_list], and panics when it is there
    already, as it would be when fixed storage is used twice; [extent_destroy]
    takes it out.  Extents are at addresses. *)

From S2P Require Import Prelude Extent ExtentAlloc.

Module ExtentList.

Record registry := Registry {
  ext_list : list Z;
  extents : gmap Z extent;
}.

(** [None] is the panic. *)
Definition extent_register (l : list Z) (ex : Z) : option (list Z) :=
  if bool_decide (ex ∈ l) then None else Some (ex :: l).

(** [extent_create] with its last step; [a] is the storage, or what [malloc]
    returned.  The value tells whether there is an extent. *)
Definition create_at (r : registry) (a start end_ mtype : Z) (storagesize : option Z) (flags : Z)
    (malloc_ok pool_ok : bool) : option (registry * bool) :=
  match extent_create start end_ mtype storagesize flags malloc_ok pool_ok with
  | CExtent ex => l ← extent_register (ext_list r) a; Some (Registry l (<[a := ex]> (extents r)), true)
  | CNull | CSleep _ => Some (r, false)
  | CPanic => None
  end.

Definition destroy_at (r : registry) (a : Z) : option registry :=
  ex ← extents r !! a;
  Some (Registry (List.filter (fun x => negb (x =? a)) (ext_list r)) (delete a (extents r))).

(** What happens to extents. *)
Inductive step : registry -> registry -> Prop :=
| step_create r a start end_ mtype storagesize flags malloc_ok pool_ok r' b :
    inu 64 start -> inu 64 end_ ->
    create_at r a start end_ mtype storagesize flags malloc_ok pool_ok = Some (r', b) -> step r r'
| step_destroy r a r' : destroy_at r a = Some r' -> step r r'
| step_use r a ex ex' :
    extents r !! a = Some ex -> extent_ok ex' -> step r (Registry (ext_list r) (<[a := ex']> (extents r))).

Definition registry_ok (r : registry) : Prop :=
  NoDup (ext_list r) /\ (forall a, a ∈ ext_list r <-> is_Some (extents r !! a)) /\
  map_Forall (fun _ ex => extent_ok ex) (extents r).

Lemma create_keeps r a start end_ mtype storagesize flags malloc_ok pool_ok r' b :
  registry_ok r -> inu 64 start -> inu 64 end_ ->
  create_at r a start end_ mtype storagesize flags malloc_ok pool_ok = Some (r', b) -> registry_ok r'.
Proof.
  intros (Hn & Hd & Hok) Hs He. unfold create_at.
  pose proof (extent_create_spec start end_ mtype storagesize flags malloc_ok pool_ok Hs He) as Hc.
  destruct (extent_create _ _ _ _ _ _ _) as [ex| |ex|]; try (by intros [= <- <-]).
  unfold extent_register. case_bool_decide as Hin; [done|]. intros [= <- <-].
  split; [by constructor|]. split.
  - intros x. simpl. rewrite elem_of_cons, Hd, lookup_insert_is_Some. destruct (decide (x = a)); naive_solver.
  - apply map_Forall_insert_2; [apply Hc|done].
Qed.

Lemma destroy_keeps r a r' : registry_ok r -> destroy_at r a = Some r' -> registry_ok r'.
Proof.
  intros (Hn & Hd & Hok) (ex & Hex & [= <-])%bind_Some. split; [|split]; simpl.
  - apply NoDup_ListNoDup, List.NoDup_filter. by apply NoDup_ListNoDup.
  - intros x. rewrite list_elem_of_In, List.filter_In, <- list_elem_of_In, Hd, negb_true_iff, Z.eqb_neq.
    rewrite lookup_delete_is_Some. naive_solver.
  - by apply map_Forall_delete.
Qed.

(** The list has each extent that was created and not destroyed, once, and all
    of them are well formed; a creation panics in the end only when the address
    is on the list, which memory from [malloc] is not. *)
Theorem extent_list_exact r :
  rtc step (Registry [] ∅) r ->
  registry_ok r /\
  forall a start end_ mtype storagesize flags malloc_ok pool_ok ex,
    extent_create start end_ mtype storagesize flags malloc_ok pool_ok = CExtent ex ->
    (create_at r a start end_ mtype storagesize flags malloc_ok pool_ok = None <-> is_Some (extents r !! a)).
Proof.
  intros Hr. assert (Hok : registry_ok r).
  { apply (rtc_ind_r (R := step) (fun r => registry_ok r) (Registry [] ∅)); [| |exact Hr].
    - split; [constructor|]. split; [|apply map_Forall_empty]. intros a. simpl. rewrite elem_of_nil, lookup_empty.
      split; [done|by intros [? ?]].
    - intros r1 r2 _ Hstep IH. destruct Hstep as [r1 a s e m sz fl mo po r2 b H H0 Hc|r1 a r2 Hd|r1 a ex ex' Hl Hex].
      + exact (create_keeps _ _ _ _ _ _ _ _ _ _ _ IH H H0 Hc).
      + exact (destroy_keeps _ _ _ IH Hd).
      + destruct IH as (H1 & H2 & H3). split; [done|]. split; [|by apply map_Forall_insert_2].
        intros x. simpl. rewrite H2, lookup_insert_is_Some. destruct (decide (x = a)) as [->|]; naive_solver. }
  split; [done|]. intros a s e m sz fl mo po ex He. unfold create_at. rewrite He. unfold extent_register.
  destruct Hok as (_ & Hd & _). rewrite <- Hd. case_bool_decide; by split.
Qed.

End ExtentList.
