(* ===== verification/Rwlock.v ===== *)
(** * Read/write locks (kern/kern_rwlock.c)

    The lock is one machine word that several processors read and replace by
    compare-and-swap.  Each function of the file is cut at its accesses to the
    word, to the scheduler lock and to the sleep queue; what lies between two
    cuts is a definition that gives the next program point ([pc]).  A step of
    the system lets one thread make one such access, so that every
    interleaving of the accesses is a sequence of steps.  Memory is
    sequentially consistent: the barriers around the lock have no effect here.

    The sleep queue is that of kern/kern_synch.c as far as the lock uses it:
    [sleep_setup] takes the scheduler lock and queues the thread,
    [sleep_finish] switches away (which releases the scheduler lock) or leaves
    the queue, and [wakeup], which needs the scheduler lock, empties the
    queue.  Signals enter as choices of the environment. *)

From S2P Require Import Prelude.

(** ** Constants of sys/rwlock.h *)

Definition RWLOCK_WAIT : Z := 0x01.
Definition RWLOCK_WRWANT : Z := 0x02.
Definition RWLOCK_WRLOCK : Z := 0x04.
Definition RWLOCK_MASK : Z := 0x07.
Definition RWLOCK_READER_SHIFT : Z := 3.
Definition RWLOCK_READ_INCR : Z := Z.shiftl 1 RWLOCK_READER_SHIFT.

Definition RW_WRITE : Z := 0x0001.
Definition RW_READ : Z := 0x0002.
Definition RW_DOWNGRADE : Z := 0x0004.
Definition RW_OPMASK : Z := 0x0007.
Definition RW_INTR : Z := 0x0010.
Definition RW_SLEEPFAIL : Z := 0x0020.
Definition RW_NOSLEEP : Z := 0x0040.
Definition RW_RECURSEFAIL : Z := 0x0080.
Definition RW_WRITE_OTHER : Z := 0x0100.

Definition ULONG_MAX : Z := 2 ^ 64 - 1.

(** [RW_PROC] and [RWLOCK_OWNER]: the word without its flag bits. *)
Definition RW_PROC (p : Z) : Z := clear p RWLOCK_MASK.
Definition RWLOCK_OWNER (owner : Z) : Z := clear owner RWLOCK_MASK.

(** ** The table of operations *)

Record rwlock_op := RwlockOp {
  op_inc : Z; op_check : Z; op_wait_set : Z; op_proc_mult : Z
}.

Definition rw_ops : list rwlock_op :=
  [ RwlockOp RWLOCK_WRLOCK ULONG_MAX (RWLOCK_WAIT .| RWLOCK_WRWANT) 1;
    RwlockOp RWLOCK_READ_INCR RWLOCK_WRLOCK RWLOCK_WAIT 0;
    RwlockOp 0 0 0 0;
    RwlockOp (u64 (RWLOCK_READ_INCR - RWLOCK_WRLOCK)) 0 0 (-1) ].

(** [&rw_ops[(flags & RW_OPMASK) - 1]]; outside the table the access is
    undefined and there is no next step. *)
Definition op_of (flags : Z) : option rwlock_op :=
  let i := flags .& RW_OPMASK - 1 in
  if i <? 0 then None else rw_ops !! Z.to_nat i.

Definition op_increment (op : rwlock_op) (curproc : Z) : Z :=
  u64 (op_inc op + RW_PROC curproc * op_proc_mult op).

(** ** Program points *)

(** The calls of the interface. *)
Inductive call :=
| Enter_read
| Enter_write
| Exit_read
| Exit_write
| Enter (flags : Z)
| Exit.

(** [struct sleep_state]: [sls_catch], [sls_do_sleep]. *)
Record sleep_state := Sls { sls_catch : bool; sls_do_sleep : bool }.

Inductive pc :=
| PRet (c : call) (rv : Z)                    (* [c] returned [rv] *)
| PEnterRead                                  (* rw_enter_read: load *)
| PEnterReadCas (o : Z)
| PEnterWriteCas                              (* rw_enter_write: cas *)
| PExitRead                                   (* rw_exit_read: load *)
| PExitReadAssert (o : Z)
| PExitReadCas (o : Z)
| PExitWrite                                  (* rw_exit_write: load *)
| PExitWriteAssert (o : Z)
| PExitWriteCas (o : Z)
| PEnter (c : call) (flags : Z)               (* rw_enter: the loop's load *)
| PDiag (c : call) (flags o : Z)              (* rw_enter_diag *)
| PSetup (c : call) (flags o : Z)             (* sleep_setup *)
| PCasWait (c : call) (flags o : Z) (sls : sleep_state)
| PFinish (c : call) (flags : Z) (sls : sleep_state) (do_sleep : bool)
| PSleep (c : call) (flags : Z) (sls : sleep_state)   (* in mi_switch *)
| PWoken (c : call) (flags : Z) (sls : sleep_state)   (* behind sleep_finish *)
| PEnterCas (c : call) (flags o : Z)          (* cas to take the lock *)
| PEnterWake (c : call) (flags : Z)           (* wakeup of rw_enter *)
| PExit (c : call)                            (* rw_exit: first load *)
| PExitAssert (c : call) (wrlock : bool)
| PExitLoad (c : call) (wrlock : bool)
| PExitCas (c : call) (wrlock : bool) (o : Z)
| PExitWake (c : call)                        (* wakeup of rw_exit *)
| PPanic.

(** What a thread owns: a record kept beside the code, written where the
    code's compare-and-swap succeeds and read only by the client's side. *)
Inductive mode := Unheld | Shared | Exclusive.
#[global] Instance mode_eq_dec : EqDecision mode.
Proof. solve_decision. Defined.

Record thread := Thread {
  t_proc : Z;          (* address of the struct proc *)
  t_pc : pc;
  t_wchan : bool;      (* on the sleep queue of the lock *)
  t_held : mode
}.

Definition goto (t : thread) (l : pc) : thread :=
  Thread (t_proc t) l (t_wchan t) (t_held t).
Definition goto_held (t : thread) (l : pc) (m : mode) : thread :=
  Thread (t_proc t) l (t_wchan t) m.
Definition goto_wchan (t : thread) (l : pc) (q : bool) : thread :=
  Thread (t_proc t) l q (t_held t).

(** ** The code between two accesses *)

Definition rw_enter_read_load (owner : Z) : pc :=
  if has owner RWLOCK_WRLOCK then PEnter Enter_read RW_READ else PEnterReadCas owner.

Definition rw_assert_wrlock (owner curproc : Z) : bool :=
  has owner RWLOCK_WRLOCK && (RWLOCK_OWNER owner =? RW_PROC curproc).

Definition rw_assert_rdlock (owner : Z) : bool :=
  negb (RWLOCK_OWNER owner =? 0) && negb (has owner RWLOCK_WRLOCK).

Definition rw_assert_unlocked (owner : Z) : bool := owner =? 0.

Definition rw_exit_read_assert (o owner : Z) : pc :=
  if rw_assert_rdlock owner then
    if has o RWLOCK_WAIT then PExit Exit_read else PExitReadCas o
  else PPanic.

Definition rw_exit_write_assert (o owner curproc : Z) : pc :=
  if rw_assert_wrlock owner curproc then
    if has o RWLOCK_WAIT then PExit Exit_write else PExitWriteCas o
  else PPanic.

(** [rw_enter_diag]: true when no [panic] is called. *)
Definition rw_enter_diag (owner curproc flags : Z) : bool :=
  let op := flags .& RW_OPMASK in
  if (op =? RW_WRITE) || (op =? RW_READ) then negb (RW_PROC curproc =? RW_PROC owner)
  else if op =? RW_DOWNGRADE then
    has owner RWLOCK_WRLOCK && (RW_PROC curproc =? RW_PROC owner)
  else false.

(** The head of the [while] loop of [rw_enter]. *)
Definition rw_enter_load (c : call) (flags : Z) (op : rwlock_op) (owner : Z) : pc :=
  if has owner (op_check op) then PDiag c flags owner else PEnterCas c flags owner.

(** From [rw_enter_diag] to [sleep_setup]. *)
Definition rw_enter_blocked (c : call) (flags o owner curproc : Z) : pc :=
  if rw_enter_diag owner curproc flags then
    if has flags RW_NOSLEEP then PRet c EBUSY else PSetup c flags o
  else PPanic.

(** Behind [sleep_finish]; [error] is what [sleep_finish_signal] finds. *)
Definition rw_enter_slept (c : call) (flags : Z) (sls : sleep_state) (error : Z) : pc :=
  let error := if sls_catch sls then error else 0 in
  if has flags RW_INTR && negb (error =? 0) then PRet c error
  else if has flags RW_SLEEPFAIL then PRet c EAGAIN
  else PEnter c flags.

(** Behind the successful compare-and-swap of [rw_enter]. *)
Definition rw_enter_taken (c : call) (flags o : Z) : pc :=
  if o .& (RWLOCK_WRLOCK .| RWLOCK_WAIT) =? RWLOCK_WRLOCK .| RWLOCK_WAIT
  then PEnterWake c flags else PRet c 0.

(** The word [rw_exit] stores. *)
Definition rw_exit_set (wrlock : bool) (owner : Z) : Z :=
  if wrlock then 0
  else clear (u64 (owner - RWLOCK_READ_INCR)) (RWLOCK_WAIT .| RWLOCK_WRWANT).

Definition rw_exit_assert (c : call) (wrlock : bool) (owner curproc : Z) : pc :=
  if (if wrlock then rw_assert_wrlock owner curproc else rw_assert_rdlock owner)
  then PExitLoad c wrlock else PPanic.

Definition rw_exit_done (c : call) (o : Z) : pc :=
  if has o RWLOCK_WAIT then PExitWake c else PRet c 0.

Definition rw_init : Z := 0.

Definition rw_status (owner curproc : Z) : Z :=
  if has owner RWLOCK_WRLOCK then
    if RW_PROC curproc =? RW_PROC owner then RW_WRITE else RW_WRITE_OTHER
  else if owner =? 0 then 0 else RW_READ.

(** ** Steps of a thread *)

(** What the environment decides: the next call of a thread that is outside
    the lock code, and whether a signal (with the error it leads to) or a
    wakeup came while the thread went to sleep. *)
Inductive choice :=
| Call (c : call)
| Go
| Signal (error : Z)
| WokenEarly.

(** Effect on the scheduler lock and the sleep queue. *)
Inductive effect := ENone | ELock | EUnlock | EWakeup.

(** The client's side of the contract: a thread asks for a lock it does not
    hold, downgrades or gives back what it holds. *)
Definition flags_ok (flags : Z) : bool :=
  bool_decide (flags .& RW_OPMASK ∈ [RW_WRITE; RW_READ; RW_DOWNGRADE]).

Definition call_ok (c : call) (m : mode) : bool :=
  match c with
  | Enter_read | Enter_write => bool_decide (m = Unheld)
  | Exit_read => bool_decide (m = Shared)
  | Exit_write => bool_decide (m = Exclusive)
  | Enter flags =>
    flags_ok flags &&
    (if flags .& RW_OPMASK =? RW_DOWNGRADE then bool_decide (m = Exclusive)
     else bool_decide (m = Unheld))
  | Exit => negb (bool_decide (m = Unheld))
  end.

Definition first_pc (c : call) : pc :=
  match c with
  | Enter_read => PEnterRead
  | Enter_write => PEnterWriteCas
  | Exit_read => PExitRead
  | Exit_write => PExitWrite
  | Enter flags => PEnter c flags
  | Exit => PExit c
  end.

(** The mode a successful [rw_enter] gives. *)
Definition mode_of (flags : Z) : mode :=
  if flags .& RW_OPMASK =? RW_WRITE then Exclusive else Shared.

(** [sleep_setup], then [sleep_setup_signal] when [RW_INTR] is given. *)
Definition sleep_setup (t : thread) (c : call) (flags o : Z) (ch : choice) : option thread :=
  if has flags RW_INTR then
    match ch with
    | Go => Some (goto_wchan t (PCasWait c flags o (Sls true true)) true)
    | Signal _ => Some (goto_wchan t (PCasWait c flags o (Sls true false)) false)
    | WokenEarly => Some (goto_wchan t (PCasWait c flags o (Sls false false)) false)
    | Call _ => None
    end
  else
    match ch with
    | Go => Some (goto_wchan t (PCasWait c flags o (Sls false true)) true)
    | _ => None
    end.

(** [sleep_finish]. *)
Definition sleep_finish (t : thread) (c : call) (flags : Z) (sls : sleep_state)
    (do_sleep : bool) : thread :=
  if sls_do_sleep sls && do_sleep then goto t (PSleep c flags sls)
  else if negb do_sleep then goto_wchan t (PWoken c flags sls) false
  else goto t (PWoken c flags sls).

(** [exec t owner free ch]: one access of thread [t] to the lock word [owner];
    [free] tells if the scheduler lock is free. *)
Definition exec (t : thread) (owner : Z) (free : bool) (ch : choice)
  : option (Z * thread * effect) :=
  let p := t_proc t in
  match t_pc t, ch with
  | PRet _ _, Call c =>
    if call_ok c (t_held t) then Some (owner, goto t (first_pc c), ENone) else None
  (* rw_enter_read *)
  | PEnterRead, Go => Some (owner, goto t (rw_enter_read_load owner), ENone)
  | PEnterReadCas o, Go =>
    if owner =? o
    then Some (u64 (o + RWLOCK_READ_INCR), goto_held t (PRet Enter_read 0) Shared, ENone)
    else Some (owner, goto t (PEnter Enter_read RW_READ), ENone)
  (* rw_enter_write *)
  | PEnterWriteCas, Go =>
    if owner =? 0
    then Some (RW_PROC p .| RWLOCK_WRLOCK, goto_held t (PRet Enter_write 0) Exclusive, ENone)
    else Some (owner, goto t (PEnter Enter_write RW_WRITE), ENone)
  (* rw_exit_read *)
  | PExitRead, Go => Some (owner, goto t (PExitReadAssert owner), ENone)
  | PExitReadAssert o, Go => Some (owner, goto t (rw_exit_read_assert o owner), ENone)
  | PExitReadCas o, Go =>
    if owner =? o
    then Some (u64 (o - RWLOCK_READ_INCR), goto_held t (PRet Exit_read 0) Unheld, ENone)
    else Some (owner, goto t (PExit Exit_read), ENone)
  (* rw_exit_write *)
  | PExitWrite, Go => Some (owner, goto t (PExitWriteAssert owner), ENone)
  | PExitWriteAssert o, Go => Some (owner, goto t (rw_exit_write_assert o owner p), ENone)
  | PExitWriteCas o, Go =>
    if owner =? o
    then Some (0, goto_held t (PRet Exit_write 0) Unheld, ENone)
    else Some (owner, goto t (PExit Exit_write), ENone)
  (* rw_enter *)
  | PEnter c flags, Go =>
    match op_of flags with
    | Some op => Some (owner, goto t (rw_enter_load c flags op owner), ENone)
    | None => None
    end
  | PDiag c flags o, Go => Some (owner, goto t (rw_enter_blocked c flags o owner p), ENone)
  | PSetup c flags o, _ =>
    if free then
      match sleep_setup t c flags o ch with
      | Some t' => Some (owner, t', ELock)
      | None => None
      end
    else None
  | PCasWait c flags o sls, Go =>
    match op_of flags with
    | Some op =>
      let do_sleep := owner =? o in
      Some (if do_sleep then o .| op_wait_set op else owner,
            goto t (PFinish c flags sls do_sleep), ENone)
    | None => None
    end
  | PFinish c flags sls do_sleep, Go =>
    Some (owner, sleep_finish t c flags sls do_sleep, EUnlock)
  | PSleep c flags sls, Go =>
    if free && negb (t_wchan t) then Some (owner, goto t (PWoken c flags sls), ENone) else None
  | PSleep c flags sls, Signal _ =>
    if free && has flags RW_INTR
    then Some (owner, goto_wchan t (PSleep c flags sls) false, ENone) else None
  | PWoken c flags sls, Go => Some (owner, goto t (rw_enter_slept c flags sls 0), ENone)
  | PWoken c flags sls, Signal e =>
    if e =? 0 then None
    else Some (owner, goto t (rw_enter_slept c flags sls e), ENone)
  | PEnterCas c flags o, Go =>
    match op_of flags with
    | Some op =>
      if owner =? o
      then Some (u64 (o + op_increment op p),
                 goto_held t (rw_enter_taken c flags o) (mode_of flags), ENone)
      else Some (owner, goto t (PEnter c flags), ENone)
    | None => None
    end
  | PEnterWake c flags, Go => if free then Some (owner, goto t (PRet c 0), EWakeup) else None
  (* rw_exit *)
  | PExit c, Go => Some (owner, goto t (PExitAssert c (has owner RWLOCK_WRLOCK)), ENone)
  | PExitAssert c wrlock, Go => Some (owner, goto t (rw_exit_assert c wrlock owner p), ENone)
  | PExitLoad c wrlock, Go => Some (owner, goto t (PExitCas c wrlock owner), ENone)
  | PExitCas c wrlock o, Go =>
    if owner =? o
    then Some (rw_exit_set wrlock o, goto_held t (rw_exit_done c o) Unheld, ENone)
    else Some (owner, goto t (PExitLoad c wrlock), ENone)
  | PExitWake c, Go => if free then Some (owner, goto t (PRet c 0), EWakeup) else None
  | _, _ => None
  end.

(** ** The system *)

Record system := System {
  rwl_owner : Z;
  sched_lock : option nat;
  threads : list thread
}.

Definition dequeue (t : thread) : thread := goto_wchan t (t_pc t) false.

(** [wakeup]: every thread leaves the queue. *)
Definition wakeup (l : list thread) : list thread := dequeue <$> l.

Definition sys_step (i : nat) (ch : choice) (s : system) : option system :=
  match threads s !! i with
  | None => None
  | Some t =>
    match exec t (rwl_owner s) (bool_decide (sched_lock s = None)) ch with
    | None => None
    | Some (o, t', e) =>
      let l := <[i := t']> (threads s) in
      Some match e with
           | ENone => System o (sched_lock s) l
           | ELock => System o (Some i) l
           | EUnlock => System o None l
           | EWakeup => System o (sched_lock s) (wakeup l)
           end
    end
  end.

Inductive step (s : system) : system -> Prop :=
| step_thread i ch s' : sys_step i ch s = Some s' -> step s s'.

(** All threads are outside the lock code, and the lock is free. *)
Definition initial (procs : list Z) : system :=
  System rw_init None ((fun p => Thread p (PRet Exit 0) false Unheld) <$> procs).

(** A schedule, run to its end. *)
Fixpoint run (l : list (nat * choice)) (s : system) : option system :=
  match l with
  | [] => Some s
  | (i, ch) :: l => match sys_step i ch s with Some s' => run l s' | None => None end
  end.

(** ** The lock word *)

Lemma RW_PROC_split q f : 0 <= f < 8 -> RW_PROC (8 * q + f) = 8 * q.
Proof.
  intros Hf. unfold RW_PROC, clear, RWLOCK_MASK. change 7 with (Z.ones 3).
  rewrite Z.ldiff_ones_r, Z.shiftl_mul_pow2, Z.shiftr_div_pow2 by lia.
  change (2 ^ 3) with 8. rewrite Z.mul_comm. f_equal.
  symmetry. apply (Z.div_unique_pos _ _ _ f); lia.
Qed.

Lemma land_split q f m : 0 <= f < 8 -> 7 .& m = m -> (8 * q + f) .& m = f .& m.
Proof.
  intros Hf Hm. rewrite <- Hm. rewrite !Z.land_assoc. f_equal. change 7 with (Z.ones 3).
  rewrite !Z.land_ones by lia. change (2 ^ 3) with 8.
  rewrite <- Zplus_mod_idemp_l, Z.mul_comm, Z_mod_mult. done.
Qed.

Lemma lor_split q f m : 0 <= f < 8 -> 7 .& m = m -> (8 * q + f) .| m = 8 * q + (f .| m).
Proof.
  intros Hf Hm. pose proof (Z.add_lor_land (8 * q + f) m). pose proof (Z.add_lor_land f m).
  rewrite land_split in * by done. lia.
Qed.

(** The flag bits are one of: none, [RWLOCK_WAIT], both wait bits. *)
Definition wait_bits (f : Z) : Prop := f = 0 \/ f = 1 \/ f = 3.

(** The word of a lock held by [n] readers, and by writer [p]. *)
Definition read_word (n f : Z) : Z := 8 * n + f.
Definition write_word (p f : Z) : Z := p + (4 + f).

(** The address of a [struct proc]: aligned, above the reader counts that can
    occur, not at the very end of the address space. *)
Definition proc_ok (n : nat) (p : Z) : Prop :=
  p mod 8 = 0 /\ 8 * Z.of_nat n < p <= 2 ^ 64 - 8.

Lemma proc_split n p : proc_ok n p -> exists q, p = 8 * q /\ Z.of_nat n < q < 2 ^ 61.
Proof.
  intros [Hm ?]. exists (p / 8). pose proof (Z_div_mod_eq_full p 8). lia.
Qed.

Section ReadWord.

Variables (r f : Z).
Hypothesis (Hf : wait_bits f).

Lemma wait_bits_range : 0 <= f < 4.
Proof. unfold wait_bits in Hf. lia. Qed.

Lemma read_word_has m : 7 .& m = m -> has (read_word r f) m = negb (f .& m =? 0).
Proof. intros. pose proof wait_bits_range. unfold has, read_word. by rewrite land_split by lia. Qed.

Lemma read_word_proc : RW_PROC (read_word r f) = 8 * r.
Proof. pose proof wait_bits_range. apply RW_PROC_split. lia. Qed.

(** Adding wait bits. *)
Lemma wait_bits_add w :
  w = 1 \/ w = 3 -> wait_bits (f .| w) /\ f .| w <> 0 /\ (4 + f) .| w = 4 + (f .| w).
Proof.
  intros [-> | ->]; destruct Hf as [->|[->| ->]];
    (split; [unfold wait_bits; simpl; tauto|]); split; done.
Qed.

Lemma read_word_wait w : w = 1 \/ w = 3 -> read_word r f .| w = read_word r (f .| w).
Proof.
  intros Hw. pose proof wait_bits_range. apply lor_split; [lia|]. by destruct Hw as [-> | ->].
Qed.

End ReadWord.

Section WriteWord.

Variables (n : nat) (p f : Z).
Hypotheses (Hp : proc_ok n p) (Hf : wait_bits f).

Lemma write_word_has m : 7 .& m = m -> has (write_word p f) m = negb ((4 + f) .& m =? 0).
Proof.
  intros. destruct (proc_split _ _ Hp) as (q & -> & ?). pose proof (wait_bits_range f Hf).
  unfold has, write_word. by rewrite land_split by lia.
Qed.

Lemma write_word_proc : RW_PROC (write_word p f) = p.
Proof.
  destruct (proc_split _ _ Hp) as (q & -> & ?). pose proof (wait_bits_range f Hf).
  unfold write_word. apply RW_PROC_split. lia.
Qed.

Lemma RW_PROC_proc : RW_PROC p = p.
Proof.
  destruct (proc_split _ _ Hp) as (q & -> & ?). pose proof (RW_PROC_split q 0 ltac:(lia)) as H0.
  by rewrite Z.add_0_r in H0.
Qed.

Lemma write_word_wait w : w = 1 \/ w = 3 -> write_word p f .| w = write_word p (f .| w).
Proof.
  intros Hw. destruct (proc_split _ _ Hp) as (q & -> & ?). unfold write_word.
  pose proof (wait_bits_range f Hf). rewrite <- (proj2 (proj2 (wait_bits_add f Hf w Hw))).
  apply lor_split; [lia|]. by destruct Hw as [-> | ->].
Qed.

End WriteWord.

(** ** The abstract lock *)

(** How many threads own the lock in mode [m]. *)
Definition count (m : mode) (l : list thread) : Z :=
  Z.of_nat (length (filter (fun t => t_held t = m) l)).

Definition b2z (P : Prop) `{Decision P} : Z := if decide P then 1 else 0.

Lemma count_cons m t l : count m (t :: l) = b2z (t_held t = m) + count m l.
Proof. unfold count, b2z. rewrite filter_cons. case_decide; simpl; lia. Qed.

Lemma count_nonneg m l : 0 <= count m l <= Z.of_nat (length l).
Proof. unfold count. pose proof (length_filter (fun t => t_held t = m) l). lia. Qed.

Lemma count_insert m l i t t' :
  l !! i = Some t ->
  count m (<[i := t']> l) = count m l - b2z (t_held t = m) + b2z (t_held t' = m).
Proof.
  revert i. induction l as [|u l IH]; intros [|i] Hi; simplify_eq/=;
    rewrite !count_cons; [lia|]. rewrite (IH i) by done. lia.
Qed.

Lemma count_wakeup m l : count m (wakeup l) = count m l.
Proof. induction l as [|t l IH]; [done|]. simpl. rewrite !count_cons. by rewrite IH. Qed.

Lemma count_pos m l t : t ∈ l -> t_held t = m -> 1 <= count m l.
Proof.
  intros Hin Hm. induction Hin as [|t u l Hin IH]; rewrite count_cons; unfold b2z.
  - rewrite decide_True by done. pose proof (count_nonneg m l). lia.
  - case_decide; specialize (IH Hm); lia.
Qed.

(** Two owners of a mode that is counted once are the same thread. *)
Lemma count_one m l i j t u :
  count m l = 1 -> l !! i = Some t -> l !! j = Some u -> t_held t = m -> t_held u = m -> i = j.
Proof.
  intros H1 Hi Hj Ht Hu. destruct (decide (i = j)) as [|Hij]; [done|exfalso].
  pose proof (count_insert m l i t (goto_held t (t_pc t) (match m with Unheld => Shared | _ => Unheld end)) Hi) as Hc.
  assert (u ∈ <[i := goto_held t (t_pc t) (match m with Unheld => Shared | _ => Unheld end)]> l) as Hin.
  { apply list_elem_of_lookup_2 with j. by rewrite list_lookup_insert_ne. }
  pose proof (count_pos m _ u Hin Hu). unfold b2z in Hc. simpl in Hc.
  rewrite (decide_True _ _ Ht), decide_False in Hc by (by destruct m). lia.
Qed.

(** The word says who owns the lock: [n] readers, or one writer. *)
Definition word_ok (o : Z) (l : list thread) : Prop :=
  exists f, wait_bits f /\
    (count Exclusive l = 0 /\ o = read_word (count Shared l) f /\ (count Shared l = 0 -> f = 0) \/
     count Exclusive l = 1 /\ count Shared l = 0 /\
       exists i t, l !! i = Some t /\ t_held t = Exclusive /\ o = write_word (t_proc t) f).

Record procs_ok (l : list thread) : Prop := {
  po_addr : Forall (fun t => proc_ok (length l) (t_proc t)) l;
  po_nodup : NoDup (t_proc <$> l);
  po_len : Z.of_nat (length l) < 2 ^ 60
}.

(** What an access by the thread at address [p] may do to the word, with the
    change of mode it means. *)
Inductive word_step (p : Z) : mode -> mode -> Z -> Z -> Prop :=
| ws_same m o : word_step p m m o o
| ws_wait m o w : o <> 0 -> w = 1 \/ w = 3 -> word_step p m m o (o .| w)
| ws_read o : has o RWLOCK_WRLOCK = false ->
    word_step p Unheld Shared o (u64 (o + RWLOCK_READ_INCR))
| ws_write : word_step p Unheld Exclusive 0 (write_word p 0)
| ws_downgrade o :
    word_step p Exclusive Shared o (u64 (o + (RWLOCK_READ_INCR - RWLOCK_WRLOCK - p)))
| ws_release_read_fast o : has o RWLOCK_WAIT = false ->
    word_step p Shared Unheld o (u64 (o - RWLOCK_READ_INCR))
| ws_release_read o : word_step p Shared Unheld o (rw_exit_set false o)
| ws_release_write o : word_step p Exclusive Unheld o 0.

Lemma rw_exit_set_read r f :
  1 <= r -> read_word r f < 2 ^ 64 -> wait_bits f -> rw_exit_set false (read_word r f) = read_word (r - 1) 0.
Proof.
  intros Hr Hlt Hf. unfold rw_exit_set.
  replace (read_word r f - RWLOCK_READ_INCR) with (8 * (r - 1) + f)
    by (unfold read_word; change RWLOCK_READ_INCR with 8; lia).
  rewrite wrapu_small by (unfold inu, read_word, wait_bits in *; lia).
  unfold clear. change (RWLOCK_WAIT .| RWLOCK_WRWANT) with 3. unfold read_word.
  rewrite ldiff_sub_land.
  rewrite land_split by (unfold wait_bits in *; done || lia).
  replace (f .& 3) with f by (by destruct Hf as [->|[->| ->]]). lia.
Qed.

(** Elimination of [word_ok] for a thread of the list. *)
Lemma word_ok_exclusive o l i t :
  word_ok o l -> l !! i = Some t -> t_held t = Exclusive ->
  exists f, wait_bits f /\ count Exclusive l = 1 /\ count Shared l = 0 /\
    o = write_word (t_proc t) f.
Proof.
  intros (f & Hf & [(HX & _)|(HX & HS & j & u & Hj & Hu & ->)]) Hi Ht.
  - pose proof (count_pos Exclusive l t (list_elem_of_lookup_2 _ _ _ Hi) Ht). lia.
  - exists f. split_and!; try done. assert (i = j) as <- by by eapply (count_one Exclusive l).
    by simplify_eq.
Qed.

Lemma word_ok_shared o l i t :
  word_ok o l -> l !! i = Some t -> t_held t = Shared ->
  exists f, wait_bits f /\ count Exclusive l = 0 /\ 1 <= count Shared l /\
    o = read_word (count Shared l) f.
Proof.
  intros (f & Hf & Hw) Hi Ht.
  pose proof (count_pos Shared l t (list_elem_of_lookup_2 _ _ _ Hi) Ht).
  destruct Hw as [(HX & -> & _)|(_ & ? & _)]; [|lia]. by exists f.
Qed.

Lemma word_ok_no_writer o l :
  word_ok o l -> procs_ok l -> has o RWLOCK_WRLOCK = false ->
  exists f, wait_bits f /\ count Exclusive l = 0 /\ o = read_word (count Shared l) f /\
    (count Shared l = 0 -> f = 0).
Proof.
  intros (f & Hf & Hw) [Hpo _ _] Hno. exists f.
  destruct Hw as [(HX & -> & H0)|(_ & _ & i & t & Hi & _ & ->)]; [done|exfalso].
  rewrite Forall_forall in Hpo. specialize (Hpo t (list_elem_of_lookup_2 _ _ _ Hi)).
  erewrite write_word_has in Hno by done. by destruct Hf as [->|[->| ->]].
Qed.

Lemma word_ok_frame o l i t t' :
  word_ok o l -> l !! i = Some t -> t_held t' = t_held t -> t_proc t' = t_proc t ->
  word_ok o (<[i := t']> l).
Proof.
  intros (f & Hf & Hw) Hi Hh Hpr. exists f. split; [done|].
  rewrite !(count_insert _ l i t t' Hi), Hh, !Z.sub_add.
  destruct Hw as [?|(HX & HS & j & u & Hj & Hu & ->)]; [by left|right].
  split_and!; [done..|]. destruct (decide (i = j)) as [<-|Hij].
  - simplify_eq. exists i, t'. rewrite Hpr, Hh. split; [|done].
    apply list_lookup_insert_eq. by eapply lookup_lt_Some.
  - exists j, u. by rewrite list_lookup_insert_ne.
Qed.

Lemma word_ok_wait o l w :
  word_ok o l -> procs_ok l -> o <> 0 -> w = 1 \/ w = 3 -> word_ok (o .| w) l.
Proof.
  intros (f & Hf & Hw) [Hpo _ _] Ho Hwt. exists (f .| w).
  destruct (wait_bits_add f Hf w Hwt) as (? & ? & _). split; [done|].
  destruct Hw as [(HX & -> & Hzero)|(HX & HS & j & u & Hj & Hu & ->)]; [left|right].
  - split_and!; [done|by apply read_word_wait|]. intros Hz. rewrite Hz, Hzero in Ho by done. done.
  - split_and!; [done..|]. exists j, u. split_and!; [done..|].
    rewrite Forall_forall in Hpo. specialize (Hpo u (list_elem_of_lookup_2 _ _ _ Hj)).
    by eapply write_word_wait.
Qed.

(** A step of the word keeps it in agreement with the modes. *)
Lemma word_step_ok o o' l i t t' :
  word_ok o l -> procs_ok l -> l !! i = Some t ->
  t_proc t' = t_proc t -> word_step (t_proc t) (t_held t) (t_held t') o o' ->
  word_ok o' (<[i := t']> l).
Proof.
  intros Hw Hpo Hi Hpr Hstep. pose proof Hpo as [Hps _ Hlen].
  pose proof (count_insert Shared l i t t' Hi) as HS.
  pose proof (count_insert Exclusive l i t t' Hi) as HX.
  pose proof (count_nonneg Shared l) as Hn. pose proof (list_elem_of_lookup_2 _ _ _ Hi) as Hin.
  rewrite Forall_forall in Hps. pose proof (Hps t Hin) as Hp. unfold b2z in HS, HX.
  assert (<[i := t']> l !! i = Some t') as Hi'
    by (apply list_lookup_insert_eq; by eapply lookup_lt_Some).
  remember (t_held t) as m eqn:Hm in *. remember (t_held t') as m' eqn:Hm' in *.
  destruct Hstep as [m o|m o w Ho Hwt|o Hnw| |o|o Hnw|o|o]; simpl in HS, HX.
  - eapply word_ok_frame; [done..|congruence|done].
  - eapply word_ok_frame; [by apply word_ok_wait|done|congruence|done].
  - destruct (word_ok_no_writer o l Hw Hpo Hnw) as (f & Hf & HX0 & -> & _).
    exists f. split; [done|]. left. rewrite HX, HS. split_and!; [lia| |lia].
    change RWLOCK_READ_INCR with 8. unfold read_word in *. 
    rewrite wrapu_small by (unfold inu, wait_bits in *; lia). lia.
  - destruct (word_ok_no_writer 0 l Hw Hpo eq_refl) as (f & Hf & HX0 & H0 & _).
    unfold read_word, wait_bits in *. exists 0. split; [by left|]. right. rewrite HX, HS.
    split_and!; [lia..|]. exists i, t'. by rewrite Hpr.
  - destruct (word_ok_exclusive o l i t Hw Hi) as (f & Hf & HX0 & HS0 & ->); [done|].
    exists f. split; [done|]. left. rewrite HX, HS, HX0, HS0. split_and!; [lia| |lia].
    change RWLOCK_READ_INCR with 8. change RWLOCK_WRLOCK with 4. unfold read_word, write_word in *.
    rewrite wrapu_small by (unfold inu, wait_bits in *; lia). lia.
  - destruct (word_ok_shared o l i t Hw Hi) as (f & Hf & HX0 & HS0 & ->); [done|].
    erewrite read_word_has in Hnw by done. assert (f = 0) as -> by by destruct Hf as [->|[->| ->]].
    exists 0. split; [done|]. left. rewrite HX, HS. split_and!; [lia| |lia].
    change RWLOCK_READ_INCR with 8. unfold read_word in *. rewrite wrapu_small by (unfold inu; lia). lia.
  - destruct (word_ok_shared o l i t Hw Hi) as (f & Hf & HX0 & HS0 & ->); [done|].
    exists 0. split; [by left|]. left. rewrite HX, HS. split_and!; [lia| |lia].
    rewrite rw_exit_set_read by (done || unfold read_word, wait_bits in *; lia). f_equal. lia.
  - destruct (word_ok_exclusive o l i t Hw Hi) as (f & Hf & HX0 & HS0 & ->); [done|].
    exists 0. split; [by left|]. left. rewrite HX, HS. split_and!; [lia| |lia].
    unfold read_word. lia.
Qed.

(** ** The threads *)

(** [c] is a call that runs [rw_enter] with these flags. *)
Definition enters (c : call) (flags : Z) : Prop :=
  flags_ok flags = true /\
  match c with
  | Enter_read => flags = RW_READ
  | Enter_write => flags = RW_WRITE
  | Enter f => flags = f
  | _ => False
  end.

(** The mode a thread has while it runs [rw_enter]. *)
Definition entering (flags : Z) : mode :=
  if flags .& RW_OPMASK =? RW_DOWNGRADE then Exclusive else Unheld.

(** [c] is a call that gives back a lock held in mode [m]. *)
Definition exits (c : call) (m : mode) : Prop :=
  match c with
  | Exit_read => m = Shared
  | Exit_write => m = Exclusive
  | Exit => m <> Unheld
  | _ => False
  end.

Definition op_waits (flags o : Z) : Prop :=
  flags .& RW_OPMASK <> RW_DOWNGRADE /\ o <> 0.

(** What a thread holds at each program point; [PPanic] is not one of them.
    A call that returned 0 gave what it was asked for. *)
Definition pc_ok (l : pc) (m : mode) : Prop :=
  match l with
  | PRet c rv =>
    match c with
    | Enter_read => rv = 0 /\ m = Shared
    | Enter_write => rv = 0 /\ m = Exclusive
    | Enter flags => flags_ok flags = true /\
        if rv =? 0 then m = mode_of flags
        else m = Unheld /\ flags .& RW_OPMASK <> RW_DOWNGRADE
    | Exit_read | Exit_write | Exit => rv = 0 /\ m = Unheld
    end
  | PEnterRead | PEnterWriteCas => m = Unheld
  | PEnterReadCas o => m = Unheld /\ has o RWLOCK_WRLOCK = false
  | PExitRead | PExitReadAssert _ => m = Shared
  | PExitReadCas o => m = Shared /\ has o RWLOCK_WAIT = false
  | PExitWrite | PExitWriteAssert _ => m = Exclusive
  | PExitWriteCas o => m = Exclusive /\ has o RWLOCK_WAIT = false
  | PEnter c flags => enters c flags /\ m = entering flags
  | PDiag c flags o | PSetup c flags o | PCasWait c flags o _ =>
    enters c flags /\ m = Unheld /\ op_waits flags o
  | PFinish c flags _ _ | PSleep c flags _ | PWoken c flags _ =>
    enters c flags /\ m = Unheld /\ flags .& RW_OPMASK <> RW_DOWNGRADE
  | PEnterCas c flags o =>
    enters c flags /\ m = entering flags /\
    forall op, op_of flags = Some op -> has o (op_check op) = false
  | PEnterWake c flags => enters c flags /\ m = mode_of flags
  | PExit c => exits c m
  | PExitAssert c w | PExitLoad c w | PExitCas c w _ =>
    exits c m /\ m = if w then Exclusive else Shared
  | PExitWake c => exits c Exclusive /\ m = Unheld \/ exits c Shared /\ m = Unheld
  | PPanic => False
  end.

(** Where a thread can be on the sleep queue. *)
Definition queued (l : pc) : bool :=
  match l with
  | PCasWait _ _ _ sls | PFinish _ _ sls _ | PSleep _ _ sls => sls_do_sleep sls
  | _ => false
  end.

Definition thread_ok (t : thread) : Prop :=
  pc_ok (t_pc t) (t_held t) /\ (t_wchan t = true -> queued (t_pc t) = true).

(** The thread holds the scheduler lock. *)
Definition in_sched (l : pc) : bool :=
  match l with PCasWait _ _ _ _ | PFinish _ _ _ _ => true | _ => false end.

(** The thread has set the wait bit and sleeps, or is about to. *)
Definition committed (t : thread) : bool :=
  t_wchan t && match t_pc t with PFinish _ _ _ true | PSleep _ _ _ => true | _ => false end.

(** The thread is about to call [wakeup]. *)
Definition waking (t : thread) : bool :=
  match t_pc t with PEnterWake _ _ | PExitWake _ => true | _ => false end.

(** What the lock word tells one thread. *)
Definition my_word (t : thread) (o : Z) : Prop :=
  match t_held t with
  | Unheld => RW_PROC (t_proc t) <> RW_PROC o
  | Shared => rw_assert_rdlock o = true /\ has o RWLOCK_WRLOCK = false
  | Exclusive => rw_assert_wrlock o (t_proc t) = true /\ has o RWLOCK_WRLOCK = true
  end.

Lemma word_ok_mine o l i t : word_ok o l -> procs_ok l -> l !! i = Some t -> my_word t o.
Proof.
  intros Hw Hpo Hi. pose proof Hpo as [Hps Hnd Hlen]. rewrite Forall_forall in Hps.
  pose proof (Hps t (list_elem_of_lookup_2 _ _ _ Hi)) as Hp. unfold my_word.
  destruct (t_held t) eqn:Hm.
  - destruct Hw as (f & Hf & [(_ & -> & _)|(HX & HS & j & u & Hj & Hu & ->)]);
      rewrite (RW_PROC_proc _ _ Hp).
    + rewrite read_word_proc by done. pose proof (count_nonneg Shared l). destruct Hp. lia.
    + pose proof (Hps u (list_elem_of_lookup_2 _ _ _ Hj)) as Hu'.
      erewrite write_word_proc by done. intros Heq.
      assert (i = j); [|subst j; congruence].
      eapply (NoDup_lookup (t_proc <$> l)); [done| |]; rewrite list_lookup_fmap_Some; eauto.
  - destruct (word_ok_shared o l i t Hw Hi Hm) as (f & Hf & _ & ? & ->).
    assert (has (read_word (count Shared l) f) RWLOCK_WRLOCK = false) as Hno.
    { rewrite read_word_has by done. by destruct Hf as [->|[->| ->]]. }
    unfold rw_assert_rdlock. rewrite Hno. split; [|done].
    change RWLOCK_OWNER with RW_PROC. rewrite read_word_proc by done.
    apply andb_true_iff. split; [|done]. apply negb_true_iff, Z.eqb_neq. lia.
  - destruct (word_ok_exclusive o l i t Hw Hi Hm) as (f & Hf & _ & _ & ->).
    assert (has (write_word (t_proc t) f) RWLOCK_WRLOCK = true) as Hyes.
    { erewrite write_word_has by done. by destruct Hf as [->|[->| ->]]. }
    unfold rw_assert_wrlock. rewrite Hyes. split; [|done].
    change RWLOCK_OWNER with RW_PROC. erewrite write_word_proc, RW_PROC_proc by done.
    by rewrite Z.eqb_refl.
Qed.

Lemma word_ok_inu o l : word_ok o l -> procs_ok l -> inu 64 o.
Proof.
  intros (f & Hf%wait_bits_range & Hw) [Hpo _ Hlen]. rewrite Forall_forall in Hpo.
  destruct Hw as [(_ & -> & _)|(_ & _ & j & u & Hj & _ & ->)].
  - pose proof (count_nonneg Shared l). unfold inu, read_word. lia.
  - destruct (Hpo u (list_elem_of_lookup_2 _ _ _ Hj)) as [? ?]. unfold inu, write_word. lia.
Qed.

Lemma op_cases flags :
  flags_ok flags = true ->
  (flags .& RW_OPMASK = RW_WRITE /\
     op_of flags = Some (RwlockOp RWLOCK_WRLOCK ULONG_MAX 3 1) /\
     mode_of flags = Exclusive /\ entering flags = Unheld) \/
  (flags .& RW_OPMASK = RW_READ /\
     op_of flags = Some (RwlockOp RWLOCK_READ_INCR RWLOCK_WRLOCK RWLOCK_WAIT 0) /\
     mode_of flags = Shared /\ entering flags = Unheld) \/
  (flags .& RW_OPMASK = RW_DOWNGRADE /\
     op_of flags = Some (RwlockOp 4 0 0 (-1)) /\
     mode_of flags = Shared /\ entering flags = Exclusive).
Proof.
  unfold flags_ok, op_of, mode_of, entering. rewrite bool_decide_eq_true.
  rewrite !elem_of_cons, elem_of_nil.
  intros [->|[->|[->|[]]]]; [left|right;left|right;right]; done.
Qed.

(** Every bit of a word is checked by a writer. *)
Lemma check_write o : inu 64 o -> has o ULONG_MAX = false -> o = 0.
Proof.
  intros Ho. unfold has, ULONG_MAX. change (2 ^ 64 - 1) with (Z.ones 64).
  rewrite Z.land_ones by lia. rewrite Z.mod_small by exact Ho.
  intros H%negb_false_iff. by apply Z.eqb_eq.
Qed.

(** What one access of a thread does, as the other threads see it. *)
Record exec_post (t : thread) (o : Z) (free : bool) (o' : Z) (t' : thread) (e : effect) : Prop := {
  ep_proc : t_proc t' = t_proc t;
  ep_ok : thread_ok t';
  ep_word : word_step (t_proc t) (t_held t) (t_held t') o o';
  ep_wait : has o RWLOCK_WAIT = true -> has o' RWLOCK_WAIT = true \/ waking t' = true;
  ep_commit : committed t' = true -> committed t = true \/ has o' RWLOCK_WAIT = true;
  ep_waking : waking t = true -> e = EWakeup;
  ep_sched :
    match e with
    | ENone => in_sched (t_pc t') = in_sched (t_pc t)
    | ELock => free = true /\ in_sched (t_pc t') = true
    | EUnlock => in_sched (t_pc t) = true /\ in_sched (t_pc t') = false
    | EWakeup => free = true /\ in_sched (t_pc t') = false
    end
}.

(** An access that leaves the word and the mode alone. *)
Lemma exec_same t o free t' e :
  t_proc t' = t_proc t -> thread_ok t' -> t_held t' = t_held t ->
  (committed t' = true -> committed t = true) -> waking t = false ->
  match e with
  | ENone => in_sched (t_pc t') = in_sched (t_pc t)
  | ELock => free = true /\ in_sched (t_pc t') = true
  | EUnlock => in_sched (t_pc t) = true /\ in_sched (t_pc t') = false
  | EWakeup => free = true /\ in_sched (t_pc t') = false
  end ->
  exec_post t o free o t' e.
Proof.
  intros Hpr Hok Hh Hc Hw Hs. constructor; try done; [rewrite Hh; apply ws_same|by left|auto|congruence].
Qed.

(** The same outside the sleep queue code. *)
Lemma exec_quiet t o free l :
  t_wchan t = false -> waking t = false -> in_sched (t_pc t) = false -> in_sched l = false ->
  pc_ok l (t_held t) -> exec_post t o free o (goto t l) ENone.
Proof.
  intros Hq Hwk Hs Hs' Hok. constructor; simpl; try done.
  - split; simpl; [done|congruence].
  - constructor.
  - by left.
  - unfold committed. simpl. rewrite Hq. simpl. congruence.
  - congruence.
  - congruence.
Qed.

(** An access that takes, changes or gives back the lock. *)
Lemma exec_move t o free o' l m :
  t_wchan t = false -> waking t = false -> in_sched (t_pc t) = false -> in_sched l = false ->
  pc_ok l m -> word_step (t_proc t) (t_held t) m o o' ->
  (has o RWLOCK_WAIT = true -> has o' RWLOCK_WAIT = true \/ waking (goto t l) = true) ->
  exec_post t o free o' (goto_held t l m) ENone.
Proof.
  intros Hq Hwk Hs Hs' Hok Hst Hw. constructor; simpl; try done.
  - split; simpl; [done|congruence].
  - unfold committed. simpl. rewrite Hq. simpl. congruence.
  - congruence.
  - congruence.
Qed.

Lemma has_add8 o m : 7 .& m = m -> inu 64 o -> has (u64 (o + 8)) m = has o m.
Proof.
  intros Hm Ho. unfold has, wrapu.
  assert ((o + 8) mod 2 ^ 64 .& m = o .& m) as ->; [|done].
  rewrite <- Hm, !Z.land_assoc. f_equal. change 7 with (Z.ones 3).
  rewrite !Z.land_ones by lia. change (2 ^ 64) with (2 ^ 3 * 2 ^ 61).
  rewrite Z.rem_mul_r by lia.
  rewrite (Z.mul_comm (2 ^ 3)), Z_mod_plus_full, Z.mod_mod by lia.
  change (2 ^ 3) with 8. rewrite <- (Z_mod_plus_full o 1 8). done.
Qed.

Lemma wake_test o :
  (o .& (RWLOCK_WRLOCK .| RWLOCK_WAIT) =? RWLOCK_WRLOCK .| RWLOCK_WAIT) =
  has o RWLOCK_WRLOCK && has o RWLOCK_WAIT.
Proof.
  unfold has. rewrite (Z_div_mod_eq_full o 8).
  pose proof (Z.mod_pos_bound o 8 ltac:(lia)) as Hb. generalize (o / 8). intros q.
  generalize dependent (o mod 8). intros f Hb. rewrite !land_split by (done || lia).
  assert (f ∈ [0;1;2;3;4;5;6;7]) as Hin by (rewrite !elem_of_cons; lia).
  rewrite !elem_of_cons, elem_of_nil in Hin. by repeat (destruct Hin as [->|Hin]; [done|]).
Qed.

Section Exec.

Variables (n : nat) (t : thread) (o : Z) (free : bool).
Hypotheses (Hp : proc_ok n (t_proc t)) (Ho : inu 64 o)
  (Hok : thread_ok t) (Hmy : my_word t o).

(** Outside the sleep code a thread is not on the queue. *)
Lemma not_queued : queued (t_pc t) = false -> t_wchan t = false.
Proof. intros Hq. destruct (t_wchan t) eqn:E; [|done]. destruct Hok as [_ H]. rewrite H in Hq; done. Qed.

Lemma my_unheld : t_held t = Unheld -> RW_PROC (t_proc t) <> RW_PROC o.
Proof. intros H. unfold my_word in Hmy. by rewrite H in Hmy. Qed.

Lemma my_shared : t_held t = Shared -> rw_assert_rdlock o = true /\ has o RWLOCK_WRLOCK = false.
Proof. intros H. unfold my_word in Hmy. by rewrite H in Hmy. Qed.

Lemma my_exclusive : t_held t = Exclusive ->
  rw_assert_wrlock o (t_proc t) = true /\ has o RWLOCK_WRLOCK = true.
Proof. intros H. unfold my_word in Hmy. by rewrite H in Hmy. Qed.

(** The loop of [rw_enter] reads the word. *)
Lemma exec_enter_load c flags op :
  t_pc t = PEnter c flags -> op_of flags = Some op ->
  pc_ok (rw_enter_load c flags op o) (t_held t).
Proof.
  intros Hpc Hop. destruct Hok as [Hpo _]. rewrite Hpc in Hpo. destruct Hpo as [He Hm].
  unfold rw_enter_load. case_if; simpl.
  - split; [done|]. destruct (op_cases flags (proj1 He)) as [(Hf & Hop' & _ & Hen)|[(Hf & Hop' & _ & Hen)|(Hf & Hop' & _ & Hen)]].
    + split; [congruence|]. split; [by rewrite Hf|]. by intros ->.
    + split; [congruence|]. split; [by rewrite Hf|]. by intros ->.
    + rewrite Hop' in Hop. simplify_eq. simpl in *. unfold has in *. by rewrite Z.land_0_r in *.
  - split_and!; [done..|]. intros op' Hop'. by simplify_eq.
Qed.

(** [rw_enter] finds the lock taken. *)
Lemma exec_blocked c flags o0 :
  t_pc t = PDiag c flags o0 -> pc_ok (rw_enter_blocked c flags o0 o (t_proc t)) (t_held t).
Proof.
  intros Hpc. destruct Hok as [Hpo _]. rewrite Hpc in Hpo. destruct Hpo as (He & Hm & Hw).
  pose proof (my_unheld Hm) as Hne. unfold rw_enter_blocked, rw_enter_diag.
  assert (((flags .& RW_OPMASK =? RW_WRITE) || (flags .& RW_OPMASK =? RW_READ)) = true) as ->.
  { destruct (op_cases flags (proj1 He)) as [(-> & _)|[(-> & _)|(Hf & _)]]; [done..|].
    by destruct Hw. }
  rewrite (proj2 (Z.eqb_neq _ _) Hne). simpl. case_if; [|done].
  destruct c; destruct He as [Hfl He]; subst; simpl; try done.
  split; [done|]. split; [done|apply Hw].
Qed.

(** The thread takes the lock in [rw_enter]. *)
Lemma exec_take c flags op :
  t_pc t = PEnterCas c flags o -> op_of flags = Some op ->
  exec_post t o free (u64 (o + op_increment op (t_proc t)))
    (goto_held t (rw_enter_taken c flags o) (mode_of flags)) ENone.
Proof.
  intros Hpc Hop. pose proof Hok as [Hpo _]. rewrite Hpc in Hpo. destruct Hpo as (He & Hm & Hno).
  specialize (Hno op Hop).
  assert (pc_ok (rw_enter_taken c flags o) (mode_of flags)) as Hpo'.
  { unfold rw_enter_taken. case_if; [done|]. destruct c; destruct He as [Hfl He]; subst; simpl; done. }
  assert (waking (goto t (rw_enter_taken c flags o)) = false -> has o RWLOCK_WRLOCK = true ->
          has o RWLOCK_WAIT = false) as Hwk.
  { unfold rw_enter_taken. rewrite wake_test.
    by destruct (has o RWLOCK_WRLOCK), (has o RWLOCK_WAIT). }
  apply exec_move; try (by rewrite Hpc); try done.
  - apply not_queued. by rewrite Hpc.
  - unfold waking. by rewrite Hpc.
  - unfold rw_enter_taken. by case_if.
  - destruct (op_cases flags (proj1 He)) as [(Hf & Hop' & -> & Hen)|[(Hf & Hop' & -> & Hen)|(Hf & Hop' & -> & Hen)]];
      rewrite Hop' in Hop; simplify_eq; simpl in *; rewrite Hm, Hen; unfold op_increment; simpl.
    + rewrite (check_write o) by done. rewrite (RW_PROC_proc _ _ Hp), Z.mul_1_r, Z.add_0_l.
      destruct Hp. change RWLOCK_WRLOCK with 4. rewrite !wrapu_small by (unfold inu; rewrite ?wrapu_small by (unfold inu; lia); lia).
      replace (4 + t_proc t) with (write_word (t_proc t) 0) by (unfold write_word; lia). constructor.
    + rewrite Z.mul_0_r, Z.add_0_r, (wrapu_small 64 RWLOCK_READ_INCR) by done. by constructor.
    + rewrite (RW_PROC_proc _ _ Hp).
      replace (u64 (o + u64 (4 + t_proc t * -1))) with (u64 (o + (RWLOCK_READ_INCR - RWLOCK_WRLOCK - t_proc t))); [constructor|].
      unfold wrapu. rewrite Zplus_mod_idemp_r. f_equal. change RWLOCK_READ_INCR with 8. change RWLOCK_WRLOCK with 4. lia.
  - intros Hwt. destruct (waking _) eqn:Hwaking; [by right|left].
    destruct (op_cases flags (proj1 He)) as [(Hf & Hop' & _ & Hen)|[(Hf & Hop' & _ & Hen)|(Hf & Hop' & _ & Hen)]];
      rewrite Hop' in Hop; simplify_eq; simpl in *.
    + by rewrite (check_write o) in Hwt.
    + unfold op_increment. simpl. rewrite Z.mul_0_r, Z.add_0_r, (wrapu_small 64 RWLOCK_READ_INCR) by done.
      by rewrite has_add8.
    + assert (has o RWLOCK_WRLOCK = true) as Hx by (apply my_exclusive; congruence).
      rewrite Hwk in Hwt by done. done.
Qed.

(** The thread gives the lock back in [rw_exit]. *)
Lemma exec_release c w :
  t_pc t = PExitCas c w o ->
  exec_post t o free (rw_exit_set w o) (goto_held t (rw_exit_done c o) Unheld) ENone.
Proof.
  intros Hpc. pose proof Hok as [Hpo _]. rewrite Hpc in Hpo. destruct Hpo as [Hex Hm].
  apply exec_move; try (by rewrite Hpc).
  - apply not_queued. by rewrite Hpc.
  - unfold waking. by rewrite Hpc.
  - unfold rw_exit_done. by case_if.
  - unfold rw_exit_done. case_if; simpl; [|by destruct c].
    rewrite Hm in Hex. destruct w; [left|right]; done.
  - rewrite Hm. destruct w; constructor.
  - intros Hw. right. unfold rw_exit_done. by rewrite Hw.
Qed.

(** The sleep code. *)
Lemma exec_setup c flags o0 ch t' :
  t_pc t = PSetup c flags o0 -> free = true -> sleep_setup t c flags o0 ch = Some t' ->
  exec_post t o free o t' ELock.
Proof.
  intros Hpc Hfree Hs. pose proof Hok as [Hpo _]. rewrite Hpc in Hpo.
  unfold sleep_setup in Hs.
  destruct (has flags RW_INTR), ch; simplify_eq;
    (apply exec_same; simpl;
      [done|by split|done|by rewrite ?andb_false_r|unfold waking; by rewrite Hpc|done]).
Qed.

Lemma exec_cas_wait c flags o0 sls op :
  t_pc t = PCasWait c flags o0 sls -> op_of flags = Some op ->
  exec_post t o free (if o =? o0 then o0 .| op_wait_set op else o)
    (goto t (PFinish c flags sls (o =? o0))) ENone.
Proof.
  intros Hpc Hop. pose proof Hok as [Hpo Hq]. rewrite Hpc in Hpo, Hq.
  destruct Hpo as (He & Hm & Hnd & Hne).
  destruct (o =? o0) eqn:E; zify_bool.
  - subst o0. assert (exists w, op_wait_set op = w /\ (w = 1 \/ w = 3)) as (w & -> & Hw).
    { destruct (op_cases flags (proj1 He)) as [(_ & Hop' & _)|[(_ & Hop' & _)|(Hf & _)]];
        [..|by destruct Hnd]; rewrite Hop' in Hop; simplify_eq; eauto. }
    assert (has (o .| w) RWLOCK_WAIT = true) as Hwait.
    { unfold has. rewrite Z.land_lor_distr_l. apply negb_true_iff, Z.eqb_neq.
      destruct Hw as [-> | ->]; intros [_ ?]%Z.lor_eq_0_iff; done. }
    constructor; simpl; try done.
    + constructor; done.
    + by left.
    + by right.
    + unfold waking. by rewrite Hpc.
    + by rewrite Hpc.
  - apply exec_same; simpl; [done|by split|done|unfold committed; simpl; by rewrite andb_false_r
      |unfold waking; by rewrite Hpc|by rewrite Hpc].
Qed.

Lemma exec_finish c flags sls do_sleep :
  t_pc t = PFinish c flags sls do_sleep ->
  exec_post t o free o (sleep_finish t c flags sls do_sleep) EUnlock.
Proof.
  intros Hpc. pose proof Hok as [Hpo Hq]. rewrite Hpc in Hpo, Hq. unfold sleep_finish.
  assert (t_wchan t = true -> sls_do_sleep sls = true) by done.
  assert (waking t = false) by (unfold waking; by rewrite Hpc).
  case_if; [|case_if]; (apply exec_same; simpl; [done|split; simpl; try done|done|..|done|by rewrite Hpc]).
  - unfold committed. simpl. rewrite Hpc. by destruct do_sleep.
  - done.
  - intros Hwc. exfalso. rewrite H in * by done. destruct Heqb; congruence.
  - unfold committed. simpl. by rewrite andb_false_r.
Qed.

Lemma exec_slept c flags sls error :
  t_pc t = PWoken c flags sls -> pc_ok (rw_enter_slept c flags sls error) (t_held t).
Proof.
  intros Hpc. pose proof Hok as [Hpo _]. rewrite Hpc in Hpo. destruct Hpo as (He & Hm & Hnd).
  unfold rw_enter_slept.
  assert (entering flags = Unheld) as Hen.
  { unfold entering. apply Z.eqb_neq in Hnd. by rewrite Hnd. }
  assert (pc_ok (PEnter c flags) (t_held t)) as Hen' by (split; [done|congruence]).
  destruct c; destruct He as [Hfl He]; try done; subst; [done|done|].
  repeat case_if; simpl; first
    [exact Hen'|split; [done|]; first [done|by rewrite (proj2 (Z.eqb_neq _ 0)) by done]].
Qed.

End Exec.

(** Every access is of one of these kinds. *)
Lemma exec_ok n t o free ch o' t' e :
  proc_ok n (t_proc t) -> inu 64 o -> thread_ok t -> my_word t o ->
  exec t o free ch = Some (o', t', e) -> exec_post t o free o' t' e.
Proof.
  intros Hp Ho Hok Hmy Hex. pose proof Hok as [Hpo Hq].
  assert (forall l, queued (t_pc t) = false -> waking t = false -> in_sched (t_pc t) = false ->
     in_sched l = false -> pc_ok l (t_held t) -> exec_post t o free o (goto t l) ENone) as Hquiet.
  { intros. apply exec_quiet; try done. by apply not_queued. }
  assert (forall o1 l m, queued (t_pc t) = false -> waking t = false -> in_sched (t_pc t) = false ->
     in_sched l = false -> pc_ok l m -> word_step (t_proc t) (t_held t) m o o1 ->
     (has o RWLOCK_WAIT = true -> has o1 RWLOCK_WAIT = true \/ waking (goto t l) = true) ->
     exec_post t o free o1 (goto_held t l m) ENone) as Hmove.
  { intros. apply exec_move; try done. by apply not_queued. }
  unfold exec in Hex. unfold waking in Hquiet, Hmove.
  destruct (t_pc t) as
    [c rv| |o0| | |o0|o0| |o0|o0|c flags|c flags o0|c flags o0|c flags o0 sls|c flags sls do_sleep
    |c flags sls|c flags sls|c flags o0|c flags|c|c w|c w|c w o0|c|] eqn:Hpc; simpl in Hpo;
    lazymatch type of Hpc with
    | _ = PSetup _ _ _ => idtac
    | _ => try (destruct ch as [c'| |err|]; try done); simplify_eq
    end.
  - case_if_in Hex; simplify_eq. apply Hquiet; try done; destruct c'; simpl in *; try done.
    all: zify_bool; try (by apply bool_decide_eq_true in Heqb).
    + split; [done|]. unfold entering. case_if_in H0; by apply bool_decide_eq_true in H0.
    + by apply bool_decide_eq_false in Heqb.
  - apply Hquiet; try done; unfold rw_enter_read_load; by case_if.
  - destruct Hpo as [Hm Hnw]. case_if_in Hex; simplify_eq; [|by apply Hquiet].
    apply Hmove; try done; [rewrite Hm; by constructor|]. intros. left. by rewrite has_add8.
  - case_if_in Hex; simplify_eq; [|by apply Hquiet]. apply Hmove; try done.
    rewrite Hpo, (RW_PROC_proc _ _ Hp). replace (t_proc t .| RWLOCK_WRLOCK) with (write_word (t_proc t) 0).
    + constructor.
    + destruct (proc_split _ _ Hp) as (q & Hq' & _). rewrite Hq'. pose proof (lor_split q 0 4 ltac:(lia) eq_refl) as Hl.
      by rewrite Z.add_0_r in Hl.
  - by apply Hquiet.
  - apply Hquiet; try done; unfold rw_exit_read_assert; rewrite (proj1 (my_shared _ _ Hmy Hpo)); by case_if.
  - destruct Hpo as [Hm Hnw]. case_if_in Hex; simplify_eq; [|by apply Hquiet].
    apply Hmove; try done; [rewrite Hm; by constructor|]. congruence.
  - by apply Hquiet.
  - apply Hquiet; try done; unfold rw_exit_write_assert; rewrite (proj1 (my_exclusive _ _ Hmy Hpo)); by case_if.
  - destruct Hpo as [Hm Hnw]. case_if_in Hex; simplify_eq; [|by apply Hquiet].
    apply Hmove; try done; [rewrite Hm; by constructor|]. congruence.
  - destruct (op_of flags) as [op|] eqn:Hop; simplify_eq.
    apply Hquiet; try done; [unfold rw_enter_load; by case_if|]. by eapply exec_enter_load.
  - apply Hquiet; try done; [unfold rw_enter_blocked; by repeat case_if|]. by eapply exec_blocked.
  - case_if_in Hex; [|done]. destruct (sleep_setup t c flags o0 ch) eqn:Hs; simplify_eq.
    by eapply exec_setup.
  - destruct (op_of flags) as [op|] eqn:Hop; simplify_eq. by eapply exec_cas_wait.
  - by apply exec_finish.
  - case_if_in Hex; simplify_eq. apply exec_same; try done.
    + split; [done|]. simpl. congruence.
    + unfold committed. simpl. by rewrite andb_false_r.
    + unfold waking. by rewrite Hpc.
    + by rewrite Hpc.
  - case_if_in Hex; simplify_eq. apply exec_same; try done.
    + unfold waking. by rewrite Hpc.
    + by rewrite Hpc.
  - apply Hquiet; try done; [unfold rw_enter_slept; by repeat case_if|]. by eapply exec_slept.
  - case_if_in Hex; simplify_eq.
    apply Hquiet; try done; [unfold rw_enter_slept; by repeat case_if|]. by eapply exec_slept.
  - destruct (op_of flags) as [op|] eqn:Hop; simplify_eq.
    case_if_in Hex; simplify_eq; [by eapply exec_take|]. apply Hquiet; try done. by destruct Hpo as (? & ? & _).
  - case_if_in Hex; simplify_eq. destruct Hpo as [He Hm]. constructor; simpl; try done.
    + split; simpl; [|by rewrite (not_queued _ Hok) by (by rewrite Hpc)].
      destruct c; destruct He as [Hfl He]; subst; try done.
    + apply ws_same.
    + by left.
    + unfold committed. simpl. by rewrite andb_false_r.
  - apply Hquiet; try done. simpl. split; [done|]. destruct (t_held t) eqn:Hm; [by destruct c|..].
    + by rewrite (proj2 (my_shared _ _ Hmy Hm)).
    + by rewrite (proj2 (my_exclusive _ _ Hmy Hm)).
  - destruct Hpo as [Hex' Hm]. apply Hquiet; try done; unfold rw_exit_assert; destruct w;
      rewrite ?(proj1 (my_exclusive _ _ Hmy Hm)), ?(proj1 (my_shared _ _ Hmy Hm)); done.
  - by apply Hquiet.
  - case_if_in Hex; simplify_eq; [by apply exec_release|by apply Hquiet].
  - case_if_in Hex; simplify_eq. constructor; simpl; try done.
    + split; simpl; [|by rewrite (not_queued _ Hok) by (by rewrite Hpc)].
      destruct Hpo as [[Hc Hm]|[Hc Hm]]; by destruct c.
    + apply ws_same.
    + by left.
    + unfold committed. simpl. by rewrite andb_false_r.
Qed.

(** ** The invariant of the system *)

Record inv (s : system) : Prop := {
  inv_procs : procs_ok (threads s);
  inv_word : word_ok (rwl_owner s) (threads s);
  inv_threads : Forall thread_ok (threads s);
  inv_sleep : forall t, t ∈ threads s -> committed t = true ->
    has (rwl_owner s) RWLOCK_WAIT = true \/ exists u, u ∈ threads s /\ waking u = true;
  inv_sched : forall j u, threads s !! j = Some u -> in_sched (t_pc u) = true ->
    sched_lock s = Some j
}.

Lemma procs_ok_insert l i t t' :
  procs_ok l -> l !! i = Some t -> t_proc t' = t_proc t -> procs_ok (<[i := t']> l).
Proof.
  intros [Ha Hn Hl] Hi Hpr. constructor; rewrite ?length_insert; [|rewrite list_fmap_insert|done].
  - apply Forall_insert; [done|]. rewrite Hpr. rewrite Forall_forall in Ha.
    by eapply Ha, list_elem_of_lookup_2.
  - rewrite list_insert_id; [done|]. by rewrite list_lookup_fmap, Hi, Hpr.
Qed.

Lemma t_proc_wakeup l : t_proc <$> wakeup l = t_proc <$> l.
Proof. unfold wakeup. rewrite <- list_fmap_compose. by apply list_fmap_ext. Qed.

Lemma procs_ok_wakeup l : procs_ok l -> procs_ok (wakeup l).
Proof.
  intros [Ha Hn Hl]. constructor; rewrite ?t_proc_wakeup; unfold wakeup; rewrite ?length_fmap; try done.
  by apply Forall_fmap.
Qed.

Lemma word_ok_wakeup o l : word_ok o l -> word_ok o (wakeup l).
Proof.
  intros (f & Hf & Hw). exists f. split; [done|]. rewrite !count_wakeup.
  destruct Hw as [?|(HX & HS & i & t & Hi & Ht & ->)]; [by left|right].
  split_and!; [done..|]. exists i, (dequeue t). unfold wakeup. by rewrite list_lookup_fmap, Hi.
Qed.

Lemma count_initial m procs : m <> Unheld -> count m (threads (initial procs)) = 0.
Proof.
  intros Hm. induction procs as [|p l IH]; [done|]. simpl in *. rewrite count_cons. unfold b2z. simpl.
  rewrite decide_False by done. rewrite Z.add_0_l. exact IH.
Qed.

Lemma inv_initial procs :
  Forall (proc_ok (length procs)) procs -> NoDup procs -> Z.of_nat (length procs) < 2 ^ 60 ->
  inv (initial procs).
Proof.
  intros Ha Hn Hl.
  assert (forall t, t ∈ threads (initial procs) -> exists p, t = Thread p (PRet Exit 0) false Unheld) as Hin.
  { intros t (p & -> & _)%list_elem_of_fmap. eauto. }
  constructor.
  - constructor; simpl; rewrite ?length_fmap; [by apply Forall_fmap| |done].
    rewrite <- list_fmap_compose. by rewrite list_fmap_id.
  - exists 0. split; [by left|]. left. by rewrite !count_initial.
  - apply Forall_forall. intros t Ht. by destruct (Hin t Ht) as [p ->].
  - intros t Ht. by destruct (Hin t Ht) as [p ->].
  - intros j u Hj%list_elem_of_lookup_2. by destruct (Hin u Hj) as [p ->].
Qed.

Section Step.

Variables (s : system) (i : nat) (t t' : thread) (o' : Z) (e : effect).
Hypotheses (Hinv : inv s) (Hi : threads s !! i = Some t)
  (Hpost : exec_post t (rwl_owner s) (bool_decide (sched_lock s = None)) o' t' e).

Let l' := <[i := t']> (threads s).

(** The sleepers stay covered by the wait bit or a pending wakeup. *)
Lemma step_sleep u :
  e <> EWakeup -> u ∈ l' -> committed u = true ->
  has o' RWLOCK_WAIT = true \/ exists v, v ∈ l' /\ waking v = true.
Proof.
  intros He Hu Hc. destruct Hinv as [_ _ _ Hsl _]. destruct Hpost as [_ _ _ Hwt Hcm Hwk _].
  pose proof (list_elem_of_lookup_2 _ _ _ Hi) as Hin.
  assert (t' ∈ l') as Hin'.
  { apply list_elem_of_lookup_2 with i. apply list_lookup_insert_eq. by eapply lookup_lt_Some. }
  assert (has o' RWLOCK_WAIT = true \/ exists w, w ∈ threads s /\ committed w = true) as [|(w & Hw & Hcw)];
    [|by left|].
  { apply list_elem_of_lookup in Hu as [j Hj]. unfold l' in Hj. destruct (decide (i = j)) as [<-|Hij].
    - rewrite list_lookup_insert_eq in Hj by by eapply lookup_lt_Some. simplify_eq.
      destruct (Hcm Hc); eauto.
    - rewrite list_lookup_insert_ne in Hj by done. right. exists u. eauto using list_elem_of_lookup_2. }
  destruct (Hsl w Hw Hcw) as [Hbit|(v & Hv & Hwv)].
  - destruct (Hwt Hbit); eauto.
  - right. exists v. split; [|done]. apply list_elem_of_lookup in Hv as [j Hj].
    apply list_elem_of_lookup_2 with j. unfold l'. rewrite list_lookup_insert_ne; [done|].
    intros ->. simplify_eq. auto.
Qed.

(** The scheduler lock has at most one holder. *)
Lemma step_sched j u :
  l' !! j = Some u -> in_sched (t_pc u) = true ->
  match e with ELock => Some i | EUnlock => None | _ => sched_lock s end = Some j.
Proof.
  intros Hj Hu. destruct Hinv as [_ _ _ _ Hsc]. destruct Hpost as [_ _ _ _ _ _ Hsd].
  unfold l' in Hj. destruct (decide (i = j)) as [<-|Hij].
  - rewrite list_lookup_insert_eq in Hj by by eapply lookup_lt_Some. simplify_eq.
    destruct e; [|done|destruct Hsd; congruence..]. eapply Hsc; [done|congruence].
  - rewrite list_lookup_insert_ne in Hj by done. pose proof (Hsc j u Hj Hu) as Hs.
    destruct e; [done| | |done].
    + destruct Hsd as [Hf%bool_decide_eq_true _]. congruence.
    + destruct Hsd as [Ht _]. pose proof (Hsc i t Hi Ht). congruence.
Qed.

End Step.

(** After [wakeup] nobody is on the queue. *)
Lemma wakeup_committed l t : t ∈ wakeup l -> committed t = false /\ t_wchan t = false.
Proof. by intros (u & -> & _)%list_elem_of_fmap. Qed.

Lemma thread_ok_dequeue t : thread_ok t -> thread_ok (dequeue t).
Proof. intros [? ?]. by split. Qed.

Lemma inv_step s s' : inv s -> step s s' -> inv s'.
Proof.
  intros Hinv [i ch s1 Hstep]. pose proof Hinv as [Hpo Hw Hth _ _]. unfold sys_step in Hstep.
  destruct (threads s !! i) as [t|] eqn:Hi; [|done].
  destruct (exec t _ _ ch) as [[[o' t'] e]|] eqn:Hex; [|done]. simplify_eq.
  pose proof (list_elem_of_lookup_2 _ _ _ Hi) as Hin.
  assert (exec_post t (rwl_owner s) (bool_decide (sched_lock s = None)) o' t' e) as Hpost.
  { eapply exec_ok; [|by eapply word_ok_inu| |by eapply word_ok_mine|done].
    - destruct Hpo as [Ha _ _]. rewrite Forall_forall in Ha. by eapply Ha.
    - rewrite Forall_forall in Hth. by eapply Hth. }
  pose proof Hpost as [Hpr Hok Hst _ _ _ _].
  pose proof (procs_ok_insert _ i t t' Hpo Hi Hpr) as Hpo'.
  pose proof (word_step_ok _ _ _ i t t' Hw Hpo Hi Hpr Hst) as Hw'.
  assert (Forall thread_ok (<[i:=t']> (threads s))) as Hth' by by apply Forall_insert.
  pose proof (step_sleep s i t t' o' e Hinv Hi Hpost) as Hsl'.
  pose proof (step_sched s i t t' o' e Hinv Hi Hpost) as Hsc'.
  destruct e; constructor; simpl; eauto using procs_ok_wakeup, word_ok_wakeup.
  - apply Forall_fmap. eapply Forall_impl; [done|]. apply thread_ok_dequeue.
  - intros u [Hc _]%wakeup_committed. congruence.
  - intros j u Hj Hu. unfold wakeup in Hj. rewrite list_lookup_fmap_Some in Hj.
    destruct Hj as (v & -> & Hv). by eapply Hsc'.
Qed.

Lemma inv_reachable s s' : inv s -> rtc step s s' -> inv s'.
Proof. intros Hinv Hr. induction Hr; eauto using inv_step. Qed.

Lemma run_steps l s s' : run l s = Some s' -> rtc step s s'.
Proof.
  revert s. induction l as [|[i ch] l IH]; intros s; simpl; [intros; by simplify_eq|].
  destruct (sys_step i ch s) as [s1|] eqn:E; [|done]. intros. eapply rtc_l; [|by eauto]. by econstructor.
Qed.

(** The addresses of the threads of a system. *)
Definition valid_procs (procs : list Z) : Prop :=
  Forall (proc_ok (length procs)) procs /\ NoDup procs /\ Z.of_nat (length procs) < 2 ^ 60.

Lemma inv_valid procs s : valid_procs procs -> rtc step (initial procs) s -> inv s.
Proof. intros (? & ? & ?) Hr. eapply inv_reachable; [|done]. by apply inv_initial. Qed.

(** ** Properties of the lock *)

(** The last call of the thread took the lock, for writing or for reading,
    and the thread has not called again. *)
Definition got_write (t : thread) : Prop :=
  t_pc t = PRet Enter_write 0 \/
  exists flags, t_pc t = PRet (Enter flags) 0 /\ flags .& RW_OPMASK = RW_WRITE.
Definition got_read (t : thread) : Prop :=
  t_pc t = PRet Enter_read 0 \/
  exists flags, t_pc t = PRet (Enter flags) 0 /\ flags .& RW_OPMASK <> RW_WRITE.

Lemma got_write_held t : thread_ok t -> got_write t -> t_held t = Exclusive.
Proof.
  intros [Hpc _] [Hg|(flags & Hg & Hf)]; rewrite Hg in Hpc; simpl in Hpc; [tauto|].
  destruct Hpc as [_ ->]. unfold mode_of. by rewrite Hf.
Qed.

Lemma got_read_held t : thread_ok t -> got_read t -> t_held t = Shared.
Proof.
  intros [Hpc _] [Hg|(flags & Hg & Hf)]; rewrite Hg in Hpc; simpl in Hpc; [tauto|].
  destruct Hpc as [_ ->]. unfold mode_of. apply Z.eqb_neq in Hf. by rewrite Hf.
Qed.

(** C7: whatever the interleaving, while one thread has the lock for
    writing no other thread has it, for writing or for reading. *)
Theorem rw_mutual_exclusion procs s i j t u :
  valid_procs procs -> rtc step (initial procs) s ->
  threads s !! i = Some t -> threads s !! j = Some u -> i <> j ->
  got_write t -> ~ got_write u /\ ~ got_read u.
Proof.
  intros Hv Hr Hi Hj Hij Ht. destruct (inv_valid _ _ Hv Hr) as [_ Hw Hth _ _].
  rewrite Forall_forall in Hth.
  pose proof (Hth t (list_elem_of_lookup_2 _ _ _ Hi)) as Htok.
  pose proof (Hth u (list_elem_of_lookup_2 _ _ _ Hj)) as Huok.
  pose proof (got_write_held t Htok Ht) as Hx.
  destruct (word_ok_exclusive _ _ _ _ Hw Hi Hx) as (f & _ & HX & HS & _). split.
  - intros Hu%got_write_held; [|done]. destruct Hij. by eapply (count_one Exclusive).
  - intros Hu%got_read_held; [|done].
    pose proof (count_pos Shared _ u (list_elem_of_lookup_2 _ _ _ Hj) Hu). lia.
Qed.

(** C8: a thread that sleeps on the lock is never forgotten: the wait bit is
    set and somebody owns the lock, who will see it when giving the lock back,
    or a [wakeup] is on its way. *)
Theorem rw_no_lost_wakeup procs s i t c flags sls :
  valid_procs procs -> rtc step (initial procs) s ->
  threads s !! i = Some t -> t_pc t = PSleep c flags sls -> t_wchan t = true ->
  has (rwl_owner s) RWLOCK_WAIT = true /\ RWLOCK_OWNER (rwl_owner s) <> 0 \/
  exists j u, threads s !! j = Some u /\ waking u = true.
Proof.
  intros Hv Hr Hi Hpc Hq. destruct (inv_valid _ _ Hv Hr) as [Hpo Hw _ Hsl _].
  assert (committed t = true) as Hc by (unfold committed; by rewrite Hpc, Hq).
  destruct (Hsl t (list_elem_of_lookup_2 _ _ _ Hi) Hc) as [Hbit|(u & Hu & Hwu)].
  - left. split; [done|]. change RWLOCK_OWNER with RW_PROC. destruct Hpo as [Hps _ _].
    destruct Hw as (f & Hf & [(_ & Ho & Hz)|(_ & _ & k & v & Hk & _ & Ho)]); rewrite Ho in *.
    + rewrite read_word_proc by done. rewrite read_word_has in Hbit by done.
      pose proof (count_nonneg Shared (threads s)). intros H0. rewrite Hz in Hbit by lia. done.
    + rewrite Forall_forall in Hps. pose proof (Hps v (list_elem_of_lookup_2 _ _ _ Hk)) as Hp.
      erewrite write_word_proc by done. destruct Hp. lia.
  - right. apply list_elem_of_lookup in Hu as [j Hj]. eauto.
Qed.

(** Threads that follow the contract never run into a panic of the lock
    code, nor [wakeup] into a queued thread that is not asleep. *)
Theorem rw_no_panic procs s i t :
  valid_procs procs -> rtc step (initial procs) s -> threads s !! i = Some t ->
  t_pc t <> PPanic /\
  (sched_lock s = None -> t_wchan t = true -> exists c flags sls, t_pc t = PSleep c flags sls).
Proof.
  intros Hv Hr Hi. destruct (inv_valid _ _ Hv Hr) as [_ _ Hth _ Hsc].
  rewrite Forall_forall in Hth.
  destruct (Hth t (list_elem_of_lookup_2 _ _ _ Hi)) as [Hpc Hq]. split.
  - intros H. by rewrite H in Hpc.
  - intros Hs Hw. specialize (Hq Hw). specialize (Hsc i t Hi). rewrite Hs in Hsc.
    destruct (t_pc t); try done; [..|eauto]; by specialize (Hsc eq_refl).
Qed.

(** The word counts the owners: without its flag bits it is the address
    of the writer, or eight times the number of readers. *)
Theorem rw_word_counts procs s :
  valid_procs procs -> rtc step (initial procs) s ->
  RWLOCK_OWNER (rwl_owner s) =
    match list_find (fun t => t_held t = Exclusive) (threads s) with
    | Some (_, t) => t_proc t
    | None => RWLOCK_READ_INCR * count Shared (threads s)
    end.
Proof.
  intros Hv Hr. destruct (inv_valid _ _ Hv Hr) as [Hpo Hw _ _ _].
  change RWLOCK_OWNER with RW_PROC.
  destruct (list_find _ _) as [[i t]|] eqn:Hfind.
  - apply list_find_Some in Hfind as (Hi & Ht & _).
    destruct (word_ok_exclusive _ _ _ _ Hw Hi Ht) as (f & Hf & _ & _ & ->).
    destruct Hpo as [Hps _ _]. rewrite Forall_forall in Hps.
    pose proof (Hps t (list_elem_of_lookup_2 _ _ _ Hi)) as Hp. by eapply write_word_proc.
  - apply list_find_None in Hfind. destruct Hw as (f & Hf & [(_ & -> & _)|(_ & _ & k & v & Hk & Hx & _)]).
    + by rewrite read_word_proc.
    + rewrite Forall_forall in Hfind. destruct (Hfind v); eauto using list_elem_of_lookup_2.
Qed.

(** ** Recursive locks

    A recursive lock is modelled as its calls run one after the other: each
    call of [rw_enter] or [rw_exit] inside runs alone, up to its return or to
    the point where the thread sleeps. *)

Record rrwlock := Rrwlock { rrwl_lock : Z; rrwl_wcnt : Z }.

Definition rrw_init : rrwlock := Rrwlock rw_init 0.

(** The accesses of one thread, as long as it can go on. *)
Fixpoint alone (fuel : nat) (t : thread) (owner : Z) : pc * Z :=
  match fuel with
  | O => (t_pc t, owner)
  | S fuel =>
    match exec t owner true Go with
    | Some (owner', t', _) => alone fuel t' owner'
    | None => (t_pc t, owner)
    end
  end.

Inductive rrw_res :=
| RRet (rv : Z) (l : rrwlock)
| RStop (at_ : pc) (l : rrwlock).

Definition rrw_enter (rrwl : rrwlock) (curproc flags : Z) : rrw_res :=
  if RWLOCK_OWNER (rrwl_lock rrwl) =? RW_PROC curproc then
    if has flags RW_RECURSEFAIL then RRet EDEADLK rrwl
    else RRet 0 (Rrwlock (rrwl_lock rrwl) (u32 (rrwl_wcnt rrwl + 1)))
  else
    match alone 8 (Thread curproc (PEnter (Enter flags) flags) false Unheld) (rrwl_lock rrwl) with
    | (PRet _ rv, o) => RRet rv (Rrwlock o (if rv =? 0 then 1 else rrwl_wcnt rrwl))
    | (l, o) => RStop l (Rrwlock o (rrwl_wcnt rrwl))
    end.

Definition rrw_exit (rrwl : rrwlock) (curproc : Z) : rrw_res :=
  let exit wcnt :=
    match alone 8 (Thread curproc (PExit Exit) false Exclusive) (rrwl_lock rrwl) with
    | (PRet _ _, o) => RRet 0 (Rrwlock o wcnt)
    | (l, o) => RStop l (Rrwlock o wcnt)
    end in
  if RWLOCK_OWNER (rrwl_lock rrwl) =? RW_PROC curproc then
    if rrwl_wcnt rrwl <=? 0 then RStop PPanic rrwl
    else
      let wcnt := u32 (rrwl_wcnt rrwl - 1) in
      if negb (wcnt =? 0) then RRet 0 (Rrwlock (rrwl_lock rrwl) wcnt) else exit wcnt
  else exit (rrwl_wcnt rrwl).

Definition rrw_status (rrwl : rrwlock) (curproc : Z) : Z := rw_status (rrwl_lock rrwl) curproc.

Fixpoint repeat_res (n : nat) (f : rrwlock -> rrw_res) (l : rrwlock) : rrw_res :=
  match n with
  | O => RRet 0 l
  | S n => match f l with RRet 0 l' => repeat_res n f l' | r => r end
  end.

Section Rrw.

Variables (n : nat) (p : Z).
Hypothesis Hp : proc_ok n p.

Lemma held_owner f : wait_bits f -> (RWLOCK_OWNER (write_word p f) =? RW_PROC p) = true.
Proof.
  intros Hf. change RWLOCK_OWNER with RW_PROC.
  rewrite (write_word_proc n p f Hp Hf), (RW_PROC_proc n p Hp). apply Z.eqb_refl.
Qed.

Lemma rrw_enter_first : rrw_enter rrw_init p RW_WRITE = RRet 0 (Rrwlock (write_word p 0) 1).
Proof.
  unfold rrw_enter. change (RWLOCK_OWNER (rrwl_lock rrw_init)) with 0.
  rewrite (RW_PROC_proc n p Hp). destruct Hp as [? ?].
  rewrite (proj2 (Z.eqb_neq 0 p)) by lia. simpl.
  unfold op_increment, write_word, rw_init. simpl. rewrite (RW_PROC_proc n p Hp), Z.mul_1_r.
  change RWLOCK_WRLOCK with 4. rewrite (wrapu_small 64 (4 + p)) by (unfold inu; lia).
  rewrite wrapu_small by (unfold inu; lia). do 2 f_equal. lia.
Qed.

Lemma rrw_enter_again k :
  1 <= k -> k + 1 < 2 ^ 32 ->
  rrw_enter (Rrwlock (write_word p 0) k) p RW_WRITE = RRet 0 (Rrwlock (write_word p 0) (k + 1)).
Proof.
  intros. unfold rrw_enter. simpl. rewrite held_owner by by left.
  change (has RW_WRITE RW_RECURSEFAIL) with false. by rewrite wrapu_small by (unfold inu; lia).
Qed.

Lemma rrw_exit_inner k :
  2 <= k < 2 ^ 32 ->
  rrw_exit (Rrwlock (write_word p 0) k) p = RRet 0 (Rrwlock (write_word p 0) (k - 1)).
Proof.
  intros. unfold rrw_exit. simpl. rewrite held_owner by by left.
  rewrite wrapu_small by (unfold inu; lia). rewrite (proj2 (Z.leb_gt _ _)) by lia.
  by rewrite (proj2 (Z.eqb_neq _ _)) by lia.
Qed.

Lemma rrw_exit_last : rrw_exit (Rrwlock (write_word p 0) 1) p = RRet 0 rrw_init.
Proof.
  unfold rrw_exit. simpl. rewrite held_owner by by left. change (u32 (1 - 1)) with 0. simpl.
  rewrite (write_word_has n p 0 Hp (or_introl eq_refl) RWLOCK_WRLOCK eq_refl). simpl.
  unfold rw_exit_assert, rw_assert_wrlock. rewrite held_owner by by left.
  rewrite (write_word_has n p 0 Hp (or_introl eq_refl) RWLOCK_WRLOCK eq_refl). simpl.
  unfold exec at 1. simpl. rewrite Z.eqb_refl. unfold rw_exit_done.
  rewrite (write_word_has n p 0 Hp (or_introl eq_refl) RWLOCK_WAIT eq_refl). done.
Qed.

Lemma rrw_enter_many k j :
  1 <= j -> j + Z.of_nat k < 2 ^ 32 ->
  repeat_res k (fun l => rrw_enter l p RW_WRITE) (Rrwlock (write_word p 0) j) =
    RRet 0 (Rrwlock (write_word p 0) (j + Z.of_nat k)).
Proof.
  revert j. induction k as [|k IH]; intros j Hj Hk; [simpl; by rewrite Z.add_0_r|].
  simpl. rewrite rrw_enter_again by lia. rewrite IH by lia. do 2 f_equal. lia.
Qed.

Lemma rrw_exit_many k j :
  Z.of_nat k < j < 2 ^ 32 ->
  repeat_res k (fun l => rrw_exit l p) (Rrwlock (write_word p 0) j) =
    RRet 0 (Rrwlock (write_word p 0) (j - Z.of_nat k)).
Proof.
  revert j. induction k as [|k IH]; intros j Hk; [simpl; by rewrite Z.sub_0_r|].
  simpl. rewrite rrw_exit_inner by lia. rewrite IH by lia. do 2 f_equal. lia.
Qed.

(** Another thread finds the lock taken. *)
Lemma rrw_enter_other q k :
  proc_ok n q -> q <> p ->
  rrw_enter (Rrwlock (write_word p 0) k) q (RW_WRITE .| RW_NOSLEEP) =
    RRet EBUSY (Rrwlock (write_word p 0) k).
Proof.
  intros Hq Hne. unfold rrw_enter. simpl. change RWLOCK_OWNER with RW_PROC.
  rewrite (write_word_proc n p 0 Hp (or_introl eq_refl)), (RW_PROC_proc n q Hq).
  rewrite (proj2 (Z.eqb_neq p q)) by done.
  assert (has (write_word p 0) ULONG_MAX = true) as Hh.
  { destruct (has (write_word p 0) ULONG_MAX) eqn:E; [done|].
    apply check_write in E; destruct Hp; unfold inu, write_word in *; lia. }
  unfold rw_enter_load, rw_enter_blocked, rw_enter_diag. simpl. rewrite Hh. simpl.
  unfold rw_enter_blocked, rw_enter_diag. simpl.
  rewrite (write_word_proc n p 0 Hp (or_introl eq_refl)), (RW_PROC_proc n q Hq).
  by rewrite (proj2 (Z.eqb_neq q p)) by done.
Qed.

End Rrw.

(** A recursive lock is free again exactly after as many exits as it
    was entered: [k + 1] entries and [k] exits leave it locked (another
    thread gets [EBUSY]), one more exit leaves it as initialised. *)
Theorem rrw_recursion n p q k :
  proc_ok n p -> proc_ok n q -> q <> p -> Z.of_nat k + 1 < 2 ^ 32 ->
  exists locked,
    repeat_res (S k) (fun l => rrw_enter l p RW_WRITE) rrw_init = RRet 0 locked /\
    rrwl_wcnt locked = Z.of_nat k + 1 /\
    exists inner, repeat_res k (fun l => rrw_exit l p) locked = RRet 0 inner /\
      rrw_enter inner q (RW_WRITE .| RW_NOSLEEP) = RRet EBUSY inner /\
      rrw_exit inner p = RRet 0 rrw_init.
Proof.
  intros Hp Hq Hne Hk. exists (Rrwlock (write_word p 0) (1 + Z.of_nat k)). split_and!.
  - simpl. rewrite (rrw_enter_first n p Hp). apply (rrw_enter_many n p Hp); lia.
  - simpl. lia.
  - exists (Rrwlock (write_word p 0) 1). split_and!.
    + rewrite (rrw_exit_many n p Hp) by lia. do 2 f_equal. lia.
    + by apply (rrw_enter_other n).
    + by apply (rrw_exit_last n).
Qed.

(** ** Witnesses and examples *)

Definition procs_demo : list Z :=
  [0xffff800000001000; 0xffff800000002000; 0xffff800000003008].

Lemma procs_demo_ok : valid_procs procs_demo.
Proof.
  split_and!; [|by apply (bool_decide_unpack _); vm_compute|simpl; lia].
  repeat constructor; unfold proc_ok; simpl; lia.
Qed.

(** Thread 0 takes the lock for writing, thread 1 goes to sleep on it, and
    thread 0 gives it back with a [wakeup]. *)
Definition sched_demo : list (nat * choice) :=
  [ (0%nat, Call Enter_write); (0%nat, Go); (1%nat, Call (Enter RW_READ)); (1%nat, Go); (1%nat, Go);
    (1%nat, Go); (1%nat, Go); (1%nat, Go) ].
Definition sched_exit : list (nat * choice) :=
  [ (0%nat, Call Exit_write); (0%nat, Go); (0%nat, Go); (0%nat, Go); (0%nat, Go);
    (0%nat, Go); (0%nat, Go); (0%nat, Go) ].

Definition state_demo : system := default (initial procs_demo) (run sched_demo (initial procs_demo)).

Lemma state_demo_reachable : rtc step (initial procs_demo) state_demo.
Proof. apply (run_steps sched_demo). vm_compute. reflexivity. Qed.

Definition thread_demo (i : nat) : thread :=
  default (Thread 0 PPanic false Unheld) (threads state_demo !! i).

Lemma rw_mutual_exclusion_witness :
  ~ got_write (thread_demo 1) /\ ~ got_read (thread_demo 1).
Proof.
  apply (rw_mutual_exclusion procs_demo state_demo 0 1 (thread_demo 0) (thread_demo 1)).
  - exact procs_demo_ok.
  - exact state_demo_reachable.
  - vm_compute. reflexivity.
  - vm_compute. reflexivity.
  - discriminate.
  - left. vm_compute. reflexivity.
Defined.

Lemma rw_no_lost_wakeup_witness :
  has (rwl_owner state_demo) RWLOCK_WAIT = true /\ RWLOCK_OWNER (rwl_owner state_demo) <> 0 \/
  exists j u, threads state_demo !! j = Some u /\ waking u = true.
Proof.
  apply (rw_no_lost_wakeup procs_demo state_demo 1 (thread_demo 1)
           (Enter RW_READ) RW_READ (Sls false true)).
  - exact procs_demo_ok.
  - exact state_demo_reachable.
  - vm_compute. reflexivity.
  - vm_compute. reflexivity.
  - vm_compute. reflexivity.
Defined.

Lemma rw_no_panic_witness :
  t_pc (thread_demo 1) <> PPanic /\
  (sched_lock state_demo = None -> t_wchan (thread_demo 1) = true ->
   exists c flags sls, t_pc (thread_demo 1) = PSleep c flags sls).
Proof.
  apply (rw_no_panic procs_demo state_demo 1).
  - exact procs_demo_ok.
  - exact state_demo_reachable.
  - vm_compute. reflexivity.
Defined.

Lemma rw_word_counts_witness :
  RWLOCK_OWNER (rwl_owner state_demo) =
    match list_find (fun t => t_held t = Exclusive) (threads state_demo) with
    | Some (_, t) => t_proc t
    | None => RWLOCK_READ_INCR * count Shared (threads state_demo)
    end.
Proof.
  apply (rw_word_counts procs_demo state_demo procs_demo_ok state_demo_reachable).
Defined.

Lemma rrw_recursion_witness :
  exists locked,
    repeat_res 3 (fun l => rrw_enter l 0xffff800000001000 RW_WRITE) rrw_init = RRet 0 locked /\
    rrwl_wcnt locked = Z.of_nat 2 + 1 /\
    exists inner, repeat_res 2 (fun l => rrw_exit l 0xffff800000001000) locked = RRet 0 inner /\
      rrw_enter inner 0xffff800000002000 (RW_WRITE .| RW_NOSLEEP) = RRet EBUSY inner /\
      rrw_exit inner 0xffff800000001000 = RRet 0 rrw_init.
Proof.
  apply (rrw_recursion 2 0xffff800000001000 0xffff800000002000 2);
    [split; [reflexivity|lia]|split; [reflexivity|lia]|discriminate|lia].
Defined.

(** The exit of thread 0 lets the sleeping reader in. *)
Example wakeup_reader :
  match run (sched_exit ++ [(1%nat, Go); (1%nat, Go); (1%nat, Go); (1%nat, Go)]) state_demo with
  | Some s => t_pc <$> threads s !! 1%nat = Some (PRet (Enter RW_READ) 0)
  | None => False
  end.
Proof. vm_compute. reflexivity. Qed.

(** A reader enters although a writer is waiting: [RWLOCK_WRWANT] is not
    checked, contrary to the comment over [rw_ops]. *)
Example reader_passes_waiting_writer :
  let s := run [ (0%nat, Call Enter_read); (0%nat, Go); (0%nat, Go);
                 (1%nat, Call (Enter RW_WRITE)); (1%nat, Go); (1%nat, Go); (1%nat, Go); (1%nat, Go); (1%nat, Go);
                 (2%nat, Call Enter_read); (2%nat, Go); (2%nat, Go) ] (initial procs_demo) in
  match s with
  | Some s => has (rwl_owner s) RWLOCK_WRWANT = true /\
      t_pc <$> threads s = [PRet Enter_read 0; PSleep (Enter RW_WRITE) RW_WRITE (Sls false true);
                            PRet Enter_read 0]
  | None => False
  end.
Proof. vm_compute. split; reflexivity. Qed.

(** The checks of [rw_enter_diag] for [RW_DOWNGRADE] are never made: the
    operation has no bits to wait for, so that the loop around them is not
    entered, and a thread that downgrades a free lock gets 0 and leaves a
    word that is not free and names no thread. *)
Example downgrade_unchecked :
  alone 8 (Thread 0xffff800000001000 (PEnter (Enter RW_DOWNGRADE) RW_DOWNGRADE) false Unheld) 0 =
    (PRet (Enter RW_DOWNGRADE) 0, 2 ^ 64 + 4 - 0xffff800000001000).
Proof. vm_compute. reflexivity. Qed.
