(* ===== verification/Timeout.v ===== *)
(** * Timeouts (kern/kern_timeout.c)

    A [struct timeout] is kept in one of 1024 buckets (four wheels of 256) or
    on the worklist [timeout_todo].  The structures are the values of a finite
    map from their addresses; a circular queue is the list of the addresses on
    it, in order, so that an element is inserted at the end of the list and
    removed from whichever list holds it.  The global [ticks] and the times
    are C [int]s, whose arithmetic wraps.

    Every function runs under [timeout_mutex]; [softclock] releases it around
    the call of a handler.  Its loop is therefore a sequence of turns
    ([softclock_turn]) between which other operations can come. *)

From S2P Require Import Prelude.

(** ** Data *)

Definition TIMEOUT_ONQUEUE : Z := 2.
Definition TIMEOUT_INITIALIZED : Z := 4.
Definition TIMEOUT_TRIGGERED : Z := 8.

Record timeout := Timeout { to_func : Z; to_arg : Z; to_time : Z; to_flags : Z }.

Definition BUCKETS : nat := 1024.
Definition WHEELSIZE : Z := 256.
Definition WHEELMASK : Z := 255.
Definition WHEELBITS : Z := 8.
Definition INT_MAX : Z := 2 ^ 31 - 1.

Definition MASKWHEEL (wheel time : Z) : Z := Z.shiftr time (wheel * WHEELBITS) .& WHEELMASK.

(** Index of the bucket for a timeout due in [rel] ticks, at [abs]. *)
Definition BUCKET (rel abs : Z) : Z :=
  if rel <=? Z.shiftl 1 (2 * WHEELBITS) then
    if rel <=? Z.shiftl 1 WHEELBITS then MASKWHEEL 0 abs else MASKWHEEL 1 abs + WHEELSIZE
  else if rel <=? Z.shiftl 1 (3 * WHEELBITS) then MASKWHEEL 2 abs + 2 * WHEELSIZE
  else MASKWHEEL 3 abs + 3 * WHEELSIZE.

(** The state: [ticks], the queues, and the timeout structures. *)
Record state := State {
  ticks : Z;
  timeout_wheel : list (list nat);
  timeout_todo : list nat;
  timeouts : gmap nat timeout
}.

(** ** Queues *)

Definition CIRCQ_INSERT (to : nat) (q : list nat) : list nat := q ++ [to].

(** [CIRCQ_REMOVE]: the element leaves the queue it is on. *)
Definition CIRCQ_REMOVE (to : nat) (s : state) : state :=
  State (ticks s) ((filter (fun x => x <> to)) <$> timeout_wheel s)
    (filter (fun x => x <> to) (timeout_todo s)) (timeouts s).

Definition insert_todo (to : nat) (s : state) : state :=
  State (ticks s) (timeout_wheel s) (CIRCQ_INSERT to (timeout_todo s)) (timeouts s).

Definition insert_bucket (to : nat) (b : Z) (s : state) : state :=
  let q := default [] (timeout_wheel s !! Z.to_nat b) in
  State (ticks s) (<[Z.to_nat b := CIRCQ_INSERT to q]> (timeout_wheel s)) (timeout_todo s)
    (timeouts s).

Definition set_timeout (to : nat) (t : timeout) (s : state) : state :=
  State (ticks s) (timeout_wheel s) (timeout_todo s) (<[to := t]> (timeouts s)).

Definition MOVEBUCKET (wheel time : Z) (s : state) : state :=
  let b := Z.to_nat (MASKWHEEL wheel time + wheel * WHEELSIZE) in
  State (ticks s) (<[b := []]> (timeout_wheel s))
    (timeout_todo s ++ default [] (timeout_wheel s !! b)) (timeouts s).

(** ** Operations *)

(** [timeout_startup]; the structures are those of the rest of the kernel. *)
Definition timeout_startup (s : state) : state :=
  State (ticks s) (replicate BUCKETS []) [] (timeouts s).

(** [timeout_set]; the other fields of the structure stay as they were. *)
Definition timeout_set (new : nat) (fn arg : Z) (s : state) : state :=
  let time := match timeouts s !! new with Some t => to_time t | None => 0 end in
  set_timeout new (Timeout fn arg time TIMEOUT_INITIALIZED) s.

Definition with_flags (t : timeout) (f : Z) : timeout :=
  Timeout (to_func t) (to_arg t) (to_time t) f.

(** [timeout_add]; a structure that does not exist is not initialized. *)
Definition timeout_add (new : nat) (to_ticks : Z) (s : state) : outcome (Z * state) :=
  match timeouts s !! new with
  | None => Panic
  | Some t =>
    if negb (has (to_flags t) TIMEOUT_INITIALIZED) then Panic
    else if to_ticks <? 0 then Panic
    else
      let old_time := to_time t in
      let t1 := Timeout (to_func t) (to_arg t) (s32 (to_ticks + ticks s))
                  (clear (to_flags t) TIMEOUT_TRIGGERED) in
      if has (to_flags t1) TIMEOUT_ONQUEUE then
        let s1 := set_timeout new t1 s in
        if s32 (to_time t1 - ticks s) <? s32 (old_time - ticks s)
        then Ok (0, insert_todo new (CIRCQ_REMOVE new s1))
        else Ok (0, s1)
      else
        Ok (1, insert_todo new (set_timeout new (with_flags t1 (to_flags t1 .| TIMEOUT_ONQUEUE)) s))
  end.

(** The conversions; [hz] and [tick] are the kernel's variables.  [quot] is
    the division of C; the sum is a [long long]. *)
Definition clamp (sum : Z) : Z :=
  let to_ticks := wraps 64 sum in
  if INT_MAX <? to_ticks then INT_MAX else s32 to_ticks.

Definition ticks_tv (hz tick sec usec : Z) : Z := clamp (hz * sec + Z.quot usec tick).
Definition ticks_ts (hz tick sec nsec : Z) : Z := clamp (hz * sec + Z.quot nsec (tick * 1000)).
Definition ticks_bt (hz tick sec frac : Z) : Z :=
  clamp (hz * sec + Z.quot (Z.shiftr (1000000 * u32 (Z.shiftr frac 32)) 32) tick).
Definition ticks_sec (hz secs : Z) : Z := clamp (hz * secs).
Definition ticks_msec (tick msecs : Z) : Z := clamp (Z.quot (msecs * 1000) tick).
Definition ticks_usec (tick usecs : Z) : Z := Z.quot usecs tick.
Definition ticks_nsec (tick nsecs : Z) : Z := Z.quot nsecs (tick * 1000).

Definition timeout_add_tv (hz tick : Z) (to : nat) (sec usec : Z) (s : state) :=
  timeout_add to (ticks_tv hz tick sec usec) s.
Definition timeout_add_ts (hz tick : Z) (to : nat) (sec nsec : Z) (s : state) :=
  timeout_add to (ticks_ts hz tick sec nsec) s.
Definition timeout_add_bt (hz tick : Z) (to : nat) (sec frac : Z) (s : state) :=
  timeout_add to (ticks_bt hz tick sec frac) s.
Definition timeout_add_sec (hz : Z) (to : nat) (secs : Z) (s : state) :=
  timeout_add to (ticks_sec hz secs) s.
Definition timeout_add_msec (tick : Z) (to : nat) (msecs : Z) (s : state) :=
  timeout_add to (ticks_msec tick msecs) s.
Definition timeout_add_usec (tick : Z) (to : nat) (usecs : Z) (s : state) :=
  timeout_add to (ticks_usec tick usecs) s.
Definition timeout_add_nsec (tick : Z) (to : nat) (nsecs : Z) (s : state) :=
  timeout_add to (ticks_nsec tick nsecs) s.

Definition timeout_del (to : nat) (s : state) : Z * state :=
  match timeouts s !! to with
  | None => (0, s)
  | Some t =>
    if has (to_flags t) TIMEOUT_ONQUEUE then
      (1, set_timeout to
            (with_flags t (clear (clear (to_flags t) TIMEOUT_ONQUEUE) TIMEOUT_TRIGGERED))
            (CIRCQ_REMOVE to s))
    else (0, set_timeout to (with_flags t (clear (to_flags t) TIMEOUT_TRIGGERED)) s)
  end.

(** [timeout_hardclock_update]: the result tells if [softclock] must run. *)
Definition timeout_hardclock_update (s : state) : bool * state :=
  let s := State (s32 (ticks s + 1)) (timeout_wheel s) (timeout_todo s) (timeouts s) in
  let s := MOVEBUCKET 0 (ticks s) s in
  let s :=
    if MASKWHEEL 0 (ticks s) =? 0 then
      let s := MOVEBUCKET 1 (ticks s) s in
      if MASKWHEEL 1 (ticks s) =? 0 then
        let s := MOVEBUCKET 2 (ticks s) s in
        if MASKWHEEL 2 (ticks s) =? 0 then MOVEBUCKET 3 (ticks s) s else s
      else s
    else s in
  (negb (bool_decide (timeout_todo s = [])), s).

(** One turn of the loop of [softclock]: [None] when the worklist is empty,
    else the new state and the timeout whose handler is now called, if any. *)
Definition softclock_turn (s : state) : option (state * option nat) :=
  match timeout_todo s with
  | [] => None
  | to :: _ =>
    let s := CIRCQ_REMOVE to s in
    match timeouts s !! to with
    | None => None
    | Some t =>
      let rel := s32 (to_time t - ticks s) in
      if 0 <? rel then Some (insert_bucket to (BUCKET rel (to_time t)) s, None)
      else
        Some (set_timeout to
                (with_flags t (clear (to_flags t) TIMEOUT_ONQUEUE .| TIMEOUT_TRIGGERED)) s,
              Some to)
    end
  end.

(** [softclock] with handlers that leave the timeouts alone; the list of the
    timeouts run.  One turn per element of the worklist is enough. *)
Fixpoint softclock_loop (fuel : nat) (s : state) : list nat * state :=
  match fuel with
  | O => ([], s)
  | S fuel =>
    match softclock_turn s with
    | None => ([], s)
    | Some (s, fired) =>
      let '(l, s) := softclock_loop fuel s in
      (match fired with Some to => to :: l | None => l end, s)
    end
  end.

Definition softclock (s : state) : list nat * state :=
  softclock_loop (length (timeout_todo s)) s.

(** [timeout_adjust_ticks]: the timeouts of the wheels, in order, with the
    times that lie before the new time moved up to it. *)
Definition adjust_one (now adj new_ticks : Z) (to : nat) (m : gmap nat timeout) : gmap nat timeout :=
  alter (fun t => if s32 (to_time t - now) <? adj
                  then Timeout (to_func t) (to_arg t) new_ticks (to_flags t) else t) to m.

Definition timeout_adjust_ticks (adj : Z) (s : state) : state :=
  if adj <=? 0 then s
  else
    let new_ticks := s32 (ticks s + adj) in
    let moved := concat (timeout_wheel s) in
    State new_ticks ((fun _ => []) <$> timeout_wheel s) (timeout_todo s ++ moved)
      (foldl (fun m to => adjust_one (ticks s) adj new_ticks to m) (timeouts s) moved).

(** ** Arithmetic of the wheels *)

#[local] Ltac Zify.zify_post_hook ::= Z.div_mod_to_equations.

Lemma s32_shift x : exists q, s32 x = x + q * 2 ^ 32.
Proof.
  exists (- ((x + 2 ^ 31) / 2 ^ 32)). unfold wraps.
  pose proof (Z_div_mod_eq_full (x + 2 ^ 31) (2 ^ 32)). change (32 - 1) with 31. lia.
Qed.

Lemma s32_eq x y : (exists q, x = y + q * 2 ^ 32) -> s32 x = s32 y.
Proof.
  intros [q ->]. unfold wraps. f_equal. rewrite <- Z.add_assoc, (Z.add_comm (q * _)), Z.add_assoc.
  apply Z_mod_plus_full.
Qed.

(** A difference of two times, taken with wrapping, is the true one. *)
Lemma s32_diff x y : - 2 ^ 31 <= x - y < 2 ^ 31 -> s32 (s32 x - s32 y) = x - y.
Proof.
  intros H. rewrite <- (wraps_small 32 (x - y)) by lia.
  destruct (s32_shift x) as [q ->], (s32_shift y) as [r ->]. apply s32_eq. exists (q - r). lia.
Qed.

Lemma s32_add x y : s32 (x + s32 y) = s32 (x + y).
Proof. destruct (s32_shift y) as [q ->]. apply s32_eq. exists q. lia. Qed.

(** The distance between two moves of a bucket of wheel [k]. *)
Definition period (k : Z) : Z := 2 ^ (8 * k).

Lemma MASKWHEEL_spec k x : 0 <= k <= 3 -> MASKWHEEL k (s32 x) = (x / period k) mod 256.
Proof.
  intros Hk. unfold MASKWHEEL, WHEELBITS, WHEELMASK, period. change 255 with (Z.ones 8).
  rewrite Z.land_ones, Z.shiftr_div_pow2 by lia. change (2 ^ 8) with 256.
  destruct (s32_shift x) as [q ->]. rewrite (Z.mul_comm k).
  replace (2 ^ 32) with (2 ^ (32 - 8 * k) * 2 ^ (8 * k)).
  2: { rewrite <- Z.pow_add_r by lia. f_equal. lia. }
  rewrite Z.mul_assoc, Z_div_plus_full by (apply Z.pow_nonzero; lia).
  replace (2 ^ (32 - 8 * k)) with (2 ^ (24 - 8 * k) * 256).
  2: { change 256 with (2 ^ 8). rewrite <- Z.pow_add_r by lia. f_equal. lia. }
  rewrite Z.mul_assoc. apply Z_mod_plus_full.
Qed.

(** The next tick after [now] at which bucket [j] of wheel [k] is moved. *)
Definition next_move (k j now : Z) : Z :=
  now + 1 + (j * period k - now - 1) mod (256 * period k).

(** Bucket [j] of wheel [k] is moved at time [time]. *)
Definition moved (k j time : Z) : Prop :=
  time mod period k = 0 /\ (time / period k) mod 256 = j.

Lemma period_pos k : 0 <= k -> 0 < period k.
Proof. intros. apply Z.pow_pos_nonneg; lia. Qed.

Lemma moved_mod k j time :
  0 <= k -> 0 <= j < 256 -> moved k j time <-> (j * period k - time) mod (256 * period k) = 0.
Proof.
  intros Hk Hj. unfold moved. pose proof (period_pos k Hk) as Hp. set (P := period k) in *. clearbody P.
  pose proof (Z_div_mod_eq_full time P) as Ht. pose proof (Z.mod_pos_bound time P Hp).
  set (q := time / P) in *. set (r := time mod P) in *. clearbody q r.
  pose proof (Z_div_mod_eq_full q 256) as Hq. pose proof (Z.mod_pos_bound q 256 ltac:(lia)).
  set (q' := q / 256) in *. set (r' := q mod 256) in *. clearbody q' r'. split.
  - intros [-> ->]. rewrite Ht, Hq.
    replace (j * P - (P * (256 * q' + j) + 0)) with ((- q') * (256 * P)) by lia. apply Z_mod_mult.
  - intros Hm. apply Z.mod_divide in Hm as [z Hz]; [|lia]. rewrite Ht, Hq in Hz.
    assert (r = 0) as ->.
    { assert (r = P * (j - 256 * q' - r' - 256 * z)) by lia.
      destruct (decide (j - 256 * q' - r' - 256 * z = 0)) as [E|E]; nia. }
    split; [done|]. assert (P * (j - r') = P * (256 * (q' + z))) as Heq by lia.
    apply Z.mul_reg_l in Heq; lia.
Qed.

Section NextMove.

Variables (k j now : Z).
Hypotheses (Hk : 0 <= k) (Hj : 0 <= j < 256).

Lemma next_move_gt : now < next_move k j now.
Proof.
  unfold next_move. pose proof (period_pos k Hk).
  pose proof (Z.mod_pos_bound (j * period k - now - 1) (256 * period k)). lia.
Qed.

Lemma next_move_now : moved k j (now + 1) -> next_move k j now = now + 1.
Proof.
  intros Hm%moved_mod; [|done..]. unfold next_move. rewrite <- Z.sub_add_distr, Hm. lia.
Qed.

Lemma next_move_later : ~ moved k j (now + 1) -> next_move k j (now + 1) = next_move k j now.
Proof.
  intros Hm. unfold next_move. pose proof (period_pos k Hk) as Hp.
  rewrite moved_mod, Z.sub_add_distr in Hm by done. rewrite !Z.sub_add_distr.
  set (X := j * period k - now - 1) in *. set (M := 256 * period k) in *.
  assert (0 < M) as HM by (unfold M; lia). clearbody X M.
  pose proof (Z.mod_pos_bound X M HM). rewrite <- Zminus_mod_idemp_l.
  rewrite (Z.mod_small (X mod M - 1)) by lia. lia.
Qed.

Lemma next_move_le time : moved k j time -> now < time -> next_move k j now <= time.
Proof.
  intros Hm%moved_mod Ht; [|done..]. unfold next_move. pose proof (period_pos k Hk) as Hp.
  set (M := 256 * period k) in *. assert (0 < M) as HM by (unfold M; lia).
  replace (j * period k - now - 1) with ((j * period k - time) + (time - now - 1)) by lia.
  set (Y := j * period k - time) in *. clearbody Y M.
  rewrite <- Zplus_mod_idemp_l, Hm, Z.add_0_l. pose proof (Z.mod_le (time - now - 1) M). lia.
Qed.

End NextMove.

(** The bucket chosen for a timeout is moved no later than it is due. *)
Lemma BUCKET_spec now abs :
  1 <= abs - now ->
  exists k j, 0 <= k <= 3 /\ 0 <= j < 256 /\ BUCKET (abs - now) (s32 abs) = j + k * 256 /\
    next_move k j now <= abs.
Proof.
  intros Hrel.
  assert (forall k, 0 <= k <= 3 -> k = 0 \/ period k < abs - now ->
    exists j, 0 <= j < 256 /\ MASKWHEEL k (s32 abs) = j /\ next_move k j now <= abs) as Hwheel.
  { intros k Hk Hlt. exists ((abs / period k) mod 256). pose proof (period_pos k ltac:(lia)) as Hp.
    pose proof (Z.mod_pos_bound (abs / period k) 256 ltac:(lia)).
    pose proof (Z.mod_pos_bound abs (period k) Hp). pose proof (Z_div_mod_eq_full abs (period k)).
    split; [done|]. split; [by apply MASKWHEEL_spec|].
    transitivity (abs - abs mod period k); [|lia]. apply next_move_le; [lia|done|..].
    - replace (abs - abs mod period k) with (abs / period k * period k) by lia.
      split; [apply Z_mod_mult|by rewrite Z_div_mult by lia].
    - destruct Hlt as [->|]; [|lia]. change (period 0) with 1 in *. lia. }
  unfold BUCKET. change (Z.shiftl 1 (2 * WHEELBITS)) with (period 2).
  change (Z.shiftl 1 WHEELBITS) with (period 1). change (Z.shiftl 1 (3 * WHEELBITS)) with (period 3).
  change WHEELSIZE with 256. repeat case_if.
  - destruct (Hwheel 0) as (j & ? & -> & ?); [lia|by left|]. exists 0, j. lia.
  - destruct (Hwheel 1) as (j & ? & -> & ?); [lia|by right|]. exists 1, j. lia.
  - destruct (Hwheel 2) as (j & ? & -> & ?); [lia|by right|]. exists 2, j. lia.
  - destruct (Hwheel 3) as (j & ? & -> & ?); [lia|by right|]. exists 3, j. lia.
Qed.

(** ** The queues *)

Definition on_queue (s : state) : list nat := timeout_todo s ++ concat (timeout_wheel s).

Lemma filter_concat (P : nat -> Prop) `{forall x, Decision (P x)} (l : list (list nat)) :
  concat (filter P <$> l) = filter P (concat l).
Proof. induction l as [|q l IH]; [done|]. simpl. by rewrite filter_app, <- IH. Qed.

Lemma concat_insert (l : list (list nat)) b q q' :
  l !! b = Some q -> concat (<[b := q']> l) ++ q ≡ₚ concat l ++ q'.
Proof.
  revert b. induction l as [|r l IH]; intros [|b] Hb; simplify_eq/=.
  - solve_Permutation.
  - rewrite <- !app_assoc. by rewrite IH.
Qed.

Lemma elem_of_concat (l : list (list nat)) x : x ∈ concat l <-> exists b q, l !! b = Some q /\ x ∈ q.
Proof.
  rewrite list_elem_of_In, in_concat. split.
  - intros (q & Hq & Hx). apply list_elem_of_In, list_elem_of_lookup in Hq as [b Hb].
    exists b, q. by rewrite list_elem_of_In.
  - intros (b & q & Hb & Hx). exists q. rewrite <- !list_elem_of_In.
    split; [by eapply list_elem_of_lookup_2|done].
Qed.

Lemma on_queue_remove to s : on_queue (CIRCQ_REMOVE to s) = filter (fun x => x <> to) (on_queue s).
Proof. unfold on_queue. simpl. by rewrite filter_concat, filter_app. Qed.

Lemma on_queue_insert_todo to s : on_queue (insert_todo to s) ≡ₚ to :: on_queue s.
Proof. unfold on_queue, CIRCQ_INSERT. simpl. solve_Permutation. Qed.

Lemma on_queue_insert_bucket to b s :
  (Z.to_nat b < length (timeout_wheel s))%nat -> on_queue (insert_bucket to b s) ≡ₚ to :: on_queue s.
Proof.
  intros [q Hq]%lookup_lt_is_Some_2. unfold on_queue, insert_bucket, CIRCQ_INSERT. simpl.
  rewrite Hq. simpl. pose proof (concat_insert _ _ _ (q ++ [to]) Hq) as Hc.
  apply (Permutation_app_inv_r q). rewrite <- app_assoc, Hc. solve_Permutation.
Qed.

Lemma on_queue_move k time s :
  (Z.to_nat (MASKWHEEL k time + k * WHEELSIZE) < length (timeout_wheel s))%nat ->
  on_queue (MOVEBUCKET k time s) ≡ₚ on_queue s.
Proof.
  intros [q Hq]%lookup_lt_is_Some_2. unfold on_queue, MOVEBUCKET. simpl. rewrite Hq. simpl.
  pose proof (concat_insert _ _ _ [] Hq) as Hc. rewrite app_nil_r in Hc. rewrite <- Hc. solve_Permutation.
Qed.

(** ** The abstract timer

    [pending] gives the deadline of each pending timeout, on a clock that
    never wraps.  [refines now pending s]: the wheels hold these timeouts, at
    time [now]; each bucket is moved before the timeouts in it are due. *)

Record refines (now : Z) (pending : gmap nat Z) (s : state) : Prop := {
  rf_ticks : ticks s = s32 now;
  rf_len : length (timeout_wheel s) = BUCKETS;
  rf_nodup : NoDup (on_queue s);
  rf_queue : forall to, to ∈ on_queue s <-> is_Some (pending !! to);
  rf_pending : forall to d, pending !! to = Some d ->
    exists t, timeouts s !! to = Some t /\ has (to_flags t) TIMEOUT_ONQUEUE = true /\
      to_time t = s32 d;
  rf_idle : forall to t, timeouts s !! to = Some t -> pending !! to = None ->
    has (to_flags t) TIMEOUT_ONQUEUE = false;
  rf_range : forall to d, pending !! to = Some d -> now - 2 ^ 31 < d <= now + INT_MAX;
  rf_wheel : forall k j q to d, 0 <= k -> 0 <= j < 256 ->
    timeout_wheel s !! Z.to_nat (j + k * 256) = Some q -> to ∈ q -> pending !! to = Some d ->
    next_move k j now <= d
}.

(** Flag bits. *)
Lemma clear_triggered f : has (clear f TIMEOUT_TRIGGERED) TIMEOUT_ONQUEUE = has f TIMEOUT_ONQUEUE.
Proof.
  unfold has, clear. f_equal. f_equal. apply Z.bits_inj'. intros i Hi.
  rewrite !Z.land_spec, Z.ldiff_spec. destruct (decide (i = 1)) as [->|Hne].
  - by rewrite andb_true_r.
  - assert (Z.testbit TIMEOUT_ONQUEUE i = false) as ->; [|by rewrite !andb_false_r].
    apply (Z.pow2_bits_false 1 i). lia.
Qed.

Lemma clear_onqueue f : has (clear f TIMEOUT_ONQUEUE) TIMEOUT_ONQUEUE = false.
Proof.
  unfold has, clear. apply negb_false_iff, Z.eqb_eq. apply Z.bits_inj'. intros i Hi.
  rewrite Z.land_spec, Z.ldiff_spec, Z.bits_0. by destruct (Z.testbit _ _), (Z.testbit _ _).
Qed.

Lemma set_onqueue f : has (f .| TIMEOUT_ONQUEUE) TIMEOUT_ONQUEUE = true.
Proof.
  unfold has. rewrite Z.land_lor_distr_l, Z.land_diag. apply negb_true_iff, Z.eqb_neq.
  by intros [_ ?]%Z.lor_eq_0_iff.
Qed.

Lemma set_triggered f : has (f .| TIMEOUT_TRIGGERED) TIMEOUT_ONQUEUE = has f TIMEOUT_ONQUEUE.
Proof. unfold has. rewrite Z.land_lor_distr_l. by rewrite Z.lor_0_r. Qed.

Section Refines.

Context {now : Z} {p : gmap nat Z} {s : state} (Hr : refines now p s).

Lemma queued_todo to : p !! to = None -> to ∉ on_queue s.
Proof. intros Hp Hin. apply (rf_queue _ _ _ Hr) in Hin as [d Hd]. congruence. Qed.

(** Lookups in the structures after one of them was written. *)
Lemma pending_insert to d t' :
  has (to_flags t') TIMEOUT_ONQUEUE = true -> to_time t' = s32 d ->
  forall to' d', <[to := d]> p !! to' = Some d' ->
  exists t, <[to := t']> (timeouts s) !! to' = Some t /\ has (to_flags t) TIMEOUT_ONQUEUE = true /\
    to_time t = s32 d'.
Proof.
  intros Hf Ht to' d' [[<- <-]|[Hne Hd]]%lookup_insert_Some.
  - exists t'. by rewrite lookup_insert_eq.
  - rewrite lookup_insert_ne by done. by apply (rf_pending _ _ _ Hr).
Qed.

Lemma idle_insert to d t' to' t :
  <[to := t']> (timeouts s) !! to' = Some t -> <[to := d]> p !! to' = None ->
  has (to_flags t) TIMEOUT_ONQUEUE = false.
Proof.
  intros Ht [Hp Hne]%lookup_insert_None. rewrite lookup_insert_ne in Ht by done.
  by eapply (rf_idle _ _ _ Hr).
Qed.

(** A timeout that is not pending is put on a queue. *)
Lemma refines_attach to t' d s' :
  p !! to = None -> ticks s' = ticks s -> length (timeout_wheel s') = BUCKETS ->
  on_queue s' ≡ₚ to :: on_queue s -> timeouts s' = <[to := t']> (timeouts s) ->
  has (to_flags t') TIMEOUT_ONQUEUE = true -> to_time t' = s32 d ->
  now - 2 ^ 31 < d <= now + INT_MAX ->
  (forall b q' x, timeout_wheel s' !! b = Some q' -> x ∈ q' ->
     (exists q, timeout_wheel s !! b = Some q /\ x ∈ q) \/
     x = to /\ forall k j, 0 <= k -> 0 <= j < 256 -> b = Z.to_nat (j + k * 256) -> next_move k j now <= d) ->
  refines now (<[to := d]> p) s'.
Proof.
  intros Hp Hti Hlen Hq Hto Hf Ht Hd Hw. pose proof (queued_todo to Hp) as Hnot. constructor.
  - rewrite Hti. apply Hr.
  - done.
  - rewrite Hq. constructor; [done|apply Hr].
  - intros x. rewrite Hq, elem_of_cons, (rf_queue _ _ _ Hr), lookup_insert_is_Some. destruct (decide (to = x)); naive_solver.
  - rewrite Hto. by apply pending_insert.
  - rewrite Hto. intros to' t. apply idle_insert.
  - intros to' d' [[<- <-]|[Hne Hd']]%lookup_insert_Some; [done|by apply (rf_range _ _ _ Hr to')].
  - intros k j q' x d' Hk Hj Hq' Hx Hd'. destruct (Hw _ q' x Hq' Hx) as [(q & Hq0 & Hx0)|[-> Hle]].
    + assert (x <> to) as Hne.
      { intros ->. destruct Hnot. apply elem_of_app. right. apply elem_of_concat. eauto. }
      rewrite lookup_insert_ne in Hd' by done. by eapply (rf_wheel _ _ _ Hr).
    + rewrite lookup_insert_eq in Hd'. simplify_eq. by apply Hle.
Qed.

Lemma refines_attach_todo to t' d :
  p !! to = None -> has (to_flags t') TIMEOUT_ONQUEUE = true -> to_time t' = s32 d ->
  now - 2 ^ 31 < d <= now + INT_MAX ->
  refines now (<[to := d]> p) (insert_todo to (set_timeout to t' s)).
Proof.
  intros. eapply refines_attach; try done; [apply Hr|by rewrite on_queue_insert_todo|]. eauto.
Qed.

(** A timeout leaves its queue. *)
Lemma refines_detach to t' :
  has (to_flags t') TIMEOUT_ONQUEUE = false ->
  refines now (delete to p) (set_timeout to t' (CIRCQ_REMOVE to s)).
Proof.
  intros Hf. constructor.
  - apply Hr.
  - simpl. rewrite length_fmap. apply Hr.
  - change (NoDup (on_queue (CIRCQ_REMOVE to s))). rewrite on_queue_remove. apply NoDup_filter, Hr.
  - intros x. change (on_queue _) with (on_queue (CIRCQ_REMOVE to s)).
    rewrite on_queue_remove, list_elem_of_filter, (rf_queue _ _ _ Hr), lookup_delete_is_Some. naive_solver.
  - intros to' d [Hne Hd]%lookup_delete_Some. simpl. rewrite lookup_insert_ne by done.
    by apply (rf_pending _ _ _ Hr).
  - intros to' t Ht Hn. simpl in Ht. destruct (decide (to = to')) as [<-|Hne].
    + rewrite lookup_insert_eq in Ht. by simplify_eq.
    + rewrite lookup_insert_ne in Ht by done. rewrite lookup_delete_ne in Hn by done.
      by eapply (rf_idle _ _ _ Hr).
  - intros to' d [Hne Hd]%lookup_delete_Some. by apply (rf_range _ _ _ Hr to').
  - intros k j q x d Hk Hj Hq Hx [Hne Hd]%lookup_delete_Some. simpl in Hq.
    apply list_lookup_fmap_Some in Hq as (q0 & -> & Hq0). apply list_elem_of_filter in Hx as [_ Hx].
    by eapply (rf_wheel _ _ _ Hr).
Qed.

(** A pending timeout gets a later time and stays where it is. *)
Lemma refines_postpone to t' d d' :
  p !! to = Some d -> d <= d' -> has (to_flags t') TIMEOUT_ONQUEUE = true -> to_time t' = s32 d' ->
  d' <= now + INT_MAX -> refines now (<[to := d']> p) (set_timeout to t' s).
Proof.
  intros Hp Hle Hf Ht Hd'. pose proof (rf_range _ _ _ Hr to d Hp) as Hrange. constructor; try apply Hr.
  - intros x. change (on_queue (set_timeout to t' s)) with (on_queue s).
    rewrite (rf_queue _ _ _ Hr), lookup_insert_is_Some'. naive_solver.
  - by apply pending_insert.
  - intros to' t. apply idle_insert.
  - intros to' d0 [[<- <-]|[Hne Hd0]]%lookup_insert_Some; [lia|by apply (rf_range _ _ _ Hr to')].
  - intros k j q x d0 Hk Hj Hq Hx Hd0. apply lookup_insert_Some in Hd0 as [[<- <-]|[Hne Hd0]].
    + pose proof (rf_wheel _ _ _ Hr k j q to d Hk Hj Hq Hx Hp). lia.
    + by eapply (rf_wheel _ _ _ Hr).
Qed.

End Refines.

(** ** The operations refine those of the abstract timer *)

Lemma set_timeout_id to t s : timeouts s !! to = Some t -> set_timeout to t s = s.
Proof. intros Ht. destruct s. unfold set_timeout. simpl in *. by rewrite insert_id. Qed.

Lemma set_timeout_twice to t t' s : set_timeout to t' (set_timeout to t s) = set_timeout to t' s.
Proof. unfold set_timeout. simpl. by rewrite insert_insert_eq. Qed.

Lemma timeout_add_sim now p s to t n :
  refines now p s -> timeouts s !! to = Some t ->
  has (to_flags t) TIMEOUT_INITIALIZED = true -> 0 <= n <= INT_MAX ->
  exists s', timeout_add to n s = Ok (match p !! to with Some _ => 0 | None => 1 end, s') /\
    refines now (<[to := now + n]> p) s'.
Proof.
  intros Hr Ht Hini Hn. unfold timeout_add. rewrite Ht, Hini, (rf_ticks _ _ _ Hr), s32_add. simpl.
  rewrite (proj2 (Z.ltb_ge n 0)) by lia. rewrite clear_triggered, (Z.add_comm n).
  unfold INT_MAX in Hn. set (t1 := Timeout _ _ _ _).
  assert (now - 2 ^ 31 < now + n <= now + INT_MAX) as Hrange by (unfold INT_MAX; lia).
  destruct (p !! to) as [d|] eqn:Hp.
  - destruct (rf_pending _ _ _ Hr to d Hp) as (t0 & Ht0 & Hq & Htime). simplify_eq. rewrite Hq.
    pose proof (rf_range _ _ _ Hr to d Hp) as Hd. unfold INT_MAX in Hd.
    rewrite Htime, !s32_diff by lia.
    assert (has (to_flags t1) TIMEOUT_ONQUEUE = true) as Hq1 by (simpl; by rewrite clear_triggered).
    case_if; (eexists; split; [done|]).
    + pose proof (refines_detach Hr to (with_flags t (clear (to_flags t) TIMEOUT_ONQUEUE)) (clear_onqueue _)) as Hdet.
      pose proof (refines_attach_todo Hdet to t1 (now + n) (lookup_delete_eq _ _) Hq1 eq_refl Hrange) as Hatt.
      rewrite set_timeout_twice, insert_delete_eq in Hatt. exact Hatt.
    + eapply refines_postpone; try done; unfold INT_MAX; lia.
  - rewrite (rf_idle _ _ _ Hr to t Ht Hp). eexists. split; [done|].
    apply (refines_attach_todo Hr); try done. simpl. apply set_onqueue.
Qed.

Lemma timeout_del_sim now p s to :
  refines now p s ->
  refines now (delete to p) (snd (timeout_del to s)) /\
  fst (timeout_del to s) = match p !! to with Some _ => 1 | None => 0 end.
Proof.
  intros Hr. unfold timeout_del. destruct (timeouts s !! to) as [t|] eqn:Ht.
  - destruct (p !! to) as [d|] eqn:Hp.
    + destruct (rf_pending _ _ _ Hr to d Hp) as (t0 & Ht0 & Hq & Htime). simplify_eq. rewrite Hq.
      split; [|done]. apply refines_detach; [done|]. simpl. by rewrite clear_triggered, clear_onqueue.
    + rewrite (rf_idle _ _ _ Hr to t Ht Hp). split; [|done].
      rewrite delete_id by done. simpl.
      assert (forall to' t', to' <> to -> timeouts (set_timeout to t' s) !! to' = timeouts s !! to') as Hne.
      { intros. simpl. by rewrite lookup_insert_ne. }
      constructor; try apply Hr.
      * intros to' d Hd. rewrite Hne by congruence. by apply (rf_pending _ _ _ Hr).
      * intros to' t' Ht' Hp'. destruct (decide (to = to')) as [<-|].
        -- simpl in Ht'. rewrite lookup_insert_eq in Ht'. simplify_eq. simpl.
           rewrite clear_triggered. by eapply (rf_idle _ _ _ Hr).
        -- rewrite Hne in Ht' by done. by eapply (rf_idle _ _ _ Hr).
  - destruct (p !! to) as [d|] eqn:Hp.
    + destruct (rf_pending _ _ _ Hr to d Hp) as (t0 & Ht0 & _). congruence.
    + simpl. by rewrite delete_id.
Qed.

Lemma filter_ne_id to (l : list nat) : to ∉ l -> filter (fun x => x <> to) l = l.
Proof.
  induction l as [|x l IH]; [done|]. intros Hn.
  rewrite filter_cons_True by set_solver. rewrite IH by set_solver. done.
Qed.

(** A timeout that is not due goes into a bucket. *)
Lemma rebucket_sim now p s to d t :
  refines now p s -> p !! to = Some d -> timeouts s !! to = Some t -> now < d ->
  refines now p (insert_bucket to (BUCKET (d - now) (s32 d)) (CIRCQ_REMOVE to s)).
Proof.
  intros Hr Hd Ht Hlt.
  destruct (rf_pending _ _ _ Hr to d Hd) as (t' & Ht' & Hq & Htime). simplify_eq.
  destruct (BUCKET_spec now d ltac:(lia)) as (k & j & Hk & Hj & -> & Hmove).
  pose proof (refines_detach Hr to (with_flags t (clear (to_flags t) TIMEOUT_ONQUEUE)) (clear_onqueue _)) as Hdet.
  rewrite <- (insert_id p to d), <- (insert_delete_eq p to d) by done.
  assert (length (timeout_wheel (CIRCQ_REMOVE to s)) = BUCKETS) as Hlen
    by (simpl; rewrite length_fmap; apply Hr).
  assert (Z.to_nat (j + k * 256) < BUCKETS)%nat as Hb by (unfold BUCKETS; lia).
  eapply (refines_attach Hdet to t d); try done.
  - apply lookup_delete_eq.
  - simpl. rewrite length_insert, length_fmap. apply Hr.
  - rewrite on_queue_insert_bucket by (rewrite Hlen; done). done.
  - simpl. by rewrite insert_insert_eq, insert_id.
  - by apply (rf_range _ _ _ Hr to).
  - intros b q' x Hq' Hx. simpl in Hq'. apply list_lookup_insert_Some in Hq' as [(<- & <- & _)|[Hne Hq']]; [|eauto].
    apply elem_of_app in Hx as [Hx|Hx%list_elem_of_singleton].
    + left. destruct (_ !! Z.to_nat (j + k * 256)) as [q|] eqn:Hq0; [|by apply elem_of_nil in Hx]. eauto.
    + right. split; [done|]. intros k' j' Hk' Hj' Heq.
      assert (k' = k /\ j' = j) as [-> ->] by lia. done.
Qed.

(** A turn of [softclock] runs a timeout that is due, or puts one back. *)
Lemma softclock_turn_sim now p s :
  refines now p s ->
  match softclock_turn s with
  | None => timeout_todo s = []
  | Some (s', Some to) => exists l d, timeout_todo s = to :: l /\ timeout_todo s' = l /\
      p !! to = Some d /\ d <= now /\ refines now (delete to p) s'
  | Some (s', None) => exists to l d, timeout_todo s = to :: l /\ timeout_todo s' = l /\
      p !! to = Some d /\ now < d /\ refines now p s'
  end.
Proof.
  intros Hr. unfold softclock_turn. destruct (timeout_todo s) as [|to l] eqn:Htodo; [done|]. simpl.
  assert (to ∈ on_queue s) as Hin by (unfold on_queue; rewrite Htodo; set_solver).
  apply (rf_queue _ _ _ Hr) in Hin as [d Hd].
  destruct (rf_pending _ _ _ Hr to d Hd) as (t & Ht & Hq & Htime).
  assert (timeout_todo (CIRCQ_REMOVE to s) = l) as Hl.
  { simpl. rewrite Htodo. pose proof (rf_nodup _ _ _ Hr) as Hnd. unfold on_queue in Hnd. rewrite Htodo in Hnd.
    apply NoDup_cons in Hnd as [Hnot _]. rewrite filter_cons_False by naive_solver.
    apply filter_ne_id. set_solver. }
  pose proof (rf_range _ _ _ Hr to d Hd) as Hrange. unfold INT_MAX in Hrange.
  rewrite Ht, (rf_ticks _ _ _ Hr), Htime, s32_diff by lia. case_if.
  - exists to, l, d. split_and!; try done; [lia|]. by eapply rebucket_sim; [..|lia].
  - exists l, d. split_and!; try done; [lia|]. apply refines_detach; [done|]. simpl.
    by rewrite set_triggered, clear_onqueue.
Qed.

(** ** The clock tick *)

(** Between two [MOVEBUCKET]s of a tick: the wheels below [K] are those of the
    new time, the others those of the old one. *)
Record half (K now : Z) (p : gmap nat Z) (s : state) : Prop := {
  hf_ticks : ticks s = s32 (now + 1);
  hf_len : length (timeout_wheel s) = BUCKETS;
  hf_nodup : NoDup (on_queue s);
  hf_queue : forall to, to ∈ on_queue s <-> is_Some (p !! to);
  hf_wheel : forall k j q to d, 0 <= k -> 0 <= j < 256 ->
    timeout_wheel s !! Z.to_nat (j + k * 256) = Some q -> to ∈ q -> p !! to = Some d ->
    next_move k j (if k <? K then now + 1 else now) <= d
}.

Lemma half_move K now p s :
  0 <= K <= 3 -> (now + 1) mod period K = 0 -> half K now p s ->
  half (K + 1) now p (MOVEBUCKET K (ticks s) s).
Proof.
  intros HK Hm [Hti Hlen Hnd Hq Hw].
  set (m := ((now + 1) / period K) mod 256).
  assert (MASKWHEEL K (ticks s) = m) as Hmask by (rewrite Hti; by apply MASKWHEEL_spec).
  assert (0 <= m < 256) by (apply Z.mod_pos_bound; lia).
  assert (on_queue (MOVEBUCKET K (ticks s) s) ≡ₚ on_queue s) as Hperm.
  { apply on_queue_move. rewrite Hmask, Hlen. unfold WHEELSIZE, BUCKETS. lia. }
  constructor.
  - done.
  - simpl. by rewrite length_insert.
  - by rewrite Hperm.
  - intros to. by rewrite Hperm.
  - intros k j q to d Hk Hj Hlook Hto Hd. simpl in Hlook. rewrite Hmask in Hlook. unfold WHEELSIZE in Hlook.
    apply list_lookup_insert_Some in Hlook as [(_ & <- & _)|[Hne Hlook]]; [by apply elem_of_nil in Hto|].
    specialize (Hw k j q to d Hk Hj Hlook Hto Hd).
    destruct (Z.ltb_spec k K), (Z.ltb_spec k (K + 1)); try done; [lia|].
    assert (k = K) as -> by lia. rewrite next_move_later; [done|lia|done|].
    intros [_ Hj']. fold m in Hj'. subst j. done.
Qed.

(** No bucket of a wheel from [K] on is moved at this tick. *)
Lemma half_skip K now p s :
  0 <= K -> (now + 1) mod period K <> 0 -> half K now p s -> half 4 now p s.
Proof.
  intros HK Hm [Hti Hlen Hnd Hq Hw]. constructor; try done.
  intros k j q to d Hk Hj Hlook Hto Hd.
  specialize (Hw k j q to d Hk Hj Hlook Hto Hd).
  assert (k < 4) by (apply lookup_lt_Some in Hlook; rewrite Hlen in Hlook; unfold BUCKETS in Hlook; lia).
  destruct (Z.ltb_spec k K), (Z.ltb_spec k 4); try done; [lia|].
  rewrite next_move_later; [done|lia|done|]. intros [Hmod _]. apply Hm.
  apply Z.mod_divide in Hmod as [z Hz]; [|pose proof (period_pos k Hk); lia].
  rewrite Hz. unfold period. replace (8 * k) with (8 * (k - K) + 8 * K) by lia.
  rewrite Z.pow_add_r, Z.mul_assoc by lia. apply Z_mod_mult.
Qed.

(** The test of the code for the next wheel. *)
Lemma MASKWHEEL_zero K now s :
  0 <= K <= 2 -> ticks s = s32 (now + 1) -> (now + 1) mod period K = 0 ->
  (MASKWHEEL K (ticks s) =? 0) = true <-> (now + 1) mod period (K + 1) = 0.
Proof.
  intros HK -> Hm. rewrite MASKWHEEL_spec by lia. rewrite Z.eqb_eq.
  replace (period (K + 1)) with (period K * 256)
    by (unfold period; change 256 with (2 ^ 8); rewrite <- Z.pow_add_r by lia; f_equal; lia).
  pose proof (period_pos K ltac:(lia)). rewrite Z.rem_mul_r by lia. rewrite Hm. nia.
Qed.

Definition tick_once (s : state) : state :=
  State (s32 (ticks s + 1)) (timeout_wheel s) (timeout_todo s) (timeouts s).

Lemma half_start now p s : refines now p s -> half 0 now p (tick_once s).
Proof.
  intros Hr. constructor; simpl; try apply Hr.
  - rewrite (rf_ticks _ _ _ Hr), Z.add_comm, s32_add. f_equal. lia.
  - intros k j q to d Hk Hj. rewrite (proj2 (Z.ltb_ge k 0)) by lia. by apply Hr.
Qed.

Lemma hardclock_half now p s :
  refines now p s -> half 4 now p (snd (timeout_hardclock_update s)).
Proof.
  intros Hr. unfold timeout_hardclock_update. fold (tick_once s). cbn [snd].
  pose proof (half_move 0 now p _ ltac:(lia) (Z.mod_1_r _) (half_start now p s Hr)) as H1.
  change (0 + 1) with 1 in H1. set (s1 := MOVEBUCKET 0 _ _) in *. clearbody s1.
  pose proof (MASKWHEEL_zero 0 now s1 ltac:(lia) (hf_ticks _ _ _ _ H1) (Z.mod_1_r _)) as Hz.
  case_if; [|apply (half_skip 1); [lia| |done]; by intros ?%Hz].
  pose proof (half_move 1 now p s1 ltac:(lia) (proj1 Hz eq_refl) H1) as H2.
  pose proof (proj1 Hz eq_refl) as Hm1.
  change (1 + 1) with 2 in H2. set (s2 := MOVEBUCKET 1 _ _) in *. clearbody s2. clear Hz.
  pose proof (MASKWHEEL_zero 1 now s2 ltac:(lia) (hf_ticks _ _ _ _ H2) Hm1) as Hz.
  case_if; [|apply (half_skip 2); [lia| |done]; by intros ?%Hz].
  pose proof (proj1 Hz eq_refl) as Hm2.
  pose proof (half_move 2 now p s2 ltac:(lia) Hm2 H2) as H3.
  change (2 + 1) with 3 in H3. set (s3 := MOVEBUCKET 2 _ _) in *. clearbody s3. clear Hz.
  pose proof (MASKWHEEL_zero 2 now s3 ltac:(lia) (hf_ticks _ _ _ _ H3) Hm2) as Hz.
  case_if; [|apply (half_skip 3); [lia| |done]; by intros ?%Hz].
  apply (half_move 3); [lia| |done]. by apply Hz.
Qed.

Lemma hardclock_timeouts s : timeouts (snd (timeout_hardclock_update s)) = timeouts s.
Proof. unfold timeout_hardclock_update. cbn [snd]. by repeat case_if. Qed.

Lemma hardclock_sim now p s :
  refines now p s -> (forall to d, p !! to = Some d -> now + 1 - 2 ^ 31 < d) ->
  refines (now + 1) p (snd (timeout_hardclock_update s)).
Proof.
  intros Hr Hfresh. pose proof (hardclock_half now p s Hr) as [Hti Hlen Hnd Hq Hw].
  constructor; rewrite ?hardclock_timeouts; try done; try apply Hr.
  - intros to d Hd. pose proof (rf_range _ _ _ Hr to d Hd). specialize (Hfresh to d Hd). lia.
  - intros k j q to d Hk Hj Hlook Hto Hd. specialize (Hw k j q to d Hk Hj Hlook Hto Hd).
    assert (k < 4) by (apply lookup_lt_Some in Hlook; rewrite Hlen in Hlook; unfold BUCKETS in Hlook; lia).
    by rewrite (proj2 (Z.ltb_lt k 4)) in Hw by lia.
Qed.

(** ** [softclock] *)

(** The timeouts that are still to come at time [now]. *)
Definition later (now : Z) (p : gmap nat Z) : gmap nat Z := filter (fun x => now < x.2) p.

(** What is on a wheel is not due. *)
Lemma wheel_later now p s to d :
  refines now p s -> to ∈ concat (timeout_wheel s) -> p !! to = Some d -> now < d.
Proof.
  intros Hr (b & q & Hb & Hto)%elem_of_concat Hd.
  set (k := Z.of_nat b / 256). set (j := Z.of_nat b mod 256).
  assert (0 <= k) by (unfold k; lia). assert (0 <= j < 256) by (unfold j; lia).
  replace b with (Z.to_nat (j + k * 256)) in Hb by (unfold j, k; lia).
  pose proof (rf_wheel _ _ _ Hr k j q to d ltac:(done) ltac:(done) Hb Hto Hd).
  pose proof (next_move_gt k j now ltac:(done)). lia.
Qed.

(** With an empty worklist nothing is due. *)
Lemma idle_later now p s :
  refines now p s -> timeout_todo s = [] -> later now p = p.
Proof.
  intros Hr Ht. apply map_filter_id. intros to d Hd. simpl.
  assert (to ∈ on_queue s) as Hin by (apply (rf_queue _ _ _ Hr); eauto).
  unfold on_queue in Hin. rewrite Ht in Hin. by eapply wheel_later.
Qed.

Lemma softclock_loop_sim n now p s :
  refines now p s -> length (timeout_todo s) = n ->
  let '(l, s') := softclock_loop n s in
  refines now (later now p) s' /\ timeout_todo s' = [] /\
  forall to, to ∈ l <-> exists d, p !! to = Some d /\ d <= now.
Proof.
  revert p s. induction n as [|n IH]; intros p s Hr Hn; simpl.
  - apply nil_length_inv in Hn. pose proof (idle_later now p s Hr Hn) as Hl. rewrite Hl. split_and!; try done.
    intros to. split; [by intros ?%elem_of_nil|]. intros (d & Hd & Hle). rewrite <- Hl in Hd.
    apply map_lookup_filter_Some in Hd as [_ Hd]. simpl in Hd. lia.
  - pose proof (softclock_turn_sim now p s Hr) as Ht.
    destruct (softclock_turn s) as [[s1 [to|]]|]; [| |by rewrite Ht in Hn].
    + destruct Ht as (l & d & Htodo & Htodo' & Hd & Hle & Hr'). rewrite Htodo in Hn. simplify_eq/=.
      specialize (IH (delete to p) s1 Hr' eq_refl). destruct (softclock_loop _ s1) as [l' s'].
      destruct IH as (Hr1 & Ht1 & Hl). split_and!; [|done|].
      * replace (later now p) with (later now (delete to p)); [done|].
        apply map_filter_delete_not. intros d' Hd'. simplify_eq. simpl. lia.
      * intros x. rewrite elem_of_cons, Hl. split.
        -- intros [->|(d' & [_ Hd']%lookup_delete_Some & ?)]; eauto.
        -- intros (d' & Hd' & ?). destruct (decide (x = to)) as [->|Hne]; [by left|right].
           exists d'. by rewrite lookup_delete_ne.
    + destruct Ht as (to & l & d & Htodo & Htodo' & Hd & Hle & Hr'). rewrite Htodo in Hn. simplify_eq/=.
      specialize (IH p s1 Hr' eq_refl). by destruct (softclock_loop _ s1) as [l' s'].
Qed.

Lemma softclock_sim now p s :
  refines now p s ->
  let '(l, s') := softclock s in
  refines now (later now p) s' /\ timeout_todo s' = [] /\
  forall to, to ∈ l <-> exists d, p !! to = Some d /\ d <= now.
Proof. intros Hr. by apply softclock_loop_sim. Qed.

(** ** [timeout_adjust_ticks] *)

Definition adjust_time (now adj : Z) (s : state) (to : nat) (d : Z) : Z :=
  if bool_decide (to ∈ concat (timeout_wheel s)) then Z.max d (now + adj) else d.

Lemma adjust_lookup now adj new l m to :
  NoDup l ->
  foldl (fun m to => adjust_one now adj new to m) m l !! to =
    if bool_decide (to ∈ l) then adjust_one now adj new to m !! to else m !! to.
Proof.
  revert m. induction l as [|x l IH]; intros m Hnd; [done|]. apply NoDup_cons in Hnd as [Hx Hnd].
  simpl. rewrite IH by done. unfold adjust_one. destruct (decide (x = to)) as [->|Hne].
  - rewrite (bool_decide_eq_false_2 (to ∈ l)) by done. by rewrite bool_decide_eq_true_2 by set_solver.
  - rewrite (bool_decide_ext (to ∈ x :: l) (to ∈ l)) by set_solver.
    case_bool_decide; [rewrite !lookup_alter_eq|]; by rewrite lookup_alter_ne.
Qed.

(** The timeouts of the wheels get the later of their time and the new one;
    all go through the worklist again. *)
Lemma adjust_sim now p s adj :
  refines now p s -> 0 < adj <= INT_MAX ->
  (forall to d, p !! to = Some d -> now + adj - 2 ^ 31 < d) ->
  refines (now + adj) (map_imap (fun to d => Some (adjust_time now adj s to d)) p)
    (timeout_adjust_ticks adj s).
Proof.
  intros Hr Hadj Hfresh. unfold timeout_adjust_ticks. rewrite (proj2 (Z.leb_gt adj 0)) by lia.
  unfold INT_MAX in Hadj. set (l := concat (timeout_wheel s)).
  assert (NoDup l) as Hnd by (pose proof (rf_nodup _ _ _ Hr) as H; by apply NoDup_app in H as (_ & _ & ?)).
  assert (concat ((fun _ : list nat => []) <$> timeout_wheel s) = ([] : list nat)) as Hempty.
  { generalize (timeout_wheel s). intros w. induction w; simpl; done. }
  assert (s32 (ticks s + adj) = s32 (now + adj)) as Hnew
    by (rewrite (rf_ticks _ _ _ Hr), Z.add_comm, s32_add; f_equal; lia).
  constructor; simpl.
  - done.
  - rewrite length_fmap. apply Hr.
  - unfold on_queue. simpl. rewrite Hempty, app_nil_r. apply Hr.
  - intros to. unfold on_queue. simpl. rewrite Hempty, app_nil_r.
    change (timeout_todo s ++ l) with (on_queue s). rewrite (rf_queue _ _ _ Hr), map_lookup_imap.
    destruct (p !! to); simpl; [split; eauto|split; intros []; done].
  - intros to d' Hd'. rewrite map_lookup_imap in Hd'. destruct (p !! to) as [d|] eqn:Hd; [|done].
    simplify_eq/=. destruct (rf_pending _ _ _ Hr to d Hd) as (t & Ht & Hq & Htime).
    pose proof (rf_range _ _ _ Hr to d Hd) as Hrange. unfold INT_MAX in Hrange.
    rewrite adjust_lookup by done. unfold adjust_time. fold l. case_bool_decide; [|eauto].
    unfold adjust_one. rewrite lookup_alter_eq, Ht. simpl. eexists. split; [done|].
    rewrite (rf_ticks _ _ _ Hr), Htime, s32_diff by lia. case_if; simpl; (split; [done|]).
    + rewrite Z.max_r by lia. rewrite <- Hnew. by rewrite (rf_ticks _ _ _ Hr).
    + by rewrite Z.max_l by lia.
  - intros to t Ht Hn. rewrite map_lookup_imap in Hn. destruct (p !! to) as [d|] eqn:Hd; [done|].
    rewrite adjust_lookup in Ht by done. case_bool_decide as Hin.
    + assert (to ∈ on_queue s) as Hq by (apply elem_of_app; by right).
      apply (rf_queue _ _ _ Hr) in Hq as [? ?]. congruence.
    + by eapply (rf_idle _ _ _ Hr).
  - intros to d' Hd'. rewrite map_lookup_imap in Hd'. destruct (p !! to) as [d|] eqn:Hd; [|done].
    simplify_eq/=. pose proof (rf_range _ _ _ Hr to d Hd) as Hrange. specialize (Hfresh to d Hd).
    unfold adjust_time, INT_MAX in *. case_bool_decide; lia.
  - intros k j q to d Hk Hj Hq Hto. apply list_lookup_fmap_Some in Hq as (q0 & -> & _).
    by apply elem_of_nil in Hto.
Qed.

(** ** Rounds of the clock *)

(** A tick: [hardclock] and the [softclock] it schedules. *)
Definition round (s : state) : list nat * state := softclock (snd (timeout_hardclock_update s)).

(** The timeouts run by each of the next [n] ticks. *)
Fixpoint rounds (n : nat) (s : state) : list (list nat) :=
  match n with
  | O => []
  | S n => let '(l, s) := round s in l :: rounds n s
  end.

Lemma round_sim now p s :
  refines now p s -> timeout_todo s = [] ->
  let '(l, s') := round s in
  refines (now + 1) (later (now + 1) p) s' /\ timeout_todo s' = [] /\
  forall to, to ∈ l <-> p !! to = Some (now + 1).
Proof.
  intros Hr Hidle.
  assert (forall to d, p !! to = Some d -> now < d) as Hlater.
  { intros to d Hd. rewrite <- (idle_later now p s Hr Hidle) in Hd.
    by apply map_lookup_filter_Some in Hd as [_ ?]. }
  assert (refines (now + 1) p (snd (timeout_hardclock_update s))) as Hr'.
  { apply hardclock_sim; [done|]. intros to d Hd. specialize (Hlater to d Hd). lia. }
  pose proof (softclock_sim (now + 1) p _ Hr') as Hs. unfold round.
  destruct (softclock _) as [l s']. destruct Hs as (? & ? & Hl). split_and!; try done.
  intros to. rewrite Hl. split; [|intros; exists (now + 1); split; [done|lia]].
  intros (d & Hd & Hle). specialize (Hlater to d Hd). replace (now + 1) with d by lia. done.
Qed.

Lemma rounds_exact n now p s to d i l :
  refines now p s -> timeout_todo s = [] -> p !! to = Some d ->
  rounds n s !! i = Some l -> to ∈ l <-> d = now + 1 + Z.of_nat i.
Proof.
  revert now p s i. induction n as [|n IH]; intros now p s i Hr Hidle Hd Hi; [done|].
  simpl in Hi. pose proof (round_sim now p s Hr Hidle) as Hround. destruct (round s) as [l' s'].
  destruct Hround as (Hr' & Hidle' & Hl'). destruct i as [|i]; simplify_eq/=.
  { rewrite Hl', Hd. split; [intros; simplify_eq; lia|intros; f_equal; lia]. }
  destruct (decide (now + 1 < d)) as [Hlt|Hge].
  - rewrite (IH (now + 1) (later (now + 1) p) s' i Hr' Hidle' ltac:(by apply map_lookup_filter_Some) Hi). lia.
  - assert (forall m now p s i l, refines now p s -> timeout_todo s = [] -> p !! to = None ->
      rounds m s !! i = Some l -> to ∉ l) as Hgone.
    { clear. intros m. induction m as [|m IH]; intros now p s i l Hr Hidle Hn Hi; [done|].
      simpl in Hi. pose proof (round_sim now p s Hr Hidle) as Hround. destruct (round s) as [l' s'].
      destruct Hround as (Hr' & Hidle' & Hl'). destruct i as [|i]; simplify_eq/=.
      - rewrite Hl'. congruence.
      - eapply IH; [done|done| |done]. apply map_lookup_filter_None. by left. }
    pose proof (Hgone n (now + 1) (later (now + 1) p) s' i l Hr' Hidle') as Hno.
    split; [|lia]. intros Hin. destruct Hno; try done.
    apply map_lookup_filter_None. right. intros d' Hd'. simplify_eq/=. lia.
Qed.

(** ** Properties *)

(** What the rest of the kernel sees of the timer. *)
Inductive event :=
| EvAdd (to : nat) (n ret : Z)
| EvDel (to : nat) (ret : Z)
| EvTick
| EvRun (to : nat)
| EvSilent.

(** The code: any operation can come between two turns of [softclock]. *)
Inductive cstep (s : state) : event -> state -> Prop :=
| c_add to t n ret s' : timeouts s !! to = Some t ->
    has (to_flags t) TIMEOUT_INITIALIZED = true -> 0 <= n <= INT_MAX ->
    timeout_add to n s = Ok (ret, s') -> cstep s (EvAdd to n ret) s'
| c_del to ret s' : timeout_del to s = (ret, s') -> cstep s (EvDel to ret) s'
| c_tick b s' : timeout_hardclock_update s = (b, s') -> cstep s EvTick s'
| c_run to s' : softclock_turn s = Some (s', Some to) -> cstep s (EvRun to) s'
| c_rebucket s' : softclock_turn s = Some (s', None) -> cstep s EvSilent s'.

(** The abstract timer: a clock and the deadlines. *)
Inductive astep : Z * gmap nat Z -> event -> Z * gmap nat Z -> Prop :=
| a_add now p to n : astep (now, p)
    (EvAdd to n (match p !! to with Some _ => 0 | None => 1 end)) (now, <[to := now + n]> p)
| a_del now p to : astep (now, p)
    (EvDel to (match p !! to with Some _ => 1 | None => 0 end)) (now, delete to p)
| a_tick now p : astep (now, p) EvTick (now + 1, p)
| a_run now p to d : p !! to = Some d -> d <= now -> astep (now, p) (EvRun to) (now, delete to p)
| a_silent a : astep a EvSilent a.

(** No pending timeout is 2^31 ticks late. *)
Definition fresh (a : Z * gmap nat Z) : Prop := forall to d, a.2 !! to = Some d -> a.1 + 1 - 2 ^ 31 < d.

(** C9: the timing wheels implement the abstract timer: every operation, in
    any order and with [softclock] interrupted anywhere, has the result and
    the effect the abstract operation has on a clock that never wraps; a
    handler is called only when its timeout is pending and due.  (The clock
    must not run 2^31 ticks ahead of [softclock].) *)
Theorem timeout_simulation now p s e s' :
  refines now p s -> fresh (now, p) -> cstep s e s' ->
  exists now' p', astep (now, p) e (now', p') /\ refines now' p' s'.
Proof.
  intros Hr Hfresh [to t n ret s1 Ht Hi Hn Hadd|to ret s1 Hdel|b s1 Htick|to s1 Hrun|s1 Hrun].
  - destruct (timeout_add_sim now p s to t n Hr Ht Hi Hn) as (s2 & Hadd' & Hr').
    rewrite Hadd in Hadd'. simplify_eq. do 2 eexists. split; [constructor|done].
  - destruct (timeout_del_sim now p s to Hr) as [Hr' Hret]. rewrite Hdel in *. simpl in *. subst ret.
    do 2 eexists. split; [constructor|done].
  - pose proof (hardclock_sim now p s Hr Hfresh) as Hr'. rewrite Htick in Hr'.
    do 2 eexists. split; [constructor|done].
  - pose proof (softclock_turn_sim now p s Hr) as Ht. rewrite Hrun in Ht.
    destruct Ht as (l & d & _ & _ & Hd & Hle & Hr'). do 2 eexists. split; [by econstructor|done].
  - pose proof (softclock_turn_sim now p s Hr) as Ht. rewrite Hrun in Ht.
    destruct Ht as (to & l & d & _ & _ & Hd & Hle & Hr'). do 2 eexists. split; [constructor|done].
Qed.

(** [softclock] ends, runs exactly the timeouts that are due, and leaves
    the worklist empty and the others pending. *)
Theorem softclock_runs_due now p s :
  refines now p s ->
  let '(l, s') := softclock s in
  timeout_todo s' = [] /\ refines now (later now p) s' /\
  forall to, to ∈ l <-> exists d, p !! to = Some d /\ d <= now.
Proof.
  intros Hr. pose proof (softclock_sim now p s Hr) as H. destruct (softclock s) as [l s']. tauto.
Qed.

(** A timeout added with [n] ticks runs at the [n]-th tick from now, and
    at no other: neither the wrapping of [ticks] nor the passage through the
    wheels makes it early, late or lost. *)
Theorem timeout_fires_on_time now p s to t n m i l :
  refines now p s -> timeouts s !! to = Some t ->
  has (to_flags t) TIMEOUT_INITIALIZED = true -> 1 <= n <= INT_MAX ->
  exists ret s1, timeout_add to n s = Ok (ret, s1) /\
    (to ∉ fst (softclock s1)) /\
    (rounds m (snd (softclock s1)) !! i = Some l -> to ∈ l <-> n = Z.of_nat i + 1).
Proof.
  intros Hr Ht Hi Hn.
  destruct (timeout_add_sim now p s to t n Hr Ht Hi ltac:(lia)) as (s1 & Hadd & Hr1).
  do 2 eexists. split; [done|]. pose proof (softclock_sim _ _ _ Hr1) as Hs.
  destruct (softclock s1) as [l0 s2]. destruct Hs as (Hr2 & Hidle & Hl0). simpl. split.
  - rewrite Hl0, lookup_insert_eq. intros (d & ? & ?). simplify_eq. lia.
  - intros Hrounds. rewrite (rounds_exact m now _ s2 to (now + n) i l Hr2 Hidle); [lia| |done].
    apply map_lookup_filter_Some. rewrite lookup_insert_eq. split; [done|]. simpl. lia.
Qed.

(** [timeout_adjust_ticks] moves the clock ahead: the timeouts of the
    wheels keep their time or become due at once, and none is lost. *)
Theorem timeout_adjust_spec now p s adj :
  refines now p s -> 0 < adj <= INT_MAX ->
  (forall to d, p !! to = Some d -> now + adj - 2 ^ 31 < d) ->
  refines (now + adj) (map_imap (fun to d => Some (adjust_time now adj s to d)) p)
    (timeout_adjust_ticks adj s).
Proof. apply adjust_sim. Qed.

Lemma clamp_spec x : 0 <= x < 2 ^ 63 -> clamp x = Z.min x INT_MAX.
Proof.
  intros Hx. unfold clamp, INT_MAX. rewrite (wraps_small 64) by lia. case_if; [lia|].
  rewrite (wraps_small 32) by lia. lia.
Qed.

(** For times that are not negative and fit a [long long] of ticks, the
    conversions round down to whole ticks and stop at [INT_MAX]: the tick
    count given to [timeout_add] is never negative. *)
Theorem timeout_conversions hz tick sec usec nsec msecs :
  0 < hz -> 0 < tick -> 0 <= sec -> 0 <= usec < 1000000 -> 0 <= nsec < 1000000000 ->
  hz * sec + 1000000 < 2 ^ 63 -> 0 <= msecs < 2 ^ 31 ->
  ticks_tv hz tick sec usec = Z.min (hz * sec + usec / tick) INT_MAX /\
  ticks_ts hz tick sec nsec = Z.min (hz * sec + nsec / (tick * 1000)) INT_MAX /\
  ticks_sec hz sec = Z.min (hz * sec) INT_MAX /\
  ticks_msec tick msecs = Z.min (msecs * 1000 / tick) INT_MAX /\
  0 <= ticks_usec tick usec <= INT_MAX /\ 0 <= ticks_nsec tick nsec <= INT_MAX.
Proof.
  intros Hhz Htick Hsec Hus Hns Hfit Hms. unfold ticks_tv, ticks_ts, ticks_sec, ticks_msec, ticks_usec, ticks_nsec.
  rewrite !Z.quot_div_nonneg by lia.
  assert (forall x y, 0 <= x -> 0 < y -> 0 <= x / y <= x) as Hdiv.
  { intros x y ? ?. split; [apply Z.div_pos; lia|]. apply Z.div_le_upper_bound; nia. }
  pose proof (Hdiv usec tick). pose proof (Hdiv (msecs * 1000) tick).
  pose proof (Hdiv nsec (tick * 1000)).
  assert (nsec / (tick * 1000) <= 1000000).
  { apply Z.div_le_upper_bound; nia. }
  rewrite !clamp_spec by nia. unfold INT_MAX. split_and!; try done; nia.
Qed.

(** A negative time can come out positive: only the upper end is clamped
    before the value is cut to an [int]. *)
Example timeout_add_sec_negative : ticks_sec 100 (-42949672) = 96.
Proof. vm_compute. reflexivity. Qed.

(** At startup nothing is pending. *)
Lemma refines_startup now s :
  ticks s = s32 now ->
  (forall to t, timeouts s !! to = Some t -> has (to_flags t) TIMEOUT_ONQUEUE = false) ->
  refines now ∅ (timeout_startup s).
Proof.
  intros Hti Hfl.
  assert (concat (replicate BUCKETS []) = ([] : list nat)) as Hempty by reflexivity.
  constructor; unfold on_queue; simpl; rewrite ?Hempty; try done.
  - constructor.
  - intros to. rewrite lookup_empty. split; [by intros ?%elem_of_nil|by intros []].
  - intros to t Ht _. by eapply Hfl.
Qed.

(** ** Witnesses *)

(** Two initialized timeouts, 10 ticks before [ticks] wraps. *)
Definition demo : state :=
  timeout_startup (timeout_set 2 20 21 (timeout_set 1 10 11 (State (2 ^ 31 - 10) [] [] ∅))).

Lemma demo_refines : refines (2 ^ 31 - 10) ∅ demo.
Proof.
  unfold demo. apply refines_startup; [reflexivity|]. intros to t. simpl.
  intros [[<- <-]|[_ [[<- <-]|[_ ?]]%lookup_insert_Some]]%lookup_insert_Some; done.
Qed.

Lemma timeout_simulation_witness :
  exists now' p', astep (2 ^ 31 - 10, ∅) EvTick (now', p') /\
    refines now' p' (snd (timeout_hardclock_update demo)).
Proof.
  apply (timeout_simulation (2 ^ 31 - 10) ∅ demo).
  - exact demo_refines.
  - intros to d Hd. discriminate Hd.
  - apply (c_tick _ (fst (timeout_hardclock_update demo))). vm_compute. reflexivity.
Defined.

Lemma softclock_runs_due_witness :
  let '(l, s') := softclock demo in
  timeout_todo s' = [] /\ refines (2 ^ 31 - 10) (later (2 ^ 31 - 10) ∅) s' /\
  forall to, to ∈ l <-> exists d, (∅ : gmap nat Z) !! to = Some d /\ d <= 2 ^ 31 - 10.
Proof. apply (softclock_runs_due (2 ^ 31 - 10) ∅ demo). exact demo_refines. Defined.

Lemma timeout_fires_on_time_witness :
  exists ret s1, timeout_add 1 300 demo = Ok (ret, s1) /\
    (1%nat ∉ fst (softclock s1)) /\
    (rounds 300 (snd (softclock s1)) !! 299%nat = Some [1%nat] ->
     1%nat ∈ [1%nat] <-> 300 = Z.of_nat 299 + 1).
Proof.
  apply (timeout_fires_on_time (2 ^ 31 - 10) ∅ demo 1 (Timeout 10 11 0 TIMEOUT_INITIALIZED) 300 300 299 [1%nat]).
  - exact demo_refines.
  - reflexivity.
  - reflexivity.
  - unfold INT_MAX. lia.
Defined.

(** The timeout really runs at tick 300, across the wrap of [ticks]. *)
Example demo_fires :
  match timeout_add 1 300 demo with
  | Ok (_, s1) => filter (fun x => x.2 <> []) (imap (fun i l => (i, l)) (rounds 320 (snd (softclock s1))))
                  = [(299%nat, [1%nat])]
  | Panic => False
  end.
Proof. vm_compute. reflexivity. Qed.

Lemma timeout_adjust_spec_witness :
  refines (2 ^ 31 - 10 + 5) (map_imap (fun to d => Some (adjust_time (2 ^ 31 - 10) 5 demo to d)) ∅)
    (timeout_adjust_ticks 5 demo).
Proof.
  apply (timeout_adjust_spec (2 ^ 31 - 10) ∅ demo 5).
  - exact demo_refines.
  - unfold INT_MAX. lia.
  - intros to d. by rewrite lookup_empty.
Defined.

Lemma timeout_conversions_witness :
  ticks_tv 100 10000 3 250000 = Z.min (100 * 3 + 250000 / 10000) INT_MAX /\
  ticks_ts 100 10000 3 5000 = Z.min (100 * 3 + 5000 / (10000 * 1000)) INT_MAX /\
  ticks_sec 100 3 = Z.min (100 * 3) INT_MAX /\
  ticks_msec 10000 55 = Z.min (55 * 1000 / 10000) INT_MAX /\
  0 <= ticks_usec 10000 250000 <= INT_MAX /\ 0 <= ticks_nsec 10000 5000 <= INT_MAX.
Proof. apply (timeout_conversions 100 10000 3 250000 5000 55); lia. Defined.
