(* ===== verification/Clist.v ===== *)
(** * Terminal queues (kern/tty_subr.c)

    A clist is a ring buffer of characters with an optional bit per character
    that tells if it is quoted.  The pointers [c_cf], [c_cl] into the buffer
    are offsets from its start [c_cs] ([None] is [NULL]); [c_ce] is the offset
    [c_cn].  A function that follows a null pointer, or runs out of turns of
    its loop, gives [None]; the theorems show that this does not happen on
    the clists that [clalloc] makes.  All functions run at [spltty]. *)

From S2P Require Import Prelude.

(** ** Arrays of bytes *)

Definition get (a : list Z) (i : Z) : Z := default 0 (a !! Z.to_nat i).
Definition put (a : list Z) (i v : Z) : list Z := <[Z.to_nat i := u8 v]> a.

(** [memcpy] into and out of an array. *)
Definition slice (a : list Z) (off len : Z) : list Z := take (Z.to_nat len) (drop (Z.to_nat off) a).
Definition write (a : list Z) (off : Z) (data : list Z) : list Z :=
  take (Z.to_nat off) a ++ data ++ drop (Z.to_nat off + length data) a.

(** Bit arrays, the macros of sys/param.h. *)
Definition NBBY : Z := 8.
Definition setbit (a : list Z) (i : Z) : list Z :=
  put a (Z.shiftr i 3) (get a (Z.shiftr i 3) .| Z.shiftl 1 (i .& (NBBY - 1))).
Definition clrbit (a : list Z) (i : Z) : list Z :=
  put a (Z.shiftr i 3) (clear (get a (Z.shiftr i 3)) (Z.shiftl 1 (i .& (NBBY - 1)))).
Definition isset (a : list Z) (i : Z) : bool :=
  has (get a (Z.shiftr i 3)) (Z.shiftl 1 (i .& (NBBY - 1))).

(** ** Data *)

Definition TTY_QUOTE : Z := 0x100.
Definition QMEM (n : Z) : Z := (n - 1) / NBBY + 1.

Record clist := Clist {
  c_cc : Z;                   (* count of characters in queue *)
  c_cn : Z;                   (* total ring buffer length *)
  c_cf : option Z;            (* first character *)
  c_cl : option Z;            (* next open character *)
  c_cs : option (list Z);     (* the ring buffer *)
  c_cq : option (list Z)      (* the quote bits *)
}.

Definition zeros (n : Z) : list Z := replicate (Z.to_nat n) 0.

Definition clalloc (size : Z) (quot : bool) : clist :=
  Clist 0 size None None (Some (zeros size)) (if quot then Some (zeros (QMEM size)) else None).

Definition clfree (clp : clist) : clist :=
  Clist (c_cc clp) (c_cn clp) (c_cf clp) (c_cl clp) None None.

(** ** Quote bits *)

Fixpoint zero_bytes (n : nat) (a : list Z) (i : Z) : list Z :=
  match n with O => a | S n => zero_bytes n (put a i 0) (i + 1) end.

Definition clrbits (cp : list Z) (off len : Z) : list Z :=
  if len =? 1 then clrbit cp off
  else
    let sby := off / NBBY in
    let sbi := off mod NBBY in
    let eby := (off + len) / NBBY in
    let ebi := (off + len) mod NBBY in
    if sby =? eby then
      let mask := u8 (Z.shiftl (Z.shiftl 1 (ebi - sbi) - 1) sbi) in
      put cp sby (clear (get cp sby) mask)
    else
      let mask := u8 (Z.shiftl 1 sbi - 1) in
      let cp := put cp sby (get cp sby .& mask) in
      let sby := sby + 1 in
      let cp := zero_bytes (Z.to_nat (eby - sby)) cp sby in
      let mask := u8 (Z.shiftl 1 ebi - 1) in
      if mask =? 0 then cp else put cp eby (clear (get cp eby) mask).

Definition clrbits_q (cq : option (list Z)) (off len : Z) : option (list Z) :=
  match cq with Some q => Some (clrbits q off len) | None => None end.

(** The character at offset [i] with its quote bit. *)
Definition char_at (cs : list Z) (cq : option (list Z)) (i : Z) : Z :=
  let c := get cs i .& 0xff in
  match cq with
  | Some q => if isset q i then c .| TTY_QUOTE else c
  | None => c
  end.

(** ** Characters *)

Definition clrbit_q (cq : option (list Z)) (i : Z) : option (list Z) :=
  match cq with Some q => Some (clrbit q i) | None => None end.

Definition getc (clp : clist) : option (Z * clist) :=
  if c_cc clp =? 0 then Some (-1, clp)
  else
    match c_cs clp, c_cf clp with
    | Some cs, Some cf =>
      let c := char_at cs (c_cq clp) cf in
      let cs := put cs cf 0 in
      let cq := clrbit_q (c_cq clp) cf in
      let cf := if cf + 1 =? c_cn clp then 0 else cf + 1 in
      let cc := c_cc clp - 1 in
      Some (c, if cc =? 0 then Clist cc (c_cn clp) None None (Some cs) cq
               else Clist cc (c_cn clp) (Some cf) (c_cl clp) (Some cs) cq)
    | _, _ => None
    end.

(** The part of [putc] and [b_to_q] that makes an empty clist ready. *)
Definition reopen (clp : clist) : clist :=
  if c_cc clp =? 0 then
    let clp := match c_cs clp with None => clalloc 1024 true | Some _ => clp end in
    Clist (c_cc clp) (c_cn clp) (Some 0) (Some 0) (c_cs clp) (c_cq clp)
  else clp.

Definition putc (c : Z) (clp : clist) : option (Z * clist) :=
  if c_cc clp =? c_cn clp then Some (-1, clp)
  else
    let clp := reopen clp in
    match c_cs clp, c_cl clp with
    | Some cs, Some cl =>
      let cs := put cs cl (c .& 0xff) in
      let cq :=
        match c_cq clp with
        | Some q => Some (if has c TTY_QUOTE then setbit q cl else clrbit q cl)
        | None => None
        end in
      let cl := if cl + 1 =? c_cn clp then 0 else cl + 1 in
      Some (0, Clist (c_cc clp + 1) (c_cn clp) (c_cf clp) (Some cl) (Some cs) cq)
    | _, _ => None
    end.

(** [unputc]; the [unsigned int] result is converted to [int]. *)
Definition unputc (clp : clist) : option (Z * clist) :=
  if c_cc clp =? 0 then Some (-1, clp)
  else
    match c_cs clp, c_cl clp with
    | Some cs, Some cl =>
      let cl := if cl =? 0 then c_cn clp - 1 else cl - 1 in
      let cc := c_cc clp - 1 in
      let c := char_at cs (c_cq clp) cl in
      let cs := put cs cl 0 in
      let cq := clrbit_q (c_cq clp) cl in
      Some (c, if cc =? 0 then Clist cc (c_cn clp) None None (Some cs) cq
               else Clist cc (c_cn clp) (c_cf clp) (Some cl) (Some cs) cq)
    | _, _ => None
    end.

(** ** Blocks *)

(** Length of the next contiguous run, at most [count]. *)
Definition run_out (clp : clist) (cf cl count : Z) : Z :=
  Z.min (if cl <=? cf then c_cn clp - cf else cl - cf) count.

Definition advance (n p k : Z) : Z := if p + k =? n then 0 else p + k.

(** The loop of [q_to_b]; [out] is what was copied so far. *)
Fixpoint q_to_b_loop (fuel : nat) (clp : clist) (out : list Z) (count : Z)
  : option (list Z * clist) :=
  if (0 <? count) && (0 <? c_cc clp) then
    match fuel, c_cs clp, c_cf clp, c_cl clp with
    | S fuel, Some cs, Some cf, Some cl =>
      let cc := run_out clp cf cl count in
      q_to_b_loop fuel
        (Clist (c_cc clp - cc) (c_cn clp) (Some (advance (c_cn clp) cf cc)) (Some cl)
           (Some (write cs cf (zeros cc))) (clrbits_q (c_cq clp) cf cc))
        (out ++ slice cs cf cc) (count - cc)
    | _, _, _, _ => None
    end
  else Some (out, clp).

(** Behind the loops of [q_to_b] and [ndflush]. *)
Definition reset_empty (clp : clist) : clist :=
  if c_cc clp =? 0 then Clist (c_cc clp) (c_cn clp) None None (c_cs clp) (c_cq clp) else clp.

Definition q_to_b (clp : clist) (count : Z) : option (list Z * clist) :=
  match q_to_b_loop 2 clp [] count with
  | Some (out, clp) => Some (out, reset_empty clp)
  | None => None
  end.

Fixpoint ndflush_loop (fuel : nat) (clp : clist) (count : Z) : option clist :=
  if (0 <? count) && (0 <? c_cc clp) then
    match fuel, c_cf clp, c_cl clp with
    | S fuel, Some cf, Some cl =>
      let cc := run_out clp cf cl count in
      ndflush_loop fuel
        (Clist (c_cc clp - cc) (c_cn clp) (Some (advance (c_cn clp) cf cc)) (Some cl)
           (c_cs clp) (c_cq clp)) (count - cc)
    | _, _, _ => None
    end
  else Some clp.

Definition ndflush (clp : clist) (count : Z) : option clist :=
  if count =? c_cc clp then
    Some (Clist 0 (c_cn clp) None None (c_cs clp) (c_cq clp))
  else
    match ndflush_loop 2 clp count with
    | Some clp => Some (reset_empty clp)
    | None => None
    end.

(** The loop of [b_to_q]; [cp] is what is left of the buffer. *)
Fixpoint b_to_q_loop (fuel : nat) (cp : list Z) (count : Z) (clp : clist) : option (Z * clist) :=
  if (0 <? count) && (c_cc clp <? c_cn clp) then
    match fuel, c_cs clp, c_cf clp, c_cl clp with
    | S fuel, Some cs, Some cf, Some cl =>
      let cc := Z.min (if cl <? cf then cf - cl else c_cn clp - cl) count in
      b_to_q_loop fuel (drop (Z.to_nat cc) cp) (count - cc)
        (Clist (c_cc clp + cc) (c_cn clp) (Some cf) (Some (advance (c_cn clp) cl cc))
           (Some (write cs cl (take (Z.to_nat cc) cp))) (clrbits_q (c_cq clp) cl cc))
    | _, _, _, _ => None
    end
  else Some (count, clp).

Definition b_to_q (cp : list Z) (count : Z) (clp : clist) : option (Z * clist) :=
  if count <=? 0 then Some (0, clp)
  else if c_cc clp =? c_cn clp then Some (count, clp)
  else b_to_q_loop 2 cp count (reopen clp).

(** ** Scanning *)

(** The loops of [ndqb] from offset [i], with [cc] characters left.  The
    quote bit tested is the one behind the character: [i] has been advanced
    in the same condition.  A bit outside the bit array gives [None]. *)
Fixpoint ndqb_quote (cc : nat) (cs q : list Z) (cn flag i count : Z) : option Z :=
  match cc with
  | O => Some count
  | S cc =>
    let c := get cs i in
    let i := i + 1 in
    if has c (clear flag TTY_QUOTE) then Some count
    else if Z.of_nat (length q) <=? Z.shiftr i 3 then None
    else if isset q i then Some count
    else if i =? cn then Some (count + 1)
    else ndqb_quote cc cs q cn flag i (count + 1)
  end.

Fixpoint ndqb_plain (cc : nat) (cs : list Z) (cn flag i count : Z) : Z :=
  match cc with
  | O => count
  | S cc =>
    let c := get cs i in
    let i := i + 1 in
    if has c flag then count
    else if i =? cn then count + 1
    else ndqb_plain cc cs cn flag i (count + 1)
  end.

Definition ndqb (clp : clist) (flag : Z) : option Z :=
  if c_cc clp =? 0 then Some 0
  else
    match c_cs clp, c_cf clp, c_cl clp with
    | Some cs, Some cf, Some cl =>
      if flag =? 0 then
        let count := cl - cf in
        Some (if count <=? 0 then c_cn clp - cf else count)
      else if has flag TTY_QUOTE then
        match c_cq clp with
        | Some q => ndqb_quote (Z.to_nat (c_cc clp)) cs q (c_cn clp) flag cf 0
        | None => None
        end
      else Some (ndqb_plain (Z.to_nat (c_cc clp)) cs (c_cn clp) flag cf 0)
    | _, _, _ => None
    end.

(** [firstc] and [nextc] give a pointer, the character there and the new
    value of the static counter [cc]; [inr] is the return of [NULL]. *)
Definition firstc (clp : clist) : option ((Z * Z * Z) + Z) :=
  let cc := c_cc clp in
  if cc =? 0 then Some (inr cc)
  else
    match c_cs clp, c_cf clp with
    | Some cs, Some cf => Some (inl (cf, char_at cs (c_cq clp) cf, cc))
    | _, _ => None
    end.

Definition nextc (clp : clist) (cp : option Z) (cc : Z) : option ((Z * Z * Z) + Z) :=
  let cc := if bool_decide (c_cf clp = cp) then c_cc clp else cc in
  match cp with
  | None => Some (inr cc)
  | Some cp =>
    if cc =? 0 then Some (inr cc)
    else
      let cc := cc - 1 in
      if cc =? 0 then Some (inr cc)
      else
        let cp := if cp + 1 =? c_cn clp then 0 else cp + 1 in
        match c_cs clp with
        | Some cs => Some (inl (cp, char_at cs (c_cq clp) cp, cc))
        | None => None
        end
  end.

(** ** Moving a queue *)

(** The loop of [catq]; one turn per character of [from] is enough. *)
Fixpoint catq_loop (fuel : nat) (from to : clist) : option (clist * clist) :=
  match getc from with
  | None => None
  | Some (c, from) =>
    if c =? -1 then Some (from, to)
    else
      match fuel, putc c to with
      | S fuel, Some (_, to) => catq_loop fuel from to
      | _, _ => None
      end
  end.

Definition catq (from to : clist) : option (clist * clist) :=
  if c_cc from =? 0 then Some (from, to)
  else if (c_cc to =? 0) && (c_cn from =? c_cn to) then Some (to, from)
  else catq_loop (Z.to_nat (c_cc from)) from to.

(** * Proofs *)

(** ** Arrays *)

Lemma get_put a i v j :
  0 <= i -> 0 <= j -> get (put a i v) j =
    if bool_decide (i = j /\ i < Z.of_nat (length a)) then u8 v else get a j.
Proof.
  intros Hi Hj. unfold get, put. case_bool_decide as H.
  - destruct H as [-> H]. by rewrite list_lookup_insert_eq by lia.
  - destruct (decide (i = j)) as [->|Hne].
    + by rewrite list_insert_ge by lia.
    + by rewrite list_lookup_insert_ne by lia.
Qed.

Lemma length_put a i v : length (put a i v) = length a.
Proof. apply length_insert. Qed.

Lemma get_write a off data j :
  0 <= off -> off + Z.of_nat (length data) <= Z.of_nat (length a) -> 0 <= j ->
  get (write a off data) j =
    if bool_decide (off <= j < off + Z.of_nat (length data)) then get data (j - off) else get a j.
Proof.
  intros Hoff Hlen Hj. unfold get, write.
  assert (length (take (Z.to_nat off) a) = Z.to_nat off) as Ht by (rewrite length_take; lia).
  case_bool_decide as H.
  - rewrite lookup_app_r by lia. rewrite lookup_app_l by lia. rewrite Ht. do 2 f_equal. lia.
  - destruct (decide (j < off)).
    + rewrite lookup_app_l by lia. by rewrite lookup_take_lt by lia.
    + rewrite lookup_app_r by lia. rewrite lookup_app_r by lia. rewrite lookup_drop, Ht. do 2 f_equal. lia.
Qed.

Lemma length_write a off data :
  0 <= off -> off + Z.of_nat (length data) <= Z.of_nat (length a) ->
  length (write a off data) = length a.
Proof. intros. unfold write. rewrite !length_app, length_take, length_drop. lia. Qed.

Lemma get_zeros n i : get (zeros n) i = 0.
Proof.
  unfold get, zeros. destruct (decide (Z.to_nat i < Z.to_nat n)%nat).
  - by rewrite lookup_replicate_2.
  - rewrite (proj2 (lookup_ge_None _ _)); [done|]. rewrite length_replicate. lia.
Qed.

(** ** Bits *)

(** All elements are bytes. *)
Definition bytes (a : list Z) : Prop := Forall (inu 8) a.

Lemma bytes_get a i : bytes a -> inu 8 (get a i).
Proof.
  intros Ha. unfold get. destruct (a !! Z.to_nat i) as [x|] eqn:E; simpl; [|unfold inu; lia].
  unfold bytes in Ha. rewrite Forall_forall in Ha. by eapply Ha, list_elem_of_lookup_2.
Qed.

Lemma bytes_put a i v : bytes a -> bytes (put a i v).
Proof. intros Ha. apply Forall_insert; [done|]. by apply wrapu_range. Qed.

Lemma bytes_zeros n : bytes (zeros n).
Proof. apply Forall_replicate. unfold inu. lia. Qed.

Lemma bytes_write a off data : bytes a -> bytes data -> bytes (write a off data).
Proof.
  intros Ha Hd. unfold write, bytes in *. rewrite !Forall_app.
  split_and!; [by apply Forall_take|done|by apply Forall_drop].
Qed.

Lemma byte_index i : 0 <= i -> Z.shiftr i 3 = i / 8 /\ i .& (NBBY - 1) = i mod 8.
Proof.
  intros Hi. rewrite Z.shiftr_div_pow2 by lia. change (NBBY - 1) with (Z.ones 3).
  by rewrite Z.land_ones by lia.
Qed.

Lemma has_bit x j : 0 <= j -> has x (Z.shiftl 1 j) = Z.testbit x j.
Proof.
  intros Hj. unfold has. rewrite Z.shiftl_1_l. destruct (Z.testbit x j) eqn:E.
  - apply negb_true_iff, Z.eqb_neq. intros H0.
    assert (Z.testbit (x .& 2 ^ j) j = false) as H by (by rewrite H0, Z.bits_0).
    by rewrite Z.land_spec, E, Z.pow2_bits_true in H.
  - apply negb_false_iff, Z.eqb_eq. apply Z.bits_inj'. intros i Hi. rewrite Z.land_spec, Z.bits_0.
    destruct (decide (j = i)) as [->|Hne]; [by rewrite E|]. by rewrite Z.pow2_bits_false, andb_false_r.
Qed.

Lemma isset_bit a i : 0 <= i -> isset a i = Z.testbit (get a (i / 8)) (i mod 8).
Proof.
  intros Hi. unfold isset. destruct (byte_index i Hi) as [-> ->]. apply has_bit.
  apply Z.mod_pos_bound. lia.
Qed.

(** A write to one byte of a bit array. *)
Lemma isset_put a b v i :
  0 <= b < Z.of_nat (length a) -> 0 <= i -> inu 8 v ->
  isset (put a b v) i = if i / 8 =? b then Z.testbit v (i mod 8) else isset a i.
Proof.
  intros Hb Hi Hv. rewrite !isset_bit by done. assert (0 <= i / 8) by (apply Z.div_pos; lia).
  rewrite get_put by lia. rewrite wrapu_small by done.
  destruct (Z.eqb_spec (i / 8) b) as [->|Hne].
  - by rewrite bool_decide_eq_true_2 by lia.
  - by rewrite bool_decide_eq_false_2 by lia.
Qed.

Lemma inu8_clear x m : inu 8 x -> inu 8 (clear x m).
Proof.
  intros Hx. apply inu_bits; [lia| |].
  - intros i Hi. unfold clear. by rewrite Z.ldiff_spec, (testbit_above 8) by (done || lia).
  - unfold clear. apply Z.ldiff_nonneg. left. apply Hx.
Qed.

Lemma bit_eq i j : 0 <= i -> 0 <= j -> i / 8 = j / 8 -> i mod 8 = j mod 8 -> i = j.
Proof. intros. rewrite (Z_div_mod_eq_full i 8), (Z_div_mod_eq_full j 8). lia. Qed.

Lemma pow2_testbit j i : 0 <= j -> 0 <= i -> Z.testbit (Z.shiftl 1 j) i = (i =? j).
Proof.
  intros Hj Hi. rewrite Z.shiftl_1_l. rewrite Z.pow2_bits_eqb by done. apply Z.eqb_sym.
Qed.

Section BitArray.

Variables (a : list Z) (i j : Z).
Hypotheses (Ha : bytes a) (Hi : 0 <= i < 8 * Z.of_nat (length a)) (Hj : 0 <= j).

Lemma bit_index : 0 <= i / 8 < Z.of_nat (length a).
Proof. split; [apply Z.div_pos; lia|]. apply Z.div_lt_upper_bound; lia. Qed.

Lemma isset_setbit : isset (setbit a i) j = (i =? j) || isset a j.
Proof.
  pose proof bit_index as Hb. pose proof (Z.mod_pos_bound i 8 ltac:(lia)). pose proof (Z.mod_pos_bound j 8 ltac:(lia)).
  unfold setbit. destruct (byte_index i ltac:(lia)) as [-> ->]. rewrite isset_put; [|done|done|].
  - destruct (Z.eqb_spec (j / 8) (i / 8)) as [E|E].
    + rewrite Z.lor_spec, pow2_testbit by lia. rewrite isset_bit, E by done.
      rewrite orb_comm. f_equal. destruct (Z.eqb_spec i j) as [->|Hne]; [by rewrite Z.eqb_refl|].
      apply Z.eqb_neq. intros Hm. apply Hne. apply bit_eq; lia.
    + rewrite (proj2 (Z.eqb_neq i j)) by congruence. done.
  - apply inu_lor; [lia|by apply bytes_get|]. apply (inu_mono (1 + i mod 8)); [lia|].
    apply inu_shiftl; unfold inu; lia.
Qed.

Lemma isset_clrbit : isset (clrbit a i) j = negb (i =? j) && isset a j.
Proof.
  pose proof bit_index as Hb. pose proof (Z.mod_pos_bound i 8 ltac:(lia)). pose proof (Z.mod_pos_bound j 8 ltac:(lia)).
  unfold clrbit. destruct (byte_index i ltac:(lia)) as [-> ->].
  rewrite isset_put; [|done|done|by apply inu8_clear, bytes_get].
  destruct (Z.eqb_spec (j / 8) (i / 8)) as [E|E].
  - unfold clear. rewrite Z.ldiff_spec, pow2_testbit by lia. rewrite isset_bit, E by done.
    rewrite andb_comm. f_equal. f_equal. destruct (Z.eqb_spec i j) as [->|Hne]; [by rewrite Z.eqb_refl|].
    apply Z.eqb_neq. intros Hm. apply Hne. apply bit_eq; lia.
  - rewrite (proj2 (Z.eqb_neq i j)) by congruence. done.
Qed.

Lemma bytes_setbit : bytes (setbit a i) /\ length (setbit a i) = length a.
Proof. split; [by apply bytes_put|apply length_put]. Qed.

Lemma bytes_clrbit : bytes (clrbit a i) /\ length (clrbit a i) = length a.
Proof. split; [by apply bytes_put|apply length_put]. Qed.

End BitArray.

(** ** [clrbits] *)

Lemma ones_sub n : Z.shiftl 1 n - 1 = Z.ones n.
Proof. unfold Z.ones. lia. Qed.

Lemma ones_bit n i : 0 <= n -> 0 <= i -> Z.testbit (Z.ones n) i = (i <? n).
Proof. intros. rewrite Z.testbit_ones by lia. by rewrite (proj2 (Z.leb_le 0 i)) by lia. Qed.

Lemma ones_inu n : 0 <= n <= 8 -> inu 8 (Z.ones n).
Proof.
  intros. rewrite <- ones_sub, Z.shiftl_1_l. unfold inu.
  pose proof (Z.pow_le_mono_r 2 n 8). pose proof (Z.pow_pos_nonneg 2 n). lia.
Qed.

Lemma zero_bytes_spec n a b :
  bytes a -> 0 <= b -> b + Z.of_nat n <= Z.of_nat (length a) ->
  bytes (zero_bytes n a b) /\ length (zero_bytes n a b) = length a /\
  forall i, 0 <= i -> isset (zero_bytes n a b) i = negb (bool_decide (b <= i / 8 < b + Z.of_nat n)) && isset a i.
Proof.
  revert a b. induction n as [|n IH]; intros a b Ha Hb Hn; simpl.
  - split_and!; try done. intros i Hi. by rewrite bool_decide_eq_false_2 by lia.
  - destruct (IH (put a b 0) (b + 1)) as (H1 & H2 & H3);
      [by apply bytes_put|lia|rewrite length_put; lia|]. split_and!; [done|by rewrite H2, length_put|].
    intros i Hi. rewrite H3 by done. rewrite isset_put by (unfold inu; lia). rewrite Z.bits_0.
    destruct (Z.eqb_spec (i / 8) b).
    + rewrite andb_false_r. by rewrite bool_decide_eq_true_2 by lia.
    + f_equal. f_equal. apply bool_decide_ext. lia.
Qed.

(** Inside one byte. *)
Lemma clrbits_one a off len i :
  bytes a -> 0 <= off -> 0 <= len -> off + len < 8 * Z.of_nat (length a) -> 0 <= i ->
  off / 8 = (off + len) / 8 ->
  isset (put a (off / 8) (clear (get a (off / 8))
    (u8 (Z.shiftl (Z.shiftl 1 ((off + len) mod 8 - off mod 8) - 1) (off mod 8))))) i =
  negb (bool_decide (off <= i < off + len)) && isset a i.
Proof.
  intros Ha Hoff Hlen Hend Hi Heq.
  pose proof (Z.mod_pos_bound off 8 ltac:(lia)). pose proof (Z.mod_pos_bound (off + len) 8 ltac:(lia)).
  pose proof (Z.mod_pos_bound i 8 ltac:(lia)).
  pose proof (Z_div_mod_eq_full off 8). pose proof (Z_div_mod_eq_full (off + len) 8).
  pose proof (Z_div_mod_eq_full i 8).
  assert (0 <= off / 8 < Z.of_nat (length a)).
  { split; [apply Z.div_pos; lia|apply Z.div_lt_upper_bound; lia]. }
  rewrite isset_put by (done || by apply inu8_clear, bytes_get).
  rewrite ones_sub. rewrite wrapu_small.
  2: { apply (inu_mono ((off + len) mod 8 - off mod 8 + off mod 8)); [lia|].
       apply inu_shiftl; [lia..|]. rewrite <- ones_sub, Z.shiftl_1_l. unfold inu.
       pose proof (Z.pow_pos_nonneg 2 ((off + len) mod 8 - off mod 8)). lia. }
  destruct (Z.eqb_spec (i / 8) (off / 8)) as [E|E].
  - unfold clear. rewrite Z.ldiff_spec, Z.shiftl_spec by lia. rewrite isset_bit, E, andb_comm by done.
    f_equal. f_equal. destruct (decide (off mod 8 <= i mod 8)).
    + rewrite ones_bit by lia. apply eq_bool_prop_intro. rewrite bool_decide_spec. rewrite Is_true_true, Z.ltb_lt. lia.
    + rewrite Z.testbit_neg_r by lia. by rewrite bool_decide_eq_false_2 by lia.
  - by rewrite bool_decide_eq_false_2 by lia.
Qed.

(** Across bytes: the first byte keeps its low bits, the bytes between are
    cleared, the last byte loses its low bits. *)
Lemma clrbits_many a off len i :
  bytes a -> 0 <= off -> off + len <= 8 * Z.of_nat (length a) -> 0 <= i ->
  off / 8 < (off + len) / 8 ->
  let cp := put a (off / 8) (get a (off / 8) .& u8 (Z.shiftl 1 (off mod 8) - 1)) in
  let cp := zero_bytes (Z.to_nat ((off + len) / 8 - (off / 8 + 1))) cp (off / 8 + 1) in
  let mask := u8 (Z.shiftl 1 ((off + len) mod 8) - 1) in
  let cp' := if mask =? 0 then cp
             else put cp ((off + len) / 8) (clear (get cp ((off + len) / 8)) mask) in
  bytes cp' /\ length cp' = length a /\
  isset cp' i = negb (bool_decide (off <= i < off + len)) && isset a i.
Proof.
  intros Ha Hoff Hend Hi Hlt.
  pose proof (Z.mod_pos_bound off 8 ltac:(lia)). pose proof (Z.mod_pos_bound (off + len) 8 ltac:(lia)).
  pose proof (Z.mod_pos_bound i 8 ltac:(lia)). assert (0 <= i / 8) by (apply Z.div_pos; lia).
  pose proof (Z_div_mod_eq_full off 8). pose proof (Z_div_mod_eq_full (off + len) 8).
  pose proof (Z_div_mod_eq_full i 8).
  set (sby := off / 8) in *. set (sbi := off mod 8) in *. set (eby := (off + len) / 8) in *.
  set (ebi := (off + len) mod 8) in *.
  assert (0 <= sby) by (apply Z.div_pos; lia).
  rewrite !ones_sub. rewrite !(wrapu_small 8 (Z.ones _)) by (apply ones_inu; lia).
  assert (inu 8 (get a sby .& Z.ones sbi)) as Hinu
    by (apply inu_land; [lia|by apply bytes_get|apply ones_inu; lia]).
  set (cp1 := put a sby (get a sby .& Z.ones sbi)).
  destruct (zero_bytes_spec (Z.to_nat (eby - (sby + 1))) cp1 (sby + 1)) as (Hb2 & Hl2 & Hz2);
    [by apply bytes_put|lia|unfold cp1; rewrite length_put; lia|].
  set (cp2 := zero_bytes _ cp1 (sby + 1)) in *. unfold cp1 in Hl2. rewrite length_put in Hl2.
  assert (isset cp2 i = negb (bool_decide (off <= i < 8 * eby)) && isset a i) as Hcp2.
  { rewrite Hz2 by done. unfold cp1. rewrite isset_put by (done || lia).
    destruct (Z.eqb_spec (i / 8) sby) as [E|E].
    - rewrite bool_decide_eq_false_2 by lia. rewrite Z.land_spec, ones_bit by lia.
      rewrite isset_bit, E by done. simpl. rewrite andb_comm. f_equal.
      apply eq_bool_prop_intro. rewrite negb_True, bool_decide_spec, Is_true_true, Z.ltb_lt. lia.
    - f_equal. f_equal. apply bool_decide_ext. lia. }
  intros cp cp3 mask cp'. subst cp cp3 mask. fold cp2 in cp'. unfold cp'. clear cp'.
  destruct (Z.eqb_spec (Z.ones ebi) 0) as [E|E].
  - assert (ebi = 0) as E0.
    { rewrite <- ones_sub, Z.shiftl_1_l in E. destruct (decide (ebi = 0)) as [|Hne]; [done|].
      pose proof (Z.pow_le_mono_r 2 1 ebi). lia. }
    split_and!; try done. rewrite Hcp2. f_equal. f_equal. apply bool_decide_ext. lia.
  - assert (ebi <> 0) by (intros E0; by rewrite E0 in E).
    split_and!; [by apply bytes_put|by rewrite length_put|].
    rewrite isset_put by (lia || by apply inu8_clear, bytes_get).
    destruct (Z.eqb_spec (i / 8) eby) as [E'|E'].
    + unfold clear. rewrite Z.ldiff_spec, ones_bit by lia. rewrite <- E', <- isset_bit, Hcp2 by done.
      rewrite bool_decide_eq_false_2 by lia. simpl. rewrite andb_comm. f_equal. f_equal.
      apply eq_bool_prop_intro. rewrite bool_decide_spec, Is_true_true, Z.ltb_lt. lia.
    + rewrite Hcp2. f_equal. f_equal. apply bool_decide_ext. lia.
Qed.

Lemma clrbits_spec a off len :
  bytes a -> 0 <= off -> 1 <= len -> off + len <= 8 * Z.of_nat (length a) ->
  bytes (clrbits a off len) /\ length (clrbits a off len) = length a /\
  forall i, 0 <= i -> isset (clrbits a off len) i = negb (bool_decide (off <= i < off + len)) && isset a i.
Proof.
  intros Ha Hoff Hlen Hend. unfold clrbits. case_if.
  { subst len. destruct (bytes_clrbit a off Ha). split_and!; try done.
    intros i Hi. rewrite isset_clrbit by (done || lia). f_equal. f_equal.
    apply eq_bool_prop_intro. rewrite bool_decide_spec, Is_true_true, Z.eqb_eq. lia. }
  unfold NBBY. assert (off / 8 <= (off + len) / 8) by (apply Z.div_le_mono; lia). case_if.
  - split_and!; [by apply bytes_put|by rewrite length_put|]. intros i Hi. apply clrbits_one; try done; [lia|].
    pose proof (Z_div_mod_eq_full off 8). pose proof (Z_div_mod_eq_full (off + len) 8).
    pose proof (Z.mod_pos_bound off 8). pose proof (Z.mod_pos_bound (off + len) 8). lia.
  - pose proof (fun i Hi => clrbits_many a off len i Ha Hoff Hend Hi ltac:(lia)) as Hm. simpl in Hm.
    split_and!; [apply (Hm 0)|apply (Hm 0)|]; try lia. intros i Hi. by apply Hm.
Qed.

(** ** The queue a clist stands for *)

(** Position [p] of a ring of [n] cells, for [p] below [2 * n]. *)
Definition wrap (n p : Z) : Z := if n <=? p then p - n else p.

Definition qbit (cq : option (list Z)) (i : Z) : bool :=
  match cq with Some q => isset q i | None => false end.
Definition cell (cs : list Z) (cq : option (list Z)) (i : Z) : Z * bool := (get cs i, qbit cq i).

(** The [k] cells from [f] on. *)
Definition cells (n f : Z) (cs : list Z) (cq : option (list Z)) (k : Z) : list (Z * bool) :=
  (fun i => cell cs cq (wrap n (f + i))) <$> seqZ 0 k.

(** The characters in the queue, with their quote bits, first to last. *)
Definition contents (clp : clist) : list (Z * bool) :=
  match c_cs clp, c_cf clp with
  | Some cs, Some f => cells (c_cn clp) f cs (c_cq clp) (c_cc clp)
  | _, _ => []
  end.

(** The buffers of a ring of [n] cells. *)
Definition quote_ok (n : Z) (cq : option (list Z)) : Prop :=
  match cq with
  | Some q => bytes q /\ n <= 8 * Z.of_nat (length q)
  | None => True
  end.

Record buffers (n : Z) (cs : list Z) (cq : option (list Z)) : Prop := {
  bf_size : 1 <= n;
  bf_len : Z.of_nat (length cs) = n;
  bf_bytes : bytes cs;
  bf_quote : quote_ok n cq
}.

(** A clist whose pointers are set: they agree with the count. *)
Record opened (clp : clist) (cs : list Z) (f : Z) : Prop := {
  op_cs : c_cs clp = Some cs;
  op_buf : buffers (c_cn clp) cs (c_cq clp);
  op_f : c_cf clp = Some f;
  op_range : 0 <= f < c_cn clp;
  op_cc : 0 <= c_cc clp <= c_cn clp;
  op_l : c_cl clp = Some (wrap (c_cn clp) (f + c_cc clp))
}.

(** A clist as the functions leave it: the pointers are null when it is
    empty. *)
Definition wf (clp : clist) : Prop :=
  c_cc clp = 0 /\ c_cf clp = None /\ c_cl clp = None /\
    (exists cs, c_cs clp = Some cs /\ buffers (c_cn clp) cs (c_cq clp)) \/
  1 <= c_cc clp /\ exists cs f, opened clp cs f.

Lemma wrap_range n p : 0 <= p < 2 * n -> 0 <= wrap n p < n.
Proof. unfold wrap. case_if; lia. Qed.

Lemma advance_wrap n p k : 0 <= p -> 0 <= k -> p + k <= n -> advance n p k = wrap n (p + k).
Proof. intros. unfold advance, wrap. repeat case_if; lia. Qed.

Lemma cells_length n f cs cq k : length (cells n f cs cq k) = Z.to_nat k.
Proof. unfold cells. by rewrite length_fmap, length_seqZ. Qed.

Lemma cells_app n f cs cq k k' :
  0 <= k -> 0 <= k' -> 0 <= f < n -> k + k' <= n ->
  cells n f cs cq (k + k') = cells n f cs cq k ++ cells n (wrap n (f + k)) cs cq k'.
Proof.
  intros Hk Hk' Hf Hn. unfold cells. rewrite seqZ_app by lia. rewrite fmap_app. f_equal.
  rewrite Z.add_0_l. rewrite <- (Z.add_0_r k) at 1. rewrite <- fmap_add_seqZ, <- list_fmap_compose.
  apply list_fmap_ext. intros j i Hi. simpl. apply lookup_seqZ in Hi as [-> Hi].
  f_equal. unfold wrap. repeat case_if; lia.
Qed.

Lemma cells_ext n f cs cq cs' cq' k :
  (forall i, 0 <= i < k -> cell cs' cq' (wrap n (f + i)) = cell cs cq (wrap n (f + i))) ->
  cells n f cs' cq' k = cells n f cs cq k.
Proof.
  intros H. unfold cells. apply list_fmap_ext. intros j i Hi. apply lookup_seqZ in Hi as [-> Hi].
  apply H. lia.
Qed.

(** A contiguous run. *)
Lemma cells_run n f cs cq k :
  0 <= f -> 0 <= k -> f + k <= n -> cells n f cs cq k = (fun i => cell cs cq (f + i)) <$> seqZ 0 k.
Proof.
  intros. unfold cells. apply list_fmap_ext. intros j i Hi. apply lookup_seqZ in Hi as [-> Hi].
  f_equal. unfold wrap. case_if; lia.
Qed.

Lemma slice_cells n f cs cq k :
  0 <= f -> 0 <= k -> f + k <= n -> Z.of_nat (length cs) = n ->
  slice cs f k = fst <$> cells n f cs cq k.
Proof.
  intros Hf Hk Hn Hlen. rewrite cells_run by lia. rewrite <- list_fmap_compose.
  apply list_eq. intros i. unfold slice. rewrite list_lookup_fmap.
  destruct (decide (i < Z.to_nat k)%nat) as [Hi|Hi].
  - rewrite lookup_take_lt, lookup_drop by done. rewrite lookup_seqZ_lt by lia. simpl. unfold get.
    destruct (lookup_lt_is_Some_2 cs (Z.to_nat f + i)) as [x Hx]; [lia|].
    replace (Z.to_nat (f + (0 + Z.of_nat i))) with (Z.to_nat f + i)%nat by lia. by rewrite Hx.
  - rewrite lookup_take_ge by lia. by rewrite lookup_seqZ_ge by lia.
Qed.

(** ** Taking out and putting in a run of cells *)

Section Ring.

Variables (clp : clist) (cs : list Z) (f : Z).
Hypothesis (Hop : opened clp cs f).

Lemma opened_contents : contents clp = cells (c_cn clp) f cs (c_cq clp) (c_cc clp).
Proof. unfold contents. by rewrite (op_cs _ _ _ Hop), (op_f _ _ _ Hop). Qed.

(** The first [k] cells leave the queue; the others keep their content. *)
Lemma consume k cs' cq' cl :
  0 <= k <= c_cc clp -> f + k <= (c_cn clp) -> buffers (c_cn clp) cs' cq' -> c_cl clp = Some cl ->
  (forall i, 0 <= i < (c_cn clp) -> ~ f <= i < f + k -> cell cs' cq' i = cell cs (c_cq clp) i) ->
  let clp' := Clist (c_cc clp - k) (c_cn clp) (Some (advance (c_cn clp) f k)) (Some cl) (Some cs') cq' in
  opened clp' cs' (advance (c_cn clp) f k) /\ contents clp' = drop (Z.to_nat k) (contents clp).
Proof.
  intros Hk Hrun Hbuf Hcl Hcell. cbv zeta. pose proof Hop as [_ _ _ Hf Hcc Hl].
  rewrite advance_wrap by lia. pose proof (wrap_range (c_cn clp) (f + k) ltac:(lia)). split.
  - constructor; simpl; try done; [lia|]. rewrite Hl in Hcl. simplify_eq. f_equal. unfold wrap.
    repeat case_if; lia.
  - rewrite opened_contents. unfold contents. simpl.
    replace (c_cc clp) with (k + (c_cc clp - k)) at 2 by lia.
    rewrite cells_app by lia. rewrite drop_app_length' by (rewrite cells_length; lia).
    apply cells_ext. intros i Hi. apply Hcell; [apply wrap_range|]; unfold wrap; repeat case_if; lia.
Qed.

(** [k] cells are added behind the last one. *)
Lemma append k cs' cq' l (d : Z -> Z * bool) :
  0 <= k -> c_cc clp + k <= (c_cn clp) -> c_cl clp = Some l -> l + k <= (c_cn clp) -> buffers (c_cn clp) cs' cq' ->
  (forall i, 0 <= i < (c_cn clp) -> ~ l <= i < l + k -> cell cs' cq' i = cell cs (c_cq clp) i) ->
  (forall i, 0 <= i < k -> cell cs' cq' (l + i) = d i) ->
  let clp' := Clist (c_cc clp + k) (c_cn clp) (Some f) (Some (advance (c_cn clp) l k)) (Some cs') cq' in
  opened clp' cs' f /\ contents clp' = contents clp ++ (d <$> seqZ 0 k).
Proof.
  intros Hk Hroom Hcl Hrun Hbuf Hcell Hd. cbv zeta. pose proof Hop as [_ _ _ Hf Hcc Hl].
  rewrite Hl in Hcl. simplify_eq. pose proof (wrap_range (c_cn clp) (f + c_cc clp) ltac:(lia)) as Hw.
  rewrite advance_wrap by lia. split.
  - constructor; simpl; try done; [lia|]. f_equal. unfold wrap in *. repeat case_if; lia.
  - rewrite opened_contents. unfold contents. simpl. rewrite cells_app by lia. f_equal.
    + apply cells_ext. intros i Hi. apply Hcell; [apply wrap_range|]; unfold wrap in *; repeat case_if; lia.
    + rewrite cells_run by lia. apply list_fmap_ext. intros j i Hi. apply lookup_seqZ in Hi as [-> Hi].
      apply Hd. lia.
Qed.

(** The last cell leaves the queue. *)
Lemma retract cs' cq' l :
  1 <= c_cc clp -> c_cl clp = Some l -> buffers (c_cn clp) cs' cq' ->
  let l' := if l =? 0 then (c_cn clp) - 1 else l - 1 in
  (forall i, 0 <= i < (c_cn clp) -> i <> l' -> cell cs' cq' i = cell cs (c_cq clp) i) ->
  let clp' := Clist (c_cc clp - 1) (c_cn clp) (Some f) (Some l') (Some cs') cq' in
  opened clp' cs' f /\ contents clp = contents clp' ++ [cell cs (c_cq clp) l'] /\ 0 <= l' < (c_cn clp).
Proof.
  intros Hcc1 Hcl Hbuf l' Hcell clp'. pose proof Hop as [_ _ _ Hf Hcc Hl].
  rewrite Hl in Hcl. simplify_eq.
  assert (l' = wrap (c_cn clp) (f + (c_cc clp - 1))) as Hl'
    by (unfold l', wrap; destruct (Z.leb_spec (c_cn clp) (f + c_cc clp)); repeat case_if; lia).
  pose proof (wrap_range (c_cn clp) (f + (c_cc clp - 1)) ltac:(lia)). split_and!; try lia.
  - constructor; simpl; try done; [lia|]. by rewrite Hl'.
  - rewrite opened_contents. unfold contents. simpl.
    replace (c_cc clp) with (c_cc clp - 1 + 1) at 1 by lia. rewrite cells_app by lia. f_equal.
    + symmetry. apply cells_ext. intros i Hi.
      apply Hcell; [apply wrap_range; lia|]. rewrite Hl'. unfold wrap; repeat case_if; lia.
    + rewrite <- Hl'. unfold cells. simpl. rewrite Z.add_0_r. do 2 f_equal. unfold wrap. case_if; lia.
Qed.

End Ring.

(** ** Writes to the cells *)

(** A character as the functions return it. *)
Definition char_of (x : Z * bool) : Z := if x.2 then x.1 .| TTY_QUOTE else x.1.

Lemma char_at_cell cs cq i : bytes cs -> char_at cs cq i = char_of (cell cs cq i).
Proof.
  intros Hb. pose proof (bytes_get cs i Hb) as Hg. unfold char_at, char_of, cell. simpl.
  change 0xff with (Z.ones 8). rewrite Z.land_ones by lia. rewrite Z.mod_small by exact Hg.
  by destruct cq.
Qed.

(** Clearing the cells [[off, off + len)] of the buffers. *)
Lemma clear_cells n cs cq off len :
  buffers n cs cq -> 0 <= off -> 1 <= len -> off + len <= n ->
  forall data, bytes data -> Z.of_nat (length data) = len ->
  buffers n (write cs off data) (clrbits_q cq off len) /\
  (forall i, 0 <= i < n -> ~ off <= i < off + len ->
     cell (write cs off data) (clrbits_q cq off len) i = cell cs cq i) /\
  (forall i, 0 <= i < len ->
     cell (write cs off data) (clrbits_q cq off len) (off + i) = (get data i, false)).
Proof.
  intros [Hn Hlen Hb Hq] Hoff Hl Hend data Hd Hdl. split_and!.
  - constructor; try done; [by rewrite length_write by lia|by apply bytes_write|].
    destruct cq as [q|]; [|done]. destruct Hq as [Hq1 Hq2]. simpl.
    destruct (clrbits_spec q off len) as (? & -> & _); done || lia.
  - intros i Hi Hout. unfold cell. rewrite get_write by lia. rewrite bool_decide_eq_false_2 by lia. f_equal.
    destruct cq as [q|]; [|done]. destruct Hq as [Hq1 Hq2]. simpl.
    destruct (clrbits_spec q off len) as (_ & _ & H); try (done || lia).
    rewrite H by lia. by rewrite bool_decide_eq_false_2 by lia.
  - intros i Hi. unfold cell. rewrite get_write by lia. rewrite bool_decide_eq_true_2 by lia.
    f_equal; [f_equal; lia|]. destruct cq as [q|]; [|done]. destruct Hq as [Hq1 Hq2]. simpl.
    destruct (clrbits_spec q off len) as (_ & _ & H); try (done || lia).
    rewrite H by lia. by rewrite bool_decide_eq_true_2 by lia.
Qed.

(** Writing one cell: a byte and a quote bit. *)
Definition set_quote (cq : option (list Z)) (i : Z) (b : bool) : option (list Z) :=
  match cq with Some q => Some (if b then setbit q i else clrbit q i) | None => None end.

Definition has_quotes (cq : option (list Z)) : bool := match cq with Some _ => true | None => false end.

Lemma write_cell n cs cq i v b :
  buffers n cs cq -> 0 <= i < n -> inu 8 v ->
  buffers n (put cs i v) (set_quote cq i b) /\
  (forall j, 0 <= j < n -> j <> i -> cell (put cs i v) (set_quote cq i b) j = cell cs cq j) /\
  cell (put cs i v) (set_quote cq i b) i = (v, b && has_quotes cq).
Proof.
  intros [Hn Hlen Hb Hq] Hi Hv.
  assert (forall j, 0 <= j < n -> qbit (set_quote cq i b) j = if i =? j then b && has_quotes cq else qbit cq j) as Hbit.
  { intros j Hj. destruct cq as [q|]; simpl; [|rewrite andb_false_r; by case_if].
    destruct Hq as [Hq1 Hq2]. destruct b; [rewrite isset_setbit by (done || lia)|rewrite isset_clrbit by (done || lia)];
      by destruct (i =? j). }
  split_and!.
  - constructor; try done; [by rewrite length_put|by apply bytes_put|].
    destruct cq as [q|]; [|done]. destruct Hq as [Hq1 Hq2]. simpl.
    destruct b; [rewrite (proj2 (bytes_setbit q i Hq1))|rewrite (proj2 (bytes_clrbit q i Hq1))];
      (split; [|done]); [apply bytes_setbit|apply bytes_clrbit]; done.
  - intros j Hj Hne. unfold cell. rewrite get_put by lia. rewrite bool_decide_eq_false_2 by lia.
    rewrite Hbit by done. by rewrite (proj2 (Z.eqb_neq i j)) by lia.
  - unfold cell. rewrite get_put by lia. rewrite bool_decide_eq_true_2 by lia.
    rewrite wrapu_small by done. rewrite Hbit by done. by rewrite Z.eqb_refl.
Qed.

(** ** Opening and closing *)

Lemma wf_close clp cs f :
  opened clp cs f -> wf (reset_empty clp) /\ contents (reset_empty clp) = contents clp.
Proof.
  intros Hop. unfold reset_empty. case_if.
  - split.
    + left. split_and!; try done. exists cs. destruct Hop. done.
    + rewrite (opened_contents clp cs f Hop). unfold contents, cells. simpl.
      destruct (c_cs clp); by rewrite Heqb.
  - split; [|done]. right. pose proof Hop as [? ? ? ? ? ?]. split; [lia|]. eauto.
Qed.

Lemma wf_reopen clp :
  wf clp -> exists cs f, opened (reopen clp) cs f /\ contents (reopen clp) = contents clp /\
    c_cn (reopen clp) = c_cn clp /\ c_cc (reopen clp) = c_cc clp /\ c_cq (reopen clp) = c_cq clp.
Proof.
  intros [(Hcc & Hcf & Hcl & cs & Hcs & Hbuf)|(Hcc & cs & f & Hop)]; unfold reopen.
  - rewrite Hcc, Hcs. simpl. exists cs, 0. pose proof Hbuf as [? _ _ _].
    split_and!; try done.
    + constructor; simpl; try done; [lia..|]. f_equal. unfold wrap. case_if; lia.
    + unfold contents. simpl. rewrite Hcs, Hcf. by rewrite Hcc || done.
  - case_if; [lia|]. exists cs, f. done.
Qed.

(** The number of characters is the count. *)
Lemma contents_length clp : wf clp -> Z.of_nat (length (contents clp)) = c_cc clp /\ c_cc clp <= c_cn clp.
Proof.
  intros [(Hcc & Hcf & _ & cs & Hcs & [? _ _ _])|(Hcc & cs & f & Hop)].
  - unfold contents. rewrite Hcf, Hcs, Hcc. simpl. lia.
  - rewrite (opened_contents clp cs f Hop), cells_length. destruct Hop. lia.
Qed.

(** ** The operations on the queue *)

Definition same_ring (clp clp' : clist) : Prop :=
  c_cn clp' = c_cn clp /\ has_quotes (c_cq clp') = has_quotes (c_cq clp).

Lemma has_quotes_set cq i b : has_quotes (set_quote cq i b) = has_quotes cq.
Proof. by destruct cq. Qed.

Lemma has_quotes_clrbits cq off len : has_quotes (clrbits_q cq off len) = has_quotes cq.
Proof. by destruct cq. Qed.

Lemma clrbit_q_set cq i : clrbit_q cq i = set_quote cq i false.
Proof. by destruct cq. Qed.

(** An empty clist has no characters, an opened one with a count does. *)
Lemma wf_contents clp :
  wf clp -> c_cc clp = 0 /\ contents clp = [] \/
    1 <= c_cc clp /\ contents clp <> [] /\ exists cs f, opened clp cs f.
Proof.
  intros Hwf. pose proof (contents_length clp Hwf) as [Hlen _].
  destruct Hwf as [(Hcc & _)|(Hcc & Hop)]; [left|right].
  - split; [done|]. apply nil_length_inv. lia.
  - split_and!; try done. intros E. rewrite E in Hlen. simpl in Hlen. lia.
Qed.

Lemma getc_sim clp :
  wf clp ->
  match contents clp with
  | [] => getc clp = Some (-1, clp)
  | x :: q => exists clp', getc clp = Some (char_of x, clp') /\ wf clp' /\ same_ring clp clp' /\
      contents clp' = q
  end.
Proof.
  intros Hwf. unfold getc.
  destruct (wf_contents clp Hwf) as [[Hcc ->]|(Hcc & Hne & cs & f & Hop)]; [by rewrite Hcc|].
  rewrite (proj2 (Z.eqb_neq _ 0)) by lia. pose proof Hop as [Hcs Hbuf Hf Hr Hcn Hl]. rewrite Hcs, Hf, Hl, clrbit_q_set.
  pose proof (bf_bytes _ _ _ Hbuf) as Hb. rewrite char_at_cell by done.
  destruct (write_cell (c_cn clp) cs (c_cq clp) f 0 false Hbuf Hr ltac:(unfold inu; lia)) as (Hbuf' & Hother & _).
  destruct (consume clp cs f Hop 1 (put cs f 0) (set_quote (c_cq clp) f false) (wrap (c_cn clp) (f + c_cc clp)))
    as [Hop' Hcont]; try (done || lia).
  { intros i Hi Hout. apply Hother; [done|lia]. }
  pose proof (wf_close _ _ _ Hop') as [Hwf' Hcont']. rewrite Hcont in Hcont'.
  unfold reset_empty, advance in Hwf', Hcont'. simpl in Hwf', Hcont'.
  assert (exists q, contents clp = cell cs (c_cq clp) f :: q) as [q Hq].
  { rewrite (opened_contents clp cs f Hop). replace (c_cc clp) with (1 + (c_cc clp - 1)) by lia.
    rewrite cells_app by lia. exists (cells (c_cn clp) (wrap (c_cn clp) (f + 1)) cs (c_cq clp) (c_cc clp - 1)).
    unfold cells at 1. simpl. rewrite Z.add_0_r. unfold wrap at 1. by rewrite (proj2 (Z.leb_gt _ f)) by lia. }
  rewrite Hq in Hcont' |- *. simpl in Hcont'. rewrite drop_0 in Hcont'.
  eexists. split; [done|]. split; [done|]. split; [|done].
  case_if; split; simpl; try done; apply has_quotes_set.
Qed.

Lemma unputc_sim clp :
  wf clp ->
  match last (contents clp) with
  | None => unputc clp = Some (-1, clp)
  | Some x => exists q clp', contents clp = q ++ [x] /\ unputc clp = Some (char_of x, clp') /\ wf clp' /\
      same_ring clp clp' /\ contents clp' = q
  end.
Proof.
  intros Hwf. unfold unputc.
  destruct (wf_contents clp Hwf) as [[Hcc ->]|(Hcc & Hne & cs & f & Hop)]; [by rewrite Hcc|].
  rewrite (proj2 (Z.eqb_neq _ 0)) by lia. pose proof Hop as [Hcs Hbuf Hf Hr Hcn Hl]. rewrite Hcs, Hf.
  set (l := wrap (c_cn clp) (f + c_cc clp)) in *. rewrite Hl, clrbit_q_set.
  set (l' := if l =? 0 then c_cn clp - 1 else l - 1).
  pose proof (bf_bytes _ _ _ Hbuf) as Hb. rewrite char_at_cell by done.
  assert (0 <= l' < c_cn clp) as Hl'.
  { pose proof (wrap_range (c_cn clp) (f + c_cc clp) ltac:(lia)). fold l in H. unfold l'. case_if; lia. }
  destruct (write_cell (c_cn clp) cs (c_cq clp) l' 0 false Hbuf Hl' ltac:(unfold inu; lia)) as (Hbuf' & Hother & _).
  destruct (retract clp cs f Hop (put cs l' 0) (set_quote (c_cq clp) l' false) l) as (Hop' & Hcont & _);
    try (done || lia).
  pose proof (wf_close _ _ _ Hop') as [Hwf' Hcont']. unfold reset_empty in Hwf', Hcont'. simpl in Hwf', Hcont'.
  fold l' in Hcont, Hwf', Hcont', Hop'. rewrite Hcont, last_snoc.
  do 2 eexists. split; [done|]. split; [done|]. split; [done|]. split; [|done].
  case_if; split; simpl; try done; apply has_quotes_set.
Qed.

Lemma putc_sim clp c :
  wf clp ->
  if c_cc clp =? c_cn clp then putc c clp = Some (-1, clp)
  else exists clp', putc c clp = Some (0, clp') /\ wf clp' /\ same_ring clp clp' /\
    contents clp' = contents clp ++ [(c .& 0xff, has c TTY_QUOTE && has_quotes (c_cq clp))].
Proof.
  intros Hwf. unfold putc. case_if; [done|].
  pose proof (contents_length clp Hwf) as [_ Hle].
  destruct (wf_reopen clp Hwf) as (cs & f & Hop & Hcont & Hcn & Hcc & Hcq).
  set (clp1 := reopen clp) in *. pose proof Hop as [Hcs Hbuf Hf Hr Hrange Hl]. rewrite Hcs, Hf.
  set (l := wrap (c_cn clp1) (f + c_cc clp1)) in *. rewrite Hl.
  assert (0 <= l < c_cn clp1) as Hl' by (apply wrap_range; lia).
  assert (inu 8 (c .& 0xff)) as Hv.
  { change 0xff with (Z.ones 8). rewrite Z.land_ones by lia. apply Z.mod_pos_bound. lia. }
  destruct (write_cell (c_cn clp1) cs (c_cq clp1) l (c .& 0xff) (has c TTY_QUOTE) Hbuf Hl' Hv)
    as (Hbuf' & Hother & Hnew).
  destruct (append clp1 cs f Hop 1 (put cs l (c .& 0xff)) (set_quote (c_cq clp1) l (has c TTY_QUOTE)) l
     (fun _ => (c .& 0xff, has c TTY_QUOTE && has_quotes (c_cq clp1)))) as [Hop' Hcont']; try (done || lia).
  { intros i Hi Hout. apply Hother; [done|lia]. }
  { intros i Hi. replace (l + i) with l by lia. done. }
  eexists. split; [done|]. split; [|split].
  - right. simpl. split; [lia|]. eauto.
  - split; [done|]. simpl. rewrite <- Hcq. apply has_quotes_set.
  - rewrite <- Hcont, <- Hcq. exact Hcont'.
Qed.

(** ** Blocks *)

Lemma run_out_spec clp cs f count :
  opened clp cs f -> 1 <= c_cc clp ->
  run_out clp f (wrap (c_cn clp) (f + c_cc clp)) count =
    Z.min (Z.min (c_cc clp) (c_cn clp - f)) count.
Proof.
  intros [_ _ _ Hf Hcc _] H1. unfold run_out, wrap.
  destruct (Z.leb_spec (c_cn clp) (f + c_cc clp)); case_if; lia.
Qed.

(** What the loop of [q_to_b] does to an opened clist. *)
Definition taken (clp : clist) (count : Z) (out0 : list Z) (r : option (list Z * clist)) : Prop :=
  exists clp' cs' f', r = Some (out0 ++ (fst <$> take (Z.to_nat count) (contents clp)), clp') /\
    opened clp' cs' f' /\ same_ring clp clp' /\ contents clp' = drop (Z.to_nat count) (contents clp).

(** Nothing to do. *)
Lemma q_to_b_stop fuel clp cs f out count :
  opened clp cs f -> count <= 0 \/ c_cc clp = 0 -> taken clp count out (q_to_b_loop fuel clp out count).
Proof.
  intros Hop Hstop. pose proof Hop as [_ _ _ _ Hcc _].
  assert ((0 <? count) && (0 <? c_cc clp) = false) as Hguard.
  { destruct Hstop; [rewrite (proj2 (Z.ltb_ge 0 count)) by lia|rewrite (proj2 (Z.ltb_ge 0 (c_cc clp))) by lia];
      [done|apply andb_false_r]. }
  assert (contents clp = [] \/ count <= 0) as Hempty.
  { destruct Hstop as [|H0]; [by right|left]. rewrite (opened_contents clp cs f Hop), H0. done. }
  exists clp, cs, f. split_and!; try done.
  - destruct fuel; simpl; rewrite Hguard; do 2 f_equal;
      (destruct Hempty as [-> |?]; [by rewrite take_nil, app_nil_r
         |replace (Z.to_nat count) with 0%nat by lia; by rewrite take_0, app_nil_r]).
  - destruct Hempty as [-> |?]; [by rewrite drop_nil|]. replace (Z.to_nat count) with 0%nat by lia.
    by rewrite drop_0.
Qed.

(** A turn of the loop takes [k] characters out. *)
Lemma q_to_b_turn clp cs f count :
  opened clp cs f -> 1 <= c_cc clp -> 1 <= count ->
  let k := Z.min (Z.min (c_cc clp) (c_cn clp - f)) count in
  let clp' := Clist (c_cc clp - k) (c_cn clp) (Some (advance (c_cn clp) f k))
     (Some (wrap (c_cn clp) (f + c_cc clp))) (Some (write cs f (zeros k))) (clrbits_q (c_cq clp) f k) in
  1 <= k /\ opened clp' (write cs f (zeros k)) (advance (c_cn clp) f k) /\ same_ring clp clp' /\
  contents clp' = drop (Z.to_nat k) (contents clp) /\
  slice cs f k = fst <$> take (Z.to_nat k) (contents clp) /\
  forall fuel out, q_to_b_loop (S fuel) clp out count = q_to_b_loop fuel clp' (out ++ slice cs f k) (count - k).
Proof.
  intros Hop Hcc Hcount k clp'. pose proof Hop as [Hcs Hbuf Hf Hr Hrange Hl].
  assert (1 <= k) as Hk by (unfold k; lia). split; [done|].
  destruct (clear_cells (c_cn clp) cs (c_cq clp) f k Hbuf ltac:(lia) Hk ltac:(unfold k; lia) (zeros k) (bytes_zeros k))
    as (Hbuf' & Hother & _); [unfold zeros; rewrite length_replicate; lia|].
  destruct (consume clp cs f Hop k (write cs f (zeros k)) (clrbits_q (c_cq clp) f k)
     (wrap (c_cn clp) (f + c_cc clp))) as [Hop' Hcont]; try done; [unfold k; lia..|].
  split_and!; [done|split; [done|apply has_quotes_clrbits]|done| |].
  - rewrite (opened_contents clp cs f Hop). replace (c_cc clp) with (k + (c_cc clp - k)) by lia.
    rewrite cells_app by (unfold k; lia). rewrite take_app_length' by (rewrite cells_length; lia).
    apply slice_cells; [lia|lia|unfold k; lia|apply Hbuf].
  - intros fuel out. simpl. rewrite (proj2 (Z.ltb_lt 0 count)), (proj2 (Z.ltb_lt 0 (c_cc clp))) by lia.
    simpl. rewrite Hcs, Hf, Hl. by rewrite (run_out_spec clp cs f count Hop Hcc).
Qed.

(** Two turns in a row. *)
Lemma taken_trans clp clp' k count out r :
  0 <= k <= count -> same_ring clp clp' -> contents clp' = drop (Z.to_nat k) (contents clp) ->
  taken clp' (count - k) (out ++ (fst <$> take (Z.to_nat k) (contents clp))) r -> taken clp count out r.
Proof.
  intros Hk [Hn Hq] Hcont (c2 & cs2 & f2 & -> & Hop & [Hn2 Hq2] & Hcont2).
  exists c2, cs2, f2. split_and!; try done; [|split; congruence|].
  - do 2 f_equal. rewrite <- app_assoc. f_equal. rewrite Hcont, <- fmap_app. f_equal.
    rewrite take_take_drop. f_equal. lia.
  - rewrite Hcont2, Hcont, drop_drop. f_equal. lia.
Qed.

Lemma q_to_b_one fuel clp cs f out count :
  opened clp cs f -> f + Z.min (c_cc clp) count <= c_cn clp ->
  taken clp count out (q_to_b_loop (S fuel) clp out count).
Proof.
  intros Hop Hrun. pose proof Hop as [_ _ _ Hf Hcc _].
  destruct (decide (count <= 0 \/ c_cc clp = 0)) as [Hstop|Hgo]; [by eapply q_to_b_stop|].
  destruct (q_to_b_turn clp cs f count Hop ltac:(lia) ltac:(lia)) as (Hk & Hop' & Hring & Hcont & Hout & ->).
  eapply taken_trans; [|done|done|]; [lia|]. rewrite Hout. eapply q_to_b_stop; [done|]. simpl. lia.
Qed.

Lemma q_to_b_loop_sim clp cs f out count :
  opened clp cs f -> taken clp count out (q_to_b_loop 2 clp out count).
Proof.
  intros Hop. pose proof Hop as [_ _ _ Hf Hcc _].
  destruct (decide (f + Z.min (c_cc clp) count <= c_cn clp)); [by eapply q_to_b_one|].
  destruct (q_to_b_turn clp cs f count Hop ltac:(lia) ltac:(lia)) as (Hk & Hop' & Hring & Hcont & Hout & ->).
  eapply taken_trans; [|done|done|]; [lia|]. rewrite Hout. eapply q_to_b_one; [done|]. simpl.
  unfold advance. rewrite (proj2 (Z.eqb_eq _ _)) by lia. lia.
Qed.

Lemma q_to_b_sim clp count :
  wf clp -> exists clp',
    q_to_b clp count = Some (fst <$> take (Z.to_nat count) (contents clp), clp') /\
    wf clp' /\ same_ring clp clp' /\ contents clp' = drop (Z.to_nat count) (contents clp).
Proof.
  intros Hwf. unfold q_to_b.
  destruct (wf_contents clp Hwf) as [[Hcc Hnil]|(Hcc & Hne & cs & f & Hop)].
  - rewrite Hnil, take_nil, drop_nil. exists (reset_empty clp).
    assert (q_to_b_loop 2 clp [] count = Some ([], clp)) as -> by (simpl; by rewrite Hcc, andb_false_r).
    destruct Hwf as [(_ & Hcf & Hcl & Hbuf)|[? _]]; [|lia].
    unfold reset_empty. rewrite Hcc. split_and!; try done; [left; simpl; done|].
    unfold contents. simpl. by destruct (c_cs clp).
  - destruct (q_to_b_loop_sim clp cs f [] count Hop) as (c' & cs' & f' & -> & Hop' & Hring & Hcont).
    pose proof (wf_close _ _ _ Hop') as [Hwf' Hcont']. eexists. split; [done|].
    split_and!; [done| |by rewrite Hcont']. unfold reset_empty. case_if; exact Hring.
Qed.

(** ** Flushing *)

(** The loop of [ndflush] moves as the one of [q_to_b] does. *)
Definition flushed (clp : clist) (count : Z) (r : option clist) : Prop :=
  exists clp' cs' f', r = Some clp' /\ opened clp' cs' f' /\ same_ring clp clp' /\
    contents clp' = drop (Z.to_nat count) (contents clp).

Lemma ndflush_stop fuel clp cs f count :
  opened clp cs f -> count <= 0 \/ c_cc clp = 0 -> flushed clp count (ndflush_loop fuel clp count).
Proof.
  intros Hop Hstop.
  destruct (q_to_b_stop fuel clp cs f [] count Hop Hstop) as (c' & cs' & f' & Heq & ? & ? & ?).
  exists c', cs', f'. split_and!; try done.
  assert ((0 <? count) && (0 <? c_cc clp) = false) as Hg.
  { pose proof Hop as [_ _ _ _ Hcc _]. apply andb_false_iff. rewrite !Z.ltb_ge. lia. }
  destruct fuel; simpl in Heq |- *; rewrite Hg in *; by simplify_eq.
Qed.

Lemma ndflush_turn clp cs f count :
  opened clp cs f -> 1 <= c_cc clp -> 1 <= count ->
  let k := Z.min (Z.min (c_cc clp) (c_cn clp - f)) count in
  let clp' := Clist (c_cc clp - k) (c_cn clp) (Some (advance (c_cn clp) f k))
     (Some (wrap (c_cn clp) (f + c_cc clp))) (Some cs) (c_cq clp) in
  1 <= k /\ opened clp' cs (advance (c_cn clp) f k) /\ same_ring clp clp' /\
  contents clp' = drop (Z.to_nat k) (contents clp) /\
  forall fuel, ndflush_loop (S fuel) clp count = ndflush_loop fuel clp' (count - k).
Proof.
  intros Hop Hcc Hcount k clp'. pose proof Hop as [Hcs Hbuf Hf Hr Hrange Hl].
  assert (1 <= k) as Hk by (unfold k; lia).
  destruct (consume clp cs f Hop k cs (c_cq clp) (wrap (c_cn clp) (f + c_cc clp))) as [Hop' Hcont];
    try done; [unfold k; lia..|].
  split_and!; try done.
  intros fuel. simpl. rewrite (proj2 (Z.ltb_lt 0 count)), (proj2 (Z.ltb_lt 0 (c_cc clp))) by lia.
  simpl. rewrite Hf, Hl, Hcs. by rewrite (run_out_spec clp cs f count Hop Hcc).
Qed.

Lemma flushed_trans clp clp' k count r :
  0 <= k <= count -> same_ring clp clp' -> contents clp' = drop (Z.to_nat k) (contents clp) ->
  flushed clp' (count - k) r -> flushed clp count r.
Proof.
  intros Hk [Hn Hq] Hcont (c2 & cs2 & f2 & -> & Hop & [Hn2 Hq2] & Hcont2).
  exists c2, cs2, f2. split_and!; try done; [split; congruence|].
  rewrite Hcont2, Hcont, drop_drop. f_equal. lia.
Qed.

Lemma ndflush_one fuel clp cs f count :
  opened clp cs f -> f + Z.min (c_cc clp) count <= c_cn clp ->
  flushed clp count (ndflush_loop (S fuel) clp count).
Proof.
  intros Hop Hrun. pose proof Hop as [_ _ _ Hf Hcc _].
  destruct (decide (count <= 0 \/ c_cc clp = 0)) as [Hstop|Hgo]; [by eapply ndflush_stop|].
  destruct (ndflush_turn clp cs f count Hop ltac:(lia) ltac:(lia)) as (Hk & Hop' & Hring & Hcont & ->).
  eapply flushed_trans; [|done|done|]; [lia|]. eapply ndflush_stop; [done|]. simpl. lia.
Qed.

Lemma ndflush_loop_sim clp cs f count :
  opened clp cs f -> flushed clp count (ndflush_loop 2 clp count).
Proof.
  intros Hop. pose proof Hop as [_ _ _ Hf Hcc _].
  destruct (decide (f + Z.min (c_cc clp) count <= c_cn clp)); [by eapply ndflush_one|].
  destruct (ndflush_turn clp cs f count Hop ltac:(lia) ltac:(lia)) as (Hk & Hop' & Hring & Hcont & ->).
  eapply flushed_trans; [|done|done|]; [lia|]. eapply ndflush_one; [done|]. simpl.
  unfold advance. rewrite (proj2 (Z.eqb_eq _ _)) by lia. lia.
Qed.

Lemma ndflush_sim clp count :
  wf clp -> exists clp', ndflush clp count = Some clp' /\ wf clp' /\ same_ring clp clp' /\
    contents clp' = drop (Z.to_nat count) (contents clp).
Proof.
  intros Hwf. unfold ndflush. pose proof (contents_length clp Hwf) as [Hlen _].
  assert (exists cs, c_cs clp = Some cs /\ buffers (c_cn clp) cs (c_cq clp)) as (cs0 & Hcs0 & Hbuf0).
  { destruct Hwf as [(_ & _ & _ & ?)|(_ & cs & f & [? ? _ _ _ _])]; eauto. }
  case_if.
  - eexists. split; [done|]. split_and!; [left; simpl; split_and!; by eauto| |].
    + by split.
    + rewrite drop_ge by lia. unfold contents. simpl. by rewrite Hcs0.
  - destruct (wf_contents clp Hwf) as [[Hcc Hnil]|(Hcc & Hne & cs & f & Hop)].
    + assert (ndflush_loop 2 clp count = Some clp) as -> by (simpl; by rewrite Hcc, andb_false_r).
      exists (reset_empty clp). unfold reset_empty. rewrite Hcc. simpl.
      split_and!; try done; [left; simpl; split_and!; by eauto|]. rewrite Hnil, drop_nil. unfold contents. simpl. by rewrite Hcs0.
    + destruct (ndflush_loop_sim clp cs f count Hop) as (c' & cs' & f' & -> & Hop' & Hring & Hcont).
      pose proof (wf_close _ _ _ Hop') as [Hwf' Hcont']. eexists. split; [done|].
      split_and!; [done| |by rewrite Hcont']. unfold reset_empty. case_if; exact Hring.
Qed.

(** ** Filling *)

Definition unquoted (l : list Z) : list (Z * bool) := (fun c => (c, false)) <$> l.

(** What the loop of [b_to_q] does: [m] characters fit. *)
Definition filled (clp : clist) (cp : list Z) (count : Z) (r : option (Z * clist)) : Prop :=
  let m := Z.min count (c_cn clp - c_cc clp) in
  exists clp' cs' f', r = Some (count - m, clp') /\ opened clp' cs' f' /\ same_ring clp clp' /\
    c_cc clp' = c_cc clp + m /\
    contents clp' = contents clp ++ unquoted (take (Z.to_nat m) cp).

Lemma b_to_q_stop fuel clp cs f cp count :
  opened clp cs f -> count = 0 \/ 0 <= count /\ c_cc clp = c_cn clp ->
  filled clp cp count (b_to_q_loop fuel cp count clp).
Proof.
  intros Hop Hstop. pose proof Hop as [_ _ _ _ Hcc _].
  assert ((0 <? count) && (c_cc clp <? c_cn clp) = false) as Hguard.
  { apply andb_false_iff. rewrite !Z.ltb_ge. lia. }
  assert (Z.min count (c_cn clp - c_cc clp) = 0) as Hm by lia.
  exists clp, cs, f. rewrite Hm, Z.sub_0_r, Z.add_0_r, take_0, app_nil_r. split_and!; try done.
  by destruct fuel; simpl; rewrite Hguard.
Qed.

Lemma unquoted_seq (l : list Z) k :
  Z.of_nat (length l) = k -> (fun i => (get l i, false)) <$> seqZ 0 k = unquoted l.
Proof.
  intros Hk. apply list_eq. intros i. unfold unquoted. rewrite !list_lookup_fmap.
  destruct (decide (i < length l)%nat) as [Hi|Hi].
  - rewrite lookup_seqZ_lt by lia. rewrite Z.add_0_l. unfold get.
    destruct (lookup_lt_is_Some_2 l i Hi) as [x Hx]. rewrite Hx. simpl. by rewrite Nat2Z.id, Hx.
  - rewrite lookup_seqZ_ge by lia. by rewrite (proj2 (lookup_ge_None l i)) by lia.
Qed.

Lemma b_to_q_turn clp cs f cp count :
  opened clp cs f -> c_cc clp < c_cn clp -> 1 <= count <= Z.of_nat (length cp) -> bytes cp ->
  let l := wrap (c_cn clp) (f + c_cc clp) in
  let k := Z.min (Z.min (c_cn clp - c_cc clp) (c_cn clp - l)) count in
  let data := take (Z.to_nat k) cp in
  let clp' := Clist (c_cc clp + k) (c_cn clp) (Some f) (Some (advance (c_cn clp) l k))
     (Some (write cs l data)) (clrbits_q (c_cq clp) l k) in
  1 <= k /\ opened clp' (write cs l data) f /\ same_ring clp clp' /\
  contents clp' = contents clp ++ unquoted data /\
  forall fuel, b_to_q_loop (S fuel) cp count clp = b_to_q_loop fuel (drop (Z.to_nat k) cp) (count - k) clp'.
Proof.
  intros Hop Hroom Hcount Hcp l k data clp'. pose proof Hop as [Hcs Hbuf Hf Hr Hrange Hl].
  assert (0 <= l < c_cn clp) as Hlr by (apply wrap_range; lia).
  assert (1 <= k) as Hk by (unfold k; lia). split; [done|].
  assert (Z.of_nat (length data) = k) as Hlen by (unfold data; rewrite length_take; lia).
  destruct (clear_cells (c_cn clp) cs (c_cq clp) l k Hbuf ltac:(lia) Hk ltac:(unfold k; lia) data
     (Forall_take _ _ _ Hcp) Hlen) as (Hbuf' & Hother & Hnew).
  destruct (append clp cs f Hop k (write cs l data) (clrbits_q (c_cq clp) l k) l (fun i => (get data i, false)))
    as [Hop' Hcont]; try done; [unfold k; lia..|].
  rewrite (unquoted_seq data k Hlen) in Hcont.
  split_and!; [done|split; [done|apply has_quotes_clrbits]|done|].
  intros fuel. simpl. rewrite (proj2 (Z.ltb_lt 0 count)), (proj2 (Z.ltb_lt (c_cc clp) (c_cn clp))) by lia.
  simpl. rewrite Hcs, Hf, Hl. fold l.
  replace (Z.min (if l <? f then f - l else c_cn clp - l) count) with k; [done|].
  unfold k, l, wrap in *. destruct (Z.leb_spec (c_cn clp) (f + c_cc clp)); case_if; lia.
Qed.

Lemma filled_trans clp clp' cp k count r :
  0 <= k <= count -> k <= c_cn clp - c_cc clp -> same_ring clp clp' -> c_cc clp' = c_cc clp + k ->
  contents clp' = contents clp ++ unquoted (take (Z.to_nat k) cp) ->
  filled clp' (drop (Z.to_nat k) cp) (count - k) r -> filled clp cp count r.
Proof.
  intros Hk Hroom [Hn Hq] Hcc Hcont (c2 & cs2 & f2 & -> & Hop & [Hn2 Hq2] & Hcc2 & Hcont2).
  rewrite Hn, Hcc in *.
  exists c2, cs2, f2. split_and!; try done; [do 2 f_equal; lia|split; congruence|lia|].
  rewrite Hcont2, Hcont, <- app_assoc. f_equal. unfold unquoted. rewrite <- fmap_app, take_take_drop.
  f_equal. f_equal. lia.
Qed.

Lemma b_to_q_one fuel clp cs f cp count :
  opened clp cs f -> 0 <= count <= Z.of_nat (length cp) -> bytes cp ->
  wrap (c_cn clp) (f + c_cc clp) + Z.min (c_cn clp - c_cc clp) count <= c_cn clp ->
  filled clp cp count (b_to_q_loop (S fuel) cp count clp).
Proof.
  intros Hop Hcount Hcp Hrun. pose proof Hop as [_ _ _ Hf Hcc _].
  destruct (decide (count = 0 \/ c_cc clp = c_cn clp)) as [Hstop|Hgo]; [eapply b_to_q_stop; [done|lia]|].
  destruct (b_to_q_turn clp cs f cp count Hop ltac:(lia) ltac:(lia) Hcp) as (Hk & Hop' & Hring & Hcont & ->).
  eapply filled_trans; [|..|done|done|done|]; [lia|lia|]. eapply b_to_q_stop; [done|]. simpl. lia.
Qed.

Lemma b_to_q_loop_sim clp cs f cp count :
  opened clp cs f -> 0 <= count <= Z.of_nat (length cp) -> bytes cp ->
  filled clp cp count (b_to_q_loop 2 cp count clp).
Proof.
  intros Hop Hcount Hcp. pose proof Hop as [_ _ _ Hf Hcc _].
  pose proof (wrap_range (c_cn clp) (f + c_cc clp) ltac:(lia)) as Hw.
  destruct (decide (wrap (c_cn clp) (f + c_cc clp) + Z.min (c_cn clp - c_cc clp) count <= c_cn clp));
    [by eapply b_to_q_one|].
  destruct (b_to_q_turn clp cs f cp count Hop ltac:(lia) ltac:(lia) Hcp) as (Hk & Hop' & Hring & Hcont & ->).
  eapply filled_trans; [|..|done|done|done|]; [lia|lia|].
  eapply b_to_q_one; [done|rewrite length_drop; lia|by apply Forall_drop|]. simpl.
  unfold wrap in *. destruct (Z.leb_spec (c_cn clp) (f + c_cc clp)); case_if; lia.
Qed.

Lemma b_to_q_sim clp cp count :
  wf clp -> bytes cp -> count <= Z.of_nat (length cp) ->
  let m := Z.max 0 (Z.min count (c_cn clp - c_cc clp)) in
  exists clp', b_to_q cp count clp = Some (Z.max 0 count - m, clp') /\ wf clp' /\ same_ring clp clp' /\
    contents clp' = contents clp ++ unquoted (take (Z.to_nat m) cp).
Proof.
  intros Hwf Hcp Hcount m. unfold b_to_q. pose proof (contents_length clp Hwf) as [Hlen Hle].
  case_if; [|case_if].
  - exists clp. replace m with 0 by lia. rewrite take_0, app_nil_r. split_and!; try done. do 2 f_equal. lia.
  - exists clp. replace m with 0 by lia. rewrite take_0, app_nil_r. split_and!; try done. do 2 f_equal. lia.
  - destruct (wf_reopen clp Hwf) as (cs & f & Hop & Hcont & Hcn & Hcc & Hcq).
    destruct (b_to_q_loop_sim _ cs f cp count Hop ltac:(lia) Hcp) as (c' & cs' & f' & -> & Hop' & [? ?] & Hcc' & Hcont').
    rewrite Hcn, Hcc in *. exists c'. replace m with (Z.min count (c_cn clp - c_cc clp)) by lia.
    split_and!; [do 2 f_equal; lia| |split; congruence|by rewrite Hcont', Hcont].
    right. split; [lia|]. eauto.
Qed.

(** ** Scanning *)

(** The caller's loop over [firstc] and [nextc]. *)
Fixpoint scan_from (fuel : nat) (clp : clist) (cp cc : Z) : list Z :=
  match fuel with
  | O => []
  | S fuel =>
    match nextc clp (Some cp) cc with
    | Some (inl (cp, c, cc)) => c :: scan_from fuel clp cp cc
    | _ => []
    end
  end.

Definition scan (clp : clist) : list Z :=
  match firstc clp with
  | Some (inl (cp, c, cc)) => c :: scan_from (Z.to_nat cc) clp cp cc
  | _ => []
  end.

Lemma contents_lookup clp cs f i :
  opened clp cs f -> 0 <= i < c_cc clp ->
  contents clp !! Z.to_nat i = Some (cell cs (c_cq clp) (wrap (c_cn clp) (f + i))).
Proof.
  intros Hop Hi. rewrite (opened_contents clp cs f Hop). unfold cells. rewrite list_lookup_fmap.
  rewrite lookup_seqZ_lt by lia. simpl. do 4 f_equal. lia.
Qed.

Lemma scan_from_sim fuel clp cs f i :
  opened clp cs f -> 0 <= i < c_cc clp -> c_cc clp - i <= Z.of_nat fuel ->
  scan_from fuel clp (wrap (c_cn clp) (f + i)) (c_cc clp - i) =
    char_of <$> drop (Z.to_nat (i + 1)) (contents clp).
Proof.
  intros Hop. pose proof Hop as [Hcs Hbuf Hf Hr Hrange Hl]. revert i.
  induction fuel as [|fuel IH]; intros i Hi Hfuel; [lia|]. simpl. unfold nextc. rewrite Hf, Hcs.
  assert ((if bool_decide (Some f = Some (wrap (c_cn clp) (f + i))) then c_cc clp else c_cc clp - i) = c_cc clp - i) as ->.
  { case_bool_decide as H; [|done]. simplify_eq. unfold wrap in H. case_if_in H; lia. }
  rewrite (proj2 (Z.eqb_neq (c_cc clp - i) 0)) by lia. case_if.
  - rewrite drop_ge; [done|]. rewrite (opened_contents clp cs f Hop), cells_length. lia.
  - assert ((if wrap (c_cn clp) (f + i) + 1 =? c_cn clp then 0 else wrap (c_cn clp) (f + i) + 1) =
       wrap (c_cn clp) (f + (i + 1))) as ->.
    { unfold wrap. destruct (Z.leb_spec (c_cn clp) (f + i)); repeat case_if; lia. }
    rewrite char_at_cell by apply Hbuf. replace (c_cc clp - i - 1) with (c_cc clp - (i + 1)) by lia.
    rewrite IH by lia. rewrite (drop_S _ _ _ (contents_lookup clp cs f (i + 1) Hop ltac:(lia))). simpl.
    do 2 f_equal. f_equal. lia.
Qed.

Lemma scan_sim clp : wf clp -> scan clp = char_of <$> contents clp.
Proof.
  intros Hwf. unfold scan, firstc.
  destruct (wf_contents clp Hwf) as [[Hcc ->]|(Hcc & Hne & cs & f & Hop)]; [by rewrite Hcc|].
  rewrite (proj2 (Z.eqb_neq _ 0)) by lia. pose proof Hop as [Hcs Hbuf Hf Hr Hrange Hl]. rewrite Hcs, Hf.
  pose proof (scan_from_sim (Z.to_nat (c_cc clp)) clp cs f 0 Hop ltac:(lia) ltac:(lia)) as Hscan.
  pose proof (contents_lookup clp cs f 0 Hop ltac:(lia)) as H0.
  assert (wrap (c_cn clp) (f + 0) = f) as Hw by (unfold wrap; case_if; lia).
  rewrite Hw, Z.sub_0_r in *. rewrite Hscan, char_at_cell by apply Hbuf.
  destruct (contents clp) as [|x q]; [done|]. simplify_eq/=. by rewrite drop_0.
Qed.

(** ** Moving a queue *)

Lemma contents_cells clp :
  wf clp -> Forall (fun x => inu 8 x.1 /\ (x.2 = true -> has_quotes (c_cq clp) = true)) (contents clp).
Proof.
  intros Hwf. destruct (wf_contents clp Hwf) as [[_ ->]|(_ & _ & cs & f & Hop)]; [by apply Forall_nil|].
  rewrite (opened_contents clp cs f Hop). unfold cells. apply Forall_fmap, Forall_forall.
  intros i _. simpl. split; [apply bytes_get, Hop|]. unfold qbit. by destruct (c_cq clp).
Qed.

Lemma char_of_put b q :
  inu 8 b -> char_of (b, q) .& 0xff = b /\ has (char_of (b, q)) TTY_QUOTE = q /\ char_of (b, q) <> -1.
Proof.
  intros Hb. unfold char_of. simpl.
  assert (b .& 0xff = b) as Hlow by (change 0xff with (Z.ones 8); rewrite Z.land_ones by lia; by apply Z.mod_small).
  assert (b .& 256 = 0) as Hhigh.
  { apply Z.bits_inj'. intros i Hi. rewrite Z.land_spec, Z.bits_0. destruct (decide (i = 8)) as [->|].
    - by rewrite (testbit_above 8) by (done || lia).
    - change 256 with (2 ^ 8). by rewrite Z.pow2_bits_false, andb_false_r by lia. }
  destruct q.
  - unfold TTY_QUOTE, has. rewrite !Z.land_lor_distr_l, Hlow, Hhigh. split_and!; [by rewrite Z.lor_0_r|done|].
    assert (0 <= b .| 0x100) by (apply Z.lor_nonneg; unfold inu in Hb; lia). lia.
  - unfold has. change TTY_QUOTE with 256. rewrite Hhigh. split_and!; [done|done|]. unfold inu in Hb. lia.
Qed.

Lemma catq_loop_sim fuel from to :
  wf from -> wf to -> has_quotes (c_cq from) = has_quotes (c_cq to) -> c_cc from <= Z.of_nat fuel ->
  exists from' to', catq_loop fuel from to = Some (from', to') /\ wf from' /\ wf to' /\
    same_ring from from' /\ same_ring to to' /\ contents from' = [] /\
    contents to' = contents to ++ take (Z.to_nat (c_cn to - c_cc to)) (contents from).
Proof.
  revert from to. induction fuel as [|fuel IH]; intros from to Hf Ht Hq Hfuel;
    pose proof (getc_sim from Hf) as Hg; pose proof (contents_length from Hf) as [Hlf _];
    pose proof (contents_cells from Hf) as Hcells;
    destruct (contents from) as [|[b q] l] eqn:Hcf; simpl in *; rewrite ?Hg.
  - exists from, to. rewrite take_nil, app_nil_r. split_and!; done || by split.
  - lia.
  - exists from, to. rewrite take_nil, app_nil_r. split_and!; done || by split.
  - destruct Hg as (from1 & -> & Hf1 & [Hn1 Hq1] & Hc1). apply Forall_cons in Hcells as [[Hb Hqb] _]. simpl in *.
    destruct (char_of_put b q Hb) as (Hlow & Hquote & Hne). rewrite (proj2 (Z.eqb_neq _ (-1))) by done.
    pose proof (putc_sim to (char_of (b, q)) Ht) as Hp. pose proof (contents_length to Ht) as [Hlt Hle].
    pose proof (contents_length from1 Hf1) as [Hl1 _]. rewrite Hc1 in Hl1.
    case_if_in Hp.
    + rewrite Hp. destruct (IH from1 to) as (f' & t' & -> & ? & ? & [? ?] & ? & ? & Hres);
        [done|done|congruence|lia|].
      exists f', t'. rewrite Hres, Hc1. replace (Z.to_nat (c_cn to - c_cc to)) with 0%nat by lia.
      split_and!; try done; split; congruence.
    + destruct Hp as (to1 & -> & Ht1 & [Hnt Hqt] & Hct). rewrite Hlow, Hquote in Hct.
      destruct (IH from1 to1) as (f' & t' & -> & ? & ? & [? ?] & [? ?] & ? & Hres);
        [done|done|congruence|lia|].
      pose proof (contents_length to1 Ht1) as [Hlt1 _]. rewrite Hct, length_app in Hlt1. simpl in Hlt1.
      exists f', t'. split_and!; try done; [split; congruence|split; congruence|].
      rewrite Hres, Hct, Hc1, <- app_assoc. f_equal.
      replace (Z.to_nat (c_cn to - c_cc to)) with (S (Z.to_nat (c_cn to1 - c_cc to1))) by lia. simpl.
      f_equal. f_equal. rewrite <- Hq. destruct q; [by rewrite Hqb|done].
Qed.

Lemma catq_sim from to :
  wf from -> wf to -> has_quotes (c_cq from) = has_quotes (c_cq to) ->
  exists from' to', catq from to = Some (from', to') /\ wf from' /\ wf to' /\ contents from' = [] /\
    contents to' = contents to ++ take (Z.to_nat (c_cn to - c_cc to)) (contents from).
Proof.
  intros Hf Ht Hq. unfold catq. pose proof (contents_length from Hf) as [Hlf Hlef].
  pose proof (contents_length to Ht) as [Hlt _]. case_if; [|case_if].
  - exists from, to. assert (contents from = []) as -> by (apply nil_length_inv; lia).
    rewrite take_nil, app_nil_r. by split_and!.
  - exists to, from. assert (contents to = []) as -> by (apply nil_length_inv; lia).
    rewrite take_ge by lia. by split_and!.
  - destruct (catq_loop_sim (Z.to_nat (c_cc from)) from to Hf Ht Hq ltac:(lia))
      as (f' & t' & -> & ? & ? & _ & _ & ? & ?). eauto 10.
Qed.

(** ** [clrbits] and its loop *)

(** The loop the comment over [clrbits] gives. *)
Fixpoint clrbit_loop (n : nat) (cp : list Z) (off : Z) : list Z :=
  match n with O => cp | S n => clrbit_loop n (clrbit cp off) (off + 1) end.

Lemma clrbit_loop_spec n a off :
  bytes a -> 0 <= off -> off + Z.of_nat n <= 8 * Z.of_nat (length a) ->
  bytes (clrbit_loop n a off) /\ length (clrbit_loop n a off) = length a /\
  forall i, 0 <= i -> isset (clrbit_loop n a off) i =
    negb (bool_decide (off <= i < off + Z.of_nat n)) && isset a i.
Proof.
  revert a off. induction n as [|n IH]; intros a off Ha Hoff Hn; simpl.
  - split_and!; try done. intros i Hi. by rewrite bool_decide_eq_false_2 by lia.
  - destruct (bytes_clrbit a off Ha) as [Hb Hl].
    destruct (IH (clrbit a off) (off + 1) Hb ltac:(lia) ltac:(rewrite Hl; lia)) as (H1 & H2 & H3).
    split_and!; [done|by rewrite H2|]. intros i Hi. rewrite H3, isset_clrbit by (done || lia).
    destruct (Z.eqb_spec off i).
    + rewrite andb_false_r. by rewrite bool_decide_eq_true_2 by lia.
    + simpl. f_equal. f_equal. apply bool_decide_ext. lia.
Qed.

(** Bit arrays with the same bits are equal. *)
Lemma bits_ext a b :
  bytes a -> bytes b -> length a = length b -> (forall i, 0 <= i -> isset a i = isset b i) -> a = b.
Proof.
  intros Ha Hb Hlen Hbits. apply list_eq_same_length with (length a); [done..|].
  intros i x y Hi Hx Hy.
  assert (get a (Z.of_nat i) = x) as Hgx by (unfold get; by rewrite Nat2Z.id, Hx).
  assert (get b (Z.of_nat i) = y) as Hgy by (unfold get; by rewrite Nat2Z.id, Hy).
  pose proof (bytes_get a (Z.of_nat i) Ha) as Hbx. pose proof (bytes_get b (Z.of_nat i) Hb) as Hby.
  rewrite Hgx in Hbx. rewrite Hgy in Hby. apply Z.bits_inj'. intros j Hj.
  destruct (decide (8 <= j)); [by rewrite !(testbit_above 8) by (done || lia)|].
  specialize (Hbits (8 * Z.of_nat i + j) ltac:(lia)). rewrite !isset_bit in Hbits by lia.
  replace ((8 * Z.of_nat i + j) / 8) with (Z.of_nat i) in Hbits
    by (apply (Z.div_unique_pos _ _ _ j); lia).
  replace ((8 * Z.of_nat i + j) mod 8) with j in Hbits by (apply (Z.mod_unique_pos _ _ (Z.of_nat i)); lia).
  congruence.
Qed.

(** ** Properties *)

(** [clrbits] equals the loop of [clrbit] that its comment gives, for
    every run of at least one bit inside the array. *)
Theorem clrbits_is_loop a off len :
  bytes a -> 0 <= off -> 1 <= len -> off + len <= 8 * Z.of_nat (length a) ->
  clrbits a off len = clrbit_loop (Z.to_nat len) a off.
Proof.
  intros Ha Hoff Hlen Hend. destruct (clrbits_spec a off len Ha Hoff Hlen Hend) as (H1 & H2 & H3).
  destruct (clrbit_loop_spec (Z.to_nat len) a off Ha Hoff ltac:(lia)) as (H4 & H5 & H6).
  apply bits_ext; try congruence. intros i Hi. rewrite H3, H6, Z2Nat.id by lia. done.
Qed.

(** C10: [putc], [getc] and [unputc] work on the clist as on a double-ended
    queue of characters with quote bits: [putc] adds at the end unless the
    ring is full, [getc] takes the first and [unputc] the last character, or
    returns -1 on an empty queue; no null pointer is followed and the ring
    stays well formed. *)
Theorem clist_queue clp c :
  wf clp ->
  (if c_cc clp =? c_cn clp then putc c clp = Some (-1, clp)
   else exists clp', putc c clp = Some (0, clp') /\ wf clp' /\ same_ring clp clp' /\
     contents clp' = contents clp ++ [(c .& 0xff, has c TTY_QUOTE && has_quotes (c_cq clp))]) /\
  match contents clp with
  | [] => getc clp = Some (-1, clp)
  | x :: q => exists clp', getc clp = Some (char_of x, clp') /\ wf clp' /\ same_ring clp clp' /\
      contents clp' = q
  end /\
  match last (contents clp) with
  | None => unputc clp = Some (-1, clp)
  | Some x => exists q clp', contents clp = q ++ [x] /\ unputc clp = Some (char_of x, clp') /\
      wf clp' /\ same_ring clp clp' /\ contents clp' = q
  end.
Proof. intros Hwf. split_and!; [by apply putc_sim|by apply getc_sim|by apply unputc_sim]. Qed.

(** The block operations do the same to many characters at once, in at
    most two turns of their loops whatever the position in the ring: [q_to_b]
    moves the first [count] characters out, [ndflush] drops them, [b_to_q]
    adds as many of [count] characters as there is room for, unquoted, and
    returns how many are left. *)
Theorem clist_blocks clp cp count :
  wf clp -> bytes cp -> count <= Z.of_nat (length cp) ->
  (exists clp', q_to_b clp count = Some (fst <$> take (Z.to_nat count) (contents clp), clp') /\
     wf clp' /\ same_ring clp clp' /\ contents clp' = drop (Z.to_nat count) (contents clp)) /\
  (exists clp', ndflush clp count = Some clp' /\ wf clp' /\ same_ring clp clp' /\
     contents clp' = drop (Z.to_nat count) (contents clp)) /\
  (let m := Z.max 0 (Z.min count (c_cn clp - c_cc clp)) in
   exists clp', b_to_q cp count clp = Some (Z.max 0 count - m, clp') /\ wf clp' /\ same_ring clp clp' /\
     contents clp' = contents clp ++ unquoted (take (Z.to_nat m) cp)).
Proof.
  intros Hwf Hcp Hcount. split_and!; [by apply q_to_b_sim|by apply ndflush_sim|by apply b_to_q_sim].
Qed.

(** What [b_to_q] put into an empty ring of sufficient size comes out of
    [q_to_b] unchanged, and leaves the ring empty. *)
Theorem clist_roundtrip clp cp :
  wf clp -> bytes cp -> contents clp = [] -> Z.of_nat (length cp) <= c_cn clp ->
  exists clp1 clp2, b_to_q cp (Z.of_nat (length cp)) clp = Some (0, clp1) /\
    q_to_b clp1 (Z.of_nat (length cp)) = Some (cp, clp2) /\ wf clp2 /\ contents clp2 = [].
Proof.
  intros Hwf Hcp Hnil Hfit. pose proof (contents_length clp Hwf) as [Hl _]. rewrite Hnil in Hl. simpl in Hl.
  destruct (b_to_q_sim clp cp (Z.of_nat (length cp)) Hwf Hcp ltac:(lia)) as (clp1 & Hb & Hwf1 & _ & Hc1).
  rewrite Hnil, app_nil_l in Hc1. rewrite (take_ge cp) in Hc1 by lia.
  destruct (q_to_b_sim clp1 (Z.of_nat (length cp)) Hwf1) as (clp2 & Hq & Hwf2 & _ & Hc2).
  exists clp1, clp2. rewrite Hc1 in Hq, Hc2. rewrite take_ge in Hq by (unfold unquoted; rewrite length_fmap; lia).
  rewrite drop_ge in Hc2 by (unfold unquoted; rewrite length_fmap; lia).
  split_and!; try done; [rewrite Hb; do 2 f_equal; lia|].
  rewrite Hq. do 2 f_equal. unfold unquoted. rewrite <- list_fmap_compose. apply list_fmap_id.
Qed.

(** The caller's loop over [firstc] and [nextc] sees every character of
    the queue in order with its quote bit, and [catq] empties [from] and adds
    its characters to [to] in order, as far as they fit, on both its paths. *)
Theorem clist_scan_move from to :
  wf from -> wf to -> has_quotes (c_cq from) = has_quotes (c_cq to) ->
  scan from = char_of <$> contents from /\
  exists from' to', catq from to = Some (from', to') /\ wf from' /\ wf to' /\ contents from' = [] /\
    contents to' = contents to ++ take (Z.to_nat (c_cn to - c_cc to)) (contents from).
Proof. intros Hf Ht Hq. split; [by apply scan_sim|by apply catq_sim]. Qed.

Lemma clalloc_wf size quot :
  1 <= size -> wf (clalloc size quot) /\ contents (clalloc size quot) = [].
Proof.
  intros Hs. split; [|done]. left. simpl. split_and!; try done. exists (zeros size). split; [done|].
  constructor; [done|unfold zeros; rewrite length_replicate; lia|apply bytes_zeros|].
  destruct quot; [|done]. simpl. split; [apply bytes_zeros|]. unfold zeros, QMEM, NBBY.
  rewrite length_replicate. pose proof (Z_div_mod_eq_full (size - 1) 8).
  pose proof (Z.mod_pos_bound (size - 1) 8). pose proof (Z.div_pos (size - 1) 8). lia.
Qed.

(** ** Witnesses and examples *)

(** A ring of 5 cells, used until its pointers wrap: the queue is
    [3; 4 (quoted); 5; 6]. *)
Definition ring_demo : clist :=
  let step r := match r with Some (_, c) => c | None => clalloc 1 false end in
  let c := step (b_to_q [1; 2; 3] 3 (clalloc 5 true)) in
  let c := step (getc (step (getc c))) in
  let c := step (putc (4 .| TTY_QUOTE) c) in
  step (b_to_q [5; 6; 7] 2 c).

Example ring_demo_contents : contents ring_demo = [(3, false); (4, true); (5, false); (6, false)].
Proof. vm_compute. reflexivity. Qed.

(** Concrete byte arrays are decided. *)
Ltac solve_bytes := unfold bytes; apply (bool_decide_unpack _); vm_compute; exact I.

Lemma ring_demo_wf : wf ring_demo.
Proof.
  right. split; [vm_compute; discriminate|].
  exists [6; 0; 3; 4; 5], 2. constructor; try (vm_compute; done).
  constructor; try (vm_compute; done).
  - solve_bytes.
  - simpl. split; [solve_bytes|]. vm_compute. discriminate.
Qed.

Lemma bytes_demo : bytes [7; 8; 9].
Proof. solve_bytes. Qed.

Lemma clrbits_is_loop_witness : clrbits [255; 255; 255] 3 17 = clrbit_loop 17 [255; 255; 255] 3.
Proof. apply (clrbits_is_loop [255; 255; 255] 3 17); [solve_bytes|simpl; lia..]. Defined.

Lemma clist_queue_witness :
  exists clp', getc ring_demo = Some (char_of (3, false), clp') /\ wf clp' /\
    same_ring ring_demo clp' /\ contents clp' = [(4, true); (5, false); (6, false)].
Proof. exact (proj1 (proj2 (clist_queue ring_demo 65 ring_demo_wf))). Defined.

Lemma clist_blocks_witness :
  exists clp', q_to_b ring_demo 3 = Some ([3; 4; 5], clp') /\ wf clp' /\
    same_ring ring_demo clp' /\ contents clp' = [(6, false)].
Proof. exact (proj1 (clist_blocks ring_demo [7; 8; 9] 3 ring_demo_wf bytes_demo ltac:(simpl; lia))). Defined.

Lemma clist_roundtrip_witness :
  exists clp1 clp2, b_to_q [7; 8; 9] 3 (clalloc 4 true) = Some (0, clp1) /\
    q_to_b clp1 3 = Some ([7; 8; 9], clp2) /\ wf clp2 /\ contents clp2 = [].
Proof.
  apply (clist_roundtrip (clalloc 4 true) [7; 8; 9]).
  - apply clalloc_wf. lia.
  - exact bytes_demo.
  - reflexivity.
  - simpl. lia.
Defined.

Lemma clist_scan_move_witness :
  scan ring_demo = char_of <$> contents ring_demo /\
  exists from' to', catq ring_demo (clalloc 3 true) = Some (from', to') /\ wf from' /\ wf to' /\
    contents from' = [] /\ contents to' = [(3, false); (4, true); (5, false)].
Proof.
  exact (clist_scan_move ring_demo (clalloc 3 true) ring_demo_wf
           (proj1 (clalloc_wf 3 true ltac:(lia))) eq_refl).
Defined.

(** [ndqb] with [TTY_QUOTE] tests the quote bit of the character behind the
    one it looks at: it counts a quoted first character, and does not count an
    unquoted one that a quoted one follows. *)
Example ndqb_quote_off_by_one :
  let step r := match r with Some (_, c) => c | None => clalloc 1 false end in
  let quoted := step (putc (65 .| TTY_QUOTE) (clalloc 16 true)) in
  let plain_quoted := step (putc (66 .| TTY_QUOTE) (step (putc 65 (clalloc 16 true)))) in
  ndqb quoted TTY_QUOTE = Some 1 /\ ndqb plain_quoted TTY_QUOTE = Some 0.
Proof. vm_compute. split; reflexivity. Qed.

(** At the end of a ring of a multiple of eight cells the bit tested lies
    outside the bit array. *)
Example ndqb_outside :
  let step r := match r with Some (_, c) => c | None => clalloc 1 false end in
  ndqb (step (b_to_q [1; 2; 3; 4; 5; 6; 7; 8] 8 (clalloc 8 true))) TTY_QUOTE = None.
Proof. vm_compute. reflexivity. Qed.
