(* ===== verification/Canonpath.v ===== *)
(** * Canonical paths (canonpath of kern/kern_tame.c)

    A C string is the list of its characters without the final NUL.  The
    function works in place on a buffer, with pointers that only move forward
    over text that was not overwritten yet; the model keeps the text in front
    of a pointer and the text behind it as two lists.  The reference is the
    usual normal form of a path as a list of components. *)

From S2P Require Import Prelude.
From Stdlib Require Ascii String.

(** The characters of a string literal. *)
Definition str (s : string) : list Z :=
  (fun c => Z.of_nat (Ascii.nat_of_ascii c)) <$> String.list_ascii_of_string s.
Arguments str s%_string.

Definition SLASH : Z := 47.
Definition DOT : Z := 46.

(** ** The function *)

(** The first loop: drop [/] before [/] and [/.] before [/]. *)
Fixpoint squeeze (l : list Z) : list Z :=
  match l with
  | [] => []
  | c :: t =>
    if c =? SLASH then
      match t with
      | c1 :: t1 =>
        if c1 =? SLASH then squeeze t
        else if c1 =? DOT then
          match t1 with
          | c2 :: _ => if c2 =? SLASH then squeeze t1 else c :: squeeze t
          | [] => c :: squeeze t
          end
        else c :: squeeze t
      | [] => c :: squeeze t
      end
    else c :: squeeze t
  end.

(** The search backwards for a slash: [pre] is the text before [q], read backwards;
    the result is the text before the slash. *)
Fixpoint pop (pre : list Z) : option (list Z) :=
  match pre with
  | [] => None
  | c :: pre => if c =? SLASH then Some pre else pop pre
  end.

(** The second loop: [pre] is the text from [s] to [p], read backwards, and
    [rest] the text from [p] on.  [None]: the search for a slash ran out of
    the buffer. *)
Fixpoint dotdot (pre rest : list Z) : option (list Z) :=
  match rest with
  | [] => Some (rev pre)
  | c :: t =>
    match t with
    | c1 :: ((c2 :: ((c3 :: _) as t3)) as _) =>
      if (c =? SLASH) && (c1 =? DOT) && (c2 =? DOT) && (c3 =? SLASH) then
        match pre with
        | [] => dotdot [] t3
        | _ => match pop pre with Some pre => dotdot pre t3 | None => None end
        end
      else dotdot (c :: pre) t
    | _ => dotdot (c :: pre) t
    end
  end.

(** Remove the trailing slash, unless it is all there is. *)
Definition trim (l : list Z) : list Z := if (1 <? Z.of_nat (length l)) then take (length l - 1) l else l.

(** [canonpath]: the error, or the canonical path. *)
Definition canonpath (input : list Z) (bufsize : Z) : option (Z + list Z) :=
  if negb (bool_decide (head input = Some SLASH)) then
    if bufsize <=? Z.of_nat (length input) then Some (inl ENAMETOOLONG) else Some (inr input)
  else if bufsize <=? Z.of_nat (length input) + 1 then Some (inl ENAMETOOLONG)
  else
    match dotdot [] (squeeze (input ++ [SLASH])) with
    | Some l => Some (inr (trim l))
    | None => None
    end.

(** ** The reference: components *)

(** The text between slashes. *)
Fixpoint split (l : list Z) : list (list Z) :=
  match l with
  | [] => [[]]
  | c :: l =>
    if c =? SLASH then [] :: split l
    else match split l with
         | x :: r => (c :: x) :: r
         | [] => [[c]]
         end
  end.

(** Dots are dropped, a double dot takes the component before it away. *)
Fixpoint resolve (stack comps : list (list Z)) : list (list Z) :=
  match comps with
  | [] => stack
  | c :: comps =>
    if decide (c = [] \/ c = [DOT]) then resolve stack comps
    else if decide (c = [DOT; DOT]) then resolve (take (length stack - 1) stack) comps
    else resolve (stack ++ [c]) comps
  end.

Definition render (comps : list (list Z)) : list Z :=
  match comps with [] => [SLASH] | _ => concat ((fun c => SLASH :: c) <$> comps) end.

(** The normal form of an absolute path. *)
Definition normal (input : list Z) : list (list Z) := resolve [] (split (drop 1 input)).

(** ** Proofs *)

(** Components followed by slashes. *)
Definition slashed (comps : list (list Z)) : list Z :=
  SLASH :: concat ((fun c => c ++ [SLASH]) <$> comps).

Definition open_ (comps : list (list Z)) : list Z := concat ((fun c => SLASH :: c) <$> comps).

Lemma slashed_cons c comps : slashed (c :: comps) = SLASH :: c ++ slashed comps.
Proof. unfold slashed. simpl. by rewrite <- app_assoc. Qed.

Lemma open_snoc comps c : open_ (comps ++ [c]) = open_ comps ++ SLASH :: c.
Proof. unfold open_. rewrite fmap_app, concat_app. simpl. by rewrite app_nil_r. Qed.

Lemma slashed_open comps : slashed comps = open_ comps ++ [SLASH].
Proof.
  induction comps as [|c comps IH]; [done|]. rewrite slashed_cons, IH. unfold open_. simpl.
  by rewrite <- app_assoc.
Qed.

Lemma split_nonempty l : split l <> [].
Proof. destruct l as [|c l]; simpl; [done|]. case_if; [done|]. by destruct (split l). Qed.

Lemma split_slashed l : SLASH :: l ++ [SLASH] = slashed (split l).
Proof.
  induction l as [|c l IH]; [done|]. simpl. case_if.
  - subst c. rewrite slashed_cons. simpl. f_equal. exact IH.
  - pose proof (split_nonempty l). destruct (split l) as [|x r]; [done|].
    rewrite slashed_cons in *. simpl. injection IH as IH. by rewrite IH.
Qed.

Definition no_slash (c : list Z) : Prop := Forall (fun x => x <> SLASH) c.

Lemma split_no_slash l : Forall no_slash (split l).
Proof.
  assert (no_slash []) as Hnil by apply Forall_nil_2.
  induction l as [|c l IH]; simpl; [by repeat constructor|]. case_if; [by constructor|].
  destruct (split l) as [|x r]; [by repeat constructor|]. apply Forall_cons in IH as [Hx Hr].
  constructor; [by constructor|done].
Qed.

(** Components that mean something. *)
Definition plain (c : list Z) : bool := negb (bool_decide (c = [] \/ c = [DOT])).

Lemma squeeze_char c l : c <> SLASH -> squeeze (c :: l) = c :: squeeze l.
Proof. intros Hc. simpl. by rewrite (proj2 (Z.eqb_neq c SLASH)). Qed.

Lemma squeeze_word c l : no_slash c -> squeeze (c ++ l) = c ++ squeeze l.
Proof.
  intros Hc. induction Hc as [|x c Hx Hc IH]; [done|]. rewrite <- app_comm_cons, squeeze_char by done.
  by rewrite IH.
Qed.

(** A slash before a meaningful component stays. *)
Lemma squeeze_slash c l :
  no_slash c -> plain c = true -> squeeze (SLASH :: c ++ SLASH :: l) = SLASH :: squeeze (c ++ SLASH :: l).
Proof.
  intros Hc Hp%negb_true_iff%bool_decide_eq_false. destruct c as [|x c]; [naive_solver|].
  apply Forall_cons in Hc as [Hx Hc]. cbn [app squeeze]. rewrite Z.eqb_refl.
  rewrite (proj2 (Z.eqb_neq x SLASH)) by done. destruct (Z.eqb_spec x DOT) as [->|]; [|done].
  destruct c as [|y c]; [naive_solver|]. apply Forall_cons in Hc as [Hy _].
  cbn [app]. by rewrite (proj2 (Z.eqb_neq y SLASH)) by done.
Qed.

Lemma squeeze_spec comps :
  Forall no_slash comps -> squeeze (slashed comps) = slashed (filter (fun c => plain c = true) comps).
Proof.
  intros Hc. induction Hc as [|c comps Hx Hc IH]; [done|]. rewrite slashed_cons, filter_cons.
  destruct (decide (plain c = true)) as [Hp|Hp].
  - rewrite slashed_cons, <- IH. unfold slashed at 1. rewrite squeeze_slash by done.
    by rewrite squeeze_word.
  - rewrite <- IH. apply not_true_iff_false, negb_false_iff, bool_decide_eq_true in Hp.
    unfold slashed. by destruct Hp as [-> | ->].
Qed.

Lemma resolve_filter stack comps :
  resolve stack (filter (fun c => plain c = true) comps) = resolve stack comps.
Proof.
  revert stack. induction comps as [|c comps IH]; intros stack; [done|]. simpl.
  destruct (decide (c = [] \/ c = [DOT])) as [H|H].
  - rewrite filter_cons_False; [apply IH|]. unfold plain. by rewrite bool_decide_eq_true_2.
  - rewrite filter_cons_True by (unfold plain; by rewrite bool_decide_eq_false_2). simpl.
    rewrite (decide_False _ _ H). case_decide; apply IH.
Qed.

(** Going back over a component. *)
Lemma pop_word c pre : no_slash c -> pop (rev c ++ SLASH :: pre) = Some pre.
Proof.
  intros Hc. apply Forall_rev in Hc. induction Hc as [|x l Hx Hl IH]; simpl; [done|].
  by rewrite (proj2 (Z.eqb_neq x SLASH)).
Qed.

(** Text without a slash is passed over. *)
Lemma dotdot_word c pre rest : no_slash c -> dotdot pre (c ++ rest) = dotdot (rev c ++ pre) rest.
Proof.
  intros Hc. revert pre. induction Hc as [|x c Hx Hc IH]; intros pre; [done|].
  rewrite <- app_comm_cons. cbn [rev]. rewrite <- app_assoc. cbn [app]. rewrite <- IH. cbn [dotdot].
  apply Z.eqb_neq in Hx. rewrite Hx. by destruct (c ++ rest) as [|? [|? [|? ?]]].
Qed.

(** A slash that no double dot follows is passed over. *)
Lemma dotdot_slash c pre rest :
  no_slash c -> c <> [DOT; DOT] ->
  dotdot pre (SLASH :: c ++ SLASH :: rest) = dotdot (SLASH :: pre) (c ++ SLASH :: rest).
Proof.
  intros Hc Hne. destruct c as [|x [|y [|z c]]]; cbn [app dotdot].
  - destruct rest as [|? [|? ?]]; try done.
  - destruct rest as [|? ?]; [done|]. by rewrite andb_false_r.
  - destruct (Z.eqb_spec x DOT) as [->|], (Z.eqb_spec y DOT) as [->|]; try done; rewrite ?andb_false_r; done.
  - inversion Hc as [|? ? _ Hc1]; inversion Hc1 as [|? ? _ Hc2]; inversion Hc2 as [|? ? Hz _]; subst.
    apply Z.eqb_neq in Hz. by rewrite Hz, andb_false_r.
Qed.

(** A double dot takes the component before it away. *)
Lemma dotdot_up pre rest :
  dotdot pre (SLASH :: [DOT; DOT] ++ SLASH :: rest) =
    match pre with
    | [] => dotdot [] (SLASH :: rest)
    | _ => match pop pre with Some pre => dotdot pre (SLASH :: rest) | None => None end
    end.
Proof. reflexivity. Qed.

Lemma dotdot_spec stack comps :
  Forall no_slash stack -> Forall no_slash comps -> Forall (fun c => plain c = true) comps ->
  dotdot (rev (open_ stack)) (slashed comps) = Some (slashed (resolve stack comps)).
Proof.
  intros Hs Hc Hp. revert stack Hs. induction comps as [|c comps IH]; intros stack Hs.
  - simpl. by rewrite rev_involutive, slashed_open.
  - apply Forall_cons in Hc as [Hc Hcs]. apply Forall_cons in Hp as [Hpc Hps]. cbn [resolve].
    apply negb_true_iff, bool_decide_eq_false in Hpc. rewrite (decide_False _ _ Hpc), slashed_cons.
    unfold slashed at 1. case_decide as Hdd.
    + subst c. rewrite dotdot_up. fold (slashed comps).
      destruct stack as [|s0 stack0] using rev_ind; [exact (IH Hcs Hps [] Hs)|].
      rewrite length_app. cbn [length]. rewrite Nat.add_sub, take_app_length.
      apply Forall_app in Hs as [Hs0 [Hs1 _]%Forall_cons].
      rewrite open_snoc, rev_app_distr. cbn [rev]. rewrite <- !app_assoc. cbn [app].
      rewrite pop_word by done.
      destruct (rev s0 ++ SLASH :: rev (open_ stack0)) eqn:E; [by destruct (rev s0)|]. by apply IH.
    + rewrite dotdot_slash by done. rewrite dotdot_word by done. fold (slashed comps).
      rewrite <- IH by (done || (apply Forall_app; by repeat constructor)).
      rewrite open_snoc, rev_app_distr. cbn [rev]. by rewrite <- app_assoc.
Qed.

Lemma trim_slashed comps : trim (slashed comps) = render comps.
Proof.
  destruct comps as [|c comps]; [done|]. unfold trim. rewrite slashed_open.
  rewrite length_app. cbn [length]. rewrite Nat.add_sub, take_app_length.
  rewrite (proj2 (Z.ltb_lt _ _)); [done|]. unfold open_. simpl. lia.
Qed.

Lemma canonpath_abs input bufsize :
  head input = Some SLASH -> Z.of_nat (length input) + 1 < bufsize ->
  canonpath input bufsize = Some (inr (render (normal input))).
Proof.
  intros Hh Hlen. unfold canonpath. rewrite bool_decide_eq_true_2 by done. cbn [negb].
  rewrite (proj2 (Z.leb_gt _ _)) by lia. destruct input as [|c l]; [done|]. injection Hh as ->.
  cbn [app]. rewrite split_slashed.
  pose proof (split_no_slash l) as Hns. rewrite squeeze_spec by done.
  change (@nil Z) with (rev (open_ [])) at 1. rewrite dotdot_spec; [|by constructor| |].
  - rewrite trim_slashed, resolve_filter. unfold normal. simpl. by rewrite drop_0.
  - apply Forall_forall. intros c [_ Hin]%list_elem_of_filter. rewrite Forall_forall in Hns. by apply Hns.
  - apply Forall_forall. by intros c [? _]%list_elem_of_filter.
Qed.

(** ** Normal forms *)

(** A component of a normal form: a name, not a dot or a double dot. *)
Definition clean (c : list Z) : Prop := no_slash c /\ c <> [] /\ c <> [DOT] /\ c <> [DOT; DOT].

Lemma resolve_clean stack comps :
  Forall clean stack -> Forall no_slash comps -> Forall clean (resolve stack comps).
Proof.
  intros Hs Hc. revert stack Hs. induction Hc as [|c comps Hx Hc IH]; intros stack Hs; [done|]. simpl.
  case_decide as H1; [by apply IH|]. case_decide as H2.
  - apply IH. by apply Forall_take.
  - apply IH. apply Forall_app. split; [done|]. constructor; [|done]. unfold clean. naive_solver.
Qed.

Lemma normal_clean input : Forall clean (normal input).
Proof. apply resolve_clean; [done|]. apply split_no_slash. Qed.

Lemma resolve_id stack comps : Forall clean comps -> resolve stack comps = stack ++ comps.
Proof.
  intros Hc. revert stack. induction Hc as [|c comps Hx Hc IH]; intros stack; [by rewrite app_nil_r|].
  simpl. destruct Hx as (_ & ? & ? & ?). rewrite decide_False by naive_solver. rewrite decide_False by done.
  by rewrite IH, <- app_assoc.
Qed.

Lemma split_word c : no_slash c -> split c = [c].
Proof.
  intros Hc. induction Hc as [|x c Hx Hc IH]; [done|]. simpl. by rewrite (proj2 (Z.eqb_neq x SLASH)), IH.
Qed.

Lemma split_app c l : no_slash c -> split (c ++ SLASH :: l) = c :: split l.
Proof.
  intros Hc. induction Hc as [|x c Hx Hc IH]; [done|]. simpl. by rewrite (proj2 (Z.eqb_neq x SLASH)), IH.
Qed.

Lemma split_open c comps : Forall no_slash (c :: comps) -> split (c ++ open_ comps) = c :: comps.
Proof.
  revert c. induction comps as [|d comps IH]; intros c [Hc Hcs]%Forall_cons.
  - unfold open_. simpl. rewrite app_nil_r. by apply split_word.
  - unfold open_. simpl. fold (open_ comps). rewrite split_app by done. by rewrite IH.
Qed.

Lemma normal_render comps : Forall clean comps -> normal (render comps) = comps.
Proof.
  intros Hc. assert (Forall no_slash comps) as Hns by (eapply Forall_impl; [exact Hc|]; by intros ? [? _]).
  unfold normal. destruct comps as [|c comps]; [done|].
  change (drop 1 (render (c :: comps))) with (drop 0 (c ++ open_ comps)). rewrite drop_0.
  rewrite split_open by done. by apply resolve_id.
Qed.

Lemma render_head comps : head (render comps) = Some SLASH.
Proof. by destruct comps. Qed.

(** The canonical path is not longer. *)
Lemma length_render comps : length (render comps) = Nat.max 1 (length (open_ comps)).
Proof. destruct comps as [|c comps]; [done|]. unfold render, open_. simpl. lia. Qed.

Lemma open_length_app l1 l2 : length (open_ (l1 ++ l2)) = (length (open_ l1) + length (open_ l2))%nat.
Proof. unfold open_. by rewrite fmap_app, concat_app, length_app. Qed.

Lemma open_length_take n l : (length (open_ (take n l)) <= length (open_ l))%nat.
Proof. rewrite <- (take_drop n l) at 2. rewrite open_length_app. lia. Qed.

Lemma resolve_length stack comps :
  (length (open_ (resolve stack comps)) <= length (open_ stack) + length (open_ comps))%nat.
Proof.
  revert stack. induction comps as [|c comps IH]; intros stack; cbn [resolve]; [lia|].
  assert (length (open_ (c :: comps)) = S (length c) + length (open_ comps))%nat as Hc
    by (unfold open_; simpl; by rewrite length_app).
  rewrite Hc. repeat case_decide.
  - pose proof (IH stack). lia.
  - pose proof (IH (take (length stack - 1) stack)). pose proof (open_length_take (length stack - 1) stack). lia.
  - pose proof (IH (stack ++ [c])) as H1. rewrite open_length_app in H1.
    assert (length (open_ [c]) = S (length c)) as H2 by (unfold open_; simpl; by rewrite app_nil_r). lia.
Qed.

Lemma normal_length input :
  head input = Some SLASH -> (length (render (normal input)) <= length input)%nat.
Proof.
  intros Hh. destruct input as [|c l]; [done|]. injection Hh as ->. rewrite length_render.
  pose proof (resolve_length [] (split l)) as Hl. unfold normal. cbn [drop length] in *. rewrite drop_0.
  pose proof (f_equal length (split_slashed l)) as Hs. rewrite slashed_open in Hs.
  cbn [length] in Hs. rewrite !length_app in Hs. cbn [length] in Hs.
  change (length (open_ [])) with 0%nat in Hl. lia.
Qed.

(** C11: [canonpath] of an absolute path that fits the buffer is its normal
    form: no empty, dot or double dot component is left, a double dot removes
    the component before it and stops at the root, and there is no trailing
    slash; the search backwards for a slash never leaves the buffer.  The
    result is no longer than the path, and canonical: the function maps it to
    itself. *)
Theorem canonpath_normal input bufsize :
  head input = Some SLASH -> Z.of_nat (length input) + 1 < bufsize ->
  exists path, canonpath input bufsize = Some (inr path) /\
    path = render (normal input) /\ Forall clean (normal input) /\
    (length path <= length input)%nat /\ canonpath path bufsize = Some (inr path).
Proof.
  intros Hh Hlen. exists (render (normal input)). pose proof (normal_length input Hh).
  split_and!; try done; [by apply canonpath_abs|apply normal_clean|].
  rewrite canonpath_abs by (apply render_head || lia). by rewrite normal_render by apply normal_clean.
Qed.

(** ** Witnesses and examples *)

Lemma canonpath_normal_witness :
  exists path, canonpath (str "//usr/./lib/../../tmp//x/") 1024 = Some (inr path) /\
    path = render (normal (str "//usr/./lib/../../tmp//x/")) /\
    Forall clean (normal (str "//usr/./lib/../../tmp//x/")) /\
    (length path <= length (str "//usr/./lib/../../tmp//x/"))%nat /\
    canonpath path 1024 = Some (inr path).
Proof. apply (canonpath_normal (str "//usr/./lib/../../tmp//x/") 1024); [reflexivity|simpl; lia]. Defined.

Example canonpath_dots :
  canonpath (str "//usr/./lib/../../tmp//x/") 1024 = Some (inr (str "/tmp/x")) /\
  canonpath (str "/../..") 1024 = Some (inr (str "/")) /\
  canonpath (str "/a/...") 1024 = Some (inr (str "/a/...")).
Proof. vm_compute. split_and!; reflexivity. Qed.
