(* ===== verification/Tame.v ===== *)
(** * System call restrictions (kern/kern_tame.c)

    A process that called tame(2) has a set of flags [ps_tame] that says which
    system calls it may make, and checks inside the calls look closer at their
    arguments; a violation kills the process.  A process may also have a list
    of path names outside of which it sees no files.

    Strings are lists of characters ([Canonpath]).  What lies outside the file
    is an argument: the memory of the user process ([umem]), the result of
    [vfs_getcwd_common] ([getcwd]: an error or the directory), the files of a
    process ([fd_getfile]).  A process has one thread, so that the fields of
    [struct proc] and [struct process] are in one record; the signals sent are
    recorded in it.  Whitelists are shared between processes: they live in a
    [store], and a process has the address of its own.  Their count is at most
    the number of processes and is not reduced to the width of an [int].

    [None] is the result of code that C leaves undefined: an uninitialised
    pointer, a read beyond a buffer, a freed whitelist. *)

From S2P Require Import Prelude Canonpath.

(** ** Constants *)

Definition TAME_SELF : Z := 0x00000001.
Definition TAME_RW : Z := 0x00000002.
Definition TAME_MALLOC : Z := 0x00000004.
Definition TAME_DNSPATH : Z := 0x00000008.
Definition TAME_RPATH : Z := 0x00000010.
Definition TAME_WPATH : Z := 0x00000020.
Definition TAME_TMPPATH : Z := 0x00000040.
Definition TAME_INET : Z := 0x00000080.
Definition TAME_UNIX : Z := 0x00000100.
Definition TAME_IOCTL : Z := 0x00000400.
Definition TAME_GETPW : Z := 0x00000800.
Definition TAME_PROC : Z := 0x00001000.
Definition TAME_CPATH : Z := 0x00002000.
Definition TAME_FATTR : Z := 0x00004000.
Definition TAME_PROTEXEC : Z := 0x00008000.
Definition TAME_TTY : Z := 0x00010000.
Definition TAME_SENDFD : Z := 0x00020000.
Definition TAME_RECVFD : Z := 0x00040000.
Definition TAME_EXEC : Z := 0x00080000.
Definition TAME_ROUTE : Z := 0x00100000.
Definition TAME_ABORT : Z := 0x08000000.
Definition TAME_USERSET : Z := 0x0fffffff.
Definition TAME_YP_ACTIVE : Z := 0x10000000.
Definition TAME_DNS_ACTIVE : Z := 0x20000000.
Definition TAME_MAXPATHS : Z := 8192.

Definition TMN_RPATH : Z := 0x00000001.
Definition TMN_WPATH : Z := 0x00000002.
Definition TMN_CPATH : Z := 0x00000004.
Definition TMN_FATTR : Z := 0x00000008.
Definition TMN_COREDUMP : Z := 0x00000010.
Definition TMA_YPLOCK : Z := 0x00000001.
Definition TMA_DNSRESOLV : Z := 0x00000002.

Definition PATH_MAX : Z := 1024.
Definition MAXPATHLEN : Z := PATH_MAX.
Definition ARG_MAX : Z := 256 * 1024.
Definition SIGABRT : Z := 6.
Definition SIGKILL : Z := 9.

Definition SYS_MAXSYSCALL : Z := 331.
Definition SYS_exit : Z := 1.
Definition SYS_kbind : Z := 86.
Definition SYS_execve : Z := 59.
Definition SYS_open : Z := 5.
Definition SYS_unlink : Z := 10.
Definition SYS_access : Z := 33.
Definition SYS_stat : Z := 38.
Definition SYS_readlink : Z := 58.

(** ** Tables *)

(** The calls of every process, and those on descriptors and processes. *)
Definition tame_syscalls_io : list (Z * Z) :=
  [ (1, 0xffffffff) (* SYS_exit *);
    (86, 0xffffffff) (* SYS_kbind *);
    (24, TAME_SELF) (* SYS_getuid *);
    (25, TAME_SELF) (* SYS_geteuid *);
    (281, TAME_SELF) (* SYS_getresuid *);
    (47, TAME_SELF) (* SYS_getgid *);
    (43, TAME_SELF) (* SYS_getegid *);
    (283, TAME_SELF) (* SYS_getresgid *);
    (79, TAME_SELF) (* SYS_getgroups *);
    (49, TAME_SELF) (* SYS_getlogin *);
    (81, TAME_SELF) (* SYS_getpgrp *);
    (207, TAME_SELF) (* SYS_getpgid *);
    (39, TAME_SELF) (* SYS_getppid *);
    (255, TAME_SELF) (* SYS_getsid *);
    (299, TAME_SELF) (* SYS_getthrid *);
    (194, TAME_SELF) (* SYS_getrlimit *);
    (67, TAME_SELF) (* SYS_gettimeofday *);
    (18, TAME_SELF) (* SYS_getdtablecount *);
    (19, TAME_SELF) (* SYS_getrusage *);
    (253, TAME_SELF) (* SYS_issetugid *);
    (89, TAME_SELF) (* SYS_clock_getres *);
    (87, TAME_SELF) (* SYS_clock_gettime *);
    (20, TAME_SELF) (* SYS_getpid *);
    (60, TAME_SELF) (* SYS_umask *);
    (202, TAME_SELF) (* SYS_sysctl *);
    (140, TAME_SELF) (* SYS_adjtime *);
    (13, TAME_SELF) (* SYS_fchdir *);
    (298, TAME_SELF) (* SYS_sched_yield *);
    (94, TAME_SELF) (* SYS___thrsleep *);
    (301, TAME_SELF) (* SYS___thrwakeup *);
    (302, TAME_SELF) (* SYS___threxit *);
    (303, TAME_SELF) (* SYS___thrsigdivert *);
    (83, TAME_SELF) (* SYS_sendsyslog *);
    (91, TAME_SELF) (* SYS_nanosleep *);
    (48, TAME_SELF) (* SYS_sigprocmask *);
    (46, TAME_SELF) (* SYS_sigaction *);
    (103, TAME_SELF) (* SYS_sigreturn *);
    (52, TAME_SELF) (* SYS_sigpending *);
    (70, TAME_SELF) (* SYS_getitimer *);
    (69, TAME_SELF) (* SYS_setitimer *);
    (108, TAME_SELF) (* SYS_tame *);
    (11, TAME_SELF) (* SYS_wait4 *);
    (252, TAME_RW) (* SYS_poll *);
    (72, TAME_RW) (* SYS_kevent *);
    (269, TAME_RW) (* SYS_kqueue *);
    (71, TAME_RW) (* SYS_select *);
    (6, TAME_RW) (* SYS_close *);
    (41, TAME_RW) (* SYS_dup *);
    (90, TAME_RW) (* SYS_dup2 *);
    (102, TAME_RW) (* SYS_dup3 *);
    (287, TAME_RW) (* SYS_closefrom *);
    (134, TAME_RW) (* SYS_shutdown *);
    (3, TAME_RW) (* SYS_read *);
    (120, TAME_RW) (* SYS_readv *);
    (173, TAME_RW) (* SYS_pread *);
    (267, TAME_RW) (* SYS_preadv *);
    (4, TAME_RW) (* SYS_write *);
    (121, TAME_RW) (* SYS_writev *);
    (174, TAME_RW) (* SYS_pwrite *);
    (268, TAME_RW) (* SYS_pwritev *);
    (201, TAME_RW) (* SYS_ftruncate *);
    (199, TAME_RW) (* SYS_lseek *);
    (53, TAME_RW) (* SYS_fstat *);
    (92, TAME_RW) (* SYS_fcntl *);
    (95, TAME_RW) (* SYS_fsync *);
    (263, TAME_RW) (* SYS_pipe *);
    (101, TAME_RW) (* SYS_pipe2 *);
    (135, TAME_RW) (* SYS_socketpair *);
    (99, TAME_RW) (* SYS_getdents *);
    (133, TAME_RW .| TAME_DNS_ACTIVE .| TAME_YP_ACTIVE) (* SYS_sendto *);
    (28, TAME_RW) (* SYS_sendmsg *);
    (27, TAME_RW) (* SYS_recvmsg *);
    (29, TAME_RW .| TAME_DNS_ACTIVE .| TAME_YP_ACTIVE) (* SYS_recvfrom *);
    (2, TAME_PROC) (* SYS_fork *);
    (66, TAME_PROC) (* SYS_vfork *);
    (37, TAME_PROC) (* SYS_kill *);
    (82, TAME_PROC) (* SYS_setpgid *);
    (111, TAME_PROC) (* SYS_sigsuspend *);
    (195, TAME_PROC) (* SYS_setrlimit *);
    (59, TAME_EXEC) (* SYS_execve *);
    (80, TAME_PROC) (* SYS_setgroups *);
    (284, TAME_PROC) (* SYS_setresgid *);
    (282, TAME_PROC) (* SYS_setresuid *);
    (54, TAME_RW .| TAME_IOCTL .| TAME_TTY) (* SYS_ioctl *) ].

(** The calls on memory, path names and sockets. *)
Definition tame_syscalls_fs : list (Z * Z) :=
  [ (7, TAME_MALLOC) (* SYS_getentropy *);
    (75, TAME_MALLOC) (* SYS_madvise *);
    (250, TAME_MALLOC) (* SYS_minherit *);
    (197, TAME_MALLOC) (* SYS_mmap *);
    (74, TAME_MALLOC) (* SYS_mprotect *);
    (286, TAME_MALLOC) (* SYS_mquery *);
    (73, TAME_MALLOC) (* SYS_munmap *);
    (5, TAME_SELF) (* SYS_open *);
    (38, TAME_SELF) (* SYS_stat *);
    (33, TAME_SELF) (* SYS_access *);
    (58, TAME_SELF) (* SYS_readlink *);
    (12, TAME_RPATH) (* SYS_chdir *);
    (321, TAME_RPATH .| TAME_WPATH) (* SYS_openat *);
    (42, TAME_RPATH .| TAME_WPATH) (* SYS_fstatat *);
    (313, TAME_RPATH .| TAME_WPATH) (* SYS_faccessat *);
    (322, TAME_RPATH .| TAME_WPATH) (* SYS_readlinkat *);
    (40, TAME_RPATH .| TAME_WPATH .| TAME_TMPPATH) (* SYS_lstat *);
    (128, TAME_CPATH) (* SYS_rename *);
    (137, TAME_CPATH) (* SYS_rmdir *);
    (323, TAME_CPATH) (* SYS_renameat *);
    (9, TAME_CPATH) (* SYS_link *);
    (317, TAME_CPATH) (* SYS_linkat *);
    (57, TAME_CPATH) (* SYS_symlink *);
    (10, TAME_CPATH .| TAME_TMPPATH) (* SYS_unlink *);
    (325, TAME_CPATH) (* SYS_unlinkat *);
    (136, TAME_CPATH) (* SYS_mkdir *);
    (318, TAME_CPATH) (* SYS_mkdirat *);
    (304, TAME_RPATH .| TAME_WPATH) (* SYS___getcwd *);
    (62, TAME_RPATH) (* SYS_getfsstat *);
    (63, TAME_RPATH) (* SYS_statfs *);
    (64, TAME_RPATH) (* SYS_fstatfs *);
    (76, TAME_FATTR) (* SYS_utimes *);
    (77, TAME_FATTR) (* SYS_futimes *);
    (84, TAME_FATTR) (* SYS_utimensat *);
    (85, TAME_FATTR) (* SYS_futimens *);
    (15, TAME_FATTR) (* SYS_chmod *);
    (124, TAME_FATTR) (* SYS_fchmod *);
    (314, TAME_FATTR) (* SYS_fchmodat *);
    (34, TAME_FATTR) (* SYS_chflags *);
    (107, TAME_FATTR) (* SYS_chflagsat *);
    (16, TAME_FATTR) (* SYS_chown *);
    (315, TAME_FATTR) (* SYS_fchownat *);
    (254, TAME_FATTR) (* SYS_lchown *);
    (123, TAME_FATTR) (* SYS_fchown *);
    (97, TAME_INET .| TAME_UNIX .| TAME_DNS_ACTIVE .| TAME_YP_ACTIVE) (* SYS_socket *);
    (98, TAME_INET .| TAME_UNIX .| TAME_DNS_ACTIVE .| TAME_YP_ACTIVE) (* SYS_connect *);
    (106, TAME_INET .| TAME_UNIX) (* SYS_listen *);
    (104, TAME_INET .| TAME_UNIX) (* SYS_bind *);
    (93, TAME_INET .| TAME_UNIX) (* SYS_accept4 *);
    (30, TAME_INET .| TAME_UNIX) (* SYS_accept *);
    (31, TAME_INET .| TAME_UNIX) (* SYS_getpeername *);
    (32, TAME_INET .| TAME_UNIX) (* SYS_getsockname *);
    (105, TAME_INET .| TAME_UNIX) (* SYS_setsockopt *);
    (118, TAME_INET .| TAME_UNIX) (* SYS_getsockopt *);
    (131, TAME_GETPW) (* SYS_flock *) ].

(** [tame_syscalls[code]]; the other entries are 0. *)
Definition tame_syscalls (code : Z) : Z :=
  match list_find (fun e => e.1 = code) (tame_syscalls_io ++ tame_syscalls_fs) with
  | Some (_, (_, flags)) => flags
  | None => 0
  end.

Definition tamereq : list (list Z * Z) :=
  [ (str "malloc", TAME_SELF .| TAME_MALLOC);
    (str "rw", TAME_SELF .| TAME_RW);
    (str "stdio", TAME_SELF .| TAME_MALLOC .| TAME_RW);
    (str "rpath", TAME_SELF .| TAME_RW .| TAME_RPATH);
    (str "wpath", TAME_SELF .| TAME_RW .| TAME_WPATH);
    (str "tmppath", TAME_SELF .| TAME_RW .| TAME_TMPPATH);
    (str "inet", TAME_SELF .| TAME_RW .| TAME_INET);
    (str "unix", TAME_SELF .| TAME_RW .| TAME_UNIX);
    (str "dns", TAME_SELF .| TAME_MALLOC .| TAME_DNSPATH);
    (str "getpw", TAME_SELF .| TAME_MALLOC .| TAME_RW .| TAME_GETPW);
    (str "cmsg", TAME_UNIX .| TAME_INET .| TAME_SENDFD .| TAME_RECVFD);
    (str "sendfd", TAME_RW .| TAME_SENDFD);
    (str "recvfd", TAME_RW .| TAME_RECVFD);
    (str "ioctl", TAME_IOCTL);
    (str "route", TAME_ROUTE);
    (str "tty", TAME_TTY);
    (str "proc", TAME_PROC);
    (str "exec", TAME_EXEC);
    (str "cpath", TAME_CPATH);
    (str "abort", TAME_ABORT);
    (str "fattr", TAME_FATTR);
    (str "prot_exec", TAME_PROTEXEC) ].

(** ** State *)

(** A signal operation of the kernel on the process. *)
Inductive sigop : Type :=
| setsigvec_dfl (sig : Z)
| psignal (sig : Z).
#[global] Instance sigop_eq_dec : EqDecision sigop.
Proof. solve_decision. Defined.

(** The fields of [struct process] and of its (only) [struct proc] that the
    file uses; [ps_tamed] is the bit [PS_TAMED] of [ps_flags], [ps_tamepaths] the
    address of a whitelist. *)
Record process := Process {
  ps_tamed : bool;
  ps_tame : Z;
  ps_tamepaths : option Z;
  p_tamenote : Z;
  p_tameafter : Z;
  p_tame_syscall : Z;
  p_sigs : list sigop
}.

Definition set_tame (p : process) (f : Z) : process :=
  Process (ps_tamed p) f (ps_tamepaths p) (p_tamenote p) (p_tameafter p) (p_tame_syscall p) (p_sigs p).
Definition set_tameafter (p : process) (a : Z) : process :=
  Process (ps_tamed p) (ps_tame p) (ps_tamepaths p) (p_tamenote p) a (p_tame_syscall p) (p_sigs p).
Definition set_tamenote (p : process) (n : Z) : process :=
  Process (ps_tamed p) (ps_tame p) (ps_tamepaths p) n (p_tameafter p) (p_tame_syscall p) (p_sigs p).
Definition set_tamepaths (p : process) (a : option Z) : process :=
  Process (ps_tamed p) (ps_tame p) a (p_tamenote p) (p_tameafter p) (p_tame_syscall p) (p_sigs p).
Definition add_sigs (p : process) (l : list sigop) : process :=
  Process (ps_tamed p) (ps_tame p) (ps_tamepaths p) (p_tamenote p) (p_tameafter p) (p_tame_syscall p)
    (p_sigs p ++ l).

Record whitepath := Whitepath { wp_name : option (list Z); wp_len : Z }.
Record whitepaths := Whitepaths { wl_count : Z; wl_ref : Z; wl_paths : list whitepath }.

(** The whitelists in kernel memory, by address. *)
Abbreviation store := (gmap Z whitepaths).

(** What the system call reads of the user's memory: the pointers of the array
    [paths] in the first and in the second pass, and the strings; [inl] is the
    error of [copyin] or [copyinstr]. *)
Record umem := Umem {
  um_count : Z -> Z + Z;
  um_copy : Z -> Z + Z;
  um_str : Z -> Z + list Z
}.

(** [copyinstr] with a buffer of [max] bytes. *)
Definition copyinstr (um : umem) (ptr max : Z) : Z + list Z :=
  match um_str um ptr with
  | inl e => inl e
  | inr s => if max <=? Z.of_nat (length s) then inl ENAMETOOLONG else inr s
  end.

(** ** [sys_tame] *)

Definition SPACE : Z := 32.

(** The word at [rp], and the text after the spaces that end it. *)
Fixpoint skip_spaces (l : list Z) : list Z :=
  match l with
  | c :: t => if c =? SPACE then skip_spaces t else l
  | [] => []
  end.

Fixpoint word (l : list Z) : list Z * option (list Z) :=
  match l with
  | [] => ([], None)
  | c :: t =>
    if c =? SPACE then ([], Some (skip_spaces l))
    else let '(w, r) := word t in (c :: w, r)
  end.

(** The search of the table of requests; 0: unknown. *)
Definition req_flags (w : list Z) : Z :=
  match list_find (fun e => e.1 = w) tamereq with
  | Some (_, (_, f)) => f
  | None => 0
  end.

(** The loop over the words; each turn consumes text, so that the length of
    the text is fuel enough. *)
Fixpoint tame_request (fuel : nat) (flags : Z) (l : list Z) : Z + Z :=
  match l, fuel with
  | [], _ => inr flags
  | _, O => inl EINVAL
  | _, S fuel =>
    let '(w, pn) := word l in
    let f := req_flags w in
    if f =? 0 then inl EINVAL
    else match pn with
         | Some l => tame_request fuel (flags .| f) l
         | None => inr (flags .| f)
         end
  end.

(** The first pass: how many pointers before the NULL. *)
Fixpoint count_paths (um : umem) (fuel : nat) (i : Z) : Z + Z :=
  match fuel with
  | O => inl E2BIG
  | S fuel =>
    match um_count um i with
    | inl e => inl e
    | inr sp => if sp =? 0 then inr i else count_paths um fuel (i + 1)
    end
  end.

(** The current directory as the loop of [sys_tame] has it. *)
Inductive cwdstate : Type :=
| CwdNull
| CwdLost (cwdlen : Z).

(** A pass of the loop that copies the paths in: the path as an absolute one.
    The pointer [cwd] is a variable of the loop's body, so that a second
    relative path reads it uninitialised: [None]. *)
Definition full_path (getcwd : Z + list Z) (path : list Z) (cs : cwdstate) :
  option ((Z + list Z) * cwdstate) :=
  if bool_decide (head path = Some SLASH) then Some (inr path, cs)
  else
    match cs with
    | CwdNull =>
      match getcwd with
      | inl e => Some (inl e, cs)
      | inr cwd =>
        let cwdlen := Z.of_nat (length cwd) + 1 in
        if PATH_MAX <? cwdlen + 1 + Z.of_nat (length path) then Some (inl ENAMETOOLONG, CwdLost cwdlen)
        else Some (inr (cwd ++ SLASH :: path), CwdLost cwdlen)
      end
    | CwdLost cwdlen =>
      if PATH_MAX <? cwdlen + 1 + Z.of_nat (length path) then Some (inl ENAMETOOLONG, cs)
      else None
    end.

(** The loop that copies the paths in: from path [i] on, [n] entries are left.
    The result is the error, or the entries; those after a NULL stay zero. *)
Fixpoint copy_paths (um : umem) (getcwd : Z + list Z) (n : nat) (i : Z) (cs : cwdstate) (maxargs : Z) :
  option (Z + list whitepath) :=
  match n with
  | O => Some (inr [])
  | S n =>
    match um_copy um i with
    | inl e => Some (inl e)
    | inr sp =>
      if sp =? 0 then Some (inr (replicate (S n) (Whitepath None 0)))
      else
        match copyinstr um sp MAXPATHLEN with
        | inl e => Some (inl e)
        | inr path =>
          match full_path getcwd path cs with
          | None => None
          | Some (inl e, _) => Some (inl e)
          | Some (inr fullpath, cs) =>
            match canonpath fullpath MAXPATHLEN with
            | None => None
            | Some (inl e) => Some (inl e)
            | Some (inr canopath) =>
              let len := Z.of_nat (length canopath) + 1 in
              let maxargs := maxargs + (if ARG_MAX <? len then 1 else 0) in
              if negb (maxargs =? 0) then Some (inl E2BIG)
              else
                match copy_paths um getcwd n (i + 1) cs maxargs with
                | Some (inr wps) => Some (inr (Whitepath (Some canopath) len :: wps))
                | r => r
                end
            end
          end
        end
    end
  end.

(** The whitelist of the call's [paths]. *)
Definition tame_paths (um : umem) (getcwd : Z + list Z) : option (Z + whitepaths) :=
  match count_paths um (Z.to_nat TAME_MAXPATHS) 0 with
  | inl e => Some (inl e)
  | inr count =>
    match copy_paths um getcwd (Z.to_nat count) 0 CwdNull 0 with
    | None => None
    | Some (inl e) => Some (inl e)
    | Some (inr wps) => Some (inr (Whitepaths count 1 (wps ++ [Whitepath None 0])))
    end
  end.

(** The flags that the request asks for, given the flags of the process. *)
Definition tame_flags (p : process) (request : option (Z + list Z)) : Z + Z :=
  let parsed :=
    match request with
    | None => inr 0
    | Some (inl e) => inl e
    | Some (inr l) =>
      if MAXPATHLEN <=? Z.of_nat (length l) then inl ENAMETOOLONG
      else tame_request (length l) 0 l
    end in
  match parsed with
  | inl e => inl e
  | inr flags =>
    if negb (clear flags TAME_USERSET =? 0) then inl EINVAL
    else if ps_tamed p then
      if negb ((flags .| ps_tame p) .& TAME_USERSET =? ps_tame p .& TAME_USERSET) then inl EPERM
      else inr (flags .& ps_tame p .& TAME_USERSET)
    else inr flags
  end.

(** [sys_tame]: [request] is the string of the call ([None] for a null pointer,
    [inl] when it cannot be read), [paths] the memory with the array of paths;
    [addr] is the address of the block that [malloc] returns. *)
Definition sys_tame (p : process) (st : store) (request : option (Z + list Z)) (paths : option umem)
  (getcwd : Z + list Z) (addr : Z) : option (Z * process * store) :=
  match tame_flags p request with
  | inl e => Some (e, p, st)
  | inr flags =>
    let tamed p := Process true flags (ps_tamepaths p) (p_tamenote p) (p_tameafter p)
                     (p_tame_syscall p) (p_sigs p) in
    match paths with
    | None => Some (0, tamed p, st)
    | Some um =>
      if bool_decide (is_Some (ps_tamepaths p)) then Some (EPERM, p, st)
      else
        match tame_paths um getcwd with
        | None => None
        | Some (inl e) => Some (e, p, st)
        | Some (inr wl) => Some (0, tamed (set_tamepaths p (Some addr)), <[addr := wl]> st)
        end
    end
  end.

(** ** The gate of the system calls *)

Definition tame_check (p : process) (code : Z) : Z * process :=
  let p := Process (ps_tamed p) (ps_tame p) (ps_tamepaths p) 0 0 code (p_sigs p) in
  if (code <? 0) || (SYS_MAXSYSCALL - 1 <? code) then (0, p)
  else if ps_tame p =? 0 then ((if (code =? SYS_exit) || (code =? SYS_kbind) then 1 else 0), p)
  else (ps_tame p .& tame_syscalls code, p).

Definition tame_fail (p : process) (error : Z) : Z * process :=
  let p := if has (ps_tame p) TAME_ABORT then add_sigs p [setsigvec_dfl SIGABRT; psignal SIGABRT]
           else add_sigs p [psignal SIGKILL] in
  (error, set_tame p 0).

Definition tame_aftersyscall (p : process) (error : Z) : process :=
  let p := if has (p_tameafter p) TMA_YPLOCK && (error =? 0)
           then set_tame p (ps_tame p .| (TAME_YP_ACTIVE .| TAME_INET)) else p in
  if has (p_tameafter p) TMA_DNSRESOLV && (error =? 0)
  then set_tame p (ps_tame p .| TAME_DNS_ACTIVE) else p.

(** [mi_syscall] of sys/syscall_mi.h, without tracing: [sy_call] is the handler.
    The flag of the result says whether the handler ran. *)
Definition mi_syscall (sy_call : process -> Z * process) (p : process) (code : Z) : bool * Z * process :=
  let tamed := ps_tamed p in
  let '(tval, p) := if tamed then tame_check p code else (1, p) in
  if tamed && (tval =? 0) then let '(error, p) := tame_fail p EPERM in (false, error, p)
  else
    let '(error, p) := sy_call p in
    (true, error, if tamed && negb (p_tameafter p =? 0) then tame_aftersyscall p error else p).

(** ** Path names *)

(** [strncmp(path, lit, sizeof(lit) - 1) == 0]. *)
Definition under (lit : list Z) (path : list Z) : bool := bool_decide (take (length lit) path = lit).

(** [strcmp(path, lit) == 0]. *)
Definition is_path (lit : list Z) (path : list Z) : bool := bool_decide (path = lit).

(** What the switch on the system call decides: [Some] is a return of the
    function with the error and the bits set in [p_tameafter]. *)
Definition tame_libc_open (p : process) (path : list Z) : option (Z * Z) :=
  let rd := p_tamenote p =? TMN_RPATH in
  if rd && has (ps_tame p) TAME_GETPW && is_path (str "/etc/spwd.db") path then Some (EPERM, 0)
  else if rd && has (ps_tame p) TAME_GETPW && is_path (str "/etc/pwd.db") path then Some (0, 0)
  else if rd && has (ps_tame p) TAME_GETPW && is_path (str "/etc/group") path then Some (0, 0)
  else if rd && has (ps_tame p) TAME_DNSPATH && is_path (str "/etc/resolv.conf") path
  then Some (0, TMA_DNSRESOLV)
  else if rd && has (ps_tame p) TAME_DNSPATH && is_path (str "/etc/hosts") path then Some (0, 0)
  else if rd && has (ps_tame p) TAME_DNSPATH && is_path (str "/etc/services") path then Some (0, 0)
  else if rd && has (ps_tame p) TAME_GETPW && is_path (str "/var/run/ypbind.lock") path
  then Some (0, TMA_YPLOCK)
  else if rd && has (ps_tame p) TAME_GETPW && under (str "/var/yp/binding/") path then Some (0, 0)
  else if rd && under (str "/usr/share/zoneinfo/") path then Some (0, 0)
  else if rd && is_path (str "/etc/localtime") path then Some (0, 0)
  else if rd && under (str "/usr/share/nls/") path
       && is_path (str "/libc.cat") (drop (length path - 9) path) then Some (0, 0)
  else None.

Definition tame_libc (p : process) (path : list Z) : option (Z * Z) :=
  let rd := p_tamenote p =? TMN_RPATH in
  let code := p_tame_syscall p in
  if code =? SYS_access then
    if rd && is_path (str "/etc/localtime") path then Some (0, 0) else None
  else if code =? SYS_open then tame_libc_open p path
  else if code =? SYS_readlink then
    if rd && is_path (str "/etc/malloc.conf") path then Some (0, 0) else None
  else if code =? SYS_stat then
    if rd && has (ps_tame p) TAME_DNSPATH && is_path (str "/etc/resolv.conf") path
    then Some (0, TMA_DNSRESOLV) else None
  else None.

(** One entry of the whitelist against the canonical path; the text is
    followed by a NUL, so that [strncmp] compares prefixes. *)
Definition wl_match (canopath name : list Z) (len : Z) : bool :=
  bool_decide (take (Z.to_nat (len - 1)) canopath = take (Z.to_nat (len - 1)) name) &&
  let term := default 0 (canopath !! Z.to_nat (len - 1)) in
  ((term =? 0) || (term =? SLASH) || bool_decide (name !! 1%nat = None)).

(** The loop over the whitelist, that ends at a NULL name; [n] is [wl_count]. *)
Fixpoint wl_search (canopath : list Z) (wps : list whitepath) (n : Z) : Z :=
  match wps with
  | Whitepath (Some name) len :: wps =>
    if n <=? 0 then ENOENT
    else if wl_match canopath name len then 0
    else wl_search canopath wps (n - 1)
  | _ => ENOENT
  end.

(** The part of [tame_namei] for a process with a whitelist.  [None]: the
    pointer is to no whitelist. *)
Definition tame_namei_wl (p : process) (wl : whitepaths) (getcwd : Z + list Z) (origpath path : list Z) :
  option (Z * process) :=
  let full :=
    if bool_decide (head origpath = Some SLASH) then inr path
    else match getcwd with
         | inl e => inl e
         | inr cwd => inr (cwd ++ SLASH :: origpath)
         end in
  match full with
  | inl e => Some (e, p)
  | inr fullpath =>
    match canonpath fullpath MAXPATHLEN with
    | None => None
    | Some (inl _) => Some (tame_fail p EPERM)
    | Some (inr canopath) => Some (wl_search canopath (wl_paths wl) (wl_count wl), p)
    end
  end.

(** [tame_namei] after the switch. *)
Definition tame_namei_rest (p : process) (st : store) (getcwd : Z + list Z) (origpath path : list Z) :
  option (Z * process) :=
  match ps_tamepaths p with
  | Some a =>
    match st !! a with
    | Some wl => tame_namei_wl p wl getcwd origpath path
    | None => None
    end
  | None =>
    if has (ps_tame p) TAME_RPATH then Some (0, p)
    else if has (ps_tame p) TAME_WPATH then Some (0, p)
    else if has (ps_tame p) TAME_CPATH then Some (0, p)
    else Some (tame_fail p EPERM)
  end.

Definition tame_namei (p : process) (st : store) (getcwd : Z + list Z) (origpath : list Z) :
  option (Z * process) :=
  if p_tamenote p =? TMN_COREDUMP then Some (0, p)
  else
    match canonpath origpath PATH_MAX with
    | None => None
    | Some (inl _) => Some (tame_fail p EPERM)
    | Some (inr path) =>
      if has (p_tamenote p) TMN_FATTR && negb (has (ps_tame p) TAME_FATTR) then Some (tame_fail p EPERM)
      else if has (ps_tame p) TAME_TMPPATH && (p_tame_syscall p =? SYS_open) &&
              has (p_tamenote p) TMN_CPATH && under (str "/tmp/") path then Some (0, p)
      else if has (ps_tame p) TAME_TMPPATH && (p_tame_syscall p =? SYS_unlink) &&
              under (str "/tmp/") path then Some (0, p)
      else if has (p_tamenote p) TMN_CPATH && negb (has (ps_tame p) TAME_CPATH)
      then Some (tame_fail p EPERM)
      else if has (p_tamenote p) TMN_WPATH && negb (has (ps_tame p) TAME_WPATH)
      then Some (tame_fail p EPERM)
      else
        match tame_libc p path with
        | Some (error, after) => Some (error, set_tameafter p (p_tameafter p .| after))
        | None => tame_namei_rest p st getcwd origpath path
        end
    end.

(** ** Control messages *)

Definition SOL_SOCKET : Z := 0xffff.
Definition SCM_RIGHTS : Z := 0x01.

(** The int at offset [off] of a buffer, little endian; [None]: beyond its end. *)
Definition get_u32 (b : list Z) (off : Z) : option Z :=
  let o := Z.to_nat off in
  match b !! o, b !! (o + 1)%nat, b !! (o + 2)%nat, b !! (o + 3)%nat with
  | Some b0, Some b1, Some b2, Some b3 => Some (b0 + 256 * b1 + 65536 * b2 + 16777216 * b3)
  | _, _, _, _ => None
  end.

Definition CMSG_ALIGN (n : Z) : Z := clear (n + 7) 7.
Definition sizeof_cmsghdr : Z := 12.

Inductive vtype : Type := VNON | VREG | VDIR | VBLK | VCHR | VLNK | VSOCK | VFIFO | VBAD.
#[global] Instance vtype_eq_dec : EqDecision vtype.
Proof. solve_decision. Defined.

Inductive dtype : Type := DTYPE_VNODE | DTYPE_SOCKET | DTYPE_PIPE | DTYPE_KQUEUE | DTYPE_SYSTRACE.
#[global] Instance dtype_eq_dec : EqDecision dtype.
Proof. solve_decision. Defined.

(** An open file: the vnode fields are those of [f_data]. *)
Record file := File { f_type : dtype; v_type : vtype; v_flag : Z; f_ioctl_vn : bool }.

(** The switch on the type of the file: may it be passed? *)
Definition passable (fp : file) : bool :=
  match f_type fp with
  | DTYPE_SOCKET | DTYPE_PIPE => true
  | DTYPE_VNODE => bool_decide (v_type fp = VREG)
  | _ => false
  end.

(** The loop over the descriptors of a message: [n] are left, the next one is
    at offset [off].  [None]: it reads beyond the buffer. *)
Fixpoint check_fds (fd_getfile : Z -> option file) (p : process) (b : list Z) (off : Z) (n : nat) :
  option (Z * process) :=
  match n with
  | O => Some (0, p)
  | S n =>
    match get_u32 b off with
    | None => None
    | Some fd =>
      match fd_getfile (s32 fd) with
      | None => Some (tame_fail p EBADF)
      | Some fp => if passable fp then check_fds fd_getfile p b (off + 4) n else Some (tame_fail p EPERM)
      end
    end
  end.

(** The header at offset [off]. *)
Record cmsghdr := Cmsghdr { cmsg_len : Z; cmsg_level : Z; cmsg_type : Z }.

Definition cmsg_at (b : list Z) (off : Z) : option cmsghdr :=
  match get_u32 b off, get_u32 b (off + 4), get_u32 b (off + 8) with
  | Some l, Some lv, Some t => Some (Cmsghdr l (s32 lv) (s32 t))
  | _, _, _ => None
  end.

Definition is_rights (c : cmsghdr) : bool := (cmsg_level c =? SOL_SOCKET) && (cmsg_type c =? SCM_RIGHTS).

(** [nfds]: computed in [size_t], stored in an [int]. *)
Definition cmsg_nfds (c : cmsghdr) : Z := s32 (u64 (cmsg_len c - CMSG_ALIGN sizeof_cmsghdr) / 8).

(** The scan for a message with descriptors: its offset, or [None] when there
    is none.  A message with length 0 is its own successor; the outer [None]
    says that the fuel is used up. *)
Fixpoint cmsg_scan (b : list Z) (off : Z) (fuel : nat) : option (option (Z * cmsghdr)) :=
  match fuel with
  | O => None
  | S fuel =>
    match cmsg_at b off with
    | None => None
    | Some c =>
      if is_rights c then Some (Some (off, c))
      else if Z.of_nat (length b) <? off + CMSG_ALIGN (cmsg_len c) + CMSG_ALIGN sizeof_cmsghdr
      then Some None
      else cmsg_scan b (off + CMSG_ALIGN (cmsg_len c)) fuel
    end
  end.

Definition tame_cmsg_recv (fd_getfile : Z -> option file) (p : process) (b : list Z) : option (Z * process) :=
  if negb (ps_tamed p) then Some (0, p)
  else
    let found := if sizeof_cmsghdr <=? Z.of_nat (length b) then cmsg_scan b 0 (length b) else Some None in
    match found with
    | None => None
    | Some None => Some (0, p)
    | Some (Some (off, c)) =>
      if negb (has (ps_tame p) TAME_RECVFD) then Some (tame_fail p EPERM)
      else check_fds fd_getfile p b (off + CMSG_ALIGN sizeof_cmsghdr) (Z.to_nat (cmsg_nfds c))
    end.

Definition tame_cmsg_send (fd_getfile : Z -> option file) (p : process) (b : list Z) : option (Z * process) :=
  if negb (ps_tamed p) then Some (0, p)
  else if negb (has (ps_tame p) TAME_SENDFD) then Some (tame_fail p EPERM)
  else
    match cmsg_at b 0 with
    | None => None
    | Some c =>
      if negb (is_rights c) then Some (0, p)
      else check_fds fd_getfile p b (CMSG_ALIGN sizeof_cmsghdr) (Z.to_nat (cmsg_nfds c))
    end.

(** ** Other arguments *)

Definition CTL_KERN : Z := 1.
Definition CTL_VM : Z := 2.
Definition CTL_NET : Z := 4.
Definition CTL_HW : Z := 6.
Definition KERN_OSTYPE : Z := 1.
Definition KERN_OSRELEASE : Z := 2.
Definition KERN_VERSION : Z := 4.
Definition KERN_HOSTNAME : Z := 10.
Definition KERN_DOMAINNAME : Z := 22.
Definition KERN_OSVERSION : Z := 27.
Definition HW_MACHINE : Z := 1.
Definition HW_PAGESIZE : Z := 7.
Definition HW_SENSORS : Z := 11.
Definition VM_PSSTRINGS : Z := 3.
Definition PF_ROUTE : Z := 17.
Definition AF_INET : Z := 2.
Definition AF_INET6 : Z := 24.
Definition NET_RT_DUMP : Z := 1.
Definition NET_RT_FLAGS : Z := 2.
Definition NET_RT_IFLIST : Z := 3.
Definition NET_RT_TABLE : Z := 5.
Definition RTF_LLINFO : Z := 0x400.

(** The mib starts with these numbers. *)
Definition mib_is (mib : Z -> Z) (l : list Z) : bool :=
  forallb (fun e => mib (Z.of_nat e.1) =? e.2) (zip (seq 0 (length l)) l).

Definition mib_family (mib : Z -> Z) : bool := (mib 3 =? 0) || (mib 3 =? AF_INET6) || (mib 3 =? AF_INET).

(** The reads of the routing table. *)
Definition tame_sysctl_route (miblen : Z) (mib : Z -> Z) : bool :=
  ((miblen =? 7) && mib_is mib [CTL_NET; PF_ROUTE; 0] && mib_family mib && (mib 4 =? NET_RT_DUMP))
  || ((miblen =? 6) && mib_is mib [CTL_NET; PF_ROUTE; 0] && mib_family mib && (mib 4 =? NET_RT_TABLE))
  || ((miblen =? 7) && mib_is mib [CTL_NET; PF_ROUTE; 0; AF_INET; NET_RT_FLAGS; RTF_LLINFO]).

(** [getifaddrs]. *)
Definition tame_sysctl_iflist (miblen : Z) (mib : Z -> Z) : bool :=
  (miblen =? 6) && mib_is mib [CTL_NET; PF_ROUTE; 0] && mib_family mib && (mib 4 =? NET_RT_IFLIST).

(** The names of length 2 that every process may read. *)
Definition tame_sysctl_names : list (list Z) :=
  [ [CTL_KERN; KERN_DOMAINNAME]; [CTL_KERN; KERN_HOSTNAME]; [CTL_KERN; KERN_OSTYPE];
    [CTL_KERN; KERN_OSRELEASE]; [CTL_KERN; KERN_OSVERSION]; [CTL_KERN; KERN_VERSION];
    [CTL_HW; HW_MACHINE]; [CTL_HW; HW_PAGESIZE]; [CTL_VM; VM_PSSTRINGS] ].

(** [new]: is there a new value? *)
Definition tame_sysctl_check (p : process) (miblen : Z) (mib : Z -> Z) (new : bool) : Z :=
  if negb (ps_tamed p) then 0
  else if new then EFAULT
  else if has (ps_tame p) TAME_ROUTE && tame_sysctl_route miblen mib then 0
  else if has (ps_tame p) (TAME_ROUTE .| TAME_INET) && tame_sysctl_iflist miblen mib then 0
  else if (3 <=? miblen) && mib_is mib [CTL_HW; HW_SENSORS] then 0
  else if (miblen =? 2) && existsb (mib_is mib) tame_sysctl_names then 0
  else EFAULT.

(** [delta], [from], [to]: is the pointer not NULL? *)
Definition tame_adjtime_check (p : process) (delta : bool) : Z :=
  if negb (ps_tamed p) then 0 else if delta then EFAULT else 0.

Definition tame_connect_check (p : process) : Z :=
  if negb (ps_tamed p) then 0
  else if has (ps_tame p) TAME_DNS_ACTIVE then 0
  else if has (ps_tame p) (TAME_INET .| TAME_UNIX) then 0
  else EPERM.

Definition tame_recvfrom_check (p : process) (from : bool) : Z :=
  if negb (ps_tamed p) then 0
  else if has (ps_tame p) TAME_DNS_ACTIVE && negb from then 0
  else if has (ps_tame p) TAME_INET then 0
  else if has (ps_tame p) TAME_UNIX then 0
  else if negb from then 0
  else EPERM.

Definition tame_sendto_check (p : process) (to : bool) : Z :=
  if negb (ps_tamed p) then 0
  else if has (ps_tame p) TAME_DNS_ACTIVE && negb to then 0
  else if has (ps_tame p) TAME_INET then 0
  else if has (ps_tame p) TAME_UNIX then 0
  else if negb to then 0
  else EPERM.

Definition tame_socket_check (p : process) (domain : Z) : Z :=
  if negb (ps_tamed p) then 0
  else if has (ps_tame p) (TAME_INET .| TAME_UNIX) then 0
  else if has (ps_tame p) TAME_DNS_ACTIVE && ((domain =? AF_INET) || (domain =? AF_INET6)) then 0
  else EPERM.

Definition tame_bind_check (p : process) : Z :=
  if negb (ps_tamed p) then 0 else if has (ps_tame p) TAME_INET then 0 else EPERM.

(** The port is in network order. *)
Definition htons (x : Z) : Z := Z.shiftl (x .& 0xff) 8 .| Z.shiftr (x .& 0xff00) 8.

Definition tame_dns_check (p : process) (port : Z) : Z :=
  if negb (ps_tamed p) then 0
  else if has (ps_tame p) TAME_INET then 0
  else if has (ps_tame p) TAME_DNS_ACTIVE && (port =? htons 53) then 0
  else EPERM.

(** The numbers of ioctl commands (sys/ioccom.h). *)
Definition IOC_VOID : Z := 0x20000000.
Definition IOC_OUT : Z := 0x40000000.
Definition IOC_IN : Z := 0x80000000.
Definition IOC (inout group num len : Z) : Z :=
  inout .| Z.shiftl (len .& 0x1fff) 16 .| Z.shiftl group 8 .| num.
Definition char_f : Z := 102.
Definition char_t : Z := 116.
Definition FIOCLEX : Z := IOC IOC_VOID char_f 1 0.
Definition FIONCLEX : Z := IOC IOC_VOID char_f 2 0.
Definition FIONREAD : Z := IOC IOC_OUT char_f 127 4.
Definition FIONBIO : Z := IOC IOC_IN char_f 126 4.
Definition FIOASYNC : Z := IOC IOC_IN char_f 125 4.
Definition FIOSETOWN : Z := IOC IOC_IN char_f 124 4.
Definition FIOGETOWN : Z := IOC IOC_OUT char_f 123 4.
Definition TIOCGETA : Z := IOC IOC_OUT char_t 19 44.
Definition TIOCSETA : Z := IOC IOC_IN char_t 20 44.
Definition TIOCSETAW : Z := IOC IOC_IN char_t 21 44.
Definition TIOCSETAF : Z := IOC IOC_IN char_t 22 44.
Definition TIOCSBRK : Z := IOC IOC_VOID char_t 123 0.
Definition TIOCCDTR : Z := IOC IOC_VOID char_t 120 0.
Definition TIOCGPGRP : Z := IOC IOC_OUT char_t 119 4.
Definition TIOCSPGRP : Z := IOC IOC_IN char_t 118 4.
Definition TIOCGWINSZ : Z := IOC IOC_OUT char_t 104 8.
Definition BIOCGSTATS : Z := IOC IOC_OUT 66 111 8.
Definition MTIOCTOP : Z := IOC IOC_IN 109 1 8.
Definition MTIOCGET : Z := IOC IOC_OUT 109 2 32.
Definition SIOCGIFGROUP : Z := IOC (IOC_IN .| IOC_OUT) 105 136 40.
Definition VISTTY : Z := 0x0008.

Definition is_tty (fp : file) : bool := bool_decide (f_type fp = DTYPE_VNODE) && has (v_flag fp) VISTTY.
Definition one_of (x : Z) (l : list Z) : bool := bool_decide (x ∈ l).

(** The switch for [TAME_IOCTL]: is the command allowed? *)
Definition ioctl_allowed (p : process) (com : Z) (fp : file) : bool :=
  if one_of com [FIOCLEX; FIONCLEX; FIOASYNC; FIOSETOWN; FIOGETOWN] then true
  else if one_of com [TIOCGETA; TIOCGPGRP; TIOCGWINSZ] then is_tty fp
  else if com =? BIOCGSTATS then bool_decide (f_type fp = DTYPE_VNODE) && f_ioctl_vn fp
  else if one_of com [MTIOCGET; MTIOCTOP] then
    bool_decide (f_type fp = DTYPE_VNODE) && bool_decide (v_type fp = VCHR \/ v_type fp = VBLK)
  else if com =? SIOCGIFGROUP then has (ps_tame p) TAME_INET && bool_decide (f_type fp = DTYPE_SOCKET)
  else false.

(** The switch for [TAME_TTY]. *)
Definition tty_allowed (p : process) (com : Z) (fp : file) : bool :=
  if com =? TIOCSPGRP then has (ps_tame p) TAME_PROC && is_tty fp
  else one_of com [TIOCGETA; TIOCGPGRP; TIOCGWINSZ; TIOCSBRK; TIOCCDTR; TIOCSETA; TIOCSETAW; TIOCSETAF]
       && is_tty fp.

Definition tame_ioctl_check (p : process) (com : Z) (fp : option file) : Z * process :=
  if negb (ps_tamed p) then (0, p)
  else if one_of com [FIONREAD; FIONBIO] then (0, p)
  else
    match fp with
    | None => (EBADF, p)
    | Some fp =>
      if has (ps_tame p) TAME_IOCTL && ioctl_allowed p com fp then (0, p)
      else if has (ps_tame p) TAME_TTY && tty_allowed p com fp then (0, p)
      else tame_fail p EPERM
    end.

Definition SO_RTABLE : Z := 0x1021.
Definition IPPROTO_IP : Z := 0.
Definition IPPROTO_TCP : Z := 6.
Definition IPPROTO_IPV6 : Z := 41.

Definition tcp_options : list Z := [1 (* TCP_NODELAY *); 4 (* TCP_MD5SIG *); 8 (* TCP_SACK_ENABLE *);
  2 (* TCP_MAXSEG *); 0x10 (* TCP_NOPUSH *)].
Definition ip_options : list Z := [3 (* IP_TOS *); 4 (* IP_TTL *); 32 (* IP_MINTTL *);
  19 (* IP_PORTRANGE *); 7 (* IP_RECVDSTADDR *)].
Definition ipv6_options : list Z := [4 (* IPV6_UNICAST_HOPS *); 37 (* IPV6_RECVHOPLIMIT *);
  14 (* IPV6_PORTRANGE *); 36 (* IPV6_RECVPKTINFO *)].

Definition tame_setsockopt_check (p : process) (level optname : Z) : Z :=
  if negb (ps_tamed p) then 0
  else if level =? SOL_SOCKET then if optname =? SO_RTABLE then EPERM else 0
  else if level =? IPPROTO_TCP then if one_of optname tcp_options then 0 else EPERM
  else if level =? IPPROTO_IP then if one_of optname ip_options then 0 else EPERM
  else if level =? IPPROTO_IPV6 then if one_of optname ipv6_options then 0 else EPERM
  else EPERM.

(** ** Sharing of whitelists *)

(** [None]: the pointer is to no whitelist. *)
Definition tame_dropwpaths (p : process) (st : store) : option (process * store) :=
  match ps_tamepaths p with
  | None => Some (set_tamepaths p None, st)
  | Some a =>
    match st !! a with
    | None => None
    | Some wl =>
      let ref := wl_ref wl - 1 in
      Some (set_tamepaths p None,
            if ref =? 0 then delete a st
            else <[a := Whitepaths (wl_count wl) ref (wl_paths wl)]> st)
    end
  end.

(** What [process_new] (kern/kern_fork.c) does for a child: the flags and the
    pointer are copied, and the whitelist is shared. *)
Definition process_new (parent : process) (st : store) : option (process * store) :=
  let p := Process (ps_tamed parent) (ps_tame parent) (ps_tamepaths parent) 0 0 0 [] in
  match ps_tamepaths p with
  | None => Some (p, st)
  | Some a =>
    match st !! a with
    | None => None
    | Some wl => Some (p, <[a := Whitepaths (wl_count wl) (wl_ref wl + 1) (wl_paths wl)]> st)
    end
  end.

(** What [sys_execve] (kern/kern_exec.c) does. *)
Definition exec_untame (p : process) (st : store) : option (process * store) :=
  tame_dropwpaths (Process false (ps_tame p) (ps_tamepaths p) (p_tamenote p) (p_tameafter p)
                     (p_tame_syscall p) (p_sigs p)) st.
