(* ===== verification/TameProofs.v ===== *)
(** * What tame(2) promises

    Theorems on the model of kern/kern_tame.c ([Tame]): requests, the authority
    of a process over its life, path names and the whitelist, descriptors in
    control messages, sockets, and the sharing of whitelists. *)

From S2P Require Import Prelude Canonpath Tame.

(** ** Sets of flags *)

(** Every flag of [f] is one of [g]. *)
Definition subflags (f g : Z) : Prop := f .& g = f.
#[global] Instance subflags_dec f g : Decision (subflags f g).
Proof. unfold subflags. apply _. Defined.

Lemma subflags_bits f g :
  subflags f g <-> forall i, 0 <= i -> Z.testbit f i = true -> Z.testbit g i = true.
Proof.
  unfold subflags. split.
  - intros H i Hi Hf. rewrite <- H, Z.land_spec in Hf. by apply andb_true_iff in Hf as [_ ?].
  - intros H. apply Z.bits_inj'. intros i Hi. rewrite Z.land_spec. specialize (H i Hi).
    destruct (Z.testbit f i); simpl; [by apply H|done].
Qed.

Lemma subflags_refl f : subflags f f.
Proof. by apply subflags_bits. Qed.

Lemma subflags_zero g : subflags 0 g.
Proof. apply subflags_bits. intros i _. by rewrite Z.bits_0. Qed.

Lemma subflags_trans f g h : subflags f g -> subflags g h -> subflags f h.
Proof. rewrite !subflags_bits. eauto. Qed.

Lemma subflags_lor f g h : subflags (f .| g) h <-> subflags f h /\ subflags g h.
Proof.
  rewrite !subflags_bits. split.
  - intros H. split; intros i Hi Ht; apply H; rewrite ?Z.lor_spec, ?Ht, ?orb_true_r; done.
  - intros [H1 H2] i Hi Ht. rewrite Z.lor_spec in Ht. apply orb_true_iff in Ht as [?|?]; eauto.
Qed.

Lemma subflags_land_l f g h : subflags f h -> subflags (f .& g) h.
Proof.
  rewrite !subflags_bits. intros H i Hi Ht. rewrite Z.land_spec in Ht. apply andb_true_iff in Ht as [? _]. eauto.
Qed.

Lemma subflags_lor_l f g : subflags f (f .| g).
Proof. apply subflags_bits. intros i Hi Ht. by rewrite Z.lor_spec, Ht. Qed.

Lemma subflags_lor_r f g : subflags g (f .| g).
Proof. rewrite Z.lor_comm. apply subflags_lor_l. Qed.

Lemma subflags_land_r f g : subflags (f .& g) g.
Proof. apply subflags_bits. intros i Hi Ht. rewrite Z.land_spec in Ht. by apply andb_true_iff in Ht as [_ ?]. Qed.

Lemma subflags_land f g h : subflags f g -> subflags f h -> subflags f (g .& h).
Proof.
  rewrite !subflags_bits. intros H1 H2 i Hi Ht. by rewrite Z.land_spec, H1, H2.
Qed.

Lemma has_mono f g x : subflags f g -> has f x = true -> has g x = true.
Proof.
  unfold has. rewrite !negb_true_iff, !Z.eqb_neq. intros Hs Hf Hg. apply Hf.
  apply Z.bits_inj'. intros i Hi. rewrite Z.bits_0.
  assert (Z.testbit (g .& x) i = false) as Hb by (rewrite Hg; apply Z.bits_0).
  rewrite Z.land_spec in *. rewrite subflags_bits in Hs. specialize (Hs i Hi).
  destruct (Z.testbit f i); [|done]. rewrite Hs in Hb by done. exact Hb.
Qed.

#[export] Hint Resolve subflags_refl subflags_zero subflags_lor_l subflags_lor_r subflags_land_r : kern.

(** ** Requests *)

(** The text between spaces, and the words of it. *)
Fixpoint fields (l : list Z) : list (list Z) :=
  match l with
  | [] => [[]]
  | c :: l =>
    if c =? SPACE then [] :: fields l
    else match fields l with
         | x :: r => (c :: x) :: r
         | [] => [[c]]
         end
  end.

Definition words (l : list Z) : list (list Z) := filter (fun w => w <> []) (fields l).

Definition known (w : list Z) : bool := negb (req_flags w =? 0).
Definition union_flags (ws : list (list Z)) (flags : Z) : Z :=
  fold_left (fun f w => f .| req_flags w) ws flags.

Lemma words_space l : words (SPACE :: l) = words l.
Proof. done. Qed.

Lemma skip_spaces_words l : words (skip_spaces l) = words l.
Proof.
  induction l as [|c l IH]; [done|]. simpl. case_if; [|done]. subst c. by rewrite words_space.
Qed.

Lemma skip_spaces_length l : (length (skip_spaces l) <= length l)%nat.
Proof. induction l as [|c l IH]; simpl; [lia|]. case_if; simpl; lia. Qed.

Lemma skip_spaces_head l : head (skip_spaces l) <> Some SPACE.
Proof. induction l as [|c l IH]; simpl; [done|]. case_if; [done|]. simpl. congruence. Qed.

Lemma word_fields l :
  exists r, fields l = (word l).1 :: r /\
    match (word l).2 with
    | None => r = []
    | Some s => filter (fun w => w <> []) r = words s /\ (length s < length l)%nat /\ head s <> Some SPACE
    end.
Proof.
  induction l as [|c l (r & Hf & Hr)]; simpl; [eauto|]. case_if.
  - eexists. split; [done|]. cbn [snd]. pose proof (skip_spaces_length l).
    split_and!; [by rewrite skip_spaces_words|lia|apply skip_spaces_head].
  - rewrite Hf. destruct (word l) as [w [s|]]; cbn [fst snd] in *; eexists; (split; [done|]); [|done].
    destruct Hr as (? & ? & ?). split_and!; [done|lia|done].
Qed.

Lemma word_nonempty c l : c <> SPACE -> (word (c :: l)).1 <> [].
Proof. intros Hc. simpl. rewrite (proj2 (Z.eqb_neq _ _) Hc). by destruct (word l). Qed.

Lemma tame_request_words n flags l :
  (length l <= n)%nat -> head l <> Some SPACE ->
  tame_request n flags l =
    if forallb known (words l) then inr (union_flags (words l) flags) else inl EINVAL.
Proof.
  revert flags l. induction n as [|n IH]; intros flags [|c l] Hn Hh; simpl in Hn; try lia; try done.
  assert (c <> SPACE) as Hc by (simpl in Hh; congruence).
  destruct (word_fields (c :: l)) as (r & Hf & Hr). pose proof (word_nonempty c l Hc) as Hw.
  unfold words. rewrite Hf. cbn [tame_request]. destruct (word (c :: l)) as [w pn]. cbn [fst snd] in *.
  rewrite filter_cons_True by done. cbn [forallb union_flags fold_left]. unfold known at 1.
  destruct (req_flags w =? 0) eqn:Ef; [done|]. cbn [negb andb]. destruct pn as [s|].
  - destruct Hr as (Hr & Hl & Hs). rewrite Hr. apply IH; [simpl in Hl; lia|done].
  - by subst r.
Qed.

Lemma req_flags_user w : subflags (req_flags w) TAME_USERSET.
Proof.
  unfold req_flags. destruct (list_find _ _) as [[i [n f]]|] eqn:E; [|done].
  apply list_find_Some in E as (Hl & _ & _). apply list_elem_of_lookup_2 in Hl.
  assert (Forall (fun e => subflags e.2 TAME_USERSET) tamereq) as Hall
    by (unfold tamereq; repeat (apply Forall_cons; split; [reflexivity|]); apply Forall_nil_2).
  rewrite Forall_forall in Hall. by apply (Hall _ Hl).
Qed.

Lemma union_flags_user ws flags :
  subflags flags TAME_USERSET -> subflags (union_flags ws flags) TAME_USERSET.
Proof.
  revert flags. induction ws as [|w ws IH]; intros flags Hf; [done|]. apply IH.
  apply subflags_lor. split; [done|apply req_flags_user].
Qed.

Lemma clear_subflags f : subflags f TAME_USERSET -> clear f TAME_USERSET = 0.
Proof.
  intros Hf. unfold clear. apply Z.bits_inj'. intros i Hi. rewrite Z.ldiff_spec, Z.bits_0.
  rewrite subflags_bits in Hf. specialize (Hf i Hi). destruct (Z.testbit f i); [|done]. by rewrite Hf.
Qed.

(** The test for a reduction is inclusion. *)
Lemma reduction_iff u t :
  subflags u TAME_USERSET ->
  ((u .| t) .& TAME_USERSET = t .& TAME_USERSET <-> subflags u t).
Proof.
  rewrite (subflags_bits u t). rewrite subflags_bits. intros Hu. split.
  - intros H i Hi Ht. assert (Z.testbit ((u .| t) .& TAME_USERSET) i = Z.testbit (t .& TAME_USERSET) i) as Hb
      by (by rewrite H).
    rewrite !Z.land_spec, Z.lor_spec, Ht, Hu in Hb by done. by destruct (Z.testbit t i).
  - intros H. apply Z.bits_inj'. intros i Hi. rewrite !Z.land_spec, Z.lor_spec. specialize (H i Hi).
    destruct (Z.testbit u i); [|done]. by rewrite H.
Qed.

(** Flags that pass the checks for a tamed and for a free process. *)
Lemma tame_flags_checked p u :
  subflags u TAME_USERSET ->
  (if negb (clear u TAME_USERSET =? 0) then inl EINVAL
   else if ps_tamed p then
     if negb ((u .| ps_tame p) .& TAME_USERSET =? ps_tame p .& TAME_USERSET) then inl EPERM
     else inr (u .& ps_tame p .& TAME_USERSET)
   else inr u) =
  (if ps_tamed p && negb (bool_decide (subflags u (ps_tame p))) then inl EPERM else inr u : Z + Z).
Proof.
  intros Hu. rewrite clear_subflags by done. cbn [Z.eqb negb]. destruct (ps_tamed p); [|done]. cbn [andb].
  pose proof (reduction_iff u (ps_tame p) Hu) as Hr. case_bool_decide as Hs; cbn [negb].
  - rewrite (proj2 (Z.eqb_eq _ _)) by (by apply Hr). cbn [negb]. by rewrite Hs, Hu.
  - rewrite (proj2 (Z.eqb_neq _ _)) by tauto. done.
Qed.

Lemma tame_flags_words p l :
  Z.of_nat (length l) < MAXPATHLEN -> head l <> Some SPACE ->
  tame_flags p (Some (inr l)) =
    if negb (forallb known (words l)) then inl EINVAL
    else if ps_tamed p && negb (bool_decide (subflags (union_flags (words l) 0) (ps_tame p)))
    then inl EPERM
    else inr (union_flags (words l) 0).
Proof.
  intros Hl Hh. unfold tame_flags. rewrite (proj2 (Z.leb_gt _ _)) by done.
  rewrite tame_request_words by done. destruct (forallb known (words l)); cbn [negb]; [|done].
  apply tame_flags_checked, union_flags_user, subflags_zero.
Qed.

(** A request names the words it is made of, whatever the number of spaces
    between them: when one of them is no name of the table the call fails with
    [EINVAL]; otherwise the flags are the union of those of the names, and a
    process that is tamed already gets exactly them, or [EPERM] when one is not
    among its flags. *)
Theorem tame_request_spec p l :
  Z.of_nat (length l) < MAXPATHLEN -> head l <> Some SPACE ->
  tame_flags p (Some (inr l)) =
    if negb (forallb known (words l)) then inl EINVAL
    else if ps_tamed p && negb (bool_decide (subflags (union_flags (words l) 0) (ps_tame p)))
    then inl EPERM
    else inr (union_flags (words l) 0).
Proof. apply tame_flags_words. Qed.

(** The flags that any request can give. *)
Lemma tame_flags_sub p rq f :
  tame_flags p rq = inr f ->
  subflags f TAME_USERSET /\ (ps_tamed p = true -> subflags f (ps_tame p)).
Proof.
  unfold tame_flags. destruct (match rq with None => _ | _ => _ end) as [e|u] eqn:E; [done|].
  destruct (clear u TAME_USERSET =? 0) eqn:Ec; [|done]. cbn [negb]. zify_bool.
  assert (subflags u TAME_USERSET) as Hu.
  { apply subflags_bits. intros i Hi Ht. assert (Z.testbit (clear u TAME_USERSET) i = false) as Hb
      by (rewrite Ec; apply Z.bits_0).
    unfold clear in Hb. rewrite Z.ldiff_spec, Ht in Hb. by destruct (Z.testbit TAME_USERSET i). }
  destruct (ps_tamed p); [|by intros [= <-]]. case_if; [done|]. intros [= <-].
  split; [apply subflags_land_r|]. intros _. apply subflags_land_l, subflags_land_r.
Qed.

(** The errors of the code around the file are not 0. *)
Record env_ok (request : option (Z + list Z)) (paths : option umem) (getcwd : Z + list Z) : Prop := {
  request_errors : request <> Some (inl 0);
  count_errors um i : paths = Some um -> um_count um i <> inl 0;
  copy_errors um i : paths = Some um -> um_copy um i <> inl 0;
  str_errors um i : paths = Some um -> um_str um i <> inl 0;
  getcwd_errors : getcwd <> inl 0
}.

Lemma tame_request_errors n flags l e : tame_request n flags l = inl e -> e <> 0.
Proof.
  revert flags l. induction n as [|n IH]; intros flags [|c l]; cbn [tame_request]; try done; [by intros [= <-]|].
  destruct (word (c :: l)) as [w pn]. case_if; [by intros [= <-]|]. destruct pn; [apply IH|done].
Qed.

Lemma tame_flags_errors p rq e : rq <> Some (inl 0) -> tame_flags p rq = inl e -> e <> 0.
Proof.
  intros Hrq. unfold tame_flags. destruct rq as [[e0|l]|].
  - intros [= <-]. naive_solver.
  - destruct (MAXPATHLEN <=? _); [by intros [= <-]|].
    destruct (tame_request _ _ _) eqn:E; [intros [= <-]; by eapply tame_request_errors|].
    repeat case_if; intros [=]; subst; done.
  - repeat case_if; intros [=]; subst; done.
Qed.

Lemma canonpath_errors input n e : canonpath input n = Some (inl e) -> e = ENAMETOOLONG.
Proof. unfold canonpath. repeat case_if; try congruence. by destruct (dotdot _ _). Qed.

Lemma count_paths_errors um n i e :
  (forall i, um_count um i <> inl 0) -> count_paths um n i = inl e -> e <> 0.
Proof.
  intros Hum. revert i. induction n as [|n IH]; intros i; simpl; [by intros [= <-]|].
  pose proof (Hum i). destruct (um_count um i) as [e0|sp]; [intros [= <-]; congruence|].
  case_if; [done|apply IH].
Qed.

Lemma full_path_errors gc path cs e cs' :
  gc <> inl 0 -> full_path gc path cs = Some (inl e, cs') -> e <> 0.
Proof.
  intros Hgc. unfold full_path. case_bool_decide; [done|]. destruct cs; [destruct gc|]; repeat case_if;
    intros [=]; subst; try done. congruence.
Qed.

Lemma copy_paths_errors um gc n i cs m e :
  (forall i, um_copy um i <> inl 0) -> (forall i, um_str um i <> inl 0) -> gc <> inl 0 ->
  copy_paths um gc n i cs m = Some (inl e) -> e <> 0.
Proof.
  intros Hum Hstr Hgc. revert i cs m. induction n as [|n IH]; intros i cs m; cbn [copy_paths]; [done|].
  pose proof (Hum i). destruct (um_copy um i) as [e0|sp]; [intros [= <-]; congruence|]. case_if; [done|].
  unfold copyinstr. pose proof (Hstr sp). destruct (um_str um sp) as [e0|s]; [intros [= <-]; congruence|].
  case_if; [by intros [= <-]|]. destruct (full_path gc s cs) as [[[e0|fp] cs']|] eqn:Efp; [|..|done].
  - intros [= <-]. exact (full_path_errors _ _ _ _ _ Hgc Efp).
  - destruct (canonpath fp MAXPATHLEN) as [[e0|cp]|] eqn:Ec; [|..|done].
    + intros [= <-]. by rewrite (canonpath_errors _ _ _ Ec).
    + destruct (negb _); [by intros [= <-]|].
      destruct (copy_paths _ _ n _ _ _) as [[e0|wps]|] eqn:Er; try done.
      intros [= <-]. exact (IH _ _ _ Er).
Qed.

Lemma tame_paths_errors um gc e :
  (forall i, um_count um i <> inl 0) -> (forall i, um_copy um i <> inl 0) ->
  (forall i, um_str um i <> inl 0) -> gc <> inl 0 ->
  tame_paths um gc = Some (inl e) -> e <> 0.
Proof.
  intros H1 H2 H3 H4. unfold tame_paths. destruct (count_paths um _ 0) eqn:E.
  - intros [= <-]. by eapply count_paths_errors.
  - destruct (copy_paths _ _ _ _ _ _) as [[e0|?]|] eqn:Er; [|..|done]; [|done].
    intros [= <-]. by eapply copy_paths_errors.
Qed.

Lemma sys_tame_cases p st rq paths gc a e p' st' :
  sys_tame p st rq paths gc a = Some (e, p', st') ->
  (p' = p /\ st' = st /\
     (tame_flags p rq = inl e \/ e = EPERM \/ exists um, paths = Some um /\ tame_paths um gc = Some (inl e))) \/
  (e = 0 /\ ps_tamed p' = true /\ tame_flags p rq = inr (ps_tame p') /\ p_sigs p' = p_sigs p /\
   p_tameafter p' = p_tameafter p /\
   match paths with
   | None => ps_tamepaths p' = ps_tamepaths p /\ st' = st
   | Some um => ps_tamepaths p = None /\ ps_tamepaths p' = Some a /\
                exists wl, tame_paths um gc = Some (inr wl) /\ st' = <[a := wl]> st
   end).
Proof.
  unfold sys_tame. destruct (tame_flags p rq) as [e0|flags]; [intros [= <- <- <-]; naive_solver|].
  destruct paths as [um|]; [|intros [= <- <- <-]; right; naive_solver].
  case_bool_decide as Hs; [intros [= <- <- <-]; naive_solver|].
  destruct (tame_paths um gc) as [[e0|wl]|] eqn:E; [|..|done]; intros [= <- <- <-]; [naive_solver|].
  right. split_and!; try done; [|eauto]. destruct (ps_tamepaths p); [|done]. by destruct Hs.
Qed.

(** A call of tame(2) that fails changes nothing; one that succeeds tames
    the process, with flags among those a user may set, and for a process that
    was tamed among those it had.  A process that has a whitelist keeps it, and
    no call gives it another one. *)
Theorem sys_tame_reduces p st rq paths gc a e p' st' :
  env_ok rq paths gc -> sys_tame p st rq paths gc a = Some (e, p', st') ->
  (e <> 0 -> p' = p /\ st' = st) /\
  (e = 0 -> ps_tamed p' = true /\ subflags (ps_tame p') TAME_USERSET /\
            (ps_tamed p = true -> subflags (ps_tame p') (ps_tame p)) /\
            (ps_tamepaths p <> None -> ps_tamepaths p' = ps_tamepaths p /\ st' = st)).
Proof.
  intros [Hrq Hco Hcp Hst Hgc] H%sys_tame_cases. destruct H as [(-> & -> & He)|(-> & Ht & Hf & _ & _ & Hp)].
  - split; [done|]. intros ->. exfalso. destruct He as [He|[He|(um & Hum & He)]]; [|done|].
    + by eapply tame_flags_errors in He.
    + eapply tame_paths_errors in He; [done|..]; eauto.
  - split; [done|]. intros _. apply tame_flags_sub in Hf as [Hu Hs]. split_and!; try done.
    destruct paths; [|by destruct Hp as [-> ->]]. by destruct Hp as (-> & _).
Qed.

(** ** The whitelist *)

(** The entries of the whitelist for canonical paths. *)
Definition entry (comps : list (list Z)) : whitepath :=
  Whitepath (Some (render comps)) (Z.of_nat (length (render comps)) + 1).

(** The whitelist holds the paths [ws], as lists of components. *)
Definition wl_holds (wl : whitepaths) (ws : list (list (list Z))) : Prop :=
  Forall (Forall clean) ws /\ Z.of_nat (length ws) <= wl_count wl /\
  exists k, wl_paths wl = (entry <$> ws) ++ replicate (S k) (Whitepath None 0).

(** The text of a component list ends or goes on with a slash. *)
Definition cut (l : list Z) : Prop := l = [] \/ head l = Some SLASH.

Lemma cut_open comps : cut (open_ comps).
Proof. destruct comps; [by left|by right]. Qed.

Lemma cut_unique x y a b :
  no_slash x -> no_slash y -> cut a -> cut b -> x ++ a = y ++ b -> x = y /\ a = b.
Proof.
  intros Hx. revert y. induction Hx as [|c x Hc Hx IH]; intros y Hy Ha Hb E.
  - destruct y as [|d y]; [done|]. simpl in E. subst a. apply Forall_cons in Hy as [Hd _].
    destruct Ha as [Ha|Ha]; [done|]. simpl in Ha. congruence.
  - destruct y as [|d y]; simpl in E.
    + subst b. destruct Hb as [Hb|Hb]; [done|]. simpl in Hb. congruence.
    + injection E as -> E. apply Forall_cons in Hy as [_ Hy]. destruct (IH y Hy Ha Hb E) as [-> ->]. done.
Qed.

Lemma open_prefix w c :
  Forall clean w -> Forall clean c ->
  (exists rest, open_ c = open_ w ++ rest /\ cut rest) <-> w `prefix_of` c.
Proof.
  intros Hw. revert c. induction Hw as [|x w Hx Hw IH]; intros c Hc.
  - split; [intros _; apply prefix_nil|]. intros _. exists (open_ c). split; [done|apply cut_open].
  - destruct Hc as [|y c Hy Hc].
    { split; [intros (rest & E & _); discriminate E|]. by intros ?%prefix_nil_inv. }
    change (open_ (y :: c)) with (SLASH :: y ++ open_ c). change (open_ (x :: w)) with (SLASH :: x ++ open_ w).
    specialize (IH c Hc). split.
    + intros (rest & E & Hr). injection E as E. rewrite <- app_assoc in E.
      apply cut_unique in E as [-> E]; [|apply Hy|apply Hx|apply cut_open|].
      * apply prefix_cons, IH. eauto.
      * destruct w; [exact Hr|by right].
    + intros Hp. pose proof (prefix_cons_inv_1 _ _ _ _ Hp) as ->. apply prefix_cons_inv_2, IH in Hp as (rest & E & Hr).
      exists rest. split; [|done]. by rewrite E, <- app_comm_cons, <- app_assoc.
Qed.

Definition no_nul (l : list Z) : Prop := Forall (fun c => c <> 0) l.

(** The comparison of texts is the comparison of components. *)
Lemma wl_match_spec w c :
  Forall clean w -> Forall clean c -> no_nul (render c) ->
  wl_match (render c) (render w) (wp_len (entry w)) = true <-> w `prefix_of` c.
Proof.
  intros Hw Hc Hn. unfold wl_match, entry. cbn [wp_len].
  rewrite Z.add_simpl_r, Nat2Z.id, (firstn_all (render w)), andb_true_iff, bool_decide_eq_true.
  destruct Hw as [|x w Hx Hw].
  { cbn [render length]. split; [intros _; apply prefix_nil|intros _]. split; [by destruct c|].
    apply orb_true_iff. by right. }
  change (render (x :: w)) with (open_ (x :: w)). rewrite <- open_prefix by (done || by constructor).
  assert (bool_decide (open_ (x :: w) !! 1%nat = None) = false) as ->.
  { destruct Hx as (_ & Hx & _). apply bool_decide_eq_false_2. destruct x; [done|]. done. }
  rewrite orb_false_r. destruct Hc as [|y c Hy Hc].
  { split; [|intros (rest & E & _); discriminate E]. cbn [render]. intros [E _].
    destruct Hx as (_ & Hx & _). destruct x; [done|]. apply (f_equal length) in E. rewrite length_take in E.
    unfold open_ in E. simpl in E. lia. }
  change (render (y :: c)) with (open_ (y :: c)) in *. set (W := open_ (x :: w)). set (C := open_ (y :: c)) in *.
  split.
  - intros [E Ht]. exists (drop (length W) C). split; [by rewrite <- E at 1; rewrite take_drop|].
    unfold cut. destruct (drop (length W) C) as [|d r] eqn:Ed; [by left|]. right.
    assert (C !! length W = Some d) as Hl by (rewrite <- (Nat.add_0_r (length W)), <- lookup_drop, Ed; done).
    rewrite Hl in Ht. simpl in Ht. apply (Forall_lookup_1 _ _ _ _ Hn) in Hl. cbn beta in Hl.
    apply orb_true_iff in Ht as [Ht|Ht]; apply Z.eqb_eq in Ht; simpl; congruence.
  - intros (rest & -> & Hr). rewrite take_app_length. split; [done|].
    rewrite lookup_app_r, Nat.sub_diag by done. destruct Hr as [->|Hr]; [done|].
    destruct rest as [|d r]; [done|]. simpl in Hr |- *. injection Hr as ->. done.
Qed.

Lemma wl_search_spec ws c n k :
  Forall (Forall clean) ws -> Forall clean c -> no_nul (render c) -> Z.of_nat (length ws) <= n ->
  wl_search (render c) ((entry <$> ws) ++ replicate (S k) (Whitepath None 0)) n =
    if bool_decide (Exists (fun w => w `prefix_of` c) ws) then 0 else ENOENT.
Proof.
  intros Hws Hc Hn. revert n. induction Hws as [|w ws Hw Hws IH]; intros n Hlen; [done|].
  cbn [fmap list_fmap app wl_search]. unfold entry at 1. cbn [length] in Hlen.
  rewrite (proj2 (Z.leb_gt _ _)) by lia. pose proof (wl_match_spec w c Hw Hc Hn) as Hm.
  cbn [entry wp_len] in Hm. destruct (wl_match _ _ _) eqn:E.
  - rewrite bool_decide_eq_true_2; [done|]. left. by apply Hm.
  - rewrite IH by lia. assert (~ w `prefix_of` c) by (by rewrite <- Hm).
    erewrite bool_decide_ext; [done|]. rewrite Exists_cons. tauto.
Qed.

(** Characters of a normal form are those of the path. *)
Lemma split_forall (P : Z -> Prop) l : Forall P l -> Forall (Forall P) (split l).
Proof.
  intros H. induction H as [|c l Hc Hl IH]; simpl; [by repeat constructor|]. case_if; [by constructor|].
  destruct (split l); [by repeat constructor|]. apply Forall_cons in IH as [? ?]. by repeat constructor.
Qed.

Lemma resolve_forall (P : list Z -> Prop) stack comps :
  Forall P stack -> Forall P comps -> Forall P (resolve stack comps).
Proof.
  intros Hs Hc. revert stack Hs. induction Hc as [|c comps Hx Hc IH]; intros stack Hs; [done|]. simpl.
  repeat case_decide; apply IH; [done|by apply Forall_take|]. apply Forall_app. by repeat constructor.
Qed.

Lemma render_no_nul l : no_nul l -> no_nul (render (normal l)).
Proof.
  intros H. assert (Forall no_nul (normal l)) as Hn.
  { apply resolve_forall; [done|]. apply split_forall. by apply Forall_drop. }
  unfold render, no_nul. destruct (normal l) as [|c r]; [by constructor|]. apply Forall_concat.
  apply Forall_fmap. eapply Forall_impl; [exact Hn|]. intros x Hx. by constructor.
Qed.

Lemma canonpath_some input n path :
  head input = Some SLASH -> canonpath input n = Some (inr path) ->
  path = render (normal input) /\ Z.of_nat (length input) + 1 < n.
Proof.
  intros Hh H. destruct (Z.le_gt_cases n (Z.of_nat (length input) + 1)) as [Hn|Hn].
  - unfold canonpath in H. rewrite bool_decide_eq_true_2 in H by done. cbn [negb] in H.
    by rewrite (proj2 (Z.leb_le _ _)) in H.
  - rewrite canonpath_abs in H by done. by injection H as <-.
Qed.

(** The full path of a user's string. *)
Definition full_of (gc : Z + list Z) (path : list Z) : list Z :=
  if bool_decide (head path = Some SLASH) then path
  else match gc with inr cwd => cwd ++ SLASH :: path | inl _ => path end.

(** The current directory is an absolute path. *)
Definition cwd_ok (gc : Z + list Z) : Prop := forall cwd, gc = inr cwd -> head cwd = Some SLASH.

Lemma head_app_some (l k : list Z) c : head l = Some c -> head (l ++ k) = Some c.
Proof. by destruct l. Qed.

Lemma full_path_abs gc path cs fp cs' :
  cwd_ok gc -> full_path gc path cs = Some (inr fp, cs') ->
  fp = full_of gc path /\ head fp = Some SLASH.
Proof.
  intros Hc. unfold full_path, full_of. case_bool_decide; [by intros [= <- <-]|].
  destruct cs; [|by case_if]. destruct gc as [e|cwd]; [done|]. case_if; [done|]. intros [= <- <-].
  split; [done|]. by apply head_app_some, Hc.
Qed.

Lemma copy_paths_holds um gc n i cs m wps :
  cwd_ok gc -> copy_paths um gc n i cs m = Some (inr wps) ->
  exists ws k, wps = (entry <$> ws) ++ replicate k (Whitepath None 0) /\ (length ws <= n)%nat /\
    Forall (fun w => Forall clean w /\
      exists sp s, um_str um sp = inr s /\ w = normal (full_of gc s)) ws.
Proof.
  intros Hgc. revert i cs m wps. induction n as [|n IH]; intros i cs m wps; cbn [copy_paths].
  { intros [= <-]. exists [], 0%nat. split_and!; [done|simpl; lia|by constructor]. }
  destruct (um_copy um i) as [e|sp]; [done|]. case_if.
  { intros [= <-]. exists [], (S n). split_and!; [done|simpl; lia|by constructor]. }
  unfold copyinstr. destruct (um_str um sp) as [e|s] eqn:Es; [done|]. case_if; [done|].
  destruct (full_path gc s cs) as [[[e|fp] cs']|] eqn:Ef; try done.
  destruct (full_path_abs _ _ _ _ _ Hgc Ef) as [-> Hh].
  destruct (canonpath _ MAXPATHLEN) as [[e|cp]|] eqn:Ec; try done. apply canonpath_some in Ec as [-> _]; [|done].
  destruct (negb _); [done|]. destruct (copy_paths _ _ n _ _ _) as [[e|wps']|] eqn:Er; try done.
  intros [= <-]. destruct (IH _ _ _ _ Er) as (ws & k & -> & Hl & Hall).
  exists (normal (full_of gc s) :: ws), k. split_and!; [done|simpl; lia|]. constructor; [|done].
  split; [apply normal_clean|]. eauto.
Qed.

Lemma count_paths_nonneg um n i c : 0 <= i -> count_paths um n i = inr c -> 0 <= c.
Proof.
  revert i. induction n as [|n IH]; intros i Hi; simpl; [done|]. destruct (um_count um i); [done|].
  case_if; [by intros [= <-]|]. apply IH. lia.
Qed.

Lemma tame_paths_holds um gc wl :
  cwd_ok gc -> tame_paths um gc = Some (inr wl) ->
  wl_ref wl = 1 /\ exists ws, wl_holds wl ws /\
    Forall (fun w => exists sp s, um_str um sp = inr s /\ w = normal (full_of gc s)) ws.
Proof.
  intros Hgc. unfold tame_paths. destruct (count_paths um _ 0) as [e|c] eqn:Ec; [done|].
  apply count_paths_nonneg in Ec; [|lia].
  destruct (copy_paths _ _ _ _ _ _) as [[e|wps]|] eqn:Er; try done. intros [= <-].
  apply copy_paths_holds in Er as (ws & k & -> & Hl & Hall); [|done]. split; [done|].
  exists ws. split; [|eapply Forall_impl; [exact Hall|]; by intros w [_ ?]].
  split_and!; [eapply Forall_impl; [exact Hall|]; by intros w [? _]|simpl; lia|].
  exists k. cbn [wl_paths]. by rewrite <- app_assoc, <- replicate_cons_app.
Qed.


(** The path of the process: absolute, or below a current directory that is
    known, and short enough for the buffers. *)
Record path_ok (gc : Z + list Z) (orig : list Z) : Prop := {
  path_cwd : cwd_ok gc;
  path_known : head orig = Some SLASH \/ exists cwd, gc = inr cwd;
  path_nul : no_nul (full_of gc orig);
  path_len : Z.of_nat (length (full_of gc orig)) + 1 < MAXPATHLEN
}.

(** The paths of the whitelist [ws] that the path [orig] lies under. *)
Definition allowed_by (ws : list (list (list Z))) (gc : Z + list Z) (orig : list Z) : bool :=
  bool_decide (Exists (fun w => w `prefix_of` normal (full_of gc orig)) ws).

Lemma full_of_head gc orig : path_ok gc orig -> head (full_of gc orig) = Some SLASH.
Proof.
  intros [Hc Hk _ _]. unfold full_of. case_bool_decide; [done|]. destruct Hk as [?|[cwd ->]]; [done|].
  by apply head_app_some, Hc.
Qed.

Lemma canonpath_rel input n path :
  head input <> Some SLASH -> canonpath input n = Some (inr path) -> path = input.
Proof.
  intros Hh. unfold canonpath. rewrite bool_decide_eq_false_2 by done. cbn [negb]. case_if; congruence.
Qed.

Lemma tame_namei_wl_spec p wl ws gc orig path :
  wl_holds wl ws -> path_ok gc orig -> canonpath orig PATH_MAX = Some (inr path) ->
  tame_namei_wl p wl gc orig path = Some (if allowed_by ws gc orig then 0 else ENOENT, p).
Proof.
  intros (Hws & Hcnt & k & Hpaths) Hok Hcan. pose proof (full_of_head _ _ Hok) as Hfh.
  assert (forall full, canonpath full MAXPATHLEN = Some (inr (render (normal (full_of gc orig)))) ->
    match canonpath full MAXPATHLEN with
    | None => None
    | Some (inl _) => Some (tame_fail p EPERM)
    | Some (inr canopath) => Some (wl_search canopath (wl_paths wl) (wl_count wl), p)
    end = Some (if allowed_by ws gc orig then 0 else ENOENT, p)) as Hgen.
  { intros full ->. rewrite Hpaths, wl_search_spec; [done|done|apply normal_clean| |done].
    apply render_no_nul, Hok. }
  unfold tame_namei_wl. destruct Hok as [Hc Hk Hnul Hlen]. unfold full_of in *.
  case_bool_decide as Hh.
  - apply canonpath_some in Hcan as [-> Hl]; [|done]. apply Hgen. pose proof (normal_length orig Hh).
    rewrite canonpath_abs; [|apply render_head|lia]. by rewrite normal_render by apply normal_clean.
  - destruct Hk as [?|[cwd ->]]; [done|]. apply Hgen. by rewrite canonpath_abs.
Qed.

(** ** [tame_namei] *)

(** The operation that the call announced needs no flag that is missing. *)
Definition note_allowed (p : process) : bool :=
  (negb (has (p_tamenote p) TMN_FATTR) || has (ps_tame p) TAME_FATTR) &&
  (negb (has (p_tamenote p) TMN_CPATH) || has (ps_tame p) TAME_CPATH) &&
  (negb (has (p_tamenote p) TMN_WPATH) || has (ps_tame p) TAME_WPATH).

(** Temporary files. *)
Definition tmp_exempt (p : process) (path : list Z) : bool :=
  has (ps_tame p) TAME_TMPPATH && under (str "/tmp/") path &&
  (((p_tame_syscall p =? SYS_open) && has (p_tamenote p) TMN_CPATH) || (p_tame_syscall p =? SYS_unlink)).

(** [tame_namei] behind the announced operation. *)
Lemma tame_namei_cases p st gc orig :
  p_tamenote p <> TMN_COREDUMP ->
  tame_namei p st gc orig =
    match canonpath orig PATH_MAX with
    | None => None
    | Some (inl _) => Some (tame_fail p EPERM)
    | Some (inr path) =>
      if has (p_tamenote p) TMN_FATTR && negb (has (ps_tame p) TAME_FATTR) then Some (tame_fail p EPERM)
      else if tmp_exempt p path then Some (0, p)
      else if negb (note_allowed p) then Some (tame_fail p EPERM)
      else match tame_libc p path with
           | Some (error, after) => Some (error, set_tameafter p (p_tameafter p .| after))
           | None => tame_namei_rest p st gc orig path
           end
    end.
Proof.
  intros Hn. unfold tame_namei. rewrite (proj2 (Z.eqb_neq _ _) Hn).
  destruct (canonpath orig PATH_MAX) as [[e|path]|]; try done. unfold tmp_exempt, note_allowed.
  destruct (has (p_tamenote p) TMN_FATTR), (has (ps_tame p) TAME_FATTR); cbn [negb andb orb]; try done.
  all: destruct (has (ps_tame p) TAME_TMPPATH), (under (str "/tmp/") path), (p_tame_syscall p =? SYS_open),
    (p_tame_syscall p =? SYS_unlink), (has (p_tamenote p) TMN_CPATH), (has (ps_tame p) TAME_CPATH),
    (has (p_tamenote p) TMN_WPATH), (has (ps_tame p) TAME_WPATH); reflexivity.
Qed.


(** The files that libc reads by itself. *)
Definition libc_files : list (list Z) :=
  str <$> ["/etc/pwd.db"; "/etc/group"; "/etc/resolv.conf"; "/etc/hosts"; "/etc/services";
           "/var/run/ypbind.lock"; "/etc/localtime"; "/etc/malloc.conf"]%string.
Definition libc_dirs : list (list Z) :=
  str <$> ["/var/yp/binding/"; "/usr/share/zoneinfo/"; "/usr/share/nls/"]%string.

Definition libc_path (path : list Z) : Prop :=
  path ∈ libc_files \/ Exists (fun d => under d path = true) libc_dirs.

Lemma tame_libc_read p path after :
  tame_libc p path = Some (0, after) -> p_tamenote p = TMN_RPATH /\ libc_path path.
Proof.
  unfold tame_libc, tame_libc_open, is_path. intros H.
  repeat match type of H with
         | (if ?b then _ else _) = _ => let E := fresh "E" in destruct b eqn:E; [|clear E]
         end; try discriminate H; zify_bool; (split; [done|]).
  all: repeat match goal with E : bool_decide _ = true |- _ => apply bool_decide_eq_true in E end; subst.
  all: first [left; unfold libc_files; set_solver
             |right; unfold libc_dirs; cbn [fmap list_fmap]; auto 10 using Exists_cons_hd, Exists_cons_tl].
Qed.

(** What lets a path through: the whitelist, or without one a flag for paths. *)
Definition path_granted (p : process) (st : store) (gc : Z + list Z) (orig : list Z) : Prop :=
  match ps_tamepaths p with
  | Some a => forall wl ws, st !! a = Some wl -> wl_holds wl ws -> allowed_by ws gc orig = true
  | None => has (ps_tame p) (TAME_RPATH .| TAME_WPATH .| TAME_CPATH) = true
  end.

Lemma has_lor f g h : has f (g .| h) = has f g || has f h.
Proof.
  unfold has. rewrite Z.land_lor_distr_r.
  destruct (Z.eqb_spec (f .& g) 0) as [->|H1]; [by rewrite Z.lor_0_l|].
  destruct (Z.eqb_spec (f .& g .| f .& h) 0) as [H2|H2]; [|done]. by apply Z.lor_eq_0_iff in H2 as [? _].
Qed.

Lemma tame_fail_error p e : (tame_fail p e).1 = e.
Proof. done. Qed.

Lemma tame_namei_rest_granted p st gc orig path p' :
  path_ok gc orig -> canonpath orig PATH_MAX = Some (inr path) ->
  tame_namei_rest p st gc orig path = Some (0, p') -> p' = p /\ path_granted p st gc orig.
Proof.
  intros Hok Hcan. unfold tame_namei_rest, path_granted. destruct (ps_tamepaths p) as [a|].
  - destruct (st !! a) as [wl|] eqn:Ha; [|done]. intros H. split.
    + revert H. unfold tame_namei_wl. destruct (if bool_decide _ then _ else _) as [e|l]; [by intros [=]|].
      destruct (canonpath l MAXPATHLEN) as [[?|?]|]; [done|intros E; injection E; congruence|done].
    + intros wl' ws [= <-] Hwl. erewrite tame_namei_wl_spec in H by done. by destruct (allowed_by ws gc orig).
  - rewrite !has_lor. destruct (has (ps_tame p) TAME_RPATH), (has (ps_tame p) TAME_WPATH),
      (has (ps_tame p) TAME_CPATH); try done; intros [= <-]; done.
Qed.

(** When [tame_namei] lets a path through (and no core is being dumped),
    the process has the flag for changing attributes if the call changes them, and
    either the path lies under [/tmp/] and the process, allowed to make temporary
    files, creates or unlinks one; or the process has the flags for creating and
    for writing that the call needs, and the path is one of the files of libc,
    only for reading, or is granted by the whitelist, and without a whitelist by
    a flag for paths. *)
Theorem tame_namei_sound p st gc orig p' :
  path_ok gc orig -> p_tamenote p <> TMN_COREDUMP -> tame_namei p st gc orig = Some (0, p') ->
  ps_tame p' = ps_tame p /\
  (has (p_tamenote p) TMN_FATTR = true -> has (ps_tame p) TAME_FATTR = true) /\
  exists path, canonpath orig PATH_MAX = Some (inr path) /\
    (tmp_exempt p path = true \/
     note_allowed p = true /\
       ((p_tamenote p = TMN_RPATH /\ libc_path path) \/ path_granted p st gc orig)).
Proof.
  intros Hok Hn. rewrite tame_namei_cases by done. destruct (canonpath orig PATH_MAX) as [[e|path]|] eqn:Hcan; try done.
  destruct (has (p_tamenote p) TMN_FATTR && negb (has (ps_tame p) TAME_FATTR)) eqn:Ef; [done|]. intros H.
  assert (ps_tame p' = ps_tame p /\ (tmp_exempt p path = true \/ note_allowed p = true /\
       ((p_tamenote p = TMN_RPATH /\ libc_path path) \/ path_granted p st gc orig))) as [Heq Hres].
  { destruct (tmp_exempt p path); [injection H as <-; by auto|]. destruct (note_allowed p); [|done]. cbn [negb] in H.
    destruct (tame_libc p path) as [[e after]|] eqn:El.
    - injection H as -> <-. split; [done|]. right. split; [done|]. left. by eapply tame_libc_read.
    - apply tame_namei_rest_granted in H as [-> H]; auto. }
  split_and!; [done| |eauto]. intros Hf. rewrite Hf in Ef. by destruct (has (ps_tame p) TAME_FATTR).
Qed.

(** The whitelist that a successful call of tame(2) installs holds normal
    forms of strings that the process gave, made absolute with the current
    directory, and nothing else; it has one reference. *)
Theorem sys_tame_whitelist p st rq um gc a e p' st' :
  cwd_ok gc -> sys_tame p st rq (Some um) gc a = Some (e, p', st') -> p' <> p ->
  ps_tamepaths p' = Some a /\
  exists wl ws, st' !! a = Some wl /\ wl_ref wl = 1 /\ wl_holds wl ws /\
    Forall (fun w => exists sp s, um_str um sp = inr s /\ w = normal (full_of gc s)) ws.
Proof.
  intros Hgc H%sys_tame_cases Hne. destruct H as [(-> & _)|(_ & _ & _ & _ & _ & _ & Ha & wl & Hwl & ->)]; [done|].
  split; [done|]. apply tame_paths_holds in Hwl as (Hr & ws & Hwl & Hall); [|done].
  exists wl, ws. split_and!; try done. apply lookup_insert_eq.
Qed.

(** ** The life of a process *)

(** What a handler does with the state: it announces operations, looks up
    paths, passes the checks that may kill, and calls tame(2) again. *)
Inductive hstep : process -> process -> Prop :=
| h_note p n : hstep p (set_tamenote p n)
| h_namei p st gc orig e p' : tame_namei p st gc orig = Some (e, p') -> hstep p p'
| h_tame p st rq paths gc a e p' st' : sys_tame p st rq paths gc a = Some (e, p', st') -> hstep p p'
| h_ioctl p com fp : hstep p (tame_ioctl_check p com fp).2
| h_recv fds p b e p' : tame_cmsg_recv fds p b = Some (e, p') -> hstep p p'
| h_send fds p b e p' : tame_cmsg_send fds p b = Some (e, p') -> hstep p p'.

(** What the handler of a call does as a whole; that of execve may end with the
    process running a new program, untamed. *)
Definition handled (code : Z) (p p' : process) : Prop :=
  rtc hstep p p' \/
  code = SYS_execve /\ exists q st st', rtc hstep p q /\ exec_untame q st = Some (p', st').

(** A call of [code] with such a handler, and any system call. *)
Definition call_step (code : Z) (p p' : process) : Prop :=
  exists h, (forall q, handled code q (h q).2) /\ (mi_syscall h p code).2 = p'.
Definition syscall_step (p p' : process) : Prop := exists code, call_step code p p'.

(** A call of execve by which a tamed process comes to run a new program. *)
Definition executes (p p' : process) : Prop :=
  ps_tamed p = true /\ has (ps_tame p) TAME_EXEC = true /\ call_step SYS_execve p p' /\ ps_tamed p' = false.

(** Everything that flags may grow to as the kernel learns what the process does. *)
Definition authority (f : Z) : Z :=
  f .| (if has f TAME_GETPW then TAME_YP_ACTIVE .| TAME_INET else 0)
    .| (if has f TAME_DNSPATH then TAME_DNS_ACTIVE else 0).

(** The state within a call that began with the flags [f0]. *)
Definition within (f0 : Z) (p : process) : Prop :=
  ps_tamed p = true /\ subflags (ps_tame p) f0 /\
  (has (p_tameafter p) TMA_YPLOCK = true -> has f0 TAME_GETPW = true) /\
  (has (p_tameafter p) TMA_DNSRESOLV = true -> has f0 TAME_DNSPATH = true).

Lemma within_fail f0 p e : within f0 p -> within f0 (tame_fail p e).2.
Proof.
  intros (Ht & Hs & Hy & Hd). unfold within, tame_fail.
  destruct (has (ps_tame p) TAME_ABORT); cbn; eauto 10 with kern.
Qed.

Lemma within_after f0 p a :
  within f0 p -> (has a TMA_YPLOCK = true -> has f0 TAME_GETPW = true) ->
  (has a TMA_DNSRESOLV = true -> has f0 TAME_DNSPATH = true) ->
  within f0 (set_tameafter p (p_tameafter p .| a)).
Proof.
  intros (Ht & Hs & Hy & Hd) Ha Hb. unfold within. cbn. rewrite !flag_lor, !orb_true_iff. naive_solver.
Qed.

(** What the switch for libc sets. *)
Lemma tame_libc_after p path e after :
  tame_libc p path = Some (e, after) ->
  after = 0 \/ (after = TMA_YPLOCK /\ has (ps_tame p) TAME_GETPW = true) \/
  (after = TMA_DNSRESOLV /\ has (ps_tame p) TAME_DNSPATH = true).
Proof.
  unfold tame_libc, tame_libc_open. intros H.
  repeat match type of H with
         | (if ?b then _ else _) = _ => let E := fresh "E" in destruct b eqn:E; [|clear E]
         end; try discriminate H; injection H as <- <-; zify_bool; auto.
Qed.

Lemma within_namei f0 p st gc orig e p' :
  within f0 p -> tame_namei p st gc orig = Some (e, p') -> within f0 p'.
Proof.
  intros Hw H. destruct (decide (p_tamenote p = TMN_COREDUMP)) as [Hn|Hn].
  { unfold tame_namei in H. rewrite (proj2 (Z.eqb_eq _ _) Hn) in H. by simplify_eq. }
  assert (forall r, Some (tame_fail p r) = Some (e, p') -> within f0 p') as Hfail.
  { intros r Hr. apply (within_fail f0 p r) in Hw. injection Hr as <- <-. exact Hw. }
  rewrite tame_namei_cases in H by done. destruct (canonpath orig PATH_MAX) as [[?|path]|]; [eauto|..|done].
  repeat match type of H with (if ?b then _ else _) = _ => destruct b end;
    [eauto|by simplify_eq|eauto|].
  destruct (tame_libc p path) as [[e0 after]|] eqn:El.
  - injection H as <- <-. destruct (tame_libc_after _ _ _ _ El) as [->|[[-> ?]|[-> ?]]];
      apply within_after; try done; intros _; eapply has_mono; [apply Hw|done|apply Hw|done].
  - unfold tame_namei_rest in H. destruct (ps_tamepaths p) as [a|].
    + destruct (st !! a) as [wl|]; [|done]. unfold tame_namei_wl in H.
      destruct (if bool_decide _ then _ else _) as [e0|full]; [by simplify_eq|].
      destruct (canonpath full MAXPATHLEN) as [[?|?]|]; [eauto|by simplify_eq|done].
    + repeat match type of H with (if ?b then _ else _) = _ => destruct b end;
        [by simplify_eq..|eauto].
Qed.

Lemma check_fds_cases fds p b off n e p' :
  check_fds fds p b off n = Some (e, p') -> p' = p \/ exists r, p' = (tame_fail p r).2.
Proof.
  revert off. induction n as [|n IH]; intros off; cbn [check_fds]; [intros [=]; by left|].
  destruct (get_u32 b off); [|done]. destruct (fds _) as [fp|].
  - destruct (passable fp); [apply IH|]. intros [= <- <-]. right. by exists EPERM.
  - intros [= <- <-]. right. by exists EBADF.
Qed.

Lemma within_hstep f0 p p' : within f0 p -> hstep p p' -> within f0 p'.
Proof.
  intros Hw H. destruct H as [p n|p st gc orig e p' H|p st rq paths gc a e p' st' H|p com fp|fds p b e p' H|fds p b e p' H].
  - exact Hw.
  - by eapply within_namei.
  - apply sys_tame_cases in H as [(-> & _)|(_ & Ht & Hf & _ & Haf & _)]; [done|].
    destruct Hw as (H0 & Hs & Hy & Hd). apply tame_flags_sub in Hf as [_ Hf].
    unfold within. rewrite Haf. split_and!; try done. eapply subflags_trans; eauto.
  - unfold tame_ioctl_check. destruct fp; repeat case_if; try done. by apply within_fail.
  - unfold tame_cmsg_recv in H. case_if_in H; [by simplify_eq|].
    destruct (if sizeof_cmsghdr <=? _ then _ else _) as [[[off c]|]|]; [..|done]; [|by simplify_eq].
    case_if_in H; [injection H as <- <-; by apply (within_fail _ _ EPERM)|].
    apply check_fds_cases in H as [->|[r ->]]; [done|by apply within_fail].
  - unfold tame_cmsg_send in H. case_if_in H; [by simplify_eq|].
    case_if_in H; [injection H as <- <-; by apply (within_fail _ _ EPERM)|].
    destruct (cmsg_at b 0); [|done]. case_if_in H; [by simplify_eq|].
    apply check_fds_cases in H as [->|[r ->]]; [done|by apply within_fail].
Qed.

Lemma within_handler f0 p p' : within f0 p -> rtc hstep p p' -> within f0 p'.
Proof. intros Hw H. induction H; eauto using within_hstep. Qed.

Lemma authority_mono f g : subflags f g -> subflags (authority f) (authority g).
Proof.
  intros H. unfold authority. rewrite !subflags_lor. split_and!.
  - eapply subflags_trans; [exact H|]. rewrite <- Z.lor_assoc. apply subflags_lor_l.
  - destruct (has f TAME_GETPW) eqn:E; [|apply subflags_zero]. rewrite (has_mono f g _ H E).
    eapply subflags_trans; [apply subflags_lor_r|apply subflags_lor_l].
  - destruct (has f TAME_DNSPATH) eqn:E; [|apply subflags_zero]. rewrite (has_mono f g _ H E).
    apply subflags_lor_r.
Qed.

(** What is learnt lets nothing more be learnt. *)
Lemma authority_idem f : authority (authority f) = authority f.
Proof.
  assert (has (authority f) TAME_GETPW = has f TAME_GETPW) as H1.
  { unfold authority. rewrite !flag_lor. by destruct (has f TAME_GETPW), (has f TAME_DNSPATH). }
  assert (has (authority f) TAME_DNSPATH = has f TAME_DNSPATH) as H2.
  { unfold authority. rewrite !flag_lor. by destruct (has f TAME_GETPW), (has f TAME_DNSPATH). }
  unfold authority at 1. rewrite H1, H2. unfold authority.
  generalize (if has f TAME_GETPW then TAME_YP_ACTIVE .| TAME_INET else 0).
  generalize (if has f TAME_DNSPATH then TAME_DNS_ACTIVE else 0). intros y x.
  apply Z.bits_inj'. intros i Hi. rewrite !Z.lor_spec.
  by destruct (Z.testbit f i), (Z.testbit x i), (Z.testbit y i).
Qed.

Lemma within_aftersyscall f0 p e : within f0 p -> subflags (ps_tame (tame_aftersyscall p e)) (authority f0).
Proof.
  intros (_ & Hs & Hy & Hd). assert (subflags f0 (authority f0)) as H0
    by (unfold authority; rewrite <- Z.lor_assoc; apply subflags_lor_l).
  assert (subflags (ps_tame p) (authority f0)) as H1 by (eapply subflags_trans; eauto).
  assert (has (p_tameafter p) TMA_YPLOCK = true -> subflags TAME_YP_ACTIVE (authority f0) /\ subflags TAME_INET (authority f0)) as Hy'.
  { intros H%Hy. rewrite <- subflags_lor. unfold authority. rewrite H.
    eapply subflags_trans; [apply subflags_lor_r|apply subflags_lor_l]. }
  assert (has (p_tameafter p) TMA_DNSRESOLV = true -> subflags TAME_DNS_ACTIVE (authority f0)) as Hd'.
  { intros H%Hd. unfold authority. rewrite H. apply subflags_lor_r. }
  unfold tame_aftersyscall. destruct (has (p_tameafter p) TMA_YPLOCK && (e =? 0)) eqn:E1;
    cbn [set_tame p_tameafter]; destruct (has (p_tameafter p) TMA_DNSRESOLV && (e =? 0)) eqn:E2;
    cbn [set_tame ps_tame]; try apply andb_true_iff in E1 as [E1 _]; try apply andb_true_iff in E2 as [E2 _];
    repeat (apply subflags_lor; split); first [exact H1|by apply Hd'|by apply Hy'].
Qed.

Lemma tame_aftersyscall_tamed p e : ps_tamed (tame_aftersyscall p e) = ps_tamed p.
Proof. unfold tame_aftersyscall. by destruct (_ && _), (_ && _). Qed.

Lemma tame_check_within p code : ps_tamed p = true -> within (ps_tame p) (tame_check p code).2.
Proof. intros Hp. unfold tame_check, within. repeat case_if; cbn; split_and!; try done; auto with kern. Qed.

Lemma within_sub f0 p : within f0 p -> ps_tamed p = true /\ subflags (ps_tame p) (authority f0).
Proof.
  intros (? & Hs & _). split; [done|]. eapply subflags_trans; [exact Hs|].
  unfold authority. rewrite <- Z.lor_assoc. apply subflags_lor_l.
Qed.

(** The flags that are learnt do not include the one for execve. *)
Lemma authority_exec f : has (authority f) TAME_EXEC = has f TAME_EXEC.
Proof. unfold authority. rewrite !flag_lor. by destruct (has f TAME_GETPW), (has f TAME_DNSPATH), (has f TAME_EXEC). Qed.

Lemma exec_untame_tamed p st p' st' : exec_untame p st = Some (p', st') -> ps_tamed p' = false.
Proof.
  unfold exec_untame, tame_dropwpaths. cbn [ps_tamepaths]. intros H.
  repeat (case_match || case_if_in H); simplify_option_eq; done.
Qed.

(** The gate lets execve pass only with its flag. *)
Lemma check_exec p : ps_tamed p = true -> (tame_check p SYS_execve).1 <> 0 -> has (ps_tame p) TAME_EXEC = true.
Proof.
  intros Hp. unfold tame_check. change (SYS_execve <? 0) with false.
  change (SYS_MAXSYSCALL - 1 <? SYS_execve) with false. cbn [orb ps_tame].
  destruct (ps_tame p =? 0); cbn [fst]; [done|]. change (tame_syscalls SYS_execve) with TAME_EXEC.
  unfold has. by destruct (_ =? 0) eqn:E; [apply Z.eqb_eq in E|].
Qed.

Lemma syscall_authority p p' :
  ps_tamed p = true -> syscall_step p p' ->
  (ps_tamed p' = true /\ subflags (ps_tame p') (authority (ps_tame p))) \/ executes p p'.
Proof.
  intros Hp (code & Hstep). pose proof Hstep as (h & Hh & Heq). revert Heq.
  unfold mi_syscall. rewrite Hp. cbn [andb].
  pose proof (tame_check_within p code Hp) as Hw. pose proof (check_exec p Hp) as Hx.
  destruct (tame_check p code) as [tval q] eqn:Ec. cbn [snd] in Hw.
  destruct (Z.eqb_spec tval 0) as [->|Hne].
  - pose proof (within_fail _ _ EPERM Hw) as Hf. destruct (tame_fail q EPERM) as [e q'].
    intros <-. left. by apply within_sub.
  - specialize (Hh q). destruct (h q) as [e q']. cbn [snd] in *. intros Heq.
    destruct Hh as [Hh|(-> & m & st & st' & _ & He)].
    + left. subst p'. pose proof (within_handler _ _ _ Hw Hh) as Hw'. case_if; [|by apply within_sub].
      rewrite tame_aftersyscall_tamed. split; [apply Hw'|]. by apply within_aftersyscall.
    + right. rewrite Ec in Hx. split_and!; [done|by apply Hx|done|]. subst p'.
      apply exec_untame_tamed in He. case_if; [by rewrite tame_aftersyscall_tamed|done].
Qed.

(** The life of a tamed process, up to the first program that it executes. *)
Lemma life_cases p p' :
  ps_tamed p = true -> rtc syscall_step p p' ->
  (ps_tamed p' = true /\ subflags (authority (ps_tame p')) (authority (ps_tame p))) \/
  (has (ps_tame p) TAME_EXEC = true /\
   exists q q', rtc syscall_step p q /\ executes q q' /\ rtc syscall_step q' p').
Proof.
  intros Hp H. induction H as [p|p q p' Hs Hr IH]; [left; by auto with kern|].
  destruct (syscall_authority p q Hp Hs) as [[Hq Hsub]|Hex].
  - apply authority_mono in Hsub. rewrite authority_idem in Hsub.
    destruct (IH Hq) as [[? IH']|(Hx & q1 & q2 & H1 & H2 & H3)].
    + left. split; [done|]. by eapply subflags_trans.
    + right. split; [|exists q1, q2; split_and!; [by eapply rtc_l|done|done]].
      rewrite <- authority_exec in Hx |- *. by eapply has_mono.
  - right. split; [apply Hex|]. exists p, q. by split_and!.
Qed.

Lemma life_authority p p' :
  ps_tamed p = true -> has (ps_tame p) TAME_EXEC = false -> rtc syscall_step p p' ->
  ps_tamed p' = true /\ subflags (authority (ps_tame p')) (authority (ps_tame p)).
Proof. intros Hp Hx H. destruct (life_cases p p' Hp H) as [?|[? _]]; [done|congruence]. Qed.

(** C13: whatever system calls a tamed process makes, with whatever arguments, it
    stays tamed, and its flags stay within the authority it had: the flags
    themselves, and the internet and YP flags if it may look up users, the DNS flag
    if it may read the resolver's files.  The one way out is execve, which untames
    the process: for that it must have had the flag for execve from the start and
    still have it when it makes the call. *)
Theorem tame_authority p p' :
  ps_tamed p = true -> rtc syscall_step p p' ->
  (ps_tamed p' = true /\ subflags (ps_tame p') (authority (ps_tame p))) \/
  (has (ps_tame p) TAME_EXEC = true /\
   exists q q', rtc syscall_step p q /\ executes q q' /\ rtc syscall_step q' p').
Proof.
  intros Hp H. destruct (life_cases p p' Hp H) as [[? Hs]|?]; [left|by right]. split; [done|].
  eapply subflags_trans; [|exact Hs]. unfold authority. rewrite <- Z.lor_assoc. apply subflags_lor_l.
Qed.

(** The calls that a process with these flags can make. *)
Definition call_allowed (f code : Z) : bool :=
  (0 <=? code) && (code <? SYS_MAXSYSCALL) &&
  (if f =? 0 then (code =? SYS_exit) || (code =? SYS_kbind) else has f (tame_syscalls code)).

Lemma tame_check_allowed p code : negb ((tame_check p code).1 =? 0) = call_allowed (ps_tame p) code.
Proof.
  unfold tame_check, call_allowed, has, SYS_MAXSYSCALL. destruct (Z.leb_spec 0 code), (Z.ltb_spec code 331);
    rewrite ?(proj2 (Z.ltb_lt code 0)), ?(proj2 (Z.ltb_ge code 0)), ?(proj2 (Z.ltb_lt (331 - 1) code)),
      ?(proj2 (Z.ltb_ge (331 - 1) code)) by lia; cbn [orb andb fst]; try done.
  cbn [ps_tame]. destruct (ps_tame p =? 0); cbn [fst]; [|done]. by destruct (_ || _).
Qed.

(** C14: a tamed process makes a call only if its flags allow it; any other call
    ends with [EPERM], a deadly signal (with a core if it asked for one) and no
    flags left, and from then on, whatever it tries, only [exit] and [kbind] are
    allowed. *)
Theorem tame_gate h p code ran error p' :
  ps_tamed p = true -> mi_syscall h p code = (ran, error, p') ->
  ran = call_allowed (ps_tame p) code /\
  (ran = false ->
     error = EPERM /\
     p_sigs p' = p_sigs p ++ (if has (ps_tame p) TAME_ABORT then [setsigvec_dfl SIGABRT; psignal SIGABRT]
                              else [psignal SIGKILL]) /\
     (forall p2, rtc syscall_step p' p2 -> ps_tamed p2 = true /\ ps_tame p2 = 0 /\
        forall c, call_allowed (ps_tame p2) c = true -> c = SYS_exit \/ c = SYS_kbind)).
Proof.
  intros Hp. unfold mi_syscall. rewrite Hp. cbn [andb]. pose proof (tame_check_allowed p code) as Hc.
  pose proof (tame_check_within p code Hp) as (Ht & _).
  assert (p_sigs (tame_check p code).2 = p_sigs p /\ ps_tame (tame_check p code).2 = ps_tame p) as [Hsg Htm]
    by (unfold tame_check; by repeat case_if).
  destruct (tame_check p code) as [tval q]. cbn [fst snd] in *. destruct (tval =? 0).
  - rewrite <- Hc. unfold tame_fail. rewrite Htm. intros [= <- <- <-]. split; [done|]. intros _. split; [done|].
    split; [by destruct (has (ps_tame p) TAME_ABORT); cbn; rewrite Hsg|].
    intros p2 Hl. apply life_authority in Hl as [Ht2 Hs]; [|by destruct (has (ps_tame p) TAME_ABORT)..].
    assert (ps_tame p2 = 0) as H0.
    { change (subflags (authority (ps_tame p2)) 0) in Hs.
      unfold authority in Hs. rewrite !subflags_lor in Hs. destruct Hs as [[Hs _] _].
      unfold subflags in Hs. by rewrite Z.land_0_r in Hs. }
    split_and!; [done..|]. rewrite H0. intros c Hcc. unfold call_allowed in Hcc. cbn [Z.eqb] in Hcc. zify_bool.
    naive_solver lia.
  - rewrite <- Hc. destruct (h q) as [e q']. by intros [= <- <- <-].
Qed.

(** ** Descriptors in messages *)

(** The bytes of an int. *)
Definition le32 (x : Z) : list Z := [x mod 256; x / 256 mod 256; x / 65536 mod 256; x / 16777216 mod 256].

(** The message that passes these descriptors, each an int. *)
Definition rights (fds : list Z) : list Z :=
  le32 (16 + 4 * Z.of_nat (length fds)) ++ le32 SOL_SOCKET ++ le32 SCM_RIGHTS ++ le32 0 ++
  concat (le32 <$> fds).

(** The check of a list of descriptors. *)
Fixpoint verdict (fd_getfile : Z -> option file) (p : process) (fds : list Z) : Z * process :=
  match fds with
  | [] => (0, p)
  | fd :: fds =>
    match fd_getfile fd with
    | None => tame_fail p EBADF
    | Some fp => if passable fp then verdict fd_getfile p fds else tame_fail p EPERM
    end
  end.

Lemma get_u32_app pre x post :
  inu 32 x -> get_u32 (pre ++ le32 x ++ post) (Z.of_nat (length pre)) = Some x.
Proof.
  intros Hx. unfold get_u32. rewrite Nat2Z.id.
  assert (forall k, (pre ++ le32 x ++ post) !! (length pre + k)%nat = (le32 x ++ post) !! k) as Hl
    by (intros k; rewrite lookup_app_r by lia; f_equal; lia).
  rewrite <- (Nat.add_0_r (length pre)) at 1. rewrite !Hl.
  unfold le32. cbn [app lookup list_lookup]. f_equal. unfold inu in Hx.
  replace (x / 65536) with (x / 256 / 256) by (rewrite Z.div_div; [done|lia..]).
  replace (x / 16777216) with (x / 256 / 256 / 256) by (rewrite !Z.div_div; [done|lia..]).
  Z.to_euclidean_division_equations. lia.
Qed.

Lemma check_fds_verdict fd_getfile p fds : forall pre n,
  Forall (fun fd => 0 <= fd < 2 ^ 31) fds -> (n <= length fds)%nat ->
  check_fds fd_getfile p (pre ++ concat (le32 <$> fds)) (Z.of_nat (length pre)) n =
    Some (verdict fd_getfile p (take n fds)).
Proof.
  induction fds as [|fd fds IH]; intros pre [|n] Hf Hn; try (simpl in Hn; lia); try done.
  apply Forall_cons in Hf as [Hfd Hf]. cbn [fmap list_fmap concat take verdict check_fds].
  rewrite get_u32_app by (unfold inu; lia). rewrite wraps_small by lia.
  destruct (fd_getfile fd) as [fp|]; [|done]. destruct (passable fp); [|done].
  rewrite app_assoc. replace (Z.of_nat (length pre) + 4) with (Z.of_nat (length (pre ++ le32 fd)))
    by (rewrite length_app; cbn [le32 length]; lia).
  apply IH; [done|]. simpl in Hn. lia.
Qed.

(** The header of such a message. *)
Lemma rights_header fds :
  16 + 4 * Z.of_nat (length fds) < 2 ^ 32 ->
  cmsg_at (rights fds) 0 = Some (Cmsghdr (16 + 4 * Z.of_nat (length fds)) SOL_SOCKET SCM_RIGHTS).
Proof.
  intros Hn. unfold cmsg_at, rights.
  pose proof (get_u32_app [] (16 + 4 * Z.of_nat (length fds))
    (le32 SOL_SOCKET ++ le32 SCM_RIGHTS ++ le32 0 ++ concat (le32 <$> fds)) ltac:(unfold inu; lia)) as H0.
  change (Z.of_nat (length [])) with 0 in H0. cbn [app] in H0. rewrite H0. set (len := le32 _).
  pose proof (get_u32_app len SOL_SOCKET (le32 SCM_RIGHTS ++ le32 0 ++ concat (le32 <$> fds))
    ltac:(by vm_compute)) as H1.
  change (Z.of_nat (length len)) with (0 + 4) in H1. rewrite H1.
  pose proof (get_u32_app (len ++ le32 SOL_SOCKET) SCM_RIGHTS (le32 0 ++ concat (le32 <$> fds))
    ltac:(by vm_compute)) as H2.
  change (Z.of_nat (length (len ++ le32 SOL_SOCKET))) with (0 + 8) in H2. rewrite <- app_assoc in H2. by rewrite H2.
Qed.

Lemma rights_nfds n lv t :
  0 <= n -> 16 + 4 * n < 2 ^ 32 -> cmsg_nfds (Cmsghdr (16 + 4 * n) lv t) = n / 2.
Proof.
  intros H0 Hn. unfold cmsg_nfds. cbn [cmsg_len]. change (CMSG_ALIGN sizeof_cmsghdr) with 16.
  rewrite (wrapu_small 64) by (unfold inu; lia). replace (16 + 4 * n - 16) with (n * 4) by lia.
  change 8 with (2 * 4). rewrite Z.div_mul_cancel_r by lia.
  apply wraps_small; [lia|]. change (2 ^ (32 - 1)) with 2147483648. Z.to_euclidean_division_equations. lia.
Qed.

Lemma rights_check fd_getfile p fds :
  16 + 4 * Z.of_nat (length fds) < 2 ^ 32 -> Forall (fun fd => 0 <= fd < 2 ^ 31) fds ->
  check_fds fd_getfile p (rights fds) (0 + CMSG_ALIGN sizeof_cmsghdr)
    (Z.to_nat (cmsg_nfds (Cmsghdr (16 + 4 * Z.of_nat (length fds)) SOL_SOCKET SCM_RIGHTS))) =
  Some (verdict fd_getfile p (take (length fds / 2) fds)).
Proof.
  intros Hn Hf. rewrite rights_nfds by lia. unfold rights. rewrite !app_assoc.
  change (0 + CMSG_ALIGN sizeof_cmsghdr) with
    (Z.of_nat (length (((le32 (16 + 4 * Z.of_nat (length fds)) ++ le32 SOL_SOCKET) ++ le32 SCM_RIGHTS) ++ le32 0))).
  rewrite check_fds_verdict; [|done|]; replace (Z.to_nat (Z.of_nat (length fds) / 2)) with (length fds / 2)%nat
    by (change 2 with (Z.of_nat 2); rewrite <- Nat2Z.inj_div; by rewrite Nat2Z.id); [done|].
  apply Nat.Div0.div_le_upper_bound; lia.
Qed.

(** Of the descriptors of a message the checks see the first half only,
    because the number of them is computed with the size of a pointer while
    each takes the size of an int: the second half, and the descriptor of a message
    with one, is passed whatever file it is. *)
Theorem tame_cmsg_half fd_getfile p fds :
  ps_tamed p = true -> has (ps_tame p) TAME_RECVFD = true -> has (ps_tame p) TAME_SENDFD = true ->
  16 + 4 * Z.of_nat (length fds) < 2 ^ 32 -> Forall (fun fd => 0 <= fd < 2 ^ 31) fds ->
  tame_cmsg_recv fd_getfile p (rights fds) = Some (verdict fd_getfile p (take (length fds / 2) fds)) /\
  tame_cmsg_send fd_getfile p (rights fds) = Some (verdict fd_getfile p (take (length fds / 2) fds)).
Proof.
  intros Ht Hr Hs Hn Hf. unfold tame_cmsg_recv, tame_cmsg_send. rewrite Ht, Hr, Hs. cbn [negb].
  assert ((sizeof_cmsghdr <=? Z.of_nat (length (rights fds))) = true) as ->
    by (apply Z.leb_le; unfold rights; rewrite !length_app; cbn [le32 length]; unfold sizeof_cmsghdr; lia).
  replace (length (rights fds)) with (S (length (rights fds) - 1))
    by (unfold rights; rewrite !length_app; cbn [le32 length]; lia).
  cbn [cmsg_scan]. rewrite rights_header by done. change (is_rights _) with true. cbn [negb].
  split; by apply rights_check.
Qed.

(** ** Sockets *)

Lemma has_mono_false f g x : subflags f g -> has g x = false -> has f x = false.
Proof.
  intros Hs Hg. destruct (has f x) eqn:E; [|done]. by rewrite (has_mono _ _ _ Hs E) in Hg.
Qed.

(** A tamed process that may not execute programs and whose authority has neither
    the internet nor the unix flag never gets to bind a socket or to send to an address or ask for one,
    whatever calls it makes; if it creates a socket at all it is an internet
    one, and if it connects it is to the port of DNS, and in both cases it was
    allowed to read the resolver's files. *)
Theorem tame_no_network p p' :
  ps_tamed p = true -> has (authority (ps_tame p)) (TAME_INET .| TAME_UNIX) = false ->
  has (ps_tame p) TAME_EXEC = false -> rtc syscall_step p p' ->
  tame_bind_check p' = EPERM /\ tame_sendto_check p' true = EPERM /\ tame_recvfrom_check p' true = EPERM /\
  (forall domain, tame_socket_check p' domain = 0 ->
     (domain = AF_INET \/ domain = AF_INET6) /\ has (authority (ps_tame p)) TAME_DNS_ACTIVE = true) /\
  (forall port, tame_dns_check p' port = 0 ->
     port = htons 53 /\ has (authority (ps_tame p)) TAME_DNS_ACTIVE = true).
Proof.
  intros Hp Hno Hx H. destruct (life_authority p p' Hp Hx H) as [Ht Ha].
  assert (subflags (ps_tame p') (authority (ps_tame p))) as Hs.
  { eapply subflags_trans; [|exact Ha]. unfold authority. rewrite <- Z.lor_assoc. apply subflags_lor_l. }
  pose proof (has_mono_false _ _ _ Hs Hno) as Hno'.
  pose proof Hno' as Hno2. rewrite has_lor in Hno2. apply orb_false_iff in Hno2 as [Hi Hu].
  pose proof (has_mono _ _ TAME_DNS_ACTIVE Hs) as Hd.
  unfold tame_bind_check, tame_sendto_check, tame_recvfrom_check, tame_socket_check, tame_dns_check.
  rewrite Ht, Hi, Hu, Hno'. cbn [negb]. rewrite !andb_false_r. split_and!; try done.
  - intros domain Hdom. case_if_in Hdom; [|done]. rewrite !Z.eqb_eq in *. auto.
  - intros port Hport. case_if_in Hport; [|done]. auto.
Qed.

(** ** References to whitelists *)

(** The processes of the system, by number, and the whitelists. *)
Record system := System { procs : gmap Z process; lists : store }.

(** How many processes point to the whitelist at [a]. *)
Definition refs (ps : gmap Z process) (a : Z) : Z :=
  Z.of_nat (size (filter (fun e : Z * process => ps_tamepaths e.2 = Some a) ps)).

(** The whitelists are well formed, each with a positive count, which is [r]; at
    other addresses [r] is 0. *)
Definition store_refs (st : store) (r : Z -> Z) : Prop :=
  forall a, match st !! a with
            | Some wl => 0 < wl_ref wl /\ wl_ref wl = r a /\ exists ws, wl_holds wl ws
            | None => r a = 0
            end.

(** The count of a whitelist is the number of processes that point to it, and
    no process points anywhere else. *)
Definition refs_ok (s : system) : Prop := store_refs (lists s) (refs (procs s)).

(** What changes the whitelists: tame(2) with a block that [malloc] returned,
    fork, execve and the end of a process. *)
Inductive kstep : system -> system -> Prop :=
| k_tame s pid p rq paths gc a e p' st' :
    procs s !! pid = Some p -> lists s !! a = None -> cwd_ok gc ->
    sys_tame p (lists s) rq paths gc a = Some (e, p', st') ->
    kstep s (System (<[pid := p']> (procs s)) st')
| k_fork s pid p child p' st' :
    procs s !! pid = Some p -> procs s !! child = None ->
    process_new p (lists s) = Some (p', st') ->
    kstep s (System (<[child := p']> (procs s)) st')
| k_exec s pid p p' st' :
    procs s !! pid = Some p -> exec_untame p (lists s) = Some (p', st') ->
    kstep s (System (<[pid := p']> (procs s)) st')
| k_exit s pid p p' st' :
    procs s !! pid = Some p -> tame_dropwpaths p (lists s) = Some (p', st') ->
    kstep s (System (delete pid (procs s)) st')
| k_other s pid p p' :
    procs s !! pid = Some p -> ps_tamepaths p' = ps_tamepaths p ->
    kstep s (System (<[pid := p']> (procs s)) (lists s)).

Definition points (p : process) (a : Z) : Z := if decide (ps_tamepaths p = Some a) then 1 else 0.

Lemma refs_new ps pid p a : ps !! pid = None -> refs (<[pid := p]> ps) a = refs ps a + points p a.
Proof.
  intros Hn. unfold refs, points. case_decide as Hp.
  - rewrite map_filter_insert_True by done. rewrite map_size_insert_None; [lia|].
    apply map_lookup_filter_None. by left.
  - rewrite map_filter_insert_False by done. rewrite delete_id by done. lia.
Qed.

Lemma refs_delete ps pid p a : ps !! pid = Some p -> refs (delete pid ps) a = refs ps a - points p a.
Proof.
  intros Hp. rewrite <- (insert_delete_id ps pid p Hp) at 2. rewrite refs_new by apply lookup_delete_eq. lia.
Qed.

Lemma refs_update ps pid p p' a :
  ps !! pid = Some p -> refs (<[pid := p']> ps) a = refs ps a - points p a + points p' a.
Proof.
  intros Hp. rewrite <- insert_delete_eq, refs_new by apply lookup_delete_eq. by rewrite (refs_delete _ _ p).
Qed.

Lemma refs_nonneg ps a : 0 <= refs ps a.
Proof. unfold refs. lia. Qed.

Lemma store_refs_ext st r r' : (forall a, r a = r' a) -> store_refs st r -> store_refs st r'.
Proof. intros He H a. specialize (H a). destruct (st !! a); rewrite <- He; done. Qed.

Lemma points_refs ps pid p a : ps !! pid = Some p -> points p a <= refs ps a.
Proof. intros Hp. pose proof (refs_nonneg (delete pid ps) a). rewrite (refs_delete _ _ p) in *; [lia|done]. Qed.

(** A pointer of a process is to a whitelist. *)
Lemma store_refs_lookup st r p a :
  store_refs st r -> ps_tamepaths p = Some a -> points p a <= r a ->
  exists wl ws, st !! a = Some wl /\ 0 < wl_ref wl /\ wl_ref wl = r a /\ wl_holds wl ws.
Proof.
  intros Hr Hp Hle. specialize (Hr a). unfold points in Hle. rewrite decide_True in Hle by done.
  destruct (st !! a) as [wl|]; [naive_solver|lia].
Qed.

(** Changing the count of one whitelist. *)
Lemma store_refs_insert st r a wl n :
  store_refs st r -> st !! a = Some wl -> 0 < n ->
  store_refs (<[a := Whitepaths (wl_count wl) n (wl_paths wl)]> st)
             (fun b => if decide (Some a = Some b) then n else r b).
Proof.
  intros Hr Ha Hn b. destruct (decide (a = b)) as [<-|Hne].
  - rewrite lookup_insert_eq, decide_True by done. pose proof (Hr a) as Hra. rewrite Ha in Hra.
    split_and!; [done|done|]. destruct Hra as (_ & _ & ws & Hws). exists ws. exact Hws.
  - rewrite lookup_insert_ne, decide_False by congruence. apply Hr.
Qed.

Lemma store_refs_delete st r a :
  store_refs st r -> store_refs (delete a st) (fun b => if decide (Some a = Some b) then 0 else r b).
Proof.
  intros Hr b. destruct (decide (a = b)) as [<-|Hne].
  - by rewrite lookup_delete_eq, decide_True by done.
  - rewrite lookup_delete_ne, decide_False by congruence. apply Hr.
Qed.

Lemma drop_refs st r p :
  store_refs st r -> (forall a, points p a <= r a) ->
  exists p' st', tame_dropwpaths p st = Some (p', st') /\ ps_tamepaths p' = None /\
    store_refs st' (fun a => r a - points p a).
Proof.
  intros Hr Hle. unfold tame_dropwpaths. destruct (ps_tamepaths p) as [a|] eqn:Ha.
  - destruct (store_refs_lookup st r p a Hr Ha (Hle a)) as (wl & ws & Hst & Hpos & Hn & _). rewrite Hst.
    eexists _, _. split_and!; [done|done|]. case_if.
    + eapply store_refs_ext; [|by apply store_refs_delete]. intros b. unfold points. rewrite Ha.
      cbv beta. case_decide as E; [injection E as <-|]; lia.
    + eapply store_refs_ext; [|apply store_refs_insert; [exact Hr|done|lia]]. intros b. unfold points. rewrite Ha.
      cbv beta. case_decide as E; [injection E as <-|]; lia.
  - eexists _, _. split_and!; [done|done|]. eapply store_refs_ext; [|exact Hr]. intros b. unfold points.
    rewrite Ha. case_decide; [done|lia].
Qed.

Lemma new_refs st r p :
  store_refs st r -> (forall a, points p a <= r a) ->
  exists p' st', process_new p st = Some (p', st') /\ ps_tamepaths p' = ps_tamepaths p /\
    store_refs st' (fun a => r a + points p a).
Proof.
  intros Hr Hle. unfold process_new. cbn [ps_tamepaths]. destruct (ps_tamepaths p) as [a|] eqn:Ha.
  - destruct (store_refs_lookup st r p a Hr Ha (Hle a)) as (wl & ws & Hst & Hpos & Hn & _). rewrite Hst.
    eexists _, _. split_and!; [done|done|].
    eapply store_refs_ext; [|apply store_refs_insert; [exact Hr|done|lia]]. intros b. unfold points. rewrite Ha.
    cbv beta. case_decide as E; [injection E as <-|]; lia.
  - eexists _, _. split_and!; [done|done|]. eapply store_refs_ext; [|exact Hr]. intros b. unfold points.
    rewrite Ha. case_decide; [done|lia].
Qed.

(** tame(2) makes a list with one reference, or none. *)
Lemma tame_refs st r p rq paths gc a e p' st' :
  store_refs st r -> st !! a = None -> cwd_ok gc -> sys_tame p st rq paths gc a = Some (e, p', st') ->
  store_refs st' (fun b => r b - points p b + points p' b).
Proof.
  intros Hr Ha Hgc H%sys_tame_cases. assert (forall q, ps_tamepaths q = ps_tamepaths p ->
    store_refs st (fun b => r b - points p b + points q b)) as Hsame.
  { intros q Hq. eapply store_refs_ext; [|exact Hr]. intros b. unfold points. rewrite Hq. lia. }
  destruct H as [(-> & -> & _)|(_ & _ & _ & _ & _ & H)]; [by apply Hsame|]. destruct paths as [um|].
  - destruct H as (Hp & Hp' & wl & Hwl & ->). apply tame_paths_holds in Hwl as (Href & ws & Hws & _); [|done].
    intros b. unfold points. rewrite Hp, Hp'. destruct (decide (a = b)) as [<-|Hne].
    + rewrite lookup_insert_eq. specialize (Hr a). rewrite Ha in Hr.
      rewrite (decide_False (P := None = Some a)), (decide_True (P := Some a = Some a)) by done.
      split_and!; [lia|lia|eauto].
    + rewrite lookup_insert_ne by done. specialize (Hr b). rewrite !decide_False by congruence.
      destruct (st !! b); [destruct Hr as (? & ? & ?); split_and!; [done|lia|done]|lia].
  - destruct H as [Hp ->]. by apply Hsame.
Qed.

Lemma refs_ok_step s s' : refs_ok s -> kstep s s' -> refs_ok s'.
Proof.
  unfold refs_ok. intros Hr H. destruct H as
    [s pid p rq paths gc a e p' st' Hp Ha Hgc H|s pid p child p' st' Hp Hc H|s pid p p' st' Hp H
    |s pid p p' st' Hp H|s pid p p' Hp H]; cbn [procs lists].
  - eapply store_refs_ext; [|by eapply tame_refs]. intros b. by rewrite (refs_update _ _ p).
  - destruct (new_refs (lists s) (refs (procs s)) p Hr (fun a => points_refs _ _ _ a Hp)) as (q & st1 & E & Hq & Hs).
    rewrite H in E. injection E as <- <-. eapply store_refs_ext; [|exact Hs]. intros b. rewrite refs_new by done.
    unfold points. by rewrite Hq.
  - unfold exec_untame in H.
    destruct (drop_refs (lists s) (refs (procs s)) _ Hr (fun a => points_refs _ _ _ a Hp)) as (q & st1 & E & Hq & Hs).
    assert (st1 = st' /\ ps_tamepaths p' = None) as [-> Hn].
    { unfold tame_dropwpaths in *. cbn [ps_tamepaths] in H. destruct (ps_tamepaths p); [destruct (lists s !! _)|]; simplify_eq; done. }
    eapply store_refs_ext; [|exact Hs]. intros b. rewrite (refs_update _ _ p) by done. unfold points at 3.
    rewrite Hn. rewrite decide_False by done. lia.
  - destruct (drop_refs (lists s) (refs (procs s)) p Hr (fun a => points_refs _ _ _ a Hp)) as (q & st1 & E & Hq & Hs).
    rewrite H in E. injection E as <- <-. eapply store_refs_ext; [|exact Hs]. intros b. by rewrite (refs_delete _ _ p).
  - eapply store_refs_ext; [|exact Hr]. intros b. rewrite (refs_update _ _ p) by done. unfold points. rewrite H. lia.
Qed.

Lemma refs_ok_reachable s s' : refs_ok s -> rtc kstep s s' -> refs_ok s'.
Proof. intros Hr H. induction H; eauto using refs_ok_step. Qed.

(** From a system in which no process has a whitelist, however processes
    fork, execute, exit and call tame(2): the count of each whitelist is the
    number of processes that have it, so that it is freed when the last one drops
    it and not before; the list of a process is there and well formed, and neither
    a fork nor the end of a process meets a freed one. *)
Theorem tame_whitelist_refs ps s :
  (forall pid p, ps !! pid = Some p -> ps_tamepaths p = None) -> rtc kstep (System ps ∅) s ->
  (forall a wl, lists s !! a = Some wl -> 0 < wl_ref wl /\ wl_ref wl = refs (procs s) a) /\
  (forall pid p, procs s !! pid = Some p ->
     (forall a, ps_tamepaths p = Some a -> exists wl ws, lists s !! a = Some wl /\ wl_holds wl ws) /\
     is_Some (process_new p (lists s)) /\ is_Some (tame_dropwpaths p (lists s))).
Proof.
  intros Hps H. assert (refs_ok s) as Hr.
  { eapply refs_ok_reachable; [|exact H]. intros a. cbn [lists procs]. rewrite lookup_empty. unfold refs.
    rewrite (proj2 (map_empty_filter _ _)); [done|]. intros pid p Hp. cbn. by rewrite (Hps _ _ Hp). }
  split.
  - intros a wl Ha. specialize (Hr a). rewrite Ha in Hr. naive_solver.
  - intros pid p Hp. pose proof (fun a => points_refs _ _ _ a Hp) as Hle. split_and!.
    + intros a Ha. destruct (store_refs_lookup _ _ _ _ Hr Ha (Hle a)) as (wl & ws & ? & _ & _ & ?). eauto.
    + destruct (new_refs _ _ _ Hr Hle) as (? & ? & -> & _). eauto.
    + destruct (drop_refs _ _ _ Hr Hle) as (? & ? & -> & _). eauto.
Qed.

(** ** Witnesses and examples *)

(** A process with the flags of a request. *)
Definition demo (request : string) : process :=
  Process true (union_flags (words (str request)) 0) None 0 0 0 [].
Arguments demo request%_string.

Lemma tame_request_spec_witness :
  tame_flags (demo "stdio rpath") (Some (inr (str "stdio   rpath "))) =
    inr (TAME_SELF .| TAME_MALLOC .| TAME_RW .| TAME_RPATH).
Proof.
  rewrite (tame_request_spec (demo "stdio rpath") (str "stdio   rpath ")); [reflexivity|reflexivity|discriminate].
Defined.

(** User memory with these paths, as pointers 1, 2, ... *)
Definition demo_mem (paths : list (list Z)) : umem :=
  let at_ i := inr (if bool_decide (0 <= i < Z.of_nat (length paths)) then i + 1 else 0) in
  Umem at_ at_ (fun sp => match paths !! Z.to_nat (sp - 1) with Some s => inr s | None => inl EFAULT end).

Definition demo_paths : umem := demo_mem [str "/usr/src/"; str "/home/u/../v"].
Definition demo_gc : Z + list Z := inr (str "/home/v").

Lemma demo_env : env_ok (Some (inr (str "stdio rpath"))) (Some demo_paths) demo_gc.
Proof.
  constructor; try done; intros um i [= <-]; try done.
  cbn [demo_paths demo_mem um_str]. by destruct (_ !! _).
Qed.

(** The result of the call with these paths. *)
Definition demo_call : Z * process * store :=
  default (1, demo "", ∅) (sys_tame (demo "stdio rpath wpath") ∅ (Some (inr (str "stdio rpath")))
    (Some demo_paths) demo_gc 77).

Lemma demo_call_some :
  sys_tame (demo "stdio rpath wpath") ∅ (Some (inr (str "stdio rpath"))) (Some demo_paths) demo_gc 77 =
  Some (0, demo_call.1.2, demo_call.2).
Proof. vm_compute. reflexivity. Qed.

Lemma sys_tame_reduces_witness :
  subflags (ps_tame demo_call.1.2) (ps_tame (demo "stdio rpath wpath")) /\
  has (ps_tame demo_call.1.2) TAME_WPATH = false.
Proof.
  destruct (sys_tame_reduces (demo "stdio rpath wpath") ∅ (Some (inr (str "stdio rpath"))) (Some demo_paths)
    demo_gc 77 0 demo_call.1.2 demo_call.2 demo_env demo_call_some) as [_ H].
  destruct (H eq_refl) as (_ & _ & Hs & _). split; [exact (Hs eq_refl)|vm_compute; reflexivity].
Defined.

Lemma demo_cwd : cwd_ok demo_gc.
Proof. by intros cwd [= <-]. Qed.

Definition demo_wl : whitepaths :=
  Whitepaths 2 1 [entry [str "usr"; str "src"]; entry [str "home"; str "v"]; Whitepath None 0].



Lemma sys_tame_whitelist_witness :
  ps_tamepaths demo_call.1.2 = Some 77 /\ demo_call.2 !! 77 = Some demo_wl.
Proof.
  destruct (sys_tame_whitelist (demo "stdio rpath wpath") ∅ (Some (inr (str "stdio rpath"))) demo_paths
    demo_gc 77 0 demo_call.1.2 demo_call.2 demo_cwd demo_call_some ltac:(by vm_compute)) as [H _].
  split; [exact H|vm_compute; reflexivity].
Defined.

(** A process with this whitelist that is about to open a file for reading. *)
Definition demo_reader : process :=
  Process true (union_flags (words (str "stdio rpath")) 0) (Some 77) TMN_RPATH 0 SYS_open [].

Lemma demo_path orig :
  head orig = Some SLASH -> no_nul orig -> Z.of_nat (length orig) < 1023 -> path_ok demo_gc orig.
Proof.
  intros Hh Hn Hl. constructor; [apply demo_cwd|by left|..]; unfold full_of; rewrite bool_decide_eq_true_2 by done;
    [done|unfold MAXPATHLEN, PATH_MAX; lia].
Qed.

Definition demo_in : list Z := str "/usr/src/../src/sys/kern".

Lemma demo_in_ok : path_ok demo_gc demo_in.
Proof. apply demo_path; [done|repeat constructor; done|done]. Qed.


Lemma tame_namei_sound_witness :
  tame_namei demo_reader {[77 := demo_wl]} demo_gc demo_in = Some (0, demo_reader) /\
  note_allowed demo_reader = true.
Proof.
  assert (tame_namei demo_reader {[77 := demo_wl]} demo_gc demo_in = Some (0, demo_reader)) as H
    by (vm_compute; reflexivity).
  destruct (tame_namei_sound demo_reader {[77 := demo_wl]} demo_gc demo_in demo_reader demo_in_ok
    ltac:(discriminate) H) as (_ & _ & path & _ & [Ht|[Hn _]]); [|by split].
  split; [exact H|vm_compute; reflexivity].
Defined.

(** A handler that does nothing, and a refused call of [socket]. *)
Definition demo_handler (p : process) : Z * process := (0, p).
Definition demo_killed : process := (mi_syscall demo_handler (demo "stdio") 97).2.

Lemma demo_step : rtc syscall_step (demo "stdio") demo_killed.
Proof. apply rtc_once. exists 97, demo_handler. split; [intros q; left; apply rtc_refl|done]. Qed.

Lemma tame_authority_witness :
  (ps_tamed demo_killed = true /\ subflags (ps_tame demo_killed) (authority (ps_tame (demo "stdio")))) \/
  (has (ps_tame (demo "stdio")) TAME_EXEC = true /\
   exists q q', rtc syscall_step (demo "stdio") q /\ executes q q' /\ rtc syscall_step q' demo_killed).
Proof. exact (tame_authority (demo "stdio") demo_killed eq_refl demo_step). Defined.

(** A process that may execute programs leaves its whitelist and its flags behind. *)
Example execve_untames :
  let h q := (0, match exec_untame q ∅ with Some (q', _) => q' | None => q end) in
  executes (demo "stdio exec") (mi_syscall h (demo "stdio exec") SYS_execve).2.
Proof.
  intros h. split_and!; [vm_compute; reflexivity..| |vm_compute; reflexivity]. exists h. split; [|done].
  intros q. unfold h. destruct (exec_untame q ∅) as [[q' st']|] eqn:E; [|left; apply rtc_refl].
  right. split; [done|]. by exists q, ∅, st'.
Qed.

Lemma tame_gate_witness :
  mi_syscall demo_handler (demo "stdio abort") 97 =
    (false, EPERM, Process true 0 None 0 0 97 [setsigvec_dfl SIGABRT; psignal SIGABRT]) /\
  call_allowed (ps_tame (demo "stdio abort")) 97 = false.
Proof.
  assert (mi_syscall demo_handler (demo "stdio abort") 97 =
    (false, EPERM, Process true 0 None 0 0 97 [setsigvec_dfl SIGABRT; psignal SIGABRT])) as H
    by (vm_compute; reflexivity).
  split; [exact H|]. symmetry. exact (proj1 (tame_gate demo_handler (demo "stdio abort") 97 _ _ _ eq_refl H)).
Defined.

(** Descriptor 3 is a socket, every other one a directory. *)
Definition demo_files (fd : Z) : option file :=
  Some (if fd =? 3 then File DTYPE_SOCKET VNON 0 false else File DTYPE_VNODE VDIR 0 true).

(** A message with a directory passes; one with a directory and another
    descriptor does not, one with the directory second does. *)
Lemma tame_cmsg_half_witness :
  tame_cmsg_recv demo_files (demo "recvfd sendfd") (rights [5]) = Some (0, demo "recvfd sendfd") /\
  tame_cmsg_send demo_files (demo "recvfd sendfd") (rights [3; 5]) = Some (0, demo "recvfd sendfd") /\
  tame_cmsg_recv demo_files (demo "recvfd sendfd") (rights [5; 3]) =
    Some (tame_fail (demo "recvfd sendfd") EPERM).
Proof.
  split_and!.
  - rewrite (proj1 (tame_cmsg_half demo_files (demo "recvfd sendfd") [5] eq_refl eq_refl eq_refl
      ltac:(reflexivity) ltac:(repeat constructor; lia))). reflexivity.
  - rewrite (proj2 (tame_cmsg_half demo_files (demo "recvfd sendfd") [3; 5] eq_refl eq_refl eq_refl
      ltac:(reflexivity) ltac:(repeat constructor; lia))). reflexivity.
  - rewrite (proj1 (tame_cmsg_half demo_files (demo "recvfd sendfd") [5; 3] eq_refl eq_refl eq_refl
      ltac:(reflexivity) ltac:(repeat constructor; lia))). reflexivity.
Defined.

Lemma tame_no_network_witness :
  tame_bind_check demo_killed = EPERM /\ tame_sendto_check demo_killed true = EPERM.
Proof.
  destruct (tame_no_network (demo "stdio") demo_killed eq_refl ltac:(vm_compute; reflexivity) eq_refl demo_step)
    as (H1 & H2 & _). exact (conj H1 H2).
Defined.

(** One process, tamed with the whitelist of the example. *)
Definition demo_procs : gmap Z process := {[10 := demo "stdio rpath wpath"]}.
Definition demo_system : system := System (<[10 := demo_call.1.2]> demo_procs) demo_call.2.

Lemma demo_procs_none pid p : demo_procs !! pid = Some p -> ps_tamepaths p = None.
Proof. unfold demo_procs. rewrite lookup_singleton_Some. by intros [_ <-]. Qed.

Lemma demo_reach : rtc kstep (System demo_procs ∅) demo_system.
Proof.
  apply rtc_once. apply (k_tame (System demo_procs ∅) 10 (demo "stdio rpath wpath")
    (Some (inr (str "stdio rpath"))) (Some demo_paths) demo_gc 77 0).
  - cbn [procs]. apply lookup_singleton_eq.
  - apply lookup_empty.
  - apply demo_cwd.
  - apply demo_call_some.
Qed.

Lemma tame_whitelist_refs_witness :
  lists demo_system !! 77 = Some demo_wl /\ wl_ref demo_wl = refs (procs demo_system) 77.
Proof.
  assert (lists demo_system !! 77 = Some demo_wl) as H by (vm_compute; reflexivity). split; [exact H|].
  exact (proj2 (proj1 (tame_whitelist_refs demo_procs demo_system demo_procs_none demo_reach) 77 demo_wl H)).
Defined.

(** Two relative paths: the second one reads an uninitialised pointer. *)
Example two_relative_paths :
  tame_paths (demo_mem [str "a"; str "b"]) demo_gc = None /\
  is_Some (tame_paths (demo_mem [str "a"; str "/b"]) demo_gc).
Proof. vm_compute. split; [reflexivity|eauto]. Qed.

(** A request may end, but not begin, with spaces. *)
Example request_spaces :
  tame_flags (demo "stdio") (Some (inr (str "stdio  "))) = inr (TAME_SELF .| TAME_MALLOC .| TAME_RW) /\
  tame_flags (demo "stdio") (Some (inr (str " stdio"))) = inl EINVAL.
Proof. vm_compute. split; reflexivity. Qed.

(** Opening the lock of ypbind gives the internet flag to a process that did
    not ask for it. *)
Example yp_gives_inet :
  let p := Process true (union_flags (words (str "getpw")) 0) None TMN_RPATH TMA_YPLOCK SYS_open [] in
  has (ps_tame p) TAME_INET = false /\ has (ps_tame (tame_aftersyscall p 0)) TAME_INET = true.
Proof. vm_compute. split; reflexivity. Qed.

(** The announced length of a message is not checked against the buffer. *)
Example cmsg_overread :
  tame_cmsg_send demo_files (demo "recvfd sendfd")
    (le32 32 ++ le32 SOL_SOCKET ++ le32 SCM_RIGHTS ++ le32 0 ++ le32 3) = None.
Proof. vm_compute. reflexivity. Qed.
