(* ===== verification/Efivars.v ===== *)
(** * The EFI variables driver (arch/amd64/amd64/efivars.c)

    The state of the driver is its flag [efivars_initialized]; [bios_efiinfo],
    that the boot loader's arguments set once before the drivers attach, is an
    argument.  The call into the firmware goes through the class [Firmware],
    which states what the UEFI specification says of [GetVariable]; what the
    driver prints is its observable result. *)

From S2P Require Import Prelude Canonpath.

(** ** The firmware *)

Definition EFI_SUCCESS : Z := 0.
Definition EFI_BUFFER_TOO_SMALL : Z := 2 ^ 63 + 5.
Definition EFI_DEVICE_ERROR : Z := 2 ^ 63 + 7.
Definition EFI_NOT_FOUND : Z := 2 ^ 63 + 14.

(** [fw_get name size buf]: the status and the buffer after a call of
    [GetVariable] with a buffer of [size] bytes.  A call that succeeds has put the
    value of the variable, which fits, at the front of the buffer; of a call that
    fails, for whatever reason, only the status is documented, and that it keeps
    to the buffer. *)
Class Firmware := {
  fw_value : list Z -> option (list Z);
  fw_get : list Z -> Z -> list Z -> Z * list Z;
  fw_get_length name size buf :
    size = Z.of_nat (length buf) -> length (fw_get name size buf).2 = length buf;
  fw_get_success name size buf :
    size = Z.of_nat (length buf) -> (fw_get name size buf).1 = EFI_SUCCESS ->
    exists v, fw_value name = Some v /\ Z.of_nat (length v) <= size /\
      (fw_get name size buf).2 = v ++ drop (length v) buf
}.

(** ** The driver *)

(** What [printf] was called with. *)
Inductive message : Type :=
| MInvalid
| MEnter
| MGetVariable (addr : Z)
| MCall
| MString (s : list Z).

(** The pointer [bios_efiinfo]: NULL, or a structure with the address of the
    firmware's [GetVariable]. *)
Definition efiinfo : Type := option Z.

Definition efivarsattach (bios_efiinfo : efiinfo) (initialized : bool) (num : Z) : bool * list message :=
  if 1 <? num then (initialized, [])
  else if initialized || bool_decide (is_Some bios_efiinfo) then (true, [])
  else (initialized, [MInvalid]).

Definition minor (x : Z) : Z := s32 (x .& 0xff) .| Z.shiftr (x .& 0xffff0000) 8.

Definition efivarsopen (initialized : bool) (dev : Z) : Z :=
  if negb (minor dev =? 0) || negb initialized then ENXIO else 0.

Definition efivarsclose : Z := 0.

Definition EFI_SET_VARIABLE : Z := 0.
Definition EFI_GET_VARIABLE : Z := 1.

(** The text that [%s] prints: up to the NUL; [None]: there is none in the buffer. *)
Fixpoint cstring (b : list Z) : option (list Z) :=
  match b with
  | [] => None
  | c :: b => if c =? 0 then Some [] else (cons c) <$> cstring b
  end.

(** A wide string literal in memory, in units of 16 bits: without [-fshort-wchar],
    which the kernel is not compiled with, a [wchar_t] has 32 bits. *)
Definition wide (s : list Z) : list Z := mjoin ((fun c => [c mod 2 ^ 16; c / 2 ^ 16]) <$> (s ++ [0])).

(** The name that the firmware finds at a [CHAR16 *]: the units up to the first 0. *)
Fixpoint char16_name (b : list Z) : list Z :=
  match b with
  | [] => []
  | c :: b => if c =? 0 then [] else c :: char16_name b
  end.

(** [(CHAR16 * )L"Boot0000"] *)
Definition boot_name : list Z := char16_name (wide (str "Boot0000")).

Section Ioctl.
Context `{Firmware}.

(** The error and the messages; [stack] is what the 128 bytes of [data] hold
    before the call.  [None]: a null pointer or the end of the buffer. *)
Definition efivarsioctl (bios_efiinfo : efiinfo) (stack : list Z) (cmd : Z) : option (Z * list message) :=
  if cmd =? EFI_SET_VARIABLE then
    match bios_efiinfo with
    | None => None
    | Some addr => Some (0, [MEnter; MGetVariable addr])
    end
  else if cmd =? EFI_GET_VARIABLE then
    match bios_efiinfo with
    | None => None
    | Some _ =>
      let '(_, data) := fw_get boot_name 128 stack in
      match cstring data with
      | None => None
      | Some s => Some (0, [MEnter; MCall; MString s])
      end
    end
  else Some (EINVAL, [MEnter]).

(** ** Proofs *)

(** A step of the system: a device attaches. *)
Inductive attach_step (info : efiinfo) : bool -> bool -> Prop :=
| attach_num i num : attach_step info i (efivarsattach info i num).1.

(** The driver is only initialised with the structure of the boot loader. *)
Lemma initialized_info info i : rtc (attach_step info) false i -> i = true -> is_Some info.
Proof.
  assert (forall i j, rtc (attach_step info) i j -> (i = true -> is_Some info) -> j = true -> is_Some info) as Hinv.
  { intros i1 j Hr. induction Hr as [i1|i1 i2 i3 Hs Hr IH]; [done|]. intros Hi. apply IH.
    destruct Hs as [i1 num]. unfold efivarsattach. case_if; [done|]. destruct i1; [by intros _; apply Hi|].
    cbn [orb]. by case_bool_decide. }
  intros Hr. by apply (Hinv _ _ Hr).
Qed.

Lemma cstring_app v b : 0 ∈ v -> cstring (v ++ b) = cstring v.
Proof.
  induction v as [|c v IH]; [by intros ?%not_elem_of_nil|]. intros Hin. simpl. case_if; [done|].
  apply elem_of_cons in Hin as [?|Hin]; [congruence|]. by rewrite IH.
Qed.

Lemma cstring_some b : is_Some (cstring b) <-> 0 ∈ b.
Proof.
  induction b as [|c b IH]; simpl; [split; [by intros [? ?]|by intros ?%not_elem_of_nil]|].
  rewrite elem_of_cons. case_if; [naive_solver|]. rewrite fmap_is_Some, IH. naive_solver.
Qed.

(** C15: when a process has opened the device, the ioctls of the driver read the
    boot loader's structure and not a null pointer.  The command to set a variable
    sets none and succeeds; an unknown command fails with [EINVAL].  The command to
    get a variable asks the firmware for the variable [B], all that it can see of
    the wide literal [Boot0000], and succeeds whatever the firmware says: it prints
    its buffer up to a NUL, and reads beyond its end exactly when there is none
    in it.  When the firmware reports success and the value holds a NUL, what is
    printed is the value up to it. *)
Theorem efivars_ioctl_spec info i dev stack :
  rtc (attach_step info) false i -> efivarsopen i dev = 0 -> length stack = 128%nat ->
  exists addr, info = Some addr /\
    efivarsioctl info stack EFI_SET_VARIABLE = Some (0, [MEnter; MGetVariable addr]) /\
    (forall cmd, cmd <> EFI_SET_VARIABLE -> cmd <> EFI_GET_VARIABLE ->
       efivarsioctl info stack cmd = Some (EINVAL, [MEnter])) /\
    exists status data, fw_get (str "B") 128 stack = (status, data) /\ length data = 128%nat /\
      efivarsioctl info stack EFI_GET_VARIABLE =
        (s ← cstring data; Some (0, [MEnter; MCall; MString s])) /\
      (efivarsioctl info stack EFI_GET_VARIABLE = None <-> ~ 0 ∈ data) /\
      (status = EFI_SUCCESS -> exists v, fw_value (str "B") = Some v /\ Z.of_nat (length v) <= 128 /\
         (0 ∈ v -> exists s, cstring v = Some s /\
            efivarsioctl info stack EFI_GET_VARIABLE = Some (0, [MEnter; MCall; MString s]))).
Proof.
  intros Hr Ho Hlen. unfold efivarsopen in Ho. destruct i; [|by rewrite orb_true_r in Ho].
  destruct (initialized_info info true Hr eq_refl) as [addr ->]. exists addr. split_and!; [done|done|..].
  - intros cmd H1 H2. unfold efivarsioctl. by rewrite (proj2 (Z.eqb_neq _ _) H1), (proj2 (Z.eqb_neq _ _) H2).
  - unfold efivarsioctl. cbn [Z.eqb EFI_GET_VARIABLE EFI_SET_VARIABLE]. change boot_name with (str "B").
    pose proof (fw_get_length (str "B") 128 stack) as Hl. pose proof (fw_get_success (str "B") 128 stack) as Hok.
    rewrite Hlen in Hl, Hok. destruct (fw_get (str "B") 128 stack) as [status data]. exists status, data.
    cbn [fst snd] in *. split_and!; [done|by apply Hl|by destruct (cstring data)| |].
    + rewrite <- cstring_some, <- eq_None_not_Some. by destruct (cstring data).
    + intros ->. destruct (Hok eq_refl eq_refl) as (v & Hv & Hfit & ->). exists v. split_and!; [done..|].
      intros H0. rewrite (cstring_app _ _ H0). apply cstring_some in H0 as [t ->]. eauto.
Qed.

End Ioctl.

(** ** Witness and examples *)

(** A firmware with one value for every name. *)
Definition demo_fw_get (value : option (list Z)) (name : list Z) (size : Z) (buf : list Z) : Z * list Z :=
  match value with
  | None => (EFI_NOT_FOUND, buf)
  | Some v =>
    if Z.of_nat (length v) <=? size then (EFI_SUCCESS, v ++ drop (length v) buf)
    else (EFI_BUFFER_TOO_SMALL, buf)
  end.
Definition demo_fw (value : option (list Z)) : Firmware.
Proof.
  refine {| fw_value := fun _ => value; fw_get := demo_fw_get value |}; intros name size buf Hs;
    unfold demo_fw_get; destruct value as [v|]; try done.
  - case_if; [|done]. cbn [snd]. rewrite length_app, length_drop. lia.
  - case_if; [|done]. intros _. exists v. split_and!; [done|lia|done].
Defined.

Definition demo_stack : list Z := replicate 100 65 ++ replicate 28 0.

Lemma demo_attached : rtc (attach_step (Some 4096)) false true.
Proof. apply rtc_once. exact (attach_num (Some 4096) false 1). Qed.

Lemma efivars_ioctl_spec_witness :
  @efivarsioctl (demo_fw (Some (str "disk" ++ [0]))) (Some 4096) demo_stack EFI_SET_VARIABLE =
    Some (0, [MEnter; MGetVariable 4096]) /\
  @efivarsioctl (demo_fw (Some (str "disk" ++ [0]))) (Some 4096) demo_stack EFI_GET_VARIABLE =
    Some (0, [MEnter; MCall; MString (str "disk")]).
Proof.
  assert (0 ∈ str "disk" ++ [0]) as H0 by (apply (bool_decide_unpack (0 ∈ _)); vm_compute; exact I).
  destruct (@efivars_ioctl_spec (demo_fw (Some (str "disk" ++ [0]))) (Some 4096) true 23808 demo_stack
    demo_attached eq_refl eq_refl) as (addr & E & Hset & _ & status & data & Hfw & _ & _ & _ & Hok).
  injection E as <-. split; [exact Hset|]. injection Hfw as <- _.
  destruct (Hok eq_refl) as (v & [= <-] & _ & Hs). destruct (Hs H0) as (s & [= <-] & Hget). exact Hget.
Defined.

(** The firmware is not asked for the variable that the driver names. *)
Example boot_name_cut : boot_name = str "B" /\ boot_name <> str "Boot0000".
Proof. split; [reflexivity|discriminate]. Qed.

(** A value that fills the buffer without a NUL is printed beyond its end, and
    one that is too long leaves the stack to be printed. *)
Example efivars_unterminated :
  @efivarsioctl (demo_fw (Some (replicate 128 65))) (Some 4096) demo_stack EFI_GET_VARIABLE = None /\
  @efivarsioctl (demo_fw (Some (replicate 129 66))) (Some 4096) demo_stack EFI_GET_VARIABLE =
    Some (0, [MEnter; MCall; MString (replicate 100 65)]).
Proof. vm_compute. split; reflexivity. Qed.
