(* ===== verification/Libkern.v ===== *)
(** * The kernel's library (lib/libkern)

    The functions that other parts call and that lib/libkern has in C. *)

From S2P Require Import Prelude.

Module Libkern.

(** ** The lowest set bit (lib/libkern/ffs.c) *)

Definition ffs_table : list Z :=
  [-28; 1; 2; 1; 3; 1; 2; 1; 4; 1; 2; 1; 3; 1; 2; 1].

Definition ffs (mask : Z) : Z :=
  let r := u32 mask in
  let '(bit, r) := if (r .& 0xffff) =? 0 then (16, Z.shiftr r 16) else (0, r) in
  let '(bit, r) := if (r .& 0xff) =? 0 then (bit + 8, Z.shiftr r 8) else (bit, r) in
  let '(bit, r) := if (r .& 0xf) =? 0 then (bit + 4, Z.shiftr r 4) else (bit, r) in
  bit + nth (Z.to_nat (r .& 0xf)) ffs_table 0.

(** [z] is the number of the lowest set bit of [x]. *)
Definition lowest_set (x z : Z) : Prop :=
  0 <= z /\ Z.testbit x z = true /\ forall j, 0 <= j < z -> Z.testbit x j = false.

Lemma lowest_set_unique x z z' : lowest_set x z -> lowest_set x z' -> z = z'.
Proof.
  intros (? & Ht & Hl) (? & Ht' & Hl'). destruct (Z.lt_trichotomy z z') as [?|[?|?]]; [|done|].
  - specialize (Hl' z ltac:(lia)). congruence.
  - specialize (Hl z' ltac:(lia)). congruence.
Qed.

Lemma lowest_set_search n x :
  (exists z, lowest_set x z /\ z < Z.of_nat n) \/
  (forall j, 0 <= j < Z.of_nat n -> Z.testbit x j = false).
Proof.
  induction n as [|n [(z & Hz & Hn)|IH]]; [right; lia|left; exists z; split; [done|lia]|].
  destruct (Z.testbit x (Z.of_nat n)) eqn:E.
  - left. exists (Z.of_nat n). split; [|lia]. split; [lia|done].
  - right. intros j Hj. destruct (decide (j = Z.of_nat n)) as [->|]; [done|]. apply IH. lia.
Qed.

(** The low [n] bits are clear exactly if the lowest set bit is above them. *)
Lemma lowest_set_land x z n : lowest_set x z -> 0 <= n -> ((x .& Z.ones n) =? 0) = (n <=? z).
Proof.
  intros (Hz & Ht & Hl) Hn. apply eq_true_iff_eq. rewrite Z.eqb_eq, Z.leb_le. split.
  - intros H0. destruct (Z.lt_ge_cases z n); [|lia].
    assert (Z.testbit (x .& Z.ones n) z = false) as Hb by (rewrite H0; apply Z.bits_0).
    rewrite Z.land_spec, Z.ones_spec_low, Ht in Hb by lia. done.
  - intros Hle. apply Z.bits_inj_0. intros j. rewrite Z.land_spec.
    destruct (Z.neg_nonneg_cases j) as [|Hj]; [by rewrite Z.testbit_neg_r|].
    destruct (Z.lt_ge_cases j n); [by rewrite Hl by lia|].
    rewrite Z.ones_spec_high by lia. apply andb_false_r.
Qed.

Lemma lowest_set_shiftr x z n : lowest_set x z -> 0 <= n <= z -> lowest_set (Z.shiftr x n) (z - n).
Proof.
  intros (Hz & Ht & Hl) Hn. split; [lia|]. split.
  - rewrite Z.shiftr_spec by lia. by replace (z - n + n) with z by lia.
  - intros j Hj. rewrite Z.shiftr_spec by lia. apply Hl. lia.
Qed.

Lemma ffs_table_spec x z :
  lowest_set x z -> z < 4 -> nth (Z.to_nat (x .& Z.ones 4)) ffs_table 0 = z + 1.
Proof.
  intros Hx Hz. set (y := x .& Z.ones 4).
  assert (Hy : lowest_set y z).
  { destruct Hx as (? & Ht & Hl). unfold y. split; [done|].
    split; [|intros j Hj]; rewrite Z.land_spec, Z.ones_spec_low, andb_true_r by lia; auto. }
  assert (Hr : 0 <= y < 16).
  { unfold y. rewrite Z.land_ones by lia. by apply Z.mod_pos_bound. }
  clearbody y. clear Hx. destruct Hy as (Hz0 & Ht & Hl).
  assert (Hl' : forall j, 0 <= j < z -> negb (Z.testbit y j) = true).
  { intros j Hj. by rewrite Hl. }
  assert (z = 0 \/ z = 1 \/ z = 2 \/ z = 3) as Hc by lia.
  rewrite <- (Z2Nat.id y) in Ht, Hl' by lia. assert (Z.to_nat y < 16)%nat as Hlt by lia.
  revert Ht Hl' Hlt. generalize (Z.to_nat y). clear - Hc. intros n Ht Hl Hlt.
  do 16 (destruct n as [|n];
    [destruct Hc as [->|[->|[->| ->]]];
     first [reflexivity|discriminate Ht|discriminate (Hl 0 ltac:(lia))
           |discriminate (Hl 1 ltac:(lia))|discriminate (Hl 2 ltac:(lia))]|]).
  lia.
Qed.

(** A step of [ffs]: a half of clear bits is shifted out. *)
Lemma ffs_step n z b y :
  lowest_set y (z - b) -> z - b < 2 * n -> 0 <= n ->
  exists b' y', (if (y .& Z.ones n) =? 0 then (b + n, Z.shiftr y n) else (b, y)) = (b', y') /\
    lowest_set y' (z - b') /\ z - b' < n.
Proof.
  intros Hy Hlt Hn. rewrite (lowest_set_land y (z - b)) by done.
  destruct (n <=? z - b) eqn:E; zify_bool.
  - exists (b + n), (Z.shiftr y n). split; [done|]. rewrite Z.sub_add_distr.
    split; [apply lowest_set_shiftr; [done|lia]|lia].
  - exists b, y. split; [done|]. split; [done|lia].
Qed.

(** [ffs] is one more than the number of the lowest set bit, and 0 for 0. *)
Lemma ffs_spec x : inu 32 x -> (x = 0 /\ ffs x = 0) \/ (x <> 0 /\ lowest_set x (ffs x - 1)).
Proof.
  intros Hx. destruct (decide (x = 0)) as [->|Hne]; [by left|right]. split; [done|].
  destruct (lowest_set_search 32 x) as [(z & Hz & Hz32)|Hall].
  2: { exfalso. apply Hne, Z.bits_inj_0. intros j.
       destruct (Z.neg_nonneg_cases j) as [|Hj]; [by apply Z.testbit_neg_r|].
       destruct (Z.lt_ge_cases j 32); [apply Hall; lia|]. by apply (testbit_above 32); [|lia]. }
  assert (ffs x = z + 1) as ->; [|by replace (z + 1 - 1) with z by lia].
  unfold ffs. rewrite (wrapu_small 32) by done.
  change 0xffff with (Z.ones 16). change 0xff with (Z.ones 8). change 0xf with (Z.ones 4).
  change (16, Z.shiftr x 16) with (0 + 16, Z.shiftr x 16).
  destruct (ffs_step 16 z 0 x) as (b1 & y1 & -> & Hy1 & Hb1); [by rewrite Z.sub_0_r|lia|lia|].
  destruct (ffs_step 8 z b1 y1) as (b2 & y2 & -> & Hy2 & Hb2); [done|lia|lia|].
  destruct (ffs_step 4 z b2 y2) as (b3 & y3 & -> & Hy3 & Hb3); [done|lia|lia|].
  rewrite (ffs_table_spec y3 (z - b3)) by done. lia.
Qed.

End Libkern.
