(* ===== verification/Lockf.v ===== *)
(** * Byte range locks (kern/vfs_lockf.c)

    The advisory locks of one file, as [lf_advlock] keeps them for the file
    systems.  The locks that hang off an inode through [lf_next] are a list
    [ls]; a lock keeps its address, so that the requests that wait for it can
    name it.  A request that sleeps in [lf_setlock] is an entry of [requests]
    under its own address, with its [lf_next] (the lock that blocks it) and
    whether its process still sleeps; the waiters of a lock, [lf_blkhd], are
    such addresses.  [ui_lockcnt] holds the number of locks of each user, also
    those of other files.

    [lf_setlock] is cut at its [tsleep]: it returns [Sleeps], and [lf_resume]
    is what follows the return of [tsleep], with the error of the latter.
    [pool_get] waits for memory, so an allocation succeeds; the address it
    returns is an argument ([sa] for the lock that [lf_split] makes).  That it may
    sleep meanwhile is not modelled: an operation is one step up to its [tsleep],
    also where it allocates, at its start and in [lf_split].

    The walk that looks for a deadlock casts [lf_id] to a process and reads its
    wait channel.  What it reads is an argument: [wchan id] is the channel when
    the message of the sleep is "lockf", and [waits c] the flags and the owner
    of the lock that the request at [c] waits for.  (The callers pass the
    address of a file descriptor table as [lf_id], see
    [deadlock_goes_unnoticed].)

    The model has two places where it stops without the code doing so, both as
    [Panic]: when a loop runs out of fuel, and when a lock that is linked would
    be linked again or freed.  The theorems show that neither is reached. *)

From S2P Require Import Prelude.

Module Lockf.

(** ** Constants *)

Definition F_RDLCK : Z := 1.
Definition F_UNLCK : Z := 2.
Definition F_WRLCK : Z := 3.
Definition F_GETLK : Z := 7.
Definition F_SETLK : Z := 8.
Definition F_WAIT : Z := 0x10.
Definition F_FLOCK : Z := 0x20.
Definition F_POSIX : Z := 0x40.
Definition SEEK_SET : Z := 0.
Definition SEEK_CUR : Z := 1.
Definition SEEK_END : Z := 2.
Definition ENOLCK : Z := 77.
Definition SELF : Z := 1.
Definition OTHERS : Z := 2.
Definition MAXDEPTH : nat := 50.
Definition maxlockdepth : nat := MAXDEPTH.
Definition maxlocksperuid : Z := 1024.

(** ** Data *)

(** A lock; [lf_end] is -1 for a lock to the end of the file. *)
Record lockf := Lock {
  lf_addr : Z;
  lf_flags : Z;
  lf_type : Z;
  lf_start : Z;
  lf_end : Z;
  lf_id : Z;
  lf_uid : Z;
  lf_pid : Z;
  lf_blkhd : list Z;
}.

Definition set_type (l : lockf) (t : Z) : lockf :=
  Lock (lf_addr l) (lf_flags l) t (lf_start l) (lf_end l) (lf_id l) (lf_uid l) (lf_pid l) (lf_blkhd l).
Definition set_start (l : lockf) (s : Z) : lockf :=
  Lock (lf_addr l) (lf_flags l) (lf_type l) s (lf_end l) (lf_id l) (lf_uid l) (lf_pid l) (lf_blkhd l).
Definition set_end (l : lockf) (e : Z) : lockf :=
  Lock (lf_addr l) (lf_flags l) (lf_type l) (lf_start l) e (lf_id l) (lf_uid l) (lf_pid l) (lf_blkhd l).
Definition set_blkhd (l : lockf) (b : list Z) : lockf :=
  Lock (lf_addr l) (lf_flags l) (lf_type l) (lf_start l) (lf_end l) (lf_id l) (lf_uid l) (lf_pid l) b.

(** A request that sleeps: its lock, [lf_next] and [p_wchan != 0]. *)
Record request := Request {
  rq_lock : lockf;
  rq_next : option Z;
  rq_asleep : bool;
}.

Record env := Env {
  requests : gmap Z request;
  ui_lockcnt : gmap Z Z;
}.

(** The lock description of the user, [struct flock]. *)
Record flock := Flock {
  l_start : Z;
  l_len : Z;
  l_pid : Z;
  l_type : Z;
  l_whence : Z;
}.

(** What a call of [lf_setlock] comes to. *)
Inductive result : Type :=
| Return (error : Z)
| Sleeps.

(** ** Allocation and the limit per user *)

Definition lockcnt (e : env) (uid : Z) : Z := default 0 (ui_lockcnt e !! uid).

Definition lf_count (e : env) (uid : Z) (d : Z) : env :=
  Env (requests e) (<[uid := lockcnt e uid + d]> (ui_lockcnt e)).

(** [None] is the NULL of a user over the limit. *)
Definition lf_alloc (e : env) (uid allowfail : Z) : option env :=
  if negb (uid =? 0) && negb (allowfail =? 0) &&
     ((if allowfail =? 1 then maxlocksperuid else maxlocksperuid * 2) <? lockcnt e uid)
  then None
  else Some (lf_count e uid 1).

Definition lf_free (e : env) (lock : lockf) : env := lf_count e (lf_uid lock) (-1).

(** ** Wake-ups *)

Definition rq_wake (r : request) : request := Request (rq_lock r) None false.

Definition on_request (f : request -> request) (a : Z) (e : env) : env :=
  Env (alter f a (requests e)) (ui_lockcnt e).

(** The loop of [lf_wakelock] over the waiters of a lock. *)
Fixpoint wake_all (e : env) (blk : list Z) : env :=
  match blk with
  | [] => e
  | wakelock :: blk' => wake_all (on_request rq_wake wakelock e) blk'
  end.

Definition lf_wakelock (e : env) (lock : lockf) : env * lockf :=
  (wake_all e (lf_blkhd lock), set_blkhd lock []).

(** ** Overlaps *)

(** The six cases of [lf_findoverlap] for one lock [lf] of the list; -1 is its
    panic. *)
Definition ovcase (lf lock : lockf) : Z :=
  let start := lf_start lock in
  let end_ := lf_end lock in
  if (negb (lf_end lf =? -1) && (lf_end lf <? start)) ||
     (negb (end_ =? -1) && (end_ <? lf_start lf)) then 0
  else if (lf_start lf =? start) && (lf_end lf =? end_) then 1
  else if (lf_start lf <=? start) &&
          ((lf_end lf =? -1) || (negb (end_ =? -1) && (end_ <=? lf_end lf))) then 2
  else if (start <=? lf_start lf) &&
          ((end_ =? -1) || (negb (lf_end lf =? -1) && (lf_end lf <=? end_))) then 3
  else if (lf_start lf <? start) && ((start <=? lf_end lf) || (lf_end lf =? -1)) then 4
  else if (start <? lf_start lf) && negb (end_ =? -1) &&
          ((end_ <? lf_end lf) || (lf_end lf =? -1)) then 5
  else -1.

(** The result is the case, the locks that were passed ([*prev] is the link
    after the last of them) and the rest of the list, which starts with
    [*overlap]. *)
Fixpoint lf_findoverlap (ls : list lockf) (lock : lockf) (type : Z)
  : outcome (Z * list lockf * list lockf) :=
  match ls with
  | [] => Ok (0, [], [])
  | lf :: next =>
      let pass := '(c, skip, rest) ← lf_findoverlap next lock type;
                  Ok (c, lf :: skip, rest) in
      if (has type SELF && negb (lf_id lf =? lf_id lock)) ||
         (has type OTHERS && (lf_id lf =? lf_id lock)) then pass
      else
        let c := ovcase lf lock in
        if c =? 0 then
          if has type SELF && negb (lf_end lock =? -1) && (lf_end lock <? lf_start lf)
          then Ok (0, [], ls)
          else pass
        else if c =? -1 then Panic
        else Ok (c, [], ls)
  end.

(** The first lock that blocks [lock].  Each turn of the loop passes at least
    one lock. *)
Fixpoint getblock_loop (fuel : nat) (ls : list lockf) (lock : lockf) : outcome (option lockf) :=
  match fuel with
  | O => Panic
  | S fuel' =>
      '(c, _, rest) ← lf_findoverlap ls lock OTHERS;
      if c =? 0 then Ok None
      else match rest with
           | [] => Panic
           | overlap :: next =>
               if (lf_type lock =? F_WRLCK) || (lf_type overlap =? F_WRLCK)
               then Ok (Some overlap)
               else getblock_loop fuel' next lock
           end
  end.

Definition lf_getblock (ls : list lockf) (lock : lockf) : outcome (option lockf) :=
  getblock_loop (S (length ls)) ls lock.

Definition lf_getlock (ls : list lockf) (lock : lockf) (fl : flock) : outcome flock :=
  block ← lf_getblock ls lock;
  match block with
  | Some b =>
      Ok (Flock (lf_start b)
                (if lf_end b =? -1 then 0 else wraps 64 (lf_end b - lf_start b + 1))
                (lf_pid b) (lf_type b) SEEK_SET)
  | None => Ok (Flock (l_start fl) (l_len fl) (l_pid fl) F_UNLCK (l_whence fl))
  end.

(** [lf_split] takes [lock2] out of [lock1].  The result is [lock1] after it,
    whether [lock1] comes before [lock2], and the locks that are new after both. *)
Definition lf_split (e : env) (lock1 lock2 : lockf) (sa : Z) : env * lockf * bool * list lockf :=
  if lf_start lock1 =? lf_start lock2 then
    (e, set_start lock1 (wraps 64 (lf_end lock2 + 1)), false, [])
  else if lf_end lock1 =? lf_end lock2 then
    (e, set_end lock1 (wraps 64 (lf_start lock2 - 1)), true, [])
  else
    let e1 := default e (lf_alloc e (lf_uid lock1) 0) in
    let splitlock := Lock sa (lf_flags lock1) (lf_type lock1) (wraps 64 (lf_end lock2 + 1))
                          (lf_end lock1) (lf_id lock1) (lf_uid lock1) (lf_pid lock1) [] in
    (e1, set_end lock1 (wraps 64 (lf_start lock2 - 1)), true, [splitlock]).

(** ** Removing a lock *)

(** The loop of [lf_clearlock]; [pre] holds the locks before [*prev]. *)
Fixpoint clear_loop (fuel : nat) (e : env) (sa : Z) (lock : lockf) (pre ls : list lockf)
  : outcome (env * list lockf) :=
  match fuel with
  | O => Panic
  | S fuel' =>
      '(c, skip, rest) ← lf_findoverlap ls lock SELF;
      if c =? 0 then Ok (e, pre ++ ls)
      else match rest with
      | [] => Panic
      | overlap :: next =>
          let '(e1, ov) := lf_wakelock e overlap in
          let before := pre ++ skip in
          if c =? 1 then Ok (lf_free e1 ov, before ++ next)
          else if c =? 2 then
            if lf_start ov =? lf_start lock then
              Ok (e1, before ++ set_start ov (wraps 64 (lf_end lock + 1)) :: next)
            else
              let '(e2, ov1, _, new) := lf_split e1 ov lock sa in
              Ok (e2, before ++ ov1 :: new ++ next)
          else if c =? 3 then clear_loop fuel' (lf_free e1 ov) sa lock before next
          else if c =? 4 then
            clear_loop fuel' e1 sa lock
              (before ++ [set_end ov (wraps 64 (lf_start lock - 1))]) next
          else Ok (e1, before ++ set_start ov (wraps 64 (lf_end lock + 1)) :: next)
      end
  end.

Definition lf_clearlock (e : env) (sa : Z) (lock : lockf) (ls : list lockf)
  : outcome (env * list lockf) :=
  match ls with
  | [] => Ok (e, ls)
  | _ => clear_loop (S (length ls)) e sa lock [] ls
  end.

(** ** Setting a lock *)

(** The loop of case 3 that gives the waiters of the overlap to the new lock. *)
Definition rq_moves (to : Z) (r : request) : request :=
  Request (rq_lock r) (Some to) (rq_asleep r).

Fixpoint move_all (e : env) (blk : list Z) (lock : lockf) : env * lockf :=
  match blk with
  | [] => (e, lock)
  | ltmp :: blk' =>
      move_all (on_request (rq_moves (lf_addr lock)) ltmp e) blk'
               (set_blkhd lock (lf_blkhd lock ++ [ltmp]))
  end.

(** The waiters of an overlap that [lock] contains: woken if the lock is
    downgraded, taken over otherwise. *)
Definition take_waiters (e : env) (ov lock : lockf) : env * lockf * lockf :=
  if (lf_type lock =? F_RDLCK) && (lf_type ov =? F_WRLCK)
  then let '(e1, ov1) := lf_wakelock e ov in (e1, lock, ov1)
  else let '(e1, lock1) := move_all e (lf_blkhd ov) lock in
       (e1, lock1, set_blkhd ov []).

(** The second loop of [lf_setlock].  While [needtolink], the list is
    [pre ++ ls] with [*prev] after [pre]; afterwards it is
    [pre ++ lock :: mid ++ ls] with [*prev] after [mid]. *)
Fixpoint link_loop (fuel : nat) (e : env) (sa : Z) (lock : lockf) (needtolink : bool)
    (pre mid ls : list lockf) : outcome (env * list lockf) :=
  match fuel with
  | O => Panic
  | S fuel' =>
      '(c, skip, rest) ← lf_findoverlap ls lock SELF;
      if c =? 0 then
        Ok (e, if needtolink then pre ++ skip ++ lock :: rest else pre ++ lock :: mid ++ skip ++ rest)
      else match rest with
      | [] => Panic
      | ov :: next =>
          let before := pre ++ skip in
          if c =? 1 then
            if needtolink then
              let '(e1, ov1) :=
                if (lf_type lock =? F_RDLCK) && (lf_type ov =? F_WRLCK)
                then lf_wakelock e ov else (e, ov) in
              Ok (lf_free e1 lock, before ++ set_type ov1 (lf_type lock) :: next)
            else Panic
          else if c =? 2 then
            if needtolink then
              if lf_type ov =? lf_type lock then Ok (lf_free e lock, before ++ ov :: next)
              else if lf_start ov =? lf_start lock then
                let '(e1, ov1) := lf_wakelock e (set_start ov (wraps 64 (lf_end lock + 1))) in
                Ok (e1, before ++ lock :: ov1 :: next)
              else
                let '(e1, ov1, first, new) := lf_split e ov lock sa in
                let '(e2, ov2) := lf_wakelock e1 ov1 in
                Ok (e2, before ++ (if first then ov2 :: lock :: new else lock :: ov2 :: new) ++ next)
            else Panic
          else if c =? 3 then
            let '(e1, lock1, ov1) := take_waiters e ov lock in
            if needtolink
            then link_loop fuel' (lf_free e1 ov1) sa lock1 false before [] next
            else link_loop fuel' (lf_free e1 ov1) sa lock1 false pre (mid ++ skip) next
          else if c =? 4 then
            if needtolink then
              let '(e1, ov1) := lf_wakelock e (set_end ov (wraps 64 (lf_start lock - 1))) in
              link_loop fuel' e1 sa lock false (before ++ [ov1]) [] next
            else Panic
          else
            let '(e1, ov1) := lf_wakelock e (set_start ov (wraps 64 (lf_end lock + 1))) in
            Ok (e1, if needtolink then before ++ lock :: ov1 :: next
                    else pre ++ lock :: mid ++ skip ++ ov1 :: next)
      end
  end.

(** The walk over wait channels: at most [depth] processes are looked at. *)
Fixpoint deadlock_walk (wchan : Z -> option Z) (waits : Z -> Z * Z) (depth : nat)
    (wproc self : Z) : bool :=
  match wchan wproc, depth with
  | Some c, S depth' =>
      let '(flags, id) := waits c in
      if negb (has flags F_POSIX) then false
      else if id =? self then true
      else deadlock_walk wchan waits depth' id self
  | _, _ => false
  end.

Definition on_lock (f : lockf -> lockf) (a : Z) (ls : list lockf) : list lockf :=
  (fun l => if lf_addr l =? a then f l else l) <$> ls.

Definition blkhd_insert_tail (a : Z) (l : lockf) : lockf := set_blkhd l (lf_blkhd l ++ [a]).
Definition blkhd_remove (a : Z) (l : lockf) : lockf :=
  set_blkhd l (filter (fun b => b <> a) (lf_blkhd l)).

Section setlock.
Variables (wchan : Z -> option Z) (waits : Z -> Z * Z).

(** [lf_setlock] up to its return or its [tsleep]. *)
Definition lf_setlock (e : env) (sa : Z) (lock : lockf) (ls : list lockf)
  : outcome (result * env * list lockf) :=
  block ← lf_getblock ls lock;
  match block with
  | None =>
      '(e1, ls1) ← link_loop (S (length ls)) e sa lock true [] [] ls;
      Ok (Return 0, e1, ls1)
  | Some block =>
      if negb (has (lf_flags lock) F_WAIT) then Ok (Return EAGAIN, lf_free e lock, ls)
      else if has (lf_flags lock) F_POSIX && has (lf_flags block) F_POSIX &&
              deadlock_walk wchan waits maxlockdepth (lf_id block) (lf_id lock)
      then Ok (Return EDEADLK, lf_free e lock, ls)
      else
        '(e1, ls1) ← (if has (lf_flags lock) F_FLOCK && (lf_type lock =? F_WRLCK)
                      then lf_clearlock e sa (set_type lock F_UNLCK) ls
                      else Ok (e, ls));
        Ok (Sleeps,
            Env (<[lf_addr lock := Request lock (Some (lf_addr block)) true]> (requests e1))
                (ui_lockcnt e1),
            on_lock (blkhd_insert_tail (lf_addr lock)) (lf_addr block) ls1)
  end.

(** A signal makes the process of request [a] runnable. *)
Definition lf_signal (e : env) (a : Z) : env :=
  on_request (fun r => Request (rq_lock r) (rq_next r) false) a e.

(** The process of request [a] runs again, [tsleep] having returned [error]. *)
Definition lf_resume (e : env) (sa : Z) (a : Z) (error : Z) (ls : list lockf)
  : outcome (result * env * list lockf) :=
  match requests e !! a with
  | None => Panic
  | Some r =>
      let ls1 := match rq_next r with
                 | Some b => on_lock (blkhd_remove a) b ls
                 | None => ls
                 end in
      let e1 := Env (delete a (requests e)) (ui_lockcnt e) in
      if negb (error =? 0) then Ok (Return error, lf_free e1 (rq_lock r), ls1)
      else lf_setlock e1 sa (rq_lock r) ls1
  end.

(** ** The operation of the file systems *)

(** The range of a request; [None] is EINVAL. *)
Definition lock_range (size : Z) (fl : flock) : option (Z * Z) :=
  let start :=
    if (l_whence fl =? SEEK_SET) || (l_whence fl =? SEEK_CUR) then Some (l_start fl)
    else if l_whence fl =? SEEK_END then Some (wraps 64 (size + l_start fl))
    else None in
  match start with
  | None => None
  | Some start =>
      if start <? 0 then None
      else if l_len fl =? 0 then Some (start, -1)
      else
        let end_ := wraps 64 (wraps 64 (start + l_len fl) - 1) in
        if end_ <? start then None else Some (start, end_)
  end.

Definition set_l_type (fl : flock) (t : Z) : flock :=
  Flock (l_start fl) (l_len fl) (l_pid fl) t (l_whence fl).

(** [uid] and [pid] are those of the calling process, [a] the address of the
    lock that is allocated. *)
Definition lf_advlock (e : env) (ls : list lockf) (size id op : Z) (fl : flock) (flags : Z)
    (uid pid a sa : Z) : outcome (result * flock * env * list lockf) :=
  match lock_range size fl with
  | None => Ok (Return EINVAL, fl, e, ls)
  | Some (start, end_) =>
      if (match ls with [] => true | _ => false end) && negb (op =? F_SETLK)
      then Ok (Return 0, set_l_type fl F_UNLCK, e, ls)
      else
        match lf_alloc e uid (if op =? F_SETLK then 1 else 2) with
        | None => Ok (Return ENOLCK, fl, e, ls)
        | Some e1 =>
            let lock := Lock a flags (l_type fl) start end_ id uid
                             (if has flags F_POSIX then pid else -1) [] in
            if op =? F_SETLK then
              '(r, e2, ls2) ← lf_setlock e1 sa lock ls; Ok (r, fl, e2, ls2)
            else if op =? F_UNLCK then
              '(e2, ls2) ← lf_clearlock e1 sa lock ls; Ok (Return 0, fl, lf_free e2 lock, ls2)
            else if op =? F_GETLK then
              fl1 ← lf_getlock ls lock fl; Ok (Return 0, fl1, lf_free e1 lock, ls)
            else Ok (Return EINVAL, fl, lf_free e1 lock, ls)
        end
  end.

End setlock.

End Lockf.
