(* ===== verification/LockfProofs.v ===== *)
(** * What the byte range locks promise

    The lists of [Lockf] are shown to represent a map from owners and offsets
    to lock types ([holds]), the waiters to be recorded where they can be woken
    ([linked]), and both to be kept by every operation. *)

From S2P Require Import Prelude Lockf.
From stdpp Require Import sorting.
Import Lockf.
#[local] Open Scope Z_scope.

Module LockfProofs.

(** ** Ranges *)

Definition covers (l : lockf) (x : Z) : bool :=
  (lf_start l <=? x) && ((lf_end l =? -1) || (x <=? lf_end l)).

(** The type of the lock that owner [id] holds at offset [x]. *)
Fixpoint holds (ls : list lockf) (id x : Z) : option Z :=
  match ls with
  | [] => None
  | l :: ls' => if (lf_id l =? id) && covers l x then Some (lf_type l) else holds ls' id x
  end.

Definition range_ok (l : lockf) : Prop :=
  0 <= lf_start l < 2 ^ 63 /\ (lf_end l = -1 \/ lf_start l <= lf_end l < 2 ^ 63 - 1).

Definition type_ok (l : lockf) : Prop := lf_type l = F_RDLCK \/ lf_type l = F_WRLCK.

(** [l1] ends before [l2] starts. *)
Definition before (l1 l2 : lockf) : Prop := lf_end l1 <> -1 /\ lf_end l1 < lf_start l2.

(** The locks of one owner are disjoint and in order. *)
Definition ordered (l1 l2 : lockf) : Prop := lf_id l1 = lf_id l2 -> before l1 l2.

Definition overlaps (l1 l2 : lockf) : Prop :=
  (lf_end l1 = -1 \/ lf_start l2 <= lf_end l1) /\ (lf_end l2 = -1 \/ lf_start l1 <= lf_end l2).

(** Lock [l] blocks request [r]. *)
Definition blocks (l r : lockf) : Prop :=
  lf_id l <> lf_id r /\ overlaps l r /\ (lf_type l = F_WRLCK \/ lf_type r = F_WRLCK).

Definition blocksb (r l : lockf) : bool :=
  negb (lf_id l =? lf_id r) &&
  ((lf_end l =? -1) || (lf_start r <=? lf_end l)) &&
  ((lf_end r =? -1) || (lf_start l <=? lf_end r)) &&
  ((lf_type r =? F_WRLCK) || (lf_type l =? F_WRLCK)).

Lemma blocksb_iff r l : blocksb r l = true <-> blocks l r.
Proof.
  unfold blocksb, blocks, overlaps. rewrite !andb_true_iff, !orb_true_iff, negb_true_iff.
  rewrite !Z.eqb_eq, Z.eqb_neq, !Z.leb_le. tauto.
Qed.

Lemma covers_iff l x :
  covers l x = true <-> lf_start l <= x /\ (lf_end l = -1 \/ x <= lf_end l).
Proof.
  unfold covers. by rewrite andb_true_iff, orb_true_iff, Z.eqb_eq, !Z.leb_le.
Qed.

(** What each case of [ovcase] says of a lock [lf] of the list. *)
Inductive ov_spec (lf lock : lockf) : Z -> Prop :=
| ov_none : ~ overlaps lf lock -> ov_spec lf lock 0
| ov_same : lf_start lf = lf_start lock -> lf_end lf = lf_end lock -> ov_spec lf lock 1
| ov_contains :
    lf_start lf <= lf_start lock ->
    lf_end lf = -1 \/ (lf_end lock <> -1 /\ lf_end lock <= lf_end lf) ->
    lf_start lf <> lf_start lock \/ lf_end lf <> lf_end lock -> ov_spec lf lock 2
| ov_inside :
    lf_start lock <= lf_start lf ->
    lf_end lock = -1 \/ (lf_end lf <> -1 /\ lf_end lf <= lf_end lock) -> ov_spec lf lock 3
| ov_starts_before :
    lf_start lf < lf_start lock -> lf_end lf <> -1 -> lf_start lock <= lf_end lf ->
    lf_end lock = -1 \/ lf_end lf < lf_end lock -> ov_spec lf lock 4
| ov_ends_after :
    lf_start lock < lf_start lf -> lf_end lock <> -1 -> lf_start lf <= lf_end lock ->
    lf_end lf = -1 \/ lf_end lock < lf_end lf -> ov_spec lf lock 5.

(** The six cases are exhaustive: the panic is not reached. *)
Lemma ovcase_spec lf lock :
  range_ok lf -> range_ok lock -> ov_spec lf lock (ovcase lf lock).
Proof.
  intros [? ?] [? ?]. unfold ovcase.
  repeat match goal with
  | |- ov_spec _ _ (if ?b then _ else _) =>
      let E := fresh in destruct b eqn:E; [|apply not_true_iff_false in E];
      rewrite ?andb_true_iff, ?orb_true_iff, ?andb_true_iff, ?negb_true_iff,
        ?Z.eqb_eq, ?Z.eqb_neq, ?Z.ltb_lt, ?Z.leb_le in E
  end; first [constructor; unfold overlaps; lia|exfalso; lia].
Qed.

Lemma ov_spec_range lf lock c : ov_spec lf lock c -> 0 <= c <= 5.
Proof. destruct 1; lia. Qed.

Lemma ov_spec_overlaps lf lock c :
  range_ok lf -> range_ok lock -> ov_spec lf lock c -> c <> 0 -> overlaps lf lock.
Proof. unfold range_ok, overlaps. destruct 3; lia. Qed.

(** ** Lists of disjoint locks *)

Definition wf (ls : list lockf) : Prop := Forall range_ok ls /\ StronglySorted ordered ls.

(** [p] lies within [ov] and has its owner. *)
Definition within (ov p : lockf) : Prop :=
  lf_id p = lf_id ov /\ lf_start ov <= lf_start p /\
  (lf_end ov <> -1 -> lf_end p <> -1 /\ lf_end p <= lf_end ov).

Lemma ordered_app A B :
  StronglySorted ordered (A ++ B) <->
  (forall a b, a ∈ A -> b ∈ B -> ordered a b) /\
  StronglySorted ordered A /\ StronglySorted ordered B.
Proof. apply StronglySorted_app. Qed.

Lemma sorted_one l : StronglySorted ordered [l].
Proof. repeat constructor. Qed.

(** Pieces of a lock can take its place. *)
Lemma sorted_replace A ov P B :
  StronglySorted ordered (A ++ ov :: B) -> StronglySorted ordered P ->
  (forall p, p ∈ P -> within ov p) -> StronglySorted ordered (A ++ P ++ B).
Proof.
  intros H HP Hw. apply ordered_app in H as (HAB & HA & HB).
  apply StronglySorted_cons in HB as [Hov HB]. rewrite Forall_forall in Hov.
  assert (HAp : forall a p, a ∈ A -> p ∈ P -> ordered a p).
  { intros a p Ha Hp Hid. destruct (Hw p Hp) as (Hi & ? & ?).
    destruct (HAB a ov Ha) as [? ?]; [set_solver|congruence|]. split; lia. }
  assert (HpB : forall p b, p ∈ P -> b ∈ B -> ordered p b).
  { intros p b Hp Hb Hid. destruct (Hw p Hp) as (Hi & ? & ?).
    destruct (Hov b Hb) as [? ?]; [congruence|]. split; lia. }
  rewrite !ordered_app. split_and!; try done.
  intros a b Ha Hb. apply elem_of_app in Hb as [?|?]; [by auto|].
  apply HAB; [done|set_solver].
Qed.

Lemma sorted_insert A lock B :
  StronglySorted ordered (A ++ B) ->
  (forall a, a ∈ A -> ordered a lock) -> (forall b, b ∈ B -> ordered lock b) ->
  StronglySorted ordered (A ++ lock :: B).
Proof.
  intros H HA HB. apply ordered_app in H as (HAB & ? & ?).
  rewrite ordered_app, StronglySorted_cons, Forall_forall. split_and!; try done.
  intros a b Ha Hb. apply elem_of_cons in Hb as [->|?]; auto.
Qed.

(** ** The map that a list represents *)

Definition owns1 (l : lockf) (i x t : Z) : Prop :=
  lf_id l = i /\ covers l x = true /\ lf_type l = t.

Definition owns (ls : list lockf) (i x t : Z) : Prop := exists l, l ∈ ls /\ owns1 l i x t.

(** Owner [i] and offset [x] are those of [lock]. *)
Definition target (lock : lockf) (i x : Z) : Prop := lf_id lock = i /\ covers lock x = true.

#[global] Instance target_dec lock i x : Decision (target lock i x).
Proof. unfold target. apply _. Defined.

#[global] Instance owns_proper : Proper ((≡ₚ) ==> eq ==> eq ==> eq ==> iff) owns.
Proof. intros A B H i ? <- x ? <- t ? <-. unfold owns. by setoid_rewrite H. Qed.

Lemma owns_nil i x t : owns [] i x t <-> False.
Proof. unfold owns. split; [|done]. intros (? & ? & _). set_solver. Qed.

Lemma owns_cons l ls i x t : owns (l :: ls) i x t <-> owns1 l i x t \/ owns ls i x t.
Proof. unfold owns. set_solver. Qed.

Lemma owns_app A B i x t : owns (A ++ B) i x t <-> owns A i x t \/ owns B i x t.
Proof. unfold owns. set_solver. Qed.

Lemma holds_owns ls i x t : wf ls -> holds ls i x = Some t <-> owns ls i x t.
Proof.
  intros [_ Hs]. induction ls as [|l ls IH]; [by rewrite owns_nil|].
  apply StronglySorted_cons in Hs as [Hl Hs]. rewrite Forall_forall in Hl.
  cbn [holds]. rewrite owns_cons, <- IH by done. unfold owns1.
  destruct ((lf_id l =? i) && covers l x) eqn:E.
  - apply andb_true_iff in E as [Hi Hc]. apply Z.eqb_eq in Hi.
    split; [naive_solver|]. intros [(? & ? & ?)|H]; [congruence|]. exfalso.
    apply IH in H as (l' & Hl' & Hi' & Hc' & _); [|done].
    destruct (Hl l' Hl') as [? ?]; [congruence|].
    apply covers_iff in Hc, Hc'. lia.
  - split; [by right|]. intros [(Hi & Hc & _)|?]; [|done].
    rewrite Hc, andb_true_r in E. apply Z.eqb_neq in E. congruence.
Qed.

(** [B] is what is left of [A] when the range of [lock] is taken out. *)
Definition cleared (lock : lockf) (A B : list lockf) : Prop :=
  forall i x t, owns B i x t <-> owns A i x t /\ ~ target lock i x.

(** [B] is [A] with the range of [lock] set to its type. *)
Definition placed (lock : lockf) (A B : list lockf) : Prop :=
  forall i x t, owns B i x t <->
    (target lock i x /\ t = lf_type lock) \/ (owns A i x t /\ ~ target lock i x).

Lemma cleared_app lock A A' B B' :
  cleared lock A A' -> cleared lock B B' -> cleared lock (A ++ B) (A' ++ B').
Proof. intros HA HB i x t. rewrite !owns_app, (HA i x t), (HB i x t). tauto. Qed.

Lemma cleared_cons lock l A' B B' :
  cleared lock [l] A' -> cleared lock B B' -> cleared lock (l :: B) (A' ++ B').
Proof. apply (cleared_app lock [l]). Qed.

Lemma cleared_trans lock A B C : cleared lock A B -> cleared lock B C -> cleared lock A C.
Proof. intros HA HB i x t. rewrite (HB i x t), (HA i x t). tauto. Qed.

Lemma placed_intro lock A B C :
  cleared lock A B -> (forall i x t, owns C i x t <-> owns (lock :: B) i x t) -> placed lock A C.
Proof.
  intros HA HC i x t. rewrite HC, owns_cons, (HA i x t). unfold owns1, target.
  split; intros [?|?]; naive_solver.
Qed.

(** [l] does not meet [lock], if it has its owner. *)
Definition apart (lock l : lockf) : Prop :=
  lf_id l = lf_id lock -> before l lock \/ before lock l.

Lemma cleared_apart lock A : (forall l, l ∈ A -> apart lock l) -> cleared lock A A.
Proof.
  intros H i x t. split; [|tauto]. intros (l & Hl & Hi & Hc & Ht). split.
  { by exists l. }
  intros [Hi' Hc']. apply covers_iff in Hc, Hc'.
  destruct (H l Hl) as [[? ?]|[? ?]]; [congruence|lia|lia].
Qed.

(** ** The search for overlaps *)

(** The result of a search among the locks of the owner of [lock]. *)
Record found_self (lock : lockf) (ls : list lockf) (c : Z) (skip rest : list lockf) : Prop := {
  fs_split : ls = skip ++ rest;
  fs_skip : forall l, l ∈ skip -> lf_id l = lf_id lock -> before l lock;
  fs_none : c = 0 -> forall l, l ∈ rest -> lf_id l = lf_id lock -> before lock l;
  fs_some : c <> 0 -> exists ov next, rest = ov :: next /\ lf_id ov = lf_id lock /\ ov_spec ov lock c;
}.

Lemma findoverlap_self ls lock :
  wf ls -> range_ok lock ->
  exists c skip rest, lf_findoverlap ls lock SELF = Ok (c, skip, rest) /\
    found_self lock ls c skip rest.
Proof.
  intros [Hr Hs] Hlock. induction ls as [|l ls IH]; cbn [lf_findoverlap].
  { exists 0, [], []. split; [done|]. split; [done|set_solver..|done]. }
  apply Forall_cons in Hr as [Hl Hr]. apply StronglySorted_cons in Hs as [Ho Hs].
  destruct (IH Hr Hs) as (c & skip & rest & Heq & [Hsp Hsk Hn Hso]). rewrite Heq. cbn.
  change (has SELF SELF) with true. change (has SELF OTHERS) with false. cbn [andb orb].
  rewrite orb_false_r. destruct (lf_id l =? lf_id lock) eqn:Hid; cbn [negb andb].
  2: { apply Z.eqb_neq in Hid. exists c, (l :: skip), rest. split; [done|].
       split; [by rewrite Hsp| |done|done].
       intros l' [->|?]%elem_of_cons; [done|by auto]. }
  apply Z.eqb_eq in Hid. pose proof (ovcase_spec l lock Hl Hlock) as Hov.
  destruct (ovcase l lock =? 0) eqn:Hc.
  - apply Z.eqb_eq in Hc. rewrite Hc in Hov. inversion Hov as [Hno| | | | | ]; subst.
    destruct (negb (lf_end lock =? -1) && (lf_end lock <? lf_start l)) eqn:E; zify_bool.
    + exists 0, [], (l :: skip ++ rest). split; [done|]. split; [done|set_solver| |done].
      intros _ l' [->|Hl']%elem_of_cons Hi; [done|]. rewrite Forall_forall in Ho.
      destruct (Ho l' Hl') as [? ?]; [congruence|]. destruct Hl as [? ?]. split; lia.
    + exists c, (l :: skip), rest. split; [done|]. split; [done| |done|done].
      intros l' [->|?]%elem_of_cons; [intros _|by auto].
      unfold overlaps in Hno. unfold before. destruct Hl as [? ?], Hlock as [? ?].
      destruct E; zify_bool; lia.
  - pose proof (ov_spec_range _ _ _ Hov). zify_bool.
    replace (ovcase l lock =? -1) with false by (symmetry; apply Z.eqb_neq; lia).
    exists (ovcase l lock), [], (l :: ls). split; [done|].
    split; [done|set_solver|lia|]. intros _. by exists l, ls.
Qed.

(** ... and among those of others. *)
Record found_others (lock : lockf) (ls : list lockf) (c : Z) (skip rest : list lockf) : Prop := {
  fo_split : ls = skip ++ rest;
  fo_skip : forall l, l ∈ skip -> lf_id l = lf_id lock \/ ~ overlaps l lock;
  fo_none : c = 0 -> rest = [];
  fo_some : c <> 0 -> exists ov next, rest = ov :: next /\ lf_id ov <> lf_id lock /\ overlaps ov lock;
}.

Lemma findoverlap_others ls lock :
  Forall range_ok ls -> range_ok lock ->
  exists c skip rest, lf_findoverlap ls lock OTHERS = Ok (c, skip, rest) /\
    found_others lock ls c skip rest.
Proof.
  intros Hr Hlock. induction ls as [|l ls IH]; cbn [lf_findoverlap].
  { exists 0, [], []. split; [done|]. split; [done|set_solver|done..]. }
  apply Forall_cons in Hr as [Hl Hr].
  destruct (IH Hr) as (c & skip & rest & Heq & [Hsp Hsk Hn Hso]). rewrite Heq. cbn.
  change (has OTHERS SELF) with false. change (has OTHERS OTHERS) with true. cbn [andb orb].
  pose proof (ovcase_spec l lock Hl Hlock) as Hov.
  destruct (lf_id l =? lf_id lock) eqn:Hid; zify_bool.
  { exists c, (l :: skip), rest. split; [done|]. split; [by rewrite Hsp| |done|done].
    intros l' [->|?]%elem_of_cons; [by left|by auto]. }
  destruct (ovcase l lock =? 0) eqn:Hc; zify_bool.
  - rewrite Hc in Hov. inversion Hov; subst.
    exists c, (l :: skip), rest. split; [done|]. split; [done| |done|done].
    intros l' [->|?]%elem_of_cons; [by right|by auto].
  - pose proof (ov_spec_range _ _ _ Hov).
    replace (ovcase l lock =? -1) with false by (symmetry; apply Z.eqb_neq; lia).
    exists (ovcase l lock), [], (l :: ls). split; [done|].
    split; [done|set_solver|lia|]. intros _. exists l, ls.
    split_and!; [done|done|]. by eapply ov_spec_overlaps.
Qed.

(** [lf_getblock] finds the first lock of the list that blocks the request. *)
Lemma lf_getblock_find ls lock :
  Forall range_ok ls -> range_ok lock ->
  lf_getblock ls lock = Ok (List.find (blocksb lock) ls).
Proof.
  intros Hr Hlock. unfold lf_getblock.
  cut (forall fuel, (length ls < fuel)%nat ->
    getblock_loop fuel ls lock = Ok (List.find (blocksb lock) ls)); [intros H; apply H; lia|].
  induction ls as [ls IH] using (induction_ltof1 _ (@length lockf)). unfold ltof in IH.
  intros [|fuel] Hf; [lia|]. cbn [getblock_loop].
  destruct (findoverlap_others ls lock Hr Hlock) as (c & skip & rest & -> & [-> Hsk Hn Hso]).
  cbn [mbind outcome_bind].
  assert (Hskip : forall tl, List.find (blocksb lock) (skip ++ tl) = List.find (blocksb lock) tl).
  { intros tl. clear IH Hr Hf. induction skip as [|l skip IHs]; [done|]. cbn.
    destruct (blocksb lock l) eqn:E; [|apply IHs; set_solver].
    apply blocksb_iff in E as (? & ? & ?). destruct (Hsk l); [set_solver|done|done]. }
  rewrite Hskip. destruct (c =? 0) eqn:Hc; zify_bool.
  { by rewrite (Hn Hc). }
  destruct (Hso Hc) as (ov & next & -> & Hid & Hov). cbn [List.find].
  assert (Hb : blocksb lock ov = ((lf_type lock =? F_WRLCK) || (lf_type ov =? F_WRLCK))).
  { apply eq_true_iff_eq. rewrite blocksb_iff, orb_true_iff, !Z.eqb_eq. unfold blocks. tauto. }
  rewrite Hb. case_match; [done|]. apply IH.
  - rewrite length_app. cbn. lia.
  - apply Forall_app in Hr as [_ Hr]. by apply Forall_cons in Hr as [_ Hr].
  - rewrite length_app in Hf. cbn in Hf. lia.
Qed.

(** ** Waiters and counts *)

Definition uid_count (u : Z) (ls : list lockf) : Z :=
  Z.of_nat (length (filter (fun l => lf_uid l = u) ls)).

(** The locks of the requests that sleep. *)
Definition waiting (e : env) : list lockf := rq_lock ∘ snd <$> map_to_list (requests e).

(** The locks [L] that exist outside of sleeping requests, the requests and the
    counts agree: a waiter stands in the list of the lock that its [lf_next]
    names and that lock blocks it, a request that sleeps has a [lf_next], and
    the count of a user is the number of his locks ([other] of them on other
    files). *)
Record linked (other : Z -> Z) (e : env) (L : list lockf) : Prop := {
  lk_nodup : NoDup (lf_addr <$> L);
  lk_request : forall a r, requests e !! a = Some r ->
    (a ∉ (lf_addr <$> L)) /\ lf_addr (rq_lock r) = a /\ range_ok (rq_lock r) /\
    type_ok (rq_lock r) /\ lf_blkhd (rq_lock r) = [];
  lk_blkhd : forall l, l ∈ L -> NoDup (lf_blkhd l) /\
    forall a, a ∈ lf_blkhd l -> exists r,
      requests e !! a = Some r /\ rq_next r = Some (lf_addr l) /\ blocks l (rq_lock r);
  lk_next : forall a r b, requests e !! a = Some r -> rq_next r = Some b ->
    exists l, l ∈ L /\ lf_addr l = b /\ a ∈ lf_blkhd l;
  lk_asleep : forall a r, requests e !! a = Some r -> rq_asleep r = true -> is_Some (rq_next r);
  lk_count : forall u, lockcnt e u = other u + uid_count u L + uid_count u (waiting e);
}.

#[global] Instance uid_count_proper u : Proper ((≡ₚ) ==> eq) (uid_count u).
Proof. intros A B H. unfold uid_count. by rewrite H. Qed.

#[global] Instance linked_proper other e : Proper ((≡ₚ) ==> iff) (linked other e).
Proof.
  cut (forall A B, A ≡ₚ B -> linked other e A -> linked other e B).
  { intros H A B HAB. split; apply H; [done|by symmetry]. }
  intros A B HAB [H1 H2 H3 H4 H5 H6]. split; try done.
  - by rewrite <- HAB.
  - intros a r Hr. rewrite <- HAB. by apply H2.
  - intros l. rewrite <- HAB. apply H3.
  - intros a r b. setoid_rewrite <- HAB. apply H4.
  - intros u. rewrite <- HAB. apply H6.
Qed.

Lemma uid_count_cons u l ls :
  uid_count u (l :: ls) = (if decide (lf_uid l = u) then 1 else 0) + uid_count u ls.
Proof.
  unfold uid_count. rewrite filter_cons. by case_decide; cbn [length]; lia.
Qed.

Lemma lockcnt_count e uid d u :
  lockcnt (lf_count e uid d) u = lockcnt e u + (if decide (uid = u) then d else 0).
Proof.
  unfold lockcnt at 1, lf_count. cbn. case_decide as Hu.
  - subst. by rewrite lookup_insert_eq.
  - rewrite lookup_insert_ne by done. unfold lockcnt. lia.
Qed.

(** Changing [lf_next] and the state of requests keeps their locks. *)
Lemma waiting_alter f a e :
  (forall r, rq_lock (f r) = rq_lock r) -> waiting (on_request f a e) ≡ₚ waiting e.
Proof.
  intros Hf. unfold waiting, on_request. cbn.
  destruct (requests e !! a) as [r|] eqn:Hr.
  - rewrite <- (insert_delete_id (requests e) a r) at 2 by done.
    rewrite <- (insert_delete_id (requests e) a r) at 1 by done.
    rewrite alter_insert_eq, !map_to_list_insert by apply lookup_delete_eq.
    cbn. by rewrite Hf.
  - by rewrite alter_id by congruence.
Qed.

(** What [wake_all] and [move_all] do to the requests. *)
Lemma wake_all_requests blk e a :
  requests (wake_all e blk) !! a =
    (if decide (a ∈ blk) then rq_wake <$> requests e !! a else requests e !! a).
Proof.
  revert e. induction blk as [|b blk IH]; intros e; cbn [wake_all].
  { case_decide; [set_solver|done]. }
  rewrite IH. unfold on_request. cbn [requests].
  destruct (decide (a = b)) as [->|Hab].
  - rewrite lookup_alter_eq. rewrite (decide_True (P := b ∈ b :: blk)) by set_solver.
    case_decide; [|done]. by destruct (requests e !! b).
  - rewrite lookup_alter_ne by congruence.
    by destruct (decide (a ∈ blk)), (decide (a ∈ b :: blk)); set_solver.
Qed.

Lemma wake_all_keeps blk e :
  ui_lockcnt (wake_all e blk) = ui_lockcnt e /\ waiting (wake_all e blk) ≡ₚ waiting e.
Proof.
  revert e. induction blk as [|b blk IH]; intros e; cbn [wake_all]; [done|].
  destruct (IH (on_request rq_wake b e)) as [-> ->].
  split; [done|by apply waiting_alter].
Qed.

Lemma move_all_requests blk e lock a :
  requests (move_all e blk lock).1 !! a =
    (if decide (a ∈ blk) then rq_moves (lf_addr lock) <$> requests e !! a else requests e !! a).
Proof.
  revert e lock. induction blk as [|b blk IH]; intros e lock; cbn [move_all].
  { case_decide; [set_solver|done]. }
  rewrite IH. cbn [lf_addr set_blkhd]. unfold on_request. cbn [requests].
  destruct (decide (a = b)) as [->|Hab].
  - rewrite lookup_alter_eq. rewrite (decide_True (P := b ∈ b :: blk)) by set_solver.
    case_decide; [|done]. by destruct (requests e !! b).
  - rewrite lookup_alter_ne by congruence.
    by destruct (decide (a ∈ blk)), (decide (a ∈ b :: blk)); set_solver.
Qed.

Lemma move_all_keeps blk e lock :
  let '(e', lock') := move_all e blk lock in
  ui_lockcnt e' = ui_lockcnt e /\ waiting e' ≡ₚ waiting e /\
  lock' = set_blkhd lock (lf_blkhd lock ++ blk).
Proof.
  revert e lock. induction blk as [|b blk IH]; intros e lock; cbn [move_all].
  { rewrite app_nil_r. by destruct lock. }
  specialize (IH (on_request (rq_moves (lf_addr lock)) b e) (set_blkhd lock (lf_blkhd lock ++ [b]))).
  destruct (move_all _ _ _) as [e' lock']. destruct IH as (-> & -> & ->). split_and!; [done| |].
  - by apply waiting_alter.
  - cbn. by rewrite <- app_assoc.
Qed.

(** The steps that the operations are made of. *)

Section linked_steps.
Context (other : Z -> Z).

(** A lock whose waiters are woken may change or lose its range. *)
Lemma linked_wake e ov ov' L :
  linked other e (ov :: L) -> lf_addr ov' = lf_addr ov -> lf_uid ov' = lf_uid ov ->
  lf_blkhd ov' = [] -> linked other (wake_all e (lf_blkhd ov)) (ov' :: L).
Proof.
  intros [H1 H2 H3 H4 H5 H6] Ha Hu Hb.
  assert (Hreq : forall a r, requests (wake_all e (lf_blkhd ov)) !! a = Some r ->
    exists r0, requests e !! a = Some r0 /\ rq_lock r = rq_lock r0 /\
      (r = r0 /\ a ∉ lf_blkhd ov \/ rq_next r = None /\ rq_asleep r = false)).
  { intros a r. rewrite wake_all_requests. case_decide; [|naive_solver].
    intros (r0 & -> & Hr0)%fmap_Some. naive_solver. }
  split.
  - cbn in *. by rewrite Ha.
  - intros a r (r0 & Hr0 & Hl & _)%Hreq. cbn in *. rewrite Ha, Hl. by apply H2.
  - intros l [->|Hl]%elem_of_cons; [rewrite Hb; split; [constructor|set_solver]|].
    destruct (H3 l) as [Hnd Hin]; [set_solver|]. split; [done|]. intros a Hal.
    destruct (Hin a Hal) as (r & Hr & Hn & Hbl). exists r. split; [|done].
    rewrite wake_all_requests. case_decide as Hov; [|done]. exfalso.
    destruct (H3 ov) as [_ Hin']; [set_solver|].
    destruct (Hin' a Hov) as (r' & Hr' & Hn' & _).
    assert (lf_addr ov = lf_addr l) as Heq by congruence.
    cbn in H1. apply NoDup_cons in H1 as [H1 _]. apply H1. rewrite Heq.
    by apply list_elem_of_fmap_2.
  - intros a r b (r0 & Hr0 & Hl & [[-> Hni]|[? _]])%Hreq Hn; [|congruence].
    destruct (H4 a r0 b Hr0 Hn) as (l & [->|Hl']%elem_of_cons & Hab & Hal); [done|].
    exists l. set_solver.
  - intros a r (r0 & Hr0 & Hl & [[-> Hni]|[? ?]])%Hreq Has; [by eapply H5|congruence].
  - intros u. destruct (wake_all_keeps (lf_blkhd ov) e) as [Hc Hw].
    unfold lockcnt. rewrite Hc, Hw. fold (lockcnt e u). rewrite H6, !uid_count_cons, Hu. done.
Qed.

(** A lock keeps its waiters if it still blocks them. *)
Lemma linked_change e ov ov' L :
  linked other e (ov :: L) -> lf_addr ov' = lf_addr ov -> lf_uid ov' = lf_uid ov ->
  lf_blkhd ov' = lf_blkhd ov ->
  lf_blkhd ov = [] \/ (forall r, blocks ov r -> blocks ov' r) ->
  linked other e (ov' :: L).
Proof.
  intros [H1 H2 H3 H4 H5 H6] Ha Hu Hb Hbl. split; cbn in *; rewrite ?Ha; try done.
  - intros l [->|Hl]%elem_of_cons; [|apply H3; set_solver]. rewrite Hb.
    destruct (H3 ov) as [Hnd Hin]; [set_solver|]. split; [done|]. intros a Hav.
    destruct (Hin a Hav) as (r & Hr & Hn & Hr'). exists r. rewrite Ha.
    split_and!; [done|done|]. destruct Hbl as [Hnil|Hbl]; [|by auto].
    rewrite Hnil in Hav. set_solver.
  - intros a r b Hr Hn. destruct (H4 a r b Hr Hn) as (l & [->|Hl]%elem_of_cons & Hab & Hal).
    + exists ov'. rewrite Hb, Ha. set_solver.
    + exists l. set_solver.
  - intros u. rewrite H6, !uid_count_cons, Hu. done.
Qed.

Lemma linked_free e l L :
  linked other e (l :: L) -> lf_blkhd l = [] -> linked other (lf_free e l) L.
Proof.
  intros [H1 H2 H3 H4 H5 H6] Hb. cbn in H1. apply NoDup_cons in H1 as [_ H1].
  split; try done.
  - intros a r Hr. destruct (H2 a r Hr) as (Hn & ?). cbn in Hn. set_solver.
  - intros l' Hl'. apply H3. set_solver.
  - intros a r b Hr Hn. destruct (H4 a r b Hr Hn) as (l' & [->|Hl']%elem_of_cons & Hab & Hal).
    + rewrite Hb in Hal. set_solver.
    + by exists l'.
  - intros u. unfold lf_free. rewrite lockcnt_count, H6, uid_count_cons.
    cbn [lf_count]. change (waiting (lf_count _ _ _)) with (waiting e). case_decide; lia.
Qed.

Lemma linked_alloc e l L :
  linked other e L -> lf_blkhd l = [] -> lf_addr l ∉ (lf_addr <$> L) ->
  requests e !! lf_addr l = None -> linked other (lf_count e (lf_uid l) 1) (l :: L).
Proof.
  intros [H1 H2 H3 H4 H5 H6] Hb Hl Hr. split; try done.
  - cbn. by constructor.
  - intros a r Har. cbn in *. destruct (H2 a r Har) as (Hn & Hrest). split; [|done].
    intros [->|?]%elem_of_cons; [congruence|done].
  - intros l' [->|Hl']%elem_of_cons; [rewrite Hb; split; [constructor|set_solver]|by apply H3].
  - intros a r b Har Hn. destruct (H4 a r b Har Hn) as (l' & ? & ? & ?). exists l'. set_solver.
  - intros u. rewrite lockcnt_count, H6, uid_count_cons.
    change (waiting (lf_count _ _ _)) with (waiting e). case_decide; lia.
Qed.

(** The waiters of [ov] move to [lock], which blocks all of them. *)
Lemma linked_move e ov lock L e' lock' :
  linked other e (ov :: lock :: L) -> (forall r, blocks ov r -> blocks lock r) ->
  move_all e (lf_blkhd ov) lock = (e', lock') ->
  linked other e' (set_blkhd ov [] :: lock' :: L).
Proof.
  intros [H1 H2 H3 H4 H5 H6] Hbl Hm.
  pose proof (move_all_keeps (lf_blkhd ov) e lock) as Hk. rewrite Hm in Hk.
  destruct Hk as (Hc & Hw & ->).
  assert (He' : forall a, requests e' !! a = (if decide (a ∈ lf_blkhd ov)
    then rq_moves (lf_addr lock) <$> requests e !! a else requests e !! a)).
  { intros a. by rewrite <- move_all_requests, Hm. }
  assert (Hreq : forall a r, requests e' !! a = Some r -> exists r0, requests e !! a = Some r0 /\
    rq_lock r = rq_lock r0 /\ (r = r0 /\ a ∉ lf_blkhd ov \/
    a ∈ lf_blkhd ov /\ rq_next r = Some (lf_addr lock))).
  { intros a r. rewrite He'. case_decide; [|naive_solver].
    intros (r0 & -> & ?)%fmap_Some. naive_solver. }
  assert (Hdisj : forall l a, l ∈ lock :: L -> a ∈ lf_blkhd l -> a ∉ lf_blkhd ov).
  { intros l a Hl Hal Hao. destruct (H3 l) as [_ Hin]; [set_solver|].
    destruct (Hin a Hal) as (r & Hr & Hn & _). destruct (H3 ov) as [_ Hin']; [set_solver|].
    destruct (Hin' a Hao) as (r' & Hr' & Hn' & _).
    assert (lf_addr ov = lf_addr l) as Heq by congruence.
    cbn in H1. apply NoDup_cons in H1 as [H1 _]. apply H1. rewrite Heq.
    by apply (list_elem_of_fmap_2 lf_addr (lock :: L)). }
  split.
  - done.
  - intros a r (r0 & Hr0 & Hl & _)%Hreq. rewrite Hl. by apply H2.
  - destruct (H3 ov) as [Hndo Hino]; [set_solver|]. destruct (H3 lock) as [Hndl Hinl]; [set_solver|].
    intros l [->|[->|Hl]%elem_of_cons]%elem_of_cons; cbn [lf_blkhd lf_addr set_blkhd].
    + split; [constructor|set_solver].
    + split; [apply NoDup_app; split_and!; try done; intros a Ha; by apply (Hdisj lock); [set_solver|]|].
      intros a [Ha|Ha]%elem_of_app; rewrite He'.
      * rewrite decide_False by (eapply Hdisj; [|done]; set_solver). by apply Hinl.
      * rewrite decide_True by done. destruct (Hino a Ha) as (r & -> & _ & Hb). cbn.
        eexists. split; [done|]. cbn. split; [done|]. by apply Hbl.
    + destruct (H3 l) as [Hnd Hin]; [set_solver|]. split; [done|]. intros a Ha.
      rewrite He', decide_False by (eapply Hdisj; [|done]; set_solver). by apply Hin.
  - intros a r b (r0 & Hr0 & Hl & [[-> Hni]|[Hi Hn']])%Hreq Hn.
    + destruct (H4 a r0 b Hr0 Hn) as (l & [->|[->|Hl']%elem_of_cons]%elem_of_cons & Hab & Hal); [done| |].
      * eexists. split; [right; left|]. cbn. set_solver.
      * exists l. set_solver.
    + eexists. split; [right; left|]. cbn. split; [congruence|set_solver].
  - intros a r (r0 & Hr0 & Hl & [[-> Hni]|[? Hn]])%Hreq Has; [by eapply H5|by rewrite Hn].
  - intros u. unfold lockcnt. rewrite Hc, Hw. fold (lockcnt e u). rewrite H6, !uid_count_cons. done.
Qed.

End linked_steps.

(** ** Pieces of a lock *)

Lemma s64_small x : - 2 ^ 63 <= x < 2 ^ 63 -> wraps 64 x = x.
Proof. intros. by apply wraps_small. Qed.

(** Solve a [cleared] goal on the pieces of one lock. *)
Ltac solve_piece :=
  unfold range_ok in *;
  intros i x t; rewrite ?owns_cons, ?owns_nil; unfold owns1, target; rewrite ?covers_iff; cbn;
  rewrite ?s64_small by lia; lia.

Lemma piece_gone ov lock c :
  range_ok ov -> range_ok lock -> lf_id ov = lf_id lock ->
  ov_spec ov lock c -> c = 1 \/ c = 3 -> cleared lock [ov] [].
Proof. intros ? ? ? Hov Hc. destruct Hov; try lia; solve_piece. Qed.

(** The part of [ov] before [lock]. *)
Lemma piece_head ov lock b :
  range_ok ov -> range_ok lock -> lf_id ov = lf_id lock -> lf_start ov < lf_start lock ->
  lf_end ov = -1 \/ lf_start lock <= lf_end ov ->
  lf_end lock = -1 \/ (lf_end ov <> -1 /\ lf_end ov <= lf_end lock) ->
  cleared lock [ov] [set_blkhd (set_end ov (wraps 64 (lf_start lock - 1))) b].
Proof. intros. solve_piece. Qed.

(** The part of [ov] after [lock]. *)
Lemma piece_tail ov lock b :
  range_ok ov -> range_ok lock -> lf_id ov = lf_id lock -> lf_start lock <= lf_start ov ->
  lf_end lock <> -1 -> lf_start ov <= lf_end lock ->
  lf_end ov = -1 \/ lf_end lock < lf_end ov ->
  cleared lock [ov] [set_blkhd (set_start ov (wraps 64 (lf_end lock + 1))) b].
Proof. intros. solve_piece. Qed.

Lemma piece_both ov lock b l2 :
  range_ok ov -> range_ok lock -> lf_id ov = lf_id lock -> lf_start ov < lf_start lock ->
  lf_end lock <> -1 -> lf_end ov = -1 \/ lf_end lock < lf_end ov ->
  lf_id l2 = lf_id ov -> lf_type l2 = lf_type ov -> lf_start l2 = wraps 64 (lf_end lock + 1) ->
  lf_end l2 = lf_end ov ->
  cleared lock [ov] [set_blkhd (set_end ov (wraps 64 (lf_start lock - 1))) b; l2].
Proof.
  intros ? ? ? ? ? ? Hi Ht Hs He. unfold range_ok in *.
  intros i x t. rewrite !owns_cons, owns_nil. unfold owns1, target. rewrite !covers_iff.
  cbn. rewrite Hi, Ht, Hs, He, !s64_small by lia. lia.
Qed.

Lemma cleared_step lock A ov P B C :
  cleared lock [ov] P -> cleared lock (A ++ P ++ B) C -> cleared lock (A ++ ov :: B) C.
Proof.
  intros HP HC i x t. rewrite (HC i x t). specialize (HP i x t).
  rewrite owns_cons, owns_nil in HP.
  rewrite !owns_app, owns_cons, HP. tauto.
Qed.

(** Piece [p] can stand for a part of [ov] that does not meet [lock]. *)
Definition piece_ok (ov lock p : lockf) : Prop :=
  lf_type p = lf_type ov /\ within ov p /\ range_ok p /\ apart lock p.

Definition head_of (ov lock : lockf) : lockf :=
  set_blkhd (set_end ov (wraps 64 (lf_start lock - 1))) [].
Definition tail_of (ov lock : lockf) : lockf :=
  set_blkhd (set_start ov (wraps 64 (lf_end lock + 1))) [].
Definition split_of (ov lock : lockf) (sa : Z) : lockf :=
  Lock sa (lf_flags ov) (lf_type ov) (wraps 64 (lf_end lock + 1))
       (lf_end ov) (lf_id ov) (lf_uid ov) (lf_pid ov) [].

Lemma head_ok ov lock :
  range_ok ov -> range_ok lock -> lf_start ov < lf_start lock ->
  lf_end ov = -1 \/ lf_start lock <= lf_end ov ->
  piece_ok ov lock (head_of ov lock) /\ before (head_of ov lock) lock.
Proof.
  unfold piece_ok, range_ok, within, apart, before. cbn. intros. rewrite s64_small by lia. lia.
Qed.

Lemma tail_ok ov lock :
  range_ok ov -> range_ok lock -> lf_end lock <> -1 -> lf_start ov <= lf_end lock ->
  lf_end ov = -1 \/ lf_end lock < lf_end ov ->
  piece_ok ov lock (tail_of ov lock) /\ before lock (tail_of ov lock).
Proof.
  unfold piece_ok, range_ok, within, apart, before. cbn. intros. rewrite s64_small by lia. lia.
Qed.

Lemma split_ok ov lock sa :
  range_ok ov -> range_ok lock -> lf_end lock <> -1 -> lf_start ov <= lf_end lock ->
  lf_end ov = -1 \/ lf_end lock < lf_end ov ->
  piece_ok ov lock (split_of ov lock sa) /\ before lock (split_of ov lock sa).
Proof. apply tail_ok. Qed.

(** What follows an overlap that reaches as far as [lock] does not meet [lock]. *)
Lemma overlap_last ov lock c l :
  range_ok lock -> ov_spec ov lock c -> c = 1 \/ c = 2 \/ c = 5 -> before ov l -> before lock l.
Proof. unfold range_ok, before. intros ? Hov Hc. destruct Hov; lia. Qed.

(** The locks that follow [ov] and have its owner come after it. *)
Lemma wf_next A ov B l :
  wf (A ++ ov :: B) -> l ∈ B -> lf_id l = lf_id ov -> before ov l.
Proof.
  intros [_ Hs] Hl Hid. apply ordered_app in Hs as (_ & _ & Hs).
  apply StronglySorted_cons in Hs as [Ho _]. rewrite Forall_forall in Ho.
  by apply (Ho l Hl).
Qed.

Lemma wf_replace A ov P B :
  wf (A ++ ov :: B) -> StronglySorted ordered P ->
  (forall p, p ∈ P -> within ov p /\ range_ok p) -> wf (A ++ P ++ B).
Proof.
  intros [Hr Hs] HP Hw. split.
  - rewrite !Forall_app in *. destruct Hr as (? & [_ ?]%Forall_cons).
    split_and!; [done| |done]. apply Forall_forall. intros p Hp. by apply Hw.
  - eapply sorted_replace; [done|done|]. intros p Hp. by apply Hw.
Qed.

Lemma wf_range A ov B : wf (A ++ ov :: B) -> range_ok ov.
Proof. intros [Hr _]. by apply Forall_app in Hr as [_ [? _]%Forall_cons]. Qed.

(** ** Removing a lock *)

(** The effect of taking the range of [lock] out of [ls]; [extra] are locks
    that exist but are not in the list. *)
Record clear_done (other : Z -> Z) (extra : list lockf) (lock : lockf)
    (e : env) (ls : list lockf) (e' : env) (ls' : list lockf) : Prop := {
  cd_wf : wf ls';
  cd_types : Forall type_ok ls -> Forall type_ok ls';
  cd_cleared : cleared lock ls ls';
  cd_linked : linked other e' (extra ++ ls');
  cd_others : forall l, l ∈ ls -> lf_id l <> lf_id lock -> l ∈ ls';
  cd_requests : dom (requests e') = dom (requests e);
}.

Lemma wake_all_dom e blk : dom (requests (wake_all e blk)) = dom (requests e).
Proof.
  apply set_eq. intros a. rewrite !elem_of_dom, wake_all_requests.
  case_decide; [|done]. by rewrite fmap_is_Some.
Qed.

(** The lock [ov] becomes the pieces [P], and the rest is done from there. *)
Lemma clear_done_step other extra lock e A ov P B e1 e' ls' :
  lf_id ov = lf_id lock -> cleared lock [ov] P ->
  (forall p, p ∈ P -> lf_type p = lf_type ov) ->
  dom (requests e1) = dom (requests e) ->
  clear_done other extra lock e1 (A ++ P ++ B) e' ls' ->
  clear_done other extra lock e (A ++ ov :: B) e' ls'.
Proof.
  intros Hid Hc Ht Hd [H1 H2 H3 H4 H5 H6]. split; try done.
  - intros (HA & HB)%Forall_app. apply Forall_cons in HB as [Hov HB].
    apply H2. rewrite !Forall_app. split_and!; [done| |done].
    apply Forall_forall. intros p Hp. unfold type_ok. by rewrite (Ht p Hp).
  - by eapply cleared_step.
  - intros l Hl Hn. apply H5; [|done].
    apply elem_of_app in Hl as [?|[->|?]%elem_of_cons]; [set_solver|done|set_solver].
  - congruence.
Qed.

Lemma clear_done_refl other extra lock e ls :
  wf ls -> (forall l, l ∈ ls -> apart lock l) -> linked other e (extra ++ ls) ->
  clear_done other extra lock e ls e ls.
Proof. intros. split; try done. by apply cleared_apart. Qed.

(** ... where [ov] is the last lock that overlaps. *)
Lemma clear_done_last other extra lock e A ov P B c e' :
  wf (A ++ ov :: B) -> range_ok lock -> lf_id ov = lf_id lock ->
  ov_spec ov lock c -> c = 1 \/ c = 2 \/ c = 5 ->
  (forall l, l ∈ A -> lf_id l = lf_id lock -> before l lock) ->
  cleared lock [ov] P -> StronglySorted ordered P -> Forall (piece_ok ov lock) P ->
  dom (requests e') = dom (requests e) -> linked other e' (extra ++ A ++ P ++ B) ->
  clear_done other extra lock e (A ++ ov :: B) e' (A ++ P ++ B).
Proof.
  intros Hwf Hr Hid Hov Hc HA Hcl HPs HP Hd Hl. rewrite Forall_forall in HP.
  apply (clear_done_step _ _ _ _ _ _ P _ e'); try done.
  { intros p Hp. by apply HP. }
  apply clear_done_refl; [|intros l|done].
  - eapply wf_replace; [done|done|]. intros p Hp. destruct (HP p Hp) as (_ & ? & ? & _). done.
  - rewrite !elem_of_app. intros [?|[?|?]]; [intros ?; left; by apply HA|by apply HP|].
    intros Hi. right. eapply overlap_last; [done|done|done|].
    eapply wf_next; [done|done|congruence].
Qed.

(** The lock that [lf_split] takes, with the lock it makes. *)
Lemma lf_split_middle other lock sa e ov L :
  lf_start ov <> lf_start lock -> linked other e (ov :: L) ->
  sa ∉ (lf_addr <$> ov :: L) -> sa ∉ dom (requests e) ->
  exists e' new, lf_split e ov lock sa =
      (e', set_end ov (wraps 64 (lf_start lock - 1)), true, new) /\
    requests e' = requests e /\ linked other e' (ov :: new ++ L) /\
    ((new = [] /\ lf_end ov = lf_end lock) \/
     (lf_end ov <> lf_end lock /\ new = [split_of ov lock sa])).
Proof.
  intros Hs Hl Hsa Hreq%not_elem_of_dom. unfold lf_split.
  replace (lf_start ov =? lf_start lock) with false by (symmetry; by apply Z.eqb_neq).
  destruct (lf_end ov =? lf_end lock) eqn:He; zify_bool.
  { exists e, []. split_and!; try done. by left. }
  assert (Ha : lf_alloc e (lf_uid ov) 0 = Some (lf_count e (lf_uid ov) 1)).
  { unfold lf_alloc. by rewrite andb_false_r. }
  rewrite Ha. cbn [default]. do 2 eexists. split; [done|]. split_and!; [done| |by right].
  cbn [app]. rewrite Permutation_swap. by apply (linked_alloc other e (split_of ov lock sa)).
Qed.

(** The pieces that a split leaves. *)
Lemma split_pieces ov lock sa new :
  range_ok ov -> range_ok lock -> lf_id ov = lf_id lock -> ov_spec ov lock 2 ->
  lf_start ov <> lf_start lock ->
  (new = [] /\ lf_end ov = lf_end lock) \/
    (lf_end ov <> lf_end lock /\ new = [split_of ov lock sa]) ->
  cleared lock [ov] (head_of ov lock :: new) /\
  StronglySorted ordered (head_of ov lock :: new) /\
  Forall (piece_ok ov lock) (head_of ov lock :: new) /\
  before (head_of ov lock) lock /\ Forall (before lock) new.
Proof.
  intros Hro Hrl Hid Hov Hst Hnew. inversion Hov; subst.
  destruct (head_ok ov lock) as [Hh Hhb]; try done; [lia|unfold range_ok in *; lia|].
  destruct Hnew as [[-> He]|[He ->]].
  - split; [|split; [apply sorted_one|split; [by apply Forall_singleton|by split; [|constructor]]]].
    apply (piece_head ov lock []); try done; unfold range_ok in *; lia.
  - destruct (split_ok ov lock sa) as [Ht Htb]; try done; try (unfold range_ok in *; lia).
    split; [|split; [|split; [by apply Forall_cons; split; [|apply Forall_singleton]|by split; [|apply Forall_singleton]]]].
    + apply (piece_both ov lock []); try done; unfold range_ok in *; lia.
    + apply StronglySorted_cons. split; [|repeat constructor]. apply Forall_singleton.
      intros _. unfold before, range_ok in *. cbn in *. rewrite !s64_small in * by lia. lia.
Qed.

Lemma tail_pieces ov lock c :
  range_ok ov -> range_ok lock -> lf_id ov = lf_id lock -> ov_spec ov lock c ->
  (c = 2 /\ lf_start ov = lf_start lock) \/ c = 5 ->
  cleared lock [ov] [tail_of ov lock] /\ piece_ok ov lock (tail_of ov lock) /\
  before lock (tail_of ov lock).
Proof.
  intros Hro Hrl Hid Hov Hc. split.
  - apply (piece_tail ov lock []); try done; unfold range_ok in *; destruct Hov; lia.
  - apply tail_ok; try done; unfold range_ok in *; destruct Hov; lia.
Qed.

Lemma head_pieces ov lock :
  range_ok ov -> range_ok lock -> lf_id ov = lf_id lock -> ov_spec ov lock 4 ->
  cleared lock [ov] [head_of ov lock] /\ piece_ok ov lock (head_of ov lock) /\
  before (head_of ov lock) lock.
Proof.
  intros Hro Hrl Hid Hov. inversion Hov; subst. split.
  - apply (piece_head ov lock []); try done; unfold range_ok in *; lia.
  - apply head_ok; try done; unfold range_ok in *; lia.
Qed.

Lemma wf_app_r A B : wf (A ++ B) -> wf B.
Proof.
  intros [Hr Hs]. apply ordered_app in Hs. apply Forall_app in Hr. split; tauto.
Qed.

Section clear.
Context (other : Z -> Z) (extra : list lockf) (lock : lockf) (sa : Z).
Context (Hlock : range_ok lock).

Lemma clear_loop_spec fuel e pre ls :
  wf (pre ++ ls) -> (forall l, l ∈ pre -> lf_id l = lf_id lock -> before l lock) ->
  linked other e (extra ++ pre ++ ls) ->
  sa ∉ (lf_addr <$> extra ++ pre ++ ls) -> sa ∉ dom (requests e) ->
  (length ls < fuel)%nat ->
  exists e' ls', clear_loop fuel e sa lock pre ls = Ok (e', ls') /\
    clear_done other extra lock e (pre ++ ls) e' ls'.
Proof.
  revert e pre ls. induction fuel as [|fuel IH]; intros e pre ls Hwf Hpre Hl Hsa Hreq Hf; [lia|].
  cbn [clear_loop].
  destruct (findoverlap_self ls lock (wf_app_r _ _ Hwf) Hlock)
    as (c & skip & rest & -> & [-> Hsk Hn Hso]).
  cbn [mbind outcome_bind]. destruct (c =? 0) eqn:Hc; zify_bool.
  { eexists _, _. split; [done|]. apply clear_done_refl; [done| |done].
    intros l Hin Hi. rewrite !elem_of_app in Hin.
    destruct Hin as [?|[?|?]]; [left|left|right]; eauto. }
  destruct (Hso Hc) as (ov & next & -> & Hid & Hov). cbn [lf_wakelock].
  rewrite (app_assoc pre skip (ov :: next)) in *. set (A := pre ++ skip) in *.
  assert (HA : forall l, l ∈ A -> lf_id l = lf_id lock -> before l lock).
  { intros l [?|?]%elem_of_app; eauto. }
  assert (Hrov : range_ok ov) by (by eapply wf_range).
  assert (Hperm : forall P : list lockf, extra ++ A ++ P ++ next ≡ₚ P ++ extra ++ A ++ next)
    by (intros; solve_Permutation).
  change (ov :: next) with ([ov] ++ next) in Hl, Hsa. rewrite (Hperm [ov]) in Hl, Hsa.
  pose proof (wake_all_dom e (lf_blkhd ov)) as Hd1.
  assert (Hw : forall ov', lf_addr ov' = lf_addr ov -> lf_uid ov' = lf_uid ov -> lf_blkhd ov' = [] ->
    linked other (wake_all e (lf_blkhd ov)) ([ov'] ++ extra ++ A ++ next))
    by (intros; by apply linked_wake).
  revert Hw Hd1. generalize (wake_all e (lf_blkhd ov)). intros e1 Hw Hd1.
  assert (Hfree : linked other (lf_free e1 (set_blkhd ov [])) (extra ++ A ++ next))
    by (apply linked_free; [by apply Hw|done]).
  rewrite length_app in Hf. cbn in Hf. rewrite <- Hd1 in Hreq.
  pose proof (ov_spec_range _ _ _ Hov).
  assert (c = 1 \/ c = 2 \/ c = 3 \/ c = 4 \/ c = 5) as [->|[->|[->|[->| ->]]]] by lia;
    cbn [Z.eqb Pos.eqb].
  - eexists _, _. split; [done|].
    apply (clear_done_last _ _ _ _ _ _ [] _ 1); try done; [by left| |constructor].
    eapply piece_gone; eauto.
  - cbn [lf_start set_blkhd]. destruct (lf_start ov =? lf_start lock) eqn:Hst; zify_bool.
    + destruct (tail_pieces ov lock 2) as (? & ? & ?); try done; [by left|].
      eexists _, _. split; [done|]. apply (clear_done_last _ _ _ _ _ _ [tail_of ov lock] _ 2);
        try done; [by right; left|apply sorted_one|by apply Forall_singleton|]. rewrite Hperm. by apply Hw.
    + destruct (lf_split_middle other lock sa e1 (set_blkhd ov []) (extra ++ A ++ next)) as
        (e2 & new & -> & Hr2 & Hl2 & Hnew); [done|by apply Hw|done|done|].
      destruct (split_pieces ov lock sa new) as (? & ? & ? & _); try done.
      eexists _, _. split; [done|].
      apply (clear_done_last _ _ _ _ _ _ (head_of ov lock :: new) _ 2);
        try done; [by right; left|by rewrite Hr2|].
      rewrite Hperm. eapply linked_change; [exact Hl2|done..|by left].
  - destruct (IH (lf_free e1 (set_blkhd ov [])) A next) as (e' & ls' & -> & Hdone); try done.
    + apply (wf_replace _ _ [] _ Hwf); [constructor|set_solver].
    + set_solver.
    + lia.
    + eexists _, _. split; [done|].
      apply (clear_done_step _ _ _ _ _ _ [] _ (lf_free e1 (set_blkhd ov [])));
        try done; [|set_solver]. eapply piece_gone; eauto.
  - destruct (head_pieces ov lock) as (? & Hp & Hb); try done.
    destruct (IH e1 (A ++ [head_of ov lock]) next) as (e' & ls' & Heq & Hdone);
      rewrite <- ?app_assoc, ?Hperm; try done; [| |by apply Hw|lia|].
    + apply (wf_replace _ _ [_] _ Hwf); [apply sorted_one|].
      intros p ->%list_elem_of_singleton. split; apply Hp.
    + intros l [?| ->%list_elem_of_singleton]%elem_of_app ?; [by apply HA|done].
    + exists e', ls'. split; [exact Heq|]. rewrite <- app_assoc in Hdone.
      apply (clear_done_step _ _ _ _ _ _ [head_of ov lock] _ e1); try done.
      by intros p ->%list_elem_of_singleton.
  - destruct (tail_pieces ov lock 5) as (? & ? & ?); try done; [by right|].
    eexists _, _. split; [done|]. apply (clear_done_last _ _ _ _ _ _ [tail_of ov lock] _ 5);
      try done; [by right; right|apply sorted_one|by apply Forall_singleton|]. rewrite Hperm. by apply Hw.
Qed.

End clear.

(** ** Setting a lock *)

Record set_done (other : Z -> Z) (lock : lockf)
    (e : env) (ls : list lockf) (e' : env) (ls' : list lockf) : Prop := {
  sd_wf : wf ls';
  sd_types : Forall type_ok ls -> Forall type_ok ls';
  sd_placed : placed lock ls ls';
  sd_linked : linked other e' ls';
  sd_requests : dom (requests e') = dom (requests e);
}.

(** [q] has the owner, the range and the type of [lock]. *)
Definition like (q lock : lockf) : Prop :=
  lf_id q = lf_id lock /\ lf_start q = lf_start lock /\ lf_end q = lf_end lock /\
  lf_type q = lf_type lock.

Lemma like_owns1 q lock i x t : like q lock -> owns1 q i x t <-> owns1 lock i x t.
Proof.
  intros (H1 & H2 & H3 & H4). unfold owns1, covers. by rewrite H1, H2, H3, H4.
Qed.

(** The new lock is linked between what is before and what is after it. *)
Lemma set_done_insert other lock q e A B :
  range_ok lock -> type_ok lock -> like q lock -> wf (A ++ B) ->
  (forall l, l ∈ A -> lf_id l = lf_id lock -> before l lock) ->
  (forall l, l ∈ B -> lf_id l = lf_id lock -> before lock l) ->
  linked other e (q :: A ++ B) -> set_done other lock e (A ++ B) e (A ++ q :: B).
Proof.
  intros Hr Ht Hq [Hwr Hws] HA HB Hl. pose proof Hq as (Hi & Hs & He & Hty). split.
  - split.
    + assert (range_ok q) by (unfold range_ok; by rewrite Hs, He).
      rewrite Forall_app, Forall_cons in *. tauto.
    + apply sorted_insert; [done| |]; intros l Hin Hid; unfold before; rewrite ?Hs, ?He.
      * apply HA; [done|congruence].
      * apply HB; [done|congruence].
  - assert (type_ok q) by (unfold type_ok; by rewrite Hty).
    rewrite !Forall_app, Forall_cons. tauto.
  - eapply placed_intro.
    + apply (cleared_apart lock (A ++ B)). intros l [?|?]%elem_of_app Hid; [left|right]; eauto.
    + intros i x t. rewrite !owns_app, !owns_cons, owns_app, like_owns1 by done. tauto.
  - by rewrite <- Permutation_middle.
  - done.
Qed.

Lemma set_done_step other lock e A ov P B e1 e' ls' :
  cleared lock [ov] P -> (forall p, p ∈ P -> lf_type p = lf_type ov) ->
  dom (requests e1) = dom (requests e) ->
  set_done other lock e1 (A ++ P ++ B) e' ls' ->
  set_done other lock e (A ++ ov :: B) e' ls'.
Proof.
  intros Hc Ht Hd [H1 H2 H3 H4 H5]. split; try done.
  - intros (HA & HB)%Forall_app. apply Forall_cons in HB as [Hov HB].
    apply H2. rewrite !Forall_app. split_and!; [done| |done].
    apply Forall_forall. intros p Hp. unfold type_ok. by rewrite (Ht p Hp).
  - intros i x t. rewrite (H3 i x t). specialize (Hc i x t).
    rewrite owns_cons, owns_nil in Hc. rewrite !owns_app, owns_cons, Hc. tauto.
  - congruence.
Qed.

(** The last overlap [ov] leaves the pieces [P1] before and [P2] after the lock. *)
Lemma set_done_last other lock q e A ov P1 P2 B c e' :
  range_ok lock -> type_ok lock -> like q lock -> wf (A ++ ov :: B) ->
  (forall l, l ∈ A -> lf_id l = lf_id lock -> before l lock) ->
  lf_id ov = lf_id lock -> ov_spec ov lock c -> c = 1 \/ c = 2 \/ c = 5 ->
  cleared lock [ov] (P1 ++ P2) -> StronglySorted ordered (P1 ++ P2) ->
  Forall (piece_ok ov lock) (P1 ++ P2) ->
  Forall (fun l => before l lock) P1 -> Forall (before lock) P2 ->
  dom (requests e') = dom (requests e) ->
  linked other e' (q :: A ++ P1 ++ P2 ++ B) ->
  set_done other lock e (A ++ ov :: B) e' (A ++ P1 ++ q :: P2 ++ B).
Proof.
  intros Hr Ht Hq Hwf HA Hid Hov Hc Hcl Hs HP H1 H2 Hd Hl.
  rewrite Forall_forall in HP, H1, H2.
  apply (set_done_step _ _ _ _ _ (P1 ++ P2) _ e'); try done.
  { intros p Hp. by apply HP. }
  assert (wf (A ++ (P1 ++ P2) ++ B)) as Hwf'.
  { eapply wf_replace; [done|done|]. intros p Hp. destruct (HP p Hp) as (_ & ? & ? & _). done. }
  rewrite <- app_assoc, (app_assoc A) in *. rewrite (app_assoc A P1 (q :: P2 ++ B)).
  apply set_done_insert; try done.
  - intros l [?|?]%elem_of_app ?; [by apply HA|by apply H1].
  - intros l [?|?]%elem_of_app ?; [by apply H2|].
    eapply overlap_last; [done|done|done|]. eapply wf_next; [done|done|congruence].
Qed.

(** A lock of the same type that contains [lock] makes nothing to do. *)
Lemma set_done_same other lock e A ov B e' :
  lf_id ov = lf_id lock -> ov_spec ov lock 2 -> lf_type ov = lf_type lock ->
  wf (A ++ ov :: B) -> dom (requests e') = dom (requests e) ->
  linked other e' (A ++ ov :: B) -> set_done other lock e (A ++ ov :: B) e' (A ++ ov :: B).
Proof.
  intros Hid Hov Hty Hwf Hd Hl. split; try done. intros i x t.
  split; [|intros [[[Hi Hx] ->]|[? _]]; [|done]].
  - intros H. destruct (decide (target lock i x)) as [HT|]; [left|by right].
    split; [done|]. apply holds_owns in H; [|done].
    assert (holds (A ++ ov :: B) i x = Some (lf_type ov)) as H'.
    { apply holds_owns; [done|]. exists ov. split; [set_solver|]. destruct HT as [? Hx].
      apply covers_iff in Hx. unfold owns1. rewrite covers_iff. inversion Hov; subst.
      split_and!; [congruence|lia|lia|done]. }
    congruence.
  - exists ov. split; [set_solver|]. apply covers_iff in Hx. unfold owns1. rewrite covers_iff.
    inversion Hov; subst. split_and!; [congruence|lia|lia|done].
Qed.

Lemma blocks_wider ov lock r :
  range_ok ov -> range_ok lock -> type_ok ov -> type_ok lock -> lf_id ov = lf_id lock ->
  lf_start lock <= lf_start ov ->
  lf_end lock = -1 \/ (lf_end ov <> -1 /\ lf_end ov <= lf_end lock) ->
  ~ (lf_type lock = F_RDLCK /\ lf_type ov = F_WRLCK) -> blocks ov r -> blocks lock r.
Proof.
  unfold type_ok, blocks, overlaps, range_ok.
  intros ? ? Ho Hl Hid ? ? Hn (Hi & Hov & Ht). rewrite <- Hid.
  split; [done|]. split; [lia|]. unfold F_RDLCK, F_WRLCK in *. lia.
Qed.

Lemma take_waiters_spec other e ov lock L :
  range_ok ov -> range_ok lock -> type_ok ov -> type_ok lock -> lf_id ov = lf_id lock ->
  ov_spec ov lock 3 -> linked other e (ov :: lock :: L) ->
  exists e1 b ov1, take_waiters e ov lock = (e1, set_blkhd lock b, ov1) /\
    linked other (lf_free e1 ov1) (set_blkhd lock b :: L) /\
    dom (requests e1) = dom (requests e).
Proof.
  intros Hro Hrl Hto Htl Hid Hov Hl. inversion Hov; subst. unfold take_waiters.
  destruct ((lf_type lock =? F_RDLCK) && (lf_type ov =? F_WRLCK)) eqn:E.
  - cbn [lf_wakelock]. exists (wake_all e (lf_blkhd ov)), (lf_blkhd lock), (set_blkhd ov []).
    split; [by destruct lock|]. split; [|apply wake_all_dom].
    apply linked_free; [|done]. replace (set_blkhd lock (lf_blkhd lock)) with lock by (by destruct lock).
    by apply (linked_wake other e ov (set_blkhd ov [])).
  - pose proof (move_all_keeps (lf_blkhd ov) e lock) as Hk.
    pose proof (move_all_requests (lf_blkhd ov) e lock) as Hreq.
    destruct (move_all e (lf_blkhd ov) lock) as [e1 lock1] eqn:Hm.
    destruct Hk as (_ & _ & ->). eexists e1, _, _. split; [done|]. split.
    + apply linked_free; [|done]. eapply linked_move; [done| |done].
      intros r. apply blocks_wider; try done.
      intros [E1 E2]. rewrite E1, E2 in E. done.
    + apply set_eq. intros a. specialize (Hreq a). cbn in Hreq.
      rewrite !elem_of_dom, Hreq. case_decide; [|done]. by rewrite fmap_is_Some.
Qed.

Section link.
Context (other : Z -> Z) (sa : Z).

(** The loop once the lock is linked: only overlaps that start after the
    start of the lock are left. *)
Lemma link_loop_linked fuel e lock pre mid ls :
  range_ok lock -> type_ok lock ->
  wf (pre ++ mid ++ ls) -> Forall type_ok (pre ++ mid ++ ls) ->
  (forall l, l ∈ pre -> lf_id l = lf_id lock -> before l lock) ->
  (forall l, l ∈ mid -> lf_id l <> lf_id lock) ->
  (forall l, l ∈ ls -> lf_id l = lf_id lock -> lf_start lock < lf_start l) ->
  linked other e (lock :: pre ++ mid ++ ls) -> (length ls < fuel)%nat ->
  exists e' ls', link_loop fuel e sa lock false pre mid ls = Ok (e', ls') /\
    set_done other lock e (pre ++ mid ++ ls) e' ls'.
Proof.
  revert e lock mid ls. induction fuel as [|fuel IH];
    intros e lock mid ls Hrl Htl Hwf Hty Hpre Hmid Hst Hl Hf; [lia|].
  cbn [link_loop].
  destruct (findoverlap_self ls lock) as (c & skip & rest & -> & [-> Hsk Hn Hso]);
    [by do 2 eapply wf_app_r|done|].
  assert (Hskip : forall l, l ∈ skip -> lf_id l <> lf_id lock).
  { intros l Hin Hid. pose proof (Hsk l Hin Hid) as [? ?].
    pose proof (Hst l ltac:(set_solver) Hid).
    assert (range_ok l) as [? ?]; [|lia]. destruct Hwf as [Hr _].
    rewrite Forall_forall in Hr. apply Hr. set_solver. }
  cbn [mbind outcome_bind]. destruct (c =? 0) eqn:Hc; zify_bool.
  { eexists _, _. split; [done|]. apply set_done_insert; try done.
    intros l. rewrite !elem_of_app. intros [?|[?|?]] ?; [set_solver|set_solver|by eapply Hn]. }
  destruct (Hso Hc) as (ov & next & -> & Hid & Hov).
  assert (Hrov : range_ok ov) by (eapply (wf_range (pre ++ mid ++ skip)); by rewrite <- !app_assoc).
  assert (type_ok ov) by (rewrite Forall_forall in Hty; apply Hty; set_solver).
  assert (lf_start lock < lf_start ov) by (apply Hst; [set_solver|done]).
  assert (Happ : forall B, pre ++ mid ++ skip ++ B = (pre ++ mid ++ skip) ++ B)
    by (intros; by rewrite <- !app_assoc).
  rewrite Happ in *. set (A := pre ++ mid ++ skip) in *.
  rewrite length_app in Hf. cbn in Hf.
  pose proof (ov_spec_range _ _ _ Hov).
  assert (c = 3 \/ c = 5) as [->| ->] by (inversion Hov; subst; lia); cbn [Z.eqb Pos.eqb].
  - assert (lock :: A ++ ov :: next ≡ₚ ov :: lock :: A ++ next) as HP by solve_Permutation.
    rewrite HP in Hl.
    destruct (take_waiters_spec other e ov lock (A ++ next)) as (e1 & b & ov1 & -> & Hl1 & Hd1);
      try done.
    destruct (IH (lf_free e1 ov1) (set_blkhd lock b) (mid ++ skip) next)
      as (e' & ls' & -> & Hdone); rewrite <- ?(app_assoc mid), ?Happ; try done.
    + apply (wf_replace _ _ [] _ Hwf); [constructor|set_solver].
    + rewrite Forall_app, Forall_cons in Hty. rewrite Forall_app. tauto.
    + set_solver.
    + set_solver.
    + lia.
    + eexists _, _. split; [done|]. rewrite <- app_assoc, Happ in Hdone.
      apply (set_done_step _ _ _ _ _ [] _ (lf_free e1 ov1)); [|set_solver|done|].
      { eapply piece_gone; eauto. }
      by destruct Hdone.
  - destruct (tail_pieces ov lock 5) as (Hcl & Hp & Hb); try done; [by right|].
    eexists _, _. split; [done|].
    apply (set_done_step _ _ _ _ _ [tail_of ov lock] _ (wake_all e (lf_blkhd ov)));
      [done|by intros p ->%list_elem_of_singleton|apply wake_all_dom|].
    unfold A. rewrite <- Happ. apply set_done_insert; try done.
    + rewrite Happ. apply (wf_replace _ _ [_] _ Hwf); [apply sorted_one|].
      intros p ->%list_elem_of_singleton. split; apply Hp.
    + intros l. cbn [app]. rewrite !elem_of_app, elem_of_cons.
      intros [?|[?|[->|?]]] ?; [set_solver|set_solver|done|].
      eapply overlap_last; [done|done|by right; right|].
      eapply wf_next; [done|done|congruence].
    + assert (forall o, lock :: A ++ o :: next ≡ₚ o :: lock :: A ++ next) as HP
        by (intros; solve_Permutation).
      rewrite Happ. cbn [app]. rewrite HP in *. by apply (linked_wake other e ov (tail_of ov lock)).
Qed.

(** The overlap has the range of the lock. *)
Lemma link_same e lock A ov B :
  range_ok lock -> type_ok lock -> lf_blkhd lock = [] ->
  wf (A ++ ov :: B) -> type_ok ov ->
  (forall l, l ∈ A -> lf_id l = lf_id lock -> before l lock) ->
  lf_id ov = lf_id lock -> ov_spec ov lock 1 -> linked other e (lock :: A ++ ov :: B) ->
  let '(e1, ov1) :=
    if (lf_type lock =? F_RDLCK) && (lf_type ov =? F_WRLCK) then lf_wakelock e ov else (e, ov) in
  set_done other lock e (A ++ ov :: B) (lf_free e1 lock) (A ++ set_type ov1 (lf_type lock) :: B).
Proof.
  intros Hrl Htl Hblk Hwf Hto HA Hid Hov Hl. inversion Hov; subst.
  assert (Hrov : range_ok ov) by (by eapply wf_range).
  assert (Hrest : forall e1 ov1, like (set_type ov1 (lf_type lock)) lock ->
    dom (requests e1) = dom (requests e) ->
    linked other e1 (set_type ov1 (lf_type lock) :: lock :: A ++ B) ->
    set_done other lock e (A ++ ov :: B) (lf_free e1 lock) (A ++ set_type ov1 (lf_type lock) :: B)).
  { intros e1 ov1 Hq Hd Hl1.
    apply (set_done_last _ _ (set_type ov1 (lf_type lock)) _ _ _ [] [] _ 1); try done;
      [by left|by eapply piece_gone; eauto|constructor|].
    apply linked_free; [|done]. by rewrite Permutation_swap. }
  assert (lock :: A ++ ov :: B ≡ₚ ov :: lock :: A ++ B) as HP by solve_Permutation.
  rewrite HP in Hl.
  destruct ((lf_type lock =? F_RDLCK) && (lf_type ov =? F_WRLCK)) eqn:E; cbn [lf_wakelock].
  - apply Hrest; [done|apply wake_all_dom|]. by apply (linked_wake other e ov).
  - apply Hrest; [done|done|]. eapply linked_change; [exact Hl|done..|right].
    intros r (Hi & Hov' & Ht). split; [done|]. split; [done|]. cbn.
    unfold type_ok, F_RDLCK, F_WRLCK in *. destruct Htl as [E1|E1]; rewrite E1 in *; [|by left].
    destruct Hto as [E2|E2]; rewrite E2 in *; [|done]. lia.
Qed.

(** The overlap contains the lock and has the other type. *)
Lemma link_contains e lock A ov B :
  range_ok lock -> type_ok lock -> wf (A ++ ov :: B) ->
  (forall l, l ∈ A -> lf_id l = lf_id lock -> before l lock) ->
  lf_id ov = lf_id lock -> ov_spec ov lock 2 -> linked other e (lock :: A ++ ov :: B) ->
  sa ∉ (lf_addr <$> lock :: A ++ ov :: B) -> sa ∉ dom (requests e) ->
  exists e' ls',
    (if lf_start ov =? lf_start lock then
       let '(e1, ov1) := lf_wakelock e (set_start ov (wraps 64 (lf_end lock + 1))) in
       Ok (e1, A ++ lock :: ov1 :: B)
     else
       let '(e1, ov1, first, new) := lf_split e ov lock sa in
       let '(e2, ov2) := lf_wakelock e1 ov1 in
       Ok (e2, A ++ (if first then ov2 :: lock :: new else lock :: ov2 :: new) ++ B)) = Ok (e', ls') /\
    set_done other lock e (A ++ ov :: B) e' ls'.
Proof.
  intros Hrl Htl Hwf HA Hid Hov Hl Hsa Hreq.
  assert (Hrov : range_ok ov) by (by eapply wf_range).
  assert (forall o, lock :: A ++ o :: B ≡ₚ o :: lock :: A ++ B) as HP by (intros; solve_Permutation).
  rewrite HP in Hl, Hsa. destruct (lf_start ov =? lf_start lock) eqn:Hst; zify_bool.
  - destruct (tail_pieces ov lock 2) as (? & ? & ?); try done; [by left|].
    eexists _, _. split; [done|].
    apply (set_done_last _ _ lock _ _ _ [] [tail_of ov lock] _ 2); try done;
      [by right; left|apply sorted_one|by apply Forall_singleton|by apply Forall_singleton
      |apply wake_all_dom|].
    cbn [app]. rewrite HP. by apply (linked_wake other e ov).
  - destruct (lf_split_middle other lock sa e ov (lock :: A ++ B)) as
      (e1 & new & -> & Hr1 & Hl1 & Hnew); try done.
    destruct (split_pieces ov lock sa new) as (? & ? & ? & ? & ?); try done.
    eexists _, _. split; [done|]. cbn [app].
    apply (set_done_last _ _ lock _ _ _ [head_of ov lock] new _ 2); try done;
      [by right; left|by apply Forall_singleton| |].
    { cbn [lf_blkhd set_end]. by rewrite wake_all_dom, Hr1. }
    assert (lock :: A ++ [head_of ov lock] ++ new ++ B ≡ₚ
      head_of ov lock :: new ++ lock :: A ++ B) as -> by solve_Permutation.
    by apply (linked_wake other e1 ov).
Qed.

Lemma lf_link_spec e lock ls :
  range_ok lock -> type_ok lock -> lf_blkhd lock = [] -> wf ls -> Forall type_ok ls ->
  linked other e (lock :: ls) -> sa ∉ (lf_addr <$> lock :: ls) -> sa ∉ dom (requests e) ->
  exists e' ls', link_loop (S (length ls)) e sa lock true [] [] ls = Ok (e', ls') /\
    set_done other lock e ls e' ls'.
Proof.
  intros Hrl Htl Hblk Hwf Hty Hl Hsa Hreq. cbn [link_loop app].
  destruct (findoverlap_self ls lock Hwf Hrl) as (c & A & rest & -> & [-> HA Hn Hso]).
  cbn [mbind outcome_bind]. destruct (c =? 0) eqn:Hc; zify_bool.
  { eexists _, _. split; [done|]. by apply set_done_insert; eauto. }
  destruct (Hso Hc) as (ov & B & -> & Hid & Hov).
  assert (Hrov : range_ok ov) by (by eapply wf_range).
  rewrite Forall_app, Forall_cons in Hty. destruct Hty as (HtA & Hto & HtB).
  assert (forall o, lock :: A ++ o :: B ≡ₚ o :: lock :: A ++ B) as HP by (intros; solve_Permutation).
  pose proof (ov_spec_range _ _ _ Hov).
  assert (Hlen : (length B < length (A ++ ov :: B))%nat) by (rewrite length_app; cbn; lia).
  assert (c = 1 \/ c = 2 \/ c = 3 \/ c = 4 \/ c = 5) as [->|[->|[->|[->| ->]]]] by lia;
    cbn [Z.eqb Pos.eqb].
  - pose proof (link_same e lock A ov B) as Hs.
    destruct (if _ : bool then _ else _) as [e1 ov1]. eexists _, _. split; [done|].
    by apply Hs.
  - destruct (lf_type ov =? lf_type lock) eqn:Et; zify_bool.
    + eexists _, _. split; [done|]. by apply set_done_same; [..|apply linked_free].
    + by apply link_contains.
  - rewrite HP in Hl.
    destruct (take_waiters_spec other e ov lock (A ++ B)) as (e1 & b & ov1 & -> & Hl1 & Hd1); try done.
    destruct (link_loop_linked (length (A ++ ov :: B)) (lf_free e1 ov1) (set_blkhd lock b) A [] B)
      as (e' & ls' & -> & Hdone); try done; [| |set_solver| |].
    + apply (wf_replace _ _ [] _ Hwf); [constructor|set_solver].
    + by apply Forall_app.
    + inversion Hov; subst. intros l Hin Hi.
      pose proof (wf_next _ _ _ l Hwf Hin ltac:(cbn in Hi; congruence)) as [? ?].
      unfold range_ok in *. cbn. lia.
    + eexists _, _. split; [done|].
      apply (set_done_step _ _ _ _ _ [] _ (lf_free e1 ov1)); [|set_solver|done|by destruct Hdone].
      eapply piece_gone; eauto.
  - destruct (head_pieces ov lock) as (? & Hp & Hb); try done.
    destruct (link_loop_linked (length (A ++ ov :: B)) (wake_all e (lf_blkhd ov)) lock
      (A ++ [head_of ov lock]) [] B) as (e' & ls' & Heq & Hdone);
      rewrite <- ?app_assoc; try done; [| | |set_solver| | |].
    + apply (wf_replace _ _ [_] _ Hwf); [apply sorted_one|].
      intros p ->%list_elem_of_singleton. split; apply Hp.
    + rewrite !Forall_app, Forall_singleton. destruct Hp as (Hpt & _).
      unfold type_ok at 2. by rewrite Hpt.
    + intros l [?| ->%list_elem_of_singleton]%elem_of_app ?; [by apply HA|done].
    + inversion Hov; subst. intros l Hin Hi.
      pose proof (wf_next _ _ _ l Hwf Hin ltac:(congruence)) as [? ?]. lia.
    + cbn [app]. rewrite HP in *. by apply (linked_wake other e ov).
    + exists e', ls'. split; [exact Heq|]. rewrite <- app_assoc in Hdone.
      apply (set_done_step _ _ _ _ _ [head_of ov lock] _ (wake_all e (lf_blkhd ov)));
        [done|by intros p ->%list_elem_of_singleton|apply wake_all_dom|done].
  - destruct (tail_pieces ov lock 5) as (? & ? & ?); try done; [by right|].
    eexists _, _. split; [done|].
    apply (set_done_last _ _ lock _ _ _ [] [tail_of ov lock] _ 5); try done;
      [by right; right|apply sorted_one|by apply Forall_singleton|by apply Forall_singleton
      |apply wake_all_dom|].
    cbn [app]. rewrite HP in *. by apply (linked_wake other e ov).
Qed.

End link.

(** ** Lists that differ in their waiters only *)

(** [f] changes the list of waiters only. *)
Definition only_blkhd (f : lockf -> lockf) : Prop :=
  forall l, like (f l) l /\ lf_addr (f l) = lf_addr l /\ lf_uid (f l) = lf_uid l.

Lemma only_blkhd_insert a : only_blkhd (blkhd_insert_tail a).
Proof. done. Qed.
Lemma only_blkhd_remove a : only_blkhd (blkhd_remove a).
Proof. done. Qed.
#[local] Hint Resolve only_blkhd_insert only_blkhd_remove : core.

Section on_lock.
Context (f : lockf -> lockf) (b : Z) (Hf : only_blkhd f).

Lemma on_lock_cons l ls :
  on_lock f b (l :: ls) = (if lf_addr l =? b then f l else l) :: on_lock f b ls.
Proof. done. Qed.

Lemma on_lock_holds ls i x : holds (on_lock f b ls) i x = holds ls i x.
Proof.
  induction ls as [|l ls IH]; [done|]. rewrite on_lock_cons. cbn [holds]. rewrite IH.
  destruct (lf_addr l =? b); [|done].
  destruct (Hf l) as [(H1 & H2 & H3 & H4) _]. unfold covers. by rewrite H1, H2, H3, H4.
Qed.

Lemma on_lock_addr ls : lf_addr <$> on_lock f b ls = lf_addr <$> ls.
Proof.
  induction ls as [|l ls IH]; [done|]. rewrite on_lock_cons. cbn. f_equal; [|exact IH].
  case_match; [apply Hf|done].
Qed.

Lemma on_lock_count u ls : uid_count u (on_lock f b ls) = uid_count u ls.
Proof.
  induction ls as [|l ls IH]; [done|]. rewrite on_lock_cons, !uid_count_cons, IH.
  destruct (lf_addr l =? b); [|done]. by destruct (Hf l) as (_ & _ & ->).
Qed.

Lemma on_lock_forall (P : lockf -> Prop) ls :
  (forall l, P l -> P (f l)) -> Forall P ls -> Forall P (on_lock f b ls).
Proof.
  intros HP. induction 1 as [|l ls Hl _ IH]; [constructor|]. rewrite on_lock_cons. constructor; [|done].
  case_match; auto.
Qed.

Lemma on_lock_wf ls : wf ls -> wf (on_lock f b ls).
Proof.
  intros [Hr Hs]. split.
  - apply on_lock_forall; [|done]. intros l. destruct (Hf l) as [(_ & H2 & H3 & _) _].
    unfold range_ok. by rewrite H2, H3.
  - induction Hs as [|l ls Hs IH Ho]; [constructor|]. rewrite on_lock_cons.
    apply Forall_cons in Hr as [_ Hr]. constructor; [by apply IH|].
    apply on_lock_forall.
    + intros l'. destruct (Hf l') as [(H1 & H2 & H3 & _) _]. unfold ordered, before.
      by rewrite H1, H2.
    + eapply Forall_impl; [exact Ho|]. intros l' Hl. case_match; [|done].
      destruct (Hf l) as [(H1 & H2 & H3 & _) _]. unfold ordered, before. by rewrite H1, H3.
Qed.

Lemma on_lock_types ls : Forall type_ok ls -> Forall type_ok (on_lock f b ls).
Proof.
  apply on_lock_forall. intros l. destruct (Hf l) as [(_ & _ & _ & H4) _].
  unfold type_ok. by rewrite H4.
Qed.

Lemma elem_of_on_lock l ls :
  l ∈ on_lock f b ls -> exists l0, l0 ∈ ls /\ lf_addr l = lf_addr l0 /\
    (l = l0 /\ lf_addr l0 <> b \/ l = f l0 /\ lf_addr l0 = b).
Proof.
  unfold on_lock. intros (l0 & -> & Hl0)%list_elem_of_fmap_1. exists l0. split; [done|].
  case_match eqn:E; zify_bool.
  - split; [apply Hf|by right].
  - split; [done|by left].
Qed.

Lemma on_lock_elem l ls : l ∈ ls ->
  (if lf_addr l =? b then f l else l) ∈ on_lock f b ls.
Proof. intros. by apply (list_elem_of_fmap_2 (fun l => if lf_addr l =? b then f l else l)). Qed.

End on_lock.

(** ** Going to sleep and running again *)

Lemma blocks_like l l' r : like l' l -> blocks l r -> blocks l' r.
Proof. intros (H1 & H2 & H3 & H4). unfold blocks, overlaps. by rewrite H1, H2, H3, H4. Qed.

Lemma waiting_insert e a r cnt :
  requests e !! a = None ->
  waiting (Env (<[a := r]> (requests e)) cnt) ≡ₚ rq_lock r :: waiting e.
Proof. intros. unfold waiting. cbn. by rewrite map_to_list_insert. Qed.

Lemma waiting_delete e a r cnt :
  requests e !! a = Some r ->
  waiting e ≡ₚ rq_lock r :: waiting (Env (delete a (requests e)) cnt).
Proof.
  intros Hr. unfold waiting. cbn. rewrite <- (insert_delete_id (requests e) a r) at 1 by done.
  by rewrite map_to_list_insert by apply lookup_delete_eq.
Qed.

Lemma nodup_addr L l1 l2 :
  NoDup (lf_addr <$> L) -> l1 ∈ L -> l2 ∈ L -> lf_addr l1 = lf_addr l2 -> l1 = l2.
Proof.
  induction L as [|l L IH]; [set_solver|]. cbn. rewrite NoDup_cons.
  intros [Hn Hd] [->|H1]%elem_of_cons [->|H2]%elem_of_cons Ha; [done| | |by auto].
  - exfalso. apply Hn. rewrite Ha. by apply list_elem_of_fmap_2.
  - exfalso. apply Hn. rewrite <- Ha. by apply list_elem_of_fmap_2.
Qed.

(** A request joins the waiters of a lock that blocks it. *)
Lemma linked_sleep other e lock block ls :
  linked other e (lock :: ls) -> range_ok lock -> type_ok lock -> lf_blkhd lock = [] ->
  block ∈ ls -> blocks block lock ->
  linked other
    (Env (<[lf_addr lock := Request lock (Some (lf_addr block)) true]> (requests e)) (ui_lockcnt e))
    (on_lock (blkhd_insert_tail (lf_addr lock)) (lf_addr block) ls).
Proof.
  intros [H1 H2 H3 H4 H5 H6] Hr Ht Hb Hin Hbl. cbn in H1. apply NoDup_cons in H1 as [Hna H1].
  set (a := lf_addr lock) in *.
  assert (Hreq : requests e !! a = None).
  { destruct (requests e !! a) as [r|] eqn:E; [|done]. destruct (H2 a r E) as (Hx & _).
    cbn in Hx. set_solver. }
  assert (Huniq : forall l, l ∈ ls -> lf_addr l = lf_addr block -> l = block).
  { intros l Hl Ha. by eapply nodup_addr. }
  assert (Hout : forall l, l ∈ ls -> a ∉ lf_blkhd l).
  { intros l Hl Ha. destruct (H3 l) as [_ Hx]; [set_solver|].
    destruct (Hx a Ha) as (r & ? & _). congruence. }
  split; cbn [requests].
  - by rewrite on_lock_addr.
  - intros a' r. rewrite on_lock_addr by done. destruct (decide (a' = a)) as [->|Hne].
    + rewrite lookup_insert_eq. intros [= <-]. done.
    + rewrite lookup_insert_ne by done. intros Hr'. destruct (H2 a' r Hr') as (Hx & Hy).
      split; [set_solver|done].
  - intros l' (l & Hl & Ha & Hc)%elem_of_on_lock; [|done].
    destruct (H3 l) as [Hnd Hx]; [set_solver|].
    assert (Hold : forall c, c ∈ lf_blkhd l -> exists r,
      <[a := Request lock (Some (lf_addr block)) true]> (requests e) !! c = Some r /\
      rq_next r = Some (lf_addr l') /\ blocks l (rq_lock r)).
    { intros c Hc'. destruct (Hx c Hc') as (r & Hr' & Hn & Hbl'). exists r.
      rewrite Ha. split; [|done]. rewrite lookup_insert_ne; [done|]. intros <-.
      by apply (Hout l Hl). }
    destruct Hc as [[-> _]|[-> Hab]]; [done|]. apply Huniq in Hab as ->; [|done].
    cbn [lf_blkhd blkhd_insert_tail set_blkhd]. split.
    + apply NoDup_app. split_and!; [done| |apply NoDup_singleton].
      intros c Hc ->%list_elem_of_singleton. by apply (Hout block).
    + intros c [Hc| ->%list_elem_of_singleton]%elem_of_app; [by apply Hold|].
      eexists. rewrite lookup_insert_eq. done.
  - intros a' r b. destruct (decide (a' = a)) as [->|Hne].
    + rewrite lookup_insert_eq. intros [= <-] [= <-]. eexists.
      split; [by apply on_lock_elem|]. rewrite Z.eqb_refl. split; [done|].
      apply elem_of_app. right. by apply list_elem_of_singleton.
    + rewrite lookup_insert_ne by done. intros Hr' Hn.
      destruct (H4 a' r b Hr' Hn) as (l & [->|Hl]%elem_of_cons & Hab & Hal).
      { rewrite Hb in Hal. by apply elem_of_nil in Hal. }
      eexists. split; [by apply on_lock_elem|]. case_match; [|done].
      split; [done|]. apply elem_of_app. by left.
  - intros a' r. destruct (decide (a' = a)) as [->|Hne].
    + rewrite lookup_insert_eq. by intros [= <-] _.
    + rewrite lookup_insert_ne by done. apply H5.
  - intros u. rewrite waiting_insert, on_lock_count, uid_count_cons by done.
    specialize (H6 u). rewrite uid_count_cons in H6. change (lockcnt _ u) with (lockcnt e u).
    cbn [rq_lock]. lia.
Qed.

Lemma linked_signal other e a ls : linked other e ls -> linked other (lf_signal e a) ls.
Proof.
  intros [H1 H2 H3 H4 H5 H6]. unfold lf_signal.
  set (g := fun r => Request (rq_lock r) (rq_next r) false).
  assert (Hreq : forall c r, requests (on_request g a e) !! c = Some r -> exists r0,
    requests e !! c = Some r0 /\ rq_lock r = rq_lock r0 /\ rq_next r = rq_next r0 /\
    (rq_asleep r = true -> rq_asleep r0 = true)).
  { intros c r. cbn. destruct (decide (c = a)) as [->|]; [rewrite lookup_alter_eq|
      rewrite lookup_alter_ne by done; naive_solver].
    intros (r0 & Hr0 & ->)%fmap_Some. exists r0. done. }
  split; try done.
  - intros c r (r0 & Hr0 & Hl & _)%Hreq. rewrite Hl. by apply H2.
  - intros l Hl. destruct (H3 l Hl) as [Hnd Hx]. split; [done|]. intros c Hc.
    destruct (Hx c Hc) as (r & Hr & Hn & Hb). cbn.
    destruct (decide (c = a)) as [->|]; [rewrite lookup_alter_eq, Hr|rewrite lookup_alter_ne by done];
      eauto.
  - intros c r b (r0 & Hr0 & _ & Hn & _)%Hreq. rewrite Hn. by apply H4.
  - intros c r (r0 & Hr0 & _ & Hn & Hs)%Hreq Has. rewrite Hn. eauto.
  - intros u. rewrite waiting_alter by done. apply H6.
Qed.

(** A request runs again and leaves the waiters, if it is still among them. *)
Lemma linked_resume other e a r ls :
  linked other e ls -> requests e !! a = Some r ->
  linked other (Env (delete a (requests e)) (ui_lockcnt e))
    (rq_lock r :: match rq_next r with Some b => on_lock (blkhd_remove a) b ls | None => ls end).
Proof.
  intros [H1 H2 H3 H4 H5 H6] Hr. destruct (H2 a r Hr) as (Hna & Hra & _ & _ & Hrb).
  set (ls' := match rq_next r with Some b => _ | None => _ end).
  assert (Haddr : lf_addr <$> ls' = lf_addr <$> ls).
  { unfold ls'. destruct (rq_next r); [by apply on_lock_addr|done]. }
  assert (Hcnt : forall u, uid_count u ls' = uid_count u ls).
  { intros u. unfold ls'. destruct (rq_next r); [by apply on_lock_count|done]. }
  assert (Hls : forall l, l ∈ ls' -> exists l0, l0 ∈ ls /\ like l l0 /\ lf_addr l = lf_addr l0 /\
    (a ∉ lf_blkhd l) /\ NoDup (lf_blkhd l) /\ forall c, c ∈ lf_blkhd l -> c ∈ lf_blkhd l0).
  { intros l Hl.
    assert (Hout : forall l0, l0 ∈ ls -> rq_next r <> Some (lf_addr l0) -> a ∉ lf_blkhd l0).
    { intros l0 Hl0 Hn Ha. destruct (H3 l0 Hl0) as [_ Hx].
      destruct (Hx a Ha) as (r' & ? & ? & _). congruence. }
    unfold ls' in Hl. destruct (rq_next r) as [b|].
    - apply elem_of_on_lock in Hl as (l0 & Hl0 & Hab & [[-> Hne]|[-> Hb]]); [| |done].
      + exists l0. split_and!; try done; [apply Hout; congruence|by apply H3].
      + exists l0. cbn. split_and!; try done; [|apply NoDup_filter; by apply H3|].
        * rewrite list_elem_of_filter. tauto.
        * intros c. rewrite list_elem_of_filter. tauto.
    - exists l. split_and!; try done; [by apply Hout|by apply H3]. }
  split; cbn [requests].
  - cbn. rewrite Haddr, Hra. by constructor.
  - intros c r' [Hne Hr']%lookup_delete_Some. cbn. rewrite Haddr, Hra.
    destruct (H2 c r' Hr') as (Hx & Hy). split; [|done]. rewrite elem_of_cons. naive_solver.
  - intros l [->|Hl]%elem_of_cons; [rewrite Hrb; split; [constructor|set_solver]|].
    destruct (Hls l Hl) as (l0 & Hl0 & Hlike & Ha & Hout & Hnd & Hsub). split; [done|].
    intros c Hc. destruct (H3 l0 Hl0) as [_ Hx]. destruct (Hx c (Hsub c Hc)) as (r' & Hr' & Hn & Hb).
    exists r'. rewrite Ha. split; [|split; [done|by eapply blocks_like]].
    rewrite lookup_delete_ne; [done|]. intros <-. done.
  - intros c r' b [Hne Hr']%lookup_delete_Some Hn.
    destruct (H4 c r' b Hr' Hn) as (l & Hl & Hab & Hal). unfold ls'.
    destruct (rq_next r) as [b'|]; [|by exists l; split; [right|]].
    eexists. split; [right; by apply on_lock_elem|]. case_match; [|done].
    split; [done|]. cbn. apply list_elem_of_filter. naive_solver.
  - intros c r' [_ Hr']%lookup_delete_Some. by eapply H5.
  - intros u. specialize (H6 u). rewrite (waiting_delete e a r (ui_lockcnt e)) in H6 by done.
    rewrite uid_count_cons in H6 |- *. rewrite Hcnt. change (lockcnt _ u) with (lockcnt e u). lia.
Qed.

(** ** The invariant *)

(** No two owners hold a byte unless both hold it shared. *)
Definition exclusive (ls : list lockf) : Prop :=
  forall i j x, i <> j -> holds ls i x = Some F_WRLCK -> holds ls j x = None.

Record inv (other : Z -> Z) (e : env) (ls : list lockf) : Prop := {
  inv_wf : wf ls;
  inv_types : Forall type_ok ls;
  inv_exclusive : exclusive ls;
  inv_linked : linked other e ls;
}.

Lemma holds_cleared lock ls ls' i x :
  wf ls -> wf ls' -> cleared lock ls ls' ->
  holds ls' i x = if decide (target lock i x) then None else holds ls i x.
Proof.
  intros Hw Hw' Hc. apply option_eq. intros t. rewrite holds_owns, (Hc i x t) by done.
  case_decide; [naive_solver|]. rewrite holds_owns by done. tauto.
Qed.

Lemma holds_placed lock ls ls' i x :
  wf ls -> wf ls' -> placed lock ls ls' ->
  holds ls' i x = if decide (target lock i x) then Some (lf_type lock) else holds ls i x.
Proof.
  intros Hw Hw' Hc. apply option_eq. intros t. rewrite holds_owns, (Hc i x t) by done.
  case_decide; [naive_solver|]. rewrite holds_owns by done. tauto.
Qed.

Lemma exclusive_cleared lock ls ls' :
  wf ls -> wf ls' -> cleared lock ls ls' -> exclusive ls -> exclusive ls'.
Proof.
  intros Hw Hw' Hc He i j x Hij. rewrite !(holds_cleared lock ls ls') by done.
  repeat case_decide; try done. by apply He.
Qed.

(** Two locks that cover the same byte overlap. *)
Lemma covers_overlaps l r x : covers l x = true -> covers r x = true -> overlaps l r.
Proof. rewrite !covers_iff. unfold overlaps. lia. Qed.

Lemma exclusive_placed lock ls ls' :
  wf ls -> wf ls' -> placed lock ls ls' -> List.find (blocksb lock) ls = None ->
  exclusive ls -> exclusive ls'.
Proof.
  intros Hw Hw' Hc Hnone He i j x Hij. rewrite !(holds_placed lock ls ls') by done.
  assert (Hno : forall k t, k <> lf_id lock -> covers lock x = true -> holds ls k x = Some t ->
    lf_type lock <> F_WRLCK /\ t <> F_WRLCK).
  { intros k t Hk Hcov (l & Hl & Hi & Hcl & Ht)%holds_owns; [|done].
    pose proof (List.find_none _ _ Hnone l) as Hb.
    rewrite list_elem_of_In in Hl. specialize (Hb Hl).
    apply not_true_iff_false in Hb. rewrite blocksb_iff in Hb. unfold blocks in Hb.
    pose proof (covers_overlaps _ _ _ Hcl Hcov). subst. split; intros ?; apply Hb; auto. }
  destruct (decide (target lock i x)) as [[Hi Hx]|Hti], (decide (target lock j x)) as [[Hj Hx']|Htj].
  - congruence.
  - intros [= Ht]. destruct (holds ls j x) eqn:E; [|done].
    destruct (Hno j z) as [? _]; [congruence|done|done|done].
  - intros Hh. destruct (Hno i F_WRLCK) as [_ ?]; [congruence|done|done|done].
  - by apply He.
Qed.

End LockfProofs.
