(* ===== verification/LockfSpec.v ===== *)
(** * The contracts of the byte range locks

    [lf_advlock] and what follows its sleep, against the map from owners and
    offsets to lock types; the states that a sequence of operations reaches. *)

From S2P Require Import Prelude Lockf LockfProofs.
Import Lockf LockfProofs.
#[local] Open Scope Z_scope.

Module LockfSpec.

(** The addresses of new locks are not in use. *)
Definition fresh (e : env) (ls : list lockf) (a : Z) : Prop :=
  (a ∉ (lf_addr <$> ls)) /\ (a ∉ dom (requests e)).

#[global] Instance fresh_dec e ls a : Decision (fresh e ls a).
Proof. unfold fresh. apply _. Defined.

(** [h] with the range of [lock] set to [v] for its owner. *)
Definition update (h : Z -> Z -> option Z) (lock : lockf) (v : option Z) (i x : Z) : option Z :=
  if decide (target lock i x) then v else h i x.

(** A request for [lock] is in progress: the lock exists but is not listed. *)
Record request_inv (other : Z -> Z) (e : env) (ls : list lockf) (lock : lockf) : Prop := {
  ri_wf : wf ls;
  ri_types : Forall type_ok ls;
  ri_exclusive : exclusive ls;
  ri_linked : linked other e (lock :: ls);
  ri_range : range_ok lock;
  ri_type : type_ok lock;
  ri_blkhd : lf_blkhd lock = [];
}.

(** [lf_setlock] on the map: what each result means. *)
Definition setlock_post (lock : lockf) (ls : list lockf) (r : result) (e' : env) (ls' : list lockf)
  : Prop :=
  match r with
  | Return error =>
      (error = 0 /\ List.find (blocksb lock) ls = None /\
       forall i x, holds ls' i x = update (holds ls) lock (Some (lf_type lock)) i x) \/
      ((error = EAGAIN /\ has (lf_flags lock) F_WAIT = false \/ error = EDEADLK) /\
       is_Some (List.find (blocksb lock) ls) /\ ls' = ls)
  | Sleeps =>
      has (lf_flags lock) F_WAIT = true /\
      (exists block, List.find (blocksb lock) ls = Some block /\
         requests e' !! lf_addr lock = Some (Request lock (Some (lf_addr block)) true)) /\
      forall i x, holds ls' i x =
        if has (lf_flags lock) F_FLOCK && (lf_type lock =? F_WRLCK)
        then update (holds ls) lock None i x else holds ls i x
  end.

Section setlock.
Context (other : Z -> Z) (wchan : Z -> option Z) (waits : Z -> Z * Z).

Lemma clearlock_done extra lock e sa ls :
  range_ok lock -> wf ls -> linked other e (extra ++ ls) ->
  sa ∉ (lf_addr <$> extra ++ ls) -> sa ∉ dom (requests e) ->
  exists e' ls', lf_clearlock e sa lock ls = Ok (e', ls') /\
    clear_done other extra lock e ls e' ls'.
Proof.
  intros Hr Hwf Hl Hsa Hreq. unfold lf_clearlock. destruct ls as [|l ls].
  - eexists _, _. split; [done|]. apply clear_done_refl; [done|set_solver|done].
  - apply (clear_loop_spec other extra lock sa Hr _ e [] (l :: ls)); try done; [set_solver|lia].
Qed.

(** [lf_setlock] never fails to come to a result, and does what it should. *)
Lemma lf_setlock_correct e sa lock ls :
  request_inv other e ls lock -> sa <> lf_addr lock -> fresh e ls sa ->
  exists r e' ls', lf_setlock wchan waits e sa lock ls = Ok (r, e', ls') /\
    inv other e' ls' /\ setlock_post lock ls r e' ls'.
Proof.
  intros [Hwf Hty Hex Hl Hr Ht Hb] Hne [Hsa Hreq]. unfold lf_setlock.
  assert (Hsa' : sa ∉ (lf_addr <$> lock :: ls)) by (cbn; set_solver).
  rewrite lf_getblock_find by (done || apply Hwf). cbn [mbind outcome_bind].
  destruct (List.find (blocksb lock) ls) as [block|] eqn:Hfind.
  - assert (block ∈ ls /\ blocks block lock) as [Hin Hbl].
    { apply List.find_some in Hfind as [? ?]. by rewrite list_elem_of_In, <- blocksb_iff. }
    assert (inv other (lf_free e lock) ls) by (split; try done; by apply linked_free).
    destruct (has (lf_flags lock) F_WAIT) eqn:Hw; cbn [negb].
    2: { eexists _, _, _. split; [done|]. split; [done|]. right. split; [by left|by eauto]. }
    case_match.
    { eexists _, _, _. split; [done|]. split; [done|]. right. split; [by right|by eauto]. }
    set (flk := has (lf_flags lock) F_FLOCK && (lf_type lock =? F_WRLCK)).
    assert (exists e1 ls1,
      (if flk then lf_clearlock e sa (set_type lock F_UNLCK) ls else Ok (e, ls)) = Ok (e1, ls1) /\
      wf ls1 /\ Forall type_ok ls1 /\ exclusive ls1 /\ linked other e1 (lock :: ls1) /\
      block ∈ ls1 /\ forall i x, holds ls1 i x =
        if flk then update (holds ls) lock None i x else holds ls i x)
      as (e1 & ls1 & -> & Hwf1 & Hty1 & Hex1 & Hl1 & Hin1 & Hh1).
    { destruct flk; [|by exists e, ls].
      destruct (clearlock_done [lock] (set_type lock F_UNLCK) e sa ls)
        as (e1 & ls1 & -> & [H1 H2 H3 H4 H5 H6]); try done.
      exists e1, ls1. split; [done|]. split; [done|]. split; [by apply H2|].
      split; [exact (exclusive_cleared _ _ _ Hwf H1 H3 Hex)|]. split; [done|].
      split; [apply H5; [done|apply Hbl]|]. intros i x. by apply holds_cleared. }
    cbn [mbind outcome_bind]. eexists _, _, _. split; [done|]. split.
    + split; [by apply on_lock_wf|by apply on_lock_types| |by apply linked_sleep].
      intros i j x. rewrite !on_lock_holds by done. apply Hex1.
    + split; [done|]. split; [exists block; split; [done|apply lookup_insert_eq]|].
      intros i x. by rewrite on_lock_holds.
  - destruct (lf_link_spec other sa e lock ls) as (e' & ls' & -> & [H1 H2 H3 H4 H5]); try done.
    cbn [mbind outcome_bind]. eexists _, _, _. split; [done|]. split.
    + split; [done|by apply H2|exact (exclusive_placed _ _ _ Hwf H1 H3 Hfind Hex)|done].
    + left. split; [done|]. split; [done|]. intros i x. by apply holds_placed.
Qed.

End setlock.

(** ** Requests of users *)

(** The start of a request, without overflow. *)
Definition offset (size : Z) (fl : flock) : Z :=
  if l_whence fl =? SEEK_END then size + l_start fl else l_start fl.

(** The range of a request, computed without overflow. *)
Definition range_of (size : Z) (fl : flock) : option (Z * Z) :=
  if negb (bool_decide (l_whence fl ∈ [SEEK_SET; SEEK_CUR; SEEK_END])) ||
     (offset size fl <? 0) || (l_len fl <? 0) then None
  else Some (offset size fl, if l_len fl =? 0 then -1 else offset size fl + l_len fl - 1).

(** No sum of the request leaves [off_t]. *)
Definition request_ok (size : Z) (fl : flock) : Prop :=
  - 2 ^ 63 <= offset size fl < 2 ^ 63 /\ - 2 ^ 63 < offset size fl + l_len fl < 2 ^ 63.

#[global] Instance request_ok_dec size fl : Decision (request_ok size fl).
Proof. unfold request_ok. apply _. Defined.

Lemma lock_range_of size fl : request_ok size fl -> lock_range size fl = range_of size fl.
Proof.
  unfold request_ok, range_of, lock_range, offset. intros [Ho Hs].
  assert (Hin : bool_decide (l_whence fl ∈ [SEEK_SET; SEEK_CUR; SEEK_END]) =
    ((l_whence fl =? SEEK_SET) || (l_whence fl =? SEEK_CUR)) || (l_whence fl =? SEEK_END)).
  { apply eq_true_iff_eq. rewrite bool_decide_eq_true, !orb_true_iff, !Z.eqb_eq. set_solver. }
  rewrite Hin. clear Hin.
  assert (forall start, - 2 ^ 63 <= start < 2 ^ 63 -> - 2 ^ 63 < start + l_len fl < 2 ^ 63 ->
    (if start <? 0 then None
     else if l_len fl =? 0 then Some (start, -1)
     else if wraps 64 (wraps 64 (start + l_len fl) - 1) <? start then None
          else Some (start, wraps 64 (wraps 64 (start + l_len fl) - 1))) =
    (if (start <? 0) || (l_len fl <? 0) then None
     else Some (start, if l_len fl =? 0 then -1 else start + l_len fl - 1))) as Hgen.
  { intros start Hst Hse. rewrite !s64_small by (rewrite ?s64_small by lia; lia).
    repeat case_if; done || lia. }
  destruct (l_whence fl =? SEEK_END) eqn:Hw; zify_bool.
  - rewrite Hw in *. cbn [orb negb]. rewrite s64_small by lia. by apply Hgen.
  - rewrite orb_false_r. destruct ((l_whence fl =? SEEK_SET) || (l_whence fl =? SEEK_CUR));
      cbn [orb negb]; [by apply Hgen|done].
Qed.

Lemma range_of_ok size fl start end_ :
  request_ok size fl -> range_of size fl = Some (start, end_) ->
  0 <= start < 2 ^ 63 /\ (end_ = -1 \/ start <= end_ < 2 ^ 63 - 1).
Proof.
  unfold request_ok, range_of. intros [Ho Hs]. case_if; [done|]. intros [= <- <-].
  case_if; lia.
Qed.

(** The lock that [lf_advlock] allocates for a request. *)
Definition new_lock (a flags start end_ id uid pid type : Z) : lockf :=
  Lock a flags type start end_ id uid (if has flags F_POSIX then pid else -1) [].

(** The user is over the limit that the operation has. *)
Definition over_limit (e : env) (uid op : Z) : Prop :=
  uid <> 0 /\ (if op =? F_SETLK then maxlocksperuid else maxlocksperuid * 2) < lockcnt e uid.

Section advlock.
Context (other : Z -> Z) (wchan : Z -> option Z) (waits : Z -> Z * Z).

(** The allocation at the start of an operation. *)
Lemma lf_alloc_cases e uid op :
  (over_limit e uid op /\ lf_alloc e uid (if op =? F_SETLK then 1 else 2) = None) \/
  (~ over_limit e uid op /\
   lf_alloc e uid (if op =? F_SETLK then 1 else 2) = Some (lf_count e uid 1)).
Proof.
  unfold over_limit, lf_alloc.
  replace (if (if op =? F_SETLK then 1 else 2) =? 1 then maxlocksperuid else maxlocksperuid * 2)
    with (if op =? F_SETLK then maxlocksperuid else maxlocksperuid * 2) by (by case_if).
  replace (negb ((if op =? F_SETLK then 1 else 2) =? 0)) with true by (by case_if).
  rewrite andb_true_r.
  destruct (negb (uid =? 0) && _) eqn:E; zify_bool; [by left|right].
  split; [|done]. destruct E; zify_bool; lia.
Qed.

Lemma linked_new e ls lock :
  inv other e ls -> lf_blkhd lock = [] -> fresh e ls (lf_addr lock) ->
  linked other (lf_count e (lf_uid lock) 1) (lock :: ls).
Proof.
  intros [_ _ _ Hl] Hb [Hf1 Hf2]. apply linked_alloc; try done. by apply not_elem_of_dom.
Qed.

(** The effect of [F_SETLK]. *)
Definition setlk_post (e : env) (ls : list lockf) (size id : Z) (fl : flock) (flags uid pid a : Z)
    (r : result) (e' : env) (ls' : list lockf) : Prop :=
  match range_of size fl with
  | None => r = Return EINVAL /\ e' = e /\ ls' = ls
  | Some (start, end_) =>
      (over_limit e uid F_SETLK /\ r = Return ENOLCK /\ e' = e /\ ls' = ls) \/
      (~ over_limit e uid F_SETLK /\
       setlock_post (new_lock a flags start end_ id uid pid (l_type fl)) ls r e' ls')
  end.

Lemma lf_setlk_correct e ls size id fl flags uid pid a sa :
  inv other e ls -> request_ok size fl -> l_type fl ∈ [F_RDLCK; F_WRLCK] ->
  fresh e ls a -> fresh e ls sa -> a <> sa ->
  exists r fl' e' ls',
    lf_advlock wchan waits e ls size id F_SETLK fl flags uid pid a sa = Ok (r, fl', e', ls') /\
    inv other e' ls' /\ setlk_post e ls size id fl flags uid pid a r e' ls'.
Proof.
  intros Hinv Hok Hty Ha Hsa Hne. unfold lf_advlock, setlk_post.
  rewrite lock_range_of by done.
  destruct (range_of size fl) as [[start end_]|] eqn:Hr; [|by eauto 10].
  pose proof (range_of_ok _ _ _ _ Hok Hr) as Hrange. rewrite andb_false_r.
  destruct (lf_alloc_cases e uid F_SETLK) as [[Hov ->]|[Hov ->]]; 
    [eexists _, _, _, _; split; [done|]; split; [done|]; by left|].
  change (F_SETLK =? F_SETLK) with true. cbn [mbind outcome_bind].
  set (lock := Lock _ _ _ _ _ _ _ _ _).
  destruct (lf_setlock_correct other wchan waits (lf_count e uid 1) sa lock ls)
    as (r & e' & ls' & -> & Hi & Hp); [|done|done|].
  - pose proof Hinv as [? ? ? ?]. split; try done.
    + by apply (linked_new e ls lock).
    + unfold type_ok, lock. cbn. set_solver.
  - cbn. eauto 10.
Qed.

(** The effect of [F_UNLCK]. *)
Definition unlck_post (e : env) (ls : list lockf) (size id : Z) (fl : flock) (flags uid pid a : Z)
    (r : result) (ls' : list lockf) : Prop :=
  match range_of size fl with
  | None => r = Return EINVAL /\ ls' = ls
  | Some (start, end_) =>
      (ls <> [] /\ over_limit e uid F_UNLCK /\ r = Return ENOLCK /\ ls' = ls) \/
      (r = Return 0 /\ forall i x, holds ls' i x =
         update (holds ls) (new_lock a flags start end_ id uid pid (l_type fl)) None i x)
  end.

Lemma lf_unlck_correct e ls size id fl flags uid pid a sa :
  inv other e ls -> request_ok size fl -> fresh e ls a -> fresh e ls sa -> a <> sa ->
  exists r fl' e' ls',
    lf_advlock wchan waits e ls size id F_UNLCK fl flags uid pid a sa = Ok (r, fl', e', ls') /\
    inv other e' ls' /\ unlck_post e ls size id fl flags uid pid a r ls'.
Proof.
  intros Hinv Hok Ha Hsa Hne. unfold lf_advlock, unlck_post.
  rewrite lock_range_of by done.
  destruct (range_of size fl) as [[start end_]|] eqn:Hr; [|by eauto 10].
  pose proof (range_of_ok _ _ _ _ Hok Hr) as Hrange.
  destruct ls as [|l ls]; cbn [andb negb Z.eqb Pos.eqb F_UNLCK F_SETLK].
  { eexists _, _, _, _. split; [done|]. split; [done|]. right. split; [done|].
    intros i x. unfold update. by case_decide. }
  destruct (lf_alloc_cases e uid F_UNLCK) as [[Hov Heq]|[Hov Heq]]; cbn in Heq; rewrite Heq; clear Heq.
  { eexists _, _, _, _. split; [done|]. split; [done|]. left. done. }
  set (lock := Lock _ _ _ _ _ _ _ _ _). pose proof Hinv as [Hwf Hty Hex Hl].
  assert (linked other (lf_count e uid 1) (lock :: l :: ls)) as Hl1
    by (by apply (linked_new e (l :: ls) lock)).
  destruct (clearlock_done other [lock] lock (lf_count e uid 1) sa (l :: ls))
    as (e1 & ls1 & -> & [H1 H2 H3 H4 H5 H6]); try done.
  { cbn. destruct Hsa. set_solver. }
  { apply Hsa. }
  cbn [mbind outcome_bind]. eexists _, _, _, _. split; [done|]. split.
  - split; [done|by apply H2|exact (exclusive_cleared _ _ _ Hwf H1 H3 Hex)|by apply linked_free].
  - right. split; [done|]. intros i x. by apply holds_cleared.
Qed.

(** The effect of [F_GETLK] and of a bad operation. *)
Definition getlk_post (e : env) (ls : list lockf) (size id : Z) (fl : flock) (flags uid pid a : Z)
    (r : result) (fl' : flock) : Prop :=
  match range_of size fl with
  | None => r = Return EINVAL /\ fl' = fl
  | Some (start, end_) =>
      (ls <> [] /\ over_limit e uid F_GETLK /\ r = Return ENOLCK /\ fl' = fl) \/
      (r = Return 0 /\
       match List.find (blocksb (new_lock a flags start end_ id uid pid (l_type fl))) ls with
       | Some b => range_of 0 fl' = Some (lf_start b, lf_end b) /\ l_whence fl' = SEEK_SET /\
                   l_type fl' = lf_type b /\ l_pid fl' = lf_pid b
       | None => fl' = set_l_type fl F_UNLCK
       end)
  end.

(** Counting a lock up and down again changes no count. *)
Lemma inv_count_undo e ls lock :
  inv other e ls -> lf_blkhd lock = [] -> fresh e ls (lf_addr lock) ->
  inv other (lf_free (lf_count e (lf_uid lock) 1) lock) ls.
Proof.
  intros Hinv Hb Hf. pose proof (linked_new e ls lock Hinv Hb Hf) as Hl.
  destruct Hinv. split; try done. by apply linked_free.
Qed.

Lemma lf_getlk_correct e ls size id fl flags uid pid a sa :
  inv other e ls -> request_ok size fl -> fresh e ls a ->
  exists r fl' e',
    lf_advlock wchan waits e ls size id F_GETLK fl flags uid pid a sa = Ok (r, fl', e', ls) /\
    inv other e' ls /\ getlk_post e ls size id fl flags uid pid a r fl'.
Proof.
  intros Hinv Hok Ha. unfold lf_advlock, getlk_post. rewrite lock_range_of by done.
  destruct (range_of size fl) as [[start end_]|] eqn:Hr; [|by eauto 10].
  pose proof (range_of_ok _ _ _ _ Hok Hr) as Hrange.
  destruct ls as [|l ls]; cbn [andb negb Z.eqb Pos.eqb F_GETLK F_SETLK F_UNLCK].
  { eexists _, _, _. split; [done|]. split; [done|]. right. done. }
  destruct (lf_alloc_cases e uid F_GETLK) as [[Hov Heq]|[Hov Heq]]; cbn in Heq; rewrite Heq; clear Heq.
  { eexists _, _, _. split; [done|]. split; [done|]. left. done. }
  unfold new_lock. set (lock := Lock _ _ _ _ _ _ _ _ _).
  assert (Hwf : Forall range_ok (l :: ls)) by apply Hinv.
  unfold lf_getlock. rewrite lf_getblock_find by done. cbn [mbind outcome_bind].
  assert (Hinv' : inv other (lf_free (lf_count e uid 1) lock) (l :: ls))
    by (by apply (inv_count_undo e _ lock)).
  destruct (List.find (blocksb lock) (l :: ls)) as [b|] eqn:Hfind.
  - eexists _, _, _. split; [done|]. split; [done|]. right. split; [done|]. split_and!; try done.
    apply List.find_some in Hfind as [Hin%list_elem_of_In _].
    rewrite Forall_forall in Hwf. destruct (Hwf b Hin) as [? ?].
    unfold range_of, offset. cbn [l_whence l_start l_len Z.eqb SEEK_SET SEEK_END Pos.eqb].
    rewrite bool_decide_true by set_solver. cbn [negb orb].
    destruct (lf_end b =? -1) eqn:E; zify_bool.
    + rewrite E. by replace (lf_start b <? 0) with false by (symmetry; apply Z.ltb_ge; lia).
    + rewrite s64_small by lia. repeat case_if; try lia. f_equal. f_equal. lia.
  - eexists _, _, _. split; [done|]. split; [done|]. right. done.
Qed.

End advlock.

(** ** Sequences of operations *)

(** What happens to the locks of a file: an operation of a file system, a signal
    to a process that sleeps, a process that runs again. *)
Inductive lf_event : Type :=
| Advlock (size id op : Z) (fl : flock) (flags uid pid a sa : Z)
| Signal (a : Z)
| Resume (a sa error : Z).

Definition run (wchan : Z -> option Z) (waits : Z -> Z * Z) (ev : lf_event) (e : env)
    (ls : list lockf) : outcome (env * list lockf) :=
  match ev with
  | Advlock size id op fl flags uid pid a sa =>
      '(_, _, e', ls') ← lf_advlock wchan waits e ls size id op fl flags uid pid a sa; Ok (e', ls')
  | Signal a => Ok (lf_signal e a, ls)
  | Resume a sa error => '(_, e', ls') ← lf_resume wchan waits e sa a error ls; Ok (e', ls')
  end.

(** The events that can happen: addresses are new, sums do not overflow, a
    process that runs again does not sleep. *)
Definition event_ok (ev : lf_event) (e : env) (ls : list lockf) : Prop :=
  match ev with
  | Advlock size _ op fl _ _ _ a sa =>
      request_ok size fl /\ fresh e ls a /\ fresh e ls sa /\ a <> sa /\
      (op = F_SETLK -> l_type fl ∈ [F_RDLCK; F_WRLCK])
  | Signal _ => True
  | Resume a sa _ =>
      fresh e ls sa /\ exists r, requests e !! a = Some r /\ rq_asleep r = false
  end.

(** The states of the locks of one file; [other] counts the locks on others. *)
Inductive reachable (other : Z -> Z) : env -> list lockf -> Prop :=
| reach_init e :
    requests e = ∅ -> (forall u, lockcnt e u = other u) -> reachable other e []
| reach_step e ls ev wchan waits e' ls' :
    reachable other e ls -> event_ok ev e ls ->
    run wchan waits ev e ls = Ok (e', ls') -> reachable other e' ls'.

Section events.
Context (other : Z -> Z) (wchan : Z -> option Z) (waits : Z -> Z * Z).

(** What follows the sleep of a request. *)
Definition resume_post (e : env) (ls : list lockf) (a error : Z) (r : result) (e' : env)
    (ls' : list lockf) : Prop :=
  exists rq, requests e !! a = Some rq /\
    if error =? 0 then
      exists ls1, (forall i x, holds ls1 i x = holds ls i x) /\
        setlock_post (rq_lock rq) ls1 r e' ls'
    else r = Return error /\ requests e' !! a = None /\ forall i x, holds ls' i x = holds ls i x.

Lemma lf_resume_correct e ls a sa error :
  inv other e ls -> event_ok (Resume a sa error) e ls ->
  exists r e' ls', lf_resume wchan waits e sa a error ls = Ok (r, e', ls') /\
    inv other e' ls' /\ resume_post e ls a error r e' ls'.
Proof.
  intros Hinv [[Hsa1 Hsa2] (rq & Hrq & Has)]. unfold lf_resume, resume_post. rewrite Hrq.
  pose proof Hinv as [Hwf Hty Hex Hl].
  destruct (lk_request _ _ _ Hl a rq Hrq) as (Hna & Haa & Hrr & Hrt & Hrb).
  pose proof (linked_resume other e a rq ls Hl Hrq) as Hl1.
  set (ls1 := match rq_next rq with Some b => _ | None => ls end) in *.
  assert (Hh : forall i x, holds ls1 i x = holds ls i x).
  { intros. unfold ls1. destruct (rq_next rq); [by apply on_lock_holds|done]. }
  assert (Hri : request_inv other (Env (delete a (requests e)) (ui_lockcnt e)) ls1 (rq_lock rq)).
  { split; try done.
    - unfold ls1. destruct (rq_next rq); [by apply on_lock_wf|done].
    - unfold ls1. destruct (rq_next rq); [by apply on_lock_types|done].
    - intros i j x. rewrite !Hh. apply Hex. }
  destruct (error =? 0) eqn:E; cbn [negb].
  - destruct (lf_setlock_correct other wchan waits _ sa _ _ Hri) as (r & e' & ls' & -> & Hi & Hp).
    + intros ->. apply Hsa2. rewrite Haa. by apply elem_of_dom.
    + split; [|cbn; set_solver]. unfold ls1. destruct (rq_next rq); [by rewrite on_lock_addr|done].
    + eauto 10.
  - destruct Hri. eexists _, _, _. split; [done|]. split.
    + split; try done. by apply linked_free.
    + exists rq. split; [done|]. split; [done|]. split; [cbn; apply lookup_delete_eq|done].
Qed.

(** Every event comes to an end without a panic and keeps the invariant. *)
Lemma run_inv ev e ls :
  inv other e ls -> event_ok ev e ls ->
  exists e' ls', run wchan waits ev e ls = Ok (e', ls') /\ inv other e' ls'.
Proof.
  intros Hinv Hok. destruct ev as [size id op fl flags uid pid a sa|a|a sa error]; cbn [run].
  - destruct Hok as (Hr & Ha & Hsa & Hne & Hty).
    destruct (decide (op = F_SETLK)) as [->|H1]; [|destruct (decide (op = F_UNLCK)) as [->|H2];
      [|destruct (decide (op = F_GETLK)) as [->|H3]]].
    + destruct (lf_setlk_correct other wchan waits e ls size id fl flags uid pid a sa)
        as (r & fl' & e' & ls' & -> & Hi & _); auto. cbn. eauto.
    + destruct (lf_unlck_correct other wchan waits e ls size id fl flags uid pid a sa)
        as (r & fl' & e' & ls' & -> & Hi & _); auto. cbn. eauto.
    + destruct (lf_getlk_correct other wchan waits e ls size id fl flags uid pid a sa)
        as (r & fl' & e' & -> & Hi & _); auto. cbn. eauto.
    + unfold lf_advlock. destruct (lock_range size fl) as [[start end_]|]; [|by eauto].
      case_match; [by eauto|].
      apply Z.eqb_neq in H1, H2, H3.
      destruct (lf_alloc_cases e uid op) as [[_ ->]|[_ ->]]; [by eauto|].
      rewrite H1, H2, H3. cbn. eexists _, _. split; [done|].
      by apply (inv_count_undo other e ls (Lock a flags (l_type fl) start end_ id uid _ [])).
  - eexists _, _. split; [done|]. destruct Hinv. split; try done. by apply linked_signal.
  - destruct (lf_resume_correct e ls a sa error Hinv Hok) as (r & e' & ls' & -> & Hi & _).
    cbn. eauto.
Qed.

End events.

Lemma reachable_inv other e ls : reachable other e ls -> inv other e ls.
Proof.
  induction 1 as [e He Hc|e ls ev wchan waits e' ls' _ IH Hok Hrun].
  - split; [by split; constructor|constructor|done|]. split; rewrite ?He; try done; try set_solver.
    + constructor.
    + intros u. rewrite Hc. unfold waiting, uid_count. rewrite He, map_to_list_empty. cbn. lia.
  - destruct (run_inv other wchan waits ev e ls IH Hok) as (e2 & ls2 & Heq & Hi).
    rewrite Hrun in Heq. by simplify_eq.
Qed.

(** ** The properties *)

(** C16: in every state that operations lead to whose ranges do not overflow [off_t]
    (see [unlock_overflow]), the locks of an owner are disjoint and in the order of
    their offsets, two owners share a byte only if both hold it shared, and whatever
    such operation happens next (an operation, a signal, a process that runs again)
    ends without a panic: no overlap falls outside of the six cases, and no lock is
    linked or freed twice.  Operations are one step up to their [tsleep]: no other
    runs while one waits for memory. *)
Theorem lockf_invariant other e ls :
  reachable other e ls ->
  (forall i j li lj, ls !! i = Some li -> ls !! j = Some lj -> (i < j)%nat ->
     lf_id li = lf_id lj -> lf_end li <> -1 /\ lf_end li < lf_start lj) /\
  (forall i j x, i <> j -> holds ls i x = Some F_WRLCK -> holds ls j x = None) /\
  (forall wchan waits ev, event_ok ev e ls -> run wchan waits ev e ls <> Panic).
Proof.
  intros Hinv%reachable_inv. pose proof Hinv as [[_ Hs] _ Hex _]. split; [|split; [done|]].
  - clear Hinv Hex. induction Hs as [|l ls Hs IH Ho]; [done|].
    intros [|i] [|j] li lj Hi Hj Hij Hid; try lia; cbn in *.
    + injection Hi as <-. rewrite Forall_forall in Ho. apply (Ho lj); [|done].
      by eapply list_elem_of_lookup_2.
    + eapply IH; [done|done|lia|done].
  - intros wchan waits ev Hok.
    destruct (run_inv other wchan waits ev e ls Hinv Hok) as (e' & ls' & -> & _). done.
Qed.


(** Unlocking takes the range away from the owner, splitting a lock where
    needed, and changes nothing else; it fails with EINVAL for a bad range and
    with ENOLCK only above twice the limit of the user.  Reading the locks
    changes none and describes the first lock that conflicts with the request,
    as a range that a request can name again, or says that there is none. *)
Theorem lockf_unlck_getlk other wchan waits e ls size id fl flags uid pid a sa :
  reachable other e ls -> request_ok size fl -> fresh e ls a -> fresh e ls sa -> a <> sa ->
  (exists r fl' e' ls',
     lf_advlock wchan waits e ls size id F_UNLCK fl flags uid pid a sa = Ok (r, fl', e', ls') /\
     unlck_post e ls size id fl flags uid pid a r ls') /\
  (exists r fl' e',
     lf_advlock wchan waits e ls size id F_GETLK fl flags uid pid a sa = Ok (r, fl', e', ls) /\
     getlk_post e ls size id fl flags uid pid a r fl').
Proof.
  intros Hr%reachable_inv Hok Ha Hsa Hne. split.
  - destruct (lf_unlck_correct other wchan waits e ls size id fl flags uid pid a sa)
      as (r & fl' & e' & ls' & Heq & _ & Hp); eauto 10.
  - destruct (lf_getlk_correct other wchan waits e ls size id fl flags uid pid a sa)
      as (r & fl' & e' & Heq & _ & Hp); eauto 10.
Qed.

(** C18: no wake-up is lost.  A request that sleeps is among the waiters of a
    lock of the list that conflicts with it now, so it is woken when that lock
    goes or shrinks; a request that no lock blocks does not sleep.  When it runs
    again it asks anew, or gives up with the error of its sleep and leaves no
    trace. *)
Theorem lockf_no_lost_wakeup other wchan waits e ls a r :
  reachable other e ls -> requests e !! a = Some r ->
  (rq_asleep r = true -> exists l, l ∈ ls /\ rq_next r = Some (lf_addr l) /\
     a ∈ lf_blkhd l /\ blocks l (rq_lock r)) /\
  (List.find (blocksb (rq_lock r)) ls = None -> rq_asleep r = false) /\
  (forall sa error, fresh e ls sa -> rq_asleep r = false -> exists r' e' ls',
     lf_resume wchan waits e sa a error ls = Ok (r', e', ls') /\
     resume_post e ls a error r' e' ls').
Proof.
  intros Hinv%reachable_inv Hr. pose proof Hinv as [_ _ _ Hl].
  assert (Hblk : rq_asleep r = true -> exists l, l ∈ ls /\ rq_next r = Some (lf_addr l) /\
    a ∈ lf_blkhd l /\ blocks l (rq_lock r)).
  { intros Has. destruct (lk_asleep _ _ _ Hl a r Hr Has) as [b Hb].
    destruct (lk_next _ _ _ Hl a r b Hr Hb) as (l & Hin & <- & Ha). exists l.
    destruct (lk_blkhd _ _ _ Hl l Hin) as [_ Hx]. destruct (Hx a Ha) as (r' & Hr' & _ & Hbl).
    rewrite Hr in Hr'. injection Hr' as <-. done. }
  split; [done|]. split.
  - intros Hnone. destruct (rq_asleep r); [|done]. destruct Hblk as (l & Hin & _ & _ & Hb); [done|].
    apply list_elem_of_In in Hin. apply blocksb_iff in Hb.
    pose proof (List.find_none _ _ Hnone l Hin). congruence.
  - intros sa error Hsa Has.
    destruct (lf_resume_correct other wchan waits e ls a sa error Hinv)
      as (r' & e' & ls' & Heq & _ & Hp); [split; eauto|eauto].
Qed.

(** The count of a user is the number of his locks on this file, held or
    waited for, and on others; so it never goes below the latter, no lock is
    leaked, and a user other than root who gets a lock or waits for one had at
    most [maxlocksperuid] of them before. *)
Theorem lockf_counts other e ls :
  reachable other e ls ->
  (forall u, lockcnt e u = other u + uid_count u ls + uid_count u (waiting e)) /\
  (forall wchan waits size id fl flags uid pid a sa r fl' e' ls',
     uid <> 0 -> request_ok size fl -> l_type fl ∈ [F_RDLCK; F_WRLCK] ->
     fresh e ls a -> fresh e ls sa -> a <> sa ->
     lf_advlock wchan waits e ls size id F_SETLK fl flags uid pid a sa = Ok (r, fl', e', ls') ->
     r = Return 0 \/ r = Sleeps -> lockcnt e uid <= maxlocksperuid).
Proof.
  intros Hinv%reachable_inv. split; [apply Hinv|].
  intros wchan waits size id fl flags uid pid a sa r fl' e' ls' Hu Hok Ht Ha Hsa Hne Hadv Hr.
  destruct (lf_setlk_correct other wchan waits e ls size id fl flags uid pid a sa)
    as (r1 & fl1 & e1 & ls1 & Heq & _ & Hp); try done.
  rewrite Hadv in Heq. simplify_eq. unfold setlk_post in Hp.
  destruct (range_of size fl) as [[start end_]|]; [|destruct Hp as (-> & _); naive_solver].
  destruct Hp as [(_ & -> & _)|[Hov _]]; [naive_solver|].
  unfold over_limit in Hov. cbn in Hov. lia.
Qed.

(** ** Concrete runs *)

Definition no_chan (id : Z) : option Z := None.
Definition no_wait (c : Z) : Z * Z := (0, 0).
Definition empty_env : env := Env ∅ ∅.
Definition range (start len type : Z) : flock := Flock start len 0 type SEEK_SET.

(** The state after a sequence of events. *)
Fixpoint run_all (evs : list lf_event) (e : env) (ls : list lockf) : outcome (env * list lockf) :=
  match evs with
  | [] => Ok (e, ls)
  | ev :: evs' => '(e', ls') ← run no_chan no_wait ev e ls; run_all evs' e' ls'
  end.

Lemma reachable_run_all other evs e ls e' ls' :
  reachable other e ls -> run_all evs e ls = Ok (e', ls') ->
  (forall n ev e1 ls1, evs !! n = Some ev -> run_all (take n evs) e ls = Ok (e1, ls1) ->
     event_ok ev e1 ls1) -> reachable other e' ls'.
Proof.
  revert e ls. induction evs as [|ev evs IH]; intros e ls Hr Hrun Hok; cbn in Hrun; [by simplify_eq|].
  destruct (run no_chan no_wait ev e ls) as [[e1 ls1]|] eqn:E; [|done]. cbn in Hrun.
  apply (IH e1 ls1); [|done|].
  - eapply reach_step; [done| |done]. by apply (Hok 0%nat).
  - intros n ev' e2 ls2 Hn Hr2. apply (Hok (S n) ev' e2 ls2 Hn). cbn. by rewrite E.
Qed.

(** Owner 100 holds bytes 0 to 9 exclusively, owner 200 waits for 5 to 14. *)
Definition two_owners : list lf_event :=
  [Advlock 0 100 F_SETLK (range 0 10 F_WRLCK) F_POSIX 7 1 1000 1001;
   Advlock 0 200 F_SETLK (range 5 10 F_RDLCK) (F_POSIX .| F_WAIT) 8 2 1002 1003].

Definition two_state : env * list lockf :=
  match run_all two_owners empty_env [] with Ok s => s | Panic => (empty_env, []) end.

Lemma two_reachable : reachable (fun _ => 0) (fst two_state) (snd two_state).
Proof.
  apply (reachable_run_all _ two_owners empty_env []); [by apply reach_init|done|].
  intros [|[|n]] ev e1 ls1 Hev Hrun; cbn in Hev; simplify_eq.
  - injection Hrun as <- <-. cbn [event_ok]. split_and!; by_decide || by (intros _; set_solver).
  - vm_compute in Hrun. injection Hrun as <- <-. cbn [event_ok].
    split_and!; by_decide || by (intros _; set_solver).
Qed.

Lemma lockf_invariant_witness :
  holds (snd two_state) 100 5 = Some F_WRLCK /\ holds (snd two_state) 200 5 = None.
Proof.
  split; [reflexivity|]. destruct (lockf_invariant _ _ _ two_reachable) as (_ & H & _).
  apply (H 100 200 5); [done|reflexivity].
Defined.


(** Owner 100 unlocks bytes in the middle of its lock. *)
Lemma lockf_unlck_getlk_witness :
  exists r fl' e' ls',
    lf_advlock no_chan no_wait (fst two_state) (snd two_state) 0 100 F_UNLCK
      (range 3 2 F_UNLCK) F_POSIX 7 1 1004 1005 = Ok (r, fl', e', ls') /\
    unlck_post (fst two_state) (snd two_state) 0 100 (range 3 2 F_UNLCK) F_POSIX 7 1 1004 r ls'.
Proof.
  apply (lockf_unlck_getlk (fun _ => 0) no_chan no_wait); try by_decide. exact two_reachable.
Defined.

Lemma lockf_no_lost_wakeup_witness :
  exists r, requests (fst two_state) !! 1002 = Some r /\ rq_asleep r = true /\
    exists l, l ∈ snd two_state /\ rq_next r = Some (lf_addr l) /\ blocks l (rq_lock r).
Proof.
  eexists. split; [vm_compute; reflexivity|]. split; [reflexivity|].
  destruct (lockf_no_lost_wakeup (fun _ => 0) no_chan no_wait _ _ 1002 _ two_reachable
    ltac:(vm_compute; reflexivity)) as (H & _).
  destruct (H eq_refl) as (l & ? & ? & ? & ?). exists l. done.
Defined.

Lemma lockf_counts_witness :
  lockcnt (fst two_state) 8 = 1 /\
  lockcnt (fst two_state) 8 =
    0 + uid_count 8 (snd two_state) + uid_count 8 (waiting (fst two_state)).
Proof.
  split; [reflexivity|]. destruct (lockf_counts _ _ _ two_reachable) as (H & _). apply (H 8).
Defined.

(** ** What the code does at its edges *)

(** The length of a request may reach past the last offset: the sum with the
    start wraps around and comes back to the greatest offset.  Unlocking from 5
    to there in a lock to the end of the file leaves, beside the head, a lock
    that starts at the least offset and still covers every byte. *)
Example unlock_overflow :
  lock_range 0 (range 5 (2 ^ 63 - 5) F_UNLCK) = Some (5, 2 ^ 63 - 1) /\
  exists e ls, run_all
    [Advlock 0 100 F_SETLK (range 0 0 F_WRLCK) F_POSIX 7 1 1000 1001;
     Advlock 0 100 F_UNLCK (range 5 (2 ^ 63 - 5) F_UNLCK) F_POSIX 7 1 1002 1003]
    empty_env [] = Ok (e, ls) /\
    (fun l => (lf_start l, lf_end l)) <$> ls = [(0, 4); (- 2 ^ 63, -1)] /\
    holds ls 100 7 = Some F_WRLCK.
Proof. split; [reflexivity|]. do 2 eexists. vm_compute. done. Qed.

(** The list is in order for each owner, not as a whole. *)
Example list_not_sorted :
  exists e ls, run_all
    [Advlock 0 100 F_SETLK (range 50 10 F_WRLCK) F_POSIX 7 1 1000 1001;
     Advlock 0 200 F_SETLK (range 0 10 F_WRLCK) F_POSIX 8 2 1002 1003]
    empty_env [] = Ok (e, ls) /\ lf_start <$> ls = [50; 0].
Proof. do 2 eexists. vm_compute. done. Qed.

(** Owner 100 holds a lock on one file and waits for owner 200 on another.  Now
    200 asks for the lock of the first file.  Were [lf_id] a process that sleeps
    on its request, the walk would find the cycle; it is the address of a file
    descriptor table, where no wait channel is, and both sleep forever. *)
Example deadlock_goes_unnoticed :
  let held := snd two_state in
  let ask := Lock 1010 (F_POSIX .| F_WAIT) F_WRLCK 0 9 200 8 2 [] in
  (exists e ls, lf_setlock no_chan no_wait (fst two_state) 1011 ask held = Ok (Sleeps, e, ls)) /\
  (exists e ls, lf_setlock (fun id => if id =? 100 then Some 2000 else None)
     (fun c => (F_POSIX, 200)) (fst two_state) 1011 ask held = Ok (Return EDEADLK, e, ls)).
Proof. cbn zeta. split; do 2 eexists; vm_compute; done. Qed.

End LockfSpec.
