(* ===== verification/Descrip.v ===== *)
(** * File descriptors (kern/kern_descrip.c)

    The descriptor table of a process and the open files it refers to.  A table
    has the arrays of the source as lists: the open files ([None] is NULL), the
    flags, and two bit maps, where bit [fd] of [fd_lomap] says that [fd] is in
    use and bit [w] of [fd_himap] that word [w] of [fd_lomap] is full.  Open
    files are objects of a store, by address, so that descriptors share them;
    [f_count] counts references.

    Functions return [None] where the code would read or write outside of an
    array, follow a pointer to a file that is gone, or panic; the restarts after
    [fdexpand] have fuel ([None] when it runs out).  Calls that leave the
    component are recorded in the [log]: the close routine of a file
    ([fo_close], whose result is an argument), the removal of the locks of a
    process on a vnode ([VOP_ADVLOCK]) and of its events ([knote_fdclose]), and
    what [pipe] does with the pipes themselves.
    [mallocarray] and [pool_get] wait for memory; the address of a new file is
    an argument.  The limits [rlim_cur] and [maxfiles] are arguments, too.  A
    system call holds the lock of the table, so that calls do not interleave.

    Not modelled: the list of all files ([f_list]) and the credentials of a
    file. *)

From S2P Require Import Prelude Libkern.
Import Libkern.
#[local] Open Scope Z_scope.

Module Descrip.

(** ** Constants *)

Definition NDFILE : Z := 20.
Definition NDEXTENT : Z := 50.
Definition NDENTRIES : Z := 32.
Definition NDENTRYMASK : Z := NDENTRIES - 1.
Definition NDENTRYSHIFT : Z := 5.
Definition NDREDUCE (x : Z) : Z := Z.shiftr (x + NDENTRIES - 1) NDENTRYSHIFT.
Definition NDHISLOTS (x : Z) : Z := NDREDUCE (NDREDUCE x).
Definition NDLOSLOTS (x : Z) : Z := Z.shiftl (NDHISLOTS x) NDENTRYSHIFT.
Definition UF_EXCLOSE : Z := 0x01.
Definition FD_ADVLOCK : Z := 0x01.
Definition FIF_LARVAL : Z := 0x02.
Definition DTYPE_VNODE : Z := 1.
Definition DTYPE_KQUEUE : Z := 4.
Definition DTYPE_SYSTRACE : Z := 6.
Definition FREAD : Z := 0x0001.
Definition FWRITE : Z := 0x0002.
Definition O_CLOEXEC : Z := 0x10000.
Definition F_DUPFD_CLOEXEC : Z := 10.
Definition PS_SUGID : Z := 0x10.
Definition PS_SUGIDEXEC : Z := 0x20.
Definition LONG_MAX : Z := 2 ^ 63 - 1.
Definition EACCES : Z := 13.
Definition ENFILE : Z := 23.
Definition EMFILE : Z := 24.
Definition ENOSPC : Z := 28.

(** [~0] of a [u_int]. *)
Definition full : Z := 2 ^ 32 - 1.

(** ** Data *)

Record file := File {
  f_flag : Z;
  f_type : Z;
  f_count : Z;
  f_ops : bool;
  f_data : Z;
  f_iflags : Z;
}.

Record filedesc := Fdesc {
  fd_self : Z;
  fd_ofiles : list (option Z);
  fd_ofileflags : list Z;
  fd_nfiles : Z;
  fd_openfd : Z;
  fd_himap : list Z;
  fd_lomap : list Z;
  fd_lastfile : Z;
  fd_freefile : Z;
  fd_refcnt : Z;
  fd_knlistsize : Z;
  fd_flags : Z;
}.

(** Calls of code outside of the component. *)
Inductive call : Type :=
| FoClose (fp : Z)
| Unlock (vp id : Z)
| KnoteClose (fd : Z)
| PipeClose (pipe : Z)
| PipeConnect (rpipe wpipe : Z).

Record store := Store {
  files : gmap Z file;
  nfiles : Z;
  log : list call;
}.

Definition set_files (st : store) (m : gmap Z file) : store := Store m (nfiles st) (log st).
Definition add_log (st : store) (c : call) : store := Store (files st) (nfiles st) (log st ++ [c]).

Definition set_ofiles (t : filedesc) (o : list (option Z)) : filedesc :=
  Fdesc (fd_self t) o (fd_ofileflags t) (fd_nfiles t) (fd_openfd t) (fd_himap t) (fd_lomap t)
        (fd_lastfile t) (fd_freefile t) (fd_refcnt t) (fd_knlistsize t) (fd_flags t).
Definition set_ofileflags (t : filedesc) (fl : list Z) : filedesc :=
  Fdesc (fd_self t) (fd_ofiles t) fl (fd_nfiles t) (fd_openfd t) (fd_himap t) (fd_lomap t)
        (fd_lastfile t) (fd_freefile t) (fd_refcnt t) (fd_knlistsize t) (fd_flags t).
Definition set_maps (t : filedesc) (hi lo : list Z) : filedesc :=
  Fdesc (fd_self t) (fd_ofiles t) (fd_ofileflags t) (fd_nfiles t) (fd_openfd t) hi lo
        (fd_lastfile t) (fd_freefile t) (fd_refcnt t) (fd_knlistsize t) (fd_flags t).
Definition set_marks (t : filedesc) (last free openfd : Z) : filedesc :=
  Fdesc (fd_self t) (fd_ofiles t) (fd_ofileflags t) (fd_nfiles t) openfd (fd_himap t) (fd_lomap t)
        last free (fd_refcnt t) (fd_knlistsize t) (fd_flags t).

(** ** Arrays *)

(** Element [i] of an array; [None] outside of it. *)
Definition rd {A} (l : list A) (i : Z) : option A :=
  if i <? 0 then None else l !! Z.to_nat i.

Definition wr {A} (l : list A) (i : Z) (v : A) : option (list A) :=
  match rd l i with
  | Some _ => Some (<[Z.to_nat i := v]> l)
  | None => None
  end.

(** ** Bit maps *)

Definition found (off sub : Z) : Z := Z.shiftl off NDENTRYSHIFT + ffs (Z.lxor sub full) - 1.

(** The second loop of [find_next_zero]: the first word from [off] on that is
    not full. *)
Fixpoint fnz_loop (fuel : nat) (bitmap : list Z) (off maxoff : Z) : option (option Z) :=
  if off <? maxoff then
    match fuel with
    | O => None
    | S fuel' =>
        sub ← rd bitmap off;
        if negb (sub =? full) then Some (Some (found off sub))
        else fnz_loop fuel' bitmap (off + 1) maxoff
    end
  else Some None.

(** [Some None] is -1. *)
Definition find_next_zero (bitmap : list Z) (want bits : Z) : option (option Z) :=
  if bits <? want then Some None
  else
    let off := Z.shiftr want NDENTRYSHIFT in
    let i := want .& NDENTRYMASK in
    let maxoff := NDLOSLOTS bits in
    if negb (i =? 0) then
      w ← rd bitmap off;
      let sub := w .| Z.shiftr full (NDENTRIES - i) in
      if negb (sub =? full) then Some (Some (found off sub))
      else fnz_loop (Z.to_nat (maxoff - (off + 1))) bitmap (off + 1) maxoff
    else fnz_loop (Z.to_nat (maxoff - off)) bitmap off maxoff.

(** The loops of [find_last_set]; a word at a time, then an entry at a time. *)
Fixpoint fls_words (fuel : nat) (bitmap : list Z) (off : Z) : option Z :=
  if off <? 0 then Some off
  else match fuel with
       | O => None
       | S fuel' =>
           w ← rd bitmap off;
           if w =? 0 then fls_words fuel' bitmap (off - 1) else Some off
       end.

Fixpoint fls_files (fuel : nat) (ofiles : list (option Z)) (i : Z) : option Z :=
  if i <=? 0 then Some i
  else match fuel with
       | O => None
       | S fuel' =>
           o ← rd ofiles i;
           match o with
           | None => fls_files fuel' ofiles (i - 1)
           | Some _ => Some i
           end
       end.

Definition find_last_set (t : filedesc) (last : Z) : option Z :=
  let off := Z.shiftr (last - 1) NDENTRYSHIFT in
  off' ← fls_words (Z.to_nat (off + 1)) (fd_lomap t) off;
  if off' <? 0 then Some 0
  else
    let i := Z.shiftl (off' + 1) NDENTRYSHIFT - 1 in
    let i := if last <=? i then last - 1 else i in
    fls_files (Z.to_nat i) (fd_ofiles t) i.

Definition bit (n : Z) : Z := u32 (Z.shiftl 1 n).

Definition fd_used (t : filedesc) (fd : Z) : option filedesc :=
  let off := Z.shiftr fd NDENTRYSHIFT in
  w ← rd (fd_lomap t) off;
  let w' := w .| bit (fd .& NDENTRYMASK) in
  lo ← wr (fd_lomap t) off w';
  hi ← (if w' =? full then
          let hoff := Z.shiftr off NDENTRYSHIFT in
          h ← rd (fd_himap t) hoff;
          wr (fd_himap t) hoff (h .| bit (off .& NDENTRYMASK))
        else Some (fd_himap t));
  Some (set_marks (set_maps t hi lo)
          (if fd_lastfile t <? fd then fd else fd_lastfile t) (fd_freefile t) (fd_openfd t + 1)).

Definition fd_unused (t : filedesc) (fd : Z) : option filedesc :=
  let off := Z.shiftr fd NDENTRYSHIFT in
  let free := if fd <? fd_freefile t then fd else fd_freefile t in
  w ← rd (fd_lomap t) off;
  hi ← (if w =? full then
          let hoff := Z.shiftr off NDENTRYSHIFT in
          h ← rd (fd_himap t) hoff;
          wr (fd_himap t) hoff (clear h (bit (off .& NDENTRYMASK)))
        else Some (fd_himap t));
  lo ← wr (fd_lomap t) off (clear w (bit (fd .& NDENTRYMASK)));
  let t1 := set_maps t hi lo in
  if fd_lastfile t <? fd then None
  else
    last ← (if fd =? fd_lastfile t then find_last_set t1 fd else Some (fd_lastfile t));
    Some (set_marks t1 last free (fd_openfd t - 1)).

(** ** Files *)

Definition FILE_IS_USABLE (f : file) : bool := negb (has (f_iflags f) FIF_LARVAL).

(** [Some None] is NULL. *)
Definition fd_getfile (st : store) (t : filedesc) (fd : Z) : option (option Z) :=
  if fd_nfiles t <=? u32 fd then Some None
  else
    o ← rd (fd_ofiles t) fd;
    match o with
    | None => Some None
    | Some a => f ← files st !! a; Some (if FILE_IS_USABLE f then Some a else None)
    end.

Definition fd_getfile_mode (st : store) (t : filedesc) (fd mode : Z) : option (option Z) :=
  r ← fd_getfile st t fd;
  match r with
  | None => Some None
  | Some a => f ← files st !! a; Some (if has (f_flag f) mode then Some a else None)
  end.

Definition set_count (f : file) (c : Z) : file :=
  File (f_flag f) (f_type f) c (f_ops f) (f_data f) (f_iflags f).

Definition add_count (st : store) (a d : Z) : option store :=
  f ← files st !! a;
  Some (set_files st (<[a := set_count f (f_count f + d)]> (files st))).

Definition FREF (st : store) (a : Z) : option store := add_count st a 1.

Section descrip.
(** The error that the close routine of a file returns, and the limits. *)
Variables (fo_close : Z -> Z) (rlim_cur maxfiles : Z).

Definition fdrop (st : store) (a : Z) : option (Z * store) :=
  f ← files st !! a;
  if negb (f_count f =? 0) then None
  else
    let '(error, st1) := if f_ops f then (fo_close a, add_log st (FoClose a)) else (0, st) in
    Some (error, Store (delete a (files st1)) (nfiles st1 - 1) (log st1)).

Definition FRELE (st : store) (a : Z) : option (Z * store) :=
  st1 ← add_count st a (-1);
  f ← files st1 !! a;
  if f_count f =? 0 then fdrop st1 a else Some (0, st1).

(** [p] is the table of the process, if there is one. *)
Definition closef (st : store) (fp : option Z) (p : option filedesc) : option (Z * store) :=
  match fp with
  | None => Some (0, st)
  | Some a =>
      f ← files st !! a;
      if f_count f <? 2 then None
      else
        st1 ← add_count st a (-1);
        let st2 := match p with
                   | Some t => if has (fd_flags t) FD_ADVLOCK && (f_type f =? DTYPE_VNODE)
                               then add_log st1 (Unlock (f_data f) (fd_self t)) else st1
                   | None => st1
                   end in
        FRELE st2 a
  end.

(** ** Allocation of descriptors *)

Definition lim : Z := Z.min (u32 rlim_cur) maxfiles.

(** [inr] is an error.  The loop restarts when the free descriptors of the word
    that was found are below [want]. *)
Fixpoint fdalloc_loop (fuel : nat) (t : filedesc) (want : Z) : option (filedesc * (Z + Z)) :=
  match fuel with
  | O => None
  | S fuel' =>
      let last := Z.min (fd_nfiles t) lim in
      let i := if want <? fd_freefile t then fd_freefile t else want in
      let off := Z.shiftr i NDENTRYSHIFT in
      let failed := Some (t, if lim <=? fd_nfiles t then inr EMFILE else inr ENOSPC) in
      new ← find_next_zero (fd_himap t) off (Z.shiftr (last + NDENTRIES - 1) NDENTRYSHIFT);
      match new with
      | None => failed
      | Some new =>
          r ← find_next_zero (drop (Z.to_nat new) (fd_lomap t))
                (if off <? new then 0 else i .& NDENTRYMASK) NDENTRIES;
          match r with
          | None => fdalloc_loop fuel' t (Z.shiftl (new + 1) NDENTRYSHIFT)
          | Some j =>
              let i := j + Z.shiftl new NDENTRYSHIFT in
              if i <? last then
                t1 ← fd_used t i;
                let free := if want <=? fd_freefile t1 then i else fd_freefile t1 in
                fl ← wr (fd_ofileflags t1) i 0;
                Some (set_marks (set_ofileflags t1 fl) (fd_lastfile t1) free (fd_openfd t1), inl i)
              else failed
          end
      end
  end.

Definition fdalloc (t : filedesc) (want : Z) : option (filedesc * (Z + Z)) :=
  fdalloc_loop 2 t want.

(** A list with zeroes (or NULLs) up to length [n]. *)
Definition extend {A} (l : list A) (n : Z) (z : A) : list A :=
  l ++ replicate (Z.to_nat n - length l) z.

Definition fdexpand (t : filedesc) : filedesc :=
  let nf := if fd_nfiles t <? NDEXTENT then NDEXTENT else 2 * fd_nfiles t in
  let '(hi, lo) :=
    if NDHISLOTS (fd_nfiles t) <? NDHISLOTS nf
    then (extend (fd_himap t) (NDHISLOTS nf) 0, extend (fd_lomap t) (NDLOSLOTS nf) 0)
    else (fd_himap t, fd_lomap t) in
  Fdesc (fd_self t) (extend (fd_ofiles t) nf None) (extend (fd_ofileflags t) nf 0) nf (fd_openfd t)
        hi lo (fd_lastfile t) (fd_freefile t) (fd_refcnt t) (fd_knlistsize t) (fd_flags t).

(** [fa] is the address of the new file. *)
Fixpoint falloc_loop (fuel : nat) (st : store) (t : filedesc) (fa : Z)
  : option (store * filedesc * (Z + Z)) :=
  match fuel with
  | O => None
  | S fuel' =>
      '(t1, r) ← fdalloc t 0;
      match r with
      | inr error =>
          if error =? ENOSPC then falloc_loop fuel' st (fdexpand t1) fa
          else Some (st, t1, inr error)
      | inl i =>
          if maxfiles <=? nfiles st then
            t2 ← fd_unused t1 i; Some (st, t2, inr ENFILE)
          else
            o ← wr (fd_ofiles t1) i (Some fa);
            st1 ← FREF (Store (<[fa := File 0 0 1 false 0 FIF_LARVAL]> (files st))
                              (nfiles st + 1) (log st)) fa;
            Some (st1, set_ofiles t1 o, inl i)
      end
  end.

(** Enough for a table of 20 entries to grow beyond any [int]. *)
Definition expand_fuel : nat := 32.

Definition falloc (st : store) (t : filedesc) (fa : Z) := falloc_loop expand_fuel st t fa.

(** ** Duplication *)

Definition finishdup (st : store) (t : filedesc) (fp old new : Z) (dup2 : bool)
  : option (store * filedesc * (Z + Z)) :=
  f ← files st !! fp;
  if f_count f =? LONG_MAX - 2 then
    '(_, st1) ← FRELE st fp; Some (st1, t, inr EDEADLK)
  else
    oldfp ← rd (fd_ofiles t) new;
    st1 ← (match oldfp with Some o => FREF st o | None => Some st end);
    o ← wr (fd_ofiles t) new (Some fp);
    flag ← rd (fd_ofileflags t) old;
    fl ← wr (fd_ofileflags t) new (clear flag UF_EXCLOSE);
    let t1 := set_ofileflags (set_ofiles t o) fl in
    st2 ← add_count st1 fp 1;
    '(_, st3) ← FRELE st2 fp;
    t2 ← (if dup2 && (match oldfp with None => true | _ => false end)
          then fd_used t1 new else Some t1);
    match oldfp with
    | Some o =>
        let st4 := if new <? fd_knlistsize t2 then add_log st3 (KnoteClose new) else st3 in
        '(_, st5) ← closef st4 (Some o) (Some t2);
        Some (st5, t2, inl new)
    | None => Some (st3, t2, inl new)
    end.

(** The descriptor of a duplicate from [want] on, with the table grown as
    needed; shared by [sys_dup] and [F_DUPFD]. *)
Fixpoint dup_loop (fuel : nat) (st : store) (t : filedesc) (old want : Z)
  : option (store * filedesc * (Z + Z)) :=
  match fuel with
  | O => None
  | S fuel' =>
      g ← fd_getfile st t old;
      match g with
      | None => Some (st, t, inr EBADF)
      | Some fp =>
          st1 ← FREF st fp;
          '(t1, r) ← fdalloc t want;
          match r with
          | inr error =>
              '(_, st2) ← FRELE st1 fp;
              if error =? ENOSPC then dup_loop fuel' st2 (fdexpand t1) old want
              else Some (st2, t1, inr error)
          | inl new => finishdup st1 t1 fp old new false
          end
      end
  end.

Definition sys_dup (st : store) (t : filedesc) (old : Z) := dup_loop expand_fuel st t old 0.

Definition set_exclose (t : filedesc) (fd : Z) : option filedesc :=
  flag ← rd (fd_ofileflags t) fd;
  fl ← wr (fd_ofileflags t) fd (flag .| UF_EXCLOSE);
  Some (set_ofileflags t fl).

(** [F_DUPFD] and [F_DUPFD_CLOEXEC] of [sys_fcntl]. *)
Definition fcntl_dupfd (st : store) (t : filedesc) (fd newmin : Z) (cloexec : bool)
  : option (store * filedesc * (Z + Z)) :=
  g ← fd_getfile st t fd;
  match g with
  | None => Some (st, t, inr EBADF)
  | Some fp =>
      if (rlim_cur <=? u32 newmin) || (maxfiles <=? u32 newmin) then
        st1 ← FREF st fp; '(_, st2) ← FRELE st1 fp; Some (st2, t, inr EINVAL)
      else
        '(st1, t1, r) ← dup_loop expand_fuel st t fd newmin;
        match r with
        | inl i => t2 ← (if cloexec then set_exclose t1 i else Some t1); Some (st1, t2, inl i)
        | inr error => Some (st1, t1, inr error)
        end
  end.

(** [F_GETFD] and [F_SETFD]. *)
Definition fcntl_getfd (st : store) (t : filedesc) (fd : Z) : option (Z + Z) :=
  g ← fd_getfile st t fd;
  match g with
  | None => Some (inr EBADF)
  | Some _ => flag ← rd (fd_ofileflags t) fd; Some (inl (if has flag UF_EXCLOSE then 1 else 0))
  end.

Definition fcntl_setfd (st : store) (t : filedesc) (fd arg : Z) : option (filedesc * (Z + Z)) :=
  g ← fd_getfile st t fd;
  match g with
  | None => Some (t, inr EBADF)
  | Some _ =>
      flag ← rd (fd_ofileflags t) fd;
      fl ← wr (fd_ofileflags t) fd
             (if has arg 1 then flag .| UF_EXCLOSE else clear flag UF_EXCLOSE);
      Some (set_ofileflags t fl, inl 0)
  end.

Fixpoint dodup3_loop (fuel : nat) (st : store) (t : filedesc) (old new flags : Z)
  : option (store * filedesc * (Z + Z)) :=
  match fuel with
  | O => None
  | S fuel' =>
      g ← fd_getfile st t old;
      match g with
      | None => Some (st, t, inr EBADF)
      | Some fp =>
          if (rlim_cur <=? u32 new) || (maxfiles <=? u32 new) then Some (st, t, inr EBADF)
          else if old =? new then Some (st, t, inl new)
          else
            st1 ← FREF st fp;
            let finish (st1 : store) (t1 : filedesc) :=
              '(st2, t2, r) ← finishdup st1 t1 fp old new true;
              match r with
              | inl i => t3 ← (if has flags O_CLOEXEC then set_exclose t2 new else Some t2);
                         Some (st2, t3, inl i)
              | inr error => Some (st2, t2, inr error)
              end in
            if fd_nfiles t <=? new then
              '(t1, r) ← fdalloc t new;
              match r with
              | inr error =>
                  '(_, st2) ← FRELE st1 fp;
                  if error =? ENOSPC then dodup3_loop fuel' st2 (fdexpand t1) old new flags
                  else Some (st2, t1, inr error)
              | inl i =>
                  if negb (new =? i) then None
                  else t2 ← fd_unused t1 new; finish st1 t2
              end
            else finish st1 t
      end
  end.

Definition dodup3 (st : store) (t : filedesc) (old new flags : Z) :=
  dodup3_loop expand_fuel st t old new flags.

Definition sys_dup2 (st : store) (t : filedesc) (from to : Z) := dodup3 st t from to 0.

Definition sys_dup3 (st : store) (t : filedesc) (from to flags : Z)
  : option (store * filedesc * (Z + Z)) :=
  if from =? to then Some (st, t, inr EINVAL)
  else if negb (clear flags O_CLOEXEC =? 0) then Some (st, t, inr EINVAL)
  else dodup3 st t from to flags.

(** ** Closing *)

Definition fdremove (t : filedesc) (fd : Z) : option filedesc :=
  o ← wr (fd_ofiles t) fd None;
  fd_unused (set_ofiles t o) fd.

Definition fdrelease (st : store) (t : filedesc) (fd : Z) : option (store * filedesc * Z) :=
  fp ← rd (fd_ofiles t) fd;
  match fp with
  | None => Some (st, t, EBADF)
  | Some a =>
      st1 ← FREF st a;
      o ← wr (fd_ofiles t) fd None;
      t1 ← fd_unused (set_ofiles t o) fd;
      let st2 := if fd <? fd_knlistsize t1 then add_log st1 (KnoteClose fd) else st1 in
      '(error, st3) ← closef st2 (Some a) (Some t1);
      Some (st3, t1, error)
  end.

Definition sys_close (st : store) (t : filedesc) (fd : Z) : option (store * filedesc * Z) :=
  g ← fd_getfile st t fd;
  match g with
  | None => Some (st, t, EBADF)
  | Some _ => fdrelease st t fd
  end.

(** The loop of [fdcloseexec] from [fd] on; [fd_lastfile] is read each time. *)
Fixpoint closeexec_loop (fuel : nat) (st : store) (t : filedesc) (fd : Z)
  : option (store * filedesc) :=
  if fd_lastfile t <? fd then Some (st, t)
  else match fuel with
       | O => None
       | S fuel' =>
           flag ← rd (fd_ofileflags t) fd;
           if has flag UF_EXCLOSE then
             '(st1, t1, _) ← fdrelease st t fd; closeexec_loop fuel' st1 t1 (fd + 1)
           else closeexec_loop fuel' st t (fd + 1)
       end.

Definition fdcloseexec (st : store) (t : filedesc) : option (store * filedesc) :=
  closeexec_loop (Z.to_nat (fd_lastfile t + 1)) st t 0.

Fixpoint closefrom_loop (fuel : nat) (st : store) (t : filedesc) (i : Z)
  : option (store * filedesc) :=
  if fd_lastfile t <? i then Some (st, t)
  else match fuel with
       | O => None
       | S fuel' =>
           '(st1, t1, _) ← fdrelease st t i; closefrom_loop fuel' st1 t1 (i + 1)
       end.

Definition sys_closefrom (st : store) (t : filedesc) (fd : Z) : option (store * filedesc * Z) :=
  let startfd := u32 fd in
  if fd_lastfile t <? startfd then Some (st, t, EBADF)
  else
    '(st1, t1) ← closefrom_loop (Z.to_nat (fd_lastfile t + 1 - startfd)) st t startfd;
    Some (st1, t1, 0).

Definition sys_getdtablecount (t : filedesc) : Z := fd_openfd t.

(** ** Tables *)

Definition fdinit (self : Z) : filedesc :=
  Fdesc self (replicate (Z.to_nat NDFILE) None) (replicate (Z.to_nat NDFILE) 0) NDFILE 0
        (replicate 1 0) (replicate 32 0) 0 0 1 (-1) 0.

Definition fdshare (t : filedesc) : filedesc :=
  Fdesc (fd_self t) (fd_ofiles t) (fd_ofileflags t) (fd_nfiles t) (fd_openfd t) (fd_himap t)
        (fd_lomap t) (fd_lastfile t) (fd_freefile t) (wrapu 16 (fd_refcnt t + 1)) (fd_knlistsize t)
        (fd_flags t).

(** The size of the copy of a table: halved while more than twice what is used. *)
Fixpoint shrink (fuel : nat) (i lastfile : Z) : Z :=
  match fuel with
  | O => i
  | S fuel' => if (2 * NDEXTENT <=? i) && (lastfile * 2 <? i) then shrink fuel' (i / 2) lastfile else i
  end.

(** The first [n] elements; [None] if there are fewer. *)
Definition copy {A} (l : list A) (n : Z) : option (list A) :=
  if Z.of_nat (length l) <? n then None else Some (take (Z.to_nat n) l).

(** The loop of [fdcopy] from descriptor [i] on. *)
Fixpoint fdcopy_loop (fuel : nat) (st : store) (t : filedesc) (i : Z) : option (store * filedesc) :=
  if fd_lastfile t <? i then Some (st, t)
  else match fuel with
       | O => None
       | S fuel' =>
           fp ← rd (fd_ofiles t) i;
           match fp with
           | None => fdcopy_loop fuel' st t (i + 1)
           | Some a =>
               f ← files st !! a;
               if (f_count f =? LONG_MAX - 2) || (f_type f =? DTYPE_KQUEUE) ||
                  (f_type f =? DTYPE_SYSTRACE)
               then t1 ← fdremove t i; fdcopy_loop fuel' st t1 (i + 1)
               else st1 ← add_count st a 1; fdcopy_loop fuel' st1 t (i + 1)
           end
       end.

(** The size of the new table. *)
Definition fdcopy_size (t : filedesc) : Z :=
  if fd_lastfile t <? NDFILE then NDFILE
  else shrink (Z.to_nat (fd_nfiles t)) (fd_nfiles t) (fd_lastfile t).

(** [self] is the address of the new table. *)
Definition fdcopy (st : store) (t : filedesc) (self : Z) : option (store * filedesc) :=
  let i := fdcopy_size t in
  o ← copy (fd_ofiles t) i;
  fl ← copy (fd_ofileflags t) i;
  hi ← copy (fd_himap t) (NDHISLOTS i);
  lo ← copy (fd_lomap t) (NDLOSLOTS i);
  let t1 := Fdesc self o fl i (fd_openfd t) hi lo (fd_lastfile t) (fd_freefile t) 1
                  (fd_knlistsize t) (fd_flags t) in
  '(st1, t2) ← fdcopy_loop (Z.to_nat (fd_lastfile t + 1)) st t1 0;
  Some (st1, Fdesc self (fd_ofiles t2) (fd_ofileflags t2) (fd_nfiles t2) (fd_openfd t2)
              (fd_himap t2) (fd_lomap t2) (fd_lastfile t2) (fd_freefile t2) (fd_refcnt t2) (-1)
              (fd_flags t2)).

(** The loop of [fdfree] over the first [n] entries, from [fd] on. *)
Fixpoint fdfree_loop (n : nat) (st : store) (t : filedesc) (fd : Z) : option (store * filedesc) :=
  match n with
  | O => Some (st, t)
  | S n' =>
      fp ← rd (fd_ofiles t) fd;
      match fp with
      | None => fdfree_loop n' st t (fd + 1)
      | Some a =>
          st1 ← FREF st a;
          o ← wr (fd_ofiles t) fd None;
          '(_, st2) ← closef st1 (Some a) (Some (set_ofiles t o));
          fdfree_loop n' st2 (set_ofiles t o) (fd + 1)
      end
  end.

Definition fdfree (st : store) (t : filedesc) : option (store * option filedesc) :=
  let t1 := Fdesc (fd_self t) (fd_ofiles t) (fd_ofileflags t) (fd_nfiles t) (fd_openfd t) (fd_himap t)
              (fd_lomap t) (fd_lastfile t) (fd_freefile t) (wrapu 16 (fd_refcnt t - 1))
              (fd_knlistsize t) (fd_flags t) in
  if 0 <? fd_refcnt t1 then Some (st, Some t1)
  else
    '(st1, _) ← fdfree_loop (Z.to_nat (fd_lastfile t1 + 1)) st t1 0;
    Some (st1, None).

(** The current process, as [dupfdopen] looks at it. *)
Record dup_proc := DupProc { ps_flags : Z; p_descfd : Z; p_dupfd : Z }.

Definition dupfdopen (st : store) (t : filedesc) (curproc : dup_proc) (indx dfd mode : Z)
  : option (store * filedesc * Z) :=
  if has (ps_flags curproc) (PS_SUGIDEXEC .| PS_SUGID) &&
     ((p_descfd curproc =? 255) || negb (p_descfd curproc =? p_dupfd curproc))
  then Some (st, t, EPERM)
  else
    g ← fd_getfile st t dfd;
    match g with
    | None => Some (st, t, EBADF)
    | Some wfp =>
        f ← files st !! wfp;
        if negb (((mode .& (FREAD .| FWRITE)) .| f_flag f) =? f_flag f) then Some (st, t, EACCES)
        else if f_count f =? LONG_MAX - 2 then Some (st, t, EDEADLK)
        else
          o ← wr (fd_ofiles t) indx (Some wfp);
          fi ← rd (fd_ofileflags t) indx;
          fd ← rd (fd_ofileflags t) dfd;
          fl ← wr (fd_ofileflags t) indx ((fi .& UF_EXCLOSE) .| clear fd UF_EXCLOSE);
          st1 ← add_count st wfp 1;
          t1 ← fd_used (set_ofileflags (set_ofiles t o) fl) indx;
          Some (st1, t1, 0)
    end.

End descrip.

End Descrip.
