(* ===== verification/DescripMaps.v ===== *)
(** * The bit maps of descriptor tables

    What [find_next_zero], [fd_used] and [fd_unused] of [Descrip] do to the two
    bit maps of a table, in terms of the bits. *)

From S2P Require Import Prelude Libkern Descrip.
Import Libkern Descrip.
#[local] Open Scope Z_scope.

Module DescripMaps.

(** ** Arrays *)

Lemma rd_Some {A} (l : list A) i x :
  rd l i = Some x <-> 0 <= i /\ l !! Z.to_nat i = Some x.
Proof.
  unfold rd. destruct (i <? 0) eqn:E; zify_bool; [split; [done|lia]|]. split; [|tauto]. done.
Qed.

Lemma rd_is_Some {A} (l : list A) i : is_Some (rd l i) <-> 0 <= i < Z.of_nat (length l).
Proof.
  unfold rd. destruct (i <? 0) eqn:E; zify_bool.
  - split; [intros [? ?]; done|lia].
  - rewrite lookup_lt_is_Some. lia.
Qed.

Lemma rd_None {A} (l : list A) i : rd l i = None <-> i < 0 \/ Z.of_nat (length l) <= i.
Proof.
  pose proof (rd_is_Some l i) as H. destruct (rd l i).
  - split; [done|]. intros. assert (is_Some (Some a)) as Hs by done. apply H in Hs. lia.
  - split; [|done]. intros _. destruct (Z.lt_ge_cases i 0); [lia|].
    destruct (Z.le_gt_cases (Z.of_nat (length l)) i); [lia|].
    assert (is_Some (@None A)) as [? ?]; [apply H; lia|done].
Qed.

Lemma wr_Some {A} (l : list A) i v :
  0 <= i < Z.of_nat (length l) -> wr l i v = Some (<[Z.to_nat i := v]> l).
Proof. intros [x Hx]%rd_is_Some. unfold wr. by rewrite Hx. Qed.

Lemma rd_insert_eq {A} (l : list A) i v :
  0 <= i < Z.of_nat (length l) -> rd (<[Z.to_nat i := v]> l) i = Some v.
Proof. intros. apply rd_Some. split; [lia|]. apply list_lookup_insert_eq. lia. Qed.

Lemma rd_insert_ne {A} (l : list A) i j v :
  0 <= i -> i <> j -> rd (<[Z.to_nat i := v]> l) j = rd l j.
Proof.
  intros. unfold rd. destruct (j <? 0) eqn:E; zify_bool; [done|].
  apply list_lookup_insert_ne. lia.
Qed.

(** ** Bits *)

(** Bit [j] of a bit map; [None] outside of it. *)
Definition bitat (ws : list Z) (j : Z) : option bool :=
  w ← rd ws (j / 32); Some (Z.testbit w (j mod 32)).

Lemma bitat_word ws w x k :
  rd ws w = Some x -> 0 <= k < 32 -> bitat ws (32 * w + k) = Some (Z.testbit x k).
Proof.
  intros Hw Hk. unfold bitat.
  replace ((32 * w + k) / 32) with w by (Z.to_euclidean_division_equations; lia).
  replace ((32 * w + k) mod 32) with k by (Z.to_euclidean_division_equations; lia).
  by rewrite Hw.
Qed.

Lemma bitat_is_Some ws j :
  is_Some (bitat ws j) <-> 0 <= j < 32 * Z.of_nat (length ws).
Proof.
  unfold bitat. pose proof (rd_is_Some ws (j / 32)) as H.
  assert (0 <= j / 32 < Z.of_nat (length ws) <-> 0 <= j < 32 * Z.of_nat (length ws)) as <-
    by (Z.to_euclidean_division_equations; lia).
  rewrite <- H. destruct (rd ws (j / 32)); cbn; [by split; eauto|].
  split; intros [? ?]; done.
Qed.

(** [z] is the first clear bit from [want] on, and lies in the map. *)
Definition next_zero (ws : list Z) (want z : Z) : Prop :=
  want <= z /\ bitat ws z = Some false /\ forall j, want <= j < z -> bitat ws j = Some true.

Lemma next_zero_unique ws want z z' :
  next_zero ws want z -> next_zero ws want z' -> z = z'.
Proof.
  intros (H1 & H2 & H3) (H1' & H2' & H3').
  destruct (Z.lt_trichotomy z z') as [?|[?|?]]; [|done|].
  - rewrite H3' in H2 by lia. done.
  - rewrite H3 in H2' by lia. done.
Qed.

Lemma full_bits x : inu 32 x -> x = full <-> forall k, 0 <= k < 32 -> Z.testbit x k = true.
Proof.
  intros Hx. change full with (Z.ones 32). split.
  - intros -> k Hk. apply Z.ones_spec_low. lia.
  - intros H. apply Z.bits_inj'. intros k Hk. destruct (Z.lt_ge_cases k 32).
    + rewrite H, Z.ones_spec_low by lia. done.
    + rewrite Z.ones_spec_high by lia. by apply (testbit_above 32); [|lia].
Qed.

Lemma full_inu : inu 32 full.
Proof. by vm_compute. Qed.

(** The position that [found] names: the lowest clear bit of [sub]. *)
Lemma found_spec off sub :
  inu 32 sub -> sub <> full ->
  exists k, found off sub = 32 * off + k /\ 0 <= k < 32 /\ Z.testbit sub k = false /\
    forall j, 0 <= j < k -> Z.testbit sub j = true.
Proof.
  intros Hsub Hne. set (x := Z.lxor sub full).
  assert (Hbit : forall j, 0 <= j < 32 -> Z.testbit x j = negb (Z.testbit sub j)).
  { intros j Hj. unfold x. rewrite Z.lxor_spec. change full with (Z.ones 32).
    rewrite Z.ones_spec_low by lia. by destruct (Z.testbit sub j). }
  assert (Hhigh : forall j, 32 <= j -> Z.testbit x j = false).
  { intros j Hj. unfold x. rewrite Z.lxor_spec. change full with (Z.ones 32).
    rewrite Z.ones_spec_high, (testbit_above 32 sub) by (done || lia). done. }
  assert (Hx : inu 32 x).
  { apply inu_bits; [lia|done|]. apply Z.lxor_nonneg. split; intros; [apply full_inu|apply Hsub]. }
  destruct (ffs_spec x Hx) as [[H0 _]|[Hx0 (Hz & Ht & Hl)]].
  { exfalso. apply Hne. apply full_bits; [done|]. intros k Hk. specialize (Hbit k Hk).
    rewrite H0, Z.bits_0 in Hbit. by destruct (Z.testbit sub k). }
  assert (ffs x - 1 < 32).
  { destruct (Z.lt_ge_cases (ffs x - 1) 32); [done|]. rewrite Hhigh in Ht by lia. done. }
  exists (ffs x - 1). split_and!; try lia.
  - unfold found. fold x. rewrite Z.shiftl_mul_pow2 by (unfold NDENTRYSHIFT; lia).
    change (2 ^ NDENTRYSHIFT) with 32. lia.
  - rewrite Hbit in Ht by lia. by destruct (Z.testbit sub (ffs x - 1)).
  - intros j Hj. specialize (Hl j Hj). rewrite Hbit in Hl by lia.
    by destruct (Z.testbit sub j).
Qed.

(** ** Searching *)

Lemma fnz_loop_spec ws fuel off maxoff z :
  Forall (inu 32) ws -> 0 <= off -> next_zero ws (32 * off) z ->
  (maxoff - off <= Z.of_nat fuel) ->
  fnz_loop fuel ws off maxoff = Some (if z / 32 <? maxoff then Some z else None).
Proof.
  intros Hws. revert off. induction fuel as [|fuel IH]; intros off Ho (Hz & Hb & Hl) Hf; cbn [fnz_loop].
  { assert (off <= z / 32) by (Z.to_euclidean_division_equations; lia).
    destruct (off <? maxoff) eqn:E, (z / 32 <? maxoff) eqn:E2; zify_bool; try lia. done. }
  assert (Hoz : off <= z / 32) by (Z.to_euclidean_division_equations; lia).
  destruct (off <? maxoff) eqn:E; zify_bool.
  2: { destruct (z / 32 <? maxoff) eqn:E2; zify_bool; [lia|done]. }
  assert (exists x, rd ws off = Some x) as [x Hx].
  { apply rd_is_Some. assert (is_Some (bitat ws z)) as Hin by (by rewrite Hb).
    apply bitat_is_Some in Hin. Z.to_euclidean_division_equations; lia. }
  assert (Hxu : inu 32 x).
  { rewrite Forall_forall in Hws. apply Hws. apply rd_Some in Hx as [_ Hx].
    by eapply list_elem_of_lookup_2. }
  rewrite Hx. cbn [mbind option_bind]. destruct (x =? full) eqn:Ef; zify_bool; cbn [negb].
  - assert (32 * (off + 1) <= z).
    { destruct (Z.lt_ge_cases z (32 * (off + 1))); [|done]. exfalso.
      assert (bitat ws z = Some true) as Ht; [|congruence].
      replace z with (32 * off + (z - 32 * off)) by lia. rewrite (bitat_word ws off x) by (done || lia).
      f_equal. rewrite (full_bits x Hxu) in Ef. apply Ef. lia. }
    apply IH; [lia| |lia]. split; [lia|]. split; [done|]. intros j Hj. apply Hl. lia.
  - destruct (found_spec off x Hxu Ef) as (k & -> & Hk & Hkz & Hkl).
    assert (32 * off + k = z) as Heq.
    { apply (next_zero_unique ws (32 * off)); [|done]. split; [lia|].
      rewrite (bitat_word ws off x), Hkz by done. split; [done|]. intros j Hj.
      replace j with (32 * off + (j - 32 * off)) by lia. rewrite (bitat_word ws off x) by (done || lia).
      by rewrite Hkl by lia. }
    replace (z / 32) with off by (Z.to_euclidean_division_equations; lia).
    by rewrite (proj2 (Z.ltb_lt off maxoff)), Heq by done.
Qed.

Lemma mask_ones i : 0 < i < 32 -> Z.shiftr full (NDENTRIES - i) = Z.ones i.
Proof.
  intros Hi. change full with (Z.ones 32). change NDENTRIES with 32. apply Z.bits_inj'. intros j Hj.
  rewrite Z.shiftr_spec by lia. destruct (Z.lt_ge_cases j i).
  - rewrite !Z.ones_spec_low by lia. done.
  - rewrite !Z.ones_spec_high by lia. done.
Qed.

Lemma land_mask want : 0 <= want -> (want .& NDENTRYMASK) = want mod 32.
Proof.
  intros. change NDENTRYMASK with (Z.ones 5). by rewrite Z.land_ones by lia.
Qed.

Lemma shiftr_shift x : Z.shiftr x NDENTRYSHIFT = x / 32.
Proof. unfold NDENTRYSHIFT. by rewrite Z.shiftr_div_pow2. Qed.

Lemma shiftl_shift x : Z.shiftl x NDENTRYSHIFT = 32 * x.
Proof. unfold NDENTRYSHIFT. rewrite Z.shiftl_mul_pow2 by lia. lia. Qed.

Lemma NDLOSLOTS_eq x : NDLOSLOTS x = 32 * NDHISLOTS x.
Proof. apply shiftl_shift. Qed.

Lemma NDHISLOTS_eq x : NDHISLOTS x = ((x + 31) / 32 + 31) / 32.
Proof.
  unfold NDHISLOTS, NDREDUCE. rewrite !shiftr_shift. unfold NDENTRIES.
  f_equal. rewrite <- !Z.add_sub_assoc. done.
Qed.

(** [find_next_zero] finds the first clear bit, if it lies within the words that
    it looks at. *)
Lemma find_next_zero_spec ws want bits z :
  Forall (inu 32) ws -> 0 <= want <= bits -> next_zero ws want z ->
  find_next_zero ws want bits = Some (if z / 32 <? NDLOSLOTS bits then Some z else None).
Proof.
  intros Hws Hw Hz. pose proof Hz as (Hge & Hb & Hl). unfold find_next_zero.
  rewrite (proj2 (Z.ltb_ge bits want)), land_mask, shiftr_shift by lia.
  set (off := want / 32). set (i := want mod 32).
  assert (Hwi : want = 32 * off + i /\ 0 <= i < 32 /\ 0 <= off)
    by (unfold off, i; Z.to_euclidean_division_equations; lia).
  destruct (i =? 0) eqn:Ei; zify_bool; cbn [negb].
  { apply fnz_loop_spec; [done|lia| |lia]. by replace (32 * off) with want by lia. }
  assert (Hoff : off < NDLOSLOTS bits).
  { rewrite NDLOSLOTS_eq, NDHISLOTS_eq. Z.to_euclidean_division_equations; lia. }
  assert (exists x, rd ws off = Some x) as [x Hx].
  { apply rd_is_Some. assert (is_Some (bitat ws z)) as Hin by (by rewrite Hb).
    apply bitat_is_Some in Hin. lia. }
  assert (Hxu : inu 32 x).
  { rewrite Forall_forall in Hws. apply Hws. apply rd_Some in Hx as [_ Hx].
    by eapply list_elem_of_lookup_2. }
  rewrite Hx. cbn [mbind option_bind]. rewrite mask_ones by lia.
  set (sub := x .| Z.ones i).
  assert (Hsub : forall k, 0 <= k < 32 -> Z.testbit sub k = (k <? i) || Z.testbit x k).
  { intros k Hk. unfold sub. rewrite Z.lor_spec. destruct (k <? i) eqn:E; zify_bool.
    - rewrite Z.ones_spec_low by lia. by rewrite orb_true_r.
    - rewrite Z.ones_spec_high by lia. by rewrite orb_false_r. }
  assert (Hsu : inu 32 sub).
  { apply inu_lor; [lia|done|]. rewrite Z.ones_equiv. split; [lia|].
    assert (2 ^ i < 2 ^ 32); [apply Z.pow_lt_mono_r; lia|lia]. }
  assert (Hxz : forall k, 0 <= k < 32 -> bitat ws (32 * off + k) = Some (Z.testbit x k))
    by (intros; by apply bitat_word).
  destruct (sub =? full) eqn:Ef; zify_bool; cbn [negb].
  - apply fnz_loop_spec; [done|lia| |lia].
    assert (forall k, i <= k < 32 -> Z.testbit x k = true) as Hfull.
    { intros k Hk. apply (full_bits sub Hsu) with (k := k) in Ef; [|lia].
      rewrite Hsub in Ef by lia. apply orb_true_iff in Ef as [?|?]; zify_bool; [lia|done]. }
    assert (32 * (off + 1) <= z).
    { destruct (Z.lt_ge_cases z (32 * (off + 1))); [|done]. exfalso.
      replace z with (32 * off + (z - 32 * off)) in Hb by lia. rewrite Hxz, Hfull in Hb by lia. done. }
    split; [lia|]. split; [done|]. intros j Hj. apply Hl. lia.
  - destruct (found_spec off sub Hsu Ef) as (k & -> & Hk & Hkz & Hkl).
    rewrite Hsub in Hkz by lia. apply orb_false_iff in Hkz as [Hki Hkz]. zify_bool.
    assert (32 * off + k = z) as Heq.
    { apply (next_zero_unique ws want); [|done]. split; [lia|].
      rewrite Hxz, Hkz by lia. split; [done|]. intros j Hj.
      replace j with (32 * off + (j - 32 * off)) by lia. rewrite Hxz by lia.
      specialize (Hkl (j - 32 * off) ltac:(lia)). rewrite Hsub in Hkl by lia.
      apply orb_true_iff in Hkl as [?|?]; zify_bool; [lia|congruence]. }
    replace (z / 32) with off by (Z.to_euclidean_division_equations; lia).
    by rewrite (proj2 (Z.ltb_lt off _)), Heq by done.
Qed.

Lemma find_next_zero_past ws want bits :
  bits < want -> find_next_zero ws want bits = Some None.
Proof. intros. unfold find_next_zero. by rewrite (proj2 (Z.ltb_lt bits want)). Qed.

(** ** Setting and clearing bits *)

Lemma bit_testbit n k : 0 <= n < 32 -> 0 <= k -> Z.testbit (bit n) k = (k =? n).
Proof.
  intros Hn Hk. unfold bit. rewrite Z.shiftl_1_l.
  rewrite wrapu_small by (split; [lia|apply Z.pow_lt_mono_r; lia]).
  rewrite Z.pow2_bits_eqb by lia. apply Z.eqb_sym.
Qed.

Lemma bit_inu n : inu 32 (bit n).
Proof. apply wrapu_range. lia. Qed.

Lemma clear_inu x m : inu 32 x -> inu 32 (clear x m).
Proof.
  intros Hx. unfold clear. apply inu_bits; [lia| |].
  - intros i Hi. rewrite Z.ldiff_spec. by rewrite (testbit_above 32) by (done || lia).
  - apply Z.ldiff_nonneg. left. apply Hx.
Qed.

(** Bits of a map in which word [off] was replaced. *)
Lemma bitat_insert ws off x j :
  0 <= off < Z.of_nat (length ws) -> 0 <= j ->
  bitat (<[Z.to_nat off := x]> ws) j =
    if j / 32 =? off then Some (Z.testbit x (j mod 32)) else bitat ws j.
Proof.
  intros Ho Hj. unfold bitat. destruct (j / 32 =? off) eqn:E; zify_bool.
  - subst off. by rewrite rd_insert_eq.
  - by rewrite rd_insert_ne by lia.
Qed.

Definition lo_used (lo : list Z) (fd : Z) : bool := default false (bitat lo fd).

(** The two maps of a table for [nf] descriptors. *)
Record maps_ok (nf : Z) (hi lo : list Z) : Prop := {
  mo_hi_len : Z.of_nat (length hi) = NDHISLOTS nf;
  mo_lo_len : Z.of_nat (length lo) = NDLOSLOTS nf;
  mo_hi_words : Forall (inu 32) hi;
  mo_lo_words : Forall (inu 32) lo;
  mo_hi : forall w x, rd lo w = Some x -> bitat hi w = Some (x =? full);
}.

Lemma rd_word ws off x : Forall (inu 32) ws -> rd ws off = Some x -> inu 32 x.
Proof.
  intros Hws [_ Hx]%rd_Some. rewrite Forall_forall in Hws. apply Hws.
  by eapply list_elem_of_lookup_2.
Qed.

(** Word [off] of the low map becomes [x'], and the high map follows. *)
Lemma maps_update nf hi lo off x' hi' :
  maps_ok nf hi lo -> 0 <= off < Z.of_nat (length lo) -> inu 32 x' ->
  length hi' = length hi -> Forall (inu 32) hi' ->
  (forall w, 0 <= w -> bitat hi' w = if w =? off then Some (x' =? full) else bitat hi w) ->
  maps_ok nf hi' (<[Z.to_nat off := x']> lo).
Proof.
  intros [H1 H2 H3 H4 H5] Ho Hx' Hlen Hw Hb. split.
  - congruence.
  - by rewrite length_insert.
  - done.
  - by apply Forall_insert.
  - intros w y Hy. pose proof (proj1 (proj1 (rd_Some _ _ _) Hy)). rewrite Hb by done.
    destruct (w =? off) eqn:E; zify_bool.
    + subst w. rewrite rd_insert_eq in Hy by done. by injection Hy as ->.
    + rewrite rd_insert_ne in Hy by lia. by apply H5.
Qed.

(** Setting or clearing bit [off] of the high map. *)
Lemma hi_update hi off h f v :
  Forall (inu 32) hi -> rd hi (off / 32) = Some h -> 0 <= off -> inu 32 (f h) ->
  (forall k, 0 <= k < 32 -> Z.testbit (f h) k = if k =? off mod 32 then v else Z.testbit h k) ->
  exists hi', wr hi (off / 32) (f h) = Some hi' /\ length hi' = length hi /\ Forall (inu 32) hi' /\
    forall w, 0 <= w -> bitat hi' w = if w =? off then Some v else bitat hi w.
Proof.
  intros Hhi Hh Ho Hf Hb. assert (0 <= off / 32 < Z.of_nat (length hi)) as Hr.
  { apply rd_is_Some. by eexists. }
  exists (<[Z.to_nat (off / 32) := f h]> hi). rewrite wr_Some by done. split; [done|].
  split; [by rewrite length_insert|]. split; [by apply Forall_insert|].
  intros w Hw. rewrite bitat_insert by done.
  destruct (w =? off) eqn:E; zify_bool.
  - subst w. rewrite Z.eqb_refl. rewrite Hb by (apply Z.mod_pos_bound; lia).
    by rewrite Z.eqb_refl.
  - destruct (w / 32 =? off / 32) eqn:E2; zify_bool; [|done].
    assert (w mod 32 <> off mod 32).
    { intros Hm. apply E. rewrite (Z.div_mod w 32), (Z.div_mod off 32) by lia. congruence. }
    rewrite Hb by (apply Z.mod_pos_bound; lia).
    rewrite (proj2 (Z.eqb_neq _ _)) by done.
    unfold bitat. rewrite E2, Hh. done.
Qed.

Section update.
Context (nf : Z) (hi lo : list Z) (fd : Z).
Context (Hok : maps_ok nf hi lo) (Hfd : 0 <= fd < 32 * Z.of_nat (length lo)).

Lemma maps_word : exists w h, rd lo (fd / 32) = Some w /\ inu 32 w /\
  rd hi (fd / 32 / 32) = Some h /\ inu 32 h /\ bitat hi (fd / 32) = Some (w =? full).
Proof.
  destruct Hok as [H1 H2 H3 H4 H5].
  assert (exists w, rd lo (fd / 32) = Some w) as [w Hw].
  { apply rd_is_Some. Z.to_euclidean_division_equations; lia. }
  assert (exists h, rd hi (fd / 32 / 32) = Some h) as [h Hh].
  { apply rd_is_Some. rewrite NDLOSLOTS_eq in H2. Z.to_euclidean_division_equations; lia. }
  exists w, h. split; [done|]. split; [exact (rd_word _ _ _ H4 Hw)|]. split; [done|].
  split; [exact (rd_word _ _ _ H3 Hh)|by apply H5].
Qed.

Lemma lo_used_insert x' j :
  0 <= j -> lo_used (<[Z.to_nat (fd / 32) := x']> lo) j =
    if j / 32 =? fd / 32 then Z.testbit x' (j mod 32) else lo_used lo j.
Proof.
  intros Hj. unfold lo_used. rewrite bitat_insert by (done || Z.to_euclidean_division_equations; lia).
  by destruct (j / 32 =? fd / 32).
Qed.

Lemma same_word j : 0 <= j -> j / 32 = fd / 32 -> (j =? fd) = (j mod 32 =? fd mod 32).
Proof.
  intros Hj Hd. apply eq_true_iff_eq. rewrite !Z.eqb_eq. split; [by intros ->|]. intros Hm.
  rewrite (Z.div_mod j 32), (Z.div_mod fd 32) by lia. congruence.
Qed.

Lemma maps_set :
  exists w hi' lo',
    rd lo (fd / 32) = Some w /\
    wr lo (fd / 32) (w .| bit (fd mod 32)) = Some lo' /\
    (if (w .| bit (fd mod 32)) =? full
     then h ← rd hi (fd / 32 / 32); wr hi (fd / 32 / 32) (h .| bit (fd / 32 mod 32))
     else Some hi) = Some hi' /\
    maps_ok nf hi' lo' /\ forall j, 0 <= j -> lo_used lo' j = lo_used lo j || (j =? fd).
Proof.
  destruct maps_word as (w & h & Hw & Hwu & Hh & Hhu & Hbit).
  pose proof (Z.mod_pos_bound fd 32 ltac:(lia)). pose proof (Z.mod_pos_bound (fd / 32) 32 ltac:(lia)).
  assert (0 <= fd / 32 < Z.of_nat (length lo)) as Hr by (Z.to_euclidean_division_equations; lia).
  set (w' := w .| bit (fd mod 32)).
  assert (Hw' : inu 32 w') by (apply inu_lor; [lia|done|apply bit_inu]).
  assert (Hwb : forall k, 0 <= k < 32 -> Z.testbit w' k = Z.testbit w k || (k =? fd mod 32)).
  { intros k Hk. unfold w'. rewrite Z.lor_spec, bit_testbit by lia. done. }
  assert (exists hi', (if w' =? full
     then h ← rd hi (fd / 32 / 32); wr hi (fd / 32 / 32) (h .| bit (fd / 32 mod 32))
     else Some hi) = Some hi' /\ length hi' = length hi /\ Forall (inu 32) hi' /\
     forall o, 0 <= o -> bitat hi' o = if o =? fd / 32 then Some (w' =? full) else bitat hi o)
    as (hi' & Heq & Hlen & Hall & Hb).
  { destruct (w' =? full) eqn:Ef; zify_bool.
    - rewrite Hh. cbn [mbind option_bind].
      apply (hi_update hi (fd / 32) h (fun h => h .| bit (fd / 32 mod 32)) true);
        [apply Hok|done|lia|apply inu_lor; [lia|done|apply bit_inu]|].
      intros k Hk. rewrite Z.lor_spec, bit_testbit by lia. destruct (k =? fd / 32 mod 32);
        [apply orb_true_r|apply orb_false_r].
    - exists hi. split; [done|]. split; [done|]. split; [apply Hok|]. intros o Ho.
      destruct (o =? fd / 32) eqn:E; zify_bool; [|done]. subst o. rewrite Hbit. f_equal.
      apply Z.eqb_neq. intros ->. apply Ef. apply full_bits; [done|]. intros k Hk.
      rewrite Hwb by done. change full with (Z.ones 32). by rewrite Z.ones_spec_low by lia. }
  exists w, hi', (<[Z.to_nat (fd / 32) := w']> lo). split; [done|]. rewrite wr_Some by done.
  split; [done|]. split; [done|]. split; [by eapply maps_update|].
  intros j Hj. rewrite lo_used_insert by done. destruct (j / 32 =? fd / 32) eqn:E; zify_bool.
  - rewrite Hwb by (apply Z.mod_pos_bound; lia). rewrite (same_word j) by done.
    f_equal. unfold lo_used, bitat. by rewrite E, Hw.
  - replace (j =? fd) with false; [by rewrite orb_false_r|]. symmetry. apply Z.eqb_neq. congruence.
Qed.

Lemma maps_clear :
  exists w hi' lo',
    rd lo (fd / 32) = Some w /\
    (if w =? full
     then h ← rd hi (fd / 32 / 32); wr hi (fd / 32 / 32) (clear h (bit (fd / 32 mod 32)))
     else Some hi) = Some hi' /\
    wr lo (fd / 32) (clear w (bit (fd mod 32))) = Some lo' /\
    maps_ok nf hi' lo' /\ forall j, 0 <= j -> lo_used lo' j = lo_used lo j && negb (j =? fd).
Proof.
  destruct maps_word as (w & h & Hw & Hwu & Hh & Hhu & Hbit).
  pose proof (Z.mod_pos_bound fd 32 ltac:(lia)). pose proof (Z.mod_pos_bound (fd / 32) 32 ltac:(lia)).
  assert (0 <= fd / 32 < Z.of_nat (length lo)) as Hr by (Z.to_euclidean_division_equations; lia).
  set (w' := clear w (bit (fd mod 32))).
  assert (Hw' : inu 32 w') by (by apply clear_inu).
  assert (Hwb : forall k, 0 <= k < 32 -> Z.testbit w' k = Z.testbit w k && negb (k =? fd mod 32)).
  { intros k Hk. unfold w', clear. rewrite Z.ldiff_spec, bit_testbit by lia. done. }
  assert (Hnf : w' <> full).
  { intros Hf. pose proof (proj1 (full_bits w' Hw') Hf (fd mod 32) ltac:(lia)) as Hx.
    rewrite Hwb, Z.eqb_refl, andb_false_r in Hx by lia. done. }
  assert (exists hi', (if w =? full
     then h ← rd hi (fd / 32 / 32); wr hi (fd / 32 / 32) (clear h (bit (fd / 32 mod 32)))
     else Some hi) = Some hi' /\ length hi' = length hi /\ Forall (inu 32) hi' /\
     forall o, 0 <= o -> bitat hi' o = if o =? fd / 32 then Some (w' =? full) else bitat hi o)
    as (hi' & Heq & Hlen & Hall & Hb).
  { rewrite (proj2 (Z.eqb_neq w' full)) by done. destruct (w =? full) eqn:Ef; zify_bool.
    - rewrite Hh. cbn [mbind option_bind].
      apply (hi_update hi (fd / 32) h (fun h => clear h (bit (fd / 32 mod 32))) false);
        [apply Hok|done|lia|by apply clear_inu|].
      intros k Hk. unfold clear. rewrite Z.ldiff_spec, bit_testbit by lia.
      destruct (k =? fd / 32 mod 32); [apply andb_false_r|apply andb_true_r].
    - exists hi. split; [done|]. split; [done|]. split; [apply Hok|]. intros o Ho.
      destruct (o =? fd / 32) eqn:E; zify_bool; [|done]. subst o. by rewrite Hbit. }
  exists w, hi', (<[Z.to_nat (fd / 32) := w']> lo). split; [done|]. split; [done|].
  rewrite wr_Some by done. split; [done|]. split; [by eapply maps_update|].
  intros j Hj. rewrite lo_used_insert by done. destruct (j / 32 =? fd / 32) eqn:E; zify_bool.
  - rewrite Hwb by (apply Z.mod_pos_bound; lia). rewrite (same_word j) by done.
    f_equal. unfold lo_used, bitat. by rewrite E, Hw.
  - replace (j =? fd) with false; [by rewrite andb_true_r|]. symmetry. apply Z.eqb_neq. congruence.
Qed.

End update.

End DescripMaps.
