(* ===== verification/DescripTable.v ===== *)
(** * Descriptor tables: the invariant and the allocation of descriptors *)

From S2P Require Import Prelude Libkern Descrip DescripMaps.
Import Libkern Descrip DescripMaps.
#[local] Open Scope Z_scope.

Module DescripTable.

(** ** Counting *)

(** The number of [j] below [n] with [f j]. *)
Fixpoint countb (f : Z -> bool) (n : nat) : Z :=
  match n with
  | O => 0
  | S n' => countb f n' + Z.b2z (f (Z.of_nat n'))
  end.

Lemma countb_ext f g n :
  (forall j, 0 <= j < Z.of_nat n -> f j = g j) -> countb f n = countb g n.
Proof.
  induction n as [|n IH]; intros H; [done|]. cbn. rewrite IH, H; [done|lia|].
  intros. apply H. lia.
Qed.

Lemma countb_flip f g d v n :
  0 <= d -> f d = negb v -> (forall j, 0 <= j -> g j = if j =? d then v else f j) ->
  countb g n = countb f n + (if d <? Z.of_nat n then (if v then 1 else -1) else 0).
Proof.
  intros Hd Hf Hg. induction n as [|n IH]; cbn [countb].
  - destruct (d <? Z.of_nat 0) eqn:E; zify_bool; lia.
  - rewrite IH, Hg by lia. destruct (Z.of_nat n =? d) eqn:E; zify_bool.
    + rewrite E, Hf. rewrite (proj2 (Z.ltb_ge d d)), (proj2 (Z.ltb_lt d _)) by lia.
      destruct v; cbn; lia.
    + destruct (d <? Z.of_nat n) eqn:E1, (d <? Z.of_nat (S n)) eqn:E2; zify_bool; lia.
Qed.

(** Positions where [f] is false do not count. *)
Lemma countb_extend f n m :
  (n <= m)%nat -> (forall j, Z.of_nat n <= j -> f j = false) -> countb f m = countb f n.
Proof.
  induction 1 as [|m Hle IH]; intros H; [done|]. cbn. rewrite IH by done.
  rewrite H by lia. cbn. lia.
Qed.

Lemma countb_nonneg f n : 0 <= countb f n.
Proof. induction n as [|n IH]; cbn; [lia|]. destruct (f _); cbn; lia. Qed.

Lemma countb_le f n : countb f n <= Z.of_nat n.
Proof. induction n as [|n IH]; cbn [countb]; [lia|]. destruct (f _); cbn; lia. Qed.

Lemma countb_mono f g n : (forall j, f j = true -> g j = true) -> countb f n <= countb g n.
Proof.
  intros H. induction n as [|n IH]; cbn [countb]; [lia|]. specialize (H (Z.of_nat n)).
  destruct (f _); [rewrite H by done; lia|]. destruct (g _); cbn; lia.
Qed.

(** ** The invariant *)

Definition used (t : filedesc) (fd : Z) : bool := lo_used (fd_lomap t) fd.

Definition is_open (t : filedesc) (fd : Z) : bool :=
  match rd (fd_ofiles t) fd with Some (Some _) => true | _ => false end.

(** The sizes that tables have. *)
Definition table_size (nf : Z) : Prop := nf = NDFILE \/ exists k, 0 <= k /\ nf = NDEXTENT * 2 ^ k.

(** The table is consistent, except that descriptor [r] (if any) has its bit in
    the map without an entry, or an entry without its bit. *)
Record tbl_ok (t : filedesc) (r : option Z) : Prop := {
  tk_size : table_size (fd_nfiles t);
  tk_ofiles : Z.of_nat (length (fd_ofiles t)) = fd_nfiles t;
  tk_flags : Z.of_nat (length (fd_ofileflags t)) = fd_nfiles t;
  tk_maps : maps_ok (fd_nfiles t) (fd_himap t) (fd_lomap t);
  tk_used : forall fd, 0 <= fd -> used t fd = xorb (is_open t fd) (bool_decide (r = Some fd));
  tk_except : forall fd, r = Some fd -> 0 <= fd < fd_nfiles t;
  tk_free : 0 <= fd_freefile t /\ forall fd, 0 <= fd < fd_freefile t -> used t fd = true;
  tk_last : 0 <= fd_lastfile t < fd_nfiles t /\
    (forall fd, 0 <= fd -> used t fd = true -> fd <= fd_lastfile t) /\
    (fd_lastfile t = 0 \/ used t (fd_lastfile t) = true);
  tk_openfd : fd_openfd t = countb (used t) (Z.to_nat (fd_nfiles t));
}.

Lemma table_size_pos nf : table_size nf -> 20 <= nf.
Proof.
  intros [->|(k & Hk & ->)]; [done|]. unfold NDEXTENT. pose proof (Z.pow_pos_nonneg 2 k). lia.
Qed.

(** Below 25600 descriptors the maps have a word to spare. *)
Lemma table_size_slack nf : table_size nf -> nf < 25600 -> NDREDUCE nf < NDLOSLOTS nf.
Proof.
  intros [->|(k & Hk & ->)] Hlt; [done|]. unfold NDEXTENT in *.
  assert (k < 9).
  { destruct (Z.lt_ge_cases k 9); [done|]. pose proof (Z.pow_le_mono_r 2 9 k). lia. }
  assert (k = 0 \/ k = 1 \/ k = 2 \/ k = 3 \/ k = 4 \/ k = 5 \/ k = 6 \/ k = 7 \/ k = 8) as Hc by lia.
  repeat (destruct Hc as [->|Hc]; [done|]). by subst k.
Qed.

Lemma is_open_range t fd r : tbl_ok t r -> is_open t fd = true -> 0 <= fd < fd_nfiles t.
Proof.
  intros Ht. unfold is_open. destruct (rd (fd_ofiles t) fd) eqn:E; [|done]. intros _.
  rewrite <- (tk_ofiles _ _ Ht). apply rd_is_Some. by eexists.
Qed.

Lemma used_range t fd r : tbl_ok t r -> 0 <= fd -> used t fd = true -> fd < fd_nfiles t.
Proof.
  intros Ht Hfd Hu. rewrite (tk_used _ _ Ht) in Hu by done.
  destruct (is_open t fd) eqn:Ho; [by eapply is_open_range|].
  case_bool_decide as Hr; [|done]. by apply (tk_except _ _ Ht).
Qed.

Lemma lo_len_ge t r : tbl_ok t r -> fd_nfiles t <= 32 * Z.of_nat (length (fd_lomap t)).
Proof.
  intros Ht. rewrite (mo_lo_len _ _ _ (tk_maps _ _ Ht)), NDLOSLOTS_eq, NDHISLOTS_eq.
  Z.to_euclidean_division_equations; lia.
Qed.

(** What marking a descriptor leaves as it is. *)
Definition same_entries (t t' : filedesc) : Prop :=
  fd_self t' = fd_self t /\ fd_ofiles t' = fd_ofiles t /\ fd_ofileflags t' = fd_ofileflags t /\
  fd_nfiles t' = fd_nfiles t /\ fd_refcnt t' = fd_refcnt t /\
  fd_knlistsize t' = fd_knlistsize t /\ fd_flags t' = fd_flags t.

Lemma fd_used_spec t r r' fd :
  tbl_ok t r -> 0 <= fd < fd_nfiles t -> used t fd = false ->
  (r = None /\ r' = Some fd) \/ (r = Some fd /\ r' = None) ->
  exists t', fd_used t fd = Some t' /\ tbl_ok t' r' /\ same_entries t t' /\
    fd_freefile t' = fd_freefile t /\
    forall j, 0 <= j -> used t' j = used t j || (j =? fd).
Proof.
  intros Ht Hfd Hu Hr. pose proof (lo_len_ge t r Ht).
  destruct (maps_set (fd_nfiles t) (fd_himap t) (fd_lomap t) fd (tk_maps _ _ Ht) ltac:(lia))
    as (w & hi & lo & Hw & Hlo & Hhi & Hok & Hbits).
  unfold fd_used. rewrite !shiftr_shift, !land_mask by (Z.to_euclidean_division_equations; lia).
  rewrite Hw. cbn [mbind option_bind]. rewrite Hlo. cbn [mbind option_bind]. rewrite Hhi.
  cbn [mbind option_bind]. eexists. split; [done|].
  set (t' := set_marks _ _ _ _).
  assert (Hused : forall j, 0 <= j -> used t' j = used t j || (j =? fd)) by exact Hbits.
  destruct Ht as [T1 T2 T3 T4 T5 T6 T7 T8 T9]. split; [|done]. split; try done.
  - intros j Hj. rewrite Hused, T5 by done. destruct (j =? fd) eqn:E; zify_bool.
    + subst j. rewrite T5 in Hu by done. rewrite orb_true_r.
      change (is_open t' fd) with (is_open t fd).
      destruct Hr as [[-> ->]|[-> ->]]; destruct (is_open t fd);
        repeat case_bool_decide; naive_solver.
    + rewrite orb_false_r. f_equal. destruct Hr as [[-> ->]|[-> ->]]; repeat case_bool_decide; naive_solver.
  - intros j Hj. destruct Hr as [[_ ->]|[_ ->]]; by simplify_eq.
  - cbn [fd_freefile t' set_marks]. destruct T7 as [? T7]. split; [done|]. intros j Hj.
    rewrite Hused, T7 by lia. done.
  - destruct T8 as (? & T8 & T8'). cbn [fd_lastfile t' set_marks].
    split; [destruct (fd_lastfile t <? fd) eqn:E; zify_bool; cbn; lia|]. split.
    + intros j Hj. rewrite Hused by done. intros [Hj'|Hj']%orb_true_iff.
      * pose proof (T8 j Hj Hj'). destruct (fd_lastfile t <? fd) eqn:E; zify_bool; lia.
      * zify_bool. destruct (fd_lastfile t <? fd) eqn:E; zify_bool; lia.
    + destruct (fd_lastfile t <? fd) eqn:E; zify_bool.
      * right. rewrite Hused, Z.eqb_refl by lia. apply orb_true_r.
      * destruct T8' as [->|Hl]; [by left|right]. rewrite Hused, Hl by lia. done.
  - cbn [fd_openfd fd_nfiles t' set_marks set_maps]. rewrite T9.
    rewrite (countb_flip (used t) (used t') fd true); [|lia|done|].
    + rewrite (proj2 (Z.ltb_lt fd _)) by lia. done.
    + intros j Hj. rewrite Hused by done. destruct (j =? fd); [apply orb_true_r|apply orb_false_r].
Qed.

(** ** The highest descriptor in use *)

Lemma fls_words_spec fuel lo off :
  Forall (inu 32) lo -> off < Z.of_nat (length lo) -> off + 1 <= Z.of_nat fuel ->
  exists off', fls_words fuel lo off = Some off' /\ off' <= off /\ (-1 <= off -> -1 <= off') /\
    (forall j, 32 * (off' + 1) <= j < 32 * (off + 1) -> lo_used lo j = false).
Proof.
  intros Hlo. revert off. induction fuel as [|fuel IH]; intros off Hlen Hf; cbn [fls_words].
  - destruct (off <? 0) eqn:E; zify_bool; [|lia]. exists off. split; [done|]. split; [lia|].
    split; [done|]. lia.
  - destruct (off <? 0) eqn:E; zify_bool.
    { exists off. split; [done|]. split; [lia|]. split; [done|]. lia. }
    assert (exists w, rd lo off = Some w) as [w Hw] by (apply rd_is_Some; lia).
    rewrite Hw. cbn [mbind option_bind]. destruct (w =? 0) eqn:E0; zify_bool.
    + destruct (IH (off - 1)) as (off' & -> & Hle & Hge & Hz); [lia|lia|].
      exists off'. split; [done|]. split; [lia|]. split; [lia|]. intros j Hj.
      destruct (Z.lt_ge_cases j (32 * off)); [apply Hz; lia|].
      unfold lo_used. replace j with (32 * off + (j - 32 * off)) by lia.
      rewrite (bitat_word lo off w) by (done || lia). subst w. by rewrite Z.bits_0.
    + exists off. split; [done|]. split; [lia|]. split; [done|]. lia.
Qed.

Lemma fls_files_spec fuel ofiles i :
  i < Z.of_nat (length ofiles) -> 0 <= i <= Z.of_nat fuel ->
  exists m, fls_files fuel ofiles i = Some m /\ 0 <= m <= i /\
    (m = 0 \/ exists a, rd ofiles m = Some (Some a)) /\
    forall j, m < j <= i -> rd ofiles j = Some None.
Proof.
  revert i. induction fuel as [|fuel IH]; intros i Hlen Hi; cbn [fls_files].
  - destruct (i <=? 0) eqn:E; zify_bool; [|lia]. exists i. split; [done|]. split; [lia|].
    split; [left; lia|]. lia.
  - destruct (i <=? 0) eqn:E; zify_bool.
    { exists i. split; [done|]. split; [lia|]. split; [left; lia|]. lia. }
    assert (exists o, rd ofiles i = Some o) as [o Ho] by (apply rd_is_Some; lia).
    rewrite Ho. cbn [mbind option_bind]. destruct o as [a|].
    + exists i. split; [done|]. split; [lia|]. split; [right; by eexists|]. lia.
    + destruct (IH (i - 1)) as (m & -> & Hm & Hc & Hz); [lia|lia|].
      exists m. split; [done|]. split; [lia|]. split; [done|]. intros j Hj.
      destruct (decide (j = i)) as [->|]; [done|]. apply Hz. lia.
Qed.

(** In a consistent table [find_last_set] is the highest descriptor in use below
    [last], or 0. *)
Lemma find_last_set_spec t last :
  maps_ok (fd_nfiles t) (fd_himap t) (fd_lomap t) ->
  Z.of_nat (length (fd_ofiles t)) = fd_nfiles t -> 0 <= last <= fd_nfiles t ->
  (forall fd, 0 <= fd -> used t fd = is_open t fd) ->
  exists m, find_last_set t last = Some m /\ (m = 0 \/ (0 <= m < last /\ used t m = true)) /\
    forall j, m < j < last -> used t j = false.
Proof.
  intros Hok Hlen Hlast Hused. unfold find_last_set. rewrite shiftr_shift.
  assert (Hlo : fd_nfiles t <= 32 * Z.of_nat (length (fd_lomap t))).
  { rewrite (mo_lo_len _ _ _ Hok), NDLOSLOTS_eq, NDHISLOTS_eq.
    Z.to_euclidean_division_equations; lia. }
  destruct (fls_words_spec (Z.to_nat ((last - 1) / 32 + 1)) (fd_lomap t) ((last - 1) / 32))
    as (off & -> & Hle & Hge & Hz).
  { apply Hok. }
  { Z.to_euclidean_division_equations; lia. }
  { Z.to_euclidean_division_equations; lia. }
  cbn [mbind option_bind]. rewrite shiftl_shift.
  assert (Hz' : forall j, 32 * (off + 1) <= j < last -> used t j = false).
  { intros j Hj. apply Hz. Z.to_euclidean_division_equations; lia. }
  destruct (off <? 0) eqn:E; zify_bool.
  { exists 0. split; [done|]. split; [by left|]. intros j Hj. apply Hz'. lia. }
  assert (0 < last) by (Z.to_euclidean_division_equations; lia).
  set (i := if last <=? 32 * (off + 1) - 1 then last - 1 else 32 * (off + 1) - 1).
  assert (Hi : 0 <= i < last /\ (forall j, i < j < last -> 32 * (off + 1) <= j)).
  { unfold i. destruct (last <=? 32 * (off + 1) - 1) eqn:E2; zify_bool; split; intros; lia. }
  destruct (fls_files_spec (Z.to_nat i) (fd_ofiles t) i) as (m & -> & Hm & Hc & Hn); [lia|lia|].
  exists m. split; [done|]. split.
  - destruct Hc as [->|[a Ha]]; [by left|right]. split; [lia|]. rewrite Hused by lia.
    unfold is_open. by rewrite Ha.
  - intros j Hj. destruct (Z.le_gt_cases j i).
    + rewrite Hused by lia. unfold is_open. by rewrite Hn by lia.
    + apply Hz'. split; [|lia]. destruct Hi as [_ Hi]. apply Hi. lia.
Qed.

Lemma fd_unused_spec t fd :
  tbl_ok t (Some fd) -> used t fd = true ->
  exists t', fd_unused t fd = Some t' /\ tbl_ok t' None /\ same_entries t t' /\
    forall j, 0 <= j -> used t' j = used t j && negb (j =? fd).
Proof.
  intros Ht Hu. pose proof (lo_len_ge t _ Ht). pose proof (tk_except _ _ Ht fd eq_refl) as Hfd.
  destruct (maps_clear (fd_nfiles t) (fd_himap t) (fd_lomap t) fd (tk_maps _ _ Ht) ltac:(lia))
    as (w & hi & lo & Hw & Hhi & Hlo & Hok & Hbits).
  unfold fd_unused. rewrite !shiftr_shift, !land_mask by (Z.to_euclidean_division_equations; lia).
  rewrite Hw. cbn [mbind option_bind]. rewrite Hhi. cbn [mbind option_bind]. rewrite Hlo.
  cbn [mbind option_bind]. pose proof Ht as [T1 T2 T3 T4 T5 T6 T7 T8 T9].
  destruct T8 as (Hl & Hmax & Hlu).
  rewrite (proj2 (Z.ltb_ge (fd_lastfile t) fd)) by (apply Hmax; [lia|done]).
  set (t1 := set_maps t hi lo).
  assert (Hused1 : forall j, 0 <= j -> used t1 j = used t j && negb (j =? fd)) by exact Hbits.
  assert (Hopen : forall j, 0 <= j -> used t1 j = is_open t1 j).
  { intros j Hj. rewrite Hused1, T5 by done. change (is_open t1 j) with (is_open t j).
    destruct (j =? fd) eqn:E; zify_bool.
    - subst j. rewrite T5 in Hu by done. rewrite bool_decide_true in Hu by done.
      rewrite andb_false_r. by destruct (is_open t fd).
    - rewrite andb_true_r, bool_decide_false by congruence. apply xorb_false_r. }
  assert (exists last, (if fd =? fd_lastfile t then find_last_set t1 fd else Some (fd_lastfile t))
    = Some last /\ 0 <= last < fd_nfiles t /\ (last = 0 \/ used t1 last = true) /\
    forall j, 0 <= j -> used t1 j = true -> j <= last) as (last & Heq & Hlr & Hl0 & Hlmax).
  { destruct (fd =? fd_lastfile t) eqn:E; zify_bool.
    - destruct (find_last_set_spec t1 fd Hok T2) as (m & -> & Hm & Hz); [cbn; lia|done|].
      exists m. split; [done|]. split; [lia|]. split; [destruct Hm; [by left|right; tauto]|].
      intros j Hj Hju. destruct (Z.le_gt_cases j m); [done|].
      pose proof Hju as Hju'. rewrite Hused1 in Hju' by done.
      apply andb_true_iff in Hju' as [Hju' Hne]. zify_bool.
      pose proof (Hmax j Hj Hju'). rewrite Hz in Hju by lia. done.
    - exists (fd_lastfile t). split; [done|]. split; [done|]. split.
      + destruct Hlu as [->|Hlu]; [by left|right]. rewrite Hused1, Hlu by lia.
        by rewrite (proj2 (Z.eqb_neq _ _)) by congruence.
      + intros j Hj Hju. rewrite Hused1 in Hju by done. apply andb_true_iff in Hju as [Hju _].
        by apply Hmax. }
  rewrite Heq. cbn [mbind option_bind]. eexists. split; [done|]. set (t' := set_marks _ _ _ _).
  assert (Hused : forall j, 0 <= j -> used t' j = used t j && negb (j =? fd)) by exact Hbits.
  split; [|done]. split; try done.
  - intros j Hj. rewrite bool_decide_false, xorb_false_r by done. by apply Hopen.
  - cbn [fd_freefile t' set_marks]. destruct T7 as [? T7].
    destruct (fd <? fd_freefile t) eqn:E; zify_bool; cbn iota; (split; [lia|]); intros j Hj;
      rewrite Hused, T7 by lia; rewrite (proj2 (Z.eqb_neq _ _)) by lia; done.
  - change (fd_openfd t - 1 = countb (used t') (Z.to_nat (fd_nfiles t))). rewrite T9.
    rewrite (countb_flip (used t) (used t') fd false (Z.to_nat (fd_nfiles t))); [|lia|done|].
    + destruct (fd <? Z.of_nat _) eqn:E; zify_bool; cbn iota; lia.
    + intros j Hj. rewrite Hused by done. destruct (j =? fd); [apply andb_false_r|apply andb_true_r].
Qed.

(** ** Allocation *)

(** [d] is the lowest free descriptor from [want] on. *)
Definition least_free (t : filedesc) (want d : Z) : Prop :=
  want <= d /\ used t d = false /\ forall j, want <= j < d -> used t j = true.

Lemma least_free_search t want n :
  (exists d, least_free t want d /\ d < want + Z.of_nat n) \/
  (forall j, want <= j < want + Z.of_nat n -> used t j = true).
Proof.
  induction n as [|n [(d & Hd & Hn)|IH]]; [right; lia|left; exists d; split; [done|lia]|].
  destruct (used t (want + Z.of_nat n)) eqn:E.
  - right. intros j Hj. destruct (decide (j = want + Z.of_nat n)) as [->|]; [done|]. apply IH. lia.
  - left. exists (want + Z.of_nat n). split; [|lia]. split; [lia|]. split; [done|]. exact IH.
Qed.

Lemma least_free_exists t r want :
  tbl_ok t r -> 0 <= want ->
  exists d, least_free t want d /\ d <= Z.max want (fd_nfiles t).
Proof.
  intros Ht Hw. destruct (least_free_search t want (Z.to_nat (fd_nfiles t - want)))
    as [(d & Hd & Hlt)|Hall]; [exists d; split; [done|lia]|].
  exists (Z.max want (fd_nfiles t)). split; [|lia]. split; [lia|]. split.
  - destruct (used t _) eqn:E; [|done]. eapply used_range in E; [lia|done|lia].
  - intros j Hj. apply Hall. lia.
Qed.

(** Free and used descriptors as bits of the low map. *)
Lemma used_bitat t j :
  0 <= j < 32 * Z.of_nat (length (fd_lomap t)) -> bitat (fd_lomap t) j = Some (used t j).
Proof.
  intros [b Hb]%bitat_is_Some. unfold used, lo_used. by rewrite Hb.
Qed.

Lemma least_free_next_zero t want d :
  0 <= want -> d < 32 * Z.of_nat (length (fd_lomap t)) -> least_free t want d ->
  next_zero (fd_lomap t) want d.
Proof.
  intros Hw Hd (Hge & Hf & Hl). split; [done|]. rewrite used_bitat, Hf by lia. split; [done|].
  intros j Hj. by rewrite used_bitat, Hl by lia.
Qed.

Lemma bitat_drop ws n j :
  0 <= n -> 0 <= j -> bitat (drop (Z.to_nat n) ws) j = bitat ws (32 * n + j).
Proof.
  intros Hn Hj. unfold bitat.
  replace ((32 * n + j) / 32) with (n + j / 32) by (Z.to_euclidean_division_equations; lia).
  replace ((32 * n + j) mod 32) with (j mod 32) by (Z.to_euclidean_division_equations; lia).
  assert (0 <= j / 32) by (apply Z.div_pos; lia).
  replace (rd (drop (Z.to_nat n) ws) (j / 32)) with (rd ws (n + j / 32)); [done|].
  unfold rd. rewrite !(proj2 (Z.ltb_ge _ _)) by lia. rewrite lookup_drop. f_equal. lia.
Qed.

Lemma word_full_used t w x :
  maps_ok (fd_nfiles t) (fd_himap t) (fd_lomap t) -> rd (fd_lomap t) w = Some x ->
  x = full <-> forall k, 0 <= k < 32 -> used t (32 * w + k) = true.
Proof.
  intros Hok Hx. rewrite (full_bits x) by exact (rd_word _ _ _ (mo_lo_words _ _ _ Hok) Hx).
  assert (forall k, 0 <= k < 32 -> used t (32 * w + k) = Z.testbit x k) as Hb.
  { intros k Hk. unfold used, lo_used. by rewrite (bitat_word _ w x). }
  split; intros H k Hk; specialize (H k Hk); rewrite Hb in * by done; done.
Qed.

(** The first word from [off] on that is not full. *)
Lemma hi_next_zero t i d x :
  maps_ok (fd_nfiles t) (fd_himap t) (fd_lomap t) -> 0 <= i ->
  d < 32 * Z.of_nat (length (fd_lomap t)) -> least_free t i d ->
  rd (fd_lomap t) (i / 32) = Some x ->
  next_zero (fd_himap t) (i / 32) (if x =? full then d / 32 else i / 32).
Proof.
  intros Hok Hi Hd (Hge & Hf & Hl) Hx. pose proof (mo_hi _ _ _ Hok) as Hhi.
  assert (i / 32 <= d / 32) by (apply Z.div_le_mono; lia).
  destruct (x =? full) eqn:E; zify_bool.
  2: { split; [lia|]. rewrite (Hhi _ x Hx), (proj2 (Z.eqb_neq x full) E). split; [done|]. lia. }
  assert (Hword : forall w, 0 <= w <= d / 32 -> exists y, rd (fd_lomap t) w = Some y).
  { intros w Hw. apply rd_is_Some. Z.to_euclidean_division_equations; lia. }
  split; [done|]. split.
  - destruct (Hword (d / 32)) as [y Hy]; [split; [apply Z.div_pos; lia|lia]|].
    assert (y <> full) as Hyf.
    { intros Hyf. rewrite (word_full_used t (d / 32) y Hok Hy) in Hyf.
      specialize (Hyf (d mod 32) (Z.mod_pos_bound d 32 ltac:(lia))).
      rewrite <- Z.div_mod in Hyf by lia. congruence. }
    rewrite (Hhi _ y Hy). by rewrite (proj2 (Z.eqb_neq y full) Hyf).
  - intros w Hw. assert (0 <= i / 32) by (apply Z.div_pos; lia).
    destruct (Hword w) as [y Hy]; [lia|]. rewrite (Hhi _ y Hy). f_equal. apply Z.eqb_eq.
    destruct (decide (w = i / 32)) as [->|Hne]; [congruence|].
    apply (word_full_used t w y Hok Hy). intros k Hk. apply Hl.
    Z.to_euclidean_division_equations; lia.
Qed.

(** A table with other flags and another hint for free descriptors. *)
Lemma tbl_ok_hint t r fl free :
  tbl_ok t r -> length fl = length (fd_ofileflags t) -> 0 <= free ->
  (forall j, 0 <= j < free -> used t j = true) ->
  tbl_ok (set_marks (set_ofileflags t fl) (fd_lastfile t) free (fd_openfd t)) r.
Proof.
  intros [T1 T2 T3 T4 T5 T6 T7 T8 T9] Hlen Hfree Hall.
  split; try done. cbn [fd_ofileflags set_marks set_ofileflags fd_nfiles]. by rewrite Hlen.
Qed.

Section alloc.
Context (rlim_cur maxfiles : Z).
Abbreviation lim := (lim rlim_cur maxfiles).

Definition alloc_last (t : filedesc) : Z := Z.min (fd_nfiles t) lim.

(** [t'] is [t] with descriptor [d] reserved. *)
Record reserved (t : filedesc) (d : Z) (t' : filedesc) : Prop := {
  rs_ok : tbl_ok t' (Some d);
  rs_self : fd_self t' = fd_self t;
  rs_ofiles : fd_ofiles t' = fd_ofiles t;
  rs_flags : fd_ofileflags t' = <[Z.to_nat d := 0]> (fd_ofileflags t);
  rs_nfiles : fd_nfiles t' = fd_nfiles t;
  rs_refcnt : fd_refcnt t' = fd_refcnt t;
  rs_kn : fd_knlistsize t' = fd_knlistsize t;
  rs_fdflags : fd_flags t' = fd_flags t;
  rs_used : forall j, 0 <= j -> used t' j = used t j || (j =? d);
}.

(** What [fdalloc] promises. *)
Definition alloc_post (t : filedesc) (want : Z) (res : option (filedesc * (Z + Z))) : Prop :=
  (exists d t', res = Some (t', inl d) /\ least_free t want d /\ d < alloc_last t /\
     reserved t d t') \/
  ((forall j, want <= j < alloc_last t -> used t j = true) /\
   res = Some (t, inr (if lim <=? fd_nfiles t then EMFILE else ENOSPC))).

(** The end of a round that found [d]. *)
Lemma alloc_take t want d :
  tbl_ok t None -> 0 <= want -> least_free t want d ->
  (want <= fd_freefile t -> forall j, 0 <= j < d -> used t j = true) ->
  alloc_post t want
    (if d <? alloc_last t then
       t1 ← fd_used t d;
       let free := if want <=? fd_freefile t1 then d else fd_freefile t1 in
       fl ← wr (fd_ofileflags t1) d 0;
       Some (set_marks (set_ofileflags t1 fl) (fd_lastfile t1) free (fd_openfd t1), inl d)
     else Some (t, if lim <=? fd_nfiles t then inr EMFILE else inr ENOSPC)).
Proof.
  intros Ht Hw Hd Hlow. pose proof Hd as (Hge & Hf & Hl). unfold alloc_last.
  destruct (d <? _) eqn:E; zify_bool.
  - left. destruct (fd_used_spec t None (Some d) d Ht ltac:(lia) Hf) as
      (t1 & -> & Ht1 & (S1 & S2 & S3 & S4 & S5 & S6 & S7) & Hfree & Hu); [by left|].
    cbn [mbind option_bind]. rewrite wr_Some by (rewrite (tk_flags _ _ Ht1), S4; lia).
    cbn [mbind option_bind]. eexists d, _. split; [done|]. split; [done|]. split; [unfold alloc_last; lia|].
    split; try done.
    + apply tbl_ok_hint; [done|by rewrite length_insert| |].
      * rewrite Hfree. pose proof (proj1 (tk_free _ _ Ht)). destruct (want <=? fd_freefile t); lia.
      * rewrite Hfree. intros j Hj. destruct (want <=? fd_freefile t) eqn:E2; zify_bool.
        -- rewrite Hu, Hlow by lia. done.
        -- rewrite Hu by lia. by rewrite (proj2 (tk_free _ _ Ht) j Hj).
    + cbn. by rewrite S3.
  - right. split; [|by destruct (lim <=? fd_nfiles t)].
    intros j Hj. unfold alloc_last in Hj. apply Hl. lia.
Qed.

Lemma alloc_none t want :
  (forall j, want <= j < alloc_last t -> used t j = true) ->
  alloc_post t want (Some (t, if lim <=? fd_nfiles t then inr EMFILE else inr ENOSPC)).
Proof. intros H. right. split; [done|]. by destruct (lim <=? fd_nfiles t). Qed.

(** The words that a round searches reach as far as the free descriptor. *)
Lemma alloc_reach t i d :
  NDREDUCE (fd_nfiles t) < NDLOSLOTS (fd_nfiles t) ->
  Z.of_nat (length (fd_lomap t)) = NDLOSLOTS (fd_nfiles t) -> 0 <= i ->
  i / 32 <= NDREDUCE (fd_nfiles t) -> d <= Z.max i (fd_nfiles t) ->
  d < 32 * Z.of_nat (length (fd_lomap t)).
Proof.
  intros Hslack Hlen Hi Hb Hd. rewrite Hlen. unfold NDREDUCE in *. rewrite shiftr_shift in *.
  unfold NDENTRIES in *. Z.to_euclidean_division_equations; lia.
Qed.

(** The first free bit of the rest of the low map. *)
Lemma lo_next_zero t i d new k :
  0 <= i -> least_free t i d -> d < 32 * Z.of_nat (length (fd_lomap t)) -> 0 <= new -> 0 <= k ->
  (new = i / 32 /\ k = i mod 32) \/ (i / 32 < new /\ new = d / 32 /\ k = 0) ->
  next_zero (drop (Z.to_nat new) (fd_lomap t)) k (d - 32 * new).
Proof.
  intros Hi (Hdi & Hdf & Hdl) Hdlo Hnew Hk Hcase.
  assert (0 <= d - 32 * new /\ 32 * new + k <= d)
    by (destruct Hcase as [?|?]; Z.to_euclidean_division_equations; lia).
  split; [lia|]. rewrite bitat_drop by lia. replace (32 * new + (d - 32 * new)) with d by lia.
  rewrite used_bitat, Hdf by lia. split; [done|]. intros j Hj.
  rewrite bitat_drop, used_bitat by lia. f_equal. apply Hdl.
  destruct Hcase as [?|?]; Z.to_euclidean_division_equations; lia.
Qed.

(** One round of [fdalloc] comes to an end, or restarts at a word boundary. *)
Lemma fdalloc_round fuel t want :
  tbl_ok t None -> NDREDUCE (fd_nfiles t) < NDLOSLOTS (fd_nfiles t) -> 0 <= want -> 0 <= lim ->
  alloc_post t want (fdalloc_loop rlim_cur maxfiles (S fuel) t want) \/
  exists want', fdalloc_loop rlim_cur maxfiles (S fuel) t want =
      fdalloc_loop rlim_cur maxfiles fuel t want' /\
    want < want' /\ want' mod 32 = 0 /\ fd_freefile t < want' /\
    Z.max want (fd_freefile t) mod 32 <> 0 /\ forall j, want <= j < want' -> used t j = true.
Proof.
  intros Ht Hslack Hw Hlim. cbn [fdalloc_loop]. pose proof (tk_free _ _ Ht) as [Hf0 Hfall].
  set (i := if want <? fd_freefile t then fd_freefile t else want).
  assert (Hi : i = Z.max want (fd_freefile t) /\ want <= i)
    by (unfold i; destruct (want <? fd_freefile t) eqn:E; zify_bool; lia).
  assert (Hui : forall j, want <= j < i -> used t j = true).
  { intros j Hj. apply Hfall. lia. }
  change (Z.min (fd_nfiles t) lim) with (alloc_last t).
  pose proof (table_size_pos _ (tk_size _ _ Ht)) as Hnf.
  assert (Hlast : 0 <= alloc_last t <= fd_nfiles t) by (unfold alloc_last; lia).
  rewrite !shiftr_shift. set (bits := (alloc_last t + NDENTRIES - 1) / 32).
  assert (Hbits : alloc_last t <= 32 * bits /\ 0 <= bits <= NDREDUCE (fd_nfiles t)).
  { unfold bits, NDREDUCE. rewrite shiftr_shift. unfold NDENTRIES.
    Z.to_euclidean_division_equations; lia. }
  pose proof (mo_lo_len _ _ _ (tk_maps _ _ Ht)) as Hlen.
  destruct (Z.lt_ge_cases bits (i / 32)) as [Hoff|Hoff].
  { left. rewrite find_next_zero_past by done.
    cbn [mbind option_bind]. apply alloc_none. intros j Hj. apply Hui.
    Z.to_euclidean_division_equations; lia. }
  assert (Hi32 : 0 <= i / 32) by (apply Z.div_pos; lia).
  destruct (least_free_exists t None i Ht ltac:(lia)) as (d & Hd & Hdmax).
  pose proof Hd as (Hdi & Hdf & Hdl).
  assert (Hdlo : d < 32 * Z.of_nat (length (fd_lomap t))).
  { apply (alloc_reach t i d); done || lia. }
  assert (exists x, rd (fd_lomap t) (i / 32) = Some x) as [x Hx].
  { apply rd_is_Some. lia. }
  pose proof (hi_next_zero t i d x (tk_maps _ _ Ht) ltac:(lia) Hdlo Hd Hx) as Hhi.
  set (new := if x =? full then d / 32 else i / 32) in *.
  assert (Hnew : i / 32 <= new /\ (new = i / 32 /\ x <> full \/ new = d / 32)).
  { split; [apply Hhi|]. unfold new. destruct (x =? full) eqn:E; zify_bool; tauto. }
  clearbody new.
  rewrite (find_next_zero_spec _ _ bits new) by (apply (tk_maps _ _ Ht) || lia || done).
  cbn [mbind option_bind]. destruct (new / 32 <? NDLOSLOTS bits) eqn:Enew; zify_bool.
  2: { left. apply alloc_none. rewrite NDLOSLOTS_eq, NDHISLOTS_eq in Enew. intros j Hj.
       destruct (Z.lt_ge_cases j i); [by apply Hui; lia|]. apply Hdl.
       Z.to_euclidean_division_equations; lia. }
  set (k := if i / 32 <? new then 0 else i .& NDENTRYMASK).
  assert (Hk : 0 <= k < 32 /\ ((new = i / 32 /\ k = i mod 32) \/
    (i / 32 < new /\ new = d / 32 /\ k = 0))).
  { unfold k. rewrite land_mask by lia. pose proof (Z.mod_pos_bound i 32 ltac:(lia)).
    destruct (i / 32 <? new) eqn:E; zify_bool; [|lia]. destruct Hnew as [? [?|?]]; lia. }
  assert (Hnz : next_zero (drop (Z.to_nat new) (fd_lomap t)) k (d - 32 * new))
    by (apply (lo_next_zero t i d); done || lia).
  rewrite (find_next_zero_spec _ k NDENTRIES (d - 32 * new));
    [|apply Forall_drop, (tk_maps _ _ Ht)|unfold NDENTRIES; lia|done].
  cbn [mbind option_bind]. change (NDLOSLOTS NDENTRIES) with 32. rewrite !shiftl_shift.
  destruct ((d - 32 * new) / 32 <? 32) eqn:Efar; zify_bool.
  - left. replace (d - 32 * new + 32 * new) with d by lia.
    apply alloc_take; [done|done| |].
    + split; [lia|]. split; [done|]. intros j Hj. destruct (Z.lt_ge_cases j i); [by apply Hui; lia|].
      by apply Hdl; lia.
    + intros Hle j Hj. destruct (Z.lt_ge_cases j i); [apply Hfall; lia|]. by apply Hdl; lia.
  - right. exists (32 * (new + 1)). split; [done|].
    assert (new = i / 32 /\ k = i mod 32 /\ x <> full) as (Hn1 & Hk1 & Hxf)
      by (destruct Hk as [_ [?|?]], Hnew as [_ [?|?]]; Z.to_euclidean_division_equations; lia).
    assert (i mod 32 <> 0).
    { intros Him. apply Hxf. apply (word_full_used t (i / 32) x (tk_maps _ _ Ht) Hx).
      intros q Hq. apply Hdl. Z.to_euclidean_division_equations; lia. }
    split; [Z.to_euclidean_division_equations; lia|].
    split; [rewrite Z.mul_comm; apply Z.mod_mul; lia|].
    split; [Z.to_euclidean_division_equations; lia|]. destruct Hi as [Hi _]. rewrite <- Hi.
    split; [done|]. intros j Hj. destruct (Z.lt_ge_cases j i); [by apply Hui; lia|]. apply Hdl.
    Z.to_euclidean_division_equations; lia.
Qed.

(** [fdalloc] returns the lowest free descriptor from [want] on that is in the
    table and below the limit; two rounds are enough. *)
Lemma fdalloc_spec t want :
  tbl_ok t None -> fd_nfiles t < 25600 -> 0 <= want -> 0 <= lim ->
  alloc_post t want (fdalloc rlim_cur maxfiles t want).
Proof.
  intros Ht Hn Hw Hlim. pose proof (table_size_slack _ (tk_size _ _ Ht) Hn) as Hslack.
  unfold fdalloc.
  destruct (fdalloc_round 1 t want Ht Hslack Hw Hlim) as [?|(want' & -> & H1 & H2 & H3 & _ & Hu)];
    [done|].
  destruct (fdalloc_round 0 t want' Ht Hslack ltac:(lia) Hlim) as [Hp|(? & _ & _ & _ & _ & Hm & _)].
  - destruct Hp as [(d & t' & Heq & Hd & Hlt & Hr)|[Hall Heq]].
    + left. exists d, t'. split; [done|]. split; [|done]. destruct Hd as (? & ? & Hl).
      split; [lia|]. split; [done|]. intros j Hj. destruct (Z.lt_ge_cases j want'); [apply Hu; lia|].
      apply Hl; lia.
    + right. split; [|done]. intros j Hj.
      destruct (Z.lt_ge_cases j want'); [apply Hu; lia|]. apply Hall; lia.
  - by rewrite Z.max_l in Hm by lia.
Qed.

End alloc.

(** ** Growing a table *)

Lemma rd_extend {A} (l : list A) n z j :
  Z.of_nat (length l) <= n ->
  rd (extend l n z) j = if j <? Z.of_nat (length l) then rd l j
                        else if j <? n then Some z else None.
Proof.
  intros Hn. unfold rd, extend. destruct (j <? 0) eqn:E; zify_bool.
  { destruct (j <? Z.of_nat (length l)) eqn:E2; zify_bool; [done|lia]. }
  destruct (j <? Z.of_nat (length l)) eqn:E2; zify_bool.
  - by rewrite lookup_app_l by lia.
  - rewrite lookup_app_r by lia. destruct (j <? n) eqn:E3; zify_bool.
    + rewrite lookup_replicate_2 by lia. done.
    + apply lookup_replicate_None. lia.
Qed.

Lemma length_extend {A} (l : list A) n z :
  Z.of_nat (length l) <= n -> Z.of_nat (length (extend l n z)) = n.
Proof. intros. unfold extend. rewrite length_app, length_replicate. lia. Qed.

Lemma NDHISLOTS_mono x y : x <= y -> NDHISLOTS x <= NDHISLOTS y.
Proof. intros. rewrite !NDHISLOTS_eq. Z.to_euclidean_division_equations; lia. Qed.

Lemma lo_used_extend lo n j :
  Z.of_nat (length lo) <= n -> lo_used (extend lo n 0) j = lo_used lo j.
Proof.
  intros Hn. unfold lo_used, bitat. rewrite rd_extend by done.
  destruct (j / 32 <? Z.of_nat (length lo)) eqn:E; zify_bool; [done|].
  rewrite (proj2 (rd_None lo (j / 32))) by lia. destruct (j / 32 <? n); [|done]. cbn.
  by rewrite Z.bits_0.
Qed.

Lemma maps_extend nf nf' hi lo :
  maps_ok nf hi lo -> nf <= nf' ->
  maps_ok nf' (extend hi (NDHISLOTS nf') 0) (extend lo (NDLOSLOTS nf') 0).
Proof.
  intros [H1 H2 H3 H4 H5] Hle. pose proof (NDHISLOTS_mono nf nf' Hle) as Hm.
  rewrite NDLOSLOTS_eq in *.
  assert (Hz : forall k, Forall (inu 32) (replicate k 0)).
  { intros k. apply Forall_replicate. by split. }
  split.
  - apply length_extend. lia.
  - rewrite NDLOSLOTS_eq. apply length_extend. lia.
  - unfold extend. apply Forall_app. by split.
  - unfold extend. apply Forall_app. by split.
  - intros w x. rewrite rd_extend by lia. intros Hx.
    destruct (w <? Z.of_nat (length lo)) eqn:E; zify_bool.
    + pose proof (H5 w x Hx) as Hb. unfold bitat in *. rewrite rd_extend by lia.
      rewrite (proj2 (Z.ltb_lt (w / 32) _)); [done|].
      apply bind_Some in Hb as (h & Hh & _).
      assert (is_Some (rd hi (w / 32))) as Hs by (by eexists). apply rd_is_Some in Hs. lia.
    + destruct (w <? 32 * NDHISLOTS nf') eqn:E2; zify_bool; [|done]. injection Hx as <-.
      unfold bitat. rewrite rd_extend by lia.
      rewrite (proj2 (Z.ltb_ge (w / 32) _)) by (Z.to_euclidean_division_equations; lia).
      rewrite (proj2 (Z.ltb_lt (w / 32) _)) by (Z.to_euclidean_division_equations; lia).
      cbn. by rewrite Z.bits_0.
Qed.

(** The table has more room, and is otherwise the same. *)
Lemma fdexpand_spec t :
  tbl_ok t None ->
  tbl_ok (fdexpand t) None /\
  (forall j, rd (fd_ofiles (fdexpand t)) j = if j <? fd_nfiles t then rd (fd_ofiles t) j
     else if j <? fd_nfiles (fdexpand t) then Some None else None) /\
  (forall j x, rd (fd_ofileflags t) j = Some x -> rd (fd_ofileflags (fdexpand t)) j = Some x) /\
  (forall j, used (fdexpand t) j = used t j) /\
  fd_nfiles (fdexpand t) = (if fd_nfiles t <? NDEXTENT then NDEXTENT else 2 * fd_nfiles t) /\
  fd_self (fdexpand t) = fd_self t /\ fd_refcnt (fdexpand t) = fd_refcnt t /\
  fd_knlistsize (fdexpand t) = fd_knlistsize t /\ fd_flags (fdexpand t) = fd_flags t.
Proof.
  intros [T1 T2 T3 T4 T5 T6 T7 T8 T9]. unfold fdexpand.
  set (nf := if fd_nfiles t <? NDEXTENT then NDEXTENT else 2 * fd_nfiles t).
  pose proof (table_size_pos _ T1) as Hpos.
  assert (Hnf : fd_nfiles t < nf /\ table_size nf).
  { unfold nf. destruct (fd_nfiles t <? NDEXTENT) eqn:E; zify_bool.
    - split; [done|]. right. exists 0. split; [lia|done].
    - split; [lia|]. destruct T1 as [T1|(k & Hk & T1)]; [rewrite T1 in E; done|].
      right. exists (k + 1). split; [lia|]. rewrite T1, Z.pow_add_r by lia. lia. }
  set (hl := if NDHISLOTS (fd_nfiles t) <? NDHISLOTS nf then _ else _).
  assert (Hmaps : maps_ok nf (fst hl) (snd hl) /\ forall j, lo_used (snd hl) j = used t j).
  { unfold hl. pose proof (NDHISLOTS_mono (fd_nfiles t) nf ltac:(lia)).
    destruct (NDHISLOTS (fd_nfiles t) <? NDHISLOTS nf) eqn:E; zify_bool.
    - split; [by apply (maps_extend (fd_nfiles t)); [|lia]|]. intros j. apply lo_used_extend.
      rewrite (mo_lo_len _ _ _ T4), !NDLOSLOTS_eq. lia.
    - split; [|done]. destruct T4 as [M1 M2 M3 M4 M5]. rewrite NDLOSLOTS_eq in M2.
      split; try done; cbn [fst snd]; rewrite ?NDLOSLOTS_eq; lia. }
  destruct hl as [hi lo]. cbn [fst snd] in Hmaps. destruct Hmaps as [Hok Hused].
  cbn [fd_ofiles fd_ofileflags fd_nfiles fd_self fd_refcnt fd_knlistsize fd_flags].
  set (t' := Fdesc _ _ _ _ _ _ _ _ _ _ _ _).
  assert (Hu : forall j, used t' j = used t j) by exact Hused.
  assert (Hrd : forall j, rd (fd_ofiles t') j =
    if j <? fd_nfiles t then rd (fd_ofiles t) j else if j <? nf then Some None else None).
  { intros j. cbn [t' fd_ofiles]. rewrite rd_extend by lia. by rewrite T2. }
  split; [|split_and!; try done].
  - split; try done.
    + apply Hnf.
    + apply (length_extend (fd_ofiles t) nf). lia.
    + apply (length_extend (fd_ofileflags t) nf). lia.
    + intros j Hj. rewrite Hu, T5 by done. f_equal. unfold is_open. rewrite Hrd.
      destruct (j <? fd_nfiles t) eqn:E; zify_bool; [done|].
      rewrite (proj2 (rd_None (fd_ofiles t) j)) by lia. by destruct (j <? nf).
    + destruct T7 as [? T7]. split; [done|]. intros j Hj. rewrite Hu. by apply T7.
    + destruct T8 as (Hl & T8 & T8').
      split; [change (0 <= fd_lastfile t < nf); lia|]. split.
      * intros j Hj. rewrite Hu. by apply T8.
      * destruct T8' as [?|?]; [by left|right]. by rewrite Hu.
    + cbn [fd_openfd fd_nfiles t']. rewrite T9.
      rewrite (countb_ext (used t') (used t)) by (intros; apply Hu).
      symmetry. apply countb_extend; [lia|]. intros j Hj.
      destruct (used t j) eqn:Ej; [|done]. exfalso.
      assert (j < fd_nfiles t); [|lia].
      apply (used_range t j None); [by split|lia|done].
  - intros j x Hx. rewrite rd_extend by lia.
    assert (is_Some (rd (fd_ofileflags t) j)) as Hs by (by eexists). apply rd_is_Some in Hs.
    by rewrite (proj2 (Z.ltb_lt j _)) by lia.
Qed.

End DescripTable.
