(* ===== verification/DescripProofs.v ===== *)
(** * Open files and their references

    The operations of [Descrip] on tables and files: the count of a file is the
    number of references to it, and each call changes the descriptors it should
    and no other. *)

From S2P Require Import Prelude Libkern Descrip DescripMaps DescripTable.
Import Libkern Descrip DescripMaps DescripTable.
#[local] Open Scope Z_scope.

Module DescripProofs.

(** ** References *)

(** The file at a descriptor. *)
Definition file_at (t : filedesc) (fd : Z) : option Z :=
  match rd (fd_ofiles t) fd with Some (Some a) => Some a | _ => None end.

Lemma is_open_file_at t fd : is_open t fd = bool_decide (is_Some (file_at t fd)).
Proof.
  unfold is_open, file_at. destruct (rd (fd_ofiles t) fd) as [[a|]|].
  - by rewrite bool_decide_true by eauto.
  - rewrite bool_decide_false; [done|]. by intros [? ?].
  - rewrite bool_decide_false; [done|]. by intros [? ?].
Qed.

Definition refers (t : filedesc) (a fd : Z) : bool := bool_decide (file_at t fd = Some a).

(** The number of descriptors of [t] that refer to file [a]. *)
Definition refs (t : filedesc) (a : Z) : Z := countb (refers t a) (length (fd_ofiles t)).

(** One more reference to [a] from outside of the table. *)
Definition plus (ext : Z -> Z) (a : Z) : Z -> Z := fun x => ext x + Z.b2z (x =? a).

(** The count of each file is the number of references to it: [ext] from
    outside of the table, and the descriptors.  A file without one is gone. *)
Definition counted (ext : Z -> Z) (st : store) (t : filedesc) : Prop :=
  (forall a, 0 <= ext a) /\
  (forall a f, files st !! a = Some f -> f_count f = ext a + refs t a /\ 0 < f_count f) /\
  (forall a, files st !! a = None -> ext a + refs t a = 0) /\
  nfiles st = Z.of_nat (size (files st)).

Lemma table_refs_nonneg t a : 0 <= refs t a.
Proof. apply countb_nonneg. Qed.

Lemma refs_ext t t' a : fd_ofiles t' = fd_ofiles t -> refs t' a = refs t a.
Proof. intros H. unfold refs, refers, file_at. by rewrite H. Qed.

Lemma counted_same ext st t t' : fd_ofiles t' = fd_ofiles t -> counted ext st t -> counted ext st t'.
Proof.
  intros H (H0 & H1 & H2 & H3). split; [done|]. split; [|split; [|done]]; intros a; rewrite (refs_ext t t') by done; auto.
Qed.

Lemma counted_ext ext ext' st t :
  (forall a, ext' a = ext a) -> counted ext st t -> counted ext' st t.
Proof.
  intros H (H0 & H1 & H2 & H3). split; [intros; by rewrite H|].
  split; [|split; [|done]]; intros a; rewrite H; auto.
Qed.

(** Every entry of the table and every outside reference is a file. *)
Lemma counted_file ext st t a :
  counted ext st t -> 0 < ext a + refs t a -> exists f, files st !! a = Some f.
Proof.
  intros (_ & _ & H & _) Hp. destruct (files st !! a) as [f|] eqn:E; [by exists f|].
  apply H in E. lia.
Qed.

Lemma plus_eq ext a : plus ext a a = ext a + 1.
Proof. unfold plus. by rewrite Z.eqb_refl. Qed.

Lemma plus_ne ext a b : b <> a -> plus ext a b = ext b.
Proof. intros. unfold plus. rewrite (proj2 (Z.eqb_neq b a)) by done. cbn. lia. Qed.

(** Files keep all but their counts, and none is new. *)
Definition attr_kept (st st' : store) : Prop :=
  forall a f', files st' !! a = Some f' ->
    exists f, files st !! a = Some f /\ set_count f' 0 = set_count f 0.

Lemma attr_kept_refl st : attr_kept st st.
Proof. intros a f Hf. by exists f. Qed.

Lemma attr_kept_trans st1 st2 st3 : attr_kept st1 st2 -> attr_kept st2 st3 -> attr_kept st1 st3.
Proof.
  intros H1 H2 a f3 H3. destruct (H2 a f3 H3) as (f2 & Hf2 & E2).
  destruct (H1 a f2 Hf2) as (f1 & Hf1 & E1). exists f1. split; [done|congruence].
Qed.

Lemma attr_kept_files st1 st2 st : files st2 = files st1 -> attr_kept st st2 <-> attr_kept st st1.
Proof. intros H. unfold attr_kept. by rewrite H. Qed.

Lemma attr_kept_insert st a f c :
  files st !! a = Some f -> attr_kept st (set_files st (<[a := set_count f c]> (files st))).
Proof.
  intros Hf b g. cbn. destruct (decide (b = a)) as [->|Hne].
  - rewrite lookup_insert_eq. intros [= <-]. by exists f.
  - rewrite lookup_insert_ne by done. intros Hg. by exists g.
Qed.

(** The count of a file goes up by a reference, or down. *)
Lemma FREF_spec ext st t a :
  counted ext st t -> 0 < ext a + refs t a ->
  exists st', FREF st a = Some st' /\ counted (plus ext a) st' t /\
    attr_kept st st' /\
    exists f, files st !! a = Some f /\ files st' !! a = Some (set_count f (f_count f + 1)).
Proof.
  intros Hc Hp. destruct (counted_file _ _ _ _ Hc Hp) as [f Hf]. destruct Hc as (H0 & H1 & H2 & H3).
  unfold FREF, add_count. rewrite Hf. cbn [mbind option_bind]. eexists. split; [done|].
  cbn [files set_files log]. split; [|split].
  - split; [|split; [|split]].
    + intros b. unfold plus. specialize (H0 b). destruct (b =? a); cbn; lia.
    + intros b g. cbn [files set_files]. destruct (decide (b = a)) as [->|Hne].
      * rewrite lookup_insert_eq. intros [= <-]. rewrite plus_eq. cbn.
        specialize (H1 a f Hf). lia.
      * rewrite lookup_insert_ne, plus_ne by done. apply H1.
    + intros b. cbn [files set_files]. destruct (decide (b = a)) as [->|Hne].
      * by rewrite lookup_insert_eq.
      * rewrite lookup_insert_ne, plus_ne by done. apply H2.
    + cbn. rewrite map_size_insert_Some by done. done.
  - by apply attr_kept_insert.
  - exists f. split; [done|]. by rewrite lookup_insert_eq.
Qed.

(** What dropping [k] references to [a] comes to. *)
Definition dropped (fo_close : Z -> Z) (st : store) (a : Z) (f : file) (k : Z) (calls : list call)
    (error : Z) (st' : store) : Prop :=
  if f_count f =? k
  then st' = Store (delete a (files st)) (nfiles st - 1)
               (log st ++ calls ++ if f_ops f then [FoClose a] else []) /\
       error = (if f_ops f then fo_close a else 0)
  else st' = Store (<[a := set_count f (f_count f - k)]> (files st)) (nfiles st) (log st ++ calls) /\
       error = 0.

Lemma FRELE_spec fo_close st a f :
  files st !! a = Some f ->
  exists error st', FRELE fo_close st a = Some (error, st') /\
    dropped fo_close st a f 1 [] error st'.
Proof.
  intros Hf. unfold FRELE, add_count, dropped. rewrite Hf. cbn [mbind option_bind files set_files].
  rewrite lookup_insert_eq. cbn [mbind option_bind f_count set_count].
  destruct (f_count f =? 1) eqn:E; zify_bool.
  - rewrite E. cbn [Z.add Z.opp Z.pos_sub Z.eqb]. unfold fdrop. cbn [files set_files].
    rewrite lookup_insert_eq. cbn [mbind option_bind f_count set_count f_ops].
    change (1 + -1 =? 0) with true. cbn [negb]. destruct (f_ops f); cbn;
      eexists _, _; (split; [done|]); (split; [|done]); f_equal; rewrite ?app_nil_r; try done;
      apply delete_insert_eq.
  - rewrite (proj2 (Z.eqb_neq _ _)) by lia. eexists _, _. split; [done|]. split; [|done].
    rewrite app_nil_r. done.
Qed.

Lemma closef_spec fo_close st a f p :
  files st !! a = Some f -> 2 <= f_count f ->
  exists error st', closef fo_close st (Some a) p = Some (error, st') /\
    dropped fo_close st a f 2
      (match p with
       | Some t => if has (fd_flags t) FD_ADVLOCK && (f_type f =? DTYPE_VNODE)
                   then [Unlock (f_data f) (fd_self t)] else []
       | None => []
       end) error st'.
Proof.
  intros Hf Hc. unfold closef. rewrite Hf. cbn [mbind option_bind].
  rewrite (proj2 (Z.ltb_ge (f_count f) 2)) by done. unfold add_count. rewrite Hf.
  cbn [mbind option_bind]. set (st2 := match p with Some t => _ | None => _ end).
  set (calls := match p with Some t => _ | None => _ end).
  assert (Hst2 : st2 = Store (<[a := set_count f (f_count f + -1)]> (files st)) (nfiles st)
                         (log st ++ calls)).
  { unfold st2, calls, add_log, set_files. destruct p as [t|]; [case_match|]; by rewrite ?app_nil_r. }
  clearbody st2. subst st2.
  destruct (FRELE_spec fo_close (Store (<[a := set_count f (f_count f + -1)]> (files st)) (nfiles st)
    (log st ++ calls)) a (set_count f (f_count f + -1))) as (error & st' & -> & Hd);
    [cbn; apply lookup_insert_eq|].
  exists error, st'. split; [done|]. unfold dropped in *. cbn [f_count set_count files nfiles log f_ops] in Hd.
  replace (f_count f + -1 =? 1) with (f_count f =? 2) in Hd
    by (apply eq_true_iff_eq; rewrite !Z.eqb_eq; lia).
  destruct (f_count f =? 2); destruct Hd as [-> ->]; (split; [|done]).
  - f_equal; [apply delete_insert_eq|]. by rewrite <- app_assoc.
  - f_equal; [|by rewrite app_nil_r]. rewrite insert_insert_eq. f_equal. unfold set_count. cbn. f_equal. lia.
Qed.

Lemma attr_kept_dropped fo_close st a f k calls error st' :
  files st !! a = Some f -> dropped fo_close st a f k calls error st' -> attr_kept st st'.
Proof.
  intros Hf Hd. unfold dropped in Hd. destruct (f_count f =? k); destruct Hd as [-> _].
  - intros b g. cbn. intros [_ Hg]%lookup_delete_Some. by exists g.
  - intros b g Hg. by apply (attr_kept_insert st a f (f_count f - k) Hf b).
Qed.

(** Dropping [k] references that were counted. *)
Lemma counted_dropped fo_close ext ext' st t a f k calls error st' :
  counted ext st t -> files st !! a = Some f ->
  (forall b, ext b = ext' b + (if b =? a then k else 0)) -> (forall b, 0 <= ext' b) -> 0 < k ->
  dropped fo_close st a f k calls error st' -> counted ext' st' t.
Proof.
  intros (H0 & H1 & H2 & H3) Hf Hext Hpos Hk Hd.
  assert (Ha : ext a = ext' a + k) by (by rewrite Hext, Z.eqb_refl).
  assert (Hb : forall b, b <> a -> ext b = ext' b).
  { intros b Hne. rewrite Hext, (proj2 (Z.eqb_neq b a)) by done. lia. }
  specialize (H1 a f Hf) as Hfa. pose proof (table_refs_nonneg t a).
  unfold dropped in Hd. destruct (f_count f =? k) eqn:E; zify_bool; destruct Hd as [-> _];
    (split; [done|]); cbn [files nfiles]; split_and!.
  - intros b g Hg. apply lookup_delete_Some in Hg as [Hne Hg]. rewrite <- Hb by done. by apply H1.
  - intros b Hg. destruct (decide (b = a)) as [->|Hne]; [specialize (Hpos a); lia|].
    rewrite lookup_delete_ne in Hg by done. rewrite <- Hb by done. by apply H2.
  - rewrite map_size_delete, Hf, H3. assert (size (files st) <> 0%nat) by (by eapply map_size_ne_0_lookup_2).
    lia.
  - intros b g Hg. destruct (decide (b = a)) as [->|Hne].
    + rewrite lookup_insert_eq in Hg. injection Hg as <-. cbn. specialize (Hpos a). lia.
    + rewrite lookup_insert_ne in Hg by done. rewrite <- Hb by done. by apply H1.
  - intros b Hg. destruct (decide (b = a)) as [->|Hne].
    + by rewrite lookup_insert_eq in Hg.
    + rewrite lookup_insert_ne in Hg by done. rewrite <- Hb by done. by apply H2.
  - rewrite map_size_insert_Some by done. done.
Qed.

(** ** Entries of a table *)

(** [t] with entry [fd] set to [o]. *)
Definition set_entry (t : filedesc) (fd : Z) (o : option Z) : filedesc :=
  set_ofiles t (<[Z.to_nat fd := o]> (fd_ofiles t)).

Lemma wr_entry t r fd o :
  tbl_ok t r -> 0 <= fd < fd_nfiles t ->
  wr (fd_ofiles t) fd o = Some (<[Z.to_nat fd := o]> (fd_ofiles t)).
Proof. intros Ht Hfd. apply wr_Some. rewrite (tk_ofiles _ _ Ht). lia. Qed.

Lemma rd_entry t r fd :
  tbl_ok t r -> 0 <= fd < fd_nfiles t -> rd (fd_ofiles t) fd = Some (file_at t fd).
Proof.
  intros Ht Hfd. unfold file_at.
  assert (exists o, rd (fd_ofiles t) fd = Some o) as [o ->].
  { apply rd_is_Some. rewrite (tk_ofiles _ _ Ht). lia. }
  by destruct o.
Qed.

Lemma rd_flags t r fd :
  tbl_ok t r -> 0 <= fd < fd_nfiles t -> exists fl, rd (fd_ofileflags t) fd = Some fl.
Proof. intros Ht Hfd. apply rd_is_Some. rewrite (tk_flags _ _ Ht). lia. Qed.

Lemma file_at_write t fd o j :
  0 <= fd < Z.of_nat (length (fd_ofiles t)) ->
  file_at (set_entry t fd o) j = if j =? fd then o else file_at t j.
Proof.
  intros Hfd. unfold file_at. cbn [fd_ofiles set_entry set_ofiles].
  destruct (j =? fd) eqn:E; zify_bool.
  - subst j. rewrite rd_insert_eq by done. by destruct o.
  - by rewrite rd_insert_ne by lia.
Qed.

Lemma file_at_set t r fd o j :
  tbl_ok t r -> 0 <= fd < fd_nfiles t ->
  file_at (set_entry t fd o) j = if j =? fd then o else file_at t j.
Proof. intros Ht Hfd. apply file_at_write. by rewrite (tk_ofiles _ _ Ht). Qed.

Lemma file_at_range t r fd a : tbl_ok t r -> file_at t fd = Some a -> 0 <= fd < fd_nfiles t.
Proof.
  intros Ht H. eapply is_open_range; [done|]. rewrite is_open_file_at, H. apply bool_decide_true. by eexists.
Qed.

(** How many descriptors refer to a file after entry [fd] changed. *)
Lemma refs_write t fd o a :
  0 <= fd < Z.of_nat (length (fd_ofiles t)) ->
  refs (set_entry t fd o) a =
    refs t a + Z.b2z (bool_decide (o = Some a)) - Z.b2z (bool_decide (file_at t fd = Some a)).
Proof.
  intros Hfd. unfold refs. cbn [fd_ofiles set_entry set_ofiles]. rewrite length_insert.
  set (n := length (fd_ofiles t)) in *. set (t' := set_entry t fd o).
  assert (Hr : forall j, 0 <= j -> refers t' a j =
    if j =? fd then bool_decide (o = Some a) else refers t a j).
  { intros j Hj. unfold refers, t'. rewrite file_at_write by done. by destruct (j =? fd). }
  change (bool_decide (file_at t fd = Some a)) with (refers t a fd).
  destruct (decide (bool_decide (o = Some a) = refers t a fd)) as [Heq|Hne].
  - rewrite (countb_ext (refers t' a) (refers t a)); [rewrite Heq; lia|].
    intros j Hj. rewrite Hr by lia. destruct (j =? fd) eqn:E; zify_bool; [by subst|done].
  - rewrite (countb_flip (refers t a) (refers t' a) fd (bool_decide (o = Some a)));
      [|lia|by destruct (bool_decide (o = Some a)), (refers t a fd)|done].
    rewrite (proj2 (Z.ltb_lt fd _)) by lia.
    destruct (bool_decide (o = Some a)), (refers t a fd); cbn; done || lia.
Qed.

Lemma refs_set t r fd o a :
  tbl_ok t r -> 0 <= fd < fd_nfiles t ->
  refs (set_entry t fd o) a =
    refs t a + Z.b2z (bool_decide (o = Some a)) - Z.b2z (bool_decide (file_at t fd = Some a)).
Proof. intros Ht Hfd. apply refs_write. by rewrite (tk_ofiles _ _ Ht). Qed.

(** A reference moves between the outside and an entry of the table. *)
Lemma counted_write ext ext' st t fd o :
  0 <= fd < Z.of_nat (length (fd_ofiles t)) -> (forall a, 0 <= ext' a) ->
  (forall a, ext' a + Z.b2z (bool_decide (o = Some a)) =
             ext a + Z.b2z (bool_decide (file_at t fd = Some a))) ->
  counted ext st t -> counted ext' st (set_entry t fd o).
Proof.
  intros Hfd Hp He (H0 & H1 & H2 & H3). split; [done|]. split; [|split; [|done]].
  - intros a f Hf. rewrite refs_write by done. specialize (H1 a f Hf). specialize (He a). lia.
  - intros a Hf. rewrite refs_write by done. specialize (H2 a Hf). specialize (He a). lia.
Qed.

Lemma counted_set ext ext' st t r fd o :
  tbl_ok t r -> 0 <= fd < fd_nfiles t -> (forall a, 0 <= ext' a) ->
  (forall a, ext' a + Z.b2z (bool_decide (o = Some a)) =
             ext a + Z.b2z (bool_decide (file_at t fd = Some a))) ->
  counted ext st t -> counted ext' st (set_entry t fd o).
Proof. intros Ht Hfd. apply counted_write. by rewrite (tk_ofiles _ _ Ht). Qed.

(** An entry gives its reference to the caller. *)
Lemma counted_clear ext st t fd a :
  0 <= fd < Z.of_nat (length (fd_ofiles t)) -> file_at t fd = Some a ->
  counted ext st t -> counted (plus ext a) st (set_entry t fd None).
Proof.
  intros Hfd Ha Hc. apply (counted_write ext); [done| | |done].
  - intros b. unfold plus. pose proof (proj1 Hc b). destruct (b =? a); cbn; lia.
  - intros b. unfold plus. rewrite Ha, (bool_decide_false (None = Some b)) by done.
    replace (bool_decide (Some a = Some b)) with (b =? a); [cbn; lia|].
    apply eq_true_iff_eq. rewrite Z.eqb_eq, bool_decide_eq_true. split; congruence.
Qed.

Lemma plus_b2z ext a b : plus ext a b = ext b + Z.b2z (bool_decide (Some a = Some b)).
Proof.
  unfold plus. f_equal. f_equal. apply eq_true_iff_eq.
  rewrite Z.eqb_eq, bool_decide_eq_true. split; congruence.
Qed.

Lemma tbl_ok_entry t r r' fd o :
  tbl_ok t r -> 0 <= fd < fd_nfiles t ->
  (forall j, r' = Some j -> j = fd) ->
  (forall j, j <> fd -> r <> Some j) ->
  used t fd = xorb (bool_decide (is_Some o)) (bool_decide (r' = Some fd)) ->
  tbl_ok (set_entry t fd o) r'.
Proof.
  intros Ht Hfd Hr' Hr Hu. pose proof Ht as [T1 T2 T3 T4 T5 T6 T7 T8 T9]. split; try done.
  - cbn. by rewrite length_insert.
  - intros j Hj. change (used (set_entry t fd o) j) with (used t j).
    rewrite is_open_file_at, (file_at_set t r) by done. destruct (j =? fd) eqn:E; zify_bool.
    + by subst j.
    + rewrite T5, is_open_file_at by done. f_equal. rewrite !bool_decide_false; [done| |by apply Hr].
      intros ->. by apply E, Hr'.
  - intros j ->. by rewrite (Hr' j).
Qed.

(** The fields that entries and marks leave alone. *)
Definition kept (t t' : filedesc) : Prop :=
  fd_self t' = fd_self t /\ fd_nfiles t' = fd_nfiles t /\ fd_refcnt t' = fd_refcnt t /\
  fd_knlistsize t' = fd_knlistsize t /\ fd_flags t' = fd_flags t.

Lemma same_entries_kept t t' : same_entries t t' -> kept t t'.
Proof. unfold same_entries, kept. tauto. Qed.

Lemma same_entries_file_at t t' j : same_entries t t' -> file_at t' j = file_at t j.
Proof. intros (_ & H & _). unfold file_at. by rewrite H. Qed.

Lemma used_file_at t fd : tbl_ok t None -> 0 <= fd -> used t fd = bool_decide (is_Some (file_at t fd)).
Proof.
  intros Ht Hfd. rewrite (tk_used _ _ Ht), bool_decide_false, xorb_false_r by done.
  apply is_open_file_at.
Qed.

(** ** The invariant *)

Record inv (ext : Z -> Z) (st : store) (t : filedesc) : Prop := {
  inv_table : tbl_ok t None;
  inv_counted : counted ext st t;
  inv_small : fd_nfiles t < 25600;
}.

(** A descriptor of the table counts. *)
Lemma refs_pos t r fd fp : tbl_ok t r -> file_at t fd = Some fp -> 0 < refs t fp.
Proof.
  intros Ht Hat. pose proof (refs_set t r fd None fp Ht (file_at_range _ _ _ _ Ht Hat)) as Hr.
  rewrite Hat, (bool_decide_true (Some fp = Some fp)), (bool_decide_false (None = Some fp)) in Hr by done.
  cbn [Z.b2z] in Hr. pose proof (table_refs_nonneg (set_entry t fd None) fp). lia.
Qed.

(** The file at a descriptor exists, and its references are counted. *)
Lemma inv_file ext st t fd a :
  counted ext st t -> tbl_ok t None -> file_at t fd = Some a ->
  0 < refs t a /\ exists f, files st !! a = Some f /\ f_count f = ext a + refs t a /\ 0 < f_count f.
Proof.
  intros Hc Ht Ha. pose proof (refs_pos t None fd a Ht Ha) as Hp.
  split; [done|]. destruct (counted_file ext st t a Hc) as [f Hf].
  { pose proof (proj1 Hc a). lia. }
  exists f. split; [done|]. by apply Hc.
Qed.

(** ** Closing a descriptor *)

Section ops.
Context (fo_close : Z -> Z) (rlim_cur maxfiles : Z).

(** A reference that the caller holds is dropped. *)
Lemma FRELE_counted ext st t a :
  counted (plus ext a) st t -> (forall b, 0 <= ext b) ->
  exists error st', FRELE fo_close st a = Some (error, st') /\ counted ext st' t /\ attr_kept st st'.
Proof.
  intros Hc Hp. destruct (counted_file _ _ _ a Hc) as [f Hf].
  { rewrite plus_eq. pose proof (table_refs_nonneg t a). specialize (Hp a). lia. }
  destruct (FRELE_spec fo_close st a f Hf) as (error & st' & -> & Hd). exists error, st'.
  split; [done|]. split; [|by eapply attr_kept_dropped].
  eapply counted_dropped; [exact Hc|exact Hf| |done| |exact Hd]; [|lia].
  intros b. unfold plus. by destruct (b =? a).
Qed.

(** Two references to [a] are dropped by [closef]. *)
Lemma closef_counted ext st t a p :
  counted (plus (plus ext a) a) st t -> (forall b, 0 <= ext b) ->
  exists error st', closef fo_close st (Some a) p = Some (error, st') /\ counted ext st' t /\
    attr_kept st st'.
Proof.
  intros Hc Hp. destruct (counted_file _ _ _ a Hc) as [f Hf].
  { rewrite !plus_eq. pose proof (table_refs_nonneg t a). specialize (Hp a). lia. }
  assert (2 <= f_count f).
  { destruct Hc as (_ & H1 & _). destruct (H1 a f Hf) as [-> _]. rewrite !plus_eq.
    pose proof (table_refs_nonneg t a). specialize (Hp a). lia. }
  destruct (closef_spec fo_close st a f p Hf) as (error & st' & -> & Hd); [done|].
  exists error, st'. split; [done|]. split; [|by eapply attr_kept_dropped].
  eapply counted_dropped; [exact Hc|exact Hf| |done| |exact Hd]; [|lia].
  intros b. unfold plus. destruct (b =? a); cbn; lia.
Qed.

Lemma counted_log ext st t c : counted ext st t -> counted ext (add_log st c) t.
Proof. done. Qed.

Lemma plus_nonneg ext a : (forall b, 0 <= ext b) -> forall b, 0 <= plus ext a b.
Proof. intros H b. unfold plus. specialize (H b). destruct (b =? a); cbn; lia. Qed.

Lemma fdremove_spec t fd a :
  tbl_ok t None -> file_at t fd = Some a ->
  exists t', fdremove t fd = Some t' /\ tbl_ok t' None /\ same_entries (set_entry t fd None) t'.
Proof.
  intros Ht Ha. pose proof (file_at_range _ _ _ _ Ht Ha) as Hfd.
  unfold fdremove. rewrite (wr_entry t None) by done. cbn [mbind option_bind].
  change (set_ofiles t _) with (set_entry t fd None).
  assert (Hu : used t fd = true).
  { rewrite used_file_at, Ha by (done || lia). apply bool_decide_true. by eexists. }
  assert (Ht1 : tbl_ok (set_entry t fd None) (Some fd)).
  { apply (tbl_ok_entry t None); [done|done|congruence|done|].
    by rewrite Hu, (bool_decide_true (Some fd = Some fd)). }
  destruct (fd_unused_spec _ _ Ht1 Hu) as (t2 & -> & Ht2 & Hsame & _). by exists t2.
Qed.

Lemma fdrelease_spec ext st t fd a :
  inv ext st t -> file_at t fd = Some a ->
  exists st' t' error, fdrelease fo_close st t fd = Some (st', t', error) /\ inv ext st' t' /\
    kept t t' /\ fd_ofileflags t' = fd_ofileflags t /\
    (forall j, file_at t' j = if j =? fd then None else file_at t j) /\ attr_kept st st'.
Proof.
  intros [Ht Hc Hs] Ha. pose proof (file_at_range _ _ _ _ Ht Ha) as Hfd.
  destruct (inv_file ext st t fd a Hc Ht Ha) as (Hp & f & Hf & Hcnt & Hpos).
  unfold fdrelease. rewrite (rd_entry t None), Ha by done. cbn [mbind option_bind].
  destruct (FREF_spec ext st t a Hc) as (st1 & -> & Hc1 & Hk1 & _).
  { pose proof (proj1 Hc a). lia. }
  cbn [mbind option_bind]. destruct (fdremove_spec t fd a Ht Ha) as (t2 & Heq & Ht2 & Hsame).
  unfold fdremove in Heq. apply bind_Some in Heq as (o & -> & Heq).
  cbn [mbind option_bind]. rewrite Heq. cbn [mbind option_bind].
  set (st2 := if fd <? fd_knlistsize t2 then add_log st1 (KnoteClose fd) else st1).
  assert (Hst2 : files st2 = files st1) by (unfold st2; by case_match).
  assert (Hc2 : counted (plus (plus ext a) a) st2 t2).
  { apply (counted_same _ _ (set_entry t fd None)); [apply Hsame|].
    apply counted_clear; [by rewrite (tk_ofiles _ _ Ht)|done|]. unfold st2. by case_match. }
  destruct (closef_counted ext st2 t2 a (Some t2) Hc2 (proj1 Hc)) as (er & st3 & -> & Hc3 & Hk3).
  cbn [mbind option_bind]. eexists _, _, _. split; [done|].
  assert (Hkept : kept t t2) by (by apply same_entries_kept in Hsame).
  split; [split; [done|done|destruct Hkept as (_ & -> & _); done]|]. split; [done|].
  split; [apply Hsame|]. split.
  - intros j. rewrite (same_entries_file_at _ _ _ Hsame). by apply (file_at_set t None).
  - eapply attr_kept_trans; [|exact Hk3]. apply (attr_kept_files st1 st2 st); [apply Hst2|done].
Qed.

(** ** Duplicating a descriptor *)

(** The file that [new] referred to, if any, is held for the time of the call. *)
Lemma finishdup_hold ext st t r fp new dup2 :
  tbl_ok t r -> counted (plus ext fp) st t -> (forall b, 0 <= ext b) ->
  (dup2 = false /\ r = Some new /\ file_at t new = None) \/ (dup2 = true /\ r = None) ->
  exists st1, match file_at t new with Some o => FREF st o | None => Some st end = Some st1 /\
    counted (match file_at t new with Some o => plus (plus ext fp) o | None => plus ext fp end) st1 t /\
    attr_kept st st1.
Proof.
  intros Ht Hc Hp Hcase. destruct (file_at t new) as [o|] eqn:Ho.
  - destruct (FREF_spec (plus ext fp) st t o Hc) as (st1 & -> & ? & ? & _); [|by exists st1].
    destruct Hcase as [(_ & _ & ?)|(_ & ->)]; [congruence|].
    destruct (inv_file _ _ _ _ _ Hc Ht Ho) as (? & _). pose proof (plus_nonneg ext fp Hp o). lia.
  - exists st. split; [done|]. split; [done|]. apply attr_kept_refl.
Qed.

(** The entry and the flags of [new] are written, and its bit if dup2 needs it. *)
Lemma finishdup_mark t r fp new dup2 fls :
  tbl_ok t r -> 0 <= new < fd_nfiles t -> length fls = length (fd_ofileflags t) ->
  (dup2 = false /\ r = Some new /\ file_at t new = None) \/ (dup2 = true /\ r = None) ->
  let t1 := set_ofileflags (set_entry t new (Some fp)) fls in
  exists t2, (if dup2 && (match file_at t new with None => true | _ => false end)
    then fd_used t1 new else Some t1) = Some t2 /\ tbl_ok t2 None /\ same_entries t1 t2.
Proof.
  intros Ht Hnew Hlen Hcase t1.
  assert (Hfls : forall r', tbl_ok (set_entry t new (Some fp)) r' -> tbl_ok t1 r').
  { intros r' Hx. pose proof (tbl_ok_hint _ r' fls (fd_freefile t) Hx) as Hy.
    destruct Hx as [X1 X2 X3 X4 X5 X6 X7 X8 X9]. apply Hy; [done|apply X7|apply X7]. }
  destruct Hcase as [(-> & -> & Hn)|(-> & ->)].
  - rewrite andb_false_l. exists t1. split; [done|]. split; [|done]. apply Hfls.
    apply (tbl_ok_entry t (Some new)); [done|done|done|congruence|].
    rewrite (tk_used _ _ Ht), is_open_file_at, Hn, (bool_decide_true (Some new = Some new)) by (done || lia).
    done.
  - rewrite andb_true_l. pose proof (used_file_at t new Ht ltac:(lia)) as Hu.
    destruct (file_at t new) as [o|] eqn:Ho.
    + exists t1. split; [done|]. split; [|done]. apply Hfls.
      apply (tbl_ok_entry t None); [done|done|done|done|]. by rewrite Hu.
    + assert (tbl_ok t1 (Some new)) as Ht1.
      { apply Hfls, (tbl_ok_entry t None); [done|done|congruence|done|].
        rewrite Hu, (bool_decide_true (Some new = Some new)) by done. done. }
      destruct (fd_used_spec t1 (Some new) None new Ht1) as (t2 & -> & ? & ? & _);
        [done|exact Hu|by right|]. by exists t2.
Qed.

(** The file that [new] referred to is closed. *)
Lemma finishdup_close ext st t old new :
  counted (match old with Some o => plus (plus ext o) o | None => ext end) st t ->
  (forall b, 0 <= ext b) ->
  exists st', match old with
    | Some o =>
        let st4 := if new <? fd_knlistsize t then add_log st (KnoteClose new) else st in
        '(_, st5) ← closef fo_close st4 (Some o) (Some t); Some (st5, t, inl new)
    | None => Some (st, t, inl new)
    end = Some (st', t, inl new : Z + Z) /\ counted ext st' t /\ attr_kept st st'.
Proof.
  intros Hc Hp. destruct old as [o|].
  - cbn zeta. set (st4 := if new <? fd_knlistsize t then add_log st (KnoteClose new) else st).
    assert (counted (plus (plus ext o) o) st4 t) as Hc4 by (unfold st4; by case_match).
    assert (files st4 = files st) as E by (unfold st4; by case_match).
    destruct (closef_counted ext st4 t o (Some t) Hc4 Hp) as (er & st5 & -> & Hc5 & Hk5).
    exists st5. split; [done|]. split; [done|]. intros a g Hg.
    destruct (Hk5 a g Hg) as (g0 & Hg0 & ?). rewrite E in Hg0. by exists g0.
  - exists st. split; [done|]. split; [done|]. apply attr_kept_refl.
Qed.

(** Descriptor [new] comes to refer to the file [fp] that the caller holds: a
    reserved descriptor for dup, any one for dup2. *)
Lemma finishdup_spec ext st t r fp old new dup2 :
  tbl_ok t r -> counted (plus ext fp) st t -> (forall b, 0 <= ext b) ->
  file_at t old = Some fp -> 0 <= new < fd_nfiles t ->
  (dup2 = false /\ r = Some new /\ file_at t new = None) \/ (dup2 = true /\ r = None) ->
  (forall f, files st !! fp = Some f -> f_count f <> LONG_MAX - 2) ->
  exists st' t', finishdup fo_close st t fp old new dup2 = Some (st', t', inl new) /\
    tbl_ok t' None /\ counted ext st' t' /\ kept t t' /\ attr_kept st st' /\
    (forall j, file_at t' j = if j =? new then Some fp else file_at t j) /\
    (exists fl, rd (fd_ofileflags t) old = Some fl /\
       fd_ofileflags t' = <[Z.to_nat new := clear fl UF_EXCLOSE]> (fd_ofileflags t)).
Proof.
  intros Ht Hc Hp Hold Hnew Hcase Hlim.
  pose proof (file_at_range _ _ _ _ Ht Hold) as Holdr.
  destruct (counted_file _ _ _ fp Hc) as [f Hf].
  { rewrite plus_eq. pose proof (table_refs_nonneg t fp). specialize (Hp fp). lia. }
  unfold finishdup. rewrite Hf. cbn [mbind option_bind].
  rewrite (proj2 (Z.eqb_neq _ _)) by (by apply Hlim).
  rewrite (rd_entry t r) by done. cbn [mbind option_bind].
  destruct (finishdup_hold ext st t r fp new dup2 Ht Hc Hp Hcase) as (st1 & -> & Hc1 & Hk1).
  set (ext1 := match file_at t new with Some o => plus (plus ext fp) o | None => plus ext fp end) in *.
  cbn [mbind option_bind]. rewrite (wr_entry t r) by done. cbn [mbind option_bind].
  destruct (rd_flags t r old Ht Holdr) as [fl Hfl]. rewrite Hfl. cbn [mbind option_bind].
  rewrite wr_Some by (rewrite (tk_flags _ _ Ht); lia). cbn [mbind option_bind].
  set (fls := <[Z.to_nat new := clear fl UF_EXCLOSE]> (fd_ofileflags t)).
  change (set_ofiles t _) with (set_entry t new (Some fp)).
  set (t1 := set_ofileflags (set_entry t new (Some fp)) fls).
  set (ext2 := match file_at t new with Some o => plus (plus ext o) o | None => ext end).
  assert (Hp2 : forall b, 0 <= ext2 b).
  { unfold ext2. destruct (file_at t new); [by do 2 apply plus_nonneg|done]. }
  assert (Hc2 : counted ext2 st1 t1).
  { apply (counted_same _ _ (set_entry t new (Some fp))); [done|].
    apply (counted_set ext1 _ _ t r); [done|done|done| |done]. intros b. unfold ext1, ext2.
    destruct (file_at t new) as [o|]; rewrite !plus_b2z;
      rewrite ?(bool_decide_false (None = Some b)) by done; cbn; lia. }
  destruct (FREF_spec ext2 st1 t1 fp Hc2) as (st2 & Heq2 & Hc3 & Hk2 & _).
  { assert (file_at t1 new = Some fp) as Hat.
    { change (file_at t1 new) with (file_at (set_entry t new (Some fp)) new).
      rewrite (file_at_set t r), Z.eqb_refl by done. done. }
    pose proof (Hp2 fp). unfold refs. change (length (fd_ofiles t1)) with (length (fd_ofiles (set_entry t new (Some fp)))).
    pose proof (refs_set t r new (Some fp) fp Ht Hnew) as Hrs.
    rewrite (bool_decide_true (Some fp = Some fp)) in Hrs by done. cbn [Z.b2z] in Hrs.
    change (countb (refers t1 fp) _) with (refs (set_entry t new (Some fp)) fp). rewrite Hrs.
    pose proof (refs_pos t r old fp Ht Hold).
    destruct (bool_decide (file_at t new = Some fp)); cbn; lia. }
  unfold FREF in Heq2. rewrite Heq2. cbn [mbind option_bind].
  destruct (FRELE_counted ext2 st2 t1 fp Hc3 Hp2) as (er & st3 & -> & Hc4 & Hk3).
  cbn [mbind option_bind].
  assert (Hfa : forall j, file_at t1 j = if j =? new then Some fp else file_at t j).
  { intros j. change (file_at t1 j) with (file_at (set_entry t new (Some fp)) j).
    by apply (file_at_set t r). }
  destruct (finishdup_mark t r fp new dup2 fls Ht Hnew (length_insert _ _ _) Hcase)
    as (t2 & Heq & Ht2 & Hs2). fold t1 in Heq, Hs2. rewrite Heq. clear Heq.
  cbn [mbind option_bind].
  assert (Hc5 : counted ext2 st3 t2) by (apply (counted_same _ _ t1); [apply Hs2|done]).
  assert (Hkept : kept t t2).
  { apply same_entries_kept in Hs2 as (K1 & K2 & K3 & K4 & K5).
    split_and!; [rewrite K1|rewrite K2|rewrite K3|rewrite K4|rewrite K5]; done. }
  assert (Hfa2 : forall j, file_at t2 j = if j =? new then Some fp else file_at t j).
  { intros j. by rewrite (same_entries_file_at t1 t2 j Hs2). }
  assert (Hfl2 : fd_ofileflags t2 = fls) by apply Hs2.
  assert (Hk13 : attr_kept st st3) by (eapply attr_kept_trans; [|exact Hk3];
    eapply attr_kept_trans; [exact Hk1|exact Hk2]).
  destruct (finishdup_close ext st3 t2 (file_at t new) new Hc5 Hp) as (st' & Heq & Hc7 & Hk7).
  exists st', t2. split; [exact Heq|]. split; [done|]. split; [done|]. split; [done|].
  split; [by eapply attr_kept_trans|]. split; [done|by exists fl].
Qed.

End ops.

End DescripProofs.
