(* ===== verification/DescripCalls.v ===== *)
(** * The system calls on descriptors

    Each call of [Descrip] on a table that satisfies the invariant of
    [DescripProofs]. *)

From S2P Require Import Prelude Libkern Descrip DescripMaps DescripTable DescripProofs.
Import Libkern Descrip DescripMaps DescripTable DescripProofs.
#[local] Open Scope Z_scope.

Module DescripCalls.

(** ** Growing a table keeps its descriptors *)

Lemma fdexpand_file_at t j : tbl_ok t None -> file_at (fdexpand t) j = file_at t j.
Proof.
  intros Ht. destruct (fdexpand_spec t Ht) as (_ & Hrd & _). unfold file_at. rewrite Hrd.
  destruct (j <? fd_nfiles t) eqn:E; zify_bool; [done|].
  rewrite (proj2 (rd_None (fd_ofiles t) j)) by (rewrite (tk_ofiles _ _ Ht); lia).
  by destruct (j <? _).
Qed.

Lemma refs_wide t n a :
  (length (fd_ofiles t) <= n)%nat -> countb (refers t a) n = refs t a.
Proof.
  intros Hn. unfold refs. apply countb_extend; [done|]. intros j Hj.
  unfold refers, file_at. rewrite (proj2 (rd_None (fd_ofiles t) j)) by lia. done.
Qed.

Lemma refs_file_at t t' a : (forall j, file_at t' j = file_at t j) -> refs t' a = refs t a.
Proof.
  intros H. rewrite <- (refs_wide t' (length (fd_ofiles t') + length (fd_ofiles t))) by lia.
  rewrite <- (refs_wide t (length (fd_ofiles t') + length (fd_ofiles t))) by lia.
  apply countb_ext. intros j _. unfold refers. by rewrite H.
Qed.

Lemma counted_file_at ext st t t' :
  (forall j, file_at t' j = file_at t j) -> counted ext st t -> counted ext st t'.
Proof.
  intros H (H0 & H1 & H2 & H3). split; [done|].
  split; [|split; [|done]]; intros a; rewrite (refs_file_at t t') by done; auto.
Qed.

Lemma fdexpand_more t : tbl_ok t None -> 2 * fd_nfiles t <= fd_nfiles (fdexpand t).
Proof.
  intros Ht. destruct (fdexpand_spec t Ht) as (_ & _ & _ & _ & Hn & _). rewrite Hn.
  unfold NDEXTENT. destruct (tk_size _ _ Ht) as [->|(k & Hk & Hsz)]; [by vm_compute|].
  destruct (fd_nfiles t <? 50) eqn:E; zify_bool; [|lia].
  unfold NDEXTENT in Hsz. pose proof (Z.pow_pos_nonneg 2 k). lia.
Qed.

(** What no call changes. *)
Definition same_table (t t' : filedesc) : Prop :=
  fd_self t' = fd_self t /\ fd_refcnt t' = fd_refcnt t /\ fd_knlistsize t' = fd_knlistsize t /\
  fd_flags t' = fd_flags t.

Lemma same_table_trans t1 t2 t3 : same_table t1 t2 -> same_table t2 t3 -> same_table t1 t3.
Proof. unfold same_table. intros (? & ? & ? & ?) (? & ? & ? & ?). split_and!; congruence. Qed.

Lemma kept_same_table t t' : kept t t' -> same_table t t'.
Proof. unfold kept, same_table. tauto. Qed.

Lemma fdexpand_same t : tbl_ok t None -> same_table t (fdexpand t).
Proof.
  intros Ht. destruct (fdexpand_spec t Ht) as (_ & _ & _ & _ & _ & H). unfold same_table. tauto.
Qed.

(** The flags of a descriptor. *)
Definition flag_at (t : filedesc) (fd : Z) : Z := default 0 (rd (fd_ofileflags t) fd).

Lemma flag_at_insert t t' d v j :
  fd_ofileflags t' = <[Z.to_nat d := v]> (fd_ofileflags t) ->
  0 <= d < Z.of_nat (length (fd_ofileflags t)) ->
  flag_at t' j = if j =? d then v else flag_at t j.
Proof.
  intros H Hd. unfold flag_at. rewrite H. destruct (j =? d) eqn:E; zify_bool.
  - subst j. by rewrite rd_insert_eq.
  - by rewrite rd_insert_ne by lia.
Qed.

Lemma fdexpand_flag_at t fd : tbl_ok t None -> flag_at (fdexpand t) fd = flag_at t fd.
Proof.
  intros Ht. destruct (fdexpand_spec t Ht) as (_ & _ & _ & _ & Hn & _).
  pose proof (fdexpand_more t Ht). pose proof (table_size_pos _ (tk_size _ _ Ht)).
  assert (fd_ofileflags (fdexpand t) = extend (fd_ofileflags t) (fd_nfiles (fdexpand t)) 0) as Hfl.
  { rewrite Hn. unfold fdexpand. by destruct (NDHISLOTS (fd_nfiles t) <? _). }
  unfold flag_at. rewrite Hfl, rd_extend by (rewrite (tk_flags _ _ Ht); lia).
  destruct (fd <? Z.of_nat _) eqn:E; zify_bool; [done|].
  rewrite (proj2 (rd_None (fd_ofileflags t) fd)) by lia. by destruct (fd <? _).
Qed.

(** ** Looking a descriptor up *)

(** The file at a descriptor, if it may be used. *)
Definition usable_at (st : store) (t : filedesc) (fd : Z) : option Z :=
  a ← file_at t fd; f ← files st !! a; if FILE_IS_USABLE f then Some a else None.

(** An [int]. *)
Definition is_int (x : Z) : Prop := - 2 ^ 31 <= x < 2 ^ 31.

Lemma u32_int x : is_int x -> u32 x = if x <? 0 then x + 2 ^ 32 else x.
Proof.
  intros Hx. unfold wrapu. destruct (x <? 0) eqn:E; zify_bool; unfold is_int in Hx.
  - rewrite <- (Z.mod_small (x + 2 ^ 32) (2 ^ 32)) by lia.
    rewrite <- (Z_mod_plus_full x 1 (2 ^ 32)). f_equal. 
  - apply Z.mod_small. lia.
Qed.

Lemma fd_getfile_spec ext st t fd :
  inv ext st t -> is_int fd -> fd_getfile st t fd = Some (usable_at st t fd).
Proof.
  intros [Ht Hc Hs] Hfd. unfold fd_getfile, usable_at. rewrite u32_int by done.
  unfold is_int in Hfd. destruct (fd <? 0) eqn:E; zify_bool.
  { rewrite (proj2 (Z.leb_le _ _)) by lia. unfold file_at.
    by rewrite (proj2 (rd_None (fd_ofiles t) fd)) by lia. }
  destruct (fd_nfiles t <=? fd) eqn:E2; zify_bool.
  { unfold file_at. by rewrite (proj2 (rd_None (fd_ofiles t) fd)) by (rewrite (tk_ofiles _ _ Ht); lia). }
  rewrite (rd_entry t None) by (done || lia). cbn [mbind option_bind].
  destruct (file_at t fd) as [a|] eqn:Ha; [|done].
  destruct (inv_file ext st t fd a Hc Ht Ha) as (_ & f & Hf & _). cbn. by rewrite !Hf.
Qed.

Lemma usable_at_file_at st t fd a : usable_at st t fd = Some a -> file_at t fd = Some a.
Proof.
  unfold usable_at. intros (b & Hb & H)%bind_Some. apply bind_Some in H as (f & _ & H).
  destruct (FILE_IS_USABLE f); [|done]. congruence.
Qed.

(** [usable_at] does not depend on counts. *)
Lemma usable_at_kept st st' t t' fd a f' :
  attr_kept st st' -> file_at t' fd = file_at t fd -> usable_at st t fd = Some a ->
  files st' !! a = Some f' -> usable_at st' t' fd = Some a.
Proof.
  intros Hk Hfa Hu Hf'. unfold usable_at in *. rewrite Hfa.
  apply bind_Some in Hu as (b & -> & H). apply bind_Some in H as (f & Hf & H).
  destruct (FILE_IS_USABLE f) eqn:E; [|done]. injection H as ->.
  cbn. rewrite Hf'. cbn. destruct (Hk a f' Hf') as (g & Hg & Heq). rewrite Hf in Hg. injection Hg as <-.
  unfold FILE_IS_USABLE in *. assert (f_iflags f' = f_iflags f) as -> by (by injection Heq).
  by rewrite E.
Qed.

Section calls.
Context (fo_close : Z -> Z) (rlim_cur maxfiles : Z).

(** The limits are in order, and do not let a table reach 25600 entries. *)
Definition limits_ok : Prop := 0 <= rlim_cur <= maxfiles /\ maxfiles <= 12800.

Context (Hlim : limits_ok).

Lemma lim_eq : lim rlim_cur maxfiles = rlim_cur.
Proof.
  destruct Hlim. unfold lim. rewrite wrapu_small; [lia|]. split; lia.
Qed.

(** References from outside stay far below [LONG_MAX]. *)
Definition few (ext : Z -> Z) : Prop := forall a, ext a <= 2 ^ 62.

(** No call sees the count at which [finishdup] gives up. *)
Lemma count_small ext st t a f :
  counted ext st t -> few ext -> Z.of_nat (length (fd_ofiles t)) < 25600 ->
  files st !! a = Some f -> f_count f < LONG_MAX - 10.
Proof.
  intros (_ & H1 & _) Hfew Hlen Hf. destruct (H1 a f Hf) as [-> _]. specialize (Hfew a).
  pose proof (countb_le (refers t a) (length (fd_ofiles t))). unfold refs, LONG_MAX. lia.
Qed.

Lemma few_plus ext a : (forall b, ext b <= 2 ^ 61) -> few (plus ext a).
Proof. intros H b. unfold plus. specialize (H b). destruct (b =? a); cbn; lia. Qed.

(** [d] is the lowest descriptor from [want] on that is not open. *)
Definition lowest (t : filedesc) (want d : Z) : Prop :=
  want <= d /\ file_at t d = None /\ forall j, want <= j < d -> file_at t j <> None.

Lemma lowest_least_free t want d :
  tbl_ok t None -> 0 <= want -> least_free t want d -> lowest t want d.
Proof.
  intros Ht Hw (H1 & H2 & H3). split; [done|]. split.
  - rewrite used_file_at in H2 by (done || lia). apply bool_decide_eq_false in H2.
    destruct (file_at t d); [|done]. exfalso. apply H2. by eexists.
  - intros j Hj. specialize (H3 j Hj). rewrite used_file_at in H3 by (done || lia).
    apply bool_decide_eq_true in H3 as [? ->]. done.
Qed.

(** What dup and fcntl(F_DUPFD) do for the file [fp] of descriptor [old]. *)
Definition dup_post (st : store) (t : filedesc) (old fp want : Z) (cloexec : bool)
    (st' : store) (t' : filedesc) (r : Z + Z) : Prop :=
  (exists d, r = inl d /\ lowest t want d /\ d < rlim_cur /\
     (forall j, file_at t' j = if j =? d then Some fp else file_at t j) /\
     (forall j, flag_at t' j = if j =? d then
        (if cloexec then clear (flag_at t old) UF_EXCLOSE .| UF_EXCLOSE
         else clear (flag_at t old) UF_EXCLOSE) else flag_at t j)) \/
  (r = inr EMFILE /\ (forall j, want <= j < rlim_cur -> file_at t j <> None) /\
   (forall j, file_at t' j = file_at t j)).

(** A call returns a table and files that satisfy the invariant. *)
Definition call_ok (ext : Z -> Z) (st : store) (t : filedesc) (st' : store) (t' : filedesc) : Prop :=
  inv ext st' t' /\ same_table t t' /\ attr_kept st st'.

Lemma reserved_file_at t d t' j : reserved t d t' -> file_at t' j = file_at t j.
Proof. intros H. unfold file_at. by rewrite (rs_ofiles _ _ _ H). Qed.

Lemma expand_inv ext st t :
  inv ext st t -> fd_nfiles t < rlim_cur -> inv ext st (fdexpand t).
Proof.
  intros [Ht Hc Hs] Hlt. pose proof (fdexpand_spec t Ht) as (Ht' & _ & _ & _ & Hn & _).
  split; [done| |].
  - apply (counted_file_at _ _ t); [|done]. intros j. by apply fdexpand_file_at.
  - rewrite Hn. destruct Hlim. unfold NDEXTENT. destruct (fd_nfiles t <? 50); lia.
Qed.

(** A round of dup: the descriptor is found, or the table is full, or it must
    grow. *)
Lemma dup_round (rest : store -> filedesc -> option (store * filedesc * (Z + Z)))
    ext st t old want fp :
  inv ext st t -> (forall a, ext a <= 2 ^ 61) -> is_int old -> 0 <= want ->
  usable_at st t old = Some fp ->
  let round :=
    g ← fd_getfile st t old;
    match g with
    | None => Some (st, t, inr EBADF)
    | Some fp =>
        st1 ← FREF st fp;
        '(t1, r) ← fdalloc rlim_cur maxfiles t want;
        match r with
        | inr error =>
            '(_, st2) ← FRELE fo_close st1 fp;
            if error =? ENOSPC then rest st2 (fdexpand t1) else Some (st2, t1, inr error)
        | inl new => finishdup fo_close st1 t1 fp old new false
        end
    end in
  (exists st' t' r, round = Some (st', t', r) /\ call_ok ext st t st' t' /\
     dup_post st t old fp want false st' t' r) \/
  (exists st2, round = rest st2 (fdexpand t) /\ fd_nfiles t < rlim_cur /\ inv ext st2 t /\
     attr_kept st st2).
Proof.
  intros Hinv Hext Hold Hw Hfp. pose proof Hinv as [Ht Hc Hs]. cbn zeta.
  rewrite (fd_getfile_spec ext) by done. rewrite Hfp. cbn [mbind option_bind].
  pose proof (usable_at_file_at _ _ _ _ Hfp) as Hat.
  destruct (inv_file ext st t old fp Hc Ht Hat) as (Hrp & f & Hf & Hfc & _).
  destruct (FREF_spec ext st t fp Hc) as (st1 & -> & Hc1 & Hk1 & f1 & Hf1 & Hf1');
    [pose proof (proj1 Hc fp); lia|].
  rewrite Hf in Hf1. injection Hf1 as <-. cbn [mbind option_bind].
  pose proof (fdalloc_spec rlim_cur maxfiles t want Ht Hs Hw) as Ha. rewrite lim_eq in Ha.
  destruct Ha as [(d & t1 & -> & Hd & Hlt & Hres)|[Hall ->]]; [destruct Hlim; lia| |];
    cbn [mbind option_bind]; unfold alloc_last in *; rewrite lim_eq in *.
  - left. destruct (finishdup_spec fo_close ext st1 t1 (Some d) fp old d false)
      as (st' & t' & -> & Ht' & Hc' & Hkept & Hk' & Hfa' & fl & Hfl & Hfl').
    + apply Hres.
    + apply (counted_same _ _ t); [apply Hres|done].
    + apply Hc.
    + by rewrite (reserved_file_at t d t1).
    + rewrite (rs_nfiles _ _ _ Hres). destruct Hd; lia.
    + left. split; [done|]. split; [done|]. rewrite (reserved_file_at t d t1) by done.
      by apply (lowest_least_free t want d).
    + intros g Hg. rewrite Hf1' in Hg. injection Hg as <-. cbn.
      assert (f_count f < LONG_MAX - 10); [|unfold LONG_MAX in *; lia].
      eapply count_small; [exact Hc| |rewrite (tk_ofiles _ _ Ht); lia|exact Hf].
      intros b. specialize (Hext b). lia.
    + eexists _, _, _. split; [done|]. split.
      * split; [split; [done|done|]|].
        -- destruct Hkept as (_ & -> & _). by rewrite (rs_nfiles _ _ _ Hres).
        -- split; [|by eapply attr_kept_trans].
           apply kept_same_table in Hkept. eapply same_table_trans; [|exact Hkept].
           destruct Hres. done.
      * left. exists d. split; [done|]. split; [by apply lowest_least_free|]. split; [lia|]. split.
        -- intros j. by rewrite Hfa', (reserved_file_at t d t1).
        -- assert (Hdr : 0 <= d < fd_nfiles t) by (destruct Hd; lia).
           assert (Hf1d : forall j, flag_at t1 j = if j =? d then 0 else flag_at t j).
           { intros j. apply flag_at_insert; [apply Hres|]. rewrite (tk_flags _ _ Ht). lia. }
           assert (old <> d).
           { intros ->. destruct (lowest_least_free t want d Ht Hw Hd) as (_ & ? & _). congruence. }
           assert (flag_at t old = fl) as ->.
           { pose proof (Hf1d old) as Hx. rewrite (proj2 (Z.eqb_neq _ _)) in Hx by done.
             rewrite <- Hx. unfold flag_at. by rewrite Hfl. }
           intros j. rewrite (flag_at_insert t1 t' d (clear fl UF_EXCLOSE)) by (done ||
             rewrite (tk_flags _ _ (rs_ok _ _ _ Hres)), (rs_nfiles _ _ _ Hres); lia).
           destruct (j =? d) eqn:E; [done|]. by rewrite Hf1d, E.
  - destruct (FRELE_counted fo_close ext st1 t fp Hc1 (proj1 Hc)) as (er & st2 & -> & Hc2 & Hk2).
    cbn [mbind option_bind].
    assert (Hinv2 : inv ext st2 t) by (by split).
    assert (Hk : attr_kept st st2) by (by eapply attr_kept_trans).
    destruct (rlim_cur <=? fd_nfiles t) eqn:E; zify_bool.
    + left. change (EMFILE =? ENOSPC) with false. cbn iota. eexists _, _, _. split; [done|].
      split; [done|]. right. split; [done|]. split; [|done].
      intros j Hj. specialize (Hall j ltac:(lia)). rewrite used_file_at in Hall by (done || lia).
      apply bool_decide_eq_true in Hall as [? ->]. done.
    + right. change (ENOSPC =? ENOSPC) with true. cbn iota. exists st2. done.
Qed.

Lemma dup_loop_spec fuel ext st t old want fp :
  inv ext st t -> (forall a, ext a <= 2 ^ 61) -> is_int old -> 0 <= want ->
  usable_at st t old = Some fp -> rlim_cur <= fd_nfiles t * 2 ^ Z.of_nat fuel ->
  exists st' t' r, dup_loop fo_close rlim_cur maxfiles (S fuel) st t old want = Some (st', t', r) /\
    call_ok ext st t st' t' /\ dup_post st t old fp want false st' t' r.
Proof.
  revert st t. induction fuel as [|fuel IH]; intros st t Hinv Hext Hold Hw Hfp Hf;
    cbn [dup_loop].
  - destruct (dup_round (fun _ _ => None) ext st t old want fp Hinv Hext Hold Hw Hfp)
      as [H|(st2 & _ & Hlt & _)]; [exact H|]. rewrite Z.pow_0_r in Hf. lia.
  - destruct (dup_round (fun st2 t2 => dup_loop fo_close rlim_cur maxfiles (S fuel) st2 t2 old want)
      ext st t old want fp Hinv Hext Hold Hw Hfp) as [H|(st2 & Heq & Hlt & Hinv2 & Hk)]; [exact H|].
    cbn [dup_loop] in Heq. cbn zeta in Heq. rewrite Heq. clear Heq.
    pose proof (inv_table _ _ _ Hinv) as Ht.
    destruct (fdexpand_spec t Ht) as (Ht' & _ & _ & _ & Hn & _).
    pose proof (fdexpand_more t Ht) as Hmore.
    pose proof (usable_at_file_at _ _ _ _ Hfp) as Hat.
    destruct (inv_file ext st2 t old fp (inv_counted _ _ _ Hinv2) Ht Hat) as (_ & f2 & Hf2 & _).
    destruct (IH st2 (fdexpand t)) as (st' & t' & r & Heq & (Hi & Hst & Hk') & Hp); try done.
    + by apply expand_inv.
    + eapply usable_at_kept; [exact Hk| |exact Hfp|exact Hf2]. by apply fdexpand_file_at.
    + rewrite Nat2Z.inj_succ, Z.pow_succ_r in Hf by lia.
      pose proof (Z.pow_pos_nonneg 2 (Z.of_nat fuel)). nia.
    + exists st', t', r. split; [exact Heq|]. split.
      * split; [done|]. split; [|by eapply attr_kept_trans].
        eapply same_table_trans; [by apply fdexpand_same|done].
      * destruct Hp as [(d & -> & (D1 & D2 & D3) & Hd & Hfa & Hfl)|(-> & Hall & Hfa)].
        -- left. exists d. split; [done|]. rewrite fdexpand_file_at in D2 by done. split.
           { split; [done|]. split; [done|]. intros j Hj. rewrite <- (fdexpand_file_at t) by done.
             by apply D3. }
           split; [done|]. split; [intros j; by rewrite Hfa, fdexpand_file_at|].
           intros j. by rewrite Hfl, !fdexpand_flag_at.
        -- right. split; [done|]. split.
           ++ intros j Hj. rewrite <- (fdexpand_file_at t) by done. by apply Hall.
           ++ intros j. by rewrite Hfa, fdexpand_file_at.
Qed.

(** ** Flags *)

Lemma inv_flags ext st t fl :
  inv ext st t -> length fl = length (fd_ofileflags t) -> inv ext st (set_ofileflags t fl).
Proof.
  intros [Ht Hc Hs] Hlen. split; [|by apply (counted_same _ _ t)|done].
  destruct Ht as [T1 T2 T3 T4 T5 T6 T7 T8 T9]. split; try done. cbn. by rewrite Hlen.
Qed.

Lemma set_exclose_spec ext st t fd :
  inv ext st t -> 0 <= fd < fd_nfiles t ->
  exists t', set_exclose t fd = Some t' /\ inv ext st t' /\ same_table t t' /\
    fd_nfiles t' = fd_nfiles t /\ (forall j, file_at t' j = file_at t j) /\
    forall j, flag_at t' j = if j =? fd then flag_at t fd .| UF_EXCLOSE else flag_at t j.
Proof.
  intros Hinv Hfd. pose proof (inv_table _ _ _ Hinv) as Ht.
  destruct (rd_flags t None fd Ht Hfd) as [fl Hfl].
  unfold set_exclose. rewrite Hfl. cbn [mbind option_bind].
  rewrite wr_Some by (rewrite (tk_flags _ _ Ht); lia). cbn [mbind option_bind]. eexists.
  split; [done|]. split; [apply inv_flags; [done|by rewrite length_insert]|].
  split; [done|]. split; [done|]. split; [done|]. intros j.
  rewrite (flag_at_insert t _ fd (fl .| UF_EXCLOSE)) by (done || rewrite (tk_flags _ _ Ht); lia).
  unfold flag_at at 2. by rewrite Hfl.
Qed.

(** ** dup2 and dup3 *)

Definition dup2_post (t : filedesc) (old fp new flags : Z) (t' : filedesc) : Prop :=
  (forall j, file_at t' j = if j =? new then Some fp else file_at t j) /\
  (forall j, flag_at t' j = if j =? new then
     (if has flags O_CLOEXEC then clear (flag_at t old) UF_EXCLOSE .| UF_EXCLOSE
      else clear (flag_at t old) UF_EXCLOSE) else flag_at t j).

(** The end of dup2, when [new] lies within the table. *)
Lemma dodup3_finish ext st st1 t old new flags fp :
  inv ext st t -> (forall a, ext a <= 2 ^ 61) -> file_at t old = Some fp ->
  FREF st fp = Some st1 -> 0 <= new < fd_nfiles t ->
  exists st' t',
    ('(st2, t2, r) ← finishdup fo_close st1 t fp old new true;
     match r with
     | inl i => t3 ← (if has flags O_CLOEXEC then set_exclose t2 new else Some t2);
                Some (st2, t3, inl i)
     | inr error => Some (st2, t2, inr error)
     end) = Some (st', t', inl new) /\
    call_ok ext st t st' t' /\ dup2_post t old fp new flags t'.
Proof.
  intros [Ht Hc Hs] Hext Hat Href Hnew.
  destruct (inv_file ext st t old fp Hc Ht Hat) as (Hrp & f & Hf & Hfc & _).
  destruct (FREF_spec ext st t fp Hc) as (st1' & Heq & Hc1 & Hk1 & f1 & Hf1 & Hf1');
    [pose proof (proj1 Hc fp); lia|]. rewrite Href in Heq. injection Heq as <-.
  rewrite Hf in Hf1. injection Hf1 as <-.
  destruct (finishdup_spec fo_close ext st1 t None fp old new true)
    as (st' & t' & -> & Ht' & Hc' & Hkept & Hk' & Hfa' & fl & Hfl & Hfl');
    [done|done|apply Hc|done|done|by right| |].
  { intros g Hg. rewrite Hf1' in Hg. injection Hg as <-. cbn.
    assert (f_count f < LONG_MAX - 10); [|unfold LONG_MAX in *; lia].
    eapply count_small; [exact Hc| |rewrite (tk_ofiles _ _ Ht); lia|exact Hf].
    intros b. specialize (Hext b). lia. }
  cbn [mbind option_bind].
  assert (Hn' : fd_nfiles t' = fd_nfiles t) by apply Hkept.
  assert (Hinv' : inv ext st' t') by (split; [done|done|by rewrite Hn']).
  assert (Hflt : flag_at t old = fl) by (unfold flag_at; by rewrite Hfl).
  assert (Hflag : forall j, flag_at t' j = if j =? new then clear fl UF_EXCLOSE else flag_at t j).
  { intros j. apply flag_at_insert; [done|]. rewrite (tk_flags _ _ Ht). lia. }
  assert (Hk : attr_kept st st') by (by eapply attr_kept_trans).
  destruct (has flags O_CLOEXEC) eqn:Eo.
  - destruct (set_exclose_spec ext st' t' new Hinv') as (t3 & -> & Hi3 & Hs3 & Hn3 & Hfa3 & Hfl3);
      [lia|]. cbn [mbind option_bind]. eexists _, _. split; [done|]. split.
    + split; [done|]. split; [|done]. eapply same_table_trans; [by apply kept_same_table|done].
    + split; [intros j; by rewrite Hfa3|]. intros j. rewrite Hfl3, !Hflag, Eo, Hflt, Z.eqb_refl.
      by destruct (j =? new).
  - cbn [mbind option_bind]. eexists _, _. split; [done|]. split.
    + split; [done|]. split; [by apply kept_same_table|done].
    + split; [done|]. intros j. by rewrite Hflag, Eo, Hflt.
Qed.

Lemma dodup3_loop_spec fuel ext st t old new flags fp :
  inv ext st t -> (forall a, ext a <= 2 ^ 61) -> is_int old -> is_int new ->
  usable_at st t old = Some fp -> 0 <= new < rlim_cur -> old <> new ->
  new < fd_nfiles t * 2 ^ Z.of_nat fuel ->
  exists st' t', dodup3_loop fo_close rlim_cur maxfiles (S fuel) st t old new flags =
      Some (st', t', inl new) /\
    call_ok ext st t st' t' /\ dup2_post t old fp new flags t'.
Proof.
  intros Hinv Hext Hold Hnewi Hfp Hnew Hne. revert st t Hinv Hfp.
  induction fuel as [|fuel IH]; [set (n := 0%nat)|remember (S fuel) as n eqn:En];
    intros st t Hinv Hfp Hf; pose proof Hinv as [Ht Hc Hs];
    pose proof (usable_at_file_at _ _ _ _ Hfp) as Hat; cbn [dodup3_loop];
    rewrite (fd_getfile_spec ext), Hfp by done; cbn [mbind option_bind];
    rewrite u32_int by done; rewrite (proj2 (Z.ltb_ge new 0)) by lia;
    rewrite (proj2 (Z.leb_gt rlim_cur new)), (proj2 (Z.leb_gt maxfiles new))
      by (destruct Hlim; lia); cbn [orb]; rewrite (proj2 (Z.eqb_neq old new)) by done;
    destruct (inv_file ext st t old fp Hc Ht Hat) as (Hrp & f & Hff & _);
    destruct (FREF_spec ext st t fp Hc) as (st1 & Href & Hc1 & Hk1 & _);
    try (pose proof (proj1 Hc fp); lia); rewrite Href; cbn [mbind option_bind];
    (destruct (fd_nfiles t <=? new) eqn:E; zify_bool; [|by eapply dodup3_finish; eauto; lia]).
  { change (2 ^ Z.of_nat n) with 1 in Hf. lia. }
  pose proof (fdalloc_spec rlim_cur maxfiles t new Ht Hs ltac:(lia)) as Ha.
  unfold alloc_post, alloc_last in Ha. rewrite lim_eq in Ha.
  destruct Ha as [(d & t1 & _ & (Hd & _) & Hlt & _)|[_ ->]]; [lia|lia|].
  rewrite (proj2 (Z.leb_gt rlim_cur (fd_nfiles t))) by lia. cbn [mbind option_bind].
  destruct (FRELE_counted fo_close ext st1 t fp Hc1 (proj1 Hc)) as (er & st2 & -> & Hc2 & Hk2).
  cbn [mbind option_bind]. change (ENOSPC =? ENOSPC) with true. cbn iota.
  assert (Hinv2 : inv ext st2 t) by (by split).
  assert (Hk : attr_kept st st2) by (by eapply attr_kept_trans).
  destruct (inv_file ext st2 t old fp Hc2 Ht Hat) as (_ & f2 & Hf2 & _).
  pose proof (fdexpand_more t Ht) as Hmore.
  destruct (IH st2 (fdexpand t)) as (st' & t' & Heq & (Hi & Hst & Hk') & Hfa & Hfl).
  - apply expand_inv; [done|lia].
  - eapply usable_at_kept; [exact Hk| |exact Hfp|exact Hf2]. by apply fdexpand_file_at.
  - rewrite En, Nat2Z.inj_succ, Z.pow_succ_r in Hf by lia.
    pose proof (Z.pow_pos_nonneg 2 (Z.of_nat fuel)). nia.
  - exists st', t'. split; [exact Heq|]. split.
    + split; [done|]. split; [|by eapply attr_kept_trans].
      eapply same_table_trans; [by apply fdexpand_same|done].
    + split; [intros j; by rewrite Hfa, fdexpand_file_at|]. intros j.
      by rewrite Hfl, !fdexpand_flag_at.
Qed.

(** ** New files *)

(** The descriptor of a new file, reserved for it and not yet usable. *)
Definition falloc_post (st : store) (t : filedesc) (fa : Z) (st' : store) (t' : filedesc)
    (r : Z + Z) : Prop :=
  (exists d, r = inl d /\ lowest t 0 d /\ d < rlim_cur /\ nfiles st < maxfiles /\
     (forall j, file_at t' j = if j =? d then Some fa else file_at t j) /\ flag_at t' d = 0 /\
     (forall j, j <> d -> flag_at t' j = flag_at t j) /\
     files st' = <[fa := File 0 0 2 false 0 FIF_LARVAL]> (files st)) \/
  (((r = inr EMFILE /\ forall j, 0 <= j < rlim_cur -> file_at t j <> None) \/
    (r = inr ENFILE /\ maxfiles <= nfiles st)) /\
   st' = st /\ forall j, file_at t' j = file_at t j).

(** A new file of which the table and the caller hold a reference each. *)
Lemma falloc_take ext st t t1 d fa :
  inv ext st t -> files st !! fa = None -> 0 <= d < fd_nfiles t -> reserved t d t1 ->
  file_at t d = None ->
  exists o st1, wr (fd_ofiles t1) d (Some fa) = Some o /\
    FREF (Store (<[fa := File 0 0 1 false 0 FIF_LARVAL]> (files st)) (nfiles st + 1) (log st)) fa
      = Some st1 /\
    files st1 = <[fa := File 0 0 2 false 0 FIF_LARVAL]> (files st) /\
    inv (plus ext fa) st1 (set_ofiles t1 o) /\ same_table t (set_ofiles t1 o) /\
    (forall j, file_at (set_ofiles t1 o) j = if j =? d then Some fa else file_at t j).
Proof.
  intros [Ht Hc Hs] Hfa Hd Hres Hnone. pose proof (rs_ok _ _ _ Hres) as Ht1.
  assert (Hd1 : 0 <= d < fd_nfiles t1) by (by rewrite (rs_nfiles _ _ _ Hres)).
  rewrite (wr_entry t1 (Some d)) by done. unfold FREF, add_count. cbn [files].
  rewrite lookup_insert_eq. cbn [mbind option_bind]. eexists _, _. split; [done|]. split; [done|].
  cbn [files set_files]. rewrite insert_insert_eq. split; [done|].
  change (set_ofiles t1 _) with (set_entry t1 d (Some fa)).
  assert (Hat : forall j, file_at (set_entry t1 d (Some fa)) j = if j =? d then Some fa else file_at t j).
  { intros j. by rewrite (file_at_set t1 (Some d)), (reserved_file_at t d t1). }
  assert (Hnone1 : file_at t1 d = None) by (by rewrite (reserved_file_at t d t1)).
  split; [|split; [by destruct Hres|done]]. split.
  - apply (tbl_ok_entry t1 (Some d)); [done|done|done|congruence|].
    rewrite (tk_used _ _ Ht1), is_open_file_at, Hnone1, (bool_decide_true (Some d = Some d))
      by (done || lia). done.
  - assert (Hrefs : forall a, refs (set_entry t1 d (Some fa)) a = refs t a + Z.b2z (a =? fa)).
    { intros a. rewrite (refs_set t1 (Some d)) by done. rewrite Hnone1.
      rewrite (bool_decide_false (None = Some a)) by done.
      rewrite (refs_file_at t t1) by (intros; by apply (reserved_file_at t d)).
      replace (bool_decide (Some fa = Some a)) with (a =? fa); [cbn; lia|].
      apply eq_true_iff_eq. rewrite Z.eqb_eq, bool_decide_eq_true. split; congruence. }
    destruct Hc as (H0 & H1 & H2 & H3). pose proof (H2 fa Hfa) as Hz.
    pose proof (table_refs_nonneg t fa). pose proof (H0 fa).
    split; [by apply plus_nonneg|]. split; [|split].
    + intros a g Hg. rewrite Hrefs. cbn in Hg. destruct (decide (a = fa)) as [->|Hne].
      * rewrite lookup_insert_eq in Hg. injection Hg as <-. rewrite plus_eq, Z.eqb_refl. cbn. lia.
      * rewrite lookup_insert_ne in Hg by done. rewrite plus_ne by done.
        rewrite (proj2 (Z.eqb_neq a fa)) by done. specialize (H1 a g Hg). cbn. lia.
    + intros a Hg. rewrite Hrefs. cbn in Hg. destruct (decide (a = fa)) as [->|Hne].
      * by rewrite lookup_insert_eq in Hg.
      * rewrite lookup_insert_ne in Hg by done. rewrite plus_ne by done.
        rewrite (proj2 (Z.eqb_neq a fa)) by done. specialize (H2 a Hg). cbn. lia.
    + cbn. rewrite map_size_insert_None by done. lia.
  - cbn. by rewrite (rs_nfiles _ _ _ Hres).
Qed.

(** The end of [falloc], once descriptor [d] is reserved. *)
Lemma falloc_found ext st t t1 d fa :
  inv ext st t -> files st !! fa = None -> least_free t 0 d ->
  d < Z.min (fd_nfiles t) rlim_cur -> reserved t d t1 ->
  exists st' t' r,
    (if maxfiles <=? nfiles st then t2 ← fd_unused t1 d; Some (st, t2, inr ENFILE)
     else
       o ← wr (fd_ofiles t1) d (Some fa);
       st1 ← FREF (Store (<[fa := File 0 0 1 false 0 FIF_LARVAL]> (files st)) (nfiles st + 1)
                     (log st)) fa;
       Some (st1, set_ofiles t1 o, inl d)) = Some (st', t', r) /\
    inv (match r with inl _ => plus ext fa | inr _ => ext end) st' t' /\ same_table t t' /\
    falloc_post st t fa st' t' r.
Proof.
  intros Hinv Hfa Hd Hlt Hres. pose proof Hinv as [Ht Hc Hs].
  assert (Hdr : 0 <= d < fd_nfiles t) by (destruct Hd; lia).
  pose proof (lowest_least_free t 0 d Ht ltac:(lia) Hd) as Hlow.
  destruct (maxfiles <=? nfiles st) eqn:Em; zify_bool.
  - destruct (fd_unused_spec t1 d (rs_ok _ _ _ Hres)) as (t2 & -> & Ht2 & Hse & _).
    { rewrite (rs_used _ _ _ Hres), Z.eqb_refl by lia. apply orb_true_r. }
    cbn [mbind option_bind]. eexists _, _, _. split; [done|].
    assert (Hf2 : forall j, file_at t2 j = file_at t j).
    { intros j. rewrite (same_entries_file_at t1 t2 j Hse). by apply (reserved_file_at t d). }
    assert (Hk2 : same_table t t2).
    { apply (same_table_trans t t1); [by destruct Hres|by apply kept_same_table, same_entries_kept]. }
    assert (Hn2 : fd_nfiles t2 = fd_nfiles t).
    { destruct Hse as (_ & _ & _ & -> & _). apply Hres. }
    split; [split; [done|by apply (counted_file_at _ _ t)|by rewrite Hn2]|].
    split; [done|]. right. split; [by right|done].
  - destruct (falloc_take ext st t t1 d fa Hinv Hfa Hdr Hres (proj1 (proj2 Hlow)))
      as (o & st1 & -> & Hfr & Hfiles & Hi & Hst & Hat). cbn [mbind option_bind]. rewrite Hfr.
    cbn [mbind option_bind]. eexists _, _, _. split; [done|]. split; [done|]. split; [done|].
    left. exists d. split; [done|]. split; [done|]. split; [lia|]. split; [lia|].
    assert (Hfl : forall j, flag_at (set_ofiles t1 o) j = if j =? d then 0 else flag_at t j).
    { intros j. change (flag_at (set_ofiles t1 o) j) with (flag_at t1 j).
      apply flag_at_insert; [apply Hres|rewrite (tk_flags _ _ Ht); lia]. }
    split; [done|]. split; [by rewrite Hfl, Z.eqb_refl|]. split; [|done].
    intros j Hj. by rewrite Hfl, (proj2 (Z.eqb_neq j d)).
Qed.

Lemma falloc_loop_spec fuel ext st t fa :
  inv ext st t -> files st !! fa = None -> rlim_cur <= fd_nfiles t * 2 ^ Z.of_nat fuel ->
  exists st' t' r, falloc_loop rlim_cur maxfiles (S fuel) st t fa = Some (st', t', r) /\
    inv (match r with inl _ => plus ext fa | inr _ => ext end) st' t' /\ same_table t t' /\
    falloc_post st t fa st' t' r.
Proof.
  revert t. induction fuel as [|fuel IH]; [set (n := 0%nat)|remember (S fuel) as n eqn:En];
    intros t Hinv Hfa Hf; pose proof Hinv as [Ht Hc Hs];
    cbn [falloc_loop]; pose proof (fdalloc_spec rlim_cur maxfiles t 0 Ht Hs ltac:(lia)) as Ha;
    unfold alloc_post, alloc_last in Ha; rewrite lim_eq in Ha;
    (destruct Ha as [(d & t1 & -> & Hd & Hlt & Hres)|[Hall ->]];
     [destruct Hlim; lia|by eapply falloc_found|]);
    cbn [mbind option_bind];
    assert (Hfull : rlim_cur <= fd_nfiles t -> forall j, 0 <= j < rlim_cur -> file_at t j <> None)
      by (intros Hle j Hj; specialize (Hall j ltac:(lia)); rewrite used_file_at in Hall by (done || lia);
          by apply bool_decide_eq_true in Hall as [? ->]);
    (destruct (rlim_cur <=? fd_nfiles t) eqn:E; zify_bool;
     [change (EMFILE =? ENOSPC) with false; cbn iota; eexists _, _, _; (split; [done|]);
      (split; [done|]); (split; [done|]); right; split; [left; by auto|done]|]).
  { change (2 ^ Z.of_nat n) with 1 in Hf. lia. }
  change (ENOSPC =? ENOSPC) with true. cbn iota. pose proof (fdexpand_more t Ht) as Hmore.
  destruct (IH (fdexpand t)) as (st' & t' & r & Heq & Hi & Hst & Hp).
  - by apply expand_inv.
  - done.
  - rewrite En, Nat2Z.inj_succ, Z.pow_succ_r in Hf by lia.
    pose proof (Z.pow_pos_nonneg 2 (Z.of_nat fuel)). nia.
  - exists st', t', r. split; [exact Heq|]. split; [done|].
    split; [eapply same_table_trans; [by apply fdexpand_same|done]|].
    assert (Hex : forall j, file_at (fdexpand t) j = file_at t j)
      by (intros; by apply fdexpand_file_at).
    destruct Hp as [(d & -> & (D1 & D2 & D3) & Hp)|([[-> Hp]|Hp] & -> & Hat)].
    + left. exists d. split; [done|]. rewrite Hex in D2. split.
      { split; [done|]. split; [done|]. intros j Hj. rewrite <- Hex. by apply D3. }
      destruct Hp as (? & ? & Hat & ? & Hfl & ?). split; [done|]. split; [done|].
      split; [intros j; by rewrite Hat, Hex|]. split; [done|]. split; [|done].
      intros j Hne. rewrite Hfl by done. by apply fdexpand_flag_at.
    + right. split; [left; split; [done|]|split; [done|]]; intros j; rewrite <- Hex; auto.
    + right. split; [by right|]. split; [done|]. intros j. by rewrite Hat.
Qed.

End calls.

End DescripCalls.
