(* ===== verification/DescripLife.v ===== *)
(** * Closing many descriptors, and whole tables

    close-on-exec, closefrom, and the copy and the end of a table. *)

From S2P Require Import Prelude Libkern Descrip DescripMaps DescripTable DescripProofs DescripCalls.
Import Libkern Descrip DescripMaps DescripTable DescripProofs DescripCalls.
#[local] Open Scope Z_scope.

Module DescripLife.

(** Nothing is open beyond [fd_lastfile]. *)
Lemma file_at_last t j : tbl_ok t None -> fd_lastfile t < j -> file_at t j = None.
Proof.
  intros Ht Hj. destruct (tk_last _ _ Ht) as (Hl & Hmax & _).
  destruct (file_at t j) as [a|] eqn:E; [|done]. exfalso.
  assert (used t j = true) as Hu.
  { rewrite used_file_at, E by (done || lia). apply bool_decide_true. by eexists. }
  specialize (Hmax j ltac:(lia) Hu). lia.
Qed.

(** Fewer descriptors do not reach further. *)
Lemma last_le t t' :
  tbl_ok t None -> tbl_ok t' None -> (forall j, file_at t j = None -> file_at t' j = None) ->
  fd_lastfile t' <= fd_lastfile t.
Proof.
  intros Ht Ht' H. destruct (tk_last _ _ Ht') as (Hl & _ & [->|Hu]).
  - exact (proj1 (proj1 (tk_last _ _ Ht))).
  - rewrite used_file_at in Hu by (done || lia). apply bool_decide_eq_true in Hu as [b Hb].
    destruct (Z.le_gt_cases (fd_lastfile t') (fd_lastfile t)); [done|].
    by rewrite H in Hb by (by apply file_at_last).
Qed.

Section life.
Context (fo_close : Z -> Z).

Lemma fdrelease_none ext st t fd :
  inv ext st t -> 0 <= fd < fd_nfiles t -> file_at t fd = None ->
  fdrelease fo_close st t fd = Some (st, t, EBADF).
Proof.
  intros [Ht _ _] Hfd Hn. unfold fdrelease. by rewrite (rd_entry t None), Hn.
Qed.

(** Releasing a descriptor, open or not. *)
Lemma fdrelease_any ext st t fd :
  inv ext st t -> 0 <= fd < fd_nfiles t ->
  exists st' t' error, fdrelease fo_close st t fd = Some (st', t', error) /\ inv ext st' t' /\
    same_table t t' /\ fd_nfiles t' = fd_nfiles t /\ fd_ofileflags t' = fd_ofileflags t /\
    (forall j, file_at t' j = if j =? fd then None else file_at t j) /\ attr_kept st st' /\
    fd_lastfile t' <= fd_lastfile t.
Proof.
  intros Hinv Hfd. destruct (file_at t fd) as [a|] eqn:Ha.
  - destruct (fdrelease_spec fo_close ext st t fd a Hinv Ha)
      as (st' & t' & er & Heq & Hi & Hk & Hfl & Hat & Hattr).
    exists st', t', er. split; [done|]. split; [done|]. split; [by apply kept_same_table|].
    split; [apply Hk|]. split; [done|]. split; [done|]. split; [done|].
    apply last_le; [exact (inv_table _ _ _ Hinv)|exact (inv_table _ _ _ Hi)|]. intros j Hj.
    rewrite Hat, Hj. by destruct (j =? fd).
  - exists st, t, EBADF. split; [by eapply fdrelease_none|]. split; [done|].
    split; [done|]. split; [done|]. split; [done|]. split; [|by split; [apply attr_kept_refl|]].
    intros j. destruct (j =? fd) eqn:E; zify_bool; [by subst|done].
Qed.

(** close-on-exec closes the descriptors with the flag and no other. *)
Lemma closeexec_loop_spec fuel ext st t fd :
  inv ext st t -> 0 <= fd -> fd_lastfile t + 1 - fd <= Z.of_nat fuel ->
  exists st' t', closeexec_loop fo_close fuel st t fd = Some (st', t') /\ inv ext st' t' /\
    same_table t t' /\ fd_ofileflags t' = fd_ofileflags t /\ attr_kept st st' /\
    forall j, file_at t' j =
      if (fd <=? j) && has (flag_at t j) UF_EXCLOSE then None else file_at t j.
Proof.
  revert st t fd. induction fuel as [|fuel IH]; intros st t fd Hinv Hfd Hf; cbn [closeexec_loop];
    pose proof (inv_table _ _ _ Hinv) as Ht; destruct (fd_lastfile t <? fd) eqn:E; zify_bool; try lia.
  1, 2: exists st, t; (split; [done|]); (split; [done|]); (split; [done|]); (split; [done|]);
    (split; [apply attr_kept_refl|]); intros j; destruct (fd <=? j) eqn:E2; zify_bool; cbn [andb];
    [|done]; rewrite file_at_last by (done || lia); by destruct (has _ _).
  pose proof (proj1 (tk_last _ _ Ht)) as Hlast.
  destruct (rd_flags t None fd Ht ltac:(lia)) as [fl Hfl]. rewrite Hfl. cbn [mbind option_bind].
  assert (Hfa : flag_at t fd = fl) by (unfold flag_at; by rewrite Hfl).
  destruct (has fl UF_EXCLOSE) eqn:Eh.
  - destruct (fdrelease_any ext st t fd Hinv ltac:(lia))
      as (st1 & t1 & er & -> & Hi1 & Hs1 & Hn1 & Hfl1 & Hat1 & Hk1 & Hl1). cbn [mbind option_bind].
    destruct (IH st1 t1 (fd + 1)) as (st' & t' & -> & Hi & Hs' & Hfl' & Hk' & Hat'); [done|lia|lia|].
    exists st', t'. split; [done|]. split; [done|]. split; [by eapply same_table_trans|].
    split; [congruence|]. split; [by eapply attr_kept_trans|]. intros j.
    rewrite Hat', Hat1. assert (flag_at t1 j = flag_at t j) as -> by (unfold flag_at; by rewrite Hfl1).
    destruct (fd + 1 <=? j) eqn:E1, (fd <=? j) eqn:E2, (j =? fd) eqn:E3; zify_bool; try lia; cbn [andb];
      try done; by (subst; rewrite Eh).
  - destruct (IH st t (fd + 1)) as (st' & t' & -> & Hi & Hs' & Hfl' & Hk' & Hat'); [done|lia|lia|].
    exists st', t'. split; [done|]. split; [done|]. split; [done|]. split; [done|]. split; [done|].
    intros j. rewrite Hat'.
    destruct (fd + 1 <=? j) eqn:E1, (fd <=? j) eqn:E2; zify_bool; try lia; cbn [andb]; try done.
    assert (j = fd) as -> by lia. by rewrite Hfa, Eh.
Qed.

(** closefrom closes all descriptors from [i] on. *)
Lemma closefrom_loop_spec fuel ext st t i :
  inv ext st t -> 0 <= i -> fd_lastfile t + 1 - i <= Z.of_nat fuel ->
  exists st' t', closefrom_loop fo_close fuel st t i = Some (st', t') /\ inv ext st' t' /\
    same_table t t' /\ fd_ofileflags t' = fd_ofileflags t /\ attr_kept st st' /\
    forall j, file_at t' j = if i <=? j then None else file_at t j.
Proof.
  revert st t i. induction fuel as [|fuel IH]; intros st t i Hinv Hi Hf; cbn [closefrom_loop];
    pose proof (inv_table _ _ _ Hinv) as Ht; destruct (fd_lastfile t <? i) eqn:E; zify_bool; try lia.
  1, 2: exists st, t; (split; [done|]); (split; [done|]); (split; [done|]); (split; [done|]);
    (split; [apply attr_kept_refl|]); intros j; destruct (i <=? j) eqn:E2; zify_bool;
    [by rewrite file_at_last by (done || lia)|done].
  pose proof (proj1 (tk_last _ _ Ht)) as Hlast.
  destruct (fdrelease_any ext st t i Hinv ltac:(lia))
    as (st1 & t1 & er & -> & Hi1 & Hs1 & Hn1 & Hfl1 & Hat1 & Hk1 & Hl1). cbn [mbind option_bind].
  destruct (IH st1 t1 (i + 1)) as (st' & t' & -> & Hi' & Hs' & Hfl' & Hk' & Hat'); [done|lia|lia|].
  exists st', t'. split; [done|]. split; [done|]. split; [by eapply same_table_trans|].
  split; [congruence|]. split; [by eapply attr_kept_trans|]. intros j. rewrite Hat', Hat1.
  destruct (i + 1 <=? j) eqn:E1, (i <=? j) eqn:E2, (j =? i) eqn:E3; zify_bool; try lia; done.
Qed.

(** ** The end of a table *)

Lemma fdfree_loop_spec n ext st t fd :
  counted ext st t -> 0 <= fd -> fd + Z.of_nat n <= Z.of_nat (length (fd_ofiles t)) ->
  exists st' t', fdfree_loop fo_close n st t fd = Some (st', t') /\ counted ext st' t' /\
    attr_kept st st' /\
    forall j, file_at t' j = if (fd <=? j) && (j <? fd + Z.of_nat n) then None else file_at t j.
Proof.
  revert st t fd. induction n as [|n IH]; intros st t fd Hc Hfd Hlen; cbn [fdfree_loop].
  { exists st, t. split; [done|]. split; [done|]. split; [apply attr_kept_refl|]. intros j.
    destruct (fd <=? j) eqn:E1, (j <? fd + Z.of_nat 0) eqn:E2; zify_bool; cbn; try done. lia. }
  assert (exists o, rd (fd_ofiles t) fd = Some o) as [o Ho] by (apply rd_is_Some; lia).
  assert (Hat0 : file_at t fd = o) by (unfold file_at; rewrite Ho; by destruct o).
  rewrite Ho. cbn [mbind option_bind]. destruct o as [a|].
  - assert (0 < refs t a) as Hp.
    { pose proof (refs_write t fd None a ltac:(lia)) as Hr. rewrite Hat0 in Hr.
      rewrite (bool_decide_true (Some a = Some a)), (bool_decide_false (None = Some a)) in Hr by done.
      cbn [Z.b2z] in Hr. pose proof (table_refs_nonneg (set_entry t fd None) a). lia. }
    destruct (FREF_spec ext st t a Hc) as (st1 & -> & Hc1 & Hk1 & _); [pose proof (proj1 Hc a); lia|].
    cbn [mbind option_bind]. rewrite wr_Some by lia. cbn [mbind option_bind].
    change (set_ofiles t _) with (set_entry t fd None).
    destruct (closef_counted fo_close ext st1 (set_entry t fd None) a (Some (set_entry t fd None)))
      as (er & st2 & -> & Hc2 & Hk2); [apply counted_clear; [lia|done|done]|apply Hc|].
    cbn [mbind option_bind].
    destruct (IH st2 (set_entry t fd None) (fd + 1)) as (st' & t' & -> & Hc' & Hk' & Hat');
      [done|lia|cbn; rewrite length_insert; lia|].
    exists st', t'. split; [done|]. split; [done|].
    split; [eapply attr_kept_trans; [|exact Hk']; by eapply attr_kept_trans|].
    intros j. rewrite Hat', file_at_write by lia.
    destruct (fd + 1 <=? j) eqn:E1, (fd <=? j) eqn:E2, (j =? fd) eqn:E3,
      (j <? fd + 1 + Z.of_nat n) eqn:E4, (j <? fd + Z.of_nat (S n)) eqn:E5;
      zify_bool; try lia; done.
  - destruct (IH st t (fd + 1)) as (st' & t' & -> & Hc' & Hk' & Hat'); [done|lia|lia|].
    exists st', t'. split; [done|]. split; [done|]. split; [done|]. intros j. rewrite Hat'.
    destruct (fd + 1 <=? j) eqn:E1, (fd <=? j) eqn:E2, (j <? fd + 1 + Z.of_nat n) eqn:E4,
      (j <? fd + Z.of_nat (S n)) eqn:E5; zify_bool; try lia; try done.
    assert (j = fd) as -> by lia. done.
Qed.

(** A table whose last user goes away holds no file any more. *)
Lemma fdfree_spec ext st t :
  inv ext st t -> fd_refcnt t = 1 ->
  exists st', fdfree fo_close st t = Some (st', None) /\ attr_kept st st' /\
    (forall a f, files st' !! a = Some f -> f_count f = ext a /\ 0 < f_count f) /\
    (forall a, files st' !! a = None -> ext a = 0) /\ nfiles st' = Z.of_nat (size (files st')).
Proof.
  intros [Ht Hc Hs] Hr. unfold fdfree. rewrite Hr. cbn [fd_refcnt fd_lastfile].
  change (0 <? u16 (1 - 1)) with false. cbn iota.
  pose proof (proj1 (tk_last _ _ Ht)) as Hl. set (t1 := Fdesc _ _ _ _ _ _ _ _ _ _ _ _).
  destruct (fdfree_loop_spec (Z.to_nat (fd_lastfile t + 1)) ext st t1 0)
    as (st' & t' & -> & Hc' & Hk & Hat); [by apply (counted_same _ _ t)|lia| |].
  { cbn. rewrite (tk_ofiles _ _ Ht). lia. }
  cbn [mbind option_bind]. exists st'. split; [done|]. split; [done|].
  assert (Hz : forall a, refs t' a = 0).
  { intros a. unfold refs. rewrite (countb_ext _ (fun _ => false)).
    - induction (length (fd_ofiles t')) as [|n IH]; cbn; [done|]. lia.
    - intros j Hj. unfold refers. rewrite Hat. apply bool_decide_eq_false.
      destruct ((0 <=? j) && _) eqn:E; [done|]. zify_bool.
      change (file_at t1 j) with (file_at t j). rewrite file_at_last; [done|done|].
      destruct E; zify_bool; lia. }
  destruct Hc' as (H0 & H1 & H2 & H3). split; [|split; [|done]].
  - intros a f Hf. specialize (H1 a f Hf). rewrite Hz in H1. lia.
  - intros a Hf. specialize (H2 a Hf). rewrite Hz in H2. lia.
Qed.

End life.

End DescripLife.
