(* ===== verification/DescripCopy.v ===== *)
(** * The copy of a table on fork

    [fdcopy] makes a table of its own for a child process: the same descriptors,
    except those of files that are tied to the parent, in a table that may be
    smaller. *)

From S2P Require Import Prelude Libkern Descrip DescripMaps DescripTable DescripProofs DescripCalls.
From S2P Require Import DescripLife.
Import Libkern Descrip DescripMaps DescripTable DescripProofs DescripCalls DescripLife.
#[local] Open Scope Z_scope.

Module DescripCopy.

(** ** The smaller arrays *)

Lemma copy_Some {A} (l : list A) n :
  n <= Z.of_nat (length l) -> copy l n = Some (take (Z.to_nat n) l).
Proof. intros H. unfold copy. by rewrite (proj2 (Z.ltb_ge _ n)). Qed.

Lemma rd_take {A} (l : list A) n j :
  0 <= n -> rd (take (Z.to_nat n) l) j = if j <? n then rd l j else None.
Proof.
  intros Hn. unfold rd. destruct (j <? 0) eqn:E; zify_bool; [by destruct (j <? n)|].
  destruct (j <? n) eqn:E2; zify_bool.
  - by rewrite lookup_take_lt by lia.
  - by rewrite lookup_take_ge by lia.
Qed.

Lemma length_copy {A} (l : list A) n :
  0 <= n <= Z.of_nat (length l) -> Z.of_nat (length (take (Z.to_nat n) l)) = n.
Proof. intros. rewrite length_take. lia. Qed.

Lemma maps_take nf n hi lo :
  maps_ok nf hi lo -> 0 <= n <= nf ->
  maps_ok n (take (Z.to_nat (NDHISLOTS n)) hi) (take (Z.to_nat (NDLOSLOTS n)) lo).
Proof.
  intros [H1 H2 H3 H4 H5] Hle. pose proof (NDHISLOTS_mono n nf ltac:(lia)) as Hm.
  assert (0 <= NDHISLOTS n) by (rewrite NDHISLOTS_eq; Z.to_euclidean_division_equations; lia).
  rewrite NDLOSLOTS_eq in *. split.
  - apply length_copy. lia.
  - rewrite NDLOSLOTS_eq. apply length_copy. lia.
  - by apply Forall_take.
  - by apply Forall_take.
  - intros w x. rewrite rd_take by lia. destruct (w <? 32 * NDHISLOTS n) eqn:E; zify_bool; [|done].
    intros Hx. pose proof (H5 w x Hx) as Hb. unfold bitat in *. rewrite rd_take by lia.
    rewrite (proj2 (Z.ltb_lt (w / 32) _)); [done|]. Z.to_euclidean_division_equations; lia.
Qed.

Lemma lo_used_take lo n j :
  0 <= n -> 0 <= j ->
  lo_used (take (Z.to_nat n) lo) j = if j <? 32 * n then lo_used lo j else false.
Proof.
  intros Hn Hj. unfold lo_used, bitat. rewrite rd_take by done.
  destruct (j / 32 <? n) eqn:E1, (j <? 32 * n) eqn:E2; zify_bool; try done;
    exfalso; Z.to_euclidean_division_equations; lia.
Qed.

(** ** The size of the copy *)

Lemma shrink_spec fuel i last :
  table_size i -> 0 <= last < i -> i <= Z.of_nat fuel ->
  table_size (shrink fuel i last) /\ last < shrink fuel i last <= i /\
  ~ (2 * NDEXTENT <= shrink fuel i last /\ last * 2 < shrink fuel i last).
Proof.
  revert i. induction fuel as [|fuel IH]; intros i Hi Hl Hf; cbn [shrink]; [lia|].
  destruct ((2 * NDEXTENT <=? i) && (last * 2 <? i)) eqn:E; zify_bool.
  - unfold NDEXTENT in *.
    assert (exists k, 0 <= k /\ i = 2 * (NDEXTENT * 2 ^ k)) as (k & Hk & Hik).
    { destruct Hi as [->|(k & Hk & Hik)]; [unfold NDFILE in *; lia|]. unfold NDEXTENT in *.
      destruct (decide (k = 0)) as [->|Hk0]; [rewrite Z.pow_0_r in Hik; lia|].
      exists (k - 1). split; [lia|]. rewrite Hik.
      replace k with ((k - 1) + 1) at 1 by lia. rewrite Z.pow_add_r by lia. lia. }
    assert (i / 2 = NDEXTENT * 2 ^ k) as Hh.
    { rewrite Hik, Z.mul_comm. apply Z.div_mul. lia. }
    destruct (IH (i / 2)) as (H1 & H2 & H3).
    + right. by exists k.
    + rewrite Hh. unfold NDEXTENT in *. lia.
    + rewrite Hh. unfold NDEXTENT in *. lia.
    + split; [done|]. split; [|done]. rewrite Hh in H2 |- *. unfold NDEXTENT in *. lia.
  - split; [done|]. split; [lia|]. intros [H1 H2]. destruct E; zify_bool; lia.
Qed.

(** The copy has room for all descriptors that are open. *)
Lemma fdcopy_size_spec t :
  tbl_ok t None ->
  table_size (fdcopy_size t) /\ fd_lastfile t < fdcopy_size t <= fd_nfiles t.
Proof.
  intros Ht. pose proof (tk_size _ _ Ht) as Hs. pose proof (table_size_pos _ Hs).
  pose proof (proj1 (tk_last _ _ Ht)). unfold fdcopy_size.
  destruct (fd_lastfile t <? NDFILE) eqn:E; zify_bool.
  - unfold NDFILE in *. split; [by left|]. lia.
  - destruct (shrink_spec (Z.to_nat (fd_nfiles t)) (fd_nfiles t) (fd_lastfile t)) as (? & ? & _);
      [done|lia|lia|]. done.
Qed.

(** The table before its files are counted. *)
Definition smaller (t : filedesc) (self : Z) : filedesc :=
  let i := fdcopy_size t in
  Fdesc self (take (Z.to_nat i) (fd_ofiles t)) (take (Z.to_nat i) (fd_ofileflags t)) i (fd_openfd t)
    (take (Z.to_nat (NDHISLOTS i)) (fd_himap t)) (take (Z.to_nat (NDLOSLOTS i)) (fd_lomap t))
    (fd_lastfile t) (fd_freefile t) 1 (fd_knlistsize t) (fd_flags t).

Lemma smaller_file_at t self j : tbl_ok t None -> file_at (smaller t self) j = file_at t j.
Proof.
  intros Ht. destruct (fdcopy_size_spec t Ht) as [Hs Hl]. pose proof (table_size_pos _ Hs).
  destruct (j <? fdcopy_size t) eqn:E; zify_bool.
  - unfold file_at. cbn [fd_ofiles smaller]. rewrite rd_take by lia.
    by rewrite (proj2 (Z.ltb_lt j _)) by lia.
  - rewrite (file_at_last t j) by (done || lia). unfold file_at. cbn [fd_ofiles smaller].
    rewrite rd_take by lia. by rewrite (proj2 (Z.ltb_ge j _)) by lia.
Qed.

Lemma smaller_used t self j : tbl_ok t None -> 0 <= j -> used (smaller t self) j = used t j.
Proof.
  intros Ht Hj. destruct (fdcopy_size_spec t Ht) as [Hs Hl]. pose proof (table_size_pos _ Hs).
  unfold used at 1. cbn [fd_lomap smaller]. rewrite NDLOSLOTS_eq, NDHISLOTS_eq.
  rewrite lo_used_take by (Z.to_euclidean_division_equations; lia).
  destruct (j <? _) eqn:E; zify_bool; [done|].
  destruct (used t j) eqn:Eu; [|done].
  pose proof (proj1 (proj2 (tk_last _ _ Ht)) j Hj Eu). Z.to_euclidean_division_equations; lia.
Qed.

Lemma smaller_ok t self : tbl_ok t None -> tbl_ok (smaller t self) None.
Proof.
  intros Ht. destruct (fdcopy_size_spec t Ht) as [Hs Hl]. pose proof (table_size_pos _ Hs).
  pose proof Ht as [T1 T2 T3 T4 T5 T6 T7 T8 T9]. destruct T8 as (T8 & T8' & T8'').
  split.
  - done.
  - apply (length_copy (fd_ofiles t) (fdcopy_size t)). lia.
  - apply (length_copy (fd_ofileflags t) (fdcopy_size t)). lia.
  - apply (maps_take (fd_nfiles t)); [done|]. cbn [fd_nfiles smaller]. lia.
  - intros j Hj. rewrite smaller_used, T5, !is_open_file_at, smaller_file_at by done. done.
  - done.
  - split; [apply T7|]. intros j Hj. rewrite smaller_used by (done || lia). by apply T7.
  - split; [exact (conj (proj1 T8) (proj1 Hl))|]. split.
    + intros j Hj. rewrite smaller_used by done. by apply T8'.
    + destruct T8'' as [?|Hu]; [by left|right].
      rewrite smaller_used by (done || exact (proj1 T8)). done.
  - cbn [fd_openfd fd_nfiles smaller]. rewrite T9.
    rewrite (countb_ext (used (smaller t self)) (used t)) by (intros; apply smaller_used; done || lia).
    apply countb_extend; [lia|]. intros j Hj. destruct (used t j) eqn:Ej; [|done].
    pose proof (T8' j ltac:(lia) Ej). lia.
Qed.

(** ** The files of the copy *)

(** Files of these types stay with the process that opened them. *)
Definition tied (f : file) : bool := (f_type f =? DTYPE_KQUEUE) || (f_type f =? DTYPE_SYSTRACE).

(** The file that a child finds at a descriptor. *)
Definition inherited (st : store) (t : filedesc) (fd : Z) : option Z :=
  a ← file_at t fd; f ← files st !! a; if tied f then None else Some a.

(** The entries below [i] are counted, the others are not yet. *)
Definition counted_below (ext : Z -> Z) (st : store) (t : filedesc) (i : Z) : Prop :=
  (forall a, 0 <= ext a) /\
  (forall a f, files st !! a = Some f ->
     f_count f = ext a + countb (refers t a) (Z.to_nat i) /\ 0 < f_count f) /\
  (forall a, files st !! a = None -> ext a + refs t a = 0) /\
  nfiles st = Z.of_nat (size (files st)).

Lemma counted_below_all ext st t i :
  tbl_ok t None -> fd_lastfile t < i -> 0 <= i -> counted_below ext st t i -> counted ext st t.
Proof.
  intros Ht Hl Hi (H0 & H1 & H2 & H3). split; [done|]. split; [|done]. intros a f Hf.
  destruct (H1 a f Hf) as [He Hp]. split; [|done]. rewrite He. f_equal.
  assert (Hz : forall j, i <= j -> refers t a j = false).
  { intros j Hj. unfold refers. rewrite file_at_last by (done || lia). by apply bool_decide_eq_false. }
  unfold refs. destruct (decide (Z.to_nat i <= length (fd_ofiles t))%nat).
  - symmetry. apply countb_extend; [done|]. intros j Hj. apply Hz. lia.
  - apply countb_extend; [lia|]. intros j Hj. unfold refers, file_at.
    rewrite (proj2 (rd_None (fd_ofiles t) j)) by lia. by apply bool_decide_eq_false.
Qed.

(** The next entry is counted. *)
Lemma counted_below_step ext st t i a f :
  0 <= i -> counted_below ext st t i -> file_at t i = Some a -> files st !! a = Some f ->
  counted_below ext (set_files st (<[a := set_count f (f_count f + 1)]> (files st))) t (i + 1).
Proof.
  intros Hi (H0 & H1 & H2 & H3) Ha Hf. replace (Z.to_nat (i + 1)) with (S (Z.to_nat i)) by lia.
  assert (Hr : forall b, refers t b i = (b =? a)).
  { intros b. unfold refers. rewrite Ha. apply eq_true_iff_eq.
    rewrite bool_decide_eq_true, Z.eqb_eq. split; congruence. }
  unfold counted_below. replace (Z.to_nat (i + 1)) with (S (Z.to_nat i)) by lia. cbn [countb].
  rewrite Z2Nat.id by done. split; [done|]. cbn [files set_files nfiles]. split; [|split].
  - intros b g Hg. rewrite Hr. destruct (decide (b = a)) as [->|Hne].
    + rewrite lookup_insert_eq in Hg. injection Hg as <-. rewrite Z.eqb_refl. cbn.
      specialize (H1 a f Hf). lia.
    + rewrite lookup_insert_ne in Hg by done. rewrite (proj2 (Z.eqb_neq b a)) by done. cbn.
      specialize (H1 b g Hg). lia.
  - intros b Hg. apply H2. destruct (decide (b = a)) as [->|Hne].
    + by rewrite lookup_insert_eq in Hg.
    + by rewrite lookup_insert_ne in Hg by done.
  - by rewrite map_size_insert_Some.
Qed.

(** The next entry is skipped: it is empty in [t']. *)
Lemma counted_below_skip ext st t t' i :
  0 <= i -> counted_below ext st t i -> length (fd_ofiles t') = length (fd_ofiles t) ->
  (forall j, file_at t' j = if j =? i then None else file_at t j) ->
  counted_below ext st t' (i + 1).
Proof.
  intros Hi (H0 & H1 & H2 & H3) Hlen Hat. unfold counted_below.
  replace (Z.to_nat (i + 1)) with (S (Z.to_nat i)) by lia. cbn [countb].
  rewrite Z2Nat.id by done. split; [done|]. split; [|split; [|done]].
  - intros a f Hf. unfold refers at 2. rewrite Hat, Z.eqb_refl.
    rewrite (bool_decide_false (None = Some a)) by done. cbn.
    rewrite (countb_ext (refers t' a) (refers t a)); [specialize (H1 a f Hf); lia|].
    intros j Hj. unfold refers. rewrite Hat. by rewrite (proj2 (Z.eqb_neq j i)) by lia.
  - intros a Hf. specialize (H2 a Hf). assert (refs t' a <= refs t a); [|pose proof (table_refs_nonneg t' a);
      pose proof (table_refs_nonneg t a); pose proof (H0 a); lia].
    unfold refs. rewrite Hlen. apply countb_mono. intros j. unfold refers. rewrite Hat.
    by destruct (j =? i).
Qed.

(** Files keep all but their counts, and none goes away or is new. *)
Definition same_files (st st' : store) : Prop :=
  log st' = log st /\
  forall a, (fun f => set_count f 0) <$> files st' !! a = (fun f => set_count f 0) <$> files st !! a.

Lemma same_files_trans st1 st2 st3 : same_files st1 st2 -> same_files st2 st3 -> same_files st1 st3.
Proof. intros [L1 H1] [L2 H2]. split; [congruence|]. intros a. by rewrite H2. Qed.

Lemma same_files_insert st a f c :
  files st !! a = Some f -> same_files st (set_files st (<[a := set_count f c]> (files st))).
Proof.
  intros Hf. split; [done|]. intros b. cbn. destruct (decide (b = a)) as [->|Hne].
  - by rewrite lookup_insert_eq, Hf.
  - by rewrite lookup_insert_ne.
Qed.

Lemma same_files_inherited st st' t j :
  same_files st st' -> inherited st' t j = inherited st t j.
Proof.
  intros [_ H]. unfold inherited. destruct (file_at t j) as [a|]; [|done]. cbn. specialize (H a).
  destruct (files st' !! a) as [f'|], (files st !! a) as [f|]; cbn in *; try done.
  injection H as Hfl Hty _ _ _. unfold tied. by rewrite Hty.
Qed.

Lemma same_files_attr st st' : same_files st st' -> attr_kept st st'.
Proof.
  intros [_ H] a f' Hf'. specialize (H a). rewrite Hf' in H.
  destruct (files st !! a) as [f|]; [|done]. exists f. split; [done|]. by apply (inj Some) in H.
Qed.

(** [inherited] from the descriptor [i] on. *)
Definition inherited_from (st : store) (t : filedesc) (i j : Z) : option Z :=
  if j <? i then file_at t j else inherited st t j.

Lemma inherited_last st t j : tbl_ok t None -> fd_lastfile t < j -> inherited st t j = file_at t j.
Proof. intros Ht Hj. unfold inherited. by rewrite file_at_last. Qed.

Lemma fdcopy_loop_spec fuel ext st t i :
  tbl_ok t None -> fd_nfiles t < 25600 -> (forall a, ext a <= 2 ^ 62) ->
  counted_below ext st t i -> 0 <= i -> fd_lastfile t + 1 - i <= Z.of_nat fuel ->
  exists st' t', fdcopy_loop fuel st t i = Some (st', t') /\ tbl_ok t' None /\
    counted ext st' t' /\ kept t t' /\ fd_ofileflags t' = fd_ofileflags t /\ same_files st st' /\
    forall j, file_at t' j = inherited_from st t i j.
Proof.
  intros Ht Hn Hfew. revert st t i Ht Hn. induction fuel as [|fuel IH]; intros st t i Ht Hn Hc Hi Hf;
    cbn [fdcopy_loop]; destruct (fd_lastfile t <? i) eqn:E; zify_bool; try lia.
  1, 2: exists st, t; (split; [done|]); (split; [done|]); (split; [by eapply counted_below_all|]);
    (split; [done|]); (split; [done|]); (split; [done|]); intros j; unfold inherited_from;
    destruct (j <? i) eqn:E2; zify_bool; [done|]; by rewrite inherited_last by (done || lia).
  pose proof (proj1 (tk_last _ _ Ht)) as Hl. rewrite (rd_entry t None) by (done || lia).
  cbn [mbind option_bind]. destruct (file_at t i) as [a|] eqn:Ha.
  2: { destruct (IH st t (i + 1)) as (st' & t' & -> & ? & ? & ? & ? & ? & Hat); try done; try lia.
       - apply (counted_below_skip _ _ t); [done|done|done|]. intros j.
         destruct (j =? i) eqn:Ej; zify_bool; [by subst|done].
       - exists st', t'. repeat (split; [done|]). intros j. rewrite Hat. unfold inherited_from.
         destruct (j <? i + 1) eqn:E1, (j <? i) eqn:E2; zify_bool; try done; [|lia].
         assert (j = i) as -> by lia. unfold inherited. by rewrite Ha. }
  destruct Hc as (H0 & H1 & H2 & H3).
  assert (exists f, files st !! a = Some f) as [f Hfa].
  { destruct (files st !! a) as [f|] eqn:Ef; [by exists f|]. specialize (H2 a Ef).
    pose proof (refs_pos t None i a Ht Ha). specialize (H0 a). lia. }
  rewrite Hfa. cbn [mbind option_bind].
  assert ((f_count f =? LONG_MAX - 2) = false) as ->.
  { apply Z.eqb_neq. destruct (H1 a f Hfa) as [-> _]. specialize (Hfew a).
    pose proof (countb_le (refers t a) (Z.to_nat i)). unfold LONG_MAX. lia. }
  cbn [orb]. fold (tied f). assert (inherited st t i = if tied f then None else Some a) as Hih.
  { unfold inherited. rewrite Ha. cbn. by rewrite Hfa. }
  destruct (tied f) eqn:Et.
  - destruct (fdremove_spec t i a Ht Ha) as (t1 & -> & Ht1 & Hse). cbn [mbind option_bind].
    assert (Hat1 : forall j, file_at t1 j = if j =? i then None else file_at t j).
    { intros j. rewrite (same_entries_file_at _ _ _ Hse). by apply (file_at_set t None); [|lia]. }
    assert (Hn1 : fd_nfiles t1 = fd_nfiles t) by (by destruct Hse as (_ & _ & _ & -> & _)).
    destruct (IH st t1 (i + 1)) as (st' & t' & -> & ? & ? & Hk & Hfl & ? & Hat); try done; try lia.
    + apply (counted_below_skip _ _ t); [done|done| |done]. apply Nat2Z.inj.
      by rewrite (tk_ofiles _ _ Ht), (tk_ofiles _ _ Ht1).
    + assert (fd_lastfile t1 <= fd_lastfile t); [|lia]. apply last_le; [done|done|]. intros j Hj.
      rewrite Hat1, Hj. by destruct (j =? i).
    + exists st', t'. split; [done|]. split; [done|]. split; [done|]. split.
      { apply same_entries_kept in Hse. unfold kept in *. cbn in Hse. intuition congruence. }
      split; [rewrite Hfl; by destruct Hse as (_ & _ & -> & _)|]. split; [done|]. intros j. rewrite Hat.
      unfold inherited_from, inherited. rewrite Hat1.
      destruct (j <? i + 1) eqn:E1, (j <? i) eqn:E2, (j =? i) eqn:E3; zify_bool; try done; try lia.
      subst j. rewrite Ha. cbn. rewrite Hfa. cbn. by rewrite Et.
  - unfold add_count. rewrite Hfa. cbn [mbind option_bind].
    destruct (IH (set_files st (<[a := set_count f (f_count f + 1)]> (files st))) t (i + 1))
      as (st' & t' & -> & ? & ? & ? & ? & Hsf & Hat); try done; try lia.
    + by apply counted_below_step.
    + exists st', t'. repeat (split; [done|]).
      pose proof (same_files_insert st a f (f_count f + 1) Hfa) as Hins.
      split; [by eapply same_files_trans|]. intros j. rewrite Hat. unfold inherited_from.
      rewrite (same_files_inherited st) by done.
      destruct (j <? i + 1) eqn:E1, (j <? i) eqn:E2; zify_bool; try done; [|lia].
      assert (j = i) as -> by lia. by rewrite Hih, Ha.
Qed.

(** What the copy of [t] is, and what becomes of the files: both tables count. *)
Lemma fdcopy_spec ext st t self :
  inv ext st t -> (forall a, ext a <= 2 ^ 61) ->
  exists st' t', fdcopy st t self = Some (st', t') /\
    inv (fun a => ext a + refs t a) st' t' /\ inv (fun a => ext a + refs t' a) st' t /\
    same_files st st' /\
    (forall j, file_at t' j = inherited st t j) /\
    (forall j, 0 <= j < fd_nfiles t' -> flag_at t' j = flag_at t j) /\
    fd_self t' = self /\ fd_refcnt t' = 1 /\ fd_knlistsize t' = -1 /\ fd_flags t' = fd_flags t.
Proof.
  intros [Ht Hc Hs] Hext. pose proof (fdcopy_size_spec t Ht) as [Hsz Hl].
  pose proof (table_size_pos _ Hsz) as Hp. unfold fdcopy.
  rewrite !copy_Some; [| | | |].
  2, 3: rewrite ?(tk_ofiles _ _ Ht), ?(tk_flags _ _ Ht); lia.
  2, 3: pose proof (NDHISLOTS_mono (fdcopy_size t) (fd_nfiles t) ltac:(lia));
    rewrite ?(mo_hi_len _ _ _ (tk_maps _ _ Ht)), ?(mo_lo_len _ _ _ (tk_maps _ _ Ht)), ?NDLOSLOTS_eq; lia.
  cbn [mbind option_bind]. fold (smaller t self). pose proof (smaller_ok t self Ht) as Ht1.
  destruct (fdcopy_loop_spec (Z.to_nat (fd_lastfile t + 1)) (fun a => ext a + refs t a) st
    (smaller t self) 0) as (st' & t2 & -> & Ht2 & Hc2 & (K1 & K2 & K3 & K4 & K5) & Hfl & Hsf & Hat).
  - done.
  - cbn [fd_nfiles smaller]. lia.
  - intros a. pose proof (countb_le (refers t a) (length (fd_ofiles t))). specialize (Hext a).
    pose proof (tk_ofiles _ _ Ht). unfold refs. lia.
  - destruct Hc as (H0 & H1 & H2 & H3). split; [|split; [|split]].
    + intros a. pose proof (H0 a). pose proof (table_refs_nonneg t a). lia.
    + intros a f Hf. specialize (H1 a f Hf). change (countb _ (Z.to_nat 0)) with 0. lia.
    + intros a Hf. rewrite (refs_file_at t (smaller t self)) by (intros; by apply smaller_file_at).
      pose proof (H2 a Hf). pose proof (table_refs_nonneg t a). pose proof (H0 a). lia.
    + done.
  - lia.
  - cbn [fd_lastfile smaller]. lia.
  - cbn [mbind option_bind]. set (t' := Fdesc _ _ _ _ _ _ _ _ _ _ _ _). exists st', t'.
    assert (Hr : forall a, refs t' a = refs t2 a) by (intros; by apply refs_ext).
    assert (Hat' : forall j, file_at t' j = inherited st t j).
    { intros j. change (file_at t' j) with (file_at t2 j). rewrite Hat. unfold inherited_from, inherited.
      rewrite !smaller_file_at by done. destruct (j <? 0) eqn:E; zify_bool; [|done].
      unfold file_at. by rewrite (proj2 (rd_None (fd_ofiles t) j)) by lia. }
    split; [done|]. split.
    { split; [destruct Ht2; by split|by apply (counted_same _ _ t2)|].
      change (fd_nfiles t2 < 25600). rewrite K2. cbn [fd_nfiles smaller]. lia. }
    split.
    { split; [done| |done]. destruct Hc2 as (C0 & C1 & C2 & C3), Hc as (H0 & _).
      split; [intros a; rewrite Hr; pose proof (H0 a); pose proof (table_refs_nonneg t2 a); lia|].
      split; [|split; [|done]].
      - intros a f Hf. rewrite Hr. specialize (C1 a f Hf). lia.
      - intros a Hf. rewrite Hr. specialize (C2 a Hf). lia. }
    split; [done|]. split; [done|]. split; [|done].
    intros j Hj. unfold flag_at. change (fd_ofileflags t') with (fd_ofileflags t2). rewrite Hfl.
    cbn [fd_ofileflags smaller]. change (fd_nfiles t') with (fd_nfiles t2) in Hj. rewrite K2 in Hj.
    cbn [fd_nfiles smaller] in Hj. rewrite rd_take by lia. by rewrite (proj2 (Z.ltb_lt j _)) by lia.
Qed.

End DescripCopy.
