(* ===== verification/DescripOpen.v ===== *)
(** * New descriptors: pipe(2) and kqueue(2)

    The calls of kern/sys_pipe.c and kern/kern_event.c that make files, as users
    of [falloc]: on each path they leave the table and the files in order.

    What [pipe_create] and [copyout] return is an argument, as are the addresses
    of the files and of the pipes. *)

From S2P Require Import Prelude Libkern Descrip DescripMaps DescripTable DescripProofs DescripCalls.
From S2P Require Import DescripLife.
Import Libkern Descrip DescripMaps DescripTable DescripProofs DescripCalls DescripLife.
#[local] Open Scope Z_scope.

Module DescripOpen.

Definition FNONBLOCK : Z := 0x0004.
Definition DTYPE_PIPE : Z := 3.

(** The members of a new file that its maker sets. *)
Definition set_new (st : store) (a flag type data : Z) : option store :=
  f ← files st !! a;
  Some (set_files st (<[a := File flag type (f_count f) true data (f_iflags f)]> (files st))).

Section open.
Context (fo_close : Z -> Z) (rlim_cur maxfiles : Z).

Definition FILE_SET_MATURE (st : store) (a : Z) : option (Z * store) :=
  f ← files st !! a;
  FRELE fo_close
    (set_files st (<[a := File (f_flag f) (f_type f) (f_count f) (f_ops f) (f_data f)
                            (clear (f_iflags f) FIF_LARVAL)]> (files st))) a.

(** [rf] and [wf] are the addresses of the files, [rpipe] and [wpipe] of the
    pipes; [rerr] and [werr] what [pipe_create] returns for them, [uerr] what
    [copyout] returns. *)
Definition dopipe (st : store) (t : filedesc) (flags rf wf rpipe wpipe rerr werr uerr : Z)
  : option (store * filedesc * (Z * Z + Z)) :=
  let flag := (FREAD .| FWRITE) .| (flags .& FNONBLOCK) in
  if negb (rerr =? 0) then Some (add_log st (PipeClose rpipe), t, inr rerr)
  else if negb (werr =? 0) then
    Some (add_log (add_log st (PipeClose wpipe)) (PipeClose rpipe), t, inr werr)
  else
    '(st1, t1, r0) ← falloc rlim_cur maxfiles st t rf;
    match r0 with
    | inr error => Some (add_log (add_log st1 (PipeClose wpipe)) (PipeClose rpipe), t1, inr error)
    | inl fd0 =>
        st2 ← set_new st1 rf flag DTYPE_PIPE rpipe;
        '(st3, t3, r1) ← falloc rlim_cur maxfiles st2 t1 wf;
        match r1 with
        | inr error =>
            t4 ← fdremove t3 fd0;
            '(_, st4) ← closef fo_close st3 (Some rf) (Some t4);
            Some (add_log st4 (PipeClose wpipe), t4, inr error)
        | inl fd1 =>
            st4 ← set_new st3 wf flag DTYPE_PIPE wpipe;
            t4 ← (if has flags O_CLOEXEC
                  then t' ← set_exclose t3 fd0; set_exclose t' fd1 else Some t3);
            '(_, st5) ← FILE_SET_MATURE (add_log st4 (PipeConnect rpipe wpipe)) rf;
            '(_, st6) ← FILE_SET_MATURE st5 wf;
            if negb (uerr =? 0) then
              '(st7, t7, _) ← fdrelease fo_close st6 t4 fd0;
              '(st8, t8, _) ← fdrelease fo_close st7 t7 fd1;
              Some (st8, t8, inr uerr)
            else Some (st6, t4, inl (fd0, fd1))
        end
    end.

Definition sys_pipe (st : store) (t : filedesc) := dopipe st t 0.

Definition sys_pipe2 (st : store) (t : filedesc) (flags rf wf rpipe wpipe rerr werr uerr : Z)
  : option (store * filedesc * (Z * Z + Z)) :=
  if negb (clear flags (O_CLOEXEC .| FNONBLOCK) =? 0) then Some (st, t, inr EINVAL)
  else dopipe st t flags rf wf rpipe wpipe rerr werr uerr.

(** [fp] is the address of the file, [kq] of the queue. *)
Definition sys_kqueue (st : store) (t : filedesc) (fp kq : Z)
  : option (store * filedesc * (Z + Z)) :=
  '(st1, t1, r) ← falloc rlim_cur maxfiles st t fp;
  match r with
  | inr error => Some (st1, t1, inr error)
  | inl fd =>
      st2 ← set_new st1 fp (FREAD .| FWRITE) DTYPE_KQUEUE kq;
      let t2 := if fd_knlistsize t1 <? 0
                then Fdesc (fd_self t1) (fd_ofiles t1) (fd_ofileflags t1) (fd_nfiles t1) (fd_openfd t1)
                       (fd_himap t1) (fd_lomap t1) (fd_lastfile t1) (fd_freefile t1) (fd_refcnt t1) 0
                       (fd_flags t1)
                else t1 in
      '(_, st3) ← FILE_SET_MATURE st2 fp;
      Some (st3, t2, inl fd)
  end.

(** ** Their parts *)

(** Counts and entries determine the files. *)
Lemma counted_unique ext st st' t t' :
  counted ext st t -> counted ext st' t' -> (forall a, refs t' a = refs t a) -> attr_kept st st' ->
  files st' = files st /\ nfiles st' = nfiles st.
Proof.
  intros (_ & H1 & H2 & H3) (_ & H1' & H2' & H3') Hr Hk.
  assert (files st' = files st) as E; [|by rewrite H3, H3', E].
  apply map_eq. intros a. destruct (files st' !! a) as [f'|] eqn:Ef'.
  - destruct (Hk a f' Ef') as (f & Hf & Heq). rewrite Hf. f_equal.
    destruct (H1 a f Hf) as [Hc _], (H1' a f' Ef') as [Hc' _]. rewrite Hr in Hc'.
    destruct f, f'. unfold set_count in Heq. cbn in *. injection Heq as <- <- <- <- <-. f_equal. lia.
  - specialize (H2' a Ef'). rewrite Hr in H2'. destruct (files st !! a) as [f|] eqn:Ef; [|done].
    specialize (H1 a f Ef). lia.
Qed.

(** Other members of a file may change. *)
Lemma counted_update ext st t a f f' :
  counted ext st t -> files st !! a = Some f -> f_count f' = f_count f ->
  counted ext (set_files st (<[a := f']> (files st))) t.
Proof.
  intros (H0 & H1 & H2 & H3) Hf Hc. split; [done|]. cbn [files set_files nfiles]. split; [|split].
  - intros b g Hg. destruct (decide (b = a)) as [->|Hne].
    + rewrite lookup_insert_eq in Hg. injection Hg as <-. rewrite Hc. by apply H1.
    + rewrite lookup_insert_ne in Hg by done. by apply H1.
  - intros b Hg. destruct (decide (b = a)) as [->|Hne].
    + by rewrite lookup_insert_eq in Hg.
    + rewrite lookup_insert_ne in Hg by done. by apply H2.
  - by rewrite map_size_insert_Some.
Qed.

Lemma set_new_spec ext st t a f flag type data :
  inv ext st t -> files st !! a = Some f ->
  exists st', set_new st a flag type data = Some st' /\ inv ext st' t /\ nfiles st' = nfiles st /\
    files st' = <[a := File flag type (f_count f) true data (f_iflags f)]> (files st).
Proof.
  intros [Ht Hc Hs] Hf. unfold set_new. rewrite Hf. cbn [mbind option_bind]. eexists.
  split; [done|]. split; [|done]. split; [done| |done]. by apply (counted_update ext st t a f).
Qed.

(** A file of which the maker and others hold references is ready for use. *)
Lemma mature_spec ext st t a f :
  inv (plus ext a) st t -> (forall b, 0 <= ext b) -> files st !! a = Some f -> 1 < f_count f ->
  exists error st', FILE_SET_MATURE st a = Some (error, st') /\ inv ext st' t /\ nfiles st' = nfiles st /\
    files st' = <[a := File (f_flag f) (f_type f) (f_count f - 1) (f_ops f) (f_data f)
                         (clear (f_iflags f) FIF_LARVAL)]> (files st).
Proof.
  intros [Ht Hc Hs] Hp Hf Hcnt. unfold FILE_SET_MATURE. rewrite Hf. cbn [mbind option_bind].
  set (g := File _ _ _ _ _ _). set (st1 := set_files st _).
  assert (Hg : files st1 !! a = Some g) by (cbn; by rewrite lookup_insert_eq).
  assert (Hc1 : counted (plus ext a) st1 t) by (by apply (counted_update _ _ _ a f)).
  destruct (FRELE_counted fo_close ext st1 t a Hc1 Hp) as (error & st' & Heq & Hc' & _).
  exists error, st'. split; [done|]. split; [by split|].
  destruct (FRELE_spec fo_close st1 a g Hg) as (error1 & st1' & Heq' & Hd).
  rewrite Heq in Heq'. injection Heq' as <- <-. unfold dropped in Hd.
  change (f_count g) with (f_count f) in Hd. rewrite (proj2 (Z.eqb_neq _ _)) in Hd by lia.
  destruct Hd as [-> _]. split; [done|]. cbn. by rewrite insert_insert_eq.
Qed.

(** A new file that is not to be: its descriptor and the file go. *)
Lemma undo_spec ext st t fd a :
  inv (plus ext a) st t -> file_at t fd = Some a -> (forall b, 0 <= ext b) ->
  exists t' error st', fdremove t fd = Some t' /\
    closef fo_close st (Some a) (Some t') = Some (error, st') /\ inv ext st' t' /\
    same_table t t' /\ (forall j, file_at t' j = if j =? fd then None else file_at t j) /\
    attr_kept st st'.
Proof.
  intros [Ht Hc Hs] Ha Hp. pose proof (file_at_range _ _ _ _ Ht Ha) as Hfd.
  destruct (fdremove_spec t fd a Ht Ha) as (t' & -> & Ht' & Hse).
  destruct (closef_counted fo_close ext st t' a (Some t')) as (error & st' & Heq & Hc' & Hk);
    [|done|].
  { apply (counted_same _ _ (set_entry t fd None)); [apply Hse|].
    apply counted_clear; [by rewrite (tk_ofiles _ _ Ht)|done|done]. }
  exists t', error, st'. split; [done|]. split; [done|].
  assert (Hn : fd_nfiles t' = fd_nfiles t) by (by destruct Hse as (_ & _ & _ & -> & _)).
  split; [split; [done|done|by rewrite Hn]|]. split.
  { apply same_entries_kept, kept_same_table in Hse. done. }
  split; [|done]. intros j. rewrite (same_entries_file_at _ _ _ Hse). by apply (file_at_set t None).
Qed.

Context (Hlim : limits_ok rlim_cur maxfiles).

Lemma falloc_spec ext st t fa :
  inv ext st t -> files st !! fa = None ->
  exists st' t' r, falloc rlim_cur maxfiles st t fa = Some (st', t', r) /\
    inv (match r with inl _ => plus ext fa | inr _ => ext end) st' t' /\ same_table t t' /\
    falloc_post rlim_cur maxfiles st t fa st' t' r.
Proof.
  intros Hinv Hfa. apply (falloc_loop_spec _ _ Hlim 31); [done|done|].
  pose proof (table_size_pos _ (tk_size _ _ (inv_table _ _ _ Hinv))). destruct Hlim. lia.
Qed.

(** The files that pipe makes. *)
Definition pipe_file (flags pipe : Z) : file :=
  File ((FREAD .| FWRITE) .| (flags .& FNONBLOCK)) DTYPE_PIPE 1 true pipe (clear FIF_LARVAL FIF_LARVAL).

(** Two descriptors, the lowest that were free, or an error and no trace. *)
Definition pipe_post (st : store) (t : filedesc) (flags rf wf rpipe wpipe rerr werr uerr : Z)
    (st' : store) (t' : filedesc) (r : Z * Z + Z) : Prop :=
  match r with
  | inl (d0, d1) =>
      rerr = 0 /\ werr = 0 /\ uerr = 0 /\ lowest t 0 d0 /\ lowest t (d0 + 1) d1 /\ d1 < rlim_cur /\
      (forall j, file_at t' j =
         if j =? d0 then Some rf else if j =? d1 then Some wf else file_at t j) /\
      flag_at t' d0 = (if has flags O_CLOEXEC then UF_EXCLOSE else 0) /\
      flag_at t' d1 = (if has flags O_CLOEXEC then UF_EXCLOSE else 0) /\
      files st' = <[wf := pipe_file flags wpipe]> (<[rf := pipe_file flags rpipe]> (files st))
  | inr error =>
      (forall j, file_at t' j = file_at t j) /\ files st' = files st /\ nfiles st' = nfiles st /\
      ((rerr <> 0 /\ error = rerr) \/ (rerr = 0 /\ werr <> 0 /\ error = werr) \/
       (rerr = 0 /\ werr = 0 /\
        ((error = EMFILE /\ exists d, forall j, 0 <= j < rlim_cur -> j <> d -> file_at t j <> None) \/
         (error = ENFILE /\ maxfiles <= nfiles st + 1) \/ (uerr <> 0 /\ error = uerr))))
  end.

(** The files that two [falloc]s made become usable. *)
Lemma mature_two ext st t rf wf flags rpipe wpipe m :
  inv (plus (plus ext rf) wf) st t -> (forall b, 0 <= ext b) -> rf <> wf ->
  let flag := (FREAD .| FWRITE) .| (flags .& FNONBLOCK) in
  files st = <[wf := File flag DTYPE_PIPE 2 true wpipe FIF_LARVAL]>
               (<[rf := File flag DTYPE_PIPE 2 true rpipe FIF_LARVAL]> m) ->
  exists e1 st1 e2 st2, FILE_SET_MATURE st rf = Some (e1, st1) /\
    FILE_SET_MATURE st1 wf = Some (e2, st2) /\ inv ext st2 t /\
    files st2 = <[wf := pipe_file flags wpipe]> (<[rf := pipe_file flags rpipe]> m).
Proof.
  intros Hinv Hp Hne flag Hfiles.
  assert (Hinv' : inv (plus (plus ext wf) rf) st t).
  { destruct Hinv as [? Hc ?]. split; [done| |done]. eapply counted_ext; [|exact Hc].
    intros a. unfold plus. lia. }
  destruct (mature_spec (plus ext wf) st t rf (File flag DTYPE_PIPE 2 true rpipe FIF_LARVAL))
    as (e1 & st1 & -> & Hinv1 & _ & Hf1); [done|by apply plus_nonneg| |done|].
  { rewrite Hfiles, lookup_insert_ne by done. apply lookup_insert_eq. }
  destruct (mature_spec ext st1 t wf (File flag DTYPE_PIPE 2 true wpipe FIF_LARVAL))
    as (e2 & st2 & Heq2 & Hinv2 & _ & Hf2); [done|done| |done|].
  { rewrite Hf1, lookup_insert_ne, Hfiles by done. apply lookup_insert_eq. }
  exists e1, st1, e2, st2. split; [done|]. split; [done|]. split; [done|].
  rewrite Hf2, Hf1, Hfiles. rewrite (insert_insert_ne _ rf wf) by done.
  rewrite insert_insert_eq, insert_insert_eq. done.
Qed.

Lemma set_exclose_two ext st t d0 d1 flags :
  inv ext st t -> 0 <= d0 < fd_nfiles t -> 0 <= d1 < fd_nfiles t -> d0 <> d1 ->
  flag_at t d0 = 0 -> flag_at t d1 = 0 ->
  exists t', (if has flags O_CLOEXEC then t' ← set_exclose t d0; set_exclose t' d1 else Some t) =
      Some t' /\
    inv ext st t' /\ same_table t t' /\ (forall j, file_at t' j = file_at t j) /\
    flag_at t' d0 = (if has flags O_CLOEXEC then UF_EXCLOSE else 0) /\
    flag_at t' d1 = (if has flags O_CLOEXEC then UF_EXCLOSE else 0).
Proof.
  intros Hinv H0 H1 Hne F0 F1. destruct (has flags O_CLOEXEC); [|by exists t].
  destruct (set_exclose_spec ext st t d0 Hinv H0) as (t1 & -> & Hi1 & Hs1 & Hn1 & Hf1 & Hfl1).
  cbn [mbind option_bind].
  destruct (set_exclose_spec ext st t1 d1 Hi1) as (t2 & -> & Hi2 & Hs2 & Hn2 & Hf2 & Hfl2); [lia|].
  exists t2. split; [done|]. split; [done|]. split; [by eapply same_table_trans|].
  split; [intros j; by rewrite Hf2|]. rewrite !Hfl2, !Hfl1, !Z.eqb_refl, F0, F1.
  rewrite (proj2 (Z.eqb_neq d0 d1)), (proj2 (Z.eqb_neq d1 d0)) by congruence. done.
Qed.

(** Both descriptors are closed again. *)
Lemma release_two ext st t d0 d1 a0 a1 :
  inv ext st t -> file_at t d0 = Some a0 -> file_at t d1 = Some a1 -> d0 <> d1 ->
  exists st1 t1 e1 st2 t2 e2, fdrelease fo_close st t d0 = Some (st1, t1, e1) /\
    fdrelease fo_close st1 t1 d1 = Some (st2, t2, e2) /\ inv ext st2 t2 /\ same_table t t2 /\
    (forall j, file_at t2 j = if j =? d0 then None else if j =? d1 then None else file_at t j) /\
    attr_kept st st2.
Proof.
  intros Hinv H0 H1 Hne.
  destruct (fdrelease_spec fo_close ext st t d0 a0 Hinv H0)
    as (st1 & t1 & e1 & E1 & Hi1 & Hk1 & _ & Hf1 & Ha1).
  destruct (fdrelease_spec fo_close ext st1 t1 d1 a1 Hi1) as (st2 & t2 & e2 & E2 & Hi2 & Hk2 & _ & Hf2 & Ha2).
  { by rewrite Hf1, (proj2 (Z.eqb_neq d1 d0)) by congruence. }
  exists st1, t1, e1, st2, t2, e2. split; [done|]. split; [done|]. split; [done|].
  split; [eapply same_table_trans; by apply kept_same_table|].
  split; [|by eapply attr_kept_trans]. intros j. rewrite Hf2, Hf1.
  by destruct (j =? d0), (j =? d1).
Qed.

(** Files that are new in [st] and gone in [st'] leave no trace. *)
Lemma no_trace ext st0 t0 st st' t' (new : list Z) :
  inv ext st0 t0 -> inv ext st' t' -> (forall j, file_at t' j = file_at t0 j) ->
  (forall a, a ∈ new -> files st0 !! a = None) ->
  (forall a, a ∉ new -> files st !! a = files st0 !! a) -> attr_kept st st' ->
  files st' = files st0 /\ nfiles st' = nfiles st0.
Proof.
  intros [_ Hc0 _] [_ Hc' _] Hat Hnew Hold Hk.
  assert (Hr : forall a, refs t' a = refs t0 a) by (intros; by apply refs_file_at).
  apply (counted_unique ext _ _ t0 t'); [done|done|done|]. intros a f Hf.
  assert (a ∉ new) as Ha.
  { intros Ha. destruct Hc0 as (_ & _ & H2 & _). specialize (H2 a (Hnew a Ha)).
    destruct Hc' as (_ & H1 & _). specialize (H1 a f Hf). rewrite Hr in H1. lia. }
  rewrite <- (Hold a Ha). by apply Hk.
Qed.

Lemma second_lowest t t1 rf d0 d1 :
  lowest t 0 d0 -> lowest t1 0 d1 ->
  (forall j, file_at t1 j = if j =? d0 then Some rf else file_at t j) ->
  lowest t (d0 + 1) d1 /\ d0 < d1.
Proof.
  intros (A1 & A2 & A3) (B1 & B2 & B3) Hat. rewrite Hat in B2.
  assert (d0 < d1).
  { destruct (Z.lt_trichotomy d0 d1) as [?|[->|Hlt]]; [done|by rewrite Z.eqb_refl in B2|].
    exfalso. apply (A3 d1); [lia|]. by rewrite (proj2 (Z.eqb_neq d1 d0)) in B2 by lia. }
  split; [|done]. rewrite (proj2 (Z.eqb_neq d1 d0)) in B2 by lia. split; [lia|]. split; [done|].
  intros j Hj. specialize (B3 j ltac:(lia)). by rewrite Hat, (proj2 (Z.eqb_neq j d0)) in B3 by lia.
Qed.

(** pipe, from the two files on. *)
Lemma pipe_finish ext st t st4 t3 flags rf wf rpipe wpipe uerr d0 d1 :
  inv ext st t -> (forall b, 0 <= ext b) -> rf <> wf ->
  files st !! rf = None -> files st !! wf = None ->
  inv (plus (plus ext rf) wf) st4 t3 -> same_table t t3 ->
  lowest t 0 d0 -> lowest t (d0 + 1) d1 -> d1 < rlim_cur ->
  (forall j, file_at t3 j = if j =? d0 then Some rf else if j =? d1 then Some wf else file_at t j) ->
  flag_at t3 d0 = 0 -> flag_at t3 d1 = 0 ->
  let flag := (FREAD .| FWRITE) .| (flags .& FNONBLOCK) in
  files st4 = <[wf := File flag DTYPE_PIPE 2 true wpipe FIF_LARVAL]>
               (<[rf := File flag DTYPE_PIPE 2 true rpipe FIF_LARVAL]> (files st)) ->
  exists st' t' r,
    (t4 ← (if has flags O_CLOEXEC then t' ← set_exclose t3 d0; set_exclose t' d1 else Some t3);
     '(_, st5) ← FILE_SET_MATURE (add_log st4 (PipeConnect rpipe wpipe)) rf;
     '(_, st6) ← FILE_SET_MATURE st5 wf;
     if negb (uerr =? 0) then
       '(st7, t7, _) ← fdrelease fo_close st6 t4 d0;
       '(st8, t8, _) ← fdrelease fo_close st7 t7 d1;
       Some (st8, t8, inr uerr)
     else Some (st6, t4, inl (d0, d1))) = Some (st', t', r) /\
    inv ext st' t' /\ same_table t t' /\
    pipe_post st t flags rf wf rpipe wpipe 0 0 uerr st' t' r.
Proof.
  intros Hinv Hp Hne Hrf Hwf Hinv4 Hs3 L0 L1 Hd1 Hat3 F0 F1 flag Hfiles.
  assert (Hd : d0 <> d1) by (destruct L1; lia).
  assert (Hat0 : file_at t3 d0 = Some rf) by (by rewrite Hat3, Z.eqb_refl).
  assert (Hat1 : file_at t3 d1 = Some wf).
  { rewrite Hat3, Z.eqb_refl. by rewrite (proj2 (Z.eqb_neq d1 d0)) by congruence. }
  pose proof (inv_table _ _ _ Hinv4) as Ht3.
  destruct (set_exclose_two _ st4 t3 d0 d1 flags Hinv4) as (t4 & -> & Hi4 & Hs4 & Hat4 & G0 & G1);
    [by eapply file_at_range|by eapply file_at_range|done|done|done|]. cbn [mbind option_bind].
  destruct (mature_two ext (add_log st4 (PipeConnect rpipe wpipe)) t4 rf wf flags rpipe wpipe (files st))
    as (e1 & st5 & e2 & st6 & -> & Hm2 & Hi6 & Hf6); [by destruct Hi4|done|done|done|].
  cbn [mbind option_bind]. rewrite Hm2. cbn [mbind option_bind].
  assert (Hst : same_table t t4) by (by eapply same_table_trans).
  assert (Hat : forall j, file_at t4 j =
    if j =? d0 then Some rf else if j =? d1 then Some wf else file_at t j) by (intros; by rewrite Hat4).
  destruct (uerr =? 0) eqn:Eu; zify_bool; cbn [negb].
  - eexists _, _, _. split; [done|]. split; [done|]. split; [done|]. cbn [pipe_post]. by split_and!.
  - destruct (release_two ext st6 t4 d0 d1 rf wf Hi6)
      as (st7 & t7 & e7 & st8 & t8 & e8 & -> & E8 & Hi8 & Hs8 & Hat8 & Hk8); [by rewrite Hat4|by rewrite Hat4|done|].
    cbn [mbind option_bind]. rewrite E8. cbn [mbind option_bind]. eexists _, _, _. split; [done|].
    split; [done|]. split; [by eapply same_table_trans|]. cbn [pipe_post].
    assert (Hsame : forall j, file_at t8 j = file_at t j).
    { intros j. rewrite Hat8, Hat. destruct (j =? d0) eqn:E0, (j =? d1) eqn:E1; zify_bool;
        destruct L0 as (_ & N0 & _), L1 as (_ & N1 & _); congruence. }
    destruct (no_trace ext st t st6 st8 t8 [rf; wf] Hinv Hi8 Hsame) as [-> ->].
    + intros a Ha. set_unfold in Ha. by destruct Ha as [->|[->|?]].
    + intros a Ha. set_unfold in Ha. rewrite Hf6, !lookup_insert_ne; [done| |]; intros ->; tauto.
    + done.
    + split; [done|]. split; [done|]. split; [done|]. right. right. split; [done|]. split; [done|].
      right. right. done.
Qed.

(** The pipes are gone, and nothing else happened. *)
Lemma pipe_early ext st t t' st' flags rf wf rpipe wpipe rerr werr uerr error :
  inv ext st' t' -> same_table t t' -> files st' = files st -> nfiles st' = nfiles st ->
  (forall j, file_at t' j = file_at t j) ->
  ((rerr <> 0 /\ error = rerr) \/ (rerr = 0 /\ werr <> 0 /\ error = werr) \/
   (rerr = 0 /\ werr = 0 /\
    ((error = EMFILE /\ exists d, forall j, 0 <= j < rlim_cur -> j <> d -> file_at t j <> None) \/
     (error = ENFILE /\ maxfiles <= nfiles st + 1) \/ (uerr <> 0 /\ error = uerr)))) ->
  inv ext st' t' /\ same_table t t' /\
  pipe_post st t flags rf wf rpipe wpipe rerr werr uerr st' t' (inr error).
Proof. intros. split; [done|]. split; [done|]. done. Qed.

Lemma dopipe_spec ext st t flags rf wf rpipe wpipe rerr werr uerr :
  inv ext st t -> rf <> wf -> files st !! rf = None -> files st !! wf = None ->
  exists st' t' r, dopipe st t flags rf wf rpipe wpipe rerr werr uerr = Some (st', t', r) /\
    inv ext st' t' /\ same_table t t' /\
    pipe_post st t flags rf wf rpipe wpipe rerr werr uerr st' t' r.
Proof.
  intros Hinv Hne Hrf Hwf. pose proof (proj1 (inv_counted _ _ _ Hinv)) as Hp. unfold dopipe.
  set (flag := (FREAD .| FWRITE) .| (flags .& FNONBLOCK)).
  destruct (rerr =? 0) eqn:Er; zify_bool; cbn [negb].
  2: { eexists _, _, _. split; [done|]. apply (pipe_early ext); try done; [|by left].
       by destruct Hinv. }
  destruct (werr =? 0) eqn:Ew; zify_bool; cbn [negb].
  2: { eexists _, _, _. split; [done|]. apply (pipe_early ext); try done; [|by right; left].
       by destruct Hinv. }
  subst rerr werr.
  destruct (falloc_spec ext st t rf Hinv Hrf) as (st1 & t1 & r0 & -> & Hi1 & Hs1 & Hp1).
  cbn [mbind option_bind]. destruct r0 as [d0|error].
  2: { destruct Hp1 as [(d & ? & _)|(Herr & -> & Hat)]; [done|]. eexists _, _, _. split; [done|].
       apply (pipe_early ext); try done; [by destruct Hi1|]. right. right. split; [done|]. split; [done|].
       destruct Herr as [[E Hall]|[E ?]]; injection E as ->.
       - left. split; [done|]. exists (-1). intros j Hj _. by apply Hall.
       - right. left. split; [done|]. lia. }
  destruct Hp1 as [(d & [= <-] & L0 & Hd0 & Hmax & Hat1 & F0 & _ & Hf1)|([[? _]|[? _]] & _)]; [|done|done].
  destruct (set_new_spec (plus ext rf) st1 t1 rf (File 0 0 2 false 0 FIF_LARVAL) flag DTYPE_PIPE rpipe)
    as (st2 & -> & Hi2 & Hn2 & Hf2); [done|by rewrite Hf1, lookup_insert_eq|].
  cbn [mbind option_bind f_count f_iflags] in *. rewrite Hf1, insert_insert_eq in Hf2.
  destruct (falloc_spec (plus ext rf) st2 t1 wf Hi2) as (st3 & t3 & r1 & -> & Hi3 & Hs3 & Hp3).
  { by rewrite Hf2, lookup_insert_ne. }
  cbn [mbind option_bind]. destruct r1 as [d1|error].
  - destruct Hp3 as [(d & [= <-] & L1 & Hd1 & _ & Hat3 & F1 & Fj & Hf3)|([[? _]|[? _]] & _)]; [|done|done].
    destruct (set_new_spec (plus (plus ext rf) wf) st3 t3 wf (File 0 0 2 false 0 FIF_LARVAL)
      flag DTYPE_PIPE wpipe) as (st4 & -> & Hi4 & _ & Hf4); [done|by rewrite Hf3, lookup_insert_eq|].
    cbn [mbind option_bind f_count f_iflags] in *. rewrite Hf3, insert_insert_eq, Hf2 in Hf4.
    destruct (second_lowest t t1 rf d0 d1 L0 L1 Hat1) as [L1' Hlt].
    apply (pipe_finish ext st t st4 t3); try done.
    + by eapply same_table_trans.
    + intros j. rewrite Hat3, Hat1. destruct (j =? d0) eqn:E0, (j =? d1) eqn:E1; zify_bool; try done. lia.
    + rewrite Fj; [done|lia].
  - destruct Hp3 as [(d & ? & _)|(Herr & -> & Hat3)]; [done|].
    destruct (undo_spec ext st2 t3 d0 rf) as (t4 & er & st4 & -> & Hcl & Hi4 & Hs4 & Hat4 & Hk4);
      [done|by rewrite Hat3, Hat1, Z.eqb_refl|done|].
    cbn [mbind option_bind]. rewrite Hcl. cbn [mbind option_bind]. eexists _, _, _. split; [done|].
    assert (Hat : forall j, file_at t4 j = file_at t j).
    { intros j. rewrite Hat4, Hat3, Hat1. destruct (j =? d0) eqn:E; zify_bool; [|done].
      subst j. by destruct L0 as (_ & -> & _). }
    destruct (no_trace ext st t st2 st4 t4 [rf] Hinv Hi4 Hat) as [Hfe Hne'].
    + intros a Ha. set_unfold in Ha. by destruct Ha as [->|?].
    + intros a Ha. set_unfold in Ha. rewrite Hf2, lookup_insert_ne; [done|]. intros ->. tauto.
    + done.
    + apply (pipe_early ext); try done; [by destruct Hi4|do 2 eapply same_table_trans; done|].
      right. right. split; [done|]. split; [done|].
      destruct Herr as [[E Hall]|[E Hm]]; injection E as ->.
      * left. split; [done|]. exists d0. intros j Hj Hjd. specialize (Hall j Hj).
        by rewrite Hat1, (proj2 (Z.eqb_neq j d0)) in Hall by done.
      * right. left. split; [done|]. rewrite Hn2 in Hm.
        destruct (inv_counted _ _ _ Hi1) as (_ & _ & _ & N1), (inv_counted _ _ _ Hinv) as (_ & _ & _ & N0).
        rewrite Hf1, map_size_insert_None in N1 by done. lia.
Qed.

(** kqueue: the descriptor is the lowest one, and events are kept from now on. *)
Definition kqueue_post (st : store) (t : filedesc) (fp kq : Z) (st' : store) (t' : filedesc)
    (r : Z + Z) : Prop :=
  match r with
  | inl d =>
      lowest t 0 d /\ d < rlim_cur /\
      (forall j, file_at t' j = if j =? d then Some fp else file_at t j) /\
      0 <= fd_knlistsize t' /\
      files st' = <[fp := File (FREAD .| FWRITE) DTYPE_KQUEUE 1 true kq (clear FIF_LARVAL FIF_LARVAL)]>
                    (files st)
  | inr error =>
      (forall j, file_at t' j = file_at t j) /\ st' = st /\
      ((error = EMFILE /\ forall j, 0 <= j < rlim_cur -> file_at t j <> None) \/
       (error = ENFILE /\ maxfiles <= nfiles st))
  end.

Lemma sys_kqueue_spec ext st t fp kq :
  inv ext st t -> files st !! fp = None ->
  exists st' t' r, sys_kqueue st t fp kq = Some (st', t', r) /\ inv ext st' t' /\
    fd_refcnt t' = fd_refcnt t /\ fd_self t' = fd_self t /\ fd_flags t' = fd_flags t /\
    kqueue_post st t fp kq st' t' r.
Proof.
  intros Hinv Hfp. unfold sys_kqueue.
  destruct (falloc_spec ext st t fp Hinv Hfp) as (st1 & t1 & r & -> & Hi1 & (S1 & S2 & S3 & S4) & Hp).
  cbn [mbind option_bind]. destruct r as [d|error].
  2: { destruct Hp as [(d & ? & _)|(Herr & -> & Hat)]; [done|]. eexists _, _, _. split; [done|].
       split; [done|]. split; [done|]. split; [done|]. split; [done|]. split; [done|].
       split; [done|]. destruct Herr as [[E ?]|[E ?]]; injection E as ->; tauto. }
  destruct Hp as [(d' & [= <-] & L & Hd & _ & Hat & _ & _ & Hf1)|([[? _]|[? _]] & _)]; [|done|done].
  destruct (set_new_spec (plus ext fp) st1 t1 fp (File 0 0 2 false 0 FIF_LARVAL) (FREAD .| FWRITE)
    DTYPE_KQUEUE kq) as (st2 & -> & Hi2 & _ & Hf2); [done|by rewrite Hf1, lookup_insert_eq|].
  cbn [mbind option_bind f_count f_iflags] in *. rewrite Hf1, insert_insert_eq in Hf2.
  set (t2 := if fd_knlistsize t1 <? 0 then _ else t1).
  assert (Ht2 : inv (plus ext fp) st2 t2 /\ fd_refcnt t2 = fd_refcnt t1 /\ fd_self t2 = fd_self t1 /\
    fd_flags t2 = fd_flags t1 /\ (forall j, file_at t2 j = file_at t1 j) /\ 0 <= fd_knlistsize t2).
  { unfold t2. destruct (fd_knlistsize t1 <? 0) eqn:E; zify_bool; [|by split_and!].
    destruct Hi2 as [[] ? ?]. split; [split; [by split|done|done]|done]. }
  destruct Ht2 as (Hi2' & K1 & K2 & K3 & K4 & K5). clearbody t2.
  destruct (mature_spec ext st2 t2 fp (File (FREAD .| FWRITE) DTYPE_KQUEUE 2 true kq FIF_LARVAL))
    as (er & st3 & -> & Hi3 & _ & Hf3);
    [done|exact (proj1 (inv_counted _ _ _ Hinv))|by rewrite Hf2, lookup_insert_eq|done|].
  cbn [mbind option_bind]. eexists _, _, _. split; [done|]. split; [done|].
  split; [congruence|]. split; [congruence|]. split; [congruence|]. cbn [kqueue_post].
  split; [done|]. split; [done|]. split; [intros j; by rewrite K4|]. split; [done|].
  by rewrite Hf3, Hf2, insert_insert_eq.
Qed.

End open.

End DescripOpen.
