(* ===== verification/DescripSpec.v ===== *)
(** * The contracts of the descriptor calls

    What each call on descriptors does, on every branch; the tables and files
    that a sequence of calls reaches. *)

From S2P Require Import Prelude Libkern Descrip DescripMaps DescripTable DescripProofs DescripCalls.
From S2P Require Import DescripLife DescripCopy DescripOpen.
Import Libkern Descrip DescripMaps DescripTable DescripProofs DescripCalls DescripLife.
Import DescripCopy DescripOpen.
#[local] Open Scope Z_scope.

Module DescripSpec.

(** ** A linear search *)

(** The first descriptor from [want] on, below [last], whose bit is clear. *)
Definition scan (t : filedesc) (want last : Z) : option Z :=
  List.find (fun fd => negb (used t fd)) (seqZ want (last - want)).

Lemma scan_Some t want last d :
  scan t want last = Some d <-> least_free t want d /\ d < last.
Proof.
  unfold scan. remember (Z.to_nat (last - want)) as n eqn:En. revert want En.
  induction n as [|n IH]; intros want En.
  { rewrite seqZ_nil by lia. cbn. split; [done|]. intros [(? & _) ?]. lia. }
  rewrite seqZ_cons by lia. cbn [List.find].
  replace (Z.pred (last - want)) with (last - Z.succ want) by lia.
  destruct (used t want) eqn:Eu; cbn [negb].
  - rewrite IH by lia. unfold least_free. split.
    + intros [(H1 & H2 & H3) H4]. split; [|done]. split; [lia|]. split; [done|]. intros j Hj.
      destruct (decide (j = want)) as [->|]; [done|]. apply H3. lia.
    + intros [(H1 & H2 & H3) H4]. split; [|done].
      assert (want <> d) by congruence. split; [lia|]. split; [done|]. intros j Hj. apply H3. lia.
  - split.
    + intros [= <-]. split; [|lia]. split; [lia|]. split; [done|]. lia.
    + intros [(H1 & H2 & H3) H4]. f_equal. destruct (decide (want = d)); [done|].
      rewrite H3 in Eu by lia. done.
Qed.

Lemma scan_None t want last :
  scan t want last = None <-> forall j, want <= j < last -> used t j = true.
Proof.
  split.
  - intros H j Hj. destruct (used t j) eqn:Eu; [done|].
    assert (negb (used t j) = false) as Hn; [|by rewrite Eu in Hn].
    apply (List.find_none _ _ H). apply list_elem_of_In, elem_of_seqZ. lia.
  - intros H. destruct (scan t want last) as [d|] eqn:E; [|done].
    apply scan_Some in E as [(H1 & H2 & _) H4]. rewrite H in H2 by lia. done.
Qed.

(** ** The start *)

(** A new table, and no file. *)
Definition no_files : store := Store ∅ 0 [].

Lemma fdinit_inv self : inv (fun _ => 0) no_files (fdinit self).
Proof.
  assert (Hb : forall fd, lo_used (replicate 32 0) fd = false).
  { intros fd. unfold lo_used, bitat. destruct (rd (replicate 32 0) (fd / 32)) as [w|] eqn:E; [|done].
    apply rd_Some in E as [_ E]. apply lookup_replicate in E as [-> _]. cbn. by rewrite Z.bits_0. }
  assert (Hf : forall fd, file_at (fdinit self) fd = None).
  { intros fd. unfold file_at. destruct (rd _ fd) as [o|] eqn:E; [|done].
    apply rd_Some in E as [_ E]. by apply lookup_replicate in E as [-> _]. }
  split.
  - split; try done.
    + by left.
    + split; try done; try (by repeat constructor).
      intros w x Hx. apply rd_Some in Hx as [Hw Hx]. apply lookup_replicate in Hx as [-> Hlt].
      unfold bitat. assert (0 <= w / 32 < 1) as Hd by (Z.to_euclidean_division_equations; lia).
      replace (w / 32) with 0 by lia. change (rd _ 0) with (Some 0).
      cbn [mbind option_bind]. by rewrite Z.bits_0.
    + intros fd Hfd. unfold used. cbn [fd_lomap fdinit]. rewrite Hb, is_open_file_at, Hf.
      rewrite !bool_decide_false; [done|done|by intros []].
    + split; [done|]. cbn. lia.
    + split; [done|]. split; [|by left]. intros fd Hfd. unfold used. cbn [fd_lomap fdinit]. by rewrite Hb.
  - split; [done|]. split; [done|]. split; [|done]. intros a _. by vm_compute.
  - done.
Qed.

Section spec.
Context (fo_close : Z -> Z) (rlim_cur maxfiles : Z).

(** ** Duplication *)

Lemma expand_enough ext st t :
  limits_ok rlim_cur maxfiles -> inv ext st t -> rlim_cur <= fd_nfiles t * 2 ^ Z.of_nat 31.
Proof.
  intros Hlim Hinv. pose proof (table_size_pos _ (tk_size _ _ (inv_table _ _ _ Hinv))).
  destruct Hlim. lia.
Qed.

Lemma call_ok_refl ext st t : inv ext st t -> call_ok ext st t st t.
Proof. intros. split; [done|]. split; [done|]. apply attr_kept_refl. Qed.

(** dup and fcntl([F_DUPFD]). *)
Definition dup_result (ext : Z -> Z) (st : store) (t : filedesc) (old want : Z) (cloexec : bool)
    (res : option (store * filedesc * (Z + Z))) : Prop :=
  exists st' t' r, res = Some (st', t', r) /\ call_ok ext st t st' t' /\
    match usable_at st t old with
    | None => r = inr EBADF /\ st' = st /\ t' = t
    | Some fp => dup_post rlim_cur st t old fp want cloexec st' t' r
    end.

Lemma dup_result_ok ext st t old want :
  limits_ok rlim_cur maxfiles -> inv ext st t -> (forall a, ext a <= 2 ^ 61) -> is_int old -> 0 <= want ->
  dup_result ext st t old want false
    (dup_loop fo_close rlim_cur maxfiles expand_fuel st t old want).
Proof.
  intros Hlim Hinv Hext Hold Hw. unfold dup_result.
  destruct (usable_at st t old) as [fp|] eqn:Hu.
  - apply (dup_loop_spec fo_close rlim_cur maxfiles Hlim 31); try done. by eapply expand_enough.
  - exists st, t, (inr EBADF). unfold expand_fuel. cbn [dup_loop].
    rewrite (fd_getfile_spec ext), Hu by done. cbn. split; [done|]. split; [by apply call_ok_refl|]. done.
Qed.

(** The flag of the new descriptor is set afterwards. *)
Lemma dupfd_cloexec ext st t old fp want st1 t1 d :
  inv ext st t -> call_ok ext st t st1 t1 ->
  dup_post rlim_cur st t old fp want false st1 t1 (inl d) ->
  exists t2, set_exclose t1 d = Some t2 /\ call_ok ext st t st1 t2 /\
    dup_post rlim_cur st t old fp want true st1 t2 (inl d).
Proof.
  intros Hinv (Hi1 & Hs1 & Hk1) [(d' & [= <-] & L & Hd & Hat & Hfl)|[? _]]; [|done].
  assert (0 <= d < fd_nfiles t1) as Hdr.
  { apply (file_at_range t1 None d fp (inv_table _ _ _ Hi1)). by rewrite Hat, Z.eqb_refl. }
  destruct (set_exclose_spec ext st1 t1 d Hi1 Hdr) as (t2 & -> & Hi2 & Hs2 & Hn2 & Hf2 & Hfl2).
  exists t2. split; [done|].
  split; [split; [done|]; split; [by eapply same_table_trans|done]|]. left. exists d.
  split; [done|]. split; [done|]. split; [done|]. split; [intros j; by rewrite Hf2|].
  intros j. rewrite Hfl2, !Hfl, Z.eqb_refl. by destruct (j =? d).
Qed.

(** A reference that is taken and dropped again leaves the files as they were. *)
Lemma ref_unref ext st t fp fd :
  inv ext st t -> file_at t fd = Some fp ->
  exists st1 error st2, FREF st fp = Some st1 /\ FRELE fo_close st1 fp = Some (error, st2) /\
    call_ok ext st t st2 t /\ files st2 = files st.
Proof.
  intros Hinv Hat. pose proof Hinv as [Ht Hc Hs].
  destruct (inv_file ext st t fd fp Hc Ht Hat) as (Hr & _).
  destruct (FREF_spec ext st t fp Hc) as (st1 & -> & Hc1 & Hk1 & _); [pose proof (proj1 Hc fp); lia|].
  destruct (FRELE_counted fo_close ext st1 t fp Hc1 (proj1 Hc)) as (er & st2 & Heq & Hc2 & Hk2).
  assert (Hk : attr_kept st st2) by (by eapply attr_kept_trans).
  exists st1, er, st2. split; [done|]. split; [done|]. split; [split; [by split|done]|].
  by apply (counted_unique ext st st2 t t).
Qed.

Definition dupfd_result (ext : Z -> Z) (st : store) (t : filedesc) (fd newmin : Z) (cloexec : bool)
    (res : option (store * filedesc * (Z + Z))) : Prop :=
  if bool_decide (is_Some (usable_at st t fd)) && bool_decide (newmin < 0 \/ rlim_cur <= newmin)
  then exists st', res = Some (st', t, inr EINVAL) /\ call_ok ext st t st' t /\ files st' = files st
  else dup_result ext st t fd newmin cloexec res.

Lemma u32_limit x :
  limits_ok rlim_cur maxfiles -> is_int x ->
  (rlim_cur <=? u32 x) || (maxfiles <=? u32 x) = bool_decide (x < 0 \/ rlim_cur <= x).
Proof.
  intros Hlim Hx. rewrite u32_int by done. destruct Hlim. unfold is_int in Hx.
  apply eq_true_iff_eq. rewrite orb_true_iff, bool_decide_eq_true, !Z.leb_le.
  destruct (x <? 0) eqn:E; zify_bool; lia.
Qed.

Lemma fcntl_dupfd_ok ext st t fd newmin cloexec :
  limits_ok rlim_cur maxfiles -> inv ext st t -> (forall a, ext a <= 2 ^ 61) -> is_int fd ->
  is_int newmin ->
  dupfd_result ext st t fd newmin cloexec
    (fcntl_dupfd fo_close rlim_cur maxfiles st t fd newmin cloexec).
Proof.
  intros Hlim Hinv Hext Hfd Hnm. unfold dupfd_result, fcntl_dupfd.
  rewrite (fd_getfile_spec ext), u32_limit by done. cbn [mbind option_bind].
  destruct (usable_at st t fd) as [fp|] eqn:Hu.
  2: { rewrite bool_decide_false by (by intros []). cbn [andb]. exists st, t, (inr EBADF).
       split; [done|]. split; [by apply call_ok_refl|]. by rewrite Hu. }
  rewrite (bool_decide_true (is_Some _)) by done. cbn [andb].
  pose proof (usable_at_file_at _ _ _ _ Hu) as Hat.
  case_bool_decide as Hc.
  - destruct (ref_unref ext st t fp fd Hinv Hat) as (st1 & er & st2 & -> & Heq & Hok & Hf).
    cbn [mbind option_bind]. rewrite Heq. cbn [mbind option_bind]. by exists st2.
  - destruct (dup_result_ok ext st t fd newmin Hlim Hinv Hext Hfd) as (st1 & t1 & r & -> & Hok & Hp); [lia|].
    rewrite Hu in Hp. cbn [mbind option_bind]. destruct r as [d|error].
    + destruct cloexec; cbn [mbind option_bind].
      * destruct (dupfd_cloexec ext st t fd fp newmin st1 t1 d Hinv Hok Hp) as (t2 & -> & Hok2 & Hp2).
        cbn [mbind option_bind]. exists st1, t2, (inl d). split; [done|]. split; [done|]. by rewrite Hu.
      * exists st1, t1, (inl d). split; [done|]. split; [done|]. by rewrite Hu.
    + exists st1, t1, (inr error). split; [done|]. split; [done|]. rewrite Hu.
      destruct Hp as [(d & ? & _)|?]; [done|by right].
Qed.

(** dup2 and dup3. *)
Definition dup2_result (ext : Z -> Z) (st : store) (t : filedesc) (old new flags : Z)
    (res : option (store * filedesc * (Z + Z))) : Prop :=
  match usable_at st t old with
  | None => res = Some (st, t, inr EBADF)
  | Some fp =>
      if bool_decide (new < 0 \/ rlim_cur <= new) then res = Some (st, t, inr EBADF)
      else if bool_decide (old = new) then res = Some (st, t, inl new)
      else exists st' t', res = Some (st', t', inl new) /\ call_ok ext st t st' t' /\
             dup2_post t old fp new flags t'
  end.

Lemma dodup3_ok ext st t old new flags :
  limits_ok rlim_cur maxfiles -> inv ext st t -> (forall a, ext a <= 2 ^ 61) -> is_int old -> is_int new ->
  dup2_result ext st t old new flags (dodup3 fo_close rlim_cur maxfiles st t old new flags).
Proof.
  intros Hlim Hinv Hext Hold Hnew. unfold dup2_result, dodup3.
  destruct (usable_at st t old) as [fp|] eqn:Hu.
  2: { unfold expand_fuel. cbn [dodup3_loop]. by rewrite (fd_getfile_spec ext), Hu. }
  case_bool_decide as Hr.
  { unfold expand_fuel. cbn [dodup3_loop]. rewrite (fd_getfile_spec ext), Hu by done.
    cbn [mbind option_bind]. by rewrite u32_limit, bool_decide_true by done. }
  case_bool_decide as He.
  { unfold expand_fuel. cbn [dodup3_loop]. rewrite (fd_getfile_spec ext), Hu by done.
    cbn [mbind option_bind]. rewrite u32_limit, bool_decide_false by done.
    by rewrite (proj2 (Z.eqb_eq old new)). }
  apply (dodup3_loop_spec fo_close rlim_cur maxfiles Hlim 31); try done; [lia|].
  pose proof (expand_enough ext st t Hlim Hinv). lia.
Qed.

(** ** Closing *)

Definition close_result (ext : Z -> Z) (st : store) (t : filedesc) (fd : Z)
    (res : option (store * filedesc * Z)) : Prop :=
  match usable_at st t fd with
  | None => res = Some (st, t, EBADF)
  | Some _ => exists st' t' error, res = Some (st', t', error) /\ call_ok ext st t st' t' /\
      fd_ofileflags t' = fd_ofileflags t /\
      forall j, file_at t' j = if j =? fd then None else file_at t j
  end.

Lemma sys_close_ok ext st t fd :
  inv ext st t -> is_int fd -> close_result ext st t fd (sys_close fo_close st t fd).
Proof.
  intros Hinv Hfd. unfold close_result, sys_close. rewrite (fd_getfile_spec ext) by done.
  cbn [mbind option_bind]. destruct (usable_at st t fd) as [a|] eqn:Hu; [|done].
  destruct (fdrelease_spec fo_close ext st t fd a Hinv) as (st' & t' & er & -> & Hi & Hk & Hfl & Hat & Ha);
    [by apply (usable_at_file_at st)|].
  exists st', t', er. split; [done|]. split; [|done]. split; [done|]. split; [by apply kept_same_table|done].
Qed.

Lemma sys_closefrom_ok ext st t fd :
  inv ext st t -> is_int fd ->
  exists st' t' error, sys_closefrom fo_close st t fd = Some (st', t', error) /\
    call_ok ext st t st' t' /\
    if bool_decide (0 <= fd <= fd_lastfile t)
    then error = 0 /\ forall j, file_at t' j = if fd <=? j then None else file_at t j
    else error = EBADF /\ st' = st /\ t' = t.
Proof.
  intros Hinv Hfd. pose proof (inv_table _ _ _ Hinv) as Ht. unfold sys_closefrom.
  rewrite u32_int by done. pose proof (tk_last _ _ Ht) as (Hl & _).
  pose proof (inv_small _ _ _ Hinv) as Hs. unfold is_int in Hfd. case_bool_decide as Hc.
  - rewrite (proj2 (Z.ltb_ge fd 0)), (proj2 (Z.ltb_ge _ fd)) by lia.
    destruct (closefrom_loop_spec fo_close (Z.to_nat (fd_lastfile t + 1 - fd)) ext st t fd Hinv)
      as (st' & t' & -> & Hi & Hst & _ & Hk & Hat); [lia|lia|].
    cbn [mbind option_bind]. exists st', t', 0. split; [done|]. done.
  - assert ((fd_lastfile t <? (if fd <? 0 then fd + 2 ^ 32 else fd)) = true) as ->.
    { apply Z.ltb_lt. destruct (fd <? 0) eqn:E; zify_bool; lia. }
    exists st, t, EBADF. split; [done|]. split; [by apply call_ok_refl|done].
Qed.

Lemma fdcloseexec_ok ext st t :
  inv ext st t ->
  exists st' t', fdcloseexec fo_close st t = Some (st', t') /\ call_ok ext st t st' t' /\
    forall j, 0 <= j -> file_at t' j = if has (flag_at t j) UF_EXCLOSE then None else file_at t j.
Proof.
  intros Hinv. unfold fdcloseexec.
  destruct (closeexec_loop_spec fo_close (Z.to_nat (fd_lastfile t + 1)) ext st t 0 Hinv)
    as (st' & t' & -> & Hi & Hst & _ & Hk & Hat); [lia|lia|].
  exists st', t'. split; [done|]. split; [done|]. intros j Hj. rewrite Hat.
  by rewrite (proj2 (Z.leb_le 0 j)).
Qed.

Lemma fcntl_setfd_ok ext st t fd arg :
  inv ext st t -> is_int fd ->
  exists t' r, fcntl_setfd st t fd arg = Some (t', r) /\ inv ext st t' /\ same_table t t' /\
    (forall j, file_at t' j = file_at t j) /\
    match usable_at st t fd with
    | None => r = inr EBADF /\ t' = t
    | Some _ => r = inl 0 /\
        (forall j, j <> fd -> flag_at t' j = flag_at t j) /\
        has (flag_at t' fd) UF_EXCLOSE = has arg 1
    end.
Proof.
  intros Hinv Hfd. pose proof (inv_table _ _ _ Hinv) as Ht. unfold fcntl_setfd.
  rewrite (fd_getfile_spec ext) by done. cbn [mbind option_bind].
  destruct (usable_at st t fd) as [a|] eqn:Hu; [|by exists t, (inr EBADF)].
  pose proof (file_at_range _ _ _ _ Ht (usable_at_file_at _ _ _ _ Hu)) as Hr.
  destruct (rd_flags t None fd Ht Hr) as [fl Hfl]. rewrite Hfl. cbn [mbind option_bind].
  rewrite wr_Some by (rewrite (tk_flags _ _ Ht); lia). cbn [mbind option_bind]. eexists _, _.
  split; [done|]. split; [apply inv_flags; [done|by rewrite length_insert]|]. split; [done|].
  split; [done|]. split; [done|].
  set (v := if has arg 1 then fl .| UF_EXCLOSE else clear fl UF_EXCLOSE).
  assert (Hflag : forall j, flag_at (set_ofileflags t (<[Z.to_nat fd := v]> (fd_ofileflags t))) j =
    if j =? fd then v else flag_at t j).
  { intros j. apply flag_at_insert; [done|]. rewrite (tk_flags _ _ Ht). lia. }
  split; [intros j Hj; by rewrite Hflag, (proj2 (Z.eqb_neq j fd))|].
  rewrite Hflag, Z.eqb_refl. unfold v, has, clear, UF_EXCLOSE.
  destruct (negb (Z.land arg 1 =? 0)).
  - rewrite Z.land_lor_distr_l. apply negb_true_iff, Z.eqb_neq. intros H%Z.lor_eq_0_iff. by destruct H.
  - apply negb_false_iff, Z.eqb_eq, Z.land_ldiff.
Qed.

(** ** Sequences of calls *)

Inductive fd_event : Type :=
| EvPipe (flags rf wf rpipe wpipe rerr werr uerr : Z)
| EvKqueue (fp kq : Z)
| EvDup (fd : Z)
| EvDupfd (fd newmin : Z) (cloexec : bool)
| EvDup2 (from to : Z)
| EvDup3 (from to flags : Z)
| EvSetfd (fd arg : Z)
| EvClose (fd : Z)
| EvClosefrom (fd : Z)
| EvExec.

(** What a call leaves, without its result. *)
Definition fd_run (ev : fd_event) (st : store) (t : filedesc) : option (store * filedesc) :=
  match ev with
  | EvPipe flags rf wf rpipe wpipe rerr werr uerr =>
      fst <$> sys_pipe2 fo_close rlim_cur maxfiles st t flags rf wf rpipe wpipe rerr werr uerr
  | EvKqueue fp kq => fst <$> sys_kqueue fo_close rlim_cur maxfiles st t fp kq
  | EvDup fd => fst <$> sys_dup fo_close rlim_cur maxfiles st t fd
  | EvDupfd fd newmin cloexec =>
      fst <$> fcntl_dupfd fo_close rlim_cur maxfiles st t fd newmin cloexec
  | EvDup2 from to => fst <$> sys_dup2 fo_close rlim_cur maxfiles st t from to
  | EvDup3 from to flags => fst <$> sys_dup3 fo_close rlim_cur maxfiles st t from to flags
  | EvSetfd fd arg => (fun tr => (st, fst tr)) <$> fcntl_setfd st t fd arg
  | EvClose fd => fst <$> sys_close fo_close st t fd
  | EvClosefrom fd => fst <$> sys_closefrom fo_close st t fd
  | EvExec => fdcloseexec fo_close st t
  end.

(** Descriptors are ints, and the allocator returns memory that is not in use. *)
Definition fd_event_ok (ev : fd_event) (st : store) : Prop :=
  match ev with
  | EvPipe _ rf wf _ _ _ _ _ => rf <> wf /\ files st !! rf = None /\ files st !! wf = None
  | EvKqueue fp _ => files st !! fp = None
  | EvDup fd | EvSetfd fd _ | EvClose fd | EvClosefrom fd => is_int fd
  | EvDupfd a b _ | EvDup2 a b | EvDup3 a b _ => is_int a /\ is_int b
  | EvExec => True
  end.

Fixpoint fd_run_all (evs : list fd_event) (st : store) (t : filedesc) : option (store * filedesc) :=
  match evs with
  | [] => Some (st, t)
  | ev :: evs' => '(st', t') ← fd_run ev st t; fd_run_all evs' st' t'
  end.

Fixpoint fd_valid (evs : list fd_event) (st : store) (t : filedesc) : Prop :=
  match evs with
  | [] => True
  | ev :: evs' => fd_event_ok ev st /\
      match fd_run ev st t with Some (st', t') => fd_valid evs' st' t' | None => True end
  end.

#[global] Instance is_int_dec x : Decision (is_int x).
Proof. unfold is_int. apply _. Defined.

#[global] Instance fd_event_ok_dec ev st : Decision (fd_event_ok ev st).
Proof. destruct ev; cbn; apply _. Defined.

#[global] Instance fd_valid_dec evs st t : Decision (fd_valid evs st t).
Proof.
  revert st t. induction evs as [|ev evs IH]; intros st t; cbn [fd_valid]; [apply _|].
  destruct (fd_run ev st t) as [[st' t']|]; apply _.
Defined.

(** No file is left half made. *)
Definition all_mature (st : store) : Prop :=
  forall a f, files st !! a = Some f -> FILE_IS_USABLE f = true.

Lemma all_mature_kept st st' : all_mature st -> attr_kept st st' -> all_mature st'.
Proof.
  intros Hm Hk a f' Hf'. destruct (Hk a f' Hf') as (f & Hf & Heq). rewrite <- (Hm a f Hf).
  unfold FILE_IS_USABLE. by injection Heq as _ _ _ _ ->.
Qed.

Lemma all_mature_insert st st' a f :
  all_mature st -> files st' = <[a := f]> (files st) -> FILE_IS_USABLE f = true -> all_mature st'.
Proof.
  intros Hm Hf Hu b g. rewrite Hf. destruct (decide (b = a)) as [->|Hne].
  - rewrite lookup_insert_eq. by intros [= <-].
  - rewrite lookup_insert_ne by done. apply Hm.
Qed.

Lemma pipe_mature st t flags rf wf rpipe wpipe rerr werr uerr st' t' r :
  all_mature st ->
  pipe_post rlim_cur maxfiles st t flags rf wf rpipe wpipe rerr werr uerr st' t' r -> all_mature st'.
Proof.
  intros Hm. unfold pipe_post. destruct r as [[d0 d1]|error].
  - intros (_ & _ & _ & _ & _ & _ & _ & _ & _ & Hf).
    apply (all_mature_insert (Store (<[rf := pipe_file flags rpipe]> (files st)) 0 []) _ _ _) in Hf;
      [done| |done]. by apply (all_mature_insert st _ rf (pipe_file flags rpipe)).
  - intros (_ & Hf & _) a f. rewrite Hf. apply Hm.
Qed.

Lemma dup2_result_run ext st t old new flags res :
  inv ext st t -> dup2_result ext st t old new flags res ->
  exists st' t' r, res = Some (st', t', r) /\ call_ok ext st t st' t'.
Proof.
  intros Hinv. unfold dup2_result. pose proof (call_ok_refl ext st t Hinv).
  repeat case_match; first [intros ->; eauto | intros (st' & t' & -> & ? & _); eauto].
Qed.

Lemma fd_run_ok ev st t :
  limits_ok rlim_cur maxfiles -> inv (fun _ => 0) st t -> all_mature st -> fd_event_ok ev st ->
  exists st' t', fd_run ev st t = Some (st', t') /\ inv (fun _ => 0) st' t' /\ all_mature st'.
Proof.
  intros Hlim Hinv Hm Hok.
  assert (H61 : forall a : Z, 0 <= 2 ^ 61) by lia.
  assert (Hfin : forall st' t', call_ok (fun _ => 0) st t st' t' ->
    inv (fun _ => 0) st' t' /\ all_mature st') by (intros ? ? (? & _ & ?); eauto using all_mature_kept).
  destruct ev; cbn [fd_event_ok fd_run] in *.
  - destruct Hok as (Hne & Hrf & Hwf). unfold sys_pipe2.
    destruct (negb _); [cbn; by exists st, t|].
    destruct (dopipe_spec fo_close rlim_cur maxfiles Hlim (fun _ => 0) st t flags rf wf rpipe wpipe
      rerr werr uerr Hinv Hne Hrf Hwf) as (st' & t' & r & -> & Hi & _ & Hp).
    exists st', t'. split; [done|]. split; [done|]. by eapply pipe_mature.
  - destruct (sys_kqueue_spec fo_close rlim_cur maxfiles Hlim (fun _ => 0) st t fp kq Hinv Hok)
      as (st' & t' & r & -> & Hi & _ & _ & _ & Hp).
    exists st', t'. split; [done|]. split; [done|]. destruct r as [d|error]; cbn in Hp.
    + destruct Hp as (_ & _ & _ & _ & Hf). by eapply all_mature_insert.
    + by destruct Hp as (_ & -> & _).
  - destruct (dup_result_ok (fun _ => 0) st t fd 0 Hlim Hinv (H61) Hok) as (st' & t' & r & Heq & Hc & _);
      [lia|]. unfold sys_dup. rewrite Heq. exists st', t'. eauto.
  - destruct Hok as [Hfd Hn].
    pose proof (fcntl_dupfd_ok (fun _ => 0) st t fd newmin cloexec Hlim Hinv H61 Hfd Hn) as Hr.
    unfold dupfd_result in Hr. destruct (_ && _).
    + destruct Hr as (st' & -> & Hc & _). exists st', t. eauto.
    + destruct Hr as (st' & t' & r & -> & Hc & _). exists st', t'. eauto.
  - destruct Hok as [Hf Ht]. unfold sys_dup2.
    destruct (dup2_result_run _ _ _ _ _ _ _ Hinv
      (dodup3_ok (fun _ => 0) st t from to 0 Hlim Hinv H61 Hf Ht)) as (st' & t' & r & -> & Hc).
    exists st', t'. eauto.
  - destruct Hok as [Hf Ht]. unfold sys_dup3. destruct (from =? to); [by exists st, t|].
    destruct (negb _); [by exists st, t|].
    destruct (dup2_result_run _ _ _ _ _ _ _ Hinv
      (dodup3_ok (fun _ => 0) st t from to flags Hlim Hinv H61 Hf Ht)) as (st' & t' & r & -> & Hc).
    exists st', t'. eauto.
  - destruct (fcntl_setfd_ok (fun _ => 0) st t fd arg Hinv Hok) as (t' & r & -> & Hi & _).
    by exists st, t'.
  - pose proof (sys_close_ok (fun _ => 0) st t fd Hinv Hok) as Hr. unfold close_result in Hr.
    destruct (usable_at st t fd).
    + destruct Hr as (st' & t' & er & -> & Hc & _). exists st', t'. eauto.
    + rewrite Hr. by exists st, t.
  - destruct (sys_closefrom_ok (fun _ => 0) st t fd Hinv Hok) as (st' & t' & er & -> & Hc & _).
    exists st', t'. eauto.
  - destruct (fdcloseexec_ok (fun _ => 0) st t Hinv) as (st' & t' & -> & Hc & _). exists st', t'. eauto.
Qed.

Lemma fd_run_all_ok evs st t :
  limits_ok rlim_cur maxfiles -> inv (fun _ => 0) st t -> all_mature st -> fd_valid evs st t ->
  exists st' t', fd_run_all evs st t = Some (st', t') /\ inv (fun _ => 0) st' t' /\ all_mature st'.
Proof.
  intros Hlim. revert st t. induction evs as [|ev evs IH]; intros st t Hinv Hm Hv; [by exists st, t|].
  destruct Hv as [Hok Hv]. destruct (fd_run_ok ev st t Hlim Hinv Hm Hok) as (st1 & t1 & Heq & Hi & Hm1).
  rewrite Heq in Hv. cbn [fd_run_all]. rewrite Heq. cbn [mbind option_bind]. by apply IH.
Qed.

(** ** The properties *)

(** C19: with [maxfiles] up to 12800, from a new table on, no sequence of pipe2, kqueue,
    dup, F_DUPFD, dup2, dup3, F_SETFD, close, closefrom and close on exec panics,
    leaves an array or follows a stale pointer, and each leaves a well-formed table:
    the two maps and the entries agree, [fd_freefile] and [fd_lastfile] bound the
    free and the open descriptors, and getdtablecount is the number of open
    descriptors.  Every descriptor refers to a file that exists and is complete; the
    count of a file is the number of descriptors that refer to it, never 0, so no
    file is leaked or freed early, and [nfiles] is the number of files.  (Opening
    /dev/fd is not among the calls: see [dupfdopen_counts_twice].  A table of 25600
    descriptors is excluded by the limit: see [find_next_zero_overruns].) *)
Theorem descriptors_well_formed self evs :
  limits_ok rlim_cur maxfiles -> fd_valid evs no_files (fdinit self) ->
  exists st t, fd_run_all evs no_files (fdinit self) = Some (st, t) /\
    tbl_ok t None /\
    sys_getdtablecount t = countb (is_open t) (Z.to_nat (fd_nfiles t)) /\
    (forall fd a, file_at t fd = Some a -> usable_at st t fd = Some a) /\
    (forall a f, files st !! a = Some f -> f_count f = refs t a /\ 0 < f_count f) /\
    nfiles st = Z.of_nat (size (files st)).
Proof.
  intros Hlim Hv.
  destruct (fd_run_all_ok evs no_files (fdinit self) Hlim (fdinit_inv self)) as
    (st & t & -> & [Ht Hc Hs] & Hm); [done|done|].
  exists st, t. split; [done|]. split; [done|]. split; [|split; [|split]].
  - unfold sys_getdtablecount. rewrite (tk_openfd _ _ Ht). apply countb_ext. intros j Hj.
    rewrite used_file_at, is_open_file_at by (done || lia). done.
  - intros fd a Ha. destruct (inv_file _ st t fd a Hc Ht Ha) as (_ & f & Hf & _).
    unfold usable_at. rewrite Ha. cbn. rewrite Hf. cbn. by rewrite (Hm a f Hf).
  - intros a f Hf. by apply Hc.
  - apply Hc.
Qed.

(** C20: in a well-formed table of less than 25600 entries the search for a free
    descriptor in the two levels of bit maps gives
    what a scan of all descriptors gives: the first free one from [want] on that
    lies in the table and below the limit, which is then reserved and its flags
    are cleared; or, if there is none, EMFILE when the table has reached the limit
    and ENOSPC when it can still grow, and the table is as it was.  Two rounds are
    enough.  (For larger tables see [find_next_zero_overruns].) *)
Theorem fdalloc_equiv_scan t want :
  tbl_ok t None -> fd_nfiles t < 25600 -> 0 <= want -> 0 <= lim rlim_cur maxfiles ->
  match scan t want (Z.min (fd_nfiles t) (lim rlim_cur maxfiles)) with
  | Some d => exists t', fdalloc rlim_cur maxfiles t want = Some (t', inl d) /\ reserved t d t'
  | None => fdalloc rlim_cur maxfiles t want =
      Some (t, inr (if lim rlim_cur maxfiles <=? fd_nfiles t then EMFILE else ENOSPC))
  end.
Proof.
  intros Ht Hn Hw Hl. change (Z.min _ _) with (alloc_last rlim_cur maxfiles t).
  destruct (fdalloc_spec rlim_cur maxfiles t want Ht Hn Hw Hl) as [(d & t' & -> & Hd & Hlt & Hr)|[Hall ->]].
  - rewrite (proj2 (scan_Some t want _ d)) by done. by exists t'.
  - by rewrite (proj2 (scan_None t want _)).
Qed.

(** Dup and fcntl([F_DUPFD]), close-on-exec or not.  A descriptor that is
    not open, or whose file is not complete, gives EBADF; for fcntl a minimum
    that is no descriptor gives EINVAL.  Otherwise the duplicate is the lowest
    descriptor (from the minimum on) that is not open, however far the table has
    to grow, and shares the file; its flags are those of the old one except
    close-on-exec; all other descriptors are as they were.  EMFILE is returned
    only when all descriptors below the limit are open. *)
Theorem dup_lowest ext st t fd newmin cloexec :
  limits_ok rlim_cur maxfiles -> inv ext st t -> (forall a, ext a <= 2 ^ 61) -> is_int fd ->
  is_int newmin ->
  dup_result ext st t fd 0 false (sys_dup fo_close rlim_cur maxfiles st t fd) /\
  dupfd_result ext st t fd newmin cloexec
    (fcntl_dupfd fo_close rlim_cur maxfiles st t fd newmin cloexec).
Proof.
  intros. split; [by apply dup_result_ok|by apply fcntl_dupfd_ok].
Qed.

(** Dup2 makes the new descriptor refer to the file of the old one, whatever
    it referred to before and however far the table has to grow, and changes no
    other; EBADF is returned for an old descriptor that is not open and for a new
    one beyond the limit, and equal descriptors are left alone.  dup3 is the same
    with close-on-exec on request, except that equal descriptors and other flags
    are EINVAL. *)
Theorem dup2_replaces ext st t from to flags :
  limits_ok rlim_cur maxfiles -> inv ext st t -> (forall a, ext a <= 2 ^ 61) -> is_int from -> is_int to ->
  dup2_result ext st t from to 0 (sys_dup2 fo_close rlim_cur maxfiles st t from to) /\
  (if bool_decide (from = to \/ clear flags O_CLOEXEC <> 0)
   then sys_dup3 fo_close rlim_cur maxfiles st t from to flags = Some (st, t, inr EINVAL)
   else dup2_result ext st t from to flags (sys_dup3 fo_close rlim_cur maxfiles st t from to flags)).
Proof.
  intros Hlim Hinv Hext Hf Ht. split; [by apply dodup3_ok|]. unfold sys_dup3.
  destruct (from =? to) eqn:E1, (clear flags O_CLOEXEC =? 0) eqn:E2; zify_bool;
    first [rewrite bool_decide_true by tauto; done
          |rewrite bool_decide_false by tauto; by apply dodup3_ok].
Qed.

(** Close, closefrom and exec close the descriptors they should and no
    other: the one given, if its file is complete; all from the given one on; all
    that have the close-on-exec flag.  The references are dropped: the invariant
    holds after each. *)
Theorem close_exact ext st t fd :
  inv ext st t -> is_int fd ->
  close_result ext st t fd (sys_close fo_close st t fd) /\
  (exists st' t' error, sys_closefrom fo_close st t fd = Some (st', t', error) /\
     call_ok ext st t st' t' /\
     if bool_decide (0 <= fd <= fd_lastfile t)
     then error = 0 /\ forall j, file_at t' j = if fd <=? j then None else file_at t j
     else error = EBADF /\ st' = st /\ t' = t) /\
  (exists st' t', fdcloseexec fo_close st t = Some (st', t') /\ call_ok ext st t st' t' /\
     forall j, 0 <= j -> file_at t' j = if has (flag_at t j) UF_EXCLOSE then None else file_at t j).
Proof.
  intros Hinv Hfd. split; [by apply sys_close_ok|]. split; [by apply sys_closefrom_ok|].
  by apply fdcloseexec_ok.
Qed.

(** C21: with [maxfiles] up to 12800, pipe returns the two lowest free descriptors, with
    new files that are ready for use and have one reference each, and the flags that
    were asked for; kqueue returns the lowest one.  On every error (of the pipes, of
    the descriptors or files that are used up, of the copy to the process) the
    descriptors are as before and no file is left behind.  (The limit keeps tables
    below 25600 entries, see [find_next_zero_overruns].) *)
Theorem pipe_all_or_nothing ext st t flags rf wf rpipe wpipe rerr werr uerr fp kq :
  limits_ok rlim_cur maxfiles -> inv ext st t -> rf <> wf ->
  files st !! rf = None -> files st !! wf = None -> files st !! fp = None ->
  (exists st' t' r,
     dopipe fo_close rlim_cur maxfiles st t flags rf wf rpipe wpipe rerr werr uerr = Some (st', t', r) /\
     inv ext st' t' /\ same_table t t' /\
     pipe_post rlim_cur maxfiles st t flags rf wf rpipe wpipe rerr werr uerr st' t' r) /\
  (exists st' t' r, sys_kqueue fo_close rlim_cur maxfiles st t fp kq = Some (st', t', r) /\
     inv ext st' t' /\ kqueue_post rlim_cur maxfiles st t fp kq st' t' r).
Proof.
  intros Hlim Hinv Hne Hrf Hwf Hfp. split; [by apply dopipe_spec|].
  destruct (sys_kqueue_spec fo_close rlim_cur maxfiles Hlim ext st t fp kq Hinv Hfp)
    as (st' & t' & r & -> & Hi & _ & _ & _ & Hp). by exists st', t', r.
Qed.

(** The copy of a table on fork has the descriptors of the parent, with
    their flags, except those of event queues and of system call tracing; the
    files of both tables are counted for both, and the parent's table is not
    touched.  When the child goes, its table gives back exactly what it took: the
    files and their counts are those from before the fork. *)
Theorem fork_exit_roundtrip ext st t self :
  inv ext st t -> (forall a, ext a <= 2 ^ 61) ->
  exists st1 t1, fdcopy st t self = Some (st1, t1) /\
    (forall j, file_at t1 j = inherited st t j) /\
    (forall j, 0 <= j < fd_nfiles t1 -> flag_at t1 j = flag_at t j) /\
    inv (fun a => ext a + refs t a) st1 t1 /\ inv (fun a => ext a + refs t1 a) st1 t /\
    exists st2, fdfree fo_close st1 t1 = Some (st2, None) /\ inv ext st2 t /\
      files st2 = files st /\ nfiles st2 = nfiles st.
Proof.
  intros Hinv Hext. pose proof Hinv as [Ht Hc Hs].
  destruct (fdcopy_spec ext st t self Hinv Hext)
    as (st1 & t1 & -> & Hi1 & Hi1' & Hsf & Hat & Hfl & _ & Hr & _).
  exists st1, t1. split; [done|]. split; [done|]. split; [done|]. split; [done|]. split; [done|].
  destruct (fdfree_spec fo_close _ st1 t1 Hi1 Hr) as (st2 & -> & Hk & H1 & H2 & H3).
  exists st2. split; [done|].
  assert (Hc2 : counted ext st2 t) by (split; [apply Hc|done]).
  split; [by split|]. apply (counted_unique ext st st2 t t); [done|done|done|].
  eapply attr_kept_trans; [by apply same_files_attr|done].
Qed.

End spec.

(** ** Concrete runs *)

Definition close_ok (a : Z) : Z := 0.

(** A pipe, an event queue, a duplicate of the pipe's first end, close-on-exec
    for the second, a duplicate from 40 on for which the table grows, a
    replacement of descriptor 4, and an error on the way. *)
Definition demo : list fd_event :=
  [EvPipe 0 1000 1001 2000 2001 0 0 0; EvKqueue 1002 2002; EvDup 0; EvSetfd 1 1;
   EvPipe 0 1003 1004 2003 2004 0 0 14; EvDupfd 1 40 true; EvDup2 1 3; EvClose 7].

Definition demo_state : store * filedesc :=
  match fd_run_all close_ok 128 1024 demo no_files (fdinit 3000) with
  | Some s => s
  | None => (no_files, fdinit 3000)
  end.

Lemma demo_limits : limits_ok 128 1024.
Proof. unfold limits_ok. lia. Qed.

Lemma demo_valid : fd_valid close_ok 128 1024 demo no_files (fdinit 3000).
Proof. by_decide. Qed.

Lemma demo_inv : inv (fun _ => 0) (fst demo_state) (snd demo_state).
Proof.
  destruct (fd_run_all_ok close_ok 128 1024 demo no_files (fdinit 3000) demo_limits (fdinit_inv 3000))
    as (st & t & Heq & Hi & _); [by intros ? ?|exact demo_valid|].
  unfold demo_state. by rewrite Heq.
Qed.

Example demo_entries :
  file_at (snd demo_state) <$> [0; 1; 2; 3; 4; 40] =
    [Some 1000; Some 1001; Some 1002; Some 1001; None; Some 1001] /\
  fd_nfiles (snd demo_state) = 50 /\ sys_getdtablecount (snd demo_state) = 5 /\
  f_count <$> files (fst demo_state) !! 1001 = Some 3.
Proof. vm_compute. done. Qed.

Lemma descriptors_well_formed_witness :
  exists st t, fd_run_all close_ok 128 1024 demo no_files (fdinit 3000) = Some (st, t) /\
    sys_getdtablecount t = countb (is_open t) (Z.to_nat (fd_nfiles t)).
Proof.
  destruct (descriptors_well_formed close_ok 128 1024 3000 demo demo_limits demo_valid)
    as (st & t & Heq & _ & Hn & _). exists st, t. exact (conj Heq Hn).
Defined.

Lemma fdalloc_equiv_scan_witness :
  scan (snd demo_state) 1 50 = Some 4 /\
  exists t', fdalloc 128 1024 (snd demo_state) 1 = Some (t', inl 4) /\ reserved (snd demo_state) 4 t'.
Proof.
  assert (Hsc : scan (snd demo_state) 1 50 = Some 4) by (vm_compute; reflexivity).
  assert (Hmin : Z.min (fd_nfiles (snd demo_state)) (lim 128 1024) = 50) by (vm_compute; reflexivity).
  split; [exact Hsc|].
  pose proof (fdalloc_equiv_scan 128 1024 (snd demo_state) 1 (inv_table _ _ _ demo_inv)
    ltac:(by_decide) ltac:(lia) ltac:(by_decide)) as H.
  rewrite Hmin, Hsc in H. exact H.
Defined.

Lemma dup_lowest_witness :
  dup_result 128 (fun _ => 0) (fst demo_state) (snd demo_state) 1 0 false
    (sys_dup close_ok 128 1024 (fst demo_state) (snd demo_state) 1).
Proof.
  exact (proj1 (dup_lowest close_ok 128 1024 (fun _ => 0) (fst demo_state) (snd demo_state) 1 0 false
    demo_limits demo_inv ltac:(lia) ltac:(by_decide) ltac:(by_decide))).
Defined.

(** The table grows from 50 entries to 100. *)
Lemma dup2_replaces_witness :
  exists st' t', sys_dup2 close_ok 128 1024 (fst demo_state) (snd demo_state) 1 70 =
      Some (st', t', inl 70) /\ file_at t' 70 = Some 1001.
Proof.
  destruct (dup2_replaces close_ok 128 1024 (fun _ => 0) (fst demo_state) (snd demo_state) 1 70 0
    demo_limits demo_inv ltac:(lia) ltac:(by_decide) ltac:(by_decide)) as [H _].
  unfold dup2_result in H.
  replace (usable_at (fst demo_state) (snd demo_state) 1) with (Some 1001) in H
    by (vm_compute; reflexivity).
  rewrite !bool_decide_false in H by lia. destruct H as (st' & t' & Heq & _ & Hat & _).
  exists st', t'. split; [exact Heq|]. rewrite Hat. reflexivity.
Defined.

Lemma close_exact_witness :
  exists st' t' error, sys_close close_ok (fst demo_state) (snd demo_state) 3 = Some (st', t', error) /\
    file_at t' 3 = None /\ file_at t' 1 = Some 1001.
Proof.
  destruct (close_exact close_ok (fun _ => 0) (fst demo_state) (snd demo_state) 3 demo_inv
    ltac:(by_decide)) as [H _].
  unfold close_result in H.
  replace (usable_at (fst demo_state) (snd demo_state) 3) with (Some 1001) in H
    by (vm_compute; reflexivity).
  destruct H as (st' & t' & er & Heq & _ & _ & Hat). exists st', t', er. split; [exact Heq|].
  rewrite !Hat. split; vm_compute; reflexivity.
Defined.

Lemma pipe_all_or_nothing_witness :
  exists st' t' r,
    dopipe close_ok 128 1024 (fst demo_state) (snd demo_state) O_CLOEXEC 1010 1011 2010 2011 0 0 0 =
      Some (st', t', r) /\
    inv (fun _ => 0) st' t' /\ same_table (snd demo_state) t' /\
    pipe_post 128 1024 (fst demo_state) (snd demo_state) O_CLOEXEC 1010 1011 2010 2011 0 0 0 st' t' r.
Proof.
  exact (proj1 (pipe_all_or_nothing close_ok 128 1024 (fun _ => 0) (fst demo_state) (snd demo_state)
    O_CLOEXEC 1010 1011 2010 2011 0 0 0 1012 2012 demo_limits demo_inv ltac:(lia)
    ltac:(by_decide) ltac:(by_decide) ltac:(by_decide))).
Defined.

(** The child has the pipe, not the event queue. *)
Lemma fork_exit_roundtrip_witness :
  exists st1 t1, fdcopy (fst demo_state) (snd demo_state) 3001 = Some (st1, t1) /\
    file_at t1 0 = Some 1000 /\ file_at t1 2 = None /\
    exists st2, fdfree close_ok st1 t1 = Some (st2, None) /\ files st2 = files (fst demo_state).
Proof.
  destruct (fork_exit_roundtrip close_ok (fun _ => 0) (fst demo_state) (snd demo_state) 3001 demo_inv
    ltac:(lia)) as (st1 & t1 & Heq & Hat & _ & _ & _ & st2 & Hfr & _ & Hf & _).
  exists st1, t1. split; [exact Heq|].
  rewrite !Hat. split; [vm_compute; reflexivity|]. split; [vm_compute; reflexivity|]. exists st2. split; [exact Hfr|exact Hf].
Defined.

(** ** What the code does at its edges *)

(** open of /dev/fd/0: [falloc] marks the new descriptor as used, and
    [dupfdopen] marks it again, so that it is counted twice. *)
Example dupfdopen_counts_twice :
  ('(st1, t1, r) ← falloc 128 1024 (fst demo_state) (snd demo_state) 1020;
   '(st2, t2, error) ← dupfdopen st1 t1 (DupProc 0 255 0) 4 0 FREAD;
   '(_, st3) ← closef close_ok st2 (Some 1020) (Some t2);
   Some (r, error, countb (is_open t2) (Z.to_nat (fd_nfiles t2)), sys_getdtablecount t2))
  = Some (inl 4, 0, 6, 7).
Proof. vm_compute. reflexivity. Qed.

(** A file with the greatest number of references: dup fails, and the descriptor
    that it reserved stays reserved. *)
Example dup_edeadlk_leaks :
  let f := File FREAD DTYPE_VNODE (LONG_MAX - 3) true 0 0 in
  let st := Store (<[1000 := f]> (files (fst demo_state))) 3 [] in
  ('(st', t', r) ← sys_dup close_ok 128 1024 st (snd demo_state) 0;
   Some (r, used t' 4, file_at t' 4, f_count <$> files st' !! 1000))
  = Some (inr EDEADLK, true, None, Some (LONG_MAX - 3)).
Proof. vm_compute. reflexivity. Qed.

(** A table of 25600 descriptors with all words of the low map full: the search
    reads beyond the 25 words of the high map. *)
Example find_next_zero_overruns :
  NDHISLOTS 25600 = 25 /\
  find_next_zero (replicate 25 full) 0 (Z.shiftr (25600 + NDENTRIES - 1) NDENTRYSHIFT) = None.
Proof. by vm_compute. Qed.

(** closefrom(0) succeeds when nothing is open, closefrom(1) does not. *)
Example closefrom_nothing :
  sys_closefrom close_ok no_files (fdinit 3000) 0 = Some (no_files, fdinit 3000, 0) /\
  sys_closefrom close_ok no_files (fdinit 3000) 1 = Some (no_files, fdinit 3000, EBADF).
Proof. by vm_compute. Qed.

End DescripSpec.
