(* ===== verification/Fcntl.v ===== *)
(** * Locks on descriptors (kern/kern_descrip.c)

    The calls that put byte range locks on open files: [F_SETLK], [F_SETLKW] and
    [F_GETLK] of [sys_fcntl] and [sys_flock], and the release of the locks when a
    descriptor is closed.  They join [Descrip] and [Lockf]: the locks of fcntl
    belong to the descriptor table of the process ([fd_self] is their [lf_id]),
    those of flock to the open file.

    [e] and [ls] are the locks of the vnode that the descriptor refers to.  A call
    that sleeps for a lock is cut there: [Waits] says that the process sleeps in
    [lf_setlock], and [fcntl_setlk_end] and [flock_end] are what follows when
    [lf_resume] has returned.  [VOP_ADVLOCK] is [lf_advlock] with the size of the
    file, as in [ufs_advlock].  The offset of the file, the results of [copyin]
    and [copyout] and the addresses of new locks are arguments. *)

From S2P Require Import Prelude Libkern Descrip DescripMaps DescripTable DescripProofs DescripCalls.
From S2P Require Import DescripLife DescripCopy DescripOpen DescripSpec Lockf LockfProofs LockfSpec.
Import Libkern Descrip DescripMaps DescripTable DescripProofs DescripCalls DescripLife.
Import DescripOpen DescripSpec.
Import Lockf LockfSpec.
#[local] Open Scope Z_scope.

Module Fcntl.

Definition LOCK_SH : Z := 0x01.
Definition LOCK_EX : Z := 0x02.
Definition LOCK_NB : Z := 0x04.
Definition LOCK_UN : Z := 0x08.
Definition FIF_HASLOCK : Z := 0x01.
Definition EOPNOTSUPP : Z := 45.

(** How far a call came: it returned, the lock code returned [error] and the
    check of the descriptor is next, or the process sleeps for a lock. *)
Inductive verdict : Type :=
| Finished (error : Z)
| Check (fp error : Z)
| Waits (fp : Z).

Definition state : Type := store * filedesc * env * list lockf.

Definition ok {A} (m : outcome A) : option A := match m with Ok a => Some a | Panic => None end.

(** The start of a request that is relative to the offset of the file. *)
Definition rel_start (f_offset : Z) (fl : flock) : flock :=
  if l_whence fl =? SEEK_CUR then
    if (l_start fl =? 0) && (l_len fl <? 0) then
      let len := wraps 64 (- l_len fl) in
      Flock (wraps 64 (f_offset - len)) len (l_pid fl) (l_type fl) (l_whence fl)
    else Flock (wraps 64 (l_start fl + f_offset)) (l_len fl) (l_pid fl) (l_type fl) (l_whence fl)
  else fl.

Definition set_fd_flags (t : filedesc) (fl : Z) : filedesc :=
  Fdesc (fd_self t) (fd_ofiles t) (fd_ofileflags t) (fd_nfiles t) (fd_openfd t) (fd_himap t)
        (fd_lomap t) (fd_lastfile t) (fd_freefile t) (fd_refcnt t) (fd_knlistsize t) fl.

Definition set_iflags (f : file) (fl : Z) : file :=
  File (f_flag f) (f_type f) (f_count f) (f_ops f) (f_data f) fl.

(** The whole file. *)
Definition whole (type : Z) : flock := Flock 0 0 0 type SEEK_SET.

Section fcntl.
Variables (fo_close : Z -> Z) (wchan : Z -> option Z) (waits : Z -> Z * Z).

(** The label [out] of [sys_fcntl] and [sys_flock]. *)
Definition out (st : store) (t : filedesc) (e : env) (ls : list lockf) (fp error : Z)
  : option (state * verdict) :=
  '(_, st') ← FRELE fo_close st fp; Some ((st', t, e, ls), Finished error).

(** [F_SETLK] and, with [wait], [F_SETLKW], up to the return of [VOP_ADVLOCK] or
    its sleep; [cperr] is what [copyin] returns. *)
Definition fcntl_setlk (s : state) (size f_offset fd : Z) (wait : bool) (cperr : Z) (ufl : flock)
    (uid pid a sa : Z) : option (state * verdict) :=
  let '(st, t, e, ls) := s in
  g ← fd_getfile st t fd;
  match g with
  | None => Some (s, Finished EBADF)
  | Some fp =>
      st1 ← FREF st fp;
      f ← files st1 !! fp;
      if negb (f_type f =? DTYPE_VNODE) then out st1 t e ls fp EBADF
      else if negb (cperr =? 0) then out st1 t e ls fp cperr
      else
        let fl := rel_start f_offset ufl in
        let flg := if wait then F_POSIX .| F_WAIT else F_POSIX in
        if (l_type fl =? F_RDLCK) || (l_type fl =? F_WRLCK) then
          if negb (has (f_flag f) (if l_type fl =? F_RDLCK then FREAD else FWRITE))
          then out st1 t e ls fp EBADF
          else
            let t1 := set_fd_flags t (fd_flags t .| FD_ADVLOCK) in
            '(r, _, e1, ls1) ←
              ok (lf_advlock wchan waits e ls size (fd_self t) F_SETLK fl flg uid pid a sa);
            Some ((st1, t1, e1, ls1), match r with Return error => Check fp error | Sleeps => Waits fp end)
        else if l_type fl =? F_UNLCK then
          '(r, _, e1, ls1) ←
            ok (lf_advlock wchan waits e ls size (fd_self t) F_UNLCK fl F_POSIX uid pid a sa);
          match r with Return error => out st1 t e1 ls1 fp error | Sleeps => None end
        else out st1 t e ls fp EINVAL
  end.


(** [F_GETLK]; the lock description is for [copyout], which returns [cperr2]. *)
Definition fcntl_getlk (s : state) (size f_offset fd cperr cperr2 : Z) (ufl : flock)
    (uid pid a sa : Z) : option (state * verdict * option flock) :=
  let '(st, t, e, ls) := s in
  g ← fd_getfile st t fd;
  match g with
  | None => Some (s, Finished EBADF, None)
  | Some fp =>
      st1 ← FREF st fp;
      f ← files st1 !! fp;
      let fail error := r ← out st1 t e ls fp error; Some (r, None) in
      if negb (f_type f =? DTYPE_VNODE) then fail EBADF
      else if negb (cperr =? 0) then fail cperr
      else
        let fl := rel_start f_offset ufl in
        if negb (l_type fl =? F_RDLCK) && negb (l_type fl =? F_WRLCK) &&
           negb (l_type fl =? F_UNLCK) && negb (l_type fl =? 0) then fail EINVAL
        else
          '(r, fl', e1, ls1) ←
            ok (lf_advlock wchan waits e ls size (fd_self t) F_GETLK fl F_POSIX uid pid a sa);
          match r with
          | Sleeps => None
          | Return error =>
              if negb (error =? 0) then r ← out st1 t e1 ls1 fp error; Some (r, None)
              else r ← out st1 t e1 ls1 fp cperr2; Some (r, if cperr2 =? 0 then Some fl' else None)
          end
  end.

Definition set_haslock (st : store) (fp : Z) (b : bool) : option store :=
  f ← files st !! fp;
  Some (set_files st (<[fp := set_iflags f (if b then f_iflags f .| FIF_HASLOCK
                                            else clear (f_iflags f) FIF_HASLOCK)]> (files st))).

(** flock; the locks belong to the file. *)
Definition sys_flock (s : state) (size fd how uid pid a sa : Z) : option (state * verdict) :=
  let '(st, t, e, ls) := s in
  g ← fd_getfile st t fd;
  match g with
  | None => Some (s, Finished EBADF)
  | Some fp =>
      f ← files st !! fp;
      if negb (f_type f =? DTYPE_VNODE) then Some (s, Finished EOPNOTSUPP)
      else
        st1 ← FREF st fp;
        if has how LOCK_UN then
          st2 ← set_haslock st1 fp false;
          '(r, _, e1, ls1) ←
            ok (lf_advlock wchan waits e ls size fp F_UNLCK (whole F_UNLCK) F_FLOCK uid pid a sa);
          match r with Return error => out st2 t e1 ls1 fp error | Sleeps => None end
        else if has how LOCK_EX || has how LOCK_SH then
          let type := if has how LOCK_EX then F_WRLCK else F_RDLCK in
          st2 ← set_haslock st1 fp true;
          '(r, _, e1, ls1) ←
            ok (lf_advlock wchan waits e ls size fp F_SETLK (whole type)
                  (if has how LOCK_NB then F_FLOCK else F_FLOCK .| F_WAIT) uid pid a sa);
          match r with
          | Return error => out st2 t e1 ls1 fp error
          | Sleeps => Some ((st2, t, e1, ls1), Waits fp)
          end
        else out st1 t e ls fp EINVAL
  end.

(** flock, when the lock code returned after a sleep. *)
Definition flock_end (s : state) (fp error : Z) : option (state * verdict) :=
  let '(st, t, e, ls) := s in out st t e ls fp error.

(** The call of [VOP_ADVLOCK] in [closef], [Unlock vp id] of the log of
    [Descrip]. *)
Definition closef_unlock (e : env) (ls : list lockf) (size id uid pid a sa : Z)
  : option (env * list lockf) :=
  '(_, _, e1, ls1) ← ok (lf_advlock wchan waits e ls size id F_UNLCK (whole F_UNLCK) F_POSIX uid pid a sa);
  Some (e1, ls1).

(** ** Their parts *)

Lemma set_fd_flags_inv ext st t fl : inv ext st t -> inv ext st (set_fd_flags t fl).
Proof. intros [Ht Hc Hs]. split; [by destruct Ht|done|done]. Qed.

Lemma whole_request_ok size type : 0 <= size < 2 ^ 63 -> request_ok size (whole type).
Proof. intros. unfold request_ok, offset, whole. cbn. lia. Qed.


(** A reference to the file of a descriptor, for the time of a call. *)
Lemma hold_file ext st t fd fp :
  inv ext st t -> usable_at st t fd = Some fp ->
  exists st1 f, FREF st fp = Some st1 /\ inv (plus ext fp) st1 t /\ attr_kept st st1 /\
    files st !! fp = Some f /\ files st1 !! fp = Some (set_count f (f_count f + 1)).
Proof.
  intros [Ht Hc Hs] Hu. pose proof (usable_at_file_at _ _ _ _ Hu) as Hat.
  destruct (inv_file ext st t fd fp Hc Ht Hat) as (Hr & _).
  destruct (FREF_spec ext st t fp Hc) as (st1 & -> & Hc1 & Hk & f & Hf & Hf1);
    [pose proof (proj1 Hc fp); lia|].
  exists st1, f. split; [done|]. split; [by split|done].
Qed.

(** The reference is dropped at the end. *)
Lemma out_spec ext st t e ls fp error :
  inv (plus ext fp) st t -> (forall b, 0 <= ext b) ->
  exists st', out st t e ls fp error = Some ((st', t, e, ls), Finished error) /\
    inv ext st' t /\ attr_kept st st'.
Proof.
  intros [Ht Hc Hs] Hp. unfold out.
  destruct (FRELE_counted fo_close ext st t fp Hc Hp) as (er & st' & -> & Hc' & Hk).
  exists st'. split; [done|]. by split.
Qed.

(** Both together leave the files as they were. *)
Lemma out_back ext st t e ls st1 fp error :
  inv ext st t -> inv (plus ext fp) st1 t -> attr_kept st st1 ->
  exists st', out st1 t e ls fp error = Some ((st', t, e, ls), Finished error) /\
    inv ext st' t /\ files st' = files st.
Proof.
  intros Hinv Hinv1 Hk. pose proof (inv_counted _ _ _ Hinv) as Hc.
  destruct (out_spec ext st1 t e ls fp error Hinv1 (proj1 Hc)) as (st' & -> & Hi & Hk').
  exists st'. split; [done|]. split; [done|].
  apply (counted_unique ext st st' t t); [done|apply Hi|done|by eapply attr_kept_trans].
Qed.

(** Unlocking does not sleep. *)
Lemma unlck_returns e ls size id fl flags uid pid a r ls' :
  unlck_post e ls size id fl flags uid pid a r ls' -> exists error, r = Return error.
Proof.
  unfold unlck_post. destruct (range_of size fl) as [[start end_]|].
  - intros [(_ & _ & -> & _)|[-> _]]; by eexists.
  - intros [-> _]. by eexists.
Qed.

(** A call that does nothing. *)
Definition refused (ext : Z -> Z) (s s' : state) (error : Z) (v : verdict) : Prop :=
  let '(st, t, e, ls) := s in
  v = Finished error /\ exists st', s' = (st', t, e, ls) /\ inv ext st' t /\ files st' = files st.

(** What [F_SETLK] does on each of its branches. *)
Definition setlk_result (ext other : Z -> Z) (s : state) (size f_offset fd : Z) (wait : bool)
    (cperr : Z) (ufl : flock) (uid pid a : Z) (s' : state) (v : verdict) : Prop :=
  let '(st, t, e, ls) := s in
  let fl := rel_start f_offset ufl in
  match usable_at st t fd with
  | None => v = Finished EBADF /\ s' = s
  | Some fp =>
      exists f, files st !! fp = Some f /\
        if negb (f_type f =? DTYPE_VNODE) then refused ext s s' EBADF v
        else if negb (cperr =? 0) then refused ext s s' cperr v
        else if negb (bool_decide (l_type fl ∈ [F_RDLCK; F_WRLCK; F_UNLCK]))
        then refused ext s s' EINVAL v
        else if ((l_type fl =? F_RDLCK) && negb (has (f_flag f) FREAD)) ||
                ((l_type fl =? F_WRLCK) && negb (has (f_flag f) FWRITE))
        then refused ext s s' EBADF v
        else exists st' t' e' ls' r, s' = (st', t', e', ls') /\ LockfProofs.inv other e' ls' /\
          if l_type fl =? F_UNLCK
          then v = Finished r /\ t' = t /\ inv ext st' t /\ files st' = files st /\
               unlck_post e ls size (fd_self t) fl F_POSIX uid pid a (Return r) ls'
          else t' = set_fd_flags t (fd_flags t .| FD_ADVLOCK) /\ inv (plus ext fp) st' t' /\
               attr_kept st st' /\
               exists res, setlk_post e ls size (fd_self t) fl
                   (if wait then F_POSIX .| F_WAIT else F_POSIX) uid pid a res e' ls' /\
                 match res with
                 | Return error => v = Check fp error
                 | Sleeps => v = Waits fp
                 end
  end.

Lemma fcntl_setlk_ok ext other st t e ls size f_offset fd wait cperr ufl uid pid a sa :
  inv ext st t -> LockfProofs.inv other e ls -> is_int fd ->
  request_ok size (rel_start f_offset ufl) -> fresh e ls a -> fresh e ls sa -> a <> sa ->
  exists s' v,
    fcntl_setlk (st, t, e, ls) size f_offset fd wait cperr ufl uid pid a sa =
      Some (s', v) /\
    setlk_result ext other (st, t, e, ls) size f_offset fd wait cperr ufl uid pid a s' v.
Proof.
  intros Hinv Hl Hfd Hreq Ha Hsa Hne. unfold fcntl_setlk, setlk_result.
  rewrite (fd_getfile_spec ext) by done. cbn [mbind option_bind].
  destruct (usable_at st t fd) as [fp|] eqn:Hu; [|by eauto].
  destruct (hold_file ext st t fd fp Hinv Hu) as (st1 & f & -> & Hi1 & Hk1 & Hf & Hf1).
  cbn [mbind option_bind]. rewrite Hf1. cbn [mbind option_bind].
  assert (Href : forall error, exists s' v, out st1 t e ls fp error = Some (s', v) /\
    refused ext (st, t, e, ls) s' error v).
  { intros error. destruct (out_back ext st t e ls st1 fp error Hinv Hi1 Hk1) as (st' & -> & Hi & Hfs).
    eexists _, _. split; [done|]. split; [done|]. by exists st'. }
  assert (Hex : forall (m : option (state * verdict)) (P : state -> verdict -> file -> Prop),
    (exists s' v, m = Some (s', v) /\ P s' v f) ->
    exists s' v, m = Some (s', v) /\ exists g, Some f = Some g /\ P s' v g) by naive_solver.
  rewrite Hf. apply (Hex _ (fun s' v f => _)). clear Hex. cbn [f_type set_count f_flag].
  destruct (f_type f =? DTYPE_VNODE); cbn [negb]; [|by apply Href].
  destruct (cperr =? 0); cbn [negb]; [|by apply Href].
  set (fl := rel_start f_offset ufl) in *.
  destruct (bool_decide (l_type fl ∈ [F_RDLCK; F_WRLCK; F_UNLCK])) eqn:Hty; cbn [negb].
  2: { apply bool_decide_eq_false in Hty.
       assert (l_type fl <> F_RDLCK /\ l_type fl <> F_WRLCK /\ l_type fl <> F_UNLCK) as (H1 & H2 & H3)
         by set_solver.
       rewrite !(proj2 (Z.eqb_neq _ _)) by done. cbn [orb]. apply Href. }
  apply bool_decide_eq_true in Hty.
  destruct (l_type fl =? F_UNLCK) eqn:Hun; zify_bool.
  - rewrite Hun. cbn [Z.eqb F_UNLCK F_RDLCK F_WRLCK Pos.eqb orb andb].
    destruct (lf_unlck_correct other wchan waits e ls size (fd_self t) fl F_POSIX uid pid a sa)
      as (r & fl' & e' & ls' & Heq & Hl' & Hp); try done. rewrite Heq. cbn [ok mbind option_bind].
    destruct (unlck_returns _ _ _ _ _ _ _ _ _ _ _ Hp) as [error ->].
    destruct (out_back ext st t e' ls' st1 fp error Hinv Hi1 Hk1) as (st' & -> & Hi & Hfs).
    eexists _, _. split; [done|]. by exists st', t, e', ls', error.
  - destruct (((l_type fl =? F_RDLCK) && negb (has (f_flag f) FREAD)) ||
      ((l_type fl =? F_WRLCK) && negb (has (f_flag f) FWRITE))) eqn:Hmode.
    + replace ((l_type fl =? F_RDLCK) || (l_type fl =? F_WRLCK)) with true.
      2: { symmetry. apply orb_true_iff in Hmode as [Hm|Hm]; apply andb_true_iff in Hm as [-> _];
           [done|apply orb_true_r]. }
      replace (negb (has (f_flag f) (if l_type fl =? F_RDLCK then FREAD else FWRITE))) with true;
        [apply Href|].
      symmetry. destruct (l_type fl =? F_RDLCK) eqn:E1, (l_type fl =? F_WRLCK) eqn:E2;
        cbn in Hmode; rewrite ?orb_false_r in Hmode; try done.
      apply Z.eqb_eq in E1. by rewrite E1 in E2.
    + replace ((l_type fl =? F_RDLCK) || (l_type fl =? F_WRLCK)) with true.
      2: { symmetry. apply orb_true_iff. rewrite !Z.eqb_eq. set_solver. }
      replace (negb (has (f_flag f) (if l_type fl =? F_RDLCK then FREAD else FWRITE))) with false.
      2: { symmetry. destruct (l_type fl =? F_RDLCK) eqn:E1, (l_type fl =? F_WRLCK) eqn:E2;
             cbn in Hmode; rewrite ?orb_false_r in Hmode; try done.
           - apply Z.eqb_eq in E1. by rewrite E1 in E2.
           - zify_bool. set_solver. }
      destruct (lf_setlk_correct other wchan waits e ls size (fd_self t) fl
        (if wait then F_POSIX .| F_WAIT else F_POSIX) uid pid a sa)
        as (r & fl' & e' & ls' & -> & Hl' & Hp); try done; [set_solver|]. cbn [ok mbind option_bind].
      eexists _, _. split; [done|]. eexists _, _, _, _, 0. split; [done|]. split; [done|].
      split; [done|]. split; [by apply set_fd_flags_inv|]. split; [done|]. exists r.
      split; [done|]. by destruct r.
Qed.



(** [F_GETLK] changes nothing. *)
Lemma fcntl_getlk_ok ext other st t e ls size f_offset fd cperr cperr2 ufl uid pid a sa :
  inv ext st t -> LockfProofs.inv other e ls -> is_int fd ->
  request_ok size (rel_start f_offset ufl) -> fresh e ls a ->
  exists st' e' error res,
    fcntl_getlk (st, t, e, ls) size f_offset fd cperr cperr2 ufl uid pid a sa =
      Some ((st', t, e', ls), Finished error, res) /\
    inv ext st' t /\ LockfProofs.inv other e' ls /\ files st' = files st /\
    (forall fl', res = Some fl' -> error = 0 /\
       getlk_post e ls size (fd_self t) (rel_start f_offset ufl) F_POSIX uid pid a (Return 0) fl').
Proof.
  intros Hinv Hl Hfd Hreq Ha. unfold fcntl_getlk. rewrite (fd_getfile_spec ext) by done.
  cbn [mbind option_bind]. destruct (usable_at st t fd) as [fp|] eqn:Hu;
    [|by exists st, e, EBADF, None].
  destruct (hold_file ext st t fd fp Hinv Hu) as (st1 & f & -> & Hi1 & Hk1 & Hf & Hf1).
  cbn [mbind option_bind]. rewrite Hf1. cbn [mbind option_bind f_type set_count].
  assert (Href : forall e' error, LockfProofs.inv other e' ls -> exists st' e2 er res,
    (r ← out st1 t e' ls fp error; Some (r, None)) = Some ((st', t, e2, ls), Finished er, res) /\
    inv ext st' t /\ LockfProofs.inv other e2 ls /\ files st' = files st /\
    (forall fl', res = Some fl' -> er = 0 /\
       getlk_post e ls size (fd_self t) (rel_start f_offset ufl) F_POSIX uid pid a (Return 0) fl')).
  { intros e' error Hl'. destruct (out_back ext st t e' ls st1 fp error Hinv Hi1 Hk1) as (st' & -> & Hi & Hfs).
    by exists st', e', error, None. }
  destruct (negb (f_type f =? DTYPE_VNODE)); [by apply Href|].
  destruct (negb (cperr =? 0)); [by apply Href|].
  destruct (negb _ && _ && _ && _); [by apply Href|].
  destruct (lf_getlk_correct other wchan waits e ls size (fd_self t) (rel_start f_offset ufl) F_POSIX
    uid pid a sa Hl Hreq Ha) as (r & fl' & e' & -> & Hl' & Hp). cbn [ok mbind option_bind].
  assert (exists error, r = Return error) as [error ->].
  { unfold getlk_post in Hp. destruct (range_of size _) as [[start end_]|].
    - destruct Hp as [(_ & _ & -> & _)|[-> _]]; by eexists.
    - destruct Hp as [-> _]. by eexists. }
  destruct (error =? 0) eqn:E; zify_bool; cbn [negb]; [|by apply Href].
  subst error. destruct (out_back ext st t e' ls st1 fp cperr2 Hinv Hi1 Hk1) as (st' & -> & Hi & Hfs).
  cbn [mbind option_bind]. eexists _, _, _, _. split; [done|]. split; [done|]. split; [done|].
  split; [done|]. intros fl2. destruct (cperr2 =? 0) eqn:E2; zify_bool; [|done].
  intros [= <-]. done.
Qed.

Lemma set_haslock_ok ext st t fp f b :
  inv ext st t -> files st !! fp = Some f ->
  exists st', set_haslock st fp b = Some st' /\ inv ext st' t.
Proof.
  intros [Ht Hc Hs] Hf. unfold set_haslock. rewrite Hf. cbn [mbind option_bind]. eexists.
  split; [done|]. split; [done| |done]. by apply (counted_update ext st t fp f).
Qed.

(** What flock does on each of its branches: it takes, changes or drops one lock
    on the whole file that belongs to the open file, so that all descriptors of
    the file share it. *)
Definition flock_result (ext other : Z -> Z) (s : state) (size fd how uid pid a : Z) (s' : state)
    (v : verdict) : Prop :=
  let '(st, t, e, ls) := s in
  match usable_at st t fd with
  | None => v = Finished EBADF /\ s' = s
  | Some fp =>
      exists f, files st !! fp = Some f /\
        if negb (f_type f =? DTYPE_VNODE) then v = Finished EOPNOTSUPP /\ s' = s
        else exists st' e' ls', s' = (st', t, e', ls') /\ LockfProofs.inv other e' ls' /\
          if has how LOCK_UN then
            exists error, v = Finished error /\ inv ext st' t /\
              unlck_post e ls size fp (whole F_UNLCK) F_FLOCK uid pid a (Return error) ls'
          else if has how LOCK_EX || has how LOCK_SH then
            exists res, setlk_post e ls size fp (whole (if has how LOCK_EX then F_WRLCK else F_RDLCK))
                (if has how LOCK_NB then F_FLOCK else F_FLOCK .| F_WAIT) uid pid a res e' ls' /\
              match res with
              | Return error => v = Finished error /\ inv ext st' t
              | Sleeps => v = Waits fp /\ inv (plus ext fp) st' t
              end
          else v = Finished EINVAL /\ inv ext st' t /\ e' = e /\ ls' = ls
  end.

Lemma sys_flock_ok ext other st t e ls size fd how uid pid a sa :
  inv ext st t -> LockfProofs.inv other e ls -> is_int fd -> 0 <= size < 2 ^ 63 ->
  fresh e ls a -> fresh e ls sa -> a <> sa ->
  exists s' v, sys_flock (st, t, e, ls) size fd how uid pid a sa = Some (s', v) /\
    flock_result ext other (st, t, e, ls) size fd how uid pid a s' v.
Proof.
  intros Hinv Hl Hfd Hsize Ha Hsa Hne. unfold sys_flock, flock_result.
  rewrite (fd_getfile_spec ext) by done. cbn [mbind option_bind].
  destruct (usable_at st t fd) as [fp|] eqn:Hu; [|by eauto].
  destruct (hold_file ext st t fd fp Hinv Hu) as (st1 & f & Href & Hi1 & Hk1 & Hf & Hf1).
  pose proof (proj1 (inv_counted _ _ _ Hinv)) as Hp.
  rewrite Hf. cbn [mbind option_bind]. destruct (negb (f_type f =? DTYPE_VNODE)) eqn:Ety.
  { eexists _, _. split; [done|]. exists f. split; [done|]. by rewrite Ety. }
  rewrite Href. cbn [mbind option_bind]. destruct (has how LOCK_UN) eqn:Eun.
  - destruct (set_haslock_ok _ st1 t fp _ false Hi1 Hf1) as (st2 & -> & Hi2). cbn [mbind option_bind].
    destruct (lf_unlck_correct other wchan waits e ls size fp (whole F_UNLCK) F_FLOCK uid pid a sa
      Hl (whole_request_ok size F_UNLCK Hsize) Ha Hsa Hne) as (r & fl & e' & ls' & -> & Hl' & Hpost).
    cbn [ok mbind option_bind]. destruct (unlck_returns _ _ _ _ _ _ _ _ _ _ _ Hpost) as [error ->].
    destruct (out_spec ext st2 t e' ls' fp error Hi2 Hp) as (st' & -> & Hi & _).
    eexists _, _. split; [done|]. exists f. split; [done|]. rewrite Ety.
    exists st', e', ls'. split; [done|]. split; [done|]. by exists error.
  - destruct (has how LOCK_EX || has how LOCK_SH) eqn:Eex.
    + destruct (set_haslock_ok _ st1 t fp _ true Hi1 Hf1) as (st2 & -> & Hi2). cbn [mbind option_bind].
      destruct (lf_setlk_correct other wchan waits e ls size fp
        (whole (if has how LOCK_EX then F_WRLCK else F_RDLCK))
        (if has how LOCK_NB then F_FLOCK else F_FLOCK .| F_WAIT) uid pid a sa Hl
        (whole_request_ok size _ Hsize) ltac:(cbn; destruct (has how LOCK_EX); set_solver) Ha Hsa Hne)
        as (r & fl & e' & ls' & -> & Hl' & Hpost).
      cbn [ok mbind option_bind]. destruct r as [error|].
      * destruct (out_spec ext st2 t e' ls' fp error Hi2 Hp) as (st' & -> & Hi & _).
        eexists _, _. split; [done|]. exists f. split; [done|]. rewrite Ety.
        exists st', e', ls'. split; [done|]. split; [done|]. by exists (Return error).
      * eexists _, _. split; [done|]. exists f. split; [done|]. rewrite Ety.
        exists st2, e', ls'. split; [done|]. split; [done|]. by exists Sleeps.
    + destruct (out_spec ext st1 t e ls fp EINVAL Hi1 Hp) as (st' & -> & Hi & _).
      eexists _, _. split; [done|]. exists f. split; [done|]. rewrite Ety. by exists st', e, ls.
Qed.

(** ** The properties *)

(** Setting a lock with fcntl.  A descriptor that is not open, whose file
    is not a vnode, or that was not opened for reading (writing) when a shared
    (exclusive) lock is wanted gives EBADF, an unknown type EINVAL, a bad address
    its error, and in each of these cases nothing changes.  Unlocking is that of
    the lock code for the table of the process as the owner.  A lock is asked for
    after the table has been marked, so that a close will look for locks; the
    file is referenced while the call sleeps. *)
Theorem fcntl_setlk_spec ext other st t e ls size f_offset fd wait cperr ufl uid pid a sa :
  inv ext st t -> LockfSpec.reachable other e ls -> is_int fd ->
  request_ok size (rel_start f_offset ufl) -> fresh e ls a -> fresh e ls sa -> a <> sa ->
  exists s' v,
    fcntl_setlk (st, t, e, ls) size f_offset fd wait cperr ufl uid pid a sa = Some (s', v) /\
    setlk_result ext other (st, t, e, ls) size f_offset fd wait cperr ufl uid pid a s' v.
Proof. intros Hinv Hr%reachable_inv. by apply fcntl_setlk_ok. Qed.


End fcntl.

(** ** Concrete runs *)

(** Descriptor 0 of the table of [DescripSpec.demo] is a file that may be read
    and written, and the process holds bytes 0 to 9 of it. *)
Definition vnode_store : store :=
  default no_files (set_new (fst demo_state) 1000 (FREAD .| FWRITE) DTYPE_VNODE 5000).
Definition vnode_table : filedesc := set_fd_flags (snd demo_state) FD_ADVLOCK.

Lemma vnode_inv : inv (fun _ => 0) vnode_store vnode_table.
Proof.
  destruct (files (fst demo_state) !! 1000) as [f|] eqn:Hf.
  - destruct (set_new_spec (fun _ => 0) (fst demo_state) (snd demo_state) 1000 f (FREAD .| FWRITE)
      DTYPE_VNODE 5000 demo_inv Hf) as (st' & Heq & Hi & _).
    unfold vnode_store. rewrite Heq. by apply set_fd_flags_inv.
  - by vm_compute in Hf.
Qed.

Definition own_lock : list lf_event :=
  [Advlock 0 3000 F_SETLK (range 0 10 F_WRLCK) F_POSIX 7 1 1000 1001;
   Advlock 0 3001 F_SETLK (range 20 10 F_WRLCK) F_POSIX 7 2 1002 1003].

Definition own_state : env * list lockf :=
  match run_all own_lock empty_env [] with Ok s => s | Panic => (empty_env, []) end.

Lemma own_reachable : LockfSpec.reachable (fun _ => 0) (fst own_state) (snd own_state).
Proof.
  apply (reachable_run_all _ own_lock empty_env []); [by apply reach_init|done|].
  intros [|[|n]] ev e1 ls1 Hev Hrun; cbn in Hev; simplify_eq.
  - injection Hrun as <- <-. cbn [event_ok]. split_and!; by_decide || by (intros _; set_solver).
  - vm_compute in Hrun. injection Hrun as <- <-. cbn [event_ok].
    split_and!; by_decide || by (intros _; set_solver).
Qed.

(** A shared lock on the ten bytes before offset 40 of the file. *)
Lemma fcntl_setlk_spec_witness :
  exists s' v,
    fcntl_setlk close_ok no_chan no_wait (vnode_store, vnode_table, fst own_state, snd own_state)
      0 40 0 false 0 (Flock 0 (-10) 0 F_RDLCK SEEK_CUR) 7 1 1004 1005 = Some (s', v) /\
    setlk_result (fun _ => 0) (fun _ => 0) (vnode_store, vnode_table, fst own_state, snd own_state)
      0 40 0 false 0 (Flock 0 (-10) 0 F_RDLCK SEEK_CUR) 7 1 1004 s' v.
Proof.
  exact (fcntl_setlk_spec close_ok no_chan no_wait (fun _ => 0) (fun _ => 0) vnode_store vnode_table
    (fst own_state) (snd own_state) 0 40 0 false 0 (Flock 0 (-10) 0 F_RDLCK SEEK_CUR) 7 1 1004 1005
    vnode_inv own_reachable ltac:(by_decide) ltac:(by_decide) ltac:(by_decide) ltac:(by_decide)
    ltac:(lia)).
Defined.


(** ** What the code does at its edges *)

(** A user with more than twice as many locks as are allowed: splitting locks
    counts without a limit.  The unlock of a close then fails, which nobody looks
    at, and the lock stays although its owner is gone. *)
Example close_over_limit :
  let e := Env ∅ {[7 := 2049]} in
  let ls := [Lock 1000 F_POSIX F_WRLCK 0 9 3000 7 1 []] in
  closef_unlock no_chan no_wait e ls 0 3000 7 1 1004 1005 = Some (e, ls) /\
  LockfProofs.holds ls 3000 5 = Some F_WRLCK.
Proof. vm_compute. split; reflexivity. Qed.

End Fcntl.
