(* ===== verification/Ipc.v ===== *)
(** * Access checks and identifiers of System V IPC (kern/sysv_ipc.c)

    The permission check that semaphores, messages and shared memory share:
    [ipcperm], with the [vaccess] of kern/vfs_subr.c and the [groupmember] of
    kern/kern_prot.c that it calls, and the macros of sys/ipc.h that put the
    index of a slot and its sequence number into one identifier.

    The theorems show which class of permission bits decides an access, and
    that an identifier gives back the slot and the sequence number it was made
    of. *)

From S2P Require Import Prelude.

Module Ipc.

(** ** Constants *)

Definition EACCES : Z := 13.
Definition S_IRUSR : Z := 0x100.
Definition S_IWUSR : Z := 0x80.
Definition S_IXUSR : Z := 0x40.
Definition S_IRGRP : Z := 0x20.
Definition S_IWGRP : Z := 0x10.
Definition S_IXGRP : Z := 0x8.
Definition S_IROTH : Z := 0x4.
Definition S_IWOTH : Z := 0x2.
Definition S_IXOTH : Z := 0x1.
Definition VREAD : Z := 0x100.
Definition VWRITE : Z := 0x80.
Definition VEXEC : Z := 0x40.
Definition IPC_R : Z := 0x100.
Definition IPC_W : Z := 0x80.
Definition IPC_M : Z := 0x1000.
Definition IPC_CREAT : Z := 0x200.
Definition IPC_EXCL : Z := 0x400.
Definition IPC_NOWAIT : Z := 0x800.
Definition IPC_PRIVATE : Z := 0.
Definition IPC_RMID : Z := 0.
Definition IPC_SET : Z := 1.
Definition IPC_STAT : Z := 2.

(** ** Data *)

Inductive vtype := VNON | VREG | VDIR | VBLK | VCHR | VLNK | VSOCK | VFIFO | VBAD.
#[global] Instance vtype_eq_dec : EqDecision vtype.
Proof. solve_decision. Defined.

(** The part of the credentials that the checks read; [cr_groups] holds
    [cr_ngroups] groups. *)
Record ucred := Ucred {
  cr_uid : Z;
  cr_gid : Z;
  cr_groups : list Z;
}.

Record ipc_perm := IpcPerm {
  cuid : Z;
  cgid : Z;
  uid : Z;
  gid : Z;
  mode : Z;
  seq : Z;
  key : Z;
}.

(** ** Identifiers *)

Definition IPCID_TO_IX (id : Z) : Z := id .& 0xffff.
Definition IPCID_TO_SEQ (id : Z) : Z := Z.shiftr id 16 .& 0xffff.
Definition IXSEQ_TO_IPCID (ix : Z) (perm : ipc_perm) : Z :=
  s32 (Z.shiftl (seq perm) 16 .| (ix .& 0xffff)).

(** ** Access *)

Fixpoint in_groups (g : Z) (groups : list Z) : bool :=
  match groups with
  | [] => false
  | gp :: groups' => if gp =? g then true else in_groups g groups'
  end.

Definition groupmember (g : Z) (cred : ucred) : bool :=
  if cr_gid cred =? g then true else in_groups g (cr_groups cred).

(** The three tests that collect the bits an access needs in [mask]. *)
Definition access_mask (acc_mode x r w : Z) : Z :=
  let mask := 0 in
  let mask := if has acc_mode VEXEC then mask .| x else mask in
  let mask := if has acc_mode VREAD then mask .| r else mask in
  if has acc_mode VWRITE then mask .| w else mask.

Definition check_mask (file_mode mask : Z) : Z :=
  if (file_mode .& mask) =? mask then 0 else EACCES.

Definition vaccess (type : vtype) (file_mode u g acc_mode : Z) (cred : ucred) : Z :=
  if cr_uid cred =? 0 then
    if has acc_mode VEXEC && negb (bool_decide (type = VDIR)) &&
       negb (has file_mode (S_IXUSR .| S_IXGRP .| S_IXOTH))
    then EACCES else 0
  else if cr_uid cred =? u then
    check_mask file_mode (access_mask acc_mode S_IXUSR S_IRUSR S_IWUSR)
  else if groupmember g cred then
    check_mask file_mode (access_mask acc_mode S_IXGRP S_IRGRP S_IWGRP)
  else
    check_mask file_mode (access_mask acc_mode S_IXOTH S_IROTH S_IWOTH).

Definition ipcperm (cred : ucred) (perm : ipc_perm) (m : Z) : Z :=
  if m =? IPC_M then
    if (cr_uid cred =? 0) || (cr_uid cred =? uid perm) || (cr_uid cred =? cuid perm)
    then 0 else EPERM
  else if (vaccess VNON (mode perm) (uid perm) (gid perm) m cred =? 0) ||
          (vaccess VNON (mode perm) (cuid perm) (cgid perm) m cred =? 0)
  then 0 else EACCES.

(** ** Lemmas *)

Lemma testbit_ffff i : 0 <= i -> Z.testbit 0xffff i = (i <? 16).
Proof.
  intros Hi. change 0xffff with (Z.ones 16). rewrite Z.testbit_ones by lia.
  destruct (Z.leb_spec 0 i); [done|lia].
Qed.

Lemma land_ffff x : inu 16 x -> x .& 0xffff = x.
Proof.
  intros Hx. change 0xffff with (Z.ones 16). rewrite Z.land_ones by lia.
  by apply wrapu_small.
Qed.

(** An identifier gives back the slot and the sequence number. *)
Lemma ipcid_ix ix perm :
  inu 16 ix -> inu 15 (seq perm) -> IPCID_TO_IX (IXSEQ_TO_IPCID ix perm) = ix.
Proof.
  intros Hix Hs. unfold IPCID_TO_IX, IXSEQ_TO_IPCID. rewrite (land_ffff ix) by done.
  rewrite wraps_small; [|lia|].
  2:{ pose proof (inu_lor 31 (Z.shiftl (seq perm) 16) ix ltac:(lia)
        (inu_shiftl 15 16 _ ltac:(lia) ltac:(lia) Hs) (inu_mono 16 31 _ ltac:(lia) Hix)) as Hr.
      unfold inu in Hr. change (2 ^ (32 - 1)) with (2 ^ 31). lia. }
  apply Z.bits_inj'. intros i Hi. rewrite Z.land_spec, Z.lor_spec, testbit_ffff by done.
  rewrite Z.shiftl_spec by done. destruct (Z.ltb_spec i 16).
  - rewrite (Z.testbit_neg_r _ (i - 16)) by lia. by rewrite andb_true_r.
  - rewrite andb_false_r. by rewrite (testbit_above 16) by (done || lia).
Qed.

Lemma ipcid_seq ix perm :
  inu 16 ix -> inu 15 (seq perm) -> IPCID_TO_SEQ (IXSEQ_TO_IPCID ix perm) = seq perm.
Proof.
  intros Hix Hs. unfold IPCID_TO_SEQ, IXSEQ_TO_IPCID. rewrite (land_ffff ix) by done.
  rewrite wraps_small; [|lia|].
  2:{ pose proof (inu_lor 31 (Z.shiftl (seq perm) 16) ix ltac:(lia)
        (inu_shiftl 15 16 _ ltac:(lia) ltac:(lia) Hs) (inu_mono 16 31 _ ltac:(lia) Hix)) as Hr.
      unfold inu in Hr. change (2 ^ (32 - 1)) with (2 ^ 31). lia. }
  rewrite land_ffff.
  - apply Z.bits_inj'. intros i Hi. rewrite Z.shiftr_spec, Z.lor_spec by done.
    rewrite Z.shiftl_spec by lia. rewrite (testbit_above 16 ix) by (done || lia).
    rewrite orb_false_r. f_equal. lia.
  - rewrite Z.shiftr_lor, Z.shiftr_shiftl_l, Z.shiftl_0_r by lia.
    apply inu_lor; [lia|by apply (inu_mono 15); [lia|]|by apply inu_shiftr].
Qed.

(** ** Which class of bits decides *)

(** The class a user falls into: how far its bits are from those of the owner. *)
Definition class (u g : Z) (cred : ucred) : Z :=
  if cr_uid cred =? u then 0 else if groupmember g cred then 3 else 6.

(** The bits of the owner, moved to the class. *)
Definition wanted (acc_mode k : Z) : Z := Z.shiftr (acc_mode .& 0x1c0) k.

Lemma access_mask_wanted acc :
  access_mask acc S_IXUSR S_IRUSR S_IWUSR = wanted acc 0 /\
  access_mask acc S_IXGRP S_IRGRP S_IWGRP = wanted acc 3 /\
  access_mask acc S_IXOTH S_IROTH S_IWOTH = wanted acc 6.
Proof.
  assert (Hacc : acc .& 0x1c0 = (acc .& VREAD) .| (acc .& VWRITE) .| (acc .& VEXEC)).
  { by rewrite <- !Z.land_lor_distr_r. }
  assert (Hbit : forall n, 0 <= n -> acc .& 2 ^ n = if Z.testbit acc n then 2 ^ n else 0).
  { intros n Hn. apply Z.bits_inj'. intros i Hi.
    rewrite Z.land_spec, Z.pow2_bits_eqb by done.
    destruct (Z.eqb_spec n i) as [->|].
    - rewrite andb_true_r. destruct (Z.testbit acc i) eqn:E; [|by rewrite Z.bits_0].
      by rewrite Z.pow2_bits_true.
    - rewrite andb_false_r. destruct (Z.testbit acc n); [|by rewrite Z.bits_0].
      by rewrite Z.pow2_bits_false by done. }
  unfold wanted, access_mask, has. rewrite Hacc.
  change VREAD with (2 ^ 8). change VWRITE with (2 ^ 7). change VEXEC with (2 ^ 6).
  rewrite !Hbit by lia.
  by destruct (Z.testbit acc 8), (Z.testbit acc 7), (Z.testbit acc 6).
Qed.

(** For a user other than root, one class of bits decides: the one of the
    owner, else the one of the group, else the one of the others. *)
Lemma vaccess_class type m u g acc cred :
  cr_uid cred <> 0 ->
  vaccess type m u g acc cred = check_mask m (wanted acc (class u g cred)).
Proof.
  intros Hr. unfold vaccess, class. rewrite (proj2 (Z.eqb_neq _ _) Hr).
  destruct (access_mask_wanted acc) as (-> & -> & ->).
  by destruct (cr_uid cred =? u), (groupmember g cred).
Qed.

Lemma check_mask_0 m w : check_mask m w = 0 <-> m .& w = w.
Proof. unfold check_mask, EACCES. destruct (Z.eqb_spec (m .& w) w); split; (done || lia). Qed.

(** What [ipcperm] answers: its error when it refuses depends on the mode only. *)
Lemma ipcperm_spec cred perm m :
  ipcperm cred perm m =
    if m =? IPC_M then
      if bool_decide (cr_uid cred ∈ [0; uid perm; cuid perm]) then 0 else EPERM
    else if (cr_uid cred =? 0) && negb (has m VEXEC) ||
            (cr_uid cred =? 0) && has (mode perm) 0x49 ||
            negb (cr_uid cred =? 0) &&
              bool_decide (Exists (fun k => mode perm .& wanted m k = wanted m k)
                [class (uid perm) (gid perm) cred; class (cuid perm) (cgid perm) cred])
    then 0 else EACCES.
Proof.
  unfold ipcperm. destruct (m =? IPC_M).
  - destruct (cr_uid cred =? 0) eqn:?, (cr_uid cred =? uid perm) eqn:?,
      (cr_uid cred =? cuid perm) eqn:?; zify_bool; simpl;
      case_bool_decide as Hd; try done; set_unfold; naive_solver.
  - destruct (Z.eqb_spec (cr_uid cred) 0) as [Hr|Hr].
    + unfold vaccess. rewrite Hr. simpl. rewrite orb_diag, orb_false_r.
      change (S_IXUSR .| S_IXGRP .| S_IXOTH) with 0x49.
      by destruct (has m VEXEC), (has (mode perm) 0x49).
    + simpl. rewrite !vaccess_class by done.
      destruct (Z.eqb_spec (check_mask (mode perm) (wanted m (class (uid perm) (gid perm) cred))) 0)
        as [H1|H1], (Z.eqb_spec (check_mask (mode perm) (wanted m (class (cuid perm) (cgid perm) cred))) 0)
        as [H2|H2]; rewrite check_mask_0 in H1, H2; simpl; case_bool_decide as Hd; try done;
        rewrite !Exists_cons, Exists_nil in Hd; naive_solver.
Qed.

End Ipc.
