(* ===== verification/Sem.v ===== *)
(** * System V semaphores (kern/sysv_sem.c): the model

    A semaphore set is a [semid_ds] at an address of [sets]; the slots of
    [sema] hold addresses of sets, [None] for NULL.  The array [sem_base] of a
    set is allocated and freed with the set, and is its list of semaphores.
    The undo structures of [semu_list] keep their addresses, since [sys_semop]
    carries a pointer to one from one call of [semundo_adjust] to the next;
    [un_ent] is the list of the [un_cnt] active entries.

    A [pool_get] that waits for memory succeeds, and the address it returns is
    an argument.  Where the code handles what others did meanwhile, so does the
    model: [pool] gives the answer of the first, non-waiting [pool_get] of
    [semu_alloc], or what the others did while the second one waited; [others]
    of [sys_semget] is what happened while the allocation slept.

    [sys_semop] is cut at its [tsleep]: the process becomes a [waiter], with
    the local variables that live across the sleep, and [semop_resume] is what
    follows, with the error of [tsleep].  [wakeup] marks the waiters on its
    channel, which is the address of the slot: that of the array, [sema_addr],
    and the index.

    Memory that was freed must not be read: an access to a set or an undo
    structure that is not allocated is [Panic], like the calls of [panic].
    Copies from and to the user are arguments: errors, and the data read.  What
    else may sleep (the copies, the memory for a long vector or for SETALL) is
    one step with its call. *)

From S2P Require Import Prelude Ipc.
Import Ipc.

Module Sem.

(** ** Constants *)

Definition EINTR : Z := 4.
Definition EEXIST : Z := 17.
Definition ENOTDIR : Z := 20.
Definition EFBIG : Z := 27.
Definition ENOSPC : Z := 28.
Definition ERANGE : Z := 34.
Definition EOPNOTSUPP : Z := 45.
Definition EIDRM : Z := 89.
Definition SEM_UNDO : Z := 0x1000.
Definition GETNCNT : Z := 3.
Definition GETPID : Z := 4.
Definition GETVAL : Z := 5.
Definition GETALL : Z := 6.
Definition GETZCNT : Z := 7.
Definition SETVAL : Z := 8.
Definition SETALL : Z := 9.
Definition SEMVMX : Z := 32767.
Definition SEMAEM : Z := 16384.
Definition SEMMNI : Z := 10.
Definition SEMMNS : Z := 60.
Definition SEMUME : Z := 10.
Definition SEMMNU : Z := 30.
Definition SEMMSL : Z := SEMMNS.
Definition SEMOPM : Z := 100.
Definition KERN_SEMINFO_SEMMNI : Z := 1.
Definition KERN_SEMINFO_SEMMNS : Z := 2.
Definition KERN_SEMINFO_SEMMNU : Z := 3.
Definition KERN_SEMINFO_SEMMSL : Z := 4.
Definition KERN_SEMINFO_SEMOPM : Z := 5.
Definition KERN_SEMINFO_SEMUME : Z := 6.
Definition KERN_SEMINFO_SEMUSZ : Z := 7.
Definition KERN_SEMINFO_SEMVMX : Z := 8.
Definition KERN_SEMINFO_SEMAEM : Z := 9.

(** ** Data *)

Record sem := MkSem {
  semval : Z;
  sempid : Z;
  semncnt : Z;
  semzcnt : Z;
}.

Record semid_ds := SemidDs {
  sem_perm : ipc_perm;
  sem_base : list sem;
  sem_nsems : Z;
  sem_otime : Z;
  sem_ctime : Z;
}.

Record sembuf := Sembuf {
  sem_num : Z;
  sem_op : Z;
  sem_flg : Z;
}.

Record undo := Undo {
  un_adjval : Z;
  un_num : Z;
  un_id : Z;
}.

Record sem_undo := SemUndo {
  un_addr : Z;
  un_proc : Z;
  un_ent : list undo;
}.

Record seminfo := Seminfo {
  semmni : Z;
  semmns : Z;
  semmnu : Z;
  semmsl : Z;
  semopm : Z;
  semume : Z;
  semusz : Z;
  semvmx : Z;
  semaem : Z;
}.

(** A process that sleeps in [sys_semop]: the [semid] argument, the channel,
    [semaptr], the operations, the index of [sopptr], [do_undos], and whether a
    [wakeup] has reached it. *)
Record waiter := Waiter {
  w_semid : Z;
  w_chan : Z * Z;
  w_semaptr : Z;
  w_sops : list sembuf;
  w_i : nat;
  w_undos : Z;
  w_awake : bool;
}.

Record semst := SemSt {
  info : seminfo;
  sema_addr : Z;
  sema : list (option Z);
  semseqs : list Z;
  sets : gmap Z semid_ds;
  semtot : Z;
  semutot : Z;
  semu_list : list sem_undo;
  waiters : gmap Z waiter;
}.

(** A thread, with the process it belongs to. *)
Record proc := Proc {
  p_tid : Z;
  p_p : Z;
  ps_pid : Z;
  p_ucred : ucred;
}.

(** What [sys_semop] comes to. *)
Inductive result : Type :=
| Return (error : Z)
| Sleeps.

(** The answer of [pool_get(&semu_pool, PR_NOWAIT)]: a structure, or NULL, in
    which case the second [pool_get] sleeps while others run. *)
Inductive pool : Type :=
| PoolNow (a : Z)
| PoolWait (others : semst -> semst) (a : Z).

(** ** Access to the state *)

Definition set_sets (f : gmap Z semid_ds -> gmap Z semid_ds) (st : semst) : semst :=
  SemSt (info st) (sema_addr st) (sema st) (semseqs st) (f (sets st)) (semtot st) (semutot st)
    (semu_list st) (waiters st).
Definition set_undos (l : list sem_undo) (tot : Z) (st : semst) : semst :=
  SemSt (info st) (sema_addr st) (sema st) (semseqs st) (sets st) (semtot st) tot l (waiters st).
Definition set_waiters (f : gmap Z waiter -> gmap Z waiter) (st : semst) : semst :=
  SemSt (info st) (sema_addr st) (sema st) (semseqs st) (sets st) (semtot st) (semutot st)
    (semu_list st) (f (waiters st)).
Definition set_slot (ix : nat) (o : option Z) (tot : Z) (st : semst) : semst :=
  SemSt (info st) (sema_addr st) (<[ix := o]> (sema st)) (semseqs st) (sets st) tot (semutot st)
    (semu_list st) (waiters st).
Definition set_seq (ix : nat) (s : Z) (st : semst) : semst :=
  SemSt (info st) (sema_addr st) (sema st) (<[ix := s]> (semseqs st)) (sets st) (semtot st)
    (semutot st) (semu_list st) (waiters st).
Definition set_info (i : seminfo) (st : semst) : semst :=
  SemSt i (sema_addr st) (sema st) (semseqs st) (sets st) (semtot st) (semutot st)
    (semu_list st) (waiters st).

Definition set_val (v : Z) (s : sem) : sem := MkSem v (sempid s) (semncnt s) (semzcnt s).
Definition set_pid (pid : Z) (s : sem) : sem := MkSem (semval s) pid (semncnt s) (semzcnt s).
Definition add_ncnt (d : Z) (s : sem) : sem :=
  MkSem (semval s) (sempid s) (u16 (semncnt s + d)) (semzcnt s).
Definition add_zcnt (d : Z) (s : sem) : sem :=
  MkSem (semval s) (sempid s) (semncnt s) (u16 (semzcnt s + d)).
(** [semptr->semval += d] *)
Definition add_val (d : Z) (s : sem) : sem := set_val (u16 (semval s + d)) s.

Definition set_base (b : list sem) (sp : semid_ds) : semid_ds :=
  SemidDs (sem_perm sp) b (sem_nsems sp) (sem_otime sp) (sem_ctime sp).

(** An element of [sem_base], and its update. *)
Definition sem_at (base : list sem) (n : Z) : option sem :=
  if n <? 0 then None else base !! Z.to_nat n.
Definition on_sem (f : sem -> sem) (n : Z) (base : list sem) : list sem :=
  alter f (Z.to_nat n) base.

(** [*semaptr] *)
Definition deref (st : semst) (a : Z) : outcome semid_ds :=
  match sets st !! a with Some sp => Ok sp | None => Panic end.

(** [wakeup(&sema[ix])] *)
Definition wake (ch : Z * Z) (w : waiter) : waiter :=
  if bool_decide (w_chan w = ch)
  then Waiter (w_semid w) (w_chan w) (w_semaptr w) (w_sops w) (w_i w) (w_undos w) true
  else w.
Definition wakeup (ix : Z) (st : semst) : semst :=
  set_waiters (fmap (wake (sema_addr st, ix))) st.

(** The state after [seminit], with the array at address [a]. *)
Definition seminit (si : seminfo) (a : Z) : semst :=
  SemSt si a (replicate (Z.to_nat (semmni si)) None) (replicate (Z.to_nat (semmni si)) 0)
    ∅ 0 0 [] ∅.

(** [seminfo] as conf/param.c sets it; the size of an undo structure is that
    of a machine with eight-byte pointers. *)
Definition seminfo_default : seminfo :=
  Seminfo SEMMNI SEMMNS SEMMNU SEMMSL SEMOPM SEMUME 112 SEMVMX SEMAEM.

(** ** Undo structures *)

(** The first undo structure of a process, and the one at an address. *)
Fixpoint su_of (pr : Z) (l : list sem_undo) : option sem_undo :=
  match l with
  | [] => None
  | suptr :: l' => if un_proc suptr =? pr then Some suptr else su_of pr l'
  end.
Fixpoint su_at (a : Z) (l : list sem_undo) : option sem_undo :=
  match l with
  | [] => None
  | suptr :: l' => if un_addr suptr =? a then Some suptr else su_at a l'
  end.
(** SLIST_REMOVE *)
Fixpoint su_remove (a : Z) (l : list sem_undo) : list sem_undo :=
  match l with
  | [] => []
  | suptr :: l' => if un_addr suptr =? a then l' else suptr :: su_remove a l'
  end.
(** Stores the entries of the structure at [a]. *)
Fixpoint su_store (a : Z) (ents : list undo) (l : list sem_undo) : list sem_undo :=
  match l with
  | [] => []
  | suptr :: l' => if un_addr suptr =? a then SemUndo a (un_proc suptr) ents :: l'
                   else suptr :: su_store a ents l'
  end.

Definition semu_alloc (pg : pool) (st : semst) (pr : Z) : semst * option Z :=
  if semutot st =? semmnu (info st) then (st, None)
  else
    let st := set_undos (semu_list st) (semutot st + 1) st in
    let insert st a := (set_undos (SemUndo a pr [] :: semu_list st) (semutot st) st, Some a) in
    match pg with
    | PoolNow a => insert st a
    | PoolWait others sutmp =>
        let st := others st in
        match su_of pr (semu_list st) with
        | Some suptr => (set_undos (semu_list st) (semutot st - 1) st, Some (un_addr suptr))
        | None => insert st sutmp
        end
    end.

(** The index of the entry for a semaphore. *)
Fixpoint find_ent (semid semnum : Z) (ents : list undo) : option nat :=
  match ents with
  | [] => None
  | sunptr :: ents' =>
      if negb (un_id sunptr =? semid) || negb (un_num sunptr =? semnum)
      then S <$> find_ent semid semnum ents' else Some 0%nat
  end.

(** [--un_cnt], the last entry moving into the place of entry [i]. *)
Definition remove_ent (i : nat) (ents : list undo) : list undo :=
  let un_cnt := pred (length ents) in
  if (i <? un_cnt)%nat
  then match ents !! un_cnt with
       | Some e => <[i := e]> (take un_cnt ents)
       | None => take un_cnt ents
       end
  else take un_cnt ents.

(** The part of [semundo_adjust] that follows the search for the structure. *)
Definition adjust_entry (st : semst) (suptr : sem_undo) (semid semnum adjval : Z) : semst * Z :=
  let a := un_addr suptr in
  match find_ent semid semnum (un_ent suptr) with
  | Some i =>
      match un_ent suptr !! i with
      | None => (st, 0)
      | Some sunptr =>
          let v := if adjval =? 0 then 0 else s16 (un_adjval sunptr + adjval) in
          if negb (v =? 0) then
            (set_undos (su_store a (<[i := Undo v (un_num sunptr) (un_id sunptr)]> (un_ent suptr))
               (semu_list st)) (semutot st) st, 0)
          else if (pred (length (un_ent suptr)) =? 0)%nat then
            (set_undos (su_remove a (semu_list st)) (semutot st - 1) st, 0)
          else
            (set_undos (su_store a (remove_ent i (un_ent suptr)) (semu_list st)) (semutot st) st, 0)
      end
  | None =>
      if adjval =? 0 then (st, 0)
      else if Z.of_nat (length (un_ent suptr)) =? SEMUME then (st, EINVAL)
      else (set_undos (su_store a (un_ent suptr ++ [Undo (s16 adjval) (s16 semnum) semid])
              (semu_list st)) (semutot st) st, 0)
  end.

(** Returns the state, [*supptr] and the error. *)
Definition semundo_adjust (pg : pool) (st : semst) (pr : Z) (supptr : option Z)
    (semid semnum adjval : Z) : outcome (semst * option Z * Z) :=
  let adjust st a :=
    match su_at a (semu_list st) with
    | None => Panic
    | Some suptr => let '(st, error) := adjust_entry st suptr semid semnum adjval in
                    Ok (st, Some a, error)
    end in
  match supptr with
  | Some a => adjust st a
  | None =>
      match su_of pr (semu_list st) with
      | Some suptr => adjust st (un_addr suptr)
      | None =>
          if adjval =? 0 then Ok (st, None, 0)
          else match semu_alloc pg st pr with
               | (st, None) => Ok (st, None, ENOSPC)
               | (st, Some a) => adjust st a
               end
      end
  end.

(** The loop of [semundo_clear] over the entries of one structure.  When the
    last entry has moved into the place of the one removed, the loop looks at
    that place again. *)
Fixpoint clear_ents (fuel i : nat) (semid semnum : Z) (ents : list undo) : list undo :=
  match fuel with
  | O => ents
  | S fuel' =>
      match ents !! i with
      | None => ents
      | Some sunptr =>
          if un_id sunptr =? semid then
            if (semnum =? -1) || (un_num sunptr =? semnum) then
              let ents' := remove_ent i ents in
              if negb (semnum =? -1) then ents'
              else clear_ents fuel' (if (i <? length ents')%nat then i else S i) semid semnum ents'
            else if negb (semnum =? -1) then ents
            else clear_ents fuel' (S i) semid semnum ents
          else clear_ents fuel' (S i) semid semnum ents
      end
  end.

(** The loop over the structures, which frees those left without entries;
    returns the list and the number of structures freed. *)
Fixpoint clear_list (semid semnum : Z) (l : list sem_undo) : list sem_undo * Z :=
  match l with
  | [] => ([], 0)
  | suptr :: l' =>
      let ents := clear_ents (S (length (un_ent suptr))) 0 semid semnum (un_ent suptr) in
      let '(l'', n) := clear_list semid semnum l' in
      match ents with
      | [] => (l'', n + 1)
      | _ => (SemUndo (un_addr suptr) (un_proc suptr) ents :: l'', n)
      end
  end.

Definition semundo_clear (semid semnum : Z) (st : semst) : semst :=
  let '(l, n) := clear_list semid semnum (semu_list st) in
  set_undos l (semutot st - n) st.

(** ** semctl *)

(** What the user's side of semctl(2) gives: the error of the copy of [arg],
    [arg->val], the result of the copy of [arg->buf] in and out, and those of
    the elements of [arg->array]. *)
Record semun := Semun {
  arg_err : Z;
  arg_val : Z;
  buf_in : Z + ipc_perm;
  buf_out : Z;
  array_in : nat -> Z + Z;
  array_out : nat -> Z;
}.

(** What semctl(2) returns: the error, [*retval] when it is set, the values
    copied out to [arg->array] and the structure copied out to [arg->buf]. *)
Record ctl := Ctl {
  c_error : Z;
  c_retval : option Z;
  c_array : list Z;
  c_buf : option semid_ds;
}.

Definition ctl_error (e : Z) : ctl := Ctl e None [] None.

(** The loop of GETALL: the first error ends it. *)
Fixpoint getall (arg : semun) (i : nat) (base : list sem) : Z * list Z :=
  match base with
  | [] => (0, [])
  | s :: base' =>
      let error := array_out arg i in
      if negb (error =? 0) then (error, [])
      else let '(error, out) := getall arg (S i) base' in (error, semval s :: out)
  end.

(** The first loop of SETALL, for [n] semaphores. *)
Fixpoint setall (arg : semun) (vmx : Z) (i n : nat) : Z + list Z :=
  match n with
  | O => inr []
  | S n' =>
      match array_in arg i with
      | inl error => inl error
      | inr v => if vmx <? v then inl ERANGE
                 else match setall arg vmx (S i) n' with
                      | inl error => inl error
                      | inr vs => inr (v :: vs)
                      end
      end
  end.

(** The second one. *)
Fixpoint store_vals (vals : list Z) (base : list sem) : list sem :=
  match vals, base with
  | v :: vals', s :: base' => set_val v s :: store_vals vals' base'
  | _, _ => base
  end.

(** The common shape of GETNCNT, GETPID, GETVAL and GETZCNT. *)
Definition get_field (f : sem -> Z) (cred : ucred) (sp : semid_ds) (semnum : Z) (st : semst)
    : outcome (semst * ctl) :=
  let error := ipcperm cred (sem_perm sp) IPC_R in
  if negb (error =? 0) then Ok (st, ctl_error error)
  else if (semnum <? 0) || (sem_nsems sp <=? semnum) then Ok (st, ctl_error EINVAL)
  else match sem_at (sem_base sp) semnum with
       | None => Panic
       | Some s => Ok (st, Ctl 0 (Some (f s)) [] None)
       end.

(** [now] is [time_second]. *)
Definition semctl1 (st : semst) (p : proc) (now semid semnum cmd : Z) (arg : semun)
    : outcome (semst * ctl) :=
  let cred := p_ucred p in
  let ix := IPCID_TO_IX semid in
  if (ix <? 0) || (semmni (info st) <=? ix) then Ok (st, ctl_error EINVAL)
  else match sema st !! Z.to_nat ix with
  | None => Panic
  | Some None => Ok (st, ctl_error EINVAL)
  | Some (Some semaptr) =>
  sp ← deref st semaptr;
  if negb (seq (sem_perm sp) =? IPCID_TO_SEQ semid) then Ok (st, ctl_error EINVAL)
  else if cmd =? IPC_RMID then
    let error := ipcperm cred (sem_perm sp) IPC_M in
    if negb (error =? 0) then Ok (st, ctl_error error)
    else
      let st := set_slot (Z.to_nat ix) None (semtot st - sem_nsems sp) st in
      let st := set_sets (delete semaptr) st in
      Ok (wakeup ix (semundo_clear ix (-1) st), ctl_error 0)
  else if cmd =? IPC_SET then
    let error := ipcperm cred (sem_perm sp) IPC_M in
    if negb (error =? 0) then Ok (st, ctl_error error)
    else match buf_in arg with
    | inl error => Ok (st, ctl_error error)
    | inr sbuf =>
        let pm := sem_perm sp in
        let pm := IpcPerm (cuid pm) (cgid pm) (uid sbuf) (gid sbuf)
                    (clear (mode pm) 0x1ff .| (mode sbuf .& 0x1ff)) (seq pm) (key pm) in
        Ok (set_sets <[semaptr := SemidDs pm (sem_base sp) (sem_nsems sp) (sem_otime sp) now]> st,
            ctl_error 0)
    end
  else if cmd =? IPC_STAT then
    let error := ipcperm cred (sem_perm sp) IPC_R in
    if negb (error =? 0) then Ok (st, ctl_error error)
    else if negb (buf_out arg =? 0) then Ok (st, ctl_error (buf_out arg))
    else Ok (st, Ctl 0 None [] (Some sp))
  else if cmd =? GETNCNT then get_field semncnt cred sp semnum st
  else if cmd =? GETPID then get_field sempid cred sp semnum st
  else if cmd =? GETVAL then get_field semval cred sp semnum st
  else if cmd =? GETALL then
    let error := ipcperm cred (sem_perm sp) IPC_R in
    if negb (error =? 0) then Ok (st, ctl_error error)
    else let '(error, out) := getall arg 0 (sem_base sp) in Ok (st, Ctl error None out None)
  else if cmd =? GETZCNT then get_field semzcnt cred sp semnum st
  else if cmd =? SETVAL then
    let error := ipcperm cred (sem_perm sp) IPC_W in
    if negb (error =? 0) then Ok (st, ctl_error error)
    else if (semnum <? 0) || (sem_nsems sp <=? semnum) then Ok (st, ctl_error EINVAL)
    else if semvmx (info st) <? arg_val arg then Ok (st, ctl_error ERANGE)
    else
      let base := on_sem (set_val (u16 (arg_val arg))) semnum (sem_base sp) in
      let st := set_sets <[semaptr := set_base base sp]> st in
      Ok (wakeup ix (semundo_clear ix semnum st), ctl_error 0)
  else if cmd =? SETALL then
    let error := ipcperm cred (sem_perm sp) IPC_W in
    if negb (error =? 0) then Ok (st, ctl_error error)
    else match setall arg (semvmx (info st)) 0 (Z.to_nat (sem_nsems sp)) with
    | inl error => Ok (st, ctl_error error)
    | inr vals =>
        let st := set_sets <[semaptr := set_base (store_vals vals (sem_base sp)) sp]> st in
        Ok (wakeup ix (semundo_clear ix (-1) st), ctl_error 0)
    end
  else Ok (st, ctl_error EINVAL)
  end.

Definition sys___semctl (st : semst) (p : proc) (now semid semnum cmd : Z) (arg : semun)
    : outcome (semst * ctl) :=
  let error :=
    if (cmd =? IPC_SET) || (cmd =? IPC_STAT) || (cmd =? GETALL) || (cmd =? SETVAL) ||
       (cmd =? SETALL)
    then arg_err arg else 0 in
  if error =? 0 then semctl1 st p now semid semnum cmd arg
  else Ok (st, ctl_error error).

(** ** semget *)

(** The loop that looks for a key; returns the slot and the set. *)
Fixpoint find_key (st : semst) (k : Z) (i : nat) (slots : list (option Z))
    : outcome (option (nat * semid_ds)) :=
  match slots with
  | [] => Ok None
  | None :: slots' => find_key st k (S i) slots'
  | Some a :: slots' =>
      sp ← deref st a;
      if key (sem_perm sp) =? k then Ok (Some (i, sp)) else find_key st k (S i) slots'
  end.

(** The loop that looks for a free slot. *)
Fixpoint find_slot (i : nat) (slots : list (option Z)) : option nat :=
  match slots with
  | [] => None
  | None :: _ => Some i
  | Some _ :: slots' => find_slot (S i) slots'
  end.

(** The part of [sys_semget] that fills the new set in; [new] is its address. *)
Definition semget_create (st : semst) (cred : ucred) (now k nsems semflg new : Z)
    : outcome (semst * Z * Z) :=
  match find_slot 0 (sema st) with
  | None => Ok (st, ENOSPC, 0)
  | Some semid =>
      match semseqs st !! semid with
      | None => Panic
      | Some s =>
          let s := (s + 1) .& 0x7fff in
          let pm := IpcPerm (cr_uid cred) (cr_gid cred) (cr_uid cred) (cr_gid cred)
                      (semflg .& 0x1ff) s k in
          let sp := SemidDs pm (replicate (Z.to_nat nsems) (MkSem 0 0 0 0)) (u16 nsems) 0 now in
          let st := set_seq semid s st in
          let st := set_sets <[new := sp]> st in
          let st := set_slot semid (Some new) (semtot st + nsems) st in
          Ok (st, 0, IXSEQ_TO_IPCID (Z.of_nat semid) pm)
      end
  end.

(** Returns the state, the error and [*retval]. *)
Definition sys_semget (st : semst) (p : proc) (others : semst -> semst)
    (now k nsems semflg new : Z) : outcome (semst * Z * Z) :=
  let cred := p_ucred p in
  let creat := (k =? IPC_PRIVATE) || has semflg IPC_CREAT in
  if creat && ((nsems <=? 0) || (semmsl (info st) <? nsems)) then Ok (st, EINVAL, 0)
  else if creat && (semmns (info st) - semtot st <? nsems) then Ok (st, ENOSPC, 0)
  else
    let st := if creat then others st else st in
    found ← if k =? IPC_PRIVATE then Ok None else find_key st k 0 (sema st);
    match found with
    | Some (semid, sp) =>
        let error := ipcperm cred (sem_perm sp) (semflg .& 0x1c0) in
        if negb (error =? 0) then Ok (st, error, 0)
        else if (0 <? nsems) && (sem_nsems sp <? nsems) then Ok (st, EINVAL, 0)
        else if has semflg IPC_CREAT && has semflg IPC_EXCL then Ok (st, EEXIST, 0)
        else Ok (st, 0, IXSEQ_TO_IPCID (Z.of_nat semid) (sem_perm sp))
    | None => if creat then semget_create st cred now k nsems semflg new
              else Ok (st, ENOENT, 0)
    end.

(** ** semop *)

Definition is_undo (sop : sembuf) : bool := has (sem_flg sop) SEM_UNDO.

(** The loop over the vector; returns the semaphores, the value of [i] it ends
    with, whether a semaphore number was out of range, [do_wakeup] and
    [do_undos]. *)
Fixpoint pass_ops (nsems : Z) (base : list sem) (sops : list sembuf) (i : nat)
    (do_wakeup : bool) (do_undos : Z) : outcome (list sem * nat * bool * bool * Z) :=
  match sops with
  | [] => Ok (base, i, false, do_wakeup, do_undos)
  | sopptr :: sops' =>
      if nsems <=? sem_num sopptr then Ok (base, i, true, do_wakeup, do_undos)
      else match sem_at base (sem_num sopptr) with
      | None => Panic
      | Some semptr =>
          let base' := on_sem (add_val (sem_op sopptr)) (sem_num sopptr) base in
          let do_undos' := if is_undo sopptr then do_undos + 1 else do_undos in
          if sem_op sopptr <? 0 then
            if semval semptr + sem_op sopptr <? 0
            then Ok (base, i, false, do_wakeup, do_undos)
            else pass_ops nsems base' sops' (S i)
                   (if (u16 (semval semptr + sem_op sopptr) =? 0) && (0 <? semzcnt semptr)
                    then true else do_wakeup) do_undos'
          else if sem_op sopptr =? 0 then
            if 0 <? semval semptr then Ok (base, i, false, do_wakeup, do_undos)
            else pass_ops nsems base sops' (S i) do_wakeup do_undos
          else
            pass_ops nsems base' sops' (S i)
              (if 0 <? semncnt semptr then true else do_wakeup) do_undos'
      end
  end.

(** The loops that take operations back. *)
Fixpoint rollback (sops : list sembuf) (base : list sem) : list sem :=
  match sops with
  | [] => base
  | sop :: sops' => rollback sops' (on_sem (add_val (- sem_op sop)) (sem_num sop) base)
  end.

(** The loop that takes undo adjustments back; [sops] is in the order of the
    loop, last operation first. *)
Fixpoint undo_back (pg : pool) (st : semst) (pr : Z) (supptr : option Z) (semid : Z)
    (sops : list sembuf) : outcome (semst * option Z) :=
  match sops with
  | [] => Ok (st, supptr)
  | sop :: sops' =>
      if negb (is_undo sop) then undo_back pg st pr supptr semid sops'
      else if sem_op sop =? 0 then undo_back pg st pr supptr semid sops'
      else
        r ← semundo_adjust pg st pr supptr semid (sem_num sop) (sem_op sop);
        let '(st, supptr, error) := r in
        if negb (error =? 0) then Panic else undo_back pg st pr supptr semid sops'
  end.

(** The loop over the SEM_UNDO requests; [passed] holds the operations before
    this one, last first.  An error is returned after the adjustments have been
    taken back. *)
Fixpoint undo_loop (pg : pool) (st : semst) (pr : Z) (supptr : option Z) (semid : Z)
    (passed sops : list sembuf) : outcome (semst * Z) :=
  match sops with
  | [] => Ok (st, 0)
  | sop :: sops' =>
      if negb (is_undo sop) then undo_loop pg st pr supptr semid (sop :: passed) sops'
      else if sem_op sop =? 0 then undo_loop pg st pr supptr semid (sop :: passed) sops'
      else
        r ← semundo_adjust pg st pr supptr semid (sem_num sop) (- sem_op sop);
        let '(st, supptr, error) := r in
        if error =? 0 then undo_loop pg st pr supptr semid (sop :: passed) sops'
        else
          b ← undo_back pg st pr supptr semid passed;
          let '(st, _) := b in Ok (st, error)
  end.

Definition set_pids (pid : Z) (sops : list sembuf) (base : list sem) : list sem :=
  foldl (fun base sop => on_sem (set_pid pid) (sem_num sop) base) base sops.

(** The part of [sys_semop] from [done] on. *)
Definition semop_done (pg : pool) (st : semst) (p : proc) (now ix semaptr : Z)
    (sops : list sembuf) (do_wakeup : bool) (do_undos : Z) : outcome (semst * result) :=
  r ← if negb (do_undos =? 0) then undo_loop pg st (p_p p) None ix [] sops else Ok (st, 0);
  let '(st, error) := r in
  sp ← deref st semaptr;
  if negb (error =? 0) then
    Ok (set_sets <[semaptr := set_base (rollback sops (sem_base sp)) sp]> st, Return error)
  else
    let base := set_pids (ps_pid p) sops (sem_base sp) in
    let st := set_sets <[semaptr := SemidDs (sem_perm sp) base (sem_nsems sp) now (sem_ctime sp)]> st in
    Ok (if do_wakeup then wakeup ix st else st, Return 0).

(** The effect of going to sleep on the counts of the semaphore. *)
Definition add_wait (d : Z) (sop : sembuf) (base : list sem) : list sem :=
  on_sem (if sem_op sop =? 0 then add_zcnt d else add_ncnt d) (sem_num sop) base.

(** One pass of the loop that tries to satisfy the vector. *)
Definition semop_pass (pg : pool) (st : semst) (p : proc) (now semid semaptr : Z)
    (sops : list sembuf) (do_undos : Z) : outcome (semst * result) :=
  let ix := IPCID_TO_IX semid in
  sp ← deref st semaptr;
  r ← pass_ops (sem_nsems sp) (sem_base sp) sops 0 false do_undos;
  let '(base, i, fbig, do_wakeup, do_undos) := r in
  let store b := set_sets <[semaptr := set_base b sp]> st in
  if (fbig : bool) then Ok (store base, Return EFBIG)
  else if (length sops <=? i)%nat && (do_undos <=? SEMUME)
  then semop_done pg (store base) p now ix semaptr sops do_wakeup do_undos
  else
    let base := rollback (take i sops) base in
    if SEMUME <? do_undos then Ok (store base, Return ENOSPC)
    else match sops !! i with
    | None => Panic
    | Some sopptr =>
        if has (sem_flg sopptr) IPC_NOWAIT then Ok (store base, Return EAGAIN)
        else
          let w := Waiter semid (sema_addr st, ix) semaptr sops i do_undos false in
          Ok (set_waiters <[p_tid p := w]> (store (add_wait 1 sopptr base)), Sleeps)
    end.

(** The user's side of semop(2): [nsops], the error of the copy and the
    operations in the user's memory. *)
Definition sys_semop (pg : pool) (st : semst) (p : proc) (now semid nsops copy_err : Z)
    (usops : nat -> sembuf) : outcome (semst * result) :=
  let ix := IPCID_TO_IX semid in
  if (ix <? 0) || (semmni (info st) <=? ix) then Ok (st, Return EINVAL)
  else match sema st !! Z.to_nat ix with
  | None => Panic
  | Some None => Ok (st, Return EINVAL)
  | Some (Some semaptr) =>
  sp ← deref st semaptr;
  if negb (seq (sem_perm sp) =? IPCID_TO_SEQ semid) then Ok (st, Return EINVAL)
  else
    let error := ipcperm (p_ucred p) (sem_perm sp) IPC_W in
    if negb (error =? 0) then Ok (st, Return error)
    else if nsops =? 0 then Ok (st, Return 0)
    else if semopm (info st) <? nsops then Ok (st, Return E2BIG)
    else if negb (copy_err =? 0) then Ok (st, Return copy_err)
    else semop_pass pg st p now semid semaptr (usops <$> List.seq 0 (Z.to_nat nsops)) 0
  end.

(** What follows the [tsleep]; [error] is what it returned. *)
Definition semop_resume (pg : pool) (st : semst) (p : proc) (now error : Z)
    : outcome (semst * result) :=
  match waiters st !! p_tid p with
  | None => Panic
  | Some w =>
      let st := set_waiters (delete (p_tid p)) st in
      let ix := IPCID_TO_IX (w_semid w) in
      match sema st !! Z.to_nat ix with
      | None => Panic
      | Some None => Ok (st, Return EIDRM)
      | Some (Some _) =>
      sp ← deref st (w_semaptr w);
      if negb (seq (sem_perm sp) =? IPCID_TO_SEQ (w_semid w)) then Ok (st, Return EIDRM)
      else match w_sops w !! w_i w with
      | None => Panic
      | Some sopptr =>
          let st := set_sets <[w_semaptr w :=
                       set_base (add_wait (-1) sopptr (sem_base sp)) sp]> st in
          if negb (error =? 0) then Ok (st, Return EINTR)
          else semop_pass pg st p now (w_semid w) (w_semaptr w) (w_sops w) (w_undos w)
      end
      end
  end.

(** ** semexit *)

(** [semval] adjusted on exit. *)
Definition exit_val (adjval v : Z) : Z :=
  if (adjval <? 0) && (v <? - adjval) then 0 else u16 (v + adjval).

Fixpoint exit_loop (st : semst) (ents : list undo) : outcome semst :=
  match ents with
  | [] => Ok st
  | e :: ents' =>
      match (if un_id e <? 0 then None else sema st !! Z.to_nat (un_id e)) with
      | None => Panic
      | Some None => Panic
      | Some (Some semaptr) =>
          sp ← deref st semaptr;
          if sem_nsems sp <=? un_num e then Panic
          else match sem_at (sem_base sp) (un_num e) with
          | None => Panic
          | Some s =>
              let base := on_sem (set_val (exit_val (un_adjval e) (semval s))) (un_num e)
                            (sem_base sp) in
              exit_loop (wakeup (un_id e) (set_sets <[semaptr := set_base base sp]> st)) ents'
          end
      end
  end.

Definition semexit (st : semst) (pr : Z) : outcome semst :=
  match su_of pr (semu_list st) with
  | None => Ok st
  | Some suptr =>
      st ← exit_loop st (un_ent suptr);
      Ok (set_undos (su_remove (un_addr suptr) (semu_list st)) (semutot st - 1) st)
  end.

(** ** sysctl *)

(** The user's side of sysctl(3): [oldp != NULL], [*oldlenp], the error of the
    copy out, and for [newp != NULL] [newlen] and the result of the copy in. *)
Record sysctl_io := SysctlIo {
  io_oldp : bool;
  io_oldlen : Z;
  io_out : Z;
  io_newp : option (Z * (Z + Z));
}.

(** Returns the error and [*valp]. *)
Definition sysctl_int (io : sysctl_io) (val : Z) : Z * Z :=
  if io_oldp io && (io_oldlen io <? 4) then (ENOMEM, val)
  else match io_newp io with
  | Some (newlen, copied) =>
      if negb (newlen =? 4) then (EINVAL, val)
      else
        let error := if io_oldp io then io_out io else 0 in
        if negb (error =? 0) then (error, val)
        else match copied with inl e => (e, val) | inr v => (0, v) end
  | None => (if io_oldp io then io_out io else 0, val)
  end.

Definition sysctl_rdint (io : sysctl_io) : Z :=
  if io_oldp io && (io_oldlen io <? 4) then ENOMEM
  else match io_newp io with
  | Some _ => EPERM
  | None => if io_oldp io then io_out io else 0
  end.

(** Grows the array of slots; [a] is the address of the new one. *)
Definition grow (val a : Z) (st : semst) : semst :=
  let si := info st in
  let n := Z.to_nat (semmni si) in
  let more {A} (x : A) (l : list A) := take n l ++ replicate (Z.to_nat val - n) x in
  SemSt (Seminfo val (semmns si) (semmnu si) (semmsl si) (semopm si) (semume si) (semusz si)
           (semvmx si) (semaem si))
    a (more None (sema st)) (more 0 (semseqs st)) (sets st) (semtot st) (semutot st)
    (semu_list st) (waiters st).

(** A limit that may only grow, up to [top] when there is a bound. *)
Definition sysctl_limit (io : sysctl_io) (old : Z) (bad : Z -> bool) (store : Z -> semst)
    (st : semst) : semst * Z :=
  let '(error, val) := sysctl_int io old in
  if negb (error =? 0) || (val =? old) then (st, error)
  else if bad val then (st, EINVAL) else (store val, 0).

Definition sysctl_sysvsem (st : semst) (namelen name0 : Z) (io : sysctl_io) (a : Z) : semst * Z :=
  let si := info st in
  let known := (KERN_SEMINFO_SEMMNI <=? name0) && (name0 <=? KERN_SEMINFO_SEMAEM) in
  if negb (namelen =? 2) && negb known then (st, ENOTDIR)
  else if name0 =? KERN_SEMINFO_SEMMNI then
    sysctl_limit io (semmni si) (fun v => (v <? semmni si) || (0xffff <? v))
      (fun v => grow v a st) st
  else if name0 =? KERN_SEMINFO_SEMMNS then
    sysctl_limit io (semmns si) (fun v => (v <? semmns si) || (0xffff <? v))
      (fun v => set_info (Seminfo (semmni si) v (semmnu si) (semmsl si) (semopm si) (semume si)
                            (semusz si) (semvmx si) (semaem si)) st) st
  else if name0 =? KERN_SEMINFO_SEMMNU then
    sysctl_limit io (semmnu si) (fun v => v <? semmnu si)
      (fun v => set_info (Seminfo (semmni si) (semmns si) v (semmsl si) (semopm si) (semume si)
                            (semusz si) (semvmx si) (semaem si)) st) st
  else if name0 =? KERN_SEMINFO_SEMMSL then
    sysctl_limit io (semmsl si) (fun v => (v <? semmsl si) || (0xffff <? v))
      (fun v => set_info (Seminfo (semmni si) (semmns si) (semmnu si) v (semopm si) (semume si)
                            (semusz si) (semvmx si) (semaem si)) st) st
  else if name0 =? KERN_SEMINFO_SEMOPM then
    sysctl_limit io (semopm si) (fun v => v <=? 0)
      (fun v => set_info (Seminfo (semmni si) (semmns si) (semmnu si) (semmsl si) v (semume si)
                            (semusz si) (semvmx si) (semaem si)) st) st
  else if (KERN_SEMINFO_SEMUME <=? name0) && (name0 <=? KERN_SEMINFO_SEMAEM) then
    (st, sysctl_rdint io)
  else (st, EOPNOTSUPP).

End Sem.
