(* ===== verification/SemUndo.v ===== *)
(** * System V semaphores: the undo adjustments

    The entries of an undo structure denote a finite map from semaphores to
    adjustments.  [semundo_adjust] adds to one point of the map of one process
    ([adj_map]), allocates the structure with the first entry and frees it with
    the last; the loops of [sys_semop] over the SEM_UNDO requests refine the
    same additions in sequence, and taking them back restores the map;
    [semundo_clear] with -1 removes the entries of one set from all maps. *)

From S2P Require Import Prelude Ipc Sem.
Import Ipc Sem.

Module SemUndo.

(** ** Entries as a map *)

Definition kv (e : undo) : (Z * Z) * Z := ((un_id e, un_num e), un_adjval e).
Definition ents_map (ents : list undo) : gmap (Z * Z) Z := list_to_map (kv <$> ents).

(** An adjustment is a [short] other than 0. *)
Definition val_ok (v : Z) : Prop := v <> 0 /\ -32768 <= v < 32768.

Definition ents_ok (ents : list undo) : Prop :=
  NoDup (kv <$> ents).*1 /\ Forall (fun e => val_ok (un_adjval e)) ents.

Lemma ents_perm ents ents' :
  ents_ok ents -> ents ≡ₚ ents' -> ents_ok ents' /\ ents_map ents' = ents_map ents.
Proof.
  intros [Hn Hv] Hp. split; [split|].
  - by rewrite <- Hp.
  - by rewrite <- Hp.
  - symmetry. apply list_to_map_proper; [done|]. by rewrite Hp.
Qed.

Lemma ents_map_cons e ents :
  ents_map (e :: ents) = <[(un_id e, un_num e) := un_adjval e]> (ents_map ents).
Proof. done. Qed.

Lemma ents_ok_cons e ents :
  ents_ok (e :: ents) <->
  ents_map ents !! (un_id e, un_num e) = None /\ val_ok (un_adjval e) /\ ents_ok ents.
Proof.
  unfold ents_ok, ents_map. rewrite !fmap_cons, NoDup_cons, Forall_cons. cbn.
  split.
  - intros [[H1 H2] [H3 H4]]. split; [|done]. by apply not_elem_of_list_to_map_1.
  - intros (H1 & H2 & H3 & H4). split; [split; [|done]|done].
    by apply not_elem_of_list_to_map_2 in H1.
Qed.

Lemma ents_size ents : ents_ok ents -> size (ents_map ents) = length ents.
Proof.
  intros [Hn _]. unfold ents_map. by rewrite map_size_list_to_map, length_fmap.
Qed.

Lemma remove_ent_perm i ents e : ents !! i = Some e -> ents ≡ₚ e :: remove_ent i ents.
Proof.
  intros Hi. unfold remove_ent.
  destruct (ents !! pred (length ents)) as [x|] eqn:Hx.
  2:{ apply lookup_ge_None in Hx. apply lookup_lt_Some in Hi. lia. }
  assert (Hs : ents = take (pred (length ents)) ents ++ [x]).
  { rewrite <- (take_drop_middle _ _ _ Hx) at 1. rewrite drop_ge by lia. done. }
  set (l := take (pred (length ents)) ents) in *.
  destruct (Nat.ltb_spec i (pred (length ents))) as [Hlt|Hge].
  - assert (Hl : l !! i = Some e) by (subst l; by rewrite lookup_take_lt).
    rewrite Hs. rewrite insert_take_drop by (by apply lookup_lt_Some in Hl).
    rewrite <- (take_drop_middle _ _ _ Hl) at 1. solve_Permutation.
  - assert (i = pred (length ents)) as -> by (apply lookup_lt_Some in Hi; lia).
    rewrite Hs at 1. assert (x = e) as -> by congruence. solve_Permutation.
Qed.

Lemma remove_ent_length i ents : (i < length ents)%nat -> length (remove_ent i ents) = pred (length ents).
Proof.
  intros [e Hi]%lookup_lt_is_Some_2. apply remove_ent_perm in Hi as ->%Permutation_length. done.
Qed.

Lemma find_ent_Some id num ents i :
  find_ent id num ents = Some i ->
  exists e, ents !! i = Some e /\ un_id e = id /\ un_num e = num.
Proof.
  revert i. induction ents as [|e ents IH]; intros i; cbn; [done|].
  destruct (negb (un_id e =? id) || negb (un_num e =? num)) eqn:Hc.
  - destruct (find_ent id num ents) as [j|]; [|done]. cbn. intros [= <-]. by apply IH.
  - zify_bool. intros [= <-]. by exists e.
Qed.

Lemma find_ent_None id num ents :
  find_ent id num ents = None -> ents_map ents !! (id, num) = None.
Proof.
  induction ents as [|e ents IH]; cbn; [done|].
  destruct (negb (un_id e =? id) || negb (un_num e =? num)) eqn:Hc; [|done].
  destruct (find_ent id num ents); [done|]. intros _.
  unfold ents_map. cbn. rewrite lookup_insert_ne; [by apply IH|].
  intros [= ? ?]. subst. by rewrite !Z.eqb_refl in Hc.
Qed.

(** ** Adding to an adjustment *)

Definition adj_map (m : gmap (Z * Z) Z) (k : Z * Z) (d : Z) : gmap (Z * Z) Z :=
  let v := s16 (default 0 (m !! k) + d) in
  if v =? 0 then delete k m else <[k := v]> m.

(** The entries after an addition; [None] when the table is full. *)
Definition adj_ents (semid semnum adjval : Z) (ents : list undo) : option (list undo) :=
  match find_ent semid semnum ents with
  | Some i =>
      match ents !! i with
      | None => Some ents
      | Some e =>
          let v := s16 (un_adjval e + adjval) in
          if v =? 0 then Some (remove_ent i ents)
          else Some (<[i := Undo v (un_num e) (un_id e)]> ents)
      end
  | None => if Z.of_nat (length ents) =? SEMUME then None
            else Some (ents ++ [Undo (s16 adjval) (s16 semnum) semid])
  end.

Definition full (m : gmap (Z * Z) Z) (k : Z * Z) : Prop :=
  m !! k = None /\ Z.of_nat (size m) = SEMUME.
#[global] Instance full_dec m k : Decision (full m k).
Proof. unfold full. apply _. Defined.

Lemma s16_small x : -32768 <= x < 32768 -> s16 x = x.
Proof. intros. apply wraps_small; lia. Qed.

Lemma s16_range x : -32768 <= s16 x < 32768.
Proof. apply (wraps_range 16). lia. Qed.

(** The entries that an addition leaves denote the map with the addition. *)
Lemma adj_ents_spec id num d ents :
  ents_ok ents -> Z.of_nat (length ents) <= SEMUME -> 0 <= num < 32768 -> s16 d <> 0 ->
  match adj_ents id num d ents with
  | None => full (ents_map ents) (id, num)
  | Some ents' =>
      ~ full (ents_map ents) (id, num) /\ ents_ok ents' /\
      Z.of_nat (length ents') <= SEMUME /\
      ents_map ents' = adj_map (ents_map ents) (id, num) d
  end.
Proof.
  intros Hok Hlen Hnum Hd. unfold adj_ents, full, adj_map.
  destruct (find_ent id num ents) as [i|] eqn:Hf.
  - apply find_ent_Some in Hf as (e & Hi & <- & <-). rewrite Hi.
    pose proof (remove_ent_perm _ _ _ Hi) as Hp.
    pose proof (remove_ent_length i ents ltac:(by eapply lookup_lt_Some)) as Hrl.
    destruct (ents_perm _ _ Hok Hp) as [Hok' Hm]. apply ents_ok_cons in Hok' as (Hn & Hv & Hr).
    rewrite ents_map_cons in Hm. rewrite <- Hm, lookup_insert_eq. cbn [default from_option].
    change (id (un_adjval e)) with (un_adjval e). case_if.
    + split; [by intros [? _]|]. split; [done|]. split; [lia|].
      by rewrite delete_insert_id.
    + split; [by intros [? _]|].
      assert (Hp' : <[i:=Undo (s16 (un_adjval e + d)) (un_num e) (un_id e)]> ents ≡ₚ
        Undo (s16 (un_adjval e + d)) (un_num e) (un_id e) :: remove_ent i ents).
      { rewrite insert_take_drop by (by eapply lookup_lt_Some).
        apply (Permutation_cons_inv (a := e)). rewrite <- (take_drop_middle _ _ _ Hi) in Hp at 1.
        transitivity (Undo (s16 (un_adjval e + d)) (un_num e) (un_id e) ::
          take i ents ++ e :: drop (S i) ents); [solve_Permutation|].
        rewrite Hp. solve_Permutation. }
      assert (Hc : ents_ok (Undo (s16 (un_adjval e + d)) (un_num e) (un_id e) :: remove_ent i ents)).
      { apply ents_ok_cons. split; [done|]. split; [|done]. split; [done|]. apply s16_range. }
      symmetry in Hp'. destruct (ents_perm _ _ Hc Hp') as [Hok' Hm'].
      split; [done|]. rewrite length_insert. split; [done|]. rewrite Hm'.
      rewrite ents_map_cons. cbn. by rewrite insert_insert_eq.
  - apply find_ent_None in Hf. pose proof (ents_size _ Hok) as Hs. case_if.
    + split; [done|]. by rewrite Hs.
    + rewrite (s16_small num) by lia.
      assert (Hc : ents_ok (Undo (s16 d) num id :: ents)).
      { apply ents_ok_cons. split; [done|]. split; [|done]. split; [done|]. apply s16_range. }
      destruct (ents_perm _ (ents ++ [Undo (s16 d) num id]) Hc) as [Hok' Hm];
        [solve_Permutation|].
      rewrite Hs. split; [by intros [_ ?]|]. split; [done|].
      rewrite length_app. cbn [length]. split; [lia|]. rewrite Hm, Hf. cbn [default from_option].
      rewrite Z.add_0_l. rewrite (proj2 (Z.eqb_neq _ _) Hd). done.
Qed.

Lemma adjust_entry_eq st su id num d :
  d <> 0 ->
  adjust_entry st su id num d =
    match adj_ents id num d (un_ent su) with
    | None => (st, EINVAL)
    | Some [] => (set_undos (su_remove (un_addr su) (semu_list st)) (semutot st - 1) st, 0)
    | Some ents => (set_undos (su_store (un_addr su) ents (semu_list st)) (semutot st) st, 0)
    end.
Proof.
  intros Hd. unfold adjust_entry, adj_ents. rewrite (proj2 (Z.eqb_neq _ _) Hd).
  destruct (find_ent id num (un_ent su)) as [i|] eqn:Hf.
  - apply find_ent_Some in Hf as (e & Hi & _). rewrite Hi.
    pose proof (remove_ent_length i (un_ent su) ltac:(by eapply lookup_lt_Some)) as Hl.
    destruct (s16 (un_adjval e + d) =? 0); cbn [negb].
    + destruct (remove_ent i (un_ent su)) as [|x l] eqn:Hr; cbn [length] in Hl.
      * by rewrite <- Hl.
      * by rewrite <- Hl.
    + destruct (<[i:=_]> (un_ent su)) as [|x l] eqn:Hr; [|done].
      apply (f_equal length) in Hr. rewrite length_insert in Hr. apply lookup_lt_Some in Hi.
      cbn in Hr. lia.
  - destruct (_ =? SEMUME); [done|]. destruct (un_ent su); done.
Qed.

(** ** The list of undo structures *)

Definition su_ok (su : sem_undo) : Prop :=
  un_ent su <> [] /\ ents_ok (un_ent su) /\ Z.of_nat (length (un_ent su)) <= SEMUME.

Definition undos_wf (l : list sem_undo) (tot : Z) : Prop :=
  NoDup (un_addr <$> l) /\ NoDup (un_proc <$> l) /\ Forall su_ok l /\ tot = Z.of_nat (length l).

(** The adjustments of a process. *)
Definition undo_of (l : list sem_undo) (pr : Z) : gmap (Z * Z) Z :=
  match su_of pr l with Some su => ents_map (un_ent su) | None => ∅ end.

Lemma su_of_elem pr l su : su_of pr l = Some su -> su ∈ l /\ un_proc su = pr.
Proof.
  induction l as [|x l IH]; cbn; [done|]. case_if.
  - intros [= <-]. split; [apply list_elem_of_here|done].
  - intros [? ?]%IH. split; [by apply list_elem_of_further|done].
Qed.

Lemma su_at_elem a l su : su_at a l = Some su -> su ∈ l /\ un_addr su = a.
Proof.
  induction l as [|x l IH]; cbn; [done|]. case_if.
  - intros [= <-]. split; [apply list_elem_of_here|done].
  - intros [? ?]%IH. split; [by apply list_elem_of_further|done].
Qed.

Lemma elem_su_of l su : NoDup (un_proc <$> l) -> su ∈ l -> su_of (un_proc su) l = Some su.
Proof.
  induction l as [|x l IH]; cbn; [set_solver|]. rewrite NoDup_cons. intros [Hx Hn] Hin.
  apply elem_of_cons in Hin as [<-|Hin]; [by rewrite Z.eqb_refl|].
  destruct (Z.eqb_spec (un_proc x) (un_proc su)) as [He|]; [|by apply IH].
  destruct Hx. rewrite He. by apply list_elem_of_fmap_2.
Qed.

Lemma elem_su_at l su : NoDup (un_addr <$> l) -> su ∈ l -> su_at (un_addr su) l = Some su.
Proof.
  induction l as [|x l IH]; cbn; [set_solver|]. rewrite NoDup_cons. intros [Hx Hn] Hin.
  apply elem_of_cons in Hin as [<-|Hin]; [by rewrite Z.eqb_refl|].
  destruct (Z.eqb_spec (un_addr x) (un_addr su)) as [He|]; [|by apply IH].
  destruct Hx. rewrite He. by apply list_elem_of_fmap_2.
Qed.

Lemma su_of_perm l l' pr : NoDup (un_proc <$> l) -> l ≡ₚ l' -> su_of pr l' = su_of pr l.
Proof.
  intros Hn Hp. assert (Hn' : NoDup (un_proc <$> l')) by (by rewrite <- Hp).
  destruct (su_of pr l) as [su|] eqn:E.
  - apply su_of_elem in E as [Hin <-]. apply elem_su_of; [done|]. by rewrite <- Hp.
  - destruct (su_of pr l') as [su|] eqn:E'; [|done].
    apply su_of_elem in E' as [Hin <-]. rewrite <- Hp in Hin.
    apply elem_su_of in Hin; [congruence|done].
Qed.

Lemma su_remove_perm a l su : su_at a l = Some su -> l ≡ₚ su :: su_remove a l.
Proof.
  induction l as [|x l IH]; cbn; [done|]. case_if; [by intros [= <-]|].
  intros Hs. rewrite (IH Hs) at 1. solve_Permutation.
Qed.

Lemma su_store_perm a l su ents :
  su_at a l = Some su -> su_store a ents l ≡ₚ SemUndo a (un_proc su) ents :: su_remove a l.
Proof.
  induction l as [|x l IH]; cbn; [done|]. case_if; [by intros [= <-]|].
  intros Hs. rewrite (IH Hs). solve_Permutation.
Qed.

Lemma undos_wf_perm l l' tot : undos_wf l tot -> l ≡ₚ l' -> undos_wf l' tot.
Proof.
  intros (H1 & H2 & H3 & H4) Hp. unfold undos_wf. by rewrite <- Hp.
Qed.

Lemma undo_of_perm l l' tot pr : undos_wf l tot -> l ≡ₚ l' -> undo_of l' pr = undo_of l pr.
Proof. intros (_ & Hn & _) Hp. unfold undo_of. by rewrite (su_of_perm l l'). Qed.

Lemma undos_wf_cons su l tot :
  undos_wf (su :: l) tot <->
  (un_addr su ∉ (un_addr <$> l)) /\ su_of (un_proc su) l = None /\ su_ok su /\ undos_wf l (tot - 1).
Proof.
  unfold undos_wf. rewrite !fmap_cons, !NoDup_cons, Forall_cons. cbn [length].
  split.
  - intros ([H1 H1'] & [H2 H2'] & [H3 H3'] & H4). split_and!; try done; [|lia].
    destruct (su_of (un_proc su) l) as [x|] eqn:E; [|done].
    apply su_of_elem in E as [Hin E]. destruct H2. rewrite <- E. by apply list_elem_of_fmap_2.
  - intros (H1 & H2 & H3 & (H4 & H5 & H6 & H7)). split_and!; try done; [|lia].
    intros (x & Hx & Hin)%list_elem_of_fmap. rewrite Hx, (elem_su_of l x) in H2; done.
Qed.

(** The adjustments with one structure in front. *)
Lemma undo_of_cons su l pr :
  undo_of (su :: l) pr = if un_proc su =? pr then ents_map (un_ent su) else undo_of l pr.
Proof. unfold undo_of. cbn. by destruct (un_proc su =? pr). Qed.

Lemma undo_of_nil l pr tot : undos_wf l tot -> (undo_of l pr = ∅) <-> (su_of pr l = None).
Proof.
  intros (_ & _ & Hf & _). unfold undo_of.
  destruct (su_of pr l) as [su|] eqn:E; [|done]. split; [|done]. intros Hm.
  apply su_of_elem in E as [Hin _]. rewrite Forall_forall in Hf.
  destruct (Hf _ Hin) as (Hne & Hok & _). apply ents_size in Hok. rewrite Hm in Hok.
  rewrite map_size_empty in Hok. destruct (un_ent su); done.
Qed.

(** The effect of an addition on a structure of the list. *)
Definition put_ents (a : Z) (ents : list undo) (l : list sem_undo) : list sem_undo :=
  match ents with [] => su_remove a l | _ => su_store a ents l end.

Lemma put_ents_wf l tot su ents :
  undos_wf l tot -> su ∈ l -> ents_ok ents -> Z.of_nat (length ents) <= SEMUME ->
  undos_wf (put_ents (un_addr su) ents l) (match ents with [] => tot - 1 | _ => tot end) /\
  (forall pr, undo_of (put_ents (un_addr su) ents l) pr =
     if un_proc su =? pr then ents_map ents else undo_of l pr) /\
  (ents <> [] ->
   su_of (un_proc su) (put_ents (un_addr su) ents l) = Some (SemUndo (un_addr su) (un_proc su) ents)) /\
  (forall su', su_at (un_addr su) (put_ents (un_addr su) ents l) = Some su' ->
   un_proc su' = un_proc su).
Proof.
  intros Hwf Hin Hok Hlen. pose proof Hwf as (Ha & _).
  pose proof (elem_su_at _ _ Ha Hin) as Hat. pose proof (su_remove_perm _ _ _ Hat) as Hp.
  pose proof (undos_wf_perm _ _ _ Hwf Hp) as Hwf'.
  assert (Hu : forall pr, undo_of l pr = if un_proc su =? pr then ents_map (un_ent su)
                                       else undo_of (su_remove (un_addr su) l) pr).
  { intros pr. by rewrite <- undo_of_cons, (undo_of_perm _ _ _ _ Hwf Hp). }
  apply undos_wf_cons in Hwf' as (H1 & H2 & H3 & H4).
  destruct ents as [|e ents]; cbn [put_ents].
  - split; [done|]. split; [|split; [done|]].
    + intros pr. rewrite Hu.
      destruct (Z.eqb_spec (un_proc su) pr) as [<-|]; [|done]. by apply (undo_of_nil _ _ _ H4).
    + intros su' [Hin' Heq]%su_at_elem. destruct H1. apply list_elem_of_fmap. by exists su'.
  - pose proof (su_store_perm _ _ _ (e :: ents) Hat) as Hp'. symmetry in Hp'.
    assert (Hc : undos_wf (SemUndo (un_addr su) (un_proc su) (e :: ents) ::
                           su_remove (un_addr su) l) tot).
    { apply undos_wf_cons. split; [done|]. split; [done|]. split; [|done]. by split. }
    split; [by eapply undos_wf_perm|]. split.
    + intros pr. rewrite (undo_of_perm _ _ _ _ Hc Hp'), undo_of_cons, Hu. cbn.
      by destruct (un_proc su =? pr).
    + split.
      { intros _. rewrite (su_of_perm _ _ _ (proj1 (proj2 Hc)) Hp'). cbn. by rewrite Z.eqb_refl. }
      intros su' [Hin' Heq]%su_at_elem. rewrite <- Hp' in Hin'.
      apply elem_of_cons in Hin' as [->|Hin']; [done|]. destruct H1.
      apply list_elem_of_fmap. by exists su'.
Qed.

(** ** One adjustment *)

(** [*supptr] is NULL or the structure of the process. *)
Definition sup_ok (l : list sem_undo) (pr : Z) (supptr : option Z) : Prop :=
  match supptr with
  | None => True
  | Some a => exists su, su_of pr l = Some su /\ un_addr su = a
  end.

(** It may also point to a structure that was freed, but not to another one. *)
Definition sup_weak (l : list sem_undo) (pr : Z) (supptr : option Z) : Prop :=
  match supptr with
  | None => True
  | Some a => forall su, su_at a l = Some su -> un_proc su = pr
  end.

(** The part of the state that the undo functions change. *)
Definition with_undos (st : semst) (l : list sem_undo) : semst :=
  set_undos l (Z.of_nat (length l)) st.

Lemma with_undos_id st : semutot st = Z.of_nat (length (semu_list st)) ->
  with_undos st (semu_list st) = st.
Proof. intros H. destruct st; cbn in *. unfold with_undos, set_undos. cbn. by rewrite H. Qed.

(** The adjustments of the others are the same. *)
Definition others_keep (l l' : list sem_undo) (pr : Z) : Prop :=
  forall pr', pr' <> pr -> undo_of l' pr' = undo_of l pr'.

Lemma adjust_entry_spec st su id num d :
  undos_wf (semu_list st) (semutot st) -> su ∈ semu_list st ->
  0 <= num < 32768 -> s16 d <> 0 ->
  exists l e,
    adjust_entry st su id num d = (with_undos st l, e) /\
    undos_wf l (Z.of_nat (length l)) /\ others_keep (semu_list st) l (un_proc su) /\
    sup_weak l (un_proc su) (Some (un_addr su)) /\ Z.of_nat (length l) <= semutot st /\
    (e = 0 /\ ~ full (undo_of (semu_list st) (un_proc su)) (id, num) /\
       undo_of l (un_proc su) = adj_map (undo_of (semu_list st) (un_proc su)) (id, num) d /\
       (undo_of l (un_proc su) <> ∅ -> sup_ok l (un_proc su) (Some (un_addr su))) \/
     e = EINVAL /\ l = semu_list st /\ full (undo_of (semu_list st) (un_proc su)) (id, num)).
Proof.
  intros Hwf Hin Hnum Hd. pose proof Hwf as (_ & Hpr & Hok & Htot).
  assert (Hd0 : d <> 0) by (intros ->; by apply Hd).
  rewrite Forall_forall in Hok. destruct (Hok _ Hin) as (_ & Heok & Hlen).
  assert (Hu : undo_of (semu_list st) (un_proc su) = ents_map (un_ent su)).
  { unfold undo_of. by rewrite (elem_su_of _ _ Hpr Hin). }
  rewrite adjust_entry_eq, Hu by done.
  pose proof (adj_ents_spec id num d _ Heok Hlen Hnum Hd) as Hspec.
  destruct (adj_ents id num d (un_ent su)) as [ents|].
  - destruct Hspec as (Hnf & Heok' & Hlen' & Hm).
    destruct (put_ents_wf _ _ _ _ Hwf Hin Heok' Hlen') as (Hw & Hof & Hsu & Hweak).
    exists (put_ents (un_addr su) ents (semu_list st)), 0.
    pose proof Hw as (_ & _ & _ & Hl).
    assert (Hup : undo_of (put_ents (un_addr su) ents (semu_list st)) (un_proc su) = ents_map ents)
      by (by rewrite Hof, Z.eqb_refl).
    split; [unfold with_undos; rewrite <- Hl; by destruct ents|]. split; [by rewrite <- Hl|].
    split; [intros pr' Hne; rewrite Hof; by destruct (Z.eqb_spec (un_proc su) pr')|].
    split; [done|]. split; [rewrite <- Hl; destruct ents; lia|].
    left. split; [done|]. split; [done|]. rewrite Hup. split; [done|]. intros Hne.
    eexists. split; [apply Hsu|done]. by intros ->.
  - exists (semu_list st), EINVAL. rewrite with_undos_id by done. rewrite <- Htot.
    split; [done|]. split; [done|]. split; [done|]. split; [|split; [done|by right]].
    intros su' Hsu'. rewrite (elem_su_at _ _ (proj1 Hwf) Hin) in Hsu'. by injection Hsu' as <-.
Qed.

(** What an adjustment comes to: the addition; or no structure left; or a full
    structure.  The last two change nothing. *)
Definition adjusted (st : semst) (l : list sem_undo) (pr : Z) (k : Z * Z) (d : Z)
    (supptr : option Z) (e : Z) : Prop :=
  undos_wf l (Z.of_nat (length l)) /\ others_keep (semu_list st) l pr /\
  sup_weak l pr supptr /\
  (semutot st <= semmnu (info st) -> Z.of_nat (length l) <= semmnu (info st)) /\
  (e = 0 /\ ~ full (undo_of (semu_list st) pr) k /\
     undo_of l pr = adj_map (undo_of (semu_list st) pr) k d /\
     (undo_of l pr <> ∅ -> sup_ok l pr supptr) /\ supptr <> None /\
     (undo_of (semu_list st) pr <> ∅ \/ semutot st <> semmnu (info st)) \/
   e = ENOSPC /\ l = semu_list st /\ undo_of (semu_list st) pr = ∅ /\
     semutot st = semmnu (info st) \/
   e = EINVAL /\ l = semu_list st /\ full (undo_of (semu_list st) pr) k /\
     sup_ok l pr supptr /\ supptr <> None).

Lemma adjust_found st su id num d :
  undos_wf (semu_list st) (semutot st) -> su ∈ semu_list st ->
  0 <= num < 32768 -> s16 d <> 0 ->
  exists l e,
    adjust_entry st su id num d = (with_undos st l, e) /\
    adjusted st l (un_proc su) (id, num) d (Some (un_addr su)) e.
Proof.
  intros Hwf Hin Hnum Hd.
  destruct (adjust_entry_spec st su id num d Hwf Hin Hnum Hd) as (l & e & -> & Hl & Ho & Hw & Ht & Hc).
  exists l, e. split; [done|]. split; [done|]. split; [done|]. split; [done|]. split; [lia|].
  assert (Hsu : su_of (un_proc su) (semu_list st) = Some su) by (by apply elem_su_of; [apply Hwf|]).
  destruct Hc as [(-> & H1 & H2 & H3)|(-> & -> & H1)]; [left|right; right].
  - split; [done|]. split; [done|]. split; [done|]. split; [done|]. split; [done|]. left.
    rewrite undo_of_nil by done. by rewrite Hsu.
  - split; [done|]. split; [done|]. split; [done|]. split; [by exists su|done].
Qed.

Lemma adjust_new new st pr id num d :
  undos_wf (semu_list st) (semutot st) -> su_of pr (semu_list st) = None ->
  semutot st <> semmnu (info st) -> new ∉ (un_addr <$> semu_list st) -> 0 <= num < 32768 -> s16 d <> 0 ->
  adjusted st (SemUndo new pr [Undo (s16 d) (s16 num) id] :: semu_list st) pr (id, num) d
    (Some new) 0.
Proof.
  intros Hwf Hsu Hmax Hnew Hnum Hd.
  pose proof (proj2 (undo_of_nil _ pr _ Hwf) Hsu) as Hemp.
  assert (Hw : undos_wf (SemUndo new pr [Undo (s16 d) (s16 num) id] :: semu_list st)
    (semutot st + 1)).
  { apply undos_wf_cons. split; [done|]. split; [done|]. split; [|by rewrite Z.add_simpl_r].
    split; [done|]. split; [|done].
    apply ents_ok_cons. split; [done|]. split; [|by split; constructor].
    split; [done|]. apply s16_range. }
  pose proof Hw as (_ & _ & _ & Hl). unfold adjusted. rewrite <- Hl, Hemp. split; [done|].
  split; [intros pr' Hne; rewrite undo_of_cons; cbn; by destruct (Z.eqb_spec pr pr')|].
  split; [intros su; cbn; rewrite Z.eqb_refl; by intros [= <-]|]. split; [lia|].
  left. split; [done|]. split; [by intros [_ ?]|].
  rewrite undo_of_cons. cbn [un_proc un_ent]. rewrite Z.eqb_refl. split.
  - unfold adj_map. rewrite lookup_empty. cbn [default from_option]. rewrite Z.add_0_l.
    rewrite (proj2 (Z.eqb_neq _ _) Hd), (s16_small num) by lia. done.
  - split; [|by auto]. intros _. eexists. cbn. by rewrite Z.eqb_refl.
Qed.

(** [semundo_adjust] adds to the adjustment of one semaphore for one process,
    or fails without a change when there is no room. *)
Lemma semundo_adjust_spec new st pr supptr id num d :
  undos_wf (semu_list st) (semutot st) -> sup_ok (semu_list st) pr supptr ->
  (supptr = None -> new ∉ (un_addr <$> semu_list st)) -> 0 <= num < 32768 -> s16 d <> 0 ->
  exists l supptr' e,
    semundo_adjust (PoolNow new) st pr supptr id num d = Ok (with_undos st l, supptr', e) /\
    adjusted st l pr (id, num) d supptr' e.
Proof.
  intros Hwf Hsup Hnew Hnum Hd. assert (Hd0 : d <> 0) by (intros ->; by apply Hd).
  assert (Hold : forall su, su_of pr (semu_list st) = Some su -> exists l supptr' e,
    (match su_at (un_addr su) (semu_list st) with
     | None => Panic
     | Some suptr => let '(st, error) := adjust_entry st suptr id num d in
                     Ok (st, Some (un_addr su), error)
     end) = Ok (with_undos st l, supptr', e) /\ adjusted st l pr (id, num) d supptr' e).
  { intros su Hsu. apply su_of_elem in Hsu as [Hin <-].
    rewrite (elem_su_at _ _ (proj1 Hwf) Hin).
    destruct (adjust_found st su id num d Hwf Hin Hnum Hd) as (l & e & -> & H). by eauto. }
  unfold semundo_adjust. destruct supptr as [a|].
  - destruct Hsup as (su & Hsu & <-). by apply Hold.
  - destruct (su_of pr (semu_list st)) as [su|] eqn:Hsu; [by apply Hold|].
    rewrite (proj2 (Z.eqb_neq _ _) Hd0). unfold semu_alloc. pose proof Hwf as (_ & _ & _ & Htot).
    destruct (Z.eqb_spec (semutot st) (semmnu (info st))) as [Heqb|Heqb].
    + exists (semu_list st), None, ENOSPC. rewrite with_undos_id by done.
      unfold adjusted. rewrite <- Htot. split; [done|]. split; [done|]. split; [done|].
      split; [done|]. split; [done|]. right. left. split; [done|]. split; [done|]. split; [|done]. by eapply undo_of_nil.
    + cbn -[adjust_entry]. rewrite Z.eqb_refl, adjust_entry_eq by done. cbn. rewrite Z.eqb_refl.
      pose proof (adjust_new new st pr id num d Hwf Hsu Heqb (Hnew eq_refl) Hnum Hd) as Ha.
      eexists _, (Some new), 0. split; [|apply Ha].
      unfold with_undos, set_undos. cbn -[Z.of_nat]. by rewrite Nat2Z.inj_succ, <- Htot.
Qed.

(** ** The adjustments of a vector *)

(** An operation whose SEM_UNDO matters. *)
Definition counts (sop : sembuf) : bool := is_undo sop && negb (sem_op sop =? 0).

Definition sop_ok (sop : sembuf) : Prop :=
  0 <= sem_num sop < 32768 /\ -32768 <= sem_op sop < 32768.

Definition adj_op (ix : Z) (m : gmap (Z * Z) Z) (sop : sembuf) : gmap (Z * Z) Z :=
  if counts sop then adj_map m (ix, sem_num sop) (- sem_op sop) else m.

(** The adjustments after a vector. *)
Definition adj_all (ix : Z) (m : gmap (Z * Z) Z) (sops : list sembuf) : gmap (Z * Z) Z :=
  foldl (adj_op ix) m sops.

(** Each adjustment of the vector finds room. *)
Fixpoint fits (ix : Z) (m : gmap (Z * Z) Z) (sops : list sembuf) : bool :=
  match sops with
  | [] => true
  | sop :: sops' =>
      negb (counts sop && bool_decide (full m (ix, sem_num sop))) &&
      fits ix (adj_op ix m sop) sops'
  end.

(** No adjustment of the vector takes away the last entry of the process while
    another one follows. *)
Fixpoint held (ix : Z) (m : gmap (Z * Z) Z) (sops : list sembuf) : bool :=
  match sops with
  | [] => true
  | sop :: sops' =>
      negb (counts sop && existsb counts sops' && bool_decide (adj_op ix m sop = ∅)) &&
      held ix (adj_op ix m sop) sops'
  end.

Lemma s16_eq_mod x y : s16 x = s16 y <-> x mod 65536 = y mod 65536.
Proof.
  unfold wraps. change (2 ^ (16 - 1)) with 32768. change (2 ^ 16) with 65536.
  split; intros H; Z.div_mod_to_equations; lia.
Qed.

Lemma s16_add_l x y : s16 (s16 x + y) = s16 (x + y).
Proof.
  apply s16_eq_mod. unfold wraps. change (2 ^ (16 - 1)) with 32768. change (2 ^ 16) with 65536.
  Z.div_mod_to_equations; lia.
Qed.

Lemma s16_opp x : -32768 <= x < 32768 -> x <> 0 -> s16 (- x) <> 0.
Proof.
  intros Hx H0 H. change (s16 (- x) = s16 0) in H. rewrite s16_eq_mod in H.
  Z.div_mod_to_equations; lia.
Qed.

(** Taking an addition back restores the map. *)
Lemma adj_map_back m k d :
  map_Forall (fun _ => val_ok) m -> s16 d <> 0 -> adj_map (adj_map m k (- d)) k d = m.
Proof.
  intros Hm Hd. unfold adj_map at 2.
  assert (Hv : s16 (default 0 (m !! k)) = default 0 (m !! k)).
  { destruct (m !! k) as [v|] eqn:E; [|done]. apply s16_small. by destruct (Hm k v E). }
  set (v := default 0 (m !! k)) in *.
  case_if.
  - assert (Hdv : s16 d = v).
    { rewrite <- Hv. replace v with ((v + - d) + d) by lia. rewrite <- s16_add_l, Heqb. done. }
    unfold adj_map. rewrite lookup_delete_eq. cbn [default from_option].
    rewrite Z.add_0_l, (proj2 (Z.eqb_neq _ _) Hd), Hdv, insert_delete_eq.
    apply insert_id. subst v. destruct (m !! k); [done|]. by rewrite Hdv in Hd.
  - unfold adj_map. rewrite lookup_insert_eq. cbn [default from_option]. unfold id.
    rewrite s16_add_l. replace (v + - d + d) with v by lia. rewrite Hv. subst v.
    destruct (m !! k) as [v|] eqn:E; cbn [default from_option]; unfold id.
    + destruct (Hm k v E) as [Hne _]. rewrite (proj2 (Z.eqb_neq _ _) Hne).
      rewrite insert_insert_eq. by apply insert_id.
    + by rewrite delete_insert_id.
Qed.

(** A map as the entries of a structure denote it. *)
Definition map_ok (m : gmap (Z * Z) Z) : Prop :=
  map_Forall (fun _ => val_ok) m /\ Z.of_nat (size m) <= SEMUME.

Lemma undo_of_ok l tot pr : undos_wf l tot -> map_ok (undo_of l pr).
Proof.
  intros (_ & _ & Hf & _). unfold undo_of. destruct (su_of pr l) as [su|] eqn:E.
  2:{ split; [apply map_Forall_empty|]. by rewrite map_size_empty. }
  apply su_of_elem in E as [Hin _]. rewrite Forall_forall in Hf.
  destruct (Hf _ Hin) as (_ & Hok & Hlen). split; [|by rewrite ents_size].
  intros k v Hk. apply elem_of_list_to_map_2, list_elem_of_fmap in Hk as (e & [= -> ->] & He).
  destruct Hok as [_ Hok]. rewrite Forall_forall in Hok. by apply Hok.
Qed.

(** How the operations [passed] (last first) led from one map to another: each
    map on the way fits, and is empty only before the first adjustment. *)
Inductive trail (ix : Z) (m0 : gmap (Z * Z) Z) : list sembuf -> gmap (Z * Z) Z -> Prop :=
| trail_nil : trail ix m0 [] m0
| trail_cons sop passed m :
    trail ix m0 passed m -> map_ok m -> sop_ok sop ->
    (counts sop = true -> existsb counts passed = true -> m <> ∅) ->
    trail ix m0 (sop :: passed) (adj_op ix m sop).

Lemma trail_none ix m0 passed m :
  trail ix m0 passed m -> existsb counts passed = false -> m = m0.
Proof.
  induction 1 as [|sop passed m Ht IH Hm Hok Hne]; [done|]. cbn. unfold adj_op.
  destruct (counts sop); [done|]. done.
Qed.

Lemma undo_back_skip pg st pr supptr ix sop sops :
  counts sop = false ->
  undo_back pg st pr supptr ix (sop :: sops) = undo_back pg st pr supptr ix sops.
Proof. unfold counts. cbn. by destruct (is_undo sop), (sem_op sop =? 0). Qed.

Lemma undo_loop_skip pg st pr supptr ix passed sop sops :
  counts sop = false ->
  undo_loop pg st pr supptr ix passed (sop :: sops) =
    undo_loop pg st pr supptr ix (sop :: passed) sops.
Proof. unfold counts. cbn. by destruct (is_undo sop), (sem_op sop =? 0). Qed.

Lemma counts_op sop : counts sop = true -> is_undo sop = true /\ sem_op sop <> 0.
Proof. unfold counts. intros H. by zify_bool. Qed.

Lemma counts_adj sop : sop_ok sop -> counts sop = true ->
  s16 (sem_op sop) <> 0 /\ s16 (- sem_op sop) <> 0.
Proof.
  intros [_ Hr] [_ H0]%counts_op. split; [|by apply s16_opp]. by rewrite s16_small.
Qed.

Lemma others_keep_trans l1 l2 l3 pr :
  others_keep l1 l2 pr -> others_keep l2 l3 pr -> others_keep l1 l3 pr.
Proof. intros H1 H2 pr' Hne. by rewrite H2, H1. Qed.

(** Taking a step back leads to the map before it. *)
Lemma step_back st l ix sop supptr e pr m :
  adjusted st l pr (ix, sem_num sop) (sem_op sop) supptr e ->
  undo_of (semu_list st) pr = adj_map m (ix, sem_num sop) (- sem_op sop) ->
  map_ok m -> sop_ok sop -> counts sop = true ->
  adj_map m (ix, sem_num sop) (- sem_op sop) <> ∅ ->
  e = 0 /\ undo_of l pr = m /\ (m <> ∅ -> sup_ok l pr supptr).
Proof.
  intros (_ & _ & _ & _ & Hc) Hm [Hv Hs] Hok Hcnt Hne.
  destruct (counts_adj _ Hok Hcnt) as [Hd _]. rewrite Hm in Hc.
  destruct Hc as [(-> & _ & Hl & Hsup & _)|[(_ & _ & H & _)|(_ & _ & [Hf Hf'] & _)]]; [|done|].
  - rewrite adj_map_back in Hl by done. rewrite Hl in Hsup. done.
  - unfold adj_map in Hf, Hf'. case_if_in Hf; [|by rewrite lookup_insert_eq in Hf].
    rewrite map_size_delete in Hf'. destruct (m !! (ix, sem_num sop)) eqn:E.
    + assert (0 < size m)%nat; [|lia]. apply Nat.neq_0_lt_0.
      intros ->%map_size_empty_inv. done.
    + rewrite Z.add_0_l in Heqb. cbn [default from_option] in Heqb. by destruct (counts_adj _ Hok Hcnt).
Qed.

Lemma undo_back_spec new pr ix m0 passed m :
  trail ix m0 passed m -> forall st supptr,
  undos_wf (semu_list st) (semutot st) -> undo_of (semu_list st) pr = m ->
  (existsb counts passed = true -> m <> ∅ /\ sup_ok (semu_list st) pr supptr /\ supptr <> None) ->
  exists l supptr',
    undo_back (PoolNow new) st pr supptr ix passed = Ok (with_undos st l, supptr') /\
    undos_wf l (Z.of_nat (length l)) /\ others_keep (semu_list st) l pr /\ undo_of l pr = m0.
Proof.
  induction 1 as [|sop passed m Ht IH Hm Hok Hne]; intros st supptr Hwf Hof Hsup.
  { exists (semu_list st), supptr. pose proof Hwf as (_ & _ & _ & Htot).
    rewrite with_undos_id by done. rewrite <- Htot. by split. }
  unfold adj_op in Hof, Hsup. destruct (counts sop) eqn:Hcnt.
  2:{ rewrite undo_back_skip by done. apply IH; [done|done|]. intros Hp. apply Hsup. cbn.
      by rewrite Hcnt, Hp. }
  destruct Hsup as (Hne' & Hsok & Hsn); [cbn; by rewrite Hcnt|].
  destruct (counts_op _ Hcnt) as [Hu H0]. destruct (counts_adj _ Hok Hcnt) as [Hd _].
  cbn [undo_back]. rewrite Hu, (proj2 (Z.eqb_neq _ _) H0). cbn [negb].
  destruct (semundo_adjust_spec new st pr supptr ix (sem_num sop) (sem_op sop))
    as (l & sup' & e & -> & Ha); [done|done|done|apply Hok|done|]. cbn [mbind outcome_bind].
  destruct (step_back st l ix sop sup' e pr m Ha Hof Hm Hok Hcnt Hne') as (-> & Hl & Hs).
  cbn [Z.eqb negb].
  destruct (IH (with_undos st l) sup') as (l' & sup'' & -> & Hw' & Ho' & Hof').
  - by destruct Ha.
  - done.
  - intros Hp. specialize (Hne eq_refl Hp). split; [done|]. split; [by apply Hs|].
    destruct Ha as (_ & _ & _ & _ & [(_ & _ & _ & _ & ? & _)|[(? & _)|(? & _)]]); done.
  - exists l', sup''. split; [done|]. split; [done|]. split; [|done].
    eapply others_keep_trans; [apply Ha|done].
Qed.

(** What the loop over the requests comes to, for a process with map [m0]. *)
Definition looped (st : semst) (l : list sem_undo) (pr ix : Z) (m0 m : gmap (Z * Z) Z)
    (sops : list sembuf) (e : Z) : Prop :=
  undos_wf l (Z.of_nat (length l)) /\ others_keep (semu_list st) l pr /\
  (e = 0 /\ fits ix m sops = true /\ undo_of l pr = adj_all ix m sops /\
     (existsb counts sops = true -> m <> ∅ \/ semutot st <> semmnu (info st)) \/
   e = EINVAL /\ fits ix m sops = false /\ undo_of l pr = m0 \/
   e = ENOSPC /\ m0 = ∅ /\ m = ∅ /\ semutot st = semmnu (info st) /\ existsb counts sops = true /\
     undo_of l pr = m0).

Lemma looped_skip st l pr ix m0 m sop sops e :
  counts sop = false -> looped st l pr ix m0 m sops e -> looped st l pr ix m0 m (sop :: sops) e.
Proof. intros Hc. unfold looped, adj_all, adj_op. cbn. unfold adj_op. by rewrite Hc. Qed.

(** The loop over the requests after one that was adjusted. *)
Lemma looped_step st l l' pr ix m0 sop sops supptr e :
  counts sop = true -> adjusted st l pr (ix, sem_num sop) (- sem_op sop) supptr 0 ->
  held ix (undo_of (semu_list st) pr) (sop :: sops) = true ->
  looped (with_undos st l) l' pr ix m0 (undo_of l pr) sops e ->
  looped st l' pr ix m0 (undo_of (semu_list st) pr) (sop :: sops) e.
Proof.
  intros Hc (Hw & Ho & _ & _ & Ha) Hh (Hw' & Ho' & Hl).
  destruct Ha as [(_ & Hnf & Hof & _ & _ & Hroom)|[(? & _)|(? & _)]]; [|done|done].
  assert (Hop : adj_op ix (undo_of (semu_list st) pr) sop = undo_of l pr).
  { unfold adj_op. by rewrite Hc. }
  cbn [held] in Hh. rewrite Hc, Hop in Hh. apply andb_true_iff in Hh as [Hh%negb_true_iff _].
  split; [done|]. split; [by eapply others_keep_trans|]. cbn [fits existsb].
  rewrite Hc, Hop, bool_decide_eq_false_2 by done. cbn [andb negb orb].
  destruct Hl as [(-> & Hf & Hm & _)|[(-> & Hf & Hm)|(-> & -> & Hm & _ & Hx & _)]].
  - left. split; [done|]. split; [done|]. split; [|done].
    unfold adj_all. cbn [foldl]. by rewrite Hop.
  - right. left. done.
  - rewrite Hx in Hh. by apply bool_decide_eq_false in Hh.
Qed.

Lemma undo_loop_spec new pr ix m0 sops : forall st passed m supptr,
  undos_wf (semu_list st) (semutot st) -> undo_of (semu_list st) pr = m ->
  trail ix m0 passed m -> Forall sop_ok sops -> held ix m sops = true ->
  (supptr = None /\ existsb counts passed = false /\ new ∉ (un_addr <$> semu_list st) \/
   supptr <> None /\
   (existsb counts sops = true -> m <> ∅ /\ sup_ok (semu_list st) pr supptr)) ->
  exists l e,
    undo_loop (PoolNow new) st pr supptr ix passed sops = Ok (with_undos st l, e) /\
    looped st l pr ix m0 m sops e.
Proof.
  induction sops as [|sop sops IH]; intros st passed m supptr Hwf Hof Ht Hok Hheld Hsup.
  { exists (semu_list st), 0. pose proof Hwf as (_ & _ & _ & Htot).
    rewrite with_undos_id by done. split; [done|]. unfold looped. rewrite <- Htot.
    split; [done|]. split; [done|]. left. by subst m. }
  apply Forall_cons in Hok as [Hs Hok].
  assert (Hmok : map_ok m) by (subst m; by eapply undo_of_ok).
  pose proof Hheld as Hh. cbn [held] in Hh. apply andb_true_iff in Hh as [Hh Hh'].
  destruct (counts sop) eqn:Hc.
  2:{ assert (Hop : adj_op ix m sop = m) by (unfold adj_op; by rewrite Hc). rewrite Hop in Hh'.
      rewrite undo_loop_skip by done.
      destruct (IH st (sop :: passed) m supptr) as (l & e & Heq & Hl); [done|done| |done|done| |].
      - rewrite <- Hop. constructor; [done|done|done|]. by rewrite Hc.
      - cbn [existsb] in Hsup |- *. rewrite Hc in Hsup |- *. done.
      - exists l, e. split; [done|]. by apply looped_skip. }
  destruct (counts_op _ Hc) as [Hu H0]. destruct (counts_adj _ Hs Hc) as [_ Hd].
  cbn [undo_loop]. rewrite Hu, (proj2 (Z.eqb_neq _ _) H0). cbn [negb].
  destruct (semundo_adjust_spec new st pr supptr ix (sem_num sop) (- sem_op sop))
    as (l & sup' & e & -> & Ha); [done| | |apply Hs|done|].
  { destruct Hsup as [(-> & _)|[_ Hsup]]; [done|]. apply Hsup. cbn. by rewrite Hc. }
  { intros ->. by destruct Hsup as [(_ & _ & ?)|[? _]]. }
  assert (Hsup' : existsb counts passed = true ->
    m <> ∅ /\ sup_ok (semu_list st) pr supptr /\ supptr <> None).
  { intros Hp. destruct Hsup as [(_ & Hp' & _)|[Hn Hsup]]; [congruence|].
    destruct Hsup; [cbn; by rewrite Hc|done]. }
  cbn [mbind outcome_bind]. destruct (Z.eqb_spec e 0) as [->|He].
  - pose proof Ha as (Hw & _ & _ & _ & [(_ & _ & Hm & Hsl & Hsn & _)|[(? & _)|(? & _)]]); [|done|done].
    rewrite Hof in Hm. replace (adj_map m (ix, sem_num sop) (- sem_op sop)) with (adj_op ix m sop)
      in Hm by (unfold adj_op; by rewrite Hc).
    destruct (IH (with_undos st l) (sop :: passed) (undo_of l pr) sup')
      as (l' & e' & Heq & Hl); [done|done| |done| | |].
    + rewrite Hm. constructor; [done|done|done|]. intros _ Hp. by apply Hsup'.
    + by rewrite Hm.
    + right. split; [done|]. intros Hx. rewrite Hx in Hh. cbn [andb] in Hh.
      apply negb_true_iff, bool_decide_eq_false in Hh. rewrite <- Hm in Hh.
      split; [done|]. by apply Hsl.
    + exists l', e'. split; [done|]. rewrite <- Hof in Hheld |- *. by eapply looped_step.
  - pose proof Hwf as (_ & _ & _ & Htot).
    assert (Hl : l = semu_list st /\
      (existsb counts passed = true -> m <> ∅ /\ sup_ok (semu_list st) pr sup' /\ sup' <> None)).
    { destruct Ha as (_ & _ & _ & _ & [(? & _)|[(_ & -> & H1 & _)|(_ & -> & [_ H1] & H2)]]); [done| |].
      - split; [done|]. intros Hp. destruct (Hsup' Hp) as [? _]. congruence.
      - split; [done|]. intros Hp. destruct (Hsup' Hp) as [? _]. done. }
    destruct Hl as [-> Hb]. rewrite with_undos_id by done.
    destruct (undo_back_spec new pr ix m0 passed m Ht st sup' Hwf Hof Hb)
      as (l' & sup'' & -> & Hw' & Ho' & Hof').
    cbn [mbind outcome_bind]. exists l', e. split; [done|]. split; [done|]. split; [done|].
    destruct Ha as (_ & _ & _ & _ & [(? & _)|[(-> & _ & H1 & H2)|(-> & _ & H1 & _)]]); [done| |].
    + right. right. rewrite Hof in H1. subst m. split; [done|]. split.
      * rewrite <- H1. symmetry. apply (trail_none _ _ _ _ Ht).
        destruct (existsb counts passed) eqn:E; [|done]. by destruct (Hsup' eq_refl).
      * split; [done|]. split; [done|]. split; [cbn; by rewrite Hc|done].
    + right. left. split; [done|]. split; [|done]. cbn [fits]. rewrite Hof in H1.
      by rewrite Hc, bool_decide_eq_true_2.
Qed.

(** ** Clearing entries *)

Lemma remove_ent_take i ents : (i < length ents)%nat -> take i (remove_ent i ents) = take i ents.
Proof.
  intros Hi. unfold remove_ent. destruct (Nat.ltb_spec i (pred (length ents))).
  - destruct (ents !! pred (length ents)).
    + rewrite take_insert_ge by lia. rewrite take_take. f_equal. lia.
    + rewrite take_take. f_equal. lia.
  - rewrite take_take. f_equal. lia.
Qed.

Lemma remove_ent_drop i ents e :
  ents !! i = Some e -> drop i (remove_ent i ents) ≡ₚ drop (S i) ents.
Proof.
  intros Hi. pose proof (remove_ent_perm _ _ _ Hi) as Hp.
  pose proof (lookup_lt_Some _ _ _ Hi) as Hlt.
  rewrite <- (take_drop i (remove_ent i ents)), remove_ent_take in Hp by done.
  rewrite <- (take_drop_middle _ _ _ Hi) in Hp at 1.
  apply (Permutation_app_inv_l (e :: take i ents)). cbn.
  rewrite <- Hp. solve_Permutation.
Qed.

(** With -1, the entries of the set go. *)
Lemma clear_ents_all id fuel : forall i ents,
  (length ents - i < fuel)%nat ->
  clear_ents fuel i id (-1) ents ≡ₚ take i ents ++ filter (fun e => un_id e <> id) (drop i ents).
Proof.
  induction fuel as [|fuel IH]; intros i ents Hf; [lia|]. cbn -[Nat.ltb].
  destruct (ents !! i) as [e|] eqn:Hi.
  2:{ apply lookup_ge_None in Hi. rewrite take_ge, drop_ge by done.
      by rewrite filter_nil, app_nil_r. }
  pose proof (lookup_lt_Some _ _ _ Hi) as Hlt.
  rewrite (drop_S _ _ _ Hi), filter_cons. case_if.
  - rewrite decide_False by (by intros []).
    pose proof (remove_ent_length i ents Hlt) as Hl.
    rewrite IH by (case_match; lia).
    rewrite <- (remove_ent_drop _ _ _ Hi), <- (remove_ent_take i ents) by done.
    destruct (Nat.ltb_spec i (length (remove_ent i ents))); [done|].
    by rewrite !take_ge, !drop_ge, filter_nil by lia.
  - rewrite decide_True by done. rewrite IH by lia. rewrite (take_S_r _ _ _ Hi).
    by rewrite <- app_assoc.
Qed.

(** With a semaphore number, at most the entry of that semaphore goes. *)
Lemma clear_ents_one id num fuel : num <> -1 -> forall i ents,
  clear_ents fuel i id num ents = ents \/
  exists j e, ents !! j = Some e /\ un_id e = id /\ un_num e = num /\
    clear_ents fuel i id num ents = remove_ent j ents.
Proof.
  intros Hnum. induction fuel as [|fuel IH]; intros i ents; [by left|]. cbn.
  destruct (ents !! i) as [e|] eqn:Hi; [|by left].
  rewrite (proj2 (Z.eqb_neq _ _) Hnum). cbn.
  destruct (Z.eqb_spec (un_id e) id); [|apply IH].
  destruct (Z.eqb_spec (un_num e) num); [|by left]. right. by exists i, e.
Qed.

(** How clearing changes the adjustments of a process. *)
Definition cleared (id num : Z) (m m' : gmap (Z * Z) Z) : Prop :=
  if num =? -1 then m' = filter (fun kv => kv.1.1 <> id) m
  else m' = m \/ m' = delete (id, num) m.

Lemma ents_map_filter id ents :
  ents_ok ents ->
  ents_ok (filter (fun e => un_id e <> id) ents) /\
  ents_map (filter (fun e => un_id e <> id) ents) = filter (fun kv => kv.1.1 <> id) (ents_map ents).
Proof.
  induction ents as [|e ents IH]; intros Hok.
  { split; [done|]. symmetry. apply map_filter_empty. }
  apply ents_ok_cons in Hok as (H1 & H2 & H3). destruct (IH H3) as [IH1 IH2].
  rewrite filter_cons, ents_map_cons. destruct (decide (un_id e <> id)) as [Hne|Heq].
  - rewrite map_filter_insert_True by done. rewrite ents_map_cons, IH2. split; [|done].
    apply ents_ok_cons. split; [|done]. rewrite IH2. by apply map_lookup_filter_None_2; left.
  - rewrite map_filter_insert_False, delete_id by done. done.
Qed.

Lemma clear_ents_map id num ents :
  ents_ok ents ->
  let ents' := clear_ents (S (length ents)) 0 id num ents in
  ents_ok ents' /\ (length ents' <= length ents)%nat /\ cleared id num (ents_map ents) (ents_map ents').
Proof.
  intros Hok ents'. subst ents'. unfold cleared. destruct (Z.eqb_spec num (-1)) as [->|Hn].
  - pose proof (clear_ents_all id (S (length ents)) 0 ents ltac:(lia)) as Hp.
    rewrite take_0, drop_0 in Hp. cbn [app] in Hp. symmetry in Hp.
    destruct (ents_map_filter id ents Hok) as [Hf Hm].
    destruct (ents_perm _ _ Hf Hp) as [Hok' Hm']. split; [done|].
    split; [|congruence]. rewrite <- (Permutation_length Hp). apply length_filter.
  - destruct (clear_ents_one id num (S (length ents)) Hn 0%nat ents) as [->|(j & e & Hj & <- & <- & ->)].
    { split; [done|]. split; [lia|by left]. }
    rewrite remove_ent_length by (by eapply lookup_lt_Some).
    destruct (ents_perm _ _ Hok (remove_ent_perm _ _ _ Hj)) as [Hok' Hm].
    apply ents_ok_cons in Hok' as (H1 & _ & H3). split; [done|]. split; [lia|]. right.
    by rewrite <- Hm, ents_map_cons, delete_insert_id.
Qed.

Lemma cleared_empty id num : cleared id num ∅ ∅.
Proof. unfold cleared. case_if; [by rewrite map_filter_empty|by left]. Qed.

Lemma clear_list_spec id num l : forall tot,
  undos_wf l tot ->
  undos_wf (clear_list id num l).1 (tot - (clear_list id num l).2) /\
  (forall pr, cleared id num (undo_of l pr) (undo_of (clear_list id num l).1 pr)) /\
  (forall pr, su_of pr l = None -> su_of pr (clear_list id num l).1 = None) /\
  (forall a, a ∉ (un_addr <$> l) -> a ∉ (un_addr <$> (clear_list id num l).1)).
Proof.
  induction l as [|su l IH]; intros tot Hwf.
  { cbn. rewrite Z.sub_0_r. split; [done|]. split; [|done]. intros. apply cleared_empty. }
  apply undos_wf_cons in Hwf as (H1 & H2 & (H3 & H4 & H5) & H6).
  destruct (IH _ H6) as (IH1 & IH2 & IH3 & IH4). cbn [clear_list].
  destruct (clear_list id num l) as [l' n]. cbn [fst snd] in *.
  destruct (clear_ents_map id num _ H4) as (Hok & Hlen & Hc).
  destruct (clear_ents (S (length (un_ent su))) 0 id num (un_ent su)) as [|e ents] eqn:E; cbn [fst snd fmap list_fmap] in *.
  - replace (tot - (n + 1)) with (tot - 1 - n) by lia. split; [done|]. split.
    + intros pr. rewrite undo_of_cons. destruct (Z.eqb_spec (un_proc su) pr) as [<-|]; [|done].
      unfold undo_of. by rewrite IH3.
    + split; [intros pr; cbn; by destruct (un_proc su =? pr); auto|].
      intros a [_ ?]%not_elem_of_cons. by apply IH4.
  - split.
    + apply undos_wf_cons. cbn. split; [by apply IH4|]. split; [by apply IH3|].
      split; [split; [done|]; split; [done|cbn in *; lia]|].
      by replace (tot - n - 1) with (tot - 1 - n) by lia.
    + split; [intros pr; rewrite !undo_of_cons; cbn; by destruct (un_proc su =? pr)|].
      split; [intros pr; cbn; destruct (un_proc su =? pr); [done|apply IH3]|].
      intros a [? ?]%not_elem_of_cons. apply not_elem_of_cons. split; [done|by apply IH4].
Qed.

Lemma clear_list_count id num l : 0 <= (clear_list id num l).2.
Proof.
  induction l as [|su l IH]; [done|]. cbn [clear_list].
  destruct (clear_list id num l) as [l' n]. cbn in IH.
  destruct (clear_ents _ _ _ _ _); cbn [snd]; lia.
Qed.

(** [semundo_clear] removes entries and nothing else. *)
Lemma semundo_clear_spec id num st :
  undos_wf (semu_list st) (semutot st) ->
  exists l, semundo_clear id num st = with_undos st l /\
    undos_wf l (Z.of_nat (length l)) /\ Z.of_nat (length l) <= semutot st /\
    forall pr, cleared id num (undo_of (semu_list st) pr) (undo_of l pr).
Proof.
  intros Hwf. unfold semundo_clear.
  destruct (clear_list_spec id num _ _ Hwf) as (H1 & H2 & _).
  pose proof (clear_list_count id num (semu_list st)) as Hn.
  destruct (clear_list id num (semu_list st)) as [l n]. cbn in *.
  exists l. pose proof H1 as (_ & _ & _ & Hl). unfold with_undos. rewrite <- Hl.
  split; [done|]. split; [done|]. split; [lia|done].
Qed.

End SemUndo.
