(* ===== verification/SemVec.v ===== *)
(** * System V semaphores: a vector of operations

    The abstract meaning of a vector is [vec]: the operations in order on the
    list of values, or [None] when one of them must wait.  The pass of
    [sys_semop] over the semaphores runs the prefix before the operation that
    must wait, and the rollback restores the semaphores it started from, with
    the wrap-around of [unsigned short] on both sides. *)

From S2P Require Import Prelude Ipc Sem SemUndo.
Import Ipc Sem SemUndo.

Module SemVec.

(** ** Semaphores and sets *)

Definition sem_ok (s : sem) : Prop := inu 16 (semval s) /\ inu 16 (semncnt s) /\ inu 16 (semzcnt s).

Record set_ok (sp : semid_ds) : Prop := SetOk {
  set_len : Z.of_nat (length (sem_base sp)) = sem_nsems sp;
  set_max : 0 < sem_nsems sp < 32768;
  set_sems : Forall sem_ok (sem_base sp);
  set_seq15 : inu 15 (seq (sem_perm sp));
}.

Definition vals (base : list sem) : list Z := semval <$> base.

(** ** The meaning of a vector *)

(** An operation that need not wait. *)
Definition runs (v op : Z) : bool :=
  if op <? 0 then 0 <=? v + op else if op =? 0 then v <=? 0 else true.

Fixpoint vec (vs : list Z) (sops : list sembuf) : option (list Z) :=
  match sops with
  | [] => Some vs
  | sop :: sops' =>
      match vs !! Z.to_nat (sem_num sop) with
      | None => None
      | Some v => if runs v (sem_op sop)
                  then vec (<[Z.to_nat (sem_num sop) := u16 (v + sem_op sop)]> vs) sops'
                  else None
      end
  end.

(** Operation [i] is the one that must wait. *)
Definition blocks_at (vs : list Z) (sops : list sembuf) (i : nat) (sop : sembuf) : Prop :=
  exists vs' v, vec vs (take i sops) = Some vs' /\ sops !! i = Some sop /\
    vs' !! Z.to_nat (sem_num sop) = Some v /\ runs v (sem_op sop) = false.

(** The operations of a vector that count in [do_undos]. *)
Definition undos (sops : list sembuf) : Z := Z.of_nat (length (filter counts sops)).

Definition in_set (sp : semid_ds) (sops : list sembuf) : Prop :=
  Forall (fun sop => 0 <= sem_num sop < sem_nsems sp) sops.

(** An operation as the type [struct sembuf] allows it. *)
Definition sop_typed (sop : sembuf) : Prop :=
  inu 16 (sem_num sop) /\ -32768 <= sem_op sop < 32768.

Lemma typed_ok sp sops :
  set_ok sp -> in_set sp sops -> Forall sop_typed sops -> Forall sop_ok sops.
Proof.
  intros [_ Hm _ _] Hin Ht. unfold in_set in Hin. rewrite Forall_forall in *. intros sop Hs.
  specialize (Hin _ Hs). destruct (Ht _ Hs) as [_ Hop]. split; [cbn in Hin; lia|done].
Qed.

(** ** Effects on the semaphores *)

Definition op_base (sop : sembuf) (base : list sem) : list sem :=
  on_sem (add_val (sem_op sop)) (sem_num sop) base.
Definition ops_base (sops : list sembuf) (base : list sem) : list sem :=
  foldl (fun base sop => op_base sop base) base sops.

Lemma alter_at_ext {A} (f g : A -> A) (l : list A) i :
  (forall x, l !! i = Some x -> f x = g x) -> alter f i l = alter g i l.
Proof.
  intros H. apply list_eq. intros j. destruct (decide (i = j)) as [<-|Hne].
  - rewrite !list_lookup_alter_eq. destruct (l !! i) eqn:E; [|done]. cbn. by rewrite H.
  - by rewrite !list_lookup_alter_ne.
Qed.

Lemma on_sem_length f n base : length (on_sem f n base) = length base.
Proof. apply length_alter. Qed.

Lemma on_sem_ok f n base :
  (forall s, sem_ok s -> sem_ok (f s)) -> Forall sem_ok base -> Forall sem_ok (on_sem f n base).
Proof.
  intros Hf Hb. unfold on_sem. apply Forall_alter; [done|]. intros s _ Hs. by apply Hf.
Qed.

Lemma add_val_ok d s : sem_ok s -> sem_ok (add_val d s).
Proof. intros (? & ? & ?). split_and!; cbn; try done. apply wrapu_range. lia. Qed.

Lemma set_val_ok v s : inu 16 v -> sem_ok s -> sem_ok (set_val v s).
Proof. by intros ? (? & ? & ?). Qed.

Lemma add_cnt_ok d (b : bool) s : sem_ok s -> sem_ok ((if b then add_zcnt d else add_ncnt d) s).
Proof.
  intros (? & ? & ?). destruct b; split_and!; cbn; try done; apply wrapu_range; lia.
Qed.

Lemma ops_base_ok sops base : Forall sem_ok base -> Forall sem_ok (ops_base sops base).
Proof.
  revert base. induction sops as [|sop sops IH]; intros base Hb; [done|].
  apply IH, on_sem_ok; [apply add_val_ok|done].
Qed.

Lemma ops_base_length sops base : length (ops_base sops base) = length base.
Proof.
  revert base. induction sops as [|sop sops IH]; intros base; [done|].
  cbn. unfold ops_base in IH. rewrite IH. apply on_sem_length.
Qed.

Lemma u16_add_l x y : u16 (u16 x + y) = u16 (x + y).
Proof. unfold wrapu. by rewrite Zplus_mod_idemp_l. Qed.

Lemma add_val_add d e s : add_val d (add_val e s) = add_val (e + d) s.
Proof.
  unfold add_val, set_val. cbn. by rewrite u16_add_l, Z.add_assoc.
Qed.

Lemma add_val_0 s : sem_ok s -> add_val 0 s = s.
Proof.
  intros (Hv & _). destruct s. unfold add_val, set_val. cbn in *.
  by rewrite Z.add_0_r, wrapu_small.
Qed.

(** Additions to semaphores commute. *)
Lemma op_comm d e n k base :
  on_sem (add_val d) n (on_sem (add_val e) k base) = on_sem (add_val e) k (on_sem (add_val d) n base).
Proof.
  unfold on_sem. destruct (decide (Z.to_nat n = Z.to_nat k)) as [->|Hne].
  - rewrite !list_alter_alter_eq. apply alter_at_ext. intros s _. cbn. rewrite !add_val_add. by rewrite Z.add_comm.
  - by apply list_alter_alter_ne.
Qed.

Lemma op_ops_comm d n sops base :
  on_sem (add_val d) n (ops_base sops base) = ops_base sops (on_sem (add_val d) n base).
Proof.
  revert base. induction sops as [|sop sops IH]; intros base; [done|].
  cbn. unfold ops_base in IH. rewrite IH. unfold op_base. by rewrite op_comm.
Qed.

Lemma op_back sop base :
  Forall sem_ok base -> on_sem (add_val (- sem_op sop)) (sem_num sop) (op_base sop base) = base.
Proof.
  intros Hb. unfold op_base, on_sem. rewrite list_alter_alter_eq.
  rewrite (alter_at_ext _ id); [by apply list_alter_id|]. intros s Hs. cbn. rewrite add_val_add.
  replace (sem_op sop + - sem_op sop) with 0 by lia. apply add_val_0.
  rewrite Forall_lookup in Hb. by eapply Hb.
Qed.

(** Taking the operations back, in the order in which they were done, restores
    the semaphores. *)
Lemma rollback_ops sops base : Forall sem_ok base -> rollback sops (ops_base sops base) = base.
Proof.
  revert base. induction sops as [|sop sops IH]; intros base Hb; [done|].
  cbn [rollback]. change (ops_base (sop :: sops) base) with (ops_base sops (op_base sop base)).
  rewrite op_ops_comm, op_back by done. by apply IH.
Qed.

(** ** The pass over the vector *)

Lemma vals_op sop base s :
  base !! Z.to_nat (sem_num sop) = Some s ->
  vals (op_base sop base) =
    <[Z.to_nat (sem_num sop) := u16 (semval s + sem_op sop)]> (vals base).
Proof.
  intros Hs. unfold vals, op_base, on_sem. apply list_eq. intros j.
  rewrite list_lookup_fmap. destruct (decide (Z.to_nat (sem_num sop) = j)) as [<-|Hne].
  - rewrite list_lookup_alter_eq, Hs, list_lookup_insert_eq; [done|].
    rewrite length_fmap. by eapply lookup_lt_Some.
  - rewrite list_lookup_alter_ne, list_lookup_insert_ne by done. by rewrite list_lookup_fmap.
Qed.

Lemma op_base_0 sop base : Forall sem_ok base -> sem_op sop = 0 -> op_base sop base = base.
Proof.
  intros Hb H0. unfold op_base, on_sem. rewrite (alter_at_ext _ id); [by apply list_alter_id|].
  intros s Hs. rewrite H0. apply add_val_0. rewrite Forall_lookup in Hb. by eapply Hb.
Qed.

Lemma undos_cons sop sops : undos (sop :: sops) = (if counts sop then 1 else 0) + undos sops.
Proof.
  unfold undos. rewrite filter_cons. destruct (counts sop) eqn:E.
  - rewrite decide_True by done. cbn [length]. lia.
  - rewrite decide_False by (intros []). lia.
Qed.

(** One operation that need not wait. *)
Lemma pass_step nsems base sop sops i wk un s :
  Forall sem_ok base -> 0 <= sem_num sop < nsems ->
  base !! Z.to_nat (sem_num sop) = Some s -> runs (semval s) (sem_op sop) = true ->
  exists wk',
    pass_ops nsems base (sop :: sops) i wk un =
      pass_ops nsems (op_base sop base) sops (S i) wk' (un + (if counts sop then 1 else 0)) /\
    (wk' = false -> wk = false /\
       (0 < sem_op sop -> semncnt s <= 0) /\
       (sem_op sop < 0 -> u16 (semval s + sem_op sop) = 0 -> semzcnt s <= 0)).
Proof.
  intros Hb Hn Hs Hr. cbn [pass_ops]. rewrite (proj2 (Z.leb_gt _ _)) by lia.
  unfold sem_at. rewrite (proj2 (Z.ltb_ge (sem_num sop) 0)) by lia. rewrite Hs.
  unfold runs in Hr. unfold counts. fold (op_base sop base).
  destruct (Z.ltb_spec (sem_op sop) 0) as [H1|H1].
  - apply Z.leb_le in Hr. rewrite (proj2 (Z.ltb_ge _ _) Hr).
    rewrite (proj2 (Z.eqb_neq (sem_op sop) 0)) by lia. rewrite andb_true_r. eexists. split.
    + destruct (is_undo sop); [reflexivity|]. by rewrite Z.add_0_r.
    + destruct ((u16 (semval s + sem_op sop) =? 0) && (0 <? semzcnt s)) eqn:E; [done|].
      intros ->. split; [done|]. split; [lia|]. intros _ H. rewrite H in E. cbn in E. lia.
  - destruct (Z.eqb_spec (sem_op sop) 0) as [H2|H2].
    + apply Z.leb_le in Hr. rewrite (proj2 (Z.ltb_ge _ _) Hr).
      rewrite (op_base_0 sop) by done. rewrite andb_false_r, Z.add_0_r.
      eexists. split; [reflexivity|]. intros ->. split; [done|]. lia.
    + rewrite andb_true_r. eexists. split.
      * destruct (is_undo sop); [reflexivity|]. by rewrite Z.add_0_r.
      * destruct (Z.ltb_spec 0 (semncnt s)); [done|]. intros ->. split; [done|]. lia.
Qed.

(** One operation that must wait. *)
Lemma pass_stop nsems base sop sops i wk un s :
  0 <= sem_num sop < nsems -> base !! Z.to_nat (sem_num sop) = Some s ->
  runs (semval s) (sem_op sop) = false ->
  pass_ops nsems base (sop :: sops) i wk un = Ok (base, i, false, wk, un).
Proof.
  intros Hn Hs Hr. cbn [pass_ops]. rewrite (proj2 (Z.leb_gt _ _)) by lia.
  unfold sem_at. rewrite (proj2 (Z.ltb_ge (sem_num sop) 0)) by lia. rewrite Hs.
  unfold runs in Hr. destruct (sem_op sop <? 0).
  - apply Z.leb_gt in Hr. by rewrite (proj2 (Z.ltb_lt _ _) Hr).
  - destruct (sem_op sop =? 0); [|done]. apply Z.leb_gt in Hr. by rewrite (proj2 (Z.ltb_lt _ _) Hr).
Qed.

(** Nothing that somebody waits for has happened: no semaphore with waiters for
    more was raised, none with waiters for zero went down to zero. *)
Fixpoint quiet (base : list sem) (sops : list sembuf) : Prop :=
  match sops with
  | [] => True
  | sop :: sops' =>
      (forall s, base !! Z.to_nat (sem_num sop) = Some s ->
         (0 < sem_op sop -> semncnt s <= 0) /\
         (sem_op sop < 0 -> u16 (semval s + sem_op sop) = 0 -> semzcnt s <= 0)) /\
      quiet (op_base sop base) sops'
  end.

(** The pass runs the vector up to the operation that must wait. *)
Lemma pass_ops_spec nsems sops : forall base i0 wk un,
  Forall sem_ok base -> Z.of_nat (length base) = nsems ->
  Forall (fun sop => 0 <= sem_num sop < nsems) sops ->
  exists i wk',
    pass_ops nsems base sops i0 wk un =
      Ok (ops_base (take i sops) base, (i0 + i)%nat, false, wk', un + undos (take i sops)) /\
    (wk' = false -> wk = false /\ quiet base (take i sops)) /\
    (i = length sops /\ vec (vals base) sops = Some (vals (ops_base sops base)) \/
     (i < length sops)%nat /\ vec (vals base) sops = None /\
       exists sop, blocks_at (vals base) sops i sop).
Proof.
  induction sops as [|sop sops IH]; intros base i0 wk un Hb Hlen Hr.
  { exists 0%nat, wk. cbn. rewrite Nat.add_0_r, Z.add_0_r. split; [done|]. split; [done|]. by left. }
  apply Forall_cons in Hr as [Hn Hr].
  destruct (lookup_lt_is_Some_2 base (Z.to_nat (sem_num sop))) as [s Hs]; [lia|].
  assert (Hv : vals base !! Z.to_nat (sem_num sop) = Some (semval s)).
  { unfold vals. by rewrite list_lookup_fmap, Hs. }
  destruct (runs (semval s) (sem_op sop)) eqn:Hrun.
  - destruct (pass_step nsems base sop sops i0 wk un s Hb Hn Hs Hrun) as (wk1 & -> & Hwk1).
    destruct (IH (op_base sop base) (S i0) wk1 (un + (if counts sop then 1 else 0)))
      as (i & wk' & -> & Hwk' & Hc);
      [by apply on_sem_ok; [apply add_val_ok|]|unfold op_base; by rewrite on_sem_length|done|].
    exists (S i), wk'. cbn [take]. rewrite undos_cons.
    replace (S i0 + i)%nat with (i0 + S i)%nat by lia. rewrite Z.add_assoc.
    split; [done|]. split.
    { intros ->. destruct (Hwk' eq_refl) as [-> Hq]. destruct (Hwk1 eq_refl) as [-> Hq1].
      split; [done|]. split; [|done]. intros s' Hs'. congruence. }
    cbn [vec length]. rewrite Hv, Hrun. rewrite (vals_op sop base s Hs) in Hc.
    destruct Hc as [[-> Hc]|(Hi & Hc & sop' & vs & v & H1 & H2)]; [by left|right].
    split; [lia|]. split; [done|]. exists sop', vs, v. cbn [take vec]. by rewrite Hv, Hrun.
  - rewrite (pass_stop nsems base sop sops i0 wk un s) by done.
    exists 0%nat, wk. cbn [take ops_base foldl]. rewrite Nat.add_0_r, Z.add_0_r.
    split; [done|]. split; [done|]. right. cbn [vec length]. rewrite Hv, Hrun.
    split; [lia|]. split; [done|]. exists sop, (vals base), (semval s). done.
Qed.

(** ** Sums of operations *)

(** What a vector adds to semaphore [n]. *)
Fixpoint net (n : Z) (sops : list sembuf) : Z :=
  match sops with
  | [] => 0
  | sop :: sops' => (if sem_num sop =? n then sem_op sop else 0) + net n sops'
  end.

Lemma ops_base_val sops : forall base n s,
  Forall sem_ok base -> Forall (fun sop => 0 <= sem_num sop) sops -> base !! n = Some s ->
  semval <$> ops_base sops base !! n = Some (u16 (semval s + net (Z.of_nat n) sops)).
Proof.
  induction sops as [|sop sops IH]; intros base n s Hb Hp Hs.
  - cbn. rewrite Hs. cbn. rewrite Z.add_0_r, wrapu_small; [done|].
    rewrite Forall_lookup in Hb. by apply (Hb n s).
  - apply Forall_cons in Hp as [H0 Hp]. cbn [net].
    change (ops_base (sop :: sops) base) with (ops_base sops (op_base sop base)).
    assert (Hb' : Forall sem_ok (op_base sop base)) by (apply on_sem_ok; [apply add_val_ok|done]).
    destruct (Z.eqb_spec (sem_num sop) (Z.of_nat n)) as [Hn|Hn].
    + rewrite (IH _ n (add_val (sem_op sop) s)); [|done|done|].
      * cbn. rewrite u16_add_l. do 2 f_equal. lia.
      * unfold op_base, on_sem. replace (Z.to_nat (sem_num sop)) with n by lia.
        by rewrite list_lookup_alter_eq, Hs.
    + rewrite (IH _ n s); [by rewrite Z.add_0_l|done|done|].
      unfold op_base, on_sem. by rewrite list_lookup_alter_ne by lia.
Qed.

(** ** One attempt at a vector *)

Lemma vals_set_pids pid sops : forall base, vals (set_pids pid sops base) = vals base.
Proof.
  induction sops as [|sop sops IH]; intros base; [done|]. cbn. unfold set_pids in IH. rewrite IH.
  unfold vals, on_sem. apply list_eq. intros j. rewrite !list_lookup_fmap.
  destruct (decide (Z.to_nat (sem_num sop) = j)) as [<-|].
  - rewrite list_lookup_alter_eq. by destruct (base !! _).
  - by rewrite list_lookup_alter_ne.
Qed.

(** The state in which a vector that ran leaves the system. *)
Definition done_state (st : semst) (p : proc) (now ix a : Z) (sp : semid_ds) (sops : list sembuf)
    (l : list sem_undo) (wk : bool) : semst :=
  let base := set_pids (ps_pid p) sops (ops_base sops (sem_base sp)) in
  let st := set_sets <[a := SemidDs (sem_perm sp) base (sem_nsems sp) now (sem_ctime sp)]>
              (with_undos st l) in
  if wk then wakeup ix st else st.

(** The state in which a process sleeps. *)
Definition sleep_state (st : semst) (p : proc) (semid a : Z) (sp : semid_ds) (sops : list sembuf)
    (un : Z) (i : nat) (sop : sembuf) : semst :=
  set_waiters <[p_tid p := Waiter semid (sema_addr st, IPCID_TO_IX semid) a sops i un false]>
    (set_sets <[a := set_base (add_wait 1 sop (sem_base sp)) sp]> st).

Lemma looped_none st pr ix m sops :
  undos_wf (semu_list st) (semutot st) -> undo_of (semu_list st) pr = m ->
  existsb counts sops = false -> looped st (semu_list st) pr ix m m sops 0.
Proof.
  intros Hwf Hof Hc. pose proof Hwf as (_ & _ & _ & Htot). unfold looped. rewrite <- Htot.
  split; [done|]. split; [done|]. left. split; [done|].
  assert (fits ix m sops = true /\ adj_all ix m sops = m) as [-> ->].
  { clear -Hc. induction sops as [|sop sops IH]; [done|]. cbn in Hc |- *.
    apply orb_false_iff in Hc as [Hc Hcs]. unfold adj_op. rewrite Hc. by apply IH. }
  split; [done|]. split; [done|]. by rewrite Hc.
Qed.

Lemma existsb_undos sops : existsb counts sops = true -> 0 < undos sops.
Proof.
  induction sops as [|sop sops IH]; [done|]. rewrite undos_cons. cbn.
  assert (0 <= undos sops) by (unfold undos; lia).
  destruct (counts sop); [lia|]. intros H'. specialize (IH H'). lia.
Qed.

(** The store of a set into the state. *)
Definition put_set (a : Z) (sp : semid_ds) (st : semst) : semst := set_sets <[a := sp]> st.

Lemma put_set_id a sp st : sets st !! a = Some sp -> put_set a sp st = st.
Proof. intros H. destruct st. unfold put_set, set_sets. cbn in *. by rewrite insert_id. Qed.

Lemma put_set_put a sp sp' st : put_set a sp (put_set a sp' st) = put_set a sp st.
Proof. unfold put_set, set_sets. cbn. by rewrite insert_insert_eq. Qed.

Lemma set_base_id sp : set_base (sem_base sp) sp = sp.
Proof. by destruct sp. Qed.

Section Attempt.
Variables (new : Z) (st : semst) (p : proc) (now semid a : Z) (sp : semid_ds)
  (sops : list sembuf).
Let ix := IPCID_TO_IX semid.
Let m := undo_of (semu_list st) (p_p p).

Hypothesis Hsp : sets st !! a = Some sp.
Hypothesis Hset : set_ok sp.
Hypothesis Hin : in_set sp sops.
Hypothesis Hops : Forall sop_ok sops.
Hypothesis Hwf : undos_wf (semu_list st) (semutot st).
Hypothesis Hnew : new ∉ (un_addr <$> semu_list st).
Hypothesis Hheld : held ix m sops = true.

(** The end of a vector that ran. *)
Lemma semop_done_spec wk un :
  (un = 0 -> existsb counts sops = false) ->
  exists l e,
    looped st l (p_p p) ix m m sops e /\
    semop_done (PoolNow new) (put_set a (set_base (ops_base sops (sem_base sp)) sp) st)
      p now ix a sops wk un =
    Ok (if e =? 0 then done_state st p now ix a sp sops l wk else with_undos st l, Return e).
Proof.
  intros Hun. unfold semop_done.
  set (st1 := put_set a (set_base (ops_base sops (sem_base sp)) sp) st).
  assert (Hl : exists l e, looped st l (p_p p) ix m m sops e /\
    (if negb (un =? 0) then undo_loop (PoolNow new) st1 (p_p p) None ix [] sops else Ok (st1, 0)) =
      Ok (with_undos st1 l, e)).
  { destruct (Z.eqb_spec un 0) as [H0|H0]; cbn [negb].
    - exists (semu_list st), 0. split; [by apply looped_none; [| |apply Hun]|].
      pose proof Hwf as (_ & _ & _ & Htot). f_equal. f_equal. symmetry. by apply (with_undos_id st1).
    - destruct (undo_loop_spec new (p_p p) ix m sops st1 [] m None) as (l & e & Heq & Hl);
        [done|done|constructor|done|done|by left|]. exists l, e. by split. }
  destruct Hl as (l & e & Hl & ->). exists l, e. split; [done|]. cbn [mbind outcome_bind].
  unfold deref. subst st1. cbn [with_undos set_undos put_set set_sets sets].
  rewrite lookup_insert_eq. cbn [mbind outcome_bind sem_base set_base sem_nsems sem_perm sem_ctime].
  destruct (e =? 0) eqn:He; cbn [negb].
  - f_equal. f_equal; [|by apply Z.eqb_eq in He as ->]. unfold done_state.
    unfold set_sets, with_undos, set_undos. cbn. by rewrite insert_insert_eq.
  - f_equal. f_equal. rewrite rollback_ops by apply Hset.
    unfold set_sets, with_undos, set_undos, set_base. cbn. rewrite insert_insert_eq.
    rewrite insert_id; [done|]. rewrite Hsp. by destruct sp.
Qed.

(** What one attempt comes to: when an operation of the vector must wait or
    there is no room, nothing has changed; otherwise all of it is done. *)
Lemma semop_pass_spec un :
  0 <= un ->
  match vec (vals (sem_base sp)) sops with
  | None =>
      exists i sop, blocks_at (vals (sem_base sp)) sops i sop /\
        semop_pass (PoolNow new) st p now semid a sops un =
        Ok (if SEMUME <? un + undos (take i sops) then (st, Return ENOSPC)
            else if has (sem_flg sop) IPC_NOWAIT then (st, Return EAGAIN)
            else (sleep_state st p semid a sp sops (un + undos (take i sops)) i sop, Sleeps))
  | Some vs =>
      vs = vals (ops_base sops (sem_base sp)) /\
      if SEMUME <? un + undos sops
      then semop_pass (PoolNow new) st p now semid a sops un = Ok (st, Return ENOSPC)
      else exists l e wk,
        looped st l (p_p p) ix m m sops e /\ (wk = false -> quiet (sem_base sp) sops) /\
        semop_pass (PoolNow new) st p now semid a sops un =
        Ok (if e =? 0 then done_state st p now ix a sp sops l wk else with_undos st l, Return e)
  end.
Proof.
  intros Hun. unfold semop_pass, deref. rewrite Hsp. cbn [mbind outcome_bind].
  destruct (pass_ops_spec (sem_nsems sp) sops (sem_base sp) 0 false un) as (i & wk & -> & Hq & Hc);
    [apply Hset|apply Hset|done|]. cbn [mbind outcome_bind].
  rewrite Nat.add_0_l. fold ix. fold (put_set a (set_base (ops_base (take i sops) (sem_base sp)) sp) st).
  assert (Hback : set_sets <[a:=set_base (rollback (take i sops)
    (ops_base (take i sops) (sem_base sp))) sp]> st = st).
  { rewrite rollback_ops by apply Hset. rewrite set_base_id. by apply put_set_id. }
  destruct Hc as [[-> Hv]|(Hi & Hv & sop & Hb)]; rewrite Hv.
  - rewrite firstn_all in *. split; [done|]. rewrite Nat.leb_refl. cbn [andb].
    destruct (Z.ltb_spec SEMUME (un + undos sops)) as [Hlt|Hge].
    + rewrite (proj2 (Z.leb_gt _ _)) by lia. by rewrite Hback.
    + rewrite (proj2 (Z.leb_le _ _)) by lia.
      destruct (semop_done_spec wk (un + undos sops)) as (l & e & Hl & ->).
      { intros H0. destruct (existsb counts sops) eqn:E; [|done]. apply existsb_undos in E. lia. }
      exists l, e, wk. split; [done|]. split; [|done]. intros Hw. by apply Hq.
  - exists i, sop. split; [done|]. rewrite (proj2 (Nat.leb_gt _ _) Hi). cbn [andb].
    destruct (SEMUME <? un + undos (take i sops)); [by rewrite Hback|].
    destruct Hb as (vs & v & _ & Hs & _). rewrite Hs.
    destruct (has (sem_flg sop) IPC_NOWAIT); [by rewrite Hback|].
    rewrite rollback_ops by apply Hset. done.
Qed.

End Attempt.

End SemVec.
