(* ===== verification/SemInv.v ===== *)
(** * System V semaphores: the invariant of the system

    [call] lists what processes and the administrator do, [exec] runs it, and
    [sem_inv] is what holds between calls: the slots and the sets correspond
    one to one, the totals are the sums they stand for, the undo structures are
    well formed and their entries name semaphores that exist, the waiters of
    [semncnt] and [semzcnt] are counted exactly. *)

From S2P Require Import Prelude Ipc Sem SemUndo SemVec.
Import Ipc Sem SemUndo SemVec.

Module SemInv.

(** ** Counting the waiters *)

(** The operation a process waits for. *)
Definition w_sop (w : waiter) : option sembuf := w_sops w !! w_i w.

(** It waits for semaphore [n] of the set at [a], to become zero or to grow. *)
Definition waits_on (a n : Z) (zero : bool) (w : waiter) : bool :=
  (w_semaptr w =? a) &&
  match w_sop w with
  | Some sop => (sem_num sop =? n) && Bool.eqb (sem_op sop =? 0) zero
  | None => false
  end.

Definition cnt (ws : gmap Z waiter) (a n : Z) (zero : bool) : Z :=
  Z.of_nat (size (filter (fun kw => waits_on a n zero kw.2 = true) ws)).

Lemma cnt_insert ws tid w a n zero :
  ws !! tid = None ->
  cnt (<[tid := w]> ws) a n zero = cnt ws a n zero + (if waits_on a n zero w then 1 else 0).
Proof.
  intros Hn. unfold cnt. destruct (waits_on a n zero w) eqn:E.
  - rewrite map_filter_insert_True by done.
    rewrite map_size_insert_None; [lia|]. apply map_lookup_filter_None. by left.
  - rewrite map_filter_insert_False by (cbn; congruence). rewrite delete_id by done. lia.
Qed.

Lemma cnt_delete ws tid w a n zero :
  ws !! tid = Some w ->
  cnt (delete tid ws) a n zero = cnt ws a n zero - (if waits_on a n zero w then 1 else 0).
Proof.
  intros Hw. rewrite <- (insert_id ws tid w Hw) at 2. rewrite <- insert_delete_eq.
  rewrite cnt_insert by apply lookup_delete_eq. lia.
Qed.

Lemma waits_on_wake ch a n zero w : waits_on a n zero (wake ch w) = waits_on a n zero w.
Proof. unfold wake. by case_bool_decide. Qed.

Lemma cnt_wake ws ch a n zero : cnt (wake ch <$> ws) a n zero = cnt ws a n zero.
Proof.
  unfold cnt. rewrite map_filter_fmap, map_size_fmap. f_equal. f_equal.
  apply map_filter_ext. intros tid w _. cbn. by rewrite waits_on_wake.
Qed.

Lemma cnt_range ws a n zero : 0 <= cnt ws a n zero <= Z.of_nat (size ws).
Proof.
  unfold cnt. split; [lia|]. apply inj_le. apply map_subseteq_size. apply map_filter_subseteq.
Qed.

(** ** The sum of the sizes of the sets *)

Definition total (m : gmap Z semid_ds) : Z := map_fold (fun _ sp z => sem_nsems sp + z) 0 m.

Lemma total_insert m a sp : m !! a = None -> total (<[a := sp]> m) = sem_nsems sp + total m.
Proof. intros Hn. unfold total. rewrite map_fold_insert_L; [done| |done]. intros. lia. Qed.

Lemma total_delete m a sp : m !! a = Some sp -> total (delete a m) = total m - sem_nsems sp.
Proof.
  intros Hm. rewrite <- (insert_id m a sp Hm) at 2. rewrite <- insert_delete_eq.
  rewrite total_insert by apply lookup_delete_eq. lia.
Qed.

Lemma total_update m a sp sp' :
  m !! a = Some sp -> sem_nsems sp' = sem_nsems sp -> total (<[a := sp']> m) = total m.
Proof.
  intros Hm Hs. rewrite <- insert_delete_eq, total_insert by apply lookup_delete_eq.
  rewrite (total_delete m a sp Hm). lia.
Qed.

(** ** The invariant *)

(** A semaphore that exists. *)
Definition names (st : semst) (k : Z * Z) : Prop :=
  exists a sp, 0 <= k.1 /\ sema st !! Z.to_nat k.1 = Some (Some a) /\ sets st !! a = Some sp /\
    0 <= k.2 < sem_nsems sp.

Record waiter_ok (st : semst) (w : waiter) : Prop := WaiterOk {
  wo_ops : Forall sop_typed (w_sops w);
  wo_undos : 0 <= w_undos w;
  wo_sop : is_Some (w_sop w);
  wo_set : forall sp, sets st !! w_semaptr w = Some sp ->
    seq (sem_perm sp) = IPCID_TO_SEQ (w_semid w) /\
    sema st !! Z.to_nat (IPCID_TO_IX (w_semid w)) = Some (Some (w_semaptr w)) /\
    forall sop, w_sop w = Some sop -> 0 <= sem_num sop < sem_nsems sp;
}.

Lemma waiter_ok_ext st st' w :
  sets st' = sets st -> sema st' = sema st -> waiter_ok st w -> waiter_ok st' w.
Proof. intros H1 H2 [? ? ? H3]. split; try done. by rewrite H1, H2. Qed.

Record sem_core (st : semst) : Prop := SemCore {
  inv_len : Z.of_nat (length (sema st)) = semmni (info st);
  inv_seqs : length (semseqs st) = length (sema st);
  inv_mni : semmni (info st) <= 65535;
  inv_msl : semmsl (info st) < 32768;
  inv_vmx : semvmx (info st) = SEMVMX;
  inv_seq15 : Forall (inu 15) (semseqs st);
  inv_slot : forall i a, sema st !! i = Some (Some a) ->
    exists sp, sets st !! a = Some sp /\ semseqs st !! i = Some (seq (sem_perm sp));
  inv_inj : forall i j a, sema st !! i = Some (Some a) -> sema st !! j = Some (Some a) -> i = j;
  inv_sets : forall a sp, sets st !! a = Some sp ->
    set_ok sp /\ exists i, sema st !! i = Some (Some a);
  inv_tot : semtot st = total (sets st);
  inv_mns : semtot st <= semmns (info st);
  inv_undos : undos_wf (semu_list st) (semutot st);
  inv_mnu : semutot st <= semmnu (info st);
  inv_ents : forall pr k, is_Some (undo_of (semu_list st) pr !! k) -> names st k;
  inv_wait : forall tid w, waiters st !! tid = Some w -> waiter_ok st w;
}.

(** [semncnt] and [semzcnt] are the numbers of processes that sleep. *)
Definition counted (st : semst) : Prop :=
  forall a sp n s, sets st !! a = Some sp -> sem_base sp !! n = Some s ->
    semncnt s = cnt (waiters st) a (Z.of_nat n) false /\
    semzcnt s = cnt (waiters st) a (Z.of_nat n) true.

Definition sem_inv (st : semst) : Prop := sem_core st /\ counted st.

(** ** Changes that keep it *)

Definition same_counts (base base' : list sem) : Prop :=
  (fun s => (semncnt s, semzcnt s)) <$> base' = (fun s => (semncnt s, semzcnt s)) <$> base.

Lemma same_counts_lookup base base' n s' :
  same_counts base base' -> base' !! n = Some s' ->
  exists s, base !! n = Some s /\ semncnt s' = semncnt s /\ semzcnt s' = semzcnt s.
Proof.
  intros Hc Hs. apply (f_equal (.!! n)) in Hc. rewrite !list_lookup_fmap, Hs in Hc.
  destruct (base !! n) as [s|]; [|done]. exists s. by injection Hc as <- <-.
Qed.

Lemma same_counts_on_sem f n base :
  (forall s, semncnt (f s) = semncnt s /\ semzcnt (f s) = semzcnt s) ->
  same_counts base (on_sem f n base).
Proof.
  intros Hf. unfold same_counts, on_sem. apply list_eq. intros j. rewrite !list_lookup_fmap.
  destruct (decide (Z.to_nat n = j)) as [<-|].
  - rewrite list_lookup_alter_eq. destruct (base !! _) as [s|]; [|done]. cbn.
    destruct (Hf s) as [-> ->]. done.
  - by rewrite list_lookup_alter_ne.
Qed.

Lemma same_counts_trans b1 b2 b3 : same_counts b1 b2 -> same_counts b2 b3 -> same_counts b1 b3.
Proof. unfold same_counts. congruence. Qed.

Lemma same_counts_length b1 b2 : same_counts b1 b2 -> length b2 = length b1.
Proof. intros H. apply (f_equal length) in H. by rewrite !length_fmap in H. Qed.

(** Replacing a set by one of the same size with the same sequence number. *)
Lemma core_put a sp sp' st :
  sem_core st -> sets st !! a = Some sp -> set_ok sp' ->
  sem_nsems sp' = sem_nsems sp -> seq (sem_perm sp') = seq (sem_perm sp) ->
  sem_core (put_set a sp' st).
Proof.
  intros Hi Hsp Hok Hn Hseq.
  assert (Hlk : forall b x, sets (put_set a sp' st) !! b = Some x ->
    exists y, sets st !! b = Some y /\ sem_nsems x = sem_nsems y /\
      seq (sem_perm x) = seq (sem_perm y) /\ set_ok x).
  { intros b x. cbn. rewrite lookup_insert_Some. intros [[<- <-]|[Hne Hb]]; [by exists sp|].
    exists x. split; [done|]. split; [done|]. split; [done|]. by eapply inv_sets. }
  assert (Hback : forall b y, sets st !! b = Some y -> exists x,
    sets (put_set a sp' st) !! b = Some x /\ sem_nsems x = sem_nsems y /\
    seq (sem_perm x) = seq (sem_perm y)).
  { intros b y Hb. cbn. destruct (decide (a = b)) as [<-|Hne].
    - exists sp'. rewrite lookup_insert_eq. assert (y = sp) as -> by congruence. done.
    - exists y. by rewrite lookup_insert_ne. }
  destruct Hi. split; try done.
  - intros i b Hb. destruct (inv_slot0 i b Hb) as (y & Hy & Hs).
    destruct (Hback b y Hy) as (x & Hx & _ & Hxs). exists x. split; [done|]. by rewrite Hxs.
  - intros b x Hb. destruct (Hlk b x Hb) as (y & Hy & _ & _ & Hx). split; [done|].
    by apply (inv_sets0 b y).
  - cbn. rewrite inv_tot0. symmetry. by eapply total_update.
  - intros pr k Hk. destruct (inv_ents0 pr k Hk) as (b & y & H0 & Hb & Hy & Hr).
    destruct (Hback b y Hy) as (x & Hx & Hxn & _). exists b, x. by rewrite Hxn.
  - intros tid w Hw. destruct (inv_wait0 tid w Hw) as [H1 H2 H3 H4]. split; [done..|].
    intros x Hx. destruct (Hlk _ x Hx) as (y & Hy & Hxn & Hxs & _). rewrite Hxn, Hxs. by apply H4.
Qed.

(** The same, when the counts of waiters do not change either. *)
Lemma inv_put a sp sp' st :
  sem_inv st -> sets st !! a = Some sp -> set_ok sp' ->
  sem_nsems sp' = sem_nsems sp -> seq (sem_perm sp') = seq (sem_perm sp) ->
  same_counts (sem_base sp) (sem_base sp') ->
  sem_inv (put_set a sp' st).
Proof.
  intros [Hi Hcnt] Hsp Hok Hn Hseq Hc. split; [by eapply core_put|].
  intros b x n s. cbn. rewrite lookup_insert_Some. intros [[<- <-]|[Hne Hb]] Hs.
  - destruct (same_counts_lookup _ _ _ _ Hc Hs) as (s0 & Hs0 & -> & ->). by apply (Hcnt a sp).
  - by apply (Hcnt b x).
Qed.

(** Replacing the undo structures. *)
Lemma inv_with_undos l st :
  sem_inv st -> undos_wf l (Z.of_nat (length l)) ->
  Z.of_nat (length l) <= semmnu (info st) ->
  (forall pr k, is_Some (undo_of l pr !! k) -> names st k) ->
  sem_inv (with_undos st l).
Proof.
  intros [[] Hcnt] Hwf Hmax Hk. split; [|done]. split; try done. intros tid w Hw.
  by apply (waiter_ok_ext st); [..|by apply (inv_wait0 tid)].
Qed.

Lemma inv_wakeup ix st : sem_inv st -> sem_inv (wakeup ix st).
Proof.
  intros [[] Hcnt]. split.
  - split; try done.
    intros tid w. cbn. rewrite lookup_fmap. destruct (waiters st !! tid) as [w'|] eqn:E; [|done].
    cbn. intros [= <-]. apply (waiter_ok_ext st); [done|done|].
    destruct (inv_wait0 tid w' E) as [H1 H2 H3 H4]. unfold wake. by case_bool_decide.
  - intros a sp n s Ha Hs. cbn. rewrite !cnt_wake. by apply (Hcnt a sp).
Qed.

(** Replacing the waiters. *)
Lemma core_waiters f st :
  sem_core st -> (forall tid w, f (waiters st) !! tid = Some w -> waiter_ok st w) ->
  sem_core (set_waiters f st).
Proof.
  intros [] Hw. split; try done. intros tid w Hw'.
  by apply (waiter_ok_ext st); [..|by apply (Hw tid)].
Qed.

(** A process starts or stops to wait for [sop], as [d] says. *)
Lemma counted_shift st a sp sop d f w :
  counted st -> sets st !! a = Some sp -> Forall sem_ok (sem_base sp) ->
  w_semaptr w = a -> w_sop w = Some sop -> 0 <= sem_num sop ->
  (forall b n z, cnt (f (waiters st)) b n z =
     cnt (waiters st) b n z + (if waits_on b n z w then d else 0)) ->
  Z.of_nat (size (f (waiters st))) <= 65535 ->
  counted (set_waiters f (put_set a (set_base (add_wait d sop (sem_base sp)) sp) st)).
Proof.
  intros Hcnt Hsp Hok Ha Hw Hnum Hf Hsize b x n s. cbn.
  assert (Hw' : forall b n z, waits_on b n z w =
    (a =? b) && (sem_num sop =? n) && Bool.eqb (sem_op sop =? 0) z).
  { intros. unfold waits_on. rewrite Ha, Hw. by rewrite andb_assoc. }
  rewrite lookup_insert_Some. intros [[<- <-]|[Hne Hb]].
  2:{ intros Hs. rewrite !Hf, !Hw', (proj2 (Z.eqb_neq a b) Hne), !Z.add_0_r. by apply (Hcnt b x). }
  cbn [sem_base set_base]. unfold add_wait, on_sem.
  pose proof (cnt_range (f (waiters st)) a (Z.of_nat n) false) as Hr1.
  pose proof (cnt_range (f (waiters st)) a (Z.of_nat n) true) as Hr2.
  rewrite !Hf, !Hw', Z.eqb_refl in *. cbn [andb] in *.
  destruct (decide (Z.to_nat (sem_num sop) = n)) as [Hn|Hn].
  - rewrite Hn, list_lookup_alter_eq. intros (s0 & Hs0 & ->)%fmap_Some_1.
    destruct (Hcnt a sp n s0 Hsp Hs0) as [H1 H2].
    rewrite (proj2 (Z.eqb_eq (sem_num sop) (Z.of_nat n))) in * by lia. cbn [andb] in *.
    destruct (sem_op sop =? 0); cbn in *; rewrite ?Z.add_0_r in *; rewrite <- H1, <- H2 in *.
    + split; [done|]. apply wrapu_small. unfold inu. lia.
    + split; [|done]. apply wrapu_small. unfold inu. lia.
  - rewrite list_lookup_alter_ne by done. intros Hs.
    rewrite (proj2 (Z.eqb_neq (sem_num sop) (Z.of_nat n))) by lia. cbn [andb].
    rewrite !Z.add_0_r. by apply (Hcnt a sp).
Qed.

Lemma add_wait_ok d sop sp : set_ok sp -> set_ok (set_base (add_wait d sop (sem_base sp)) sp).
Proof.
  intros []. split; cbn; try done.
  - unfold add_wait. by rewrite on_sem_length.
  - unfold add_wait. apply on_sem_ok; [|done]. intros s. apply add_cnt_ok.
Qed.

(** ** The undo functions *)

Lemma adj_map_keys m k d k' : is_Some (adj_map m k d !! k') -> is_Some (m !! k') \/ k' = k.
Proof.
  unfold adj_map. destruct (_ =? 0).
  - rewrite lookup_delete_is_Some. naive_solver.
  - rewrite lookup_insert_is_Some. naive_solver.
Qed.

(** What the undo functions of a call of semop(2) keep. *)
Definition undo_keeps (st st' : semst) (ks : Z * Z -> Prop) : Prop :=
  exists l, st' = with_undos st l /\ undos_wf l (Z.of_nat (length l)) /\
    Z.of_nat (length l) <= semmnu (info st) /\
    forall pr k, is_Some (undo_of l pr !! k) -> is_Some (undo_of (semu_list st) pr !! k) \/ ks k.

Lemma undo_keeps_refl st ks :
  undos_wf (semu_list st) (semutot st) -> semutot st <= semmnu (info st) -> undo_keeps st st ks.
Proof.
  intros Hwf Hmax. pose proof Hwf as (_ & _ & _ & Htot). exists (semu_list st).
  rewrite with_undos_id by done. rewrite <- Htot. split; [done|]. split; [done|].
  split; [done|]. auto.
Qed.

Lemma undo_keeps_trans st1 st2 st3 ks :
  undo_keeps st1 st2 ks -> undo_keeps st2 st3 ks -> undo_keeps st1 st3 ks.
Proof.
  intros (l & -> & _ & _ & Hk) (l' & -> & Hwf & Hmax & Hk'). exists l'. split; [done|].
  split; [done|]. split; [done|]. intros pr k H. destruct (Hk' pr k H) as [H'|]; [|by right].
  by apply Hk.
Qed.

Lemma undo_keeps_wf st st' ks :
  undo_keeps st st' ks ->
  undos_wf (semu_list st') (semutot st') /\ semutot st' <= semmnu (info st').
Proof. by intros (l & -> & Hwf & Hmax & _). Qed.

Lemma adjust_keeps new st pr sup id num d st' sup' e (ks : Z * Z -> Prop) :
  semundo_adjust (PoolNow new) st pr sup id num d = Ok (st', sup', e) ->
  undos_wf (semu_list st) (semutot st) -> semutot st <= semmnu (info st) ->
  sup_weak (semu_list st) pr sup -> (sup = None -> new ∉ (un_addr <$> semu_list st)) ->
  0 <= num < 32768 -> s16 d <> 0 -> ks (id, num) ->
  undo_keeps st st' ks /\ sup_weak (semu_list st') pr sup' /\ (sup' = None -> sup = None /\ e <> 0).
Proof.
  intros Heq Hwf Hmax Hsup Hnew Hnum Hd Hks.
  assert (Hsok : sup_ok (semu_list st) pr sup).
  { destruct sup as [a|]; [|done]. cbn in Heq |- *. unfold semundo_adjust in Heq.
    destruct (su_at a (semu_list st)) as [su|] eqn:E; [|done].
    exists su. specialize (Hsup su E). subst pr. apply su_at_elem in E as [Hin ?].
    split; [|done]. apply elem_su_of; [apply Hwf|done]. }
  assert (Hnone : sup' = None -> sup = None).
  { intros ->. destruct sup as [a|]; [|done]. unfold semundo_adjust in Heq.
    destruct (su_at a (semu_list st)) as [su|]; [|done]. by destruct (adjust_entry _ _ _ _ _). }
  destruct (semundo_adjust_spec new st pr sup id num d Hwf Hsok Hnew Hnum Hd)
    as (l & sup1 & e1 & Heq1 & Hw & Ho & Hs & Hm & Hc).
  rewrite Heq in Heq1. injection Heq1 as -> -> ->.
  split.
  - exists l. split; [done|]. split; [done|]. split; [by apply Hm|].
    intros pr' k Hk. destruct (decide (pr' = pr)) as [->|Hne]; [|left; by rewrite <- Ho].
    destruct Hc as [(_ & _ & Hu & _)|[(_ & -> & _)|(_ & -> & _)]]; [|by left..].
    rewrite Hu in Hk. apply adj_map_keys in Hk as [?| ->]; [by left|by right].
  - split; [done|]. intros Hn. split; [by apply Hnone|].
    by destruct Hc as [(_ & _ & _ & _ & ? & _)|[(-> & _)|(-> & _)]].
Qed.

Lemma undo_back_keeps new pr ix (ks : Z * Z -> Prop) passed : forall st sup st' sup',
  undo_back (PoolNow new) st pr sup ix passed = Ok (st', sup') ->
  undos_wf (semu_list st) (semutot st) -> semutot st <= semmnu (info st) ->
  sup_weak (semu_list st) pr sup -> (sup = None -> existsb counts passed = false) ->
  Forall (fun sop => sop_ok sop /\ ks (ix, sem_num sop)) passed ->
  undo_keeps st st' ks.
Proof.
  induction passed as [|sop passed IH]; intros st sup st' sup' Heq Hwf Hmax Hsup Hn Hf.
  { injection Heq as <- <-. by apply undo_keeps_refl. }
  apply Forall_cons in Hf as [[Hs Hk] Hf]. destruct (counts sop) eqn:Hc.
  2:{ rewrite undo_back_skip in Heq by done. eapply IH; try done. intros H. specialize (Hn H).
      cbn in Hn. by rewrite Hc in Hn. }
  destruct (counts_op _ Hc) as [Hu H0]. destruct (counts_adj _ Hs Hc) as [Hd _].
  cbn [undo_back] in Heq. rewrite Hu, (proj2 (Z.eqb_neq _ _) H0) in Heq. cbn [negb] in Heq.
  destruct (semundo_adjust _ _ _ _ _ _ _) as [[[st1 sup1] e]|] eqn:Ha; [|done].
  cbn [mbind outcome_bind] in Heq. destruct (Z.eqb_spec e 0) as [->|]; [|done]. cbn in Heq.
  assert (Hsn : sup <> None) by (intros H; specialize (Hn H); cbn in Hn; by rewrite Hc in Hn).
  destruct (adjust_keeps _ _ _ _ _ _ _ _ _ _ ks Ha Hwf Hmax Hsup) as (Hkeep & Hsup1 & Hn1);
    [done|apply Hs|done|done|].
  destruct (undo_keeps_wf _ _ _ Hkeep) as [Hwf1 Hmax1].
  eapply undo_keeps_trans; [done|]. eapply IH; try done. intros H. by destruct (Hn1 H).
Qed.

Lemma undo_loop_keeps new pr ix (ks : Z * Z -> Prop) sops : forall st sup passed st' e,
  undo_loop (PoolNow new) st pr sup ix passed sops = Ok (st', e) ->
  undos_wf (semu_list st) (semutot st) -> semutot st <= semmnu (info st) ->
  sup_weak (semu_list st) pr sup ->
  (sup = None -> existsb counts passed = false /\ new ∉ (un_addr <$> semu_list st)) ->
  Forall (fun sop => sop_ok sop /\ ks (ix, sem_num sop)) passed ->
  Forall (fun sop => sop_ok sop /\ ks (ix, sem_num sop)) sops ->
  undo_keeps st st' ks.
Proof.
  induction sops as [|sop sops IH]; intros st sup passed st' e Heq Hwf Hmax Hsup Hn Hfp Hf.
  { injection Heq as <- <-. by apply undo_keeps_refl. }
  apply Forall_cons in Hf as [[Hs Hk] Hf]. destruct (counts sop) eqn:Hc.
  2:{ rewrite undo_loop_skip in Heq by done. eapply IH; try done; [|by constructor].
      intros H. cbn. rewrite Hc. by apply Hn. }
  destruct (counts_op _ Hc) as [Hu H0]. destruct (counts_adj _ Hs Hc) as [_ Hd].
  cbn [undo_loop] in Heq. rewrite Hu, (proj2 (Z.eqb_neq _ _) H0) in Heq. cbn [negb] in Heq.
  destruct (semundo_adjust _ _ _ _ _ _ _) as [[[st1 sup1] e1]|] eqn:Ha; [|done].
  cbn [mbind outcome_bind] in Heq.
  destruct (adjust_keeps _ _ _ _ _ _ _ _ _ _ ks Ha Hwf Hmax Hsup) as (Hkeep & Hsup1 & Hn1);
    [by intros H; apply Hn|apply Hs|done|done|].
  destruct (undo_keeps_wf _ _ _ Hkeep) as [Hwf1 Hmax1].
  eapply undo_keeps_trans; [done|].
  destruct (Z.eqb_spec e1 0) as [->|].
  - eapply IH; try done; [intros H; by destruct (Hn1 H)|by constructor].
  - destruct (undo_back _ _ _ _ _ _) as [[st2 sup2]|] eqn:Hb; [|done]. cbn in Heq.
    injection Heq as <- <-. eapply undo_back_keeps; try done.
    intros H. destruct (Hn1 H) as [H' _]. by apply Hn.
Qed.

End SemInv.
