(* ===== verification/SemCalls.v ===== *)
(** * System V semaphores: the calls keep the invariant

    For each system call, the end of a process and sysctl(3): when it returns,
    the invariant of SemInv.v still holds.  [semctl], [semget] and [semexit]
    always return from a state with the invariant: their panics, and accesses
    to freed memory, are out of reach. *)

From S2P Require Import Prelude Ipc Sem SemUndo SemVec SemInv.
Import Ipc Sem SemUndo SemVec SemInv.

Module SemCalls.

(** ** semop *)

Lemma same_counts_ops sops : forall base, same_counts base (ops_base sops base).
Proof.
  induction sops as [|sop sops IH]; intros base; [done|].
  eapply same_counts_trans; [by apply (same_counts_on_sem (add_val (sem_op sop)) (sem_num sop))|].
  apply IH.
Qed.

Lemma same_counts_pids pid sops : forall base, same_counts base (set_pids pid sops base).
Proof.
  induction sops as [|sop sops IH]; intros base; [done|].
  eapply same_counts_trans; [by apply (same_counts_on_sem (set_pid pid) (sem_num sop))|]. apply IH.
Qed.

Lemma same_counts_rollback sops : forall base, same_counts base (rollback sops base).
Proof.
  induction sops as [|sop sops IH]; intros base; [done|].
  eapply same_counts_trans; [by apply (same_counts_on_sem (add_val (- sem_op sop)) (sem_num sop))|].
  apply IH.
Qed.

Lemma rollback_ok sops : forall base, Forall sem_ok base -> Forall sem_ok (rollback sops base).
Proof.
  induction sops as [|sop sops IH]; intros base Hb; [done|]. apply IH, on_sem_ok; [|done].
  apply add_val_ok.
Qed.

Lemma set_pids_ok pid sops : forall base, Forall sem_ok base -> Forall sem_ok (set_pids pid sops base).
Proof.
  induction sops as [|sop sops IH]; intros base Hb; [done|]. apply IH, on_sem_ok; [|done].
  by intros s (? & ? & ?).
Qed.

(** A set with other semaphores of the same number. *)
Lemma set_ok_base sp base ot ct :
  set_ok sp -> same_counts (sem_base sp) base -> Forall sem_ok base ->
  set_ok (SemidDs (sem_perm sp) base (sem_nsems sp) ot ct).
Proof.
  intros [] Hc Hb. split; cbn; try done. by rewrite (same_counts_length _ _ Hc).
Qed.

(** The pass, for any vector. *)
Lemma pass_any nsems sops : forall base i0 wk un base' i fbig wk' un',
  pass_ops nsems base sops i0 wk un = Ok (base', i, fbig, wk', un') ->
  Forall sem_ok base -> Forall sop_typed sops ->
  exists j, i = (i0 + j)%nat /\ base' = ops_base (take j sops) base /\ un <= un' /\
    Forall (fun sop => 0 <= sem_num sop < nsems) (take j sops) /\
    (fbig = false -> forall sop, sops !! j = Some sop -> 0 <= sem_num sop < nsems).
Proof.
  induction sops as [|sop sops IH]; intros base i0 wk un base' i fbig wk' un' Heq Hb Ht.
  { cbn in Heq. injection Heq as <- <- <- <- <-. exists 0%nat. cbn. split; [lia|].
    split; [done|]. split; [lia|]. split; [done|]. by intros _ sop. }
  apply Forall_cons in Ht as [[[Hn0 Hn1] Hop] Ht]. cbn [pass_ops] in Heq.
  destruct (Z.leb_spec nsems (sem_num sop)) as [Hge|Hlt].
  { injection Heq as <- <- <- <- <-. exists 0%nat. cbn. split; [lia|]. split; [done|]. split; [lia|].
    split; [done|]. done. }
  destruct (sem_at base (sem_num sop)) as [s|] eqn:Hs; [|done].
  assert (Hstop : (base, i0, false, wk, un) = (base', i, fbig, wk', un') ->
    exists j, i = (i0 + j)%nat /\ base' = ops_base (take j (sop :: sops)) base /\ un <= un' /\
      Forall (fun sop => 0 <= sem_num sop < nsems) (take j (sop :: sops)) /\
      (fbig = false -> forall x, (sop :: sops) !! j = Some x -> 0 <= sem_num x < nsems)).
  { intros [= <- <- <- <- <-]. exists 0%nat. cbn. split; [lia|]. split; [done|]. split; [lia|].
    split; [done|]. by intros _ x [= <-]. }
  assert (Hgo : forall base1 wk1 un1, base1 = op_base sop base -> un <= un1 ->
    pass_ops nsems base1 sops (S i0) wk1 un1 = Ok (base', i, fbig, wk', un') ->
    exists j, i = (i0 + j)%nat /\ base' = ops_base (take j (sop :: sops)) base /\ un <= un' /\
      Forall (fun sop => 0 <= sem_num sop < nsems) (take j (sop :: sops)) /\
      (fbig = false -> forall x, (sop :: sops) !! j = Some x -> 0 <= sem_num x < nsems)).
  { intros base1 wk1 un1 -> Hun H.
    destruct (IH _ _ _ _ _ _ _ _ _ H) as (j & -> & -> & Hu & Hf & Hl);
      [by apply on_sem_ok; [apply add_val_ok|]|done|].
    exists (S j). split; [lia|]. split; [done|]. split; [lia|]. split; [by constructor|done]. }
  destruct (sem_op sop <? 0).
  - destruct (semval s + sem_op sop <? 0); [apply Hstop; by injection Heq as <- <- <- <- <-|].
    eapply Hgo; [reflexivity| |exact Heq]. destruct (is_undo sop); lia.
  - destruct (Z.eqb_spec (sem_op sop) 0) as [H0|H0].
    + destruct (0 <? semval s); [apply Hstop; by injection Heq as <- <- <- <- <-|].
      eapply Hgo; [by rewrite op_base_0| |exact Heq]. lia.
    + eapply Hgo; [reflexivity| |exact Heq]. destruct (is_undo sop); lia.
Qed.

Section Semop.

Variables (new : Z) (st : semst) (p : proc) (now semid a : Z) (sp : semid_ds)
  (sops : list sembuf).
Let ix := IPCID_TO_IX semid.

Hypothesis Hinv : sem_inv st.
Hypothesis Hsp : sets st !! a = Some sp.
Hypothesis Hslot : sema st !! Z.to_nat ix = Some (Some a).
Hypothesis Hops : Forall sop_typed sops.
Hypothesis Hnew : new ∉ (un_addr <$> semu_list st).

Lemma set_is_ok : set_ok sp.
Proof. by apply (inv_sets _ (proj1 Hinv) a). Qed.

Lemma ix_nonneg : 0 <= ix.
Proof. unfold ix, IPCID_TO_IX. apply Z.land_nonneg. right. lia. Qed.

(** The semaphores stored back, whatever operations were applied. *)
Lemma store_inv base :
  same_counts (sem_base sp) base -> Forall sem_ok base -> sem_inv (put_set a (set_base base sp) st).
Proof.
  intros Hc Hb. apply (inv_put a sp); try done. apply set_ok_base; [apply set_is_ok|done|done].
Qed.

Lemma semop_done_inv wk un st' r :
  in_set sp sops ->
  semop_done (PoolNow new) (put_set a (set_base (ops_base sops (sem_base sp)) sp) st)
    p now ix a sops wk un = Ok (st', r) ->
  sem_inv st'.
Proof.
  intros Hin Heq. set (sp1 := set_base (ops_base sops (sem_base sp)) sp) in *.
  set (st1 := put_set a sp1 st) in *.
  pose proof set_is_ok as Hset. pose proof ix_nonneg as Hix.
  assert (Hi1 : sem_inv st1).
  { apply store_inv; [apply same_counts_ops|by apply ops_base_ok, Hset]. }
  assert (Hs1 : sets st1 !! a = Some sp1) by (subst st1; cbn; apply lookup_insert_eq).
  pose proof Hi1 as [Hc1 _]. unfold semop_done in Heq.
  match type of Heq with (mbind _ ?m) = _ => destruct m as [[st2 e]|] eqn:Hl; [|done] end.
  cbn [mbind outcome_bind] in Heq.
  assert (Hk : undo_keeps st1 st2 (names st1)).
  { destruct (negb (un =? 0)).
    2:{ injection Hl as <- <-. apply undo_keeps_refl; [by apply inv_undos|by apply inv_mnu]. }
    eapply undo_loop_keeps; [exact Hl|by apply inv_undos|by apply inv_mnu|done|done|by constructor|].
    pose proof (typed_ok _ _ Hset Hin Hops) as Hok. unfold in_set in Hin.
    rewrite Forall_forall in *. intros sop Hs. split; [by apply Hok|].
    exists a, sp1. split; [done|]. split; [done|]. split; [done|]. by apply Hin. }
  destruct Hk as (l & -> & Hwf & Hmax & Hkeys).
  assert (Hi2 : sem_inv (with_undos st1 l)).
  { apply inv_with_undos; [done|done|done|]. intros pr k [Hk|Hk]%Hkeys; [|done].
    by eapply inv_ents. }
  unfold deref in Heq. cbn [with_undos set_undos sets] in Heq. rewrite Hs1 in Heq.
  cbn [mbind outcome_bind] in Heq. destruct (negb (e =? 0)).
  - injection Heq as <- <-. apply (inv_put a sp1); try done; [|apply same_counts_rollback].
    apply set_ok_base; [by apply (inv_sets _ Hc1 a)|apply same_counts_rollback|].
    apply rollback_ok. by apply ops_base_ok, Hset.
  - injection Heq as <- <-.
    assert (Hi3 : sem_inv (put_set a (SemidDs (sem_perm sp1)
      (set_pids (ps_pid p) sops (sem_base sp1)) (sem_nsems sp1) now (sem_ctime sp1))
      (with_undos st1 l))).
    { apply (inv_put a sp1); try done; [|apply same_counts_pids].
      apply set_ok_base; [by apply (inv_sets _ Hc1 a)|apply same_counts_pids|].
      apply set_pids_ok. by apply ops_base_ok, Hset. }
    destruct wk; [by apply inv_wakeup|done].
Qed.

Lemma semop_pass_inv un st' r :
  seq (sem_perm sp) = IPCID_TO_SEQ semid -> waiters st !! p_tid p = None ->
  Z.of_nat (size (waiters st)) < 65535 -> 0 <= un ->
  semop_pass (PoolNow new) st p now semid a sops un = Ok (st', r) -> sem_inv st'.
Proof.
  intros Hseq Htid Hsize Hun Heq. pose proof set_is_ok as Hset.
  unfold semop_pass, deref in Heq. rewrite Hsp in Heq. cbn [mbind outcome_bind] in Heq.
  match type of Heq with (mbind _ ?m) = _ =>
    destruct m as [[[[[base i] fbig] wk] un']|] eqn:Hp; [|done] end.
  cbn [mbind outcome_bind] in Heq.
  destruct (pass_any _ _ _ _ _ _ _ _ _ _ _ Hp) as (j & Hj & Hbase & Hu & Hf & Hlast);
    [apply Hset|done|]. cbn in Hj. subst i base.
  fold ix in Heq. set (base := ops_base (take j sops) (sem_base sp)) in *.
  assert (Hok : Forall sem_ok base) by (by apply ops_base_ok, Hset).
  destruct fbig.
  { injection Heq as <- <-. apply store_inv; [apply same_counts_ops|done]. }
  destruct ((length sops <=? j)%nat && (un' <=? SEMUME)) eqn:Hd.
  { apply andb_true_iff in Hd as [Hd _]. apply Nat.leb_le in Hd. subst base.
    rewrite take_ge in Heq, Hf by done. by eapply semop_done_inv. }
  assert (Hback : rollback (take j sops) base = sem_base sp) by (apply rollback_ops, Hset).
  rewrite Hback in Heq. assert (Hsame : put_set a (set_base (sem_base sp) sp) st = st).
  { rewrite set_base_id. by apply put_set_id. }
  unfold put_set in Hsame. rewrite Hsame in Heq.
  destruct (SEMUME <? un'); [by injection Heq as <- <-|].
  destruct (sops !! j) as [sop|] eqn:Hsop; [|done].
  destruct (has (sem_flg sop) IPC_NOWAIT); [by injection Heq as <- <-|].
  injection Heq as <- <-. specialize (Hlast eq_refl sop eq_refl).
  set (w := Waiter _ _ _ _ _ _ _). fold (put_set a (set_base (add_wait 1 sop (sem_base sp)) sp) st).
  split.
  - apply core_waiters; [apply (core_put a sp); try done; [apply Hinv|by apply add_wait_ok]|].
    intros tid w'. cbn [waiters put_set set_sets]. rewrite lookup_insert_Some.
    intros [[<- <-]|[_ Hw]].
    + split; [done|cbn; lia|by exists sop|].
      intros x. cbn. rewrite lookup_insert_eq. intros [= <-]. cbn. split; [done|].
      split; [done|]. unfold w_sop. cbn. rewrite Hsop. by intros ? [= <-].
    + destruct (inv_wait _ (proj1 Hinv) tid w' Hw) as [H1 H2 H3 H4]. split; [done..|].
      intros x. cbn. rewrite lookup_insert_Some. intros [[Ha <-]|[_ Hx]]; [|by apply H4].
      cbn. apply H4. by rewrite <- Ha.
  - apply (counted_shift st a sp sop 1 _ w); try done; [apply Hinv|apply Hset|lia| |].
    + intros. rewrite cnt_insert by done. by destruct (waits_on _ _ _ _).
    + rewrite map_size_insert_None by done. lia.
Qed.

End Semop.

(** ** The identifier of a set *)

(** [semid] names the set [sp] at [a]. *)
Record resolves (st : semst) (semid a : Z) (sp : semid_ds) : Prop := Resolves {
  res_ix : IPCID_TO_IX semid < semmni (info st);
  res_slot : sema st !! Z.to_nat (IPCID_TO_IX semid) = Some (Some a);
  res_set : sets st !! a = Some sp;
  res_seq : seq (sem_perm sp) = IPCID_TO_SEQ semid;
}.

(** The tests with which semctl(2) and semop(2) begin come to this. *)
Definition resolved {A} (st : semst) (semid : Z) (bad : A) (k : Z -> semid_ds -> outcome A)
    : outcome A :=
  let ix := IPCID_TO_IX semid in
  if (ix <? 0) || (semmni (info st) <=? ix) then Ok bad
  else match sema st !! Z.to_nat ix with
  | None => Panic
  | Some None => Ok bad
  | Some (Some a) =>
      sp ← deref st a;
      if negb (seq (sem_perm sp) =? IPCID_TO_SEQ semid) then Ok bad else k a sp
  end.

Lemma ipcid_ix_nonneg id : 0 <= IPCID_TO_IX id.
Proof. unfold IPCID_TO_IX. apply Z.land_nonneg. right. lia. Qed.

Lemma resolved_cases {A} st semid (bad : A) k :
  sem_core st ->
  (exists a sp, resolves st semid a sp /\ resolved st semid bad k = k a sp) \/
  (forall a sp, ~ resolves st semid a sp) /\ resolved st semid bad k = Ok bad.
Proof.
  intros Hc. unfold resolved. pose proof (ipcid_ix_nonneg semid) as H0.
  rewrite (proj2 (Z.ltb_ge _ _) H0). cbn [orb].
  destruct (Z.leb_spec (semmni (info st)) (IPCID_TO_IX semid)) as [Hge|Hlt].
  { right. split; [|done]. intros a sp []. lia. }
  destruct (sema st !! Z.to_nat (IPCID_TO_IX semid)) as [[a|]|] eqn:E.
  3:{ apply lookup_ge_None in E. pose proof (inv_len _ Hc). lia. }
  2:{ right. split; [|done]. intros a sp []. congruence. }
  destruct (inv_slot _ Hc _ _ E) as (sp & Hsp & _). unfold deref. rewrite Hsp.
  cbn [mbind outcome_bind].
  destruct (Z.eqb_spec (seq (sem_perm sp)) (IPCID_TO_SEQ semid)) as [Hs|Hs]; cbn [negb].
  - left. exists a, sp. split; [done|done].
  - right. split; [|done]. intros a' sp' []. congruence.
Qed.

(** The rest of [sys_semop]. *)
Definition semop_body (pg : pool) (st : semst) (p : proc) (now semid nsops cerr : Z)
    (usops : nat -> sembuf) (a : Z) (sp : semid_ds) : outcome (semst * result) :=
  let error := ipcperm (p_ucred p) (sem_perm sp) IPC_W in
  if negb (error =? 0) then Ok (st, Return error)
  else if nsops =? 0 then Ok (st, Return 0)
  else if semopm (info st) <? nsops then Ok (st, Return E2BIG)
  else if negb (cerr =? 0) then Ok (st, Return cerr)
  else semop_pass pg st p now semid a (usops <$> List.seq 0 (Z.to_nat nsops)) 0.

Lemma sys_semop_resolved pg st p now semid nsops cerr usops :
  sys_semop pg st p now semid nsops cerr usops =
  resolved st semid (st, Return EINVAL) (semop_body pg st p now semid nsops cerr usops).
Proof. done. Qed.

(** What a call of semop(2) must bring: operations of the type, a process that
    is not asleep, a structure that is not in use. *)
Record semop_ok (st : semst) (p : proc) (new : Z) : Prop := SemopOk {
  so_new : new ∉ (un_addr <$> semu_list st);
  so_tid : waiters st !! p_tid p = None;
  so_size : Z.of_nat (size (waiters st)) < 65535;
}.

Lemma sys_semop_inv new st p now semid nsops cerr usops st' r :
  sem_inv st -> semop_ok st p new -> (forall i, sop_typed (usops i)) ->
  sys_semop (PoolNow new) st p now semid nsops cerr usops = Ok (st', r) -> sem_inv st'.
Proof.
  intros Hi [Hn Ht Hs] Hty Heq. rewrite sys_semop_resolved in Heq.
  destruct (resolved_cases st semid (st, Return EINVAL)
    (semop_body (PoolNow new) st p now semid nsops cerr usops)
    (proj1 Hi)) as [(a & sp & [] & Hr)|[_ Hr]]; rewrite Hr in Heq; [|by injection Heq as <- <-].
  unfold semop_body in Heq. repeat (case_if_in Heq; [by injection Heq as <- <-|]).
  eapply (semop_pass_inv new st p now semid a sp (usops <$> _)); try done. apply Forall_fmap, Forall_true. intros x. apply Hty.
Qed.

(** The state once a process that woke up has readjusted the counts. *)
Definition readjusted (st : semst) (p : proc) (w : waiter) (sop : sembuf) (sp : semid_ds) : semst :=
  put_set (w_semaptr w) (set_base (add_wait (-1) sop (sem_base sp)) sp)
    (set_waiters (delete (p_tid p)) st).

Lemma waiter_leaves st p :
  sem_core st -> sem_core (set_waiters (delete (p_tid p)) st).
Proof.
  intros Hc. apply core_waiters; [done|]. intros tid w' [_ Hw']%lookup_delete_Some.
  by eapply inv_wait.
Qed.

Lemma waiters_shrink (ws : gmap Z waiter) tid w :
  ws !! tid = Some w -> (size (delete tid ws) < size ws)%nat.
Proof.
  intros Hw. rewrite map_size_delete, Hw. apply Nat.lt_pred_l.
  intros H%map_size_empty_inv. by rewrite H in Hw.
Qed.

Lemma semop_resume_readjust st p w sop sp :
  sem_inv st -> Z.of_nat (size (waiters st)) <= 65535 ->
  waiters st !! p_tid p = Some w -> w_sops w !! w_i w = Some sop ->
  sets st !! w_semaptr w = Some sp ->
  sem_inv (readjusted st p w sop sp) /\
  sets (readjusted st p w sop sp) !! w_semaptr w = Some (set_base (add_wait (-1) sop (sem_base sp)) sp).
Proof.
  intros Hi Hsize Hw Hsop Hsp. split; [|cbn; apply lookup_insert_eq].
  pose proof (inv_wait _ (proj1 Hi) _ _ Hw) as [_ _ _ H4].
  destruct (H4 sp Hsp) as (_ & _ & Hnum). specialize (Hnum sop Hsop).
  pose proof (inv_sets _ (proj1 Hi) _ _ Hsp) as [Hset _].
  pose proof (waiters_shrink _ _ _ Hw). split.
  - apply (core_put (w_semaptr w) sp); try done; [by apply waiter_leaves, Hi|by apply add_wait_ok].
  - apply (counted_shift st (w_semaptr w) sp sop (-1) (delete (p_tid p)) w); try done;
      [apply Hi|apply Hset|lia| |lia].
    intros. rewrite (cnt_delete _ _ w) by done. destruct (waits_on _ _ _ _); lia.
Qed.

Lemma semop_resume_inv new st p now error st' r :
  sem_inv st -> new ∉ (un_addr <$> semu_list st) ->
  Z.of_nat (size (waiters st)) <= 65535 ->
  semop_resume (PoolNow new) st p now error = Ok (st', r) -> sem_inv st'.
Proof.
  intros Hi Hnew Hsize Heq. unfold semop_resume in Heq.
  destruct (waiters st !! p_tid p) as [w|] eqn:Hw; [|done].
  pose proof (inv_wait _ (proj1 Hi) _ _ Hw) as [H1 H2 [sop Hsop] H4].
  pose proof (waiters_shrink _ _ _ Hw) as Hsz. cbn [sema set_waiters] in Heq.
  destruct (sema st !! Z.to_nat (IPCID_TO_IX (w_semid w))) as [[b|]|] eqn:Hslot; [| |done].
  2:{ injection Heq as <- <-. split; [by apply waiter_leaves, Hi|].
      intros a sp n s Ha Hs. cbn in Ha |- *.
      rewrite !(cnt_delete _ _ w) by done. destruct (proj2 Hi a sp n s Ha Hs) as [-> ->].
      assert (Hf : forall z, waits_on a (Z.of_nat n) z w = false).
      { intros z. unfold waits_on. destruct (Z.eqb_spec (w_semaptr w) a) as [<-|]; [|done].
        destruct (H4 sp Ha) as (_ & ? & _). congruence. }
      by rewrite !Hf, !Z.sub_0_r. }
  unfold deref in Heq. cbn [sets set_waiters] in Heq.
  destruct (sets st !! w_semaptr w) as [sp|] eqn:Hsp; [|done]. cbn [mbind outcome_bind] in Heq.
  destruct (H4 sp eq_refl) as (Hseq & Hsl & Hnum). rewrite Hseq, Z.eqb_refl in Heq. cbn [negb] in Heq.
  unfold w_sop in Hsop. rewrite Hsop in Heq.
  destruct (semop_resume_readjust st p w sop sp Hi Hsize Hw Hsop Hsp) as [Hi1 Hs1].
  case_if_in Heq; [by injection Heq as <- <-|]. injection Hsl as ->.
  eapply (semop_pass_inv new (readjusted st p w sop sp) p now (w_semid w) (w_semaptr w)
    (set_base (add_wait (-1) sop (sem_base sp)) sp) (w_sops w)); try done.
  - cbn. apply lookup_delete_eq.
  - cbn. lia.
Qed.

(** ** semctl *)

(** The elements of the user's array are of type [unsigned short]. *)
Definition semun_typed (arg : semun) : Prop := forall i v, array_in arg i = inr v -> inu 16 v.

Lemma setall_typed arg vmx n : forall i vs,
  semun_typed arg -> setall arg vmx i n = inr vs -> Forall (inu 16) vs /\ length vs = n.
Proof.
  induction n as [|n IH]; intros i vs Ht; cbn.
  { by intros [= <-]. }
  destruct (array_in arg i) as [e|v] eqn:E; [done|]. case_if; [done|].
  destruct (setall arg vmx (S i) n) as [e|vs'] eqn:E'; [done|]. intros [= <-].
  destruct (IH _ _ Ht E') as [Hf Hl]. split; [constructor; [by eapply Ht|done]|]. cbn. by rewrite Hl.
Qed.

Lemma store_vals_ok vs : forall base,
  Forall (inu 16) vs -> Forall sem_ok base ->
  Forall sem_ok (store_vals vs base) /\ same_counts base (store_vals vs base).
Proof.
  induction vs as [|v vs IH]; intros [|s base] Hv Hb; try done.
  apply Forall_cons in Hv as [Hv Hvs]. apply Forall_cons in Hb as [Hs Hb].
  destruct (IH base Hvs Hb) as [H1 H2]. split; [constructor; [by apply set_val_ok|done]|].
  unfold same_counts in *. cbn. by rewrite H2.
Qed.

(** Values stored in a set, and undo entries of the set cleared. *)
Lemma set_vals_inv st a sp base id num ix :
  sem_inv st -> sets st !! a = Some sp ->
  same_counts (sem_base sp) base -> Forall sem_ok base ->
  sem_inv (wakeup ix (semundo_clear id num (put_set a (set_base base sp) st))).
Proof.
  intros Hi Hsp Hc Hb. apply inv_wakeup.
  assert (Hi1 : sem_inv (put_set a (set_base base sp) st)).
  { apply (inv_put a sp); try done. apply set_ok_base; try done. by apply (inv_sets _ (proj1 Hi) a). }
  destruct Hi1 as [Hc1 Hcnt].
  destruct (semundo_clear_spec id num _ (inv_undos _ Hc1)) as (l & -> & Hwf & Hl & Hm).
  apply inv_with_undos; [done|done|pose proof (inv_mnu _ Hc1); lia|].
  intros pr k Hk. apply (inv_ents _ Hc1 pr). specialize (Hm pr). unfold cleared in Hm.
  destruct (num =? -1).
  - rewrite Hm in Hk. destruct Hk as [v Hk]. apply map_lookup_filter_Some_1_1 in Hk. by exists v.
  - destruct Hm as [Hm|Hm]; rewrite Hm in Hk; [done|]. destruct Hk as [v Hk].
    apply lookup_delete_Some in Hk as [_ Hk]. by exists v.
Qed.

(** Nobody waits for a set that no waiter points to. *)
Lemma cnt_other ws a n zero :
  (forall tid w, ws !! tid = Some w -> w_semaptr w <> a) -> cnt ws a n zero = 0.
Proof.
  intros H. unfold cnt. assert (filter (fun kw => waits_on a n zero kw.2 = true) ws = ∅) as ->.
  { apply map_empty. intros tid. apply map_lookup_filter_None. right. intros w Hw. cbn.
    unfold waits_on. by rewrite (proj2 (Z.eqb_neq _ _) (H tid w Hw)). }
  by rewrite map_size_empty.
Qed.

(** The end of a set: its slot is free, its undo entries are gone. *)
Lemma rmid_inv st semid a sp :
  sem_inv st -> resolves st semid a sp ->
  sem_inv (wakeup (IPCID_TO_IX semid) (semundo_clear (IPCID_TO_IX semid) (-1)
    (set_sets (delete a)
      (set_slot (Z.to_nat (IPCID_TO_IX semid)) None (semtot st - sem_nsems sp) st)))).
Proof.
  intros [Hc Hcnt] [Hix Hslot Hsp Hseq]. apply inv_wakeup.
  set (ix := IPCID_TO_IX semid) in *. pose proof (ipcid_ix_nonneg semid) as H0. fold ix in H0.
  set (st1 := set_sets _ _).
  destruct (semundo_clear_spec ix (-1) st1 (inv_undos _ Hc)) as (l & -> & Hwf & Hl & Hm).
  assert (Hslots : forall i b, sema st1 !! i = Some (Some b) ->
    sema st !! i = Some (Some b) /\ b <> a).
  { intros i b. cbn. intros [(_ & [=] & _)|[Hne Hb]]%list_lookup_insert_Some. split; [done|].
    intros ->. apply Hne. by eapply inv_inj. }
  assert (Hback : forall i b, sema st !! i = Some (Some b) -> b <> a ->
    sema st1 !! i = Some (Some b)).
  { intros i b Hb Hne. cbn. rewrite list_lookup_insert_ne; [done|]. intros <-.
    rewrite Hslot in Hb. by injection Hb as ->. }
  pose proof (inv_sets _ Hc a sp Hsp) as [[_ Hmax _ _] _].
  split; [destruct Hc; split; try done|].
  - cbn. by rewrite length_insert.
  - cbn. by rewrite length_insert.
  - intros i b [Hb Hne]%Hslots. destruct (inv_slot0 i b Hb) as (x & Hx & Hs). exists x.
    cbn. by rewrite lookup_delete_ne.
  - intros i j b [Hi _]%Hslots [Hj _]%Hslots. by eapply inv_inj0.
  - intros b x. cbn. intros [Hne Hb]%lookup_delete_Some.
    destruct (inv_sets0 b x Hb) as [Hok [i Hi]]. split; [done|]. exists i. by apply Hback.
  - cbn. rewrite (total_delete _ _ _ Hsp). lia.
  - cbn. lia.
  - cbn in Hl |- *. lia.
  - intros pr k Hk. cbn in Hk. specialize (Hm pr). unfold cleared in Hm. cbn [Z.eqb] in Hm.
    change (-1 =? -1) with true in Hm. cbn in Hm. rewrite Hm in Hk. destruct Hk as [v Hk].
    apply map_lookup_filter_Some in Hk as [Hk Hid]. cbn in Hid.
    destruct (inv_ents0 pr k (mk_is_Some _ _ Hk)) as (b & x & Hk0 & Hb & Hx & Hr).
    assert (Hne : b <> a).
    { intros ->. assert (Z.to_nat k.1 = Z.to_nat ix) by (by eapply inv_inj0). lia. }
    exists b, x. split; [done|]. split; [by apply Hback|]. split; [|done]. cbn.
    by rewrite lookup_delete_ne.
  - intros tid w Hw. destruct (inv_wait0 tid w Hw) as [H1 H2 H3 H4]. split; [done..|].
    intros x. cbn. intros [Hne Hx]%lookup_delete_Some. destruct (H4 x Hx) as (H5 & H6 & H7).
    split; [done|]. split; [by apply Hback|done].
  - intros b x n s. cbn. intros [Hne Hb]%lookup_delete_Some Hs. by apply (Hcnt b x).
Qed.

(** [semctl1] is the resolution of the identifier and a command. *)
Definition semctl_body (st : semst) (p : proc) (now semid semnum cmd : Z) (arg : semun)
    (a : Z) (sp : semid_ds) : outcome (semst * ctl) :=
  let cred := p_ucred p in
  let ix := IPCID_TO_IX semid in
  let check m (k : outcome (semst * ctl)) :=
    let error := ipcperm cred (sem_perm sp) m in
    if negb (error =? 0) then Ok (st, ctl_error error) else k in
  if cmd =? IPC_RMID then check IPC_M
    (Ok (wakeup ix (semundo_clear ix (-1) (set_sets (delete a)
           (set_slot (Z.to_nat ix) None (semtot st - sem_nsems sp) st))), ctl_error 0))
  else if cmd =? IPC_SET then check IPC_M
    match buf_in arg with
    | inl error => Ok (st, ctl_error error)
    | inr sbuf =>
        let pm := sem_perm sp in
        let pm := IpcPerm (cuid pm) (cgid pm) (uid sbuf) (gid sbuf)
                    (clear (mode pm) 0x1ff .| (mode sbuf .& 0x1ff)) (seq pm) (key pm) in
        Ok (put_set a (SemidDs pm (sem_base sp) (sem_nsems sp) (sem_otime sp) now) st, ctl_error 0)
    end
  else if cmd =? IPC_STAT then check IPC_R
    (if negb (buf_out arg =? 0) then Ok (st, ctl_error (buf_out arg))
     else Ok (st, Ctl 0 None [] (Some sp)))
  else if cmd =? GETNCNT then get_field semncnt cred sp semnum st
  else if cmd =? GETPID then get_field sempid cred sp semnum st
  else if cmd =? GETVAL then get_field semval cred sp semnum st
  else if cmd =? GETALL then check IPC_R
    (let '(error, out) := getall arg 0 (sem_base sp) in Ok (st, Ctl error None out None))
  else if cmd =? GETZCNT then get_field semzcnt cred sp semnum st
  else if cmd =? SETVAL then check IPC_W
    (if (semnum <? 0) || (sem_nsems sp <=? semnum) then Ok (st, ctl_error EINVAL)
     else if semvmx (info st) <? arg_val arg then Ok (st, ctl_error ERANGE)
     else Ok (wakeup ix (semundo_clear ix semnum (put_set a
            (set_base (on_sem (set_val (u16 (arg_val arg))) semnum (sem_base sp)) sp) st)),
          ctl_error 0))
  else if cmd =? SETALL then check IPC_W
    match setall arg (semvmx (info st)) 0 (Z.to_nat (sem_nsems sp)) with
    | inl error => Ok (st, ctl_error error)
    | inr vals => Ok (wakeup ix (semundo_clear ix (-1)
                    (put_set a (set_base (store_vals vals (sem_base sp)) sp) st)), ctl_error 0)
    end
  else Ok (st, ctl_error EINVAL).

Lemma semctl1_resolved st p now semid semnum cmd arg :
  semctl1 st p now semid semnum cmd arg =
  resolved st semid (st, ctl_error EINVAL) (semctl_body st p now semid semnum cmd arg).
Proof. done. Qed.

Lemma get_field_ok f cred sp n st : set_ok sp ->
  exists r, get_field f cred sp n st = Ok (st, r).
Proof.
  intros [Hl Hm _ _]. unfold get_field. case_if; [by eexists|].
  destruct ((n <? 0) || (sem_nsems sp <=? n)) eqn:E; [by eexists|]. zify_bool.
  unfold sem_at. rewrite (proj2 (Z.ltb_ge n 0)) by lia.
  destruct (lookup_lt_is_Some_2 (sem_base sp) (Z.to_nat n)) as [s ->]; [lia|by eexists].
Qed.

(** [semctl] returns and keeps the invariant. *)
Lemma semctl1_inv st p now semid semnum cmd arg :
  sem_inv st -> semun_typed arg ->
  exists st' r, semctl1 st p now semid semnum cmd arg = Ok (st', r) /\ sem_inv st'.
Proof.
  intros Hi Ht. rewrite semctl1_resolved.
  destruct (resolved_cases st semid (st, ctl_error EINVAL)
    (semctl_body st p now semid semnum cmd arg) (proj1 Hi)) as [(a & sp & Hr & ->)|[_ ->]];
    [|by eexists _, _].
  pose proof Hr as [_ _ Hsp _]. destruct (inv_sets _ (proj1 Hi) a sp Hsp) as [Hset _].
  assert (Hg : forall f, exists st' r,
    get_field f (p_ucred p) sp semnum st = Ok (st', r) /\ sem_inv st').
  { intros f. destruct (get_field_ok f (p_ucred p) sp semnum st Hset) as [r ->]. by eexists _, _. }
  assert (Hv : forall v, sem_inv (wakeup (IPCID_TO_IX semid) (semundo_clear (IPCID_TO_IX semid)
    semnum (put_set a (set_base (on_sem (set_val (u16 v)) semnum (sem_base sp)) sp) st)))).
  { intros v. apply set_vals_inv; [done|done|by apply same_counts_on_sem|].
    apply on_sem_ok; [|apply Hset]. intros s. apply set_val_ok. apply wrapu_range. lia. }
  unfold semctl_body. cbn zeta.
  repeat (case_if; [first [apply Hg|by eexists _, _|idtac]|]); try by eexists _, _.
  - eexists _, _. split; [done|]. by apply rmid_inv.
  - destruct (buf_in arg) as [e|sbuf]; [by eexists _, _|]. eexists _, _. split; [done|].
    apply (inv_put a sp); try done. by destruct Hset.
  - destruct (getall arg 0 (sem_base sp)) as [e out]. by eexists _, _.
  - destruct (setall _ _ _ _) as [e|vs] eqn:E; [by eexists _, _|]. eexists _, _. split; [done|].
    destruct (setall_typed _ _ _ _ _ Ht E) as [Hf _].
    destruct (store_vals_ok vs (sem_base sp) Hf (set_sems _ Hset)) as [H1 H2].
    by apply set_vals_inv.
Qed.

Lemma sys___semctl_inv st p now semid semnum cmd arg :
  sem_inv st -> semun_typed arg ->
  exists st' r, sys___semctl st p now semid semnum cmd arg = Ok (st', r) /\ sem_inv st'.
Proof.
  intros Hi Ht. unfold sys___semctl. case_if; [by apply semctl1_inv|by eexists _, _].
Qed.

(** ** semget *)

Lemma find_slot_spec slots : forall i0,
  match find_slot i0 slots with
  | None => forall j, slots !! j <> Some None
  | Some i => exists j, i = (i0 + j)%nat /\ slots !! j = Some None /\
                forall j', (j' < j)%nat -> slots !! j' <> Some None
  end.
Proof.
  induction slots as [|[a|] slots IH]; intros i0; cbn.
  - by intros j.
  - specialize (IH (S i0)). destruct (find_slot (S i0) slots) as [i|].
    + destruct IH as (j & -> & Hj & Hlt). exists (S j). split; [lia|]. split; [done|].
      intros [|j'] Hj'; [done|]. apply Hlt. lia.
    + intros [|j]; [done|]. apply IH.
  - exists 0%nat. split; [lia|]. split; [done|]. lia.
Qed.

Lemma find_key_spec st k slots : forall i0,
  (forall j a, slots !! j = Some (Some a) -> is_Some (sets st !! a)) ->
  match find_key st k i0 slots with
  | Panic => False
  | Ok None => forall j a sp, slots !! j = Some (Some a) -> sets st !! a = Some sp ->
                 key (sem_perm sp) <> k
  | Ok (Some (i, sp)) =>
      exists j a, i = (i0 + j)%nat /\ slots !! j = Some (Some a) /\ sets st !! a = Some sp /\
        key (sem_perm sp) = k
  end.
Proof.
  induction slots as [|[a|] slots IH]; intros i0 Hs; cbn.
  - by intros j.
  - destruct (Hs 0%nat a eq_refl) as [sp Hsp]. unfold deref. rewrite Hsp. cbn [mbind outcome_bind].
    case_if.
    + exists 0%nat, a. split; [lia|]. done.
    + specialize (IH (S i0)). destruct (find_key st k (S i0) slots) as [[[i sp']|]|].
      * destruct IH as (j & b & -> & H); [intros j b; apply (Hs (S j))|].
        exists (S j), b. split; [lia|done].
      * intros [|j] b x Hb Hx; [|by eapply IH; [intros j' b'; apply (Hs (S j'))|..]].
        cbn in Hb. injection Hb as <-. congruence.
      * apply IH. intros j b. apply (Hs (S j)).
  - specialize (IH (S i0)). destruct (find_key st k (S i0) slots) as [[[i sp']|]|].
    + destruct IH as (j & b & -> & H); [intros j b; apply (Hs (S j))|].
      exists (S j), b. split; [lia|done].
    + intros [|j] b x Hb Hx; [done|]. by eapply IH; [intros j' b'; apply (Hs (S j'))|..].
    + apply IH. intros j b. apply (Hs (S j)).
Qed.

(** What [pool_get] may return: memory that is not in use, and that no process
    asleep in [sys_semop] still has a pointer to. *)
Record semget_ok (st : semst) (new : Z) : Prop := SemgetOk {
  sg_new : sets st !! new = None;
  sg_wait : forall tid w, waiters st !! tid = Some w -> w_semaptr w <> new;
}.

(** The new set. *)
Definition new_set (cred : ucred) (now k nsems semflg s : Z) : semid_ds :=
  SemidDs (IpcPerm (cr_uid cred) (cr_gid cred) (cr_uid cred) (cr_gid cred) (semflg .& 0x1ff) s k)
    (replicate (Z.to_nat nsems) (MkSem 0 0 0 0)) (u16 nsems) 0 now.

Definition new_state (st : semst) (ix : nat) (new : Z) (sp : semid_ds) : semst :=
  set_slot ix (Some new) (semtot st + sem_nsems sp)
    (set_sets <[new := sp]> (set_seq ix (seq (sem_perm sp)) st)).

Lemma new_set_ok cred now k nsems semflg s :
  0 < nsems < 32768 -> inu 15 s -> set_ok (new_set cred now k nsems semflg s).
Proof.
  intros Hn Hs. split; cbn; try done.
  - rewrite length_replicate, wrapu_small; [lia|]. unfold inu. lia.
  - rewrite wrapu_small; [lia|]. unfold inu. lia.
  - apply Forall_replicate. by split_and!.
Qed.

Lemma new_state_inv st ix new sp :
  sem_inv st -> semget_ok st new -> sema st !! ix = Some None -> set_ok sp ->
  Forall (fun s => semncnt s = 0 /\ semzcnt s = 0) (sem_base sp) ->
  semtot st + sem_nsems sp <= semmns (info st) ->
  sem_inv (new_state st ix new sp).
Proof.
  intros [Hc Hcnt] [Hnew Hwait] Hix Hset Hz Hmns.
  assert (Hlt : (ix < length (sema st))%nat) by (by eapply lookup_lt_Some).
  assert (Hslots : forall i b, sema (new_state st ix new sp) !! i = Some (Some b) ->
    i = ix /\ b = new \/ i <> ix /\ b <> new /\ sema st !! i = Some (Some b)).
  { intros i b. cbn. intros [(-> & [= ->] & _)|[Hne Hb]]%list_lookup_insert_Some; [by left|right].
    split; [done|]. split; [|done]. intros ->. destruct (inv_slot _ Hc _ _ Hb) as (x & Hx & _).
    congruence. }
  assert (Hback : forall i b, sema st !! i = Some (Some b) ->
    sema (new_state st ix new sp) !! i = Some (Some b)).
  { intros i b Hb. cbn. rewrite list_lookup_insert_ne; [done|]. congruence. }
  assert (Hsets : forall b x, sets st !! b = Some x -> sets (new_state st ix new sp) !! b = Some x).
  { intros b x Hb. cbn. rewrite lookup_insert_ne; [done|]. congruence. }
  split; [destruct Hc; split; try done|].
  - cbn. by rewrite length_insert.
  - cbn. by rewrite !length_insert.
  - cbn. by apply Forall_insert; [|apply Hset].
  - intros i b [(-> & ->)|(Hi & Hne & Hb)]%Hslots; cbn.
    + exists sp. rewrite lookup_insert_eq, list_lookup_insert_eq by lia. done.
    + destruct (inv_slot0 i b Hb) as (x & Hx & Hs). exists x.
      by rewrite lookup_insert_ne, list_lookup_insert_ne.
  - intros i j b [(-> & ->)|(Hi & Hne & Hb)]%Hslots [(-> & ?)|(Hj & Hne' & Hb')]%Hslots; try done.
    by eapply inv_inj0.
  - intros b x. cbn. intros [[<- <-]|[Hne Hb]]%lookup_insert_Some.
    + split; [done|]. exists ix. by rewrite list_lookup_insert_eq.
    + destruct (inv_sets0 b x Hb) as [Hok [i Hi]]. split; [done|]. exists i. by apply Hback.
  - cbn. rewrite total_insert by done. lia.
  - intros pr k Hk. destruct (inv_ents0 pr k Hk) as (b & x & H0 & Hb & Hx & Hr).
    exists b, x. split; [done|]. split; [by apply Hback|]. split; [by apply Hsets|done].
  - intros tid w Hw. destruct (inv_wait0 tid w Hw) as [H1 H2 H3 H4]. split; [done..|].
    intros x. cbn. intros [[Ha _]|[_ Hx]]%lookup_insert_Some; [by destruct (Hwait tid w Hw)|].
    destruct (H4 x Hx) as (H5 & H6 & H7). split; [done|]. split; [by apply Hback|done].
  - intros b x n s. cbn. intros [[<- <-]|[Hne Hb]]%lookup_insert_Some Hs; [|by apply (Hcnt b x)].
    rewrite !cnt_other by done. rewrite Forall_lookup in Hz. by eapply Hz.
Qed.

(** The identifier that [sys_semget] makes names the slot it was made for. *)
Lemma resolves_made st i a sp :
  sem_core st -> sema st !! i = Some (Some a) -> sets st !! a = Some sp ->
  resolves st (IXSEQ_TO_IPCID (Z.of_nat i) (sem_perm sp)) a sp.
Proof.
  intros Hc Hi Hsp. pose proof (lookup_lt_Some _ _ _ Hi) as Hlt.
  pose proof (inv_len _ Hc). pose proof (inv_mni _ Hc).
  destruct (inv_sets _ Hc a sp Hsp) as [[_ _ _ Hs] _].
  assert (Hix : inu 16 (Z.of_nat i)) by (unfold inu; lia).
  split; rewrite ?ipcid_ix, ?ipcid_seq by done; [lia| |done|done]. by rewrite Nat2Z.id.
Qed.

Lemma resolves_new st ix new sp id b x :
  semget_ok st new -> sema st !! ix = Some None ->
  resolves st id b x -> resolves (new_state st ix new sp) id b x.
Proof.
  intros [Hnew _] Hix [H1 H2 H3 H4]. split; cbn; [done| | |done].
  - rewrite list_lookup_insert_ne; [done|]. congruence.
  - rewrite lookup_insert_ne; [done|]. congruence.
Qed.

(** What [sys_semget] comes to. *)
Record got (st : semst) (p : proc) (now k nsems semflg new : Z) (st' : semst) (e r : Z) : Prop := Got {
  got_inv : sem_inv st';
  got_err : e <> 0 -> st' = st;
  got_ids : forall id b x, resolves st id b x -> resolves st' id b x;
  got_set : e = 0 -> exists a sp, resolves st' r a sp /\ key (sem_perm sp) = k /\
    (0 < nsems -> nsems <= sem_nsems sp) /\
    (st' = st /\ k <> IPC_PRIVATE /\ ipcperm (p_ucred p) (sem_perm sp) (semflg .& 0x1c0) = 0 \/
     a = new /\ (k <> IPC_PRIVATE -> forall b x, sets st !! b = Some x -> key (sem_perm x) <> k) /\
       exists ix s, semseqs st !! ix = Some s /\
         sp = new_set (p_ucred p) now k nsems semflg ((s + 1) .& 0x7fff) /\
         st' = new_state st ix new sp /\
         sema st !! ix = Some None /\ forall j, (j < ix)%nat -> sema st !! j <> Some None);
  got_when : (k = IPC_PRIVATE \/ has semflg IPC_CREAT = true) ->
    0 < nsems <= semmsl (info st) -> nsems <= semmns (info st) - semtot st ->
    (k <> IPC_PRIVATE -> forall b x, sets st !! b = Some x -> key (sem_perm x) <> k) ->
    (exists ix, sema st !! ix = Some None) -> e = 0;
}.

Lemma got_fail st p now k nsems semflg new e :
  sem_inv st -> e <> 0 ->
  ((k = IPC_PRIVATE \/ has semflg IPC_CREAT = true) ->
    0 < nsems <= semmsl (info st) -> nsems <= semmns (info st) - semtot st ->
    (k <> IPC_PRIVATE -> forall b x, sets st !! b = Some x -> key (sem_perm x) <> k) ->
    (exists ix, sema st !! ix = Some None) -> False) ->
  got st p now k nsems semflg new st e 0.
Proof. intros Hi He Hw. split; try done. intros. by destruct Hw. Qed.

Lemma semget_create_spec st p now k nsems semflg new :
  sem_inv st -> semget_ok st new ->
  0 < nsems <= semmsl (info st) -> nsems <= semmns (info st) - semtot st ->
  (k <> IPC_PRIVATE -> forall b x, sets st !! b = Some x -> key (sem_perm x) <> k) ->
  exists st' e r,
    semget_create st (p_ucred p) now k nsems semflg new = Ok (st', e, r) /\
    got st p now k nsems semflg new st' e r.
Proof.
  intros Hi Hok Hn Hmns Hkey. unfold semget_create. pose proof Hi as [Hc _].
  pose proof (find_slot_spec (sema st) 0) as Hf.
  destruct (find_slot 0 (sema st)) as [ix|].
  2:{ eexists _, _, _. split; [done|]. apply got_fail; [done|done|].
      intros _ _ _ _ [ix Hix]. by destruct (Hf ix). }
  destruct Hf as (j & -> & Hix & Hmin). rewrite Nat.add_0_l.
  destruct (lookup_lt_is_Some_2 (semseqs st) j) as [s Hs].
  { rewrite (inv_seqs _ Hc). by eapply lookup_lt_Some. }
  rewrite Hs. set (s' := (s + 1) .& 0x7fff).
  assert (Hs' : inu 15 s').
  { subst s'. change 0x7fff with (Z.ones 15). rewrite Z.land_ones by lia.
    apply Z.mod_pos_bound. lia. }
  pose proof (inv_msl _ Hc) as Hmsl. set (sp := new_set (p_ucred p) now k nsems semflg s').
  assert (Hset : set_ok sp) by (apply new_set_ok; [lia|done]).
  assert (Hns : sem_nsems sp = nsems).
  { cbn. apply wrapu_small. unfold inu. lia. }
  assert (Hi' : sem_inv (new_state st j new sp)).
  { apply new_state_inv; try done; [by apply Forall_replicate|lia]. }
  eexists (new_state st j new sp), 0, _. split.
  { unfold new_state. rewrite Hns. done. }
  assert (Hslot : sema (new_state st j new sp) !! j = Some (Some new)).
  { cbn. apply list_lookup_insert_eq. by eapply lookup_lt_Some. }
  assert (Hsp : sets (new_state st j new sp) !! new = Some sp) by (cbn; apply lookup_insert_eq).
  split; [done|done|intros; by apply resolves_new| |done]. intros _. exists new, sp.
  split; [exact (resolves_made _ _ _ _ (proj1 Hi') Hslot Hsp)|]. split; [done|]. split; [lia|]. right.
  split; [done|]. split; [done|]. by exists j, s.
Qed.

Lemma sys_semget_spec st p now k nsems semflg new :
  sem_inv st -> semget_ok st new ->
  exists st' e r,
    sys_semget st p id now k nsems semflg new = Ok (st', e, r) /\
    got st p now k nsems semflg new st' e r.
Proof.
  intros Hi Hok. unfold sys_semget. pose proof Hi as [Hc _].
  set (creat := (k =? IPC_PRIVATE) || has semflg IPC_CREAT).
  assert (Hcreat : creat = true <-> k = IPC_PRIVATE \/ has semflg IPC_CREAT = true).
  { subst creat. by rewrite orb_true_iff, Z.eqb_eq. }
  assert (Hfail : forall e, e <> 0 ->
    (creat = true -> 0 < nsems <= semmsl (info st) -> nsems <= semmns (info st) - semtot st ->
     (k <> IPC_PRIVATE -> forall b x, sets st !! b = Some x -> key (sem_perm x) <> k) -> False) ->
    exists st' e' r, @Ok (semst * Z * Z) (st, e, 0) = Ok (st', e', r) /\
      got st p now k nsems semflg new st' e' r).
  { intros e He Hw. eexists _, _, _. split; [done|]. apply got_fail; [done|done|].
    intros H1 H2 H3 H4 _. by apply Hw; [apply Hcreat|..]. }
  destruct (creat && _) eqn:E1; [apply Hfail; [done|intros Hcr ?; zify_bool; lia]|].
  destruct (creat && (_ <? nsems)) eqn:E2; [apply Hfail; [done|intros Hcr ?; zify_bool; lia]|].
  assert (Hroom : creat = true ->
    0 < nsems <= semmsl (info st) /\ nsems <= semmns (info st) - semtot st).
  { intros H. rewrite H in E1, E2. cbn in E1, E2. zify_bool. lia. }
  replace (if creat then id st else st) with st by (by destruct creat).
  assert (Hslots : forall j a, sema st !! j = Some (Some a) -> is_Some (sets st !! a)).
  { intros j a Ha. destruct (inv_slot _ Hc j a Ha) as (x & Hx & _). by exists x. }
  assert (Hnone : (k <> IPC_PRIVATE -> forall b x, sets st !! b = Some x -> key (sem_perm x) <> k) ->
    exists st' e r,
      (if creat then semget_create st (p_ucred p) now k nsems semflg new else Ok (st, ENOENT, 0)) =
        Ok (st', e, r) /\ got st p now k nsems semflg new st' e r).
  { intros Hk. destruct creat; [|by apply Hfail]. destruct (Hroom eq_refl).
    by apply semget_create_spec. }
  destruct (Z.eqb_spec k IPC_PRIVATE) as [->|Hk]; [by apply Hnone|].
  pose proof (find_key_spec st k (sema st) 0 Hslots) as Hf.
  destruct (find_key st k 0 (sema st)) as [[[ix sp]|]|]; [| |done]; cbn [mbind outcome_bind].
  2:{ apply Hnone. intros _ b x Hb. destruct (inv_sets _ Hc b x Hb) as [_ [j Hj]]. by eapply Hf. }
  destruct Hf as (j & a & -> & Hj & Hsp & Hkey). rewrite Nat.add_0_l.
  assert (Hex : forall P : Prop,
    (k <> IPC_PRIVATE -> forall b x, sets st !! b = Some x -> key (sem_perm x) <> k) -> P).
  { intros P H. by destruct (H Hk a sp Hsp). }
  case_if; [by apply Hfail; [|intros; by apply Hex]|].
  destruct ((0 <? nsems) && _) eqn:E3; [by apply Hfail; [|intros; by apply Hex]|].
  destruct (has semflg IPC_CREAT && _); [by apply Hfail; [|intros; by apply Hex]|].
  eexists _, _, _. split; [done|]. split; [done|done|done| |done]. intros _. exists a, sp.
  split; [by apply resolves_made|]. split; [done|]. split; [|by left].
  intros Hn. rewrite (proj2 (Z.ltb_lt 0 nsems) Hn) in E3. cbn in E3. by zify_bool.
Qed.

End SemCalls.
