(* ===== verification/SemLife.v ===== *)
(** * System V semaphores: the end of a process, limits, and runs

    [semexit] adds the adjustments of a process to the semaphores; sysctl(3)
    raises the limits.  [call] is what can happen to the semaphores, [exec] runs
    one call and [run] a sequence; the invariant of SemInv.v holds after every
    sequence of calls that returns. *)

From S2P Require Import Prelude Ipc Sem SemUndo SemVec SemInv SemCalls.
Import Ipc Sem SemUndo SemVec SemInv SemCalls.

Module SemLife.

(** ** Values by identifier slot and number *)

Definition sem_of (st : semst) (k : Z * Z) : option sem :=
  if k.1 <? 0 then None
  else match sema st !! Z.to_nat k.1 with
  | Some (Some a) => sp ← sets st !! a; sem_at (sem_base sp) k.2
  | _ => None
  end.
Definition val_of (st : semst) (k : Z * Z) : option Z := semval <$> sem_of st k.

Lemma sem_at_on_sem f n base m :
  0 <= n ->
  sem_at (on_sem f n base) m = if n =? m then f <$> sem_at base m else sem_at base m.
Proof.
  intros Hn. unfold sem_at, on_sem. destruct (Z.ltb_spec m 0).
  - by destruct (n =? m).
  - destruct (Z.eqb_spec n m) as [->|Hne]; [apply list_lookup_alter_eq|].
    apply list_lookup_alter_ne. lia.
Qed.

(** Changing one semaphore of one set changes the value of one key. *)
Lemma val_of_put st id a sp n f k :
  sem_core st -> 0 <= id -> 0 <= n -> sema st !! Z.to_nat id = Some (Some a) ->
  sets st !! a = Some sp ->
  val_of (put_set a (set_base (on_sem f n (sem_base sp)) sp) st) k =
    if bool_decide (k = (id, n)) then (fun s => semval (f s)) <$> sem_of st k else val_of st k.
Proof.
  intros Hc Hid Hn Hslot Hsp. unfold val_of, sem_of. destruct k as [i m]. cbn.
  destruct (Z.ltb_spec i 0) as [Hneg|Hpos].
  { rewrite bool_decide_eq_false_2; [done|]. intros [= -> _]. lia. }
  destruct (decide (i = id)) as [->|Hi].
  - rewrite Hslot, lookup_insert_eq, Hsp. cbn. rewrite sem_at_on_sem by done.
    destruct (Z.eqb_spec n m) as [->|Hm].
    + rewrite bool_decide_eq_true_2 by done. by destruct (sem_at (sem_base sp) m).
    + rewrite bool_decide_eq_false_2; [done|]. by intros [= ->].
  - rewrite bool_decide_eq_false_2 by (by intros [= ->]).
    destruct (sema st !! Z.to_nat i) as [[b|]|] eqn:Hb; [|done|done].
    rewrite lookup_insert_ne; [done|]. intros <-.
    assert (Z.to_nat i = Z.to_nat id) by (by eapply inv_inj). lia.
Qed.

Lemma names_sem st k : sem_core st -> names st k ->
  exists a sp s, 0 <= k.1 /\ sema st !! Z.to_nat k.1 = Some (Some a) /\ sets st !! a = Some sp /\
    0 <= k.2 < sem_nsems sp /\ sem_at (sem_base sp) k.2 = Some s /\ sem_of st k = Some s.
Proof.
  intros Hc (a & sp & H0 & Ha & Hsp & Hr). destruct (inv_sets _ Hc a sp Hsp) as [[Hl _ _ _] _].
  destruct (lookup_lt_is_Some_2 (sem_base sp) (Z.to_nat k.2)) as [s Hs]; [lia|].
  assert (Hat : sem_at (sem_base sp) k.2 = Some s).
  { unfold sem_at. by rewrite (proj2 (Z.ltb_ge k.2 0)) by lia. }
  exists a, sp, s. do 5 (split; [done|]). unfold sem_of.
  rewrite (proj2 (Z.ltb_ge _ _) H0), Ha, Hsp. done.
Qed.

Lemma names_put st a sp sp' k :
  sets st !! a = Some sp -> sem_nsems sp' = sem_nsems sp ->
  names st k -> names (put_set a sp' st) k.
Proof.
  intros Hsp Hn (b & x & H0 & Hb & Hx & Hr). unfold names. cbn.
  destruct (decide (a = b)) as [<-|Hne].
  - exists a, sp'. rewrite lookup_insert_eq, Hn. assert (x = sp) as -> by congruence. done.
  - exists b, x. by rewrite lookup_insert_ne.
Qed.

Lemma val_of_range st k v : sem_core st -> val_of st k = Some v -> inu 16 v.
Proof.
  intros Hc. unfold val_of, sem_of. destruct (k.1 <? 0); [done|].
  destruct (sema st !! Z.to_nat k.1) as [[a|]|] eqn:E; [|done|done].
  destruct (sets st !! a) as [sp|] eqn:Hsp; [|done]. cbn. unfold sem_at.
  destruct (k.2 <? 0); [done|]. destruct (sem_base sp !! Z.to_nat k.2) as [s|] eqn:Hs; [|done].
  cbn. intros [= <-]. destruct (inv_sets _ Hc a sp Hsp) as [[_ _ Hb _] _].
  rewrite Forall_lookup in Hb. by apply (Hb _ _ Hs).
Qed.

(** ** semexit *)

Lemma exit_val_range d v : inu 16 (exit_val d v).
Proof. unfold exit_val. case_if; [done|]. apply wrapu_range. lia. Qed.

Lemma exit_loop_spec ents : forall st,
  sem_inv st -> ents_ok ents -> (forall e, e ∈ ents -> names st (un_id e, un_num e)) ->
  exists st', exit_loop st ents = Ok st' /\ sem_inv st' /\
    semu_list st' = semu_list st /\ semutot st' = semutot st /\ sema st' = sema st /\
    info st' = info st /\
    forall k, val_of st' k = match ents_map ents !! k with
                             | Some d => exit_val d <$> val_of st k
                             | None => val_of st k
                             end.
Proof.
  induction ents as [|e ents IH]; intros st Hi Hok Hn.
  { exists st. cbn. do 6 (split; [done|]). intros k. by rewrite lookup_empty. }
  apply ents_ok_cons in Hok as (Hkey & _ & Hok).
  destruct (names_sem st _ (proj1 Hi) (Hn e (list_elem_of_here _ _)))
    as (a & sp & s & H0 & Ha & Hsp & Hr & Hat & Hs). cbn in H0, Ha, Hr, Hat.
  cbn [exit_loop]. rewrite (proj2 (Z.ltb_ge _ _) H0), Ha. unfold deref. rewrite Hsp.
  cbn [mbind outcome_bind]. rewrite (proj2 (Z.leb_gt _ _)) by lia. rewrite Hat.
  set (f := set_val (exit_val (un_adjval e) (semval s))).
  set (sp1 := set_base (on_sem f (un_num e) (sem_base sp)) sp).
  destruct (inv_sets _ (proj1 Hi) a sp Hsp) as [Hset _].
  assert (Hi1 : sem_inv (wakeup (un_id e) (put_set a sp1 st))).
  { apply inv_wakeup. assert (Hsc : same_counts (sem_base sp) (sem_base sp1))
      by (by apply same_counts_on_sem).
    apply (inv_put a sp); try done. apply set_ok_base; [done|done|].
    apply on_sem_ok; [|apply Hset]. intros x. apply set_val_ok, exit_val_range. }
  destruct (IH _ Hi1 Hok) as (st' & Heq & Hi' & H1 & H2 & H3 & H4 & Hv).
  { intros e' He'. apply (names_put st a sp sp1); [done|done|]. apply Hn. by right. }
  exists st'. split; [exact Heq|]. split; [done|]. split; [done|]. split; [done|].
  split; [done|]. split; [done|]. intros k. rewrite Hv, ents_map_cons.
  change (val_of (wakeup (un_id e) (put_set a sp1 st)) k) with (val_of (put_set a sp1 st) k).
  unfold sp1. rewrite (val_of_put st (un_id e) a sp (un_num e) f k) by (done || apply Hi || lia).
  destruct (decide (k = (un_id e, un_num e))) as [->|Hne].
  - rewrite Hkey, lookup_insert_eq, bool_decide_eq_true_2 by done. unfold val_of. by rewrite Hs.
  - by rewrite lookup_insert_ne, bool_decide_eq_false_2.
Qed.

(** When a process ends, [semexit] returns, adds its adjustments to the
    semaphores, and forgets them. *)
Lemma semexit_spec st pr :
  sem_inv st ->
  exists st', semexit st pr = Ok st' /\ sem_inv st' /\ sema st' = sema st /\
    undo_of (semu_list st') pr = ∅ /\ others_keep (semu_list st) (semu_list st') pr /\
    forall k, val_of st' k = match undo_of (semu_list st) pr !! k with
                             | Some d => exit_val d <$> val_of st k
                             | None => val_of st k
                             end.
Proof.
  intros Hi. unfold semexit. pose proof (inv_undos _ (proj1 Hi)) as Hwf.
  destruct (su_of pr (semu_list st)) as [su|] eqn:Hsu.
  2:{ exists st. split; [done|]. split; [done|]. split; [done|].
      assert (Hu : undo_of (semu_list st) pr = ∅) by (by eapply undo_of_nil). rewrite Hu.
      split; [done|]. split; [done|]. intros k. by rewrite lookup_empty. }
  assert (Hu : undo_of (semu_list st) pr = ents_map (un_ent su)) by (unfold undo_of; by rewrite Hsu).
  pose proof Hsu as [Hin Hpr]%su_of_elem. pose proof Hwf as (_ & _ & Hf & _).
  rewrite Forall_forall in Hf. destruct (Hf _ Hin) as (_ & Hok & _).
  destruct (exit_loop_spec (un_ent su) st Hi Hok) as (st1 & -> & Hi1 & H1 & H2 & H3 & H4 & Hv).
  { intros e He. apply (inv_ents _ (proj1 Hi) pr). rewrite Hu.
    apply list_elem_of_lookup_1 in He as [i He].
    destruct (ents_perm _ _ Hok (remove_ent_perm _ _ _ He)) as [_ <-].
    rewrite ents_map_cons, lookup_insert_eq. by eexists. }
  cbn [mbind outcome_bind]. rewrite H1, H2.
  assert (Hnil : ents_ok []) by (by split; constructor).
  destruct (put_ents_wf _ _ su [] Hwf Hin Hnil ltac:(done)) as (Hw & Hof & _).
  cbn [put_ents] in Hw, Hof. set (l := su_remove (un_addr su) (semu_list st)) in *.
  pose proof Hw as (_ & _ & _ & Hl).
  assert (Heq : set_undos l (semutot st - 1) st1 = with_undos st1 l).
  { unfold with_undos. by rewrite Hl. }
  exists (with_undos st1 l). split; [by rewrite Heq|]. split.
  - apply inv_with_undos; [done|by rewrite <- Hl| |].
    + rewrite <- Hl, H4. pose proof (inv_mnu _ (proj1 Hi)). lia.
    + intros q k Hk. apply (inv_ents _ (proj1 Hi1) q). rewrite H1. rewrite Hof in Hk.
      destruct (un_proc su =? q); [|done]. destruct Hk as [v Hk]. by destruct (lookup_empty_Some (M := gmap (Z * Z)) k v).
  - split; [done|]. cbn [semu_list with_undos set_undos]. subst pr.
    split; [by rewrite Hof, Z.eqb_refl|]. rewrite Hu. split; [|exact Hv].
    intros q Hq. rewrite Hof. by destruct (Z.eqb_spec (un_proc su) q).
Qed.

(** ** sysctl *)

Lemma inv_set_info si st :
  sem_inv st -> semmni si = semmni (info st) -> semmsl si < 32768 ->
  semvmx si = semvmx (info st) -> semmns (info st) <= semmns si -> semmnu (info st) <= semmnu si ->
  sem_inv (set_info si st).
Proof.
  intros [[] Hcnt] H1 H2 H3 H4 H5. split; [|done]. split; cbn; try done; try lia.
  intros tid w Hw. apply (waiter_ok_ext st); [done..|]. by eapply inv_wait0.
Qed.

Lemma grow_inv v a st :
  sem_inv st -> semmni (info st) <= v <= 0xffff -> sem_inv (grow v a st).
Proof.
  intros [Hc Hcnt] Hv. pose proof (inv_len _ Hc) as Hlen. pose proof (inv_seqs _ Hc) as Hseqs.
  assert (Hn : length (sema st) = Z.to_nat (semmni (info st))) by lia.
  assert (Hse : sema (grow v a st) =
    sema st ++ replicate (Z.to_nat v - Z.to_nat (semmni (info st))) None).
  { cbn. by rewrite take_ge by lia. }
  assert (Hsq : semseqs (grow v a st) =
    semseqs st ++ replicate (Z.to_nat v - Z.to_nat (semmni (info st))) 0).
  { cbn. by rewrite take_ge by lia. }
  assert (Hback : forall i o, sema st !! i = Some o -> sema (grow v a st) !! i = Some o).
  { intros i o Hi. rewrite Hse. by apply lookup_app_l_Some. }
  assert (Hslots : forall i b, sema (grow v a st) !! i = Some (Some b) -> sema st !! i = Some (Some b)).
  { intros i b. rewrite Hse. intros [?|[_ Hb]]%lookup_app_Some; [done|].
    apply lookup_replicate in Hb as [[=] _]. }
  destruct Hc. split; [|done].
  split; rewrite ?Hse, ?Hsq; try (cbn; done || lia).
  - rewrite length_app, length_replicate. cbn. lia.
  - rewrite !length_app, !length_replicate. lia.
  - apply Forall_app. split; [done|]. by apply Forall_replicate.
  - rewrite <- Hse. intros i b Hb%Hslots. destruct (inv_slot0 i b Hb) as (x & Hx & Hs). exists x.
    split; [done|]. by apply lookup_app_l_Some.
  - rewrite <- Hse. intros i j b Hi%Hslots Hj%Hslots. by eapply inv_inj0.
  - rewrite <- Hse. intros b x Hb. destruct (inv_sets0 b x Hb) as [Hok [i Hi]]. split; [done|].
    exists i. by apply Hback.
  - intros pr k Hk. destruct (inv_ents0 pr k Hk) as (b & x & H0 & Hb & Hx & Hr).
    exists b, x. split; [done|]. split; [by apply Hback|done].
  - intros tid w Hw. destruct (inv_wait0 tid w Hw) as [H1 H2 H3 H4]. split; [done..|].
    intros x Hx. destruct (H4 x Hx) as (H5 & H6 & H7). split; [done|]. split; [by apply Hback|done].
Qed.

Lemma sysctl_limit_inv io old bad store st (P : semst -> Prop) :
  P st -> (forall v, bad v = false -> P (store v)) -> P (sysctl_limit io old bad store st).1.
Proof.
  intros Hst Hstore. unfold sysctl_limit. destruct (sysctl_int io old) as [e v].
  destruct (_ || _); [done|]. destruct (bad v) eqn:E; [done|]. by apply Hstore.
Qed.

Lemma sysctl_sysvsem_inv st namelen name0 io a :
  sem_inv st -> semmsl (info (sysctl_sysvsem st namelen name0 io a).1) < 32768 ->
  sem_inv (sysctl_sysvsem st namelen name0 io a).1.
Proof.
  intros Hi. unfold sysctl_sysvsem. pose proof (inv_msl _ (proj1 Hi)).
  repeat (case_if; [try done|]); try done;
    intros Hm; revert Hm;
    apply (sysctl_limit_inv _ _ _ _ _ (fun st => semmsl (info st) < 32768 -> sem_inv st)); try done;
    intros v Hb Hm; zify_bool; cbn in Hm.
  - apply grow_inv; [done|lia].
  - apply inv_set_info; cbn; (done || lia).
  - apply inv_set_info; cbn; (done || lia).
  - apply inv_set_info; cbn; (done || lia).
  - apply inv_set_info; cbn; (done || lia).
Qed.

(** ** Calls *)

Inductive call : Type :=
| CSemctl (p : proc) (now semid semnum cmd : Z) (arg : semun)
| CSemget (p : proc) (now k nsems semflg new : Z)
| CSemop (p : proc) (new now semid nsops cerr : Z) (usops : nat -> sembuf)
| CResume (p : proc) (new now error : Z)
| CExit (pr : Z)
| CSysctl (namelen name0 : Z) (io : sysctl_io) (a : Z).

Definition exec (st : semst) (c : call) : outcome semst :=
  match c with
  | CSemctl p now semid semnum cmd arg => r ← sys___semctl st p now semid semnum cmd arg; Ok r.1
  | CSemget p now k nsems semflg new =>
      r ← sys_semget st p id now k nsems semflg new; Ok r.1.1
  | CSemop p new now semid nsops cerr usops =>
      r ← sys_semop (PoolNow new) st p now semid nsops cerr usops; Ok r.1
  | CResume p new now error => r ← semop_resume (PoolNow new) st p now error; Ok r.1
  | CExit pr => semexit st pr
  | CSysctl namelen name0 io a => Ok (sysctl_sysvsem st namelen name0 io a).1
  end.

(** What the arguments satisfy: data of the C types, memory that is not in use,
    a caller that is not asleep, and for [CResume] one that is, woken or
    interrupted.  The administrator keeps [semmsl] within [short], the type of
    [un_num]. *)
Definition call_ok (st : semst) (c : call) : Prop :=
  match c with
  | CSemctl _ _ _ _ _ arg => semun_typed arg
  | CSemget _ _ _ _ _ new => semget_ok st new
  | CSemop p new _ _ nsops _ usops =>
      semop_ok st p new /\ 0 <= nsops /\ forall i, sop_typed (usops i)
  | CResume p new _ error =>
      (new ∉ (un_addr <$> semu_list st)) /\ Z.of_nat (size (waiters st)) <= 65535 /\
      exists w, waiters st !! p_tid p = Some w /\ (w_awake w = true \/ error <> 0)
  | CExit _ => True
  | CSysctl namelen name0 io a => semmsl (info (sysctl_sysvsem st namelen name0 io a).1) < 32768
  end.

(** Limits as sys/sem.h gives them. *)
Definition info_ok (si : seminfo) : Prop :=
  0 <= semmni si <= 65535 /\ semmsl si < 32768 /\ semvmx si = SEMVMX /\
  0 <= semmns si /\ 0 <= semmnu si.

Inductive reach : semst -> Prop :=
| reach_init si a : info_ok si -> reach (seminit si a)
| reach_call st c st' : reach st -> call_ok st c -> exec st c = Ok st' -> reach st'.

Lemma seminit_inv si a : info_ok si -> sem_inv (seminit si a).
Proof.
  intros (H1 & H2 & H3 & H4 & H5).
  assert (Hnone : forall i b, sema (seminit si a) !! i = Some (Some b) -> False).
  { intros i b Hb. cbn in Hb. apply lookup_replicate in Hb as [[=] _]. }
  split; [|intros b x n s Hb; cbn in Hb; by rewrite lookup_empty in Hb].
  split; cbn; try done; try lia.
  - rewrite length_replicate. lia.
  - by rewrite !length_replicate.
  - by apply Forall_replicate.
  - intros i b Hb. by destruct (Hnone i b).
  - intros i j b Hb. by destruct (Hnone i b).
  - split; [constructor|]. split; [constructor|]. by split.
  - intros pr k [v Hk]. cbn in Hk. by rewrite lookup_empty in Hk.
Qed.

Lemma exec_inv st c st' : sem_inv st -> call_ok st c -> exec st c = Ok st' -> sem_inv st'.
Proof.
  intros Hi Hok Heq. destruct c; cbn in Hok, Heq.
  - destruct (sys___semctl_inv st p now semid semnum cmd arg Hi Hok) as (st1 & r & E & H).
    rewrite E in Heq. by injection Heq as <-.
  - destruct (sys_semget_spec st p now k nsems semflg new Hi Hok) as (st1 & e & r & E & []).
    rewrite E in Heq. by injection Heq as <-.
  - destruct Hok as (Hs & _ & Ht). destruct (sys_semop _ _ _ _ _ _ _ _) as [[st1 r]|] eqn:E; [|done].
    injection Heq as <-. by eapply sys_semop_inv.
  - destruct Hok as (Hn & Hs & _). destruct (semop_resume _ _ _ _ _) as [[st1 r]|] eqn:E; [|done].
    injection Heq as <-. by eapply semop_resume_inv.
  - destruct (semexit_spec st pr Hi) as (st1 & E & H & _). rewrite E in Heq. by injection Heq as <-.
  - injection Heq as <-. by apply sysctl_sysvsem_inv.
Qed.

Lemma reach_inv st : reach st -> sem_inv st.
Proof.
  induction 1 as [si a Hs|st c st' _ IH Hok Heq]; [by apply seminit_inv|by eapply exec_inv].
Qed.

(** ** Calls that return *)

Lemma pass_total nsems sops : forall base i wk un,
  Z.of_nat (length base) = nsems -> Forall sop_typed sops ->
  pass_ops nsems base sops i wk un <> Panic.
Proof.
  induction sops as [|sop sops IH]; intros base i wk un Hl Ht; [done|].
  apply Forall_cons in Ht as [[[H0 _] _] Ht]. cbn [pass_ops].
  destruct (Z.leb_spec nsems (sem_num sop)); [done|]. unfold sem_at.
  rewrite (proj2 (Z.ltb_ge _ _) H0).
  destruct (lookup_lt_is_Some_2 base (Z.to_nat (sem_num sop))) as [s ->]; [lia|].
  repeat case_if; try done; apply IH; rewrite ?on_sem_length; done.
Qed.

(** The undo entries of a process are not used up in the middle of a vector. *)
Definition keeps_entry (st : semst) (p : proc) (semid : Z) (sops : list sembuf) : Prop :=
  held (IPCID_TO_IX semid) (undo_of (semu_list st) (p_p p)) sops = true.

(** An attempt returns when the undo entries are not used up on the way. *)
Lemma semop_pass_total new st p now semid a sp sops un :
  sem_inv st -> sets st !! a = Some sp -> Forall sop_typed sops ->
  new ∉ (un_addr <$> semu_list st) -> keeps_entry st p semid sops -> 0 <= un ->
  exists st' r, semop_pass (PoolNow new) st p now semid a sops un = Ok (st', r).
Proof.
  intros Hi Hsp Ht Hnew Hheld Hun. destruct (inv_sets _ (proj1 Hi) a sp Hsp) as [Hset _].
  assert (Hdec : Decision (in_set sp sops)) by (unfold in_set; apply _).
  destruct (decide (in_set sp sops)) as [Hin|Hout].
  - pose proof (semop_pass_spec new st p now semid a sp sops Hsp Hset Hin
      (typed_ok _ _ Hset Hin Ht) (inv_undos _ (proj1 Hi)) Hnew Hheld un Hun) as Hs.
    destruct (vec _ _) as [vs|].
    + destruct Hs as [_ Hs]. case_if_in Hs; [by eexists _, _|].
      destruct Hs as (l & e & wk & _ & _ & ->). by eexists _, _.
    + destruct Hs as (i & sop & _ & ->). repeat case_if; by eexists _, _.
  - unfold semop_pass, deref. rewrite Hsp. cbn [mbind outcome_bind].
    destruct (pass_ops _ _ _ _ _ _) as [[[[[b i] fbig] wk] un']|] eqn:E;
      [|by apply pass_total in E; [|apply Hset|]].
    destruct (pass_any _ _ _ _ _ _ _ _ _ _ _ E (set_sems _ Hset) Ht)
      as (j & -> & _ & _ & Hf & _). cbn [mbind outcome_bind]. cbn in E |- *.
    destruct fbig; [by eexists _, _|].
    destruct (Nat.leb_spec (length sops) j) as [Hge|Hlt].
    { rewrite take_ge in Hf by done. by destruct Hout. }
    cbn [andb]. case_if; [by eexists _, _|].
    destruct (lookup_lt_is_Some_2 sops j Hlt) as [sop ->]. case_if; by eexists _, _.
Qed.

(** Where a call might not return: a vector of semop(2) that uses the undo
    entries up on the way, a sleep from which a process wakes to find its slot
    taken by another set. *)
Definition call_safe (st : semst) (c : call) : Prop :=
  match c with
  | CSemop p _ _ semid nsops _ usops =>
      keeps_entry st p semid (usops <$> List.seq 0 (Z.to_nat nsops))
  | CResume p _ _ _ =>
      forall w, waiters st !! p_tid p = Some w ->
        keeps_entry st p (w_semid w) (w_sops w) /\
        (sema st !! Z.to_nat (IPCID_TO_IX (w_semid w)) = Some None \/
         is_Some (sets st !! w_semaptr w))
  | _ => True
  end.

Lemma semop_resume_total new st p now error w :
  sem_inv st -> new ∉ (un_addr <$> semu_list st) -> Z.of_nat (size (waiters st)) <= 65535 ->
  waiters st !! p_tid p = Some w -> keeps_entry st p (w_semid w) (w_sops w) ->
  (sema st !! Z.to_nat (IPCID_TO_IX (w_semid w)) = Some None \/ is_Some (sets st !! w_semaptr w)) ->
  exists st' r, semop_resume (PoolNow new) st p now error = Ok (st', r).
Proof.
  intros Hi Hnew Hsize Hw Hheld Hslot. unfold semop_resume. rewrite Hw. cbn [sema set_waiters].
  pose proof (inv_wait _ (proj1 Hi) _ _ Hw) as [H1 H2 [sop Hsop] H4].
  destruct Hslot as [->|[sp Hsp]]; [by eexists _, _|]. destruct (H4 sp Hsp) as (H5 & H6 & H7).
  rewrite H6. unfold deref. cbn [sets set_waiters]. rewrite Hsp. cbn [mbind outcome_bind].
  rewrite H5, Z.eqb_refl. cbn [negb]. unfold w_sop in Hsop. rewrite Hsop.
  case_if; [by eexists _, _|].
  (* the state after the counts are readjusted *)
  destruct (semop_resume_readjust st p w sop sp Hi Hsize Hw Hsop Hsp) as [Hi1 Hs1].
  by eapply semop_pass_total.
Qed.

(** A call that is safe returns. *)
Lemma exec_total st c :
  sem_inv st -> call_ok st c -> call_safe st c -> exists st', exec st c = Ok st'.
Proof.
  intros Hi Hok Hsafe. destruct c; cbn in *.
  - destruct (sys___semctl_inv st p now semid semnum cmd arg Hi Hok) as (st1 & r & -> & _).
    by eexists.
  - destruct (sys_semget_spec st p now k nsems semflg new Hi Hok) as (st1 & e & r & -> & _).
    by eexists.
  - destruct Hok as ([Hn _ _] & _ & Ht). rewrite sys_semop_resolved.
    destruct (resolved_cases st semid (st, Return EINVAL)
      (semop_body (PoolNow new) st p now semid nsops cerr usops) (proj1 Hi))
      as [(a & sp & [_ _ Hsp _] & ->)|[_ ->]]; [|by eexists].
    unfold semop_body. repeat (case_if; [by eexists|]).
    destruct (semop_pass_total new st p now semid a sp (usops <$> List.seq 0 (Z.to_nat nsops)) 0)
      as (st' & r & ->); try done; [|by eexists].
    apply Forall_fmap, Forall_true. intros x. apply Ht.
  - destruct Hok as (Hn & Hs & w & Hw & _). destruct (Hsafe w Hw) as [H1 H2].
    destruct (semop_resume_total new st p now error w Hi Hn Hs Hw H1 H2) as (st' & r & ->).
    by eexists.
  - destruct (semexit_spec st pr Hi) as (st1 & -> & _). by eexists.
  - by eexists.
Qed.

End SemLife.
