(* ===== verification/SemWake.v ===== *)
(** * System V semaphores: no wake-up is lost

    A process that sleeps in semop(2) and has not been woken still has to wait:
    whatever others do, the operation it stopped at cannot run.  This holds as
    long as vectors stay within the set and the range of a semaphore, and do
    not lower a semaphore before they wait for it to be zero (see
    [zero_wait_unnoticed] for what happens otherwise). *)

From S2P Require Import Prelude Ipc Sem SemUndo SemVec SemInv SemCalls SemLife.
Import Ipc Sem SemUndo SemVec SemInv SemCalls SemLife.

Module SemWake.

(** ** Vectors within the range *)

(** The most a vector can add. *)
Fixpoint gain (sops : list sembuf) : Z :=
  match sops with
  | [] => 0
  | sop :: sops' => Z.max 0 (sem_op sop) + gain sops'
  end.

(** Before it waits for zero, a vector does not lower the semaphore. *)
Definition zero_ok (sops : list sembuf) : Prop :=
  forall i sop, sops !! i = Some sop -> sem_op sop = 0 -> 0 <= net (sem_num sop) (take i sops).

Definition civil (sops : list sembuf) : Prop :=
  zero_ok sops /\ gain sops <= 32768 /\ Forall (fun sop => 0 <= sem_num sop) sops.

(** The vector keeps the values up to SEMVMX, as semop(2) demands. *)
Fixpoint peak_ok (vs : list Z) (sops : list sembuf) : bool :=
  match sops with
  | [] => true
  | sop :: sops' =>
      match vs !! Z.to_nat (sem_num sop) with
      | None => true
      | Some v => if runs v (sem_op sop)
                  then (v + sem_op sop <=? SEMVMX) &&
                       peak_ok (<[Z.to_nat (sem_num sop) := u16 (v + sem_op sop)]> vs) sops'
                  else true
      end
  end.

Lemma gain_nonneg sops : 0 <= gain sops.
Proof. induction sops; cbn; lia. Qed.

Lemma gain_take i sops : gain (take i sops) <= gain sops.
Proof.
  revert i. induction sops as [|sop sops IH]; intros [|i]; cbn; try lia.
  - pose proof (gain_nonneg sops). lia.
  - specialize (IH i). lia.
Qed.

Lemma runs_nonneg v op : 0 <= v -> runs v op = true -> 0 <= v + op.
Proof. unfold runs. intros Hv H. repeat case_if_in H; try lia. Qed.

(** Where a vector runs, the values are the sums. *)
Lemma vec_sum sops : forall vs vs' n v,
  Forall (fun sop => 0 <= sem_num sop) sops -> vec vs sops = Some vs' ->
  vs !! n = Some v -> 0 <= v -> v + gain sops <= 65535 ->
  vs' !! n = Some (v + net (Z.of_nat n) sops) /\ 0 <= v + net (Z.of_nat n) sops.
Proof.
  induction sops as [|sop sops IH]; intros vs vs' n v Hp Hv Hn H0 Hg.
  { cbn in *. injection Hv as <-. by rewrite Z.add_0_r. }
  apply Forall_cons in Hp as [Hs Hp]. cbn in Hv, Hg |- *. pose proof (gain_nonneg sops) as Hgn.
  destruct (vs !! Z.to_nat (sem_num sop)) as [x|] eqn:Hx; [|done].
  destruct (runs x (sem_op sop)) eqn:Hr; [|done].
  destruct (Z.eqb_spec (sem_num sop) (Z.of_nat n)) as [He|He].
  - replace (Z.to_nat (sem_num sop)) with n in * by lia. assert (x = v) as -> by congruence.
    pose proof (runs_nonneg _ _ H0 Hr) as H1.
    destruct (IH _ _ n (v + sem_op sop) Hp Hv) as [H2 H3]; [|lia|lia|].
    + rewrite list_lookup_insert_eq by (by eapply lookup_lt_Some). f_equal.
      apply wrapu_small. unfold inu. lia.
    + rewrite Z.add_assoc. by split.
  - destruct (IH _ _ n v Hp Hv) as [H2 H3]; [|lia|lia|].
    + by rewrite list_lookup_insert_ne by lia.
    + by rewrite Z.add_0_l.
Qed.

Lemma vec_take i sops : forall vs, is_Some (vec vs sops) -> is_Some (vec vs (take i sops)).
Proof.
  revert i. induction sops as [|sop sops IH]; intros [|i] vs H; [by eexists..|]. cbn in H |- *.
  destruct (vs !! _); [|done]. destruct (runs _ _); [|done]. by apply IH.
Qed.

Lemma vec_at i sops : forall vs sop vs',
  is_Some (vec vs sops) -> sops !! i = Some sop -> vec vs (take i sops) = Some vs' ->
  exists v, vs' !! Z.to_nat (sem_num sop) = Some v /\ runs v (sem_op sop) = true.
Proof.
  revert i. induction sops as [|x sops IH]; intros [|i] vs sop vs' H Hs Hv; try done.
  - cbn in H, Hs, Hv. injection Hs as <-. injection Hv as <-.
    destruct (vs !! _) as [v|] eqn:E; [|by destruct H]. exists v. split; [done|].
    destruct (runs v (sem_op x)); [done|by destruct H].
  - cbn in H, Hs, Hv. destruct (vs !! _) as [v|]; [|by destruct H].
    destruct (runs _ _); [|by destruct H]. by eapply IH.
Qed.

(** The operation a process stopped at cannot run. *)
Definition stuck (base : list sem) (sops : list sembuf) (i : nat) : Prop :=
  forall sop s, sops !! i = Some sop -> base !! Z.to_nat (sem_num sop) = Some s ->
    runs (semval s + net (sem_num sop) (take i sops)) (sem_op sop) = false.

Definition low (base : list sem) : Prop := Forall (fun s => 0 <= semval s <= SEMVMX) base.

Lemma low_sum base sops i vs' n s :
  civil sops -> low base -> vec (vals base) (take i sops) = Some vs' -> base !! n = Some s ->
  vs' !! n = Some (semval s + net (Z.of_nat n) (take i sops)).
Proof.
  intros (_ & Hg & Hp) Hl Hv Hs. unfold low in Hl. rewrite Forall_lookup in Hl.
  specialize (Hl _ _ Hs) as [H0 H1]. unfold SEMVMX in H1. pose proof (gain_take i sops).
  apply (vec_sum (take i sops) (vals base)); try done; [by apply Forall_take| |lia].
  unfold vals. by rewrite list_lookup_fmap, Hs.
Qed.

(** A stuck operation keeps the vector from running, and conversely. *)
Lemma stuck_vec base sops i sop :
  civil sops -> low base -> stuck base sops i -> sops !! i = Some sop ->
  (Z.to_nat (sem_num sop) < length base)%nat -> vec (vals base) sops = None.
Proof.
  intros Hc Hl Hst Hs Hlt. destruct (vec (vals base) sops) as [vs|] eqn:E; [|done].
  assert (Hsome : is_Some (vec (vals base) sops)) by (by eexists).
  destruct (vec_take i sops _ Hsome) as [vs' Hvs'].
  destruct (vec_at i sops _ sop vs' Hsome Hs Hvs') as (v & Hv & Hr).
  destruct (lookup_lt_is_Some_2 base (Z.to_nat (sem_num sop)) Hlt) as [s Hsem].
  pose proof (low_sum base sops i vs' _ s Hc Hl Hvs' Hsem) as Hsum.
  assert (H0 : 0 <= sem_num sop).
  { destruct Hc as (_ & _ & Hp). rewrite Forall_lookup in Hp. by apply (Hp i). }
  rewrite Z2Nat.id in Hsum by done. specialize (Hst sop s Hs Hsem). congruence.
Qed.

Lemma blocks_stuck base sops i sop :
  civil sops -> low base -> blocks_at (vals base) sops i sop -> stuck base sops i.
Proof.
  intros Hc Hl (vs' & v & Hv & Hs & Hn & Hr) sop' s Hs' Hsem.
  assert (sop' = sop) as -> by congruence.
  assert (H0 : 0 <= sem_num sop).
  { destruct Hc as (_ & _ & Hp). rewrite Forall_lookup in Hp. by apply (Hp i). }
  pose proof (low_sum base sops i vs' _ s Hc Hl Hv Hsem) as Hsum.
  rewrite Z2Nat.id in Hsum by done. congruence.
Qed.

(** ** Changes that need no wake-up *)

(** A change of a semaphore that nobody who waits is interested in. *)
Definition mute (s s' : sem) : Prop :=
  (0 < semncnt s -> semval s' <= semval s) /\
  (0 < semzcnt s -> 0 < semval s -> 0 < semval s').

Definition mute_all (base base' : list sem) : Prop :=
  forall n s', base' !! n = Some s' -> exists s, base !! n = Some s /\ mute s s'.

Lemma mute_all_refl base : mute_all base base.
Proof. intros n s Hs. by exists s. Qed.

Lemma stuck_mute base base' sops i sop :
  civil sops -> sops !! i = Some sop -> low base' ->
  (forall s, base !! Z.to_nat (sem_num sop) = Some s ->
     if sem_op sop =? 0 then 0 < semzcnt s else 0 < semncnt s) ->
  mute_all base base' -> stuck base sops i -> stuck base' sops i.
Proof.
  intros (Hz & _) Hs Hl Hw Hm Hst sop' s' Hs' Hsem'. assert (sop' = sop) as -> by congruence.
  destruct (Hm _ _ Hsem') as (s & Hsem & Hn & Hzz). specialize (Hst sop s Hs Hsem).
  specialize (Hw s Hsem). unfold low in Hl. rewrite Forall_lookup in Hl.
  specialize (Hl _ _ Hsem') as [H0 _]. unfold runs in *.
  destruct (Z.ltb_spec (sem_op sop) 0) as [Hneg|Hneg].
  - rewrite (proj2 (Z.eqb_neq (sem_op sop) 0)) in Hw by lia. specialize (Hn Hw).
    apply Z.leb_gt in Hst. apply Z.leb_gt. lia.
  - destruct (Z.eqb_spec (sem_op sop) 0) as [H1|H1]; [|done]. specialize (Hz _ _ Hs H1).
    apply Z.leb_gt in Hst. apply Z.leb_gt.
    destruct (Z.eq_dec (net (sem_num sop) (take i sops)) 0) as [He|He]; [|lia].
    assert (0 < semval s') by (apply Hzz; lia). lia.
Qed.

(** A pass that asks for no wake-up is mute. *)
Lemma quiet_mute sops : forall base,
  Forall sem_ok base -> Forall (fun sop => 0 <= sem_num sop) sops ->
  is_Some (vec (vals base) sops) -> peak_ok (vals base) sops = true ->
  quiet base sops -> mute_all base (ops_base sops base).
Proof.
  induction sops as [|sop sops IH]; intros base Hb Hp Hv Hk Hq; [apply mute_all_refl|].
  apply Forall_cons in Hp as [H0 Hp]. destruct Hq as [Hq Hqs]. cbn in Hv, Hk.
  destruct (vals base !! Z.to_nat (sem_num sop)) as [v|] eqn:Ev; [|by destruct Hv].
  unfold vals in Ev. rewrite list_lookup_fmap in Ev.
  destruct (base !! Z.to_nat (sem_num sop)) as [s|] eqn:Es; [|done]. injection Ev as <-.
  destruct (runs (semval s) (sem_op sop)) eqn:Er; [|by destruct Hv].
  rewrite <- (vals_op sop base s Es) in Hv, Hk. apply andb_true_iff in Hk as [Hmax%Z.leb_le Hk].
  assert (Hb' : Forall sem_ok (op_base sop base)) by (apply on_sem_ok; [apply add_val_ok|done]).
  specialize (IH _ Hb' Hp Hv Hk Hqs). intros n s' Hs'.
  change (ops_base (sop :: sops) base) with (ops_base sops (op_base sop base)) in Hs'.
  destruct (IH n s' Hs') as (s1 & Hs1 & Hn1 & Hz1). unfold op_base, on_sem in Hs1.
  destruct (decide (Z.to_nat (sem_num sop) = n)) as [<-|Hne].
  2:{ rewrite list_lookup_alter_ne in Hs1 by done. by exists s1. }
  rewrite list_lookup_alter_eq, Es in Hs1. injection Hs1 as <-. exists s. split; [done|].
  destruct (Hq s eq_refl) as [Hup Hdown]. cbn in Hn1, Hz1.
  rewrite Forall_lookup in Hb. destruct (Hb _ _ Es) as ([Hs0 _] & _).
  pose proof (runs_nonneg _ _ Hs0 Er) as Hnn. unfold SEMVMX in Hmax.
  rewrite wrapu_small in Hn1, Hz1, Hdown by (unfold inu; lia). split.
  - intros Hc. specialize (Hn1 Hc). destruct (Z.le_gt_cases (sem_op sop) 0); [lia|].
    specialize (Hup ltac:(lia)). lia.
  - intros Hc Hpos. apply Hz1; [done|].
    destruct (Z.eq_dec (semval s + sem_op sop) 0) as [He|He]; [|lia].
    specialize (Hdown ltac:(lia) He). lia.
Qed.

(** ** The invariant *)

Record wake_inv (st : semst) : Prop := WakeInv {
  wk_chan : forall tid w, waiters st !! tid = Some w -> is_Some (sets st !! w_semaptr w) ->
    w_chan w = (sema_addr st, IPCID_TO_IX (w_semid w));
  wk_civil : forall tid w, waiters st !! tid = Some w -> civil (w_sops w);
  wk_low : forall a sp, sets st !! a = Some sp -> low (sem_base sp);
  wk_stuck : forall tid w, waiters st !! tid = Some w -> w_awake w = false ->
    forall sp, sets st !! w_semaptr w = Some sp -> stuck (sem_base sp) (w_sops w) (w_i w);
  wk_gone : forall tid w, waiters st !! tid = Some w -> sets st !! w_semaptr w = None ->
    w_awake w = true;
}.

(** The same sleep, perhaps woken in between. *)
Definition like (w w' : waiter) : Prop :=
  w_semid w' = w_semid w /\ w_chan w' = w_chan w /\ w_semaptr w' = w_semaptr w /\
  w_sops w' = w_sops w /\ w_i w' = w_i w /\ (w_awake w' = false -> w_awake w = false).

Definition waiters_like (ws ws' : gmap Z waiter) : Prop :=
  forall tid w', ws' !! tid = Some w' -> exists w, ws !! tid = Some w /\ like w w'.

Lemma like_refl w : like w w.
Proof. by repeat split. Qed.

Lemma waiters_like_refl ws : waiters_like ws ws.
Proof. intros tid w Hw. exists w. split; [done|apply like_refl]. Qed.

Lemma waiters_like_wake ch ws : waiters_like ws (wake ch <$> ws).
Proof.
  intros tid w'. rewrite lookup_fmap. destruct (ws !! tid) as [w|]; [|done]. cbn. intros [= <-].
  exists w. split; [done|]. unfold wake. case_bool_decide; [by repeat split|apply like_refl].
Qed.

Lemma waiters_like_delete tid ws : waiters_like ws (delete tid ws).
Proof. intros t w [_ Hw]%lookup_delete_Some. exists w. split; [done|apply like_refl]. Qed.

(** A waiter is counted by the semaphore it waits for. *)
Lemma waiter_counted st tid w sp sop s :
  sem_inv st -> waiters st !! tid = Some w -> sets st !! w_semaptr w = Some sp ->
  w_sop w = Some sop -> sem_base sp !! Z.to_nat (sem_num sop) = Some s ->
  if sem_op sop =? 0 then 0 < semzcnt s else 0 < semncnt s.
Proof.
  intros [Hc Hcnt] Hw Hsp Hsop Hs. destruct (inv_wait _ Hc _ _ Hw) as [_ _ _ H4].
  destruct (H4 sp Hsp) as (_ & _ & Hn). specialize (Hn sop Hsop).
  destruct (Hcnt _ _ _ _ Hsp Hs) as [H1 H2]. rewrite Z2Nat.id in H1, H2 by lia.
  assert (Hpos : 0 < cnt (waiters st) (w_semaptr w) (sem_num sop) (sem_op sop =? 0)).
  { pose proof (cnt_delete (waiters st) tid w (w_semaptr w) (sem_num sop) (sem_op sop =? 0) Hw) as Hd.
    pose proof (cnt_range (delete tid (waiters st)) (w_semaptr w) (sem_num sop) (sem_op sop =? 0)).
    assert (Hon : waits_on (w_semaptr w) (sem_num sop) (sem_op sop =? 0) w = true).
    { unfold waits_on. by rewrite Z.eqb_refl, Hsop, Z.eqb_refl, eqb_reflx. }
    rewrite Hon in Hd. lia. }
  destruct (sem_op sop =? 0); lia.
Qed.

(** A change keeps the invariant when each set that changes does so without
    interest to its waiters, or has them woken. *)
Lemma wake_change st st' :
  sem_inv st -> wake_inv st -> sema_addr st' = sema_addr st ->
  waiters_like (waiters st) (waiters st') ->
  (forall a sp', sets st' !! a = Some sp' -> low (sem_base sp') /\
     ((exists sp, sets st !! a = Some sp /\
        (mute_all (sem_base sp) (sem_base sp') \/
         forall tid w', waiters st' !! tid = Some w' -> w_semaptr w' = a -> w_awake w' = true)) \/
      forall tid w, waiters st !! tid = Some w -> w_semaptr w <> a)) ->
  (forall a, is_Some (sets st !! a) -> sets st' !! a = None ->
     forall tid w', waiters st' !! tid = Some w' -> w_semaptr w' = a -> w_awake w' = true) ->
  wake_inv st'.
Proof.
  intros Hi [Hchan Hciv Hlow Hstuck Hgone] Ha Hw Hs Hg. split.
  - intros tid w' Hw' [sp' Hsp']. destruct (Hw _ _ Hw') as (w & Hw0 & E1 & E2 & E3 & E4 & E5 & _).
    rewrite E1, E2, Ha. destruct (Hs _ _ Hsp') as [_ [(sp & Hsp & _)|Hno]].
    + apply (Hchan tid); [done|]. rewrite <- E3. by exists sp.
    + by destruct (Hno tid w Hw0).
  - intros tid w' Hw'. destruct (Hw _ _ Hw') as (w & Hw0 & _ & _ & _ & -> & _). by eapply Hciv.
  - intros a sp' Hsp'. by apply (Hs a).
  - intros tid w' Hw' Haw sp' Hsp'.
    destruct (Hw _ _ Hw') as (w & Hw0 & E1 & E2 & E3 & E4 & E5 & E6).
    destruct (Hs _ _ Hsp') as [Hl [(sp & Hsp & [Hm|Hwake])|Hno]].
    + rewrite E3 in Hsp. destruct (inv_wait _ (proj1 Hi) _ _ Hw0) as [_ _ [sop Hsop] _].
      rewrite E4, E5. apply (stuck_mute (sem_base sp) _ _ _ sop); try done; [by eapply Hciv| |].
      * intros s Hsem. by eapply waiter_counted.
      * apply (Hstuck tid); [done|by apply E6|done].
    + by rewrite (Hwake tid w') in Haw.
    + by destruct (Hno tid w Hw0).
  - intros tid w' Hw' Hno. destruct (Hw _ _ Hw') as (w & Hw0 & _ & _ & E3 & _ & _ & E6).
    destruct (sets st !! w_semaptr w') as [sp|] eqn:E; [by eapply Hg; [by exists sp|..]|].
    rewrite E3 in E. specialize (Hgone _ _ Hw0 E). destruct (w_awake w'); [done|].
    by rewrite E6 in Hgone.
Qed.

(** A wake-up on the slot of a set reaches those who wait for the set. *)
Lemma wake_reaches st ix a sp tid w' :
  sem_inv st -> wake_inv st -> 0 <= ix -> sema st !! Z.to_nat ix = Some (Some a) ->
  sets st !! a = Some sp -> (wake (sema_addr st, ix) <$> waiters st) !! tid = Some w' ->
  w_semaptr w' = a -> w_awake w' = true.
Proof.
  intros Hi Hwk Hix Hslot Hsp. rewrite lookup_fmap.
  destruct (waiters st !! tid) as [w|] eqn:E; [|done]. cbn. intros [= <-] Hwa.
  assert (Hwa' : w_semaptr w = a) by (unfold wake in Hwa; by case_bool_decide).
  destruct (inv_wait _ (proj1 Hi) _ _ E) as [_ _ _ H4]. rewrite Hwa' in H4.
  destruct (H4 sp Hsp) as (_ & Hsl & _).
  assert (Heq : Z.to_nat (IPCID_TO_IX (w_semid w)) = Z.to_nat ix) by
    (by eapply inv_inj; [apply Hi|..]).
  pose proof (ipcid_ix_nonneg (w_semid w)).
  unfold wake. rewrite bool_decide_eq_true_2; [done|].
  rewrite (wk_chan _ Hwk tid w E) by (rewrite Hwa', Hsp; by eexists). f_equal. lia.
Qed.

(** A set that changes in any way, with a wake-up. *)
Lemma wake_loud st st' ix a sp sp' :
  sem_inv st -> wake_inv st -> 0 <= ix -> sema st !! Z.to_nat ix = Some (Some a) ->
  sets st !! a = Some sp -> low (sem_base sp') ->
  sema_addr st' = sema_addr st -> sets st' = <[a := sp']> (sets st) ->
  waiters st' = wake (sema_addr st, ix) <$> waiters st -> wake_inv st'.
Proof.
  intros Hi Hwk Hix Hslot Hsp Hlow Ha Hs Hw.
  apply (wake_change st); try done; [rewrite Hw; apply waiters_like_wake| |].
  2:{ intros b [x Hb]. rewrite Hs, lookup_insert_None. intros [? _]. congruence. }
  intros b x. rewrite Hs, lookup_insert_Some. intros [[<- <-]|[Hne Hb]].
  - split; [done|]. left. exists sp. split; [done|]. right.
    intros tid w' Hw'. rewrite Hw in Hw'. by eapply (wake_reaches st ix a sp tid).
  - split; [by eapply wk_low|]. left. exists x. split; [done|]. left. apply mute_all_refl.
Qed.

(** A set that changes without interest to its waiters. *)
Lemma wake_quiet st st' a sp sp' :
  sem_inv st -> wake_inv st -> sets st !! a = Some sp ->
  mute_all (sem_base sp) (sem_base sp') -> low (sem_base sp') ->
  sema_addr st' = sema_addr st -> sets st' = <[a := sp']> (sets st) ->
  waiters_like (waiters st) (waiters st') -> wake_inv st'.
Proof.
  intros Hi Hwk Hsp Hm Hlow Ha Hs Hw. apply (wake_change st); try done.
  2:{ intros b [x Hb]. rewrite Hs, lookup_insert_None. intros [? _]. congruence. }
  intros b x. rewrite Hs, lookup_insert_Some. intros [[<- <-]|[Hne Hb]].
  - split; [done|]. left. exists sp. split; [done|]. by left.
  - split; [by eapply wk_low|]. left. exists x. split; [done|]. left. apply mute_all_refl.
Qed.

(** Sets that stay. *)
Lemma wake_same st st' :
  sem_inv st -> wake_inv st -> sema_addr st' = sema_addr st -> sets st' = sets st ->
  waiters_like (waiters st) (waiters st') -> wake_inv st'.
Proof.
  intros Hi Hwk Ha Hs Hw. apply (wake_change st); try done; rewrite Hs.
  - intros b x Hb. split; [by eapply wk_low|]. left. exists x. split; [done|]. left.
    apply mute_all_refl.
  - intros b [x Hb] Hn. congruence.
Qed.

(** A process falls asleep. *)
Lemma wake_sleep st tid w sp :
  wake_inv st -> sets st !! w_semaptr w = Some sp ->
  w_chan w = (sema_addr st, IPCID_TO_IX (w_semid w)) -> civil (w_sops w) ->
  stuck (sem_base sp) (w_sops w) (w_i w) -> wake_inv (set_waiters <[tid := w]> st).
Proof.
  intros [] Hsp Hc Hv Hst. split; cbn; [| |exact wk_low0| |]; intros t w';
    rewrite lookup_insert_Some; intros [[<- <-]|[_ Hw]]; try done; try by eauto.
  - intros _ x Hx. by assert (x = sp) as -> by congruence.
  - congruence.
Qed.

(** ** Values *)

Lemma low_vals base : low base <-> Forall (fun v => 0 <= v <= SEMVMX) (vals base).
Proof. unfold low, vals. by rewrite Forall_fmap. Qed.

Lemma mute_vals base b1 b2 : vals b2 = vals b1 -> mute_all base b1 -> mute_all base b2.
Proof.
  intros Hv Hm n s2 H2. apply (f_equal (.!! n)) in Hv. unfold vals in Hv.
  rewrite !list_lookup_fmap, H2 in Hv. destruct (b1 !! n) as [s1|] eqn:H1; [|done].
  injection Hv as Hv. destruct (Hm n s1 H1) as (s & Hs & Hmu). exists s. split; [done|].
  unfold mute in *. by rewrite Hv.
Qed.

Lemma vals_add_wait d sop base : vals (add_wait d sop base) = vals base.
Proof.
  unfold vals, add_wait, on_sem. apply list_eq. intros j. rewrite !list_lookup_fmap.
  destruct (decide (Z.to_nat (sem_num sop) = j)) as [<-|].
  - rewrite list_lookup_alter_eq. destruct (base !! _); [|done]. cbn. by destruct (sem_op sop =? 0).
  - by rewrite list_lookup_alter_ne.
Qed.

Lemma peak_low sops : forall base,
  Forall sem_ok base -> low base -> is_Some (vec (vals base) sops) ->
  peak_ok (vals base) sops = true -> low (ops_base sops base).
Proof.
  induction sops as [|sop sops IH]; intros base Hb Hl Hv Hk; [done|]. cbn in Hv, Hk.
  destruct (vals base !! Z.to_nat (sem_num sop)) as [v|] eqn:Ev; [|by destruct Hv].
  pose proof Ev as Ev'. unfold vals in Ev'. rewrite list_lookup_fmap in Ev'.
  destruct (base !! Z.to_nat (sem_num sop)) as [s|] eqn:Es; [|done]. injection Ev' as <-.
  destruct (runs (semval s) (sem_op sop)) eqn:Er; [|by destruct Hv].
  apply andb_true_iff in Hk as [Hmax%Z.leb_le Hk].
  assert (Hs0 : 0 <= semval s) by (rewrite Forall_lookup in Hb; by destruct (Hb _ _ Es) as ([? _] & _)).
  pose proof (runs_nonneg _ _ Hs0 Er) as Hnn.
  apply (IH (op_base sop base)); [by apply on_sem_ok; [apply add_val_ok|]| | |].
  - apply low_vals. rewrite (vals_op sop base s Es). apply Forall_insert; [by apply low_vals|].
    unfold SEMVMX in *. rewrite wrapu_small by (unfold inu; lia). lia.
  - by rewrite (vals_op sop base s Es).
  - by rewrite (vals_op sop base s Es).
Qed.

(** ** The calls *)

Section Pass.

Variables (new : Z) (st : semst) (p : proc) (now semid a : Z) (sp : semid_ds)
  (sops : list sembuf).
Let ix := IPCID_TO_IX semid.

Hypothesis Hi : sem_inv st.
Hypothesis Hwk : wake_inv st.
Hypothesis Hsp : sets st !! a = Some sp.
Hypothesis Hslot : sema st !! Z.to_nat ix = Some (Some a).
Hypothesis Hin : in_set sp sops.
Hypothesis Hty : Forall sop_typed sops.
Hypothesis Hciv : civil sops.
Hypothesis Hpeak : peak_ok (vals (sem_base sp)) sops = true.
Hypothesis Hheld : keeps_entry st p semid sops.
Hypothesis Hnew : new ∉ (un_addr <$> semu_list st).

Lemma done_wake l wk :
  is_Some (vec (vals (sem_base sp)) sops) -> (wk = false -> quiet (sem_base sp) sops) ->
  wake_inv (done_state st p now ix a sp sops l wk).
Proof.
  intros Hv Hq. destruct (inv_sets _ (proj1 Hi) a sp Hsp) as [Hset _].
  pose proof (set_sems _ Hset) as Hb.
  assert (Hlow : low (set_pids (ps_pid p) sops (ops_base sops (sem_base sp)))).
  { apply low_vals. rewrite vals_set_pids. apply low_vals.
    apply peak_low; try done. by eapply wk_low. }
  pose proof (ipcid_ix_nonneg semid) as Hix. fold ix in Hix.
  unfold done_state. set (sp' := SemidDs _ _ _ _ _). destruct wk.
  - by apply (wake_loud st _ ix a sp sp').
  - apply (wake_quiet st _ a sp sp'); try done; [|apply waiters_like_refl]. cbn.
    apply (mute_vals _ (ops_base sops (sem_base sp))); [apply vals_set_pids|].
    destruct Hciv as (_ & _ & Hp). apply quiet_mute; try done. by apply Hq.
Qed.

Lemma pass_wake un st' r :
  0 <= un -> semop_pass (PoolNow new) st p now semid a sops un = Ok (st', r) -> wake_inv st'.
Proof.
  intros Hun Heq. destruct (inv_sets _ (proj1 Hi) a sp Hsp) as [Hset _].
  pose proof (semop_pass_spec new st p now semid a sp sops Hsp Hset Hin
    (typed_ok _ _ Hset Hin Hty) (inv_undos _ (proj1 Hi)) Hnew Hheld un Hun) as Hs.
  destruct (vec (vals (sem_base sp)) sops) as [vs|] eqn:Hv.
  - destruct Hs as [_ Hs]. case_if_in Hs; [rewrite Hs in Heq; by injection Heq as <- <-|].
    destruct Hs as (l & e & wk & _ & Hq & Hs). rewrite Hs in Heq. injection Heq as <- <-.
    destruct (e =? 0).
    + apply done_wake; [by rewrite Hv|done].
    + apply (wake_same st); try done. apply waiters_like_refl.
  - destruct Hs as (i & sop & Hb & Hs). rewrite Hs in Heq. clear Hs.
    case_if_in Heq; [by injection Heq as <- <-|]. case_if_in Heq; [by injection Heq as <- <-|].
    injection Heq as <- <-. pose proof (wk_low _ Hwk a sp Hsp) as Hlow.
    apply (wake_sleep _ _ _ (set_base (add_wait 1 sop (sem_base sp)) sp)); try done.
    + apply (wake_quiet st _ a sp (set_base (add_wait 1 sop (sem_base sp)) sp)); try done.
      * apply (mute_vals _ (sem_base sp)); [apply vals_add_wait|apply mute_all_refl].
      * apply low_vals. cbn. rewrite vals_add_wait. by apply low_vals.
      * apply waiters_like_refl.
    + cbn. apply lookup_insert_eq.
    + cbn. apply (blocks_stuck _ _ _ sop); [done| |].
      * apply low_vals. rewrite vals_add_wait. by apply low_vals.
      * by rewrite vals_add_wait.
Qed.

End Pass.

(** Vectors of semop(2) stay in range and within the set; SETVAL sets no
    negative value; the end of a process does not overflow a semaphore; the
    array of slots does not move (its address is the channel). *)
Definition call_civil (st : semst) (c : call) : Prop :=
  match c with
  | CSemctl _ _ _ _ cmd arg => cmd = SETVAL -> 0 <= arg_val arg
  | CSemget _ _ _ _ _ _ => True
  | CSemop p _ _ semid nsops _ usops =>
      let sops := usops <$> List.seq 0 (Z.to_nat nsops) in
      forall a sp, resolves st semid a sp ->
        in_set sp sops /\ civil sops /\ peak_ok (vals (sem_base sp)) sops = true /\
        keeps_entry st p semid sops
  | CResume p _ _ _ =>
      forall w sp, waiters st !! p_tid p = Some w -> sets st !! w_semaptr w = Some sp ->
        in_set sp (w_sops w) /\ peak_ok (vals (sem_base sp)) (w_sops w) = true /\
        keeps_entry st p (w_semid w) (w_sops w)
  | CExit pr =>
      forall k v d, val_of st k = Some v -> undo_of (semu_list st) pr !! k = Some d -> v + d <= SEMVMX
  | CSysctl _ name0 _ _ => name0 <> KERN_SEMINFO_SEMMNI
  end.

Lemma semop_wake new st p now semid nsops cerr usops st' r :
  sem_inv st -> wake_inv st -> call_ok st (CSemop p new now semid nsops cerr usops) ->
  call_civil st (CSemop p new now semid nsops cerr usops) ->
  sys_semop (PoolNow new) st p now semid nsops cerr usops = Ok (st', r) -> wake_inv st'.
Proof.
  intros Hi Hwk ([Hn _ _] & _ & Ht) Hciv Heq. rewrite sys_semop_resolved in Heq.
  destruct (resolved_cases st semid (st, Return EINVAL)
    (semop_body (PoolNow new) st p now semid nsops cerr usops) (proj1 Hi))
    as [(a & sp & Hres & Hr)|[_ Hr]]; rewrite Hr in Heq; [|by injection Heq as <- <-].
  destruct (Hciv a sp Hres) as (H1 & H2 & H3 & H4). destruct Hres as [_ Hslot Hsp _].
  unfold semop_body in Heq. repeat (case_if_in Heq; [by injection Heq as <- <-|]).
  eapply (pass_wake new st p now semid a sp (usops <$> _)); try done.
  apply Forall_fmap, Forall_true. intros x. apply Ht.
Qed.

Lemma resume_wake new st p now error st' r :
  sem_inv st -> wake_inv st -> call_ok st (CResume p new now error) ->
  call_civil st (CResume p new now error) ->
  semop_resume (PoolNow new) st p now error = Ok (st', r) -> wake_inv st'.
Proof.
  intros Hi Hwk (Hn & Hsize & w & Hw & _) Hciv Heq. unfold semop_resume in Heq. rewrite Hw in Heq.
  pose proof (inv_wait _ (proj1 Hi) _ _ Hw) as [H1 H2 [sop Hsop] H4]. cbn [sema set_waiters] in Heq.
  destruct (sema st !! Z.to_nat (IPCID_TO_IX (w_semid w))) as [[b|]|] eqn:Hslot; [| |done].
  2:{ injection Heq as <- <-. apply (wake_same st); try done. apply waiters_like_delete. }
  unfold deref in Heq. cbn [sets set_waiters] in Heq.
  destruct (sets st !! w_semaptr w) as [sp|] eqn:Hsp; [|done]. cbn [mbind outcome_bind] in Heq.
  destruct (H4 sp eq_refl) as (Hseq & Hsl & Hnum). rewrite Hseq, Z.eqb_refl in Heq.
  cbn [negb] in Heq. unfold w_sop in Hsop. rewrite Hsop in Heq.
  destruct (semop_resume_readjust st p w sop sp Hi Hsize Hw Hsop Hsp) as [Hi1 Hs1].
  assert (Hwk1 : wake_inv (readjusted st p w sop sp)).
  { apply (wake_quiet st _ (w_semaptr w) sp (set_base (add_wait (-1) sop (sem_base sp)) sp));
      try done; [| |apply waiters_like_delete].
    - apply (mute_vals _ (sem_base sp)); [apply vals_add_wait|apply mute_all_refl].
    - apply low_vals. cbn. rewrite vals_add_wait. apply low_vals. by eapply wk_low. }
  case_if_in Heq; [by injection Heq as <- <-|]. injection Hsl as ->.
  destruct (Hciv w sp Hw Hsp) as (C1 & C2 & C3).
  eapply (pass_wake new (readjusted st p w sop sp) p now (w_semid w) (w_semaptr w)
    (set_base (add_wait (-1) sop (sem_base sp)) sp) (w_sops w)); try done.
  - by apply (wk_civil st Hwk (p_tid p)).
  - cbn. by rewrite vals_add_wait.
Qed.

Lemma new_wake st ix new sp :
  sem_inv st -> wake_inv st -> semget_ok st new -> low (sem_base sp) ->
  wake_inv (new_state st ix new sp).
Proof.
  intros Hi Hwk [Hn Hw] Hl. apply (wake_change st); try done; [apply waiters_like_refl| |].
  - intros b x. cbn. intros [[<- <-]|[Hne Hb]]%lookup_insert_Some.
    + split; [done|]. by right.
    + split; [by eapply wk_low|]. left. exists x. split; [done|]. left. apply mute_all_refl.
  - intros b [x Hb]. cbn. rewrite lookup_insert_None. intros [? _]. congruence.
Qed.

(** Values set by semctl(2). *)
Lemma set_vals_wake st semid num a sp base :
  sem_inv st -> wake_inv st -> resolves st semid a sp -> low base ->
  wake_inv (wakeup (IPCID_TO_IX semid)
    (semundo_clear (IPCID_TO_IX semid) num (put_set a (set_base base sp) st))).
Proof.
  intros Hi Hwk [_ Hslot Hsp _] Hl.
  destruct (semundo_clear_spec (IPCID_TO_IX semid) num (put_set a (set_base base sp) st)
    (inv_undos _ (proj1 Hi))) as (l & -> & _).
  apply (wake_loud st _ (IPCID_TO_IX semid) a sp (set_base base sp)); try done.
  apply ipcid_ix_nonneg.
Qed.

Lemma rmid_wake st semid a sp :
  sem_inv st -> wake_inv st -> resolves st semid a sp ->
  wake_inv (wakeup (IPCID_TO_IX semid) (semundo_clear (IPCID_TO_IX semid) (-1)
    (set_sets (delete a)
      (set_slot (Z.to_nat (IPCID_TO_IX semid)) None (semtot st - sem_nsems sp) st)))).
Proof.
  intros Hi Hwk [_ Hslot Hsp _]. set (st1 := set_sets _ _).
  destruct (semundo_clear_spec (IPCID_TO_IX semid) (-1) st1 (inv_undos _ (proj1 Hi)))
    as (l & -> & _).
  apply (wake_change st); try done; [apply waiters_like_wake| |].
  - intros b x. cbn. intros [Hne Hb]%lookup_delete_Some. split; [by eapply wk_low|]. left. exists x.
    split; [done|]. left. apply mute_all_refl.
  - intros b [x Hb]. cbn. destruct (decide (a = b)) as [<-|Hne]; [|by rewrite lookup_delete_ne, Hb].
    intros _ tid w' Hw'. eapply (wake_reaches st (IPCID_TO_IX semid) a sp tid); try done.
    apply ipcid_ix_nonneg.
Qed.

Lemma setall_low arg vmx n : forall i vs,
  semun_typed arg -> setall arg vmx i n = inr vs -> Forall (fun v => 0 <= v <= vmx) vs.
Proof.
  induction n as [|n IH]; intros i vs Ht; cbn; [by intros [= <-]|].
  destruct (array_in arg i) as [e|v] eqn:E; [done|]. case_if; [done|].
  destruct (setall arg vmx (S i) n) as [e|vs'] eqn:E'; [done|]. intros [= <-].
  constructor; [|by eapply IH]. destruct (Ht _ _ E). lia.
Qed.

Lemma store_vals_low vs : forall base,
  Forall (fun v => 0 <= v <= SEMVMX) vs -> low base -> low (store_vals vs base).
Proof.
  induction vs as [|v vs IH]; intros [|s base] Hv Hb; try done.
  apply Forall_cons in Hv as [Hv Hvs]. apply Forall_cons in Hb as [Hs Hb].
  constructor; [done|]. by apply IH.
Qed.

Lemma semctl1_wake st p now semid semnum cmd arg st' r :
  sem_inv st -> wake_inv st -> semun_typed arg -> (cmd = SETVAL -> 0 <= arg_val arg) ->
  semctl1 st p now semid semnum cmd arg = Ok (st', r) -> wake_inv st'.
Proof.
  intros Hi Hwk Ht Hval Heq. rewrite semctl1_resolved in Heq.
  destruct (resolved_cases st semid (st, ctl_error EINVAL)
    (semctl_body st p now semid semnum cmd arg) (proj1 Hi)) as [(a & sp & Hr & H)|[_ H]];
    rewrite H in Heq; [|by injection Heq as <- <-]. clear H.
  pose proof Hr as [_ _ Hsp _]. destruct (inv_sets _ (proj1 Hi) a sp Hsp) as [Hset _].
  pose proof (wk_low _ Hwk a sp Hsp) as Hlow. pose proof (inv_vmx _ (proj1 Hi)) as Hvmx.
  assert (Hg : forall f, get_field f (p_ucred p) sp semnum st = Ok (st', r) -> wake_inv st').
  { intros f. destruct (get_field_ok f (p_ucred p) sp semnum st Hset) as [x ->].
    by intros [= <- <-]. }
  unfold semctl_body in Heq. cbn zeta in Heq.
  repeat (case_if_in Heq; [first [by apply (Hg _ Heq)|by injection Heq as <- <-|idtac]|]);
    try by injection Heq as <- <-.
  - injection Heq as <- <-. by apply rmid_wake.
  - destruct (buf_in arg) as [e|sbuf]; injection Heq as <- <-; [done|].
    eapply (wake_quiet st _ a sp); [done|done|done| | |done|done|apply waiters_like_refl]; cbn;
      [apply mute_all_refl|done].
  - destruct (getall arg 0 (sem_base sp)) as [e out]. by injection Heq as <- <-.
  - injection Heq as <- <-. apply set_vals_wake; try done.
    specialize (Hval ltac:(done)). unfold SEMVMX in *.
    unfold low, on_sem in *. apply Forall_alter; [done|]. intros s _ _. cbn. unfold SEMVMX.
    rewrite wrapu_small by (unfold inu; lia). lia.
  - destruct (setall _ _ _ _) as [e|vs] eqn:E; injection Heq as <- <-; [done|].
    rewrite Hvmx in E. apply set_vals_wake; try done. apply store_vals_low; [|done].
    by eapply setall_low.
Qed.

(** The end of a process. *)
Lemma exit_loop_wake ents : forall st st',
  sem_inv st -> wake_inv st -> ents_ok ents ->
  (forall e, e ∈ ents -> names st (un_id e, un_num e)) ->
  (forall e v, e ∈ ents -> val_of st (un_id e, un_num e) = Some v -> v + un_adjval e <= SEMVMX) ->
  exit_loop st ents = Ok st' -> wake_inv st'.
Proof.
  induction ents as [|e ents IH]; intros st st' Hi Hwk Hok Hn Hv Heq; [by injection Heq as <-|].
  apply ents_ok_cons in Hok as (Hkey & Hvok & Hok).
  destruct (names_sem st _ (proj1 Hi) (Hn e (list_elem_of_here _ _)))
    as (a & sp & s & H0 & Ha & Hsp & Hr & Hat & Hs). cbn in H0, Ha, Hr, Hat.
  cbn [exit_loop] in Heq. rewrite (proj2 (Z.ltb_ge _ _) H0), Ha in Heq. unfold deref in Heq.
  rewrite Hsp in Heq. cbn [mbind outcome_bind] in Heq.
  rewrite (proj2 (Z.leb_gt _ _)) in Heq by lia. rewrite Hat in Heq.
  set (f := set_val (exit_val (un_adjval e) (semval s))) in Heq.
  destruct (inv_sets _ (proj1 Hi) a sp Hsp) as [Hset _].
  pose proof (wk_low _ Hwk a sp Hsp) as Hlow.
  fold (put_set a (set_base (on_sem f (un_num e) (sem_base sp)) sp) st) in Heq.
  set (st1 := wakeup _ _) in Heq.
  assert (Hi1 : sem_inv st1).
  { apply inv_wakeup. apply (inv_put a sp); try done; [|by apply same_counts_on_sem].
    apply set_ok_base; [done|by apply same_counts_on_sem|].
    apply on_sem_ok; [|apply Hset]. intros x. apply set_val_ok, exit_val_range. }
  apply (IH st1 st'); try done.
  - apply (wake_loud st _ (un_id e) a sp (set_base (on_sem f (un_num e) (sem_base sp)) sp)); try done.
    unfold low, on_sem in *. apply Forall_alter; [done|]. intros x _ _. cbn.
    pose proof (Hv e (semval s) (list_elem_of_here _ _)) as Hmax. unfold val_of in Hmax.
    rewrite Hs in Hmax. specialize (Hmax eq_refl). rewrite Forall_lookup in Hlow.
    assert (Hs' : sem_base sp !! Z.to_nat (un_num e) = Some s).
    { unfold sem_at in Hat. by rewrite (proj2 (Z.ltb_ge _ _)) in Hat by lia. }
    destruct (Hlow _ _ Hs') as [Hl0 Hl1]. unfold exit_val, SEMVMX in *. case_if; [lia|].
    destruct (_ <? 0) eqn:E; cbn in Heqb; zify_bool; rewrite wrapu_small by (unfold inu; lia); lia.
  - intros e' He'. apply (names_put st a sp); [done|done|]. apply Hn. by right.
  - intros e' v He'. change (val_of st1 (un_id e', un_num e')) with
      (val_of (put_set a (set_base (on_sem f (un_num e) (sem_base sp)) sp) st) (un_id e', un_num e')).
    rewrite (val_of_put st (un_id e)) by (done || apply Hi || lia).
    rewrite bool_decide_eq_false_2; [apply Hv; by right|]. intros Hk. rewrite <- Hk in Hkey.
    apply list_elem_of_lookup_1 in He' as [i He'].
    destruct (ents_perm _ _ Hok (remove_ent_perm _ _ _ He')) as [_ Hm]. rewrite <- Hm in Hkey.
    by rewrite ents_map_cons, lookup_insert_eq in Hkey.
Qed.

Lemma exit_wake st pr st' :
  sem_inv st -> wake_inv st -> call_civil st (CExit pr) -> semexit st pr = Ok st' -> wake_inv st'.
Proof.
  intros Hi Hwk Hciv Heq. unfold semexit in Heq. cbn in Hciv.
  destruct (su_of pr (semu_list st)) as [su|] eqn:Hsu; [|by injection Heq as <-].
  assert (Hu : undo_of (semu_list st) pr = ents_map (un_ent su)) by (unfold undo_of; by rewrite Hsu).
  pose proof Hsu as [Hin _]%su_of_elem. pose proof (inv_undos _ (proj1 Hi)) as (_ & _ & Hf & _).
  rewrite Forall_forall in Hf. destruct (Hf _ Hin) as (_ & Hok & _).
  assert (Hent : forall e, e ∈ un_ent su ->
    undo_of (semu_list st) pr !! (un_id e, un_num e) = Some (un_adjval e)).
  { intros e [i He]%list_elem_of_lookup_1. rewrite Hu.
    destruct (ents_perm _ _ Hok (remove_ent_perm _ _ _ He)) as [_ <-].
    by rewrite ents_map_cons, lookup_insert_eq. }
  assert (Hn : forall e, e ∈ un_ent su -> names st (un_id e, un_num e)).
  { intros e He. apply (inv_ents _ (proj1 Hi) pr). rewrite (Hent e He). by eexists. }
  destruct (exit_loop_spec (un_ent su) st Hi Hok Hn) as (st1 & Hl & Hi1 & _).
  rewrite Hl in Heq. injection Heq as <-.
  assert (Hwk1 : wake_inv st1).
  { apply (exit_loop_wake (un_ent su) st); try done. intros e v He Hv.
    by eapply Hciv; [|apply Hent]. }
  apply (wake_same st1); try done. apply waiters_like_refl.
Qed.

Lemma exec_wake st c st' :
  sem_inv st -> wake_inv st -> call_ok st c -> call_civil st c -> exec st c = Ok st' ->
  wake_inv st'.
Proof.
  intros Hi Hwk Hok Hciv Heq. destruct c; cbn [exec] in Heq.
  - unfold sys___semctl in Heq. case_if_in Heq; [|by injection Heq as <-].
    destruct (semctl1 _ _ _ _ _ _ _) as [[st1 r]|] eqn:E; [|done]. injection Heq as <-.
    by eapply semctl1_wake.
  - destruct (sys_semget_spec st p now k nsems semflg new Hi Hok) as (st1 & e & r & E & [_ He _ Hs _]).
    rewrite E in Heq. injection Heq as <-. destruct (Z.eq_dec e 0) as [->|Hne]; [|by rewrite He].
    destruct (Hs eq_refl) as (a & sp & _ & _ & _ & [(-> & _)|(_ & _ & ix & s & _ & -> & -> & _)]);
      [done|]. apply new_wake; try done. cbn. apply Forall_replicate. by cbn.
  - destruct (sys_semop _ _ _ _ _ _ _ _) as [[st1 r]|] eqn:E; [|done]. injection Heq as <-.
    by eapply semop_wake.
  - destruct (semop_resume _ _ _ _ _) as [[st1 r]|] eqn:E; [|done]. injection Heq as <-.
    by eapply resume_wake.
  - by eapply exit_wake.
  - injection Heq as <-. cbn in Hciv. apply (wake_same st); try done.
    + unfold sysctl_sysvsem. rewrite (proj2 (Z.eqb_neq _ _) Hciv).
      repeat case_if; try done; by apply (sysctl_limit_inv _ _ _ _ _ (fun s => sema_addr s = sema_addr st)).
    + unfold sysctl_sysvsem. rewrite (proj2 (Z.eqb_neq _ _) Hciv).
      repeat case_if; try done; by apply (sysctl_limit_inv _ _ _ _ _ (fun s => sets s = sets st)).
    + assert (Hw : waiters (sysctl_sysvsem st namelen name0 io a).1 = waiters st).
      { unfold sysctl_sysvsem. rewrite (proj2 (Z.eqb_neq _ _) Hciv).
        repeat case_if; try done; by apply (sysctl_limit_inv _ _ _ _ _ (fun s => waiters s = waiters st)). }
      rewrite Hw. apply waiters_like_refl.
Qed.

(** States that civil calls can reach. *)
Inductive civil_reach : semst -> Prop :=
| civil_init si a : info_ok si -> civil_reach (seminit si a)
| civil_call st c st' :
    civil_reach st -> call_ok st c -> call_civil st c -> exec st c = Ok st' -> civil_reach st'.

Lemma civil_reach_reach st : civil_reach st -> reach st.
Proof. induction 1 as [si a Hs|st c st' _ IH Hok _ Heq]; [by constructor|by eapply reach_call]. Qed.

Lemma civil_reach_wake st : civil_reach st -> wake_inv st.
Proof.
  induction 1 as [si a Hs|st c st' Hr IH Hok Hciv Heq].
  - split; intros ?; cbn; try done; try (intros ?; by rewrite lookup_empty).
  - eapply exec_wake; try done. by apply reach_inv, civil_reach_reach.
Qed.

End SemWake.
