(* ===== verification/SemSpec.v ===== *)
(** * System V semaphores: the properties

    What semop(2), semget(2), semctl(2) and the end of a process promise, for
    all states that calls can reach, with examples of the places where the code
    does not do what it means to. *)

From S2P Require Import Prelude Ipc Sem SemUndo SemVec SemInv SemCalls SemLife SemWake.
Import Ipc Sem SemUndo SemVec SemInv SemCalls SemLife SemWake.

Module SemSpec.

(** ** The specification of semop(2) *)

(** There is room for the undo entries of a vector. *)
Definition room (st : semst) (p : proc) (ix : Z) (sops : list sembuf) (un : Z) : Prop :=
  un + undos sops <= SEMUME /\
  fits ix (undo_of (semu_list st) (p_p p)) sops = true /\
  (existsb counts sops = true ->
   undo_of (semu_list st) (p_p p) <> ∅ \/ semutot st <> semmnu (info st)).

(** All of the vector is done, and nothing else. *)
Record vector_done (st : semst) (p : proc) (ix a : Z) (sp : semid_ds) (sops : list sembuf)
    (vs : list Z) (st' : semst) : Prop := VectorDone {
  vd_set : exists sp', sets st' = <[a := sp']> (sets st) /\ vals (sem_base sp') = vs /\
    sem_perm sp' = sem_perm sp /\
    forall n, sempid <$> sem_base sp' !! n =
      if existsb (fun sop => sem_num sop =? Z.of_nat n) sops
      then (fun _ => ps_pid p) <$> sem_base sp !! n else sempid <$> sem_base sp !! n;
  vd_undo : undo_of (semu_list st') (p_p p) = adj_all ix (undo_of (semu_list st) (p_p p)) sops;
  vd_others : others_keep (semu_list st) (semu_list st') (p_p p);
  vd_slots : sema st' = sema st;
}.

(** Nothing is done. *)
Record vector_undone (st st' : semst) : Prop := VectorUndone {
  vu_sets : sets st' = sets st;
  vu_undo : forall pr, undo_of (semu_list st') pr = undo_of (semu_list st) pr;
  vu_wait : waiters st' = waiters st;
  vu_slots : sema st' = sema st;
}.

(** One attempt at a vector: all or nothing, by the meaning of the vector. *)
Definition atomic (st : semst) (p : proc) (semid a : Z) (sp : semid_ds) (sops : list sembuf)
    (un : Z) (st' : semst) (r : result) : Prop :=
  match vec (vals (sem_base sp)) sops with
  | Some vs =>
      room st p (IPCID_TO_IX semid) sops un /\ r = Return 0 /\
        vector_done st p (IPCID_TO_IX semid) a sp sops vs st' \/
      ~ room st p (IPCID_TO_IX semid) sops un /\
        (r = Return ENOSPC \/ r = Return EINVAL) /\ vector_undone st st'
  | None =>
      exists i sop, blocks_at (vals (sem_base sp)) sops i sop /\
        if SEMUME <? un + undos (take i sops) then r = Return ENOSPC /\ st' = st
        else if has (sem_flg sop) IPC_NOWAIT then r = Return EAGAIN /\ st' = st
        else r = Sleeps /\
          st' = sleep_state st p semid a sp sops (un + undos (take i sops)) i sop /\
          forall k, val_of st' k = val_of st k
  end.

(** ** Lemmas *)

Lemma set_pids_lookup pid sops : forall base n,
  Forall (fun sop => 0 <= sem_num sop) sops ->
  sempid <$> set_pids pid sops base !! n =
    if existsb (fun sop => sem_num sop =? Z.of_nat n) sops
    then (fun _ => pid) <$> base !! n else sempid <$> base !! n.
Proof.
  induction sops as [|sop sops IH]; intros base n Hp; [done|].
  apply Forall_cons in Hp as [H0 Hp]. cbn. unfold set_pids in IH. rewrite IH by done.
  unfold on_sem. destruct (Z.eqb_spec (sem_num sop) (Z.of_nat n)) as [Hn|Hn]; cbn [orb].
  - replace (Z.to_nat (sem_num sop)) with n by lia. rewrite list_lookup_alter_eq.
    destruct (existsb _ sops); by destruct (base !! n).
  - rewrite list_lookup_alter_ne by lia. done.
Qed.

Lemma sempid_ops sops : forall base n, sempid <$> ops_base sops base !! n = sempid <$> base !! n.
Proof.
  induction sops as [|sop sops IH]; intros base n; [done|]. cbn. unfold ops_base in IH. rewrite IH.
  unfold op_base, on_sem. destruct (decide (Z.to_nat (sem_num sop) = n)) as [<-|].
  - rewrite list_lookup_alter_eq. by destruct (base !! _).
  - by rewrite list_lookup_alter_ne.
Qed.

Lemma done_is_done st p now ix a sp sops l wk e :
  sets st !! a = Some sp -> Forall (fun sop => 0 <= sem_num sop) sops ->
  looped st l (p_p p) ix (undo_of (semu_list st) (p_p p)) (undo_of (semu_list st) (p_p p)) sops e ->
  e = 0 ->
  vector_done st p ix a sp sops (vals (ops_base sops (sem_base sp)))
    (done_state st p now ix a sp sops l wk).
Proof.
  intros Hsp Hp (_ & Ho & Hc) ->.
  destruct Hc as [(_ & _ & Hu & _)|[(? & _)|(? & _)]]; [|done|done].
  unfold done_state. split.
  - eexists. split; [by destruct wk|]. cbn. rewrite vals_set_pids. split; [done|]. split; [done|].
    intros n. rewrite set_pids_lookup by done. destruct (existsb _ sops); [|apply sempid_ops].
    pose proof (sempid_ops sops (sem_base sp) n) as Hs.
    by destruct (ops_base sops (sem_base sp) !! n), (sem_base sp !! n).
  - by destruct wk.
  - by destruct wk.
  - by destruct wk.
Qed.

Lemma val_of_sleep st p semid a sp sops un i sop k :
  sem_inv st -> sets st !! a = Some sp -> 0 <= sem_num sop ->
  val_of (sleep_state st p semid a sp sops un i sop) k = val_of st k.
Proof.
  intros Hi Hsp Hn. destruct (inv_sets _ (proj1 Hi) a sp Hsp) as [_ [j Hj]].
  change (val_of (sleep_state st p semid a sp sops un i sop) k) with
    (val_of (put_set a (set_base (on_sem (if sem_op sop =? 0 then add_zcnt 1 else add_ncnt 1)
       (sem_num sop) (sem_base sp)) sp) st) k).
  rewrite (val_of_put st (Z.of_nat j)) by (rewrite ?Nat2Z.id; done || apply Hi || lia).
  case_bool_decide; [|done]. unfold val_of. destruct (sem_of st k); [|done]. cbn.
  by destruct (sem_op sop =? 0).
Qed.

(** An attempt is atomic. *)
Lemma attempt_atomic new st p now semid a sp sops un :
  sem_inv st -> sets st !! a = Some sp -> in_set sp sops -> Forall sop_typed sops ->
  new ∉ (un_addr <$> semu_list st) -> keeps_entry st p semid sops -> 0 <= un ->
  exists st' r, semop_pass (PoolNow new) st p now semid a sops un = Ok (st', r) /\
    atomic st p semid a sp sops un st' r.
Proof.
  intros Hi Hsp Hin Ht Hnew Hheld Hun. destruct (inv_sets _ (proj1 Hi) a sp Hsp) as [Hset _].
  pose proof (inv_undos _ (proj1 Hi)) as Hwf.
  assert (Hpos : Forall (fun sop => 0 <= sem_num sop) sops).
  { eapply Forall_impl; [exact Hin|]. cbn. lia. }
  pose proof (semop_pass_spec new st p now semid a sp sops Hsp Hset Hin
    (typed_ok _ _ Hset Hin Ht) Hwf Hnew Hheld un Hun) as Hs. unfold atomic.
  destruct (vec (vals (sem_base sp)) sops) as [vs|].
  - destruct Hs as [-> Hs]. destruct (Z.ltb_spec SEMUME (un + undos sops)) as [Hlt|Hge].
    { eexists _, _. split; [exact Hs|]. right. split; [intros [? _]; lia|]. split; [by left|]. by split. }
    destruct Hs as (l & e & wk & Hl & _ & ->). eexists _, _. split; [done|].
    pose proof Hl as (_ & Ho & [(-> & Hf & _ & Hr)|[(-> & Hf & Hu)|(-> & _ & Hm & Ht1 & Hx & Hu)]]).
    + left. split; [by split|]. split; [done|]. cbn [Z.eqb]. by eapply done_is_done.
    + right. split; [intros (_ & ? & _); congruence|]. split; [by right|]. cbn. split; try done.
      intros pr. destruct (decide (pr = p_p p)) as [->|]; [done|by apply Ho].
    + right. split; [intros (_ & _ & H); destruct (H Hx); congruence|]. split; [by left|]. cbn.
      split; try done. intros pr. destruct (decide (pr = p_p p)) as [->|]; [done|by apply Ho].
  - destruct Hs as (i & sop & Hb & ->). pose proof Hb as (_ & _ & _ & Hsop & _).
    assert (Hn : 0 <= sem_num sop) by (by eapply (Forall_lookup_1 _ _ _ _ Hpos)).
    destruct (SEMUME <? _) eqn:E1; [|destruct (has (sem_flg sop) IPC_NOWAIT) eqn:E2].
    + eexists _, _. split; [done|]. exists i, sop. by rewrite E1.
    + eexists _, _. split; [done|]. exists i, sop. by rewrite E1, E2.
    + eexists _, _. split; [done|]. exists i, sop. rewrite E1, E2. split; [done|]. split; [done|].
      split; [done|]. intros k. by apply val_of_sleep.
Qed.

(** The attempt after a sleep. *)
Lemma resume_atomic new st p now error w :
  sem_inv st -> new ∉ (un_addr <$> semu_list st) -> Z.of_nat (size (waiters st)) <= 65535 ->
  waiters st !! p_tid p = Some w -> keeps_entry st p (w_semid w) (w_sops w) ->
  (sema st !! Z.to_nat (IPCID_TO_IX (w_semid w)) = Some None \/ is_Some (sets st !! w_semaptr w)) ->
  exists st' r, semop_resume (PoolNow new) st p now error = Ok (st', r) /\
    match sets st !! w_semaptr w, w_sop w with
    | Some sp, Some sop =>
        let sp1 := set_base (add_wait (-1) sop (sem_base sp)) sp in
        if error =? 0 then in_set sp (w_sops w) ->
          atomic (readjusted st p w sop sp) p (w_semid w) (w_semaptr w) sp1 (w_sops w)
            (w_undos w) st' r
        else r = Return EINTR /\ st' = readjusted st p w sop sp
    | _, _ => r = Return EIDRM /\ st' = set_waiters (delete (p_tid p)) st
    end.
Proof.
  intros Hi Hnew Hsize Hw Hheld Hslot. unfold semop_resume. rewrite Hw. cbn [sema set_waiters].
  pose proof (inv_wait _ (proj1 Hi) _ _ Hw) as [H1 H2 [sop Hsop] H4].
  destruct (sets st !! w_semaptr w) as [sp|] eqn:Hsp.
  2:{ destruct Hslot as [->|[? ?]]; [|done]. by eexists _, _. }
  destruct (H4 sp eq_refl) as (H5 & H6 & H7). rewrite H6. unfold deref. cbn [sets set_waiters].
  rewrite Hsp. cbn [mbind outcome_bind]. rewrite H5, Z.eqb_refl. cbn [negb].
  unfold w_sop in Hsop |- *. rewrite Hsop.
  destruct (Z.eqb_spec error 0) as [->|He]; cbn [negb]; [|by eexists _, _].
  destruct (semop_resume_readjust st p w sop sp Hi Hsize Hw Hsop Hsp) as [Hi1 Hs1].
  destruct (decide (Forall (fun s => 0 <= sem_num s < sem_nsems sp) (w_sops w))) as [Hin|Hout].
  - destruct (attempt_atomic new _ p now (w_semid w) _ _ (w_sops w) (w_undos w) Hi1 Hs1)
      as (st' & r & Heq & Ha); try done. by exists st', r.
  - destruct (semop_pass_total new _ p now (w_semid w) _ _ (w_sops w) (w_undos w) Hi1 Hs1)
      as (st' & r & Heq); try done. exists st', r. split; [exact Heq|done].
Qed.

(** *** Adjustments of a vector *)

Lemma adj_map_ok m k d :
  map_Forall (fun _ => val_ok) m -> map_Forall (fun _ => val_ok) (adj_map m k d).
Proof.
  intros Hm. unfold adj_map. case_if; [by apply map_Forall_delete|].
  apply map_Forall_insert_2; [|done]. split; [done|apply s16_range].
Qed.

Lemma adj_map_lookup m k d k' :
  default 0 (adj_map m k d !! k') = if decide (k = k') then s16 (default 0 (m !! k) + d)
                                    else default 0 (m !! k').
Proof.
  unfold adj_map. destruct (decide (k = k')) as [<-|Hne].
  - case_if; [rewrite lookup_delete_eq; cbn; lia|]. by rewrite lookup_insert_eq.
  - case_if; [by rewrite lookup_delete_ne|]. by rewrite lookup_insert_ne.
Qed.

(** The adjustments that a vector with SEM_UNDO throughout leaves. *)
Lemma adj_all_lookup ix sops : forall m,
  map_Forall (fun _ => val_ok) m -> Forall (fun sop => is_undo sop = true) sops ->
  map_Forall (fun _ => val_ok) (adj_all ix m sops) /\
  (forall n, default 0 (adj_all ix m sops !! (ix, n)) = s16 (default 0 (m !! (ix, n)) - net n sops)) /\
  (forall k, k.1 <> ix -> adj_all ix m sops !! k = m !! k).
Proof.
  induction sops as [|sop sops IH]; intros m Hm Hu.
  - cbn. split; [done|]. split; [|done]. intros n. rewrite Z.sub_0_r.
    destruct (m !! (ix, n)) as [v|] eqn:E; [|done]. cbn. symmetry. apply s16_small.
    by destruct (Hm _ _ E).
  - apply Forall_cons in Hu as [Hs Hu].
    change (adj_all ix m (sop :: sops)) with (adj_all ix (adj_op ix m sop) sops). cbn [net].
    unfold adj_op, counts. rewrite Hs. cbn [andb].
    destruct (Z.eqb_spec (sem_op sop) 0) as [H0|H0]; cbn [negb].
    + destruct (IH m Hm Hu) as (H1 & H2 & H3). split; [done|]. split; [|done].
      intros n. rewrite H2, H0. do 2 f_equal. by destruct (sem_num sop =? n).
    + destruct (IH _ (adj_map_ok m (ix, sem_num sop) (- sem_op sop) Hm) Hu) as (H1 & H2 & H3).
      split; [done|]. split.
      * intros n. rewrite H2, adj_map_lookup.
        destruct (Z.eqb_spec (sem_num sop) n) as [->|Hne].
        -- rewrite decide_True by done. unfold Z.sub. rewrite s16_add_l. f_equal. lia.
        -- rewrite decide_False by (by intros [= ?]). f_equal.
      * intros k Hk. rewrite H3 by done. unfold adj_map.
        case_if; [rewrite lookup_delete_ne|rewrite lookup_insert_ne]; try done; by intros <-.
Qed.

(** The values after a vector. *)
Lemma val_of_done st p ix a sp sops st' k :
  sem_inv st -> 0 <= ix -> sema st !! Z.to_nat ix = Some (Some a) -> sets st !! a = Some sp ->
  in_set sp sops ->
  vector_done st p ix a sp sops (vals (ops_base sops (sem_base sp))) st' ->
  val_of st' k = if k.1 =? ix then (fun v => u16 (v + net k.2 sops)) <$> val_of st k else val_of st k.
Proof.
  intros Hi Hix Hslot Hsp Hin [(sp' & Hs' & Hv & _) _ _ Hsl].
  destruct (inv_sets _ (proj1 Hi) a sp Hsp) as [[_ _ Hb _] _].
  unfold val_of, sem_of. rewrite Hsl, Hs'. destruct k as [i n]. cbn.
  destruct (Z.ltb_spec i 0); [by rewrite (proj2 (Z.eqb_neq i ix)) by lia|].
  destruct (Z.eqb_spec i ix) as [->|Hne].
  - rewrite Hslot, lookup_insert_eq, Hsp. cbn. unfold sem_at.
    destruct (Z.ltb_spec n 0); [done|]. rewrite <- list_lookup_fmap. fold (vals (sem_base sp')).
    rewrite Hv. unfold vals. rewrite list_lookup_fmap.
    destruct (sem_base sp !! Z.to_nat n) as [s|] eqn:E.
    + rewrite (ops_base_val sops _ _ s Hb) by
        (done || (eapply Forall_impl; [exact Hin|]; cbn; lia)). cbn. by rewrite Z2Nat.id by lia.
    + cbn. destruct (ops_base sops (sem_base sp) !! Z.to_nat n) eqn:E'; [|done].
      apply lookup_lt_Some in E'. rewrite ops_base_length in E'. apply lookup_ge_None in E. lia.
  - destruct (sema st !! Z.to_nat i) as [[b|]|] eqn:Eb; [|done|done].
    rewrite lookup_insert_ne; [done|]. intros <-.
    assert (Z.to_nat i = Z.to_nat ix) by (by eapply inv_inj; [apply Hi|..]). lia.
Qed.

(** A call that succeeds has done the vector. *)
Lemma semop_success st p new now semid nsops usops a sp st1 :
  let sops := usops <$> List.seq 0 (Z.to_nat nsops) in
  sem_inv st -> call_ok st (CSemop p new now semid nsops 0 usops) -> resolves st semid a sp ->
  in_set sp sops -> keeps_entry st p semid sops -> 0 < nsops ->
  sys_semop (PoolNow new) st p now semid nsops 0 usops = Ok (st1, Return 0) ->
  exists vs, vs = vals (ops_base sops (sem_base sp)) /\
    vector_done st p (IPCID_TO_IX semid) a sp sops vs st1.
Proof.
  intros sops Hi ([Hn Htid Hs] & _ & Ht) Hres Hin Hheld Hnsops Heq.
  rewrite sys_semop_resolved in Heq.
  destruct (resolved_cases st semid (st, Return EINVAL)
    (semop_body (PoolNow new) st p now semid nsops 0 usops) (proj1 Hi))
    as [(a' & sp' & Hres' & Hr)|[H _]]; [|by destruct (H a sp)].
  rewrite Hr in Heq. clear Hr. pose proof Hres as [_ Hsl Hsp _]. destruct Hres' as [_ Hsl' Hsp' _].
  assert (a' = a) as -> by congruence. assert (sp' = sp) as -> by congruence.
  unfold semop_body in Heq.
  destruct (negb (ipcperm _ _ _ =? 0)) eqn:E1; [injection Heq as _ E; by rewrite E in E1|].
  rewrite (proj2 (Z.eqb_neq nsops 0)) in Heq by lia.
  destruct (semopm (info st) <? nsops); [done|]. cbn [Z.eqb negb] in Heq. fold sops in Heq.
  assert (Hty : Forall sop_typed sops) by (apply Forall_fmap, Forall_true; intros x; apply Ht).
  destruct (inv_sets _ (proj1 Hi) a sp Hsp) as [Hset _].
  pose proof (semop_pass_spec new st p now semid a sp sops Hsp Hset Hin
    (typed_ok _ _ Hset Hin Hty) (inv_undos _ (proj1 Hi)) Hn Hheld 0 ltac:(lia)) as Hp.
  destruct (vec _ _) as [vs|].
  - destruct Hp as [-> Hp]. eexists. split; [done|].
    destruct (SEMUME <? 0 + undos sops); [by rewrite Hp in Heq|].
    destruct Hp as (l & e & wk & Hl & _ & Hp). rewrite Hp in Heq. injection Heq as <- ->.
    cbn [Z.eqb]. eapply done_is_done; [done| |exact Hl|done].
    eapply Forall_impl; [exact Hin|]. cbn. lia.
  - destruct Hp as (i & sop & _ & Hp). rewrite Hp in Heq. repeat case_if_in Heq; done.
Qed.

(** Adding the adjustment back restores a value. *)
Lemma exit_restores st ix a sp sops k :
  sema st !! Z.to_nat ix = Some (Some a) -> sets st !! a = Some sp -> set_ok sp ->
  Forall (fun sop => is_undo sop = true) sops ->
  (forall n s, sem_base sp !! n = Some s ->
     -32768 < net (Z.of_nat n) sops < 32768 /\ inu 16 (semval s + net (Z.of_nat n) sops)) ->
  match adj_all ix ∅ sops !! k with
  | Some d => exit_val d <$>
      (if k.1 =? ix then (fun v => u16 (v + net k.2 sops)) <$> val_of st k else val_of st k)
  | None => if k.1 =? ix then (fun v => u16 (v + net k.2 sops)) <$> val_of st k else val_of st k
  end = val_of st k.
Proof.
  intros Hslot Hsp Hset Hu Hfit.
  destruct (adj_all_lookup ix sops ∅ ltac:(apply map_Forall_empty) Hu) as (Hok & Hl & Ho).
  destruct (Z.eqb_spec k.1 ix) as [Hk|Hk]; [|by rewrite (Ho k Hk), lookup_empty].
  destruct k as [i n]. cbn in Hk. subst i. cbn [fst snd].
  destruct (val_of st (ix, n)) as [v|] eqn:Hv; cbn; [|by destruct (adj_all ix ∅ sops !! _)].
  assert (exists s, sem_base sp !! Z.to_nat n = Some s /\ semval s = v /\ 0 <= n)
    as (s & Hs & <- & Hn).
  { unfold val_of, sem_of in Hv. cbn in Hv. destruct (ix <? 0); [done|].
    rewrite Hslot, Hsp in Hv. cbn in Hv. unfold sem_at in Hv.
    destruct (Z.ltb_spec n 0); [done|]. destruct (sem_base sp !! Z.to_nat n) as [s|]; [|done].
    injection Hv as <-. by exists s. }
  destruct (Hfit _ _ Hs) as [Hr Hw]. rewrite Z2Nat.id in Hr, Hw by done.
  specialize (Hl n). rewrite lookup_empty in Hl. cbn [default from_option] in Hl.
  rewrite Z.sub_0_l, s16_small in Hl by lia. rewrite (wrapu_small 16 _ Hw).
  pose proof (set_sems _ Hset) as Hb. rewrite Forall_lookup in Hb.
  destruct (Hb _ _ Hs) as ([Hv0 Hv1] & _).
  destruct (adj_all ix ∅ sops !! (ix, n)) as [d|]; cbn in Hl |- *; f_equal.
  - unfold exit_val, id in *. subst d.
    destruct ((- net n sops <? 0) && _) eqn:E; [zify_bool; lia|].
    replace (semval s + net n sops + - net n sops) with (semval s) by lia. by apply wrapu_small.
  - lia.
Qed.

(** ** The end of a set *)

Record removed (st : semst) (semid a : Z) (sp : semid_ds) (st' : semst) : Prop := Removed {
  rm_inv : sem_inv st';
  rm_id : forall b x, ~ resolves st' semid b x;
  rm_stale : forall p now k nsems semflg new st2 e r, semget_ok st' new ->
    sys_semget st' p id now k nsems semflg new = Ok (st2, e, r) ->
    forall b x, ~ resolves st2 semid b x;
  rm_ids : forall id b x, b <> a -> resolves st id b x -> resolves st' id b x;
  rm_vals : forall k, k.1 <> IPCID_TO_IX semid -> val_of st' k = val_of st k;
  rm_undo : forall pr k, undo_of (semu_list st') pr !! k =
    if k.1 =? IPCID_TO_IX semid then None else undo_of (semu_list st) pr !! k;
  rm_awake : forall tid w, waiters st' !! tid = Some w ->
    w_chan w = (sema_addr st, IPCID_TO_IX semid) -> w_awake w = true;
  rm_tot : semtot st' = semtot st - sem_nsems sp;
}.

Lemma land_7fff_succ s : inu 15 s -> (s + 1) .& 0x7fff <> s.
Proof.
  unfold inu. change 0x7fff with (Z.ones 15). rewrite Z.land_ones by lia. change (2 ^ 15) with 32768.
  intros Hs. Z.div_mod_to_equations; lia.
Qed.

(** The next set in a slot has another sequence number. *)
Lemma stale_id st p now k nsems semflg new st2 e r semid :
  sem_inv st -> semget_ok st new -> (forall b x, ~ resolves st semid b x) ->
  semseqs st !! Z.to_nat (IPCID_TO_IX semid) = Some (IPCID_TO_SEQ semid) ->
  sys_semget st p id now k nsems semflg new = Ok (st2, e, r) ->
  forall b x, ~ resolves st2 semid b x.
Proof.
  intros Hi Hok Hno Hseq Heq b x Hres.
  destruct (sys_semget_spec st p now k nsems semflg new Hi Hok) as (st' & e' & r' & Heq' & Hg).
  rewrite Heq in Heq'. injection Heq' as <- <- <-. destruct Hg as [Hi2 Herr _ Hset _].
  destruct (Z.eq_dec e 0) as [->|He]; [|rewrite Herr in Hres by done; by eapply Hno].
  destruct (Hset eq_refl) as (a & sp & Hr & _ & _ & [(-> & _)|(-> & _ & ix & s & Hs & -> & -> & Hix & _)]);
    [by eapply Hno|].
  destruct Hres as [H1 H2 H3 H4]. cbn in H2, H3.
  destruct (decide (ix = Z.to_nat (IPCID_TO_IX semid))) as [->|Hne].
  2:{ rewrite list_lookup_insert_ne in H2 by done. apply (Hno b x). split; try done.
      rewrite lookup_insert_ne in H3; [done|]. intros <-.
      destruct (inv_slot _ (proj1 Hi) _ _ H2) as (y & Hy & _). by rewrite (sg_new _ _ Hok) in Hy. }
  pose proof (lookup_lt_Some _ _ _ Hix) as Hlt.
  rewrite list_lookup_insert_eq in H2 by done. injection H2 as <-.
  rewrite lookup_insert_eq in H3. injection H3 as <-. cbn in H4.
  rewrite Hs in Hseq. injection Hseq as Hse. rewrite <- Hse in H4.
  pose proof (inv_seq15 _ (proj1 Hi)) as H15. rewrite Forall_lookup in H15.
  by destruct (land_7fff_succ s (H15 _ _ Hs)).
Qed.

Lemma rmid_removed st semid a sp :
  sem_inv st -> resolves st semid a sp ->
  removed st semid a sp (wakeup (IPCID_TO_IX semid) (semundo_clear (IPCID_TO_IX semid) (-1)
    (set_sets (delete a)
      (set_slot (Z.to_nat (IPCID_TO_IX semid)) None (semtot st - sem_nsems sp) st)))).
Proof.
  intros Hi Hres. pose proof (rmid_inv st semid a sp Hi Hres) as Hi'.
  pose proof Hres as [Hix Hslot Hsp Hseq]. pose proof (ipcid_ix_nonneg semid) as H0.
  set (st1 := set_sets _ _) in *.
  destruct (semundo_clear_spec (IPCID_TO_IX semid) (-1) st1 (inv_undos _ (proj1 Hi)))
    as (l & Heq & _ & _ & Hm). rewrite Heq in *.
  assert (Hslots : forall i b, sema st !! i = Some (Some b) -> b <> a ->
    sema st1 !! i = Some (Some b)).
  { intros i b Hb Hne. cbn. rewrite list_lookup_insert_ne; [done|]. intros <-. congruence. }
  assert (Hnone : forall b x, ~ resolves (wakeup (IPCID_TO_IX semid) (with_undos st1 l)) semid b x).
  { intros b x [_ H _ _]. cbn in H. rewrite list_lookup_insert_eq in H; [done|].
    by eapply lookup_lt_Some. }
  split; [done|done| | | | | |done].
  - intros p now k nsems semflg new st2 e r Hok Hget. eapply stale_id; try done. cbn.
    destruct (inv_slot _ (proj1 Hi) _ _ Hslot) as (x & Hx & Hs). congruence.
  - intros id b x Hne [H1 H2 H3 H4]. split; [done|by apply Hslots| |done]. cbn.
    by rewrite lookup_delete_ne.
  - intros k Hk. unfold val_of, sem_of. cbn. destruct (Z.ltb_spec k.1 0); [done|].
    rewrite list_lookup_insert_ne by lia.
    destruct (sema st !! Z.to_nat k.1) as [[b|]|] eqn:Hb; [|done|done].
    rewrite lookup_delete_ne; [done|]. intros <-.
    assert (Z.to_nat k.1 = Z.to_nat (IPCID_TO_IX semid)) by (by eapply inv_inj; [apply Hi|..]). lia.
  - intros pr k. cbn. specialize (Hm pr). unfold cleared in Hm. change (-1 =? -1) with true in Hm.
    cbn in Hm. rewrite Hm. destruct (Z.eqb_spec k.1 (IPCID_TO_IX semid)) as [Hk|Hk].
    + apply map_lookup_filter_None. right. intros v _. by intros [].
    + destruct (undo_of (semu_list st) pr !! k) as [v|] eqn:E.
      * by apply map_lookup_filter_Some.
      * apply map_lookup_filter_None. by left.
  - intros tid w. cbn. rewrite lookup_fmap. destruct (waiters st !! tid) as [w'|]; [|done].
    cbn. intros [= <-]. unfold wake. case_bool_decide as Hd; [done|]. done.
Qed.

(** ** A system with one set *)

Definition root : ucred := Ucred 0 0 [].
Definition p1 : proc := Proc 1 101 201 root.
Definition p2 : proc := Proc 2 102 202 root.
Definition st0 : semst := seminit seminfo_default 1000.

(** The user's vector as memory. *)
Definition umem (l : list sembuf) (i : nat) : sembuf := nth i l (Sembuf 0 0 0).

Definition or_init (r : outcome semst) : semst := match r with Ok st => st | Panic => st0 end.

(** A process made a private set of three semaphores. *)
Definition st1 : semst := or_init (exec st0 (CSemget p1 7 IPC_PRIVATE 3 0x180 5000)).
Definition id1 : Z := 65536.
Definition set1 : semid_ds := new_set root 7 IPC_PRIVATE 3 0x180 1.

Lemma st0_reach : reach st0.
Proof. apply reach_init. by_decide. Qed.

Lemma st1_reach : reach st1.
Proof.
  apply (reach_call st0 (CSemget p1 7 IPC_PRIVATE 3 0x180 5000)).
  - apply st0_reach.
  - split; [done|]. by intros tid w Hw.
  - vm_compute. reflexivity.
Qed.

Lemma st1_resolves : resolves st1 id1 5000 set1.
Proof. split; vm_compute; reflexivity. Qed.

Lemma umem_typed l : Forall sop_typed l -> forall i, sop_typed (umem l i).
Proof.
  intros Hl i. unfold umem. destruct (nth_in_or_default i l (Sembuf 0 0 0)) as [Hin| ->].
  - rewrite Forall_forall in Hl. by apply Hl, list_elem_of_In.
  - by_decide.
Qed.

Lemma st1_semop_ok : semop_ok st1 p1 9000.
Proof. split; by_decide. Qed.

(** ** Properties *)

(** C23: from the start of the system on, every sequence of semget(2), semctl(2),
    semop(2), wake-ups and interrupts of sleeping processes, ends of processes
    and changes of limits, one at a time, leaves the slots and the sets in one to one
    correspondence, the total of semaphores and of undo structures exact and
    within the limits, the undo entries well formed and naming semaphores that
    exist, and [semncnt] and [semzcnt] equal to the numbers of processes
    asleep.  The next call returns, without a panic or an access to freed memory,
    unless the undo structure of the process is freed in the middle of its vector
    ([undo_after_free]) or the set of a process that was woken is gone and its slot
    in use again ([removed_set_is_read]).  One at a time means that no other call
    runs while one sleeps for memory or copies (see [removed_while_allocating] and
    [semget_over_limit]); that a semid_ds that a sleeper points to is not used
    again, SEMMSL stays below 32768 and fewer than 65535 processes sleep is part
    of [call_ok]. *)
Theorem sem_invariant st :
  reach st ->
  sem_inv st /\
  forall c, call_ok st c -> call_safe st c -> exists st', exec st c = Ok st' /\ reach st'.
Proof.
  intros Hr. pose proof (reach_inv st Hr) as Hi. split; [done|]. intros c Hok Hsafe.
  cut (exists st', exec st c = Ok st').
  { intros [st' Heq]. exists st'. split; [done|]. by eapply reach_call. }
  by apply exec_total.
Qed.

Lemma sem_invariant_witness :
  semtot st1 = 3 /\ exists st', exec st1 (CExit 101) = Ok st' /\ reach st'.
Proof.
  split; [by vm_compute|].
  destruct (sem_invariant st1 st1_reach) as [_ H]. apply H; exact I.
Defined.

(** C24: in the states of C23, semop(2) without a wait for memory, on an existing
    set, with the permission, with numbers of semaphores of the set only (see
    [efbig_is_not_atomic]) and undo entries that are not used up in the middle of
    the vector (see [undo_after_free]), is atomic: the vector is done as a whole, as
    [vec] defines it, or the call changes no value and no adjustment of any process.
    It is done exactly when no operation must wait and there is room for the
    undo entries; else it fails with ENOSPC or EINVAL; an operation that must
    wait gives EAGAIN with IPC_NOWAIT and puts the process to sleep otherwise, or
    ENOSPC if more than SEMUME operations with SEM_UNDO were passed on the way, all
    attempts of the call taken together (see [retries_run_out]).
    The attempt after a wake-up is atomic in the same way; an interrupted sleep
    gives EINTR and a set that is gone EIDRM, without any change but to the
    count of waiters. *)
Theorem semop_atomic st p new now :
  reach st ->
  (forall semid nsops usops a sp,
     let sops := usops <$> List.seq 0 (Z.to_nat nsops) in
     call_ok st (CSemop p new now semid nsops 0 usops) -> resolves st semid a sp ->
     ipcperm (p_ucred p) (sem_perm sp) IPC_W = 0 -> 0 < nsops <= semopm (info st) ->
     in_set sp sops -> keeps_entry st p semid sops ->
     exists st' r, sys_semop (PoolNow new) st p now semid nsops 0 usops = Ok (st', r) /\
       atomic st p semid a sp sops 0 st' r) /\
  (forall error w,
     call_ok st (CResume p new now error) -> call_safe st (CResume p new now error) ->
     waiters st !! p_tid p = Some w ->
     exists st' r, semop_resume (PoolNow new) st p now error = Ok (st', r) /\
       match sets st !! w_semaptr w, w_sop w with
       | Some sp, Some sop =>
           let sp1 := set_base (add_wait (-1) sop (sem_base sp)) sp in
           if error =? 0 then in_set sp (w_sops w) ->
             atomic (readjusted st p w sop sp) p (w_semid w) (w_semaptr w) sp1 (w_sops w)
               (w_undos w) st' r
           else r = Return EINTR /\ st' = readjusted st p w sop sp
       | _, _ => r = Return EIDRM /\ st' = set_waiters (delete (p_tid p)) st
       end).
Proof.
  intros Hr. pose proof (reach_inv st Hr) as Hi. split.
  - intros semid nsops usops a sp sops ([Hn Htid Hs] & _ & Ht) Hres Hperm Hnsops Hin Hheld.
    rewrite sys_semop_resolved.
    destruct (resolved_cases st semid (st, Return EINVAL)
      (semop_body (PoolNow new) st p now semid nsops 0 usops) (proj1 Hi))
      as [(a' & sp' & Hres' & ->)|[H _]]; [|by destruct (H a sp)].
    pose proof Hres as [_ Hsl Hsp _]. destruct Hres' as [_ Hsl' Hsp' _].
    assert (a' = a) as -> by congruence. assert (sp' = sp) as -> by congruence.
    unfold semop_body. rewrite Hperm. cbn [Z.eqb negb].
    rewrite (proj2 (Z.eqb_neq nsops 0)), (proj2 (Z.ltb_ge _ _)) by lia.
    apply attempt_atomic; try done. apply Forall_fmap, Forall_true. intros x. apply Ht.
  - intros error w (Hn & Hs & _) Hsafe Hw. destruct (Hsafe w Hw) as [Hheld Hslot].
    apply (resume_atomic new st p now error w); done.
Qed.

(** A vector on the set: up by two, then down by one, with SEM_UNDO. *)
Definition up_down : list sembuf := [Sembuf 0 2 SEM_UNDO; Sembuf 1 3 SEM_UNDO; Sembuf 0 (-1) SEM_UNDO].

Lemma up_down_ok : call_ok st1 (CSemop p1 9000 8 id1 3 0 (umem up_down)).
Proof.
  split; [exact st1_semop_ok|]. split; [done|]. apply umem_typed. by_decide.
Qed.

Lemma semop_atomic_witness :
  exists st' r, sys_semop (PoolNow 9000) st1 p1 8 id1 3 0 (umem up_down) = Ok (st', r) /\
    atomic st1 p1 id1 5000 set1 (umem up_down <$> List.seq 0 (Z.to_nat 3)) 0 st' r.
Proof.
  destruct (semop_atomic st1 p1 9000 8 st1_reach) as [H _].
  apply (H id1 3 (umem up_down) 5000 set1).
  - exact up_down_ok.
  - exact st1_resolves.
  - reflexivity.
  - vm_compute. split; [done|discriminate].
  - unfold in_set. by_decide.
  - vm_compute. reflexivity.
Defined.

(** C25: SEM_UNDO is undone: when a process without adjustments does a vector
    with SEM_UNDO on every operation, with numbers of semaphores of the set, with
    success and without a wait for memory, and then ends, all semaphores have the
    values, and all processes the adjustments, from before the vector.  The
    sum for each semaphore fits a [short] and the results an [unsigned short], and
    the undo entries are not used up in the middle of the vector. *)
Theorem semop_undo_roundtrip st p new now semid nsops usops a sp st1 :
  reach st -> call_ok st (CSemop p new now semid nsops 0 usops) -> resolves st semid a sp ->
  let sops := usops <$> List.seq 0 (Z.to_nat nsops) in
  in_set sp sops -> keeps_entry st p semid sops ->
  undo_of (semu_list st) (p_p p) = ∅ -> Forall (fun sop => is_undo sop = true) sops ->
  (forall n s, sem_base sp !! n = Some s ->
     -32768 < net (Z.of_nat n) sops < 32768 /\ inu 16 (semval s + net (Z.of_nat n) sops)) ->
  0 < nsops ->
  sys_semop (PoolNow new) st p now semid nsops 0 usops = Ok (st1, Return 0) ->
  exists st2, semexit st1 (p_p p) = Ok st2 /\
    (forall k, val_of st2 k = val_of st k) /\
    (forall pr, undo_of (semu_list st2) pr = undo_of (semu_list st) pr).
Proof.
  intros Hr Hok Hres sops Hin Hheld Hm Hu Hfit Hnsops Heq.
  pose proof (reach_inv st Hr) as Hi. pose proof Hok as (Hso & _ & Ht).
  assert (Hi1 : sem_inv st1) by (by eapply sys_semop_inv).
  destruct (semop_success st p new now semid nsops usops a sp st1 Hi Hok Hres Hin Hheld Hnsops Heq)
    as (vs & Hvs & Hd).
  pose proof Hres as [_ Hslot Hsp _]. pose proof (ipcid_ix_nonneg semid) as Hix.
  destruct (inv_sets _ (proj1 Hi) a sp Hsp) as [Hset _]. subst vs.
  destruct (semexit_spec st1 (p_p p) Hi1) as (st2 & Hex & _ & _ & Hu2 & Ho2 & Hv2).
  exists st2. split; [done|]. split.
  - intros k. rewrite Hv2. pose proof Hd as [_ Hadj _ _]. rewrite Hadj, Hm.
    rewrite (val_of_done st p _ a sp sops st1 k Hi Hix Hslot Hsp Hin Hd).
    by apply exit_restores with (a := a) (sp := sp).
  - intros pr. destruct Hd as [_ _ Ho _]. destruct (decide (pr = p_p p)) as [->|Hne].
    + by rewrite Hu2, Hm.
    + by rewrite Ho2, Ho.
Qed.

Definition st_up : semst := or_init (exec st1 (CSemop p1 9000 8 id1 3 0 (umem up_down))).

Lemma semop_undo_roundtrip_witness :
  val_of st_up (0, 0) = Some 1 /\
  exists st2, semexit st_up 101 = Ok st2 /\
    (forall k, val_of st2 k = val_of st1 k) /\
    (forall pr, undo_of (semu_list st2) pr = undo_of (semu_list st1) pr).
Proof.
  split; [by vm_compute|].
  apply (semop_undo_roundtrip st1 p1 9000 8 id1 3 (umem up_down) 5000 set1 st_up).
  - exact st1_reach.
  - exact up_down_ok.
  - exact st1_resolves.
  - unfold in_set. by_decide.
  - vm_compute. reflexivity.
  - vm_compute. reflexivity.
  - by_decide.
  - intros [|[|[|n]]] s Hs; vm_compute in Hs; [injection Hs as <-; by_decide..|discriminate].
  - lia.
  - vm_compute. reflexivity.
Defined.

(** Semget(2) returns the identifier of a set with the key and at least
    the size asked for, whose permissions allow the access, or creates it, with
    all values zero, in the lowest free slot; it creates one whenever it is
    asked to and may.  A call that fails changes nothing, and no call disturbs
    the identifiers of the other sets.  IPC_RMID ends the set: its identifier
    is refused from then on, also when the next semget(2) takes the slot; its
    undo entries are gone, its sleepers are awake, and the other sets, values
    and adjustments stay. *)
Theorem semget_rmid st p now :
  reach st ->
  (forall k nsems semflg new, semget_ok st new ->
     exists st' e r, sys_semget st p id now k nsems semflg new = Ok (st', e, r) /\
       got st p now k nsems semflg new st' e r) /\
  (forall semid semnum arg a sp,
     resolves st semid a sp -> ipcperm (p_ucred p) (sem_perm sp) IPC_M = 0 -> semun_typed arg ->
     exists st', sys___semctl st p now semid semnum IPC_RMID arg = Ok (st', ctl_error 0) /\
       removed st semid a sp st').
Proof.
  intros Hr. pose proof (reach_inv st Hr) as Hi. split.
  - intros k nsems semflg new Hok. by apply sys_semget_spec.
  - intros semid semnum arg a sp Hres Hperm Ht. 
    change (sys___semctl st p now semid semnum IPC_RMID arg) with
      (semctl1 st p now semid semnum IPC_RMID arg).
    rewrite semctl1_resolved.
    destruct (resolved_cases st semid (st, ctl_error EINVAL)
      (semctl_body st p now semid semnum IPC_RMID arg) (proj1 Hi))
      as [(a' & sp' & Hres' & Heq)|[H _]]; [|by destruct (H a sp)].
    pose proof Hres as [_ Hsl Hsp _]. destruct Hres' as [_ Hsl' Hsp' _].
    assert (a' = a) as -> by congruence. assert (sp' = sp) as -> by congruence.
    eexists. split; [|by apply rmid_removed].
    etransitivity; [exact Heq|]. unfold semctl_body. cbn zeta. rewrite Hperm. reflexivity.
Qed.

Definition no_arg : semun := Semun 0 0 (inl EFAULT) 0 (fun _ => inl EFAULT) (fun _ => 0).

Lemma semget_rmid_witness :
  (exists st' e r, sys_semget st1 p2 id 9 77 4 0x380 6000 = Ok (st', e, r) /\
     got st1 p2 9 77 4 0x380 6000 st' e r) /\
  exists st', sys___semctl st1 p2 9 id1 0 IPC_RMID no_arg = Ok (st', ctl_error 0) /\
    removed st1 id1 5000 set1 st'.
Proof.
  destruct (semget_rmid st1 p2 9 st1_reach) as [Hget Hrm]. split.
  - apply Hget. split; [by vm_compute|]. by intros tid w Hw.
  - apply (Hrm id1 0 no_arg 5000 set1); [exact st1_resolves|reflexivity|by intros i v].
Defined.

(** When a process ends, [semexit] returns: its panics are out of reach.
    Each semaphore it has an adjustment for changes by it, down to zero at the
    lowest; no other value changes, its adjustments are forgotten and those of
    other processes stay. *)
Theorem semexit_adjusts st pr :
  reach st ->
  exists st', semexit st pr = Ok st' /\ sem_inv st' /\
    undo_of (semu_list st') pr = ∅ /\ others_keep (semu_list st) (semu_list st') pr /\
    forall k v, val_of st k = Some v ->
      val_of st' k = Some match undo_of (semu_list st) pr !! k with
                          | Some d => if v + d <=? 65535 then Z.max 0 (v + d) else v + d - 65536
                          | None => v
                          end.
Proof.
  intros Hr. pose proof (reach_inv st Hr) as Hi.
  destruct (semexit_spec st pr Hi) as (st' & Heq & Hi' & _ & H1 & H2 & H3).
  exists st'. do 4 (split; [done|]). intros k v Hv. rewrite H3, Hv.
  destruct (undo_of (semu_list st) pr !! k) as [d|] eqn:Hd; [|done]. cbn. f_equal.
  destruct (undo_of_ok _ _ pr (inv_undos _ (proj1 Hi))) as [Hvok _].
  destruct (Hvok _ _ Hd) as [_ Hrange].
  destruct (val_of_range st k v (proj1 Hi) Hv) as [Hv0 Hv1]. unfold exit_val, wrapu.
  change (2 ^ 16) with 65536.
  destruct ((d <? 0) && (v <? - d)) eqn:E.
  - zify_bool. rewrite (proj2 (Z.leb_le _ _)) by lia. lia.
  - assert (0 <= v + d) by (destruct (Z.ltb_spec d 0); cbn in E; zify_bool; lia).
    destruct (Z.leb_spec (v + d) 65535).
    + rewrite Z.mod_small; lia.
    + symmetry. apply (Z.mod_unique_pos _ _ 1); lia.
Qed.

Lemma st_up_reach : reach st_up.
Proof.
  apply (reach_call st1 (CSemop p1 9000 8 id1 3 0 (umem up_down))).
  - exact st1_reach.
  - exact up_down_ok.
  - vm_compute. reflexivity.
Qed.

Lemma semexit_adjusts_witness :
  val_of st_up (0, 1) = Some 3 /\ undo_of (semu_list st_up) 101 !! (0, 1) = Some (-3) /\
  exists st', semexit st_up 101 = Ok st' /\ sem_inv st' /\
    undo_of (semu_list st') 101 = ∅ /\ others_keep (semu_list st_up) (semu_list st') 101 /\
    forall k v, val_of st_up k = Some v ->
      val_of st' k = Some match undo_of (semu_list st_up) 101 !! k with
                          | Some d => if v + d <=? 65535 then Z.max 0 (v + d) else v + d - 65536
                          | None => v
                          end.
Proof.
  split; [by vm_compute|]. split; [by vm_compute|]. exact (semexit_adjusts st_up 101 st_up_reach).
Defined.

(** C26: no wake-up is lost: a process that sleeps in semop(2) and has not been woken
    still could not run its vector, and its set exists.  This in every state that
    calls of C23 can lead to that keep to the following ([call_civil]): vectors name
    semaphores of their set, keep the values up to SEMVMX, add at most 32768 in all,
    do not lower a semaphore before they wait for it to be zero
    ([zero_wait_unnoticed]) and do not use up their undo entries on the way; SETVAL
    sets no negative value ([setval_negative]); the adjustments at the end of a
    process keep to SEMVMX; and SEMMNI is not raised ([growing_loses_wakeups]). *)
Theorem sem_no_lost_wakeup st tid w :
  civil_reach st -> waiters st !! tid = Some w -> w_awake w = false ->
  exists sp, sets st !! w_semaptr w = Some sp /\ vec (vals (sem_base sp)) (w_sops w) = None.
Proof.
  intros Hr Hw Ha. pose proof (civil_reach_wake st Hr) as Hwk.
  pose proof (reach_inv st (civil_reach_reach st Hr)) as Hi.
  destruct (sets st !! w_semaptr w) as [sp|] eqn:Hsp; [|by rewrite (wk_gone _ Hwk tid w) in Ha].
  exists sp. split; [done|].
  destruct (inv_wait _ (proj1 Hi) _ _ Hw) as [_ _ [sop Hsop] H4].
  destruct (H4 sp Hsp) as (_ & _ & Hn). specialize (Hn sop Hsop).
  destruct (inv_sets _ (proj1 Hi) _ _ Hsp) as [[Hl _ _ _] _].
  apply (stuck_vec _ _ (w_i w) sop); [by eapply wk_civil|by eapply wk_low| |done|lia].
  by eapply wk_stuck.
Qed.

(** A process sleeps until semaphore 0 grows. *)
Definition down1 : list sembuf := [Sembuf 0 (-1) 0].
Definition st_sleep : semst := or_init (exec st1 (CSemop p2 9000 8 id1 1 0 (umem down1))).
Definition w_down : waiter := Waiter id1 (1000, 0) 5000 down1 0 0 false.

Lemma st_sleep_civil : civil_reach st_sleep.
Proof.
  apply (civil_call st1 (CSemop p2 9000 8 id1 1 0 (umem down1))).
  - apply (civil_call st0 (CSemget p1 7 IPC_PRIVATE 3 0x180 5000)).
    + apply civil_init. by_decide.
    + split; [by vm_compute|]. by intros tid w Hw.
    + exact I.
    + vm_compute. reflexivity.
  - split; [split; by_decide|]. split; [done|]. apply umem_typed. by_decide.
  - intros a sp [_ Hsl Hsp _]. vm_compute in Hsl. injection Hsl as <-.
    assert (sp = set1) as ->.
    { vm_compute in Hsp. injection Hsp as <-. vm_compute. reflexivity. }
    split; [unfold in_set; by_decide|]. split; [|split; by vm_compute].
    split; [|split; by_decide]. intros [|i] sop Hs; vm_compute in Hs; [|discriminate].
    injection Hs as <-. discriminate.
  - vm_compute. reflexivity.
Qed.

Lemma sem_no_lost_wakeup_witness :
  exists sp, sets st_sleep !! 5000 = Some sp /\ vec (vals (sem_base sp)) down1 = None.
Proof.
  apply (sem_no_lost_wakeup st_sleep 2 w_down).
  - exact st_sleep_civil.
  - vm_compute. reflexivity.
  - reflexivity.
Defined.

(** ** Where the code does not do what it means to *)

(** The state and the result of a vector by a process, with a structure at [new]. *)
Definition semop_by (p : proc) (new : Z) (sops : list sembuf) (st : semst) : outcome (semst * result) :=
  sys_semop (PoolNow new) st p 9 id1 (Z.of_nat (length sops)) 0 (umem sops).

Definition after (r : outcome (semst * result)) : semst :=
  match r with Ok (st, _) => st | Panic => st0 end.
Definition outcome_of (r : outcome (semst * result)) : option result :=
  match r with Ok (_, x) => Some x | Panic => None end.

(** A number out of range in the middle of a vector ends the call with EFBIG,
    but the operations before it have been done and stay. *)
Example efbig_is_not_atomic :
  let r := semop_by p1 9000 [Sembuf 0 5 0; Sembuf 7 1 0] st1 in
  outcome_of r = Some (Return EFBIG) /\ val_of st1 (0, 0) = Some 0 /\ val_of (after r) (0, 0) = Some 5.
Proof. vm_compute. by split_and!. Qed.

(** A process that gives semaphore 0 back and takes semaphore 1 in one vector,
    with SEM_UNDO: the first adjustment frees the undo structure, the second
    one goes to the freed memory. *)
Example undo_after_free :
  let st := after (semop_by p1 9000 [Sembuf 0 1 0; Sembuf 1 1 0] st1) in
  let st := after (semop_by p1 9000 [Sembuf 0 (-1) SEM_UNDO] st) in
  undo_of (semu_list st) 101 = {[ (0, 0) := 1 ]} /\
  semop_by p1 9001 [Sembuf 0 1 SEM_UNDO; Sembuf 1 (-1) SEM_UNDO] st = Panic.
Proof. vm_compute. by split. Qed.

(** [do_undos] is not set back when the vector is tried again: a vector with
    four SEM_UNDO operations before the one it waits for fails with ENOSPC at
    the third attempt. *)
Example retries_run_out :
  let vecu := [Sembuf 0 1 SEM_UNDO; Sembuf 0 1 SEM_UNDO; Sembuf 0 1 SEM_UNDO;
               Sembuf 0 1 SEM_UNDO; Sembuf 1 (-1) 0] in
  let again st := semop_resume (PoolNow 9000) st p1 9 0 in
  let st := after (semop_by p1 9000 vecu st1) in
  outcome_of (again st) = Some Sleeps /\
  outcome_of (again (after (again st))) = Some (Return ENOSPC).
Proof. vm_compute. by split. Qed.

(** SETVAL looks for the entry of its semaphore, and stops at the first entry
    of the set: that of another semaphore hides it. *)
Example setval_keeps_entry :
  let st := after (semop_by p1 9000 [Sembuf 0 1 SEM_UNDO; Sembuf 1 1 SEM_UNDO] st1) in
  match semctl1 st p1 9 id1 1 SETVAL (Semun 0 5 (inl EFAULT) 0 (fun _ => inl EFAULT) (fun _ => 0)) with
  | Ok (st', _) => undo_of (semu_list st') 101 !! (0, 1) = Some (-1)
  | Panic => False
  end.
Proof. vm_compute. reflexivity. Qed.

(** Nothing keeps a semaphore below SEMVMX, or from running over. *)
Example semval_runs_over :
  let r := semop_by p1 9000 [Sembuf 0 32767 0; Sembuf 0 32767 0; Sembuf 0 3 0] st1 in
  outcome_of r = Some (Return 0) /\ val_of (after r) (0, 0) = Some 1.
Proof. vm_compute. by split. Qed.

(** SETVAL takes a negative value for a large one. *)
Example setval_negative :
  match semctl1 st1 p1 9 id1 0 SETVAL (Semun 0 (-1) (inl EFAULT) 0 (fun _ => inl EFAULT) (fun _ => 0)) with
  | Ok (st', r) => c_error r = 0 /\ val_of st' (0, 0) = Some 65535
  | Panic => False
  end.
Proof. vm_compute. by split. Qed.

(** A vector that lowers a semaphore and then waits for it to be zero sleeps on
    when the semaphore comes down to where the vector could run: only a value
    of zero wakes it. *)
Example zero_wait_unnoticed :
  let st := after (semop_by p1 9000 [Sembuf 0 2 0] st1) in
  let st := after (semop_by p2 9000 [Sembuf 0 (-1) 0; Sembuf 0 0 0] st) in
  let st := after (semop_by p1 9000 [Sembuf 0 (-1) 0] st) in
  w_awake <$> waiters st !! 2 = Some false /\ val_of st (0, 0) = Some 1 /\
  vec [1; 0; 0] [Sembuf 0 (-1) 0; Sembuf 0 0 0] = Some [0; 0; 0].
Proof. vm_compute. by split_and!. Qed.

(** A process that sleeps while its set is removed and another one takes the
    slot reads the freed set to find out. *)
Example removed_set_is_read :
  let st := match semctl1 st_sleep p1 9 id1 0 IPC_RMID no_arg with Ok (st, _) => st | Panic => st0 end in
  let st := match sys_semget st p1 id 9 IPC_PRIVATE 3 0x180 6000 with
            | Ok (st, _, _) => st | Panic => st0 end in
  w_awake <$> waiters st !! 2 = Some true /\ semop_resume (PoolNow 9000) st p2 9 0 = Panic.
Proof. vm_compute. by split. Qed.

(** The second [pool_get] of [semu_alloc] may sleep.  If the set is removed meanwhile,
    [sys_semop] goes on with the freed set. *)
Example removed_while_allocating :
  let rmid st := match semctl1 st p1 9 id1 0 IPC_RMID no_arg with Ok (st, _) => st | Panic => st end in
  sets (rmid st1) !! 5000 = None /\
  sys_semop (PoolWait rmid 9000) st1 p1 9 id1 1 0 (umem [Sembuf 0 1 SEM_UNDO]) = Panic.
Proof. vm_compute. by split. Qed.

(** Growing the array of slots moves it, and with it the channel: who slept
    before is not woken any more. *)
Example growing_loses_wakeups :
  let st := (sysctl_sysvsem st_sleep 2 KERN_SEMINFO_SEMMNI (SysctlIo false 0 0 (Some (4, inr 20))) 2000).1 in
  let st := after (semop_by p1 9000 [Sembuf 0 1 0] st) in
  w_awake <$> waiters st !! 2 = Some false /\ val_of st (0, 0) = Some 1.
Proof. vm_compute. by split. Qed.

(** The check against SEMMNS comes before the allocation that may sleep: two
    calls that overlap go over the limit. *)
Example semget_over_limit :
  let other st := match sys_semget st p2 id 9 IPC_PRIVATE 40 0x180 6000 with
                  | Ok (st, _, _) => st | Panic => st0 end in
  match sys_semget st0 p1 other 9 IPC_PRIVATE 40 0x180 5000 with
  | Ok (st, e, _) => e = 0 /\ semtot st = 80 /\ semmns (info st) = 60
  | Panic => False
  end.
Proof. vm_compute. by split_and!. Qed.

(** With [semmsl] raised above 32767 the number of a semaphore does not fit
    [un_num]: the entry is not found again, and the end of the process reads
    in front of the semaphores. *)
Example large_set_unfinds_entry :
  find_ent 0 40000 [Undo 1 (s16 40000) 0] = None /\ s16 40000 < 0.
Proof. vm_compute. by split. Qed.

End SemSpec.
