(* ===== verification/Pipe.v ===== *)
(** * Pipes (kern/sys_pipe.c): the model

    A pipe(2) is a pair of [struct pipe], one for each end; the buffer of an end
    holds what was written to the other one and not yet read.  Pipes are
    entries of [pipes] under their addresses, and their buffers lists of bytes.

    The kernel lock lets one thread run at a time, until it sleeps.  Here a
    thread can stop in [tsleep], in [uiomovei], which may preempt it or wait for
    a page, and in [km_alloc], which waits for memory.  The functions are cut
    at these places: a definition is the code from one of them to the next, and
    its result is the state and the program point [pc] where the thread stops,
    with the local variables that are still needed.  [resume] continues a thread
    with what the place gave: the result of [tsleep], the error of [uiomovei]
    and the bytes it moved, the memory of [km_alloc].

    [wakeup] marks the threads that sleep on its channel, the address of a pipe.
    What the pipes tell others is in [log]: the bytes that come and go, and the
    calls of [selwakeup], [KNOTE] and [gsignal].

    An access to a pipe that has been freed is [Panic], like the calls of
    [panic] themselves. *)

From S2P Require Import Prelude.

Module Pipe.

(** ** Constants *)

Definition EINTR : Z := 4.
Definition ENOTTY : Z := 25.
Definition EPIPE : Z := 32.
Definition PIPE_SIZE : Z := 16384.
Definition BIG_PIPE_SIZE : Z := 64 * 1024.
Definition PIPE_BUF : Z := 512.
Definition MINPIPESIZE : Z := PIPE_SIZE / 3.
Definition LIMITBIGPIPES : Z := 32.
Definition PIPE_ASYNC : Z := 0x004.
Definition PIPE_WANTR : Z := 0x008.
Definition PIPE_WANTW : Z := 0x010.
Definition PIPE_WANT : Z := 0x020.
Definition PIPE_SEL : Z := 0x040.
Definition PIPE_EOF : Z := 0x080.
Definition PIPE_LOCK : Z := 0x100.
Definition PIPE_LWANT : Z := 0x200.
Definition NO_PID : Z := 32767.
Definition POLLIN : Z := 0x0001.
Definition POLLOUT : Z := 0x0004.
Definition POLLHUP : Z := 0x0010.
Definition POLLRDNORM : Z := 0x0040.
Definition POLLWRNORM : Z := POLLOUT.
Definition EVFILT_READ : Z := -1.
Definition EVFILT_WRITE : Z := -2.
Definition EV_EOF : Z := 0x8000.
Definition S_IFIFO : Z := 0x1000.

(** ** Data *)

Record pipebuf := Pipebuf {
  cnt : Z;
  in_ : Z;
  out : Z;
  size : Z;
  buffer : option (list Z);
}.

(** [pipe_notes] is the list of knotes of [pipe_sel]. *)
Record pipe := MkPipe {
  pipe_buffer : pipebuf;
  pipe_notes : list Z;
  pipe_atime : Z;
  pipe_mtime : Z;
  pipe_ctime : Z;
  pipe_pgid : Z;
  pipe_peer : option Z;
  pipe_state : Z;
  pipe_busy : Z;
}.

(** The local variables of [pipe_read]: [rpipe], FNONBLOCK of the file,
    [uio_resid], [nread], and the bytes that are in the user's memory. *)
Record rd := Rd {
  r_pipe : Z;
  r_nonblock : bool;
  r_resid : Z;
  r_nread : Z;
  r_data : list Z;
}.

(** The local variables of [pipe_write]: [wpipe], [rpipe] (the pipe of the
    file), FNONBLOCK, [uio_resid] and [orig_resid]. *)
Record wr := Wr {
  w_pipe : Z;
  w_file : Z;
  w_nonblock : bool;
  w_resid : Z;
  w_orig : Z;
}.

(** Where a thread stops. *)
Inductive pc : Type :=
| RLock (l : rd)                       (* first pipelock of pipe_read *)
| RMove (l : rd) (n : Z)               (* uiomovei of pipe_read *)
| RSleep (l : rd)                      (* "piperd" *)
| RRelock (l : rd)                     (* second pipelock of pipe_read *)
| WGrow (l : wr)                       (* pipelock before the resize *)
| WAlloc (l : wr)                      (* km_alloc of pipespace *)
| WLock (l : wr) (space : Z)           (* pipelock before the transfer *)
| WMove (l : wr) (n segsize : Z)       (* first uiomovei of pipe_write *)
| WMove2 (l : wr) (n segsize : Z) (seg : list Z)
                                       (* second one; [seg] was moved *)
| WSleep (l : wr)                      (* "pipewr" *)
| CWait (a : Z)                        (* "pipecl" *)
| Ret (error resid : Z) (data : list Z).

Record thread := Thread {
  t_pc : pc;
  t_awake : bool;
}.

Inductive event : Type :=
| Opened (a b : Z)
| Put (a tid : Z) (bs : list Z)
| Got (a tid : Z) (bs : list Z)
| Selwakeup (a : Z)
| Knote (a : Z)
| Gsignal (pgid : Z)
| Selrecord (tid a : Z).

Record pst := Pst {
  pipes : gmap Z pipe;
  nbigpipe : Z;
  amountpipekva : Z;
  threads : gmap Z thread;
  log : list event;
}.

(** What a thread gets at the place where it stopped. *)
Inductive input : Type :=
| Wakes (error : Z)                    (* tsleep returns *)
| CopyOut (error k : Z)                (* uiomovei of a reader, and the bytes moved when it fails *)
| CopyIn (error : Z) (bs : list Z)     (* uiomovei of a writer, with the bytes *)
| Memory (mem : option (list Z)).      (* km_alloc *)

(** ** Access to the state *)

Definition set_buf (b : pipebuf) (p : pipe) : pipe :=
  MkPipe b (pipe_notes p) (pipe_atime p) (pipe_mtime p) (pipe_ctime p) (pipe_pgid p) (pipe_peer p)
    (pipe_state p) (pipe_busy p).
Definition set_state (s : Z) (p : pipe) : pipe :=
  MkPipe (pipe_buffer p) (pipe_notes p) (pipe_atime p) (pipe_mtime p) (pipe_ctime p) (pipe_pgid p)
    (pipe_peer p) s (pipe_busy p).
Definition set_busy (n : Z) (p : pipe) : pipe :=
  MkPipe (pipe_buffer p) (pipe_notes p) (pipe_atime p) (pipe_mtime p) (pipe_ctime p) (pipe_pgid p)
    (pipe_peer p) (pipe_state p) n.
Definition set_peer (o : option Z) (p : pipe) : pipe :=
  MkPipe (pipe_buffer p) (pipe_notes p) (pipe_atime p) (pipe_mtime p) (pipe_ctime p) (pipe_pgid p)
    o (pipe_state p) (pipe_busy p).
Definition set_atime (t : Z) (p : pipe) : pipe :=
  MkPipe (pipe_buffer p) (pipe_notes p) t (pipe_mtime p) (pipe_ctime p) (pipe_pgid p)
    (pipe_peer p) (pipe_state p) (pipe_busy p).
Definition set_mtime (t : Z) (p : pipe) : pipe :=
  MkPipe (pipe_buffer p) (pipe_notes p) (pipe_atime p) t (pipe_ctime p) (pipe_pgid p)
    (pipe_peer p) (pipe_state p) (pipe_busy p).
Definition set_pgid (g : Z) (p : pipe) : pipe :=
  MkPipe (pipe_buffer p) (pipe_notes p) (pipe_atime p) (pipe_mtime p) (pipe_ctime p) g
    (pipe_peer p) (pipe_state p) (pipe_busy p).
Definition set_notes (l : list Z) (p : pipe) : pipe :=
  MkPipe (pipe_buffer p) l (pipe_atime p) (pipe_mtime p) (pipe_ctime p) (pipe_pgid p)
    (pipe_peer p) (pipe_state p) (pipe_busy p).

(** [p->pipe_state & f], [|= f] and [&= ~f] *)
Definition flag (p : pipe) (f : Z) : bool := has (pipe_state p) f.
Definition raise (f : Z) (p : pipe) : pipe := set_state (pipe_state p .| f) p.
Definition lower (f : Z) (p : pipe) : pipe := set_state (clear (pipe_state p) f) p.

Definition deref (st : pst) (a : Z) : outcome pipe :=
  match pipes st !! a with Some p => Ok p | None => Panic end.
Definition store (a : Z) (p : pipe) (st : pst) : pst :=
  Pst (<[a := p]> (pipes st)) (nbigpipe st) (amountpipekva st) (threads st) (log st).
Definition tell (e : event) (st : pst) : pst :=
  Pst (pipes st) (nbigpipe st) (amountpipekva st) (threads st) (log st ++ [e]).
Definition set_threads (f : gmap Z thread -> gmap Z thread) (st : pst) : pst :=
  Pst (pipes st) (nbigpipe st) (amountpipekva st) (f (threads st)) (log st).

(** The channel a thread sleeps on. *)
Definition chan (l : pc) : option Z :=
  match l with
  | RLock l | RSleep l | RRelock l => Some (r_pipe l)
  | WGrow l | WLock l _ | WSleep l => Some (w_pipe l)
  | CWait a => Some a
  | _ => None
  end.

Definition wake (a : Z) (t : thread) : thread :=
  if bool_decide (chan (t_pc t) = Some a) then Thread (t_pc t) true else t.
Definition wakeup (a : Z) (st : pst) : pst := set_threads (fmap (wake a)) st.

(** ** The buffer *)

Definition pipe_free_kmem (st : pst) (a : Z) : outcome pst :=
  p ← deref st a;
  let b := pipe_buffer p in
  match buffer b with
  | None => Ok st
  | Some _ =>
      let nbig := if PIPE_SIZE <? size b then nbigpipe st - 1 else nbigpipe st in
      let p := set_buf (Pipebuf (cnt b) (in_ b) (out b) (size b) None) p in
      Ok (Pst (<[a := p]> (pipes st)) nbig (amountpipekva st - size b) (threads st) (log st))
  end.

(** [mem] is what [km_alloc] returned. *)
Definition pipespace (st : pst) (a sz : Z) (mem : option (list Z)) : outcome (pst * Z) :=
  match mem with
  | None => Ok (st, ENOMEM)
  | Some m =>
      st ← pipe_free_kmem st a;
      p ← deref st a;
      let p := set_buf (Pipebuf 0 0 0 sz (Some m)) p in
      Ok (Pst (<[a := p]> (pipes st)) (nbigpipe st) (amountpipekva st + sz) (threads st) (log st), 0)
  end.

(** The pipe at [a] comes from [pool_get]; what it held before is [old]. *)
Definition pipe_create (st : pst) (now a : Z) (old : pipe) (mem : option (list Z))
    : outcome (pst * Z) :=
  let b := pipe_buffer old in
  let p := MkPipe (Pipebuf (cnt b) (in_ b) (out b) (size b) None) [] (pipe_atime old) (pipe_mtime old)
             (pipe_ctime old) (pipe_pgid old) None 0 0 in
  r ← pipespace (store a p st) a PIPE_SIZE mem;
  let '(st, error) := r in
  if negb (error =? 0) then Ok (st, error)
  else
    p ← deref st a;
    Ok (store a (MkPipe (pipe_buffer p) (pipe_notes p) now now now NO_PID (pipe_peer p)
                   (pipe_state p) (pipe_busy p)) st, 0).

(** ** The lock *)

(** One turn of the loop of [pipelock]: whether the lock is taken; if not, the
    caller sleeps and tries again. *)
Definition pipelock (st : pst) (a : Z) : outcome (pst * bool) :=
  p ← deref st a;
  if flag p PIPE_LOCK then Ok (store a (raise PIPE_LWANT p) st, false)
  else Ok (store a (raise PIPE_LOCK p) st, true).

Definition pipeunlock (st : pst) (a : Z) : outcome pst :=
  p ← deref st a;
  let p := lower PIPE_LOCK p in
  if flag p PIPE_LWANT then Ok (wakeup a (store a (lower PIPE_LWANT p) st))
  else Ok (store a p st).

Definition pipeselwakeup (st : pst) (a : Z) : outcome pst :=
  p ← deref st a;
  let st := if flag p PIPE_SEL then tell (Selwakeup a) (store a (lower PIPE_SEL p) st)
            else tell (Knote a) st in
  if flag p PIPE_ASYNC && negb (pipe_pgid p =? NO_PID) then Ok (tell (Gsignal (pipe_pgid p)) st)
  else Ok st.

(** [if (p->pipe_state & f) { p->pipe_state &= ~f; wakeup(p); }] *)
Definition wake_wanted (st : pst) (a f : Z) : outcome pst :=
  p ← deref st a;
  if flag p f then Ok (wakeup a (store a (lower f p) st)) else Ok st.

(** [--p->pipe_busy] and what follows it at the end of a call: the wake-up for
    PIPE_WANT, or else the one for [f] if [cond] holds. *)
Definition leave (st : pst) (a f : Z) (cond : bool) : outcome pst :=
  p ← deref st a;
  let p := set_busy (pipe_busy p - 1) p in
  let st := store a p st in
  if (pipe_busy p =? 0) && flag p PIPE_WANT
  then Ok (wakeup a (store a (lower (PIPE_WANT .| f) p) st))
  else if cond then wake_wanted st a f else Ok st.

(** ** pipe_read *)

(** From [unlocked_error] on. *)
Definition read_exit (st : pst) (l : rd) (error : Z) : outcome (pst * pc) :=
  let a := r_pipe l in
  p ← deref st a;
  let b := pipe_buffer p in
  st ← leave st a PIPE_WANTW (cnt b <? MINPIPESIZE);
  st ← if PIPE_BUF <=? u32 (size b - cnt b) then pipeselwakeup st a else Ok st;
  Ok (st, Ret error (r_resid l) (r_data l)).

(** From the end of the loop on. *)
Definition read_end (st : pst) (now : Z) (l : rd) (error : Z) : outcome (pst * pc) :=
  st ← pipeunlock st (r_pipe l);
  p ← deref st (r_pipe l);
  let st := if error =? 0 then store (r_pipe l) (set_atime now p) st else st in
  read_exit st l error.

(** A turn of the loop, with the pipe locked. *)
Definition read_loop (st : pst) (now : Z) (l : rd) : outcome (pst * pc) :=
  let a := r_pipe l in
  if r_resid l =? 0 then read_end st now l 0
  else
    p ← deref st a;
    let b := pipe_buffer p in
    if 0 <? cnt b then
      let n := s32 (size b - out b) in
      let n := if cnt b <? u32 n then s32 (cnt b) else n in
      let n := if r_resid l <? u64 n then s32 (r_resid l) else n in
      Ok (st, RMove l n)
    else if flag p PIPE_EOF then read_end st now l 0
    else
      st ← wake_wanted st a PIPE_WANTW;
      if 0 <? r_nread l then read_end st now l 0
      else
        st ← pipeunlock st a;
        if r_nonblock l then read_exit st l EAGAIN
        else
          p ← deref st a;
          Ok (store a (raise PIPE_WANTR p) st, RSleep l).

(** The bytes that [uiomovei] has moved to the user from the buffer at [o]. *)
Definition give (k o : Z) (m : list Z) (l : rd) : rd :=
  Rd (r_pipe l) (r_nonblock l) (r_resid l - k) (r_nread l)
    (r_data l ++ take (Z.to_nat k) (drop (Z.to_nat o) m)).

(** What follows [uiomovei], which moved [n] bytes, or [k] before its error. *)
Definition read_moved (st : pst) (now tid : Z) (l : rd) (n error k : Z) : outcome (pst * pc) :=
  let a := r_pipe l in
  p ← deref st a;
  let b := pipe_buffer p in
  match buffer b with
  | None => Panic
  | Some m =>
      if negb (error =? 0) then read_end st now (give k (out b) m l) error
      else
        let l := give n (out b) m l in
        let o := u32 (out b + n) in
        let o := if size b <=? o then 0 else o in
        let c := u32 (cnt b - n) in
        let b' := if c =? 0 then Pipebuf c 0 0 (size b) (Some m)
                  else Pipebuf c (in_ b) o (size b) (Some m) in
        read_loop (tell (Got a tid (take (Z.to_nat n) (drop (Z.to_nat (out b)) m)))
                     (store a (set_buf b' p) st)) now
          (Rd a (r_nonblock l) (r_resid l) (s32 (r_nread l + n)) (r_data l))
  end.

(** The first [pipelock], and the second one, after the sleep. *)
Definition read_lock (st : pst) (now : Z) (l : rd) : outcome (pst * pc) :=
  let a := r_pipe l in
  r ← pipelock st a;
  let '(st, got) := r in
  if (got : bool) then
    p ← deref st a;
    read_loop (store a (set_busy (pipe_busy p + 1) p) st) now l
  else Ok (st, RLock l).

Definition read_relock (st : pst) (now : Z) (l : rd) : outcome (pst * pc) :=
  r ← pipelock st (r_pipe l);
  let '(st, got) := r in
  if (got : bool) then read_loop st now l else Ok (st, RRelock l).

Definition pipe_read (st : pst) (now a : Z) (nonblock : bool) (resid : Z) : outcome (pst * pc) :=
  read_lock st now (Rd a nonblock resid 0 []).

(** ** pipe_write *)

(** An error of the first [pipelock]. *)
Definition write_early (st : pst) (l : wr) (error : Z) : outcome (pst * pc) :=
  st ← leave st (w_pipe l) PIPE_WANTR false;
  Ok (st, Ret error (w_resid l) []).

(** From the end of the loop on. *)
Definition write_end (st : pst) (now : Z) (l : wr) (error : Z) : outcome (pst * pc) :=
  let a := w_pipe l in
  p ← deref st a;
  st ← leave st a PIPE_WANTR (0 <? cnt (pipe_buffer p));
  p ← deref st a;
  let c := cnt (pipe_buffer p) in
  let error := if (c =? 0) && (w_resid l =? 0) && (error =? EPIPE) then 0 else error in
  let st := if error =? 0 then store a (set_mtime now p) st else st in
  st ← if negb (c =? 0) then pipeselwakeup st a else Ok st;
  Ok (st, Ret error (w_resid l) []).

(** With the pipe locked; [retry] is the jump back to [retrywrite]. *)
Definition write_locked (retry : pst -> outcome (pst * pc)) (st : pst) (l : wr) (space : Z)
    : outcome (pst * pc) :=
  let a := w_pipe l in
  p ← deref st a;
  let b := pipe_buffer p in
  if u32 (size b - cnt b) <? u32 space then st ← pipeunlock st a; retry st
  else
    let n := if w_resid l <? u64 space then s32 (w_resid l) else space in
    let segsize := s32 (size b - in_ b) in
    let segsize := if n <? segsize then n else segsize in
    Ok (st, WMove l n segsize).

(** From [retrywrite] on. *)
Definition write_try (retry : pst -> outcome (pst * pc)) (st : pst) (now : Z) (l : wr)
    : outcome (pst * pc) :=
  let a := w_pipe l in
  p ← deref st a;
  if flag p PIPE_EOF then write_end st now l EPIPE
  else
    let b := pipe_buffer p in
    let space := s32 (size b - cnt b) in
    let space := if (u64 space <? w_resid l) && (w_orig l <=? PIPE_BUF) then 0 else space in
    if 0 <? space then
      r ← pipelock st a;
      let '(st, got) := r in
      if (got : bool) then write_locked retry st l space else Ok (st, WLock l space)
    else
      st ← wake_wanted st a PIPE_WANTR;
      if w_nonblock l then write_end st now l EAGAIN
      else
        st ← pipeselwakeup st a;
        p ← deref st a;
        Ok (store a (raise PIPE_WANTW p) st, WSleep l).

(** [fuel] bounds the jumps back. *)
Fixpoint write_retry (fuel : nat) (now : Z) (l : wr) (st : pst) : outcome (pst * pc) :=
  write_try (match fuel with
             | O => fun _ => Panic
             | S fuel' => write_retry fuel' now l
             end) st now l.

(** The jumps back that are enough: behind one the pipe is not locked. *)
Definition RETRIES : nat := 1.

(** A turn of the loop. *)
Definition write_loop (st : pst) (now : Z) (l : wr) : outcome (pst * pc) :=
  if w_resid l =? 0 then write_end st now l 0 else write_retry RETRIES now l st.

(** [pipeunlock] after a transfer, and the end of the turn. *)
Definition write_unlock (st : pst) (now : Z) (l : wr) (error : Z) : outcome (pst * pc) :=
  st ← pipeunlock st (w_pipe l);
  if negb (error =? 0) then write_end st now l error else write_loop st now l.

(** Both segments are in the buffer; [bs] are their bytes. *)
Definition write_commit (st : pst) (now tid : Z) (l : wr) (n segsize : Z) (bs : list Z)
    : outcome (pst * pc) :=
  let a := w_pipe l in
  p ← deref st a;
  let b := pipe_buffer p in
  let i := u32 (in_ b + n) in
  if (size b <=? i) && negb (i =? u32 (n - segsize + size b)) then Panic
  else
    let i := if size b <=? i then u32 (n - segsize) else i in
    let c := u32 (cnt b + n) in
    if size b <? c then Panic
    else write_unlock
           (tell (Put a tid bs) (store a (set_buf (Pipebuf c i (out b) (size b) (buffer b)) p) st))
           now l 0.

(** The bytes that [uiomovei] moved into the buffer at [i]. *)
Definition fill (st : pst) (a i : Z) (bs : list Z) : outcome pst :=
  p ← deref st a;
  let b := pipe_buffer p in
  match buffer b with
  | None => Panic
  | Some m => Ok (store a (set_buf (Pipebuf (cnt b) (in_ b) (out b) (size b)
                                      (Some (list_inserts (Z.to_nat i) bs m))) p) st)
  end.

(** [uio_resid -= n] *)
Definition less (n : Z) (l : wr) : wr :=
  Wr (w_pipe l) (w_file l) (w_nonblock l) (w_resid l - n) (w_orig l).

(** What follows the first [uiomovei]. *)
Definition write_moved (st : pst) (now tid : Z) (l : wr) (n segsize error : Z) (bs : list Z)
    : outcome (pst * pc) :=
  let a := w_pipe l in
  p ← deref st a;
  let b := pipe_buffer p in
  st ← fill st a (in_ b) bs;
  let l := less (Z.of_nat (length bs)) l in
  if negb (error =? 0) then write_unlock st now l error
  else if segsize <? n then
    if negb (u32 (in_ b + segsize) =? size b) then Panic
    else Ok (st, WMove2 l n segsize bs)
  else write_commit st now tid l n segsize bs.

(** What follows the second one. *)
Definition write_moved2 (st : pst) (now tid : Z) (l : wr) (n segsize : Z) (seg : list Z) (error : Z)
    (bs : list Z) : outcome (pst * pc) :=
  st ← fill st (w_pipe l) 0 bs;
  let l := less (Z.of_nat (length bs)) l in
  if negb (error =? 0) then write_unlock st now l error
  else write_commit st now tid l n segsize (seg ++ bs).

(** From the start of the loop on. *)
Definition write_begin (st : pst) (now : Z) (l : wr) : outcome (pst * pc) :=
  write_loop st now (Wr (w_pipe l) (w_file l) (w_nonblock l) (w_resid l) (s32 (w_resid l))).

(** The resize, when the memory has come. *)
Definition write_alloc (st : pst) (now : Z) (l : wr) (mem : option (list Z)) : outcome (pst * pc) :=
  let a := w_pipe l in
  r ← pipespace st a BIG_PIPE_SIZE mem;
  let '(st, error) := r in
  let st := if error =? 0
            then Pst (pipes st) (nbigpipe st + 1) (amountpipekva st) (threads st) (log st) else st in
  st ← pipeunlock st a;
  write_begin st now l.

Definition write_grow (st : pst) (l : wr) : outcome (pst * pc) :=
  r ← pipelock st (w_pipe l);
  let '(st, got) := r in
  Ok (st, if (got : bool) then WAlloc l else WGrow l).

Definition pipe_write (st : pst) (now a : Z) (nonblock : bool) (resid : Z) : outcome (pst * pc) :=
  rpipe ← deref st a;
  match pipe_peer rpipe with
  | None => Ok (st, Ret EPIPE resid [])
  | Some w =>
      p ← deref st w;
      if flag p PIPE_EOF then Ok (st, Ret EPIPE resid [])
      else
        let st := store w (set_busy (pipe_busy p + 1) p) st in
        let l := Wr w a nonblock resid 0 in
        if (PIPE_SIZE <? resid) && (nbigpipe st <? LIMITBIGPIPES) &&
           (size (pipe_buffer p) <=? PIPE_SIZE) && (cnt (pipe_buffer p) =? 0)
        then write_grow st l
        else write_begin st now l
  end.

(** ** pipeclose *)

Definition close_done (st : pst) (a : Z) : outcome (pst * pc) :=
  p ← deref st a;
  st ← match pipe_peer p with
       | None => Ok st
       | Some b =>
           st ← pipeselwakeup st b;
           q ← deref st b;
           let st := wakeup b (store b (raise PIPE_EOF q) st) in
           q ← deref st b;
           Ok (store b (set_peer None q) st)
       end;
  st ← pipe_free_kmem st a;
  Ok (Pst (delete a (pipes st)) (nbigpipe st) (amountpipekva st) (threads st) (log st), Ret 0 0 []).

(** A turn of the loop that waits for the other side. *)
Definition close_wait (st : pst) (a : Z) : outcome (pst * pc) :=
  p ← deref st a;
  if negb (pipe_busy p =? 0)
  then Ok (store a (raise PIPE_WANT p) (wakeup a st), CWait a)
  else close_done st a.

Definition pipeclose (st : pst) (a : Z) : outcome (pst * pc) :=
  st ← pipeselwakeup st a;
  p ← deref st a;
  close_wait (store a (raise PIPE_EOF p) st) a.

(** The part of [dopipe] that makes the two pipes and joins them, from
    structures at [a] and [b]. *)
Definition dopipe_pipes (st : pst) (now a b : Z) (olda oldb : pipe) (mema memb : option (list Z))
    : outcome (pst * Z) :=
  r ← pipe_create st now a olda mema;
  let '(st, error) := r in
  if negb (error =? 0) then r ← pipeclose st a; Ok (r.1, error)
  else
    r ← pipe_create st now b oldb memb;
    let '(st, error) := r in
    if negb (error =? 0) then
      r ← pipeclose st b;
      r ← pipeclose r.1 a;
      Ok (r.1, error)
    else
      p ← deref st a;
      let st := store a (set_peer (Some b) p) st in
      q ← deref st b;
      Ok (tell (Opened a b) (store b (set_peer (Some a) q) st), 0).

(** ** Threads *)

(** What a thread does next with [x]; a thread that was not woken up goes on
    only with an error, and [pipeclose] ignores signals. *)
Definition resume (st : pst) (now tid : Z) (t : thread) (x : input) : option (outcome (pst * pc)) :=
  let woken error := negb (error =? 0) || t_awake t in
  match t_pc t, x with
  | RLock l, Wakes e =>
      if negb (woken e) then None
      else Some (if negb (e =? 0) then Ok (st, Ret e (r_resid l) (r_data l)) else read_lock st now l)
  | RMove l n, CopyOut e k => Some (read_moved st now tid l n e k)
  | RSleep l, Wakes e | RRelock l, Wakes e =>
      if negb (woken e) then None
      else Some (if negb (e =? 0) then read_exit st l e else read_relock st now l)
  | WGrow l, Wakes e =>
      if negb (woken e) then None
      else Some (if negb (e =? 0) then write_early st l e else write_grow st l)
  | WAlloc l, Memory mem => Some (write_alloc st now l mem)
  | WLock l space, Wakes e =>
      if negb (woken e) then None
      else Some (if negb (e =? 0) then write_end st now l e
                 else r ← pipelock st (w_pipe l);
                      let '(st, got) := r in
                      if (got : bool) then write_locked (write_retry RETRIES now l) st l space
                      else Ok (st, WLock l space))
  | WMove l n segsize, CopyIn e bs => Some (write_moved st now tid l n segsize e bs)
  | WMove2 l n segsize seg, CopyIn e bs => Some (write_moved2 st now tid l n segsize seg e bs)
  | WSleep l, Wakes e =>
      if negb (woken e) then None
      else Some (if negb (e =? 0) then write_end st now l e
                 else p ← deref st (w_pipe l);
                      if flag p PIPE_EOF then write_end st now l EPIPE else write_loop st now l)
  | CWait a, Wakes e =>
      if negb (t_awake t) || negb (e =? 0) then None else Some (close_wait st a)
  | _, _ => None
  end.

(** The thread stops at its next place, or its call has returned. *)
Definition land (tid : Z) (r : outcome (pst * pc)) : outcome (pst * option pc) :=
  r ← r;
  let '(st, l) := r in
  match l with
  | Ret _ _ _ => Ok (st, Some l)
  | _ => Ok (set_threads <[tid := Thread l false]> st, None)
  end.

(** ** ioctl(2), poll(2), fstat(2) and kevent(2) *)

(** The commands of [pipe_ioctl]; the encodings of sys/ioccom.h are those of
    sys/filio.h and sys/sockio.h. *)
Definition FIONREAD : Z := 0x4004667f.
Definition FIONBIO : Z := 0x8004667e.
Definition FIOASYNC : Z := 0x8004667d.
Definition SIOCSPGRP : Z := 0x80047308.
Definition SIOCGPGRP : Z := 0x40047309.

(** Returns the state, the error and the value of [*data]. *)
Definition pipe_ioctl (st : pst) (a cmd data : Z) : outcome (pst * Z * Z) :=
  p ← deref st a;
  if cmd =? FIONBIO then Ok (st, 0, data)
  else if cmd =? FIOASYNC then
    Ok (store a (if negb (data =? 0) then raise PIPE_ASYNC p else lower PIPE_ASYNC p) st, 0, data)
  else if cmd =? FIONREAD then Ok (st, 0, s32 (cnt (pipe_buffer p)))
  else if cmd =? SIOCSPGRP then Ok (store a (set_pgid data p) st, 0, data)
  else if cmd =? SIOCGPGRP then Ok (st, 0, pipe_pgid p)
  else Ok (st, ENOTTY, data).

(** [wpipe == NULL || (wpipe->pipe_state & PIPE_EOF)] *)
Definition peer_gone (st : pst) (rpipe : pipe) : outcome bool :=
  match pipe_peer rpipe with
  | None => Ok true
  | Some w => p ← deref st w; Ok (flag p PIPE_EOF)
  end.

(** The events that hold now. *)
Definition poll_revents (st : pst) (rpipe : pipe) (events : Z) : outcome Z :=
  let inp := POLLIN .| POLLRDNORM in
  let outp := POLLOUT .| POLLWRNORM in
  let revents := if has events inp && ((0 <? cnt (pipe_buffer rpipe)) || flag rpipe PIPE_EOF)
                 then events .& inp else 0 in
  gone ← peer_gone st rpipe;
  if flag rpipe PIPE_EOF || gone then Ok (revents .| POLLHUP)
  else if has events outp then
    match pipe_peer rpipe with
    | None => Panic
    | Some w =>
        p ← deref st w;
        Ok (if PIPE_BUF <=? u32 (size (pipe_buffer p) - cnt (pipe_buffer p))
            then revents .| (events .& outp) else revents)
    end
  else Ok revents.

(** [selrecord] for the thread, and PIPE_SEL. *)
Definition select_on (st : pst) (tid a : Z) : outcome pst :=
  p ← deref st a;
  Ok (store a (raise PIPE_SEL p) (tell (Selrecord tid a) st)).

Definition pipe_poll (st : pst) (tid a events : Z) : outcome (pst * Z) :=
  rpipe ← deref st a;
  revents ← poll_revents st rpipe events;
  if negb (revents =? 0) then Ok (st, revents)
  else
    st ← if has events (POLLIN .| POLLRDNORM) then select_on st tid a else Ok st;
    st ← if has events (POLLOUT .| POLLWRNORM)
         then match pipe_peer rpipe with None => Panic | Some w => select_on st tid w end
         else Ok st;
    Ok (st, revents).

(** The members of [struct stat] that [pipe_stat] sets from the pipe. *)
Record stat := Stat {
  st_mode : Z;
  st_blksize : Z;
  st_size : Z;
  st_blocks : Z;
  st_atim : Z;
  st_mtim : Z;
  st_ctim : Z;
  st_uid : Z;
  st_gid : Z;
}.

Definition pipe_stat (st : pst) (a cr_uid cr_gid : Z) : outcome stat :=
  p ← deref st a;
  let b := pipe_buffer p in
  Ok (Stat S_IFIFO (size b) (cnt b) ((cnt b + size b - 1) / size b) (pipe_atime p) (pipe_mtime p)
        (pipe_ctime p) cr_uid cr_gid).

(** [kn] is the address of the knote. *)
Definition pipe_kqfilter (st : pst) (a kn kn_filter : Z) : outcome (pst * Z) :=
  rpipe ← deref st a;
  let attach st x := p ← deref st x; Ok (store x (set_notes (kn :: pipe_notes p) p) st, 0) in
  if kn_filter =? EVFILT_READ then attach st a
  else if kn_filter =? EVFILT_WRITE then
    match pipe_peer rpipe with None => Ok (st, EPIPE) | Some w => attach st w end
  else Ok (st, EINVAL).

Definition filt_pipedetach (st : pst) (a kn kn_filter : Z) : outcome pst :=
  rpipe ← deref st a;
  let detach st x :=
    p ← deref st x;
    if bool_decide (kn ∈ pipe_notes p)
    then Ok (store x (set_notes (filter (fun k => k <> kn) (pipe_notes p)) p) st) else Panic in
  if kn_filter =? EVFILT_READ then detach st a
  else if kn_filter =? EVFILT_WRITE then
    match pipe_peer rpipe with None => Ok st | Some w => detach st w end
  else Ok st.

(** These return whether the event holds, [kn_data], and EV_EOF. *)
Definition filt_piperead (st : pst) (a : Z) : outcome (bool * Z * bool) :=
  rpipe ← deref st a;
  let kn_data := cnt (pipe_buffer rpipe) in
  gone ← peer_gone st rpipe;
  if flag rpipe PIPE_EOF || gone then Ok (true, kn_data, true)
  else Ok (0 <? kn_data, kn_data, false).

Definition filt_pipewrite (st : pst) (a : Z) : outcome (bool * Z * bool) :=
  rpipe ← deref st a;
  gone ← peer_gone st rpipe;
  if (gone : bool) then Ok (true, 0, true)
  else match pipe_peer rpipe with
       | None => Panic
       | Some w =>
           p ← deref st w;
           let kn_data := u32 (size (pipe_buffer p) - cnt (pipe_buffer p)) in
           Ok (PIPE_BUF <=? kn_data, kn_data, false)
       end.

End Pipe.
