(* ===== verification/PipeRing.v ===== *)
(** * The ring buffer of a pipe

    What a buffer holds: [cnt] bytes from [out] on, around the end of the
    memory.  Taking bytes at [out] and putting bytes at [in], in one or two
    segments, are the operations of a queue. *)

From S2P Require Import Prelude Pipe.
Import Pipe.

Module PipeRing.

(** Case on the comparisons of the goal and of the hypotheses. *)
Ltac case_cmp :=
  repeat match goal with
  | |- context [(?a <=? ?b)%nat] => destruct (Nat.leb_spec a b)
  | |- context [(?a <? ?b)%nat] => destruct (Nat.ltb_spec a b)
  | H : context [(?a <? ?b)%nat] |- _ => destruct (Nat.ltb_spec a b)
  | |- context [?a <=? ?b] => destruct (Z.leb_spec a b)
  | |- context [?a <? ?b] => destruct (Z.ltb_spec a b)
  | H : context [?a <? ?b] |- _ => destruct (Z.ltb_spec a b)
  end; simpl in *.

Section ring.
#[local] Open Scope nat_scope.
Implicit Types m bs : list Z.

(** The place [x] bytes behind the start of the memory. *)
Definition pos (m : list Z) (x : nat) : nat := if x <? length m then x else x - length m.

Definition ring (m : list Z) (o c : nat) : list Z := take c (drop o (m ++ m)).

Lemma ring_lookup m o c k :
  o < length m -> c <= length m -> k < c -> ring m o c !! k = m !! pos m (o + k).
Proof.
  intros Ho Hc Hk. unfold ring, pos. rewrite lookup_take_lt, lookup_drop by done.
  destruct (Nat.ltb_spec (o + k) (length m)).
  - by rewrite lookup_app_l.
  - by rewrite lookup_app_r.
Qed.

Lemma ring_length m o c : o < length m -> c <= length m -> length (ring m o c) = c.
Proof. intros Ho Hc. unfold ring. rewrite length_take, length_drop, length_app. lia. Qed.

(** Equality of what two memories hold, place by place. *)
Lemma ring_ext m o c l :
  o < length m -> c <= length m -> length l = c ->
  (forall k, k < c -> m !! pos m (o + k) = l !! k) -> ring m o c = l.
Proof.
  intros Ho Hc Hl H. apply list_eq. intros k. destruct (decide (k < c)).
  - rewrite ring_lookup by done. by apply H.
  - rewrite !lookup_ge_None_2; [done|lia|]. rewrite ring_length by done. lia.
Qed.

(** Taking bytes that lie in one piece. *)
Lemma ring_take m o c n :
  o < length m -> c <= length m -> n <= c -> o + n <= length m ->
  ring m o c = take n (drop o m) ++ ring m (if length m <=? o + n then 0 else o + n) (c - n).
Proof.
  intros Ho Hc Hn Hon. unfold ring.
  rewrite <- (take_drop n (take c (drop o (m ++ m)))). rewrite take_take, Nat.min_l by done. f_equal.
  - rewrite drop_app_le by lia. rewrite take_app_le; [done|]. rewrite length_drop. lia.
  - rewrite skipn_firstn_comm, drop_drop.
    destruct (Nat.leb_spec (length m) (o + n)) as [Hge|Hlt].
    + replace (o + n) with (length m) by lia. rewrite drop_app_length, drop_0.
      rewrite take_app_le by lia. done.
    + done.
Qed.

(** Where a byte comes from after bytes were put at [i]. *)
Lemma lookup_inserts m bs i k :
  i + length bs <= length m ->
  list_inserts i bs m !! k =
    if (i <=? k) && (k <? i + length bs) then bs !! (k - i) else m !! k.
Proof.
  intros Hl. destruct (Nat.leb_spec i k), (Nat.ltb_spec k (i + length bs)); simpl.
  - rewrite list_lookup_inserts; [done|lia|lia].
  - by rewrite list_lookup_inserts_ge by lia.
  - by rewrite list_lookup_inserts_lt by lia.
  - by rewrite list_lookup_inserts_lt by lia.
Qed.

(** Putting bytes behind those held, in one piece or around the end. *)
Lemma ring_put m o c bs1 bs2 :
  o < length m -> c + length bs1 + length bs2 <= length m ->
  (bs2 = [] \/ pos m (o + c) + length bs1 = length m) ->
  pos m (o + c) + length bs1 <= length m ->
  ring (list_inserts 0 bs2 (list_inserts (pos m (o + c)) bs1 m)) o (c + length bs1 + length bs2) =
    ring m o c ++ bs1 ++ bs2.
Proof.
  intros Ho Hc H2 H1. set (m' := list_inserts _ _ _).
  assert (Hl1 : length (list_inserts (pos m (o + c)) bs1 m) = length m) by apply length_inserts.
  assert (Hl : length m' = length m) by (unfold m'; by rewrite length_inserts).
  apply ring_ext; [lia|lia|rewrite !length_app, ring_length by lia; lia|].
  intros k Hk. unfold m'. rewrite lookup_inserts by (rewrite Hl1; lia).
  rewrite lookup_inserts by done. fold m'. unfold pos. rewrite Hl. unfold pos in H1, H2.
  destruct (decide (k < c)) as [Hlt|Hge].
  - rewrite lookup_app_l by (rewrite ring_length; lia). rewrite ring_lookup by lia. unfold pos.
    destruct H2 as [->|]; case_cmp; done || lia.
  - rewrite lookup_app_r, ring_length by (rewrite ?ring_length; lia).
    destruct (decide (k - c < length bs1)).
    + rewrite lookup_app_l by done. destruct H2 as [->|]; case_cmp; (f_equal; lia) || lia.
    + rewrite lookup_app_r by lia.
      destruct H2 as [->|H2]; [simpl in *; lia|]. case_cmp; (f_equal; lia) || lia.
Qed.

(** [bs] lies in the memory at [i]. *)
Definition lies (m : list Z) (i : nat) (bs : list Z) : Prop :=
  forall k x, bs !! k = Some x -> m !! (i + k) = Some x.

Lemma inserts_lies m i bs : i + length bs <= length m -> lies m i bs -> list_inserts i bs m = m.
Proof.
  intros Hl Hm. apply list_eq. intros k. rewrite lookup_inserts by done.
  destruct (Nat.leb_spec i k), (Nat.ltb_spec k (i + length bs)); simpl; try done.
  destruct (lookup_lt_is_Some_2 bs (k - i) ltac:(lia)) as [x Hx]. rewrite Hx. symmetry.
  replace k with (i + (k - i)) by lia. by apply Hm.
Qed.

Lemma lies_inserts m i bs : i + length bs <= length m -> lies (list_inserts i bs m) i bs.
Proof.
  intros Hl k x Hx. pose proof (lookup_lt_Some _ _ _ Hx). rewrite lookup_inserts by done.
  rewrite (proj2 (Nat.leb_le _ _)), (proj2 (Nat.ltb_lt _ _)) by lia. simpl.
  by replace (i + k - i) with k by lia.
Qed.

Lemma lies_other m i bs j bs' :
  lies m i bs -> j + length bs' <= length m -> j + length bs' <= i \/ i + length bs <= j ->
  lies (list_inserts j bs' m) i bs.
Proof.
  intros Hm Hl Hd k x Hx. pose proof (lookup_lt_Some _ _ _ Hx). rewrite lookup_inserts by done.
  destruct (Nat.leb_spec j (i + k)), (Nat.ltb_spec (i + k) (j + length bs')); simpl; try lia; by apply Hm.
Qed.

End ring.

(** ** The buffer of a pipe *)

(** A buffer is in order. *)
Record buf_ok (b : pipebuf) (m : list Z) : Prop := BufOk {
  bo_mem : buffer b = Some m;
  bo_len : Z.of_nat (length m) = size b;
  bo_size : size b = PIPE_SIZE \/ size b = BIG_PIPE_SIZE;
  bo_cnt : 0 <= cnt b <= size b;
  bo_out : 0 <= out b < size b;
  bo_in : in_ b = if out b + cnt b <? size b then out b + cnt b else out b + cnt b - size b;
}.

(** What it holds. *)
Definition held (b : pipebuf) : list Z :=
  match buffer b with
  | Some m => ring m (Z.to_nat (out b)) (Z.to_nat (cnt b))
  | None => []
  end.

Lemma size_bounds b m : buf_ok b m -> 0 < size b < 2 ^ 17.
Proof. intros [_ _ [->| ->] _ _ _]; unfold PIPE_SIZE, BIG_PIPE_SIZE; lia. Qed.

Lemma in_bounds b m : buf_ok b m -> 0 <= in_ b < size b.
Proof. intros [_ _ _ Hc Ho ->]. destruct (Z.ltb_spec (out b + cnt b) (size b)); lia. Qed.

Lemma held_length b m : buf_ok b m -> Z.of_nat (length (held b)) = cnt b.
Proof.
  intros [Hm Hl _ Hc Ho _]. unfold held. rewrite Hm, ring_length; lia.
Qed.

(** The buffer after [n] bytes were read, as the code computes it. *)
Definition after_read (b : pipebuf) (n : Z) : pipebuf :=
  let o := u32 (out b + n) in
  let o := if size b <=? o then 0 else o in
  let c := u32 (cnt b - n) in
  if c =? 0 then Pipebuf c 0 0 (size b) (buffer b) else Pipebuf c (in_ b) o (size b) (buffer b).

Lemma after_read_ok b m n :
  buf_ok b m -> 0 <= n <= cnt b -> out b + n <= size b ->
  buf_ok (after_read b n) m /\ size (after_read b n) = size b /\ cnt (after_read b n) = cnt b - n /\
  held b = take (Z.to_nat n) (drop (Z.to_nat (out b)) m) ++ held (after_read b n).
Proof.
  intros Hb Hn Hon. pose proof (size_bounds b m Hb) as Hs. pose proof Hb as [Hm Hl Hsz Hc Ho Hi].
  assert (E1 : u32 (out b + n) = out b + n) by (apply wrapu_small; unfold inu; lia).
  assert (E2 : u32 (cnt b - n) = cnt b - n) by (apply wrapu_small; unfold inu; lia).
  unfold after_read. rewrite E1, E2. unfold held. rewrite Hm.
  rewrite (ring_take m _ _ (Z.to_nat n)) by lia.
  replace (Z.to_nat (cnt b) - Z.to_nat n)%nat with (Z.to_nat (cnt b - n)) by lia.
  destruct (Z.eqb_spec (cnt b - n) 0) as [Hz|Hz].
  - split; [split; simpl; try done; try lia|]. { destruct (Z.ltb_spec (0 + (cnt b - n)) (size b)); lia. }
    split; [done|]. split; [done|]. simpl. rewrite Hz. unfold ring. simpl. by rewrite !take_0.
  - split; [split; simpl; try done; try lia|].
    + destruct (Z.leb_spec (size b) (out b + n)); lia.
    + rewrite Hi. case_cmp; lia.
    + split; [done|]. split; [done|]. simpl. do 2 f_equal.
      destruct (Z.leb_spec (size b) (out b + n)), (Nat.leb_spec (length m) (Z.to_nat (out b) + Z.to_nat n));
        lia.
Qed.

(** The buffer with bytes moved into its memory at [i], and with [n] of them
    counted, as the code computes it. *)
Definition with_mem (b : pipebuf) (m : list Z) : pipebuf :=
  Pipebuf (cnt b) (in_ b) (out b) (size b) (Some m).

Definition after_write (b : pipebuf) (n segsize : Z) : pipebuf :=
  let i := u32 (in_ b + n) in
  let i := if size b <=? i then u32 (n - segsize) else i in
  Pipebuf (u32 (cnt b + n)) i (out b) (size b) (buffer b).

(** Bytes moved into the free part do not change what a buffer holds. *)
Lemma fill_ok b m i bs :
  buf_ok b m -> 0 <= i -> i + Z.of_nat (length bs) <= size b ->
  buf_ok (with_mem b (list_inserts (Z.to_nat i) bs m)) (list_inserts (Z.to_nat i) bs m).
Proof.
  intros [Hm Hl Hsz Hc Ho Hi] H0 H1. split; simpl; try done. by rewrite length_inserts.
Qed.

Lemma in_pos b m : buf_ok b m -> pos m (Z.to_nat (out b) + Z.to_nat (cnt b)) = Z.to_nat (in_ b).
Proof.
  intros Hb. pose proof Hb as [Hm Hl Hsz Hc Ho Hi]. unfold pos. rewrite Hi.
  destruct (Z.ltb_spec (out b + cnt b) (size b)),
    (Nat.ltb_spec (Z.to_nat (out b) + Z.to_nat (cnt b)) (length m)); lia.
Qed.

Lemma fill_held b m bs1 bs2 :
  buf_ok b m -> cnt b + Z.of_nat (length bs1) + Z.of_nat (length bs2) <= size b ->
  in_ b + Z.of_nat (length bs1) <= size b ->
  (bs2 = [] \/ in_ b + Z.of_nat (length bs1) = size b) ->
  held (with_mem b (list_inserts 0 bs2 (list_inserts (Z.to_nat (in_ b)) bs1 m))) = held b.
Proof.
  intros Hb Hfit H1 H2. pose proof (in_bounds b m Hb) as Hin. pose proof (in_pos b m Hb) as Epos.
  pose proof Hb as [Hm Hl Hsz Hc Ho Hi]. unfold held, with_mem. simpl. rewrite Hm, <- Epos.
  set (m' := list_inserts 0 bs2 _).
  assert (Hput : ring m' (Z.to_nat (out b)) (Z.to_nat (cnt b) + length bs1 + length bs2) =
    ring m (Z.to_nat (out b)) (Z.to_nat (cnt b)) ++ bs1 ++ bs2).
  { apply ring_put; rewrite ?Epos; try lia. destruct H2 as [->|H2]; [by left|right; lia]. }
  assert (Hlen : length (ring m (Z.to_nat (out b)) (Z.to_nat (cnt b))) = Z.to_nat (cnt b)).
  { apply ring_length; lia. }
  transitivity (take (Z.to_nat (cnt b)) (ring m' (Z.to_nat (out b)) (Z.to_nat (cnt b) + length bs1 + length bs2))).
  - unfold ring. rewrite take_take. f_equal. lia.
  - rewrite Hput. by apply take_app_length'.
Qed.

Lemma after_write_ok b m n segsize bs1 bs2 :
  buf_ok b m -> Z.of_nat (length bs1) = segsize -> Z.of_nat (length (bs1 ++ bs2)) = n ->
  cnt b + n <= size b -> segsize = Z.min n (size b - in_ b) ->
  lies m (Z.to_nat (in_ b)) bs1 -> lies m 0 bs2 ->
  let b' := after_write b n segsize in
  buf_ok b' m /\ size b' = size b /\ cnt b' = cnt b + n /\ held b' = held b ++ bs1 ++ bs2.
Proof.
  intros Hb H1 H2 Hfit Hseg L1 L2. rewrite length_app in H2.
  pose proof (size_bounds b m Hb) as Hs. pose proof (in_bounds b m Hb) as Hin.
  pose proof (in_pos b m Hb) as Epos. pose proof Hb as [Hm Hl Hsz Hc Ho Hi].
  assert (E1 : u32 (in_ b + n) = in_ b + n) by (apply wrapu_small; unfold inu; lia).
  assert (E2 : u32 (cnt b + n) = cnt b + n) by (apply wrapu_small; unfold inu; lia).
  assert (E3 : u32 (n - segsize) = n - segsize) by (apply wrapu_small; unfold inu; lia).
  cbv zeta. unfold after_write. simpl. rewrite E1, E2, E3.
  split; [split; simpl; try done; try lia|].
  - rewrite Hi in *. case_cmp; lia.
  - split; [done|]. split; [done|]. unfold held. simpl. rewrite Hm.
    replace (Z.to_nat (cnt b + n)) with (Z.to_nat (cnt b) + length bs1 + length bs2)%nat by lia.
    rewrite <- ring_put; rewrite ?Epos; try lia.
    + rewrite !inserts_lies; rewrite ?inserts_lies; try done; lia.
    + destruct bs2; [by left|right]. simpl in *. lia.
Qed.

End PipeRing.
