(* ===== verification/PipeInv.v ===== *)
(** * Pipes: the invariant

    Each thread has a role: the pipe it works on, the pipe of the file it was
    called through, and whether it counts in [pipe_busy], holds the lock, or is
    bound to wake the other side.  The invariant relates the state of each pipe
    to the roles of all threads, among them the one that runs, and what a thread
    relies on while it stops to the state of its pipe.

    The threads that sleep and were not woken are covered by a flag of the pipe:
    that is what the wake-ups are for. *)

From S2P Require Import Prelude Pipe PipeRing.
Import Pipe PipeRing.

Module PipeInv.

(** ** Flags *)

Lemma flag_raise_eq f g p : has f g = true -> flag (raise f p) g = true.
Proof. intros H. unfold flag. simpl. rewrite flag_lor, H. apply orb_true_r. Qed.
Lemma flag_raise_ne f g p : has f g = false -> flag (raise f p) g = flag p g.
Proof. intros H. unfold flag. simpl. rewrite flag_lor, H. apply orb_false_r. Qed.
Lemma flag_lower_eq f g p : clear g f = 0 -> flag (lower f p) g = false.
Proof. intros H. unfold flag. simpl. rewrite flag_clear, H. unfold has. by rewrite Z.land_0_r. Qed.
Lemma flag_lower_ne f g p : clear g f = g -> flag (lower f p) g = flag p g.
Proof. intros H. unfold flag. simpl. by rewrite flag_clear, H. Qed.

(** Evaluates the flags of a changed pipe. *)
Ltac flags :=
  repeat match goal with
  | |- context [flag (raise ?f ?p) ?g] =>
      first [rewrite (flag_raise_ne f g p eq_refl) | rewrite (flag_raise_eq f g p eq_refl)]
  | |- context [flag (lower ?f ?p) ?g] =>
      first [rewrite (flag_lower_ne f g p eq_refl) | rewrite (flag_lower_eq f g p eq_refl)]
  | |- context [flag (set_buf ?b ?p) ?g] => change (flag (set_buf b p) g) with (flag p g)
  | |- context [flag (set_busy ?b ?p) ?g] => change (flag (set_busy b p) g) with (flag p g)
  | |- context [flag (set_peer ?b ?p) ?g] => change (flag (set_peer b p) g) with (flag p g)
  | |- context [flag (set_atime ?b ?p) ?g] => change (flag (set_atime b p) g) with (flag p g)
  | |- context [flag (set_mtime ?b ?p) ?g] => change (flag (set_mtime b p) g) with (flag p g)
  | |- context [flag (set_pgid ?b ?p) ?g] => change (flag (set_pgid b p) g) with (flag p g)
  | |- context [flag (set_notes ?b ?p) ?g] => change (flag (set_notes b p) g) with (flag p g)
  end.

(** ** Roles *)

Inductive kind := KR | KW | KC.
#[global] Instance kind_eq_dec : EqDecision kind.
Proof. solve_decision. Defined.

Record role := Role {
  ro_kind : kind;
  ro_pipe : Z;
  ro_file : Z;
  ro_busy : bool;
  ro_lock : bool;
  ro_act : bool;
}.

Definition role_of (l : pc) : role :=
  match l with
  | RLock l => Role KR (r_pipe l) (r_pipe l) false false false
  | RMove l _ => Role KR (r_pipe l) (r_pipe l) true true true
  | RSleep l | RRelock l => Role KR (r_pipe l) (r_pipe l) true false false
  | WGrow l | WSleep l => Role KW (w_pipe l) (w_file l) true false false
  | WAlloc l => Role KW (w_pipe l) (w_file l) true true false
  | WLock l _ => Role KW (w_pipe l) (w_file l) true false true
  | WMove l _ _ | WMove2 l _ _ _ => Role KW (w_pipe l) (w_file l) true true true
  | CWait a => Role KC a a false false false
  | Ret _ _ _ => Role KC 0 0 false false false
  end.

Definition roles (tm : gmap Z thread) : list role :=
  (fun kt => role_of (t_pc kt.2)) <$> map_to_list tm.

Fixpoint count (f : role -> bool) (l : list role) : Z :=
  match l with
  | [] => 0
  | r :: l' => (if f r then 1 else 0) + count f l'
  end.

Definition busy_on (a : Z) (r : role) : bool := ro_busy r && (ro_pipe r =? a).
Definition locks (a : Z) (r : role) : bool := ro_lock r && (ro_pipe r =? a).
Definition acts (k : kind) (a : Z) (r : role) : bool :=
  ro_act r && bool_decide (ro_kind r = k) && (ro_pipe r =? a).
Definition via (a : Z) (r : role) : bool := ro_file r =? a.
Definition closes (a : Z) (r : role) : bool := bool_decide (ro_kind r = KC) && (ro_pipe r =? a).

Lemma roles_nonneg f l : 0 <= count f l.
Proof. induction l as [|r l IH]; simpl; [lia|]. destruct (f r); lia. Qed.

Lemma count_perm f l l' : l ≡ₚ l' -> count f l = count f l'.
Proof. induction 1; simpl; lia. Qed.

Lemma roles_pos f l : 0 < count f l <-> exists r, r ∈ l /\ f r = true.
Proof.
  induction l as [|r l IH]; simpl.
  - split; [lia|]. by intros (r & Hr & _); apply not_elem_of_nil in Hr.
  - pose proof (roles_nonneg f l). destruct (f r) eqn:E.
    + split; [|lia]. intros _. exists r. split; [apply list_elem_of_here|done].
    + rewrite Z.add_0_l, IH. split; intros (x & Hx & Hf).
      * exists x. split; [by apply list_elem_of_further|done].
      * apply elem_of_cons in Hx as [->|Hx]; [congruence|]. by exists x.
Qed.

Lemma roles_insert tm tid t :
  tm !! tid = None -> roles (<[tid := t]> tm) ≡ₚ role_of (t_pc t) :: roles tm.
Proof. intros Hn. unfold roles. by rewrite map_to_list_insert. Qed.

Lemma roles_delete tm tid t :
  tm !! tid = Some t -> roles tm ≡ₚ role_of (t_pc t) :: roles (delete tid tm).
Proof.
  intros Ht. rewrite <- (insert_id tm tid t Ht) at 1. rewrite <- insert_delete_eq.
  by apply roles_insert, lookup_delete_eq.
Qed.

Lemma roles_elem tm r :
  r ∈ roles tm <-> exists tid t, tm !! tid = Some t /\ r = role_of (t_pc t).
Proof.
  unfold roles. rewrite list_elem_of_fmap. split.
  - intros ([tid t] & -> & Hin). exists tid, t. by apply elem_of_map_to_list in Hin.
  - intros (tid & t & Ht & ->). exists (tid, t). split; [done|]. by apply elem_of_map_to_list.
Qed.

Lemma wake_pc a t : t_pc (wake a t) = t_pc t.
Proof. unfold wake. by case_bool_decide. Qed.

Lemma roles_wake a tm : roles (wake a <$> tm) ≡ₚ roles tm.
Proof.
  unfold roles. rewrite map_to_list_fmap, <- list_fmap_compose.
  erewrite list_fmap_ext; [done|]. intros i [k t] _. simpl. by rewrite wake_pc.
Qed.

(** ** What a thread relies on *)

Definition rd_ok (l : rd) : Prop :=
  0 <= r_resid l /\ r_nread l + r_resid l < 2 ^ 31 /\ r_nread l = Z.of_nat (length (r_data l)).

(** [orig_resid] is what was asked for; a write that must be atomic has put
    nothing yet. *)
Definition wr_ok (l : wr) : Prop :=
  0 <= w_resid l <= w_orig l /\ w_orig l < 2 ^ 31 /\
  (w_orig l <= PIPE_BUF -> w_resid l = w_orig l).

Definition grow_ok (l : wr) : Prop := PIPE_SIZE < w_resid l < 2 ^ 31.

(** The local variables, and the buffer for who holds the lock. *)
Definition local_at (p : pipe) (l : pc) : Prop :=
  let b := pipe_buffer p in
  match l with
  | RLock l => rd_ok l
  | RSleep l | RRelock l => rd_ok l /\ r_nread l = 0
  | RMove l n => rd_ok l /\ 0 < n <= cnt b /\ n <= r_resid l /\ out b + n <= size b
  | WGrow l => grow_ok l
  | WAlloc l => grow_ok l /\ cnt b = 0
  | WLock l space =>
      wr_ok l /\ 0 < w_resid l /\ 0 < space < 2 ^ 31 /\ (w_orig l <= PIPE_BUF -> w_resid l <= space)
  | WMove l n segsize =>
      wr_ok l /\ 0 < n <= w_resid l /\ cnt b + n <= size b /\ segsize = Z.min n (size b - in_ b) /\
      (w_orig l <= PIPE_BUF -> n = w_resid l)
  | WMove2 l n segsize seg =>
      0 <= w_resid l /\ w_resid l + segsize <= w_orig l < 2 ^ 31 /\
      Z.of_nat (length seg) = segsize /\ segsize < n <= w_resid l + segsize /\
      cnt b + n <= size b /\ segsize = size b - in_ b /\
      (exists m, buffer b = Some m /\ lies m (Z.to_nat (in_ b)) seg) /\
      (w_orig l <= PIPE_BUF -> n = w_orig l)
  | WSleep l => wr_ok l /\ 0 < w_resid l
  | CWait _ => True
  | Ret _ _ _ => False
  end.

(** What the pipe promises to a thread that sleeps and was not woken. *)
Definition asleep_at (p : pipe) (l : pc) : Prop :=
  match l with
  | RLock _ | RRelock _ | WGrow _ | WLock _ _ =>
      flag p PIPE_LOCK = true /\ flag p PIPE_LWANT = true
  | RSleep _ => flag p PIPE_WANTR = true /\ flag p PIPE_EOF = false
  | WSleep _ => flag p PIPE_WANTW = true /\ flag p PIPE_EOF = false
  | CWait _ => flag p PIPE_WANT = true /\ 0 < pipe_busy p
  | _ => True
  end.

Definition role_at (p : pipe) (r : role) : Prop :=
  match ro_kind r with
  | KR => ro_file r = ro_pipe r
  | KW => pipe_peer p = Some (ro_file r) /\ ro_busy r = true
  | KC => ro_file r = ro_pipe r /\ flag p PIPE_EOF = true
  end.

Definition role_ok (pm : gmap Z pipe) (r : role) : Prop :=
  exists p, pm !! ro_pipe r = Some p /\ role_at p r.

Record thread_ok (pm : gmap Z pipe) (t : thread) : Prop := ThreadOk {
  to_role : role_ok pm (role_of (t_pc t));
  to_local : forall p, pm !! ro_pipe (role_of (t_pc t)) = Some p -> local_at p (t_pc t);
  to_asleep : forall p, pm !! ro_pipe (role_of (t_pc t)) = Some p -> t_awake t = false ->
    asleep_at p (t_pc t);
}.

(** ** The abstract specification: a queue of bytes for each pipe *)

Definition spec_step (q : gmap Z (list Z)) (e : event) : option (gmap Z (list Z)) :=
  match e with
  | Opened a b => Some (<[a := []]> (<[b := []]> q))
  | Put a _ bs => l ← q !! a; Some (<[a := l ++ bs]> q)
  | Got a _ bs =>
      l ← q !! a;
      if bool_decide (take (length bs) l = bs) then Some (<[a := drop (length bs) l]> q) else None
  | _ => Some q
  end.

Definition spec_run (evs : list event) : option (gmap Z (list Z)) :=
  foldl (fun q e => q ← q; spec_step q e) (Some ∅) evs.

Definition fifo_ok (st : pst) : Prop :=
  exists q, spec_run (log st) = Some q /\
    forall a p, pipes st !! a = Some p -> q !! a = Some (held (pipe_buffer p)).

(** ** The invariant *)

(** The number of roles, with those of [r]. *)
Definition tot (st : pst) (r : list role) (f : role -> bool) : Z :=
  count f r + count f (roles (threads st)).

Record pipe_ok (st : pst) (r : list role) (a : Z) (p : pipe) : Prop := PipeOk {
  po_buf : exists m, buf_ok (pipe_buffer p) m;
  po_busy : pipe_busy p = tot st r (busy_on a);
  po_lock : tot st r (locks a) = if flag p PIPE_LOCK then 1 else 0;
  po_wantr : flag p PIPE_WANTR = true -> 0 < cnt (pipe_buffer p) -> 0 < tot st r (acts KW a);
  po_wantw : flag p PIPE_WANTW = true -> cnt (pipe_buffer p) < MINPIPESIZE ->
    0 < tot st r (acts KR a);
}.

Definition big (p : pipe) : Z := if PIPE_SIZE <? size (pipe_buffer p) then 1 else 0.

Record inv (st : pst) (r : list role) : Prop := Inv {
  iv_pipe : forall a p, pipes st !! a = Some p -> pipe_ok st r a p;
  iv_peer : forall a p b, pipes st !! a = Some p -> pipe_peer p = Some b ->
    b <> a /\ exists q, pipes st !! b = Some q /\ pipe_peer q = Some a;
  iv_role : Forall (role_ok (pipes st)) r;
  iv_close : forall a, 0 < tot st r (closes a) -> tot st r (via a) = 1;
  iv_thr : forall tid t, threads st !! tid = Some t -> thread_ok (pipes st) t;
  iv_big : nbigpipe st = msum big (pipes st);
  iv_kva : amountpipekva st = msum (fun p => size (pipe_buffer p)) (pipes st);
  iv_fifo : fifo_ok st;
}.

Lemma tot_wakeup a st r f : tot (wakeup a st) r f = tot st r f.
Proof. unfold tot. simpl. by rewrite (count_perm f _ _ (roles_wake a (threads st))). Qed.

Lemma tot_one st r f : tot st [r] f = (if f r then 1 else 0) + count f (roles (threads st)).
Proof. unfold tot. simpl. lia. Qed.

Lemma acts_mine st k a f b l : 0 < tot st [Role k a f b l true] (acts k a).
Proof.
  rewrite tot_one. pose proof (roles_nonneg (acts k a) (roles (threads st))).
  replace (acts k a (Role k a f b l true)) with true; [lia|].
  unfold acts. cbn. by rewrite bool_decide_true, Z.eqb_refl.
Qed.

(** ** One pipe changes *)

(** The change of a pipe that the running thread works on, with the event it
    emits, and a wake-up of those who sleep on it. *)
Definition told (e : option event) (st : pst) : pst :=
  match e with Some e => tell e st | None => st end.
Definition woke (wk : bool) (a : Z) (st : pst) : pst := if wk then wakeup a st else st.

Definition fifo_step (a : Z) (e : option event) (p p' : pipe) : Prop :=
  match e with
  | Some (Put b _ bs) => b = a /\ held (pipe_buffer p') = held (pipe_buffer p) ++ bs
  | Some (Got b _ bs) => b = a /\ held (pipe_buffer p) = bs ++ held (pipe_buffer p')
  | Some (Opened _ _) => False
  | _ => held (pipe_buffer p') = held (pipe_buffer p)
  end.

Lemma fifo_update st a e p p' :
  fifo_ok st -> pipes st !! a = Some p -> fifo_step a e p p' ->
  fifo_ok (store a p' (told e st)).
Proof.
  intros (q & Hq & Hh) Ha He.
  assert (Hcase : exists q', spec_run (log (told e st)) = Some q' /\
    q' !! a = Some (held (pipe_buffer p')) /\ forall b, b <> a -> q' !! b = q !! b).
  { pose proof (Hh a p Ha) as Hqa. destruct e as [e|]; [|by exists q; rewrite He, <- Hqa].
    assert (Hr : spec_run (log (told (Some e) st)) = spec_step q e).
    { simpl. unfold spec_run in *. by rewrite foldl_app, Hq. }
    rewrite Hr. destruct e; simpl in He; try (by exists q; simpl; rewrite He, <- Hqa); try done.
    - destruct He as [-> He]. simpl. rewrite Hqa. simpl. eexists. split; [done|].
      rewrite lookup_insert_eq, He. split; [done|]. intros b Hb. by rewrite lookup_insert_ne.
    - destruct He as [-> He]. simpl. rewrite Hqa, He. simpl. rewrite take_app_length.
      rewrite bool_decide_true by done. eexists. split; [done|].
      rewrite lookup_insert_eq, drop_app_length. split; [done|].
      intros b Hb. by rewrite lookup_insert_ne. }
  destruct Hcase as (q' & Hq' & Ha' & Hother). exists q'. split; [done|].
  intros b pb Hb. simpl in Hb. replace (pipes (told e st)) with (pipes st) in Hb by (by destruct e).
  destruct (decide (b = a)) as [->|Hne].
  - rewrite lookup_insert_eq in Hb. by injection Hb as <-.
  - rewrite lookup_insert_ne in Hb by done. rewrite Hother by done. by apply Hh.
Qed.

(** The roles of the running thread say nothing about other pipes. *)
Definition elsewhere (a : Z) (r r' : list role) : Prop :=
  forall b, b <> a ->
    count (busy_on b) r' = count (busy_on b) r /\ count (locks b) r' = count (locks b) r /\
    forall k, count (acts k b) r' = count (acts k b) r.

(** A thread keeps what it relies on when its pipe changes. *)
Lemma thread_ok_update wk pm a p p' t :
  pm !! a = Some p -> thread_ok pm t -> pipe_peer p' = pipe_peer p ->
  (flag p PIPE_EOF = true -> flag p' PIPE_EOF = true) ->
  (ro_pipe (role_of (t_pc t)) = a -> local_at p (t_pc t) -> local_at p' (t_pc t)) ->
  (wk = false -> ro_pipe (role_of (t_pc t)) = a -> t_awake t = false ->
   asleep_at p (t_pc t) -> asleep_at p' (t_pc t)) ->
  thread_ok (<[a := p']> pm) (if (wk : bool) then wake a t else t).
Proof.
  intros Ha [(q & Hq & Hr) Hl Hs] Hp He Hloc Hasl.
  assert (Hpc : t_pc (if wk then wake a t else t) = t_pc t) by (destruct wk; [apply wake_pc|done]).
  split; rewrite Hpc.
  - destruct (decide (ro_pipe (role_of (t_pc t)) = a)) as [E|E].
    + exists p'. rewrite E, lookup_insert_eq. split; [done|].
      assert (q = p) as -> by congruence. unfold role_at in *. destruct (ro_kind _); [done| |naive_solver].
      by rewrite Hp.
    + exists q. by rewrite lookup_insert_ne.
  - intros x Hx. destruct (decide (ro_pipe (role_of (t_pc t)) = a)) as [E|E].
    + rewrite E, lookup_insert_eq in Hx. injection Hx as <-. apply Hloc; [done|]. apply Hl. by rewrite E.
    + rewrite lookup_insert_ne in Hx by done. by apply Hl.
  - intros x Hx Hw. destruct (decide (ro_pipe (role_of (t_pc t)) = a)) as [E|E].
    + rewrite E, lookup_insert_eq in Hx. injection Hx as <-. destruct wk.
      * assert (Hch : chan (t_pc t) = Some a \/ asleep_at p' (t_pc t)).
        { destruct (t_pc t); simpl in E |- *; rewrite ?E; (by left) || (by right). }
        destruct Hch as [Hch|Hch]; [|done]. unfold wake in Hw. by rewrite bool_decide_true in Hw.
      * apply Hasl; [done..|]. apply Hs; [by rewrite E|done].
    + rewrite lookup_insert_ne in Hx by done. apply Hs; [done|]. destruct wk; [|done].
      unfold wake in Hw. by case_bool_decide.
Qed.

(** The counters of the memory of all pipes, when a buffer is replaced. *)
Definition resized (st : pst) (p p' : pipe) : pst :=
  Pst (pipes st) (nbigpipe st - big p + big p')
    (amountpipekva st - size (pipe_buffer p) + size (pipe_buffer p')) (threads st) (log st).

Lemma inv_update_size wk e st r r' a p p' :
  inv st r -> pipes st !! a = Some p ->
  (exists m, buf_ok (pipe_buffer p') m) ->
  pipe_peer p' = pipe_peer p ->
  (flag p PIPE_EOF = true -> flag p' PIPE_EOF = true) ->
  fifo_step a e p p' -> elsewhere a r r' ->
  pipe_busy p' = pipe_busy p - count (busy_on a) r + count (busy_on a) r' ->
  (if flag p' PIPE_LOCK then 1 else 0) =
    (if flag p PIPE_LOCK then 1 else 0) - count (locks a) r + count (locks a) r' ->
  (flag p' PIPE_WANTR = true -> 0 < cnt (pipe_buffer p') -> 0 < tot st r' (acts KW a)) ->
  (flag p' PIPE_WANTW = true -> cnt (pipe_buffer p') < MINPIPESIZE -> 0 < tot st r' (acts KR a)) ->
  Forall (role_ok (<[a := p']> (pipes st))) r' ->
  (forall b, 0 < tot st r' (closes b) -> tot st r' (via b) = 1) ->
  (forall tid t, threads st !! tid = Some t -> ro_pipe (role_of (t_pc t)) = a ->
     local_at p (t_pc t) -> local_at p' (t_pc t)) ->
  (wk = false -> forall tid t, threads st !! tid = Some t -> ro_pipe (role_of (t_pc t)) = a ->
     t_awake t = false -> asleep_at p (t_pc t) -> asleep_at p' (t_pc t)) ->
  inv (resized (woke wk a (store a p' (told e st))) p p') r'.
Proof.
  intros [H1 H2 H3 H4 H5 H6 H7 H8] Ha Hbuf Hpeer Heof He Hels Hbusy Hlock Hwr Hww Hrole Hcl Hloc Hasl.
  assert (Et : forall f, tot (resized (woke wk a (store a p' (told e st))) p p') r' f = tot st r' f).
  { intros f. transitivity (tot (woke wk a (store a p' (told e st))) r' f); [done|].
    destruct wk; simpl; rewrite ?tot_wakeup; by destruct e. }
  assert (Ep : pipes (resized (woke wk a (store a p' (told e st))) p p') = <[a := p']> (pipes st)).
  { by destruct wk, e. }
  split.
  - intros b q Hb. rewrite Ep in Hb. destruct (decide (b = a)) as [->|Hne].
    + rewrite lookup_insert_eq in Hb. injection Hb as <-. destruct (H1 a p Ha) as [_ K2 K3 _ _].
      unfold tot in K2, K3. split; rewrite ?Et; try done; unfold tot; lia.
    + rewrite lookup_insert_ne in Hb by done. destruct (H1 b q Hb) as [K1 K2 K3 K4 K5].
      destruct (Hels b Hne) as (E1 & E2 & E3).
      split; rewrite ?Et; try done; unfold tot in *; rewrite ?E1, ?E2, ?E3; done.
  - intros b q c Hb Hc. rewrite Ep in *.
    assert (Hb' : exists q0, pipes st !! b = Some q0 /\ pipe_peer q0 = Some c).
    { destruct (decide (b = a)) as [->|Hne].
      - rewrite lookup_insert_eq in Hb. injection Hb as <-. exists p. by rewrite <- Hpeer.
      - rewrite lookup_insert_ne in Hb by done. by exists q. }
    destruct Hb' as (q0 & Hb0 & Hc0). destruct (H2 b q0 c Hb0 Hc0) as (Hne & x & Hx & Hxb).
    split; [done|]. destruct (decide (c = a)) as [->|Hca].
    + exists p'. rewrite lookup_insert_eq, Hpeer. split; [done|]. congruence.
    + exists x. by rewrite lookup_insert_ne.
  - by rewrite Ep.
  - intros b. rewrite !Et. apply Hcl.
  - intros tid t Ht. rewrite Ep.
    assert (Ht0 : exists t0, threads st !! tid = Some t0 /\ t = if wk then wake a t0 else t0).
    { destruct wk; simpl in Ht.
      - rewrite lookup_fmap in Ht. replace (threads (told e st)) with (threads st) in Ht by (by destruct e).
        destruct (threads st !! tid) as [t0|]; [|done]. injection Ht as <-. by exists t0.
      - replace (threads (told e st)) with (threads st) in Ht by (by destruct e). by exists t. }
    destruct Ht0 as (t0 & Ht0 & ->). apply (thread_ok_update wk _ a p); try done.
    + by apply (H5 tid).
    + by apply Hloc with tid.
    + intros ->. by apply Hasl with tid.
  - rewrite Ep, (msum_update _ _ _ p) by done. simpl. rewrite <- H6. by destruct wk, e.
  - rewrite Ep, (msum_update _ _ _ p) by done. simpl. rewrite <- H7. by destruct wk, e.
  - destruct wk; simpl; by apply (fifo_update st a e p).
Qed.

Lemma inv_update wk e st r r' a p p' :
  inv st r -> pipes st !! a = Some p ->
  (exists m, buf_ok (pipe_buffer p') m) ->
  size (pipe_buffer p') = size (pipe_buffer p) -> pipe_peer p' = pipe_peer p ->
  (flag p PIPE_EOF = true -> flag p' PIPE_EOF = true) ->
  fifo_step a e p p' -> elsewhere a r r' ->
  pipe_busy p' = pipe_busy p - count (busy_on a) r + count (busy_on a) r' ->
  (if flag p' PIPE_LOCK then 1 else 0) =
    (if flag p PIPE_LOCK then 1 else 0) - count (locks a) r + count (locks a) r' ->
  (flag p' PIPE_WANTR = true -> 0 < cnt (pipe_buffer p') -> 0 < tot st r' (acts KW a)) ->
  (flag p' PIPE_WANTW = true -> cnt (pipe_buffer p') < MINPIPESIZE -> 0 < tot st r' (acts KR a)) ->
  Forall (role_ok (<[a := p']> (pipes st))) r' ->
  (forall b, 0 < tot st r' (closes b) -> tot st r' (via b) = 1) ->
  (forall tid t, threads st !! tid = Some t -> ro_pipe (role_of (t_pc t)) = a ->
     local_at p (t_pc t) -> local_at p' (t_pc t)) ->
  (wk = false -> forall tid t, threads st !! tid = Some t -> ro_pipe (role_of (t_pc t)) = a ->
     t_awake t = false -> asleep_at p (t_pc t) -> asleep_at p' (t_pc t)) ->
  inv (woke wk a (store a p' (told e st))) r'.
Proof.
  intros Hi Ha Hbuf Hsz. intros. pose proof (inv_update_size wk e st r r' a p p') as H'.
  replace (woke wk a (store a p' (told e st))) with (resized (woke wk a (store a p' (told e st))) p p').
  - by apply H'.
  - unfold resized, big. rewrite Hsz, !Z.sub_add. by destruct wk, e.
Qed.

(** ** The running thread changes its pipe *)

Lemma local_at_buf p p' l : pipe_buffer p' = pipe_buffer p -> local_at p l -> local_at p' l.
Proof. unfold local_at. by intros ->. Qed.

Lemma local_at_free p p' l : ro_lock (role_of l) = false -> local_at p l -> local_at p' l.
Proof. by destruct l. Qed.

Lemma count_elem f l r : r ∈ l -> f r = true -> 1 <= count f l.
Proof. intros H1 H2. assert (0 < count f l); [|lia]. apply roles_pos. by exists r. Qed.

Lemma thread_role st tid t f :
  threads st !! tid = Some t -> f (role_of (t_pc t)) = true -> 1 <= count f (roles (threads st)).
Proof. intros Ht Hf. apply (count_elem f _ (role_of (t_pc t))); [|done]. apply roles_elem. by exists tid, t. Qed.

(** Who holds the lock is alone with the buffer. *)
Lemma lock_alone st k a f b c tid t :
  inv st [Role k a f b true c] -> threads st !! tid = Some t -> ro_pipe (role_of (t_pc t)) = a ->
  ro_lock (role_of (t_pc t)) = false.
Proof.
  intros Hi Ht Ha. destruct (ro_lock (role_of (t_pc t))) eqn:E; [|done]. exfalso.
  pose proof (iv_role _ _ Hi) as Hr. apply Forall_cons in Hr as [(p & Hp & _) _].
  pose proof (po_lock _ _ _ _ (iv_pipe _ _ Hi a p Hp)) as Hl. rewrite tot_one in Hl.
  replace (locks a (Role k a f b true c)) with true in Hl by (unfold locks; cbn; by rewrite Z.eqb_refl).
  pose proof (thread_role st tid t (locks a) Ht ltac:(unfold locks; by rewrite E, Ha, Z.eqb_refl)).
  destruct (flag p PIPE_LOCK); lia.
Qed.

Lemma elsewhere_mine k a f b1 l1 c1 b2 l2 c2 :
  elsewhere a [Role k a f b1 l1 c1] [Role k a f b2 l2 c2].
Proof.
  intros b Hb. unfold busy_on, locks, acts. cbn. rewrite (proj2 (Z.eqb_neq a b)) by done.
  rewrite !andb_false_r. split; [done|]. split; [done|]. intros k'. by rewrite !andb_false_r.
Qed.

Lemma closes_mine st k a f b1 l1 c1 b2 l2 c2 :
  inv st [Role k a f b1 l1 c1] ->
  forall b, 0 < tot st [Role k a f b2 l2 c2] (closes b) -> tot st [Role k a f b2 l2 c2] (via b) = 1.
Proof. intros Hi b. exact (iv_close _ _ Hi b). Qed.

Lemma inv_mine wk e st k a f b1 l1 c1 b2 l2 c2 p p' :
  inv st [Role k a f b1 l1 c1] -> pipes st !! a = Some p ->
  (exists m, buf_ok (pipe_buffer p') m) -> size (pipe_buffer p') = size (pipe_buffer p) ->
  (pipe_buffer p' = pipe_buffer p \/ l1 = true) -> fifo_step a e p p' ->
  pipe_peer p' = pipe_peer p -> (flag p PIPE_EOF = true -> flag p' PIPE_EOF = true) ->
  pipe_busy p' = pipe_busy p - Z.b2z b1 + Z.b2z b2 ->
  Z.b2z (flag p' PIPE_LOCK) = Z.b2z (flag p PIPE_LOCK) - Z.b2z l1 + Z.b2z l2 ->
  (flag p' PIPE_WANTR = true -> 0 < cnt (pipe_buffer p') ->
   0 < tot st [Role k a f b2 l2 c2] (acts KW a)) ->
  (flag p' PIPE_WANTW = true -> cnt (pipe_buffer p') < MINPIPESIZE ->
   0 < tot st [Role k a f b2 l2 c2] (acts KR a)) ->
  role_at p' (Role k a f b2 l2 c2) ->
  (wk = false -> forall l, asleep_at p l -> asleep_at p' l) ->
  inv (woke wk a (store a p' (told e st))) [Role k a f b2 l2 c2].
Proof.
  intros Hi Ha Hbuf Hsz Hsame He Hp Heof Hbusy Hlock Hr Hw Hrole Hasl.
  apply (inv_update wk e st [Role k a f b1 l1 c1] _ a p); try done.
  - apply elsewhere_mine.
  - unfold busy_on. cbn. rewrite Z.eqb_refl, !andb_true_r. destruct b1, b2; simpl in *; lia.
  - unfold locks. cbn. rewrite Z.eqb_refl, !andb_true_r.
    destruct l1, l2, (flag p PIPE_LOCK), (flag p' PIPE_LOCK); simpl in *; lia.
  - constructor; [|constructor]. exists p'. by rewrite lookup_insert_eq.
  - by eapply closes_mine.
  - intros tid t Ht Hta. destruct Hsame as [Hsame| ->]; [by apply local_at_buf|].
    apply local_at_free. by eapply lock_alone.
  - intros Hwk tid t Ht _ _. by apply Hasl.
Qed.

(** Flags and counters change, the buffer stays. *)
Lemma inv_my_flags wk st k a f b1 l1 c1 b2 l2 c2 p p' :
  inv st [Role k a f b1 l1 c1] -> pipes st !! a = Some p -> pipe_buffer p' = pipe_buffer p ->
  pipe_peer p' = pipe_peer p -> flag p' PIPE_EOF = flag p PIPE_EOF ->
  pipe_busy p' = pipe_busy p - Z.b2z b1 + Z.b2z b2 ->
  Z.b2z (flag p' PIPE_LOCK) = Z.b2z (flag p PIPE_LOCK) - Z.b2z l1 + Z.b2z l2 ->
  (flag p' PIPE_WANTR = true -> flag p PIPE_WANTR = true \/ cnt (pipe_buffer p) = 0) ->
  (flag p' PIPE_WANTW = true -> flag p PIPE_WANTW = true \/ MINPIPESIZE <= cnt (pipe_buffer p)) ->
  (c1 = true -> c2 = true) -> (k = KW -> b2 = true) ->
  (wk = false -> forall l, asleep_at p l -> asleep_at p' l) ->
  inv (woke wk a (store a p' st)) [Role k a f b2 l2 c2].
Proof.
  intros Hi Ha Hb Hp Heof Hbusy Hlock Hr Hw Hc Hk Hasl.
  assert (Hacts : forall k', 0 < tot st [Role k a f b1 l1 c1] (acts k' a) ->
    0 < tot st [Role k a f b2 l2 c2] (acts k' a)).
  { intros k'. unfold tot, acts. cbn. rewrite Z.eqb_refl, !andb_true_r.
    destruct c1; [rewrite Hc by done; done|]. cbn. intros H.
    destruct (c2 && bool_decide (k = k')); lia. }
  pose proof (iv_pipe _ _ Hi a p Ha) as [K1 K2 K3 K4 K5].
  apply (inv_mine wk None st k a f b1 l1 c1 b2 l2 c2 p p'); rewrite ?Hb, ?Heof; try done.
  - by left.
  - simpl. by rewrite Hb.
  - intros H1 H2. destruct (Hr H1) as [H|H]; [by apply Hacts, K4|lia].
  - intros H1 H2. destruct (Hw H1) as [H|H]; [by apply Hacts, K5|lia].
  - pose proof (iv_role _ _ Hi) as Hro. apply Forall_cons in Hro as [(q & Hq & Hro) _].
    cbn in Hq. assert (q = p) as -> by congruence. unfold role_at in *. cbn in *.
    destruct k; [done| |]; rewrite ?Hp, ?Heof; naive_solver.
Qed.

End PipeInv.
