(* ===== verification/PipeRun.v ===== *)
(** * Pipes: each piece of code keeps the invariant

    From the lock and the wake-ups to the pieces between two places where a
    thread stops: each of them ends without a panic, in a state that satisfies
    the invariant with the role of the place where the thread stops next. *)

From S2P Require Import Prelude Pipe PipeRing PipeInv.
Import Pipe PipeRing PipeInv.

Module PipeRun.

(** ** What the helpers leave alone *)

Definition is_move (e : event) : bool :=
  match e with Put _ _ _ | Got _ _ _ | Opened _ _ => true | _ => false end.
Definition moves (evs : list event) : list event := filter (fun e => is_move e = true) evs.

Lemma moves_app l l' : moves (l ++ l') = moves l ++ moves l'.
Proof. apply filter_app. Qed.

(** No bytes move and no thread comes or goes. *)
Record same (st st' : pst) : Prop := Same {
  sm_moves : moves (log st') = moves (log st);
  sm_tid : forall tid, threads st' !! tid = None <-> threads st !! tid = None;
}.

#[global] Instance same_pre : PreOrder same.
Proof.
  split.
  - by split.
  - intros x y z [H1 H2] [H3 H4]. split; [congruence|]. intros tid. by rewrite H4.
Qed.

Lemma same_store a p st : same st (store a p st).
Proof. by split. Qed.
Lemma same_tell e st : is_move e = false -> same st (tell e st).
Proof.
  intros He. split; [|done]. simpl. rewrite moves_app. unfold moves at 2. rewrite filter_cons_False.
  - by rewrite app_nil_r.
  - by rewrite He.
Qed.
Lemma same_wakeup a st : same st (wakeup a st).
Proof. split; [done|]. intros tid. simpl. rewrite lookup_fmap. by destruct (threads st !! tid). Qed.
Lemma same_woke wk a st : same st (woke wk a st).
Proof. destruct wk; [apply same_wakeup|done]. Qed.

(** The pipe is as before, up to the lock, PIPE_SEL and the flag [f]. *)
Record kept (f : Z) (p p' : pipe) : Prop := Kept {
  kp_buf : pipe_buffer p' = pipe_buffer p;
  kp_peer : pipe_peer p' = pipe_peer p;
  kp_busy : pipe_busy p' = pipe_busy p;
  kp_eof : flag p' PIPE_EOF = flag p PIPE_EOF;
  kp_wantr : f <> PIPE_WANTR -> flag p' PIPE_WANTR = flag p PIPE_WANTR;
  kp_wantw : f <> PIPE_WANTW -> flag p' PIPE_WANTW = flag p PIPE_WANTW;
  kp_want : flag p' PIPE_WANT = flag p PIPE_WANT;
}.

Lemma kept_refl f p : kept f p p.
Proof. by split. Qed.

(** The side conditions of a change of flags. *)
Ltac mine := try done; flags; try done; try (simpl; lia); auto.

(** ** Changes of the invariant alone *)

Lemma deref_eq st a p : pipes st !! a = Some p -> deref st a = Ok p.
Proof. unfold deref. by intros ->. Qed.

Lemma store_store a p q st : store a q (store a p st) = store a q st.
Proof. unfold store. simpl. by rewrite insert_insert_eq. Qed.

Lemma store_at a p st : pipes (store a p st) !! a = Some p.
Proof. apply lookup_insert_eq. Qed.

Lemma woke_at wk a p st : pipes (woke wk a (store a p st)) !! a = Some p.
Proof. destruct wk; apply lookup_insert_eq. Qed.

(** Members that no one relies on. *)
Lemma inv_quiet e st r a p p' :
  inv st r -> pipes st !! a = Some p -> pipe_buffer p' = pipe_buffer p ->
  pipe_peer p' = pipe_peer p -> pipe_busy p' = pipe_busy p ->
  (forall f, f ∈ [PIPE_WANTR; PIPE_WANTW; PIPE_WANT; PIPE_EOF; PIPE_LOCK; PIPE_LWANT] ->
     flag p' f = flag p f) ->
  match e with Some e => is_move e = false | None => True end ->
  inv (store a p' (told e st)) r.
Proof.
  intros Hi Ha Hb Hp Hbusy Hf He. pose proof (iv_pipe _ _ Hi a p Ha) as [K1 K2 K3 K4 K5].
  assert (Hall : Forall (fun f => flag p' f = flag p f)
    [PIPE_WANTR; PIPE_WANTW; PIPE_WANT; PIPE_EOF; PIPE_LOCK; PIPE_LWANT]).
  { apply Forall_forall. exact Hf. }
  apply Forall_cons in Hall as [F1 Hall]. apply Forall_cons in Hall as [F2 Hall].
  apply Forall_cons in Hall as [F3 Hall]. apply Forall_cons in Hall as [F4 Hall].
  apply Forall_cons in Hall as [F5 Hall]. apply Forall_cons in Hall as [F6 _].
  apply (inv_update false e st r r a p p'); rewrite ?Hb, ?F1, ?F2, ?F4, ?F5; try done.
  - destruct e as [[]|]; simpl in *; rewrite ?Hb; done.
  - lia.
  - destruct (flag p PIPE_LOCK); lia.
  - pose proof (iv_role _ _ Hi) as Hr. eapply Forall_impl; [exact Hr|].
    intros x (q & Hq & Hx). destruct (decide (ro_pipe x = a)) as [E|E].
    + exists p'. rewrite E, lookup_insert_eq. split; [done|]. assert (q = p) as -> by congruence.
      unfold role_at in *. destruct (ro_kind x); rewrite ?Hp, ?F4; done.
    + exists q. by rewrite lookup_insert_ne.
  - exact (iv_close _ _ Hi).
  - intros tid t Ht _. by apply local_at_buf.
  - intros _ tid t Ht _ _. destruct (t_pc t); simpl; rewrite ?F1, ?F2, ?F3, ?F4, ?F5, ?F6, ?Hbusy; done.
Qed.

(** The running thread is bound to wake the other side, or not any more. *)
Lemma inv_act_up st k a f b l : inv st [Role k a f b l false] -> inv st [Role k a f b l true].
Proof.
  intros Hi. pose proof (iv_role _ _ Hi) as Hr. apply Forall_cons in Hr as [(p & Hp & _) _].
  cbn in Hp. pose proof (inv_my_flags false st k a f b l false b l true p p Hi Hp) as H. simpl in H.
  unfold store in H. rewrite insert_id in H by done. destruct st. apply H; auto; try lia.
  pose proof (iv_role _ _ Hi) as Hr. apply Forall_cons in Hr as [(q & _ & Hr) _].
  intros ->. by destruct Hr.
Qed.

Lemma acts_down st k a f b l c k' :
  0 < tot st [Role k a f b l true] (acts k' a) -> k' <> k ->
  0 < tot st [Role k a f b l c] (acts k' a).
Proof.
  intros H Hk. rewrite tot_one in *. unfold acts at 1 in H. unfold acts at 1. cbn in *.
  rewrite bool_decide_false in * by done. rewrite andb_false_r. done.
Qed.

Lemma inv_act_down st k a f b l p :
  inv st [Role k a f b l true] -> pipes st !! a = Some p ->
  (k = KW -> flag p PIPE_WANTR = true -> cnt (pipe_buffer p) <= 0) ->
  (k = KR -> flag p PIPE_WANTW = true -> MINPIPESIZE <= cnt (pipe_buffer p)) ->
  inv st [Role k a f b l false].
Proof.
  intros Hi Hp Hw Hr. pose proof (iv_pipe _ _ Hi a p Hp) as [K1 K2 K3 K4 K5].
  pose proof (inv_mine false None st k a f b l true b l false p p Hi Hp K1) as H. simpl in H.
  unfold store in H. rewrite insert_id in H by done. destruct st. apply H; auto; try lia.
  - intros H1 H2. destruct (decide (k = KW)) as [->|Hk]; [by specialize (Hw eq_refl H1); lia|].
    eapply acts_down; [by apply K4|done].
  - intros H1 H2. destruct (decide (k = KR)) as [->|Hk]; [by specialize (Hr eq_refl H1); lia|].
    eapply acts_down; [by apply K5|done].
  - pose proof (iv_role _ _ Hi) as Hro. apply Forall_cons in Hro as [(q & Hq & Hro) _].
    cbn in Hq, Hp. by assert (q = p) as -> by congruence.
Qed.

(** The call of the running thread has returned. *)
Lemma close_drop st k a f b c x :
  inv st [Role k a f b false c] ->
  0 < tot st [] (closes x) -> tot st [] (via x) = 1.
Proof.
  intros Hi Hx. unfold tot in *. simpl in *.
  assert (Hthr : 1 <= count (via x) (roles (threads st))).
  { apply roles_pos in Hx as (r & Hr & Hc). apply (count_elem _ _ r); [done|].
    apply roles_elem in Hr as (tid & t & Ht & ->).
    destruct (to_role _ _ (iv_thr _ _ Hi tid t Ht)) as (p & _ & Hro).
    unfold closes in Hc. apply andb_true_iff in Hc as [Hk Hp]. apply bool_decide_eq_true in Hk.
    unfold role_at in Hro. rewrite Hk in Hro. destruct Hro as [Hro _]. unfold via. by rewrite Hro. }
  pose proof (iv_close _ _ Hi x) as H. rewrite !tot_one in H.
  destruct (closes x (Role k a f b false c)), (via x (Role k a f b false c)); lia.
Qed.

Lemma elsewhere_drop k a f b c : elsewhere a [Role k a f b false c] [].
Proof.
  intros x Hx. unfold busy_on, locks, acts. simpl. rewrite (proj2 (Z.eqb_neq a x)) by done.
  rewrite !andb_false_r. split; [done|]. split; [done|]. intros k'. by rewrite !andb_false_r.
Qed.

(** ** The helpers *)

Lemma lock_spec st k a f b c p :
  inv st [Role k a f b false c] -> pipes st !! a = Some p ->
  exists st' got p', pipelock st a = Ok (st', got) /\ inv st' [Role k a f b got c] /\
    pipes st' !! a = Some p' /\ kept 0 p p' /\ same st st' /\
    (got = false -> flag p' PIPE_LOCK = true /\ flag p' PIPE_LWANT = true) /\
    got = negb (flag p PIPE_LOCK).
Proof.
  intros Hi Ha. unfold pipelock. rewrite (deref_eq _ _ _ Ha). cbn [mbind outcome_bind].
  assert (Hk : k = KW -> b = true).
  { intros ->. pose proof (iv_role _ _ Hi) as Hr. by apply Forall_cons in Hr as [(q & _ & _ & Hr) _]. }
  destruct (flag p PIPE_LOCK) eqn:El.
  - exists (store a (raise PIPE_LWANT p) st), false, (raise PIPE_LWANT p). split; [done|].
    split; [|split; [apply store_at|split; [by split; intros; flags|split; [apply same_store|]]]].
    + apply (inv_my_flags false st k a f b false c b false c p); mine.
      intros _ []; simpl; flags; naive_solver.
    + split; [|done]. intros _. by flags.
  - exists (store a (raise PIPE_LOCK p) st), true, (raise PIPE_LOCK p). split; [done|].
    split; [|split; [apply store_at|split; [by split; intros; flags|split; [apply same_store|]]]].
    + apply (inv_my_flags false st k a f b false c b true c p); mine; rewrite ?El; mine.
      intros _ []; simpl; flags; rewrite ?El; naive_solver.
    + done.
Qed.

(** Not all of [wake_wanted], [leave] and [pipeunlock] wake someone up. *)
Lemma unlock_spec st k a f b c p :
  inv st [Role k a f b true c] -> pipes st !! a = Some p ->
  exists st' p', pipeunlock st a = Ok st' /\ inv st' [Role k a f b false c] /\
    pipes st' !! a = Some p' /\ kept 0 p p' /\ same st st'.
Proof.
  intros Hi Ha. unfold pipeunlock. rewrite (deref_eq _ _ _ Ha). cbn [mbind outcome_bind].
  assert (Hk : k = KW -> b = true).
  { intros ->. pose proof (iv_role _ _ Hi) as Hr. by apply Forall_cons in Hr as [(q & _ & _ & Hr) _]. }
  assert (Hl : flag p PIPE_LOCK = true).
  { pose proof (po_lock _ _ _ _ (iv_pipe _ _ Hi a p Ha)) as Hl. rewrite tot_one in Hl.
    replace (locks a (Role k a f b true c)) with true in Hl by (unfold locks; cbn; by rewrite Z.eqb_refl).
    pose proof (roles_nonneg (locks a) (roles (threads st))). destruct (flag p PIPE_LOCK); [done|lia]. }
  flags. destruct (flag p PIPE_LWANT) eqn:El.
  - exists (woke true a (store a (lower PIPE_LWANT (lower PIPE_LOCK p)) st)), (lower PIPE_LWANT (lower PIPE_LOCK p)).
    split; [done|].
    split; [|split; [apply woke_at|split; [by split; intros; flags|]]].
    + apply (inv_my_flags true st k a f b true c b false c p); mine; rewrite ?Hl; mine.
    + etransitivity; [apply same_store|apply same_wakeup].
  - exists (store a (lower PIPE_LOCK p) st), (lower PIPE_LOCK p). split; [done|].
    split; [|split; [apply store_at|split; [by split; intros; flags|apply same_store]]].
    apply (inv_my_flags false st k a f b true c b false c p); mine; rewrite ?Hl; mine.
    intros _ []; simpl; flags; rewrite ?Hl, ?El; naive_solver.
Qed.

Lemma wake_wanted_spec st k a f b l c g p :
  inv st [Role k a f b l c] -> pipes st !! a = Some p -> g = PIPE_WANTR \/ g = PIPE_WANTW ->
  exists st' p', wake_wanted st a g = Ok st' /\ inv st' [Role k a f b l c] /\
    pipes st' !! a = Some p' /\ kept g p p' /\ same st st' /\ flag p' g = false.
Proof.
  intros Hi Ha Hg. unfold wake_wanted. rewrite (deref_eq _ _ _ Ha). cbn [mbind outcome_bind].
  assert (Hk : k = KW -> b = true).
  { intros ->. pose proof (iv_role _ _ Hi) as Hr. by apply Forall_cons in Hr as [(q & _ & _ & Hr) _]. }
  destruct (flag p g) eqn:Eg; [|by exists st, p; split_and!; try done; apply kept_refl].
  exists (woke true a (store a (lower g p) st)), (lower g p). split; [done|].
  split; [|split; [apply woke_at|split; [|split]]].
  - apply (inv_my_flags true st k a f b l c b l c p); try done; destruct Hg as [-> | ->]; mine.
  - destruct Hg as [-> | ->]; split; intros; flags; done.
  - etransitivity; [apply same_store|apply same_wakeup].
  - destruct Hg as [-> | ->]; by flags.
Qed.

Lemma sel_spec st r a p :
  inv st r -> pipes st !! a = Some p ->
  exists st' p', pipeselwakeup st a = Ok st' /\ inv st' r /\
    pipes st' !! a = Some p' /\ kept 0 p p' /\ same st st' /\ threads st' = threads st /\
    (forall b, b <> a -> pipes st' !! b = pipes st !! b) /\
    nbigpipe st' = nbigpipe st.
Proof.
  intros Hi Ha. unfold pipeselwakeup. rewrite (deref_eq _ _ _ Ha). cbn [mbind outcome_bind].
  set (p' := if flag p PIPE_SEL then lower PIPE_SEL p else p).
  set (e := if flag p PIPE_SEL then Selwakeup a else Knote a).
  assert (Hst : (if flag p PIPE_SEL then tell (Selwakeup a) (store a (lower PIPE_SEL p) st)
                 else tell (Knote a) st) = store a p' (tell e st)).
  { unfold p', e, store, tell. destruct (flag p PIPE_SEL); simpl; [done|]. by rewrite insert_id. }
  rewrite Hst.
  assert (Hi' : inv (store a p' (told (Some e) st)) r).
  { apply (inv_quiet (Some e) st r a p); try done; unfold p', e; destruct (flag p PIPE_SEL); try done.
    - intros f. rewrite !elem_of_cons, elem_of_nil.
      intros [->|[->|[->|[->|[->|[->|[]]]]]]]; by flags. }
  assert (Hm : is_move e = false) by (unfold e; by destruct (flag p PIPE_SEL)).
  assert (Hk : kept 0 p p').
  { unfold p'. destruct (flag p PIPE_SEL); [|apply kept_refl]. split; intros; by flags. }
  assert (Hs : same st (store a p' (tell e st))).
  { etransitivity; [by apply (same_tell e)|apply same_store]. }
  destruct (flag p PIPE_ASYNC && negb (pipe_pgid p =? NO_PID)).
  - exists (store a p' (told (Some (Gsignal (pipe_pgid p))) (store a p' (tell e st)))), p'.
    split; [unfold store, tell; simpl; by rewrite insert_insert_eq|].
    split; [|split; [apply store_at|split; [done|split; [|split; [done|]]]]].
    + apply (inv_quiet _ _ r a p'); try done. apply store_at.
    + etransitivity; [exact Hs|]. simpl. etransitivity; [by apply (same_tell (Gsignal (pipe_pgid p)))|].
      apply same_store.
    + split; [|done]. intros b Hb. simpl. by rewrite !lookup_insert_ne.
  - exists (store a p' (tell e st)), p'. split; [done|]. split; [done|]. split; [apply store_at|].
    split; [done|]. split; [done|]. split; [done|]. split; [|done]. intros b Hb. simpl.
    by rewrite lookup_insert_ne.
Qed.

(** The end of a call: the thread does not count any more. *)
Lemma inv_leave wk st k a f c p p' :
  inv st [Role k a f true false c] -> pipes st !! a = Some p ->
  pipe_buffer p' = pipe_buffer p -> pipe_peer p' = pipe_peer p -> pipe_busy p' = pipe_busy p - 1 ->
  flag p' PIPE_EOF = flag p PIPE_EOF -> flag p' PIPE_LOCK = flag p PIPE_LOCK ->
  (flag p' PIPE_WANTR = true -> flag p PIPE_WANTR = true /\ (k = KW -> c = true -> cnt (pipe_buffer p) <= 0)) ->
  (flag p' PIPE_WANTW = true -> flag p PIPE_WANTW = true /\ (k = KR -> c = true -> MINPIPESIZE <= cnt (pipe_buffer p))) ->
  (wk = false -> forall l, asleep_at p l -> asleep_at p' l) ->
  inv (woke wk a (store a p' st)) [].
Proof.
  intros Hi Ha Hb Hp Hbusy Heof Hlock Hr Hw Hasl. pose proof (iv_pipe _ _ Hi a p Ha) as [K1 K2 K3 K4 K5].
  assert (Hacts : forall k', 0 < tot st [Role k a f true false c] (acts k' a) ->
    (k' = k -> c = true -> False) -> 0 < tot st [] (acts k' a)).
  { intros k'. rewrite tot_one. unfold tot at 1, acts at 1. cbn. intros H Hk'.
    destruct c; [|done]. destruct (decide (k = k')) as [->|Hne]; [by destruct Hk'|].
    rewrite bool_decide_false in H by done. done. }
  apply (inv_update wk None st [Role k a f true false c] [] a p); rewrite ?Hb, ?Heof, ?Hlock; try done.
  - simpl. by rewrite Hb.
  - apply elsewhere_drop.
  - unfold busy_on. cbn. rewrite Z.eqb_refl. lia.
  - destruct (flag p PIPE_LOCK); done.
  - intros H1 H2. destruct (Hr H1) as [H3 H4]. apply Hacts; [by apply K4|]. intros <- ->. specialize (H4 eq_refl eq_refl). lia.
  - intros H1 H2. destruct (Hw H1) as [H3 H4]. apply Hacts; [by apply K5|]. intros <- ->. specialize (H4 eq_refl eq_refl). lia.
  - intros b. by eapply close_drop.
  - intros tid t Ht _. by apply local_at_buf.
  - intros Hwk tid t Ht _ _. by apply Hasl.
Qed.

Lemma leave_spec st k a f c g cond p :
  inv st [Role k a f true false c] -> pipes st !! a = Some p ->
  (k = KR /\ g = PIPE_WANTW /\ cond = (cnt (pipe_buffer p) <? MINPIPESIZE) \/
   k = KW /\ g = PIPE_WANTR /\ (cond = (0 <? cnt (pipe_buffer p)) \/ c = false)) ->
  exists st' p', leave st a g cond = Ok st' /\ inv st' [] /\ pipes st' !! a = Some p' /\
    same st st' /\ pipe_buffer p' = pipe_buffer p /\ flag p' PIPE_EOF = flag p PIPE_EOF.
Proof.
  intros Hi Ha Hk. unfold leave. rewrite (deref_eq _ _ _ Ha). cbn [mbind outcome_bind].
  set (q := set_busy (pipe_busy p - 1) p).
  assert (Hdone : forall wk p', pipe_buffer p' = pipe_buffer p -> flag p' PIPE_EOF = flag p PIPE_EOF ->
    inv (woke wk a (store a p' st)) [] ->
    exists st' p'', Ok (woke wk a (store a p' st)) = Ok st' /\ inv st' [] /\ pipes st' !! a = Some p'' /\
      same st st' /\ pipe_buffer p'' = pipe_buffer p /\ flag p'' PIPE_EOF = flag p PIPE_EOF).
  { intros wk p' H1 H2 H3. exists (woke wk a (store a p' st)), p'. split; [done|]. split; [done|].
    split; [apply woke_at|]. split; [|done]. etransitivity; [apply same_store|apply same_woke]. }
  assert (Hg : g = PIPE_WANTR \/ g = PIPE_WANTW) by naive_solver.
  destruct ((pipe_busy q =? 0) && flag q PIPE_WANT) eqn:Erun.
  { rewrite store_store. apply (Hdone true); [done|destruct Hg as [-> | ->]; unfold q; by flags|].
    apply (inv_leave true st k a f c p); try done; destruct Hg as [-> | ->]; unfold q; flags; try done;
      naive_solver. }
  assert (Hquiet : cond = false \/ flag p g = false -> inv (woke false a (store a q st)) []).
  { intros Hc. apply (inv_leave false st k a f c p); try done.
    - unfold q. flags. intros H. split; [done|]. intros -> ->.
      destruct Hk as [[? _]|(_ & -> & [Hk|?])]; [done| |done]. destruct Hc as [Hc|Hc]; [|congruence].
      rewrite Hc in Hk. symmetry in Hk. zify_bool. done.
    - unfold q. flags. intros H. split; [done|]. intros -> ->.
      destruct Hk as [(_ & -> & Hk)|[? _]]; [|done]. destruct Hc as [Hc|Hc]; [|congruence].
      rewrite Hc in Hk. symmetry in Hk. zify_bool. done.
    - intros _ []; unfold q; simpl; flags; try done. intros [H1 H2]. split; [done|].
      unfold q in Erun. simpl in Erun. change (flag (set_busy _ p) PIPE_WANT) with (flag p PIPE_WANT) in Erun.
      rewrite H1, andb_true_r in Erun. zify_bool. lia. }
  destruct cond eqn:Ec; [|by apply (Hdone false); [done|unfold q; by flags|apply Hquiet; left]].
  unfold wake_wanted. rewrite (deref_eq _ a q) by apply store_at. cbn [mbind outcome_bind].
  destruct (flag q g) eqn:Eg.
  - rewrite store_store. apply (Hdone true); [done|destruct Hg as [-> | ->]; unfold q; by flags|].
    apply (inv_leave true st k a f c p); try done; destruct Hg as [-> | ->]; unfold q; flags; try done;
      naive_solver.
  - apply (Hdone false); [done|unfold q; by flags|]. apply Hquiet. by right.
Qed.

(** ** Where a piece of code ends *)

(** The thread may stop there. *)
Definition stops (st : pst) (l : pc) : Prop :=
  match l with
  | Ret _ _ _ => inv st []
  | _ => inv st [role_of l] /\
         exists p, pipes st !! ro_pipe (role_of l) = Some p /\ local_at p l /\ asleep_at p l
  end.

(** The code returns, the bytes [evs] have moved, and [Q] holds of them and of
    the place where the thread stops. *)
Definition ends (st : pst) (r : outcome (pst * pc)) (Q : list event -> pc -> Prop) : Prop :=
  exists st' l evs, r = Ok (st', l) /\ stops st' l /\
    moves (log st') = moves (log st) ++ evs /\
    (forall tid, threads st' !! tid = None <-> threads st !! tid = None) /\ Q evs l.

Lemma ends_same st st1 r (Q : list event -> pc -> Prop) : same st st1 -> ends st1 r Q -> ends st r Q.
Proof.
  intros [H1 H2] (st' & l & evs & Hr & Hs & Hm & Ht & HQ). exists st', l, evs.
  split; [done|]. split; [done|]. split; [by rewrite Hm, H1|]. split; [|done].
  intros tid. by rewrite Ht, H2.
Qed.

Lemma ends_impl st r (Q Q' : list event -> pc -> Prop) :
  ends st r Q -> (forall evs l, Q evs l -> Q' evs l) -> ends st r Q'.
Proof. intros (st' & l & evs & H) Himp. exists st', l, evs. naive_solver. Qed.

(** Code that ends here. *)
Lemma ends_here st st' l (Q : list event -> pc -> Prop) :
  same st st' -> stops st' l -> Q [] l -> ends st (Ok (st', l)) Q.
Proof.
  intros [H1 H2] Hs HQ. exists st', l, []. rewrite app_nil_r. by split_and!.
Qed.

End PipeRun.
