(* ===== verification/PipeCalls.v ===== *)
(** * Pipes: the pieces of pipe_read and pipe_write

    Each piece of [pipe_read] and [pipe_write] ends where its thread may stop,
    with what it returns and the bytes it moves. *)

From S2P Require Import Prelude Pipe PipeRing PipeInv PipeRun.
Import Pipe PipeRing PipeInv PipeRun.

Module PipeCalls.

(** ** Reading *)

Lemma read_exit_spec st l e c p (Q : list event -> pc -> Prop) :
  inv st [Role KR (r_pipe l) (r_pipe l) true false c] -> pipes st !! r_pipe l = Some p ->
  Q [] (Ret e (r_resid l) (r_data l)) -> ends st (read_exit st l e) Q.
Proof.
  intros Hi Ha HQ. unfold read_exit. rewrite (deref_eq _ _ _ Ha). cbn [mbind outcome_bind].
  destruct (leave_spec st KR (r_pipe l) (r_pipe l) c PIPE_WANTW (cnt (pipe_buffer p) <? MINPIPESIZE) p
    Hi Ha) as (st1 & p1 & -> & Hi1 & Ha1 & Hs1 & _); [by left|]. cbn [mbind outcome_bind].
  destruct (PIPE_BUF <=? _).
  - destruct (sel_spec st1 [] (r_pipe l) p1 Hi1 Ha1) as (st2 & p2 & -> & Hi2 & _ & _ & Hs2 & _).
    cbn [mbind outcome_bind]. apply ends_here; [by etransitivity|done|done].
  - cbn [mbind outcome_bind]. by apply ends_here.
Qed.

Lemma read_end_spec st now l e c p (Q : list event -> pc -> Prop) :
  inv st [Role KR (r_pipe l) (r_pipe l) true true c] -> pipes st !! r_pipe l = Some p ->
  Q [] (Ret e (r_resid l) (r_data l)) -> ends st (read_end st now l e) Q.
Proof.
  intros Hi Ha HQ. unfold read_end.
  destruct (unlock_spec _ _ _ _ _ _ _ Hi Ha) as (st1 & p1 & -> & Hi1 & Ha1 & _ & Hs1).
  cbn [mbind outcome_bind]. rewrite (deref_eq _ _ _ Ha1). cbn [mbind outcome_bind].
  apply (ends_same st st1); [done|]. destruct (e =? 0).
  - apply (ends_same _ _ _ _ (same_store (r_pipe l) (set_atime now p1) st1)).
    apply (read_exit_spec _ _ _ c (set_atime now p1)); [|apply store_at|done].
    by apply (inv_quiet None st1 _ _ p1).
  - by apply (read_exit_spec _ _ _ c p1).
Qed.

(** The local variables of a thread that stops in a read. *)
Definition reading (l : pc) : option rd :=
  match l with RLock l | RMove l _ | RSleep l | RRelock l => Some l | _ => None end.

(** What a read does from a turn of its loop on a pipe like [p]: no bytes move
    before it stops again, with the same local variables, and it returns only
    for a reason. *)
Definition read_result (l : rd) (p : pipe) (evs : list event) (l' : pc) : Prop :=
  evs = [] /\
  match l' with
  | Ret e res d => res = r_resid l /\ d = r_data l /\
      (e = 0 /\ (r_resid l = 0 \/ cnt (pipe_buffer p) = 0 /\ (0 < r_nread l \/ flag p PIPE_EOF = true)) \/
       e = EAGAIN /\ r_nonblock l = true /\ r_nread l = 0 /\ cnt (pipe_buffer p) = 0 /\
       flag p PIPE_EOF = false)
  | RMove l2 n => l2 = l /\ 0 < n <= r_resid l /\ n <= cnt (pipe_buffer p)
  | RSleep l2 => l2 = l /\ cnt (pipe_buffer p) = 0 /\ flag p PIPE_EOF = false /\ r_nonblock l = false
  | _ => False
  end.

(** The same of a turn that has to take the lock first. *)
Definition read_try (l : rd) (p : pipe) (evs : list event) (l' : pc) : Prop :=
  read_result l p evs l' \/
  evs = [] /\ flag p PIPE_LOCK = true /\ (l' = RLock l \/ l' = RRelock l).

Lemma read_loop_spec st now l c p :
  inv st [Role KR (r_pipe l) (r_pipe l) true true c] -> pipes st !! r_pipe l = Some p -> rd_ok l ->
  ends st (read_loop st now l) (read_result l p).
Proof.
  intros Hi Ha (Hr1 & Hr2 & Hr3). unfold read_loop.
  destruct (Z.eqb_spec (r_resid l) 0) as [Hz|Hz].
  { apply (read_end_spec _ _ _ _ c p); [done..|]. split; [done|]. naive_solver. }
  rewrite (deref_eq _ _ _ Ha). cbn [mbind outcome_bind].
  destruct (po_buf _ _ _ _ (iv_pipe _ _ Hi _ _ Ha)) as [m Hb].
  pose proof (size_bounds _ _ Hb) as Hs. pose proof Hb as [Hm Hl Hsz Hc Ho Hin].
  set (b := pipe_buffer p) in *.
  destruct (Z.ltb_spec 0 (cnt b)) as [Hpos|Hpos].
  { set (n := if r_resid l <? _ then _ else _).
    assert (Hn : 0 < n <= cnt b /\ n <= r_resid l /\ out b + n <= size b).
    { unfold n. rewrite (wraps_small 32 (size b - out b)) by lia.
      rewrite (wrapu_small 32 (size b - out b)) by (unfold inu; lia).
      rewrite (wraps_small 32 (cnt b)) by lia. rewrite (wraps_small 32 (r_resid l)) by lia.
      destruct (Z.ltb_spec (cnt b) (size b - out b)); rewrite wrapu_small by (unfold inu; lia);
        case_if; lia. }
    clearbody n. apply ends_here; [done| |split; [done|]; split; [done|]; fold b; lia]. split.
    - destruct c; [done|]. by apply inv_act_up.
    - exists p. split; [done|]. split; [|done]. unfold local_at, rd_ok. fold b. tauto. }
  assert (Hc0 : cnt (pipe_buffer p) = 0) by (fold b; lia).
  destruct (flag p PIPE_EOF) eqn:Eeof.
  { apply (read_end_spec _ _ _ _ c p); [done..|]. split; [done|]. cbn.
    split; [done|]. split; [done|]. left. split; [done|]. right. split; [lia|by right]. }
  destruct (wake_wanted_spec st KR (r_pipe l) (r_pipe l) true true c PIPE_WANTW p Hi Ha)
    as (st1 & p1 & -> & Hi1 & Ha1 & Hk1 & Hs1 & Hf1); [by right|]. cbn [mbind outcome_bind].
  apply (ends_same _ _ _ _ Hs1). destruct (Z.ltb_spec 0 (r_nread l)) as [Hn|Hn].
  { apply (read_end_spec _ _ _ _ c p1); [done..|]. split; [done|]. cbn.
    split; [done|]. split; [done|]. left. split; [done|]. right. split; [lia|by left]. }
  destruct (unlock_spec _ _ _ _ _ _ _ Hi1 Ha1) as (st2 & p2 & -> & Hi2 & Ha2 & Hk2 & Hs2).
  cbn [mbind outcome_bind]. apply (ends_same _ _ _ _ Hs2). destruct (r_nonblock l) eqn:Enb.
  { apply (read_exit_spec _ _ _ c p2); [done..|]. split; [done|]. cbn.
    split; [done|]. split; [done|]. right. split_and!; try done; lia. }
  rewrite (deref_eq _ _ _ Ha2). cbn [mbind outcome_bind].
  assert (Hb2 : pipe_buffer p2 = b) by (rewrite (kp_buf _ _ _ Hk2); apply Hk1).
  assert (He2 : flag p2 PIPE_EOF = false) by (rewrite (kp_eof _ _ _ Hk2), (kp_eof _ _ _ Hk1); done).
  assert (Hw2 : flag p2 PIPE_WANTW = false) by (by rewrite (kp_wantw _ _ _ Hk2)).
  assert (Hi3 : inv st2 [Role KR (r_pipe l) (r_pipe l) true false false]).
  { destruct c; [|done]. apply (inv_act_down _ _ _ _ _ _ p2); [done..|]. congruence. }
  apply ends_here; [apply same_store| |split; [done|]; by split_and!]. split.
  - apply (inv_my_flags false st2 KR (r_pipe l) (r_pipe l) true false false true false false p2); mine.
    + intros _. right. rewrite Hb2. lia.
    + intros _ []; simpl; flags; rewrite ?He2; naive_solver.
  - exists (raise PIPE_WANTR p2). split; [apply store_at|]. unfold local_at, asleep_at, rd_ok. flags.
    split; [split; [done|lia]|done].
Qed.

(** What a reader gets in one turn. *)
Definition chunk (p : pipe) (n : Z) : list Z := take (Z.to_nat n) (held (pipe_buffer p)).

Lemma read_moved_spec st now tid l n e k p :
  inv st [role_of (RMove l n)] -> pipes st !! r_pipe l = Some p -> local_at p (RMove l n) ->
  (e <> 0 -> 0 <= k < n) ->
  ends st (read_moved st now tid l n e k) (fun evs l' =>
    if e =? 0 then evs = [Got (r_pipe l) tid (chunk p n)] /\
      match l' with
      | Ret e' res d => e' = 0 /\ res = r_resid l - n /\ d = r_data l ++ chunk p n
      | _ => exists l2, reading l' = Some l2 /\ r_pipe l2 = r_pipe l /\ r_resid l2 = r_resid l - n /\
          r_data l2 = r_data l ++ chunk p n
      end
    else evs = [] /\ exists res d, l' = Ret e res d).
Proof.
  intros Hi Ha ((Hr1 & Hr2 & Hr3) & Hn1 & Hn2 & Hn3) Hk. unfold read_moved. cbn in Hi.
  rewrite (deref_eq _ _ _ Ha). cbn [mbind outcome_bind].
  destruct (po_buf _ _ _ _ (iv_pipe _ _ Hi _ _ Ha)) as [m Hb]. pose proof Hb as [Hm Hl Hsz Hc Ho Hin].
  rewrite Hm. destruct (Z.eqb_spec e 0) as [->|He].
  2:{ apply (read_end_spec _ _ _ _ true p); [done..|]. split; [done|]. by do 2 eexists. }
  cbn [negb]. destruct (after_read_ok _ _ n Hb) as (Hb' & Hsz' & Hc' & Hh'); [lia|lia|].
  set (b' := if u32 (cnt (pipe_buffer p) - n) =? 0 then _ else _).
  assert (Eb : b' = after_read (pipe_buffer p) n).
  { unfold b', after_read. by rewrite Hm. }
  rewrite Eb. clear b' Eb. set (bs := take (Z.to_nat n) (drop (Z.to_nat (out (pipe_buffer p))) m)) in *.
  assert (Hlen : Z.of_nat (length bs) = n).
  { unfold bs. rewrite length_take, length_drop. lia. }
  assert (Hch : chunk p n = bs).
  { unfold chunk. rewrite Hh'. rewrite take_app_length'; [done|lia]. }
  set (p' := set_buf (after_read (pipe_buffer p) n) p).
  set (st' := tell _ _).
  assert (Hi' : inv st' [Role KR (r_pipe l) (r_pipe l) true true true]).
  { pose proof (iv_pipe _ _ Hi _ _ Ha) as [K1 K2 K3 K4 K5].
    apply (inv_mine false (Some (Got (r_pipe l) tid bs)) st KR (r_pipe l) (r_pipe l) true true true
      true true true p p'); try done; try (simpl; lia).
    - by exists m.
    - unfold p'. flags. lia.
    - change (cnt (pipe_buffer p')) with (cnt (after_read (pipe_buffer p) n)). rewrite Hc'.
      intros H1 H2. apply K4; [done|lia].
    - intros _ _. apply acts_mine. }
  destruct (read_loop_spec st' now (Rd (r_pipe l) (r_nonblock l) (r_resid l - n) (s32 (r_nread l + n))
    (r_data l ++ bs)) true p') as (st2 & l2 & evs & Heq & Hst & Hm2 & Ht2 & -> & Hret); [done| | |].
  { apply lookup_insert_eq. }
  { unfold rd_ok. cbn. rewrite wraps_small by lia. rewrite length_app. lia. }
  exists st2, l2, [Got (r_pipe l) tid bs]. split; [exact Heq|]. split; [done|].
  split; [|split; [done|]].
  - rewrite Hm2, app_nil_r. unfold st'. simpl. by rewrite moves_app.
  - rewrite Hch. split; [done|].
    destruct l2; try done; try (destruct Hret as [-> _]; by eexists).
    destruct Hret as (-> & -> & [[-> _]|(_ & _ & Hz & _)]); [done|].
    exfalso. cbn in Hz. rewrite wraps_small in Hz by lia. lia.
Qed.

Lemma read_lock_spec st now l p :
  inv st [Role KR (r_pipe l) (r_pipe l) false false false] -> pipes st !! r_pipe l = Some p -> rd_ok l ->
  ends st (read_lock st now l) (read_try l p).
Proof.
  intros Hi Ha Hok. unfold read_lock.
  destruct (lock_spec _ _ _ _ _ _ _ Hi Ha) as (st1 & got & p1 & -> & Hi1 & Ha1 & Hk1 & Hs1 & Hg & Hgot).
  cbn [mbind outcome_bind]. apply (ends_same _ _ _ _ Hs1). destruct got.
  - rewrite (deref_eq _ _ _ Ha1). cbn [mbind outcome_bind].
    apply (ends_same _ _ _ _ (same_store (r_pipe l) (set_busy (pipe_busy p1 + 1) p1) st1)).
    eapply ends_impl.
    + apply (read_loop_spec _ _ _ false (set_busy (pipe_busy p1 + 1) p1)); [|apply store_at|done].
      apply (inv_my_flags false st1 KR (r_pipe l) (r_pipe l) false true false true true false p1); mine.
      intros _ []; simpl; flags; try done. intros [H1 H2]. split; [done|lia].
    + unfold read_try, read_result. cbn. intros evs l' H. left. by rewrite (kp_buf _ _ _ Hk1), (kp_eof _ _ _ Hk1 : flag (set_busy _ p1) PIPE_EOF = _) in H.
  - apply ends_here; [done| |right; destruct (flag p PIPE_LOCK); auto; done]. split; [done|].
    exists p1. split; [done|]. split; [done|]. by apply Hg.
Qed.

Lemma read_relock_spec st now l p :
  inv st [Role KR (r_pipe l) (r_pipe l) true false false] -> pipes st !! r_pipe l = Some p ->
  rd_ok l -> r_nread l = 0 -> ends st (read_relock st now l) (read_try l p).
Proof.
  intros Hi Ha Hok Hn. unfold read_relock.
  destruct (lock_spec _ _ _ _ _ _ _ Hi Ha) as (st1 & got & p1 & -> & Hi1 & Ha1 & Hk1 & Hs1 & Hg & Hgot).
  cbn [mbind outcome_bind]. apply (ends_same _ _ _ _ Hs1). destruct got.
  - eapply ends_impl; [by apply (read_loop_spec _ _ _ false p1)|].
    unfold read_try, read_result. intros evs l' H. left. by rewrite (kp_buf _ _ _ Hk1), (kp_eof _ _ _ Hk1) in H.
  - apply ends_here; [done| |right; destruct (flag p PIPE_LOCK); auto; done]. split; [done|].
    exists p1. split; [done|]. split; [done|]. by apply Hg.
Qed.

(** ** Writing *)

Lemma write_early_spec st l e p (Q : list event -> pc -> Prop) :
  inv st [Role KW (w_pipe l) (w_file l) true false false] -> pipes st !! w_pipe l = Some p ->
  Q [] (Ret e (w_resid l) []) -> ends st (write_early st l e) Q.
Proof.
  intros Hi Ha HQ. unfold write_early.
  destruct (leave_spec st KW (w_pipe l) (w_file l) false PIPE_WANTR false p Hi Ha)
    as (st1 & p1 & -> & Hi1 & Ha1 & Hs1 & _); [by right; auto|]. cbn [mbind outcome_bind].
  by apply ends_here.
Qed.

(** The error of a write that ends with [e]. *)
Definition write_error (l : wr) (p : pipe) (e : Z) : Z :=
  if (cnt (pipe_buffer p) =? 0) && (w_resid l =? 0) && (e =? EPIPE) then 0 else e.

Lemma write_end_spec st now l e c p (Q : list event -> pc -> Prop) :
  inv st [Role KW (w_pipe l) (w_file l) true false c] -> pipes st !! w_pipe l = Some p ->
  Q [] (Ret (write_error l p e) (w_resid l) []) -> ends st (write_end st now l e) Q.
Proof.
  intros Hi Ha HQ. unfold write_end. rewrite (deref_eq _ _ _ Ha). cbn [mbind outcome_bind].
  destruct (leave_spec st KW (w_pipe l) (w_file l) c PIPE_WANTR (0 <? cnt (pipe_buffer p)) p Hi Ha)
    as (st1 & p1 & -> & Hi1 & Ha1 & Hs1 & Hb1 & _); [by right; auto|]. cbn [mbind outcome_bind].
  rewrite (deref_eq _ _ _ Ha1). cbn [mbind outcome_bind]. rewrite Hb1.
  change (if (cnt (pipe_buffer p) =? 0) && (w_resid l =? 0) && (e =? EPIPE) then 0 else e)
    with (write_error l p e). apply (ends_same _ _ _ _ Hs1).
  set (st2 := if write_error l p e =? 0 then _ else _).
  assert (H2 : inv st2 [] /\ same st1 st2 /\ is_Some (pipes st2 !! w_pipe l)).
  { unfold st2. destruct (write_error l p e =? 0); [|done]. split; [|split; [apply same_store|]].
    - by apply (inv_quiet None st1 [] _ p1).
    - eexists. apply store_at. }
  destruct H2 as (Hi2 & Hs2 & p2 & Ha2). apply (ends_same _ _ _ _ Hs2).
  destruct (negb (cnt (pipe_buffer p) =? 0)).
  - destruct (sel_spec st2 [] (w_pipe l) p2 Hi2 Ha2) as (st3 & p3 & -> & Hi3 & _ & _ & Hs3 & _).
    cbn [mbind outcome_bind]. by apply ends_here.
  - cbn [mbind outcome_bind]. by apply ends_here.
Qed.

(** The number of bytes that a write was asked for, and how many it has still
    to put. *)
Definition asked (l : pc) : option (Z * Z) :=
  match l with
  | WGrow l | WAlloc l => Some (w_resid l, w_resid l)
  | WLock l _ | WMove l _ _ | WSleep l => Some (w_orig l, w_resid l)
  | WMove2 l _ segsize _ => Some (w_orig l, w_resid l + segsize)
  | _ => None
  end.

(** The thread stops in its write of [orig] bytes with [rest] to put, or returns. *)
Definition same_call (orig rest : Z) (l' : pc) : Prop :=
  match l' with Ret _ _ _ => True | _ => asked l' = Some (orig, rest) end.

(** No bytes move. *)
Definition quiet (orig rest : Z) (evs : list event) (l' : pc) : Prop :=
  evs = [] /\ same_call orig rest l'.

(** What a write does from a turn of its loop on, with a pipe like [p]: no bytes
    move before it stops again, and it returns only for a reason. *)
Definition write_result (l : wr) (p : pipe) (evs : list event) (l' : pc) : Prop :=
  quiet (w_orig l) (w_resid l) evs l' /\
  forall e res d, l' = Ret e res d -> res = w_resid l /\
    (e = 0 /\ w_resid l = 0 \/ e = EPIPE /\ flag p PIPE_EOF = true \/ e = EAGAIN /\ w_nonblock l = true).

(** The lock is taken and there is room. *)
Lemma write_locked_room st retry l space c p (Q : list event -> pc -> Prop) :
  inv st [Role KW (w_pipe l) (w_file l) true true c] -> pipes st !! w_pipe l = Some p ->
  wr_ok l -> 0 < w_resid l -> 0 < space <= size (pipe_buffer p) - cnt (pipe_buffer p) ->
  (w_orig l <= PIPE_BUF -> w_resid l <= space) -> (forall n segsize, Q [] (WMove l n segsize)) ->
  ends st (write_locked retry st l space) Q.
Proof.
  intros Hi Ha Hok Hres Hsp Hat HQ. unfold write_locked.
  rewrite (deref_eq _ _ _ Ha). cbn [mbind outcome_bind].
  destruct (po_buf _ _ _ _ (iv_pipe _ _ Hi _ _ Ha)) as [m Hb]. pose proof (size_bounds _ _ Hb) as Hs.
  pose proof (in_bounds _ _ Hb) as Hin. pose proof (bo_cnt _ _ Hb) as Hc.
  destruct Hok as (Hw1 & Hw2 & Hw3).
  rewrite !(wrapu_small 32) by (unfold inu; lia). rewrite (proj2 (Z.ltb_ge _ _)) by lia.
  rewrite (wrapu_small 64) by (unfold inu; lia). rewrite !(wraps_small 32) by lia.
  set (n := if w_resid l <? space then w_resid l else space).
  assert (Hn : 0 < n <= w_resid l /\ n <= space /\ (w_orig l <= PIPE_BUF -> n = w_resid l)).
  { unfold n. destruct (Z.ltb_spec (w_resid l) space); lia. }
  clearbody n. set (g := if n <? _ then _ else _).
  assert (Hg : g = Z.min n (size (pipe_buffer p) - in_ (pipe_buffer p))).
  { unfold g. case_if; lia. }
  clearbody g. apply ends_here; [done| |apply HQ]. split.
  - destruct c; [done|]. by apply inv_act_up.
  - exists p. split; [done|]. split; [|done]. unfold local_at, wr_ok.
    split; [done|]. split; [lia|]. split; [lia|]. split; [done|]. lia.
Qed.

Lemma write_try_spec retry st now l c p :
  inv st [Role KW (w_pipe l) (w_file l) true false c] -> pipes st !! w_pipe l = Some p ->
  wr_ok l -> 0 < w_resid l -> ends st (write_try retry st now l) (write_result l p).
Proof.
  intros Hi Ha Hok Hres. pose proof Hok as (Hw1 & Hw2 & Hw3).
  destruct (po_buf _ _ _ _ (iv_pipe _ _ Hi _ _ Ha)) as [m Hb]. pose proof (size_bounds _ _ Hb) as Hs.
  pose proof (bo_cnt _ _ Hb) as Hc. pose proof (bo_size _ _ Hb) as Hsz.
  assert (Hnz : forall q e, write_error l q e = e).
  { intros q e. unfold write_error. rewrite (proj2 (Z.eqb_neq (w_resid l) 0)) by lia.
    by rewrite andb_false_r. }
  unfold write_try. rewrite (deref_eq _ _ _ Ha). cbn [mbind outcome_bind].
  destruct (flag p PIPE_EOF) eqn:Eeof.
  { apply (write_end_spec _ _ _ _ c p); [done..|]. rewrite Hnz. split; [done|].
    intros e res d [= <- <- <-]. auto. }
  rewrite (wraps_small 32) by lia. rewrite (wrapu_small 64) by (unfold inu; lia).
  set (space := if _ && _ then _ else _).
  assert (Hsp : 0 < space -> 0 < space <= size (pipe_buffer p) - cnt (pipe_buffer p) /\
    (w_orig l <= PIPE_BUF -> w_resid l <= space)).
  { unfold space. destruct (_ && _) eqn:E; [lia|]. zify_bool. intros Hpos. split; [lia|].
    intros Ho. destruct E as [E|E]; zify_bool; lia. }
  assert (Hfull : space <= 0 -> MINPIPESIZE <= cnt (pipe_buffer p)).
  { unfold space, PIPE_BUF, PIPE_SIZE, BIG_PIPE_SIZE in *. change MINPIPESIZE with 5461.
    destruct (_ && _) eqn:E; zify_bool; lia. }
  clearbody space. destruct (Z.ltb_spec 0 space) as [Hpos|Hpos].
  { destruct (Hsp Hpos) as [H1 H2].
    destruct (lock_spec _ _ _ _ _ _ _ Hi Ha) as (st1 & got & p1 & -> & Hi1 & Ha1 & Hk1 & Hs1 & Hg & _).
    cbn [mbind outcome_bind]. apply (ends_same _ _ _ _ Hs1). destruct got.
    - apply (write_locked_room _ _ _ _ c p1); by rewrite ?(kp_buf _ _ _ Hk1).
    - apply ends_here; [done| |split; [done|]; by intros e res d [=]]. split.
      + destruct c; [done|]. by apply inv_act_up.
      + exists p1. split; [done|]. split; [|by apply Hg]. unfold local_at.
        split; [done|]. split; [done|]. split; [lia|done]. }
  destruct (wake_wanted_spec st KW (w_pipe l) (w_file l) true false c PIPE_WANTR p Hi Ha)
    as (st1 & p1 & -> & Hi1 & Ha1 & Hk1 & Hs1 & Hf1); [by left|]. cbn [mbind outcome_bind].
  apply (ends_same _ _ _ _ Hs1). destruct (w_nonblock l) eqn:Enb.
  { apply (write_end_spec _ _ _ _ c p1); [done..|]. rewrite Hnz. split; [done|].
    intros e res d [= <- <- <-]. auto. }
  destruct (sel_spec st1 _ (w_pipe l) p1 Hi1 Ha1) as (st2 & p2 & -> & Hi2 & Ha2 & Hk2 & Hs2 & _).
  cbn [mbind outcome_bind]. rewrite (deref_eq _ _ _ Ha2). cbn [mbind outcome_bind].
  apply (ends_same _ _ _ _ Hs2).
  assert (Hb2 : pipe_buffer p2 = pipe_buffer p) by (rewrite (kp_buf _ _ _ Hk2); apply Hk1).
  assert (He2 : flag p2 PIPE_EOF = false) by (rewrite (kp_eof _ _ _ Hk2), (kp_eof _ _ _ Hk1); done).
  assert (Hr2 : flag p2 PIPE_WANTR = false) by (by rewrite (kp_wantr _ _ _ Hk2)).
  assert (Hi3 : inv st2 [Role KW (w_pipe l) (w_file l) true false false]).
  { destruct c; [|done]. apply (inv_act_down _ _ _ _ _ _ p2); [done..| |done]. congruence. }
  apply ends_here; [apply same_store| |split; [done|]; by intros e res d [=]]. split.
  - apply (inv_my_flags false st2 KW (w_pipe l) (w_file l) true false false true false false p2); mine.
    + intros _. right. rewrite Hb2. by apply Hfull.
    + intros _ []; simpl; flags; rewrite ?He2; naive_solver.
  - exists (raise PIPE_WANTW p2). split; [apply store_at|]. unfold local_at, asleep_at. by flags.
Qed.

Lemma write_loop_spec st now l c p :
  inv st [Role KW (w_pipe l) (w_file l) true false c] -> pipes st !! w_pipe l = Some p ->
  wr_ok l -> ends st (write_loop st now l) (write_result l p).
Proof.
  intros Hi Ha Hok. unfold write_loop. destruct (Z.eqb_spec (w_resid l) 0) as [Hz|Hz].
  - apply (write_end_spec _ _ _ _ c p); [done..|]. split; [done|]. intros e res d [= <- <- <-].
    unfold write_error. rewrite andb_false_r. auto.
  - apply (write_try_spec _ st now l c p); [done..|]. destruct Hok. lia.
Qed.

(** The thread that waited for the lock. *)
Lemma write_lock_spec st now l space p :
  inv st [role_of (WLock l space)] -> pipes st !! w_pipe l = Some p -> local_at p (WLock l space) ->
  ends st (r ← pipelock st (w_pipe l);
           let '(st, got) := r in
           if (got : bool) then write_locked (write_retry RETRIES now l) st l space
           else Ok (st, WLock l space)) (write_result l p).
Proof.
  intros Hi Ha (Hok & Hres & Hsp & Hat). cbn in Hi.
  destruct (lock_spec _ _ _ _ _ _ _ Hi Ha) as (st1 & got & p1 & -> & Hi1 & Ha1 & Hk1 & Hs1 & Hg & _).
  cbn [mbind outcome_bind]. apply (ends_same _ _ _ _ Hs1). destruct got.
  2:{ apply ends_here; [done| |split; [done|]; by intros e res d [=]]. split; [done|].
      exists p1. split; [done|]. split; [done|]. by apply Hg. }
  destruct (po_buf _ _ _ _ (iv_pipe _ _ Hi1 _ _ Ha1)) as [m Hb]. pose proof (size_bounds _ _ Hb) as Hs.
  pose proof (bo_cnt _ _ Hb) as Hc.
  destruct (Z.ltb_spec (size (pipe_buffer p1) - cnt (pipe_buffer p1)) space) as [Hlt|Hge].
  - unfold write_locked. rewrite (deref_eq _ _ _ Ha1). cbn [mbind outcome_bind].
    rewrite !(wrapu_small 32) by (unfold inu; lia). rewrite (proj2 (Z.ltb_lt _ _)) by done.
    destruct (unlock_spec _ _ _ _ _ _ _ Hi1 Ha1) as (st2 & p2 & -> & Hi2 & Ha2 & Hk2 & Hs2).
    cbn [mbind outcome_bind]. apply (ends_same _ _ _ _ Hs2).
    eapply ends_impl; [by apply (write_try_spec _ st2 now l true p2)|].
    unfold write_result. intros evs l'. by rewrite (kp_eof _ _ _ Hk2), (kp_eof _ _ _ Hk1).
  - apply (write_locked_room _ _ _ _ true p1); try done. lia.
Qed.

(** *** The transfer *)

(** What is left of a write when bytes have been put. *)
Definition rest_ok (l : wr) : Prop :=
  0 <= w_resid l <= w_orig l /\ w_orig l < 2 ^ 31 /\ (w_orig l <= PIPE_BUF -> w_resid l = 0).

(** The unlock after a transfer, with its error. *)
Lemma write_unlock_spec st now l e p :
  inv st [Role KW (w_pipe l) (w_file l) true true true] -> pipes st !! w_pipe l = Some p ->
  (e = 0 -> rest_ok l) ->
  ends st (write_unlock st now l e) (fun evs l' => quiet (w_orig l) (w_resid l) evs l' /\
    if e =? 0 then
      (w_resid l = 0 -> l' = Ret 0 0 []) /\ (forall e' res d, l' = Ret e' res d -> res = w_resid l /\ (e' = 0 -> res = 0))
    else exists res, l' = Ret (write_error l p e) res []).
Proof.
  intros Hi Ha He. unfold write_unlock.
  destruct (unlock_spec _ _ _ _ _ _ _ Hi Ha) as (st1 & p1 & -> & Hi1 & Ha1 & Hk1 & Hs1).
  cbn [mbind outcome_bind]. apply (ends_same _ _ _ _ Hs1). destruct (Z.eqb_spec e 0) as [Hz|Hz].
  - destruct (He Hz) as (H1 & H2 & H3). cbn [negb].
    destruct (decide (w_resid l = 0)) as [Hr|Hr].
    + unfold write_loop. rewrite (proj2 (Z.eqb_eq _ _) Hr). apply (write_end_spec _ _ _ _ true p1); [done..|].
      split; [done|]. unfold write_error. rewrite andb_false_r, Hr. split; [done|]. by intros e' res d [= _ <- _].
    + eapply ends_impl; [apply (write_loop_spec _ _ _ true p1); try done|].
      * split; [done|]. split; [done|]. intros H. by rewrite (H3 H) in Hr.
      * intros evs l' [Hq Hret]. split; [done|]. split; [done|]. intros e' res d Hl'.
        destruct (Hret e' res d Hl') as [-> Hc]. unfold EPIPE, EAGAIN in Hc. split; [done|]. lia.
  - cbn [negb]. apply (write_end_spec _ _ _ _ true p1); [done..|]. split; [done|].
    unfold write_error. rewrite (kp_buf _ _ _ Hk1). by eexists.
Qed.

(** The bytes of both segments lie in the buffer and are counted now. *)
Lemma write_commit_spec st now tid l n segsize bs1 bs2 p m :
  inv st [Role KW (w_pipe l) (w_file l) true true true] -> pipes st !! w_pipe l = Some p ->
  buf_ok (pipe_buffer p) m -> lies m (Z.to_nat (in_ (pipe_buffer p))) bs1 -> lies m 0 bs2 ->
  Z.of_nat (length bs1) = segsize -> Z.of_nat (length (bs1 ++ bs2)) = n -> 0 < n ->
  cnt (pipe_buffer p) + n <= size (pipe_buffer p) ->
  segsize = Z.min n (size (pipe_buffer p) - in_ (pipe_buffer p)) -> rest_ok l ->
  ends st (write_commit st now tid l n segsize (bs1 ++ bs2)) (fun evs l' =>
    evs = [Put (w_pipe l) tid (bs1 ++ bs2)] /\ same_call (w_orig l) (w_resid l) l' /\
    (w_resid l = 0 -> l' = Ret 0 0 []) /\
    (forall e' res d, l' = Ret e' res d -> res = w_resid l /\ (e' = 0 -> res = 0))).
Proof.
  intros Hi Ha Hb L1 L2 H1 H2 Hn Hfit Hseg Hrest. unfold write_commit.
  rewrite (deref_eq _ _ _ Ha). cbn [mbind outcome_bind].
  destruct (after_write_ok _ m n segsize bs1 bs2 Hb H1 H2 Hfit Hseg L1 L2) as (Hb' & Hsz' & Hc' & Hh').
  pose proof (size_bounds _ _ Hb) as Hs. pose proof (in_bounds _ _ Hb) as Hin.
  pose proof (bo_cnt _ _ Hb) as Hcnt. set (b := pipe_buffer p) in *.
  rewrite length_app in H2.
  rewrite (wrapu_small 32 (in_ b + n)), (wrapu_small 32 (n - segsize + size b)),
    (wrapu_small 32 (cnt b + n)), (wrapu_small 32 (n - segsize)) by (unfold inu; lia).
  destruct ((size b <=? in_ b + n) && negb (in_ b + n =? n - segsize + size b)) eqn:E1.
  { exfalso. zify_bool. lia. }
  rewrite (proj2 (Z.ltb_ge (size b) (cnt b + n))) by lia.
  set (b' := Pipebuf _ _ _ _ _).
  assert (Eb : b' = after_write b n segsize).
  { unfold b', after_write. rewrite !wrapu_small by (unfold inu; lia). done. }
  set (st' := tell _ _).
  assert (Hi' : inv st' [Role KW (w_pipe l) (w_file l) true true true]).
  { pose proof (iv_pipe _ _ Hi _ _ Ha) as [K1 K2 K3 K4 K5].
    apply (inv_mine false (Some (Put (w_pipe l) tid (bs1 ++ bs2))) st KW (w_pipe l) (w_file l) true true
      true true true true p (set_buf b' p)); rewrite ?Eb; cbn [pipe_buffer set_buf]; flags; try done;
      try (simpl; lia).
    - by exists m.
    - intros _ _. apply acts_mine.
    - rewrite Hc'. intros Hf Hlt. apply K5; [done|]. fold b. lia.
    - pose proof (iv_role _ _ Hi) as Hr. apply Forall_cons in Hr as [(q & Hq & Hr) _]. cbn in Hq.
      by assert (q = p) as -> by congruence. }
  destruct (write_unlock_spec st' now l 0 (set_buf b' p) Hi') as (st2 & l2 & evs & Heq & Hst & Hm2 & Ht2 & [-> Hcall] & Hret).
  { apply store_at. }
  { done. }
  exists st2, l2, [Put (w_pipe l) tid (bs1 ++ bs2)]. split; [exact Heq|]. split; [done|].
  split; [rewrite Hm2, app_nil_r; unfold st'; simpl; by rewrite moves_app|]. split; [done|].
  split; [done|]. split; [done|]. exact Hret.
Qed.

(** Bytes moved into free memory. *)
Lemma fill_spec st k a f b c p m i bs :
  inv st [Role k a f b true c] -> pipes st !! a = Some p -> buf_ok (pipe_buffer p) m ->
  0 <= i -> i + Z.of_nat (length bs) <= size (pipe_buffer p) ->
  held (with_mem (pipe_buffer p) (list_inserts (Z.to_nat i) bs m)) = held (pipe_buffer p) ->
  let p' := set_buf (with_mem (pipe_buffer p) (list_inserts (Z.to_nat i) bs m)) p in
  fill st a i bs = Ok (store a p' st) /\ inv (store a p' st) [Role k a f b true c].
Proof.
  intros Hi Ha Hb H0 H1 Hh p'. unfold fill. rewrite (deref_eq _ _ _ Ha). cbn [mbind outcome_bind].
  rewrite (bo_mem _ _ Hb). split; [done|]. pose proof (iv_pipe _ _ Hi _ _ Ha) as [K1 K2 K3 K4 K5].
  apply (inv_mine false None st k a f b true c b true c p p'); unfold p'; cbn [pipe_buffer set_buf];
    flags; try done; try (simpl; lia).
  - eexists. by apply fill_ok.
  - pose proof (iv_role _ _ Hi) as Hr. apply Forall_cons in Hr as [(q & Hq & Hr) _]. cbn in Hq.
    by assert (q = p) as -> by congruence.
Qed.

(** What a piece of a write comes to: it moves no bytes and does not return with
    success, or it puts bytes, the last ones when it returns with success; those
    of an atomic write are put all at once, and then it returns. *)
Definition write_out (l : wr) (tid orig rest : Z) (evs : list event) (l' : pc) : Prop :=
  (quiet orig rest evs l' /\ forall e res d, l' = Ret e res d -> e <> 0) \/
  (exists bs, evs = [Put (w_pipe l) tid bs] /\ same_call orig (rest - Z.of_nat (length bs)) l' /\
     (orig <= PIPE_BUF -> Z.of_nat (length bs) = orig /\ l' = Ret 0 0 []) /\
     (forall e res d, l' = Ret e res d -> e = 0 -> res = 0 /\ Z.of_nat (length bs) = rest)).

Lemma write_result_out l p tid evs l' :
  0 < w_resid l -> write_result l p evs l' -> write_out l tid (w_orig l) (w_resid l) evs l'.
Proof.
  intros Hr [Hq H]. left. split; [done|]. intros e res d Hl. destruct (H e res d Hl) as [_ Hc].
  unfold EPIPE, EAGAIN in *. lia.
Qed.

(** A transfer that failed. *)
Lemma write_fault_spec st now tid l e p orig rest :
  inv st [Role KW (w_pipe l) (w_file l) true true true] -> pipes st !! w_pipe l = Some p ->
  e <> 0 -> 0 < w_resid l -> ends st (write_unlock st now l e) (write_out l tid orig rest).
Proof.
  intros Hi Ha He Hr. eapply ends_impl; [by apply (write_unlock_spec st now l e p)|].
  cbn beta. rewrite (proj2 (Z.eqb_neq _ _) He). intros evs l' [[-> _] [res ->]]. left. split; [done|].
  intros e' res' d [= <- _ _]. unfold write_error.
  by rewrite (proj2 (Z.eqb_neq (w_resid l) 0)), andb_false_r by lia.
Qed.

Lemma write_moved_spec st now tid l n g e bs p :
  inv st [role_of (WMove l n g)] -> pipes st !! w_pipe l = Some p -> local_at p (WMove l n g) ->
  (if e =? 0 then Z.of_nat (length bs) = g else Z.of_nat (length bs) < g) ->
  ends st (write_moved st now tid l n g e bs)
    (write_out l tid (w_orig l) (w_resid l)).
Proof.
  intros Hi Ha ((Hw1 & Hw2 & Hw3) & Hn & Hfit & Hg & Hat) Hbs. cbn in Hi.
  destruct (po_buf _ _ _ _ (iv_pipe _ _ Hi _ _ Ha)) as [m Hb]. pose proof (size_bounds _ _ Hb) as Hs.
  pose proof (in_bounds _ _ Hb) as Hin. pose proof (bo_len _ _ Hb) as Hlen.
  assert (Hle : Z.of_nat (length bs) <= g) by (destruct (e =? 0); lia).
  unfold write_moved. rewrite (deref_eq _ _ _ Ha). cbn [mbind outcome_bind].
  destruct (fill_spec st KW (w_pipe l) (w_file l) true true p m (in_ (pipe_buffer p)) bs Hi Ha Hb)
    as [Hfill Hi']; [lia|lia|apply (fill_held _ _ bs []); simpl; auto; lia|].
  rewrite Hfill. cbn [mbind outcome_bind]. eapply ends_same; [apply same_store|].
  set (p' := set_buf _ p) in *. set (l1 := less _ l).
  destruct (Z.eqb_spec e 0) as [He|He]; cbn [negb].
  2:{ apply (write_fault_spec _ _ _ l1 _ p'); [done|apply store_at|done|]. simpl. lia. }
  assert (Hlies : lies (list_inserts (Z.to_nat (in_ (pipe_buffer p))) bs m) (Z.to_nat (in_ (pipe_buffer p))) bs).
  { apply lies_inserts. lia. }
  destruct (Z.ltb_spec g n) as [Hlt|Hge].
  - rewrite (wrapu_small 32) by (unfold inu; lia). rewrite (proj2 (Z.eqb_eq _ _)) by lia. cbn [negb].
    apply ends_here; [done| |left; split; [split; [done|]|by intros e' res d [=]]].
    2:{ cbn. do 2 f_equal. simpl. lia. }
    split; [done|]. exists p'. split; [apply store_at|]. split; [|done]. cbn. fold l1.
    split; [lia|]. split; [lia|]. split; [done|]. split; [lia|]. split; [lia|]. split; [lia|].
    split; [eauto|]. intros Ho. rewrite (Hat Ho). by apply Hw3.
  - pose proof (write_commit_spec (store (w_pipe l) p' st) now tid l1 n g bs [] p'
      (list_inserts (Z.to_nat (in_ (pipe_buffer p))) bs m) Hi') as Hcommit.
    rewrite app_nil_r in Hcommit. eapply ends_impl; [apply Hcommit; try done|].
    + apply store_at.
    + apply fill_ok; [done|lia|lia].
    + lia.
    + lia.
    + split; [simpl; lia|]. split; [simpl; lia|]. intros Ho. simpl in *. specialize (Hat Ho). lia.
    + intros evs l' (-> & Hcall & Hz & Hret). right. exists bs. split; [done|]. split; [done|]. split.
      * intros Ho. specialize (Hat Ho). specialize (Hw3 Ho). split; [lia|]. apply Hz. simpl. lia.
      * intros e' res d Hl He'. destruct (Hret e' res d Hl) as [Hres H0]. specialize (H0 He').
        simpl in Hres. lia.
Qed.

Lemma write_moved2_spec st now tid l n g seg e bs p :
  inv st [role_of (WMove2 l n g seg)] -> pipes st !! w_pipe l = Some p ->
  local_at p (WMove2 l n g seg) ->
  (if e =? 0 then Z.of_nat (length bs) = n - g else Z.of_nat (length bs) < n - g) ->
  ends st (write_moved2 st now tid l n g seg e bs)
    (write_out l tid (w_orig l) (w_resid l + g)).
Proof.
  intros Hi Ha (Hr & Ho1 & Hseg & Hn & Hfit & Hg & (m & Hm & Hl1) & Hat) Hbs. cbn in Hi.
  destruct (po_buf _ _ _ _ (iv_pipe _ _ Hi _ _ Ha)) as [m' Hb].
  assert (m' = m) as -> by (rewrite (bo_mem _ _ Hb) in Hm; congruence).
  pose proof (size_bounds _ _ Hb) as Hs. pose proof (in_bounds _ _ Hb) as Hin.
  pose proof (bo_len _ _ Hb) as Hlen. pose proof (bo_cnt _ _ Hb) as Hcnt.
  assert (Hle : Z.of_nat (length bs) <= n - g) by (destruct (e =? 0); lia).
  unfold write_moved2.
  destruct (fill_spec st KW (w_pipe l) (w_file l) true true p m 0 bs Hi Ha Hb) as [Hfill Hi']; [lia|lia| |].
  { rewrite <- (inserts_lies m (Z.to_nat (in_ (pipe_buffer p))) seg) by (done || lia).
    apply fill_held; [done|lia|lia|]. right. lia. }
  rewrite Hfill. cbn [mbind outcome_bind]. eapply ends_same; [apply same_store|].
  set (p' := set_buf _ p) in *. set (l1 := less _ l).
  destruct (Z.eqb_spec e 0) as [He|He]; cbn [negb].
  2:{ apply (write_fault_spec _ _ _ l1 _ p'); [done|apply store_at|done|]. simpl. lia. }
  eapply ends_impl; [apply (write_commit_spec _ _ _ l1 n g seg bs p' (list_inserts 0 bs m)); try done|].
  - apply store_at.
  - apply (fill_ok _ _ 0); [done|lia|lia].
  - apply lies_other; [done|lia|]. left. change (in_ (pipe_buffer p')) with (in_ (pipe_buffer p)). lia.
  - apply lies_inserts. lia.
  - rewrite length_app. lia.
  - lia.
  - simpl. lia.
  - split; [simpl; lia|]. split; [simpl; lia|]. intros Ho. simpl in *. specialize (Hat Ho). lia.
  - intros evs l' (-> & Hcall & Hz & Hret). right. exists (seg ++ bs). rewrite length_app.
    split; [done|]. split; [|split].
    + replace (w_resid l + g - Z.of_nat (length seg + length bs)) with (w_resid l1) by (simpl; lia). done.
    + intros Ho. specialize (Hat Ho). split; [lia|]. apply Hz. simpl. lia.
    + intros e' res d Hl He'. destruct (Hret e' res d Hl) as [Hres H0]. specialize (H0 He').
      simpl in Hres. lia.
Qed.

(** *** The start, and the larger buffer *)

Lemma write_begin_spec st now l p :
  inv st [Role KW (w_pipe l) (w_file l) true false false] -> pipes st !! w_pipe l = Some p ->
  0 <= w_resid l < 2 ^ 31 ->
  ends st (write_begin st now l) (write_result (Wr (w_pipe l) (w_file l) (w_nonblock l) (w_resid l) (w_resid l)) p).
Proof.
  intros Hi Ha Hr. unfold write_begin. rewrite wraps_small by lia.
  eapply ends_impl.
  - apply (write_loop_spec _ _ (Wr (w_pipe l) (w_file l) (w_nonblock l) (w_resid l) (w_resid l)) false p);
      try done. split; [simpl; lia|]. split; [simpl; lia|done].
  - done.
Qed.

Lemma write_grow_spec st l p :
  inv st [Role KW (w_pipe l) (w_file l) true false false] -> pipes st !! w_pipe l = Some p ->
  grow_ok l -> (flag p PIPE_LOCK = false -> cnt (pipe_buffer p) = 0) ->
  ends st (write_grow st l) (fun evs l' => quiet (w_resid l) (w_resid l) evs l' /\
    forall e res d, l' <> Ret e res d).
Proof.
  intros Hi Ha Hok Hc. unfold write_grow.
  destruct (lock_spec _ _ _ _ _ _ _ Hi Ha) as (st1 & got & p1 & -> & Hi1 & Ha1 & Hk1 & Hs1 & Hg & Hgot).
  cbn [mbind outcome_bind].
  apply (ends_same _ _ _ _ Hs1). destruct got.
  - apply ends_here; [done| |done]. split; [done|]. exists p1. split; [done|]. split; [|done].
    split; [done|]. rewrite (kp_buf _ _ _ Hk1). apply Hc. by destruct (flag p PIPE_LOCK).
  - apply ends_here; [done| |done]. split; [done|]. exists p1. split; [done|]. split; [done|]. by apply Hg.
Qed.

(** The buffer is replaced by a larger one while it is empty. *)
Lemma inv_resize st k a f b c p m :
  inv st [Role k a f b true c] -> pipes st !! a = Some p -> cnt (pipe_buffer p) = 0 ->
  Z.of_nat (length m) = BIG_PIPE_SIZE ->
  let p' := set_buf (Pipebuf 0 0 0 BIG_PIPE_SIZE (Some m)) p in
  inv (resized (store a p' st) p p') [Role k a f b true c].
Proof.
  intros Hi Ha Hc Hm p'. pose proof (iv_pipe _ _ Hi _ _ Ha) as [[m0 Hb] K2 K3 K4 K5].
  assert (Hb' : buf_ok (pipe_buffer p') m).
  { split; simpl; done || (by right) || (unfold BIG_PIPE_SIZE; lia). }
  apply (inv_update_size false None st [Role k a f b true c] _ a p p'); unfold p'; flags; try done.
  - by exists m.
  - transitivity (@nil Z); [done|]. symmetry. apply length_zero_iff_nil.
    pose proof (held_length _ _ Hb). lia.
  - simpl. lia.
  - lia.
  - rewrite Hc in K5. exact K5.
  - constructor; [|constructor]. exists p'. rewrite lookup_insert_eq. split; [done|].
    pose proof (iv_role _ _ Hi) as Hr. apply Forall_cons in Hr as [(q & Hq & Hr) _]. cbn in Hq.
    by assert (q = p) as -> by congruence.
  - by eapply closes_mine.
  - intros tid t Ht Hta. apply local_at_free. by eapply lock_alone.
Qed.

Lemma write_alloc_spec st now tid l mem p :
  inv st [role_of (WAlloc l)] -> pipes st !! w_pipe l = Some p -> local_at p (WAlloc l) ->
  match mem with Some m => Z.of_nat (length m) = BIG_PIPE_SIZE | None => True end ->
  ends st (write_alloc st now l mem) (write_out l tid (w_resid l) (w_resid l)).
Proof.
  intros Hi Ha [Hg Hc] Hmem. cbn in Hi. unfold grow_ok in Hg. unfold write_alloc.
  destruct (po_buf _ _ _ _ (iv_pipe _ _ Hi _ _ Ha)) as [m0 Hb].
  assert (Hsp : exists st1 p1 e, pipespace st (w_pipe l) BIG_PIPE_SIZE mem = Ok (st1, e) /\
    let st2 := if e =? 0
               then Pst (pipes st1) (nbigpipe st1 + 1) (amountpipekva st1) (threads st1) (log st1) else st1 in
    inv st2 [Role KW (w_pipe l) (w_file l) true true false] /\ pipes st2 !! w_pipe l = Some p1 /\
    same st st2).
  { destruct mem as [m|].
    - unfold pipespace, pipe_free_kmem. rewrite (deref_eq _ _ _ Ha). cbn [mbind outcome_bind].
      rewrite (bo_mem _ _ Hb). cbn [mbind outcome_bind].
      unfold deref. simpl. rewrite lookup_insert_eq. cbn [mbind outcome_bind].
      pose proof (inv_resize st KW (w_pipe l) (w_file l) true false p m Hi Ha Hc Hmem) as H.
      cbv zeta in H. eexists _, (set_buf (Pipebuf 0 0 0 BIG_PIPE_SIZE (Some m)) p), 0. split; [done|].
      cbn [Z.eqb]. split; [|split; [simpl; by rewrite lookup_insert_eq|by split]].
      unfold resized in H. simpl in H |- *. rewrite insert_insert_eq. unfold big in H. simpl in H.
      change (PIPE_SIZE <? BIG_PIPE_SIZE) with true in H. simpl in H.
      replace (if PIPE_SIZE <? size (pipe_buffer p) then nbigpipe st - 1 else nbigpipe st) with
        (nbigpipe st - (if PIPE_SIZE <? size (pipe_buffer p) then 1 else 0)); [exact H|].
      destruct (PIPE_SIZE <? size (pipe_buffer p)); lia.
    - exists st, p, ENOMEM. by split_and!. }
  destruct Hsp as (st1 & p1 & e & -> & Hst2). cbn [mbind outcome_bind]. cbv zeta in Hst2.
  set (st2 := if e =? 0 then _ else _) in *. destruct Hst2 as (Hi2 & Ha2 & Hs2).
  destruct (unlock_spec _ _ _ _ _ _ _ Hi2 Ha2) as (st3 & p3 & -> & Hi3 & Ha3 & Hk3 & Hs3).
  cbn [mbind outcome_bind]. apply (ends_same _ _ _ _ Hs2), (ends_same _ _ _ _ Hs3).
  eapply ends_impl; [apply (write_begin_spec _ _ _ p3); [done..|]|].
  - unfold PIPE_SIZE in Hg. lia.
  - intros evs l' [Hq Hret]. left. split; [done|]. intros e' res d Hl.
    destruct (Hret e' res d Hl) as [_ Hcase]. simpl in Hcase. unfold EPIPE, EAGAIN, PIPE_SIZE in *. lia.
Qed.

(** The thread joins the writers of [w] through the file of [a]. *)
Lemma inv_join st a w p :
  inv st [] -> pipes st !! w = Some p -> pipe_peer p = Some a ->
  tot st [] (closes a) = 0 ->
  inv (store w (set_busy (pipe_busy p + 1) p) st) [Role KW w a true false false].
Proof.
  intros Hi Ha Hp Hcl. pose proof (iv_pipe _ _ Hi w p Ha) as [K1 K2 K3 K4 K5].
  apply (inv_update false None st [] _ w p); flags; try done.
  - intros b Hb. unfold busy_on, locks, acts. simpl. rewrite (proj2 (Z.eqb_neq w b)) by done. done.
  - unfold busy_on. simpl. rewrite Z.eqb_refl. simpl. lia.
  - simpl. lia.
  - constructor; [|constructor]. exists (set_busy (pipe_busy p + 1) p). by rewrite lookup_insert_eq.
  - intros b. pose proof (iv_close _ _ Hi b) as H. rewrite !tot_one. unfold tot in H, Hcl. simpl in H, Hcl.
    change (closes b (Role KW w a true false false)) with false.
    change (via b (Role KW w a true false false)) with (a =? b).
    intros Hb. destruct (Z.eqb_spec a b) as [->|Hne]; [lia|]. by apply H.
  - intros _ tid t Ht _ _. destruct (t_pc t); simpl; flags; try done. intros [H1 H2]. split; [done|lia].
Qed.

Lemma pipe_write_spec st now a nonblock resid p :
  inv st [] -> pipes st !! a = Some p -> 0 <= resid < 2 ^ 31 -> tot st [] (closes a) = 0 ->
  ends st (pipe_write st now a nonblock resid) (fun evs l' => quiet resid resid evs l' /\
    forall e res d, l' = Ret e res d -> e = 0 -> resid = 0).
Proof.
  intros Hi Ha Hr Hcl. unfold pipe_write. rewrite (deref_eq _ _ _ Ha). cbn [mbind outcome_bind].
  assert (Hpipe : forall Q : list event -> pc -> Prop, Q [] (Ret EPIPE resid []) ->
    ends st (Ok (st, Ret EPIPE resid [])) Q).
  { intros Q HQ. by apply ends_here. }
  destruct (pipe_peer p) as [w|] eqn:Ew.
  2:{ apply Hpipe. split; [done|]. by intros e res d [= <- _ _]. }
  destruct (iv_peer _ _ Hi a p w Ha Ew) as (Hne & q & Hq & Hqa).
  rewrite (deref_eq _ _ _ Hq). cbn [mbind outcome_bind]. destruct (flag q PIPE_EOF) eqn:Eeof.
  { apply Hpipe. split; [done|]. by intros e res d [= <- _ _]. }
  set (q' := set_busy (pipe_busy q + 1) q). set (l := Wr w a nonblock resid 0).
  pose proof (inv_join st a w q Hi Hq Hqa Hcl) as Hi'. fold q' in Hi'.
  eapply ends_same; [apply same_store|].
  destruct (_ && _) eqn:Eg.
  - zify_bool. eapply ends_impl; [apply (write_grow_spec _ l q')|].
    + exact Hi'.
    + apply store_at.
    + unfold grow_ok. simpl. lia.
    + intros _. simpl. lia.
    + cbn beta. intros evs l' [Hq' Hno]. split; [done|]. intros e res d ->. by destruct (Hno e res d).
  - eapply ends_impl; [apply (write_begin_spec _ _ l q')|].
    + exact Hi'.
    + apply store_at.
    + simpl. lia.
    + intros evs l' [Hq' Hret]. split; [done|]. intros e res d Hl He. destruct (Hret e res d Hl) as [_ Hc].
      subst e. simpl in Hc. unfold EPIPE, EAGAIN in Hc. lia.
Qed.

End PipeCalls.
