(* ===== verification/PipeLife.v ===== *)
(** * Pipes: their life

    Making and closing pipes, the threads that call and continue, and the states
    that any interleaving of them leads to. *)

From S2P Require Import Prelude Pipe PipeRing PipeInv PipeRun PipeCalls.
Import Pipe PipeRing PipeInv PipeRun PipeCalls.

Module PipeLife.

(** ** Closing *)

(** No thread works on a pipe that is being closed and is not busy. *)
Lemma closing_alone st a p tid t :
  inv st [Role KC a a false false false] -> pipes st !! a = Some p -> pipe_busy p = 0 ->
  threads st !! tid = Some t -> ro_pipe (role_of (t_pc t)) <> a /\ ro_file (role_of (t_pc t)) <> a.
Proof.
  intros Hi Ha Hb Ht.
  assert (Hfile : ro_file (role_of (t_pc t)) <> a).
  { intros Hf. pose proof (iv_close _ _ Hi a) as Hc. rewrite !tot_one in Hc.
    replace (closes a (Role KC a a false false false)) with true in Hc
      by (unfold closes; simpl; by rewrite Z.eqb_refl).
    replace (via a (Role KC a a false false false)) with true in Hc
      by (unfold via; simpl; by rewrite Z.eqb_refl).
    pose proof (thread_role st tid t (via a) Ht ltac:(unfold via; by rewrite Hf, Z.eqb_refl)).
    pose proof (roles_nonneg (closes a) (roles (threads st))). lia. }
  split; [|done]. intros Hp. destruct (to_role _ _ (iv_thr _ _ Hi tid t Ht)) as (q & Hq & Hr).
  unfold role_at in Hr. destruct (ro_kind (role_of (t_pc t))); [congruence| |destruct Hr; congruence].
  destruct Hr as [_ Hbusy]. pose proof (po_busy _ _ _ _ (iv_pipe _ _ Hi a p Ha)) as Hn.
  rewrite tot_one in Hn. change (busy_on a (Role KC a a false false false)) with false in Hn. cbn iota in Hn.
  pose proof (thread_role st tid t (busy_on a) Ht
    ltac:(unfold busy_on; by rewrite Hbusy, Hp, Z.eqb_refl)). lia.
Qed.

(** The pipes without the peer of [p]. *)
Definition unpeered (pm : gmap Z pipe) (p : pipe) (pm' : gmap Z pipe) : Prop :=
  match pipe_peer p with
  | None => pm' = pm
  | Some b => exists q, pm !! b = Some q /\ pm' = <[b := set_peer None q]> pm
  end.

Lemma unpeered_lookup pm p pm' c x :
  unpeered pm p pm' -> pm' !! c = Some x ->
  exists q, pm !! c = Some q /\
    (x = q /\ pipe_peer p <> Some c \/ x = set_peer None q /\ pipe_peer p = Some c).
Proof.
  unfold unpeered. destruct (pipe_peer p) as [b|].
  - intros (q & Hq & ->) Hx. destruct (decide (c = b)) as [->|Hne].
    + rewrite lookup_insert_eq in Hx. injection Hx as <-. exists q. auto.
    + rewrite lookup_insert_ne in Hx by done. exists x. split; [done|]. left. split; [done|]. congruence.
  - intros -> Hx. exists x. auto.
Qed.

Lemma unpeered_sum f pm p pm' :
  unpeered pm p pm' -> (forall q, f (set_peer None q) = f q) -> msum f pm' = msum f pm.
Proof.
  unfold unpeered. intros H Hf. destruct (pipe_peer p) as [b|]; [|by subst].
  destruct H as (q & Hq & ->). rewrite (msum_update _ _ _ q), Hf by done. lia.
Qed.

(** The pipe goes, and its peer loses it. *)
Lemma inv_free st a p pm' nb kva :
  inv st [Role KC a a false false false] -> pipes st !! a = Some p -> pipe_busy p = 0 ->
  unpeered (pipes st) p pm' ->
  nb = nbigpipe st - big p -> kva = amountpipekva st - size (pipe_buffer p) ->
  inv (Pst (delete a pm') nb kva (threads st) (log st)) [].
Proof.
  intros Hi Ha Hb Hun -> ->. set (st' := Pst _ _ _ _ _).
  assert (Hthr : forall tid t, threads st !! tid = Some t ->
    ro_pipe (role_of (t_pc t)) <> a /\ ro_file (role_of (t_pc t)) <> a).
  { intros tid t. by apply (closing_alone st a p). }
  assert (Ht : forall b f, f ∈ [busy_on b; locks b; acts KR b; acts KW b] ->
    tot st' [] f = tot st [Role KC a a false false false] f).
  { intros b f Hf. rewrite tot_one. unfold tot. simpl.
    replace (f (Role KC a a false false false)) with false; [lia|].
    rewrite !elem_of_cons, elem_of_nil in Hf. by destruct Hf as [->|[->|[->|[->|[]]]]]. }
  assert (Hlook : forall c x, delete a pm' !! c = Some x -> c <> a /\ exists q, pipes st !! c = Some q /\
    (x = q /\ pipe_peer p <> Some c \/ x = set_peer None q /\ pipe_peer p = Some c)).
  { intros c x Hx. apply lookup_delete_Some in Hx as [Hne Hx]. split; [done|]. by eapply unpeered_lookup. }
  assert (Hpa : pipe_peer p <> Some a).
  { intros H. by destruct (iv_peer _ _ Hi a p a Ha H). }
  assert (Hpm : pm' !! a = Some p).
  { unfold unpeered in Hun. destruct (pipe_peer p) as [b|]; [|by subst]. destruct Hun as (q & _ & ->).
    rewrite lookup_insert_ne; [done|]. congruence. }
  split; simpl.
  - intros c x Hx. destruct (Hlook c x Hx) as (Hne & q & Hq & Hc).
    destruct (iv_pipe _ _ Hi c q Hq) as [K1 K2 K3 K4 K5].
    destruct Hc as [[-> _]|[-> _]]; split; rewrite ?(Ht c) by set_solver; done.
  - intros c x d Hx Hd. destruct (Hlook c x Hx) as (Hne & q & Hq & [[-> Hpc]|[-> _]]); [|done].
    destruct (iv_peer _ _ Hi c q d Hq Hd) as (Hdc & y & Hy & Hyc). split; [done|].
    assert (Hda : d <> a) by congruence. rewrite lookup_delete_ne by done.
    assert (Hpd : pipe_peer p <> Some d).
    { intros Hpd. destruct (iv_peer _ _ Hi a p d Ha Hpd) as (_ & z & Hz & Hza). congruence. }
    exists y. split; [|done]. unfold unpeered in Hun. destruct (pipe_peer p) as [b|]; [|by subst].
    destruct Hun as (z & _ & ->). rewrite lookup_insert_ne; [done|]. congruence.
  - constructor.
  - intros b. exact (close_drop st KC a a false false b Hi).
  - intros tid t Hth. destruct (iv_thr _ _ Hi tid t Hth) as [(q & Hq & Hr) H1 H2].
    destruct (Hthr tid t Hth) as [Hpt Hft].
    assert (Hx : exists x, delete a pm' !! ro_pipe (role_of (t_pc t)) = Some x).
    { rewrite lookup_delete_ne by done. unfold unpeered in Hun.
      destruct (pipe_peer p) as [b|]; [|subst; by eexists]. destruct Hun as (z & _ & ->).
      destruct (decide (b = ro_pipe (role_of (t_pc t)))) as [->|Hn];
        [rewrite lookup_insert_eq|rewrite lookup_insert_ne by done]; by eexists. }
    destruct Hx as [x Hx]. destruct (Hlook _ _ Hx) as (_ & q' & Hq' & Hc).
    assert (q' = q) as -> by congruence.
    assert (Hsame : pipe_buffer x = pipe_buffer q /\ pipe_busy x = pipe_busy q /\ pipe_state x = pipe_state q)
      by (by destruct Hc as [[-> _]|[-> _]]).
    destruct Hsame as (E1 & E2 & E3). split.
    + exists x. split; [done|]. unfold role_at in *. destruct (ro_kind (role_of (t_pc t))); [done| |].
      * destruct Hc as [[-> _]|[-> Hpc]]; [done|]. exfalso.
        destruct (iv_peer _ _ Hi a p _ Ha Hpc) as (_ & z & Hz & Hza). destruct Hr as [Hr _]. congruence.
      * unfold flag in *. by rewrite E3.
    + intros y Hy. assert (y = x) as -> by congruence. by apply (local_at_buf q), H1.
    + intros y Hy Haw. assert (y = x) as -> by congruence. specialize (H2 q Hq Haw).
      destruct (t_pc t); simpl in *; unfold flag in *; rewrite ?E2, ?E3; done.
  - rewrite (msum_delete _ _ _ p) by done. rewrite (iv_big _ _ Hi). f_equal. symmetry.
    by apply (unpeered_sum big _ p).
  - rewrite (msum_delete _ _ _ p) by done. rewrite (iv_kva _ _ Hi). f_equal. symmetry.
    by apply (unpeered_sum (fun p => size (pipe_buffer p)) _ p).
  - destruct (iv_fifo _ _ Hi) as (q & Hq & Hh). exists q. split; [done|]. simpl.
    intros c x Hx. destruct (Hlook c x Hx) as (_ & y & Hy & [[-> _]|[-> _]]); [by apply Hh|].
    by apply (Hh c y).
Qed.

(** [pipe_free_kmem] and [pool_put]. *)
Lemma free_eq st a p m :
  pipes st !! a = Some p -> buffer (pipe_buffer p) = Some m ->
  (st ← pipe_free_kmem st a;
   Ok (Pst (delete a (pipes st)) (nbigpipe st) (amountpipekva st) (threads st) (log st), Ret 0 0 [])) =
  Ok (Pst (delete a (pipes st)) (nbigpipe st - big p) (amountpipekva st - size (pipe_buffer p))
        (threads st) (log st), Ret 0 0 []).
Proof.
  intros Ha Hm. unfold pipe_free_kmem. rewrite (deref_eq _ _ _ Ha). cbn [mbind outcome_bind].
  rewrite Hm. cbn [mbind outcome_bind]. simpl. rewrite delete_insert_eq. unfold big.
  destruct (PIPE_SIZE <? size (pipe_buffer p)); by rewrite ?Z.sub_0_r.
Qed.

Lemma close_done_spec st a p :
  inv st [Role KC a a false false false] -> pipes st !! a = Some p -> pipe_busy p = 0 ->
  ends st (close_done st a) (fun evs l' => evs = [] /\ l' = Ret 0 0 []).
Proof.
  intros Hi Ha Hb. unfold close_done. rewrite (deref_eq _ _ _ Ha). cbn [mbind outcome_bind].
  destruct (po_buf _ _ _ _ (iv_pipe _ _ Hi a p Ha)) as [m [Hm _ _ _ _ _]].
  destruct (pipe_peer p) as [b|] eqn:Ep.
  - destruct (iv_peer _ _ Hi a p b Ha Ep) as (Hne & q & Hq & Hqa).
    destruct (sel_spec st _ b q Hi Hq) as (st1 & q1 & -> & Hi1 & Hq1 & Hk1 & Hs1 & Hth1 & Hoth & _).
    cbn [mbind outcome_bind]. rewrite (deref_eq _ _ _ Hq1). cbn [mbind outcome_bind].
    apply (ends_same _ _ _ _ Hs1).
    assert (Ha1 : pipes st1 !! a = Some p) by (by rewrite Hoth).
    set (st2 := wakeup b (store b (raise PIPE_EOF q1) st1)).
    assert (Hi2 : inv st2 [Role KC a a false false false]).
    { pose proof (iv_pipe _ _ Hi1 b q1 Hq1) as [K1 K2 K3 K4 K5].
      apply (inv_update true None st1 [Role KC a a false false false] _ b q1); flags; try done.
      - simpl. lia.
      - lia.
      - pose proof (iv_role _ _ Hi1) as Hr. apply Forall_cons in Hr as [(x & Hx & Hr) _].
        constructor; [|constructor]. exists x. simpl in *. by rewrite lookup_insert_ne.
      - exact (iv_close _ _ Hi1). }
    assert (Hq2 : pipes st2 !! b = Some (raise PIPE_EOF q1)) by apply lookup_insert_eq.
    assert (Ha2 : pipes st2 !! a = Some p) by (simpl; by rewrite lookup_insert_ne).
    rewrite (deref_eq _ _ _ Hq2). cbn [mbind outcome_bind].
    rewrite (free_eq _ a p m); [|simpl; by rewrite !lookup_insert_ne|done].
    apply ends_here; [|simpl|done].
    + unfold st2. etransitivity; [apply (same_store b (raise PIPE_EOF q1))|].
      etransitivity; [apply (same_wakeup b)|by split].
    + apply (inv_free st2 a p); try done. unfold unpeered. rewrite Ep. by exists (raise PIPE_EOF q1).
  - cbn [mbind outcome_bind]. rewrite (free_eq _ a p m) by done. apply ends_here; [by split| |done].
    apply (inv_free st a p); try done. unfold unpeered. by rewrite Ep.
Qed.

Lemma close_wait_spec st a p :
  inv st [Role KC a a false false false] -> pipes st !! a = Some p -> flag p PIPE_EOF = true ->
  ends st (close_wait st a) (fun evs l' => evs = [] /\ (l' = CWait a \/ l' = Ret 0 0 [])).
Proof.
  intros Hi Ha He. unfold close_wait. rewrite (deref_eq _ _ _ Ha). cbn [mbind outcome_bind].
  destruct (Z.eqb_spec (pipe_busy p) 0) as [Hb|Hb]; cbn [negb].
  - eapply ends_impl; [by apply (close_done_spec st a p)|]. intros evs l' [-> ->]. auto.
  - assert (Hpos : 0 < pipe_busy p).
    { pose proof (po_busy _ _ _ _ (iv_pipe _ _ Hi a p Ha)) as Hn. rewrite tot_one in Hn.
      change (busy_on a (Role KC a a false false false)) with false in Hn. cbn iota in Hn.
      pose proof (roles_nonneg (busy_on a) (roles (threads st))). lia. }
    change (store a (raise PIPE_WANT p) (wakeup a st)) with (woke true a (store a (raise PIPE_WANT p) st)).
    apply ends_here; [| |auto].
    + etransitivity; [apply same_store|apply same_wakeup].
    + split.
      * apply (inv_my_flags true st KC a a false false false false false false p); mine.
      * exists (raise PIPE_WANT p). split; [apply woke_at|]. split; [done|]. simpl. flags. done.
Qed.

(** The thread begins to close [a], which it alone works through. *)
Lemma inv_closing wk st a p p' :
  inv st [] -> pipes st !! a = Some p -> tot st [] (via a) = 0 ->
  pipe_buffer p' = pipe_buffer p -> pipe_peer p' = pipe_peer p -> pipe_busy p' = pipe_busy p ->
  flag p' PIPE_EOF = true -> flag p' PIPE_LOCK = flag p PIPE_LOCK ->
  flag p' PIPE_WANTR = flag p PIPE_WANTR -> flag p' PIPE_WANTW = flag p PIPE_WANTW ->
  (wk = false -> pipe_busy p = 0) ->
  inv (woke wk a (store a p' st)) [Role KC a a false false false].
Proof.
  intros Hi Ha Hvia Hb Hp Hbusy He Hl Hr Hw Hwk. pose proof (iv_pipe _ _ Hi a p Ha) as [K1 K2 K3 K4 K5].
  apply (inv_update wk None st [] _ a p); rewrite ?Hb, ?Hl, ?Hr, ?Hw; try done.
  - simpl. by rewrite Hb.
  - change (count (busy_on a) [Role KC a a false false false]) with 0. simpl. lia.
  - change (count (locks a) [Role KC a a false false false]) with 0. simpl. lia.
  - constructor; [|constructor]. exists p'. simpl. by rewrite lookup_insert_eq.
  - intros b. rewrite !tot_one. pose proof (iv_close _ _ Hi b) as Hc. unfold tot in Hc, Hvia. simpl in Hc, Hvia.
    unfold closes at 1, via at 1. simpl. destruct (Z.eqb_spec a b) as [->|Hne]; [lia|]. intros Hx.
    by apply Hc.
  - intros tid t Ht _. by apply local_at_buf.
  - intros -> tid t Ht Hta _. exfalso. specialize (Hwk eq_refl).
    unfold tot in Hvia, K2. simpl in Hvia, K2.
    assert (Hno : ro_file (role_of (t_pc t)) <> a).
    { intros Hf. pose proof (thread_role st tid t (via a) Ht ltac:(unfold via; by rewrite Hf, Z.eqb_refl)). lia. }
    destruct (to_role _ _ (iv_thr _ _ Hi tid t Ht)) as (q & Hq & Hro). unfold role_at in Hro.
    destruct (ro_kind (role_of (t_pc t))); [congruence| |destruct Hro; congruence].
    destruct Hro as [_ Hbt]. pose proof (thread_role st tid t (busy_on a) Ht
      ltac:(unfold busy_on; by rewrite Hbt, Hta, Z.eqb_refl)). lia.
Qed.

Lemma pipeclose_spec st a p :
  inv st [] -> pipes st !! a = Some p -> tot st [] (via a) = 0 ->
  ends st (pipeclose st a) (fun evs l' => evs = [] /\ (l' = CWait a \/ l' = Ret 0 0 [])).
Proof.
  intros Hi Ha Hvia. unfold pipeclose.
  destruct (sel_spec st [] a p Hi Ha) as (st1 & p1 & -> & Hi1 & Ha1 & Hk1 & Hs1 & Hth1 & _).
  cbn [mbind outcome_bind]. rewrite (deref_eq _ _ _ Ha1). cbn [mbind outcome_bind].
  apply (ends_same _ _ _ _ Hs1).
  assert (Hvia1 : tot st1 [] (via a) = 0) by (unfold tot in *; by rewrite Hth1).
  destruct (decide (pipe_busy p1 = 0)) as [Hb|Hb].
  - apply (ends_same _ _ _ _ (same_store a (raise PIPE_EOF p1) st1)).
    apply (close_wait_spec _ a (raise PIPE_EOF p1)); [|apply store_at|by flags].
    apply (inv_closing false st1 a p1); try done; by flags.
  - unfold close_wait. rewrite (deref_eq _ a (raise PIPE_EOF p1)) by apply store_at.
    cbn [mbind outcome_bind]. rewrite (proj2 (Z.eqb_neq (pipe_busy (raise PIPE_EOF p1)) 0)) by done.
    cbn [negb].
    assert (Hpos : 0 < pipe_busy p1).
    { pose proof (po_busy _ _ _ _ (iv_pipe _ _ Hi1 a p1 Ha1)) as Hn. unfold tot in Hn. simpl in Hn.
      pose proof (roles_nonneg (busy_on a) (roles (threads st1))). lia. }
    set (p2 := raise PIPE_WANT (raise PIPE_EOF p1)).
    replace (store a p2 (wakeup a (store a (raise PIPE_EOF p1) st1)))
      with (woke true a (store a p2 st1)) by (unfold woke, wakeup, set_threads, store; simpl; by rewrite insert_insert_eq).
    apply ends_here; [| |auto].
    + etransitivity; [apply same_store|apply same_wakeup].
    + split.
      * apply (inv_closing true st1 a p1); try done; unfold p2; by flags.
      * exists p2. split; [apply woke_at|]. split; [done|]. unfold p2. simpl. by flags.
Qed.

(** ** Threads *)

(** A thread stops where it may. *)
Lemma inv_land st tid l p :
  inv st [role_of l] -> pipes st !! ro_pipe (role_of l) = Some p -> local_at p l -> asleep_at p l ->
  threads st !! tid = None -> inv (set_threads <[tid := Thread l false]> st) [].
Proof.
  intros Hi Hp Hl Hs Ht. set (st' := set_threads _ st).
  assert (Etot : forall f, tot st' [] f = tot st [role_of l] f).
  { intros f. unfold tot. simpl. rewrite (count_perm f _ _ (roles_insert (threads st) tid (Thread l false) Ht)).
    simpl. lia. }
  destruct Hi as [H1 H2 H3 H4 H5 H6 H7 H8]. split; try done.
  - intros a q Hq. destruct (H1 a q Hq) as [K1 K2 K3 K4 K5]. split; rewrite ?Etot; done.
  - intros a. rewrite !Etot. apply H4.
  - intros tid' t Hth. simpl in Hth. apply lookup_insert_Some in Hth as [[<- <-]|[Hne Hth]]; [|by apply (H5 tid')].
    split.
    + by apply Forall_cons in H3 as [H3 _].
    + intros q Hq. simpl in *. by assert (q = p) as -> by congruence.
    + intros q Hq _. simpl in *. by assert (q = p) as -> by congruence.
Qed.

(** A thread goes on. *)
Lemma inv_take st tid t :
  inv st [] -> threads st !! tid = Some t -> inv (set_threads (delete tid) st) [role_of (t_pc t)].
Proof.
  intros [H1 H2 H3 H4 H5 H6 H7 H8] Ht. set (st' := set_threads _ st).
  assert (Etot : forall f, tot st' [role_of (t_pc t)] f = tot st [] f).
  { intros f. unfold tot. simpl. rewrite (count_perm f _ _ (roles_delete (threads st) tid t Ht)). simpl. lia. }
  split; try done.
  - intros a q Hq. destruct (H1 a q Hq) as [K1 K2 K3 K4 K5]. split; rewrite ?Etot; done.
  - constructor; [|constructor]. apply (to_role _ _ (H5 tid t Ht)).
  - intros a. rewrite !Etot. apply H4.
  - intros tid' t' Hth. simpl in Hth. apply lookup_delete_Some in Hth as [_ Hth]. by apply (H5 tid').
Qed.

(** A reader that has not begun counts for nothing but its file. *)
Lemma idle_tot st a f b :
  f ∈ [busy_on b; locks b; acts KR b; acts KW b] ->
  tot st [Role KR a a false false false] f = tot st [] f.
Proof.
  rewrite !elem_of_cons, elem_of_nil. intros Hf. rewrite tot_one. unfold tot. simpl.
  by destruct Hf as [->|[->|[->|[->|[]]]]].
Qed.

Lemma inv_enter st a p :
  inv st [] -> pipes st !! a = Some p -> tot st [] (closes a) = 0 ->
  inv st [Role KR a a false false false].
Proof.
  intros [H1 H2 H3 H4 H5 H6 H7 H8] Ha Hcl. split; try done.
  - intros b q Hq. destruct (H1 b q Hq) as [K1 K2 K3 K4 K5].
    split; rewrite ?(idle_tot st a _ b) by set_solver; done.
  - constructor; [|constructor]. by exists p.
  - intros b. specialize (H4 b). rewrite !tot_one. unfold tot in H4, Hcl. simpl in H4, Hcl.
    change (closes b (Role KR a a false false false)) with false.
    change (via b (Role KR a a false false false)) with (a =? b).
    intros Hb. destruct (Z.eqb_spec a b) as [->|Hne]; [lia|]. by apply H4.
Qed.

Lemma inv_idle st a : inv st [Role KR a a false false false] -> inv st [].
Proof.
  intros Hi. pose proof Hi as [H1 H2 H3 H4 H5 H6 H7 H8]. split; try done.
  - intros b q Hq. destruct (H1 b q Hq) as [K1 K2 K3 K4 K5].
    split; rewrite <- ?(idle_tot st a _ b) by set_solver; done.
  - intros b. exact (close_drop st KR a a false false b Hi).
Qed.

(** What the places where a thread stopped may give it.  A thread that waited
    for the lock to enlarge a buffer must find it empty: the code does not look
    again. *)
Definition input_ok (st : pst) (t : thread) (x : input) : Prop :=
  match t_pc t, x with
  | RMove _ n, CopyOut e k => e <> 0 -> 0 <= k < n
  | WMove _ _ g, CopyIn e bs =>
      if e =? 0 then Z.of_nat (length bs) = g else Z.of_nat (length bs) < g
  | WMove2 _ n g _, CopyIn e bs =>
      if e =? 0 then Z.of_nat (length bs) = n - g else Z.of_nat (length bs) < n - g
  | WAlloc _, Memory (Some m) => Z.of_nat (length m) = BIG_PIPE_SIZE
  | WGrow l, Wakes e =>
      e = 0 -> forall p, pipes st !! w_pipe l = Some p -> flag p PIPE_LOCK = false ->
      cnt (pipe_buffer p) = 0
  | _, _ => True
  end.

(** What a read does next, once it could not go on at [lr] with a pipe like [p]:
    it goes on as [read_try] says, or its sleep ended with an error. *)
Definition reads_on (lr : rd) (p : pipe) (evs : list event) (l' : pc) : Prop :=
  read_try lr p evs l' \/
  evs = [] /\ exists e, e <> 0 /\ l' = Ret e (r_resid lr) (r_data lr).

(** What a thread at [l] does next, with a pipe like [p]. *)
Definition step_post (p : pipe) (tid : Z) (l : pc) (evs : list event) (l' : pc) : Prop :=
  match l with
  | RLock lr | RSleep lr | RRelock lr => reads_on lr p evs l'
  | RMove lr n =>
      (evs = [] /\ exists e res d, l' = Ret e res d /\ e <> 0) \/
      (exists bs, evs = [Got (r_pipe lr) tid bs] /\ bs = chunk p n /\ Z.of_nat (length bs) = n /\ 0 < n /\
         match l' with
         | Ret e res d => e = 0 /\ res = r_resid lr - n /\ d = r_data lr ++ bs
         | _ => exists l2, reading l' = Some l2 /\ r_pipe l2 = r_pipe lr /\ r_resid l2 = r_resid lr - n /\
             r_data l2 = r_data lr ++ bs
         end)
  | WGrow lw | WAlloc lw => write_out lw tid (w_resid lw) (w_resid lw) evs l'
  | WLock lw _ | WMove lw _ _ | WSleep lw => write_out lw tid (w_orig lw) (w_resid lw) evs l'
  | WMove2 lw _ segsize _ => write_out lw tid (w_orig lw) (w_resid lw + segsize) evs l'
  | CWait _ | Ret _ _ _ => evs = []
  end.

Lemma resume_ends st now tid t x r p :
  inv st [role_of (t_pc t)] -> pipes st !! ro_pipe (role_of (t_pc t)) = Some p ->
  local_at p (t_pc t) -> input_ok st t x -> resume st now tid t x = Some r ->
  ends st r (step_post p tid (t_pc t)).
Proof.
  intros Hi Ha Hl Hx Hr. unfold resume in Hr. destruct t as [l aw]. simpl in *.
  assert (Herr : forall lr e, (e =? 0) = false -> reads_on lr p [] (Ret e (r_resid lr) (r_data lr))).
  { intros lr e He%Z.eqb_neq. right. split; [done|]. by exists e. }
  destruct l; simpl in Hi, Ha; destruct x as [e|e k|e bs|mem]; try discriminate Hr;
    try (destruct (negb (negb (e =? 0) || aw)); [discriminate Hr|]).
  - injection Hr as <-. destruct (e =? 0) eqn:Ee; cbn [negb].
    + eapply ends_impl; [by apply (read_lock_spec _ _ _ p)|]. by left.
    + apply ends_here; [done| |by apply Herr]. simpl. by eapply inv_idle.
  - injection Hr as <-. eapply ends_impl; [by apply (read_moved_spec _ _ _ _ _ _ _ p)|].
    cbn beta. intros evs l'. destruct (Z.eqb_spec e 0) as [->|Hne].
    + intros [-> Hret]. right. exists (chunk p n). destruct Hl as (_ & Hn & _).
      split; [done|]. split; [done|]. split; [|split; [lia|done]]. unfold chunk. rewrite length_take.
      destruct (po_buf _ _ _ _ (iv_pipe _ _ Hi _ _ Ha)) as [m Hb]. pose proof (held_length _ _ Hb). lia.
    + intros [-> (res & d & ->)]. left. split; [done|]. by do 3 eexists.
  - injection Hr as <-. destruct (e =? 0) eqn:Ee; cbn [negb].
    + eapply ends_impl; [apply (read_relock_spec _ _ _ p); by destruct Hl|]. by left.
    + apply (read_exit_spec _ _ _ false p); [done..|]. by apply Herr.
  - injection Hr as <-. destruct (e =? 0) eqn:Ee; cbn [negb].
    + eapply ends_impl; [apply (read_relock_spec _ _ _ p); by destruct Hl|]. by left.
    + apply (read_exit_spec _ _ _ false p); [done..|]. by apply Herr.
  - injection Hr as <-. destruct (Z.eqb_spec e 0) as [->|Hne]; cbn [negb].
    + eapply ends_impl; [apply (write_grow_spec _ _ p); try done; by apply (Hx eq_refl)|].
      cbn beta. intros evs l' [Hq Hno]. left. split; [done|]. intros e res d ->. by destruct (Hno e res d).
    + apply (write_early_spec _ _ _ p); [done..|]. left. split; [done|]. by intros e' res d [= <- _ _].
  - injection Hr as <-. apply (write_alloc_spec _ _ _ _ _ p); try done; by destruct mem.
  - destruct Hl as (Hok & Hres & Hsp & Hat). injection Hr as <-. destruct (Z.eqb_spec e 0) as [->|Hne]; cbn [negb].
    + eapply ends_impl; [by apply (write_lock_spec _ _ _ _ p)|]. intros evs l'. by apply write_result_out.
    + apply (write_end_spec _ _ _ _ true p); [done..|]. left. split; [done|]. intros e' res d [= <- _ _].
      unfold write_error. by rewrite (proj2 (Z.eqb_neq (w_resid l) 0)), andb_false_r by lia.
  - injection Hr as <-. by apply (write_moved_spec _ _ _ _ _ _ _ _ p).
  - injection Hr as <-. by apply (write_moved2_spec _ _ _ _ _ _ _ _ _ p).
  - destruct Hl as [Hok Hres]. injection Hr as <-.
    assert (Hnz : forall e, write_error l p e = e).
    { intros e0. unfold write_error. by rewrite (proj2 (Z.eqb_neq (w_resid l) 0)), andb_false_r by lia. }
    destruct (Z.eqb_spec e 0) as [->|Hne]; cbn [negb].
    + rewrite (deref_eq _ _ _ Ha). cbn [mbind outcome_bind]. destruct (flag p PIPE_EOF).
      * apply (write_end_spec _ _ _ _ false p); [done..|]. rewrite Hnz. left. split; [done|].
        by intros e' res d [= <- _ _].
      * eapply ends_impl; [by apply (write_loop_spec _ _ _ false p)|]. intros evs l'. by apply write_result_out.
    + apply (write_end_spec _ _ _ _ false p); [done..|]. rewrite Hnz. left. split; [done|].
      by intros e' res d [= <- _ _].
  - destruct (negb aw || negb (e =? 0)); [discriminate Hr|]. injection Hr as <-.
    pose proof (iv_role _ _ Hi) as Hro. apply Forall_cons in Hro as [(q & Hq & _ & Heof) _]. simpl in Hq, Heof.
    assert (q = p) as -> by congruence.
    eapply ends_impl; [by apply (close_wait_spec _ _ p)|]. by intros evs l' [-> _].
Qed.

(** ** Making pipes *)

Lemma inv_tell st e : is_move e = false -> inv st [] -> inv (tell e st) [].
Proof.
  intros He [H1 H2 H3 H4 H5 H6 H7 (q & Hq & Hh)]. split; try done.
  - intros a p Ha. destruct (H1 a p Ha). by split.
  - exists q. split; [|done]. simpl. unfold spec_run in *. rewrite foldl_app, Hq. by destruct e.
Qed.

(** A pipe as [pipe_create] leaves it. *)
Definition created (now : Z) (m : list Z) (peer : option Z) : pipe :=
  MkPipe (Pipebuf 0 0 0 PIPE_SIZE (Some m)) [] now now now NO_PID peer 0 0.

Lemma create_eq st now a old mem :
  pipe_create st now a old mem =
  match mem with
  | None => Ok (store a (MkPipe (Pipebuf (cnt (pipe_buffer old)) (in_ (pipe_buffer old))
              (out (pipe_buffer old)) (size (pipe_buffer old)) None) [] (pipe_atime old) (pipe_mtime old)
              (pipe_ctime old) (pipe_pgid old) None 0 0) st, ENOMEM)
  | Some m => Ok (Pst (<[a := created now m None]> (pipes st)) (nbigpipe st)
                    (amountpipekva st + PIPE_SIZE) (threads st) (log st), 0)
  end.
Proof.
  destruct mem as [m|]; [|done].
  unfold pipe_create, pipespace, pipe_free_kmem, deref. simpl. rewrite lookup_insert_eq.
  cbn [mbind outcome_bind]. simpl. rewrite lookup_insert_eq. cbn [mbind outcome_bind]. simpl.
  rewrite lookup_insert_eq. cbn [mbind outcome_bind]. simpl. unfold store. simpl.
  by rewrite !insert_insert_eq.
Qed.

(** Closing a pipe that was never joined to another one. *)
Lemma close_fresh st a p :
  pipes st !! a = Some p -> pipe_state p = 0 -> pipe_busy p = 0 -> pipe_peer p = None ->
  (forall m, buffer (pipe_buffer p) = Some m -> size (pipe_buffer p) = PIPE_SIZE) ->
  exists x, pipeclose st a =
    Ok (Pst (delete a (pipes st)) (nbigpipe st)
          (amountpipekva st - match buffer (pipe_buffer p) with Some _ => PIPE_SIZE | None => 0 end)
          (threads st) (log st ++ [Knote a]), x).
Proof.
  intros Ha Hs Hb Hp Hsz. unfold pipeclose, pipeselwakeup. rewrite (deref_eq _ _ _ Ha).
  cbn [mbind outcome_bind]. unfold flag. rewrite Hs. change (has 0 PIPE_SEL) with false.
  change (has 0 PIPE_ASYNC) with false. cbn [andb mbind outcome_bind].
  rewrite (deref_eq (tell (Knote a) st) a p) by done. cbn [mbind outcome_bind].
  unfold close_wait, close_done. rewrite (deref_eq _ a (raise PIPE_EOF p)) by apply store_at.
  cbn [mbind outcome_bind]. change (pipe_busy (raise PIPE_EOF p)) with (pipe_busy p). rewrite Hb.
  cbn [Z.eqb negb]. change (pipe_peer (raise PIPE_EOF p)) with (pipe_peer p). rewrite Hp.
  cbn [mbind outcome_bind]. unfold pipe_free_kmem. rewrite (deref_eq _ a (raise PIPE_EOF p)) by apply store_at.
  cbn [mbind outcome_bind]. change (pipe_buffer (raise PIPE_EOF p)) with (pipe_buffer p).
  destruct (buffer (pipe_buffer p)) as [m|] eqn:Em.
  - rewrite (Hsz m eq_refl). cbn [mbind outcome_bind]. simpl. eexists.
    by rewrite insert_insert_eq, delete_insert_eq.
  - cbn [mbind outcome_bind]. simpl. eexists. by rewrite delete_insert_eq, Z.sub_0_r.
Qed.

(** Two new pipes. *)
Lemma inv_open st a b now m m' :
  inv st [] -> pipes st !! a = None -> pipes st !! b = None -> a <> b ->
  Z.of_nat (length m) = PIPE_SIZE -> Z.of_nat (length m') = PIPE_SIZE ->
  inv (Pst (<[b := created now m' (Some a)]> (<[a := created now m (Some b)]> (pipes st))) (nbigpipe st)
         (amountpipekva st + PIPE_SIZE + PIPE_SIZE) (threads st) (log st ++ [Opened a b])) [].
Proof.
  intros Hi Ha Hb Hab Hm Hm'. pose proof Hi as [H1 H2 H3 H4 H5 H6 H7 (q & Hq & Hh)].
  set (pm := <[b := _]> _). set (st' := Pst pm _ _ _ _).
  assert (Hlook : forall c p, pm !! c = Some p ->
    pipes st !! c = Some p /\ c <> a /\ c <> b \/
    exists n peer, (c = a /\ peer = b \/ c = b /\ peer = a) /\ p = created now n (Some peer) /\
      Z.of_nat (length n) = PIPE_SIZE).
  { intros c p Hc. apply lookup_insert_Some in Hc as [[<- <-]|[Hcb Hc]]; [right; naive_solver|].
    apply lookup_insert_Some in Hc as [[<- <-]|[Hca Hc]]; [right; naive_solver|]. auto. }
  assert (Hold : forall c p, pipes st !! c = Some p -> pm !! c = Some p).
  { intros c p Hc. unfold pm. rewrite !lookup_insert_ne; [done|congruence..]. }
  assert (Hnone : forall c f, pipes st !! c = None -> f ∈ [busy_on c; locks c] ->
    count f (roles (threads st)) = 0).
  { intros c f Hc Hf. pose proof (roles_nonneg f (roles (threads st))).
    destruct (decide (0 < count f (roles (threads st)))) as [Hpos|]; [|lia]. exfalso.
    apply roles_pos in Hpos as (r & Hr & Hfr). apply roles_elem in Hr as (tid & t & Ht & ->).
    destruct (to_role _ _ (H5 tid t Ht)) as (x & Hx & _).
    assert (ro_pipe (role_of (t_pc t)) = c); [|congruence].
    rewrite !elem_of_cons, elem_of_nil in Hf.
    destruct Hf as [->|[->|[]]]; unfold busy_on, locks in Hfr; zify_bool; done. }
  split; try done.
  - intros c p Hc. destruct (Hlook c p Hc) as [[Hc' _]|(n & peer & Hcase & -> & Hn)].
    + destruct (H1 c p Hc'). by split.
    + assert (Hfree : pipes st !! c = None) by (by destruct Hcase as [[-> _]|[-> _]]).
      split; try done; unfold tot; simpl.
      * exists n. split; simpl; try done; [by left|unfold PIPE_SIZE; lia..].
      * by rewrite (Hnone c) by (done || set_solver).
      * by rewrite (Hnone c) by (done || set_solver).
  - intros c p d Hc Hd. destruct (Hlook c p Hc) as [[Hc' _]|(n & peer & Hcase & -> & Hn)].
    + destruct (H2 c p d Hc' Hd) as (Hdc & x & Hx & Hxc). split; [done|]. exists x. split; [|done].
      by apply Hold.
    + injection Hd as <-. simpl. unfold pm. destruct Hcase as [[-> ->]|[-> ->]].
      * split; [done|]. exists (created now m' (Some a)). by rewrite lookup_insert_eq.
      * split; [done|]. exists (created now m (Some b)). by rewrite lookup_insert_ne, lookup_insert_eq.
  - intros tid t Ht. destruct (H5 tid t Ht) as [(x & Hx & Hr) K2 K3]. split.
    + exists x. split; [by apply Hold|done].
    + intros p Hp. apply K2. rewrite (Hold _ _ Hx : pipes st' !! _ = _) in Hp. congruence.
    + intros p Hp. apply K3. rewrite (Hold _ _ Hx : pipes st' !! _ = _) in Hp. congruence.
  - simpl. unfold pm. rewrite msum_insert by (by rewrite lookup_insert_ne).
    rewrite msum_insert by done. rewrite H6. done.
  - simpl. unfold pm. rewrite msum_insert by (by rewrite lookup_insert_ne).
    rewrite msum_insert by done. simpl. lia.
  - exists (<[a := []]> (<[b := []]> q)). split.
    + simpl. unfold spec_run in *. by rewrite foldl_app, Hq.
    + intros c p Hc. destruct (Hlook c p Hc) as [(Hc' & Hca & Hcb)|(n & peer & Hcase & -> & Hn)].
      * rewrite !lookup_insert_ne by done. by apply Hh.
      * destruct Hcase as [[-> _]|[-> _]]; [by rewrite lookup_insert_eq|].
        rewrite lookup_insert_ne by done. by rewrite lookup_insert_eq.
Qed.

Lemma dopipe_pipes_spec st now a b olda oldb mema memb :
  inv st [] -> pipes st !! a = None -> pipes st !! b = None -> a <> b ->
  (forall m, mema = Some m \/ memb = Some m -> Z.of_nat (length m) = PIPE_SIZE) ->
  exists st' e, dopipe_pipes st now a b olda oldb mema memb = Ok (st', e) /\ inv st' [] /\
    threads st' = threads st /\
    if e =? 0 then moves (log st') = moves (log st) ++ [Opened a b] /\
      exists m m', pipes st' = <[b := created now m' (Some a)]> (<[a := created now m (Some b)]> (pipes st))
    else pipes st' = pipes st /\ moves (log st') = moves (log st).
Proof.
  intros Hi Ha Hb Hab Hmem. unfold dopipe_pipes. rewrite create_eq. destruct mema as [m|].
  2:{ cbn [mbind outcome_bind]. change (negb (ENOMEM =? 0)) with true. cbn iota.
      edestruct (close_fresh (store a (MkPipe (Pipebuf (cnt (pipe_buffer olda)) (in_ (pipe_buffer olda))
        (out (pipe_buffer olda)) (size (pipe_buffer olda)) None) [] (pipe_atime olda) (pipe_mtime olda)
        (pipe_ctime olda) (pipe_pgid olda) None 0 0) st) a) as [x ->]; [apply store_at|done..|].
      cbn [mbind outcome_bind]. simpl. rewrite Z.sub_0_r, delete_insert_id by done.
      exists (tell (Knote a) st), ENOMEM. split; [by destruct st|]. split; [by apply inv_tell|].
      split; [done|]. split; [done|]. simpl. rewrite moves_app. by rewrite app_nil_r. }
  cbn [mbind outcome_bind negb Z.eqb]. rewrite create_eq. destruct memb as [m'|].
  2:{ cbn [mbind outcome_bind]. change (negb (ENOMEM =? 0)) with true. cbn iota.
      edestruct (close_fresh (store b (MkPipe (Pipebuf (cnt (pipe_buffer oldb)) (in_ (pipe_buffer oldb))
        (out (pipe_buffer oldb)) (size (pipe_buffer oldb)) None) [] (pipe_atime oldb) (pipe_mtime oldb)
        (pipe_ctime oldb) (pipe_pgid oldb) None 0 0)
        (Pst (<[a := created now m None]> (pipes st)) (nbigpipe st) (amountpipekva st + PIPE_SIZE)
           (threads st) (log st))) b) as [x ->]; [apply store_at|done..|].
      cbn [mbind outcome_bind]. simpl. rewrite Z.sub_0_r.
      rewrite delete_insert_id by (by rewrite lookup_insert_ne).
      edestruct (close_fresh (Pst (<[a := created now m None]> (pipes st)) (nbigpipe st)
        (amountpipekva st + PIPE_SIZE) (threads st) (log st ++ [Knote b])) a) as [y ->];
        [apply lookup_insert_eq|done..|].
      cbn [mbind outcome_bind]. simpl. rewrite Z.add_simpl_r, delete_insert_id by done.
      exists (tell (Knote a) (tell (Knote b) st)), ENOMEM. split; [by destruct st|].
      split; [by apply inv_tell, inv_tell|]. split; [done|]. split; [done|]. simpl.
      rewrite !moves_app. by rewrite !app_nil_r. }
  cbn [mbind outcome_bind negb Z.eqb]. unfold deref. simpl.
  rewrite lookup_insert_ne, lookup_insert_eq by done. cbn [mbind outcome_bind]. simpl.
  rewrite lookup_insert_ne, lookup_insert_eq by done. cbn [mbind outcome_bind].
  set (st' := tell _ _).
  assert (Hst : st' = Pst (<[b := created now m' (Some a)]> (<[a := created now m (Some b)]> (pipes st)))
    (nbigpipe st) (amountpipekva st + PIPE_SIZE + PIPE_SIZE) (threads st) (log st ++ [Opened a b])).
  { unfold st', tell, store. simpl. f_equal. rewrite (insert_insert_ne _ a b) by done.
    by rewrite !insert_insert_eq. }
  exists st', 0. split; [done|]. rewrite Hst. split; [|split; [done|]].
  - apply inv_open; try done; apply Hmem; auto.
  - simpl. split; [by rewrite moves_app|]. by exists m, m'.
Qed.

(** ** Calls *)

Inductive call : Type :=
| CRead (a : Z) (nonblock : bool) (resid : Z)
| CWrite (a : Z) (nonblock : bool) (resid : Z)
| CClose (a : Z)
| CResume (x : input)
| COpen (a b : Z) (olda oldb : pipe) (mema memb : option (list Z))
| CIoctl (a cmd data : Z)
| CPoll (a events : Z)
| CKqfilter (a kn kn_filter : Z)
| CKqdetach (a kn kn_filter : Z).

(** A call that returns at once. *)
Definition at_once (r : outcome (pst * Z)) : outcome (pst * option pc) :=
  r ← r; Ok (r.1, Some (Ret r.2 0 [])).

(** A call by the thread [tid], or its next piece; [None] when it cannot be. *)
Definition exec (st : pst) (now tid : Z) (c : call) : option (outcome (pst * option pc)) :=
  match threads st !! tid, c with
  | Some t, CResume x =>
      r ← resume (set_threads (delete tid) st) now tid t x; Some (land tid r)
  | None, CRead a nonblock resid => Some (land tid (pipe_read st now a nonblock resid))
  | None, CWrite a nonblock resid => Some (land tid (pipe_write st now a nonblock resid))
  | None, CClose a => Some (land tid (pipeclose st a))
  | None, COpen a b olda oldb mema memb =>
      Some (at_once (dopipe_pipes st now a b olda oldb mema memb))
  | None, CIoctl a cmd data =>
      Some (at_once (r ← pipe_ioctl st a cmd data; Ok (r.1.1, r.1.2)))
  | None, CPoll a events => Some (at_once (pipe_poll st tid a events))
  | None, CKqfilter a kn kn_filter => Some (at_once (pipe_kqfilter st a kn kn_filter))
  | None, CKqdetach a kn kn_filter =>
      Some (at_once (st ← filt_pipedetach st a kn kn_filter; Ok (st, 0)))
  | _, _ => None
  end.

(** The end [a] of a pipe is open: it is there and is not being closed. *)
Definition open_end (st : pst) (a : Z) : Prop :=
  is_Some (pipes st !! a) /\ tot st [] (closes a) = 0.

(** The knote is on the list it is taken from. *)
Definition attached (st : pst) (a kn kn_filter : Z) : Prop :=
  forall p, pipes st !! a = Some p ->
    (kn_filter = EVFILT_READ -> kn ∈ pipe_notes p) /\
    (kn_filter = EVFILT_WRITE -> forall w q, pipe_peer p = Some w -> pipes st !! w = Some q ->
     kn ∈ pipe_notes q).

(** What the callers see to: a file is closed when no one uses it any more and
    used only before, memory is fresh and of the size asked for, and no call
    asks for 2 GB. *)
Definition call_ok (st : pst) (tid : Z) (c : call) : Prop :=
  match c with
  | CRead a _ resid | CWrite a _ resid => open_end st a /\ 0 <= resid < 2 ^ 31
  | CClose a => is_Some (pipes st !! a) /\ tot st [] (via a) = 0
  | CResume x => forall t, threads st !! tid = Some t -> input_ok st t x
  | COpen a b _ _ mema memb =>
      pipes st !! a = None /\ pipes st !! b = None /\ a <> b /\
      forall m, mema = Some m \/ memb = Some m -> Z.of_nat (length m) = PIPE_SIZE
  | CIoctl a _ _ | CPoll a _ | CKqfilter a _ _ => open_end st a
  | CKqdetach a kn kn_filter => open_end st a /\ attached st a kn kn_filter
  end.

Definition pipe_init_state : pst := Pst ∅ 0 0 ∅ [].

Inductive reach : pst -> Prop :=
| reach_init : reach pipe_init_state
| reach_call st now tid c st' o :
    reach st -> call_ok st tid c -> exec st now tid c = Some (Ok (st', o)) -> reach st'.

(** What a call comes to. *)
Definition lands (st : pst) (tid : Z) (r : outcome (pst * option pc)) (Q : list event -> pc -> Prop)
    : Prop :=
  exists st' l evs, r = Ok (st', match l with Ret _ _ _ => Some l | _ => None end) /\ inv st' [] /\
    moves (log st') = moves (log st) ++ evs /\ Q evs l /\
    match l with Ret _ _ _ => True | _ => threads st' !! tid = Some (Thread l false) end.

Lemma land_ends st tid r Q :
  ends st r Q -> threads st !! tid = None -> lands st tid (land tid r) Q.
Proof.
  intros (st1 & l & evs & -> & Hs & Hm & Ht & HQ) Hn. unfold lands, land. cbn [mbind outcome_bind].
  assert (Hn1 : threads st1 !! tid = None) by (by apply Ht).
  destruct l; simpl in Hs;
    try match goal with |- context [Thread ?l0 false] =>
      destruct Hs as (Hi & p & Hp & Hl & Ha);
      exists (set_threads <[tid := Thread l0 false]> st1), l0, evs;
      split; [done|]; split; [by eapply inv_land|]; split; [done|]; split; [done|];
      simpl; apply lookup_insert_eq
    end.
  exists st1, (Ret error resid data), evs. by split_and!.
Qed.

(** Changes that no one relies on. *)
Lemma quiet_flags st a p p' :
  inv st [] -> pipes st !! a = Some p -> pipe_buffer p' = pipe_buffer p ->
  pipe_peer p' = pipe_peer p -> pipe_busy p' = pipe_busy p ->
  Forall (fun f => flag p' f = flag p f)
    [PIPE_WANTR; PIPE_WANTW; PIPE_WANT; PIPE_EOF; PIPE_LOCK; PIPE_LWANT] ->
  inv (store a p' st) [].
Proof.
  intros Hi Ha H1 H2 H3 H4. apply (inv_quiet None st [] a p); try done.
  intros f Hf. rewrite Forall_forall in H4. by apply H4.
Qed.

(** A call that returns at once moves no bytes. *)
Lemma at_once_lands st tid r (Q : list event -> pc -> Prop) st' e :
  r = Ok (st', e) -> inv st' [] -> moves (log st') = moves (log st) -> Q [] (Ret e 0 []) ->
  lands st tid (at_once r) Q.
Proof.
  intros -> Hi Hm HQ. exists st', (Ret e 0 []), []. rewrite app_nil_r. by split_and!.
Qed.

Ltac quiet_ok := repeat (constructor; [by flags|]); constructor.

Lemma ioctl_lands st tid a cmd data p :
  inv st [] -> pipes st !! a = Some p ->
  lands st tid (at_once (r ← pipe_ioctl st a cmd data; Ok (r.1.1, r.1.2))) (fun evs _ => evs = []).
Proof.
  intros Hi Ha. unfold pipe_ioctl. rewrite (deref_eq _ _ _ Ha). cbn [mbind outcome_bind].
  repeat match goal with |- context [if ?c =? ?d then _ else _] => destruct (c =? d) end;
    cbn [mbind outcome_bind]; try (by eapply at_once_lands).
  - eapply at_once_lands; [done| |done|done]. simpl. apply (quiet_flags st a p); try done;
      destruct (negb (data =? 0)); try done; quiet_ok.
  - eapply at_once_lands; [done| |done|done]. simpl. apply (quiet_flags st a p); try done; quiet_ok.
Qed.

Lemma select_on_spec st tid a p :
  inv st [] -> pipes st !! a = Some p ->
  exists st' p', select_on st tid a = Ok st' /\ inv st' [] /\ moves (log st') = moves (log st) /\
    pipes st' = <[a := p']> (pipes st) /\ pipe_peer p' = pipe_peer p.
Proof.
  intros Hi Ha. unfold select_on. rewrite (deref_eq _ _ _ Ha). cbn [mbind outcome_bind].
  exists (store a (raise PIPE_SEL p) (tell (Selrecord tid a) st)), (raise PIPE_SEL p). split; [done|].
  split; [|split; [|done]].
  - apply (quiet_flags _ a p); try done; [by apply inv_tell|quiet_ok].
  - simpl. rewrite moves_app. by rewrite app_nil_r.
Qed.

Lemma poll_lands st tid a events p :
  inv st [] -> pipes st !! a = Some p ->
  lands st tid (at_once (pipe_poll st tid a events)) (fun evs _ => evs = []).
Proof.
  intros Hi Ha. unfold pipe_poll. rewrite (deref_eq _ _ _ Ha). cbn [mbind outcome_bind].
  assert (Hrev : exists r, poll_revents st p events = Ok r /\ (r = 0 -> is_Some (pipe_peer p))).
  { unfold poll_revents, peer_gone. set (rev := if _ && _ then _ else 0).
    destruct (pipe_peer p) as [w|] eqn:Ew.
    - destruct (iv_peer _ _ Hi a p w Ha Ew) as (_ & q & Hq & _). rewrite (deref_eq _ _ _ Hq).
      cbn [mbind outcome_bind]. destruct (flag p PIPE_EOF || flag q PIPE_EOF);
        [eexists; split; [done|]; intros _; by eexists|].
      destruct (has events (POLLOUT .| POLLWRNORM)); eexists; (split; [done|]); intros _; by eexists.
    - cbn [mbind outcome_bind]. rewrite orb_true_r. eexists. split; [done|]. intros H0.
      apply Z.lor_eq_0_iff in H0 as [_ H0]. done. }
  destruct Hrev as (rev & -> & Hpeer). cbn [mbind outcome_bind].
  destruct (Z.eqb_spec rev 0) as [Hz|Hz]; cbn [negb]; [|by eapply at_once_lands].
  destruct (Hpeer Hz) as [w Hw]. rewrite Hw.
  assert (H1 : exists st1, (if has events (POLLIN .| POLLRDNORM) then select_on st tid a else Ok st) = Ok st1 /\
    inv st1 [] /\ moves (log st1) = moves (log st) /\ is_Some (pipes st1 !! w)).
  { destruct (iv_peer _ _ Hi a p w Ha Hw) as (Hwa & q & Hq & _). destruct (has events _).
    - destruct (select_on_spec st tid a p Hi Ha) as (st1 & p1 & -> & H1 & H2 & H3 & _). exists st1.
      split; [done|]. split; [done|]. split; [done|]. rewrite H3, lookup_insert_ne by done. by eexists.
    - exists st. by split_and!. }
  destruct H1 as (st1 & -> & Hi1 & Hm1 & q & Hq). cbn [mbind outcome_bind].
  destruct (has events (POLLOUT .| POLLWRNORM)).
  - destruct (select_on_spec st1 tid w q Hi1 Hq) as (st2 & p2 & -> & Hi2 & Hm2 & _).
    cbn [mbind outcome_bind]. eapply at_once_lands; [done|done|congruence|done].
  - cbn [mbind outcome_bind]. by eapply at_once_lands.
Qed.

Lemma kqfilter_lands st tid a kn f p :
  inv st [] -> pipes st !! a = Some p ->
  lands st tid (at_once (pipe_kqfilter st a kn f)) (fun evs _ => evs = []).
Proof.
  intros Hi Ha. unfold pipe_kqfilter. rewrite (deref_eq _ _ _ Ha). cbn [mbind outcome_bind].
  assert (Hat : forall x q, pipes st !! x = Some q ->
    lands st tid (at_once (Ok (store x (set_notes (kn :: pipe_notes q) q) st, 0))) (fun evs _ => evs = [])).
  { intros x q Hx. eapply at_once_lands; [done| |done|done]. apply (quiet_flags st x q); try done; quiet_ok. }
  destruct (f =? EVFILT_READ); [by apply (Hat a p)|].
  destruct (f =? EVFILT_WRITE); [|by eapply at_once_lands].
  destruct (pipe_peer p) as [w|] eqn:Ew; [|by eapply at_once_lands].
  destruct (iv_peer _ _ Hi a p w Ha Ew) as (_ & q & Hq & _).
  rewrite (deref_eq _ _ _ Hq). by apply (Hat w q).
Qed.

Lemma kqdetach_lands st tid a kn f p :
  inv st [] -> pipes st !! a = Some p -> attached st a kn f ->
  lands st tid (at_once (st ← filt_pipedetach st a kn f; Ok (st, 0))) (fun evs _ => evs = []).
Proof.
  intros Hi Ha Hatt. destruct (Hatt p Ha) as [Hr Hw]. unfold filt_pipedetach.
  rewrite (deref_eq _ _ _ Ha). cbn [mbind outcome_bind].
  assert (Hat : forall x q, pipes st !! x = Some q -> kn ∈ pipe_notes q ->
    lands st tid (at_once (st ← (if bool_decide (kn ∈ pipe_notes q)
      then Ok (store x (set_notes (filter (fun k => k <> kn) (pipe_notes q)) q) st) else Panic);
      Ok (st, 0))) (fun evs _ => evs = [])).
  { intros x q Hx Hin. rewrite bool_decide_true by done. cbn [mbind outcome_bind].
    eapply at_once_lands; [done| |done|done]. apply (quiet_flags st x q); try done; quiet_ok. }
  destruct (Z.eqb_spec f EVFILT_READ) as [E|_]; [by apply (Hat a p); auto|].
  destruct (Z.eqb_spec f EVFILT_WRITE) as [E|_]; [|by eapply at_once_lands].
  destruct (pipe_peer p) as [w|] eqn:Ew; [|by eapply at_once_lands].
  destruct (iv_peer _ _ Hi a p w Ha Ew) as (_ & q & Hq & _).
  rewrite (deref_eq _ _ _ Hq). apply (Hat w q); [done|]. by eapply Hw.
Qed.

(** What a call does, or the next piece of it. *)
Definition call_post (st : pst) (tid : Z) (c : call) (evs : list event) (l' : pc) : Prop :=
  match threads st !! tid with
  | Some t => exists p, pipes st !! ro_pipe (role_of (t_pc t)) = Some p /\
      step_post p tid (t_pc t) evs l'
  | None =>
      match c with
      | CRead a nonblock resid => exists p, pipes st !! a = Some p /\
          read_try (Rd a nonblock resid 0 []) p evs l'
      | CWrite _ _ resid => quiet resid resid evs l' /\ forall e res d, l' = Ret e res d -> e = 0 -> resid = 0
      | COpen a b _ _ _ _ => evs = [] \/ evs = [Opened a b]
      | _ => evs = []
      end
  end.

(** Every call that may be made returns, and keeps the invariant. *)
Lemma exec_lands st now tid c r :
  inv st [] -> call_ok st tid c -> exec st now tid c = Some r -> lands st tid r (call_post st tid c).
Proof.
  intros Hi Hok Hr. unfold exec in Hr. unfold call_post. destruct (threads st !! tid) as [t|] eqn:Et.
  - destruct c as [| | |x| | | | |]; try discriminate Hr. simpl in Hok.
    destruct (resume (set_threads (delete tid) st) now tid t x) as [r'|] eqn:Er; [|discriminate Hr].
    simpl in Hr. injection Hr as <-.
    destruct (iv_thr _ _ Hi tid t Et) as [(p & Hp & _) Hl _].
    eapply (land_ends (set_threads (delete tid) st)); [|simpl; apply lookup_delete_eq].
    eapply ends_impl; [eapply (resume_ends _ _ _ _ _ _ p)|].
    + by apply inv_take.
    + done.
    + by apply Hl.
    + by apply (Hok t).
    + done.
    + cbn beta. intros evs l' Hs. by exists p.
  - destruct c as [a nb resid|a nb resid|a|x|a b olda oldb mema memb|a cmd data|a events|a kn f|a kn f];
      injection Hr as <- || discriminate Hr; simpl in Hok.
    + destruct Hok as [[[p Ha] Hcl] Hres]. apply land_ends; [|done]. eapply ends_impl.
      * apply (read_lock_spec _ _ (Rd a nb resid 0 []) p); [by eapply inv_enter|done|].
        unfold rd_ok. simpl. lia.
      * intros evs l' Hs. by exists p.
    + destruct Hok as [[[p Ha] Hcl] Hres]. apply land_ends; [|done].
      by apply (pipe_write_spec _ _ _ _ _ p).
    + destruct Hok as [[p Ha] Hvia]. apply land_ends; [|done].
      eapply ends_impl; [by apply (pipeclose_spec _ _ p)|]. by intros evs l' [-> _].
    + destruct Hok as (Ha & Hb & Hab & Hmem).
      destruct (dopipe_pipes_spec st now a b olda oldb mema memb Hi Ha Hb Hab Hmem)
        as (st' & e & -> & Hi' & _ & He).
      exists st', (Ret e 0 []), (if e =? 0 then [Opened a b] else []). split; [done|]. split; [done|].
      destruct (e =? 0); destruct He as [He Hm]; rewrite ?app_nil_r; auto.
    + destruct Hok as [[p Ha] _]. by apply (ioctl_lands _ _ _ _ _ p).
    + destruct Hok as [[p Ha] _]. by apply (poll_lands _ _ _ _ p).
    + destruct Hok as [[p Ha] _]. by apply (kqfilter_lands _ _ _ _ _ p).
    + destruct Hok as [[[p Ha] _] Hatt]. by apply (kqdetach_lands _ _ _ _ _ p).
Qed.

Lemma init_inv : inv pipe_init_state [].
Proof.
  split; try done. by exists ∅.
Qed.

Lemma pipe_reach_inv st : reach st -> inv st [].
Proof.
  induction 1 as [|st now tid c st' o _ IH Hok He]; [apply init_inv|].
  destruct (exec_lands st now tid c _ IH Hok He) as (st1 & l & evs & Heq & Hi & _).
  by injection Heq as -> _.
Qed.

End PipeLife.
