(* ===== verification/PipeSpec.v ===== *)
(** * Pipes: the properties

    What read(2), write(2), close(2), poll(2) and pipe(2) promise of pipes, for
    all states that calls and their interleavings can reach, with examples of
    the places where the code does not do what it means to. *)

From S2P Require Import Prelude Pipe PipeRing PipeInv PipeRun PipeCalls PipeLife.
Import Pipe PipeRing PipeInv PipeRun PipeCalls PipeLife.

Module PipeSpec.

(** ** Runs *)

(** [call_ok], decided. *)
Definition openb (st : pst) (a : Z) : bool :=
  bool_decide (is_Some (pipes st !! a)) && (tot st [] (closes a) =? 0).

Definition is_size (sz : Z) (o : option (list Z)) : bool :=
  match o with Some m => Z.of_nat (length m) =? sz | None => true end.

Definition inputb (st : pst) (t : thread) (x : input) : bool :=
  match t_pc t, x with
  | RMove _ n, CopyOut e k => (e =? 0) || (0 <=? k) && (k <? n)
  | WMove _ _ g, CopyIn e bs =>
      if e =? 0 then Z.of_nat (length bs) =? g else Z.of_nat (length bs) <? g
  | WMove2 _ n g _, CopyIn e bs =>
      if e =? 0 then Z.of_nat (length bs) =? n - g else Z.of_nat (length bs) <? n - g
  | WAlloc _, Memory mem => is_size BIG_PIPE_SIZE mem
  | WGrow l, Wakes e =>
      negb (e =? 0) || match pipes st !! w_pipe l with
                       | Some p => flag p PIPE_LOCK || (cnt (pipe_buffer p) =? 0)
                       | None => true
                       end
  | _, _ => true
  end.

Definition call_okb (st : pst) (tid : Z) (c : call) : bool :=
  match c with
  | CRead a _ resid | CWrite a _ resid => openb st a && (0 <=? resid) && (resid <? 2 ^ 31)
  | CClose a => bool_decide (is_Some (pipes st !! a)) && (tot st [] (via a) =? 0)
  | CResume x => match threads st !! tid with Some t => inputb st t x | None => true end
  | COpen a b _ _ mema memb =>
      bool_decide (pipes st !! a = None) && bool_decide (pipes st !! b = None) && negb (a =? b) &&
      is_size PIPE_SIZE mema && is_size PIPE_SIZE memb
  | CIoctl a _ _ | CPoll a _ | CKqfilter a _ _ => openb st a
  | CKqdetach _ _ _ => false
  end.

Lemma inputb_ok st t x : inputb st t x = true -> input_ok st t x.
Proof.
  unfold inputb, input_ok, is_size. destruct (t_pc t), x; try done; intros H.
  - intros He. zify_bool. lia.
  - intros -> p Hp Hl. rewrite Hp, Hl in H. zify_bool. lia.
  - destruct mem; [|done]. zify_bool. lia.
  - destruct (_ =? 0); zify_bool; lia.
  - destruct (_ =? 0); zify_bool; lia.
Qed.

Lemma call_okb_ok st tid c : call_okb st tid c = true -> call_ok st tid c.
Proof.
  assert (Hopen : forall a, openb st a = true -> open_end st a).
  { intros a [H1%bool_decide_eq_true H2%Z.eqb_eq]%andb_prop. by split. }
  destruct c; simpl; intros H; try (by apply Hopen); try done.
  - apply andb_prop in H as [[H1 H2]%andb_prop H3]. split; [by apply Hopen|lia].
  - apply andb_prop in H as [[H1 H2]%andb_prop H3]. split; [by apply Hopen|lia].
  - apply andb_prop in H as [H1%bool_decide_eq_true H2%Z.eqb_eq]. done.
  - intros t Ht. rewrite Ht in H. by apply inputb_ok.
  - apply andb_prop in H as [[[[H1 H2]%andb_prop H3]%andb_prop H4]%andb_prop H5].
    apply bool_decide_eq_true in H1, H2. split; [done|]. split; [done|]. split; [lia|].
    intros m [-> | ->]; simpl in *; lia.
Qed.

(** The state after calls, if all may be made. *)
Definition run_from (st : option pst) (cs : list (Z * call)) : option pst :=
  foldl (fun st tc =>
    st ← st;
    if call_okb st tc.1 tc.2 then
      match exec st 0 tc.1 tc.2 with Some (Ok (st', _)) => Some st' | _ => None end
    else None) st cs.
Definition run (cs : list (Z * call)) : option pst := run_from (Some pipe_init_state) cs.

Lemma run_reach cs st : run cs = Some st -> reach st.
Proof.
  assert (Hnone : forall cs, run_from None cs = None) by (induction cs0; done).
  assert (Hgen : forall cs st0, reach st0 -> run_from (Some st0) cs = Some st -> reach st).
  { intros cs0. induction cs0 as [|[tid c] cs0 IH]; intros st0 H0 Hr; [by injection Hr as <-|].
    simpl in Hr. destruct (call_okb st0 tid c) eqn:Ec.
    - destruct (exec st0 0 tid c) as [[[st1 o]|]|] eqn:Ee; try (by rewrite Hnone in Hr).
      apply (IH st1); [|done]. econstructor; [done|by apply call_okb_ok|done].
    - by rewrite Hnone in Hr. }
  apply Hgen. constructor.
Qed.

(** A call in a reachable state, with what it does. *)
Lemma reach_exec st now tid c r :
  reach st -> call_ok st tid c -> exec st now tid c = Some r ->
  exists st' l evs, r = Ok (st', match l with Ret _ _ _ => Some l | _ => None end) /\ reach st' /\
    moves (log st') = moves (log st) ++ evs /\ call_post st tid c evs l /\
    match l with Ret _ _ _ => True | _ => threads st' !! tid = Some (Thread l false) end.
Proof.
  intros Hr Hok He. destruct (exec_lands _ _ _ _ _ (pipe_reach_inv _ Hr) Hok He)
    as (st' & l & evs & -> & _ & Hm & Hp & Ht). exists st', l, evs.
  split; [done|]. split; [by econstructor|]. done.
Qed.

(** ** The stream of bytes *)

(** C30: the pipes refine queues of bytes: in every state that is reached without a read
    or write of 2 GB or more (see [huge_write_never_starts]) and without a buffer that
    is replaced by a larger one although bytes were written to it meanwhile (see
    [resize_discards_bytes]), the transfers so far, put in order into one queue for
    each end, are possible ones (each byte is got once, in the order it was put), each
    end holds exactly what its queue holds, and every call or piece of a call that
    may come next under the same conditions succeeds without a panic into a reachable
    state, its transfers added. *)
Theorem pipe_stream st :
  reach st ->
  exists q, spec_run (log st) = Some q /\
    (forall a p, pipes st !! a = Some p -> q !! a = Some (held (pipe_buffer p))) /\
    forall now tid c r, call_ok st tid c -> exec st now tid c = Some r ->
      exists st' o evs, r = Ok (st', o) /\ reach st' /\ moves (log st') = moves (log st) ++ evs.
Proof.
  intros Hr. destruct (iv_fifo _ _ (pipe_reach_inv _ Hr)) as (q & Hq & Hh). exists q.
  split; [done|]. split; [done|]. intros now tid c r Hok He.
  destruct (reach_exec _ _ _ _ _ Hr Hok He) as (st' & l & evs & -> & Hr' & Hm & _). by do 3 eexists.
Qed.

(** ** Reading *)

(** The local variables of the read that a call starts or goes on with. *)
Definition read_of (st : pst) (tid : Z) (c : call) : option rd :=
  match threads st !! tid, c with
  | Some t, CResume _ => reading (t_pc t)
  | None, CRead a nonblock resid => Some (Rd a nonblock resid 0 [])
  | _, _ => None
  end.

Definition got (a tid : Z) (bs : list Z) : list event :=
  match bs with [] => [] | _ => [Got a tid bs] end.

Lemma held_nil st a p : inv st [] -> pipes st !! a = Some p -> cnt (pipe_buffer p) = 0 ->
  held (pipe_buffer p) = [].
Proof.
  intros Hi Ha Hc. destruct (po_buf _ _ _ _ (iv_pipe _ _ Hi _ _ Ha)) as [m Hb].
  apply length_zero_iff_nil. pose proof (held_length _ _ Hb). lia.
Qed.

(** What [pipe_read_result] says of a piece of a read. *)
Definition read_piece (lr : rd) (p : pipe) (bs : list Z) (l : pc) : Prop :=
  match l with
  | Ret e res d =>
      if e =? 0 then d = r_data lr ++ bs /\ res = r_resid lr - Z.of_nat (length bs) /\
        (d = [] -> r_resid lr = 0 \/ held (pipe_buffer p) = [] /\ flag p PIPE_EOF = true)
      else bs = []
  | _ => exists l2, reading l = Some l2 /\ r_pipe l2 = r_pipe lr /\
      r_data l2 = r_data lr ++ bs /\ r_resid l2 = r_resid lr - Z.of_nat (length bs)
  end.

Lemma read_try_piece st lr p evs l :
  inv st [] -> pipes st !! r_pipe lr = Some p -> rd_ok lr -> read_try lr p evs l ->
  evs = [] /\ read_piece lr p [] l.
Proof.
  intros Hi Ha (_ & _ & Hn) Hl.
  assert (Hon : forall l, reading l = Some lr -> read_piece lr p [] l).
  { intros l0 H0. unfold read_piece. rewrite app_nil_r. simpl. rewrite Z.sub_0_r.
    destruct l0; try done; by exists lr. }
  destruct Hl as [[-> Hl]|(-> & _ & [->| ->])]; [|split; [done|by apply Hon]..]. split; [done|].
  destruct l; try done; try (destruct Hl as [-> _]; by apply Hon). simpl.
  rewrite app_nil_r, Z.sub_0_r.
  destruct Hl as (-> & -> & [[-> Hc]|(-> & _)]); [|done]. simpl. split; [done|]. split; [done|].
  intros Hd. rewrite Hd in Hn. simpl in Hn. destruct Hc as [?|[Hc [?|?]]]; [by left|lia|].
  right. split; [by eapply held_nil|done].
Qed.

(** A read takes a piece of the front of its pipe at a time, or nothing;
    it hands over exactly what it took, and when it succeeds without a byte,
    none was asked for or the pipe was empty and its other end closed. *)
Theorem pipe_read_result st now tid c lr r :
  reach st -> call_ok st tid c -> read_of st tid c = Some lr -> exec st now tid c = Some r ->
  exists st' l p bs, r = Ok (st', match l with Ret _ _ _ => Some l | _ => None end) /\ reach st' /\
    pipes st !! r_pipe lr = Some p /\ bs `prefix_of` held (pipe_buffer p) /\
    moves (log st') = moves (log st) ++ got (r_pipe lr) tid bs /\ read_piece lr p bs l /\
    match l with Ret _ _ _ => True | _ => threads st' !! tid = Some (Thread l false) end.
Proof.
  intros Hr Hok Hof He. pose proof (pipe_reach_inv _ Hr) as Hi.
  destruct (reach_exec _ _ _ _ _ Hr Hok He) as (st' & l & evs & -> & Hr' & Hm & Hp & Ht).
  assert (H : exists p bs, pipes st !! r_pipe lr = Some p /\ bs `prefix_of` held (pipe_buffer p) /\
    evs = got (r_pipe lr) tid bs /\ read_piece lr p bs l).
  2:{ destruct H as (p & bs & H1 & H2 & -> & H4). by exists st', l, p, bs. }
  unfold read_of, call_post in *. destruct (threads st !! tid) as [t|] eqn:Et.
  - destruct c; try discriminate Hof. destruct Hp as (p & Ha & Hp).
    pose proof (to_local _ _ (iv_thr _ _ Hi tid t Et) p Ha) as Hl.
    assert (Hon : r_pipe lr = ro_pipe (role_of (t_pc t)) -> rd_ok lr -> reads_on lr p evs l ->
      exists p bs, pipes st !! r_pipe lr = Some p /\ bs `prefix_of` held (pipe_buffer p) /\
        evs = got (r_pipe lr) tid bs /\ read_piece lr p bs l).
    { intros E Hrd Hread. exists p, []. rewrite E. split; [done|]. split; [apply prefix_nil|].
      destruct Hread as [H|[-> (e & Hne & ->)]].
      - eapply read_try_piece; [done|by rewrite E|done|done].
      - split; [done|]. simpl. by rewrite (proj2 (Z.eqb_neq _ _) Hne). }
    destruct (t_pc t) as [l0|l0 n|l0|l0| | | | | | | |]; simpl in Hof, Hp, Ha, Hl; try discriminate Hof;
      injection Hof as ->; try (apply Hon; [done| |done]; by destruct Hl).
    destruct Hp as [[-> (e & res & d & -> & Hne)]|(bs & -> & Hbs & Hlen & Hn & Hpost)].
    + exists p, []. split; [done|]. split; [apply prefix_nil|]. split; [done|]. simpl.
      by rewrite (proj2 (Z.eqb_neq _ _) Hne).
    + exists p, bs. split; [done|]. split; [rewrite Hbs; apply prefix_take|].
      split; [destruct bs; [simpl in Hlen; lia|done]|]. unfold read_piece. rewrite Hlen.
      destruct l; try (destruct Hpost as (l2 & ? & ? & ? & ?); by exists l2).
      destruct Hpost as (-> & -> & ->). simpl. split; [done|]. split; [done|]. intros Hz.
      apply app_eq_nil in Hz as [_ Hz]. rewrite Hz in Hlen. simpl in Hlen. lia.
  - destruct c as [a nonblock resid| | | | | | | |]; try discriminate Hof. injection Hof as <-.
    destruct Hp as (p & Ha & Hp). exists p, []. split; [done|]. split; [apply prefix_nil|].
    eapply read_try_piece; [done|done| |done]. destruct Hok as [_ Hres]. unfold rd_ok. simpl. lia.
Qed.

(** ** Writing *)

(** How many bytes the write that a call starts or goes on with was asked for,
    and how many are still to put. *)
Definition write_of (st : pst) (tid : Z) (c : call) : option (Z * Z) :=
  match threads st !! tid, c with
  | Some t, CResume _ => asked (t_pc t)
  | None, CWrite _ _ resid => Some (resid, resid)
  | _, _ => None
  end.

(** What [pipe_write_atomic] says of a piece of a write of [n] bytes: it puts the
    bytes [bs], or moves none and has not succeeded. *)
Definition write_piece (st' : pst) (tid n rest : Z) (evs : list event) (l : pc) : Prop :=
  (exists a bs, evs = [Put a tid bs] /\
     (n <= PIPE_BUF -> Z.of_nat (length bs) = n /\ l = Ret 0 0 []) /\
     match l with
     | Ret e res _ => e = 0 -> res = 0 /\ Z.of_nat (length bs) = rest
     | _ => threads st' !! tid = Some (Thread l false) /\
            asked l = Some (n, rest - Z.of_nat (length bs))
     end) \/
  (evs = [] /\
     match l with
     | Ret e _ _ => e <> 0
     | _ => threads st' !! tid = Some (Thread l false) /\ asked l = Some (n, rest)
     end).

Lemma write_out_piece st' lw tid n rest evs l :
  write_out lw tid n rest evs l ->
  match l with Ret _ _ _ => True | _ => threads st' !! tid = Some (Thread l false) end ->
  write_piece st' tid n rest evs l.
Proof.
  intros [[[-> Hs] H]|(bs & -> & Hs & H1 & H2)] Ht.
  - right. split; [done|]. destruct l; try done. by apply (H error resid data).
  - left. exists (w_pipe lw), bs. split; [done|]. split; [done|]. destruct l; try done.
    by apply (H2 error resid data).
Qed.

(** C31: a write puts what is left of it a piece at a time, and has put all of
    it when it succeeds; one of at most PIPE_BUF bytes puts them in one piece and
    then succeeds, or has put none of them when it fails, however it sleeps and
    whoever else writes in between. *)
Theorem pipe_write_atomic st now tid c n rest r :
  reach st -> call_ok st tid c -> write_of st tid c = Some (n, rest) -> 0 < n ->
  exec st now tid c = Some r ->
  exists st' l evs, r = Ok (st', match l with Ret _ _ _ => Some l | _ => None end) /\ reach st' /\
    moves (log st') = moves (log st) ++ evs /\ write_piece st' tid n rest evs l.
Proof.
  intros Hr Hok Hof Hn He.
  destruct (reach_exec _ _ _ _ _ Hr Hok He) as (st' & l & evs & -> & Hr' & Hm & Hp & Ht).
  exists st', l, evs. split; [done|]. split; [done|]. split; [done|].
  unfold write_of, call_post in *. destruct (threads st !! tid) as [t|].
  - destruct c; try discriminate Hof. destruct Hp as (p & _ & Hp).
    destruct (t_pc t); try discriminate Hof; injection Hof as <- <-; by eapply write_out_piece.
  - destruct c; try discriminate Hof. injection Hof as <- <-. destruct Hp as [[-> Hs] Hret].
    right. split; [done|]. destruct l; try done. intros ->. specialize (Hret _ _ _ eq_refl eq_refl). lia.
Qed.

(** ** Sleeping *)






(** ** Life of a pipe *)

(** C33: what the fields of the pipes say is true: the ring is well formed, a
    pipe counts the threads inside, it is locked when exactly one of them holds
    the lock and no more can, the two ends name each other; whoever is in a call
    works on a pipe that has not been freed; the number of large buffers and the
    memory of all buffers are exact; and an end that is being closed has no other
    user. *)
Theorem pipe_lifetime st :
  reach st ->
  (forall a p, pipes st !! a = Some p ->
     (exists m, buf_ok (pipe_buffer p) m) /\ pipe_busy p = tot st [] (busy_on a) /\
     tot st [] (locks a) = (if flag p PIPE_LOCK then 1 else 0) /\
     forall b, pipe_peer p = Some b ->
       b <> a /\ exists q, pipes st !! b = Some q /\ pipe_peer q = Some a) /\
  (forall tid t, threads st !! tid = Some t ->
     exists p, pipes st !! ro_pipe (role_of (t_pc t)) = Some p) /\
  nbigpipe st = msum big (pipes st) /\
  amountpipekva st = msum (fun p => size (pipe_buffer p)) (pipes st) /\
  forall a, 0 < tot st [] (closes a) -> tot st [] (via a) = 1.
Proof.
  intros Hr. destruct (pipe_reach_inv _ Hr) as [H1 H2 _ H4 H5 H6 H7 _]. split_and!; try done.
  - intros a p Ha. destruct (H1 a p Ha) as [K1 K2 K3 _ _]. split; [done|]. split; [done|]. split; [done|].
    intros b Hb. by apply (H2 a p b).
  - intros tid t Ht. destruct (H5 tid t Ht) as [(p & Hp & _) _ _]. by exists p.
Qed.

(** ** Polling *)

Definition IN : Z := POLLIN .| POLLRDNORM.
Definition OUT : Z := POLLOUT .| POLLWRNORM.

(** There is something to read, or nothing will ever come. *)
Definition readable (p : pipe) : bool := (0 <? cnt (pipe_buffer p)) || flag p PIPE_EOF.

(** The other end is closed, or is being closed. *)
Definition hung_up (st : pst) (p : pipe) : bool :=
  flag p PIPE_EOF ||
  match pipe_peer p with
  | None => true
  | Some w => match pipes st !! w with Some q => flag q PIPE_EOF | None => true end
  end.

(** There is room for an atomic write. *)
Definition roomy (st : pst) (p : pipe) : bool :=
  match pipe_peer p with
  | None => false
  | Some w => match pipes st !! w with
              | Some q => PIPE_BUF <=? size (pipe_buffer q) - cnt (pipe_buffer q)
              | None => false
              end
  end.

Lemma has_land x m g : has (x .& m) g = has x (m .& g).
Proof. unfold has. by rewrite Z.land_assoc. Qed.

Lemma has_none x : has x 0 = false.
Proof. unfold has. by rewrite Z.land_0_r. Qed.

Lemma poll_revents_spec st a p events :
  inv st [] -> pipes st !! a = Some p ->
  exists rev, poll_revents st p events = Ok rev /\
    has rev IN = has events IN && readable p /\ has rev POLLHUP = hung_up st p /\
    has rev OUT = has events OUT && negb (hung_up st p) && roomy st p /\
    (rev = 0 -> has events OUT = true -> is_Some (pipe_peer p)).
Proof.
  intros Hi Ha. unfold poll_revents. fold IN OUT (readable p). set (r1 := if has events IN && readable p then _ else 0).
  assert (H1 : has r1 IN = has events IN && readable p /\ has r1 POLLHUP = false /\ has r1 OUT = false).
  { unfold r1. destruct (has events IN && readable p) eqn:E; [|done]. apply andb_prop in E as [E _].
    rewrite !has_land. change (IN .& IN) with IN. change (IN .& POLLHUP) with 0.
    change (IN .& OUT) with 0. by rewrite has_none. }
  destruct H1 as (H1 & H2 & H3). clearbody r1. unfold peer_gone, hung_up, roomy.
  assert (Hhup : forall b, (flag p PIPE_EOF || b) = true -> exists rev, Ok (r1 .| POLLHUP) = Ok rev /\
    has rev IN = has events IN && readable p /\ has rev POLLHUP = true /\ has rev OUT = false /\
    (rev = 0 -> has events OUT = true -> is_Some (pipe_peer p))).
  { intros b Hb. eexists. split; [done|]. rewrite !flag_lor, H1, H2, H3, orb_false_r.
    split; [done|]. split; [done|]. split; [done|]. intros Hz. exfalso.
    assert (has (r1 .| POLLHUP) POLLHUP = true) by (by rewrite flag_lor, H2). by rewrite Hz in *. }
  destruct (pipe_peer p) as [w|] eqn:Ew.
  2:{ cbn [mbind outcome_bind]. rewrite orb_true_r, andb_false_r. by apply (Hhup true), orb_true_r. }
  destruct (iv_peer _ _ Hi a p w Ha Ew) as (_ & q & Hq & _). rewrite (deref_eq _ _ _ Hq), Hq.
  cbn [mbind outcome_bind]. destruct (flag p PIPE_EOF || flag q PIPE_EOF) eqn:E.
  { cbn [negb]. rewrite andb_false_r. by eapply Hhup. }
  cbn [negb]. rewrite andb_true_r. destruct (has events OUT) eqn:Eo; [|by exists r1].
  destruct (po_buf _ _ _ _ (iv_pipe _ _ Hi _ _ Hq)) as [m Hb]. pose proof (size_bounds _ _ Hb).
  pose proof (bo_cnt _ _ Hb). rewrite wrapu_small by (unfold inu; lia). cbn [andb].
  destruct (PIPE_BUF <=? _); [|by exists r1].
  eexists. split; [done|]. rewrite !flag_lor, !has_land, H1, H2, H3. change (OUT .& IN) with 0.
  change (OUT .& POLLHUP) with 0. change (OUT .& OUT) with OUT. by rewrite has_none, Eo, orb_false_r.
Qed.

(** A read of a readable pipe that is not locked need not wait. *)
Lemma read_now st now a p nonblock resid :
  inv st [] -> pipes st !! a = Some p -> tot st [] (closes a) = 0 -> flag p PIPE_LOCK = false ->
  readable p = true -> 0 < resid < 2 ^ 31 ->
  exists st' l, pipe_read st now a nonblock resid = Ok (st', l) /\
    match l with
    | RMove lr n => 0 < n <= resid
    | Ret e res d => e = 0 /\ res = resid /\ d = []
    | _ => False
    end.
Proof.
  intros Hi Ha Hcl Hl Hread Hres.
  destruct (read_lock_spec st now (Rd a nonblock resid 0 []) p) as (st' & l & evs & Heq & _ & _ & _ & Hpost);
    [by eapply inv_enter|done|unfold rd_ok; simpl; lia|].
  exists st', l. split; [exact Heq|]. unfold readable in Hread.
  destruct Hpost as [[_ Hp]|(_ & Hk & _)]; [|congruence]. destruct l; try done.
  - by destruct Hp as (_ & Hp & _).
  - destruct Hp as (_ & Hc & He & _). by rewrite Hc, He in Hread.
  - destruct Hp as (-> & -> & [[-> _]|(_ & _ & _ & Hc & He)]); [done|]. by rewrite Hc, He in Hread.
Qed.

(** So does an atomic write to a pipe with room. *)
Lemma write_now st now a p w q nonblock resid :
  inv st [] -> pipes st !! a = Some p -> pipe_peer p = Some w -> pipes st !! w = Some q ->
  hung_up st p = false -> roomy st p = true -> flag q PIPE_LOCK = false -> 0 < resid <= PIPE_BUF ->
  exists st' l g, pipe_write st now a nonblock resid = Ok (st', WMove l resid g).
Proof.
  intros Hi Ha Hw Hq Hh Hr Hl Hres. unfold pipe_write. rewrite (deref_eq _ _ _ Ha).
  cbn [mbind outcome_bind]. unfold hung_up, roomy in Hh, Hr. rewrite Hw, Hq in *.
  apply orb_false_iff in Hh as [_ He]. rewrite (deref_eq _ _ _ Hq). cbn [mbind outcome_bind]. rewrite He.
  unfold PIPE_BUF in *. rewrite (proj2 (Z.ltb_ge PIPE_SIZE resid)) by (unfold PIPE_SIZE; lia). cbn [andb].
  unfold write_begin, write_loop, RETRIES. cbn [w_pipe w_file w_nonblock w_resid].
  rewrite (proj2 (Z.eqb_neq resid 0)) by lia.
  destruct (po_buf _ _ _ _ (iv_pipe _ _ Hi _ _ Hq)) as [m Hb]. pose proof (size_bounds _ _ Hb).
  pose proof (bo_cnt _ _ Hb). apply Z.leb_le in Hr.
  cbn [write_retry]. unfold write_try at 1. cbn [w_pipe w_resid w_orig].
  rewrite (deref_eq _ _ _ (store_at _ _ _)). cbn [mbind outcome_bind]. flags. rewrite He.
  cbn [pipe_buffer set_busy]. rewrite !(wraps_small 32) by lia. rewrite (wrapu_small 64) by (unfold inu; lia).
  rewrite (proj2 (Z.ltb_ge _ resid)) by lia. cbn [andb]. rewrite (proj2 (Z.ltb_lt 0 _)) by lia.
  unfold pipelock. rewrite (deref_eq _ _ _ (store_at _ _ _)). cbn [mbind outcome_bind]. flags. rewrite Hl.
  cbn iota. cbn [mbind outcome_bind]. unfold write_locked. cbn [w_pipe w_resid]. rewrite (deref_eq _ _ _ (store_at _ _ _)).
  cbn [mbind outcome_bind pipe_buffer raise set_state set_busy].
  rewrite !(wrapu_small 32) by (unfold inu; lia). rewrite Z.ltb_irrefl.
  rewrite !(wrapu_small 64) by (unfold inu; lia). rewrite (wraps_small 32 resid) by lia.
  destruct (Z.ltb_spec resid (size (pipe_buffer q) - cnt (pipe_buffer q))); do 3 eexists; [done|].
  by replace (size (pipe_buffer q) - cnt (pipe_buffer q)) with resid by lia.
Qed.

(** The thread is recorded with both pipes, if it asks for both. *)
Lemma select_two st tid a p (i o : bool) (rev : Z) :
  pipes st !! a = Some p ->
  (o = true -> exists w q, pipe_peer p = Some w /\ w <> a /\ pipes st !! w = Some q) ->
  exists st',
    (st1 ← if i then select_on st tid a else Ok st;
     st2 ← if o then match pipe_peer p with None => Panic | Some w => select_on st1 tid w end else Ok st1;
     Ok (st2, rev)) = Ok (st', rev) /\
    forall x, i = true /\ x = a \/ o = true /\ pipe_peer p = Some x ->
      Selrecord tid x ∈ log st' /\ exists px, pipes st' !! x = Some px /\ flag px PIPE_SEL = true.
Proof.
  intros Ha Ho.
  assert (Hsel : forall st x px, pipes st !! x = Some px ->
    select_on st tid x = Ok (store x (raise PIPE_SEL px) (tell (Selrecord tid x) st))).
  { intros st0 x px Hx. unfold select_on. by rewrite (deref_eq _ _ _ Hx). }
  assert (Hin : forall x l, Selrecord tid x ∈ l ++ [Selrecord tid x]) by set_solver.
  assert (Hfl : forall px, flag (raise PIPE_SEL px) PIPE_SEL = true) by (intros; by flags).
  destruct i; [rewrite (Hsel st a p Ha)|]; cbn [mbind outcome_bind].
  - destruct o.
    + destruct (Ho eq_refl) as (w & q & -> & Hne & Hq). rewrite (Hsel _ w q) by (simpl; by rewrite lookup_insert_ne).
      cbn [mbind outcome_bind]. eexists. split; [done|]. simpl.
      intros x [[_ ->]|[_ [= <-]]]; (split; [set_solver|]); eexists.
      * by rewrite lookup_insert_ne, lookup_insert_eq.
      * by rewrite lookup_insert_eq.
    + eexists. split; [done|]. simpl. intros x [[_ ->]|[? _]]; [|done]. split; [done|]. eexists.
      by rewrite lookup_insert_eq.
  - destruct o.
    + destruct (Ho eq_refl) as (w & q & -> & Hne & Hq). rewrite (Hsel _ w q Hq). cbn [mbind outcome_bind].
      eexists. split; [done|]. simpl. intros x [[? _]|[_ [= <-]]]; [done|]. split; [done|]. eexists.
      by rewrite lookup_insert_eq.
    + eexists. split; [done|]. by intros x [[? _]|[? _]].
Qed.

(** poll(2) tells the truth: what it reports of reading, hang-up and
    writing is how things are; after POLLIN a read of a pipe that is not locked
    does not wait, it gets bytes or the end of file; after POLLOUT an atomic write
    gets to its transfer at once; and when it reports nothing, the thread is
    recorded with each pipe whose change it waits for. *)
Theorem pipe_poll_truth st now tid a events p :
  reach st -> open_end st a -> pipes st !! a = Some p ->
  exists st' rev, pipe_poll st tid a events = Ok (st', rev) /\
    has rev IN = has events IN && readable p /\ has rev POLLHUP = hung_up st p /\
    has rev OUT = has events OUT && negb (hung_up st p) && roomy st p /\
    (has rev IN = true -> flag p PIPE_LOCK = false ->
     forall nonblock resid, 0 < resid < 2 ^ 31 ->
       exists st2 l, pipe_read st now a nonblock resid = Ok (st2, l) /\
         match l with
         | RMove _ n => 0 < n <= resid
         | Ret e res d => e = 0 /\ res = resid /\ d = []
         | _ => False
         end) /\
    (has rev OUT = true -> forall w q, pipe_peer p = Some w -> pipes st !! w = Some q ->
     flag q PIPE_LOCK = false ->
     forall nonblock resid, 0 < resid <= PIPE_BUF ->
       exists st2 l g, pipe_write st now a nonblock resid = Ok (st2, WMove l resid g)) /\
    (rev = 0 -> forall x, has events IN = true /\ x = a \/ has events OUT = true /\ pipe_peer p = Some x ->
       Selrecord tid x ∈ log st' /\
       exists px, pipes st' !! x = Some px /\ flag px PIPE_SEL = true).
Proof.
  intros Hr [_ Hcl] Ha. pose proof (pipe_reach_inv _ Hr) as Hi.
  destruct (poll_revents_spec st a p events Hi Ha) as (rev & Hrev & H1 & H2 & H3 & H4).
  assert (Hpoll : exists st', pipe_poll st tid a events = Ok (st', rev) /\
    (rev = 0 -> forall x, has events IN = true /\ x = a \/ has events OUT = true /\ pipe_peer p = Some x ->
       Selrecord tid x ∈ log st' /\ exists px, pipes st' !! x = Some px /\ flag px PIPE_SEL = true)).
  { unfold pipe_poll. rewrite (deref_eq _ _ _ Ha). cbn [mbind outcome_bind]. rewrite Hrev.
    cbn [mbind outcome_bind]. fold IN OUT. destruct (Z.eqb_spec rev 0) as [Hz|Hz]; cbn [negb].
    - destruct (select_two st tid a p (has events IN) (has events OUT) rev Ha) as (st' & -> & Hrec).
      + intros Ho. destruct (H4 Hz Ho) as [w Hw]. destruct (iv_peer _ _ Hi a p w Ha Hw) as (Hne & q & Hq & _).
        by exists w, q.
      + by exists st'.
    - exists st. split; [done|]. done. }
  destruct Hpoll as (st' & Hp & Hrec). exists st', rev. split; [done|]. split; [done|]. split; [done|].
  split; [done|]. split; [|split; [|done]].
  - intros Hin Hl nonblock resid Hres. rewrite H1 in Hin. apply andb_prop in Hin as [_ Hin].
    by apply (read_now st now a p).
  - intros Hout w q Hw Hq Hl nonblock resid Hres. rewrite H3 in Hout.
    apply andb_prop in Hout as [[_ Hh%negb_true_iff]%andb_prop Hroom]. by eapply (write_now st now a p w q).
Qed.

(** ** The theorems at concrete states *)

Definition blank : pipe := MkPipe (Pipebuf 0 0 0 0 None) [] 0 0 0 0 None 0 0.
Definition mem (n : Z) : option (list Z) := Some (replicate (Z.to_nat n) 0).

(** A pipe with the ends 10 and 20. *)
Definition opened : Z * call := (1, COpen 10 20 blank blank (mem PIPE_SIZE) (mem PIPE_SIZE)).

Definition reached (cs : list (Z * call)) : pst := default pipe_init_state (run cs).

Lemma reached_reach cs : bool_decide (is_Some (run cs)) = true -> reach (reached cs).
Proof.
  intros [st Hst]%bool_decide_eq_true. unfold reached. rewrite Hst. by apply (run_reach cs).
Qed.

(** A write of three bytes has its memory copied next; it is done; a read of two
    of them has its bytes copied next; a reader sleeps. *)
Definition writing3 : list (Z * call) := [opened; (1, CWrite 10 false 3)].
Definition wrote3 : list (Z * call) := writing3 ++ [(1, CResume (CopyIn 0 [7; 8; 9]))].
Definition reading2 : list (Z * call) := wrote3 ++ [(2, CRead 20 false 2)].

Lemma is_some_default {A} (o : option A) (d : A) : bool_decide (is_Some o) = true -> o = Some (default d o).
Proof. by intros [x ->]%bool_decide_eq_true. Qed.

Ltac reached_ok := apply reached_reach; vm_compute; reflexivity.

Lemma pipe_stream_witness :
  spec_run (log (reached wrote3)) ≫= (fun q => q !! 20) = Some [7; 8; 9] /\
  exists q, spec_run (log (reached wrote3)) = Some q /\
    forall a p, pipes (reached wrote3) !! a = Some p -> q !! a = Some (held (pipe_buffer p)).
Proof.
  split; [vm_compute; reflexivity|].
  destruct (pipe_stream (reached wrote3)) as (q & H1 & H2 & _); [reached_ok|].
  exact (ex_intro _ q (conj H1 H2)).
Defined.

Lemma pipe_read_result_witness :
  exists st' l p bs,
    default Panic (exec (reached reading2) 0 2 (CResume (CopyOut 0 0))) =
      Ok (st', match l with Ret _ _ _ => Some l | _ => None end) /\
    bs `prefix_of` held (pipe_buffer p) /\ read_piece (Rd 20 false 2 0 []) p bs l.
Proof.
  destruct (pipe_read_result (reached reading2) 0 2 (CResume (CopyOut 0 0)) (Rd 20 false 2 0 [])
    (default Panic (exec (reached reading2) 0 2 (CResume (CopyOut 0 0)))))
    as (st' & l & p & bs & H1 & _ & _ & H2 & _ & H3 & _).
  - reached_ok.
  - apply call_okb_ok. vm_compute. reflexivity.
  - vm_compute. reflexivity.
  - apply is_some_default. vm_compute. reflexivity.
  - exact (ex_intro _ st' (ex_intro _ l (ex_intro _ p (ex_intro _ bs (conj H1 (conj H2 H3)))))).
Defined.

Lemma pipe_write_atomic_witness :
  exists st' l evs,
    default Panic (exec (reached writing3) 0 1 (CResume (CopyIn 0 [7; 8; 9]))) =
      Ok (st', match l with Ret _ _ _ => Some l | _ => None end) /\
    write_piece st' 1 3 3 evs l.
Proof.
  destruct (pipe_write_atomic (reached writing3) 0 1 (CResume (CopyIn 0 [7; 8; 9])) 3 3
    (default Panic (exec (reached writing3) 0 1 (CResume (CopyIn 0 [7; 8; 9])))))
    as (st' & l & evs & H1 & _ & _ & H2).
  - reached_ok.
  - apply call_okb_ok. vm_compute. reflexivity.
  - vm_compute. reflexivity.
  - lia.
  - apply is_some_default. vm_compute. reflexivity.
  - exact (ex_intro _ st' (ex_intro _ l (ex_intro _ evs (conj H1 H2)))).
Defined.



Lemma pipe_lifetime_witness :
  amountpipekva (reached reading2) = 2 * PIPE_SIZE /\
  forall a, 0 < tot (reached reading2) [] (closes a) -> tot (reached reading2) [] (via a) = 1.
Proof.
  split; [vm_compute; reflexivity|].
  destruct (pipe_lifetime (reached reading2)) as (_ & _ & _ & _ & H); [reached_ok|]. exact H.
Defined.

Lemma pipe_poll_truth_witness :
  exists st' rev, pipe_poll (reached wrote3) 5 20 POLLIN = Ok (st', rev) /\ has rev IN = true.
Proof.
  destruct (pipes (reached wrote3) !! 20) as [p|] eqn:Ep; [|by vm_compute in Ep].
  destruct (pipe_poll_truth (reached wrote3) 0 5 20 POLLIN p) as (st' & rev & H1 & H2 & _).
  - reached_ok.
  - split; [by rewrite Ep|]. vm_compute. reflexivity.
  - exact Ep.
  - exists st', rev. split; [exact H1|]. rewrite H2. unfold readable.
    replace (cnt (pipe_buffer p)) with 3; [vm_compute; reflexivity|].
    assert (Hc : (fun p => cnt (pipe_buffer p)) <$> pipes (reached wrote3) !! 20 = Some 3)
      by (vm_compute; reflexivity).
    rewrite Ep in Hc. by injection Hc.
Defined.

(** ** Where the code does not do what it means to *)

(** Calls without [call_ok]. *)
Definition try_all (st : option pst) (cs : list (Z * call)) : option pst :=
  foldl (fun st tc => st ← st;
    match exec st 0 tc.1 tc.2 with Some (Ok (st', _)) => Some st' | _ => None end) st cs.

(** A buffer is enlarged only while it is empty, but whether it is empty is
    looked up before [pipelock], which can sleep.  A second large write that waited
    there replaces the buffer though three bytes were written meanwhile, by a
    write that succeeded; they are lost. *)
Definition lost_bytes : list (Z * call) :=
  [opened; (1, CWrite 10 false 20000); (2, CWrite 10 false 20000); (1, CResume (Memory None));
   (1, CResume (CopyIn 14 [])); (3, CWrite 10 false 3); (3, CResume (CopyIn 0 [7; 8; 9]));
   (2, CResume (Wakes 0)); (2, CResume (Memory (mem BIG_PIPE_SIZE)))].

Example resize_discards_bytes :
  (fun st => moves (log st)) <$> try_all (Some pipe_init_state) lost_bytes =
    Some [Opened 10 20; Put 20 3 [7; 8; 9]] /\
  (fun st => (fun p => cnt (pipe_buffer p)) <$> pipes st !! 20) <$>
    try_all (Some pipe_init_state) lost_bytes = Some (Some 0).
Proof. split; vm_compute; reflexivity. Qed.

(** [orig_resid] is an [int]: a write of 2 GB is taken for one of at most PIPE_BUF
    bytes, which has to be atomic, and never finds enough room, not even in an
    empty pipe. *)
Example huge_write_never_starts :
  (fun r => match r with Ok (_, o) => o | Panic => None end) <$>
    (st ← try_all (Some pipe_init_state) [opened; (1, CWrite 10 true (2 ^ 31))];
     exec st 0 1 (CResume (Memory (mem BIG_PIPE_SIZE)))) =
  Some (Some (Ret EAGAIN (2 ^ 31) [])).
Proof. vm_compute. reflexivity. Qed.

(** [nbigpipe] is compared with LIMITBIGPIPES before [km_alloc], which can sleep:
    two writes that wait for memory at the same time, with one large buffer left,
    both get one. *)
Definition grown (k : Z) : list (Z * call) :=
  [(1, COpen (100 + k) (200 + k) blank blank (mem PIPE_SIZE) (mem PIPE_SIZE));
   (1, CWrite (100 + k) false 20000); (1, CResume (Memory (mem BIG_PIPE_SIZE)));
   (1, CResume (CopyIn 14 []))].

Example big_pipes_over_limit :
  nbigpipe <$> try_all (Some pipe_init_state)
    (mjoin (grown <$> seqZ 0 31) ++
     [opened; (1, COpen 30 40 blank blank (mem PIPE_SIZE) (mem PIPE_SIZE));
      (1, CWrite 10 false 20000); (2, CWrite 30 false 20000);
      (1, CResume (Memory (mem BIG_PIPE_SIZE))); (2, CResume (Memory (mem BIG_PIPE_SIZE)))]) =
  Some (LIMITBIGPIPES + 1).
Proof. vm_compute. reflexivity. Qed.

End PipeSpec.
