(* ===== verification/FileCalls.v ===== *)
(** * Calls on open files (kern/kern_descrip.c)

    The commands of fcntl(2) for status flags and owners, fstat(2) and
    fpathconf(2): calls that go from a descriptor to a file and on to the
    operations of its kind.  The operations are a class, [FileOps], over the state
    [W] behind the files; the pipes of [Pipe] are an instance, so that what is
    proved here of any file holds for descriptors of pipes.

    What the calls need of sockets, vnodes and processes is an argument. *)

From S2P Require Import Prelude Libkern Descrip DescripMaps DescripTable DescripProofs DescripCalls.
From S2P Require Import DescripLife DescripCopy DescripOpen DescripSpec.
From S2P Require Import Pipe PipeRing PipeInv PipeRun PipeCalls PipeLife PipeSpec.
Import Descrip DescripProofs DescripCalls DescripOpen DescripSpec.
#[local] Open Scope Z_scope.

Module FileCalls.

(** ** Constants *)

Definition O_ACCMODE : Z := 0x0003.
Definition O_NONBLOCK : Z := 0x0004.
Definition O_APPEND : Z := 0x0008.
Definition O_ASYNC : Z := 0x0040.
Definition O_SYNC : Z := 0x0080.
Definition FAPPEND : Z := O_APPEND.
Definition FASYNC : Z := O_ASYNC.
Definition FFSYNC : Z := O_SYNC.
Definition FNONBLOCK : Z := O_NONBLOCK.
Definition FCNTLFLAGS : Z := FAPPEND .| FASYNC .| FFSYNC .| FNONBLOCK.
Definition FFLAGS (oflags : Z) : Z := clear oflags O_ACCMODE .| ((oflags + 1) .& O_ACCMODE).
Definition OFLAGS (fflags : Z) : Z := clear fflags O_ACCMODE .| ((fflags - 1) .& O_ACCMODE).
Definition DTYPE_SOCKET : Z := 2.
Definition TIOCGPGRP : Z := 0x40047477.
Definition TIOCSPGRP : Z := 0x80047476.
Definition _PC_PIPE_BUF : Z := 6.
Definition EOPNOTSUPP : Z := 45.
Definition ESRCH : Z := 3.
Definition ENODEV : Z := 19.

(** ** The operations of a file *)

(** [fo_ioctl] returns the state, the error and the value of [*data]; [fo_stat]
    the error or the status, a value of [S]. *)
Class FileOps (W S : Type) := {
  fo_ioctl : W -> file -> Z -> Z -> outcome (W * Z * Z);
  fo_stat : W -> file -> outcome (S + Z);
}.

Definition ok {A} (m : outcome A) : option A := match m with Ok a => Some a | Panic => None end.

Definition set_fflag (f : file) (v : Z) : file :=
  File v (f_type f) (f_count f) (f_ops f) (f_data f) (f_iflags f).

Section calls.
Context {W S : Type} `{!FileOps W S}.
Variables (fo_close : Z -> Z).

(** The way of all these calls: find the file, hold it, do the work, which may
    change its flags, and let it go. *)
Definition through (st : store) (w : W) (t : filedesc) (fd : Z)
    (body : file -> option (file * W * (Z + Z))) : option (store * W * (Z + Z)) :=
  g ← fd_getfile st t fd;
  match g with
  | None => Some (st, w, inr EBADF)
  | Some fp =>
      st1 ← FREF st fp;
      f ← files st1 !! fp;
      r ← body f;
      let '(f', w', res) := r in
      '(_, st2) ← FRELE fo_close (set_files st1 (<[fp := f']> (files st1))) fp;
      Some (st2, w', res)
  end.

(** *** Status flags *)

Definition fcntl_getfl (st : store) (w : W) (t : filedesc) (fd : Z) : option (store * W * (Z + Z)) :=
  through st w t fd (fun f => Some (f, w, inl (OFLAGS (f_flag f)))).

Definition setfl (w : W) (arg : Z) (f : file) : option (file * W * (Z + Z)) :=
  let f := set_fflag f (clear (f_flag f) FCNTLFLAGS) in
  let f := set_fflag f (f_flag f .| (FFLAGS arg .& FCNTLFLAGS)) in
  r ← ok (fo_ioctl w f Pipe.FIONBIO (f_flag f .& FNONBLOCK));
  let '(w, error, _) := r in
  if negb (error =? 0) then Some (f, w, inr error)
  else
    r ← ok (fo_ioctl w f Pipe.FIOASYNC (f_flag f .& FASYNC));
    let '(w, error, _) := r in
    if error =? 0 then Some (f, w, inl 0)
    else
      let f := set_fflag f (clear (f_flag f) FNONBLOCK) in
      r ← ok (fo_ioctl w f Pipe.FIONBIO 0);
      let '(w, _, _) := r in
      Some (f, w, inr error).

Definition fcntl_setfl (st : store) (w : W) (t : filedesc) (fd arg : Z) : option (store * W * (Z + Z)) :=
  through st w t fd (setfl w arg).

(** *** Terminals *)

(** Whether the vnode represents a terminal. *)
Variable (vn_istty : W -> Z -> bool).

Definition fcntl_isatty (st : store) (w : W) (t : filedesc) (fd : Z) : option (store * W * (Z + Z)) :=
  through st w t fd (fun f =>
    Some (f, w, if (f_type f =? Descrip.DTYPE_VNODE) && vn_istty w (f_data f) then inl 1
                else inr Pipe.ENOTTY)).

(** *** Owners *)

(** The process group of a socket, the change of its owner, and the process group
    of a process. *)
Variables (so_pgid : W -> Z -> Z) (so_setown : W -> Z -> Z -> W) (prfind : Z -> option Z).

(** [tmp] is what the variable holds when no operation sets it. *)
Definition fcntl_getown (st : store) (w : W) (t : filedesc) (fd tmp : Z) : option (store * W * (Z + Z)) :=
  through st w t fd (fun f =>
    if f_type f =? DTYPE_SOCKET then Some (f, w, inl (so_pgid w (f_data f)))
    else
      r ← ok (fo_ioctl w f TIOCGPGRP tmp);
      let '(w, error, tmp) := r in
      Some (f, w, if error =? 0 then inl (s32 (- tmp)) else inr error)).

(** The process group that a process or a negative group stands for. *)
Definition own_pgrp (arg : Z) : option Z :=
  if arg <=? 0 then Some (wraps 64 (- arg)) else prfind (s32 arg).

Definition fcntl_setown (st : store) (w : W) (t : filedesc) (fd arg : Z) : option (store * W * (Z + Z)) :=
  through st w t fd (fun f =>
    if f_type f =? DTYPE_SOCKET then Some (f, so_setown w (f_data f) (s32 arg), inl 0)
    else match own_pgrp arg with
         | None => Some (f, w, inr ESRCH)
         | Some pgrp =>
             r ← ok (fo_ioctl w f TIOCSPGRP (s32 pgrp));
             let '(w, error, _) := r in
             Some (f, w, if error =? 0 then inl 0 else inr error)
         end).

(** *** fstat(2) and fpathconf(2) *)

(** [suser] is what [suser] returns, [clear_gen] clears [st_gen], and [cperr] is what
    [copyout] returns; with the result is what was copied out. *)
Definition sys_fstat (st : store) (w : W) (t : filedesc) (fd suser cperr : Z) (clear_gen : S -> S)
  : option (store * Z * option S) :=
  g ← fd_getfile st t fd;
  match g with
  | None => Some (st, EBADF, None)
  | Some fp =>
      st1 ← FREF st fp;
      f ← files st1 !! fp;
      r ← ok (fo_stat w f);
      '(_, st2) ← FRELE fo_close st1 fp;
      match r with
      | inr error => Some (st2, error, None)
      | inl ub =>
          let ub := if negb (suser =? 0) then clear_gen ub else ub in
          Some (st2, cperr, if cperr =? 0 then Some ub else None)
      end
  end.

(** What the file system of a vnode says. *)
Variable (vop_pathconf : W -> Z -> Z -> Z + Z).

Definition sys_fpathconf (st : store) (w : W) (t : filedesc) (fd name : Z)
  : option (store * W * (Z + Z)) :=
  through st w t fd (fun f =>
    Some (f, w,
      if (f_type f =? DTYPE_PIPE) || (f_type f =? DTYPE_SOCKET) then
        if negb (name =? _PC_PIPE_BUF) then inr EINVAL else inl Pipe.PIPE_BUF
      else if f_type f =? Descrip.DTYPE_VNODE then vop_pathconf w (f_data f) name
      else inr EOPNOTSUPP)).

(** *** The device of descriptors *)

Definition minor (dev : Z) : Z := (dev .& 0xff) .| Z.shiftr (dev .& 0xffff0000) 8.

Definition filedescopen (dev : Z) (p : dup_proc) : dup_proc * Z :=
  (DupProc (ps_flags p) (p_descfd p) (minor dev), ENODEV).

(** ** Lemmas *)

(** The file is held and let go, and only what the work changed is changed. *)
Lemma through_eq ext st w t fd body :
  inv ext st t -> is_int fd ->
  match usable_at st t fd with
  | None => through st w t fd body = Some (st, w, inr EBADF)
  | Some fp =>
      exists f, files st !! fp = Some f /\
        forall f' w' res, body (set_count f (f_count f + 1)) = Some (f', w', res) ->
          f_count f' = f_count f + 1 ->
          let st' := set_files st (<[fp := set_count f' (f_count f)]> (files st)) in
          through st w t fd body = Some (st', w', res) /\ inv ext st' t
  end.
Proof.
  intros Hinv Hfd. unfold through. rewrite (fd_getfile_spec ext) by done. cbn [mbind option_bind].
  destruct (usable_at st t fd) as [fp|] eqn:Hu; [|done]. pose proof Hinv as [Ht Hc Hs].
  pose proof (usable_at_file_at _ _ _ _ Hu) as Hat.
  destruct (inv_file ext st t fd fp Hc Ht Hat) as (_ & f & Hf & _). exists f. split; [done|].
  intros f' w' res Hb Hcount. assert (Hpos : 0 < f_count f) by (by apply (proj1 (proj2 Hc) fp)).
  unfold FREF, add_count. rewrite Hf. cbn [mbind option_bind set_files files].
  rewrite lookup_insert_eq. cbn [mbind option_bind]. rewrite Hb. cbn [mbind option_bind].
  unfold FRELE, add_count. cbn [set_files files]. rewrite lookup_insert_eq. cbn [mbind option_bind].
  cbn [set_files files]. rewrite lookup_insert_eq. cbn [mbind option_bind f_count set_count].
  rewrite (proj2 (Z.eqb_neq _ 0)) by lia. cbn [mbind option_bind].
  unfold set_files. cbn [files nfiles log]. rewrite !insert_insert_eq.
  replace (f_count f' + -1) with (f_count f) by lia. split; [done|].
  split; [done| |done]. by apply (counted_update ext st t fp f).
Qed.

Lemma through_spec ext st w t fd body :
  inv ext st t -> is_int fd ->
  match usable_at st t fd with
  | None => through st w t fd body = Some (st, w, inr EBADF)
  | Some fp =>
      exists f, files st !! fp = Some f /\
        forall f' w' res, body (set_count f (f_count f + 1)) = Some (f', w', res) ->
          f_count f' = f_count f + 1 ->
          exists st', through st w t fd body = Some (st', w', res) /\ inv ext st' t /\
            files st' = <[fp := set_count f' (f_count f)]> (files st)
  end.
Proof.
  intros Hinv Hfd. pose proof (through_eq ext st w t fd body Hinv Hfd) as H.
  destruct (usable_at st t fd) as [fp|]; [|done]. destruct H as (f & Hf & H). exists f. split; [done|].
  intros f' w' res Hb Hcount. destruct (H f' w' res Hb Hcount) as [H1 H2]. eexists. by split_and!.
Qed.

(** Work that leaves the file alone. *)
Lemma through_same ext st w t fd (body : file -> option (file * W * (Z + Z))) w'
    (res : file -> Z + Z) :
  inv ext st t -> is_int fd ->
  (forall f, body f = Some (f, w', res f)) ->
  match usable_at st t fd with
  | None => through st w t fd body = Some (st, w, inr EBADF)
  | Some fp =>
      exists f st', files st !! fp = Some f /\
        through st w t fd body = Some (st', w', res (set_count f (f_count f + 1))) /\ inv ext st' t /\
        files st' = files st
  end.
Proof.
  intros Hinv Hfd Hb. pose proof (through_spec ext st w t fd body Hinv Hfd) as H.
  destruct (usable_at st t fd) as [fp|]; [|done]. destruct H as (f & Hf & H).
  destruct (H _ _ _ (Hb _) eq_refl) as (st' & Heq & Hi & Hfs). exists f, st'.
  split; [done|]. split; [done|]. split; [done|]. rewrite Hfs. by apply insert_id; destruct f.
Qed.

End calls.

(** ** Flags *)

Lemma fcntl_bits_land x y : (clear x O_ACCMODE .| (y .& O_ACCMODE)) .& FCNTLFLAGS = x .& FCNTLFLAGS.
Proof.
  unfold clear. rewrite Z.land_lor_distr_l, <- Z.land_assoc.
  change (O_ACCMODE .& FCNTLFLAGS) with 0. rewrite Z.land_0_r, Z.lor_0_r.
  apply Z.bits_inj'. intros i Hi. rewrite !Z.land_spec, Z.ldiff_spec.
  destruct (Z.testbit FCNTLFLAGS i) eqn:E; [|by rewrite !andb_false_r].
  replace (Z.testbit O_ACCMODE i) with false; [by rewrite andb_true_r|].
  symmetry. destruct (Z.testbit O_ACCMODE i) eqn:E2; [|done]. exfalso.
  assert (Z.testbit (O_ACCMODE .& FCNTLFLAGS) i = true) by (by rewrite Z.land_spec, E2, E).
  by rewrite (eq_refl : O_ACCMODE .& FCNTLFLAGS = 0), Z.bits_0 in *.
Qed.

(** What [F_SETFL] makes of the flags of a file. *)
Definition new_flags (v arg : Z) : Z := clear v FCNTLFLAGS .| (arg .& FCNTLFLAGS).

Lemma new_flags_set v arg : new_flags v arg .& FCNTLFLAGS = arg .& FCNTLFLAGS.
Proof.
  unfold new_flags, clear. rewrite Z.land_lor_distr_l, <- Z.land_assoc, Z.land_diag.
  replace (Z.ldiff v FCNTLFLAGS .& FCNTLFLAGS) with 0; [by rewrite Z.lor_0_l|].
  symmetry. apply Z.bits_inj'. intros i Hi. rewrite Z.land_spec, Z.ldiff_spec, Z.bits_0.
  by destruct (Z.testbit v i), (Z.testbit FCNTLFLAGS i).
Qed.

Lemma new_flags_keep v arg : clear (new_flags v arg) FCNTLFLAGS = clear v FCNTLFLAGS.
Proof.
  unfold new_flags, clear. apply Z.bits_inj'. intros i Hi.
  rewrite !Z.ldiff_spec, Z.lor_spec, Z.ldiff_spec, Z.land_spec.
  by destruct (Z.testbit v i), (Z.testbit FCNTLFLAGS i), (Z.testbit arg i).
Qed.

(** A flag of [FCNTLFLAGS] is as asked for. *)
Lemma new_flags_has v arg g :
  FCNTLFLAGS .& g = g -> has (new_flags v arg) g = has arg g.
Proof.
  intros Hg. assert (H : forall x, x .& g = (x .& FCNTLFLAGS) .& g).
  { intros x. by rewrite <- Z.land_assoc, Hg. }
  unfold has. by rewrite (H (new_flags v arg)), new_flags_set, <- H.
Qed.

Lemma land_mode x y : x .& O_ACCMODE = y .& O_ACCMODE -> (x - 1) .& O_ACCMODE = (y - 1) .& O_ACCMODE.
Proof.
  change O_ACCMODE with (Z.ones 2). rewrite !Z.land_ones by lia. intros H.
  rewrite (Zminus_mod x), H, <- Zminus_mod. done.
Qed.

Lemma oflags_fcntl v : OFLAGS v .& FCNTLFLAGS = v .& FCNTLFLAGS.
Proof. apply fcntl_bits_land. Qed.

(** The access mode that F_GETFL tells. *)
Lemma oflags_mode v : OFLAGS v .& O_ACCMODE = (v - 1) .& O_ACCMODE.
Proof.
  unfold OFLAGS, clear. rewrite Z.land_lor_distr_l, <- Z.land_assoc, Z.land_diag.
  replace (Z.ldiff v O_ACCMODE .& O_ACCMODE) with 0; [by rewrite Z.lor_0_l|].
  symmetry. apply Z.bits_inj'. intros i Hi. rewrite Z.land_spec, Z.ldiff_spec, Z.bits_0.
  by destruct (Z.testbit v i), (Z.testbit O_ACCMODE i).
Qed.

Lemma new_flags_mode v arg : OFLAGS (new_flags v arg) .& O_ACCMODE = OFLAGS v .& O_ACCMODE.
Proof.
  rewrite !oflags_mode. apply land_mode.
  assert (H : forall x, x .& O_ACCMODE = clear x FCNTLFLAGS .& O_ACCMODE).
  { intros x. unfold clear. apply Z.bits_inj'. intros i Hi. rewrite !Z.land_spec, Z.ldiff_spec.
    destruct (Z.testbit O_ACCMODE i) eqn:E; [|by rewrite !andb_false_r].
    destruct (Z.testbit FCNTLFLAGS i) eqn:E2; [|by rewrite !andb_true_r]. exfalso.
    assert (Hb : Z.testbit (O_ACCMODE .& FCNTLFLAGS) i = true) by (by rewrite Z.land_spec, E2, E).
    by rewrite (eq_refl : O_ACCMODE .& FCNTLFLAGS = 0), Z.bits_0 in Hb. }
  rewrite (H (new_flags v arg)), (H v). by rewrite new_flags_keep.
Qed.

(** ** Pipes as files *)

#[global] Instance pipe_ops (cr_uid cr_gid : Z) : FileOps Pipe.pst Pipe.stat := {
  fo_ioctl w f cmd data := Pipe.pipe_ioctl w (f_data f) cmd data;
  fo_stat w f := s ← Pipe.pipe_stat w (f_data f) cr_uid cr_gid; Ok (inl s);
}.

Section pipes.
Variables (fo_close : Z -> Z) (cr_uid cr_gid : Z).
#[local] Existing Instance pipe_ops.
Let ops : FileOps Pipe.pst Pipe.stat := pipe_ops cr_uid cr_gid.
#[local] Existing Instance ops.

(** The descriptor [fd] is the end [a] of a pipe that is open. *)
Record pipe_at (ext : Z -> Z) (st : store) (t : filedesc) (w : Pipe.pst) (fd fp a : Z) (f : file)
    (p : Pipe.pipe) : Prop := PipeAt {
  pa_inv : inv ext st t;
  pa_fd : is_int fd;
  pa_use : usable_at st t fd = Some fp;
  pa_file : files st !! fp = Some f;
  pa_type : f_type f = DTYPE_PIPE;
  pa_data : f_data f = a;
  pa_reach : PipeLife.reach w;
  pa_open : PipeLife.open_end w a;
  pa_pipe : Pipe.pipes w !! a = Some p;
}.

(** An ioctl on a pipe is a call on it. *)
Lemma ioctl_reach w tid a cmd data w' e d :
  PipeLife.reach w -> PipeLife.open_end w a -> Pipe.threads w !! tid = None ->
  Pipe.pipe_ioctl w a cmd data = Ok (w', e, d) -> PipeLife.reach w'.
Proof.
  intros Hr Ho Ht He. eapply (PipeLife.reach_call w 0 tid (PipeLife.CIoctl a cmd data) w'); [done|done|].
  unfold PipeLife.exec. rewrite Ht. unfold PipeLife.at_once. by rewrite He.
Qed.

Lemma free_thread (w : Pipe.pst) : exists tid, Pipe.threads w !! tid = None.
Proof.
  exists (fresh (dom (Pipe.threads w))). apply not_elem_of_dom, is_fresh.
Qed.

(** The pipe after [FIOASYNC]. *)
Definition async_pipe (v : Z) (p : Pipe.pipe) : Pipe.pipe :=
  if has v FASYNC then Pipe.raise Pipe.PIPE_ASYNC p else Pipe.lower Pipe.PIPE_ASYNC p.

Lemma setfl_pipe w arg f p :
  Pipe.pipes w !! f_data f = Some p ->
  setfl w arg f = Some (set_fflag f (new_flags (f_flag f) arg),
                        Pipe.store (f_data f) (async_pipe (new_flags (f_flag f) arg) p) w, inl 0).
Proof.
  intros Hp. unfold setfl. cbn [fo_ioctl ops pipe_ops f_data f_flag set_fflag].
  assert (H1 : forall d, Pipe.pipe_ioctl w (f_data f) Pipe.FIONBIO d = Ok (w, 0, d)).
  { intros d. unfold Pipe.pipe_ioctl. by rewrite (PipeRun.deref_eq _ _ _ Hp). }
  rewrite H1. cbn [ok mbind option_bind]. unfold Pipe.pipe_ioctl.
  rewrite (PipeRun.deref_eq _ _ _ Hp). unfold FFLAGS. rewrite fcntl_bits_land. done.
Qed.

(** The pipe of a descriptor after [F_SETFL], with the state still reachable. *)
Lemma async_reach w a p v :
  PipeLife.reach w -> PipeLife.open_end w a -> Pipe.pipes w !! a = Some p ->
  PipeLife.reach (Pipe.store a (async_pipe v p) w).
Proof.
  intros Hr Ho Hp. destruct (free_thread w) as [tid Ht].
  apply (ioctl_reach w tid a Pipe.FIOASYNC (v .& FASYNC) _ 0 (v .& FASYNC)); try done.
  unfold Pipe.pipe_ioctl. by rewrite (PipeRun.deref_eq _ _ _ Hp).
Qed.

Lemma async_flag v p : Pipe.flag (async_pipe v p) Pipe.PIPE_ASYNC = has v FASYNC.
Proof. unfold async_pipe. destruct (has v FASYNC); by PipeInv.flags. Qed.

(** An empty pipe that is open and not locked: a read returns EAGAIN or sleeps. *)
Lemma read_empty w now a p nonblock resid :
  PipeLife.reach w -> PipeLife.open_end w a -> Pipe.pipes w !! a = Some p ->
  Pipe.cnt (Pipe.pipe_buffer p) = 0 -> Pipe.flag p Pipe.PIPE_EOF = false ->
  Pipe.flag p Pipe.PIPE_LOCK = false -> 0 < resid < 2 ^ 31 ->
  exists w' l, Pipe.pipe_read w now a nonblock resid = Ok (w', l) /\
    l = if (nonblock : bool) then Pipe.Ret EAGAIN resid []
        else Pipe.RSleep (Pipe.Rd a false resid 0 []).
Proof.
  intros Hr [_ Ho] Hp Hc He Hl Hres. pose proof (PipeLife.pipe_reach_inv _ Hr) as Hi.
  destruct (PipeCalls.read_lock_spec w now (Pipe.Rd a nonblock resid 0 []) p)
    as (w' & l & evs & Heq & _ & _ & _ & Hpost);
    [by eapply PipeLife.inv_enter|done|unfold PipeInv.rd_ok; simpl; lia|].
  exists w', l. split; [exact Heq|]. destruct Hpost as [[_ Hpost]|(_ & Hk & _)]; [|congruence].
  destruct l; try done; simpl in Hpost.
  - lia.
  - destruct Hpost as (-> & _ & _ & ->). done.
  - destruct Hpost as (-> & -> & [[_ [?|[_ [?|?]]]]|(-> & -> & _)]); done || lia || congruence.
Qed.

(** Status flags are a round trip through a descriptor of a pipe: [F_SETFL]
    succeeds, [F_GETFL] then tells the flags that were set and the access mode as
    before, no other file and no other pipe changes, the pipe is asynchronous when
    the file is and keeps its bytes, and a read of the empty pipe through the
    descriptor fails or sleeps as O_NONBLOCK says. *)
Theorem pipe_fcntl_flags ext st t w fd fp a f p arg :
  pipe_at ext st t w fd fp a f p ->
  exists st' w' v p', fcntl_setfl fo_close st w t fd arg = Some (st', w', inl 0) /\
    inv ext st' t /\ PipeLife.reach w' /\
    files st' = <[fp := set_fflag f v]> (files st) /\
    Pipe.pipes w' = <[a := p']> (Pipe.pipes w) /\ Pipe.pipe_buffer p' = Pipe.pipe_buffer p /\
    Pipe.flag p' Pipe.PIPE_ASYNC = has v FASYNC /\
    (exists st'' u, fcntl_getfl fo_close st' w' t fd = Some (st'', w', inl u) /\ files st'' = files st' /\
       u .& FCNTLFLAGS = arg .& FCNTLFLAGS /\ u .& O_ACCMODE = OFLAGS (f_flag f) .& O_ACCMODE) /\
    forall now resid, Pipe.cnt (Pipe.pipe_buffer p) = 0 -> Pipe.flag p Pipe.PIPE_EOF = false ->
      Pipe.flag p Pipe.PIPE_LOCK = false -> 0 < resid < 2 ^ 31 ->
      exists w'' l, Pipe.pipe_read w' now a (has v FNONBLOCK) resid = Ok (w'', l) /\
        l = if has arg O_NONBLOCK then Pipe.Ret EAGAIN resid []
            else Pipe.RSleep (Pipe.Rd a false resid 0 []).
Proof.
  intros [Hi Hfd Hu Hf Hty Hd Hr Ho Hp].
  pose proof (through_spec fo_close ext st w t fd (setfl w arg) Hi Hfd) as Hth. rewrite Hu in Hth.
  destruct Hth as (f0 & Hf0 & Hth). assert (f0 = f) as -> by congruence.
  set (v := new_flags (f_flag f) arg).
  destruct (Hth (set_fflag (set_count f (f_count f + 1)) v) (Pipe.store a (async_pipe v p) w) (inl 0))
    as (st' & Heq & Hi' & Hfs); [|done|].
  { rewrite (setfl_pipe w arg _ p); cbn [f_data set_count f_flag]; rewrite ?Hd; done. }
  assert (Hfs' : files st' = <[fp := set_fflag f v]> (files st)) by (by rewrite Hfs; destruct f).
  exists st', (Pipe.store a (async_pipe v p) w), v, (async_pipe v p).
  assert (Hbuf : Pipe.pipe_buffer (async_pipe v p) = Pipe.pipe_buffer p).
  { unfold async_pipe. by destruct (has v FASYNC). }
  split; [exact Heq|]. split; [done|]. split; [by apply async_reach|]. split; [done|]. split; [done|].
  split; [done|]. split; [apply async_flag|]. split.
  - pose proof (through_same fo_close ext st' (Pipe.store a (async_pipe v p) w) t fd
      (fun f => Some (f, Pipe.store a (async_pipe v p) w, inl (OFLAGS (f_flag f)))) _
      (fun f => inl (OFLAGS (f_flag f))) Hi' Hfd (fun _ => eq_refl)) as Hg.
    replace (usable_at st' t fd) with (Some fp) in Hg.
    2:{ symmetry. unfold usable_at in *. apply bind_Some in Hu as (b & -> & Hb).
        apply bind_Some in Hb as (g & Hg' & Hb). cbn.
        destruct (FILE_IS_USABLE g) eqn:Eu; [|done]. injection Hb as ->.
        rewrite Hfs', lookup_insert_eq. cbn. assert (g = f) as -> by congruence.
        change (FILE_IS_USABLE (set_fflag f v)) with (FILE_IS_USABLE f). by rewrite Eu. }
    destruct Hg as (g & st'' & Hg1 & Hg2 & _ & Hg3).
    rewrite Hfs', lookup_insert_eq in Hg1. injection Hg1 as <-.
    exists st'', (OFLAGS v). split; [exact Hg2|]. split; [done|].
    rewrite oflags_fcntl. unfold v. rewrite new_flags_set, new_flags_mode. done.
  - intros now resid Hc He Hl Hres.
    replace (has arg O_NONBLOCK) with (has v FNONBLOCK) by (by apply new_flags_has).
    apply (read_empty _ _ _ (async_pipe v p)); try done.
    + by apply async_reach.
    + destruct Ho as [_ Ho]. split; [|exact Ho]. simpl. by rewrite lookup_insert_eq.
    + simpl. apply lookup_insert_eq.
    + by rewrite Hbuf.
    + unfold async_pipe. destruct (has v FASYNC); PipeInv.flags; done.
    + unfold async_pipe. destruct (has v FASYNC); PipeInv.flags; done.
Qed.

(** fstat of a pipe tells how many bytes it holds, fpathconf how many are
    written as one; the files stay as they are. *)
Theorem pipe_status ext st t w fd fp a f p suser name vop_pathconf :
  pipe_at ext st t w fd fp a f p ->
  (exists st' ub, sys_fstat fo_close st w t fd suser 0 id = Some (st', 0, Some ub) /\
     inv ext st' t /\ files st' = files st /\
     Pipe.st_mode ub = Pipe.S_IFIFO /\ Pipe.st_uid ub = cr_uid /\ Pipe.st_gid ub = cr_gid /\
     Pipe.st_size ub = Z.of_nat (length (PipeRing.held (Pipe.pipe_buffer p)))) /\
  exists st', sys_fpathconf fo_close vop_pathconf st w t fd name =
      Some (st', w, if name =? _PC_PIPE_BUF then inl Pipe.PIPE_BUF else inr EINVAL) /\
    inv ext st' t /\ files st' = files st.
Proof.
  intros [Hi Hfd Hu Hf Hty Hd Hr Ho Hp]. split.
  - pose proof (through_same fo_close ext st w t fd (fun f => Some (f, w, inl 0)) w (fun _ => inl 0)
      Hi Hfd (fun _ => eq_refl)) as Hg.
    rewrite Hu in Hg. destruct Hg as (f0 & st' & Hf0 & Hth & Hi' & Hfs).
    assert (f0 = f) as -> by congruence. unfold through in Hth. unfold sys_fstat.
    rewrite (fd_getfile_spec ext), Hu in * by done. cbn [mbind option_bind] in *.
    destruct (FREF st fp) as [st1|] eqn:Eref; [|done]. cbn [mbind option_bind] in *.
    unfold FREF, add_count in Eref. rewrite Hf in Eref. injection Eref as <-.
    cbn [set_files files] in *. rewrite lookup_insert_eq in *. cbn [mbind option_bind] in *.
    cbn [fo_stat ops pipe_ops f_data set_count]. rewrite Hd. unfold Pipe.pipe_stat.
    rewrite (PipeRun.deref_eq _ _ _ Hp). cbn [mbind outcome_bind ok option_bind].
    rewrite insert_insert_eq in Hth.
    change (set_files (set_files st ?m) ?n) with (set_files st n) in Hth.
    destruct (FRELE fo_close _ fp) as [[er st2]|] eqn:Erel; [|done]. cbn [mbind option_bind] in *.
    injection Hth as ->. cbn [mbind option_bind]. rewrite (eq_refl : (0 =? 0) = true).
    eexists st', _. split; [done|]. split; [done|]. split; [done|].
    pose proof (PipeLife.pipe_reach_inv _ Hr) as Hpi.
    destruct (PipeInv.po_buf _ _ _ _ (PipeInv.iv_pipe _ _ Hpi _ _ Hp)) as [m Hb].
    rewrite (PipeRing.held_length _ _ Hb). by destruct (negb (suser =? 0)).
  - pose proof (through_same fo_close ext st w t fd _ w _ Hi Hfd (fun f => eq_refl
      : (fun f => Some (f, w,
      if (f_type f =? DTYPE_PIPE) || (f_type f =? DTYPE_SOCKET) then
        if negb (name =? _PC_PIPE_BUF) then inr EINVAL else inl Pipe.PIPE_BUF
      else if f_type f =? Descrip.DTYPE_VNODE then vop_pathconf w (f_data f) name
      else inr EOPNOTSUPP)) f = _)) as Hg.
    rewrite Hu in Hg. destruct Hg as (f0 & st' & Hf0 & Hth & Hi' & Hfs).
    assert (f0 = f) as -> by congruence. exists st'. split; [|done].
    unfold sys_fpathconf. rewrite Hth. cbn [f_type set_count]. rewrite Hty.
    change (DTYPE_PIPE =? DTYPE_PIPE) with true. cbn [orb]. by destruct (name =? _PC_PIPE_BUF).
Qed.

End pipes.

(** ** Concrete runs *)

(** The pipe of descriptors 0 and 1 in the table of [DescripSpec.demo]. *)
Definition pipe_world : Pipe.pst :=
  PipeSpec.reached [(1, PipeLife.COpen 2000 2001 PipeSpec.blank PipeSpec.blank
    (PipeSpec.mem Pipe.PIPE_SIZE) (PipeSpec.mem Pipe.PIPE_SIZE))].

Definition pipe_file : file := default (File 0 0 0 false 0 0) (files (fst demo_state) !! 1000).

Lemma pipe_at_demo : exists p,
  pipe_at (fun _ => 0) (fst demo_state) (snd demo_state) pipe_world 0 1000 2000 pipe_file p.
Proof.
  destruct (Pipe.pipes pipe_world !! 2000) as [p|] eqn:Ep; [|by vm_compute in Ep]. exists p.
  assert (Hr : PipeLife.reach pipe_world) by (apply PipeSpec.reached_reach; vm_compute; reflexivity).
  split; [exact demo_inv|by_decide|vm_compute; reflexivity|vm_compute; reflexivity|vm_compute; reflexivity
         |vm_compute; reflexivity|exact Hr| |exact Ep].
  split; [by rewrite Ep|vm_compute; reflexivity].
Qed.

Lemma pipe_fcntl_flags_witness : exists st' w',
  fcntl_setfl (S := Pipe.stat) (FileOps0 := pipe_ops 0 0) close_ok (fst demo_state) pipe_world
    (snd demo_state) 0 (O_NONBLOCK .| O_ASYNC) = Some (st', w', inl 0).
Proof.
  destruct pipe_at_demo as [p Hp].
  destruct (pipe_fcntl_flags close_ok 0 0 _ _ _ _ _ _ _ _ _ (O_NONBLOCK .| O_ASYNC) Hp)
    as (st' & w' & v & p' & H & _).
  exact (ex_intro _ st' (ex_intro _ w' H)).
Defined.

Lemma pipe_status_witness : exists st' ub,
  sys_fstat (S := Pipe.stat) (FileOps0 := pipe_ops 7 8) close_ok (fst demo_state) pipe_world
    (snd demo_state) 0 0 0 id = Some (st', 0, Some ub) /\ Pipe.st_uid ub = 7.
Proof.
  destruct pipe_at_demo as [p Hp].
  destruct (pipe_status close_ok 7 8 _ _ _ _ _ _ _ _ _ 0 _PC_PIPE_BUF (fun _ _ _ => inr EINVAL) Hp)
    as ((st' & ub & H1 & _ & _ & _ & H2 & _) & _).
  exact (ex_intro _ st' (ex_intro _ ub (conj H1 H2))).
Defined.

(** ** Where the code does not do what it means to *)

(** [F_SETOWN] asks a pipe with TIOCSPGRP, which pipes do not know; they know
    SIOCSPGRP. *)
Example pipe_setown_fails :
  (fun r => snd r) <$>
    fcntl_setown (S := Pipe.stat) (FileOps0 := pipe_ops 0 0) close_ok (fun w _ _ => w) (fun _ => None)
      (fst demo_state) pipe_world (snd demo_state) 0 (-5) = Some (inr Pipe.ENOTTY).
Proof. vm_compute. reflexivity. Qed.

(** A file whose driver knows FIONBIO and not FIOASYNC. *)
Definition deaf_ops : FileOps unit unit := {|
  fo_ioctl w _ cmd data := Ok (w, if cmd =? Pipe.FIOASYNC then Pipe.ENOTTY else 0, data);
  fo_stat _ _ := Ok (inl tt);
|}.

(** [F_SETFL] fails there, but it has set FASYNC and cleared FNONBLOCK, which was
    set before. *)
Example failed_setfl_changes_flags :
  let f := File (FREAD .| FNONBLOCK) Descrip.DTYPE_VNODE 1 true 0 0 in
  setfl (FileOps0 := deaf_ops) tt (O_NONBLOCK .| O_ASYNC) f =
    Some (set_fflag f (FREAD .| FASYNC), tt, inr Pipe.ENOTTY).
Proof. vm_compute. reflexivity. Qed.

End FileCalls.
