(* ===== verification/Select.v ===== *)
(** * select(2) and poll(2) (kern/sys_generic.c): the model

    A thread in select or poll asks one file after another with [fo_poll], which
    tells what is ready or records the thread with [selrecord] in the [selinfo] of
    what it waits for.  When nothing was ready the thread sleeps on [selwait],
    unless something happened since it began: then [selwakeup] has cleared
    P_SELECT of the thread or, after a collision, counted [nselcoll] on.

    First the protocol: [selrecord], [selwakeup] and the loop from the label
    [retry], with threads that interleave.  The kernel lock lets one thread scan
    at a time, but interrupts call [selwakeup] between any two steps of a scan.  A
    file is a condition, a number; [sip_of] is the address of the [selinfo] that
    goes with it, and what drivers promise is the step [Event]: conditions become
    true together with a call of [selwakeup] on their [selinfo].

    Then the scans: [selscan] over the bit sets and [pollscan] over the array,
    with the way of the bits from and to the user.

    [nselcoll] counts without bound: to be misled by the [int] of the code, a scan
    would have to see 2^32 collisions. *)

From S2P Require Import Prelude Libkern Descrip FileCalls.
Import Libkern.

Module Select.

Definition P_SELECT : Z := 0x40.
Definition SI_COLL : Z := 0x0001.
Definition POLLIN : Z := 0x0001.
Definition POLLPRI : Z := 0x0002.
Definition POLLOUT : Z := 0x0004.
Definition POLLNVAL : Z := 0x0020.
Definition POLLRDNORM : Z := 0x0040.
Definition POLLWRNORM : Z := POLLOUT.
Definition POLLNOHUP : Z := 0x1000.
Definition INFTIM : Z := -1.
Definition ERESTART : Z := -1.
Definition EINTR : Z := 4.
Definition EWOULDBLOCK : Z := 35.

(** ** The protocol *)

Record selinfo := Selinfo {
  si_selpid : Z;
  si_flags : Z;
}.

(** Where a thread is: not in select; in a scan of [reqs] that began at [ncoll],
    with the conditions [todo] left and [n] found true; or in [tsleep]. *)
Inductive pc : Type :=
| Idle
| Scan (reqs : list Z) (ncoll : Z) (todo : list Z) (n : Z)
| Asleep (reqs : list Z).

(** [p_wchan] says that the wait channel is [selwait]. *)
Record proc := Proc {
  p_flag : Z;
  p_wchan : bool;
  p_pc : pc;
}.

(** [ready] are the conditions that hold, [owed] those that were made true by
    someone who has yet to call [selwakeup]. *)
Record selst := Selst {
  infos : gmap Z selinfo;
  nselcoll : Z;
  procs : gmap Z proc;
  ready : gset Z;
  owed : gset Z;
}.

Definition info (st : selst) (s : Z) : selinfo := default (Selinfo 0 0) (infos st !! s).
Definition set_info (s : Z) (i : selinfo) (st : selst) : selst :=
  Selst (<[s := i]> (infos st)) (nselcoll st) (procs st) (ready st) (owed st).
Definition set_procs (f : gmap Z proc -> gmap Z proc) (st : selst) : selst :=
  Selst (infos st) (nselcoll st) (f (procs st)) (ready st) (owed st).

(** Off the sleep queue. *)
Definition unsleep (p : proc) : proc := Proc (p_flag p) false (p_pc p).

Definition selrecord (st : selst) (mypid s : Z) : selst :=
  let sip := info st s in
  if si_selpid sip =? mypid then st
  else if negb (si_selpid sip =? 0) &&
          match procs st !! si_selpid sip with Some p => p_wchan p | None => false end
  then set_info s (Selinfo (si_selpid sip) (si_flags sip .| SI_COLL)) st
  else set_info s (Selinfo mypid (si_flags sip)) st.

(** A collision: everyone is woken. *)
Definition collision (s : Z) (st : selst) : selst :=
  let sip := info st s in
  Selst (<[s := Selinfo (si_selpid sip) (clear (si_flags sip) SI_COLL)]> (infos st)) (nselcoll st + 1)
    (unsleep <$> procs st) (ready st) (owed st).

Definition selwakeup (st : selst) (s : Z) : selst :=
  let pid := si_selpid (info st s) in
  if pid =? 0 then st
  else
    let st := if has (si_flags (info st s)) SI_COLL then collision s st else st in
    let st := set_info s (Selinfo 0 (si_flags (info st s))) st in
    match procs st !! pid with
    | None => st
    | Some p =>
        if p_wchan p then set_procs <[pid := unsleep p]> st
        else if has (p_flag p) P_SELECT
        then set_procs <[pid := Proc (clear (p_flag p) P_SELECT) (p_wchan p) (p_pc p)]> st
        else st
    end.

Section protocol.
Variable (sip_of : Z -> Z).

(** From [retry] to the scan. *)
Definition retry (st : selst) (pid : Z) (p : proc) (reqs : list Z) : selst :=
  set_procs <[pid := Proc (p_flag p .| P_SELECT) (p_wchan p) (Scan reqs (nselcoll st) reqs 0)]> st.

(** One [fo_poll] of the scan. *)
Definition poll_one (st : selst) (pid : Z) (p : proc) (reqs : list Z) (ncoll c : Z) (todo : list Z) (n : Z)
    : selst :=
  let next n := set_procs <[pid := Proc (p_flag p) (p_wchan p) (Scan reqs ncoll todo n)]> in
  if bool_decide (c ∈ ready st) then next (n + 1) st else next n (selrecord st pid (sip_of c)).

(** From the end of the scan to [tsleep] or back to [retry]; [expired] says that
    the time is over. *)
Definition scan_end (st : selst) (pid : Z) (p : proc) (reqs : list Z) (ncoll n : Z) (expired : bool)
    : selst :=
  let flag := clear (p_flag p) P_SELECT in
  if negb (n =? 0) || expired then set_procs <[pid := Proc flag (p_wchan p) Idle]> st
  else if negb (has (p_flag p) P_SELECT) || negb (nselcoll st =? ncoll) then retry st pid p reqs
  else set_procs <[pid := Proc flag true (Asleep reqs)]> st.

Inductive action : Type :=
| Enter (pid : Z) (reqs : list Z)      (* select or poll is called *)
| Poll (pid : Z)                       (* the next fo_poll *)
| End (pid : Z) (expired : bool)       (* the end of the scan *)
| Resume (pid : Z)                     (* tsleep returns 0 *)
| Interrupt (pid : Z)                  (* tsleep returns an error *)
| Raise (cs : gset Z)                  (* conditions become true, selwakeup is to follow *)
| Event (s : Z) (cs : gset Z)          (* conditions become true, with selwakeup *)
| Quiet (cs : gset Z).                 (* conditions become false *)

Definition act (st : selst) (a : action) : option selst :=
  match a with
  | Enter pid reqs =>
      p ← procs st !! pid;
      match p_pc p with Idle => Some (retry st pid p reqs) | _ => None end
  | Poll pid =>
      p ← procs st !! pid;
      match p_pc p with
      | Scan reqs ncoll (c :: todo) n => Some (poll_one st pid p reqs ncoll c todo n)
      | _ => None
      end
  | End pid expired =>
      p ← procs st !! pid;
      match p_pc p with
      | Scan reqs ncoll [] n => Some (scan_end st pid p reqs ncoll n expired)
      | _ => None
      end
  | Resume pid =>
      p ← procs st !! pid;
      match p_pc p with
      | Asleep reqs => if p_wchan p then None else Some (retry st pid p reqs)
      | _ => None
      end
  | Interrupt pid =>
      p ← procs st !! pid;
      match p_pc p with
      | Asleep _ => Some (set_procs <[pid := Proc (clear (p_flag p) P_SELECT) false Idle]> st)
      | _ => None
      end
  | Raise cs => Some (Selst (infos st) (nselcoll st) (procs st) (ready st ∪ cs) (owed st ∪ cs))
  | Event s cs =>
      let st := selwakeup st s in
      Some (Selst (infos st) (nselcoll st) (procs st) (ready st ∪ cs) (filter (fun c => sip_of c <> s) (owed st)))
  | Quiet cs => Some (Selst (infos st) (nselcoll st) (procs st) (ready st ∖ cs) (owed st))
  end.

End protocol.

(** ** The scans *)

Definition NFDBITS : Z := 32.
Definition howmany (x y : Z) : Z := (x + (y - 1)) / y.
Definition FD_SET (n : Z) (p : list Z) : list Z :=
  alter (fun w => w .| u32 (Z.shiftl 1 (n mod NFDBITS))) (Z.to_nat (n / NFDBITS)) p.
Definition FD_ISSET (n : Z) (p : list Z) : bool :=
  match p !! Z.to_nat (n / NFDBITS) with
  | Some w => has w (u32 (Z.shiftl 1 (n mod NFDBITS)))
  | None => false
  end.

(** An entry of the array of poll(2). *)
Record pollfd := Pollfd {
  fd : Z;
  events : Z;
  revents : Z;
}.

(** What [fo_poll] of a file tells about the events, and what it records. *)
Class PollOps (W : Type) := fo_poll : W -> Descrip.file -> Z -> W * Z.

Section scan.
Context {W : Type} `{!PollOps W}.
Variables (fo_close : Z -> Z) (t : Descrip.filedesc).

(** [fo_poll] on a descriptor that is held meanwhile. *)
Definition poll_fd (st : Descrip.store) (w : W) (d ev : Z) : option (Descrip.store * W * (Z + Z)) :=
  FileCalls.through fo_close st w t d (fun f =>
    let '(w', r) := fo_poll w f ev in Some (f, w', inl r)).

(** The files, the state behind them, the bits to return and how many are set. *)
Definition scan_state : Type := Descrip.store * W * list Z * Z.

(** One descriptor; [inr] is the error. *)
Definition scan_fd (ev d : Z) (s : scan_state) : option (scan_state + Descrip.store * W * Z) :=
  let '(st, w, obits, n) := s in
  r ← poll_fd st w d ev;
  let '(st, w, res) := r in
  Some (match res with
        | inr error => inr (st, w, error)
        | inl rev => inl (if negb (rev =? 0) then (st, w, FD_SET d obits, n + 1) else (st, w, obits, n))
        end).

(** The loop over the bits of a word; [fuel] bounds them. *)
Fixpoint scan_bits (fuel : nat) (ev nfd i bits : Z) (s : scan_state)
    : option (scan_state + Descrip.store * W * Z) :=
  let j := ffs bits in
  if (j =? 0) || (nfd <=? i + (j - 1)) then Some (inl s)
  else
    match fuel with
    | O => None
    | S fuel' =>
        r ← scan_fd ev (i + (j - 1)) s;
        match r with
        | inr e => Some (inr e)
        | inl s => scan_bits fuel' ev nfd i (clear bits (u32 (Z.shiftl 1 (j - 1)))) s
        end
    end.

(** The loop over the words of a set. *)
Fixpoint scan_words (ev nfd i : Z) (ws : list Z) (s : scan_state)
    : option (scan_state + Descrip.store * W * Z) :=
  if nfd <=? i then Some (inl s)
  else
    match ws with
    | [] => None
    | bits :: ws' =>
        r ← scan_bits 32 ev nfd i bits s;
        match r with
        | inr e => Some (inr e)
        | inl s => scan_words ev nfd (i + NFDBITS) ws' s
        end
    end.

Definition sel_flag : list Z := [POLLIN; POLLOUT .| POLLNOHUP; POLLPRI].

(** The loop over the three sets; with the number that are ready the bits of each. *)
Fixpoint scan_sets (nfd : Z) (flags : list Z) (ibits obits : list (list Z)) (st : Descrip.store) (w : W)
    (n : Z) (out : list (list Z)) : option (Descrip.store * W * (Z * list (list Z) + Z)) :=
  match flags, ibits, obits with
  | ev :: flags', ib :: ibits', ob :: obits' =>
      r ← scan_words ev nfd 0 ib (st, w, ob, n);
      match r with
      | inr (st, w, error) => Some (st, w, inr error)
      | inl (st, w, ob, n) => scan_sets nfd flags' ibits' obits' st w n (out ++ [ob])
      end
  | _, _, _ => Some (st, w, inl (n, out))
  end.

Definition selscan (st : Descrip.store) (w : W) (ibits obits : list (list Z)) (nfd : Z) :=
  scan_sets nfd sel_flag ibits obits st w 0 [].

(** One entry of the array: its [revents], and how many are not zero. *)
Definition poll_entry (st : Descrip.store) (w : W) (p : pollfd) (n : Z)
    : option (Descrip.store * W * Z * Z) :=
  if fd p <? 0 then Some (st, w, 0, n)
  else
    r ← poll_fd st w (fd p) (events p);
    let '(st, w, res) := r in
    Some match res with
         | inr _ => (st, w, POLLNVAL, n + 1)
         | inl rev =>
             let rev := wraps 16 rev in (st, w, rev, if negb (rev =? 0) then n + 1 else n)
         end.

Fixpoint pollscan (st : Descrip.store) (w : W) (pl : list pollfd) (n : Z)
    : option (Descrip.store * W * list pollfd * Z) :=
  match pl with
  | [] => Some (st, w, [], n)
  | p :: pl' =>
      r ← poll_entry st w p n;
      let '(st, w, rev, n) := r in
      r ← pollscan st w pl' n;
      let '(st, w, pl', n) := r in
      Some (st, w, Pollfd (fd p) (events p) rev :: pl', n)
  end.

End scan.

(** ** The ends of the calls *)

(** The number of descriptors that [dopselect] looks at, and the words of a set. *)
Definition select_nd (nd : Z) (tab : Descrip.filedesc) : Z :=
  if Descrip.fd_nfiles tab <? nd then Descrip.fd_nfiles tab else nd.
Definition select_words (nd : Z) : Z := howmany nd NFDBITS.

(** A set as it is copied in: zero if the user gave none; [inr] is the error of
    [copyin]. *)
Definition getbits (words : Z) (user : option (list Z + Z)) : list Z + Z :=
  match user with
  | None => inl (replicate (Z.to_nat words) 0)
  | Some r => r
  end.

Definition dopselect_begin (nd : Z) (tab : Descrip.filedesc) (inp oup exp : option (list Z + Z))
    : (Z * list (list Z)) + Z :=
  if nd <? 0 then inr EINVAL
  else
    let nd := select_nd nd tab in
    let words := select_words nd in
    match getbits words inp with
    | inr error => inr error
    | inl ib =>
        match getbits words oup with
        | inr error => inr error
        | inl ob =>
            match getbits words exp with
            | inr error => inr error
            | inl eb => inl (nd, [ib; ob; eb])
            end
        end
    end.

(** The bits before a scan. *)
Definition no_bits (nd : Z) : list (list Z) := replicate 3 (replicate (Z.to_nat (select_words nd)) 0).

(** One [putbits]: [copyout] of a set that the user gave, with its error. *)
Definition putbits (error : Z) (copy : option Z) : Z :=
  match copy with Some error2 => if negb (error2 =? 0) then error2 else error | None => error end.

(** From [done] on: the error, and whether the sets are copied out. *)
Definition dopselect_done (error : Z) (inp oup exp : option Z) : Z * bool :=
  let error := if error =? ERESTART then EINTR else error in
  let error := if error =? EWOULDBLOCK then 0 else error in
  if error =? 0 then (putbits (putbits (putbits error inp) oup) exp, true) else (error, false).

(** The poll routines of devices that are always ready, or never. *)
Definition seltrue (events : Z) : Z := events .& (POLLIN .| POLLOUT .| POLLRDNORM .| POLLWRNORM).
Definition selfalse (events : Z) : Z := 0.

(** The entries of the user after [pollout], which stops at the first error;
    [copyout] tells the error of each. *)
Fixpoint pollout (copyout : nat -> Z) (i : nat) (pl upl : list pollfd) : list pollfd * Z :=
  match pl, upl with
  | p :: pl', u :: upl' =>
      let error := copyout i in
      if negb (error =? 0) then (upl, error)
      else let '(rest, error) := pollout copyout (S i) pl' upl' in
           (Pollfd (fd u) (events u) (revents p) :: rest, error)
  | _, _ => (upl, 0)
  end.

(** [sys_poll]: the time to wait in seconds and nanoseconds, if it is bounded. *)
Definition sys_poll_time (msec : Z) : option (Z * Z) + Z :=
  if msec =? INFTIM then inl None
  else if msec <? 0 then inr EINVAL
  else inl (Some (Z.quot msec 1000, (msec - Z.quot msec 1000 * 1000) * 1000000)).

(** [pl] is what [copyin] gave, or its error; [malloc_ok] whether there was memory
    for the array, where it is not small. *)
Definition doppoll_begin (nfds rlim_cur maxfiles : Z) (malloc_ok : bool) (pl : list pollfd + Z)
    : list pollfd + Z :=
  if Z.min (u32 rlim_cur) (u32 maxfiles) <? nfds then inr EINVAL
  else if (4 <? nfds) && negb malloc_ok then inr EINVAL
  else match pl with
       | inr error => inr error
       | inl pl => inl ((fun p => Pollfd (fd p) (clear (events p) POLLNOHUP) 0) <$> pl)
       end.

(** From [done] on; [cperr] is what [pollout] returns. *)
Definition doppoll_done (error cperr : Z) : Z :=
  if error =? ERESTART then if cperr =? 0 then EINTR else cperr
  else if (error =? EWOULDBLOCK) || (error =? 0) then cperr
  else error.

(** The time left at [now] until [ats], in nanoseconds: none, or the ticks to
    sleep, at most those of a day. *)
Definition sleep_ticks (hz : Z) (tstohz : Z -> Z) (now ats : Z) : option Z :=
  if ats <=? now then None
  else
    let tts := ats - now in
    Some (if 24 * 60 * 60 <? tts / 1000000000 then 24 * 60 * 60 * hz else tstohz tts).

End Select.
