(* ===== verification/SelectWait.v ===== *)
(** * select(2) and poll(2): that no wake-up is lost

    The invariant of the protocol: whoever sleeps, or scans and has not been told
    to scan again, is recorded with everything it found false, and all of that is
    still false, or has become true with the call of [selwakeup] to follow. *)

From S2P Require Import Prelude Libkern Descrip FileCalls Select.
Import Select.

Module SelectWait.

Section wait.
Variable (sip_of : Z -> Z).

(** A call of [selwakeup] on [s] reaches the thread. *)
Definition recorded (st : selst) (pid s : Z) : Prop :=
  si_selpid (info st s) = pid \/
  (has (si_flags (info st s)) SI_COLL = true /\ si_selpid (info st s) <> 0).

Definition waits (st : selst) (pid : Z) (cs : list Z) : Prop :=
  forall c, c ∈ cs -> (c ∈ ready st -> c ∈ owed st) /\ recorded st pid (sip_of c).

Definition proc_ok (st : selst) (pid : Z) (p : proc) : Prop :=
  pid <> 0 /\
  match p_pc p with
  | Idle => p_wchan p = false
  | Scan reqs ncoll todo n => p_wchan p = false /\ ncoll <= nselcoll st /\ 0 <= n /\
      exists seen, (n = 0 -> seen ++ todo = reqs) /\
        (has (p_flag p) P_SELECT = true -> ncoll = nselcoll st -> waits st pid seen)
  | Asleep reqs => p_wchan p = true -> waits st pid reqs
  end.

Definition scanning (p : proc) : bool := match p_pc p with Scan _ _ _ _ => true | _ => false end.

(** No other thread scans: what the kernel lock is for. *)
Definition alone (st : selst) (pid : Z) : Prop :=
  forall pid' p', procs st !! pid' = Some p' -> scanning p' = true -> pid' = pid.

Definition sel_ok (st : selst) : Prop := forall pid p, procs st !! pid = Some p -> proc_ok st pid p.

(** What the kernel lock and the drivers see to. *)
Definition act_ok (st : selst) (a : action) : Prop :=
  match a with
  | Enter pid _ | Poll pid | End pid _ | Resume pid => alone st pid
  | Event s cs => forall c, c ∈ cs -> sip_of c = s
  | Raise _ | Interrupt _ | Quiet _ => True
  end.

Inductive reach : selst -> Prop :=
| reach_start ps :
    map_Forall (fun pid p => pid <> 0 /\ p = Proc 0 false Idle) ps -> reach (Selst ∅ 0 ps ∅ ∅)
| reach_act st a st' : reach st -> act_ok st a -> act sip_of st a = Some st' -> reach st'.

(** ** Changes *)

Lemma flag_select x : has (x .| P_SELECT) P_SELECT = true.
Proof.
  unfold has. rewrite Z.land_lor_distr_l, Z.land_diag. apply negb_true_iff, Z.eqb_neq. intros E.
  apply Z.lor_eq_0_iff in E as [_ E]. done.
Qed.

Lemma flag_unselect x f : has (clear x f) f = false.
Proof.
  unfold has, clear. replace (Z.ldiff x f .& f) with 0; [done|]. symmetry. apply Z.bits_inj'.
  intros i Hi. rewrite Z.land_spec, Z.ldiff_spec, Z.bits_0. by destruct (Z.testbit x i), (Z.testbit f i).
Qed.

(** What a thread relies on, in a state that keeps it. *)
Lemma proc_ok_mono st st' pid p :
  proc_ok st pid p -> nselcoll st <= nselcoll st' ->
  (forall cs, waits st pid cs ->
     p_wchan p = true \/ scanning p = true /\ nselcoll st' = nselcoll st -> waits st' pid cs) ->
  proc_ok st' pid p.
Proof.
  intros [H0 H] Hn Hw. split; [done|]. unfold scanning in Hw. destruct (p_pc p).
  - done.
  - destruct H as (H1 & H2 & H3 & seen & H4 & H5). split; [done|]. split; [lia|]. split; [done|].
    exists seen. split; [done|]. intros Hf Hc. assert (nselcoll st' = nselcoll st) by lia.
    apply Hw; [apply H5; [done|lia]|auto].
  - intros Hc. apply Hw; auto.
Qed.

(** One thread changes its place. *)
Lemma sel_ok_move st pid p' :
  sel_ok st -> proc_ok (set_procs <[pid := p']> st) pid p' ->
  sel_ok (set_procs <[pid := p']> st).
Proof.
  intros Hok Hp q x Hx. simpl in Hx. destruct (decide (q = pid)) as [->|Hne].
  - rewrite lookup_insert_eq in Hx. by injection Hx as <-.
  - rewrite lookup_insert_ne in Hx by done. exact (Hok q x Hx).
Qed.

Lemma info_set st s i s' : info (set_info s i st) s' = if decide (s' = s) then i else info st s'.
Proof.
  unfold info. simpl. destruct (decide (s' = s)) as [->|Hne].
  - by rewrite lookup_insert_eq.
  - by rewrite lookup_insert_ne.
Qed.

(** [selrecord] records the thread, and keeps the record of those who sleep. *)
Lemma selrecord_spec st pid s :
  pid <> 0 ->
  procs (selrecord st pid s) = procs st /\ nselcoll (selrecord st pid s) = nselcoll st /\
  ready (selrecord st pid s) = ready st /\ owed (selrecord st pid s) = owed st /\ recorded (selrecord st pid s) pid s /\
  forall q s', recorded st q s' ->
    q = pid \/ (q <> 0 /\ exists p, procs st !! q = Some p /\ p_wchan p = true) ->
    recorded (selrecord st pid s) q s'.
Proof.
  intros Hpid. unfold selrecord.
  destruct (Z.eqb_spec (si_selpid (info st s)) pid) as [E|E].
  { split_and!; try done. by left. }
  destruct (negb (si_selpid (info st s) =? 0) && _) eqn:Ec.
  - apply andb_prop in Ec as [H0%negb_true_iff%Z.eqb_neq _].
    assert (Hcoll : has (si_flags (info st s) .| SI_COLL) SI_COLL = true).
    { unfold has. rewrite Z.land_lor_distr_l, Z.land_diag. apply negb_true_iff, Z.eqb_neq.
      by intros [_ ?]%Z.lor_eq_0_iff. }
    split_and!; try done.
    + right. rewrite info_set, decide_True by done. done.
    + intros q s' Hr _. unfold recorded in *. rewrite info_set. destruct (decide (s' = s)) as [->|]; [|done].
      right. done.
  - split_and!; try done.
    + left. by rewrite info_set, decide_True.
    + intros q s' Hr Hq. unfold recorded in *. rewrite info_set. destruct (decide (s' = s)) as [->|]; [|done].
      simpl. destruct Hr as [Hr|[Hr _]]; [|by right]. destruct Hq as [->|(Hq0 & p & Hp & Hw)]; [by left|].
      exfalso. rewrite Hr, Hp, Hw, andb_true_r in Ec. by apply negb_false_iff, Z.eqb_eq in Ec.
Qed.

(** What [selwakeup] does to a thread. *)
Definition after_wakeup (coll mine : bool) (p : proc) : proc :=
  let p := if coll then unsleep p else p in
  if mine then
    if p_wchan p then unsleep p
    else if has (p_flag p) P_SELECT then Proc (clear (p_flag p) P_SELECT) (p_wchan p) (p_pc p) else p
  else p.

Lemma selwakeup_eq st s :
  let who := si_selpid (info st s) in
  let coll := negb (who =? 0) && has (si_flags (info st s)) SI_COLL in
  ready (selwakeup st s) = ready st /\ owed (selwakeup st s) = owed st /\
  nselcoll (selwakeup st s) = (if coll then nselcoll st + 1 else nselcoll st) /\
  (forall s', s' <> s -> info (selwakeup st s) s' = info st s') /\
  forall pid, procs (selwakeup st s) !! pid =
    after_wakeup coll (negb (who =? 0) && (pid =? who)) <$> procs st !! pid.
Proof.
  intros who coll. unfold selwakeup. fold who. destruct (Z.eqb_spec who 0) as [H0|H0]; cbn [negb andb] in *.
  { split_and!; try done. intros pid. unfold coll, after_wakeup. by destruct (procs st !! pid). }
  set (st2 := set_info s _ _).
  assert (Hst2 : ready st2 = ready st /\ owed st2 = owed st /\ nselcoll st2 = (if coll then nselcoll st + 1 else nselcoll st) /\
    (forall s', s' <> s -> info st2 s' = info st s') /\
    procs st2 = if coll then unsleep <$> procs st else procs st).
  { unfold st2, coll. split_and!; try (by destruct (has _ SI_COLL)). intros s' Hne.
    rewrite info_set, decide_False by done. destruct (has _ SI_COLL); [|done].
    unfold info. simpl. by rewrite lookup_insert_ne. }
  clearbody st2. destruct Hst2 as (H1 & Ho & H2 & H3 & H4).
  assert (Hl : forall pid, procs st2 !! pid = (fun p => if coll then unsleep p else p) <$> procs st !! pid).
  { intros pid. rewrite H4. destruct coll; [apply lookup_fmap|]. by destruct (procs st !! pid). }
  assert (Hother : forall pid, (pid =? who) = false ->
    procs st2 !! pid = after_wakeup coll (pid =? who) <$> procs st !! pid).
  { intros pid Hne. rewrite Hl, Hne. done. }
  assert (Hmove : forall p p', procs st !! who = Some p -> after_wakeup coll true p = p' -> forall pid,
    <[who := p']> (procs st2) !! pid = after_wakeup coll (pid =? who) <$> procs st !! pid).
  { intros p p' Hp <- pid. destruct (Z.eqb_spec pid who) as [->|Hne].
    - rewrite lookup_insert_eq, Hp. done.
    - rewrite lookup_insert_ne by done. rewrite Hother by lia. by rewrite (proj2 (Z.eqb_neq _ _) Hne). }
  rewrite Hl. destruct (procs st !! who) as [p|] eqn:Ep; cbn [fmap option_fmap option_map].
  - assert (Hsame : after_wakeup coll true p = (if coll then unsleep p else p) -> forall pid,
      procs st2 !! pid = after_wakeup coll (pid =? who) <$> procs st !! pid).
    { intros E pid. rewrite <- (Hmove p _ eq_refl E pid). destruct (decide (pid = who)) as [->|].
      - rewrite lookup_insert_eq, Hl, Ep. done.
      - by rewrite lookup_insert_ne. }
    set (p1 := if coll then unsleep p else p) in *.
    destruct (p_wchan p1) eqn:Ew; [|destruct (has (p_flag p1) P_SELECT) eqn:Es].
    + split_and!; try done. apply (Hmove p); [done|]. unfold after_wakeup. fold p1. by rewrite Ew.
    + split_and!; try done. apply (Hmove p); [done|]. unfold after_wakeup. fold p1. by rewrite Ew, Es.
    + split_and!; try done. apply Hsame. unfold after_wakeup. fold p1. by rewrite Ew, Es.
  - split_and!; try done. intros pid. rewrite Hl. destruct (Z.eqb_spec pid who) as [->|]; [by rewrite Ep|done].
Qed.

(** Who was recorded with [s] and relied on it does so no more. *)
Lemma wakeup_reaches st pid s p :
  pid <> 0 -> recorded st pid s ->
  let who := si_selpid (info st s) in
  let coll := negb (who =? 0) && has (si_flags (info st s)) SI_COLL in
  let p' := after_wakeup coll (negb (who =? 0) && (pid =? who)) p in
  p_wchan p' = false /\ (p_wchan p = false -> coll = false -> has (p_flag p') P_SELECT = false).
Proof.
  intros Hpid Hr who coll p'. unfold p', after_wakeup. destruct Hr as [Hr|[Hr H0]].
  - fold who in Hr. rewrite Hr, (proj2 (Z.eqb_neq _ _) Hpid), Z.eqb_refl. cbn [negb andb].
    destruct coll; simpl; [destruct (has _ P_SELECT); by split|].
    destruct (p_wchan p) eqn:E; [by split|]. destruct (has (p_flag p) P_SELECT) eqn:E2; simpl; [|by rewrite E].
    split; [done|]. intros _ _. apply flag_unselect.
  - fold who in H0. unfold coll. rewrite Hr, (proj2 (Z.eqb_neq _ _) H0). simpl.
    destruct (pid =? who); [destruct (has _ P_SELECT)|]; by split.
Qed.

(** Being woken changes neither the place nor, but for P_SELECT, what is relied on. *)
Lemma after_wakeup_less coll mine p :
  p_pc (after_wakeup coll mine p) = p_pc p /\
  (p_wchan (after_wakeup coll mine p) = true -> p_wchan p = true) /\
  (has (p_flag (after_wakeup coll mine p)) P_SELECT = true -> has (p_flag p) P_SELECT = true).
Proof.
  unfold after_wakeup. destruct coll, mine; simpl; try done.
  - destruct (has (p_flag p) P_SELECT) eqn:E; simpl; by rewrite ?E.
  - destruct (p_wchan p) eqn:Ew; [done|]. destruct (has (p_flag p) P_SELECT) eqn:E; simpl; by rewrite ?E, ?Ew.
Qed.

Lemma event_ok st s cs :
  sel_ok st -> (forall c, c ∈ cs -> sip_of c = s) ->
  sel_ok (Selst (infos (selwakeup st s)) (nselcoll (selwakeup st s)) (procs (selwakeup st s))
            (ready (selwakeup st s) ∪ cs) (filter (fun c => sip_of c <> s) (owed (selwakeup st s)))).
Proof.
  intros Hok Hcs pid p' Hp'. destruct (selwakeup_eq st s) as (H1 & Hd & H2 & H3 & H4). simpl in Hp'.
  rewrite H4 in Hp'. apply fmap_Some in Hp' as (p & Hp & ->).
  pose proof (Hok pid p Hp) as [Hpid H].
  pose proof (wakeup_reaches st pid s p Hpid) as Hreach. cbv zeta in Hreach.
  pose proof (after_wakeup_less (negb (si_selpid (info st s) =? 0) && has (si_flags (info st s)) SI_COLL)
    (negb (si_selpid (info st s) =? 0) && (pid =? si_selpid (info st s))) p) as (E1 & E2 & E3).
  set (coll := negb (si_selpid (info st s) =? 0) && has (si_flags (info st s)) SI_COLL) in *.
  set (p' := after_wakeup _ _ p) in *.
  assert (Hkeep : forall l, waits st pid l -> (recorded st pid s -> False) ->
    waits (Selst (infos (selwakeup st s)) (nselcoll (selwakeup st s)) (procs (selwakeup st s))
            (ready (selwakeup st s) ∪ cs) (filter (fun c => sip_of c <> s) (owed (selwakeup st s)))) pid l).
  { intros l Hw Hno c Hc. destruct (Hw c Hc) as [Hnr Hr].
    assert (Hne : sip_of c <> s) by (intros <-; by apply Hno).
    split.
    - simpl. rewrite H1, Hd, elem_of_union, elem_of_filter. intros [?|Hin]; [by split; [|apply Hnr]|].
      by destruct (Hne (Hcs c Hin)).
    - unfold recorded, info in *. simpl. pose proof (H3 (sip_of c) Hne) as H3'. unfold info in H3'.
      by rewrite H3'. }
  split; [done|]. rewrite E1. destruct (p_pc p) eqn:Epc.
  - destruct (p_wchan p') eqn:E; [|done]. rewrite (E2 eq_refl) in H. done.
  - destruct H as (K1 & K2 & K3 & seen & K4 & K5).
    assert (K1' : p_wchan p' = false).
    { destruct (p_wchan p') eqn:E; [|done]. rewrite (E2 eq_refl) in K1. done. }
    split; [done|]. split; [simpl; rewrite H2; destruct coll; lia|]. split; [done|].
    exists seen. split; [done|]. simpl. rewrite H2. intros Hf Hn.
    assert (Hcoll : coll = false) by (destruct coll; [lia|done]). rewrite Hcoll in Hn.
    apply Hkeep; [apply K5; [by apply E3|lia]|]. intros Hr. destruct (Hreach Hr) as [_ Hno].
    by rewrite (Hno K1 Hcoll) in Hf.
  - intros Hw. apply Hkeep; [by apply H, E2|]. intros Hr. destruct (Hreach Hr) as [Hno _]. congruence.
Qed.

(** ** Every action keeps the invariant *)

Lemma retry_ok st pid p reqs :
  sel_ok st -> pid <> 0 -> p_wchan p = false -> sel_ok (retry st pid p reqs).
Proof.
  intros Hok Hpid Hw. apply sel_ok_move; [done|]. split; [done|]. simpl. split; [done|].
  split; [done|]. split; [done|]. exists []. split; [done|]. intros _ _ c Hc. by apply not_elem_of_nil in Hc.
Qed.

Lemma poll_one_ok st pid p reqs ncoll c todo n :
  sel_ok st -> alone st pid -> procs st !! pid = Some p -> p_pc p = Scan reqs ncoll (c :: todo) n ->
  sel_ok (poll_one sip_of st pid p reqs ncoll c todo n).
Proof.
  intros Hok Hal Hp Epc. pose proof (Hok pid p Hp) as [Hpid H]. rewrite Epc in H.
  destruct H as (K1 & K2 & K3 & seen & K4 & K5). unfold poll_one. case_bool_decide as Hr.
  - apply sel_ok_move; [done|]. split; [done|]. simpl. split; [done|]. split; [done|].
    split; [lia|]. exists []. split; [lia|]. intros _ _ x Hx. by apply not_elem_of_nil in Hx.
  - destruct (selrecord_spec st pid (sip_of c) Hpid) as (E1 & E2 & E3 & E3' & E4 & E5).
    assert (Hkeep : forall q l, waits st q l ->
      q = pid \/ (q <> 0 /\ exists p, procs st !! q = Some p /\ p_wchan p = true) ->
      waits (selrecord st pid (sip_of c)) q l).
    { intros q l Hl Hq x Hx. destruct (Hl x Hx) as [Hx1 Hx2]. rewrite E3, E3'. split; [done|]. by apply E5. }
    apply sel_ok_move.
    + intros q x Hx. rewrite E1 in Hx. pose proof (Hok q x Hx) as Hq.
      apply (proc_ok_mono st); [done|lia|]. intros l Hl Hcase. apply Hkeep; [done|].
      destruct (decide (q = pid)) as [->|Hne]; [by left|]. right. split; [by destruct Hq|].
      destruct Hcase as [Hw|[Hsc _]]; [by exists x|]. exfalso. by apply Hne, (Hal q x).
    + split; [done|]. simpl. rewrite E2. split; [done|]. split; [done|]. split; [done|].
      exists (seen ++ [c]). split; [intros Hn; rewrite <- app_assoc; by apply K4|]. intros Hf Hn.
      specialize (K5 Hf Hn). intros x [Hx|Hx]%elem_of_app.
      * by apply (Hkeep pid seen); [done|left|].
      * apply list_elem_of_singleton in Hx as ->. simpl. rewrite E3, E3'. done.
Qed.

Lemma scan_end_ok st pid p reqs ncoll n expired :
  sel_ok st -> procs st !! pid = Some p -> p_pc p = Scan reqs ncoll [] n ->
  sel_ok (scan_end st pid p reqs ncoll n expired).
Proof.
  intros Hok Hp Epc. pose proof (Hok pid p Hp) as [Hpid H]. rewrite Epc in H.
  destruct H as (K1 & K2 & K3 & seen & K4 & K5). unfold scan_end.
  destruct (negb (n =? 0) || expired) eqn:En; [by apply sel_ok_move|].
  apply orb_false_iff in En as [En%negb_false_iff%Z.eqb_eq _].
  destruct (negb (has (p_flag p) P_SELECT) || negb (nselcoll st =? ncoll)) eqn:Ec; [by apply retry_ok|].
  apply orb_false_iff in Ec as [Ef%negb_false_iff Ec%negb_false_iff%Z.eqb_eq].
  apply sel_ok_move; [done|]. split; [done|]. simpl. intros _.
  rewrite <- (K4 En), app_nil_r. by apply K5.
Qed.

Lemma act_keeps st a st' : sel_ok st -> act_ok st a -> act sip_of st a = Some st' -> sel_ok st'.
Proof.
  intros Hok Ha He. destruct a as [pid reqs|pid|pid expired|pid|pid|cs|s cs|cs]; simpl in Ha, He.
  1-5: apply bind_Some in He as (p & Hp & He); pose proof (Hok pid p Hp) as [Hpid H].
  - destruct (p_pc p); try done. injection He as <-. by apply retry_ok.
  - destruct (p_pc p) as [|reqs nc [|c todo] n|] eqn:Ep; try done. injection He as <-. by apply poll_one_ok.
  - destruct (p_pc p) as [|reqs nc [|c todo] n|] eqn:Ep; try done. injection He as <-. by apply scan_end_ok.
  - destruct (p_pc p); try done. destruct (p_wchan p) eqn:Ew; [done|]. injection He as <-. by apply retry_ok.
  - destruct (p_pc p); try done. injection He as <-. by apply sel_ok_move.
  - injection He as <-. intros pid p Hp. apply (proc_ok_mono st); [by apply Hok|done|].
    intros l Hl _ c Hc. destruct (Hl c Hc) as [H1 H2]. split; [|done]. simpl. set_solver.
  - injection He as <-. by apply event_ok.
  - injection He as <-. intros pid p Hp. apply (proc_ok_mono st); [by apply Hok|done|].
    intros l Hl _ c Hc. destruct (Hl c Hc) as [H1 H2]. split; [|done]. simpl. set_solver.
Qed.

Lemma reach_ok st : reach st -> sel_ok st.
Proof.
  induction 1 as [ps Hps|st a st' _ IH Ha He]; [|by eapply act_keeps].
  intros pid p Hp. destruct (Hps pid p Hp) as [Hpid ->]. by split.
Qed.

End wait.

End SelectWait.
