(* ===== verification/SelectScan.v ===== *)
(** * select(2) and poll(2): the scans

    [selscan] finds the descriptors of a set with [ffs], word by word; it asks the
    files of exactly those descriptors that a scan of all numbers would ask, in
    the same order.  What it and [pollscan] return. *)

From S2P Require Import Prelude Libkern Descrip DescripMaps DescripTable DescripProofs DescripCalls.
From S2P Require Import FileCalls Select.
Import Libkern DescripProofs DescripCalls Select.

Module SelectScan.

(** ** Bits *)

Lemma has_shift w j : 0 <= j < 32 -> has w (u32 (Z.shiftl 1 j)) = Z.testbit w j.
Proof.
  intros Hj. rewrite Z.shiftl_1_l. rewrite wrapu_small.
  2:{ unfold inu. split; [lia|]. apply Z.pow_lt_mono_r; lia. }
  unfold has. destruct (Z.testbit w j) eqn:E.
  - apply negb_true_iff, Z.eqb_neq. intros H.
    assert (Hb : Z.testbit (w .& 2 ^ j) j = true) by (rewrite Z.land_spec, E, Z.pow2_bits_true by lia; done).
    by rewrite H, Z.bits_0 in Hb.
  - apply negb_false_iff, Z.eqb_eq, Z.bits_inj'. intros i Hi. rewrite Z.land_spec, Z.bits_0.
    destruct (decide (i = j)) as [->|Hne]; [by rewrite E|]. rewrite Z.pow2_bits_false by done.
    apply andb_false_r.
Qed.

Lemma clear_shift w j i : 0 <= j < 32 -> 0 <= i ->
  Z.testbit (clear w (u32 (Z.shiftl 1 j))) i = Z.testbit w i && negb (i =? j).
Proof.
  intros Hj Hi. unfold clear. rewrite Z.ldiff_spec, Z.shiftl_1_l.
  rewrite wrapu_small by (unfold inu; split; [lia|]; apply Z.pow_lt_mono_r; lia).
  by rewrite Z.pow2_bits_eqb, (Z.eqb_sym j i) by lia.
Qed.

Lemma clear_word w f : inu 32 w -> inu 32 (clear w f).
Proof.
  intros Hw. apply inu_bits; [lia| |apply Z.ldiff_nonneg; left; apply Hw].
  intros i Hi. unfold clear. by rewrite Z.ldiff_spec, (testbit_above 32) by (done || lia).
Qed.

Lemma FD_ISSET_testbit x ws :
  FD_ISSET x ws = match ws !! Z.to_nat (x / 32) with Some w => Z.testbit w (x mod 32) | None => false end.
Proof.
  unfold FD_ISSET, NFDBITS. destruct (ws !! _); [|done]. apply has_shift, Z.mod_pos_bound. lia.
Qed.

Lemma FD_ISSET_cons x b ws :
  0 <= x -> FD_ISSET x (b :: ws) = if x <? 32 then Z.testbit b x else FD_ISSET (x - 32) ws.
Proof.
  intros Hx. rewrite !FD_ISSET_testbit. destruct (Z.ltb_spec x 32).
  - by rewrite Z.div_small, Z.mod_small by lia.
  - replace (x / 32) with (1 + (x - 32) / 32).
    2:{ rewrite <- (Z.div_add_l 1 32) by lia. f_equal. lia. }
    rewrite Z2Nat.inj_add by (lia || (apply Z.div_pos; lia)). simpl.
    replace (x mod 32) with ((x - 32) mod 32); [done|]. rewrite <- (Z_mod_plus_full (x - 32) 1). f_equal. lia.
Qed.

Lemma FD_SET_length d ws : length (FD_SET d ws) = length ws.
Proof. apply length_alter. Qed.

Lemma FD_ISSET_SET x d ws :
  0 <= x -> 0 <= d < 32 * Z.of_nat (length ws) -> FD_ISSET x (FD_SET d ws) = FD_ISSET x ws || (x =? d).
Proof.
  intros Hx Hd. rewrite !FD_ISSET_testbit. unfold FD_SET, NFDBITS.
  pose proof (Z.mod_pos_bound x 32). pose proof (Z.mod_pos_bound d 32).
  pose proof (Z.div_mod x 32). pose proof (Z.div_mod d 32).
  assert (Hd32 : 0 <= d / 32 < Z.of_nat (length ws)).
  { split; [apply Z.div_pos; lia|apply Z.div_lt_upper_bound; lia]. }
  assert (Hx32 : 0 <= x / 32) by (apply Z.div_pos; lia).
  destruct (decide (x / 32 = d / 32)) as [E|E].
  - rewrite E, list_lookup_alter_eq. destruct (lookup_lt_is_Some_2 ws (Z.to_nat (d / 32))) as [w Hw]; [lia|].
    rewrite Hw. simpl. rewrite Z.lor_spec, Z.shiftl_1_l.
    rewrite wrapu_small by (unfold inu; split; [lia|]; apply Z.pow_lt_mono_r; lia).
    f_equal. rewrite Z.pow2_bits_eqb by lia. apply eq_true_iff_eq. rewrite !Z.eqb_eq. lia.
  - rewrite list_lookup_alter_ne by lia. rewrite (proj2 (Z.eqb_neq x d)) by (intros ->; done).
    by rewrite orb_false_r.
Qed.

(** The bits after a sequence of [FD_SET]. *)
Lemma FD_ISSET_foldl x ds : forall ws,
  0 <= x -> Forall (fun d => 0 <= d < 32 * Z.of_nat (length ws)) ds ->
  FD_ISSET x (foldl (fun ob d => FD_SET d ob) ws ds) = FD_ISSET x ws || bool_decide (x ∈ ds).
Proof.
  induction ds as [|d ds IH]; intros ws Hx Hds; simpl; [by rewrite orb_false_r|].
  apply Forall_cons in Hds as [Hd Hds]. rewrite IH by (rewrite ?FD_SET_length; done).
  rewrite FD_ISSET_SET, <- orb_assoc by done. f_equal. apply eq_true_iff_eq.
  rewrite orb_true_iff, Z.eqb_eq, !bool_decide_eq_true, elem_of_cons. done.
Qed.

Lemma filter_none {A} (f : A -> bool) l : (forall x, In x l -> f x = false) -> List.filter f l = [].
Proof.
  induction l as [|x l IH]; [done|]. intros H. simpl. rewrite H by (by left). apply IH. intros y Hy.
  apply H. by right.
Qed.

Lemma In_seqZ x m n : In x (seqZ m n) <-> m <= x < m + n.
Proof. rewrite <- list_elem_of_In. apply elem_of_seqZ. Qed.

Lemma seqZ_split m n k : 0 <= k < n -> seqZ m n = seqZ m k ++ (m + k) :: seqZ (m + k + 1) (n - k - 1).
Proof.
  intros Hk. replace n with (k + (n - k)) at 1 by lia. rewrite seqZ_app by lia. f_equal.
  rewrite (seqZ_cons (m + k)) by lia. unfold Z.succ, Z.pred. by replace (n - k + -1) with (n - k - 1) by lia.
Qed.

(** ** The reference *)

Section scan.
Context {W : Type} `{!PollOps W}.
Variables (fo_close : Z -> Z) (t : Descrip.filedesc) (ext : Z -> Z) (st : Descrip.store).

(** What the file of a descriptor answers, if there is one that may be used. *)
Definition answer (w : W) (d ev : Z) : option (W * Z) :=
  fp ← usable_at st t d; f ← Descrip.files st !! fp;
  Some (fo_poll w (Descrip.set_count f (Descrip.f_count f + 1)) ev).

(** One descriptor after the other: those that are ready, and the error. *)
Fixpoint ask (ev : Z) (ds : list Z) (w : W) : W * list Z * option Z :=
  match ds with
  | [] => (w, [], None)
  | d :: ds' =>
      match answer w d ev with
      | None => (w, [], Some EBADF)
      | Some (w', r) =>
          let '(w'', l, e) := ask ev ds' w' in (w'', if negb (r =? 0) then d :: l else l, e)
      end
  end.

(** The descriptors of a set below [nfd], in order. *)
Definition wanted (nfd : Z) (ws : list Z) : list Z := List.filter (fun d => FD_ISSET d ws) (seqZ 0 nfd).

Fixpoint ask_sets (nfd : Z) (flags : list Z) (sets : list (list Z)) (w : W)
    : W * list (list Z) * option Z :=
  match flags, sets with
  | ev :: flags', ws :: sets' =>
      match ask ev (wanted nfd ws) w with
      | (w', _, Some e) => (w', [], Some e)
      | (w', l, None) => let '(w'', ls, e) := ask_sets nfd flags' sets' w' in (w'', l :: ls, e)
      end
  | _, _ => (w, [], None)
  end.

(** The state of the scan after these answers. *)
Definition lift (obits : list Z) (n : Z) (a : W * list Z * option Z)
    : scan_state + Descrip.store * W * Z :=
  match a with
  | (w, l, Some e) => inr (st, w, e)
  | (w, l, None) => inl (st, w, foldl (fun ob d => FD_SET d ob) obits l, n + Z.of_nat (length l))
  end.

Hypothesis Hinv : inv ext st t.

Lemma poll_fd_spec w d ev :
  is_int d ->
  poll_fd fo_close t st w d ev =
    Some match answer w d ev with Some (w', r) => (st, w', inl r) | None => (st, w, inr EBADF) end.
Proof.
  intros Hd. unfold poll_fd, answer.
  pose proof (FileCalls.through_eq fo_close ext st w t d (fun f =>
    let '(w', r) := fo_poll w f ev in Some (f, w', inl r)) Hinv Hd) as H.
  destruct (usable_at st t d) as [fp|]; [|done]. destruct H as (f & Hf & H). cbn [mbind option_bind].
  rewrite Hf. cbn [mbind option_bind]. destruct (fo_poll w _ ev) as [w' r] eqn:E.
  destruct (H _ w' (inl r) eq_refl eq_refl) as [-> _].
  replace (Descrip.set_count _ _) with f by (by destruct f). rewrite insert_id by done. by destruct st.
Qed.

Lemma ask_app ev ds1 ds2 w :
  ask ev (ds1 ++ ds2) w =
    match ask ev ds1 w with
    | (w', l, Some e) => (w', l, Some e)
    | (w', l, None) => let '(w'', l', e) := ask ev ds2 w' in (w'', l ++ l', e)
    end.
Proof.
  revert w. induction ds1 as [|d ds1 IH]; intros w; simpl; [by destruct (ask ev ds2 w) as [[??]?]|].
  destruct (answer w d ev) as [[w' r]|]; [|done]. rewrite IH.
  destruct (ask ev ds1 w') as [[w1 l1] [e|]]; [done|]. destruct (ask ev ds2 w1) as [[w2 l2] e2].
  by destruct (negb (r =? 0)).
Qed.

Lemma lift_inl obits n a st' w ob n' : lift obits n a = inl (st', w, ob, n') -> st' = st.
Proof. destruct a as [[w2 l2] [e|]]; by intros [=]. Qed.

(** The reference goes on where it stopped, as the loops of the code do. *)
Lemma lift_app ev ds1 ds2 w obits n :
  lift obits n (ask ev (ds1 ++ ds2) w) =
    match lift obits n (ask ev ds1 w) with
    | inl (_, w', ob, n') => lift ob n' (ask ev ds2 w')
    | inr e => inr e
    end.
Proof.
  rewrite ask_app. destruct (ask ev ds1 w) as [[w1 l1] [e|]]; [done|]. simpl.
  destruct (ask ev ds2 w1) as [[w2 l2] [e|]]; [done|]. simpl. rewrite foldl_app, length_app. do 2 f_equal. lia.
Qed.

Lemma scan_fd_spec ev d w obits n :
  is_int d -> scan_fd fo_close t ev d (st, w, obits, n) = Some (lift obits n (ask ev [d] w)).
Proof.
  intros Hd. unfold scan_fd. rewrite poll_fd_spec by done. cbn [mbind option_bind].
  simpl. destruct (answer w d ev) as [[w' r]|]; [|done]. destruct (r =? 0); simpl; [|done].
  by rewrite Z.add_0_r.
Qed.

(** The bits of a word from [k] on. *)
Lemma scan_bits_spec ev nfd i : 0 <= i -> nfd < 2 ^ 31 ->
  forall fuel k bits w obits n, 0 <= k -> 32 - k <= Z.of_nat fuel -> inu 32 bits ->
  (forall j, 0 <= j < k -> Z.testbit bits j = false) ->
  scan_bits fo_close t fuel ev nfd i bits (st, w, obits, n) =
    Some (lift obits n (ask ev (List.filter (fun d => Z.testbit bits (d - i))
                                  (seqZ (i + k) (Z.min 32 (nfd - i) - k))) w)).
Proof.
  intros Hi Hnfd. induction fuel as [|fuel IH]; intros k bits w obits n Hk Hf Hb Hlow.
  all: destruct (ffs_spec bits Hb) as [[-> Hff]|[Hne Hl]].
  1,3: rewrite filter_none by (intros; apply Z.bits_0); simpl; by rewrite Z.add_0_r.
  all: set (j := ffs bits - 1) in *; destruct Hl as (Hj0 & Hjt & Hjl).
  all: assert (Hj32 : j < 32) by
    (destruct (Z.lt_ge_cases j 32) as [|Hge]; [done|]; rewrite (testbit_above 32) in Hjt by (done || lia); done).
  all: assert (Hjk : k <= j) by
    (destruct (Z.lt_ge_cases j k) as [Hlt|]; [rewrite Hlow in Hjt by lia; done|done]).
  1: lia.
  cbn [scan_bits]. cbv zeta. rewrite (proj2 (Z.eqb_neq (ffs bits) 0)) by lia. fold j. cbn [orb].
  destruct (Z.leb_spec nfd (i + j)).
  { rewrite filter_none; [simpl; by rewrite Z.add_0_r|]. intros x Hx%In_seqZ. apply Hjl. lia. }
  rewrite scan_fd_spec by (unfold is_int; lia). cbn [mbind option_bind].
  rewrite (seqZ_split _ _ (j - k)) by lia. rewrite List.filter_app. cbn [List.filter].
  rewrite filter_none by (intros x Hx%In_seqZ; apply Hjl; lia). cbn [app].
  replace (i + k + (j - k)) with (i + j) by lia. replace (i + j - i) with j by lia. rewrite Hjt.
  set (rest := List.filter _ _). change (i + j :: rest) with ([i + j] ++ rest). rewrite lift_app. unfold rest.
  destruct (lift obits n (ask ev [i + j] w)) as [[[[st1 w1] ob1] n1]|e] eqn:E; [|done].
  apply lift_inl in E as ->.
  rewrite (IH (j + 1)) by (lia || (by apply clear_word) ||
    (intros x Hx; rewrite clear_shift by lia; destruct (Z.eqb_spec x j); [apply andb_false_r|];
     rewrite Hjl by lia; done)).
  do 3 f_equal. replace (i + j + 1) with (i + (j + 1)) by lia.
  replace (Z.min 32 (nfd - i) - k - (j - k) - 1) with (Z.min 32 (nfd - i) - (j + 1)) by lia.
  apply List.filter_ext_in. intros x Hx%In_seqZ. rewrite clear_shift by lia.
  rewrite (proj2 (Z.eqb_neq _ _)) by lia. apply andb_true_r.
Qed.

(** The words of a set from the one of descriptor [i] on. *)
Lemma scan_words_spec ev nfd : nfd < 2 ^ 31 ->
  forall ws i w obits n, 0 <= i -> Forall (inu 32) ws -> nfd - i <= 32 * Z.of_nat (length ws) ->
  scan_words fo_close t ev nfd i ws (st, w, obits, n) =
    Some (lift obits n (ask ev (List.filter (fun d => FD_ISSET (d - i) ws) (seqZ i (nfd - i))) w)).
Proof.
  intros Hnfd. induction ws as [|b ws IH]; intros i w obits n Hi Hws Hlen; cbn [scan_words].
  all: destruct (Z.leb_spec nfd i); [rewrite seqZ_nil by lia; simpl; by rewrite Z.add_0_r|].
  { simpl in Hlen. lia. }
  apply Forall_cons in Hws as [Hb Hws]. cbn [length] in Hlen.
  rewrite (scan_bits_spec ev nfd i Hi Hnfd 32 0) by (done || lia). cbn [mbind option_bind].
  replace (i + 0) with i by lia. replace (Z.min 32 (nfd - i) - 0) with (Z.min 32 (nfd - i)) by lia.
  replace (nfd - i) with (Z.min 32 (nfd - i) + Z.max 0 (nfd - (i + 32))) at 2 by lia.
  rewrite seqZ_app, List.filter_app, lift_app by lia.
  rewrite (List.filter_ext_in (fun d => Z.testbit b (d - i)) (fun d => FD_ISSET (d - i) (b :: ws))).
  2:{ intros d Hd%In_seqZ. rewrite FD_ISSET_cons by lia. by rewrite (proj2 (Z.ltb_lt _ _)) by lia. }
  destruct (lift obits n (ask ev _ w)) as [[[[st1 w1] ob1] n1]|e] eqn:E; [|done].
  apply lift_inl in E as ->.
  rewrite IH by (done || unfold NFDBITS; lia). unfold NFDBITS. do 2 f_equal.
  destruct (Z.le_gt_cases nfd (i + 32)).
  { by rewrite !seqZ_nil by lia. }
  replace (Z.min 32 (nfd - i)) with 32 by lia. replace (Z.max 0 _) with (nfd - (i + 32)) by lia. f_equal.
  apply List.filter_ext_in. intros d Hd%In_seqZ. rewrite FD_ISSET_cons by lia.
  rewrite (proj2 (Z.ltb_ge _ _)) by lia. f_equal. lia.
Qed.

(** A set has a word for every 32 descriptors. *)
Definition set_ok (nfd : Z) (ws : list Z) : Prop :=
  Forall (inu 32) ws /\ Z.of_nat (length ws) = select_words nfd.

Lemma select_words_enough nfd : nfd <= 32 * select_words nfd.
Proof. unfold select_words, howmany, NFDBITS. pose proof (Z.div_mod (nfd + (32 - 1)) 32). pose proof (Z.mod_pos_bound (nfd + (32 - 1)) 32). lia. Qed.

Lemma scan_sets_spec nfd : nfd < 2 ^ 31 ->
  forall flags ibits obits w n out, Forall (set_ok nfd) ibits -> length ibits = length flags ->
  length obits = length flags ->
  scan_sets fo_close t nfd flags ibits obits st w n out =
    Some match ask_sets nfd flags ibits w with
         | (w', _, Some e) => (st, w', inr e)
         | (w', ls, None) =>
             (st, w', inl (n + Z.of_nat (length (concat ls)),
                           out ++ zip_with (foldl (fun ob d => FD_SET d ob)) obits ls))
         end.
Proof.
  intros Hnfd. induction flags as [|ev flags IH]; intros [|ib ibits] [|ob obits] w n out Hok H1 H2; try done.
  { simpl. by rewrite Z.add_0_r, app_nil_r. }
  apply Forall_cons in Hok as [[Hib Hlen] Hok]. simpl in H1, H2. cbn [scan_sets ask_sets].
  rewrite (scan_words_spec ev nfd Hnfd) by (done || (pose proof (select_words_enough nfd); lia)).
  cbn [mbind option_bind]. unfold wanted. rewrite Z.sub_0_r.
  rewrite (List.filter_ext_in _ (fun d => FD_ISSET d ib)) by (intros; by rewrite Z.sub_0_r).
  destruct (ask ev _ w) as [[w' l] [e|]]; [done|]. simpl. rewrite IH by (done || lia).
  destruct (ask_sets nfd flags ibits w') as [[w2 ls] [e|]]; [done|]. simpl.
  rewrite length_app, <- app_assoc. do 4 f_equal. lia.
Qed.

End scan.

End SelectScan.
