(* ===== verification/SelectSpec.v ===== *)
(** * select(2) and poll(2): the properties

    That the scans find what a scan of all numbers would find, and that nobody
    sleeps while something it asked for is ready. *)

From S2P Require Import Prelude Libkern Descrip DescripMaps DescripTable DescripProofs DescripCalls DescripSpec.
From S2P Require Import FileCalls Select SelectWait SelectScan.
Import DescripProofs DescripCalls DescripSpec Select SelectWait SelectScan.

Module SelectSpec.

(** ** The reference *)

Section answers.
Context {W : Type} `{!PollOps W}.
Variables (t : Descrip.filedesc) (st : Descrip.store).

Lemma answer_none w d ev : answer t st w d ev = None <-> usable_at st t d = None.
Proof.
  unfold answer. destruct (usable_at st t d) as [fp|] eqn:E; [|done]. cbn [mbind option_bind].
  unfold usable_at in E. apply bind_Some in E as (a & _ & E). apply bind_Some in E as (f & Hf & E).
  destruct (Descrip.FILE_IS_USABLE f); [|done]. injection E as <-. by rewrite Hf.
Qed.

Lemma ask_incl ev ds : forall w w' l e, ask t st ev ds w = (w', l, e) -> l ⊆ ds.
Proof.
  induction ds as [|d ds IH]; intros w w' l e; simpl; [by intros [= <- <- <-]|].
  destruct (answer t st w d ev) as [[w1 r]|]; [|intros [= <- <- <-]; set_solver].
  destruct (ask t st ev ds w1) as [[w2 l2] e2] eqn:E. apply IH in E.
  destruct (negb (r =? 0)); intros [= <- <- <-]; set_solver.
Qed.

Lemma ask_error ev ds : forall w w' l e, ask t st ev ds w = (w', l, e) ->
  (forall x, e = Some x -> x = EBADF) /\
  (e = None <-> forall d, d ∈ ds -> usable_at st t d <> None).
Proof.
  induction ds as [|d ds IH]; intros w w' l e; simpl; [intros [= <- <- <-]; set_solver|].
  destruct (answer t st w d ev) as [[w1 r]|] eqn:Ea.
  - destruct (ask t st ev ds w1) as [[w2 l2] e2] eqn:E. intros [= <- <- <-].
    destruct (IH _ _ _ _ E) as [H1 H2]. split; [done|]. rewrite H2. setoid_rewrite elem_of_cons.
    assert (usable_at st t d <> None) by (rewrite <- (answer_none w d ev); congruence).
    split; [intros Hd x [->|]; auto|auto].
  - intros [= <- <- <-]. split; [congruence|]. apply answer_none in Ea. split; [done|].
    intros Hd. by destruct (Hd d (list_elem_of_here _ _)).
Qed.

Lemma elem_of_wanted nfd ws d : d ∈ wanted nfd ws <-> 0 <= d < nfd /\ FD_ISSET d ws = true.
Proof. unfold wanted. rewrite list_elem_of_In, List.filter_In, In_seqZ. by rewrite Z.add_0_l. Qed.

(** The error of the three sets together. *)
Lemma ask_sets_error nfd : forall flags sets w w' ls e, length sets = length flags ->
  ask_sets t st nfd flags sets w = (w', ls, e) ->
  (forall x, e = Some x -> x = EBADF) /\
  (e = None <-> forall ws d, ws ∈ sets -> 0 <= d < nfd -> FD_ISSET d ws = true -> usable_at st t d <> None) /\
  (e = None -> Forall2 (fun l ws => l ⊆ wanted nfd ws) ls sets).
Proof.
  induction flags as [|ev flags IH]; intros [|ws sets] w w' ls e; try done; intros Hlen; simpl.
  { intros [= <- <- <-]. set_solver. }
  simpl in Hlen. destruct (ask t st ev (wanted nfd ws) w) as [[w1 l1] e1] eqn:E1.
  pose proof (ask_incl _ _ _ _ _ _ E1) as Hi. destruct (ask_error _ _ _ _ _ _ E1) as [H1 H2].
  destruct e1 as [e1|].
  - intros [= <- <- <-]. split; [done|]. split; [|done]. split; [done|]. intros H. apply H2. intros d Hd.
    apply elem_of_wanted in Hd as [? ?]. apply (H ws); [set_solver|done|done].
  - destruct (ask_sets t st nfd flags sets w1) as [[w2 l2] e2] eqn:E2. intros [= <- <- <-].
    destruct (IH sets w1 w2 l2 e2) as (H3 & H4 & H5); [lia|done|]. split; [done|]. split.
    + rewrite H4. setoid_rewrite elem_of_cons. split.
      * intros H x d [->|Hx] Hd Hs; [|by apply (H x)]. by apply H2, elem_of_wanted.
      * intros H x d Hx. apply H. by right.
    + intros ->. constructor; auto.
Qed.

(** ** poll(2), one entry after the other *)
Fixpoint poll_each (pl : list pollfd) (w : W) : W * list Z :=
  match pl with
  | [] => (w, [])
  | p :: pl' =>
      let '(w1, rev) :=
        if fd p <? 0 then (w, 0)
        else match answer t st w (fd p) (events p) with
             | None => (w, POLLNVAL)
             | Some (w1, r) => (w1, wraps 16 r)
             end in
      let '(w2, revs) := poll_each pl' w1 in (w2, rev :: revs)
  end.

(** How many are not zero. *)
Definition nonzero (revs : list Z) : Z := Z.of_nat (length (List.filter (fun r => negb (r =? 0)) revs)).

End answers.

Lemma zero_bits d k : FD_ISSET d (replicate k 0) = false.
Proof.
  rewrite FD_ISSET_testbit. destruct (replicate k 0 !! _) as [w|] eqn:E; [|done].
  apply lookup_replicate in E as [-> _]. apply Z.bits_0.
Qed.

Section scans.
Context {W : Type} `{!PollOps W}.
Variables (fo_close : Z -> Z) (t : Descrip.filedesc) (ext : Z -> Z) (st : Descrip.store).

(** The bits of the descriptors that are ready. *)
Definition put (nfd : Z) (ls : list (list Z)) : list (list Z) :=
  zip_with (foldl (fun ob d => FD_SET d ob)) (no_bits nfd) ls.

Lemma selscan_run nfd ibits w :
  inv ext st t -> nfd < 2 ^ 31 -> length ibits = 3%nat -> Forall (set_ok nfd) ibits ->
  selscan fo_close t st w ibits (no_bits nfd) nfd =
    Some match ask_sets t st nfd sel_flag ibits w with
         | (w', _, Some e) => (st, w', inr e)
         | (w', ls, None) => (st, w', inl (Z.of_nat (length (concat ls)), put nfd ls))
         end.
Proof.
  intros Hinv Hnfd H3 Hok. unfold selscan.
  rewrite (scan_sets_spec fo_close t ext st Hinv nfd) by (done || lia).
  by destruct (ask_sets t st nfd sel_flag ibits w) as [[w' ls] [e|]].
Qed.

Lemma put_bits nfd ls ibits :
  0 <= nfd -> length ibits = 3%nat -> Forall2 (fun l ws => l ⊆ wanted nfd ws) ls ibits ->
  Forall2 (fun o l => forall d, 0 <= d -> FD_ISSET d o = bool_decide (d ∈ l)) (put nfd ls) ls.
Proof.
  intros Hnfd H3 Hincl. destruct ibits as [|i1 [|i2 [|i3 [|]]]]; try done.
  apply Forall2_cons_inv_r in Hincl as (l1 & ? & Hl1 & Hincl & ->).
  apply Forall2_cons_inv_r in Hincl as (l2 & ? & Hl2 & Hincl & ->).
  apply Forall2_cons_inv_r in Hincl as (l3 & ? & Hl3 & Hincl & ->).
  apply Forall2_nil_inv_r in Hincl as ->. unfold put. simpl.
  assert (Hone : forall l ws, l ⊆ wanted nfd ws -> forall d, 0 <= d ->
    FD_ISSET d (foldl (fun ob d => FD_SET d ob) (replicate (Z.to_nat (select_words nfd)) 0) l) =
      bool_decide (d ∈ l)).
  { intros l ws Hl d Hd. rewrite FD_ISSET_foldl; [by rewrite zero_bits|done|].
    apply Forall_forall. intros x Hx. apply Hl, elem_of_wanted in Hx as [Hx _].
    rewrite length_replicate. pose proof (select_words_enough nfd). lia. }
  repeat constructor; eauto.
Qed.

(** C35: the word by word scan of [selscan] is a scan of all numbers below [nfd]: it
    asks the files of the descriptors that are set in each of the three sets, in
    order, and leaves the files as they were.  It fails, with EBADF, exactly when
    a descriptor in one of the sets has no file that may be used.  Otherwise the
    bits it returns are those of the descriptors that were asked for and answered
    that they are ready, and the value is their number. *)
Theorem selscan_equiv nfd ibits w w' ls e :
  inv ext st t -> 0 <= nfd < 2 ^ 31 -> length ibits = 3%nat -> Forall (set_ok nfd) ibits ->
  ask_sets t st nfd sel_flag ibits w = (w', ls, e) ->
  (e = None <-> forall ws d, ws ∈ ibits -> 0 <= d < nfd -> FD_ISSET d ws = true ->
                             usable_at st t d <> None) /\
  match e with
  | Some x => x = EBADF /\ selscan fo_close t st w ibits (no_bits nfd) nfd = Some (st, w', inr EBADF)
  | None => exists out,
      selscan fo_close t st w ibits (no_bits nfd) nfd =
        Some (st, w', inl (Z.of_nat (length (concat ls)), out)) /\
      Forall2 (fun o l => forall d, 0 <= d -> FD_ISSET d o = bool_decide (d ∈ l)) out ls /\
      Forall2 (fun l ws => forall d, d ∈ l -> 0 <= d < nfd /\ FD_ISSET d ws = true) ls ibits
  end.
Proof.
  intros Hinv Hnfd H3 Hok Ha.
  destruct (ask_sets_error t st nfd sel_flag ibits w w' ls e H3 Ha) as (H1 & H2 & Hincl).
  split; [done|]. rewrite (selscan_run nfd ibits w Hinv) by (done || lia). rewrite Ha.
  destruct e as [x|]; [rewrite (H1 x eq_refl); auto|].
  specialize (Hincl eq_refl). eexists. split; [done|]. split; [apply (put_bits nfd ls ibits); done || lia|].
  eapply Forall2_impl; [exact Hincl|]. intros l ws Hl d Hd. by apply elem_of_wanted, Hl.
Qed.

(** [pollscan] sets the [revents] of every entry, in order, to what its file
    answers; POLLNVAL where there is none, zero where the descriptor is negative;
    the rest of the entry and the files stay, and the value is the number of
    entries with an answer. *)
Theorem pollscan_equiv pl : forall w n,
  inv ext st t -> Forall (fun p => is_int (fd p)) pl ->
  exists w' revs, poll_each t st pl w = (w', revs) /\
    pollscan fo_close t st w pl n =
      Some (st, w', zip_with (fun p r => Pollfd (fd p) (events p) r) pl revs, n + nonzero revs).
Proof.
  intros w n Hinv. revert w n. induction pl as [|p pl IH]; intros w n Hpl; cbn [poll_each pollscan].
  { eexists _, _. split; [done|]. unfold nonzero. simpl. by rewrite Z.add_0_r. }
  apply Forall_cons in Hpl as [Hp Hpl].
  set (one := if fd p <? 0 then (w, 0) else _). destruct one as [w1 rev] eqn:E1. unfold one in E1. clear one.
  destruct (IH w1 (if negb (rev =? 0) then n + 1 else n) Hpl) as (w2 & revs & -> & H2). clear IH.
  eexists _, _. split; [done|].
  assert (Hone : poll_entry fo_close t st w p n =
    Some (st, w1, rev, if negb (rev =? 0) then n + 1 else n)).
  { unfold poll_entry. destruct (fd p <? 0); [by injection E1 as <- <-|]. rewrite (poll_fd_spec fo_close t ext st Hinv) by done.
    cbn [mbind option_bind]. destruct (answer t st w (fd p) (events p)) as [[w3 r]|]; by injection E1 as <- <-. }
  rewrite Hone. cbn [mbind option_bind]. rewrite H2. cbn [mbind option_bind zip_with]. unfold nonzero. simpl.
  do 2 f_equal. destruct (negb (rev =? 0)); simpl; lia.
Qed.

End scans.

(** ** Waiting *)

(** C34: a thread that sleeps in select or poll sleeps rightly: however the polls of
    its scan, events, signals and returns are interleaved, as long as the scans of
    two threads do not overlap, whatever of it has become ready has done so in a
    call that is still to call [selwakeup] (as [pipeclose] does when it sleeps in
    between); and the next call of [selwakeup] for something that it asked for
    takes the thread off the sleep queue, so that it can scan again. *)
Theorem select_no_lost_wakeup sip_of st pid p reqs :
  reach sip_of st -> procs st !! pid = Some p -> p_pc p = Asleep reqs -> p_wchan p = true ->
  (forall c, c ∈ reqs -> c ∈ ready st -> c ∈ owed st) /\
  forall s cs st' c, act sip_of st (Event s cs) = Some st' -> c ∈ reqs -> sip_of c = s ->
    ~ (c ∈ owed st') /\
    exists p' st'', procs st' !! pid = Some p' /\ p_wchan p' = false /\ p_pc p' = Asleep reqs /\
      act sip_of st' (Resume pid) = Some st''.
Proof.
  intros Hr Hp Hpc Hw. destruct (reach_ok _ _ Hr pid p Hp) as [Hpid H]. rewrite Hpc in H. specialize (H Hw).
  split; [intros c Hc; by destruct (H c Hc)|]. intros s cs st' c He Hc <-. injection He as <-.
  destruct (H c Hc) as [_ Hrec]. destruct (selwakeup_eq st (sip_of c)) as (_ & _ & _ & _ & Hl).
  destruct (wakeup_reaches st pid (sip_of c) p Hpid Hrec) as [Hoff _].
  set (p' := after_wakeup _ _ p) in Hoff.
  assert (Hp' : procs (selwakeup st (sip_of c)) !! pid = Some p') by (by rewrite Hl, Hp).
  assert (Hpc' : p_pc p' = Asleep reqs) by (by rewrite <- Hpc; apply after_wakeup_less).
  split; [simpl; rewrite elem_of_filter; by intros [[] _]|].
  eexists p', _. split; [exact Hp'|]. split; [done|]. split; [done|].
  cbn [act procs]. rewrite Hp'. cbn [mbind option_bind]. by rewrite Hpc', Hoff.
Qed.

(** ** Concrete runs *)

#[global] Instance alone_dec st pid : Decision (alone st pid).
Proof.
  refine (cast_if (decide (map_Forall (fun pid' p' => scanning p' = true -> pid' = pid) (procs st)))); done.
Defined.

#[global] Instance act_ok_dec sip_of st a : Decision (act_ok sip_of st a).
Proof.
  destruct a as [| | | | | |s cs|]; simpl; try apply _.
Defined.

(** The actions one after the other, each under its conditions. *)
Definition go (sip_of : Z -> Z) (st : selst) (a : action) : option selst :=
  if decide (act_ok sip_of st a) then act sip_of st a else None.
Definition go_all (sip_of : Z -> Z) (st : selst) (l : list action) : option selst :=
  foldl (fun o a => st ← o; go sip_of st a) (Some st) l.

Lemma go_all_reach sip_of l : forall o, (forall st, o = Some st -> reach sip_of st) ->
  forall st', foldl (fun o a => st ← o; go sip_of st a) o l = Some st' -> reach sip_of st'.
Proof.
  induction l as [|a l IH]; intros o Ho st' H; [by apply Ho|]. simpl in H. eapply IH; [|exact H].
  intros st1 (st & E & Hg)%bind_Some. unfold go in Hg. destruct (decide (act_ok sip_of st a)); [|done].
  by eapply reach_act; [apply Ho| |].
Qed.

Definition two_threads : selst := Selst ∅ 0 {[1 := Proc 0 false Idle; 2 := Proc 0 false Idle]} ∅ ∅.
Definition sip (c : Z) : Z := 100 + c / 10.

(** Both threads ask for condition 5, thread 1 for 23 too; both sleep, also when 5
    becomes true with its wake-up to follow. *)
Definition both_sleep : list action :=
  [Enter 1 [5; 23]; Poll 1; Poll 1; End 1 false; Enter 2 [5]; Poll 2; End 2 false; Raise {[5]}].
Definition sleeping : selst := default two_threads (go_all sip two_threads both_sleep).

Lemma sleeping_reach : reach sip sleeping.
Proof.
  apply (go_all_reach sip both_sleep (Some two_threads)).
  - intros st [= <-]. apply reach_start. intros pid p Hp.
    apply lookup_insert_Some in Hp as [[<- <-]|[_ Hp]]; [done|]. by apply lookup_singleton_Some in Hp as [<- <-].
  - vm_compute. reflexivity.
Qed.

Lemma select_no_lost_wakeup_witness :
  ~ (5 ∈ owed (default sleeping (act sip sleeping (Event 100 {[5]})))) /\
  exists p' st'', procs (default sleeping (act sip sleeping (Event 100 {[5]}))) !! 2 = Some p' /\
    p_wchan p' = false /\ p_pc p' = Asleep [5] /\
    act sip (default sleeping (act sip sleeping (Event 100 {[5]}))) (Resume 2) = Some st''.
Proof.
  destruct (procs sleeping !! 2) as [p|] eqn:Ep; [|by vm_compute in Ep].
  apply (proj2 (select_no_lost_wakeup sip sleeping 2 p [5] sleeping_reach Ep
    (ltac:(vm_compute in Ep; injection Ep as <-; reflexivity))
    (ltac:(vm_compute in Ep; injection Ep as <-; reflexivity))) 100 {[5]} _ 5); [reflexivity| |reflexivity].
  apply list_elem_of_here.
Defined.

(** That one thread scans at a time is needed: here the scans of two threads
    overlap, the second replaces the first in the record without a collision, and
    the first sleeps on while the condition holds. *)
Definition overlapped : option selst :=
  foldl (fun o a => st ← o; act sip st a) (Some two_threads)
    [Enter 1 [5]; Enter 2 [5]; Poll 1; Poll 2; End 1 false; End 2 false; Event 100 {[5]}].

Example overlapping_scans_lose_wakeup :
  (fun st => (p_wchan <$> procs st !! 1, p_pc <$> procs st !! 1, bool_decide (5 ∈ ready st))) <$> overlapped =
    Some (Some true, Some (Asleep [5]), true).
Proof. vm_compute. reflexivity. Qed.

(** Files that are always ready, for descriptors 0 and 1 of the demonstration. *)
Definition always : PollOps unit := fun w _ ev => (w, seltrue ev).

Lemma selscan_equiv_witness : exists out,
  selscan close_ok (snd demo_state) (PollOps0 := always) (fst demo_state) tt [[1]; [2]; [3]] (no_bits 2) 2 =
    Some (fst demo_state, tt, inl (2, out)).
Proof.
  destruct (selscan_equiv (PollOps0 := always) close_ok (snd demo_state) (fun _ => 0) (fst demo_state) 2
    [[1]; [2]; [3]] tt tt [[0]; [1]; []] None) as [_ (out & H & _)].
  - exact demo_inv.
  - lia.
  - reflexivity.
  - repeat constructor; by_decide.
  - vm_compute. reflexivity.
  - exact (ex_intro _ out H).
Defined.

End SelectSpec.
