(* ===== verification/SelectPipe.v ===== *)
(** * select(2) on pipes

    The scan of [selscan] with the poll routine of pipes behind the descriptors:
    what select tells a thread about pipes, and that a thread it sends to sleep
    is recorded with every pipe it asked for. *)

From S2P Require Import Prelude Libkern Descrip DescripMaps DescripTable DescripProofs DescripCalls DescripSpec.
From S2P Require Import Pipe PipeRing PipeInv PipeRun PipeCalls PipeLife PipeSpec.
From S2P Require Import FileCalls Select SelectScan SelectSpec.
Import DescripProofs DescripCalls Select SelectScan SelectSpec.

Module SelectPipe.

(** The poll routine of files that are pipes, for the thread [tid]; without a
    state the kernel has panicked. *)
#[global] Instance pipe_polls (tid : Z) : PollOps (option Pipe.pst) := fun w f ev =>
  match w with
  | None => (None, 0)
  | Some w =>
      match Pipe.pipe_poll w tid (Descrip.f_data f) ev with
      | Ok (w', rev) => (Some w', rev)
      | Panic => (None, 0)
      end
  end.

(** ** What a poll changes *)

(** All of a pipe but PIPE_SEL. *)
Definition view (p : Pipe.pipe) : Pipe.pipe := Pipe.lower Pipe.PIPE_SEL p.

(** Nothing changes but that PIPE_SEL is raised and the thread is recorded: the
    buffer, times, owner, peer, busy count, notes and all other flags of every pipe,
    the threads in pipes and the counts of memory are as they were. *)
Record marked (tid : Z) (w w' : Pipe.pst) : Prop := Marked {
  mk_threads : Pipe.threads w' = Pipe.threads w;
  mk_view : forall a, view <$> Pipe.pipes w' !! a = view <$> Pipe.pipes w !! a;
  mk_keep : forall a p p', Pipe.pipes w !! a = Some p -> Pipe.pipes w' !! a = Some p' ->
    Pipe.flag p Pipe.PIPE_SEL = true -> Pipe.flag p' Pipe.PIPE_SEL = true;
  mk_nbig : Pipe.nbigpipe w' = Pipe.nbigpipe w;
  mk_kva : Pipe.amountpipekva w' = Pipe.amountpipekva w;
  mk_log : exists l, Pipe.log w' = Pipe.log w ++ l /\ Forall (fun e => exists a, e = Pipe.Selrecord tid a) l;
}.

#[global] Instance marked_preorder tid : PreOrder (marked tid).
Proof.
  split.
  - intros w. split; try done; [by intros a p p' -> [= ->]|]. exists []. by rewrite app_nil_r.
  - intros w1 w2 w3 [H1 H2 H3 H4 H5 (l1 & E1 & F1)] [G1 G2 G3 G4 G5 (l2 & E2 & F2)]. split; try congruence.
    + intros a p p' Hp Hp' Hf. specialize (H2 a). rewrite Hp in H2. destruct (Pipe.pipes w2 !! a) as [p2|] eqn:Ep; [|done].
      eapply G3; [done|done|]. by eapply H3.
    + exists (l1 ++ l2). rewrite E2, E1, app_assoc. split; [done|]. by apply Forall_app.
Qed.

Lemma marked_log tid w w' : marked tid w w' -> Pipe.log w `prefix_of` Pipe.log w'.
Proof. intros [_ _ _ _ _ (l & -> & _)]. by eexists. Qed.

(** What polls look at is kept. *)
Lemma view_eq p p' :
  view p' = view p -> Pipe.pipe_buffer p' = Pipe.pipe_buffer p /\ Pipe.pipe_peer p' = Pipe.pipe_peer p /\
    Pipe.flag p' Pipe.PIPE_EOF = Pipe.flag p Pipe.PIPE_EOF.
Proof.
  intros E. split_and!; [exact (f_equal Pipe.pipe_buffer E)|exact (f_equal Pipe.pipe_peer E)|].
  apply (f_equal (fun x => Pipe.flag x Pipe.PIPE_EOF)) in E. unfold view, Pipe.flag, Pipe.lower in *. cbn in E.
  by rewrite !flag_clear in E.
Qed.

(** What select tells about the end [a] of a pipe. *)
Definition shows (w : Pipe.pst) (a ev : Z) : bool :=
  match Pipe.pipes w !! a with
  | Some p => has ev PipeSpec.IN && PipeSpec.readable p || PipeSpec.hung_up w p ||
              has ev PipeSpec.OUT && PipeSpec.roomy w p
  | None => false
  end.

Lemma shows_marked tid w w' a ev : marked tid w w' -> shows w' a ev = shows w a ev.
Proof.
  intros Hm. pose proof (mk_view _ _ _ Hm) as Hv. unfold shows. pose proof (Hv a) as Ha.
  destruct (Pipe.pipes w' !! a) as [p'|], (Pipe.pipes w !! a) as [p|]; try done. simpl in Ha.
  apply (inj Some) in Ha. apply view_eq in Ha as (E1 & E2 & E3). unfold PipeSpec.readable, PipeSpec.hung_up, PipeSpec.roomy. rewrite E1, E2, E3.
  destruct (Pipe.pipe_peer p) as [q|]; [|done]. pose proof (Hv q) as Hq.
  destruct (Pipe.pipes w' !! q) as [q'|], (Pipe.pipes w !! q) as [q0|]; try done. simpl in Hq.
  apply (inj Some) in Hq. by apply view_eq in Hq as (-> & _ & ->).
Qed.

Lemma marked_select w tid a p :
  Pipe.pipes w !! a = Some p ->
  marked tid w (Pipe.store a (Pipe.raise Pipe.PIPE_SEL p) (Pipe.tell (Pipe.Selrecord tid a) w)).
Proof.
  intros Hp. split; try done.
  - intros x. simpl. destruct (decide (x = a)) as [->|Hne]; [|by rewrite lookup_insert_ne].
    rewrite lookup_insert_eq, Hp. simpl. unfold view, Pipe.lower, Pipe.raise, Pipe.set_state. simpl. do 2 f_equal.
    unfold clear. apply Z.bits_inj'. intros i Hi. rewrite !Z.ldiff_spec, Z.lor_spec.
    by destruct (Z.testbit (Pipe.pipe_state p) i), (Z.testbit Pipe.PIPE_SEL i).
  - intros x q q' Hq Hq' Hf. simpl in Hq'. destruct (decide (x = a)) as [->|Hne].
    + rewrite lookup_insert_eq in Hq'. injection Hq' as <-. unfold Pipe.flag, Pipe.raise, Pipe.set_state. simpl.
      rewrite flag_lor. by rewrite orb_true_r.
    + rewrite lookup_insert_ne in Hq' by done. congruence.
  - exists [Pipe.Selrecord tid a]. split; [done|]. repeat constructor. by eexists.
Qed.

(** Only these events are ever reported. *)
Lemma revents_bits w p ev rev :
  Pipe.poll_revents w p ev = Ok rev -> rev <> 0 ->
  has rev PipeSpec.IN || has rev Pipe.POLLHUP || has rev PipeSpec.OUT = true.
Proof.
  assert (Hin : has (ev .& PipeSpec.IN) PipeSpec.IN = has ev PipeSpec.IN) by apply PipeSpec.has_land.
  assert (Hout : has (ev .& PipeSpec.OUT) PipeSpec.OUT = has ev PipeSpec.OUT) by apply PipeSpec.has_land.
  unfold Pipe.poll_revents. fold PipeSpec.IN PipeSpec.OUT. destruct (Pipe.peer_gone w p) as [gone|]; [|done].
  cbn [mbind outcome_bind]. set (r1 := if _ && _ then _ else 0).
  assert (Hr1 : r1 <> 0 -> has r1 PipeSpec.IN = true).
  { unfold r1. destruct (has ev PipeSpec.IN) eqn:E; [|done]. destruct (_ || _); [|done]. cbn [andb]. by rewrite Hin. }
  clearbody r1. destruct (Pipe.flag p Pipe.PIPE_EOF || gone).
  { intros [= <-] _. rewrite !flag_lor. change (has Pipe.POLLHUP Pipe.POLLHUP) with true.
    by rewrite orb_true_r, orb_true_r. }
  destruct (has ev PipeSpec.OUT).
  2:{ intros [= <-] Hne. by rewrite Hr1. }
  destruct (Pipe.pipe_peer p) as [q|]; [|done]. destruct (Pipe.deref w q) as [p2|]; [|done].
  cbn [mbind outcome_bind]. intros [= <-] Hne. destruct (Pipe.PIPE_BUF <=? _); [|by rewrite Hr1].
  rewrite !flag_lor, Hout, orb_true_r. apply orb_true_r.
Qed.

(** One poll: what it tells, what it changes, and who is recorded when it tells
    nothing. *)
Lemma poll_step w tid a ev :
  PipeLife.reach w -> PipeLife.open_end w a -> Pipe.threads w !! tid = None ->
  exists w' rev, Pipe.pipe_poll w tid a ev = Ok (w', rev) /\ negb (rev =? 0) = shows w a ev /\
    PipeLife.reach w' /\ marked tid w w' /\
    (rev = 0 -> has ev PipeSpec.IN = true -> Pipe.Selrecord tid a ∈ Pipe.log w').
Proof.
  intros Hr Ho Ht. pose proof Ho as [[p Hp] _]. pose proof (PipeLife.pipe_reach_inv _ Hr) as Hi.
  destruct (PipeSpec.poll_revents_spec w a p ev Hi Hp) as (rev & Hrev & H1 & H2 & H3 & H4).
  assert (Hshows : negb (rev =? 0) = shows w a ev).
  { unfold shows. rewrite Hp. pose proof (revents_bits w p ev rev Hrev) as Hb. rewrite H1, H2, H3 in Hb.
    destruct (Z.eqb_spec rev 0) as [->|Hne]; simpl.
    - symmetry in H1, H2, H3. change (has 0 _) with false in *. rewrite H1, H2 in *. simpl in *.
      rewrite andb_true_r in H3. by rewrite H3.
    - specialize (Hb Hne). destruct (has ev PipeSpec.IN && _), (PipeSpec.hung_up w p); try done.
      simpl in *. by rewrite andb_true_r in Hb. }
  assert (Hpoll : exists w', Pipe.pipe_poll w tid a ev = Ok (w', rev) /\ marked tid w w' /\
    (rev = 0 -> has ev PipeSpec.IN = true -> Pipe.Selrecord tid a ∈ Pipe.log w')).
  { unfold Pipe.pipe_poll. rewrite (PipeRun.deref_eq _ _ _ Hp). cbn [mbind outcome_bind]. rewrite Hrev.
    cbn [mbind outcome_bind]. fold PipeSpec.IN PipeSpec.OUT.
    destruct (Z.eqb_spec rev 0) as [Hz|Hz]; cbn [negb]; [|by exists w].
    assert (H5 : exists w1, (if has ev PipeSpec.IN then Pipe.select_on w tid a else Ok w) = Ok w1 /\
      marked tid w w1 /\ (has ev PipeSpec.IN = true -> Pipe.Selrecord tid a ∈ Pipe.log w1) /\
      forall x, is_Some (Pipe.pipes w !! x) -> is_Some (Pipe.pipes w1 !! x)).
    { destruct (has ev PipeSpec.IN); [|by exists w]. unfold Pipe.select_on. rewrite (PipeRun.deref_eq _ _ _ Hp).
      eexists. split; [done|]. split; [by apply marked_select|]. split; [simpl; set_solver|].
      intros x Hx. simpl. destruct (decide (x = a)) as [->|]; [by rewrite lookup_insert_eq|].
      by rewrite lookup_insert_ne. }
    destruct H5 as (w1 & -> & Hm1 & Hl1 & Hs1). cbn [mbind outcome_bind].
    destruct (has ev PipeSpec.OUT); [|by exists w1]. destruct (H4 Hz eq_refl) as [q Hq]. rewrite Hq.
    destruct (PipeInv.iv_peer _ _ Hi a p q Hp Hq) as (_ & p2 & Hp2 & _).
    destruct (Hs1 q (ex_intro _ p2 Hp2)) as [p3 Hp3]. unfold Pipe.select_on.
    rewrite (PipeRun.deref_eq _ _ _ Hp3). cbn [mbind outcome_bind]. eexists. split; [done|]. split.
    - trans w1; [done|]. by apply marked_select.
    - simpl. intros _ Hin. specialize (Hl1 Hin). set_solver. }
  destruct Hpoll as (w' & He & Hm & Hl). exists w', rev. split_and!; try done.
  eapply (PipeLife.reach_call w 0 tid (PipeLife.CPoll a ev) w'); [done|done|].
  unfold PipeLife.exec. rewrite Ht. unfold PipeLife.at_once. by rewrite He.
Qed.

(** ** Scans *)

Section scans.
Variables (fo_close : Z -> Z) (t : Descrip.filedesc) (ext : Z -> Z) (st : Descrip.store) (tid : Z).
#[local] Existing Instance pipe_polls.

(** The end of a pipe that a descriptor stands for. *)
Definition end_of (d : Z) : option Z :=
  fp ← usable_at st t d; f ← Descrip.files st !! fp; Some (Descrip.f_data f).

Definition all_pipes (w : Pipe.pst) (ds : list Z) : Prop :=
  forall d, d ∈ ds -> exists a, end_of d = Some a /\ PipeLife.open_end w a.

Lemma all_pipes_marked w w' ds : marked tid w w' -> all_pipes w ds -> all_pipes w' ds.
Proof.
  intros [Ht Hv _ _ _ _] Hall d Hd. destruct (Hall d Hd) as (a & Ha & [Hs Hc]). exists a. split; [done|].
  split; [|unfold PipeInv.tot in *; by rewrite Ht]. specialize (Hv a). destruct Hs as [p Hp].
  rewrite Hp in Hv. by destruct (Pipe.pipes w' !! a).
Qed.

Lemma answer_end w d ev a :
  end_of d = Some a ->
  answer t st (PollOps0 := pipe_polls tid) (Some w) d ev =
    Some match Pipe.pipe_poll w tid a ev with Ok (w', rev) => (Some w', rev) | Panic => (None, 0) end.
Proof.
  unfold end_of, answer. intros (fp & -> & H)%bind_Some. apply bind_Some in H as (f & Hf & [= <-]).
  cbn [mbind option_bind]. by rewrite Hf.
Qed.

(** A scan of pipes tells what they show at its beginning. *)
Lemma ask_pipes ev ds : forall w,
  PipeLife.reach w -> Pipe.threads w !! tid = None -> all_pipes w ds ->
  exists w' l, ask t st (PollOps0 := pipe_polls tid) ev ds (Some w) = (Some w', l, None) /\
    PipeLife.reach w' /\ marked tid w w' /\
    (forall d, d ∈ l <-> d ∈ ds /\ exists a, end_of d = Some a /\ shows w a ev = true) /\
    (has ev PipeSpec.IN = true -> forall d a, d ∈ ds -> ~ (d ∈ l) -> end_of d = Some a ->
       Pipe.Selrecord tid a ∈ Pipe.log w').
Proof.
  induction ds as [|d ds IH]; intros w Hr Ht Hall.
  { exists w, []. split; [done|]. split; [done|]. split; [done|]. set_solver. }
  destruct (Hall d (list_elem_of_here _ _)) as (a & Ha & Ho).
  destruct (poll_step w tid a ev Hr Ho Ht) as (w1 & rev & He & Hsh & Hr1 & Hm & Hrec).
  destruct (IH w1) as (w2 & l & Heq & Hr2 & Hm2 & Hl & Hrec2); [done|by rewrite (mk_threads _ _ _ Hm)| |].
  { apply (all_pipes_marked w); [done|]. intros x Hx. apply Hall. by right. }
  cbn [ask]. rewrite (answer_end w d ev a Ha), He, Heq. eexists w2, _. split; [done|]. split; [done|].
  split; [by trans w1|]. setoid_rewrite elem_of_cons. rewrite Hsh. split.
  - intros x. setoid_rewrite (shows_marked tid w w1 _ _ Hm) in Hl. destruct (shows w a ev) eqn:Es.
    + rewrite elem_of_cons, Hl. split; [intros [->|[? ?]]; eauto|]. intros [[->|Hx] Hsx]; auto.
    + rewrite Hl. split; [intros [? ?]; auto|]. intros [[->|Hx] Hsx]; [|auto].
      destruct Hsx as (b & Hb & Hbs). congruence.
  - intros Hin x b [->|Hx] Hxl Hb.
    + assert (b = a) as -> by congruence. destruct (shows w a ev) eqn:Es; [set_solver|].
      apply negb_false_iff, Z.eqb_eq in Hsh. specialize (Hrec Hsh Hin).
      destruct (marked_log _ _ _ Hm2) as [k ->]. apply elem_of_app. by left.
    + apply (Hrec2 Hin x b); [done| |done]. intros Hxl'. apply Hxl. destruct (shows w a ev); set_solver.
Qed.

Lemma shown_bit w nfd d a (l : list Z) ev ws :
  0 <= d < nfd -> end_of d = Some a ->
  (forall d, d ∈ l <-> d ∈ wanted nfd ws /\ exists a, end_of d = Some a /\ shows w a ev = true) ->
  bool_decide (d ∈ l) = FD_ISSET d ws && shows w a ev.
Proof.
  intros Hd Hend Hl. apply eq_true_iff_eq. rewrite bool_decide_eq_true, Hl, elem_of_wanted, andb_true_iff.
  split; [intros ([_ ?] & b & Hb & ?); split; congruence|]. intros [? ?]. split; [done|by exists a].
Qed.

(** C36: select(2) of a thread on pipes tells, of each descriptor it was asked about,
    what holds when the scan begins: in the read set those with bytes or a peer
    that is gone, in the write set those with room for an atomic write or a peer
    that is gone, in the third those whose peer is gone.  In the pipes it changes
    nothing but to raise PIPE_SEL and to record the thread: buffers, times, owners,
    peers, busy counts, the other flags, the threads in pipes and the counts of
    memory are as before.  When it found nothing, so that the thread is going to
    sleep, the thread is recorded with every pipe it wants to read. *)
Theorem select_pipes w nfd rd wr ex :
  inv ext st t -> 0 <= nfd < 2 ^ 31 -> Forall (set_ok nfd) [rd; wr; ex] ->
  PipeLife.reach w -> Pipe.threads w !! tid = None ->
  (forall d, 0 <= d < nfd -> FD_ISSET d rd || FD_ISSET d wr || FD_ISSET d ex = true ->
     exists a, end_of d = Some a /\ PipeLife.open_end w a) ->
  exists w' n rd' wr' ex',
    selscan fo_close t (PollOps0 := pipe_polls tid) st (Some w) [rd; wr; ex] (no_bits nfd) nfd =
      Some (st, Some w', inl (n, [rd'; wr'; ex'])) /\
    PipeLife.reach w' /\ marked tid w w' /\
    forall d a p, 0 <= d < nfd -> end_of d = Some a -> Pipe.pipes w !! a = Some p ->
      FD_ISSET d rd' = FD_ISSET d rd && (PipeSpec.readable p || PipeSpec.hung_up w p) /\
      FD_ISSET d wr' = FD_ISSET d wr && (PipeSpec.hung_up w p || PipeSpec.roomy w p) /\
      FD_ISSET d ex' = FD_ISSET d ex && PipeSpec.hung_up w p /\
      (n = 0 -> FD_ISSET d rd = true -> Pipe.Selrecord tid a ∈ Pipe.log w').
Proof.
  intros Hinv Hnfd Hok Hr Ht Hall.
  assert (Hpipes : forall ws, ws ∈ [rd; wr; ex] -> all_pipes w (wanted nfd ws)).
  { intros ws Hws d [Hd Hset]%elem_of_wanted. apply Hall; [done|].
    repeat (apply elem_of_cons in Hws as [->|Hws]; [rewrite Hset, ?orb_true_r; done|]). by apply elem_of_nil in Hws. }
  destruct (ask_pipes POLLIN (wanted nfd rd) w Hr Ht) as (w1 & l1 & E1 & Hr1 & Hm1 & Hl1 & Hrec1);
    [apply Hpipes; set_solver|].
  destruct (ask_pipes (POLLOUT .| POLLNOHUP) (wanted nfd wr) w1 Hr1) as (w2 & l2 & E2 & Hr2 & Hm2 & Hl2 & _);
    [by rewrite (mk_threads _ _ _ Hm1)|by apply (all_pipes_marked w), Hpipes; [|set_solver]|].
  assert (Hm12 : marked tid w w2) by (by trans w1).
  destruct (ask_pipes POLLPRI (wanted nfd ex) w2 Hr2) as (w3 & l3 & E3 & Hr3 & Hm3 & Hl3 & _);
    [by rewrite (mk_threads _ _ _ Hm12)|by apply (all_pipes_marked w), Hpipes; [|set_solver]|].
  assert (Ha : ask_sets t st (PollOps0 := pipe_polls tid) nfd sel_flag [rd; wr; ex] (Some w) =
    (Some w3, [l1; l2; l3], None)).
  { cbn [ask_sets sel_flag]. by rewrite E1, E2, E3. }
  destruct (ask_sets_error t st nfd sel_flag [rd; wr; ex] (Some w) _ _ _ eq_refl Ha) as (_ & _ & Hincl).
  pose proof (put_bits nfd [l1; l2; l3] [rd; wr; ex] (proj1 Hnfd) eq_refl (Hincl eq_refl)) as Hput.
  pose proof (selscan_run (PollOps0 := pipe_polls tid) fo_close t ext st nfd [rd; wr; ex] (Some w) Hinv (proj2 Hnfd)
    eq_refl Hok) as Hrun.
  rewrite Ha in Hrun.
  apply Forall2_cons_inv_r in Hput as (rd' & o1 & Hp1 & Hput & Eo). rewrite Eo in Hrun. clear Eo.
  apply Forall2_cons_inv_r in Hput as (wr' & o2 & Hp2 & Hput & ->).
  apply Forall2_cons_inv_r in Hput as (ex' & o3 & Hp3 & Hput & ->). apply Forall2_nil_inv_r in Hput as ->.
  eexists w3, _, rd', wr', ex'. split; [exact Hrun|]. split; [done|]. split; [by trans w2|].
  intros d a p Hd Hend Hp.
  setoid_rewrite (shows_marked tid w w1 _ _ Hm1) in Hl2. setoid_rewrite (shows_marked tid w w2 _ _ Hm12) in Hl3.
  rewrite Hp1, Hp2, Hp3 by lia. rewrite (shown_bit w nfd d a l1 _ _ Hd Hend Hl1), (shown_bit w nfd d a l2 _ _ Hd Hend Hl2),
    (shown_bit w nfd d a l3 _ _ Hd Hend Hl3).
  unfold shows. rewrite Hp. split; [by rewrite orb_false_r|]. split; [done|]. split; [by rewrite orb_false_r|].
  intros Hn Hset. destruct (marked_log _ _ _ (transitivity Hm2 Hm3)) as [k ->]. apply elem_of_app. left.
  apply (Hrec1 eq_refl d a); [by apply elem_of_wanted| |done]. destruct l1; [by apply not_elem_of_nil|done].
Qed.

End scans.

(** ** A concrete scan *)

(** Descriptors 0 and 1 of [FileCalls.pipe_at_demo] are the two ends of a pipe:
    nothing to read at the one, room to write at the other. *)
Lemma select_pipes_witness :
  exists w' n rd' wr' ex',
    selscan DescripSpec.close_ok (snd DescripSpec.demo_state) (PollOps0 := pipe_polls 5) (fst DescripSpec.demo_state)
      (Some FileCalls.pipe_world) [[1]; [2]; [0]] (no_bits 2) 2 =
      Some (fst DescripSpec.demo_state, Some w', inl (n, [rd'; wr'; ex'])) /\ PipeLife.reach w'.
Proof.
  destruct FileCalls.pipe_at_demo as [p Hp].
  destruct (select_pipes DescripSpec.close_ok (snd DescripSpec.demo_state) (fun _ => 0) (fst DescripSpec.demo_state) 5
    FileCalls.pipe_world 2 [1] [2] [0]) as (w' & n & rd' & wr' & ex' & H & Hr & _).
  - exact (FileCalls.pa_inv _ _ _ _ _ _ _ _ _ Hp).
  - lia.
  - repeat constructor; by_decide.
  - exact (FileCalls.pa_reach _ _ _ _ _ _ _ _ _ Hp).
  - vm_compute. reflexivity.
  - intros d Hd Hset. assert (d = 0 \/ d = 1) as [-> | ->] by lia.
    + exists 2000. split; [vm_compute; reflexivity|exact (FileCalls.pa_open _ _ _ _ _ _ _ _ _ Hp)].
    + exists 2001. split; [vm_compute; reflexivity|]. split; [|vm_compute; reflexivity].
      apply (bool_decide_unpack _). vm_compute. exact I.
  - exact (ex_intro _ w' (ex_intro _ n (ex_intro _ rd' (ex_intro _ wr' (ex_intro _ ex' (conj H Hr)))))).
Defined.

(** What that scan returns: only the end to write to. *)
Example select_pipes_run :
  (fun r => r.2) <$>
    selscan DescripSpec.close_ok (snd DescripSpec.demo_state) (PollOps0 := pipe_polls 5) (fst DescripSpec.demo_state)
      (Some FileCalls.pipe_world) [[1]; [2]; [0]] (no_bits 2) 2 = Some (inl (1, [[0]; [2]; [0]])).
Proof. vm_compute. reflexivity. Qed.

End SelectPipe.
