(* ===== verification/Generic.v ===== *)
(** * read(2), write(2) and ioctl(2) (kern/sys_generic.c): the model

    What these calls do around the operations of a file.  A read or a write is
    cut where it calls the file, which may sleep: [rw_begin] finds and holds the
    file and adds up the lengths, [rw_end] takes what the file returns.  ioctl
    copies a parameter in, hands it over and copies it out; the size is part of
    the command.  The buffer is made of bytes, and what it holds before is part of
    the model. *)

From S2P Require Import Prelude Tame Descrip Pipe FileCalls.

Module Generic.

Definition UIO_SMALLIOV : Z := 8.
Definition IOV_MAX : Z := 1024.
Definition SSIZE_MAX : Z := 2 ^ 63 - 1.
Definition IOCPARM_MASK : Z := 0x1fff.
Definition IOCPARM_LEN (x : Z) : Z := Z.shiftr x 16 .& IOCPARM_MASK.
Definition IOCPARM_MAX : Z := 4096.
Definition STK_PARAMS : Z := 128.
Definition ERESTART : Z := -1.
Definition EINTR : Z := 4.
Definition EPIPE : Z := 32.
Definition EWOULDBLOCK : Z := 35.

(** ** Reading and writing *)

(** The sum of the lengths, as far as each of them and the sum so far are right. *)
Fixpoint add_lens (resid : Z) (lens : list Z) : Z + Z :=
  match lens with
  | [] => inl resid
  | iov_len :: lens' =>
      let resid := u64 (resid + iov_len) in
      if (SSIZE_MAX <? iov_len) || (SSIZE_MAX <? resid) then inr EINVAL else add_lens resid lens'
  end.

(** The array of the user: [copyin] gives its lengths, or an error. *)
Definition get_iovec (iovcnt : Z) (copyin : list Z + Z) : list Z + Z :=
  if UIO_SMALLIOV <? u32 iovcnt then
    if IOV_MAX <? u32 iovcnt then inr EINVAL else copyin
  else if 0 <? u32 iovcnt then copyin
  else inr EINVAL.

(** The statistics of a file. *)
Record xfers := Xfers {
  f_rxfer : Z;
  f_rbytes : Z;
  f_wxfer : Z;
  f_wbytes : Z;
}.

Section io.
Variables (fo_close : Z -> Z).

(** Up to the call of [fo_read] or [fo_write]: the file that is held and the
    bytes asked for, or the error. *)
Definition rw_begin (st : Descrip.store) (t : Descrip.filedesc) (fd mode : Z) (iov : list Z + Z)
    : option (Descrip.store * (Z * Z + Z)) :=
  g ← Descrip.fd_getfile_mode st t fd mode;
  match g with
  | None => Some (st, inr EBADF)
  | Some fp =>
      st1 ← Descrip.FREF st fp;
      match (match iov with inr error => inr error | inl lens => add_lens 0 lens end) with
      | inr error => '(_, st2) ← Descrip.FRELE fo_close st1 fp; Some (st2, inr error)
      | inl resid => Some (st1, inl (fp, resid))
      end
  end.

Definition sys_read (st : Descrip.store) (t : Descrip.filedesc) (fd nbyte : Z) :=
  rw_begin st t fd Descrip.FREAD (inl [nbyte]).
Definition sys_readv (st : Descrip.store) (t : Descrip.filedesc) (fd iovcnt : Z) (copyin : list Z + Z) :=
  rw_begin st t fd Descrip.FREAD (get_iovec iovcnt copyin).
Definition sys_write (st : Descrip.store) (t : Descrip.filedesc) (fd nbyte : Z) :=
  rw_begin st t fd Descrip.FWRITE (inl [nbyte]).
Definition sys_writev (st : Descrip.store) (t : Descrip.filedesc) (fd iovcnt : Z) (copyin : list Z + Z) :=
  rw_begin st t fd Descrip.FWRITE (get_iovec iovcnt copyin).

(** A transfer that was interrupted after its beginning is a success. *)
Definition io_error (cnt resid error : Z) : Z :=
  if negb (resid =? cnt) && ((error =? ERESTART) || (error =? EINTR) || (error =? EWOULDBLOCK)) then 0
  else error.

(** From the return of [fo_read]: the statistics, the value and the error. *)
Definition readv_end (st : Descrip.store) (x : xfers) (fp cnt resid error : Z)
    : option (Descrip.store * xfers * Z * Z) :=
  let error := io_error cnt resid error in
  let cnt := cnt - resid in
  '(_, st) ← Descrip.FRELE fo_close st fp;
  Some (st, Xfers (u64 (f_rxfer x + 1)) (u64 (f_rbytes x + cnt)) (f_wxfer x) (f_wbytes x), cnt, error).

(** From the return of [fo_write], with whether SIGPIPE is sent. *)
Definition writev_end (st : Descrip.store) (x : xfers) (fp cnt resid error : Z)
    : option (Descrip.store * xfers * Z * Z * bool) :=
  let error := io_error cnt resid error in
  let cnt := cnt - resid in
  '(_, st) ← Descrip.FRELE fo_close st fp;
  Some (st, Xfers (f_rxfer x) (f_rbytes x) (u64 (f_wxfer x + 1)) (u64 (f_wbytes x + cnt)), cnt, error,
        error =? EPIPE).

End io.

(** ** ioctl(2) *)

(** Numbers in memory. *)
Fixpoint to_le (n : nat) (x : Z) : list Z :=
  match n with O => [] | S n' => x mod 256 :: to_le n' (x / 256) end.
Definition from_le (l : list Z) : Z := foldr (fun b x => b + 256 * x) 0 l.

Definition overwrite (new old : list Z) : list Z := new ++ drop (length new) old.
Definition get_int (data : list Z) : Z := s32 (from_le (take 4 data)).
Definition put_int (x : Z) (data : list Z) : list Z := overwrite (to_le 4 x) data.

(** The buffer as it is handed over: [junk] is what it holds before, [udata] the
    argument of the call and [copyin] what is at that address, or an error. *)
Definition ioctl_data (com udata : Z) (copyin : list Z + Z) (junk : list Z) : list Z + Z :=
  let size := IOCPARM_LEN com in
  if has com IOC_IN then
    if negb (size =? 0) then
      match copyin with inr error => inr error | inl bytes => inl (overwrite bytes junk) end
    else inl (overwrite (to_le 8 udata) junk)
  else if has com IOC_OUT && negb (size =? 0) then inl (overwrite (replicate (Z.to_nat size) 0) junk)
  else if has com IOC_VOID then inl (overwrite (to_le 8 udata) junk)
  else inl junk.

(** The ioctl routine of a file: the state, the error and the buffer afterwards. *)
Class IoctlOps (W : Type) := fo_ioctl_at : W -> Descrip.file -> Z -> list Z -> W * Z * list Z.

Section ioctl.
Context {W : Type} `{!IoctlOps W}.
Variables (fo_close : Z -> Z) (as_seen : Descrip.file -> Tame.file).
Variables (so_pgid : W -> Z -> Z) (so_setown : W -> Z -> Z -> W) (prfind : Z -> option Z).

(** The switch over the command: file, state, error and buffer. *)
Definition ioctl_call (w : W) (f : Descrip.file) (com : Z) (data : list Z)
    : Descrip.file * W * Z * list Z :=
  let send := fun f com d => let '(w, error, _) := fo_ioctl_at w f com d in (f, w, error, data) in
  let tmp := get_int data in
  if (com =? FIONBIO) || (com =? FIOASYNC) then
    let bit := if com =? FIONBIO then FileCalls.FNONBLOCK else FileCalls.FASYNC in
    let f := FileCalls.set_fflag f (if negb (tmp =? 0) then Descrip.f_flag f .| bit
                                    else clear (Descrip.f_flag f) bit) in
    send f com (to_le 4 tmp)
  else if com =? FIOSETOWN then
    if Descrip.f_type f =? FileCalls.DTYPE_SOCKET then (f, so_setown w (Descrip.f_data f) tmp, 0, data)
    else match (if tmp <=? 0 then Some (s32 (- tmp)) else prfind tmp) with
         | None => (f, w, FileCalls.ESRCH, data)
         | Some pgrp => send f TIOCSPGRP (to_le 4 pgrp)
         end
  else if com =? FIOGETOWN then
    if Descrip.f_type f =? FileCalls.DTYPE_SOCKET then
      (f, w, 0, put_int (so_pgid w (Descrip.f_data f)) data)
    else let '(w, error, data) := fo_ioctl_at w f TIOCGPGRP data in
         (f, w, error, put_int (s32 (- get_int data)) data)
  else let '(w, error, data) := fo_ioctl_at w f com data in (f, w, error, data).

(** The result of a call: the files, the table, the state behind the files, the
    process, the error and what was copied to the user. *)
Record iores := Iores {
  io_store : Descrip.store;
  io_tab : Descrip.filedesc;
  io_state : W;
  io_proc : Tame.process;
  io_err : Z;
  io_out : option (list Z);
}.

(** After the guards: the file is held, the command executed, the result copied
    out, with [cperr] from [copyout]. *)
Definition ioctl_file (st : Descrip.store) (t : Descrip.filedesc) (w : W) (p : Tame.process)
    (fp com udata : Z) (copyin : list Z + Z) (cperr : Z) (junk : list Z) : option iores :=
  let size := IOCPARM_LEN com in
  st ← Descrip.FREF st fp;
  match ioctl_data com udata copyin junk with
  | inr error => '(_, st) ← Descrip.FRELE fo_close st fp; Some (Iores st t w p error None)
  | inl data =>
      f ← Descrip.files st !! fp;
      let '(f, w, error, data) := ioctl_call w f com data in
      let st := Descrip.set_files st (<[fp := f]> (Descrip.files st)) in
      let '(error, out) :=
        if (error =? 0) && (has com IOC_OUT && negb (size =? 0))
        then (cperr, if cperr =? 0 then Some (take (Z.to_nat size) data) else None)
        else (error, None) in
      '(_, st) ← Descrip.FRELE fo_close st fp;
      Some (Iores st t w p error out)
  end.

Definition sys_ioctl (st : Descrip.store) (t : Descrip.filedesc) (w : W) (p : Tame.process)
    (fd com udata : Z) (copyin : list Z + Z) (cperr : Z) (junk : list Z) : option iores :=
  g ← Descrip.fd_getfile_mode st t fd (Descrip.FREAD .| Descrip.FWRITE);
  let seen := match g with Some fp => as_seen <$> Descrip.files st !! fp | None => None end in
  let '(refused, p) := tame_ioctl_check p com seen in
  if negb (refused =? 0) then
    let '(error, p) := tame_fail p EPERM in Some (Iores st t w p error None)
  else
    match g with
    | None => Some (Iores st t w p EBADF None)
    | Some fp =>
        if (com =? FIONCLEX) || (com =? FIOCLEX) then
          flag ← Descrip.rd (Descrip.fd_ofileflags t) fd;
          fl ← Descrip.wr (Descrip.fd_ofileflags t) fd
                 (if com =? FIONCLEX then clear flag Descrip.UF_EXCLOSE else flag .| Descrip.UF_EXCLOSE);
          Some (Iores st (Descrip.set_ofileflags t fl) w p 0 None)
        else if IOCPARM_MAX <? IOCPARM_LEN com then Some (Iores st t w p Pipe.ENOTTY None)
        else ioctl_file st t w p fp com udata copyin cperr junk
    end.

End ioctl.

End Generic.
