(* ===== verification/GenericSpec.v ===== *)
(** * read(2), write(2) and ioctl(2): the properties

    What a transfer asks for and reports, and that ioctl hands nothing to the user
    but what the user, the kernel or the file has put into the buffer. *)

From S2P Require Import Prelude Tame Descrip DescripMaps DescripTable DescripProofs DescripCalls DescripSpec.
From S2P Require Import Pipe PipeLife PipeSpec FileCalls Generic.
Import Descrip DescripMaps DescripTable DescripProofs DescripCalls DescripSpec Generic.

Module GenericSpec.

(** ** Transfers *)

Definition total (lens : list Z) : Z := foldr Z.add 0 lens.

Lemma total_nonneg lens : Forall (inu 64) lens -> 0 <= total lens.
Proof. unfold inu. induction 1; simpl; [done|]. unfold total in *. lia. Qed.

(** The sum that may wrap around is checked before it can. *)
Lemma add_lens_spec lens : forall resid, 0 <= resid <= SSIZE_MAX -> Forall (inu 64) lens ->
  add_lens resid lens =
    if SSIZE_MAX <? resid + total lens then inr EINVAL else inl (resid + total lens).
Proof.
  induction lens as [|l lens IH]; intros resid Hr Hl; simpl.
  { rewrite Z.add_0_r, (proj2 (Z.ltb_ge _ _)) by lia. done. }
  apply Forall_cons in Hl as [Hl Hls]. pose proof (total_nonneg lens Hls) as Ht. fold (total lens).
  unfold inu in Hl. destruct (Z.ltb_spec SSIZE_MAX l) as [Hb|Hb]; simpl.
  { rewrite (proj2 (Z.ltb_lt _ _)) by lia. done. }
  rewrite wrapu_small by (unfold inu; unfold SSIZE_MAX in *; lia).
  destruct (Z.ltb_spec SSIZE_MAX (resid + l)) as [Hb2|Hb2].
  { rewrite (proj2 (Z.ltb_lt _ _)) by lia. done. }
  rewrite IH by (done || lia). by rewrite Z.add_assoc.
Qed.

(** The file of a descriptor that is open in the mode. *)
Definition usable_mode (st : store) (t : filedesc) (fd mode : Z) : option Z :=
  fp ← usable_at st t fd; f ← files st !! fp; if has (f_flag f) mode then Some fp else None.

Lemma getfile_mode ext st t fd mode :
  inv ext st t -> is_int fd -> fd_getfile_mode st t fd mode = Some (usable_mode st t fd mode).
Proof.
  intros Hinv Hfd. unfold fd_getfile_mode, usable_mode. rewrite (fd_getfile_spec ext) by done.
  cbn [mbind option_bind]. destruct (usable_at st t fd) as [fp|] eqn:Hu; [|done]. cbn [mbind option_bind].
  pose proof Hinv as [Ht Hc _].
  destruct (inv_file ext st t fd fp Hc Ht (usable_at_file_at _ _ _ _ Hu)) as (_ & f & -> & _). done.
Qed.

Lemma usable_mode_file ext st t fd mode fp :
  inv ext st t -> usable_mode st t fd mode = Some fp ->
  exists f, files st !! fp = Some f /\ 0 < f_count f /\ has (f_flag f) mode = true.
Proof.
  intros [_ Hc _] Hu. unfold usable_mode in Hu. apply bind_Some in Hu as (fp' & _ & Hu).
  apply bind_Some in Hu as (f & Hf & Hu). destruct (has (f_flag f) mode) eqn:E; [|done]. injection Hu as ->.
  exists f. split; [done|]. split; [by apply (proj1 (proj2 Hc) fp)|done].
Qed.

Section io.
Variables (fo_close : Z -> Z).

Definition held (st : store) (fp : Z) (f : file) : store :=
  set_files st (<[fp := set_count f (f_count f + 1)]> (files st)).

Lemma hold st fp f : files st !! fp = Some f -> FREF st fp = Some (held st fp f).
Proof. intros Hf. unfold FREF, add_count. by rewrite Hf. Qed.

Lemma release st fp f f' :
  0 < f_count f -> f_count f' = f_count f + 1 ->
  FRELE fo_close (set_files st (<[fp := f']> (files st))) fp =
    Some (0, set_files st (<[fp := set_count f' (f_count f)]> (files st))).
Proof.
  intros Hc Hc'. unfold FRELE, add_count. cbn [files set_files]. rewrite lookup_insert_eq.
  cbn [mbind option_bind files set_files]. rewrite lookup_insert_eq. cbn [mbind option_bind f_count set_count].
  rewrite (proj2 (Z.eqb_neq _ 0)) by lia. unfold set_files. cbn [nfiles log]. rewrite insert_insert_eq.
  by replace (f_count f' + -1) with (f_count f) by lia.
Qed.

Lemma release_held st fp f :
  files st !! fp = Some f -> 0 < f_count f -> FRELE fo_close (held st fp f) fp = Some (0, st).
Proof.
  intros Hf Hc. unfold held. rewrite (release st fp f) by done. rewrite insert_id by (by destruct f).
  by destruct st.
Qed.

(** A transfer through a descriptor: the file must be open for it, or the error
    is EBADF; the lengths together must not exceed SSIZE_MAX, or the error is
    EINVAL, though their sum could wrap around; otherwise the file is asked for
    exactly the sum and held meanwhile.  Afterwards the files are as before, and
    the call returns the number of bytes that were moved; the error of the file is
    returned, unless bytes were moved and it says only that the call was
    interrupted or would block.  SIGPIPE is sent exactly with EPIPE. *)
Theorem file_transfer ext st t fd mode lens :
  inv ext st t -> is_int fd -> Forall (inu 64) lens ->
  match usable_mode st t fd mode with
  | None => rw_begin fo_close st t fd mode (inl lens) = Some (st, inr EBADF)
  | Some fp =>
      if SSIZE_MAX <? total lens then rw_begin fo_close st t fd mode (inl lens) = Some (st, inr EINVAL)
      else exists st1, rw_begin fo_close st t fd mode (inl lens) = Some (st1, inl (fp, total lens)) /\
        forall x resid error, 0 <= resid <= total lens -> exists xr xw n e,
          readv_end fo_close st1 x fp (total lens) resid error = Some (st, xr, n, e) /\
          writev_end fo_close st1 x fp (total lens) resid error = Some (st, xw, n, e, e =? EPIPE) /\
          n = total lens - resid /\ 0 <= n <= SSIZE_MAX /\
          (e = error \/ e = 0 /\ 0 < n /\ In error [ERESTART; EINTR; EWOULDBLOCK]) /\
          (e = error -> error = 0 \/ n = 0 \/ ~ In error [ERESTART; EINTR; EWOULDBLOCK])
  end.
Proof.
  intros Hinv Hfd Hl. unfold rw_begin. rewrite (getfile_mode ext) by done. cbn [mbind option_bind].
  destruct (usable_mode st t fd mode) as [fp|] eqn:Hu; [|done].
  destruct (usable_mode_file ext _ _ _ _ _ Hinv Hu) as (f & Hf & Hc & _). rewrite (hold st fp f Hf).
  cbn [mbind option_bind]. rewrite add_lens_spec by (done || (unfold SSIZE_MAX; lia)). rewrite Z.add_0_l.
  destruct (Z.ltb_spec SSIZE_MAX (total lens)) as [Hb|Hb].
  { by rewrite (release_held st fp f Hf Hc). }
  eexists. split; [done|]. intros x resid error Hres. unfold readv_end, writev_end.
  rewrite (release_held st fp f Hf Hc). cbn [mbind option_bind].
  eexists _, _, _, _. split; [done|]. split; [done|]. split; [done|]. split; [lia|].
  unfold io_error. simpl. destruct (Z.eqb_spec resid (total lens)) as [->|Hne]; simpl.
  { split; [by left|]. lia. }
  destruct (Z.eqb_spec error ERESTART) as [->|]; [split; [right; split_and!; (done || lia || auto)|done]|].
  destruct (Z.eqb_spec error EINTR) as [->|]; [split; [right; split_and!; (done || lia || auto)|done]|].
  destruct (Z.eqb_spec error EWOULDBLOCK) as [->|]; [split; [right; split_and!; (done || lia || auto)|done]|].
  simpl. split; [by left|]. intros _. right. right. intros [?|[?|[?|[]]]]; congruence.
Qed.

(** When the descriptor was closed during the transfer the call has the last
    reference, and it is the one that closes the file. *)
Lemma last_reader_closes st x fp f cnt resid error :
  files st !! fp = Some f -> f_count f = 1 -> f_ops f = true ->
  exists x', readv_end fo_close st x fp cnt resid error =
    Some (Store (delete fp (files st)) (nfiles st - 1) (log st ++ [FoClose fp]), x', cnt - resid,
          io_error cnt resid error).
Proof.
  intros Hf Hc Ho. unfold readv_end, FRELE, add_count. rewrite Hf. cbn [mbind option_bind files set_files].
  rewrite lookup_insert_eq. cbn [mbind option_bind f_count set_count]. rewrite Hc.
  change (1 + -1 =? 0) with true. cbn iota. unfold fdrop. cbn [files set_files]. rewrite lookup_insert_eq.
  cbn [mbind option_bind f_count set_count]. change (1 + -1 =? 0) with true. cbn [negb f_ops set_count].
  rewrite Ho. cbn [mbind option_bind files set_files add_log nfiles log]. rewrite delete_insert_eq. by eexists.
Qed.

End io.

(** ** The buffer of ioctl(2) *)

(** Two buffers with the same first [n] bytes. *)
Definition agree (n : Z) (d d' : list Z) : Prop :=
  take (Z.to_nat n) d = take (Z.to_nat n) d' /\ n <= Z.of_nat (length d) /\ n <= Z.of_nat (length d').

Lemma agree_overwrite n new d d' :
  n <= Z.of_nat (length new) -> agree n (overwrite new d) (overwrite new d').
Proof.
  intros Hn. unfold agree, overwrite. rewrite !take_app_le by lia. rewrite !length_app. split_and!; [done|lia|lia].
Qed.

Lemma agree_int n d d' : 4 <= n -> agree n d d' -> get_int d = get_int d'.
Proof.
  intros Hn [H _]. unfold get_int. f_equal. f_equal.
  replace 4%nat with (Nat.min 4 (Z.to_nat n)) by lia. by rewrite <- !take_take, H.
Qed.

(** A number has as many bytes as it is given, and is read back. *)
Lemma to_le_length n x : length (to_le n x) = n.
Proof. revert x. induction n as [|n IH]; intros x; simpl; [done|]. by rewrite IH. Qed.

Lemma from_to_le n : forall x, from_le (to_le n x) = x mod 256 ^ Z.of_nat n.
Proof.
  induction n as [|n IH]; intros x; [by rewrite Z.mod_1_r|]. cbn [to_le]. unfold from_le in *. simpl.
  rewrite IH. replace (Z.of_nat (S n)) with (1 + Z.of_nat n) by lia. rewrite Z.pow_add_r by lia.
  rewrite Z.pow_1_r, Z.rem_mul_r by (try apply Z.pow_pos_nonneg; lia). done.
Qed.

Lemma int_roundtrip x d : - 2 ^ 31 <= x < 2 ^ 31 -> get_int (put_int x d) = x.
Proof.
  intros Hx. unfold get_int, put_int, overwrite. rewrite take_app_le by (by rewrite to_le_length).
  rewrite take_ge by (by rewrite to_le_length). rewrite from_to_le. change (256 ^ Z.of_nat 4) with (2 ^ 32).
  unfold wraps. rewrite Zplus_mod_idemp_l. rewrite Z.mod_small by (simpl; lia). simpl. lia.
Qed.

Section ioctl.
Context {W : Type} `{!IoctlOps W}.
Variables (fo_close : Z -> Z) (as_seen : file -> Tame.file).
Variables (so_pgid : W -> Z -> Z) (so_setown : W -> Z -> Z -> W) (prfind : Z -> option Z).

(** A file whose routine keeps to the size that is part of the command: it reads
    no byte of the buffer beyond it. *)
Definition keeps_to_size (com : Z) : Prop :=
  forall w f d d', agree (IOCPARM_LEN com) d d' ->
    fst (fo_ioctl_at w f com d) = fst (fo_ioctl_at w f com d') /\
    agree (IOCPARM_LEN com) (snd (fo_ioctl_at w f com d)) (snd (fo_ioctl_at w f com d')).

(** The command that the file gets. *)
Definition sent (com : Z) : Z := if com =? FIOGETOWN then TIOCGPGRP else com.

Lemma data_agrees com udata copyin junk junk' :
  has com IOC_IN || has com IOC_OUT = true -> IOCPARM_LEN com <> 0 ->
  (forall bytes, copyin = inl bytes -> Z.of_nat (length bytes) = IOCPARM_LEN com) ->
  match ioctl_data com udata copyin junk, ioctl_data com udata copyin junk' with
  | inl d, inl d' => agree (IOCPARM_LEN com) d d'
  | inr e, inr e' => e = e'
  | _, _ => False
  end.
Proof.
  intros Hdir Hsize Hin. unfold ioctl_data. rewrite (proj2 (Z.eqb_neq (IOCPARM_LEN com) 0)) by done. cbn [negb].
  destruct (has com IOC_IN).
  - destruct copyin as [bytes|e]; [|done]. apply agree_overwrite. rewrite (Hin bytes); done.
  - simpl in Hdir. rewrite Hdir. cbn [andb]. apply agree_overwrite. rewrite length_replicate.
    assert (0 <= IOCPARM_LEN com) by (apply Z.land_nonneg; right; unfold IOCPARM_MASK; lia). lia.
Qed.

Lemma call_agrees w f com d d' :
  keeps_to_size (sent com) -> agree (IOCPARM_LEN com) d d' ->
  let '(f1, w1, e1, o1) := ioctl_call so_pgid so_setown prfind w f com d in
  let '(f2, w2, e2, o2) := ioctl_call so_pgid so_setown prfind w f com d' in
  f1 = f2 /\ w1 = w2 /\ e1 = e2 /\ agree (IOCPARM_LEN com) o1 o2.
Proof.
  intros Hk Ha. unfold ioctl_call, sent in *.
  assert (Hi : forall c, com = c -> IOCPARM_LEN c = 4 -> get_int d = get_int d').
  { intros c -> Hc. eapply agree_int; [|exact Ha]. by rewrite Hc. }
  destruct (Z.eqb_spec com FIONBIO) as [E|_].
  { rewrite <- (Hi _ E eq_refl). subst com. cbn [orb]. by destruct (fo_ioctl_at _ _ _ _) as [[? ?] ?]. }
  destruct (Z.eqb_spec com FIOASYNC) as [E|_].
  { rewrite <- (Hi _ E eq_refl). subst com. cbn [orb]. by destruct (fo_ioctl_at _ _ _ _) as [[? ?] ?]. }
  cbn [orb]. destruct (Z.eqb_spec com FIOSETOWN) as [E|_].
  { rewrite <- (Hi _ E eq_refl). destruct (f_type f =? _); [done|]. destruct (if _ <=? 0 then _ else _); [|done].
    by destruct (fo_ioctl_at _ _ _ _) as [[? ?] ?]. }
  destruct (Z.eqb_spec com FIOGETOWN) as [E|_].
  - subst com. destruct (f_type f =? _).
    { split_and!; try done; apply agree_overwrite; done. }
    destruct (Hk w f d d' Ha) as [H1 H2].
    destruct (fo_ioctl_at w f TIOCGPGRP d) as [[w1 e1] o1], (fo_ioctl_at w f TIOCGPGRP d') as [[w2 e2] o2].
    simpl in H1, H2. injection H1 as -> ->. rewrite <- (agree_int 4 _ _ ltac:(done) H2).
    split_and!; try done; apply agree_overwrite; done.
  - destruct (Hk w f d d' Ha) as [H1 H2].
    destruct (fo_ioctl_at w f com d) as [[w1 e1] o1], (fo_ioctl_at w f com d') as [[w2 e2] o2].
    simpl in H1, H2. by injection H1 as -> ->.
Qed.

(** C37: ioctl(2) tells the user nothing of what its buffer held before: for a command
    with a parameter, copied in or out, and a file that keeps to the size of the
    parameter, the whole result, with the bytes that are copied out, the files,
    the state behind them and the error, is the same whatever is on the stack or
    in the memory that [malloc] returns. *)
Theorem ioctl_no_leak st t w p fd com udata copyin cperr junk junk' :
  keeps_to_size (sent com) ->
  has com IOC_IN || has com IOC_OUT = true -> IOCPARM_LEN com <> 0 ->
  (forall bytes, copyin = inl bytes -> Z.of_nat (length bytes) = IOCPARM_LEN com) ->
  sys_ioctl fo_close as_seen so_pgid so_setown prfind st t w p fd com udata copyin cperr junk =
  sys_ioctl fo_close as_seen so_pgid so_setown prfind st t w p fd com udata copyin cperr junk'.
Proof.
  intros Hk Hdir Hsize Hin. unfold sys_ioctl. destruct (fd_getfile_mode _ _ _ _) as [g|]; [|done].
  cbn [mbind option_bind]. destruct (tame_ioctl_check _ _ _) as [e p']. destruct (negb (e =? 0)); [done|].
  destruct g as [fp|]; [|done]. destruct ((com =? FIONCLEX) || (com =? FIOCLEX)); [reflexivity|]. destruct (IOCPARM_MAX <? _); [done|].
  unfold ioctl_file. destruct (FREF st fp) as [st1|]; [|done]. cbn [mbind option_bind].
  pose proof (data_agrees com udata copyin junk junk' Hdir Hsize Hin) as Ha.
  destruct (ioctl_data com udata copyin junk) as [d|e1], (ioctl_data com udata copyin junk') as [d'|e2];
    [|done|done|by subst e2].
  destruct (files st1 !! fp) as [f|]; [|done]. cbn [mbind option_bind].
  pose proof (call_agrees w f com d d' Hk Ha) as Hc.
  destruct (ioctl_call _ _ _ w f com d) as [[[f1 w1] er1] o1], (ioctl_call _ _ _ w f com d') as [[[f2 w2] er2] o2].
  destruct Hc as (-> & -> & -> & Ht & _). by rewrite Ht.
Qed.

(** FIOCLEX and FIONCLEX do what F_SETFD does, for a process that is not tamed. *)
Theorem ioctl_cloexec ext st t w p fd udata copyin cperr junk fp (on : bool) :
  inv ext st t -> is_int fd -> ps_tamed p = false -> usable_mode st t fd (FREAD .| FWRITE) = Some fp ->
  exists t', fcntl_setfd st t fd (if on then 1 else 0) = Some (t', inl 0) /\
    sys_ioctl fo_close as_seen so_pgid so_setown prfind st t w p fd (if on then FIOCLEX else FIONCLEX)
      udata copyin cperr junk = Some (Iores st t' w p 0 None).
Proof.
  intros Hinv Hfd Hp Hu. unfold fcntl_setfd, sys_ioctl.
  rewrite (fd_getfile_spec ext), (getfile_mode ext), Hu by done. cbn [mbind option_bind].
  assert (Hus : usable_at st t fd = Some fp).
  { unfold usable_mode in Hu. apply bind_Some in Hu as (a & Ha & Hu). apply bind_Some in Hu as (f & _ & Hu).
    destruct (has _ _); [|done]. congruence. }
  rewrite Hus. unfold tame_ioctl_check. rewrite Hp. cbn [negb]. rewrite (eq_refl : (0 =? 0) = true). cbn [negb].
  pose proof Hinv as [Ht _ _].
  pose proof (file_at_range _ _ _ _ Ht (usable_at_file_at _ _ _ _ Hus)) as Hr.
  destruct (rd_flags t None fd Ht Hr) as [fl Hfl]. rewrite Hfl. cbn [mbind option_bind].
  assert (Hlen : 0 <= fd < Z.of_nat (length (fd_ofileflags t))) by (by rewrite (tk_flags _ _ Ht)).
  destruct on; cbn; rewrite !wr_Some by done; by eexists.
Qed.

End ioctl.

(** ** Pipes *)

(** The ioctl routine of files that are pipes, whose parameters are integers;
    without a state the kernel has panicked. *)
#[global] Instance pipe_ioctl_at : IoctlOps (option Pipe.pst) := fun w f com d =>
  match w with
  | None => (None, 0, d)
  | Some w =>
      match Pipe.pipe_ioctl w (f_data f) com (get_int d) with
      | Ok (w', error, x) => (Some w', error, put_int x d)
      | Panic => (None, 0, d)
      end
  end.

Lemma pipes_keep_to_size com : IOCPARM_LEN com = 4 -> keeps_to_size com.
Proof.
  intros Hc w f d d' Ha. rewrite Hc in *. unfold fo_ioctl_at, pipe_ioctl_at.
  destruct w as [w|]; [|done]. rewrite <- (agree_int 4 d d' ltac:(done) Ha).
  destruct (Pipe.pipe_ioctl _ _ _ _) as [[[w' e] x]|]; [|done]. simpl. split; [done|].
  by apply agree_overwrite.
Qed.

(** ** Concrete calls *)

Definition a_vnode (f : file) : Tame.file := Tame.File Tame.DTYPE_VNODE VREG 0 true.
Definition free_proc : Tame.process := Process false 0 None 0 0 0 [].

(** FIONREAD on descriptor 0 of the demonstration. *)
Definition fionread (junk : list Z) :=
  sys_ioctl (W := option Pipe.pst) close_ok a_vnode (fun _ _ => 0) (fun w _ _ => w) (fun _ => None)
    (fst demo_state) (snd demo_state) (Some FileCalls.pipe_world) free_proc 0 FIONREAD 0 (inl [0; 0; 0; 0]) 0 junk.

Lemma fionread_sizes :
  keeps_to_size (W := option Pipe.pst) (sent FIONREAD) /\ has FIONREAD IOC_IN || has FIONREAD IOC_OUT = true /\
  IOCPARM_LEN FIONREAD <> 0 /\
  forall bytes, (inl [0; 0; 0; 0] : list Z + Z) = inl bytes -> Z.of_nat (length bytes) = IOCPARM_LEN FIONREAD.
Proof.
  split; [apply pipes_keep_to_size; vm_compute; reflexivity|]. split; [vm_compute; reflexivity|].
  split; [vm_compute; discriminate|]. intros bytes [= <-]. vm_compute. reflexivity.
Qed.

Lemma ioctl_no_leak_witness : fionread [1; 2; 3; 4; 5] = fionread [].
Proof.
  destruct fionread_sizes as (H1 & H2 & H3 & H4).
  exact (ioctl_no_leak (W := option Pipe.pst) close_ok a_vnode (fun _ _ => 0) (fun w _ _ => w) (fun _ => None)
    (fst demo_state) (snd demo_state) (Some FileCalls.pipe_world) free_proc 0 FIONREAD 0 (inl [0; 0; 0; 0]) 0
    [1; 2; 3; 4; 5] [] H1 H2 H3 H4).
Defined.

Lemma file_transfer_witness : exists st1,
  rw_begin close_ok (fst demo_state) (snd demo_state) 0 FREAD (inl [5; 7]) = Some (st1, inl (1000, 12)) /\
  exists x e, readv_end close_ok st1 (Xfers 0 0 0 0) 1000 12 2 EINTR = Some (fst demo_state, x, 10, e).
Proof.
  pose proof (file_transfer close_ok (fun _ => 0) (fst demo_state) (snd demo_state) 0 FREAD [5; 7]
    demo_inv (ltac:(by_decide)) (ltac:(repeat constructor; by_decide))) as H.
  replace (usable_mode (fst demo_state) (snd demo_state) 0 FREAD) with (Some 1000) in H by (vm_compute; reflexivity).
  change (total [5; 7]) with 12 in H. change (SSIZE_MAX <? 12) with false in H.
  destruct H as (st1 & H1 & H2). exists st1. split; [exact H1|].
  destruct (H2 (Xfers 0 0 0 0) 2 EINTR ltac:(lia)) as (xr & xw & n & e & Hr & _ & Hn & _).
  exists xr, e. rewrite Hr, Hn. reflexivity.
Defined.

(** ** Where the code does not do what it means to *)

(** A tamed process that calls ioctl(2) on a descriptor without a file is killed:
    [tame_ioctl_check] returns EBADF for it, but [sys_ioctl] takes any error for a
    refusal. *)
Example tamed_bad_descriptor_kills :
  (fun r => (io_err r, p_sigs (io_proc r))) <$>
    sys_ioctl (W := option Pipe.pst) close_ok a_vnode (fun _ _ => 0) (fun w _ _ => w) (fun _ => None)
      (fst demo_state) (snd demo_state) None (Process true TAME_IOCTL None 0 0 0 []) 77 TIOCGETA 0
      (inl []) 0 [] = Some (EPERM, [psignal SIGKILL]).
Proof. vm_compute. reflexivity. Qed.

End GenericSpec.
