(* ===== verification/Msg.v ===== *)
(** * System V messages (kern/sysv_msg.c): the model

    All of the file.  Queues are at addresses; [msg_queues] is the list of those
    that can be found, in the order of their indices, and a queue that is being
    removed is off the list but stays until no thread uses it.

    A call is cut where it can sleep: in [tsleep], in [malloc] and [pool_get] with
    permission to wait, and where it copies to or from the user process, which may
    fault.  At each of these places a thread stops with its local variables, its
    [pc], and other threads run.

    Messages are values; [msg_id] is a serial number that stands for the address
    of a message, so that a thread that copies a message out can find it taken
    away.  The data of a message are its mbufs, each a list of bytes.  The memory of
    a user is the list of bytes that can be read, or the number that can be
    written, from the given address on.  A [panic], the use of a queue or a message
    that was freed and a write beyond an allocation are the outcome [Panic]. *)

From S2P Require Import Prelude Ipc.
Import Ipc.

Module Msg.

Definition MSGQ_READERS : Z := 0x01.
Definition MSGQ_WRITERS : Z := 0x02.
Definition MSGQ_DYING : Z := 0x04.
Definition MSGSSZ : Z := 8.
Definition MSGSEG : Z := 2048.
Definition MSGMAX : Z := MSGSSZ * MSGSEG.
Definition MSGMNB : Z := 2048.
Definition MSGMNI : Z := 40.
Definition MSGTQL : Z := 40.
Definition EEXIST : Z := 17.
Definition ENOSPC : Z := 28.
Definition ENOTDIR : Z := 20.
Definition EIDRM : Z := 89.
Definition ENOMSG : Z := 90.
Definition KERN_SYSVIPC_MSG_INFO : Z := 1.

(** Sizes of mbufs on amd64: the header of an mbuf has 32 bytes, that of a packet
    72. *)
Definition MSIZE : Z := 256.
Definition MLEN : Z := MSIZE - 32.
Definition MHLEN : Z := MLEN - 72.
Definition MINCLSIZE : Z := MHLEN + MLEN + 1.
Definition MCLSHIFT : Z := 11.
Definition MCLBYTES : Z := Z.shiftl 1 MCLSHIFT.

(** ** Data *)

Record msginfo := Msginfo {
  msgmax : Z;
  msgmni : Z;
  msgmnb : Z;
  msgtql : Z;
  msgssz : Z;
  msgseg : Z;
}.

(** The limits, as [msginit] sets them; nothing changes them. *)
Definition limits : msginfo := Msginfo MSGMAX MSGMNI MSGMNB MSGTQL MSGSSZ MSGSEG.

Record msqid_ds := Msqid {
  msg_perm : ipc_perm;
  msg_cbytes : Z;
  msg_qnum : Z;
  msg_qbytes : Z;
  msg_lspid : Z;
  msg_lrpid : Z;
  msg_stime : Z;
  msg_rtime : Z;
  msg_ctime : Z;
}.

Record msg := MkMsg {
  msg_id : Z;
  msg_type : Z;
  msg_len : Z;
  msg_data : list (list Z);
}.

Record que := Que {
  q_ds : msqid_ds;
  que_ix : Z;
  que_flags : Z;
  que_references : Z;
  que_msgs : list msg;
}.

(** The local variables of [sys_msgsnd] and of [sys_msgrcv]. *)
Record snd := Snd {
  s_que : Z;
  s_sz : Z;
  s_nowait : bool;
  s_pid : Z;
}.

Record rcv := Rcv {
  r_que : Z;
  r_sz : Z;
  r_typ : Z;
  r_nowait : bool;
  r_pid : Z;
}.

(** What a call hands to the user. *)
Inductive output : Type :=
| ONone
| OMsg (type : Z) (bytes : list Z)
| OStat (ds : msqid_ds).

(** Where a thread stops. *)
Inductive pc : Type :=
| GAlloc (cred : ucred) (key flg : Z)   (* malloc of que_create *)
| SSleep (l : snd)                      (* "msgwait" of msgsnd *)
| SAlloc (l : snd)                      (* pool_get of msg_create *)
| SCopy (l : snd)                       (* msg_copyin *)
| RSleep (l : rcv)                      (* "msgwait" of msgrcv *)
| RCopy (l : rcv) (m : msg)             (* msg_copyout *)
| DSleep (a : Z)                        (* "msgqrm" *)
| CSet (a uid : Z)                      (* ds_copyin of IPC_SET *)
| CStat (a : Z)                         (* ds_copyout of IPC_STAT *)
| Ret (error val : Z) (out : output).

Record thread := Thread {
  t_pc : pc;
  t_awake : bool;
}.

Inductive event : Type :=
| Created (a : Z)
| Sent (a : Z) (m : msg)
| Received (a typ : Z) (m : msg)
| Removed (a : Z).

Record mst := Mst {
  ques : gmap Z que;
  msg_queues : list Z;
  num_ques : Z;
  num_msgs : Z;
  sequence : Z;
  maxmsgs : Z;
  serial : Z;
  threads : gmap Z thread;
  log : list event;
}.

(** What a thread gets at the place where it stopped. *)
Inductive input : Type :=
| Wakes (error : Z)                     (* tsleep returns *)
| Memory (a : Z)                        (* malloc and pool_get return *)
| FromUser (type : option Z) (mem : list Z)
                                        (* the message in user memory *)
| ToUser (type_ok : bool) (room : Z)    (* the buffer of the user *)
| DsIn (ds : msqid_ds + Z)              (* ds_copyin *)
| DsOut (error : Z).                    (* ds_copyout *)

(** ** Access to the state *)

Definition set_ques (f : gmap Z que -> gmap Z que) (st : mst) : mst :=
  Mst (f (ques st)) (msg_queues st) (num_ques st) (num_msgs st) (sequence st) (maxmsgs st) (serial st)
    (threads st) (log st).
Definition set_num_msgs (n : Z) (st : mst) : mst :=
  Mst (ques st) (msg_queues st) (num_ques st) n (sequence st) (maxmsgs st) (serial st) (threads st) (log st).
Definition set_maxmsgs (n : Z) (st : mst) : mst :=
  Mst (ques st) (msg_queues st) (num_ques st) (num_msgs st) (sequence st) n (serial st) (threads st) (log st).
Definition set_threads (f : gmap Z thread -> gmap Z thread) (st : mst) : mst :=
  Mst (ques st) (msg_queues st) (num_ques st) (num_msgs st) (sequence st) (maxmsgs st) (serial st)
    (f (threads st)) (log st).
Definition tell (e : event) (st : mst) : mst :=
  Mst (ques st) (msg_queues st) (num_ques st) (num_msgs st) (sequence st) (maxmsgs st) (serial st)
    (threads st) (log st ++ [e]).

Definition deref (st : mst) (a : Z) : outcome que :=
  match ques st !! a with Some q => Ok q | None => Panic end.
Definition store (a : Z) (q : que) (st : mst) : mst := set_ques <[a := q]> st.

Definition set_ds (d : msqid_ds) (q : que) : que :=
  Que d (que_ix q) (que_flags q) (que_references q) (que_msgs q).
Definition set_flags (f : Z) (q : que) : que :=
  Que (q_ds q) (que_ix q) f (que_references q) (que_msgs q).
Definition set_refs (n : Z) (q : que) : que :=
  Que (q_ds q) (que_ix q) (que_flags q) n (que_msgs q).

(** [que->que_flags & f], [|= f] and [&= ~f] *)
Definition flag (q : que) (f : Z) : bool := has (que_flags q) f.
Definition raise (f : Z) (q : que) : que := set_flags (que_flags q .| f) q.
Definition lower (f : Z) (q : que) : que := set_flags (clear (que_flags q) f) q.

(** The channels: a queue, or its count of references. *)
Inductive channel : Type :=
| OnQue (a : Z)
| OnRefs (a : Z).
#[global] Instance channel_eq_dec : EqDecision channel.
Proof. solve_decision. Defined.

Definition chan (l : pc) : option channel :=
  match l with
  | SSleep l => Some (OnQue (s_que l))
  | RSleep l => Some (OnQue (r_que l))
  | DSleep a => Some (OnRefs a)
  | _ => None
  end.

Definition wake (c : channel) (t : thread) : thread :=
  if bool_decide (chan (t_pc t) = Some c) then Thread (t_pc t) true else t.
Definition wakeup (c : channel) (st : mst) : mst := set_threads (fmap (wake c)) st.

Definition QREF (a : Z) (st : mst) : outcome mst :=
  q ← deref st a; Ok (store a (set_refs (que_references q + 1) q) st).

(** One thread at most sleeps for the count of a queue: the one that removes it. *)
Definition QRELE (a : Z) (st : mst) : outcome mst :=
  q ← deref st a;
  let q := set_refs (que_references q - 1) q in
  let st := store a q st in
  Ok (if (que_references q =? 0) && flag q MSGQ_DYING then wakeup (OnRefs a) st else st).

(** ** Queues *)

(** The first queue of the list with a property. *)
Fixpoint find_que (st : mst) (f : que -> bool) (l : list Z) : outcome (option (Z * que)) :=
  match l with
  | [] => Ok None
  | a :: l' => q ← deref st a; if f q then Ok (Some (a, q)) else find_que st f l'
  end.

Definition not_dying (r : option (Z * que)) : option Z :=
  match r with Some (a, q) => if flag q MSGQ_DYING then None else Some a | None => None end.

Definition que_lookup (st : mst) (id : Z) : outcome (option Z) :=
  r ← find_que st (fun q => que_ix q =? IPCID_TO_IX id) (msg_queues st); Ok (not_dying r).

Definition que_key_lookup (st : mst) (k : Z) : outcome (option Z) :=
  if k =? IPC_PRIVATE then Ok None
  else r ← find_que st (fun q => key (msg_perm (q_ds q)) =? k) (msg_queues st); Ok (not_dying r).

(** The search for an index: the index, and the queues in front of and behind the
    place of the new one. *)
Fixpoint next_ix (st : mst) (nextix : Z) (l : list Z) : outcome (Z * list Z * list Z) :=
  match l with
  | [] => Ok (nextix, [], [])
  | a :: l' =>
      q ← deref st a;
      if nextix <? que_ix q then Ok (nextix, [], l)
      else r ← next_ix st (que_ix q + 1) l';
           let '(ix, before, behind) := r in Ok (ix, a :: before, behind)
  end.

(** [que_create] after its [malloc], which returned [a]. *)
Definition que_create (st : mst) (now a : Z) (cred : ucred) (k mode : Z) : outcome (mst * option Z) :=
  found ← que_key_lookup st k;
  match found with
  | Some _ => Ok (st, None)
  | None =>
      r ← next_ix st 1 (msg_queues st);
      let '(ix, before, behind) := r in
      let sequence := s32 (sequence st + 1) in
      let perm := IpcPerm (cr_uid cred) (cr_gid cred) (cr_uid cred) (cr_gid cred) (mode .& 0x1ff)
                    (sequence .& 0x7fff) k in
      let q := Que (Msqid perm 0 0 (msgmnb limits) 0 0 0 0 now) ix 0 0 [] in
      Ok (Mst (<[a := q]> (ques st)) (before ++ a :: behind) (num_ques st + 1) (num_msgs st) sequence
            (maxmsgs st) (serial st) (threads st) (log st ++ [Created a]), Some a)
  end.

(** [msg_free] of [n] messages. *)
Definition msg_free (n : Z) (st : mst) : mst := set_num_msgs (num_msgs st - n) st.

Definition que_free (st : mst) (a : Z) : outcome mst :=
  q ← deref st a;
  if 0 <? que_references q then Panic
  else
    let st := msg_free (Z.of_nat (length (que_msgs q))) st in
    Ok (Mst (delete a (ques st)) (msg_queues st) (num_ques st - 1) (num_msgs st) (sequence st) (maxmsgs st)
          (serial st) (threads st) (log st ++ [Removed a])).

Fixpoint wake_writers (l : list Z) (st : mst) : outcome mst :=
  match l with
  | [] => Ok st
  | a :: l' =>
      q ← deref st a;
      wake_writers l' (if flag q MSGQ_WRITERS then wakeup (OnQue a) (store a (lower MSGQ_WRITERS q) st)
                       else st)
  end.

Definition que_wakewriters (st : mst) : outcome mst := wake_writers (msg_queues st) st.

(** ** Messages *)

Definition msg_matches (msgtyp : Z) (m : msg) : bool :=
  (msgtyp =? 0) || (msgtyp =? msg_type m) || ((msgtyp <? 0) && (s32 (- msgtyp) <=? msg_type m)).

(** The parameter is an [int]. *)
Definition msg_lookup (q : que) (msgtyp : Z) : option msg :=
  List.find (msg_matches (s32 msgtyp)) (que_msgs q).

Definition msg_enqueue (st : mst) (now a pid : Z) (type len : Z) (data : list (list Z)) : outcome mst :=
  q ← deref st a;
  let d := q_ds q in
  let m := MkMsg (serial st) type len data in
  let d := Msqid (msg_perm d) (u64 (msg_cbytes d + len)) (u64 (msg_qnum d + 1)) (msg_qbytes d) pid
             (msg_lrpid d) now (msg_rtime d) (msg_ctime d) in
  let q := Que d (que_ix q) (que_flags q) (que_references q) (que_msgs q ++ [m]) in
  Ok (Mst (<[a := q]> (ques st)) (msg_queues st) (num_ques st) (num_msgs st) (sequence st) (maxmsgs st)
        (serial st + 1) (threads st) (log st ++ [Sent a m])).

Definition is_msg (m x : msg) : bool := msg_id x =? msg_id m.

(** A message that is not on the queue was freed. *)
Definition msg_dequeue (st : mst) (now a pid typ : Z) (m : msg) : outcome mst :=
  q ← deref st a;
  if existsb (is_msg m) (que_msgs q) then
    let d := q_ds q in
    let d := Msqid (msg_perm d) (u64 (msg_cbytes d - msg_len m)) (u64 (msg_qnum d - 1)) (msg_qbytes d)
               (msg_lspid d) pid (msg_stime d) now (msg_ctime d) in
    let q := Que d (que_ix q) (que_flags q) (que_references q)
               (List.filter (fun x => negb (is_msg m x)) (que_msgs q)) in
    Ok (tell (Received a typ m) (store a q st))
  else Panic.

(** The lengths of the mbufs that [msg_copyin] allocates; [have] is [msg_len]. *)
Fixpoint mbuf_sizes (fuel : nat) (len have : Z) : list Z :=
  match fuel with
  | O => []
  | S fuel' =>
      if have <? len then
        let xfer := if MINCLSIZE <=? len then Z.min (u32 len) MCLBYTES else Z.min (u32 len) MLEN in
        xfer :: mbuf_sizes fuel' len (have + xfer)
      else []
  end.

(** The bytes of the mbufs, one after the other from user memory. *)
Fixpoint copy_mbufs (sizes : list Z) (mem : list Z) : list (list Z) + Z :=
  match sizes with
  | [] => inl []
  | n :: sizes' =>
      if Z.of_nat (length mem) <? n then inr EFAULT
      else match copy_mbufs sizes' (drop (Z.to_nat n) mem) with
           | inr error => inr error
           | inl data => inl (take (Z.to_nat n) mem :: data)
           end
  end.

Definition sum (l : list Z) : Z := foldr Z.add 0 l.

(** Type, length and data of the message, or the error. *)
Definition msg_copyin (type : option Z) (mem : list Z) (len : Z) : (Z * Z * list (list Z)) + Z :=
  match type with
  | None => inr EFAULT
  | Some type =>
      if type <? 0 then inr EINVAL
      else
        let sizes := mbuf_sizes (Z.to_nat len) len 0 in
        match copy_mbufs sizes mem with
        | inr error => inr error
        | inl data => inl (type, sum sizes, data)
        end
  end.

(** The mbufs to user memory with room for [room] bytes; with the bytes written
    the error. *)
Fixpoint put_mbufs (data : list (list Z)) (room : Z) : list Z * Z :=
  match data with
  | [] => ([], 0)
  | b :: data' =>
      if room <? Z.of_nat (length b) then ([], EFAULT)
      else let '(bytes, error) := put_mbufs data' (room - Z.of_nat (length b)) in (b ++ bytes, error)
  end.

(** The error, the new [*len] and what was written. *)
Definition msg_copyout (m : msg) (len : Z) (type_ok : bool) (room : Z) : outcome (Z * Z * output) :=
  if MSGMAX <? msg_len m then Panic
  else
    let xfer := Z.min (u32 len) (u32 (msg_len m)) in
    if negb type_ok then Ok (EFAULT, len, ONone)
    else let '(bytes, error) := put_mbufs (msg_data m) room in Ok (error, xfer, OMsg (msg_type m) bytes).

(** ** msgget(2) *)

Definition sys_msgget (st : mst) (cred : ucred) (k msgflg : Z) : outcome (mst * pc) :=
  found ← (if k =? IPC_PRIVATE then Ok None else que_key_lookup st k);
  match found with
  | Some a =>
      q ← deref st a;
      if has msgflg IPC_CREAT && has msgflg IPC_EXCL then Ok (st, Ret EEXIST 0 ONone)
      else
        let error := ipcperm cred (msg_perm (q_ds q)) (msgflg .& 0x1c0) in
        Ok (st, Ret error (if error =? 0 then IXSEQ_TO_IPCID (que_ix q) (msg_perm (q_ds q)) else 0) ONone)
  | None =>
      if negb (k =? IPC_PRIVATE) && negb (has msgflg IPC_CREAT) then Ok (st, Ret ENOENT 0 ONone)
      else if msgmni limits <=? num_ques st then Ok (st, Ret ENOSPC 0 ONone)
      else Ok (st, GAlloc cred k msgflg)
  end.

Definition msgget_alloc (st : mst) (now a : Z) (cred : ucred) (k msgflg : Z) : outcome (mst * pc) :=
  r ← que_create st now a cred k (msgflg .& 0x1ff);
  match r with
  | (st, None) => sys_msgget st cred k msgflg
  | (st, Some a) =>
      q ← deref st a;
      Ok (st, Ret 0 (IXSEQ_TO_IPCID (que_ix q) (msg_perm (q_ds q))) ONone)
  end.

(** ** msgsnd(2) *)

Definition MSGQ_SPACE (q : que) : Z := u64 (msg_qbytes (q_ds q) - msg_cbytes (q_ds q)).

(** The end of a call that holds a queue. *)
Definition leave (st : mst) (a error val : Z) (out : output) : outcome (mst * pc) :=
  st ← QRELE a st; Ok (st, Ret error val out).

Definition send_loop (st : mst) (l : snd) : outcome (mst * pc) :=
  q ← deref st (s_que l);
  if (MSGQ_SPACE q <? s_sz l) || (msgtql limits <=? num_msgs st) then
    if s_nowait l then leave st (s_que l) EAGAIN 0 ONone
    else
      let st := if msgtql limits <=? num_msgs st then set_maxmsgs 1 st else st in
      Ok (store (s_que l) (raise MSGQ_WRITERS q) st, SSleep l)
  else Ok (st, SAlloc l).

Definition sys_msgsnd (st : mst) (pid : Z) (cred : ucred) (msqid msgsz msgflg : Z) : outcome (mst * pc) :=
  found ← que_lookup st msqid;
  match found with
  | None => Ok (st, Ret EINVAL 0 ONone)
  | Some a =>
      q ← deref st a;
      if (msg_qbytes (q_ds q) <? msgsz) || (msgmax limits <? msgsz) then Ok (st, Ret EINVAL 0 ONone)
      else
        let error := ipcperm cred (msg_perm (q_ds q)) IPC_W in
        if negb (error =? 0) then Ok (st, Ret error 0 ONone)
        else st ← QREF a st; send_loop st (Snd a msgsz (has msgflg IPC_NOWAIT) pid)
  end.

Definition send_woken (st : mst) (l : snd) (error : Z) : outcome (mst * pc) :=
  if negb (error =? 0) then leave st (s_que l) error 0 ONone
  else
    q ← deref st (s_que l);
    if flag q MSGQ_DYING then leave st (s_que l) EIDRM 0 ONone else send_loop st l.

(** [msg_create] after its [pool_get]. *)
Definition send_create (st : mst) (l : snd) : outcome (mst * pc) :=
  q ← deref st (s_que l);
  if flag q MSGQ_DYING then leave (wakeup (OnQue (s_que l)) st) (s_que l) EIDRM 0 ONone
  else Ok (set_num_msgs (num_msgs st + 1) st, SCopy l).

Definition send_copied (st : mst) (now : Z) (l : snd) (type : option Z) (mem : list Z)
    : outcome (mst * pc) :=
  let a := s_que l in
  match msg_copyin type mem (s_sz l) with
  | inr error => leave (msg_free 1 st) a error 0 ONone
  | inl (type, len, data) =>
      st ← msg_enqueue st now a (s_pid l) type len data;
      q ← deref st a;
      let st := if flag q MSGQ_READERS then wakeup (OnQue a) (store a (lower MSGQ_READERS q) st) else st in
      q ← deref st a;
      if flag q MSGQ_DYING then leave (wakeup (OnQue a) st) a EIDRM 0 ONone
      else leave st a 0 0 ONone
  end.

(** ** msgrcv(2) *)

Definition recv_loop (st : mst) (l : rcv) : outcome (mst * pc) :=
  q ← deref st (r_que l);
  match msg_lookup q (r_typ l) with
  | Some m => Ok (st, RCopy l m)
  | None =>
      if r_nowait l then leave st (r_que l) ENOMSG 0 ONone
      else Ok (store (r_que l) (raise MSGQ_READERS q) st, RSleep l)
  end.

Definition sys_msgrcv (st : mst) (pid : Z) (cred : ucred) (msqid msgsz msgtyp msgflg : Z)
    : outcome (mst * pc) :=
  found ← que_lookup st msqid;
  match found with
  | None => Ok (st, Ret EINVAL 0 ONone)
  | Some a =>
      q ← deref st a;
      let error := ipcperm cred (msg_perm (q_ds q)) IPC_R in
      if negb (error =? 0) then Ok (st, Ret error 0 ONone)
      else st ← QREF a st; recv_loop st (Rcv a msgsz msgtyp (has msgflg IPC_NOWAIT) pid)
  end.

Definition recv_woken (st : mst) (l : rcv) (error : Z) : outcome (mst * pc) :=
  if negb (error =? 0) then leave st (r_que l) error 0 ONone
  else
    q ← deref st (r_que l);
    if flag q MSGQ_DYING then leave st (r_que l) EIDRM 0 ONone else recv_loop st l.

(** After [msg_copyout] of [m], which must not have been freed meanwhile. *)
Definition recv_copied (st : mst) (now : Z) (l : rcv) (m : msg) (type_ok : bool) (room : Z)
    : outcome (mst * pc) :=
  let a := r_que l in
  q ← deref st a;
  if negb (existsb (is_msg m) (que_msgs q)) then Panic
  else
    r ← msg_copyout m (r_sz l) type_ok room;
    let '(error, msgsz, out) := r in
    if negb (error =? 0) then leave st a error 0 out
    else
      st ← msg_dequeue st now a (r_pid l) (s32 (r_typ l)) m;
      let st := msg_free 1 st in
      q ← deref st a;
      let st := if flag q MSGQ_WRITERS then wakeup (OnQue a) (store a (lower MSGQ_WRITERS q) st) else st in
      st ← (if negb (maxmsgs st =? 0) then que_wakewriters (set_maxmsgs 0 st) else Ok st);
      leave st a 0 msgsz out.

(** ** msgctl(2) *)

Definition msgctl1 (st : mst) (cred : ucred) (msqid cmd : Z) : outcome (mst * pc) :=
  found ← que_lookup st msqid;
  match found with
  | None => Ok (st, Ret EINVAL 0 ONone)
  | Some a =>
      st ← QREF a st;
      q ← deref st a;
      let perm := msg_perm (q_ds q) in
      if cmd =? IPC_RMID then
        let error := ipcperm cred perm IPC_M in
        if negb (error =? 0) then leave st a error 0 ONone
        else
          let q := set_refs (que_references q - 1) (raise MSGQ_DYING q) in
          let st := Mst (<[a := q]> (ques st)) (List.filter (fun x => negb (x =? a)) (msg_queues st))
                      (num_ques st) (num_msgs st) (sequence st) (maxmsgs st) (serial st) (threads st)
                      (log st) in
          if 0 <? que_references q then Ok (wakeup (OnQue a) st, DSleep a)
          else st ← que_free st a; Ok (st, Ret 0 0 ONone)
      else if cmd =? IPC_SET then
        let error := ipcperm cred perm IPC_M in
        if negb (error =? 0) then leave st a error 0 ONone else Ok (st, CSet a (cr_uid cred))
      else if cmd =? IPC_STAT then
        let error := ipcperm cred perm IPC_R in
        if negb (error =? 0) then leave st a error 0 ONone else Ok (st, CStat a)
      else leave st a EINVAL 0 ONone
  end.

Definition remove_woken (st : mst) (a : Z) : outcome (mst * pc) :=
  st ← que_free st a; Ok (st, Ret 0 0 ONone).

(** [IPC_SET] after its [ds_copyin]. *)
Definition set_copied (st : mst) (now a cr_uid : Z) (tmp : msqid_ds + Z) : outcome (mst * pc) :=
  match tmp with
  | inr error => leave st a error 0 ONone
  | inl tmp =>
      q ← deref st a;
      let d := q_ds q in
      if (msg_qbytes d <? msg_qbytes tmp) && negb (cr_uid =? 0) then leave st a EPERM 0 ONone
      else
        let qbytes := if msgmnb limits <? msg_qbytes tmp then msgmnb limits else msg_qbytes tmp in
        if qbytes =? 0 then leave st a EINVAL 0 ONone
        else
          let p := msg_perm d in
          let perm := IpcPerm (cuid p) (cgid p) (uid (msg_perm tmp)) (gid (msg_perm tmp))
                        (clear (mode p) 0x1ff .| (mode (msg_perm tmp) .& 0x1ff)) (seq p) (key p) in
          let d := Msqid perm (msg_cbytes d) (msg_qnum d) qbytes (msg_lspid d) (msg_lrpid d) (msg_stime d)
                     (msg_rtime d) now in
          leave (store a (set_ds d q) st) a 0 0 ONone
  end.

Definition stat_copied (st : mst) (a error : Z) : outcome (mst * pc) :=
  q ← deref st a;
  leave st a error 0 (if error =? 0 then OStat (q_ds q) else ONone).

(** ** sysctl *)

(** [sizeof(msginfo)] and [sizeof(struct msqid_ds)] on amd64. *)
Definition SIZEOF_MSGINFO : Z := 24.
Definition SIZEOF_MSQID_DS : Z := 160.

(** The copies into [msgids]; one beyond its end is the outcome [Panic]. *)
Fixpoint fill_ids (st : mst) (l : list Z) (ids : gmap Z msqid_ds) : outcome (gmap Z msqid_ds) :=
  match l with
  | [] => Ok ids
  | a :: l' =>
      q ← deref st a;
      if msgmni limits <=? que_ix q then Panic else fill_ids st l' (<[que_ix q := q_ds q]> ids)
  end.

Inductive sysctl_out : Type :=
| SysError (error : Z)
| SysSize (n : Z)
| SysInfo (i : msginfo)
| SysTable (i : msginfo) (ids : gmap Z msqid_ds).

(** [sizep] is [None] when the user asks for the size; [cperr] is the error of
    [copyout]. *)
Definition sysctl_sysvmsg (st : mst) (name namelen : Z) (sizep : option Z) (cperr : Z)
    : outcome sysctl_out :=
  if negb (name =? KERN_SYSVIPC_MSG_INFO) then Ok (SysError EINVAL)
  else if negb (namelen =? 1) then Ok (SysError ENOTDIR)
  else
    let infolen := SIZEOF_MSGINFO + msgmni limits * SIZEOF_MSQID_DS in
    match sizep with
    | None => Ok (SysSize infolen)
    | Some size =>
        if size =? SIZEOF_MSGINFO then Ok (if cperr =? 0 then SysInfo limits else SysError cperr)
        else if size <? infolen then Ok (SysError ENOMEM)
        else
          ids ← fill_ids st (msg_queues st) ∅;
          Ok (if cperr =? 0 then SysTable limits ids else SysError cperr)
    end.

(** ** Threads *)

(** A thread goes on where it stopped; [None] when it cannot. *)
Definition resume (st : mst) (now : Z) (t : thread) (x : input) : option (outcome (mst * pc)) :=
  match t_pc t, x with
  | GAlloc cred k flg, Memory a => Some (msgget_alloc st now a cred k flg)
  | SSleep l, Wakes error =>
      if t_awake t || negb (error =? 0) then Some (send_woken st l error) else None
  | SAlloc l, Memory _ => Some (send_create st l)
  | SCopy l, FromUser type mem => Some (send_copied st now l type mem)
  | RSleep l, Wakes error =>
      if t_awake t || negb (error =? 0) then Some (recv_woken st l error) else None
  | RCopy l m, ToUser type_ok room => Some (recv_copied st now l m type_ok room)
  | DSleep a, Wakes error => if t_awake t && (error =? 0) then Some (remove_woken st a) else None
  | CSet a uid, DsIn ds => Some (set_copied st now a uid ds)
  | CStat a, DsOut error => Some (stat_copied st a error)
  | _, _ => None
  end.

Definition msginit : mst := Mst ∅ [] 0 0 1 0 0 ∅ [].

Inductive call : Type :=
| CGet (cred : ucred) (k msgflg : Z)
| CSnd (pid : Z) (cred : ucred) (msqid msgsz msgflg : Z)
| CRcv (pid : Z) (cred : ucred) (msqid msgsz msgtyp msgflg : Z)
| CCtl (cred : ucred) (msqid cmd : Z)
| CResume (x : input).

(** A thread comes to a stop, or its call returns. *)
Definition land (tid : Z) (r : outcome (mst * pc)) : outcome (mst * pc) :=
  r ← r;
  let '(st, l) := r in
  match l with
  | Ret _ _ _ => Ok (st, l)
  | _ => Ok (set_threads <[tid := Thread l false]> st, l)
  end.

(** A call by the thread [tid], or its next piece; [None] when it cannot be. *)
Definition exec (st : mst) (now tid : Z) (c : call) : option (outcome (mst * pc)) :=
  match threads st !! tid, c with
  | Some t, CResume x => r ← resume (set_threads (delete tid) st) now t x; Some (land tid r)
  | None, CGet cred k flg => Some (land tid (sys_msgget st cred k flg))
  | None, CSnd pid cred id sz flg => Some (land tid (sys_msgsnd st pid cred id sz flg))
  | None, CRcv pid cred id sz typ flg => Some (land tid (sys_msgrcv st pid cred id sz typ flg))
  | None, CCtl cred id cmd => Some (land tid (msgctl1 st cred id cmd))
  | _, _ => None
  end.

End Msg.
