(* ===== verification/MsgInv.v ===== *)
(** * System V messages: the invariant

    Each place where a thread stops has its part in the state: whether the thread
    counts in the references of a queue, whether it is the one that removes it,
    whether it has a message that is counted and not yet on a queue, and which
    message it is about to take.  The invariant relates the queues to the parts of
    all threads, among them the one that runs, and the log of what was sent and
    received to the contents of the queues.

    A thread that sleeps and was not woken is covered by a flag of its queue, which
    is alive, and a receiver has nothing to receive.  That a sender has no room is
    true only of runs that keep clear of some defects of the code: [calm] says that
    the run is one of them. *)

From Stdlib Require Import Sorted.
From S2P Require Import Prelude Ipc Msg.
Import Ipc Msg.

Module MsgInv.

(** ** Sums *)

Section sums.
Context {A : Type} (f : A -> Z).

Lemma msum_nonneg m : (forall x, 0 <= f x) -> 0 <= msum f m.
Proof.
  intros Hf. induction m as [|a x m Hn IH] using map_ind; [done|].
  rewrite msum_insert by done. pose proof (Hf x). lia.
Qed.

Lemma msum_le m a x : (forall x, 0 <= f x) -> m !! a = Some x -> f x <= msum f m.
Proof.
  intros Hf Hm. pose proof (msum_delete f m a x Hm). pose proof (msum_nonneg (delete a m) Hf). lia.
Qed.

Lemma msum_pos m : 0 < msum f m -> exists a x, m !! a = Some x /\ 0 < f x.
Proof.
  induction m as [|a x m Hn IH] using map_ind; [done|]. rewrite msum_insert by done. intros Hp.
  destruct (Z.lt_ge_cases 0 (f x)) as [Hx|Hx].
  - exists a, x. by rewrite lookup_insert_eq.
  - destruct IH as (b & y & Hb & Hy); [lia|]. exists b, y. split; [|done].
    rewrite lookup_insert_ne; [done|]. by intros ->; rewrite Hb in Hn.
Qed.

End sums.

Lemma msum_fmap {A} (f : A -> Z) (g : A -> A) m :
  (forall x, f (g x) = f x) -> msum f (g <$> m) = msum f m.
Proof.
  intros Hg. induction m as [|a x m Hn IH] using map_ind; [by rewrite fmap_empty|].
  rewrite fmap_insert, !msum_insert by (rewrite ?lookup_fmap, ?Hn; done). by rewrite Hg, IH.
Qed.

(** ** Flags of a queue *)

Lemma raise_has f g q : has f g = true -> flag (raise f q) g = true.
Proof. intros H. unfold flag. simpl. rewrite flag_lor, H. apply orb_true_r. Qed.
Lemma raise_keeps f g q : has f g = false -> flag (raise f q) g = flag q g.
Proof. intros H. unfold flag. simpl. rewrite flag_lor, H. apply orb_false_r. Qed.
Lemma lower_keeps f g q : clear g f = g -> flag (lower f q) g = flag q g.
Proof. intros H. unfold flag. simpl. by rewrite flag_clear, H. Qed.

(** ** The log *)

#[global] Instance msg_eq_dec : EqDecision msg.
Proof. solve_decision. Defined.

(** The queues as lists of messages: what the calls mean. *)
Definition contents (st : mst) : gmap Z (list msg) := que_msgs <$> ques st.

(** The messages that msgrcv(2) may take with a type: any with 0, those of the type
    with a positive one.  Of a negative type no more is said than that the message
    it takes, [m], is one of the queue. *)
Definition asks (typ : Z) (m x : msg) : bool :=
  if typ <? 0 then bool_decide (x = m) else (typ =? 0) || (msg_type x =? typ).

Fixpoint take_first (f : msg -> bool) (l : list msg) : option (msg * list msg) :=
  match l with
  | [] => None
  | m :: l' =>
      if f m then Some (m, l')
      else '(x, r) ← take_first f l'; Some (x, m :: r)
  end.

Definition spec_step (e : event) (s : gmap Z (list msg)) : option (gmap Z (list msg)) :=
  match e with
  | Created a => match s !! a with None => Some (<[a := []]> s) | Some _ => None end
  | Sent a m => l ← s !! a; Some (<[a := l ++ [m]]> s)
  | Received a typ m =>
      l ← s !! a; '(x, r) ← take_first (asks typ m) l; if decide (x = m) then Some (<[a := r]> s) else None
  | Removed a => _ ← s !! a; Some (delete a s)
  end.

Definition spec_run (l : list event) : option (gmap Z (list msg)) :=
  foldl (fun s e => s ← s; spec_step e s) (Some ∅) l.

Lemma spec_run_app l e s : spec_run l = Some s -> spec_run (l ++ [e]) = spec_step e s.
Proof. intros H. unfold spec_run in *. by rewrite foldl_app, H. Qed.

(** ** Lists of messages *)

Definition lens (l : list msg) : Z := foldr (fun m n => msg_len m + n) 0 l.

Lemma lens_app l l' : lens (l ++ l') = lens l + lens l'.
Proof. induction l as [|m l IH]; simpl; [done|]. unfold lens in *. simpl. lia. Qed.

Definition before (x y : msg) : Prop := msg_id x < msg_id y.

(** The message that a search finds, and the list without it. *)
Lemma find_split (f : msg -> bool) l m :
  List.find f l = Some m ->
  exists l1 l2, l = l1 ++ m :: l2 /\ f m = true /\ Forall (fun x => f x = false) l1.
Proof.
  induction l as [|x l IH]; simpl; [done|]. destruct (f x) eqn:E.
  - intros [= ->]. by exists [], l.
  - intros H. destruct (IH H) as (l1 & l2 & -> & Hm & Hl). exists (x :: l1), l2. split; [done|]. split; [done|].
    by constructor.
Qed.

Lemma find_mid (f : msg -> bool) l1 m l2 :
  f m = true -> Forall (fun x => f x = false) l1 -> List.find f (l1 ++ m :: l2) = Some m.
Proof. intros Hm. induction 1 as [|x l1 Hx _ IH]; simpl; [by rewrite Hm|]. by rewrite Hx. Qed.

Lemma find_none (f : msg -> bool) l : List.find f l = None <-> Forall (fun x => f x = false) l.
Proof.
  induction l as [|x l IH]; simpl; [by split|]. rewrite Forall_cons, <- IH. destruct (f x); [|by split; [|intros []]].
  split; [done|by intros []].
Qed.

Lemma sorted_app (l1 l2 : list msg) m :
  StronglySorted before (l1 ++ m :: l2) ->
  Forall (fun x => before x m) l1 /\ Forall (before m) l2 /\ StronglySorted before (l1 ++ l2).
Proof.
  induction l1 as [|x l1 IH]; simpl; intros H; apply StronglySorted_inv in H as [H1 H2].
  - by split_and!.
  - destruct (IH H1) as (H3 & H4 & H5). apply Forall_app in H2 as [H6 H7]. apply Forall_cons in H7 as [H7 H8].
    split_and!; [by constructor|done|]. constructor; [done|]. by apply Forall_app.
Qed.

Lemma sorted_snoc (l : list msg) m :
  StronglySorted before l -> Forall (fun x => before x m) l -> StronglySorted before (l ++ [m]).
Proof.
  induction l as [|x l IH]; simpl; intros H1 H2; [repeat constructor|].
  apply StronglySorted_inv in H1 as [H1 H3]. apply Forall_cons in H2 as [H2 H4].
  constructor; [by apply IH|]. apply Forall_app. split; [done|]. by repeat constructor.
Qed.

(** Taking a message off by its number. *)
Lemma remove_mid l1 m l2 :
  StronglySorted before (l1 ++ m :: l2) ->
  List.filter (fun x => negb (is_msg m x)) (l1 ++ m :: l2) = l1 ++ l2.
Proof.
  intros H. destruct (sorted_app l1 l2 m H) as (H1 & H2 & _). unfold before, is_msg in *.
  assert (Hid : forall l, Forall (fun x => msg_id x <> msg_id m) l ->
    List.filter (fun x => negb (msg_id x =? msg_id m)) l = l).
  { induction 1 as [|x l Hx _ IH]; simpl; [done|]. rewrite (proj2 (Z.eqb_neq _ _) Hx). simpl. by rewrite IH. }
  rewrite List.filter_app. simpl. rewrite Z.eqb_refl. simpl. rewrite !Hid; [done| |].
  - eapply Forall_impl; [exact H2|]. simpl. lia.
  - eapply Forall_impl; [exact H1|]. simpl. lia.
Qed.

Lemma take_first_mid (f : msg -> bool) l1 m l2 :
  f m = true -> Forall (fun x => f x = false) l1 -> take_first f (l1 ++ m :: l2) = Some (m, l1 ++ l2).
Proof. intros Hm. induction 1 as [|x l1 Hx _ IH]; simpl; [by rewrite Hm|]. by rewrite Hx, IH. Qed.

(** What [msg_lookup] finds is what the type asks for. *)
Lemma take_first_asked typ l1 m l2 :
  StronglySorted before (l1 ++ m :: l2) ->
  msg_matches typ m = true -> Forall (fun x => msg_matches typ x = false) l1 ->
  take_first (asks typ m) (l1 ++ m :: l2) = Some (m, l1 ++ l2).
Proof.
  intros Hs Hm H1. unfold asks, msg_matches in *. destruct (Z.ltb_spec typ 0) as [Hn|Hn].
  - apply take_first_mid; [by rewrite bool_decide_true|]. destruct (sorted_app _ _ _ Hs) as (Hb & _).
    eapply Forall_impl; [exact Hb|]. intros x Hx. apply bool_decide_false. intros ->. unfold before in Hx. lia.
  - cbn [andb] in *. apply take_first_mid; [by rewrite orb_false_r in Hm; rewrite (Z.eqb_sym _ typ)|].
    eapply Forall_impl; [exact H1|]. intros x. cbn. by rewrite orb_false_r, (Z.eqb_sym typ (msg_type x)).
Qed.

(** Who looks for a message still finds it when another one goes. *)
Lemma find_other (f : msg -> bool) l1 x l2 m :
  List.find f (l1 ++ x :: l2) = Some m -> m <> x -> List.find f (l1 ++ l2) = Some m.
Proof.
  induction l1 as [|y l1 IH]; simpl; [destruct (f x); [by intros [= ->]|done]|].
  destruct (f y); [done|]. apply IH.
Qed.

Lemma find_snoc (f : msg -> bool) l x m : List.find f l = Some m -> List.find f (l ++ [x]) = Some m.
Proof. induction l as [|y l IH]; simpl; [done|]. by destruct (f y). Qed.

(** ** Parts of threads *)

Definition holds (a : Z) (l : pc) : bool :=
  match l with
  | SSleep l | SAlloc l | SCopy l => s_que l =? a
  | RSleep l | RCopy l _ => r_que l =? a
  | CSet b _ | CStat b => b =? a
  | _ => false
  end.

Definition removes (a : Z) (l : pc) : bool := match l with DSleep b => b =? a | _ => false end.
Definition fills (l : pc) : bool := match l with SCopy _ => true | _ => false end.
Definition picks (a i : Z) (l : pc) : bool :=
  match l with RCopy l m => (r_que l =? a) && (msg_id m =? i) | _ => false end.

(** How many threads have a part, with the one that runs at [l]. *)
Definition one (P : pc -> bool) (l : pc) : Z := if P l then 1 else 0.
Definition tot (st : mst) (l : pc) (P : pc -> bool) : Z :=
  msum (fun t => one P (t_pc t)) (threads st) + one P l.

Lemma one_nonneg P l : 0 <= one P l.
Proof. unfold one. by destruct (P l). Qed.

Lemma tot_ge st l P : one P l <= tot st l P.
Proof.
  unfold tot. pose proof (msum_nonneg (fun t => one P (t_pc t)) (threads st) (fun t => one_nonneg P (t_pc t))). lia.
Qed.

Lemma tot_nonneg st l P : 0 <= tot st l P.
Proof. pose proof (tot_ge st l P). pose proof (one_nonneg P l). lia. Qed.

Lemma tot_thread st l P tid t :
  threads st !! tid = Some t -> one P (t_pc t) + one P l <= tot st l P.
Proof.
  intros Ht. unfold tot.
  pose proof (msum_le (fun t => one P (t_pc t)) (threads st) tid t (fun t => one_nonneg P (t_pc t)) Ht). simpl in *. lia.
Qed.

(** A thread that is in no call. *)
Definition idle : pc := Ret 0 0 ONone.

(** ** What holds of a queue, of a place and of a sleeper *)

Record msg_ok (m : msg) : Prop := MsgOk {
  mo_type : 0 <= msg_type m;
  mo_len : msg_len m = Z.of_nat (length (concat (msg_data m)));
  mo_max : msg_len m <= MSGMNB;
}.

Section inv.
Variable (calm : Prop).

Record que_ok (n : Z) (q : que) : Prop := QueOk {
  qo_cbytes : msg_cbytes (q_ds q) = u64 (lens (que_msgs q));
  qo_qnum : msg_qnum (q_ds q) = u64 (Z.of_nat (length (que_msgs q)));
  qo_msgs : Forall msg_ok (que_msgs q);
  qo_sorted : StronglySorted before (que_msgs q);
  qo_serial : Forall (fun m => msg_id m < n) (que_msgs q);
  qo_qbytes : 1 <= msg_qbytes (q_ds q) <= MSGMNB;
  qo_ix : 1 <= que_ix q;
  qo_seq : inu 15 (seq (msg_perm (q_ds q)));
  qo_room : calm -> lens (que_msgs q) <= msg_qbytes (q_ds q);
}.

Definition pc_ok (st : mst) (l : pc) : Prop :=
  match l with
  | SSleep l | SAlloc l | SCopy l => 0 <= s_sz l <= MSGMNB
  | RCopy l m => exists q, ques st !! r_que l = Some q /\ msg_lookup q (r_typ l) = Some m
  | _ => True
  end.

(** Between taking a message and waking the senders the count is short by one. *)
Definition slack (r : pc) : Z := match r with RSleep _ => 1 | _ => 0 end.

(** There is no room for the sender. *)
Definition blocked (st : mst) (r : pc) (q : que) (l : snd) : Prop :=
  msg_qbytes (q_ds q) - lens (que_msgs q) < s_sz l \/
  (msgtql limits <= num_msgs st + slack r /\ maxmsgs st <> 0).

(** [l] is the place of the sleeper, [r] that of the thread that runs. *)
Definition asleep_ok (st : mst) (r l : pc) : Prop :=
  match l with
  | SSleep l => exists q, ques st !! s_que l = Some q /\ flag q MSGQ_DYING = false /\
                  flag q MSGQ_WRITERS = true /\ (calm -> blocked st r q l)
  | RSleep l => exists q, ques st !! r_que l = Some q /\ flag q MSGQ_DYING = false /\
                  flag q MSGQ_READERS = true /\ msg_lookup q (r_typ l) = None
  | DSleep a => 0 < tot st r (holds a)
  | _ => True
  end.

Definition ix_of (st : mst) (a : Z) : Z := match ques st !! a with Some q => que_ix q | None => 0 end.

Record inv (st : mst) (r : pc) : Prop := Inv {
  iv_refs : forall a q, ques st !! a = Some q -> que_references q = tot st r (holds a);
  iv_held : forall a, 0 < tot st r (holds a) -> is_Some (ques st !! a);
  iv_sorted : StronglySorted Z.lt (ix_of st <$> msg_queues st);
  iv_live : forall a, a ∈ msg_queues st <-> exists q, ques st !! a = Some q /\ flag q MSGQ_DYING = false;
  iv_dying : forall a q, ques st !! a = Some q -> flag q MSGQ_DYING = true -> tot st r (removes a) = 1;
  iv_removes : forall a, 0 < tot st r (removes a) -> exists q, ques st !! a = Some q /\ flag q MSGQ_DYING = true;
  iv_nques : num_ques st = Z.of_nat (size (ques st));
  iv_nmsgs : num_msgs st = msum (fun q => Z.of_nat (length (que_msgs q))) (ques st) + tot st r fills;
  iv_que : forall a q, ques st !! a = Some q -> que_ok (serial st) q;
  iv_pc : forall tid t, threads st !! tid = Some t -> pc_ok st (t_pc t);
  iv_run : pc_ok st r;
  iv_picks : forall a i, tot st r (picks a i) <= 1;
  iv_asleep : forall tid t, threads st !! tid = Some t -> t_awake t = false -> asleep_ok st r (t_pc t);
  iv_woken : forall tid t a, threads st !! tid = Some t -> t_awake t = true -> t_pc t = DSleep a ->
    tot st idle (holds a) = 0;
  iv_log : spec_run (log st) = Some (contents st);
}.

End inv.

End MsgInv.
