(* ===== verification/MsgRun.v ===== *)
(** * System V messages: that the pieces of the calls keep the invariant *)

From Stdlib Require Import Sorted.
From S2P Require Import Prelude Ipc Msg MsgInv.
Import Ipc Msg MsgInv.

Module MsgRun.

Section run.
Variable (calm : Prop).
#[local] Abbreviation inv := (inv calm).
#[local] Abbreviation que_ok := (que_ok calm).
#[local] Abbreviation asleep_ok := (asleep_ok calm).

Lemma deref_que st a q : ques st !! a = Some q -> deref st a = Ok q.
Proof. intros H. unfold deref. by rewrite H. Qed.

(** ** Wake-ups *)

Lemma woken_pc c t : t_pc (wake c t) = t_pc t.
Proof. unfold wake. by destruct (bool_decide _). Qed.

Lemma tot_woken c st r P : tot (wakeup c st) r P = tot st r P.
Proof. unfold tot. simpl. rewrite msum_fmap; [done|]. intros t. by rewrite woken_pc. Qed.

Lemma asleep_wakeup c st r l : asleep_ok st r l -> asleep_ok (wakeup c st) r l.
Proof. destruct l; simpl; try done. by rewrite tot_woken. Qed.

Lemma wakeup_lookup c st tid t :
  threads (wakeup c st) !! tid = Some t ->
  exists t0, threads st !! tid = Some t0 /\ t_pc t = t_pc t0 /\
    (t_awake t = false -> t_awake t0 = false /\ chan (t_pc t) <> Some c).
Proof.
  simpl. rewrite lookup_fmap. intros (t0 & H & ->)%fmap_Some. exists t0. split; [done|].
  split; [apply woken_pc|]. unfold wake. case_bool_decide as Hc; simpl; [done|]. by intros ->.
Qed.

Lemma inv_woken_up c st r :
  inv st r -> (forall a, c = OnRefs a -> tot st idle (holds a) = 0) -> inv (wakeup c st) r.
Proof.
  intros Hi Hrefs. destruct Hi as [H1 H2 H3 H4 H5 H6 H7 H8 H9 H10 H11 H12 H13 H15 H14]. split; simpl; try done.
  - intros. rewrite tot_woken. auto.
  - intros a. rewrite tot_woken. auto.
  - intros a q. rewrite tot_woken. eauto.
  - intros a. rewrite tot_woken. auto.
  - by rewrite tot_woken.
  - intros tid t Ht. destruct (wakeup_lookup c st tid t Ht) as (t0 & Ht0 & -> & _). by eapply H10.
  - intros a i. rewrite tot_woken. auto.
  - intros tid t Ht Ha. destruct (wakeup_lookup c st tid t Ht) as (t0 & Ht0 & E & Haw). rewrite E.
    apply asleep_wakeup. apply (H13 tid); [done|]. by apply Haw.
  - intros tid t a Ht Ha E. rewrite tot_woken. simpl in Ht. rewrite lookup_fmap in Ht.
    apply fmap_Some in Ht as (t0 & Ht & ->). rewrite woken_pc in E. destruct (decide (c = OnRefs a)) as [Ec|Ec]; [by apply Hrefs|].
    apply (H15 tid t0); [done| |done]. unfold wake in Ha. rewrite E in Ha. simpl in Ha.
    by rewrite bool_decide_eq_false_2 in Ha by congruence.
Qed.

(** Nobody sleeps on the queue. *)
Definition quiet (st : mst) (a : Z) : Prop :=
  forall tid t, threads st !! tid = Some t -> chan (t_pc t) = Some (OnQue a) -> t_awake t = true.

Lemma quiet_wakeup st a : quiet (wakeup (OnQue a) st) a.
Proof.
  intros tid t Ht Hc. destruct (wakeup_lookup _ _ _ _ Ht) as (t0 & _ & _ & H).
  destruct (t_awake t); [done|]. by destruct (H eq_refl).
Qed.

(** ** Changes of one queue *)

Lemma ix_store st a q q' b :
  ques st !! a = Some q -> que_ix q' = que_ix q -> ix_of (store a q' st) b = ix_of st b.
Proof.
  intros Ha Hix. unfold ix_of. simpl. destruct (decide (b = a)) as [->|].
  - by rewrite lookup_insert_eq, Ha.
  - by rewrite lookup_insert_ne.
Qed.

(** The messages, the index and the life of the queue stay, and so do the flags
    that cover sleepers, if there are any. *)
Record same_que (st : mst) (a : Z) (q q' : que) : Prop := SameQue {
  sq_ix : que_ix q' = que_ix q;
  sq_msgs : que_msgs q' = que_msgs q;
  sq_dying : flag q' MSGQ_DYING = flag q MSGQ_DYING;
  sq_flags : quiet st a \/ ((flag q MSGQ_READERS = true -> flag q' MSGQ_READERS = true) /\
                            (flag q MSGQ_WRITERS = true -> flag q' MSGQ_WRITERS = true) /\
                            (calm -> msg_qbytes (q_ds q') <= msg_qbytes (q_ds q)));
}.

Lemma pc_store st a q q' l :
  ques st !! a = Some q -> que_msgs q' = que_msgs q -> pc_ok st l -> pc_ok (store a q' st) l.
Proof.
  intros Ha Hm. destruct l; simpl; try done. intros (q0 & Hq & Hl). destruct (decide (r_que l = a)) as [E|].
  - rewrite E in *. rewrite lookup_insert_eq. exists q'. split; [done|]. assert (q0 = q) as -> by congruence.
    unfold msg_lookup in *. by rewrite Hm.
  - rewrite lookup_insert_ne by done. by exists q0.
Qed.

(** Every fact about a queue that [same_que] keeps. *)
Lemma lookup_store st a q q' b x :
  ques st !! a = Some q -> same_que st a q q' -> ques (store a q' st) !! b = Some x ->
  exists y, ques st !! b = Some y /\ que_ix x = que_ix y /\ que_msgs x = que_msgs y /\
    flag x MSGQ_DYING = flag y MSGQ_DYING.
Proof.
  intros Ha [H1 H2 H3 _]. simpl. destruct (decide (b = a)) as [->|Hne].
  - rewrite lookup_insert_eq. intros [= <-]. by exists q.
  - rewrite lookup_insert_ne by done. intros Hx. by exists x.
Qed.

(** ... and the other way. *)
Lemma store_lookup st a q q' b y :
  ques st !! a = Some q -> same_que st a q q' -> ques st !! b = Some y ->
  exists x, ques (store a q' st) !! b = Some x /\ que_msgs x = que_msgs y /\
    flag x MSGQ_DYING = flag y MSGQ_DYING /\ (b <> a -> x = y) /\ (b = a -> x = q').
Proof.
  intros Ha [H1 H2 H3 _] Hy. simpl. destruct (decide (b = a)) as [->|Hne].
  - rewrite lookup_insert_eq. assert (y = q) as -> by congruence. by exists q'.
  - rewrite lookup_insert_ne by done. by exists y.
Qed.

Lemma asleep_store st r r' a q q' tid t :
  slack r <= slack r' -> ques st !! a = Some q -> same_que st a q q' -> threads st !! tid = Some t -> t_awake t = false ->
  (forall b, t_pc t = DSleep b -> 0 < tot st r (holds b) -> 0 < tot st r' (holds b)) ->
  asleep_ok st r (t_pc t) -> asleep_ok (store a q' st) r' (t_pc t).
Proof.
  intros Hsl Ha Hs Ht Haw Hd Hok. pose proof (sq_flags _ _ _ _ Hs) as Hfl.
  assert (Hq : forall b, chan (t_pc t) = Some (OnQue b) -> b = a ->
    (flag q MSGQ_READERS = true -> flag q' MSGQ_READERS = true) /\
    (flag q MSGQ_WRITERS = true -> flag q' MSGQ_WRITERS = true) /\
    (calm -> msg_qbytes (q_ds q') <= msg_qbytes (q_ds q))).
  { intros b Hb ->. destruct Hfl as [Hqu|]; [|done]. by rewrite (Hqu tid t Ht Hb) in Haw. }
  destruct (t_pc t); simpl in *; try done.
  - destruct Hok as (y & Hy & H1 & H2 & H3).
    destruct (store_lookup st a q q' _ y Ha Hs Hy) as (x & Hx & E1 & E2 & E3 & E4).
    assert (Hmx : calm -> blocked st r' y l) by (intros Hc; destruct (H3 Hc) as [?|[? ?]]; [by left|right; split; [lia|done]]).
    exists x. split; [done|]. rewrite E2. split; [done|]. destruct (decide (s_que l = a)) as [E|E]; [|by rewrite (E3 E)].
    assert (y = q) as -> by (rewrite E in Hy; congruence).
    destruct (Hq _ eq_refl E) as (_ & H4 & H5). rewrite (E4 E). split; [by apply H4|]. intros Hc. specialize (H5 Hc).
    destruct (Hmx Hc) as [Hb|Hb]; [left|by right]. rewrite (sq_msgs _ _ _ _ Hs). lia.
  - destruct Hok as (y & Hy & H1 & H2 & H3). destruct (store_lookup st a q q' _ y Ha Hs Hy) as (x & Hx & E1 & E2 & E3 & E4).
    exists x. split; [done|]. rewrite E2. split; [done|]. unfold msg_lookup in *. rewrite E1. split; [|done].
    destruct (decide (r_que l = a)) as [E|E]; [|by rewrite (E3 E)].
    rewrite (E4 E). apply (Hq _ eq_refl E). rewrite E in Hy. congruence.
  - by apply (Hd a0).
Qed.

Lemma contents_store st a q q' :
  ques st !! a = Some q -> que_msgs q' = que_msgs q -> contents (store a q' st) = contents st.
Proof.
  intros Ha Hm. unfold contents. simpl. rewrite fmap_insert, Hm. apply insert_id. by rewrite lookup_fmap, Ha.
Qed.

(** A change of one queue and of the place of the thread that runs, which leaves
    all parts but that of holding the queue. *)
Lemma inv_change st r r' a q q' :
  inv st r -> ques st !! a = Some q -> same_que st a q q' -> que_ok (serial st) q' ->
  slack r <= slack r' -> (forall b, b <> a -> one (holds b) r' = one (holds b) r) ->
  que_references q' = tot st r' (holds a) ->
  (forall b, removes b r' = removes b r) -> fills r' = fills r ->
  (forall b i, picks b i r' = true -> tot st idle (picks b i) = 0) ->
  pc_ok (store a q' st) r' ->
  (forall tid t, threads st !! tid = Some t -> t_awake t = false -> t_pc t = DSleep a ->
     0 < tot st r' (holds a)) ->
  inv (store a q' st) r'.
Proof.
  intros Hi Ha Hs Hok Hsl Hh Hr Hrm Hf Hp Hpc Hd. pose proof Hi as [H1 H2 H3 H4 H5 H6 H7 H8 H9 H10 H11 H12 H13 H15 H14].
  assert (Htot : forall b, b <> a -> tot st r' (holds b) = tot st r (holds b)).
  { intros b Hb. unfold tot. by rewrite (Hh b Hb). }
  assert (Htr : forall b, tot st r' (removes b) = tot st r (removes b)).
  { intros b. unfold tot, one. by rewrite Hrm. }
  assert (Hdom : forall b, is_Some (ques st !! b) -> is_Some (ques (store a q' st) !! b)).
  { intros b [y Hy]. destruct (store_lookup st a q q' b y Ha Hs Hy) as (x & Hx & _). by exists x. }
  split; simpl; try done.
  - intros b x Hx. change (tot (store a q' st) r' (holds b)) with (tot st r' (holds b)).
    destruct (decide (b = a)) as [->|Hne].
    + rewrite lookup_insert_eq in Hx. by injection Hx as <-.
    + rewrite lookup_insert_ne in Hx by done. rewrite Htot by done. by apply H1.
  - intros b Hb. change (tot (store a q' st) r' (holds b)) with (tot st r' (holds b)) in Hb. apply Hdom.
    destruct (decide (b = a)) as [->|Hne]; [by exists q|]. apply H2. by rewrite <- Htot.
  - erewrite list_fmap_ext; [exact H3|]. intros i b _. by apply (ix_store st a q q'), Hs.
  - intros b. rewrite H4. split.
    + intros (y & Hy & Hl). destruct (store_lookup st a q q' b y Ha Hs Hy) as (x & Hx & _ & E & _). exists x.
      split; [exact Hx|congruence].
    + intros (x & Hx & Hl). destruct (lookup_store st a q q' b x Ha Hs Hx) as (y & Hy & _ & _ & E). exists y.
      split; [done|congruence].
  - intros b x Hx Hl. destruct (lookup_store st a q q' b x Ha Hs Hx) as (y & Hy & _ & _ & E).
    change (tot (store a q' st) r' (removes b)) with (tot st r' (removes b)). rewrite Htr.
    apply (H5 b y); [done|congruence].
  - intros b Hb. change (tot (store a q' st) r' (removes b)) with (tot st r' (removes b)) in Hb. rewrite Htr in Hb.
    destruct (H6 b Hb) as (y & Hy & Hl). destruct (store_lookup st a q q' b y Ha Hs Hy) as (x & Hx & _ & E & _).
    exists x. split; [exact Hx|congruence].
  - rewrite H7. f_equal. by rewrite map_size_insert_Some.
  - rewrite H8. rewrite (msum_update _ _ _ q) by done. rewrite (sq_msgs _ _ _ _ Hs).
    unfold tot, one. simpl. rewrite Hf. lia.
  - intros b x Hx. destruct (decide (b = a)) as [->|Hne].
    + rewrite lookup_insert_eq in Hx. by injection Hx as <-.
    + rewrite lookup_insert_ne in Hx by done. by apply (H9 b).
  - intros tid t Ht. apply (pc_store st a q); [done|apply Hs|]. by apply (H10 tid).
  - intros b i. change (tot (store a q' st) r' (picks b i)) with (tot st r' (picks b i)).
    destruct (picks b i r') eqn:E.
    + specialize (Hp b i E). unfold tot, one in *. rewrite E. simpl in Hp. lia.
    + specialize (H12 b i). unfold tot, one in *. rewrite E. destruct (picks b i r); lia.
  - intros tid t Ht Haw. apply (asleep_store st r r' a q q' tid t); try done.
    + intros b Hb Hpos. destruct (decide (b = a)) as [->|Hne]; [by apply (Hd tid t)|]. by rewrite Htot.
    + by apply (H13 tid).
  - rewrite (contents_store st a q); [done|done|apply Hs].
Qed.

Lemma inv_store st r a q q' :
  inv st r -> ques st !! a = Some q -> same_que st a q q' -> que_ok (serial st) q' ->
  que_references q' = que_references q -> inv (store a q' st) r.
Proof.
  intros Hi Ha Hs Hok Hr. pose proof (iv_refs _ _ _ Hi a q Ha) as Hrefs.
  apply (inv_change st r r a q q'); try done.
  - congruence.
  - intros b i Hp. pose proof (iv_picks _ _ _ Hi b i) as H. unfold tot, one in *. rewrite Hp in H. simpl.
    pose proof (msum_nonneg (fun t => if picks b i (t_pc t) then 1 else 0) (threads st)
      (fun t => one_nonneg (picks b i) (t_pc t))). lia.
  - apply (pc_store st a q); [done|apply Hs|apply Hi].
  - intros tid t Ht Haw Hd. pose proof (iv_asleep _ _ _ Hi tid t Ht Haw) as H. by rewrite Hd in H.
Qed.

(** The thread that runs goes to another place with the same part. *)
Lemma inv_switch st r r' :
  inv st r -> (calm -> slack r <= slack r' \/ maxmsgs st = 0) ->
  (forall b, holds b r' = holds b r) -> (forall b, removes b r' = removes b r) ->
  fills r' = fills r -> (forall b i, picks b i r' = true -> tot st idle (picks b i) = 0) -> pc_ok st r' ->
  inv st r'.
Proof.
  intros Hi Hsl Hh Hrm Hf Hp Hpc. pose proof Hi as [H1 H2 H3 H4 H5 H6 H7 H8 H9 H10 H11 H12 H13 H15 H14].
  assert (Hth : forall b, tot st r' (holds b) = tot st r (holds b)) by (intros b; unfold tot, one; by rewrite Hh).
  assert (Htr : forall b, tot st r' (removes b) = tot st r (removes b)) by (intros b; unfold tot, one; by rewrite Hrm).
  assert (Htf : tot st r' fills = tot st r fills) by (unfold tot, one; by rewrite Hf).
  split; try done.
  - intros a q. rewrite Hth. auto.
  - intros a. rewrite Hth. auto.
  - intros a q. rewrite Htr. eauto.
  - intros a. rewrite Htr. auto.
  - by rewrite Htf.
  - intros b i. destruct (picks b i r') eqn:E.
    + specialize (Hp b i E). unfold tot, one in *. rewrite E. simpl in Hp. lia.
    + specialize (H12 b i). unfold tot, one in *. rewrite E. destruct (picks b i r); lia.
  - intros tid t Ht Ha. pose proof (H13 tid t Ht Ha) as H. destruct (t_pc t); simpl in *; try done.
    + destruct H as (q & Hq & E1 & E2 & E3). exists q. split_and!; try done. intros Hc.
      destruct (E3 Hc) as [?|[? ?]]; [by left|]. destruct (Hsl Hc) as [?|?]; [|done]. right. split; [lia|done].
    + by rewrite Hth.
Qed.

(** ** Holding a queue *)

Lemma que_ok_refs n x q : que_ok n q -> que_ok n (set_refs x q).
Proof. intros []. by split. Qed.

Lemma same_refs st a q x : same_que st a q (set_refs x q).
Proof. split; try done. right. split_and!; done. Qed.

Lemma one_eqb a b : one (holds b) (CStat a) = if a =? b then 1 else 0.
Proof. done. Qed.

Lemma inv_gain st a q e v o :
  inv st (Ret e v o) -> ques st !! a = Some q ->
  inv (store a (set_refs (que_references q + 1) q) st) (CStat a).
Proof.
  intros Hi Ha. apply (inv_change st (Ret e v o) (CStat a) a q); try done.
  - apply same_refs.
  - by apply que_ok_refs, (iv_que _ _ _ Hi a).
  - intros b Hb. rewrite one_eqb, (proj2 (Z.eqb_neq a b)) by done. done.
  - simpl. rewrite (iv_refs _ _ _ Hi a q Ha). unfold tot, one. simpl. rewrite Z.eqb_refl. lia.
  - intros tid t _ _ _. pose proof (tot_ge st (CStat a) (holds a)) as H. unfold one in H. simpl in H.
    rewrite Z.eqb_refl in H. lia.
Qed.

Lemma QREF_ok st a q e v o :
  inv st (Ret e v o) -> ques st !! a = Some q ->
  exists st', QREF a st = Ok st' /\ inv st' (CStat a) /\ log st' = log st /\ threads st' = threads st /\
    exists q', ques st' !! a = Some q' /\ q_ds q' = q_ds q /\ que_msgs q' = que_msgs q /\
      que_flags q' = que_flags q.
Proof.
  intros Hi Ha. unfold QREF. rewrite (deref_que st a q Ha). cbn [mbind outcome_bind]. eexists. split; [done|].
  split; [by eapply inv_gain|]. split; [done|]. split; [done|]. eexists. split; [apply lookup_insert_eq|]. done.
Qed.

(** The end of a call that holds a queue. *)
Lemma leave_ok st a e v o :
  inv st (CStat a) ->
  exists st', leave st a e v o = Ok (st', Ret e v o) /\ inv st' (Ret e v o) /\ log st' = log st.
Proof.
  intros Hi.
  assert (Hpos : 0 < tot st (CStat a) (holds a)).
  { pose proof (tot_ge st (CStat a) (holds a)) as H. rewrite one_eqb, Z.eqb_refl in H. lia. }
  destruct (iv_held _ _ _ Hi a Hpos) as [q Ha]. unfold leave, QRELE. rewrite (deref_que st a q Ha).
  cbn [mbind outcome_bind]. eexists. split; [done|].
  assert (Hrel : forall st0, inv st0 (CStat a) -> ques st0 = ques st -> tot st0 (CStat a) (holds a) = tot st (CStat a) (holds a) ->
    (que_references q - 1 = 0 -> forall tid t, threads st0 !! tid = Some t -> t_pc t = DSleep a -> t_awake t = true) ->
    inv (store a (set_refs (que_references q - 1) q) st0) (Ret e v o)).
  { intros st0 Hi0 Hq0 Ht0 Hd. assert (Ha0 : ques st0 !! a = Some q) by (by rewrite Hq0).
    assert (Hrefs : que_references q - 1 = tot st0 (Ret e v o) (holds a)).
    { rewrite (iv_refs _ _ _ Hi0 a q Ha0). unfold tot, one. simpl. rewrite Z.eqb_refl. lia. }
    apply (inv_change st0 (CStat a) (Ret e v o) a q); try done.
    - apply same_refs.
    - by apply que_ok_refs, (iv_que _ _ _ Hi0 a).
    - intros b Hb. rewrite one_eqb, (proj2 (Z.eqb_neq a b)) by done. done.
    - intros tid t Ht Haw Hds. rewrite <- Hrefs. pose proof (tot_nonneg st0 (Ret e v o) (holds a)) as Hn.
      destruct (decide (que_references q - 1 = 0)) as [E|E]; [|lia]. by rewrite (Hd E tid t Ht Hds) in Haw. }
  destruct ((que_references q - 1 =? 0) && flag q MSGQ_DYING) eqn:E; cbn [que_references set_refs].
  - change (flag (set_refs (que_references q - 1) q) MSGQ_DYING) with (flag q MSGQ_DYING). rewrite E.
    split; [|done]. apply (Hrel (wakeup (OnRefs a) st)); [|done|apply tot_woken|].
    { apply inv_woken_up; [done|]. intros b [= <-]. apply andb_true_iff in E as [E _]. apply Z.eqb_eq in E.
      pose proof (iv_refs _ _ _ Hi a q Ha) as Hr. unfold tot, one in *. simpl in *. rewrite Z.eqb_refl in Hr. lia. }
    intros _ tid t Ht Hds. destruct (wakeup_lookup _ _ _ _ Ht) as (t0 & _ & _ & H).
    destruct (t_awake t); [done|]. destruct (H eq_refl) as [_ H']. by rewrite Hds in H'.
  - change (flag (set_refs (que_references q - 1) q) MSGQ_DYING) with (flag q MSGQ_DYING). rewrite E.
    split; [|done]. apply Hrel; try done. intros H0 tid t Ht Hds. rewrite H0 in E. simpl in E.
    assert (Hrm : 0 < tot st (CStat a) (removes a)).
    { pose proof (tot_thread st (CStat a) (removes a) tid t Ht) as H. rewrite Hds in H. unfold one in H. simpl in H.
      rewrite Z.eqb_refl in H. lia. }
    destruct (iv_removes _ _ _ Hi a Hrm) as (q0 & Hq0 & Hdy). congruence.
Qed.

(** ** Messages come and go *)

Lemma que_ok_serial n n' q : n <= n' -> que_ok n q -> que_ok n' q.
Proof. intros Hn []. split; try done. eapply Forall_impl; [done|]. simpl. lia. Qed.

(** The number of messages changes with the part of the thread that runs. *)
Lemma inv_count st r r' n :
  inv st r -> n = num_msgs st + one fills r' - one fills r ->
  (calm -> num_msgs st + slack r <= n + slack r' \/ maxmsgs st = 0) ->
  (forall b, holds b r' = holds b r) -> (forall b, removes b r' = removes b r) ->
  (forall b i, picks b i r' = false) -> pc_ok st r' -> inv (set_num_msgs n st) r'.
Proof.
  intros Hi Hn Hsl Hh Hrm Hp Hpc. pose proof Hi as [H1 H2 H3 H4 H5 H6 H7 H8 H9 H10 H11 H12 H13 H15 H14].
  assert (Hth : forall b, tot st r' (holds b) = tot st r (holds b)) by (intros b; unfold tot, one; by rewrite Hh).
  assert (Htr : forall b, tot st r' (removes b) = tot st r (removes b)) by (intros b; unfold tot, one; by rewrite Hrm).
  split; simpl; try done.
  - intros a q. change (tot (set_num_msgs n st) r' (holds a)) with (tot st r' (holds a)). rewrite Hth. auto.
  - intros a. change (tot (set_num_msgs n st) r' (holds a)) with (tot st r' (holds a)). rewrite Hth. auto.
  - intros a q. change (tot (set_num_msgs n st) r' (removes a)) with (tot st r' (removes a)). rewrite Htr. eauto.
  - intros a. change (tot (set_num_msgs n st) r' (removes a)) with (tot st r' (removes a)). rewrite Htr. auto.
  - rewrite Hn, H8. unfold tot. simpl. lia.
  - intros b i. specialize (H12 b i). pose proof (one_nonneg (picks b i) r). unfold tot in *.
    assert (one (picks b i) r' = 0) as -> by (unfold one; by rewrite Hp). simpl in *. lia.
  - intros tid t Ht Ha. pose proof (H13 tid t Ht Ha) as H. destruct (t_pc t); simpl in *; try done.
    + destruct H as (q & Hq & E1 & E2 & E3). exists q. split_and!; try done. intros Hc.
      destruct (E3 Hc) as [?|[? ?]]; [by left|]. destruct (Hsl Hc) as [?|?]; [|done]. right.
      split; [change (msgtql limits <= n + slack r'); lia|done].
    + change (tot (set_num_msgs n st) r' (holds a)) with (tot st r' (holds a)). by rewrite Hth.
Qed.

(** The messages of one queue change, as the event says. *)
Definition with_que (a : Z) (q : que) (n s : Z) (e : event) (st : mst) : mst :=
  Mst (<[a := q]> (ques st)) (msg_queues st) (num_ques st) n (sequence st) (maxmsgs st) s (threads st)
    (log st ++ [e]).

Record new_content (st : mst) (r r' : pc) (a : Z) (q q' : que) (n s : Z) (e : event) : Prop := NewContent {
  nc_ok : que_ok s q';
  nc_serial : serial st <= s;
  nc_ix : que_ix q' = que_ix q;
  nc_refs : que_references q' = que_references q;
  nc_flags : que_flags q' = que_flags q;
  nc_count : n = num_msgs st + Z.of_nat (length (que_msgs q')) - Z.of_nat (length (que_msgs q)) +
               one fills r' - one fills r;
  nc_slack : calm -> num_msgs st + slack r <= n + slack r' \/ maxmsgs st = 0;
  nc_holds : forall b, holds b r' = holds b r;
  nc_removes : forall b, removes b r' = removes b r;
  nc_picks : forall b i, picks b i r' = false;
  nc_run : forall st, pc_ok st r';
  nc_copy : forall tid t l m, threads st !! tid = Some t -> t_pc t = RCopy l m -> r_que l = a ->
    msg_lookup q (r_typ l) = Some m -> msg_lookup q' (r_typ l) = Some m;
  nc_send : forall tid t l, threads st !! tid = Some t -> t_awake t = false -> t_pc t = SSleep l -> s_que l = a ->
    flag q MSGQ_WRITERS = true -> msg_qbytes (q_ds q') - lens (que_msgs q') <= msg_qbytes (q_ds q) - lens (que_msgs q);
  nc_recv : forall tid t l, threads st !! tid = Some t -> t_awake t = false -> t_pc t = RSleep l -> r_que l = a ->
    flag q MSGQ_READERS = true -> msg_lookup q (r_typ l) = None -> msg_lookup q' (r_typ l) = None;
  nc_spec : spec_step e (contents st) = Some (<[a := que_msgs q']> (contents st));
}.

Lemma flag_same q q' f : que_flags q' = que_flags q -> flag q' f = flag q f.
Proof. intros H. unfold flag. by rewrite H. Qed.

Lemma inv_content st r r' a q q' n s e :
  inv st r -> ques st !! a = Some q -> new_content st r r' a q q' n s e -> inv (with_que a q' n s e st) r'.
Proof.
  intros Hi Ha Hc. pose proof Hi as [H1 H2 H3 H4 H5 H6 H7 H8 H9 H10 H11 H12 H13 H15 H14].
  set (st' := with_que a q' n s e st).
  assert (Hf : forall f, flag q' f = flag q f) by (intros; apply flag_same, Hc).
  assert (Hth : forall b, tot st' r' (holds b) = tot st r (holds b)) by (intros b; unfold tot, one; by rewrite (nc_holds _ _ _ _ _ _ _ _ _ Hc)).
  assert (Htr : forall b, tot st' r' (removes b) = tot st r (removes b)) by (intros b; unfold tot, one; by rewrite (nc_removes _ _ _ _ _ _ _ _ _ Hc)).
  assert (Hup : forall b y, ques st !! b = Some y -> exists x, ques st' !! b = Some x /\
    (b <> a /\ x = y \/ b = a /\ x = q' /\ y = q)).
  { intros b y Hy. simpl. destruct (decide (b = a)) as [->|Hne].
    - rewrite lookup_insert_eq. exists q'. split; [done|]. right. split_and!; congruence.
    - rewrite lookup_insert_ne by done. exists y. auto. }
  assert (Hdn : forall b x, ques st' !! b = Some x -> exists y, ques st !! b = Some y /\
    (b <> a /\ x = y \/ b = a /\ x = q' /\ y = q)).
  { intros b x. simpl. destruct (decide (b = a)) as [->|Hne].
    - rewrite lookup_insert_eq. intros [= <-]. exists q. auto.
    - rewrite lookup_insert_ne by done. intros Hx. exists x. auto. }
  split; try done.
  - intros b x Hx. rewrite Hth. destruct (Hdn b x Hx) as (y & Hy & [[_ ->]|(_ & -> & ->)]); [by apply H1|].
    rewrite (nc_refs _ _ _ _ _ _ _ _ _ Hc). by apply H1.
  - intros b Hb. rewrite Hth in Hb. destruct (H2 b Hb) as [y Hy]. destruct (Hup b y Hy) as (x & Hx & _). by exists x.
  - change (msg_queues st') with (msg_queues st). erewrite list_fmap_ext; [exact H3|]. intros i b _.
    apply (ix_store st a q q'), Hc. done.
  - intros b. change (msg_queues st') with (msg_queues st). rewrite H4. split.
    + intros (y & Hy & Hl). destruct (Hup b y Hy) as (x & Hx & [[_ ->]|(_ & -> & ->)]); [by exists y|].
      exists q'. by rewrite Hf.
    + intros (x & Hx & Hl). destruct (Hdn b x Hx) as (y & Hy & [[_ ->]|(_ & -> & ->)]); [by exists y|].
      exists q. by rewrite <- Hf.
  - intros b x Hx Hl. rewrite Htr. destruct (Hdn b x Hx) as (y & Hy & [[_ ->]|(_ & -> & ->)]); [by apply (H5 b y)|].
    apply (H5 b q); [done|]. by rewrite <- Hf.
  - intros b Hb. rewrite Htr in Hb. destruct (H6 b Hb) as (y & Hy & Hl).
    destruct (Hup b y Hy) as (x & Hx & [[_ ->]|(_ & -> & ->)]); [by exists y|]. exists q'. by rewrite Hf.
  - change (num_ques st') with (num_ques st). rewrite H7. f_equal. simpl. by rewrite map_size_insert_Some.
  - change (num_msgs st') with n. rewrite (nc_count _ _ _ _ _ _ _ _ _ Hc), H8. simpl.
    rewrite (msum_update _ _ _ q) by done. unfold tot. simpl. lia.
  - intros b x Hx. change (serial st') with s. destruct (Hdn b x Hx) as (y & Hy & [[_ ->]|(_ & -> & ->)]); [|apply Hc].
    apply (que_ok_serial (serial st)); [apply Hc|by apply (H9 b)].
  - intros tid t Ht. pose proof (H10 tid t Ht) as H. destruct (t_pc t) eqn:Epc; simpl in *; try done.
    destruct H as (y & Hy & Hl). destruct (Hup _ y Hy) as (x & Hx & [[_ ->]|(E & -> & ->)]); [by exists y|].
    exists q'. split; [done|]. by eapply (nc_copy _ _ _ _ _ _ _ _ _ Hc).
  - apply Hc.
  - intros b i. specialize (H12 b i). pose proof (one_nonneg (picks b i) r). unfold tot in *.
    assert (one (picks b i) r' = 0) as -> by (unfold one; by rewrite (nc_picks _ _ _ _ _ _ _ _ _ Hc)). simpl in *. lia.
  - intros tid t Ht Haw. pose proof (H13 tid t Ht Haw) as H. destruct (t_pc t) eqn:Epc; simpl in H |- *; try done.
    + destruct H as (y & Hy & E1 & E2 & E3). destruct (Hup _ y Hy) as (x & Hx & [[_ ->]|(E & -> & ->)]).
      * exists y. split_and!; try done. intros Hcalm. destruct (E3 Hcalm) as [?|[? ?]]; [by left|].
        destruct (nc_slack _ _ _ _ _ _ _ _ _ Hc Hcalm) as [?|?]; [|done]. right.
        split; [change (msgtql limits <= n + slack r'); lia|done].
      * exists q'. rewrite !Hf. split_and!; try done. intros Hcalm. destruct (E3 Hcalm) as [Hb|[? ?]].
        -- left. pose proof (nc_send _ _ _ _ _ _ _ _ _ Hc tid t l Ht Haw Epc E E2). lia.
        -- destruct (nc_slack _ _ _ _ _ _ _ _ _ Hc Hcalm) as [?|?]; [|done]. right.
           split; [change (msgtql limits <= n + slack r'); lia|done].
    + destruct H as (y & Hy & E1 & E2 & E3). destruct (Hup _ y Hy) as (x & Hx & [[_ ->]|(E & -> & ->)]).
      * exists y. split_and!; done.
      * exists q'. rewrite !Hf. split_and!; try done. by eapply (nc_recv _ _ _ _ _ _ _ _ _ Hc).
    + by rewrite Hth.
  - change (log st') with (log st ++ [e]). rewrite (spec_run_app _ _ _ H14), (nc_spec _ _ _ _ _ _ _ _ _ Hc).
    unfold contents. simpl. by rewrite fmap_insert.
Qed.

End run.

End MsgRun.
