(* ===== verification/MsgStep.v ===== *)
(** * System V messages: what the calls do to the queues

    Sending, receiving, waking the senders, removing and creating a queue: each
    keeps the invariant. *)

From Stdlib Require Import Sorted.
From S2P Require Import Prelude Ipc Msg MsgInv MsgRun.
Import Ipc Msg MsgInv MsgRun.

Module MsgStep.

(** ** Mbufs *)

(** The mbufs of a message of at most 2048 bytes. *)
Lemma mbuf_sizes_small len :
  0 <= len <= MSGMNB ->
  mbuf_sizes (Z.to_nat len) len 0 =
    (if len =? 0 then [] else if (len <=? MLEN) || (MINCLSIZE <=? len) then [len] else [MLEN; MLEN]).
Proof.
  intros Hl. destruct (Z.eqb_spec len 0) as [->|Hn]; [done|].
  assert (Hu : u32 len = len) by (apply wrapu_small; unfold inu, MSGMNB in *; lia).
  unfold MLEN, MINCLSIZE, MHLEN, MLEN, MSIZE, MSGMNB in *.
  destruct (Z.to_nat len) as [|n] eqn:En; [lia|]. cbn [mbuf_sizes].
  rewrite (proj2 (Z.ltb_lt 0 len)) by lia. rewrite Hu. unfold MINCLSIZE, MHLEN, MLEN, MSIZE, MCLBYTES, MCLSHIFT.
  change (Z.shiftl 1 11) with 2048. change (256 - 32 - 72 + (256 - 32) + 1) with 377. change (256 - 32) with 224.
  destruct (Z.leb_spec 377 len) as [H1|H1].
  - rewrite orb_true_r, Z.min_l by lia. f_equal. destruct n; [done|]. cbn [mbuf_sizes].
    by rewrite (proj2 (Z.ltb_ge (0 + len) len)) by lia.
  - rewrite orb_false_r. destruct (Z.leb_spec len 224) as [H2|H2].
    + rewrite Z.min_l by lia. f_equal. destruct n; [done|]. cbn [mbuf_sizes].
      by rewrite (proj2 (Z.ltb_ge (0 + len) len)) by lia.
    + rewrite Z.min_r by lia. f_equal. destruct n as [|n]; [lia|]. cbn [mbuf_sizes].
      rewrite (proj2 (Z.ltb_lt (0 + 224) len)) by lia. rewrite Hu.
      unfold MINCLSIZE, MHLEN, MLEN, MSIZE. change (256 - 32 - 72 + (256 - 32) + 1) with 377. change (256 - 32) with 224.
      rewrite (proj2 (Z.leb_gt 377 len)), Z.min_r by lia. f_equal.
      destruct n; [done|]. cbn [mbuf_sizes]. by rewrite (proj2 (Z.ltb_ge (0 + 224 + 224) len)) by lia.
Qed.

(** What they hold, when the copy succeeds, is read from the user byte for byte. *)
Lemma copy_mbufs_bytes sizes mem data :
  Forall (Z.le 0) sizes -> copy_mbufs sizes mem = inl data ->
  concat data = take (Z.to_nat (sum sizes)) mem /\ Z.of_nat (length (concat data)) = sum sizes.
Proof.
  intros Hs. revert mem data. induction Hs as [|n sizes Hn Hs IH]; simpl; intros mem data.
  - by intros [= <-].
  - destruct (Z.ltb_spec (Z.of_nat (length mem)) n) as [Hl|Hl]; [done|].
    destruct (copy_mbufs sizes (drop (Z.to_nat n) mem)) as [d|?] eqn:E; [|done]. intros [= <-].
    destruct (IH _ _ E) as [H1 H2]. assert (Hpos : 0 <= sum sizes) by (rewrite <- H2; lia).
    unfold sum in *. simpl. rewrite Z2Nat.inj_add by done. rewrite H1. split.
    + rewrite <- (take_drop (Z.to_nat n) mem) at 3. rewrite take_app, length_take_le, (take_ge (take _ _)) by (rewrite ?length_take; lia).
      f_equal. f_equal. lia.
    + rewrite length_app, length_take. rewrite H1 in H2. rewrite Nat2Z.inj_add, H2. lia.
Qed.

(** The size that a message gets. *)
Definition stored (len : Z) : Z := if (len <=? MLEN) || (MINCLSIZE <=? len) then len else 2 * MLEN.

Lemma msg_copyin_ok type mem len ty n data i :
  0 <= len <= MSGMNB -> msg_copyin type mem len = inl (ty, n, data) ->
  type = Some ty /\ n = stored len /\ concat data = take (Z.to_nat n) mem /\ msg_ok (MkMsg i ty n data).
Proof.
  intros Hl. unfold msg_copyin. destruct type as [ty'|]; [|done].
  destruct (Z.ltb_spec ty' 0); [done|]. destruct (copy_mbufs _ mem) as [d|?] eqn:E; [|done]. intros [= <- <- <-].
  assert (Hn : sum (mbuf_sizes (Z.to_nat len) len 0) = stored len).
  { rewrite (mbuf_sizes_small len Hl). unfold stored, MLEN, MSIZE. unfold sum.
    destruct (Z.eqb_spec len 0) as [->|]; [done|]. destruct ((_ <=? _) || _); simpl; lia. }
  assert (Hp : Forall (Z.le 0) (mbuf_sizes (Z.to_nat len) len 0)).
  { rewrite (mbuf_sizes_small len Hl). destruct (_ =? _); [done|]. destruct ((_ <=? _) || _); repeat constructor; done || lia. }
  destruct (copy_mbufs_bytes _ _ _ Hp E) as [H1 H2]. split_and!; [done|done|by rewrite H1, Hn|].
  split; simpl; [done|done|]. rewrite Hn. unfold stored, MLEN, MINCLSIZE, MHLEN, MLEN, MSIZE, MSGMNB in *.
  destruct ((_ <=? _) || _); lia.
Qed.

Lemma wrapu_plus_l w x y : wrapu w (wrapu w x + y) = wrapu w (x + y).
Proof. unfold wrapu. apply Zplus_mod_idemp_l. Qed.

Section step.
Variable (calm : Prop).
#[local] Abbreviation inv := (inv calm).
#[local] Abbreviation que_ok := (que_ok calm).

(** A thread that holds a queue finds it. *)
Lemma held_que st r a : inv st r -> holds a r = true -> exists q, ques st !! a = Some q /\ que_ok (serial st) q.
Proof.
  intros Hi Hh. assert (Hpos : 0 < tot st r (holds a)).
  { pose proof (tot_ge st r (holds a)) as H. unfold one in H. rewrite Hh in H. lia. }
  destruct (iv_held _ _ _ Hi a Hpos) as [q Hq]. exists q. split; [done|]. by apply (iv_que _ _ _ Hi a).
Qed.

(** A flag goes down, with the sleepers that it covered awake. *)
Lemma inv_lower st r a q f :
  inv st r -> ques st !! a = Some q -> clear MSGQ_DYING f = MSGQ_DYING ->
  inv (wakeup (OnQue a) (store a (lower f q) st)) r.
Proof.
  intros Hi Ha Hf. change (inv (store a (lower f q) (wakeup (OnQue a) st)) r).
  apply (inv_store calm (wakeup (OnQue a) st) r a q); [by apply inv_woken_up|done| | |done].
  - split; [done|done|by apply lower_keeps|]. left. apply quiet_wakeup.
  - destruct (iv_que _ _ _ Hi a q Ha). by split.
Qed.

(** *** Sending *)

(** A message at the end of a queue. *)
Definition push (d : msqid_ds) (m : msg) (q : que) : que :=
  Que d (que_ix q) (que_flags q) (que_references q) (que_msgs q ++ [m]).

Record pushed (n : Z) (d d' : msqid_ds) : Prop := Pushed {
  pu_cbytes : msg_cbytes d' = u64 (msg_cbytes d + n);
  pu_qnum : msg_qnum d' = u64 (msg_qnum d + 1);
  pu_qbytes : msg_qbytes d' = msg_qbytes d;
  pu_perm : msg_perm d' = msg_perm d;
}.

Lemma push_ok s d m q :
  que_ok s q -> msg_id m = s -> msg_ok m -> pushed (msg_len m) (q_ds q) d ->
  (calm -> lens (que_msgs q) + msg_len m <= msg_qbytes (q_ds q)) -> que_ok (s + 1) (push d m q).
Proof.
  intros [] Hid Hm [] Hroom. split; simpl.
  - rewrite pu_cbytes0, qo_cbytes0, lens_app. unfold lens at 3. simpl. rewrite wrapu_plus_l. f_equal. lia.
  - rewrite pu_qnum0, qo_qnum0, length_app. simpl. rewrite wrapu_plus_l. f_equal. lia.
  - apply Forall_app. split; [done|]. by apply Forall_singleton.
  - apply sorted_snoc; [done|]. eapply Forall_impl; [done|]. unfold before. simpl. intros x Hx. lia.
  - apply Forall_app. split; [eapply Forall_impl; [done|]; simpl; lia|]. apply Forall_singleton. lia.
  - by rewrite pu_qbytes0.
  - done.
  - by rewrite pu_perm0.
  - intros Hc. rewrite pu_qbytes0, lens_app. unfold lens at 2. simpl. specialize (Hroom Hc). lia.
Qed.

Lemma inv_push st l q d m :
  inv st (SCopy l) -> ques st !! s_que l = Some q -> msg_id m = serial st -> msg_ok m ->
  pushed (msg_len m) (q_ds q) d -> (calm -> lens (que_msgs q) + msg_len m <= msg_qbytes (q_ds q)) ->
  quiet st (s_que l) \/ flag q MSGQ_READERS = false ->
  inv (with_que (s_que l) (push d m q) (num_msgs st) (serial st + 1) (Sent (s_que l) m) st) (CStat (s_que l)).
Proof.
  intros Hi Ha Hid Hm Hd Hroom Hr. apply (inv_content calm st (SCopy l) (CStat (s_que l)) (s_que l) q); [done|done|].
  split; simpl; try done.
  - apply push_ok; try done. by apply (iv_que _ _ _ Hi (s_que l)).
  - lia.
  - rewrite length_app. unfold one. simpl. lia.
  - intros _. lia.
  - intros tid t r x _ _ _. unfold msg_lookup. simpl. apply find_snoc.
  - intros tid t x _ _ _ _ _. rewrite (pu_qbytes _ _ _ Hd), lens_app. unfold lens at 2. simpl.
    destruct Hm. lia.
  - intros tid t x Ht Haw Epc E Hfl _. destruct Hr as [Hq|Hq]; [|congruence].
    assert (t_awake t = true) by (apply (Hq tid t Ht); rewrite Epc; simpl; by rewrite E). congruence.
  - unfold contents. by rewrite lookup_fmap, Ha.
Qed.

(** *** Receiving *)

(** A queue without a message. *)
Definition pop (d : msqid_ds) (m : msg) (q : que) : que :=
  Que d (que_ix q) (que_flags q) (que_references q) (List.filter (fun x => negb (is_msg m x)) (que_msgs q)).

Record popped (n : Z) (d d' : msqid_ds) : Prop := Popped {
  po_cbytes : msg_cbytes d' = u64 (msg_cbytes d - n);
  po_qnum : msg_qnum d' = u64 (msg_qnum d - 1);
  po_qbytes : msg_qbytes d' = msg_qbytes d;
  po_perm : msg_perm d' = msg_perm d;
}.

Lemma pop_ok s d l1 m l2 q :
  que_ok s q -> que_msgs q = l1 ++ m :: l2 -> popped (msg_len m) (q_ds q) d ->
  que_ok s (pop d m q) /\ que_msgs (pop d m q) = l1 ++ l2.
Proof.
  intros [] E []. rewrite E in *.
  assert (El : que_msgs (pop d m q) = l1 ++ l2) by (simpl; rewrite E; by apply remove_mid).
  assert (Hlen : lens (l1 ++ m :: l2) = lens (l1 ++ l2) + msg_len m).
  { rewrite !lens_app. unfold lens at 2. simpl. unfold lens. lia. }
  apply Forall_app in qo_msgs0 as [Hm1 [Hm Hm2]%Forall_cons]. apply Forall_app in qo_serial0 as [Hs1 [Hs Hs2]%Forall_cons].
  split; [|done]. split; rewrite ?El; simpl; try done.
  - rewrite po_cbytes0, qo_cbytes0, Hlen. unfold Z.sub. rewrite wrapu_plus_l. f_equal. lia.
  - rewrite po_qnum0, qo_qnum0, !length_app. simpl. unfold Z.sub. rewrite wrapu_plus_l. f_equal. lia.
  - by apply Forall_app.
  - by apply (sorted_app l1 l2 m).
  - by apply Forall_app.
  - by rewrite po_qbytes0.
  - by rewrite po_perm0.
  - intros Hc. rewrite po_qbytes0. specialize (qo_room0 Hc). destruct Hm. lia.
Qed.

(** Two receivers do not take the same message. *)
Lemma other_pick st l m tid t l' m' :
  inv st (RCopy l m) -> threads st !! tid = Some t -> t_pc t = RCopy l' m' -> r_que l' = r_que l -> m' <> m.
Proof.
  intros Hi Ht Epc E ->. pose proof (iv_picks _ _ _ Hi (r_que l) (msg_id m)) as H.
  pose proof (tot_thread st (RCopy l m) (picks (r_que l) (msg_id m)) tid t Ht) as H'.
  unfold one in H'. rewrite Epc in H'. simpl in H'. rewrite E, !Z.eqb_refl in H'. simpl in H'. lia.
Qed.

Lemma inv_pop st l q d m :
  inv st (RCopy l m) -> ques st !! r_que l = Some q -> popped (msg_len m) (q_ds q) d ->
  quiet st (r_que l) \/ flag q MSGQ_WRITERS = false ->
  inv (with_que (r_que l) (pop d m q) (num_msgs st - 1) (serial st) (Received (r_que l) (s32 (r_typ l)) m) st) (RSleep l).
Proof.
  intros Hi Ha Hd Hw. pose proof (iv_run _ _ _ Hi) as (q0 & Hq0 & Hl). assert (q0 = q) as -> by congruence.
  destruct (find_split _ _ _ Hl) as (l1 & l2 & E & Hm & H1).
  destruct (pop_ok (serial st) d l1 m l2 q (iv_que _ _ _ Hi _ _ Ha) E Hd) as [Hok El].
  apply (inv_content calm st (RCopy l m) (RSleep l) (r_que l) q); [done|done|].
  split; try done.
  - rewrite El, E, !length_app. unfold one. simpl. lia.
  - intros _. left. simpl. lia.
  - intros tid t l' m' Ht Epc Eq. unfold msg_lookup. rewrite El, E. intros Hf.
    apply find_other in Hf; [done|]. by eapply other_pick.
  - intros tid t x Ht Haw Epc Eq Hfl. destruct Hw as [Hq|Hq]; [|congruence].
    assert (t_awake t = true) by (apply (Hq tid t Ht); rewrite Epc; simpl; by rewrite Eq). congruence.
  - intros tid t x Ht Haw Epc Eq Hfl. unfold msg_lookup. rewrite El, E, !find_none, !Forall_app, Forall_cons. tauto.
  - unfold contents. simpl. rewrite lookup_fmap, Ha. simpl. rewrite E, take_first_asked by (done || by rewrite <- E; apply (iv_que _ _ _ Hi _ _ Ha)). simpl.
    rewrite decide_True by done. simpl in El. by rewrite <- E, El.
Qed.

(** *** Waking the senders *)

Definition asleep (t : thread) (l : pc) : Prop := t_awake t = false /\ t_pc t = l.

Lemma wake_writers_ok r l st :
  inv st r -> Forall (fun a => is_Some (ques st !! a)) l ->
  exists st', wake_writers l st = Ok st' /\ inv st' r /\ msg_queues st' = msg_queues st /\ log st' = log st /\
    maxmsgs st' = maxmsgs st /\ (forall a, is_Some (ques st' !! a) <-> is_Some (ques st !! a)) /\
    forall tid t x, threads st' !! tid = Some t -> asleep t (SSleep x) ->
      (s_que x ∉ l) /\ exists t', threads st !! tid = Some t' /\ asleep t' (SSleep x).
Proof.
  revert st. induction l as [|a l IH]; intros st Hi Hl; simpl.
  - exists st. split_and!; try done. intros tid t x Ht Hs. split; [by apply not_elem_of_nil|]. eauto.
  - apply Forall_cons in Hl as [[q Ha] Hl]. rewrite (deref_que st a q Ha). cbn [mbind outcome_bind].
    set (st1 := if flag q MSGQ_WRITERS then _ else _).
    assert (H1 : inv st1 r /\ msg_queues st1 = msg_queues st /\ log st1 = log st /\ maxmsgs st1 = maxmsgs st /\
      (forall b, is_Some (ques st1 !! b) <-> is_Some (ques st !! b)) /\
      forall tid t x, threads st1 !! tid = Some t -> asleep t (SSleep x) ->
        s_que x <> a /\ exists t', threads st !! tid = Some t' /\ asleep t' (SSleep x)).
    { unfold st1. destruct (flag q MSGQ_WRITERS) eqn:Ef.
      - split; [by apply inv_lower|]. split_and!; try done.
        + intros b. simpl. destruct (decide (b = a)) as [->|Hne]; [|by rewrite lookup_insert_ne].
          rewrite lookup_insert_eq, Ha. split; by eexists.
        + intros tid t x Ht [Haw Epc]. destruct (wakeup_lookup _ _ _ _ Ht) as (t0 & Ht0 & E1 & E2).
          destruct (E2 Haw) as [E3 E4]. rewrite Epc in E4. simpl in E4. split; [congruence|]. exists t0.
          split; [done|]. split; [done|congruence].
      - split_and!; try done. intros tid t x Ht [Haw Epc]. split; [|by exists t].
        intros E. pose proof (iv_asleep _ _ _ Hi tid t Ht Haw) as H. rewrite Epc in H. simpl in H.
        destruct H as (q0 & Hq0 & _ & Hfl & _). rewrite E in Hq0. congruence. }
    destruct H1 as (Hi1 & E1 & E2 & E3 & E4 & E5). destruct (IH st1 Hi1) as (st' & Ew & Hi' & F1 & F2 & F3 & F4 & F5).
    { eapply Forall_impl; [exact Hl|]. intros b. by rewrite E4. }
    exists st'. split; [done|]. split; [done|]. split_and!; try congruence.
    + intros b. by rewrite F4.
    + intros tid t x Ht Hs. destruct (F5 tid t x Ht Hs) as (G1 & t1 & Ht1 & Hs1).
      destruct (E5 tid t1 x Ht1 Hs1) as (G2 & t2 & Ht2 & Hs2). split; [|by exists t2]. by apply not_elem_of_cons.
Qed.

Lemma wake_writers_maxmsgs n l st :
  wake_writers l (set_maxmsgs n st) = (st' ← wake_writers l st; Ok (set_maxmsgs n st')).
Proof.
  revert st. induction l as [|a l IH]; intros st; [done|]. simpl. unfold deref. simpl.
  destruct (ques st !! a) as [q|]; [|done]. cbn [mbind outcome_bind]. rewrite <- IH. by destruct (flag q MSGQ_WRITERS).
Qed.

(** Without sleeping senders the flag may change. *)
Lemma inv_maxmsgs n st r :
  inv st r -> (n = 0 -> forall tid t x, threads st !! tid = Some t -> ~ asleep t (SSleep x)) -> inv (set_maxmsgs n st) r.
Proof.
  intros [] Hn. split; try done. intros tid t Ht Haw. pose proof (iv_asleep0 tid t Ht Haw) as H.
  destruct (t_pc t) eqn:Epc; try done. destruct H as (q & Hq & E1 & E2 & E3). exists q. split_and!; try done.
  intros Hc. destruct (decide (n = 0)) as [E|E]; [by destruct (Hn E tid t l Ht)|].
  destruct (E3 Hc) as [?|[? _]]; [by left|by right].
Qed.

Lemma que_wakewriters_ok st r :
  inv st r ->
  exists st', que_wakewriters (set_maxmsgs 0 st) = Ok st' /\ inv st' r /\ log st' = log st /\ maxmsgs st' = 0.
Proof.
  intros Hi. unfold que_wakewriters. simpl. rewrite wake_writers_maxmsgs.
  destruct (wake_writers_ok r (msg_queues st) st Hi) as (st' & E & Hi' & E1 & E2 & E3 & E4 & E5).
  { apply Forall_forall. intros a Ha. apply (iv_live _ _ _ Hi) in Ha as (q & Hq & _). by exists q. }
  rewrite E. cbn [mbind outcome_bind]. exists (set_maxmsgs 0 st'). split; [done|]. split; [|done].
  apply inv_maxmsgs; [done|]. intros _ tid t x Ht Hs. destruct (E5 tid t x Ht Hs) as (Hn & t0 & Ht0 & Haw & Epc).
  apply Hn. pose proof (iv_asleep _ _ _ Hi tid t0 Ht0 Haw) as H. rewrite Epc in H. destruct H as (q & Hq & Hd & _).
  apply (iv_live _ _ _ Hi). by exists q.
Qed.

End step.

End MsgStep.
