(* ===== verification/MsgLife.v ===== *)
(** * System V messages: queues and threads come and go

    The removal of a queue in its two halves, the creation of one at the lowest free
    index, and the ends of a piece of a call: a thread goes on where it stopped, and
    stops again. *)

From Stdlib Require Import Sorted.
From S2P Require Import Prelude Ipc Msg MsgInv MsgRun MsgStep.
Import Ipc Msg MsgInv MsgRun MsgStep.

Module MsgLife.

Lemma sorted_filter {A} (g : A -> Z) (f : A -> bool) l :
  StronglySorted Z.lt (g <$> l) -> StronglySorted Z.lt (g <$> List.filter f l).
Proof.
  induction l as [|x l IH]; simpl; [done|]. intros [H1 H2]%StronglySorted_inv. destruct (f x); [|by apply IH].
  simpl. constructor; [by apply IH|]. apply Forall_forall. intros y Hy. apply list_elem_of_fmap in Hy as (z & -> & Hz).
  rewrite Forall_forall in H2. apply H2. apply list_elem_of_fmap. exists z. split; [done|].
  apply list_elem_of_In, List.filter_In in Hz as [Hz _]. by apply list_elem_of_In.
Qed.

(** ** The search for an index *)

Lemma next_ix_ok st l n :
  Forall (fun a => exists q, ques st !! a = Some q) l -> StronglySorted Z.lt (ix_of st <$> l) ->
  Forall (fun a => n <= ix_of st a) l ->
  exists before behind, next_ix st n l = Ok (n + Z.of_nat (length before), before, behind) /\ l = before ++ behind /\
    ix_of st <$> before = seqZ n (Z.of_nat (length before)) /\
    Forall (fun a => n + Z.of_nat (length before) < ix_of st a) behind.
Proof.
  revert n. induction l as [|a l IH]; intros n Hl Hs Hn; simpl.
  - exists [], []. simpl. rewrite Z.add_0_r. by split_and!.
  - apply Forall_cons in Hl as [[q Ha] Hl]. apply Forall_cons in Hn as [Hna Hn]. simpl in Hs.
    apply StronglySorted_inv in Hs as [Hs1 Hs2]. rewrite (deref_que st a q Ha). cbn [mbind outcome_bind].
    assert (Eix : ix_of st a = que_ix q) by (unfold ix_of; by rewrite Ha). rewrite Eix in *.
    destruct (Z.ltb_spec n (que_ix q)) as [Hlt|Hge].
    + exists [], (a :: l). simpl. rewrite Z.add_0_r. split_and!; try done. constructor; [by rewrite Eix|].
      apply (proj1 (Forall_fmap _ _ _)) in Hs2. eapply Forall_impl; [exact Hs2|]. simpl. lia.
    + assert (En : que_ix q = n) by lia. destruct (IH (que_ix q + 1) Hl Hs1) as (bf & bh & E & -> & Eb & Hbh).
      { apply (proj1 (Forall_fmap _ _ _)) in Hs2. eapply Forall_impl; [exact Hs2|]. simpl. lia. }
      rewrite E. cbn [mbind outcome_bind]. exists (a :: bf), bh. simpl length.
      replace (n + Z.of_nat (S (length bf))) with (que_ix q + 1 + Z.of_nat (length bf)) by lia.
      split_and!; try done. rewrite fmap_cons, Eb, Eix, En. rewrite Nat2Z.inj_succ.
      rewrite (seqZ_cons n) by lia. f_equal. f_equal; lia.
Qed.

Section life.
Variable (calm : Prop).
#[local] Abbreviation inv := (inv calm).
#[local] Abbreviation que_ok := (que_ok calm).
#[local] Abbreviation asleep_ok := (asleep_ok calm).

(** A queue that lives has no thread that removes it. *)
Lemma live_removes st r a q :
  inv st r -> ques st !! a = Some q -> flag q MSGQ_DYING = false -> tot st r (removes a) = 0.
Proof.
  intros Hi Ha Hd. pose proof (tot_nonneg st r (removes a)). destruct (decide (tot st r (removes a) = 0)) as [|Hne]; [done|].
  destruct (iv_removes _ _ _ Hi a) as (q0 & Hq0 & Hd0); [lia|]. congruence.
Qed.

(** ** Removal *)

Definition unlist (a : Z) (q : que) (st : mst) : mst :=
  Mst (<[a := set_refs (que_references q - 1) (raise MSGQ_DYING q)]> (ques st))
    (List.filter (fun x => negb (x =? a)) (msg_queues st)) (num_ques st) (num_msgs st) (sequence st) (maxmsgs st)
    (serial st) (threads st) (log st).

Lemma inv_unlist st a q :
  inv st (CStat a) -> ques st !! a = Some q -> flag q MSGQ_DYING = false -> quiet st a ->
  inv (unlist a q st) (DSleep a).
Proof.
  intros Hi Ha Hd Hq. pose proof (live_removes st _ a q Hi Ha Hd) as Hnr.
  pose proof Hi as [H1 H2 H3 H4 H5 H6 H7 H8 H9 H10 H11 H12 H13 H15 H14].
  set (q' := set_refs (que_references q - 1) (raise MSGQ_DYING q)).
  assert (Hdy : flag q' MSGQ_DYING = true) by (apply (raise_has MSGQ_DYING MSGQ_DYING q); done).
  assert (Hh : forall b, tot (unlist a q st) (DSleep a) (holds b) = tot st (CStat a) (holds b) - if a =? b then 1 else 0).
  { intros b. unfold tot, one. simpl. lia. }
  assert (Hr : forall b, tot (unlist a q st) (DSleep a) (removes b) = tot st (CStat a) (removes b) + if a =? b then 1 else 0).
  { intros b. unfold tot, one. simpl. lia. }
  assert (Hsame : forall b, b <> a -> ques (unlist a q st) !! b = ques st !! b) by (intros b Hb; by apply lookup_insert_ne).
  assert (Hnew : ques (unlist a q st) !! a = Some q') by apply lookup_insert_eq.
  split; try done.
  - intros b x Hx. rewrite Hh. destruct (Z.eqb_spec a b) as [<-|Hne].
    + rewrite Hnew in Hx. injection Hx as <-. simpl. rewrite (H1 a q Ha). lia.
    + rewrite Hsame in Hx by done. rewrite (H1 b x Hx). lia.
  - intros b. rewrite Hh. destruct (Z.eqb_spec a b) as [<-|Hne]; [by rewrite Hnew|]. rewrite Hsame, Z.sub_0_r by done. apply H2.
  - change (msg_queues (unlist a q st)) with (List.filter (fun x => negb (x =? a)) (msg_queues st)).
    erewrite list_fmap_ext; [apply (sorted_filter (ix_of st)), H3|]. intros i b _. simpl. by apply (ix_store st a q q').
  - intros b. simpl. rewrite list_elem_of_In, List.filter_In, <- list_elem_of_In, H4, negb_true_iff, Z.eqb_neq. split.
    + intros [(x & Hx & Hl) Hne]. exists x. by rewrite lookup_insert_ne.
    + intros (x & Hx & Hl). destruct (decide (b = a)) as [->|Hne].
      * rewrite lookup_insert_eq in Hx. injection Hx as <-. by fold q' in Hl; rewrite Hdy in Hl.
      * rewrite lookup_insert_ne in Hx by done. split; [by exists x|done].
  - intros b x Hx Hl. rewrite Hr. destruct (Z.eqb_spec a b) as [<-|Hne]; [lia|]. rewrite Hsame in Hx by done.
    rewrite (H5 b x) by done. lia.
  - intros b. rewrite Hr. destruct (Z.eqb_spec a b) as [<-|Hne]; [by exists q'|]. rewrite Hsame, Z.add_0_r by done. apply H6.
  - change (num_ques (unlist a q st)) with (num_ques st). rewrite H7. f_equal. simpl. by rewrite map_size_insert_Some.
  - change (num_msgs (unlist a q st)) with (num_msgs st). rewrite H8. simpl. rewrite (msum_update _ _ _ q) by done.
    unfold tot, one. simpl. lia.
  - intros b x Hx. destruct (decide (b = a)) as [->|Hne].
    + rewrite Hnew in Hx. injection Hx as <-. destruct (H9 a q Ha). by split.
    + rewrite Hsame in Hx by done. by apply (H9 b).
  - intros tid t Ht. apply (pc_store st a q q'); [done|done|by apply (H10 tid)].
  - intros tid t Ht Haw. pose proof (H13 tid t Ht Haw) as H.
    assert (Hch : forall b, chan (t_pc t) = Some (OnQue b) -> b <> a).
    { intros b Hb ->. by rewrite (Hq tid t Ht Hb) in Haw. }
    destruct (t_pc t) eqn:Epc; simpl in H |- *; try done.
    + destruct H as (x & Hx & E1 & E2 & E3). exists x. rewrite lookup_insert_ne; [done|]. intros E. by apply (Hch _ eq_refl).
    + destruct H as (x & Hx & E1 & E2 & E3). exists x. rewrite lookup_insert_ne; [done|]. intros E. by apply (Hch _ eq_refl).
    + rewrite Hh. destruct (Z.eqb_spec a a0) as [<-|Hne]; [|lia].
      pose proof (tot_thread st (CStat a) (removes a) tid t Ht) as Hx. rewrite Epc in Hx. unfold one in Hx. simpl in Hx.
      rewrite Z.eqb_refl in Hx. lia.
  - change (log (unlist a q st)) with (log st). rewrite H14. f_equal. symmetry. by apply (contents_store st a q q').
Qed.

(** Nobody holds the queue: it goes with its messages. *)
Definition freed (a : Z) (q : que) (st : mst) : mst :=
  Mst (delete a (ques st)) (msg_queues st) (num_ques st - 1) (num_msgs st - Z.of_nat (length (que_msgs q)))
    (sequence st) (maxmsgs st) (serial st) (threads st) (log st ++ [Removed a]).

Lemma inv_freed st a q e v o :
  inv st (DSleep a) -> ques st !! a = Some q -> que_references q = 0 ->
  (calm -> maxmsgs st = 0 \/ que_msgs q = []) -> inv (freed a q st) (Ret e v o).
Proof.
  intros Hi Ha Href Hcalm. pose proof Hi as [H1 H2 H3 H4 H5 H6 H7 H8 H9 H10 H11 H12 H13 H15 H14].
  assert (Hrm : tot st (DSleep a) (removes a) = 1).
  { destruct (H6 a) as (q0 & Hq0 & Hd0); [|by apply (H5 a q0)].
    pose proof (tot_ge st (DSleep a) (removes a)) as H. unfold one in H. simpl in H. rewrite Z.eqb_refl in H. lia. }
  assert (Hno : forall tid t, threads st !! tid = Some t -> holds a (t_pc t) = false).
  { intros tid t Ht. pose proof (tot_thread st (DSleep a) (holds a) tid t Ht) as H. rewrite <- (H1 a q Ha), Href in H.
    unfold one in H. simpl in H. destruct (holds a (t_pc t)); [lia|done]. }
  assert (Hh : forall b, tot (freed a q st) (Ret e v o) (holds b) = tot st (DSleep a) (holds b)) by done.
  assert (Hr : forall b, tot (freed a q st) (Ret e v o) (removes b) = tot st (DSleep a) (removes b) - if a =? b then 1 else 0).
  { intros b. unfold tot, one. simpl. lia. }
  assert (Hsame : forall b, b <> a -> ques (freed a q st) !! b = ques st !! b) by (intros b Hb; by apply lookup_delete_ne).
  assert (Hgone : ques (freed a q st) !! a = None) by apply lookup_delete_eq.
  assert (Hlive : a ∉ msg_queues st).
  { intros (q0 & Hq0 & Hd0)%H4. destruct (H6 a) as (q1 & Hq1 & Hd1); [lia|congruence]. }
  split; try done.
  - intros b x Hx. destruct (decide (b = a)) as [->|Hne]; [congruence|]. rewrite Hsame in Hx by done. by apply (H1 b).
  - intros b. rewrite Hh. intros Hb. destruct (decide (b = a)) as [->|Hne]; [rewrite <- (H1 a q Ha) in Hb; lia|].
    rewrite Hsame by done. by apply H2.
  - change (msg_queues (freed a q st)) with (msg_queues st). erewrite list_fmap_ext; [exact H3|]. intros i b Hb. simpl.
    unfold ix_of. rewrite Hsame; [done|]. intros ->. apply Hlive. by eapply list_elem_of_lookup_2.
  - intros b. change (msg_queues (freed a q st)) with (msg_queues st). destruct (decide (b = a)) as [->|Hne].
    + rewrite Hgone. split; [done|by intros (? & ? & _)].
    + rewrite Hsame by done. apply H4.
  - intros b x Hx Hl. rewrite Hr. destruct (Z.eqb_spec a b) as [<-|Hne]; [congruence|]. rewrite Hsame in Hx by done.
    rewrite (H5 b x) by done. lia.
  - intros b. rewrite Hr. destruct (Z.eqb_spec a b) as [<-|Hne]; [lia|]. rewrite Hsame, Z.sub_0_r by done. apply H6.
  - change (num_ques (freed a q st)) with (num_ques st - 1). rewrite H7. simpl. rewrite map_size_delete_Some by done.
    assert (size (ques st) <> 0%nat); [|lia]. intros E. apply map_size_empty_inv in E. by rewrite E in Ha.
  - change (num_msgs (freed a q st)) with (num_msgs st - Z.of_nat (length (que_msgs q))). rewrite H8. simpl.
    rewrite (msum_delete _ _ a q) by done. unfold tot, one. simpl. lia.
  - intros b x Hx. destruct (decide (b = a)) as [->|Hne]; [congruence|]. rewrite Hsame in Hx by done. by apply (H9 b).
  - intros tid t Ht. pose proof (H10 tid t Ht) as H. pose proof (Hno tid t Ht) as Hn.
    destruct (t_pc t); simpl in *; try done. destruct H as (x & Hx & Hl). exists x. split; [|done].
    rewrite lookup_delete_ne; [done|]. intros E. by rewrite E, Z.eqb_refl in Hn.
  - intros tid t Ht Haw. pose proof (H13 tid t Ht Haw) as H. pose proof (Hno tid t Ht) as Hn.
    destruct (t_pc t) eqn:Epc; simpl in H, Hn |- *; try done.
    + destruct H as (x & Hx & E1 & E2 & E3). exists x. rewrite lookup_delete_ne by (intros E; by rewrite E, Z.eqb_refl in Hn).
      split_and!; try done. intros Hc. destruct (E3 Hc) as [?|[Hq ?]]; [by left|].
      destruct (Hcalm Hc) as [|E]; [done|]. right. split; [|done].
      change (msgtql limits <= num_msgs st - Z.of_nat (length (que_msgs q)) + 0). rewrite E. simpl in *. lia.
    + destruct H as (x & Hx & E1 & E2 & E3). exists x. by rewrite lookup_delete_ne by (intros E; by rewrite E, Z.eqb_refl in Hn).
  - change (log (freed a q st)) with (log st ++ [Removed a]). rewrite (spec_run_app _ _ _ H14). unfold contents. simpl.
    rewrite lookup_fmap, Ha. simpl. by rewrite fmap_delete.
Qed.

(** ** Creation *)

Definition created (a : Z) (q : que) (before behind : list Z) (s : Z) (st : mst) : mst :=
  Mst (<[a := q]> (ques st)) (before ++ a :: behind) (num_ques st + 1) (num_msgs st) s (maxmsgs st) (serial st)
    (threads st) (log st ++ [Created a]).

Record new_que (st : mst) (a : Z) (q : que) (before behind : list Z) : Prop := NewQue {
  nq_ok : que_ok (serial st) q;
  nq_refs : que_references q = 0;
  nq_flags : que_flags q = 0;
  nq_msgs : que_msgs q = [];
  nq_split : msg_queues st = before ++ behind;
  nq_before : Forall (fun b => ix_of st b < que_ix q) before;
  nq_behind : Forall (fun b => que_ix q < ix_of st b) behind;
}.

Lemma sorted_between (l1 l2 : list Z) x :
  StronglySorted Z.lt (l1 ++ l2) -> Forall (fun y => y < x) l1 -> Forall (Z.lt x) l2 ->
  StronglySorted Z.lt (l1 ++ x :: l2).
Proof.
  induction l1 as [|y l1 IH]; simpl; intros Hs H1 H2; [by constructor|].
  apply StronglySorted_inv in Hs as [Hs1 Hs2]. apply Forall_cons in H1 as [Hy H1]. constructor; [by apply IH|].
  apply Forall_app in Hs2 as [Hs2 Hs3]. apply Forall_app. split; [done|]. by constructor.
Qed.

Lemma inv_created st a q before behind s r :
  inv st r -> ques st !! a = None -> new_que st a q before behind -> inv (created a q before behind s st) r.
Proof.
  intros Hi Ha Hn. pose proof Hi as [H1 H2 H3 H4 H5 H6 H7 H8 H9 H10 H11 H12 H13 H15 H14].
  set (st' := created a q before behind s st).
  assert (Hsame : forall b, b <> a -> ques st' !! b = ques st !! b) by (intros b Hb; by apply lookup_insert_ne).
  assert (Hnew : ques st' !! a = Some q) by apply lookup_insert_eq.
  assert (Hkeep : forall b x, ques st !! b = Some x -> ques st' !! b = Some x).
  { intros b x Hx. rewrite Hsame; [done|]. by intros ->; rewrite Hx in Ha. }
  assert (Hlive : flag q MSGQ_DYING = false) by (unfold flag; by rewrite (nq_flags _ _ _ _ _ Hn)).
  assert (Hq : forall b, ques st' !! b = ques st !! b \/ b = a).
  { intros b. destruct (decide (b = a)); [by right|left; by apply Hsame]. }
  assert (Hpc : forall l, pc_ok st l -> pc_ok st' l).
  { intros l. destruct l; try done. intros (x & Hx & Hl). exists x. split; [by apply Hkeep|done]. }
  assert (Hnot : forall b, b ∈ msg_queues st -> b <> a).
  { intros b (x & Hx & _)%H4 ->. by rewrite Hx in Ha. }
  assert (Hix : forall b, b ∈ msg_queues st -> ix_of st' b = ix_of st b).
  { intros b Hb. unfold ix_of. by rewrite Hsame by (by apply Hnot). }
  rewrite (nq_split _ _ _ _ _ Hn) in *.
  split; try done.
  - intros b x Hx. destruct (decide (b = a)) as [->|Hne].
    + rewrite Hnew in Hx. injection Hx as <-. rewrite (nq_refs _ _ _ _ _ Hn). pose proof (tot_nonneg st r (holds a)) as Hnn.
      destruct (decide (tot st r (holds a) = 0)) as [|Hz]; [done|]. destruct (H2 a) as [y Hy]; [lia|congruence].
    + rewrite Hsame in Hx by done. by apply (H1 b).
  - intros b Hb. destruct (H2 b Hb) as [x Hx]. exists x. by apply Hkeep.
  - change (msg_queues st') with (before ++ a :: behind). rewrite fmap_app, fmap_cons.
    assert (ix_of st' a = que_ix q) as -> by (unfold ix_of; by rewrite Hnew).
    assert (forall l : list Z, (forall b, b ∈ l -> b ∈ before ++ behind) -> ix_of st' <$> l = ix_of st <$> l) as Hl.
    { intros l Hl. apply list_fmap_ext. intros i b Hb. apply Hix, Hl. by eapply list_elem_of_lookup_2. }
    rewrite !Hl by (intros b; rewrite elem_of_app; tauto). rewrite fmap_app in H3.
    apply sorted_between; [done| |].
    + apply Forall_fmap. apply Hn.
    + apply Forall_fmap. apply Hn.
  - intros b. change (msg_queues st') with (before ++ a :: behind).
    assert (b ∈ before ++ a :: behind <-> b = a \/ b ∈ before ++ behind) as ->.
    { rewrite !elem_of_app, elem_of_cons. tauto. }
    rewrite H4. split.
    + intros [->|(x & Hx & Hl)]; [by exists q|]. exists x. split; [by apply Hkeep|done].
    + intros (x & Hx & Hl). destruct (Hq b) as [E|E]; [right|by left]. exists x. by rewrite <- E.
  - intros b x Hx Hl. destruct (decide (b = a)) as [->|Hne]; [congruence|]. rewrite Hsame in Hx by done. by apply (H5 b x).
  - intros b Hb. destruct (H6 b Hb) as (x & Hx & Hl). exists x. split; [by apply Hkeep|done].
  - change (num_ques st') with (num_ques st + 1). rewrite H7. simpl. rewrite map_size_insert_None by done. lia.
  - change (num_msgs st') with (num_msgs st). rewrite H8. simpl. rewrite msum_insert by done.
    rewrite (nq_msgs _ _ _ _ _ Hn). simpl. unfold tot. simpl. lia.
  - intros b x Hx. destruct (decide (b = a)) as [->|Hne].
    + rewrite Hnew in Hx. injection Hx as <-. apply Hn.
    + rewrite Hsame in Hx by done. by apply (H9 b).
  - intros tid t Ht. apply Hpc. by apply (H10 tid).
  - by apply Hpc.
  - intros tid t Ht Haw. pose proof (H13 tid t Ht Haw) as H. destruct (t_pc t); try done.
    + destruct H as (x & Hx & H). exists x. split; [by apply Hkeep|done].
    + destruct H as (x & Hx & H). exists x. split; [by apply Hkeep|done].
  - change (log st') with (log st ++ [Created a]). rewrite (spec_run_app _ _ _ H14). unfold contents. simpl.
    rewrite lookup_fmap, Ha. simpl. by rewrite fmap_insert, (nq_msgs _ _ _ _ _ Hn).
Qed.

(** ** Threads *)

(** The place of a thread that runs again: after a sleep there is nothing left of
    its part but that it holds the queue. *)
Definition run_of (l : pc) : pc := match l with RSleep l => CStat (r_que l) | _ => l end.

Lemma tot_delete st tid t r P :
  threads st !! tid = Some t -> one P r = one P (t_pc t) ->
  tot (set_threads (delete tid) st) r P = tot st idle P - one P idle.
Proof.
  intros Ht Hr. unfold tot. simpl. rewrite Hr. rewrite (msum_delete _ (threads st) tid t) by done. lia.
Qed.

Lemma tot_insert st tid l r P :
  threads st !! tid = None -> one P l = one P r ->
  tot (set_threads <[tid := Thread l false]> st) idle P = tot st r P + one P idle.
Proof. intros Ht Hr. unfold tot. simpl. rewrite msum_insert by done. simpl. lia. Qed.

(** A thread goes on. *)
Lemma inv_resumes st tid t :
  inv st idle -> threads st !! tid = Some t -> inv (set_threads (delete tid) st) (run_of (t_pc t)).
Proof.
  intros [H1 H2 H3 H4 H5 H6 H7 H8 H9 H10 H11 H12 H13 H15 H14] Ht.
  assert (Hth : forall b, tot (set_threads (delete tid) st) (run_of (t_pc t)) (holds b) = tot st idle (holds b)).
  { intros b. rewrite (tot_delete st tid t) by (done || by destruct (t_pc t)). apply Z.sub_0_r. }
  assert (Htr : forall b, tot (set_threads (delete tid) st) (run_of (t_pc t)) (removes b) = tot st idle (removes b)).
  { intros b. rewrite (tot_delete st tid t) by (done || by destruct (t_pc t)). apply Z.sub_0_r. }
  assert (Hold : forall i x, threads (set_threads (delete tid) st) !! i = Some x -> threads st !! i = Some x).
  { intros i x. simpl. by rewrite lookup_delete_Some; intros []. }
  assert (Hpc : forall l, pc_ok st l -> pc_ok (set_threads (delete tid) st) l) by (by intros []).
  split; try done.
  - intros b x. rewrite Hth. apply H1.
  - intros b. rewrite Hth. apply H2.
  - intros b x. rewrite Htr. apply H5.
  - intros b. rewrite Htr. apply H6.
  - rewrite (tot_delete st tid t) by (done || by destruct (t_pc t)). rewrite Z.sub_0_r. apply H8.
  - intros i x Hx. apply Hpc. apply (H10 i). by apply Hold.
  - apply Hpc. pose proof (H10 tid t Ht). by destruct (t_pc t).
  - intros b i. rewrite (tot_delete st tid t) by (done || by destruct (t_pc t)). rewrite Z.sub_0_r. apply H12.
  - intros i x Hx Haw. pose proof (H13 i x (Hold i x Hx) Haw) as H. destruct (t_pc x); try done.
    + destruct H as (q & Hq & E1 & E2 & E3). exists q. split_and!; try done. intros Hc.
      destruct (E3 Hc) as [?|[Hn ?]]; [by left|]. right. split; [|done]. simpl in *. unfold slack.
      destruct (run_of _); lia.
    + simpl in *. by rewrite Hth.
  - intros i x b Hx Haw Epc. pose proof (H15 i x b (Hold i x Hx) Haw Epc) as H.
    pose proof (msum_nonneg (fun t => one (holds b) (t_pc t)) (delete tid (threads st)) (fun t => one_nonneg (holds b) (t_pc t))).
    pose proof (msum_delete (fun t => one (holds b) (t_pc t)) (threads st) tid t Ht) as Hd.
    pose proof (one_nonneg (holds b) (t_pc t)) as Ho. assert (one (holds b) idle = 0) by done.
    unfold tot in *. simpl in *. lia.
Qed.

(** A thread stops on a queue that lives. *)
Record stops (st : mst) (l : pc) : Prop := Stops {
  st_pc : pc_ok st l;
  st_asleep : asleep_ok st (run_of l) l;
  st_live : forall a, holds a l = true -> exists q, ques st !! a = Some q /\ flag q MSGQ_DYING = false;
}.

Lemma inv_halts st tid l :
  inv st (run_of l) -> stops st l -> threads st !! tid = None ->
  inv (set_threads <[tid := Thread l false]> st) idle.
Proof.
  intros Hi [Hl Hsl Hlv] Ht. pose proof Hi as [H1 H2 H3 H4 H5 H6 H7 H8 H9 H10 H11 H12 H13 H15 H14].
  assert (Hth : forall b, tot (set_threads <[tid := Thread l false]> st) idle (holds b) = tot st (run_of l) (holds b)).
  { intros b. rewrite (tot_insert st tid l (run_of l)) by (done || by destruct l). apply Z.add_0_r. }
  assert (Htr : forall b, tot (set_threads <[tid := Thread l false]> st) idle (removes b) = tot st (run_of l) (removes b)).
  { intros b. rewrite (tot_insert st tid l (run_of l)) by (done || by destruct l). apply Z.add_0_r. }
  assert (Hpc : forall x, pc_ok st x -> pc_ok (set_threads <[tid := Thread l false]> st) x) by (by intros []).
  assert (Has : forall x, asleep_ok st (run_of l) x -> asleep_ok (set_threads <[tid := Thread l false]> st) idle x).
  { intros x H. destruct x; try done.
    - destruct H as (q & Hq & E1 & E2 & E3). exists q. split_and!; try done. intros Hc.
      destruct (E3 Hc) as [?|[Hn ?]]; [by left|]. right. split; [|done]. simpl in *. by destruct l.
    - simpl in *. by rewrite Hth. }
  split; try done.
  - intros b x. rewrite Hth. apply H1.
  - intros b. rewrite Hth. apply H2.
  - intros b x. rewrite Htr. apply H5.
  - intros b. rewrite Htr. apply H6.
  - rewrite (tot_insert st tid l (run_of l)) by (done || by destruct l). rewrite Z.add_0_r. apply H8.
  - intros i x. simpl. rewrite lookup_insert_Some. intros [[_ <-]|[_ Hx]]; [by apply Hpc|]. apply Hpc. by apply (H10 i).
  - intros b i. rewrite (tot_insert st tid l (run_of l)) by (done || by destruct l). rewrite Z.add_0_r. apply H12.
  - intros i x. simpl. rewrite lookup_insert_Some. intros [[_ <-]|[_ Hx]] Haw; [by apply Has|]. apply Has. by apply (H13 i).
  - intros i x b. simpl. rewrite lookup_insert_Some. intros [[_ <-]|[_ Hx]] Haw Epc; [done|].
    pose proof (H15 i x b Hx Haw Epc) as H. unfold tot in *. simpl in *. rewrite msum_insert by done.
    enough (one (holds b) l = 0) by (simpl; lia). unfold one. destruct (holds b l) eqn:E; [|done].
    destruct (Hlv b E) as (q & Hq & Hd). pose proof (live_removes st _ b q Hi Hq Hd) as Hr.
    pose proof (tot_thread st (run_of l) (removes b) i x Hx) as Hx'. pose proof (one_nonneg (removes b) (run_of l)).
    rewrite Epc in Hx'. unfold one at 1 in Hx'. simpl in Hx'. rewrite Z.eqb_refl in Hx'. lia.
Qed.

End life.

End MsgLife.
