(* ===== verification/MsgCalls.v ===== *)
(** * System V messages: the pieces of the calls

    Each piece of a call, from one place where it can stop to the next, comes to an
    end without a panic and keeps the invariant. *)

From Stdlib Require Import Sorted.
From S2P Require Import Prelude Ipc Msg MsgInv MsgRun MsgStep MsgLife.
Import Ipc Msg MsgInv MsgRun MsgStep MsgLife.

Module MsgCalls.

(** No other thread copies out the message that this one is about to copy. *)
Definition race_free (st : mst) (l : pc) : Prop := forall b i, picks b i l = true -> tot st idle (picks b i) = 0.

Definition returns (l : pc) : bool := match l with Ret _ _ _ => true | _ => false end.

Lemma lens_nonneg l : Forall msg_ok l -> 0 <= lens l.
Proof. induction 1 as [|m l [_ Hm _] _ IH]; [done|]. unfold lens in *. simpl. lia. Qed.

Section calls.
Variable (calm : Prop).
#[local] Abbreviation inv := (inv calm).
#[local] Abbreviation que_ok := (que_ok calm).
#[local] Abbreviation asleep_ok := (asleep_ok calm).

(** A piece that started in [st] with the threads [ths] of others: it ends, at a place where it
    may stop, and what it says of itself is true of it. *)
Record ended (ths : gmap Z thread) (says : mst -> pc -> Prop) (r : outcome (mst * pc)) (st : mst) (l : pc) : Prop := Ended {
  en_ok : r = Ok (st, l);
  en_stops : stops calm st l;
  en_inv : race_free st l -> inv st (run_of l);
  en_threads : returns l = false -> forall tid, ths !! tid = None -> threads st !! tid = None;
  en_says : says st l;
}.

Definition ends (ths : gmap Z thread) (says : mst -> pc -> Prop) (r : outcome (mst * pc)) : Prop :=
  exists st l, ended ths says r st l.

(** The log gets no entry. *)
Definition silent (st : mst) : mst -> pc -> Prop := fun st' _ => log st' = log st.

Lemma stops_ret st e v o : stops calm st (Ret e v o).
Proof. by split. Qed.

Lemma ends_ret ths (says : mst -> pc -> Prop) st e v o :
  inv st (Ret e v o) -> says st (Ret e v o) -> ends ths says (Ok (st, Ret e v o)).
Proof. intros Hi Hs. exists st, (Ret e v o). split; [done|apply stops_ret|done|done|done]. Qed.

Lemma ends_leave ths (says : mst -> pc -> Prop) st a e v o :
  inv st (CStat a) -> (forall st', log st' = log st -> says st' (Ret e v o)) -> ends ths says (leave st a e v o).
Proof.
  intros Hi Hs. destruct (leave_ok calm st a e v o Hi) as (st' & E & Hi' & El). rewrite E. by apply ends_ret; [|apply Hs].
Qed.

(** Any thread that returns is as good as an idle one. *)
Lemma inv_ret st e v o : inv st idle -> inv st (Ret e v o).
Proof. intros Hi. apply (inv_switch calm st idle (Ret e v o) Hi); try done. intros _. by left. Qed.

(** Only the part of holding the queue is left. *)
Lemma inv_hold st r a :
  inv st r -> (forall b, holds b r = (a =? b)) -> (forall b, removes b r = false) -> fills r = false -> slack r = 0 ->
  inv st (CStat a).
Proof.
  intros Hi Hh Hr Hf Hs. apply (inv_switch calm st r (CStat a) Hi); try done.
  intros _. rewrite Hs. by left.
Qed.

(** ** Looking for a queue *)

Lemma find_que_ok st f l :
  Forall (fun a => exists q, ques st !! a = Some q) l ->
  exists r, find_que st f l = Ok r /\
    match r with
    | Some (a, q) => a ∈ l /\ ques st !! a = Some q /\ f q = true
    | None => Forall (fun a => forall q, ques st !! a = Some q -> f q = false) l
    end.
Proof.
  induction 1 as [|a l [q Ha] _ IH]; simpl; [by exists None|]. rewrite (deref_que st a q Ha). cbn [mbind outcome_bind].
  destruct (f q) eqn:E; [exists (Some (a, q)); split; [done|]; split; [by left|done]|].
  destruct IH as (r & -> & Hr). exists r. split; [done|]. destruct r as [[b x]|].
  - destruct Hr as (H1 & H2 & H3). split; [by right|done].
  - constructor; [|done]. intros q' Hq'. congruence.
Qed.

Lemma listed st r : inv st r -> Forall (fun a => exists q, ques st !! a = Some q) (msg_queues st).
Proof. intros Hi. apply Forall_forall. intros a Ha. apply (iv_live _ _ _ Hi) in Ha as (q & Hq & _). by exists q. Qed.

(** What a search over the list finds lives. *)
Lemma live_found st r f :
  inv st r ->
  exists o, (r ← find_que st f (msg_queues st); Ok (not_dying r)) = Ok o /\
    match o with
    | Some a => exists q, ques st !! a = Some q /\ flag q MSGQ_DYING = false /\ f q = true
    | None => forall a q, ques st !! a = Some q -> flag q MSGQ_DYING = false -> f q = false
    end.
Proof.
  intros Hi. destruct (find_que_ok st f (msg_queues st) (listed st r Hi)) as (o & -> & Ho). cbn [mbind outcome_bind].
  eexists. split; [done|]. destruct o as [[a q]|]; simpl.
  - destruct Ho as (H1 & H2 & H3). apply (iv_live _ _ _ Hi) in H1 as (q' & Hq' & Hd). assert (q' = q) as -> by congruence.
    rewrite Hd. by exists q.
  - intros a q Ha Hd. rewrite Forall_forall in Ho. apply (Ho a); [|done]. apply (iv_live _ _ _ Hi). by exists q.
Qed.

Lemma que_lookup_ok st r id :
  inv st r ->
  exists o, que_lookup st id = Ok o /\
    match o with
    | Some a => exists q, ques st !! a = Some q /\ flag q MSGQ_DYING = false /\ (que_ix q =? IPCID_TO_IX id) = true
    | None => forall a q, ques st !! a = Some q -> flag q MSGQ_DYING = false -> (que_ix q =? IPCID_TO_IX id) = false
    end.
Proof. intros Hi. by apply (live_found st r). Qed.

Lemma que_key_lookup_ok st r k :
  inv st r ->
  exists o, que_key_lookup st k = Ok o /\
    match o with
    | Some a => exists q, ques st !! a = Some q /\ flag q MSGQ_DYING = false /\ key (msg_perm (q_ds q)) = k
    | None => k = IPC_PRIVATE \/
        forall a q, ques st !! a = Some q -> flag q MSGQ_DYING = false -> key (msg_perm (q_ds q)) <> k
    end.
Proof.
  intros Hi. unfold que_key_lookup. destruct (Z.eqb_spec k IPC_PRIVATE) as [E|E]; [exists None; split; [done|by left]|].
  destruct (live_found st r (fun q => key (msg_perm (q_ds q)) =? k) Hi) as (o & -> & Ho). exists o. split; [done|].
  destruct o as [a|].
  - destruct Ho as (q & Hq & Hd & Hk). apply Z.eqb_eq in Hk. by exists q.
  - right. intros a q Ha Hd. apply Z.eqb_neq. by apply (Ho a).
Qed.

(** ** msgget *)

Lemma sys_msgget_ok st cred k flg :
  inv st idle -> ends (threads st) (silent st) (sys_msgget st cred k flg).
Proof.
  intros Hi. unfold sys_msgget.
  assert (Hf : exists o, (if k =? IPC_PRIVATE then Ok None else que_key_lookup st k) = Ok o /\
    match o with Some a => exists q, ques st !! a = Some q | None => True end).
  { destruct (k =? IPC_PRIVATE); [by exists None|]. destruct (que_key_lookup_ok st idle k Hi) as (o & -> & Ho).
    exists o. split; [done|]. destruct o; [|done]. destruct Ho as (q & Hq & _). by exists q. }
  destruct Hf as (o & -> & Ho). cbn [mbind outcome_bind]. destruct o as [a|].
  - destruct Ho as [q Ha]. rewrite (deref_que st a q Ha). cbn [mbind outcome_bind].
    destruct (_ && _); apply ends_ret; try done; by apply inv_ret.
  - destruct (_ && _); [apply ends_ret; [by apply inv_ret|done]|].
    destruct (_ <=? _); [apply ends_ret; [by apply inv_ret|done]|].
    exists st, (GAlloc cred k flg). split; [done|by split|intros _|done|done].
    apply (inv_switch calm st idle (GAlloc cred k flg) Hi); try done. intros _. by left.
Qed.

Lemma inv_ready st cred k flg : inv st (GAlloc cred k flg) -> inv st idle.
Proof. intros Hi. apply (inv_switch calm st _ idle Hi); try done. intros _. by left. Qed.

(** A new queue has the lowest index that is free. *)
Lemma que_create_ok st now a cred k m :
  inv st idle -> ques st !! a = None ->
  exists st' o, que_create st now a cred k m = Ok (st', o) /\ inv st' idle /\
    match o with
    | None => st' = st
    | Some b => b = a /\ log st' = log st ++ [Created a] /\ exists q, ques st' !! a = Some q /\ que_msgs q = []
    end.
Proof.
  intros Hi Ha. unfold que_create. destruct (que_key_lookup_ok st idle k Hi) as (o & -> & _). cbn [mbind outcome_bind].
  destruct o as [b|]; [exists st, None; by split_and!|].
  destruct (next_ix_ok st (msg_queues st) 1) as (bf & bh & E & El & Eb & Hbh).
  { by apply (listed st idle). }
  { apply Hi. }
  { apply Forall_forall. intros b Hb. apply (iv_live _ _ _ Hi) in Hb as (q & Hq & _). unfold ix_of. rewrite Hq.
    by destruct (iv_que _ _ _ Hi b q Hq). }
  rewrite E. cbn [mbind outcome_bind]. eexists _, (Some a). split; [done|]. split; [|split; [done|]; split; [done|]].
  - apply (inv_created calm st a); [done|done|]. split; simpl; try done.
    + split; simpl; try done.
      * constructor.
      * lia.
      * change 0x7fff with (Z.ones 15). rewrite Z.land_ones by lia. by apply Z.mod_pos_bound.
    + apply (proj1 (Forall_fmap (ix_of st) (fun x => x < 1 + Z.of_nat (length bf)) bf)). rewrite Eb. apply Forall_forall.
      intros x Hx%elem_of_seqZ. lia.
  - eexists. split; [apply lookup_insert_eq|done].
Qed.

Lemma msgget_alloc_ok st now a cred k flg :
  inv st (GAlloc cred k flg) -> ques st !! a = None ->
  ends (threads st) (fun st' l => log st' = log st \/ log st' = log st ++ [Created a]) (msgget_alloc st now a cred k flg).
Proof.
  intros Hi%inv_ready Ha. unfold msgget_alloc.
  destruct (que_create_ok st now a cred k (flg .& 0x1ff) Hi Ha) as (st' & o & -> & Hi' & Ho). cbn [mbind outcome_bind].
  destruct o as [b|].
  - destruct Ho as (-> & El & q & Hq & _). rewrite (deref_que st' a q Hq). cbn [mbind outcome_bind].
    apply ends_ret; [by apply inv_ret|by right].
  - rewrite Ho. destruct (sys_msgget_ok st cred k flg Hi) as (st1 & l & [H1 H2 H3 H4 H5]). exists st1, l. split; try done.
    by left.
Qed.

(** ** msgsnd *)

(** A flag goes up. *)
Lemma inv_raise st r a q f :
  inv st r -> ques st !! a = Some q -> has f MSGQ_DYING = false -> inv (store a (raise f q) st) r.
Proof.
  intros Hi Ha Hf. apply (inv_store calm st r a q); [done|done| | |done].
  - split; [done|done|by apply raise_keeps|]. right. unfold flag. simpl. rewrite !flag_lor.
    split_and!; [by intros ->|by intros ->|done].
  - destruct (iv_que _ _ _ Hi a q Ha). by split.
Qed.

(** The room of a queue, where it is what the code takes it for. *)
Lemma space_room n q : calm -> que_ok n q -> MSGQ_SPACE q = msg_qbytes (q_ds q) - lens (que_msgs q).
Proof.
  intros Hc []. unfold MSGQ_SPACE. rewrite qo_cbytes0. pose proof (lens_nonneg _ qo_msgs0). specialize (qo_room0 Hc).
  unfold MSGMNB in *. rewrite (wrapu_small 64 (lens _)) by (unfold inu; lia). apply wrapu_small. unfold inu. lia.
Qed.

Lemma send_loop_ok st l q :
  inv st (CStat (s_que l)) -> ques st !! s_que l = Some q -> flag q MSGQ_DYING = false -> 0 <= s_sz l <= MSGMNB ->
  ends (threads st) (silent st) (send_loop st l).
Proof.
  intros Hi Ha Hd Hsz. unfold send_loop. rewrite (deref_que st _ q Ha). cbn [mbind outcome_bind].
  destruct ((MSGQ_SPACE q <? s_sz l) || (msgtql limits <=? num_msgs st)) eqn:Eb.
  - destruct (s_nowait l); [by apply ends_leave|].
    set (st1 := if msgtql limits <=? num_msgs st then set_maxmsgs 1 st else st).
    assert (Hi1 : inv st1 (CStat (s_que l))).
    { unfold st1. destruct (_ <=? _); [|done]. by apply inv_maxmsgs. }
    assert (E1 : ques st1 = ques st /\ threads st1 = threads st /\ log st1 = log st).
    { unfold st1. by destruct (_ <=? _). }
    destruct E1 as (Eq & Et & El). rewrite <- Eq in Ha.
    pose proof (inv_raise st1 _ (s_que l) q MSGQ_WRITERS Hi1 Ha eq_refl) as Hi2.
    exists (store (s_que l) (raise MSGQ_WRITERS q) st1), (SSleep l). split; [done| | | |done].
    + split; [done| |].
      * exists (raise MSGQ_WRITERS q). split; [apply lookup_insert_eq|]. rewrite raise_keeps, raise_has by done.
        split_and!; [done|done|]. intros Hc. unfold blocked. simpl.
        rewrite <- (space_room (serial st1) q Hc) by (by apply (iv_que _ _ _ Hi1 (s_que l))).
        apply orb_true_iff in Eb as [Eb|Eb]; [left; by apply Z.ltb_lt|]. right. unfold st1. rewrite Eb. simpl.
        apply Z.leb_le in Eb. simpl in Eb. lia.
      * intros b Hb. simpl in Hb. apply Z.eqb_eq in Hb as <-. exists (raise MSGQ_WRITERS q).
        split; [apply lookup_insert_eq|]. by rewrite raise_keeps.
    + intros _. apply (inv_switch calm _ _ (SSleep l) Hi2); try done. intros _. by left.
    + intros _ tid. by rewrite <- Et.
  - exists st, (SAlloc l). split; [done| | |done|done].
    + split; [done|done|]. intros b Hb. simpl in Hb. apply Z.eqb_eq in Hb as <-. by exists q.
    + intros _. apply (inv_switch calm _ _ (SAlloc l) Hi); try done. intros _. by left.
Qed.

(** Taking hold of a queue that a search found. *)
Lemma hold_ok st a q :
  inv st idle -> ques st !! a = Some q ->
  exists st' q', QREF a st = Ok st' /\ inv st' (CStat a) /\ log st' = log st /\ threads st' = threads st /\
    ques st' !! a = Some q' /\ q_ds q' = q_ds q /\ que_msgs q' = que_msgs q /\ forall f, flag q' f = flag q f.
Proof.
  intros Hi Ha. destruct (QREF_ok calm st a q 0 0 ONone Hi Ha) as (st' & E1 & E2 & E3 & E4 & q' & E5 & E6 & E7 & E8).
  exists st', q'. split_and!; try done. intros f. by apply flag_same.
Qed.

Lemma ends_mono ths ths' says (says' : mst -> pc -> Prop) r :
  ends ths says r -> (forall tid, ths' !! tid = None -> ths !! tid = None) ->
  (forall st l, says st l -> says' st l) -> ends ths' says' r.
Proof.
  intros (st & l & [H1 H2 H3 H4 H5]) Ht Hs. exists st, l. split; try done; [|by apply Hs].
  intros Hl tid Htid. by apply H4, Ht.
Qed.

Lemma sys_msgsnd_ok st pid cred id sz flg :
  inv st idle -> 0 <= sz -> ends (threads st) (silent st) (sys_msgsnd st pid cred id sz flg).
Proof.
  intros Hi Hsz. unfold sys_msgsnd. destruct (que_lookup_ok st idle id Hi) as (o & -> & Ho). cbn [mbind outcome_bind].
  destruct o as [a|]; [|apply ends_ret; [by apply inv_ret|done]]. destruct Ho as (q & Ha & Hd & _).
  rewrite (deref_que st a q Ha). cbn [mbind outcome_bind].
  destruct (Z.ltb_spec (msg_qbytes (q_ds q)) sz) as [|Hle]; [apply ends_ret; [by apply inv_ret|done]|]. simpl.
  destruct (_ <? _); [apply ends_ret; [by apply inv_ret|done]|].
  destruct (negb _); [apply ends_ret; [by apply inv_ret|done]|].
  destruct (hold_ok st a q Hi Ha) as (st1 & q1 & -> & Hi1 & El & Et & Hq1 & _ & _ & Ef). cbn [mbind outcome_bind].
  rewrite <- Ef in Hd. eapply ends_mono; [eapply (send_loop_ok st1 (Snd a sz _ pid) q1); try done|by rewrite <- Et|].
  - simpl. destruct (iv_que _ _ _ Hi a q Ha). lia.
  - intros st' l. unfold silent. by intros ->.
Qed.

Lemma send_woken_ok st l error :
  inv st (SSleep l) -> ends (threads st) (silent st) (send_woken st l error).
Proof.
  intros Hi. destruct (held_que calm st _ (s_que l) Hi (Z.eqb_refl _)) as (q & Ha & _).
  pose proof (iv_run _ _ _ Hi) as Hsz. simpl in Hsz. apply inv_hold with (a := s_que l) in Hi; try done.
  unfold send_woken. destruct (negb _); [by apply ends_leave|]. rewrite (deref_que st _ q Ha). cbn [mbind outcome_bind].
  destruct (flag q MSGQ_DYING) eqn:Ed; [by apply ends_leave|]. by apply (send_loop_ok st l q).
Qed.

Lemma send_create_ok st l :
  inv st (SAlloc l) -> ends (threads st) (silent st) (send_create st l).
Proof.
  intros Hi. destruct (held_que calm st _ (s_que l) Hi (Z.eqb_refl _)) as (q & Ha & _).
  pose proof (iv_run _ _ _ Hi) as Hsz. unfold send_create. rewrite (deref_que st _ q Ha). cbn [mbind outcome_bind].
  destruct (flag q MSGQ_DYING) eqn:Ed.
  - apply inv_hold with (a := s_que l) in Hi; try done. apply ends_leave; [by apply inv_woken_up|done].
  - exists (set_num_msgs (num_msgs st + 1) st), (SCopy l). split; [done| | |done|done].
    + split; [done|done|]. intros b Hb. simpl in Hb. apply Z.eqb_eq in Hb as <-. by exists q.
    + intros _. apply (inv_count calm st (SAlloc l) (SCopy l)); try done.
      * unfold one. simpl. lia.
      * intros _. left. simpl. lia.
Qed.

(** What [msgsnd] puts on its queue. *)
Definition sent (l : snd) (type : option Z) (mem : list Z) (m : msg) : Prop :=
  type = Some (msg_type m) /\ msg_len m = Z.of_nat (length (concat (msg_data m))) /\
  take (Z.to_nat (s_sz l)) (concat (msg_data m)) = take (Z.to_nat (s_sz l)) mem /\
  (s_sz l <= MLEN \/ MINCLSIZE <= s_sz l -> msg_len m = s_sz l).

Lemma sent_ok l type mem ty n data i :
  0 <= s_sz l <= MSGMNB -> msg_copyin type mem (s_sz l) = inl (ty, n, data) -> sent l type mem (MkMsg i ty n data).
Proof.
  intros Hsz E. destruct (msg_copyin_ok type mem (s_sz l) ty n data i Hsz E) as (E1 & E2 & E3 & Hm).
  unfold sent. cbn [msg_type msg_len msg_data]. split_and!; [done|by destruct Hm| |].
  - rewrite E3, take_take. f_equal. subst n. unfold stored, MLEN, MINCLSIZE, MHLEN, MLEN, MSIZE in *.
    destruct (_ || _) eqn:Eb; [lia|]. apply orb_false_iff in Eb as [? ?]. lia.
  - intros Hg. subst n. unfold stored. assert ((s_sz l <=? MLEN) || (MINCLSIZE <=? s_sz l) = true) as ->; [|done].
    apply orb_true_iff. rewrite !Z.leb_le. done.
Qed.

Definition send_says (st : mst) (l : snd) (type : option Z) (mem : list Z) (st' : mst) (r : pc) : Prop :=
  (exists error, r = Ret error 0 ONone /\ msg_copyin type mem (s_sz l) = inr error /\ log st' = log st) \/
  (exists m, (r = Ret 0 0 ONone \/ r = Ret EIDRM 0 ONone) /\ sent l type mem m /\
     log st' = log st ++ [Sent (s_que l) m]).

(** The state after [msg_enqueue] and waking the receivers. *)
Lemma enqueue_ok st now l q ty n data :
  inv st (SCopy l) -> ques st !! s_que l = Some q -> msg_ok (MkMsg (serial st) ty n data) ->
  (calm -> lens (que_msgs q) + n <= msg_qbytes (q_ds q)) ->
  exists st' q', (st ← msg_enqueue st now (s_que l) (s_pid l) ty n data;
     q ← deref st (s_que l);
     Ok (if flag q MSGQ_READERS then wakeup (OnQue (s_que l)) (store (s_que l) (lower MSGQ_READERS q) st) else st))
      = Ok st' /\ inv st' (CStat (s_que l)) /\ ques st' !! s_que l = Some q' /\
    log st' = log st ++ [Sent (s_que l) (MkMsg (serial st) ty n data)].
Proof.
  intros Hi Ha Hm Hroom. set (a := s_que l). set (m := MkMsg (serial st) ty n data).
  unfold msg_enqueue. rewrite (deref_que st a q Ha). cbn [mbind outcome_bind].
  set (d := Msqid _ _ _ _ _ _ _ _ _). assert (Hpush : pushed (msg_len m) (q_ds q) d) by done.
  unfold deref. simpl. rewrite lookup_insert_eq. cbn [mbind outcome_bind].
  match goal with |- context [flag ?x MSGQ_READERS] => change (flag x MSGQ_READERS) with (flag q MSGQ_READERS) end. destruct (flag q MSGQ_READERS) eqn:Ef.
  - pose proof (inv_lower calm st _ a q MSGQ_READERS Hi Ha eq_refl) as Hi1.
    set (st1 := wakeup (OnQue a) (store a (lower MSGQ_READERS q) st)) in *.
    assert (Ha1 : ques st1 !! a = Some (lower MSGQ_READERS q)) by apply lookup_insert_eq.
    pose proof (inv_push calm st1 l (lower MSGQ_READERS q) d m Hi1 Ha1 eq_refl Hm Hpush Hroom
      (or_introl (quiet_wakeup _ _))) as Hi2.
    eexists _, _. split; [done|]. split_and!; [|apply lookup_insert_eq|done].
    unfold with_que in Hi2. simpl in Hi2. fold a in Hi2. rewrite insert_insert_eq in Hi2.
    unfold wakeup, store, set_ques, set_threads. simpl. rewrite insert_insert_eq. exact Hi2.
  - eexists _, _. split; [done|]. split_and!; [|apply lookup_insert_eq|done].
    apply (inv_push calm st l q d m); try done. by right.
Qed.

Lemma send_copied_ok st now l type mem :
  inv st (SCopy l) ->
  (calm -> match msg_copyin type mem (s_sz l) with
           | inr _ => maxmsgs st = 0
           | inl (_, n, _) => forall q, ques st !! s_que l = Some q -> lens (que_msgs q) + n <= msg_qbytes (q_ds q)
           end) ->
  ends (threads st) (send_says st l type mem) (send_copied st now l type mem).
Proof.
  intros Hi Hcalm. destruct (held_que calm st _ (s_que l) Hi (Z.eqb_refl _)) as (q & Ha & Hq).
  pose proof (iv_run _ _ _ Hi) as Hsz. simpl in Hsz. unfold send_copied.
  destruct (msg_copyin type mem (s_sz l)) as [[[ty n] data]|error] eqn:Ec.
  - destruct (msg_copyin_ok type mem (s_sz l) ty n data (serial st) Hsz Ec) as (E1 & E2 & E3 & Hm).
    destruct (enqueue_ok st now l q ty n data Hi Ha Hm) as (st1 & q1 & E & Hi1 & Hq1 & El).
    { intros Hc. by apply (Hcalm Hc). }
    destruct (msg_enqueue st now (s_que l) (s_pid l) ty n data) as [st2|]; cbn [mbind outcome_bind] in E |- *; try done.
    destruct (deref st2 (s_que l)) as [q2|]; cbn [mbind outcome_bind] in E |- *; try done.
    injection E as ->. rewrite (deref_que st1 _ q1 Hq1). cbn [mbind outcome_bind].
    pose proof (sent_ok l type mem ty n data (serial st) Hsz Ec) as Hsent.
    destruct (flag q1 MSGQ_DYING); apply ends_leave; try done.
    + by apply inv_woken_up.
    + intros st' El'. right. eexists. split; [by right|]. split; [exact Hsent|]. by rewrite El', <- El.
    + intros st' El'. right. eexists. split; [by left|]. split; [exact Hsent|]. by rewrite El', <- El.
  - apply ends_leave; [|intros st' El; left; by exists error].
    apply (inv_count calm st (SCopy l) (CStat (s_que l))); try done.
    + unfold one. simpl. lia.
    + intros Hc. right. by apply Hcalm.
Qed.

(** ** msgrcv *)

Lemma recv_loop_ok st l q :
  inv st (CStat (r_que l)) -> ques st !! r_que l = Some q -> flag q MSGQ_DYING = false ->
  ends (threads st) (silent st) (recv_loop st l).
Proof.
  intros Hi Ha Hd. unfold recv_loop. rewrite (deref_que st _ q Ha). cbn [mbind outcome_bind].
  destruct (msg_lookup q (r_typ l)) as [m|] eqn:El.
  - exists st, (RCopy l m). split; [done| | |done|done].
    + split; [by exists q|done|]. intros b Hb. simpl in Hb. apply Z.eqb_eq in Hb as <-. by exists q.
    + intros Hr. apply (inv_switch calm st _ (RCopy l m) Hi); try done; [intros _; by left|]. by exists q.
  - destruct (r_nowait l); [by apply ends_leave|].
    exists (store (r_que l) (raise MSGQ_READERS q) st), (RSleep l). split; [done| | |done|done].
    + split; [done| |].
      * exists (raise MSGQ_READERS q). split; [apply lookup_insert_eq|]. by rewrite raise_keeps, raise_has.
      * intros b Hb. simpl in Hb. apply Z.eqb_eq in Hb as <-. exists (raise MSGQ_READERS q).
        split; [apply lookup_insert_eq|]. by rewrite raise_keeps.
    + intros _. by apply inv_raise.
Qed.

Lemma sys_msgrcv_ok st pid cred id sz typ flg :
  inv st idle -> ends (threads st) (silent st) (sys_msgrcv st pid cred id sz typ flg).
Proof.
  intros Hi. unfold sys_msgrcv. destruct (que_lookup_ok st idle id Hi) as (o & -> & Ho). cbn [mbind outcome_bind].
  destruct o as [a|]; [|apply ends_ret; [by apply inv_ret|done]]. destruct Ho as (q & Ha & Hd & _).
  rewrite (deref_que st a q Ha). cbn [mbind outcome_bind].
  destruct (negb _); [apply ends_ret; [by apply inv_ret|done]|].
  destruct (hold_ok st a q Hi Ha) as (st1 & q1 & -> & Hi1 & El & Et & Hq1 & _ & _ & Ef). cbn [mbind outcome_bind].
  rewrite <- Ef in Hd. eapply ends_mono; [by eapply (recv_loop_ok st1 (Rcv a sz typ _ pid) q1)|by rewrite <- Et|].
  intros st' l. unfold silent. by intros ->.
Qed.

Lemma recv_woken_ok st l error :
  inv st (CStat (r_que l)) -> ends (threads st) (silent st) (recv_woken st l error).
Proof.
  intros Hi. destruct (held_que calm st _ (r_que l) Hi (Z.eqb_refl _)) as (q & Ha & _).
  unfold recv_woken. destruct (negb _); [by apply ends_leave|]. rewrite (deref_que st _ q Ha). cbn [mbind outcome_bind].
  destruct (flag q MSGQ_DYING) eqn:Ed; [by apply ends_leave|]. by apply (recv_loop_ok st l q).
Qed.

(** What [msgrcv] hands to the user: the message, byte for byte, and its length, if
    it fits the size given; otherwise the bytes up to the size that is returned are
    those of the message. *)
Definition recv_says (st : mst) (l : rcv) (m : msg) (st' : mst) (r : pc) : Prop :=
  (exists error out, r = Ret error 0 out /\ error <> 0 /\ log st' = log st) \/
  (exists n bytes, r = Ret 0 n (OMsg (msg_type m) bytes) /\ n = Z.min (u32 (r_sz l)) (msg_len m) /\
   take (Z.to_nat n) bytes = take (Z.to_nat n) (concat (msg_data m)) /\
   (msg_len m <= u32 (r_sz l) -> bytes = concat (msg_data m)) /\
   log st' = log st ++ [Received (r_que l) (s32 (r_typ l)) m]).

Lemma put_mbufs_all data room bytes : put_mbufs data room = (bytes, 0) -> bytes = concat data.
Proof.
  revert room bytes. induction data as [|b data IH]; simpl; intros room bytes; [by intros [= <-]|].
  destruct (_ <? _); [done|]. destruct (put_mbufs data _) as [bs e] eqn:E. intros [= <- ->]. by rewrite (IH _ _ E).
Qed.

(** The state after [msg_dequeue] and waking the senders of the queue. *)
Lemma dequeue_ok st now l m q :
  inv st (RCopy l m) -> ques st !! r_que l = Some q ->
  exists st', (st ← msg_dequeue st now (r_que l) (r_pid l) (s32 (r_typ l)) m;
     let st := msg_free 1 st in
     q ← deref st (r_que l);
     Ok (if flag q MSGQ_WRITERS then wakeup (OnQue (r_que l)) (store (r_que l) (lower MSGQ_WRITERS q) st) else st))
      = Ok st' /\ inv st' (RSleep l) /\ log st' = log st ++ [Received (r_que l) (s32 (r_typ l)) m].
Proof.
  intros Hi Ha. set (a := r_que l). pose proof (iv_run _ _ _ Hi) as (q0 & Hq0 & Hl). assert (q0 = q) as -> by congruence.
  unfold msg_dequeue. rewrite (deref_que st a q Ha). cbn [mbind outcome_bind].
  assert (existsb (is_msg m) (que_msgs q) = true) as ->.
  { apply List.existsb_exists. exists m. split; [by apply (List.find_some _ _ Hl)|apply Z.eqb_refl]. }
  set (d := Msqid _ _ _ _ _ _ _ _ _). assert (Hpop : popped (msg_len m) (q_ds q) d) by done.
  unfold deref. simpl. rewrite lookup_insert_eq. cbn [mbind outcome_bind].
  match goal with |- context [flag ?x MSGQ_WRITERS] => change (flag x MSGQ_WRITERS) with (flag q MSGQ_WRITERS) end.
  destruct (flag q MSGQ_WRITERS) eqn:Ef.
  - pose proof (inv_lower calm st _ a q MSGQ_WRITERS Hi Ha eq_refl) as Hi1.
    set (st1 := wakeup (OnQue a) (store a (lower MSGQ_WRITERS q) st)) in *.
    assert (Ha1 : ques st1 !! a = Some (lower MSGQ_WRITERS q)) by apply lookup_insert_eq.
    pose proof (inv_pop calm st1 l (lower MSGQ_WRITERS q) d m Hi1 Ha1 Hpop (or_introl (quiet_wakeup _ _))) as Hi2.
    eexists. split; [done|]. split; [|done].
    unfold with_que in Hi2. simpl in Hi2. fold a in Hi2. rewrite insert_insert_eq in Hi2.
    unfold wakeup, store, set_ques, set_threads, msg_free, set_num_msgs, tell. simpl. rewrite insert_insert_eq. exact Hi2.
  - eexists. split; [done|]. split; [|done].
    apply (inv_pop calm st l q d m); try done. by right.
Qed.

Lemma recv_copied_ok st now l m type_ok room :
  inv st (RCopy l m) -> ends (threads st) (recv_says st l m) (recv_copied st now l m type_ok room).
Proof.
  intros Hi. pose proof (iv_run _ _ _ Hi) as (q & Ha & Hl). pose proof (List.find_some _ _ Hl) as [Hin _].
  assert (Hm : msg_ok m).
  { destruct (iv_que _ _ _ Hi _ q Ha). rewrite Forall_forall in qo_msgs0. by apply qo_msgs0, list_elem_of_In. }
  assert (Hlen : 0 <= msg_len m <= MSGMNB) by (destruct Hm; lia).
  unfold recv_copied. rewrite (deref_que st _ q Ha). cbn [mbind outcome_bind].
  assert (existsb (is_msg m) (que_msgs q) = true) as -> by (apply List.existsb_exists; exists m; split; [done|apply Z.eqb_refl]).
  unfold msg_copyout. rewrite (proj2 (Z.ltb_ge MSGMAX (msg_len m))) by (unfold MSGMNB, MSGMAX, MSGSSZ, MSGSEG in *; lia).
  simpl negb. cbv iota. pose proof (inv_hold st _ (r_que l) Hi) as Hh.
  destruct type_ok; cbn [negb]; cbv iota; cbn [mbind outcome_bind].
  2: { apply ends_leave; [by apply Hh|]. intros st' El. left. by eexists _, _. }
  destruct (put_mbufs (msg_data m) room) as [bytes error] eqn:Ep. cbn [mbind outcome_bind].
  destruct (Z.eqb_spec error 0) as [->|Hne]; cbn [negb]; cbv iota.
  2: { apply ends_leave; [by apply Hh|]. intros st' El. left. by eexists _, _. }
  destruct (dequeue_ok st now l m q Hi Ha) as (st1 & E & Hi1 & El1).
  destruct (msg_dequeue st now (r_que l) (r_pid l) (s32 (r_typ l)) m) as [st2|]; cbn [mbind outcome_bind] in E |- *; [|done].
  destruct (deref (msg_free 1 st2) (r_que l)) as [q2|]; cbn [mbind outcome_bind] in E |- *; [|done].
  injection E as ->.
  assert (Hout : recv_says st l m st1 (Ret 0 (Z.min (u32 (r_sz l)) (u32 (msg_len m))) (OMsg (msg_type m) bytes))).
  { right. rewrite (put_mbufs_all _ _ _ Ep). eexists _, _. split; [done|]. split_and!; try done.
    rewrite (wrapu_small 32 (msg_len m)); [done|]. unfold inu, MSGMNB in *. lia. }
  assert (Hlast : forall st3, inv st3 (RSleep l) -> maxmsgs st3 = 0 -> log st3 = log st1 -> ends (threads st) (recv_says st l m)
    (leave st3 (r_que l) 0 (Z.min (u32 (r_sz l)) (u32 (msg_len m))) (OMsg (msg_type m) bytes))).
  { intros st3 Hi3 Hz E3. apply ends_leave.
    - apply (inv_switch calm st3 (RSleep l) (CStat (r_que l)) Hi3); try done. intros _. by right.
    - intros st' El. destruct Hout as [(? & ? & [= <- _ _] & ? & _)|(n & bs & Er & H1 & H2 & H3 & H4)]; [done|].
      right. exists n, bs. split_and!; try done. by rewrite El, E3. }
  destruct (Z.eqb_spec (maxmsgs st1) 0) as [Hz|Hz]; cbn [negb]; cbv iota; cbn [mbind outcome_bind]; [by apply Hlast|].
  destruct (que_wakewriters_ok calm st1 (RSleep l) Hi1) as (st3 & -> & Hi3 & El3 & Hz3). cbn [mbind outcome_bind].
  by apply Hlast.
Qed.

(** ** msgctl *)

Definition ctl_says (st : mst) (st' : mst) (r : pc) : Prop :=
  log st' = log st \/ exists a, r = Ret 0 0 ONone /\ log st' = log st ++ [Removed a].

Lemma que_free_ok st a q :
  inv st (DSleep a) -> ques st !! a = Some q -> que_references q = 0 ->
  (calm -> maxmsgs st = 0 \/ que_msgs q = []) ->
  exists st', que_free st a = Ok st' /\ inv st' (Ret 0 0 ONone) /\ log st' = log st ++ [Removed a].
Proof.
  intros Hi Ha Hr Hc. unfold que_free. rewrite (deref_que st a q Ha). cbn [mbind outcome_bind]. rewrite Hr. simpl.
  eexists. split; [done|]. split; [|done]. by apply (inv_freed calm st a q).
Qed.

Lemma msgctl1_ok st cred id cmd :
  inv st idle ->
  (calm -> forall a q, cmd = IPC_RMID -> que_lookup st id = Ok (Some a) -> ques st !! a = Some q ->
     maxmsgs st = 0 \/ que_msgs q = []) ->
  ends (threads st) (ctl_says st) (msgctl1 st cred id cmd).
Proof.
  intros Hi Hcalm. unfold msgctl1. destruct (que_lookup_ok st idle id Hi) as (o & Eo & Ho). rewrite Eo in *. cbn [mbind outcome_bind].
  destruct o as [a|]; [|apply ends_ret; [by apply inv_ret|by left]]. destruct Ho as (q & Ha & Hd & _).
  destruct (hold_ok st a q Hi Ha) as (st1 & q1 & Eq & Hi1 & El & Et & Hq1 & _ & Em & Ef).
  assert (Emax : maxmsgs st1 = maxmsgs st).
  { unfold QREF in Eq. rewrite (deref_que st a q Ha) in Eq. by injection Eq as <-. }
  rewrite Eq. cbn [mbind outcome_bind]. rewrite (deref_que st1 a q1 Hq1). cbn [mbind outcome_bind]. rewrite <- Ef in Hd.
  assert (Hsay : forall st' l, log st' = log st1 -> ctl_says st st' l) by (intros st' l E; left; congruence).
  assert (Hstop : forall l, l = CSet a (cr_uid cred) \/ l = CStat a -> ends (threads st) (ctl_says st) (Ok (st1, l))).
  { intros l Hl. exists st1, l. split; [done| | |intros _ tid; by rewrite <- Et|by apply Hsay].
    - split; [by destruct Hl as [->| ->]|by destruct Hl as [->| ->]|].
      intros b Hb. exists q1. destruct Hl as [->| ->]; simpl in Hb; by apply Z.eqb_eq in Hb as <-.
    - intros _. destruct Hl as [->| ->]; [|done]. apply (inv_switch calm st1 _ (CSet a (cr_uid cred)) Hi1); try done.
      intros _. by left. }
  destruct (Z.eqb_spec cmd IPC_RMID) as [Ecmd|].
  - destruct (negb _); [apply ends_leave; [done|by intros; apply Hsay]|].
    change (Mst _ _ _ _ _ _ _ _ _) with (unlist a q1 st1). simpl que_references.
    destruct (Z.ltb_spec 0 (que_references q1 - 1)) as [Hpos|Hneg].
    + assert (Hiw : inv (wakeup (OnQue a) st1) (CStat a)) by (by apply inv_woken_up).
      pose proof (inv_unlist calm (wakeup (OnQue a) st1) a q1 Hiw Hq1 Hd (quiet_wakeup st1 a)) as Hi2.
      exists (wakeup (OnQue a) (unlist a q1 st1)), (DSleep a). split; [done| |by intros _| |by apply Hsay].
      * split; [done| |by intros b Hb].
        change (0 < tot (unlist a q1 (wakeup (OnQue a) st1)) (DSleep a) (holds a)).
        rewrite <- (iv_refs _ _ _ Hi2 a _ (lookup_insert_eq _ _ _)). simpl. lia.
      * intros _ tid Ht. simpl. rewrite lookup_fmap, Et, Ht. done.
    + assert (Hr : que_references q1 = tot st1 idle (holds a) + 1).
      { rewrite (iv_refs _ _ _ Hi1 a q1 Hq1). unfold tot, one. simpl. rewrite Z.eqb_refl. lia. }
      assert (Hquiet : quiet st1 a).
      { intros tid t Ht Hch. pose proof (tot_thread st1 idle (holds a) tid t Ht) as H. unfold one in H.
        assert (holds a (t_pc t) = true) as E.
        { destruct (t_pc t); simpl in Hch |- *; try done; injection Hch as <-; apply Z.eqb_refl. }
        rewrite E in H. simpl in H. lia. }
      pose proof (inv_unlist calm st1 a q1 Hi1 Hq1 Hd Hquiet) as Hi2.
      destruct (que_free_ok (unlist a q1 st1) a _ Hi2 (lookup_insert_eq _ _ _)) as (st' & -> & Hi' & El').
      { simpl. pose proof (tot_nonneg st1 idle (holds a)). lia. }
      { intros Hc. simpl. rewrite Emax, Em. by apply (Hcalm Hc a q). }
      cbn [mbind outcome_bind]. apply ends_ret; [done|]. right. exists a. split; [done|]. by rewrite El', <- El.
  - destruct (cmd =? IPC_SET); [destruct (negb _); [apply ends_leave; [done|by intros; apply Hsay]|apply Hstop; by left]|].
    destruct (cmd =? IPC_STAT); [destruct (negb _); [apply ends_leave; [done|by intros; apply Hsay]|apply Hstop; by right]|].
    apply ends_leave; [done|by intros; apply Hsay].
Qed.

Lemma remove_woken_ok st a :
  inv st (DSleep a) -> tot st idle (holds a) = 0 ->
  (calm -> forall q, ques st !! a = Some q -> maxmsgs st = 0 \/ que_msgs q = []) ->
  ends (threads st) (ctl_says st) (remove_woken st a).
Proof.
  intros Hi Ht Hcalm. destruct (iv_removes _ _ _ Hi a) as (q & Ha & _).
  { pose proof (tot_ge st (DSleep a) (removes a)) as H. unfold one in H. simpl in H. rewrite Z.eqb_refl in H. lia. }
  unfold remove_woken. destruct (que_free_ok st a q Hi Ha) as (st' & -> & Hi' & El).
  { rewrite (iv_refs _ _ _ Hi a q Ha). exact Ht. }
  { intros Hc. by apply Hcalm. }
  cbn [mbind outcome_bind]. apply ends_ret; [done|]. right. by exists a.
Qed.

Lemma set_copied_ok st now a uid tmp :
  inv st (CSet a uid) -> (forall ds, tmp = inl ds -> 0 <= msg_qbytes ds) ->
  (calm -> forall q ds, ques st !! a = Some q -> tmp = inl ds -> lens (que_msgs q) <= msg_qbytes ds <= msg_qbytes (q_ds q)) ->
  ends (threads st) (silent st) (set_copied st now a uid tmp).
Proof.
  intros Hi Hn Hcalm. destruct (held_que calm st _ a Hi (Z.eqb_refl _)) as (q & Ha & Hq).
  apply inv_hold with (a := a) in Hi; try done. unfold set_copied. destruct tmp as [ds|e]; [|by apply ends_leave].
  rewrite (deref_que st a q Ha). cbn [mbind outcome_bind]. destruct (_ && _); [by apply ends_leave|].
  set (qb := if msgmnb limits <? msg_qbytes ds then _ else _).
  assert (Hqb : 0 <= qb <= MSGMNB /\ qb <= msg_qbytes ds /\ (msg_qbytes ds <= MSGMNB -> qb = msg_qbytes ds)).
  { specialize (Hn ds eq_refl). unfold qb. simpl. destruct (Z.ltb_spec MSGMNB (msg_qbytes ds)); unfold MSGMNB in *; lia. }
  destruct (Z.eqb_spec qb 0) as [|Hne]; [by apply ends_leave|].
  apply ends_leave; [|done]. apply (inv_store calm st _ a q); [done|done| | |done].
  - split; [done|done|done|]. right. split_and!; [done|done|]. intros Hc. simpl. destruct (Hcalm Hc q ds Ha eq_refl). lia.
  - destruct Hq. split; simpl; try done; [lia|]. intros Hc. destruct (Hcalm Hc q ds Ha eq_refl). lia.
Qed.

Lemma stat_copied_ok st a error :
  inv st (CStat a) -> ends (threads st) (silent st) (stat_copied st a error).
Proof.
  intros Hi. destruct (held_que calm st _ a Hi (Z.eqb_refl _)) as (q & Ha & _).
  unfold stat_copied. rewrite (deref_que st a q Ha). cbn [mbind outcome_bind]. by apply ends_leave.
Qed.

End calls.

End MsgCalls.
