(* ===== verification/MsgSpec.v ===== *)
(** * System V messages: the theorems

    Runs are sequences of calls and pieces of calls by any number of threads.  The
    theorems are about those in which no two receivers copy out the same message at
    one time; what happens otherwise is shown at the end.  [calm] marks the runs for
    which a claim about senders that sleep is made. *)

From Stdlib Require Import Sorted.
From S2P Require Import Prelude Ipc Msg MsgInv MsgRun MsgStep MsgLife MsgCalls.
Import Ipc Msg MsgInv MsgRun MsgStep MsgLife MsgCalls.

Module MsgSpec.

(** ** Runs *)

(** Sizes are unsigned, and the allocators return memory that is not in use. *)
Definition call_ok (st : mst) (c : call) : Prop :=
  match c with
  | CSnd _ _ _ sz _ => 0 <= sz
  | CResume (Memory a) => ques st !! a = None
  | CResume (DsIn (inl ds)) => 0 <= msg_qbytes ds
  | _ => True
  end.

(** What a calm run keeps clear of: a copy of a message that fails, a message or a
    new limit that makes the contents of a queue exceed its limit, a limit that goes
    up, and a queue removed with its messages, the first and the last while
    senders wait for the number of messages to go down. *)
Definition calm_step (st : mst) (tid : Z) (c : call) : Prop :=
  match t_pc <$> threads st !! tid, c with
  | Some (SCopy l), CResume (FromUser type mem) =>
      match msg_copyin type mem (s_sz l) with
      | inr _ => maxmsgs st = 0
      | inl (_, n, _) => forall q, ques st !! s_que l = Some q -> lens (que_msgs q) + n <= msg_qbytes (q_ds q)
      end
  | Some (DSleep a), CResume (Wakes _) => forall q, ques st !! a = Some q -> maxmsgs st = 0 \/ que_msgs q = []
  | Some (CSet a _), CResume (DsIn (inl ds)) =>
      forall q, ques st !! a = Some q -> lens (que_msgs q) <= msg_qbytes ds <= msg_qbytes (q_ds q)
  | None, CCtl _ id cmd =>
      forall a q, cmd = IPC_RMID -> que_lookup st id = Ok (Some a) -> ques st !! a = Some q ->
        maxmsgs st = 0 \/ que_msgs q = []
  | _, _ => True
  end.

(** No two threads copy out the same message. *)
Definition one_copy (st : mst) : Prop :=
  forall tid tid' t t' l l' m m', threads st !! tid = Some t -> threads st !! tid' = Some t' ->
    t_pc t = RCopy l m -> t_pc t' = RCopy l' m' -> r_que l = r_que l' -> msg_id m = msg_id m' -> tid = tid'.

Inductive reach (calm : Prop) : mst -> Prop :=
| reach_init : reach calm msginit
| reach_step st now tid c st' l :
    reach calm st -> call_ok st c -> (calm -> calm_step st tid c) ->
    exec st now tid c = Some (Ok (st', l)) -> one_copy st' -> reach calm st'.

(** What a piece of a call says of itself. *)
Definition says (st : mst) (tid : Z) (c : call) (st' : mst) (l : pc) : Prop :=
  match t_pc <$> threads st !! tid, c with
  | Some (SCopy s), CResume (FromUser type mem) => send_says st s type mem st' l
  | Some (RCopy r m), CResume (ToUser _ _) => recv_says st r m st' l
  | Some (GAlloc _ _ _), CResume (Memory a) => log st' = log st \/ log st' = log st ++ [Created a]
  | Some (DSleep _), _ | None, CCtl _ _ _ => ctl_says st st' l
  | _, _ => log st' = log st
  end.

Section runs.
Variable (calm : Prop).
#[local] Abbreviation inv := (inv calm).

Lemma msginit_ok : inv msginit idle.
Proof.
  split; try done.
  - simpl. constructor.
  - intros a. simpl. split; [intros []%elem_of_nil|]. by intros (q & Hq & _).
Qed.

(** Where nobody else copies the message, [race_free] holds. *)
Lemma copy_free st tid l m :
  threads st !! tid = None -> one_copy (set_threads <[tid := Thread (RCopy l m) false]> st) -> race_free st (RCopy l m).
Proof.
  intros Hn Ho b i Hp. simpl in Hp. apply andb_true_iff in Hp as [Hb Hi]. apply Z.eqb_eq in Hb, Hi.
  pose proof (tot_nonneg st idle (picks b i)) as Hnn. destruct (decide (tot st idle (picks b i) = 0)) as [|Hz]; [done|].
  destruct (msum_pos (fun t => one (picks b i) (t_pc t)) (threads st)) as (tid' & t' & Ht' & Hpos).
  { unfold tot in *. simpl in *. assert (one (picks b i) idle = 0) by done. lia. }
  unfold one in Hpos. destruct (picks b i (t_pc t')) eqn:Ep; [|done].
  destruct (t_pc t') as [| | | | |l' m'| | | |] eqn:Epc; try done. simpl in Ep. apply andb_true_iff in Ep as [Hb' Hi'].
  apply Z.eqb_eq in Hb', Hi'.
  assert (tid' <> tid) by congruence. exfalso.
  assert (tid = tid'); [|done]. eapply (Ho tid tid'); simpl; [apply lookup_insert_eq|by rewrite lookup_insert_ne|done|done| |]; congruence.
Qed.

(** The end of a piece. *)
Lemma land_ok ths (P : mst -> pc -> Prop) tid r :
  ends calm ths P r -> ths !! tid = None -> (forall st1 f l, P st1 l -> P (set_threads f st1) l) ->
  exists st' l, land tid r = Ok (st', l) /\ P st' l /\ (one_copy st' -> inv st' idle).
Proof.
  intros (st1 & l & [-> Hs Hi Ht HP]) Hn Hf. unfold land. cbn [mbind outcome_bind].
  destruct (returns l) eqn:Er.
  - destruct l; try done. exists st1. eexists. split; [done|]. split; [done|]. intros _.
    apply (inv_switch calm st1 _ idle (Hi ltac:(done))); try done. intros _. by left.
  - exists (set_threads <[tid := Thread l false]> st1), l. split; [by destruct l|]. split; [by apply Hf|]. intros Ho.
    apply inv_halts; [|done|by apply Ht]. apply Hi. destruct l; try done. apply (copy_free _ tid); [by apply Ht|done].
Qed.

(** A thread goes on from its place. *)
Lemma resume_ok st now tid t x r :
  inv st idle -> threads st !! tid = Some t -> call_ok st (CResume x) -> (calm -> calm_step st tid (CResume x)) ->
  resume (set_threads (delete tid) st) now t x = Some r ->
  ends calm (delete tid (threads st)) (says st tid (CResume x)) r.
Proof.
  intros Hi Ht Hok Hc Hr. pose proof (inv_resumes calm st tid t Hi Ht) as He. set (st1 := set_threads (delete tid) st) in *.
  unfold says. unfold calm_step in Hc. rewrite Ht in *. simpl in Hc |- *. unfold resume in Hr.
  destruct (t_pc t) eqn:Epc; destruct x; simpl in He, Hr; try done.
  - injection Hr as <-. by apply (msgget_alloc_ok calm st1).
  - destruct (_ || _); [|done]. injection Hr as <-. by apply (send_woken_ok calm st1).
  - injection Hr as <-. by apply (send_create_ok calm st1).
  - injection Hr as <-. by apply (send_copied_ok calm st1).
  - destruct (_ || _); [|done]. injection Hr as <-. by apply (recv_woken_ok calm st1).
  - injection Hr as <-. by apply (recv_copied_ok calm st1).
  - destruct (t_awake t) eqn:Ea; [|done]. destruct (error =? 0); [|done]. injection Hr as <-.
    apply (remove_woken_ok calm st1); [done| |done]. pose proof (iv_woken _ _ _ Hi tid t a Ht Ea Epc) as H.
    unfold tot in *. simpl in *. rewrite (msum_delete _ (threads st) tid t Ht). rewrite Epc. simpl. unfold one at 2. simpl. lia.
  - injection Hr as <-. apply (set_copied_ok calm st1); [done| |].
    + intros d ->. done.
    + intros Hcalm q d Ha ->. by apply (Hc Hcalm).
  - injection Hr as <-. by apply (stat_copied_ok calm st1).
Qed.

(** Every step comes to its end and keeps the invariant. *)
Lemma msg_exec_ok st now tid c r :
  inv st idle -> call_ok st c -> (calm -> calm_step st tid c) -> exec st now tid c = Some r ->
  exists st' l, r = Ok (st', l) /\ says st tid c st' l /\ (one_copy st' -> inv st' idle).
Proof.
  intros Hi Hok Hc. unfold exec. destruct (threads st !! tid) as [t|] eqn:Ht.
  - destruct c as [| | | |x]; try done. destruct (resume _ now t x) as [r'|] eqn:Er; [|done]. intros [= <-].
    apply (land_ok (delete tid (threads st))); [by eapply resume_ok|apply lookup_delete_eq|].
    intros st1 f l. unfold says. rewrite Ht. simpl. destruct (t_pc t); try done; by destruct x.
  - assert (Hs : forall st1 f l, says st tid c st1 l -> says st tid c (set_threads f st1) l).
    { intros st1 f l. unfold says. rewrite Ht. by destruct c. }
    destruct c as [cred k flg|pid cred id sz flg|pid cred id sz typ flg|cred id cmd|x]; try done; intros [= <-];
      apply (land_ok (threads st)); try done.
    + eapply (ends_mono calm); [by apply sys_msgget_ok|done|]. intros st' l. unfold says. by rewrite Ht.
    + eapply (ends_mono calm); [by apply sys_msgsnd_ok|done|]. intros st' l. unfold says. by rewrite Ht.
    + eapply (ends_mono calm); [by apply sys_msgrcv_ok|done|]. intros st' l. unfold says. by rewrite Ht.
    + eapply (ends_mono calm); [apply msgctl1_ok; [done|]|done|].
      * intros Hcalm. specialize (Hc Hcalm). unfold calm_step in Hc. by rewrite Ht in Hc.
      * intros st' l. unfold says. by rewrite Ht.
Qed.

Lemma msg_reach_inv st : reach calm st -> inv st idle.
Proof.
  induction 1 as [|st now tid c st' l _ IH Hok Hc E Ho]; [apply msginit_ok|].
  destruct (msg_exec_ok st now tid c _ IH Hok Hc E) as (st1 & l1 & [= <- <-] & _ & H). by apply H.
Qed.

End runs.

(** Runs that a program can check. *)
Definition call_okb (st : mst) (c : call) : bool :=
  match c with
  | CSnd _ _ _ sz _ => 0 <=? sz
  | CResume (Memory a) => match ques st !! a with None => true | Some _ => false end
  | CResume (DsIn (inl ds)) => 0 <=? msg_qbytes ds
  | _ => true
  end.

Definition calm_stepb (st : mst) (tid : Z) (c : call) : bool :=
  match t_pc <$> threads st !! tid, c with
  | Some (SCopy l), CResume (FromUser type mem) =>
      match msg_copyin type mem (s_sz l), ques st !! s_que l with
      | inr _, _ => maxmsgs st =? 0
      | inl (_, n, _), Some q => lens (que_msgs q) + n <=? msg_qbytes (q_ds q)
      | _, None => true
      end
  | Some (DSleep _), _ | Some (CSet _ _), _ | None, CCtl _ _ _ => false
  | _, _ => true
  end.

Definition same_pick (t t' : thread) : bool :=
  match t_pc t, t_pc t' with
  | RCopy l m, RCopy l' m' => (r_que l =? r_que l') && (msg_id m =? msg_id m')
  | _, _ => false
  end.

Definition one_copyb (st : mst) : bool :=
  let l := map_to_list (threads st) in
  forallb (fun x => forallb (fun y => negb (same_pick x.2 y.2) || (x.1 =? y.1)) l) l.

Fixpoint run (b : bool) (st : mst) (l : list (Z * Z * call)) : option mst :=
  match l with
  | [] => Some st
  | (now, tid, c) :: l' =>
      if call_okb st c && (negb b || calm_stepb st tid c) then
        match exec st now tid c with
        | Some (Ok (st', _)) => if one_copyb st' then run b st' l' else None
        | _ => None
        end
      else None
  end.

Lemma msg_call_okb_ok st c : call_okb st c = true -> call_ok st c.
Proof.
  destruct c as [| | | |x]; simpl; try done; [lia|]. destruct x as [|a| | |[ds|]|]; try done; [|lia].
  by destruct (ques st !! a).
Qed.

Lemma calm_stepb_ok st tid c : calm_stepb st tid c = true -> calm_step st tid c.
Proof.
  unfold calm_stepb, calm_step. destruct (t_pc <$> threads st !! tid) as [l|]; [|by destruct c].
  destruct l; try done. destruct c as [| | | |x]; try done. destruct x; try done.
  destruct (msg_copyin type mem (s_sz l)) as [[[ty n] data]|e]; [|lia]. destruct (ques st !! s_que l) as [q|]; [|done].
  intros H q' [= <-]. lia.
Qed.

Lemma one_copyb_ok st : one_copyb st = true -> one_copy st.
Proof.
  unfold one_copyb. intros H tid tid' t t' l l' m m' Ht Ht' E E' Eq Ei. rewrite List.forallb_forall in H.
  specialize (H (tid, t)). rewrite <- list_elem_of_In, elem_of_map_to_list, List.forallb_forall in H. specialize (H Ht (tid', t')).
  rewrite <- list_elem_of_In, elem_of_map_to_list in H. specialize (H Ht'). simpl in H. unfold same_pick in H.
  rewrite E, E', Eq, Ei, !Z.eqb_refl in H. simpl in H. by apply Z.eqb_eq.
Qed.

Lemma msg_run_reach b st l st' : run b st l = Some st' -> reach (b = true) st -> reach (b = true) st'.
Proof.
  revert st. induction l as [|[[now tid] c] l IH]; intros st; simpl; [by intros [= <-]|].
  destruct (call_okb st c) eqn:E1; [|done]. simpl. destruct (negb b || calm_stepb st tid c) eqn:E2; [|done].
  destruct (exec st now tid c) as [[[st1 p]|]|] eqn:E3; try done. destruct (one_copyb st1) eqn:E4; [|done].
  intros Hr Hre. apply (IH st1 Hr). eapply reach_step; [exact Hre|by apply msg_call_okb_ok| |exact E3|by apply one_copyb_ok].
  intros ->. by apply calm_stepb_ok.
Qed.

(** ** Threads that hold a queue that is being removed *)

(** Every result of a piece is a return. *)
Definition returning (r : outcome (mst * pc)) : Prop := forall st l, r = Ok (st, l) -> returns l = true.

Lemma returning_bind {A} (x : outcome A) (f : A -> outcome (mst * pc)) :
  (forall a, x = Ok a -> returning (f a)) -> returning (x ≫= f).
Proof. destruct x as [a|]; intros H; [by apply H|done]. Qed.

Lemma returning_leave st a e v o : returning (leave st a e v o).
Proof. apply returning_bind. by intros st1 _ st2 l [= <- <-]. Qed.

Lemma returning_if (b : bool) x y : returning x -> returning y -> returning (if b then x else y).
Proof. by destruct b. Qed.

(** A thread that holds a queue that is being removed leaves it. *)
Lemma dying_returns st now t x r a q :
  ques st !! a = Some q -> flag q MSGQ_DYING = true -> holds a (t_pc t) = true -> resume st now t x = Some r -> returning r.
Proof.
  intros Ha Hd Hh. unfold resume.
  assert (Hq : deref st a = Ok q) by (by apply deref_que).
  destruct (t_pc t) as [|l|l|l|l|l m| |b u|b|]; simpl in Hh; try done; apply Z.eqb_eq in Hh as Hh; destruct x; try done.
  - destruct (_ || _); [|done]. intros [= <-]. unfold send_woken. rewrite Hh, Hq. cbn [mbind outcome_bind]. rewrite Hd.
    apply returning_if; apply returning_leave.
  - intros [= <-]. unfold send_create. rewrite Hh, Hq. cbn [mbind outcome_bind]. rewrite Hd. apply returning_leave.
  - intros [= <-]. unfold send_copied. destruct (msg_copyin _ _ _) as [[[ty n] data]|]; [|apply returning_leave].
    do 3 (apply returning_bind; intros ? _). apply returning_if; apply returning_leave.
  - destruct (_ || _); [|done]. intros [= <-]. unfold recv_woken. rewrite Hh, Hq. cbn [mbind outcome_bind]. rewrite Hd.
    apply returning_if; apply returning_leave.
  - intros [= <-]. unfold recv_copied. apply returning_bind. intros ? _. apply returning_if; [done|].
    apply returning_bind. intros [[error sz] out] _. apply returning_if; [apply returning_leave|].
    do 3 (apply returning_bind; intros ? _). apply returning_leave.
  - intros [= <-]. unfold set_copied. destruct ds as [d|]; [|apply returning_leave]. apply returning_bind. intros ? _.
    repeat (apply returning_if; try apply returning_leave).
  - intros [= <-]. unfold stat_copied. apply returning_bind. intros ? _. apply returning_leave.
Qed.

(** Some input makes a thread go on, unless it sleeps. *)
Lemma awake_resumes st now t :
  returns (t_pc t) = false -> (chan (t_pc t) <> None -> t_awake t = true) -> exists x, is_Some (resume st now t x).
Proof.
  intros Hr Ha. unfold resume. destruct (t_pc t); try done; try rewrite Ha by done.
  - by exists (Memory 0).
  - by exists (Wakes 0).
  - by exists (Memory 0).
  - by exists (FromUser None []).
  - by exists (Wakes 0).
  - by exists (ToUser false 0).
  - by exists (Wakes 0).
  - by exists (DsIn (inr 0)).
  - by exists (DsOut 0).
Qed.

(** ** The theorems *)

(** C27: whatever the threads do, no step panics: no queue or message is used after
    it was freed, a queue is freed without references, no message is longer than
    can be copied; and the invariant holds before and after.  The references of a
    queue are the threads that hold it, the queues on the list are those not being
    removed and their indices are distinct, the totals of queues, messages and
    bytes are right, and each sleeper has its flag. *)
Theorem msg_safe calm st now tid c r :
  reach calm st -> call_ok st c -> (calm -> calm_step st tid c) -> exec st now tid c = Some r ->
  inv calm st idle /\ exists st' l, r = Ok (st', l) /\ (one_copy st' -> inv calm st' idle).
Proof.
  intros Hr Hok Hc E. pose proof (msg_reach_inv calm st Hr) as Hi. split; [done|].
  destruct (msg_exec_ok calm st now tid c r Hi Hok Hc E) as (st' & l & H1 & _ & H2). by exists st', l.
Qed.

(** C28: in runs in which no two receivers copy out the same message at one time, the
    queues are lists: the log of what was created, sent, received and removed,
    replayed on lists, gives the contents of the queues, where a message sent goes
    to the end, and a message received is the first one with type 0, the first one
    of the type with a positive type, and some message of the list with a negative
    type.  A send that puts a message on its queue (it returns 0, or EIDRM if the queue
    is being removed) logs one of the type given whose first bytes are those of the
    user, and which has no others if the size is at most 224 or at least 377.  A receive that returns 0 hands out, up to the number it
    returns, the bytes of the message that it logs, and all of them if they fit the
    size given.  All other steps but the creation and removal of queues log nothing. *)
Theorem msg_refines calm st now tid c st' l :
  reach calm st -> call_ok st c -> (calm -> calm_step st tid c) -> exec st now tid c = Some (Ok (st', l)) ->
  one_copy st' ->
  spec_run (log st) = Some (contents st) /\ says st tid c st' l /\ spec_run (log st') = Some (contents st').
Proof.
  intros Hr Hok Hc E Ho. pose proof (msg_reach_inv calm st Hr) as Hi.
  destruct (msg_exec_ok calm st now tid c _ Hi Hok Hc E) as (st1 & l1 & [= <- <-] & H1 & H2).
  split; [apply Hi|]. split; [done|]. by apply (H2 Ho).
Qed.

(** A message goes through a queue unchanged, if its size is not one of those
    between 225 and 376: [msg_copyin] stores the bytes of the user and their number,
    and [msg_copyout] writes them all and returns the smaller of the two sizes. *)
Theorem msg_roundtrip ty mem len sz room i :
  0 <= ty -> 0 <= len <= MSGMNB -> len <= MLEN \/ MINCLSIZE <= len -> len <= Z.of_nat (length mem) -> len <= room ->
  exists data, msg_copyin (Some ty) mem len = inl (ty, len, data) /\
    msg_copyout (MkMsg i ty len data) sz true room =
      Ok (0, Z.min (u32 sz) len, OMsg ty (take (Z.to_nat len) mem)).
Proof.
  intros Hty Hlen Hsz Hmem Hroom. unfold msg_copyin. rewrite (proj2 (Z.ltb_ge ty 0)) by lia.
  rewrite (mbuf_sizes_small len Hlen). unfold msg_copyout. cbn [msg_len msg_data msg_type].
  rewrite (proj2 (Z.ltb_ge MSGMAX len)) by (unfold MSGMNB, MSGMAX, MSGSSZ, MSGSEG in *; lia). cbn [negb].
  rewrite (wrapu_small 32 len) by (unfold inu, MSGMNB in *; lia).
  destruct (Z.eqb_spec len 0) as [->|Hne]; [by exists []|].
  assert ((len <=? MLEN) || (MINCLSIZE <=? len) = true) as -> by (apply orb_true_iff; rewrite !Z.leb_le; done).
  simpl. rewrite (proj2 (Z.ltb_ge (Z.of_nat (length mem)) len)) by lia. eexists. split; [by rewrite Z.add_0_r|].
  simpl. rewrite length_take. rewrite (proj2 (Z.ltb_ge room _)) by lia. simpl. by rewrite app_nil_r.
Qed.

(** C29: a sleeper that was not woken has nothing to do: its queue is not being
    removed and, for a receiver, has no message that it asks for; for a sender, in
    calm runs, has no room for its message, unless all messages are in use; one
    that waits to remove a queue waits for a thread that holds it. *)
Theorem msg_no_lost_wakeup calm st tid t :
  reach calm st -> threads st !! tid = Some t -> t_awake t = false ->
  match t_pc t with
  | RSleep l => exists q, ques st !! r_que l = Some q /\ flag q MSGQ_DYING = false /\ msg_lookup q (r_typ l) = None
  | SSleep l => exists q, ques st !! s_que l = Some q /\ flag q MSGQ_DYING = false /\
      (calm -> MSGQ_SPACE q < s_sz l \/ msgtql limits <= num_msgs st)
  | DSleep a => exists tid' t', threads st !! tid' = Some t' /\ holds a (t_pc t') = true
  | _ => True
  end.
Proof.
  intros Hr Ht Ha. pose proof (msg_reach_inv calm st Hr) as Hi. pose proof (iv_asleep _ _ _ Hi tid t Ht Ha) as H.
  destruct (t_pc t); try done; simpl in H.
  - destruct H as (q & Hq & Hd & _ & Hb). exists q. split_and!; try done. intros Hc.
    rewrite (space_room calm (serial st) q Hc (iv_que _ _ _ Hi _ q Hq)). destruct (Hb Hc) as [?|[? _]]; [by left|right].
    simpl in *. lia.
  - destruct H as (q & Hq & Hd & _ & Hl). by exists q.
  - unfold tot in H. simpl in H. assert (Ho : one (holds a) idle = 0) by done.
    destruct (msum_pos (fun t => one (holds a) (t_pc t)) (threads st)) as (tid' & t' & Ht' & Hp); [lia|].
    exists tid', t'. split; [done|]. unfold one in Hp. by destruct (holds a (t_pc t')).
Qed.

(** The removal of a queue comes to its end: while threads hold the queue, each
    of them can go on, and its next step makes its call return; when none is left
    the thread that removes the queue can go on, and its next step frees it. *)
Theorem msg_removal calm st a q :
  reach calm st -> ques st !! a = Some q -> flag q MSGQ_DYING = true ->
  (forall tid t, threads st !! tid = Some t -> holds a (t_pc t) = true ->
     (exists now x, is_Some (exec st now tid (CResume x))) /\
     forall now x st' l, exec st now tid (CResume x) = Some (Ok (st', l)) -> returns l = true) /\
  (que_references q = 0 -> exists tid, forall now, exists st',
     exec st now tid (CResume (Wakes 0)) = Some (Ok (st', Ret 0 0 ONone)) /\ ques st' = delete a (ques st)).
Proof.
  intros Hr Ha Hd. pose proof (msg_reach_inv calm st Hr) as Hi. split.
  - intros tid t Ht Hh. split.
    + destruct (awake_resumes (set_threads (delete tid) st) 0 t) as (x & r & Hx); [by destruct (t_pc t)| |].
      * intros Hch. destruct (t_awake t) eqn:Ea; [done|]. pose proof (iv_asleep _ _ _ Hi tid t Ht Ea) as H.
        destruct (t_pc t); try by destruct Hch. all: try done. all: simpl in Hh; apply Z.eqb_eq in Hh; destruct H as (q' & Hq' & Hd' & _); congruence.
      * exists 0, x. unfold exec. rewrite Ht, Hx. by eexists.
    + intros now x st' l. unfold exec. rewrite Ht. destruct (resume _ now t x) as [r|] eqn:Er; [|done]. simpl. intros [= E].
      pose proof (dying_returns (set_threads (delete tid) st) now t x r a q Ha Hd Hh Er) as Hret. unfold land in E.
      destruct r as [[st1 l1]|]; [|done]. cbn [mbind outcome_bind] in E. specialize (Hret st1 l1 eq_refl).
      destruct l1; try done. by injection E as <- <-.
  - intros Href. assert (Hn : tot st idle (holds a) = 0) by (by rewrite <- (iv_refs _ _ _ Hi a q Ha)).
    pose proof (iv_dying _ _ _ Hi a q Ha Hd) as Hrm. unfold tot in Hrm. assert (Ho : one (removes a) idle = 0) by done.
    destruct (msum_pos (fun t => one (removes a) (t_pc t)) (threads st)) as (tid & t & Ht & Hp); [lia|].
    unfold one in Hp. destruct (t_pc t) eqn:Epc; simpl in Hp; try done. destruct (Z.eqb_spec a0 a) as [->|]; [|done].
    exists tid. intros now. destruct (t_awake t) eqn:Ea.
    + eexists. unfold exec. rewrite Ht. unfold resume. rewrite Epc, Ea. simpl. unfold remove_woken, que_free, deref. simpl.
      rewrite Ha. cbn [mbind outcome_bind]. rewrite Href. simpl. by split.
    + pose proof (iv_asleep _ _ _ Hi tid t Ht Ea) as H. rewrite Epc in H. simpl in H. lia.
Qed.

(** ** Runs *)

Definition root : ucred := Ucred 0 0 [].

(** The identifier of the first queue. *)
Definition id1 : Z := IXSEQ_TO_IPCID 1 (IpcPerm 0 0 0 0 0 2 0).

Definition create (k : Z) (a : Z) : list (Z * Z * call) :=
  [(0, 1, CGet root k (IPC_CREAT .| 0x1ff)); (0, 1, CResume (Memory a))].
Definition send (tid sz ty : Z) (mem : list Z) : list (Z * Z * call) :=
  [(0, tid, CSnd tid root id1 sz 0); (0, tid, CResume (Memory 0)); (0, tid, CResume (FromUser (Some ty) mem))].

(** A receiver sleeps, and a sender wakes it. *)
Definition to_sleep : list (Z * Z * call) := create 5 100 ++ [(0, 2, CRcv 2 root id1 10 7 0)].
Definition woken : list (Z * Z * call) := to_sleep ++ send 3 3 7 [1; 2; 3] ++ [(0, 2, CResume (Wakes 0))].

(** A queue that is full, and a sender that sleeps. *)
Definition full : list (Z * Z * call) :=
  create 5 100 ++ send 3 2000 1 (replicate 2000 0) ++ [(0, 4, CSnd 4 root id1 100 0)].

(** The queue of the sleeping receiver is removed. *)
Definition removed : list (Z * Z * call) := to_sleep ++ [(0, 5, CCtl root id1 IPC_RMID)].

Definition after (b : bool) (l : list (Z * Z * call)) : mst := default msginit (run b msginit l).

Lemma after_reach b l : run b msginit l <> None -> reach (b = true) (after b l).
Proof.
  unfold after. destruct (run b msginit l) as [st|] eqn:E; [|done]. intros _. apply (msg_run_reach b msginit l st E), reach_init.
Qed.

(** The last step of a run that need not be one of those of the theorems. *)
Fixpoint plays (st : mst) (l : list (Z * Z * call)) : option (outcome (mst * pc)) :=
  match l with
  | [] => None
  | [(now, tid, c)] => exec st now tid c
  | (now, tid, c) :: l' => match exec st now tid c with Some (Ok (st', _)) => plays st' l' | _ => None end
  end.

Definition result (r : option (outcome (mst * pc))) : option (outcome pc) :=
  match r with Some (Ok (_, l)) => Some (Ok l) | Some Panic => Some Panic | None => None end.

Definition que_after (l : list (Z * Z * call)) (a : Z) : option que :=
  match plays msginit l with Some (Ok (st, _)) => ques st !! a | _ => None end.

(** The receiver gets the bytes and their number. *)
Example received :
  result (plays msginit (woken ++ [(0, 2, CResume (ToUser true 10))])) = Some (Ok (Ret 0 3 (OMsg 7 [1; 2; 3]))).
Proof. by vm_compute. Qed.

(** A message of 300 bytes takes 448: the second mbuf is as long as the first. *)
Example message_grows :
  (fun q => msg_cbytes (q_ds q)) <$> que_after (create 5 100 ++ send 3 300 1 (replicate 448 0)) 100 = Some 448 /\
  result (plays msginit (create 5 100 ++ send 3 300 1 (replicate 447 0))) = Some (Ok (Ret EFAULT 0 ONone)).
Proof. by vm_compute. Qed.

(** ... so the contents of a queue can exceed its limit, and then there is no limit. *)
Example queue_overflows :
  MSGQ_SPACE <$> que_after (create 5 100 ++ send 3 1700 1 (replicate 1700 0) ++ send 3 300 1 (replicate 448 0)) 100 =
    Some (2 ^ 64 - 100).
Proof. by vm_compute. Qed.

(** A receiver that has room for one byte gets all three, and is told of one. *)
Example receive_overruns :
  result (plays msginit (create 5 100 ++ send 3 3 7 [1; 2; 3] ++
    [(0, 2, CRcv 2 root id1 1 0 0); (0, 2, CResume (ToUser true 10))])) = Some (Ok (Ret 0 1 (OMsg 7 [1; 2; 3]))).
Proof. by vm_compute. Qed.

(** A negative type asks for a type at least as large, not at most. *)
Example negative_type :
  result (plays msginit (create 5 100 ++ send 3 1 1 [1] ++ send 3 1 9 [9] ++
    [(0, 2, CRcv 2 root id1 1 (-3) 0); (0, 2, CResume (ToUser true 10))])) = Some (Ok (Ret 0 1 (OMsg 9 [9]))).
Proof. by vm_compute. Qed.

(** Two receivers that copy out the same message: the second frees it again. *)
Example double_receive :
  result (plays msginit (create 5 100 ++ send 3 1 1 [1] ++
    [(0, 2, CRcv 2 root id1 1 0 0); (0, 4, CRcv 4 root id1 1 0 0); (0, 2, CResume (ToUser true 1));
     (0, 4, CResume (ToUser true 1))])) = Some Panic.
Proof. by vm_compute. Qed.

(** A limit that goes up again does not wake the sender that now has room. *)
Example set_wakes_nobody :
  let set n := [(0, 5, CCtl root id1 IPC_SET);
                (0, 5, CResume (DsIn (inl (Msqid (IpcPerm 0 0 0 0 0x1ff 0 0) 0 0 n 0 0 0 0 0))))] in
  match plays msginit (create 5 100 ++ set 100 ++ send 3 60 1 (replicate 60 0) ++ [(0, 4, CSnd 4 root id1 60 0)] ++ set 2048) with
  | Some (Ok (st, _)) =>
      (t_awake <$> threads st !! 4, MSGQ_SPACE <$> ques st !! 100) = (Some false, Some 1988)
  | _ => False
  end.
Proof. by vm_compute. Qed.

(** The identifier of a queue that was removed finds the next one of its index. *)
Example stale_identifier :
  match plays msginit (create 5 100 ++ [(0, 1, CCtl root id1 IPC_RMID)] ++ create 6 200) with
  | Some (Ok (st, Ret _ id _)) => id <> id1 /\ que_lookup st id1 = Ok (Some 200)
  | _ => False
  end.
Proof. by vm_compute. Qed.

(** With as many queues as there can be, the table for sysctl is too short by one. *)
Example sysctl_overruns :
  match plays msginit (concat (map (fun i => create i (100 + i)) (seqZ 1 40))) with
  | Some (Ok (st, _)) => sysctl_sysvmsg st KERN_SYSVIPC_MSG_INFO 1 (Some 10000) 0 = Panic
  | _ => False
  end.
Proof. by vm_compute. Qed.

(** ** Witnesses *)

(** A sender comes while a receiver sleeps. *)
Lemma msg_safe_witness :
  inv (true = true) (after true to_sleep) idle /\
  exists st' l, exec (after true to_sleep) 0 3 (CSnd 3 root id1 3 0) = Some (Ok (st', l)).
Proof.
  assert (Hr : reach (true = true) (after true to_sleep)) by (apply after_reach; by vm_compute).
  destruct (exec (after true to_sleep) 0 3 (CSnd 3 root id1 3 0)) as [r|] eqn:E; [|by vm_compute in E].
  destruct (msg_safe (true = true) (after true to_sleep) 0 3 (CSnd 3 root id1 3 0) r Hr) as [Hi (st' & l & -> & _)].
  - by apply msg_call_okb_ok.
  - intros _. apply calm_stepb_ok. by vm_compute.
  - done.
  - split; [done|]. by exists st', l.
Defined.

(** The receiver that was woken copies the message out. *)
Lemma msg_refines_witness :
  match exec (after true woken) 0 2 (CResume (ToUser true 10)) with
  | Some (Ok (st', l)) =>
      spec_run (log st') = Some (contents st') /\ says (after true woken) 2 (CResume (ToUser true 10)) st' l
  | _ => False
  end.
Proof.
  assert (Hr : reach (true = true) (after true woken)) by (apply after_reach; by vm_compute).
  assert (Ho : match exec (after true woken) 0 2 (CResume (ToUser true 10)) with
               | Some (Ok (st', _)) => one_copyb st' | _ => false end = true) by (by vm_compute).
  destruct (exec (after true woken) 0 2 (CResume (ToUser true 10))) as [[[st' l]|]|] eqn:E; [|done|done].
  destruct (msg_refines (true = true) (after true woken) 0 2 (CResume (ToUser true 10)) st' l Hr) as (_ & H1 & H2).
  - done.
  - intros _. apply calm_stepb_ok. by vm_compute.
  - done.
  - by apply one_copyb_ok.
  - by split.
Defined.

(** Three bytes, of which the receiver asks for two. *)
Lemma msg_roundtrip_witness :
  exists data, msg_copyin (Some 7) [1; 2; 3] 3 = inl (7, 3, data) /\
    msg_copyout (MkMsg 0 7 3 data) 2 true 10 = Ok (0, 2, OMsg 7 [1; 2; 3]).
Proof.
  apply (msg_roundtrip 7 [1; 2; 3] 3 2 10 0).
  - lia.
  - unfold MSGMNB. lia.
  - left. unfold MLEN, MSIZE. lia.
  - simpl. lia.
  - lia.
Defined.

(** The sender of the full queue. *)
Lemma msg_no_lost_wakeup_witness :
  exists q, ques (after true full) !! 100 = Some q /\ flag q MSGQ_DYING = false /\
    (true = true -> MSGQ_SPACE q < 100 \/ msgtql limits <= num_msgs (after true full)).
Proof.
  assert (Hr : reach (true = true) (after true full)) by (apply after_reach; by vm_compute).
  exact (msg_no_lost_wakeup (true = true) (after true full) 4 (Thread (SSleep (Snd 100 100 false 4)) false) Hr
    ltac:(by vm_compute) eq_refl).
Defined.

(** The receiver of the removed queue leaves. *)
Lemma msg_removal_witness :
  exists q, ques (after false removed) !! 100 = Some q /\ flag q MSGQ_DYING = true /\
    (exists now x, is_Some (exec (after false removed) now 2 (CResume x))) /\
    forall now x st' l, exec (after false removed) now 2 (CResume x) = Some (Ok (st', l)) -> returns l = true.
Proof.
  assert (Hr : reach (false = true) (after false removed)) by (apply after_reach; by vm_compute).
  assert (Hf : match ques (after false removed) !! 100 with Some q => flag q MSGQ_DYING | None => false end = true)
    by (by vm_compute).
  destruct (ques (after false removed) !! 100) as [q|] eqn:Eq; [|done]. exists q. split; [done|]. split; [done|].
  destruct (msg_removal (false = true) (after false removed) 100 q Hr Eq Hf) as [H _].
  exact (H 2 (Thread (RSleep (Rcv 100 10 7 false 2)) true) ltac:(by vm_compute) eq_refl).
Defined.

End MsgSpec.
