(* ===== verification/MsdosTime.v ===== *)
(** * Times of MS-DOS file systems: the proofs

    The conversions are inverse to each other and the results that they keep from
    the last call never show. *)

From S2P Require Import Prelude Msdos.
Import Msdos.

Module MsdosTime.

(** ** Fields of a word *)

Lemma field_spec x k n :
  0 <= k -> 0 <= n -> Z.shiftr (x .& Z.shiftl (Z.ones n) k) k = (x / 2 ^ k) mod 2 ^ n.
Proof.
  intros Hk Hn. rewrite Z.shiftr_land, Z.shiftr_shiftl_l by done. rewrite Z.sub_diag, Z.shiftl_0_r, Z.land_ones by done.
  by rewrite Z.shiftr_div_pow2.
Qed.

Lemma dt_fields s m h :
  0 <= s < 32 -> 0 <= m < 64 -> 0 <= h < 32 ->
  let dt := s + Z.shiftl m DT_MINUTES_SHIFT + Z.shiftl h DT_HOURS_SHIFT in
  inu 16 dt /\ Z.shiftr (dt .& DT_2SECONDS_MASK) DT_2SECONDS_SHIFT = s /\
  Z.shiftr (dt .& DT_MINUTES_MASK) DT_MINUTES_SHIFT = m /\ Z.shiftr (dt .& DT_HOURS_MASK) DT_HOURS_SHIFT = h.
Proof.
  intros Hs Hm Hh dt. assert (Edt : dt = s + m * 32 + h * 2048).
  { unfold dt, DT_MINUTES_SHIFT, DT_HOURS_SHIFT. by rewrite !Z.shiftl_mul_pow2. }
  split; [unfold inu; lia|].
  pose proof (field_spec dt 0 5). pose proof (field_spec dt 5 6). pose proof (field_spec dt 11 5).
  unfold DT_2SECONDS_MASK, DT_2SECONDS_SHIFT, DT_MINUTES_MASK, DT_MINUTES_SHIFT, DT_HOURS_MASK, DT_HOURS_SHIFT.
  change 0x1F with (Z.shiftl (Z.ones 5) 0). change 0x7E0 with (Z.shiftl (Z.ones 6) 5).
  change 0xF800 with (Z.shiftl (Z.ones 5) 11). rewrite H, H0, H1 by lia. rewrite Edt.
  Z.div_mod_to_equations. lia.
Qed.

Lemma dd_fields d m y :
  0 <= d < 32 -> 0 <= m < 16 -> 0 <= y < 128 ->
  let dd := d + Z.shiftl m DD_MONTH_SHIFT + Z.shiftl y DD_YEAR_SHIFT in
  inu 16 dd /\ Z.shiftr (dd .& DD_DAY_MASK) DD_DAY_SHIFT = d /\
  Z.shiftr (dd .& DD_MONTH_MASK) DD_MONTH_SHIFT = m /\ Z.shiftr (dd .& DD_YEAR_MASK) DD_YEAR_SHIFT = y.
Proof.
  intros Hd Hm Hy dd. assert (Edd : dd = d + m * 32 + y * 512).
  { unfold dd, DD_MONTH_SHIFT, DD_YEAR_SHIFT. by rewrite !Z.shiftl_mul_pow2. }
  split; [unfold inu; lia|].
  pose proof (field_spec dd 0 5). pose proof (field_spec dd 5 4). pose proof (field_spec dd 9 7).
  unfold DD_DAY_MASK, DD_DAY_SHIFT, DD_MONTH_MASK, DD_MONTH_SHIFT, DD_YEAR_MASK, DD_YEAR_SHIFT.
  change 0x1F with (Z.shiftl (Z.ones 5) 0). change 0x1E0 with (Z.shiftl (Z.ones 4) 5).
  change 0xFE00 with (Z.shiftl (Z.ones 7) 9). rewrite H, H0, H1 by lia. rewrite Edd.
  Z.div_mod_to_equations. lia.
Qed.

(** ** The time of day *)

Lemma day_seconds_dtime t dh :
  0 <= t -> t mod 2 = 0 -> 0 <= dh < 200 -> day_seconds (dtime t) dh = t mod 86400 + dh / 100.
Proof.
  intros Ht He Hdh. unfold dtime, day_seconds.
  destruct (dt_fields ((t / 2) mod 30) ((t / 60) mod 60) ((t / 3600) mod 24)) as (H0 & H1 & H2 & H3).
  1-3: Z.div_mod_to_equations; lia.
  change (Z.shiftl ((t / 2) mod 30) DT_2SECONDS_SHIFT) with ((t / 2) mod 30). rewrite (wrapu_small 16) by exact H0.
  rewrite H1, H2, H3. rewrite wrapu_small.
  - Z.div_mod_to_equations. lia.
  - unfold inu. Z.div_mod_to_equations. lia.
Qed.

(** ** Years and months *)

(** The days of [n] years from a year on. *)
Fixpoint ysum (n : nat) (year : Z) : Z := match n with O => 0 | S n' => year_len year + ysum n' (year + 1) end.

Lemma year_len_range y : 365 <= year_len y <= 366.
Proof. unfold year_len. destruct (negb _); lia. Qed.

Lemma ysum_app a b y : ysum (a + b) y = ysum a y + ysum b (y + Z.of_nat a).
Proof.
  revert y. induction a as [|a IH]; intros y; simpl; [by rewrite Z.add_0_r|]. rewrite IH.
  replace (y + 1 + Z.of_nat a) with (y + Z.of_nat (S a)) by lia. lia.
Qed.

Lemma ysum_range n y : 0 <= ysum n y <= 366 * Z.of_nat n.
Proof. revert y. induction n as [|n IH]; intros y; simpl; [lia|]. pose proof (year_len_range y). specialize (IH (y + 1)). lia. Qed.

Lemma year_loop_spec fuel year days :
  0 <= days < ysum fuel year ->
  exists n d, year_loop fuel year days = Some (year + Z.of_nat n, d) /\ days = ysum n year + d /\
    0 <= d < year_len (year + Z.of_nat n) /\ (n < fuel)%nat.
Proof.
  revert year days. induction fuel as [|fuel IH]; simpl; intros year days Hd; [lia|].
  destruct (Z.ltb_spec days (year_len year)) as [Hl|Hl].
  - exists 0%nat, days. simpl. rewrite Z.add_0_r. split_and!; done || lia.
  - destruct (IH (year + 1) (days - year_len year)) as (n & d & E & E1 & E2 & E3); [lia|].
    exists (S n), d. rewrite E. simpl. replace (year + Z.of_nat (S n)) with (year + 1 + Z.of_nat n) by lia.
    split_and!; done || lia.
Qed.

(** The years count from 1980, which is a leap year like the year 0. *)
Lemma year_len_1980 y : year_len (1980 + y) = year_len y /\ months_of (1980 + y) = months_of y.
Proof.
  assert ((1980 + y) .& 0x03 = y .& 0x03) as E.
  { change 0x03 with (Z.ones 2). rewrite !Z.land_ones by lia. change (2 ^ 2) with 4.
    replace (1980 + y) with (y + 495 * 4) by lia. apply Z.mod_add. lia. }
  unfold year_len, months_of. by rewrite E.
Qed.

Lemma ysum_1980 n y : ysum n (1980 + y) = ysum n y.
Proof.
  revert y. induction n as [|n IH]; intros y; simpl; [done|]. rewrite (proj1 (year_len_1980 y)).
  replace (1980 + y + 1) with (1980 + (y + 1)) by lia. by rewrite IH.
Qed.

Lemma years_days_spec n y days :
  0 <= days -> days + ysum n y < 2 ^ 32 -> years_days n y days = days + ysum n y.
Proof.
  revert y days. induction n as [|n IH]; intros y days Hd Hl; simpl in *; [lia|].
  pose proof (year_len_range y). pose proof (ysum_range n (y + 1)). rewrite wrapu_small by (unfold inu; lia).
  rewrite IH by lia. lia.
Qed.

Definition total (l : list Z) : Z := foldr Z.add 0 l.

Lemma month_loop_spec months m days :
  0 <= days < total months ->
  exists n d, month_loop months m days = (m + Z.of_nat n, d) /\ (n < length months)%nat /\
    days = total (take n months) + d /\ 0 <= d < nth n months 0.
Proof.
  revert m days. induction months as [|x months IH]; simpl; intros m days Hd; [lia|].
  destruct (Z.ltb_spec days x) as [Hl|Hl].
  - exists 0%nat, days. rewrite Z.add_0_r. split_and!; done || lia.
  - destruct (IH (m + 1) (days - x)) as (n & d & E & E1 & E2 & E3); [lia|]. exists (S n), d. rewrite E. simpl.
    split_and!; try lia; try done. by replace (m + Z.of_nat (S n)) with (m + 1 + Z.of_nat n) by lia.
Qed.

Lemma months_days_spec n months days :
  (n <= length months)%nat -> Forall (Z.le 0) months -> 0 <= days -> days + total (take n months) < 2 ^ 32 ->
  months_days n months days = Ok (days + total (take n months)).
Proof.
  revert months days. induction n as [|n IH]; intros months days Hn Hm Hd Hl; simpl; [by rewrite Z.add_0_r|].
  destruct months as [|x months]; simpl in *; [lia|]. apply Forall_cons in Hm as [Hx Hm].
  assert (0 <= total (take n months)).
  { clear -Hm. revert n. induction Hm as [|y l Hy _ IH]; intros [|n]; simpl; try lia. specialize (IH n). simpl in *. lia. }
  rewrite wrapu_small by (unfold inu; lia). rewrite IH by (done || lia). f_equal. lia.
Qed.

Lemma months_of_ok y :
  length (months_of y) = 12%nat /\ Forall (fun n => 28 <= n <= 31) (months_of y) /\ total (months_of y) = year_len y.
Proof. unfold months_of, year_len. destruct (negb _); simpl; split_and!; try done; repeat constructor; lia. Qed.

(** ** Dates *)

Definition first_day : Z := 3652.
Definition last_day : Z := 50403.

(** The date of a day between the limits of DOS, and back. *)
Lemma date_roundtrip days :
  first_day <= days <= last_day ->
  exists dd, ddate days = Some dd /\ inu 16 dd /\ dd <> 0 /\ date_seconds dd = Ok (u32 (days * 86400)).
Proof.
  unfold first_day, last_day. intros Hd. unfold ddate.
  destruct (year_loop_spec 138 1970 days) as (n & d & -> & Ed & Hdl & Hn); [split; [lia|]; change (ysum 138 1970) with 50404; lia|].
  cbn [mbind option_bind].
  assert (exists k, n = (10 + k)%nat) as [k ->].
  { destruct (Nat.le_gt_cases 10 n) as [|Hlt]; [exists (n - 10)%nat; lia|]. exfalso.
    assert (H10 : ysum 10 1970 = ysum (S n) 1970 + ysum (9 - n) (1970 + Z.of_nat (S n))).
    { rewrite <- ysum_app. f_equal. lia. }
    replace (S n) with (n + 1)%nat in H10 by lia. rewrite ysum_app in H10. change (ysum 10 1970) with 3652 in H10.
    pose proof (ysum_range (9 - n) (1970 + Z.of_nat (n + 1))). simpl in H10. lia. }
  rewrite ysum_app in Ed. change (ysum 10 1970) with 3652 in Ed.
  change (1970 + Z.of_nat 10) with (1980 + 0) in Ed. rewrite ysum_1980 in Ed.
  replace (1970 + Z.of_nat (10 + k)) with (1980 + Z.of_nat k) in * by lia. set (y := Z.of_nat k) in *.
  rewrite (proj1 (year_len_1980 y)) in Hdl. rewrite (proj2 (year_len_1980 y)).
  destruct (months_of_ok y) as (Hl & Hm & Ht). rewrite <- Ht in Hdl.
  destruct (month_loop_spec (months_of y) 0 d Hdl) as (i & e & -> & Hi & Ei & He). rewrite Hl in Hi.
  assert (He31 : e < 31).
  { assert (Hn31 : nth i (months_of y) 0 <= 31); [|lia]. rewrite Forall_forall in Hm. apply Hm. apply list_elem_of_In, nth_In. lia. }
  destruct (dd_fields (e + 1) (Z.of_nat i + 1) y) as (H0 & H1 & H2 & H3); [lia|lia|unfold y; lia|].
  set (dd := e + 1 + Z.shiftl (Z.of_nat i + 1) DD_MONTH_SHIFT + Z.shiftl y DD_YEAR_SHIFT) in *.
  assert (Ev : Z.shiftl (e + 1) DD_DAY_SHIFT + Z.shiftl (0 + Z.of_nat i + 1) DD_MONTH_SHIFT = dd - Z.shiftl y DD_YEAR_SHIFT).
  { unfold dd. change (Z.shiftl (e + 1) DD_DAY_SHIFT) with (e + 1). rewrite Z.add_0_l. lia. }
  assert (Hsh : 0 <= Z.shiftl y DD_YEAR_SHIFT /\ 0 < dd - Z.shiftl y DD_YEAR_SHIFT).
  { unfold dd, y, DD_YEAR_SHIFT, DD_MONTH_SHIFT. rewrite !Z.shiftl_mul_pow2 by lia. lia. }
  exists dd. split_and!; [|done|lia|].
  - f_equal. rewrite Ev. replace (1980 + y - 1980) with y by lia. unfold inu in H0.
    rewrite (wrapu_small 16 (dd - _)) by (unfold inu; lia).
    destruct (Z.ltb_spec 1980 (1980 + y)) as [Hy|Hy]; [rewrite wrapu_small by (unfold inu; lia); lia|].
    assert (y = 0) as -> by (unfold y in *; lia). change (Z.shiftl 0 DD_YEAR_SHIFT) with 0. lia.
  - unfold date_seconds. rewrite H1, H2, H3. rewrite (proj2 (Z.eqb_neq (Z.of_nat i + 1) 0)) by lia.
    replace (Z.to_nat (Z.of_nat i + 1 - 1)) with i by lia. unfold y at 2. rewrite Nat2Z.id.
    pose proof (ysum_range k 0). rewrite years_days_spec by lia.
    assert (Hm0 : Forall (Z.le 0) (months_of y)) by (eapply Forall_impl; [exact Hm|]; simpl; lia).
    rewrite months_days_spec by (done || lia). cbn [mbind outcome_bind]. f_equal.
    rewrite (wrapu_small 32 (0 + _ + _ + _)) by (unfold inu; lia). f_equal. unfold SECONDSTO1980. lia.
Qed.

(** ** The conversions *)

Lemma dostime_range tz sec : DOSEPOCH <= dostime tz sec <= DOSENDTIME.
Proof.
  unfold dostime, DOSEPOCH, DOSENDTIME. destruct (_ || _) eqn:E; [lia|]. apply orb_false_iff in E as [E1 E2]. lia.
Qed.

Lemma clear_low x : clear x 1 = x - x mod 2.
Proof. unfold clear. rewrite ldiff_sub_land. change 1 with (Z.ones 1) at 1. by rewrite Z.land_ones. Qed.

Lemma dostime_even tz sec : dostime tz sec mod 2 = 0.
Proof. unfold dostime. destruct (_ || _); [done|]. rewrite clear_low. Z.div_mod_to_equations. lia. Qed.

(** The days of the times that are converted. *)
Lemma dostime_day tz sec : first_day <= dostime tz sec / 86400 <= last_day.
Proof.
  pose proof (dostime_range tz sec) as H. unfold DOSEPOCH, DOSENDTIME, first_day, last_day in *.
  Z.div_mod_to_equations. lia.
Qed.

(** The conversions without what they keep. *)
Definition to_dos (tz sec nsec : Z) : option (Z * Z * Z) :=
  dd ← ddate (dostime tz sec / 86400);
  Some (dd, dtime (dostime tz sec), u8 ((sec .& 1) * 100 + nsec / 10000000)).

Definition from_dos (tz dd dt dh : Z) : outcome (Z * Z) :=
  if dd =? 0 then Ok (0, 0)
  else s ← date_seconds dd; Ok (u32 (day_seconds dt dh + s + s32 (tz * 60)), (dh mod 100) * 10000000).

(** What is kept is right. *)
Record conv_ok (st : conv) : Prop := ConvOk {
  co_time : lasttime st = 0 \/
    DOSEPOCH <= lasttime st <= DOSENDTIME /\ lastdtime st = dtime (lasttime st) /\ lastday st = lasttime st / 86400;
  co_day : lastday st = 0 \/ ddate (lastday st) = Some (lastddate st);
  co_date : lastdosdate st = 0 \/ date_seconds (lastdosdate st) = Ok (lastseconds st);
}.

Lemma conv_init_ok : conv_ok conv_init.
Proof. split; by left. Qed.

Lemma unix2dostime_ok tz st sec nsec :
  conv_ok st ->
  exists st' r, unix2dostime tz st sec nsec = Some (st', r) /\ to_dos tz sec nsec = Some r /\ conv_ok st'.
Proof.
  intros [Ht Hd Hdd]. unfold unix2dostime, to_dos. set (t := dostime tz sec).
  pose proof (dostime_range tz sec) as Hr. fold t in Hr. pose proof (dostime_day tz sec) as Hday. fold t in Hday.
  unfold first_day, last_day in Hday. destruct (date_roundtrip (t / 86400)) as (dd & Edd & _); [done|]. rewrite Edd.
  cbn [mbind option_bind]. change (24 * 60 * 60) with 86400.
  destruct (Z.eqb_spec (lasttime st) t) as [E|E]; cbn [negb].
  - destruct Ht as [Ht|(_ & Ht & Hl)]; [unfold DOSEPOCH in Hr; lia|]. rewrite E in *.
    destruct Hd as [Hd|Hd]; [lia|]. rewrite Hl, Edd in Hd. injection Hd as Hd.
    cbn [mbind option_bind]. eexists _, _. split; [done|]. rewrite Ht, <- Hd. split; [done|]. split; [right|right|]; try done.
    + by rewrite E.
    + by rewrite Hl, Edd, Hd.
  - rewrite (wrapu_small 32 (t / 86400)) by (unfold inu; lia).
    assert ((if negb (t / 86400 =? lastday st) then ddate (t / 86400) else Some (lastddate st)) = Some dd) as ->.
    { destruct (Z.eqb_spec (t / 86400) (lastday st)) as [El|_]; cbn [negb]; [|done].
      destruct Hd as [Hd|Hd]; [lia|]. by rewrite <- El, Edd in Hd. }
    cbn [mbind option_bind]. eexists _, _. split; [done|]. split; [done|]. split; [right|right|]; simpl; try done.
Qed.

Lemma dos2unixtime_ok tz st dd dt dh :
  conv_ok st -> inu 16 dd ->
  match from_dos tz dd dt dh with
  | Ok r => exists st', dos2unixtime tz st dd dt dh = Ok (st', r) /\ conv_ok st'
  | Panic => dos2unixtime tz st dd dt dh = Panic
  end.
Proof.
  intros Hok Hdd. pose proof Hok as [Ht Hd Hs]. unfold from_dos, dos2unixtime.
  destruct (Z.eqb_spec dd 0) as [|Hne]; [by exists st|].
  destruct (Z.eqb_spec (lastdosdate st) dd) as [E|E]; cbn [negb].
  - destruct Hs as [Hs|Hs]; [congruence|]. rewrite E in Hs. rewrite Hs. cbn [mbind outcome_bind]. by exists st.
  - destruct (date_seconds dd) as [s|] eqn:Es; cbn [mbind outcome_bind]; [|done]. eexists. split; [done|].
    split; simpl; [done|done|]. right. by rewrite wrapu_small.
Qed.

(** A time that was converted comes back, but for its last bits. *)
Lemma from_to_dos tz sec nsec :
  -1440 <= tz <= 1440 -> DOSEPOCH <= sec - tz * 60 <= DOSENDTIME -> 0 <= nsec < 1000000000 ->
  exists dd dt dh, to_dos tz sec nsec = Some (dd, dt, dh) /\ inu 16 dd /\
    from_dos tz dd dt dh = Ok (u32 sec, nsec - nsec mod 10000000).
Proof.
  intros Htz Hsec Hns. unfold to_dos. set (t := dostime tz sec).
  assert (Etz : s32 (tz * 60) = tz * 60) by (apply wraps_small; lia).
  assert (Et : t = sec - tz * 60 - sec mod 2).
  { unfold t, dostime, DOSEPOCH, DOSENDTIME in *. rewrite Etz, (wraps_small 64) by lia. rewrite clear_low.
    assert ((sec - tz * 60) mod 2 = sec mod 2) as -> by (Z.div_mod_to_equations; lia).
    clear t. destruct (_ || _) eqn:E; [|done]. apply orb_true_iff in E. rewrite !Z.ltb_lt in E. Z.div_mod_to_equations. lia. }
  destruct (date_roundtrip (t / 86400)) as (dd & -> & Hdd & Hne & Es); [apply dostime_day|].
  cbn [mbind option_bind]. eexists _, _, _. split; [done|]. split; [done|].
  change 1 with (Z.ones 1). rewrite Z.land_ones by lia. change (2 ^ 1) with 2.
  assert (Hdh : 0 <= sec mod 2 * 100 + nsec / 10000000 < 200) by (Z.div_mod_to_equations; lia).
  rewrite (wrapu_small 8) by (unfold inu; lia). unfold from_dos. rewrite (proj2 (Z.eqb_neq dd 0) Hne), Es.
  cbn [mbind outcome_bind]. pose proof (dostime_range tz sec) as Hr. fold t in Hr. unfold DOSEPOCH in Hr.
  rewrite day_seconds_dtime by (lia || apply dostime_even). rewrite Etz. f_equal. f_equal.
  - rewrite <- Z.add_assoc, (Z.add_comm (u32 _)), Z.add_assoc, Z.add_comm. unfold wrapu at 2. unfold wrapu at 1.
    rewrite Zplus_mod_idemp_l. unfold wrapu. f_equal. Z.div_mod_to_equations. lia.
  - Z.div_mod_to_equations. lia.
Qed.

End MsdosTime.
