(* ===== verification/MsdosName.v ===== *)
(** * Names of MS-DOS file systems: the proofs

    A long name that is cut into directory entries comes back when the entries are
    read, and matches the names that are the same but for case; a short name that
    was made without dropping a character comes back but for case. *)

From S2P Require Import Prelude Msdos.
Import Msdos.

Module MsdosName.

(** ** Entries as rows of cells *)

Definition cells (l : list Z) : list Z := concat (map (fun c => [c; 0]) l).

Lemma row_cells_length l : length (cells l) = (2 * length l)%nat.
Proof. induction l as [|c l IH]; [done|]. unfold cells in *. simpl. lia. Qed.

Lemma put_part_full n un :
  (n <= length un)%nat -> put_part n un = (cells (take n un), Some (drop n un)).
Proof.
  revert un. induction n as [|n IH]; intros un Hn; [done|]. destruct un as [|c un]; simpl in Hn; [lia|].
  simpl. by rewrite IH by lia.
Qed.

Definition ending (n : nat) : list Z := [0; 0] ++ untouched n.

Lemma put_part_end n un :
  (length un < n)%nat -> put_part n un = (cells un ++ ending (n - length un - 1), None).
Proof.
  revert n. induction un as [|c un IH]; intros n Hn; (destruct n as [|n]; [simpl in Hn; lia|]).
  - simpl. by rewrite Nat.sub_0_r.
  - simpl in Hn. simpl. rewrite IH by lia. done.
Qed.

Lemma put_part_length n un : length (put_part n un).1 = (2 * n)%nat.
Proof.
  revert un. induction n as [|n IH]; intros un; [done|]. destruct un as [|c un]; simpl.
  - rewrite length_replicate. lia.
  - specialize (IH un). destruct (put_part n un) as [p r]. simpl in *. lia.
Qed.

Lemma untouched_app n m : untouched n ++ untouched m = untouched (n + m).
Proof. unfold untouched. rewrite <- replicate_add. f_equal. lia. Qed.

Lemma untouched_half n : Z.of_nat (length (untouched n)) / 2 = Z.of_nat n.
Proof. unfold untouched. rewrite length_replicate, Nat2Z.inj_mul, Z.mul_comm. by apply Z.div_mul. Qed.

(** Two parts are one longer part. *)
Lemma put_part_app n m un :
  put_part (n + m) un =
    match put_part n un with
    | (p, None) => (p ++ untouched m, None)
    | (p, Some un') => let '(q, r) := put_part m un' in (p ++ q, r)
    end.
Proof.
  revert un. induction n as [|n IH]; intros un; [simpl; by destruct (put_part m un)|].
  destruct un as [|c un]; cbn [Nat.add put_part].
  - rewrite <- app_assoc. f_equal. f_equal. symmetry. apply untouched_app.
  - rewrite IH. destruct (put_part n un) as [p [u|]]; [|done]. by destruct (put_part m u).
Qed.

(** The row of an entry for what is left of a name. *)
Definition row (un : list Z) : list Z :=
  if decide (13 <= length un)%nat then cells (take 13 un) else cells un ++ ending (12 - length un).

Definition row_of (wep : winentry) : list Z := wePart1 wep ++ wePart2 wep ++ wePart3 wep.

Record shaped (wep : winentry) : Prop := Shaped {
  sh_1 : length (wePart1 wep) = 10%nat;
  sh_2 : length (wePart2 wep) = 12%nat;
  sh_3 : length (wePart3 wep) = 4%nat;
}.

(** What [unix2winfn] writes. *)
Lemma unix2winfn_row un cnt chksum :
  strip un <> [] ->
  let rest := drop (Z.to_nat ((cnt - 1) * WIN_CHARS)) (strip un) in
  exists wep, unix2winfn un cnt chksum = Ok (wep, Z.of_nat (length rest - 13)) /\
    row_of wep = row rest /\ shaped wep /\ weChksum wep = u8 chksum /\
    weCnt wep = u8 (if decide (length rest <= 13)%nat then u8 cnt .| WIN_LAST else cnt).
Proof.
  intros Hs rest. unfold unix2winfn. destruct (strip un) as [|x xs] eqn:E; [done|]. fold rest.
  pose proof (put_part_app 5 8 rest) as H13. simpl Nat.add in H13. pose proof (put_part_length 5 rest) as L1.
  assert (Hrow : row rest = (put_part 13 rest).1 /\
    (put_part 13 rest).2 = if decide (13 <= length rest)%nat then Some (drop 13 rest) else None).
  { unfold row. destruct (decide (13 <= length rest)%nat) as [H|H]; [by rewrite put_part_full|].
    rewrite put_part_end by lia. simpl. split; [|done]. do 2 f_equal. lia. }
  destruct Hrow as [-> Hr]. rewrite H13 in Hr |- *.
  assert (Hlast : forall b p1 p2 p3, length p1 = 10%nat -> length p2 = 12%nat -> length p3 = 4%nat ->
    b = bool_decide (length rest <= 13)%nat ->
    exists wep, Winentry (u8 (if b : bool then u8 cnt .| WIN_LAST else cnt)) p1 ATTR_WIN95 0 (u8 chksum) p2 0 p3 = wep /\
      row_of wep = p1 ++ p2 ++ p3 /\ shaped wep /\ weChksum wep = u8 chksum /\
      weCnt wep = u8 (if decide (length rest <= 13)%nat then u8 cnt .| WIN_LAST else cnt)).
  { intros b p1 p2 p3 Hp1 Hp2 Hp3 ->. eexists. split; [done|]. split; [done|]. split; [done|]. split; [done|]. simpl.
    by case_bool_decide; [rewrite decide_True|rewrite decide_False]. }
  assert (Hnone : (if decide (13 <= length rest)%nat then Some (drop 13 rest) else None) = None -> (length rest < 13)%nat).
  { destruct (decide (13 <= length rest)%nat); [done|lia]. }
  assert (Hend : (length rest < 13)%nat -> true = bool_decide (length rest <= 13)%nat /\ 0 = Z.of_nat (length rest - 13)).
  { intros H. rewrite bool_decide_eq_true_2 by lia. split; [done|lia]. }
  destruct (put_part 5 rest) as [p1 [u1|]] eqn:E1; simpl in L1.
  - pose proof (put_part_app 6 2 u1) as H8. simpl Nat.add in H8. rewrite H8 in Hr |- *. pose proof (put_part_length 6 u1) as L2.
    destruct (put_part 6 u1) as [p2 [u2|]] eqn:E2; simpl in L2.
    + pose proof (put_part_length 2 u2) as L3. destruct (put_part 2 u2) as [p3 [u3|]] eqn:E3; simpl in L3, Hr |- *.
      * destruct (decide (13 <= length rest)%nat) as [Hge|Hlt]; [|done]. injection Hr as Hr.
        assert (Hu : length u3 = (length rest - 13)%nat) by (rewrite Hr, length_drop; lia).
        assert (bool_decide (u3 = []) = bool_decide (length rest <= 13)%nat) as Hb.
        { apply bool_decide_ext. rewrite <- length_zero_iff_nil. lia. }
        rewrite Hu. destruct (Hlast _ p1 p2 p3 L1 L2 L3 Hb) as (wep & -> & H). by exists wep.
      * destruct (Hend (Hnone (eq_sym Hr))) as [Hb <-]. destruct (Hlast _ p1 p2 p3 L1 L2 L3 Hb) as (wep & -> & H). by exists wep.
    + simpl in Hr |- *. destruct (Hend (Hnone (eq_sym Hr))) as [Hb <-].
      destruct (Hlast _ p1 p2 (untouched 2) L1 L2 eq_refl Hb) as (wep & -> & H). by exists wep.
  - simpl in Hr |- *. destruct (Hend (Hnone (eq_sym Hr))) as [Hb <-]. change (untouched 8) with (untouched 6 ++ untouched 2).
    destruct (Hlast _ p1 (untouched 6) (untouched 2) L1 eq_refl eq_refl Hb) as (wep & -> & H). by exists wep.
Qed.

(** ** Reading entries *)

(** Two parts are one longer part; [2 * n] is the length of the first. *)
Lemma read_part_app lim n p q np name :
  length p = (2 * n)%nat ->
  read_part lim (p ++ q) np name =
    (r ← read_part lim p np name;
     match r with
     | (name, Nul i) => Ok (name, Nul (i + Z.of_nat (length q) / 2))
     | (name, Bad) => Ok (name, Bad)
     | (name, Next np) => read_part lim q np name
     end).
Proof.
  revert p np name. induction n as [|n IH]; intros p np name Hp.
  - destruct p as [|x p]; [|simpl in Hp; lia]. done.
  - destruct p as [|lo [|hi p]]; simpl in Hp; [lia|lia|]. simpl. destruct (put np lo name) as [name1|]; [|done].
    cbn [mbind outcome_bind]. destruct (lo =? 0); cbn [mbind outcome_bind].
    { rewrite length_app. do 3 f_equal. assert (length p = (n * 2)%nat) as -> by lia.
      rewrite Nat2Z.inj_add, Nat2Z.inj_mul. rewrite Z.add_comm, Z.div_add, Z.div_mul by lia. lia. }
    destruct (lo =? SLASH); [done|]. destruct (lim && _); [done|]. destruct (negb (hi =? 0)); [done|]. apply IH. lia.
Qed.

(** Away from the end of the buffer the test of it does not matter. *)
Lemma read_part_lim lim n p np name :
  length p = (2 * n)%nat -> (np + n <= 255)%nat -> read_part lim p np name = read_part true p np name.
Proof.
  revert p np name. induction n as [|n IH]; intros p np name Hp Hn.
  - destruct p as [|x p]; [done|simpl in Hp; lia].
  - destruct p as [|lo [|hi p]]; simpl in Hp; [lia|lia|]. simpl. destruct (put np lo name) as [name1|]; [|done].
    cbn [mbind outcome_bind]. rewrite (proj2 (Z.ltb_ge WIN_MAXLEN (Z.of_nat (S np)))) by (unfold WIN_MAXLEN; lia).
    rewrite !andb_false_r. destruct (lo =? 0); [done|]. destruct (lo =? SLASH); [done|]. destruct (negb (hi =? 0)); [done|].
    apply IH; lia.
Qed.

(** At the end of the buffer a part ends. *)
Lemma read_part_stops n p np name name' e :
  length p = (2 * n)%nat -> (np <= 255)%nat -> (255 < np + n)%nat -> read_part true p np name = Ok (name', e) ->
  forall np', e <> Next np'.
Proof.
  revert p np name. induction n as [|n IH]; intros p np name Hp Hn Hl; [lia|].
  destruct p as [|lo [|hi p]]; simpl in Hp; [lia|lia|]. simpl. destruct (put np lo name) as [name1|]; [|done].
  cbn [mbind outcome_bind]. destruct (lo =? 0); [by intros [= <- <-]|]. destruct (lo =? SLASH); [by intros [= <- <-]|].
  destruct (Z.ltb_spec WIN_MAXLEN (Z.of_nat (S np))) as [Hw|Hw]; [by intros [= <- <-]|].
  simpl. destruct (negb (hi =? 0)); [by intros [= <- <-]|]. unfold WIN_MAXLEN in Hw. apply IH; lia.
Qed.

Lemma read_part_next n p np name name' np' :
  length p = (2 * n)%nat -> read_part true p np name = Ok (name', Next np') -> np' = (np + n)%nat.
Proof.
  revert p np name. induction n as [|n IH]; intros p np name Hp.
  - destruct p; [|simpl in Hp; lia]. simpl. intros [= _ <-]. lia.
  - destruct p as [|lo [|hi p]]; simpl in Hp; [lia|lia|]. simpl. destruct (put np lo name); [|done].
    cbn [mbind outcome_bind]. destruct (lo =? 0); [done|]. destruct (lo =? SLASH); [done|].
    destruct (WIN_MAXLEN <? _); [done|]. destruct (negb (hi =? 0)); [done|]. intros E. apply IH in E; lia.
Qed.

(** An entry as one row. *)
Definition read_row (wep : winentry) (dp : dirent) (chksum : Z) : outcome (dirent * Z) :=
  let cnt := weCnt wep .& WIN_CNT in
  let last := has (weCnt wep) WIN_LAST in
  let dp := if last then Dirent (u8 (cnt * WIN_CHARS)) (d_name dp) else dp in
  let chksum := if last then weChksum wep else if negb (chksum =? weChksum wep) then -1 else chksum in
  if chksum =? -1 then Ok (dp, -1)
  else
    r ← read_part true (row_of wep) (Z.to_nat ((cnt - 1) * WIN_CHARS)) (d_name dp);
    match r with
    | (name, Nul i) => Ok (Dirent (u8 (d_namlen dp - (i + 1))) name, chksum)
    | (name, Bad) => Ok (Dirent (d_namlen dp) name, -1)
    | (name, Next _) => Ok (Dirent (d_namlen dp) name, chksum)
    end.

Lemma win2unixfn_row wep dp chksum :
  shaped wep -> 1 <= (weCnt wep .& WIN_CNT) <= 20 -> win2unixfn wep dp chksum = read_row wep dp chksum.
Proof.
  intros [L1 L2 L3] Hc. unfold win2unixfn, read_row, row_of. set (cnt := weCnt wep .& WIN_CNT) in *.
  rewrite (proj2 (Z.ltb_ge (howmany WIN_MAXLEN WIN_CHARS) cnt)) by (change (howmany WIN_MAXLEN WIN_CHARS) with 20; lia).
  rewrite (proj2 (Z.eqb_neq cnt 0)) by lia. cbn [orb].
  set (dp1 := if has (weCnt wep) WIN_LAST then _ else dp). set (ck := if has (weCnt wep) WIN_LAST then _ else _).
  destruct (ck =? -1); [done|]. set (np := Z.to_nat ((cnt - 1) * WIN_CHARS)).
  assert (Hnp : np = (13 * (Z.to_nat cnt - 1))%nat) by (unfold np, WIN_CHARS; lia).
  rewrite (read_part_lim in_part1 5) by (done || lia). rewrite (read_part_app true 5) by done.
  destruct (read_part true (wePart1 wep) np (d_name dp1)) as [[name1 e1]|] eqn:E1; [|done]. cbn [mbind outcome_bind].
  destruct e1 as [i| |np1].
  - cbn [mbind outcome_bind]. rewrite length_app, L2, L3. simpl. do 4 f_equal. change (Z.of_nat 16 / 2) with 8. lia.
  - done.
  - change in_part2 with true. rewrite (read_part_app true 6) by done.
    pose proof (read_part_next 5 _ _ _ _ _ L1 E1) as Hnp1.
    destruct (read_part true (wePart2 wep) np1 name1) as [[name2 e2]|] eqn:E2; [|done]. cbn [mbind outcome_bind].
    destruct e2 as [i| |np2].
    + cbn [mbind outcome_bind]. rewrite L3. simpl. do 4 f_equal. change (Z.of_nat 4 / 2) with 2. lia.
    + done.
    + pose proof (read_part_next 6 _ _ _ _ _ L2 E2) as Hnp2.
      assert (Z.to_nat cnt <> 20%nat).
      { intros E20. eapply (read_part_stops 6 (wePart2 wep) np1); [exact L2|lia|lia|exact E2|done]. }
      rewrite (read_part_lim in_part3 2) by (done || lia). destruct (read_part true (wePart3 wep) np2 name2) as [[name3 e3]|]; [|done].
      cbn [mbind outcome_bind]. by destruct e3.
Qed.

(** Whatever an entry holds, reading it stays in the buffer. *)
Lemma read_part_safe n p np name :
  length p = (2 * n)%nat -> length name = 256%nat -> (np <= 255)%nat ->
  exists name' e, read_part true p np name = Ok (name', e) /\ length name' = 256%nat.
Proof.
  revert p np name. induction n as [|n IH]; intros p np name Hp Hl Hn.
  - destruct p as [|x p]; [|simpl in Hp; lia]. by exists name, (Next np).
  - destruct p as [|lo [|hi p]]; simpl in Hp; [lia|lia|]. simpl. unfold put. rewrite decide_True by lia.
    cbn [mbind outcome_bind]. destruct (lo =? 0); [eexists _, _; split; [done|by rewrite length_insert]|].
    destruct (lo =? SLASH); [eexists _, _; split; [done|by rewrite !length_insert]|].
    destruct (Z.ltb_spec WIN_MAXLEN (Z.of_nat (S np))) as [Hw|Hw]; [eexists _, _; split; [done|by rewrite !length_insert]|].
    destruct (negb (hi =? 0)); [eexists _, _; split; [done|by rewrite length_insert]|].
    apply IH; [lia|by rewrite length_insert|unfold WIN_MAXLEN in Hw; lia].
Qed.

Lemma row_of_length wep : shaped wep -> length (row_of wep) = (2 * 13)%nat.
Proof. intros [L1 L2 L3]. unfold row_of. rewrite !length_app. lia. Qed.

Lemma win2unixfn_safe wep dp chksum :
  shaped wep -> length (d_name dp) = 256%nat -> 0 <= weCnt wep ->
  exists dp' r, win2unixfn wep dp chksum = Ok (dp', r) /\ length (d_name dp') = 256%nat.
Proof.
  intros Hs Hl Hc. assert (Hcnt : 0 <= (weCnt wep .& WIN_CNT)) by (apply Z.land_nonneg; by left).
  destruct (decide (1 <= (weCnt wep .& WIN_CNT) <= 20)) as [H|H].
  - rewrite win2unixfn_row by done. unfold read_row. set (dp1 := if has _ _ then _ else dp).
    assert (Hl1 : length (d_name dp1) = 256%nat) by (unfold dp1; by destruct (has _ _)).
    destruct (_ =? -1); [by exists dp1, (-1)|].
    destruct (read_part_safe 13 (row_of wep) (Z.to_nat (((weCnt wep .& WIN_CNT) - 1) * WIN_CHARS)) (d_name dp1))
      as (name' & e & -> & Hl'); [by apply row_of_length|done|unfold WIN_CHARS; lia|].
    cbn [mbind outcome_bind]. destruct e; by eexists _, _.
  - unfold win2unixfn. change (howmany WIN_MAXLEN WIN_CHARS) with 20.
    destruct ((20 <? _) || _) eqn:E; [by exists dp, (-1)|]. apply orb_false_iff in E as [E1 E2]. lia.
Qed.

(** ** Writing and reading *)

(** A character that may be in a name. *)
Definition char_ok (c : Z) : Prop := 1 <= c <= 255 /\ c <> SLASH.

Lemma read_chars l tl np name :
  Forall char_ok l -> (np + length l <= 255)%nat -> length name = 256%nat ->
  read_part true (cells l ++ tl) np name = read_part true tl (np + length l) (list_inserts np l name).
Proof.
  intros Hl. revert np name. induction Hl as [|c l [Hc Hs] Hl IH]; intros np name Hn Hlen.
  - simpl. by rewrite Nat.add_0_r.
  - simpl in Hn. cbn [cells map concat app read_part]. unfold put. rewrite decide_True by lia. cbn [mbind outcome_bind].
    rewrite (proj2 (Z.eqb_neq c 0)), (proj2 (Z.eqb_neq c SLASH)) by (done || lia).
    rewrite (proj2 (Z.ltb_ge WIN_MAXLEN (Z.of_nat (S np)))) by (unfold WIN_MAXLEN; lia). cbn [andb negb Z.eqb].
    fold (cells l). rewrite IH by (rewrite ?length_insert; lia || done). f_equal; [simpl; lia|].
    simpl. symmetry. apply list_insert_inserts_lt. lia.
Qed.

Record name_ok (un : list Z) : Prop := NameOk {
  no_chars : Forall char_ok un;
  no_strip : strip un = un;
  no_len : (1 <= length un <= 255)%nat;
}.

(** The buffer has the name from a position on. *)
Definition agrees (un name : list Z) (p : nat) : Prop :=
  length name = 256%nat /\ forall i, (p <= i < length un)%nat -> name !! i = un !! i.

(** The number and the mark of an entry. *)
Lemma cnt_bits cnt :
  1 <= cnt <= 20 ->
  (u8 (u8 cnt .| WIN_LAST) .& WIN_CNT = cnt /\ has (u8 (u8 cnt .| WIN_LAST)) WIN_LAST = true) /\
  (u8 cnt .& WIN_CNT = cnt /\ has (u8 cnt) WIN_LAST = false).
Proof.
  intros Hc. assert (H : forallb (fun c => (u8 (u8 c .| WIN_LAST) .& WIN_CNT =? c) && has (u8 (u8 c .| WIN_LAST)) WIN_LAST &&
    (u8 c .& WIN_CNT =? c) && negb (has (u8 c) WIN_LAST)) (seqZ 1 20) = true) by (by vm_compute).
  rewrite List.forallb_forall in H. specialize (H cnt). rewrite <- list_elem_of_In, elem_of_seqZ in H.
  specialize (H ltac:(lia)). rewrite !andb_true_iff, negb_true_iff, !Z.eqb_eq in H. tauto.
Qed.

(** Reading the entry [cnt] of a name: what is in front of it stays, and the name is
    there from the entry on if it was there behind it. *)
Lemma read_entry un cnt c wep dp ck :
  name_ok un -> 1 <= cnt <= 20 -> inu 8 c -> (13 * (Z.to_nat cnt - 1) < length un)%nat ->
  let rest := drop (13 * (Z.to_nat cnt - 1)) un in
  row_of wep = row rest -> shaped wep -> weChksum wep = c ->
  weCnt wep = u8 (if decide (length rest <= 13)%nat then u8 cnt .| WIN_LAST else cnt) ->
  length (d_name dp) = 256%nat ->
  ((13 < length rest)%nat -> ck = c /\ d_namlen dp = Z.of_nat (length un) /\ agrees un (d_name dp) (13 * Z.to_nat cnt)) ->
  exists dp', win2unixfn wep dp ck = Ok (dp', c) /\ d_namlen dp' = Z.of_nat (length un) /\
    agrees un (d_name dp') (13 * (Z.to_nat cnt - 1)).
Proof.
  intros Hun Hc Hck Hlt rest Hrow Hsh Ecs Ecnt Hl Hmore. destruct (cnt_bits cnt Hc) as [[B1 B2] [B3 B4]].
  pose proof (no_len _ Hun) as Hlen. assert (Hrl : length rest = (length un - 13 * (Z.to_nat cnt - 1))%nat) by apply length_drop.
  assert (Hch : Forall char_ok rest) by (apply Forall_drop, Hun).
  assert (Hnp : Z.to_nat ((cnt - 1) * WIN_CHARS) = (13 * (Z.to_nat cnt - 1))%nat) by (unfold WIN_CHARS; lia).
  assert (Hc1 : (c =? -1) = false) by (unfold inu in Hck; lia).
  set (p := (13 * (Z.to_nat cnt - 1))%nat) in *.
  assert (Hat : forall i, (p <= i < length un)%nat -> rest !! (i - p)%nat = un !! i).
  { intros i Hi. unfold rest. rewrite lookup_drop. f_equal. lia. }
  destruct (decide (length rest <= 13)%nat) as [Hr|Hr].
  - rewrite win2unixfn_row by (rewrite ?Ecnt, ?B1; done). unfold read_row. rewrite Ecnt, B1, B2, Ecs, Hc1, Hnp, Hrow. cbn [d_name d_namlen].
    unfold row. destruct (decide (13 <= length rest)%nat) as [Hg|Hg].
    + rewrite take_ge by lia. rewrite <- (app_nil_r (cells rest)). rewrite read_chars by (done || lia).
      cbn [read_part mbind outcome_bind]. eexists. split; [done|]. cbn [d_name d_namlen]. split.
      * rewrite wrapu_small by (unfold inu, WIN_CHARS; lia). unfold WIN_CHARS. lia.
      * split; [by rewrite length_inserts|]. intros i Hi. rewrite list_lookup_inserts by lia. by apply Hat.
    + rewrite read_chars by (done || lia). cbn [ending app read_part]. unfold put.
      rewrite decide_True by (rewrite length_inserts; lia). cbn [mbind outcome_bind Z.eqb]. eexists. split; [done|].
      cbn [d_name d_namlen]. split.
      * rewrite untouched_half. unfold wrapu. rewrite Zminus_mod_idemp_l. rewrite Z.mod_small by (unfold WIN_CHARS; lia). unfold WIN_CHARS. lia.
      * split; [by rewrite length_insert, length_inserts|]. intros i Hi. rewrite list_lookup_insert_ne by lia.
        rewrite list_lookup_inserts by lia. by apply Hat.
  - destruct (Hmore ltac:(lia)) as (-> & Hnl & [Hl' Hag]).
    rewrite win2unixfn_row by (rewrite ?Ecnt, ?B3; done). unfold read_row. rewrite Ecnt, B3, B4, Ecs, Z.eqb_refl, Hnp, Hrow. cbn [negb].
    rewrite Hc1. unfold row. rewrite decide_True by lia. rewrite <- (app_nil_r (cells _)).
    assert (length (take 13 rest) = 13%nat) as H13 by (rewrite length_take; lia).
    rewrite read_chars by (try apply Forall_take; done || lia). cbn [read_part mbind outcome_bind]. eexists. split; [done|].
    cbn [d_name d_namlen]. split; [done|]. split; [by rewrite length_inserts|]. intros i Hi.
    destruct (decide (i < p + 13)%nat) as [Hi13|Hi13].
    + rewrite list_lookup_inserts by lia. rewrite lookup_take_lt by lia. by apply Hat.
    + rewrite list_lookup_inserts_ge by lia. apply Hag. unfold p in *. lia.
Qed.

Lemma readdir_app l l' dp ck :
  readdir_name (l ++ l') dp ck = (r ← readdir_name l dp ck; let '(dp, ck) := r in readdir_name l' dp ck).
Proof.
  revert dp ck. induction l as [|w l IH]; intros dp ck; [done|]. simpl. destruct (win2unixfn w dp ck) as [[dp1 ck1]|]; [|done].
  cbn [mbind outcome_bind]. apply IH.
Qed.

(** What [createde] writes for a name from an entry on. *)
Record entry_of (un : list Z) (c cnt : Z) (wep : winentry) : Prop := EntryOf {
  eo_row : row_of wep = row (drop (13 * (Z.to_nat cnt - 1)) un);
  eo_shaped : shaped wep;
  eo_chksum : weChksum wep = c;
  eo_cnt : weCnt wep = u8 (if decide (length (drop (13 * (Z.to_nat cnt - 1)) un) <= 13)%nat then u8 cnt .| WIN_LAST else cnt);
}.

Lemma createde_entries un c fuel cnt :
  name_ok un -> inu 8 c -> 1 <= cnt -> (13 * (Z.to_nat cnt - 1) < length un <= 13 * (Z.to_nat cnt - 1 + fuel))%nat ->
  exists l, createde_name fuel un cnt c = Ok l /\
    (forall i wep, l !! i = Some wep -> entry_of un c (cnt + Z.of_nat i) wep /\
       (13 * (Z.to_nat cnt - 1 + i) < length un)%nat) /\
    (length un <= 13 * (Z.to_nat cnt - 1 + length l))%nat.
Proof.
  intros Hun Hc. revert cnt. induction fuel as [|fuel IH]; intros cnt Hcnt Hf; [lia|].
  pose proof (no_strip _ Hun) as Hst. pose proof (no_len _ Hun) as Hlen.
  destruct (unix2winfn_row un cnt c) as (wep & E & Hrow & Hsh & Hck & Hn).
  { rewrite Hst. intros ->. simpl in Hlen. lia. }
  rewrite Hst in *. replace (Z.to_nat ((cnt - 1) * WIN_CHARS)) with (13 * (Z.to_nat cnt - 1))%nat in * by (unfold WIN_CHARS; lia).
  assert (He : entry_of un c cnt wep) by (split; [done|done|by rewrite Hck, wrapu_small|done]).
  simpl. rewrite E. cbn [mbind outcome_bind]. rewrite length_drop.
  destruct (Z.eqb_spec (Z.of_nat (length un - 13 * (Z.to_nat cnt - 1) - 13)) 0) as [Hz|Hz].
  - exists [wep]. split; [done|]. split; [|simpl; lia]. intros i w Hi. destruct i as [|i]; [|done].
    injection Hi as <-. rewrite Z.add_0_r. split; [done|lia].
  - destruct (IH (cnt + 1)) as (l & -> & Hl & Hlast); [lia|lia|]. cbn [mbind outcome_bind]. exists (wep :: l). split; [done|].
    split; [|simpl; lia]. intros i w Hi. destruct i as [|i].
    + injection Hi as <-. rewrite Z.add_0_r. split; [done|lia].
    + destruct (Hl i w Hi) as [H1 H2]. replace (cnt + Z.of_nat (S i)) with (cnt + 1 + Z.of_nat i) by lia. split; [done|lia].
Qed.

(** Reading the entries from the last one on. *)
Lemma readdir_entries un c cnt l dp ck :
  name_ok un -> inu 8 c -> 1 <= cnt -> l <> [] -> length (d_name dp) = 256%nat ->
  (forall i wep, l !! i = Some wep -> entry_of un c (cnt + Z.of_nat i) wep /\
     (13 * (Z.to_nat cnt - 1 + i) < length un)%nat) ->
  (length un <= 13 * (Z.to_nat cnt - 1 + length l))%nat ->
  exists dp', readdir_name (reverse l) dp ck = Ok (dp', c) /\ d_namlen dp' = Z.of_nat (length un) /\
    agrees un (d_name dp') (13 * (Z.to_nat cnt - 1)).
Proof.
  intros Hun Hc. revert cnt. induction l as [|wep l IH]; intros cnt Hcnt Hne Hl Hw Hend; [done|].
  destruct (Hw 0%nat wep eq_refl) as [[Hrow Hsh Hck Hn] Hlt]. rewrite Z.add_0_r, Nat.add_0_r in *.
  pose proof (no_len _ Hun) as Hlen. rewrite reverse_cons, readdir_app.
  assert (Hmid : exists dp1 ck1, readdir_name (reverse l) dp ck = Ok (dp1, ck1) /\ length (d_name dp1) = 256%nat /\
    ((13 < length (drop (13 * (Z.to_nat cnt - 1)) un))%nat ->
       ck1 = c /\ d_namlen dp1 = Z.of_nat (length un) /\ agrees un (d_name dp1) (13 * Z.to_nat cnt))).
  { destruct l as [|w l].
    - exists dp, ck. split; [done|]. split; [done|]. rewrite length_drop. simpl in Hend. lia.
    - destruct (IH (cnt + 1)) as (dp1 & E & H1 & H2); [lia|done|done| |simpl in *; lia|].
      + intros i x Hx. destruct (Hw (S i) x Hx) as [G1 G2].
        replace (cnt + 1 + Z.of_nat i) with (cnt + Z.of_nat (S i)) by lia. split; [done|lia].
      + exists dp1, c. split; [done|]. split; [apply H2|]. intros _. split_and!; [done|done|].
        by replace (Z.to_nat cnt) with (Z.to_nat (cnt + 1) - 1)%nat by lia. }
  destruct Hmid as (dp1 & ck1 & -> & Hl1 & Hmore). cbn [mbind outcome_bind].
  destruct (read_entry un cnt c wep dp1 ck1) as (dp' & E & H1 & H2); try done; [lia|]. simpl. rewrite E.
  cbn [mbind outcome_bind]. by exists dp'.
Qed.

(** ** Comparing a name with entries *)

Definition same_name (un un' : list Z) : Prop := map u2l un = map u2l un'.

Lemma u2l_zero c : 0 <= c <= 255 -> u2l c = 0 -> c = 0.
Proof.
  intros Hc. assert (H : forallb (fun c => negb (u2l c =? 0)) (seqZ 1 255) = true) by (by vm_compute).
  rewrite List.forallb_forall in H. specialize (H c). rewrite <- list_elem_of_In, elem_of_seqZ, negb_true_iff, Z.eqb_neq in H.
  intros E. destruct (decide (c = 0)); [done|]. destruct H; [lia|done].
Qed.

(** The comparison with a row. *)
Lemma chk_part_app n p q un :
  length p = (2 * n)%nat ->
  chk_part (p ++ q) un = match chk_part p un with inl un' => chk_part q un' | inr b => inr b end.
Proof.
  revert p un. induction n as [|n IH]; intros p un Hp.
  - destruct p as [|x p]; [done|simpl in Hp; lia].
  - destruct p as [|lo [|hi p]]; simpl in Hp; [lia|lia|]. simpl. destruct un as [|c un]; [done|].
    destruct (_ && _); [|done]. apply IH. lia.
Qed.

Lemma chk_cells l tl un :
  Forall char_ok l ->
  chk_part (cells l ++ tl) un =
    if decide (map u2l l = map u2l (take (length l) un)) then chk_part tl (drop (length l) un) else inr false.
Proof.
  intros Hl. revert un. induction Hl as [|c l [Hc _] Hl IH]; intros un; [done|].
  cbn [cells map concat app chk_part length]. destruct un as [|x un]; simpl.
  - rewrite (proj2 (Z.eqb_neq c 0)) by lia. done.
  - rewrite andb_true_r. fold (cells l). destruct (Z.eqb_spec (u2l c) (u2l x)) as [E|E]; [|by rewrite decide_False by congruence].
    rewrite IH, E. by destruct (decide _) as [E2|E2]; [rewrite decide_True by congruence|rewrite decide_False by congruence].
Qed.

Lemma chk_row wep un ck :
  shaped wep -> 1 <= (weCnt wep .& WIN_CNT) ->
  let p := (13 * (Z.to_nat (weCnt wep .& WIN_CNT) - 1))%nat in
  let last := has (weCnt wep) WIN_LAST in
  let ck' := if last then weChksum wep else if negb (ck =? weChksum wep) then -1 else ck in
  winChkName un wep ck =
    Ok (if (ck' =? -1) || bool_decide (length un <= p)%nat || (last && bool_decide (13 < length un - p)%nat) then -1
        else match chk_part (row_of wep) (drop p un) with inr false => -1 | _ => ck' end).
Proof.
  intros [L1 L2 L3] Hc p last ck'. unfold winChkName. fold last ck'. destruct (ck' =? -1) eqn:E; [done|]. cbn [orb].
  set (cnt := weCnt wep .& WIN_CNT) in *.
  assert (Ep : (cnt - 1) * WIN_CHARS = Z.of_nat p) by (unfold p, WIN_CHARS; lia). rewrite Ep.
  case_bool_decide as Hp; cbn [orb].
  { by rewrite (proj2 (Z.leb_le _ 0)) by lia. }
  rewrite (proj2 (Z.leb_gt _ 0)) by lia.
  assert ((WIN_CHARS <? Z.of_nat (length un) - Z.of_nat p) = bool_decide (13 < length un - p)%nat) as ->.
  { unfold WIN_CHARS. case_bool_decide; [apply Z.ltb_lt|apply Z.ltb_ge]; lia. }
  destruct (last && _); [done|]. rewrite (proj2 (Z.ltb_ge _ 0)) by lia. rewrite Nat2Z.id. unfold row_of.
  rewrite (chk_part_app 5) by done. destruct (chk_part (wePart1 wep) (drop p un)) as [u1|b]; [|by destruct b].
  rewrite (chk_part_app 6) by done. destruct (chk_part (wePart2 wep) u1) as [u2|b]; [|by destruct b].
  by destruct (chk_part (wePart3 wep) u2) as [u3|[]].
Qed.

(** An entry matches a name when the name is the same, but for case, in the places
    of the entry; the last entry wants the name to end with it. *)
Lemma chk_entry un un' c cnt wep ck :
  name_ok un -> Forall char_ok un' -> 1 <= cnt <= 20 -> inu 8 c -> entry_of un c cnt wep ->
  let p := (13 * (Z.to_nat cnt - 1))%nat in (p < length un)%nat ->
  winChkName un' wep ck =
    Ok (if decide (length (drop p un) <= 13)%nat
        then if decide (map u2l (drop p un') = map u2l (drop p un)) then c else -1
        else if decide (ck = c /\ map u2l (take 13 (drop p un')) = map u2l (take 13 (drop p un))) then c else -1).
Proof.
  intros Hun Hun' Hcnt Hc [Hrow Hsh Hck Hn] p Hp. destruct (cnt_bits cnt Hcnt) as [[B1 B2] [B3 B4]]. fold p in Hrow, Hn.
  assert (Hc1 : (c =? -1) = false) by (unfold inu in Hc; lia).
  assert (Hch : Forall char_ok (drop p un)) by (apply Forall_drop, Hun).
  assert (Hch' : Forall char_ok (drop p un')) by (by apply Forall_drop).
  assert (Hlen : length (drop p un) = (length un - p)%nat) by apply length_drop.
  assert (Hlen' : length (drop p un') = (length un' - p)%nat) by apply length_drop.
  assert (Hmap : forall l l' : list Z, map u2l l = map u2l l' -> length l = length l').
  { intros l l' E. by rewrite <- (length_map u2l l), E, length_map. }
  assert (Hshort : (length un' <= p)%nat -> forall n, (0 < n)%nat ->
    map u2l (take n (drop p un')) <> map u2l (take n (drop p un)) /\ map u2l (drop p un') <> map u2l (drop p un)).
  { intros Hs n Hpos. split; intros E%Hmap; rewrite ?length_take in E; lia. }
  destruct (decide (length (drop p un) <= 13)%nat) as [Hl|Hl].
  - rewrite chk_row by (rewrite ?Hn, ?B1; done || lia). rewrite Hn, B1, B2, Hck, Hc1. cbn [orb andb]. fold p. rewrite Hrow. f_equal.
    case_bool_decide as Hs; cbn [orb].
    { rewrite decide_False; [done|]. apply (Hshort Hs 13%nat). lia. }
    case_bool_decide as H13; cbn [orb].
    { rewrite decide_False; [done|]. intros E%Hmap. lia. }
    unfold row. destruct (decide (13 <= length (drop p un))%nat) as [Hg|Hg].
    + rewrite take_ge, <- (app_nil_r (cells _)) by lia. rewrite chk_cells by done. rewrite (take_ge (drop p un')) by lia.
      destruct (decide (map u2l (drop p un) = _)) as [E|E]; [by rewrite decide_True by done|by rewrite decide_False by congruence].
    + rewrite chk_cells by done. destruct (decide (map u2l (drop p un) = _)) as [E|E].
      * destruct (drop (length (drop p un)) (drop p un')) as [|x xs] eqn:Ed.
        -- cbn [ending app chk_part Z.eqb andb]. rewrite decide_True; [done|]. rewrite E.
           rewrite <- (take_drop (length (drop p un)) (drop p un')) at 1. by rewrite Ed, app_nil_r.
        -- assert (Hx : char_ok x).
           { rewrite Forall_forall in Hch'. apply Hch'. rewrite <- (take_drop (length (drop p un)) (drop p un')), Ed.
             apply elem_of_app. right. by left. }
           cbn [ending app chk_part]. change (u2l 0) with 0. destruct (Z.eqb_spec 0 (u2l x)) as [Ez|_].
           { destruct Hx as [Hx _]. assert (x = 0) by (apply u2l_zero; [lia|done]). lia. }
           cbn [andb]. rewrite decide_False; [done|]. intros E'%Hmap. apply (f_equal length) in Ed. rewrite length_drop in Ed.
           simpl in Ed. lia.
      * rewrite decide_False; [done|]. intros E'. apply E. rewrite <- E'. f_equal. rewrite take_ge; [done|].
        apply Hmap in E'. lia.
  - rewrite chk_row by (rewrite ?Hn, ?B3; done || lia). rewrite Hn, B3, B4, Hck. cbn [andb]. rewrite orb_false_r. fold p. rewrite Hrow. f_equal.
    unfold row. rewrite decide_True by lia. destruct (Z.eqb_spec ck c) as [->|Hne]; cbn [negb].
    2: { change (-1 =? -1) with true. cbn [orb]. rewrite decide_False; [done|]. by intros []. }
    rewrite Hc1. cbn [orb]. case_bool_decide as Hs.
    { rewrite decide_False; [done|]. intros [_ E]. revert E. apply (Hshort Hs 13%nat). lia. }
    rewrite <- (app_nil_r (cells _)), chk_cells by (by apply Forall_take).
    rewrite length_take, Nat.min_l by lia.
    destruct (decide (map u2l (take 13 (drop p un)) = _)) as [E|E]; [by rewrite decide_True by done|].
    rewrite decide_False; [done|]. intros [_ E']. by apply E.
Qed.

Lemma lookup_app l l' un ck :
  lookup_entries (l ++ l') un ck = (ck ← lookup_entries l un ck; lookup_entries l' un ck).
Proof.
  revert ck. induction l as [|w l IH]; intros ck; [done|]. simpl. destruct (winChkName un w ck) as [ck1|]; [|done].
  cbn [mbind outcome_bind]. apply IH.
Qed.

Lemma lookup_written un un' c cnt l ck :
  name_ok un -> Forall char_ok un' -> inu 8 c -> 1 <= cnt -> l <> [] ->
  (forall i wep, l !! i = Some wep -> entry_of un c (cnt + Z.of_nat i) wep /\
     (13 * (Z.to_nat cnt - 1 + i) < length un)%nat) ->
  (length un <= 13 * (Z.to_nat cnt - 1 + length l))%nat ->
  let p := (13 * (Z.to_nat cnt - 1))%nat in
  lookup_entries (reverse l) un' ck = Ok (if decide (map u2l (drop p un') = map u2l (drop p un)) then c else -1).
Proof.
  intros Hun Hun' Hc. revert cnt. induction l as [|wep l IH]; intros cnt Hcnt Hne Hw Hend p; [done|].
  destruct (Hw 0%nat wep eq_refl) as [He Hlt]. rewrite Z.add_0_r, Nat.add_0_r in *.
  pose proof (no_len _ Hun) as Hlen. rewrite reverse_cons, lookup_app.
  assert (Hstep : forall ck1, lookup_entries [wep] un' ck1 = winChkName un' wep ck1).
  { intros ck1. simpl. by destruct (winChkName un' wep ck1). }
  destruct l as [|w l].
  - cbn [reverse rev_append lookup_entries mbind outcome_bind]. change (reverse (@nil winentry)) with (@nil winentry).
    cbn [lookup_entries mbind outcome_bind]. simpl in Hend.
    assert (lookup_entries [wep] un' ck = winChkName un' wep ck) as E by apply Hstep. cbn [lookup_entries] in E. rewrite E.
    rewrite (chk_entry un un' c cnt wep ck) by (done || lia). rewrite decide_True by (rewrite length_drop; lia). done.
  - rewrite (IH (cnt + 1)).
    2-3: lia || done.
    2: { intros i x Hx. destruct (Hw (S i) x Hx) as [G1 G2].
         replace (cnt + 1 + Z.of_nat i) with (cnt + Z.of_nat (S i)) by lia. split; [done|lia]. }
    2: { simpl in *. lia. }
    cbn [mbind outcome_bind]. rewrite Hstep, (chk_entry un un' c cnt wep) by (done || lia).
    destruct (Hw 1%nat w eq_refl) as [_ H1]. rewrite (decide_False (P := (length _ <= 13)%nat)) by (rewrite length_drop; unfold p; lia).
    f_equal. replace (13 * (Z.to_nat (cnt + 1) - 1))%nat with (p + 13)%nat by (unfold p; lia). rewrite <- !drop_drop. fold p.
    set (x := drop p un'). set (y := drop p un).
    assert (Hxy : map u2l x = map u2l y <-> map u2l (take 13 x) = map u2l (take 13 y) /\ map u2l (drop 13 x) = map u2l (drop 13 y)).
    { rewrite <- !firstn_map, <- !skipn_map. split; [by intros ->|]. intros [E1 E2].
      by rewrite <- (take_drop 13 (map u2l x)), <- (take_drop 13 (map u2l y)), E1, E2. }
    destruct (decide (map u2l (drop 13 x) = map u2l (drop 13 y))) as [E|E].
    + destruct (decide (map u2l x = map u2l y)) as [E'|E'].
      * rewrite decide_True; [done|]. split; [done|]. by apply Hxy.
      * rewrite decide_False; [done|]. intros [_ E2]. apply E'. by apply Hxy.
    + rewrite decide_False by (unfold inu in Hc; intros []; lia). rewrite decide_False; [done|]. intros E'. apply E. by apply Hxy.
Qed.

End MsdosName.
