(* ===== verification/MsdosShort.v ===== *)
(** * Short names of MS-DOS file systems: the proofs

    [unix2dosfn] makes names that DOS accepts, and those made without dropping a
    character are read back, in lower case if need be. *)

From S2P Require Import Prelude Msdos.
Import Msdos.

Module MsdosShort.

(** ** The tables *)

Definition byte (c : Z) : Prop := 0 <= c <= 255.

Lemma for_bytes (P : Z -> bool) c : forallb P (seqZ 0 256) = true -> byte c -> P c = true.
Proof.
  intros H Hc. rewrite List.forallb_forall in H. apply H. apply list_elem_of_In, elem_of_seqZ. unfold byte in Hc. lia.
Qed.

(** What DOS has for a character is the same character, but for case, when it is
    read; the accent 0xb4 is read as a question mark. *)
Lemma table_back c : byte c -> unix2dos c <> 0 -> c <> 0xb4 -> u2l (dos2unix (unix2dos c)) = u2l c.
Proof.
  intros Hc Hn Hb. pose proof (for_bytes (fun c => (unix2dos c =? 0) || (c =? 0xb4) || (u2l (dos2unix (unix2dos c)) =? u2l c)) c
    ltac:(by vm_compute) Hc) as H. rewrite !orb_true_iff, !Z.eqb_eq in H. tauto.
Qed.

Lemma table_same c : byte c -> unix2dos c <> 0 -> unix2dos c = c -> dos2unix c = c.
Proof.
  intros Hc Hn He. pose proof (for_bytes (fun c => (unix2dos c =? 0) || negb (unix2dos c =? c) || (dos2unix c =? c)) c
    ltac:(by vm_compute) Hc) as H. rewrite !orb_true_iff, negb_true_iff, Z.eqb_neq, !Z.eqb_eq in H. tauto.
Qed.

(** A character that DOS accepts in a name. *)
Definition forbidden : list Z :=
  [0x22; 0x2a; 0x2b; 0x2c; 0x2e; 0x2f; 0x3a; 0x3b; 0x3c; 0x3d; 0x3e; 0x3f; 0x5b; 0x5c; 0x5d; 0x7c; 0x7f].
Definition dos_charb (c : Z) : bool :=
  (0 <? c) && (c <? 256) && negb ((0x61 <=? c) && (c <=? 0x7a)) && negb (existsb (Z.eqb c) forbidden).
Definition dos_char (c : Z) : Prop := dos_charb c = true.

Lemma table_dos_char c : byte c -> unix2dos c <> 0 -> dos_char (unix2dos c) /\ unix2dos c <> BLANK /\ unix2dos c <> SLOT_E5.
Proof.
  intros Hc Hn. pose proof (for_bytes (fun c => (unix2dos c =? 0) || (dos_charb (unix2dos c) && negb (unix2dos c =? BLANK) &&
    negb (unix2dos c =? SLOT_E5))) c ltac:(by vm_compute) Hc) as H.
  rewrite orb_true_iff, !andb_true_iff, !negb_true_iff, !Z.eqb_neq, Z.eqb_eq in H. unfold dos_char. tauto.
Qed.

(** ** Converting a part *)

(** What is put is what DOS has for some of the characters. *)
Definition made (acc : list Z) (l : list Z) : Prop :=
  Forall (fun d => exists c, c ∈ l /\ unix2dos c = d /\ d <> 0) acc.

Lemma put_chars_made l n acc conv out rest conv' l0 :
  put_chars l n acc conv = (out, rest, conv') -> (forall c, c ∈ l -> c ∈ l0) -> made acc l0 ->
  made out l0 /\ (length out <= length acc + n)%nat.
Proof.
  revert n acc conv. induction l as [|c l IH]; intros n acc conv.
  { destruct n; intros [= <- <- <-] _ H; (split; [done|lia]). }
  destruct n as [|n]; [intros [= <- <- <-] _ H; split; [done|lia]|]. simpl. intros E Hl Hacc.
  destruct (Z.eqb_spec (unix2dos c) 0) as [Hz|Hz].
  - apply IH in E; [done|set_solver|done].
  - apply IH in E; [rewrite length_app in E; simpl in E; split; [tauto|lia]|set_solver|].
    apply Forall_app. split; [done|]. apply Forall_singleton. exists c. split; [apply Hl; by left|done].
Qed.

(** A conversion that drops nothing. *)
Lemma put_chars_clean l n acc conv out rest conv' :
  put_chars l n acc conv = (out, rest, conv') -> conv' <> 3 -> conv = 1 \/ conv = 2 \/ conv = 3 ->
  exists k, l = k ++ rest /\ out = acc ++ map unix2dos k /\ Forall (fun c => unix2dos c <> 0) k /\ (length k <= n)%nat /\
    conv <> 3 /\ (conv' = 1 \/ conv' = 2) /\ (conv' = 1 -> conv = 1 /\ Forall (fun c => unix2dos c = c) k).
Proof.
  revert n acc conv. induction l as [|c l IH]; intros n acc conv.
  { destruct n; intros [= <- <- <-] H3 Hc; exists []; (split; [done|]; split; [by rewrite app_nil_r|]; split; [done|];
      split; [simpl; lia|]; split; [done|]; split; [tauto|]; done). }
  destruct n as [|n].
  { intros [= <- <- <-] H3 Hc. exists []. split; [done|]. split; [by rewrite app_nil_r|]. split; [done|].
    split; [simpl; lia|]. split; [done|]. split; [tauto|]. done. }
  simpl. set (conv1 := if negb (c =? unix2dos c) && negb (conv =? 3) then 2 else conv).
  destruct (Z.eqb_spec (unix2dos c) 0) as [Hz|Hz]; intros E H3 Hc.
  - apply IH in E as (k & _ & _ & _ & _ & H & _); [done|done|tauto].
  - assert (Hc1 : conv1 = 1 \/ conv1 = 2 \/ conv1 = 3) by (unfold conv1; destruct (_ && _); tauto).
    apply IH in E as (k & -> & -> & Hk & Hlen & Hn3 & Hv & H1); [|done|done].
    exists (c :: k). simpl. split_and!; try done; try lia.
    + by rewrite <- app_assoc.
    + by constructor.
    + intros ->. apply Hn3. unfold conv1. by rewrite andb_false_r.
    + intros Hv1. destruct (H1 Hv1) as [E1 E2]. unfold conv1 in E1.
      destruct (negb (c =? unix2dos c) && negb (conv =? 3)) eqn:Eb; [done|]. split; [done|]. constructor; [|done].
      rewrite E1 in Eb. simpl in Eb. rewrite andb_true_r, negb_false_iff, Z.eqb_eq in Eb. done.
Qed.

(** ** The search for the extension *)

Record at_dot (un : list Z) (p : Z) : Prop := AtDot {
  ad_low : 2 <= p;
  ad_dot : un !! Z.to_nat (p - 1) = Some DOT;
}.

Lemma find_ext_ok un l pre dp dp1 dp' dp1' :
  un = pre ++ l -> (1 <= length pre)%nat -> find_ext l (Z.of_nat (length pre)) dp dp1 = (dp', dp1') ->
  (forall p, dp = Some p -> at_dot un p /\ p < Z.of_nat (length pre)) ->
  (forall q, dp1 = Some q -> at_dot un q /\ q <= Z.of_nat (length pre) /\ forall p, dp = Some p -> p < q) ->
  (forall p, dp' = Some p -> at_dot un p /\ p < Z.of_nat (length un)) /\
  (forall q, dp1' = Some q -> at_dot un q /\ q <= Z.of_nat (length un) /\ forall p, dp' = Some p -> p < q).
Proof.
  revert pre dp dp1. induction l as [|c l IH]; intros pre dp dp1 Hun Hpre E Hdp Hdp1.
  - simpl in E. injection E as <- <-. rewrite app_nil_r in Hun. by subst pre.
  - assert (Hun' : un = (pre ++ [c]) ++ l) by (by rewrite <- app_assoc).
    assert (Hl' : Z.of_nat (length pre) + 1 = Z.of_nat (length (pre ++ [c]))) by (rewrite length_app; simpl; lia).
    assert (Hp' : (1 <= length (pre ++ [c]))%nat) by (rewrite length_app; lia).
    assert (Hchar : un !! length pre = Some c) by (rewrite Hun; apply list_lookup_middle; done).
    simpl in E. rewrite Hl' in E. destruct (Z.eqb_spec c DOT) as [->|Hd].
    + eapply (IH (pre ++ [DOT])); [done|done|exact E| |].
      * intros p Hp. destruct (Hdp p Hp). split; [done|]. lia.
      * destruct dp1 as [q|]; intros q0 [= <-].
        -- destruct (Hdp1 q eq_refl) as (H1 & H2 & H3). split_and!; [done|lia|done].
        -- split_and!; [|lia|intros p Hp; destruct (Hdp p Hp); lia]. split; [lia|].
           replace (Z.to_nat (Z.of_nat (length (pre ++ [DOT])) - 1)) with (length pre) by lia. done.
    + destruct (Z.eqb_spec c BLANK) as [->|Hb].
      * eapply (IH (pre ++ [BLANK])); [done|done|exact E| |].
        -- intros p Hp. destruct (Hdp p Hp). split; [done|]. lia.
        -- intros q Hq. destruct (Hdp1 q Hq) as (H1 & H2 & H3). split_and!; [done|lia|done].
      * eapply (IH (pre ++ [c])); [done|done|exact E| |done]. intros p Hp. destruct dp1 as [q|].
        -- injection Hp as <-. destruct (Hdp1 q eq_refl) as (H1 & H2 & H3). split; [done|lia].
        -- destruct (Hdp p Hp). split; [done|]. lia.
Qed.

(** ** The whole name *)

Definition dotted (ke : list Z) : list Z := match ke with [] => [] | _ => DOT :: ke end.

(** The parts of a name and what became of them. *)
Record parts (un kn ke : list Z) (r : Z) (dn : list Z) : Prop := Parts {
  pa_un : un = kn ++ dotted ke;
  pa_name : kn <> [];
  pa_len : (length kn <= 8)%nat;
  pa_ext : (length ke <= 3)%nat;
  pa_chars : Forall (fun c => unix2dos c <> 0) kn /\ Forall (fun c => unix2dos c <> 0) ke;
  pa_dn : dn = pad 8 (unmark (map unix2dos kn)) ++ pad 3 (map unix2dos ke);
  pa_same : r = 1 -> Forall (fun c => unix2dos c = c) kn /\ Forall (fun c => unix2dos c = c) ke;
}.

(** The end of [unix2dosfn], when nothing was dropped. *)
Lemma convert_name name ext conv gen r dn :
  dos_finish ext conv name gen = (r, dn) ->
  r = 1 \/ r = 2 -> conv = 1 \/ conv = 2 \/ conv = 3 -> name <> [] ->
  Forall (fun c => unix2dos c <> 0) name /\ (length name <= 8)%nat /\ conv <> 3 /\
  dn = pad 8 (unmark (map unix2dos name)) ++ pad 3 ext /\
  (r = 1 -> conv = 1 /\ Forall (fun c => unix2dos c = c) name).
Proof.
  unfold dos_finish. intros E Hr Hc Hne. destruct (put_chars name 8 [] conv) as [[nm rest] conv1] eqn:Ep.
  destruct (bool_decide (rest = [])) eqn:Erest.
  2: { cbn [Z.eqb Pos.eqb negb] in E. destruct (digits 6 gen []) as [text g]. destruct (negb (g =? 0)); injection E as <- _; lia. }
  apply bool_decide_eq_true in Erest as ->. cbv zeta in E. destruct (Z.eqb_spec conv1 3) as [->|H3]; cbn [negb] in E.
  { destruct (digits 6 gen []) as [text g]. destruct (negb (g =? 0)); injection E as <- _; lia. }
  apply put_chars_clean in Ep as (k & Ek & -> & Hk & Hlen & Hn3 & Hv & H1); [|done|done]. rewrite app_nil_r in Ek. subst k.
  cbn [app] in E. rewrite bool_decide_eq_false_2 in E by (by destruct name).
  injection E as Er <-. split_and!; try done. intros ->. destruct (1 <? gen); [done|]. by apply H1.
Qed.

Lemma put_chars_conv l n acc conv out rest conv' :
  put_chars l n acc conv = (out, rest, conv') -> conv = 1 \/ conv = 2 \/ conv = 3 -> conv' = 1 \/ conv' = 2 \/ conv' = 3.
Proof.
  revert n acc conv. induction l as [|c l IH]; intros n acc conv; [by destruct n; intros [= _ _ <-]|].
  destruct n as [|n]; [by intros [= _ _ <-]|]. simpl. intros E Hc. destruct (unix2dos c =? 0); apply IH in E; try done; [tauto|].
  destruct (_ && _); tauto.
Qed.

(** A name is its parts. *)
Lemma unix2dosfn_clean un gen r dn :
  unix2dosfn un gen = (r, dn) -> r = 1 \/ r = 2 -> un <> [DOT] -> un <> [DOT; DOT] -> strip un = un -> un <> [] ->
  exists kn ke, parts un kn ke r dn.
Proof.
  intros E Hr H1 H2 Hst Hne. unfold unix2dosfn in E. rewrite !bool_decide_eq_false_2 in E by done.
  destruct (forallb blank_or_dot un); [injection E as <- _; lia|].
  unfold dos_parts in E. destruct (find_ext (drop 1 un) 1 None None) as [dp dp1] eqn:Ef.
  destruct un as [|x un']; [done|]. set (un := x :: un') in *.
  apply (find_ext_ok un un' [x]) in Ef as [Hdp Hdp1]; [|done|simpl; lia|done|done].
  destruct dp as [p|].
  - destruct (Hdp p eq_refl) as [[Hp Hdot] Hpl].
    destruct (put_chars _ 3 [] 1) as [[ext rest] cv] eqn:Ep in E.
    assert (Hsplit : un = take (Z.to_nat (p - 1)) un ++ DOT :: drop (Z.to_nat p) un).
    { rewrite <- (take_drop_middle un (Z.to_nat (p - 1)) DOT Hdot) at 1. do 2 f_equal. f_equal. lia. }
    apply convert_name in E as (Hk & Hlen & Hn3 & -> & Hs); [|done| |].
    2: { case_bool_decide; [|tauto]. eapply put_chars_conv; [exact Ep|tauto]. }
    2: { intros E0. apply (f_equal length) in E0. rewrite length_take in E0. simpl in E0, Hpl. lia. }
    destruct (bool_decide (rest = [])) eqn:Erest; [|done]. apply bool_decide_eq_true in Erest as ->.
    apply put_chars_clean in Ep as (k & Ek & -> & Hke & Hkl & _ & _ & Hks); [|done|tauto]. rewrite app_nil_r in Ek.
    assert (dp1 = None) as ->.
    { destruct dp1 as [q|]; [exfalso|done]. destruct (Hdp1 q eq_refl) as ([_ Hqd] & Hql & Hpq). specialize (Hpq p eq_refl).
      assert (Hin : DOT ∈ k).
      { rewrite <- Ek. apply (list_elem_of_lookup_2 _ (Z.to_nat (q - 1 - p))). rewrite lookup_take_lt by lia.
        rewrite lookup_drop. rewrite <- Hqd. f_equal. lia. }
      rewrite Forall_forall in Hke. by apply (Hke DOT Hin). }
    rewrite take_ge in Ek by (rewrite length_drop; lia).
    exists (take (Z.to_nat (p - 1)) un), k. split; try done.
    + rewrite Hsplit at 1. rewrite Ek. f_equal. destruct k; [|done]. exfalso. apply (f_equal length) in Ek.
      rewrite length_drop in Ek. simpl in Ek, Hpl. lia.
    + intros E0. apply (f_equal length) in E0. rewrite length_take in E0. simpl in E0, Hpl. lia.
    + intros ->. destruct (Hs eq_refl) as [-> H]. split; [done|]. by apply Hks.
  - apply convert_name in E as (Hk & Hlen & _ & -> & Hs); [|done|tauto|by rewrite Hst]. rewrite Hst in *.
    exists un, []. split; try done.
    + by rewrite app_nil_r.
    + simpl. lia.
    + intros ->. split; [by apply Hs|done].
Qed.

(** ** Reading a short name *)

Definition back (lower : bool) (d : Z) : Z := if lower then u2l (dos2unix d) else dos2unix d.

Lemma upto_blank_pad lower l n tl :
  Forall (fun d => d <> BLANK) l -> tl = replicate n BLANK -> upto_blank lower (l ++ tl) = map (back lower) l.
Proof.
  intros Hl ->. induction Hl as [|d l Hd _ IH]; simpl.
  - destruct n; [done|]. by simpl.
  - rewrite (proj2 (Z.eqb_neq d BLANK) Hd). by rewrite IH.
Qed.

Lemma dos2unixfn_pad lower nm ext :
  nm <> [] -> (length nm <= 8)%nat -> (length ext <= 3)%nat -> Forall (fun d => d <> BLANK /\ d <> SLOT_E5) nm ->
  Forall (fun d => d <> BLANK) ext ->
  dos2unixfn (pad 8 (unmark nm) ++ pad 3 ext) lower = map (back lower) nm ++ dotted (map (back lower) ext).
Proof.
  intros Hne Hn He Hnm Hext. destruct nm as [|c nm]; [done|]. apply Forall_cons in Hnm as [[Hc1 Hc2] Hnm]. simpl in Hn.
  set (c' := if c =? 0xe5 then SLOT_E5 else c).
  assert (Hdrop : drop 8 (pad 8 (unmark (c :: nm)) ++ pad 3 ext) = pad 3 ext).
  { rewrite drop_app_length'; [done|]. unfold pad. simpl. rewrite length_app, length_replicate. lia. }
  unfold dos2unixfn. rewrite Hdrop. unfold pad at 1. cbn [unmark app]. fold c'.
  assert ((if c' =? SLOT_E5 then dos2unix SLOT_DELETED else dos2unix c') = dos2unix c) as ->.
  { unfold c'. destruct (Z.eqb_spec c 0xe5) as [->|]; [done|]. by rewrite (proj2 (Z.eqb_neq c SLOT_E5) Hc2). }
  cbn [map]. fold (back lower c). cbn [app]. f_equal. f_equal.
  - assert (take 7 ((nm ++ replicate (8 - length (c' :: nm)) BLANK) ++ pad 3 ext) = nm ++ replicate (7 - length nm) BLANK) as ->.
    { rewrite take_app_length'; [done|]. rewrite length_app, length_replicate. simpl. lia. }
    apply (upto_blank_pad lower nm (7 - length nm)); [|done]. eapply Forall_impl; [exact Hnm|]. by intros d [].
  - destruct ext as [|e ext]; [done|]. apply Forall_cons in Hext as [Hb Hext]. unfold pad. cbn [app].
    rewrite (proj2 (Z.eqb_neq e BLANK) Hb). cbn [map dotted]. f_equal.
    apply (upto_blank_pad lower (e :: ext) (3 - length (e :: ext))); [by constructor|done].
Qed.

(** A name that lost no character comes back: as it was if the result was 1, else in
    lower case. *)
Lemma short_back un gen r dn lower :
  unix2dosfn un gen = (r, dn) -> r = 1 \/ r = 2 -> Forall byte un -> strip un = un \/ un = [DOT] \/ un = [DOT; DOT] -> un <> [] ->
  (lower = false -> r = 1) -> (lower = true -> 0xb4 ∉ un) ->
  dos2unixfn dn lower = if lower then map u2l un else un.
Proof.
  intros E Hr Hb Hst Hne Hlow Hacc.
  destruct (decide (un = [DOT])) as [->|H1].
  { unfold unix2dosfn in E. rewrite bool_decide_eq_true_2 in E by done. injection E as _ <-. by destruct lower. }
  destruct (decide (un = [DOT; DOT])) as [->|H2].
  { unfold unix2dosfn in E. rewrite bool_decide_eq_false_2, bool_decide_eq_true_2 in E by done. injection E as _ <-.
    by destruct lower. }
  destruct (unix2dosfn_clean un gen r dn E Hr H1 H2) as (kn & ke & [Hun Hn0 Hl1 Hl2 [Hk1 Hk2] -> Hsame]); [tauto|done|].
  assert (Hbk : Forall byte kn /\ Forall byte ke).
  { rewrite Hun in Hb. apply Forall_app in Hb as [Hb1 Hb2]. split; [done|]. destruct ke; [done|]. by apply Forall_cons in Hb2 as []. }
  destruct Hbk as [Hb1 Hb2].
  assert (Hch : forall k, Forall byte k -> Forall (fun c => unix2dos c <> 0) k ->
    Forall (fun d => d <> BLANK /\ d <> SLOT_E5) (map unix2dos k)).
  { intros k Hkb Hkn. apply Forall_forall. intros d Hd. apply list_elem_of_fmap in Hd as (c & -> & Hc).
    rewrite Forall_forall in Hkb, Hkn. by destruct (table_dos_char c (Hkb c Hc) (Hkn c Hc)) as (_ & ? & ?). }
  rewrite dos2unixfn_pad.
  2: { by destruct kn. }
  2-3: by rewrite length_map.
  2: by apply Hch.
  2: { eapply Forall_impl; [by apply Hch|]. by intros d []. }
  assert (Hback : forall k, Forall byte k -> Forall (fun c => unix2dos c <> 0) k -> (forall c, c ∈ k -> c ∈ un) ->
    (r = 1 -> Forall (fun c => unix2dos c = c) k) -> map (back lower) (map unix2dos k) = if lower then map u2l k else k).
  { intros k Hkb Hkn Hin Hks. rewrite Forall_forall in Hkb, Hkn. rewrite map_map. destruct lower; unfold back.
    - apply map_ext_in. intros c Hc%list_elem_of_In. apply table_back; [by apply Hkb|by apply Hkn|]. intros ->.
      apply Hacc; [done|]. by apply Hin.
    - specialize (Hks (Hlow eq_refl)). rewrite Forall_forall in Hks. rewrite <- (map_id k) at 2. apply map_ext_in.
      intros c Hc%list_elem_of_In. rewrite (Hks c Hc). apply table_same; [by apply Hkb|by apply Hkn|by apply Hks]. }
  rewrite !Hback; try done.
  - rewrite Hun. destruct lower; [|by destruct ke]. rewrite map_app. f_equal. by destruct ke.
  - intros c Hc. rewrite Hun. apply elem_of_app. right. destruct ke; [done|]. by right.
  - apply Hsame.
  - intros c Hc. rewrite Hun. apply elem_of_app. by left.
  - apply Hsame.
Qed.

(** ** What DOS accepts *)

Definition valid (n : nat) (dn : list Z) : Prop :=
  length dn = n /\ Forall dos_char dn /\ exists c dn', dn = c :: dn' /\ c <> BLANK /\ c <> SLOT_DELETED.

Lemma digits_ok n gen acc text g :
  digits n gen acc = (text, g) -> 0 <= gen -> Forall dos_char acc ->
  Forall dos_char text /\ (length text <= length acc + n)%nat.
Proof.
  revert gen acc. induction n as [|n IH]; intros gen acc; simpl; [intros [= <- <-]; split; [done|lia]|].
  destruct (Z.eqb_spec gen 0); [intros [= <- <-]; split; [done|lia]|]. intros E Hg Ha.
  apply IH in E; [simpl in E; split; [tauto|lia]|Z.div_mod_to_equations; lia|]. constructor; [|done].
  assert (Hd : 48 <= gen mod 10 + 48 <= 57) by (Z.div_mod_to_equations; lia).
  unfold dos_char, dos_charb. rewrite !andb_true_iff, !negb_true_iff, andb_false_iff. split_and!; try lia.
  destruct (existsb _ forbidden) eqn:Ee; [|done]. apply List.existsb_exists in Ee as (y & Hy & Hye). apply Z.eqb_eq in Hye as <-.
  unfold forbidden in Hy. simpl in Hy. lia.
Qed.

Lemma last_char_range name : -1 <= last_char name < Z.of_nat (length name).
Proof. induction name as [|c name IH]; simpl last_char; [done|]. simpl length. destruct (_ && _); lia. Qed.

Lemma last_char_head c name : c <> BLANK -> 0 <= last_char (c :: name).
Proof. intros Hc. simpl. rewrite (proj2 (Z.eqb_neq c BLANK) Hc), andb_false_r. pose proof (last_char_range name). lia. Qed.

Lemma put_gen_valid name text :
  valid 8 name -> Forall dos_char text -> (length text <= 6)%nat -> valid 8 (put_gen name text).
Proof.
  intros (Hl & Hv & c & name' & En & Hc1 & Hc2) Ht Htl. unfold put_gen.
  pose proof (last_char_range name) as Hr. rewrite Hl in Hr. assert (Hh : 0 <= last_char name) by (subst name; by apply last_char_head).
  set (i := if 8 - last_char name <? _ then _ else _).
  assert (Hi : 0 <= i /\ i + Z.of_nat (length text) + 1 <= 8).
  { unfold i. destruct (Z.ltb_spec (8 - last_char name) (Z.of_nat (length text) + 1)); lia. }
  set (k := Z.to_nat i). split_and!.
  - rewrite !length_app, length_take, length_drop. simpl. lia.
  - apply Forall_app. split; [by apply Forall_take|]. apply Forall_app. split; [by constructor|by apply Forall_drop].
  - destruct k as [|k]; [by exists 0x7e, (text ++ drop (S (length text)) name)|].
    rewrite En. eexists c, _. split; [done|]. done.
Qed.

Lemma pad_valid nm ext :
  (1 <= length nm <= 8)%nat -> (length ext <= 3)%nat -> Forall dos_char nm -> Forall dos_char ext ->
  (exists c nm', nm = c :: nm' /\ c <> BLANK /\ c <> SLOT_DELETED) ->
  valid 8 (pad 8 nm) /\ length (pad 3 ext) = 3%nat /\ Forall dos_char (pad 3 ext).
Proof.
  intros Hn He Hv Hve (c & nm' & -> & Hc). unfold pad. split; [split_and!|split].
  - rewrite length_app, length_replicate. lia.
  - apply Forall_app. split; [done|]. by apply Forall_replicate.
  - by eexists c, _.
  - rewrite length_app, length_replicate. lia.
  - apply Forall_app. split; [done|]. by apply Forall_replicate.
Qed.

Lemma made_ok acc l : Forall byte l -> made acc l -> Forall dos_char acc /\ Forall (fun d => d <> BLANK) acc.
Proof.
  intros Hl Ha. rewrite Forall_forall in Hl. split; eapply Forall_impl; try exact Ha; intros d (c & Hc & <- & Hd);
    by destruct (table_dos_char c (Hl c Hc) Hd) as (? & ? & ?).
Qed.

Lemma valid_app n nm ext :
  valid n nm -> length ext = 3%nat -> Forall dos_char ext -> valid (n + 3) (nm ++ ext).
Proof.
  intros (Hl & Hv & c & nm' & -> & Hc) He Hve. split_and!; [rewrite length_app; lia|by apply Forall_app|].
  by eexists c, _.
Qed.

Lemma strip_in c un : c ∈ strip un -> c ∈ un.
Proof.
  induction un as [|x un IH]; simpl; [done|]. destruct (strip un) as [|y l] eqn:E.
  - destruct (blank_or_dot x); [by intros ?%elem_of_nil|]. intros ->%list_elem_of_singleton. by left.
  - intros [->|H]%elem_of_cons; [by left|]. right. by apply IH.
Qed.

Lemma take_in (c : Z) n l : c ∈ take n l -> c ∈ l.
Proof. intros H. rewrite <- (take_drop n l). apply elem_of_app. by left. Qed.

Lemma drop_in (c : Z) n l : c ∈ drop n l -> c ∈ l.
Proof. intros H. rewrite <- (take_drop n l). apply elem_of_app. by right. Qed.

Lemma dos_parts_made un ext conv name :
  dos_parts un = (ext, conv, name) -> made ext un /\ (length ext <= 3)%nat /\ forall c, c ∈ name -> c ∈ un.
Proof.
  unfold dos_parts. destruct (find_ext _ 1 None None) as [[p|] dp1].
  - destruct (put_chars _ 3 [] 1) as [[e rest] cv] eqn:Ep. intros [= <- _ <-].
    apply (put_chars_made _ _ _ _ _ _ _ un) in Ep as [Hm Hl]; [|by intros c Hc%take_in%drop_in|constructor].
    split_and!; [done|simpl in Hl; lia|by intros c Hc%take_in].
  - intros [= <- _ <-]. split; [by apply Forall_nil_2|]. split; [simpl; lia|]. intros c. apply strip_in.
Qed.

Lemma unix2dosfn_valid un gen r dn :
  unix2dosfn un gen = (r, dn) -> r <> 0 -> un <> [DOT] -> un <> [DOT; DOT] -> Forall byte un -> 0 <= gen -> valid 11 dn.
Proof.
  intros E Hr H1 H2 Hb Hg. unfold unix2dosfn in E. rewrite !bool_decide_eq_false_2 in E by done.
  destruct (forallb blank_or_dot un); [by injection E as <- _|].
  destruct (dos_parts un) as [[ext conv] name] eqn:Ep. apply dos_parts_made in Ep as (Hm & He & Hn).
  unfold dos_finish in E. destruct (put_chars name 8 [] conv) as [[nm rest] conv1] eqn:Enm.
  apply (put_chars_made _ _ _ _ _ _ _ un) in Enm as [Hnm Hl]; [|done|constructor]. simpl in Hl.
  destruct (made_ok _ _ Hb Hm) as [Hext _]. destruct (made_ok _ _ Hb Hnm) as [Hc Hbl].
  set (nm1 := unmark (if bool_decide (nm = []) then [0x5f] else nm)) in E.
  destruct (pad_valid nm1 ext) as (Hv & Hl3 & Hv3); try done.
  { clear E. unfold nm1. case_bool_decide; [simpl; lia|]. destruct nm; simpl in *; [done|lia]. }
  { clear E. unfold nm1. case_bool_decide; [by repeat constructor|]. destruct nm as [|c nm]; [done|]. apply Forall_cons in Hc as [Hc Hc'].
    simpl. constructor; [|done]. by destruct (c =? 0xe5). }
  { clear E. unfold nm1. case_bool_decide; [by eexists _, _|]. destruct nm as [|c nm]; [done|]. apply Forall_cons in Hbl as [Hbl _].
    simpl. eexists _, _. split; [done|]. destruct (Z.eqb_spec c 0xe5); done. }
  destruct (negb _); [injection E as _ <-; by apply (valid_app 8)|].
  destruct (digits 6 gen []) as [text g] eqn:Ed. apply digits_ok in Ed as [Ht Htl]; [|done|constructor].
  destruct (negb (g =? 0)); [by injection E as <- _|]. injection E as _ <-. apply (valid_app 8); [|done|done].
  by apply put_gen_valid.
Qed.

End MsdosShort.
