(* ===== verification/MsdosSpec.v ===== *)
(** * Names and times of MS-DOS file systems: the theorems *)

From S2P Require Import Prelude Msdos MsdosTime MsdosName MsdosShort.
Import Msdos MsdosTime MsdosName MsdosShort.

Module MsdosSpec.

(** ** Times *)

Inductive time_call : Type :=
| ToDos (sec nsec : Z)
| FromDos (dd dt dh : Z).

Inductive time_result : Type :=
| Dos (r : Z * Z * Z)
| Unix (r : Z * Z).

(** Calls one after the other, with the variables of the file. *)
Fixpoint time_calls (tz : Z) (st : conv) (l : list time_call) : outcome (list time_result) :=
  match l with
  | [] => Ok []
  | ToDos sec nsec :: l' =>
      match unix2dostime tz st sec nsec with
      | Some (st, r) => rs ← time_calls tz st l'; Ok (Dos r :: rs)
      | None => Panic
      end
  | FromDos dd dt dh :: l' =>
      r ← dos2unixtime tz st dd dt dh;
      let '(st, r) := r in rs ← time_calls tz st l'; Ok (Unix r :: rs)
  end.

(** Each call for itself. *)
Definition alone (tz : Z) (c : time_call) : outcome time_result :=
  match c with
  | ToDos sec nsec => match to_dos tz sec nsec with Some r => Ok (Dos r) | None => Panic end
  | FromDos dd dt dh => r ← from_dos tz dd dt dh; Ok (Unix r)
  end.

Fixpoint all_alone (tz : Z) (l : list time_call) : outcome (list time_result) :=
  match l with [] => Ok [] | c :: l' => r ← alone tz c; rs ← all_alone tz l'; Ok (r :: rs) end.

Definition time_call_ok (c : time_call) : Prop := match c with FromDos dd _ _ => inu 16 dd | _ => True end.

Lemma time_calls_alone tz st l :
  conv_ok st -> Forall time_call_ok l -> time_calls tz st l = all_alone tz l.
Proof.
  intros Hst Hl. revert st Hst. induction Hl as [|c l Hc _ IH]; intros st Hst; [done|]. destruct c as [sec nsec|dd dt dh]; simpl.
  - destruct (unix2dostime_ok tz st sec nsec Hst) as (st' & r & -> & -> & Hst'). cbn [mbind outcome_bind]. by rewrite IH.
  - pose proof (dos2unixtime_ok tz st dd dt dh Hst Hc) as H. destruct (from_dos tz dd dt dh) as [r|]; [|by rewrite H].
    destruct H as (st' & -> & Hst'). cbn [mbind outcome_bind]. by rewrite IH.
Qed.

(** C39: the conversions of times are inverse to each other and what they keep from
    call to call never shows: every sequence of calls gives what each call gives for
    itself, the loops end, and a time from 1980 to 2107 that is converted to DOS and
    back is the same to 10 milliseconds, modulo 2 to the 32 seconds. *)
Theorem msdos_times tz l sec nsec :
  -1440 <= tz <= 1440 -> Forall time_call_ok l -> DOSEPOCH <= sec - tz * 60 <= DOSENDTIME -> 0 <= nsec < 1000000000 ->
  time_calls tz conv_init l = all_alone tz l /\
  exists dd dt dh, alone tz (ToDos sec nsec) = Ok (Dos (dd, dt, dh)) /\
    alone tz (FromDos dd dt dh) = Ok (Unix (u32 sec, nsec - nsec mod 10000000)).
Proof.
  intros Htz Hl Hsec Hns. split; [by apply time_calls_alone; [apply conv_init_ok|]|].
  destruct (from_to_dos tz sec nsec Htz Hsec Hns) as (dd & dt & dh & E1 & _ & E2). exists dd, dt, dh. simpl. by rewrite E1, E2.
Qed.

(** ** Long names *)

#[global] Instance same_name_dec un un' : Decision (same_name un un').
Proof. unfold same_name. apply _. Defined.

Lemma slots_enough un : name_ok un -> (length un <= 13 * Z.to_nat (winSlotCnt un))%nat /\ winSlotCnt un <= 20.
Proof.
  intros [_ Hs Hl]. unfold winSlotCnt. rewrite Hs. rewrite (proj2 (Z.ltb_ge WIN_MAXLEN _)) by (unfold WIN_MAXLEN; lia).
  unfold howmany, WIN_CHARS. assert (H : 0 <= Z.of_nat (length un) <= 255) by lia. Z.div_mod_to_equations. lia.
Qed.

(** A name that ends in neither a blank nor a dot. *)
Lemma long_name_stripped un c :
  name_ok un -> inu 8 c ->
  exists l, createde_name (Z.to_nat (winSlotCnt un)) un 1 c = Ok l /\ Z.of_nat (length l) = winSlotCnt un /\
    (forall dp ck, length (d_name dp) = 256%nat ->
       exists dp', readdir_name (reverse l) dp ck = Ok (dp', c) /\ take (Z.to_nat (d_namlen dp')) (d_name dp') = un) /\
    (forall un' ck, Forall char_ok un' ->
       lookup_name (reverse l) un' ck = Ok (if decide (same_name (strip un') un) then c else -1)).
Proof.
  intros Hun Hc. destruct (slots_enough un Hun) as [Hs Hs20]. pose proof (no_len _ Hun) as Hlen.
  destruct (createde_entries un c (Z.to_nat (winSlotCnt un)) 1 Hun Hc) as (l & E & Hl & Hend); [lia|simpl; lia|].
  assert (Hne : l <> []) by (intros ->; simpl in Hend; lia).
  exists l. split; [done|]. split; [|split].
  - destruct l as [|w l] using rev_ind; [done|]. destruct (Hl (length l) w) as [_ Hlt].
    { rewrite lookup_app_r, Nat.sub_diag by lia. done. }
    rewrite length_app in *. simpl in *. revert Hs Hs20. unfold winSlotCnt. rewrite (no_strip _ Hun).
    rewrite (proj2 (Z.ltb_ge WIN_MAXLEN _)) by (unfold WIN_MAXLEN; lia). unfold howmany, WIN_CHARS.
    Z.div_mod_to_equations. lia.
  - intros dp ck Hdp. destruct (readdir_entries un c 1 l dp ck Hun Hc) as (dp' & E' & H1 & H2 & H3); try done.
    exists dp'. split; [done|]. rewrite H1, Nat2Z.id. apply list_eq. intros i.
    destruct (decide (i < length un)%nat) as [Hi|Hi]; [rewrite lookup_take_lt by lia; apply H3; lia|].
    rewrite !lookup_ge_None_2; [done|lia|rewrite length_take; lia].
  - intros un' ck Hun'. unfold lookup_name, same_name.
    rewrite (lookup_written un (strip un') c 1 l ck); try done.
    apply Forall_forall. intros x Hx%strip_in. rewrite Forall_forall in Hun'. by apply Hun'.
Qed.

(** Trailing blanks and dots make no difference to the entries. *)
Lemma strip_idem un : strip (strip un) = strip un.
Proof.
  induction un as [|c un IH]; [done|]. simpl. destruct (strip un) as [|x l] eqn:E.
  - destruct (blank_or_dot c) eqn:Ec; simpl; [done|by rewrite Ec].
  - change (strip (c :: x :: l)) with (match strip (x :: l) with [] => if blank_or_dot c then [] else [c] | r => c :: r end).
    by rewrite IH.
Qed.

Lemma createde_name_strip n un cnt c : createde_name n (strip un) cnt c = createde_name n un cnt c.
Proof.
  revert cnt. induction n as [|n IH]; intros cnt; [done|]. cbn [createde_name].
  assert (unix2winfn (strip un) cnt c = unix2winfn un cnt c) as -> by (unfold unix2winfn; by rewrite strip_idem).
  destruct (unix2winfn un cnt c) as [[wep n']|]; [|done]. cbn [mbind outcome_bind]. by rewrite IH.
Qed.

(** C38: a long name goes through a directory, but for its trailing blanks and dots,
    which are dropped: for a name with something else in it and at most 255
    characters without them (no NUL or slash), the entries that createde writes fill
    the slots counted, readdir finds in them the name without its trailing blanks and
    dots, its length and the checksum, whatever was in its buffer, and lookup matches
    them with exactly the names that are the same but for case and trailing blanks
    and dots. *)
Theorem msdos_long_name un c :
  Forall char_ok un -> (1 <= length (strip un) <= 255)%nat -> inu 8 c ->
  exists l, createde_name (Z.to_nat (winSlotCnt un)) un 1 c = Ok l /\ Z.of_nat (length l) = winSlotCnt un /\
    (forall dp ck, length (d_name dp) = 256%nat ->
       exists dp', readdir_name (reverse l) dp ck = Ok (dp', c) /\
         take (Z.to_nat (d_namlen dp')) (d_name dp') = strip un) /\
    (forall un' ck, Forall char_ok un' ->
       lookup_name (reverse l) un' ck = Ok (if decide (same_name (strip un') (strip un)) then c else -1)).
Proof.
  intros Hun Hlen Hc. assert (winSlotCnt un = winSlotCnt (strip un)) as -> by (unfold winSlotCnt; by rewrite strip_idem).
  rewrite <- createde_name_strip. apply long_name_stripped; [|done]. split; [|apply strip_idem|done].
  apply Forall_forall. intros x Hx%strip_in. rewrite Forall_forall in Hun. by apply Hun.
Qed.

(** C40: whatever the entries of a directory hold, reading a long name from them
    stays within the buffer for the name. *)
Theorem msdos_long_safe l dp ck :
  Forall (fun wep => shaped wep /\ 0 <= weCnt wep) l -> length (d_name dp) = 256%nat ->
  exists dp' ck', readdir_name l dp ck = Ok (dp', ck') /\ length (d_name dp') = 256%nat.
Proof.
  intros Hl. revert dp ck. induction Hl as [|wep l [Hs Hc] _ IH]; intros dp ck Hdp; [by exists dp, ck|].
  simpl. destruct (win2unixfn_safe wep dp ck Hs Hdp Hc) as (dp1 & ck1 & -> & H1). cbn [mbind outcome_bind]. by apply IH.
Qed.

(** ** Short names *)

(** A short name that was made is one that DOS accepts: eleven characters, none
    of them lower case or reserved, the first neither blank nor the mark of a deleted
    entry.  If no character was dropped, dos2unixfn gives the name back in lower
    case, and as it was if the result was 1. *)
Theorem msdos_short_name un gen r dn :
  unix2dosfn un gen = (r, dn) -> r <> 0 -> Forall byte un -> 0 <= gen -> un <> [] -> strip un = un -> 0xb4 ∉ un ->
  valid 11 dn /\ (r <> 3 -> dos2unixfn dn true = map u2l un /\ (r = 1 -> dos2unixfn dn false = un)).
Proof.
  intros E Hr Hb Hg Hne Hst Hacc.
  assert (Hd : un <> [DOT] /\ un <> [DOT; DOT]) by (by split; intros ->). destruct Hd as [H1 H2].
  split; [by eapply unix2dosfn_valid|]. intros H3.
  assert (Hr12 : r = 1 \/ r = 2).
  { unfold unix2dosfn in E. rewrite !bool_decide_eq_false_2 in E by done.
    destruct (forallb blank_or_dot un); [by injection E as <- _|]. destruct (dos_parts un) as [[ext conv] name] eqn:Ep.
    unfold dos_finish in E. destruct (put_chars name 8 [] conv) as [[nm rest] conv1] eqn:En.
    assert (Hcv : conv = 1 \/ conv = 2 \/ conv = 3).
    { unfold dos_parts in Ep. destruct (find_ext _ 1 None None) as [[p|] dp1]; [|injection Ep as _ <- _; by left].
      destruct (put_chars _ 3 [] 1) as [[e rs] cv] eqn:Ex. injection Ep as _ <- _. clear E. case_bool_decide; [|lia].
      eapply put_chars_conv; [exact Ex|lia]. }
    apply put_chars_conv in En; [|done].
    destruct (negb _) eqn:Eb; [|destruct (digits 6 gen []) as [text g]; destruct (negb (g =? 0)); injection E as <- _; lia].
    destruct (1 <? gen); [by injection E as <- _|]. injection E as E _. destruct (bool_decide (rest = [])); lia. }
  split; [|intros ->].
  - apply (short_back un gen r dn true); try done. by left.
  - apply (short_back un gen 1 dn false); try done. by left.
Qed.

(** ** Examples *)

(** Bytes of a text. *)
Definition text (s : string) : list Z := map (fun c => Z.of_nat (Ascii.nat_of_ascii c)) (String.list_ascii_of_string s).

(** From the year 2106 on the time is read as one after 1970: it is computed in 32
    bits. *)
Example time_wraps :
  (r ← alone 0 (ToDos 4294967296 0); match r with Dos (dd, dt, dh) => alone 0 (FromDos dd dt dh) | _ => Panic end) =
    Ok (Unix (0, 0)).
Proof. by vm_compute. Qed.

(** The first of March 2100 is taken for the 29th of February. *)
Example year_2100 : ddate 47541 = Some (Z.shiftl 120 DD_YEAR_SHIFT + Z.shiftl 2 DD_MONTH_SHIFT + 29).
Proof. by vm_compute. Qed.

(** The month 14 of a date on the disk is looked up beyond the table. *)
Example month_out_of_table : date_seconds (Z.shiftl 14 DD_MONTH_SHIFT + 1) = Panic.
Proof. by vm_compute. Qed.

(** An entry with the number 0 makes the comparison read in front of the name. *)
Example entry_zero :
  winChkName (text "name") (Winentry 0 (replicate 10 0) ATTR_WIN95 0 7 (replicate 12 0) 0 (replicate 4 0)) 7 = Panic.
Proof. by vm_compute. Qed.

(** A name with a trailing dot is reported as the same as the converted one. *)
Example trailing_dot : unix2dosfn (text "FOO.") 0 = (1, text "FOO        ").
Proof. by vm_compute. Qed.

(** The generation number 0 is inserted, as a tilde, over the last character. *)
Example generation_zero : unix2dosfn (text "A+B") 0 = (3, text "A~         ").
Proof. by vm_compute. Qed.

(** The acute accent, which DOS has as 0xef, is read as a question mark. *)
Example acute_accent : unix2dos 0xb4 = 0xef /\ dos2unix 0xef = 0x3f.
Proof. by vm_compute. Qed.

(** ** Witnesses *)

Lemma msdos_times_witness :
  time_calls 60 conv_init [ToDos 1000000001 5; FromDos 11049 0 0; ToDos 1000000002 0] =
    all_alone 60 [ToDos 1000000001 5; FromDos 11049 0 0; ToDos 1000000002 0] /\
  exists dd dt dh, alone 60 (ToDos 1000000001 123456789) = Ok (Dos (dd, dt, dh)) /\
    alone 60 (FromDos dd dt dh) = Ok (Unix (1000000001, 120000000)).
Proof.
  apply (msdos_times 60 [ToDos 1000000001 5; FromDos 11049 0 0; ToDos 1000000002 0] 1000000001 123456789).
  - lia.
  - repeat constructor. unfold inu. lia.
  - unfold DOSEPOCH, DOSENDTIME. lia.
  - lia.
Defined.

(** A name of two entries. *)
Definition demo : list Z := text "Long File Name. .".

Lemma demo_ok : Forall char_ok demo.
Proof.
  apply Forall_forall. intros c Hc.
  assert (H : forallb (fun c => (1 <=? c) && (c <=? 255) && negb (c =? SLASH)) demo = true) by (by vm_compute).
  rewrite List.forallb_forall in H. specialize (H c ltac:(by apply list_elem_of_In)).
  rewrite !andb_true_iff, negb_true_iff, Z.eqb_neq in H. unfold char_ok. lia.
Qed.

Lemma msdos_long_name_witness :
  exists l, createde_name (Z.to_nat (winSlotCnt demo)) demo 1 0x5a = Ok l /\ Z.of_nat (length l) = winSlotCnt demo /\
    (forall dp ck, length (d_name dp) = 256%nat ->
       exists dp', readdir_name (reverse l) dp ck = Ok (dp', 0x5a) /\
         take (Z.to_nat (d_namlen dp')) (d_name dp') = strip demo) /\
    (forall un' ck, Forall char_ok un' ->
       lookup_name (reverse l) un' ck = Ok (if decide (same_name (strip un') (strip demo)) then 0x5a else -1)).
Proof. apply (msdos_long_name demo 0x5a); [apply demo_ok|by vm_compute; lia|unfold inu; lia]. Defined.

(** The last entry, with junk for a name that is too long. *)
Definition junk : winentry :=
  Winentry (0x40 .| 20) (cells [65; 66; 67; 68; 69]) ATTR_WIN95 0 7 (cells [70; 71; 72; 73; 74; 75]) 0 (cells [76; 77]).

Lemma msdos_long_safe_witness :
  exists dp' ck', readdir_name [junk] (Dirent 0 (replicate 256 0)) (-1) = Ok (dp', ck') /\ length (d_name dp') = 256%nat.
Proof.
  apply (msdos_long_safe [junk] (Dirent 0 (replicate 256 0)) (-1)); [|done].
  repeat constructor. by vm_compute.
Defined.

Lemma msdos_short_name_witness :
  valid 11 (text "NAME    TXT") /\
  (2 <> 3 -> dos2unixfn (text "NAME    TXT") true = map u2l (text "Name.Txt") /\
     (2 = 1 -> dos2unixfn (text "NAME    TXT") false = text "Name.Txt")).
Proof.
  apply (msdos_short_name (text "Name.Txt") 0 2 (text "NAME    TXT")).
  - by vm_compute.
  - done.
  - repeat constructor; by vm_compute.
  - lia.
  - done.
  - by vm_compute.
  - apply (bool_decide_eq_true_1 _). by vm_compute.
Defined.

End MsdosSpec.
